(* ===== verification/_CoqProject ===== *)
-Q . S2P
Prelude.v
Bytes.v
Crc32c.v
Record.v
Codec.v
File.v
BlockReader.v
RaftState.v
RaftRpc.v
RaftStateStore.v
RaftLogSpec.v
RaftNode.v
RaftSafety.v
RaftCommit.v
RaftCarrier.v
RaftElection.v
RaftLog.v
RaftLogRecovery.v
RecordCodec.v
TransactionCoordinator.v
TransactionSafety.v
ConsumerGroup.v
GroupSafety.v
Partition.v
TxnIndex.v
SegmentCrypto.v
Segment.v
SegmentSafety.v
Decimal.v
StorageTier.v
PartitionLog.v
PartitionLogSafety.v
GroupCoordinator.v
LogCompactor.v
Frame.v
Messages.v
FrameIo.v
Topics.v
TopicsSafety.v
Hashes.v
RequestRouter.v
RouterSafety.v
Connection.v
CircuitBreaker.v
CreditWindow.v
Proxy.v
Json.v
JsonSafety.v
KafkaCodec.v
KafkaApis.v
KafkaWire.v
KafkaReplies.v
KafkaBatch.v
KafkaGateway.v
KafkaSafety.v
KafkaService.v
Http.v
HttpSafety.v
Jwt.v
JwtSafety.v
RestGateway.v
AdminApi.v
RestSafety.v
Queues.v
SpscSafety.v
MpmcSafety.v
Reactor.v
ReactorSafety.v
RaftLink.v
Clients.v
ClientSafety.v
Metrics.v
MetricsSafety.v
OperationPort.v
OperationSafety.v
TlsStream.v
Telemetry.v
