(* ===== verification/Prelude.v ===== *)
(** * NexusMQ: a verification development

    NexusMQ ([src/]) is a message broker in C++: partitioned logs on disk, replicated with Raft,
    idempotent producers, transactions and consumer groups.  This library translates its core into
    executable definitions and proves what makes them correct.  This file is the root: the index
    below, and the error results, machine integers and list lemmas the other files share.

    ** How the parts interact

    A client's batch of records ([common/record.cpp], encoded by [common/record_codec.cpp]) goes
    to a partition ([broker/partition.cpp] or [broker/replicated_partition.cpp]), which checks the
    producer's sequence and appends the batch to its partition log ([storage/partition_log.cpp], a
    list of [storage/segment.cpp] with their [storage/index.cpp]), directly or through a Raft
    proposal.  A Raft replica ([consensus/raft_node.cpp]) is a synchronous state machine that a
    carrier ([consensus/raft_carrier.cpp]) drives: it feeds it the messages and the clock,
    persists the term and the vote ([consensus/raft_state_store.cpp]) and sends what the replica
    left in its outbox.  The replica's log ([consensus/raft_log.cpp]) keeps the entries in the
    partition log and their terms in two sidecar files.  The transaction coordinator
    ([broker/transaction_coordinator.cpp]) decides transactions and queues the markers that each
    partition indexes ([broker/partition_txn_index.cpp]); consumer groups
    ([broker/consumer_group.cpp]) share the partitions out.  A broker is a set of cores, each with
    its topics ([broker/topic_manager.cpp]); the router ([broker/request_router.cpp]) sends a
    request to the core that owns its partition or its group, and a connection
    ([server/connection.hpp]) reads frames, dispatches them and answers.  The cores are reactors
    ([reactor/]) whose coroutines call each other through queues between the threads, and nodes
    exchange their Raft messages over links ([cluster/raft_link.cpp]).  In front of several brokers
    the ingress ([ingress/]) balances, relays and protects, over TLS; an operation port serves REST,
    health, metrics and a stream of events; producers and consumers are the clients of [client/].

    ** Files

    Foundations.
    - [Prelude]: [common/error.hpp]; integers with their wrap-around written out.
    - [Bytes]: little-endian stores and loads of [common/types.hpp], and [common/varint.cpp].
      [Crc32c]: [common/crc32c.cpp] (the SSE4.2 instructions are parameters with their documented
      meaning).  [Codec]: the reader and writer of [protocol/codec.cpp].  [Hashes]: FNV-1a, SHA-256
      and HMAC.
    - [Record], [RecordCodec]: [common/record.cpp], [record_codec.cpp] with [compression.cpp] (LZ4 and
      Zstd are parameters) and [control_record.cpp].
    - [File]: [io/file.cpp] on POSIX.  What the system calls do is a plan, a list of outcomes
      (partial transfers, [EINTR], errors) the operations consume.  [BlockReader]:
      [io/block_reader.cpp], its cache and readahead.

    Storage.
    - [SegmentCrypto], [Segment]: [segment_crypto.cpp] (OpenSSL is the class [Crypto] with laws),
      [storage/index.cpp] and [segment.cpp]; [SegmentSafety] relates a segment to the sequence of
      batches it holds.
    - [Decimal], [StorageTier]: file names, the remote tier's port (class) and its local
      implementation ([storage/storage_tier.cpp], [local_storage_tier.cpp]).
    - [PartitionLog], [PartitionLogSafety]: [storage/partition_log.cpp] with retention and the tier,
      and its refinement of a list of batches.  [LogCompactor]: [storage/log_compactor.cpp].

    Consensus.
    - [RaftState], [RaftRpc], [RaftStateStore]: [consensus/raft_state.cpp], [raft_rpc.cpp] with
      [raft_wire.cpp], [raft_state_store.cpp].
    - [RaftLogSpec]: what a replica asks of its log (class [RaftLogOps], laws [RaftLogLaws]) and an
      abstract log that satisfies it.  [RaftLog] implements it over the class [PartitionLogOps].
    - [RaftNode]: the replica, one definition per handler.  [RaftSafety], [RaftCommit],
      [RaftElection] prove over the interface; [RaftLogRecovery] reopens the log from its files.
    - [RaftCarrier]: the driver and its order of persisting and sending.  [RaftLink]: the links
      between nodes ([cluster/raft_link.cpp], [raft_transport.cpp]), over transports that fail.

    Broker.
    - [TransactionCoordinator] with [TransactionSafety]; [ConsumerGroup] with [GroupSafety];
      [Partition] (producer sessions, both kinds of partition); [TxnIndex]; [GroupCoordinator]
      ([group_coordinator.cpp], [offset_manager.cpp]); [CreditWindow] ([credit_window.hpp], with the
      state of a connection, [connection_state.hpp], and the limiter of [rate_limiter.hpp]).
    - [Topics] ([topic_manager.cpp], and [topic_cluster.cpp] whose turns on the cores interleave)
      with [TopicsSafety]; [RequestRouter] (every handler, and the dispatch over the cores) with
      [RouterSafety], which proves the sharded broker equal to a single core.

    Cores.
    - [Queues]: the queues between threads ([reactor/spsc_queue.hpp], [mpmc_queue.hpp]) as steps of
      threads on a memory whose loads may be stale, with [SpscSafety] and [MpmcSafety].
    - [Reactor]: [reactor/reactor.cpp], [cross_core.cpp], [cross_core_call.hpp], the timers and the pool,
      as steps of cores that interleave, with [ReactorSafety].

    Protocol and connections.
    - [Frame], [Messages]: [protocol/frame.cpp], [versioning.cpp], [error_code.cpp] and
      [messages.cpp].  [FrameIo]: [wire/frame_io.hpp] over the class of a byte stream, and a stream
      that cuts its transfers as a plan says.  [Connection]: [server/connection.hpp] and the round
      trip of [client/client.cpp].  [Clients]: the producer and the consumer of [client/], with
      [ClientSafety], which follows records from one to the other.
    - Kafka clients: [KafkaCodec] and [KafkaApis] translate [kafka/codec.cpp] and the messages
      ([kafka/messages.cpp], [produce.cpp], [fetch.cpp], [list_offsets.cpp], [metadata.cpp]);
      [KafkaBatch] and [KafkaGateway] the facade ([kafka/record_batch.cpp], [gateway.cpp],
      [server/kafka_adapter.cpp], [kafka_connection.hpp]).  [KafkaWire] and [KafkaReplies] write a
      client of the protocol apart from the code; [KafkaSafety] follows records through the log,
      and [KafkaService] calls, connections and cores.

    Ingress.
    - [CircuitBreaker] ([circuit_breaker.cpp], [health_check.hpp]), [Proxy] ([load_balancer.cpp],
      [proxy.cpp], [upstream_pool.cpp], [cluster/peer_directory.cpp]), [Json] with [JsonSafety]
      ([json_value.cpp], [json.cpp], and the text of doubles).
    - [Http] with [HttpSafety] ([ingress/http.cpp], [pagination.cpp], [problem_detail.cpp] and
      [read_http_request] of [server/admin_http.cpp]); [Jwt] with [JwtSafety] ([common/base64.cpp],
      [ingress/jwt.cpp]); [TlsStream] ([ingress/tls.cpp]; OpenSSL is a class with laws).
    - [RestGateway] ([rest_gateway.cpp]) over the port of [admin_service.hpp] (class [AdminService]),
      which [AdminApi] ([server/admin_api.cpp]) implements on the broker of [RequestRouter], so that
      REST and the wire protocol administer the same cores.  [RestSafety] composes them.
    - [Metrics] with [MetricsSafety] ([telemetry/metrics.cpp] and its exposition); [OperationPort] with
      [OperationSafety] ([server/admin_router.cpp], [admin_http.cpp], [health_monitor.cpp]);
      [Telemetry] ([telemetry/logging.cpp], [tracing.cpp]).

    ** What the theorems show

    - End to end: what a producer sends to a partition a consumer polls, in order and once; calls and
      sessions are served over streams that cut bytes at will; a broker of many cores answers as one
      of a single core does, while partitions open and their directories are removed.
    - Replicas: one leader per term when stale probe replies are not delivered (and two when they
      are); log matching of AppendEntries; the commit rule is the majority rule; monotone term,
      vote and commit index; leaders only append; a link delivers, in order, some of what is sent.
    - Durability: the Raft log reopens as it was after any successful calls; a segment whose files are
      cut at any byte opens and recovers its whole batches (in the clear, when the cut took the header
      of a sealed one); a partition log is the log of batches its calls describe; its scans end; and
      the block reader reads what the file holds.
    - Broker: decisions of transactions stand until the producer begins another; the rounds of consumer
      groups; nothing a producer retries is appended twice by a store that appends nothing when it
      fails (and twice by a log whose fsync fails); the read-committed filter is exact, but for one
      kind of fetch that it loses data on; the creation of a topic is all or none unless a deletion
      runs between its turns; compaction keeps the table the records describe.
    - Cores: the reactors of a pool take turns and lose nothing, no core sleeps over a message, and the
      two queues are queues on a memory with stale loads.
    - Ingress: a request is received as it was written; a token is accepted exactly when it is signed
      and its claims hold, and without one nothing is done; the proxy is transparent; TLS is a plain
      stream; flow control by credits bounds what is in flight and never wraps, for a receiver that
      gives back what it drained; the breaker is the breaker of its last results, consistent hashing
      moves the fewest keys, JSON is read back and its parser ends.
    - Operation: the metrics, the stream of events, the logs and the trace headers are read back by
      readers written apart from the code.
    - Kafka: a client of Produce, Fetch and the flexible versions of ListOffsets and Metadata reads the
      answer of the operation it asked for, with any tagged fields; what is produced is what is
      fetched, renumbered; and the record counts a client announces can take the end of a log back.
    - Formats: every encoder and decoder pair is a round trip, and the optimised checksum is the
      reference one.

    ** Conventions, fuel and bounds

    An operation takes its inputs and the state and returns [expected] results with the state
    after it, also when it failed.  [expected] is [Ok] or [Err]; [let?] is the early return.
    Times are nanoseconds.  A loop over a file has the size of the file as fuel, since every turn
    consumes at least a header ([SegmentSafety.segment_scans_terminate]); loops over messages or
    entries recurse over the list.  Integers are [Z]; [to_u] and [to_i] write the conversions that
    wrap.  The order in which a hash table is visited is a parameter where it matters.

    ** Not modelled

    The system calls themselves: sockets and the I/O backends ([io/]), whose outcomes are plans or
    classes of streams; the wiring of the process ([server/server.cpp], arguments, signals), the FFI
    and the command line tools; OpenSSL, LZ4 and Zstd, which are parameters with laws.  The opening
    of a partition's files is a parameter of [Topics].  That the digits [std::format] writes for a
    double are read back as that double is not proved.  Integers that the sources keep at a width and
    that no claim takes to its bound (the generation of a group) are [Z]. *)

From stdpp Require Import base list gmap strings fin_maps sorting relations.
From Stdlib Require Import ZArith Lia.

(** ** Errors ([src/src/common/error.hpp]) *)

(** [enum class ErrorCode]. *)
Inductive ErrorCode :=
  | Corrupt | IoError | OutOfSpace | InvalidArgument | NotFound
  | OutOfRange | Unsupported | Shutdown | Fenced.

#[export] Instance ErrorCode_eq_dec : EqDecision ErrorCode.
Proof. solve_decision. Defined.

(** [class Error]: a code and a context message. *)
Record Error := MkError { code : ErrorCode; message : string }.

#[export] Instance Error_eq_dec : EqDecision Error.
Proof. solve_decision. Defined.

(** [Error::with_context]: a copy with the context in front. *)
Definition with_context (e : Error) (context : string) : Error :=
  MkError (code e) (context +:+ ": " +:+ message e).

(** [expected<T>]: a value or an [Error]. *)
Inductive expected (A : Type) :=
  | Ok (a : A)
  | Err (e : Error).
Arguments Ok {A} a.
Arguments Err {A} e.

Definition make_error {A} (c : ErrorCode) (msg : string) : expected A :=
  Err (MkError c msg).

Definition is_ok {A} (x : expected A) : bool :=
  match x with Ok _ => true | Err _ => false end.

(** Early return on an error, [if (!x) return std::unexpected(x.error())]. *)
Definition expected_bind {A B} (x : expected A) (k : A -> expected B) : expected B :=
  match x with Ok a => k a | Err e => Err e end.

Declare Scope nexus_scope.
Delimit Scope nexus_scope with nexus.
Notation "'let?' x ':=' e 'in' k" := (expected_bind e (fun x => k))
  (at level 10, x name, e at level 100, k at level 200) : nexus_scope.
Notation "'let?' ' p ':=' e 'in' k" := (expected_bind e (fun x => match x with p => k end))
  (at level 10, p strict pattern, e at level 100, k at level 200) : nexus_scope.
(** Threading a buffer or a state through a chain of calls. *)
Notation "x '|>' f" := (f x) (at level 41, left associativity, only parsing) : nexus_scope.
#[global] Open Scope nexus_scope.

(** ** Machine integers *)

#[local] Open Scope Z_scope.

(** [std::chrono::milliseconds], in the nanoseconds instants are counted in. *)
Definition ms (n : Z) : Z := n * 1000000.

Abbreviation byte := Z (only parsing).

Definition u_range (w z : Z) : Prop := 0 <= z < 2 ^ w.
Definition i_range (w z : Z) : Prop := - 2 ^ (w - 1) <= z < 2 ^ (w - 1).

(** [static_cast] to an unsigned and to a signed w-bit integer. *)
Definition to_u (w z : Z) : Z := z mod 2 ^ w.
Definition to_i (w z : Z) : Z :=
  let u := z mod 2 ^ w in if u <? 2 ^ (w - 1) then u else u - 2 ^ w.

Definition int16_max : Z := 32767.

Ltac width_simpl :=
  unfold u_range, i_range in *;
  repeat match goal with
  | |- context [2 ^ ?n] => let v := eval vm_compute in (2 ^ n) in
      match v with Zpos _ => change (2 ^ n) with v end
  | H : context [2 ^ ?n] |- _ => let v := eval vm_compute in (2 ^ n) in
      match v with Zpos _ => change (2 ^ n) with v in H end
  end.

(** Range goals on closed numbers. *)
Ltac by_range := unfold u_range, i_range; split; vm_compute; easy.

(** Well-formedness of a closed value: a conjunction of ranges. *)
Ltac by_ranges :=
  repeat match goal with
  | |- _ /\ _ => split
  | |- Forall _ _ => constructor
  | |- u_range _ _ => by_range
  | |- i_range _ _ => by_range
  end.

Lemma pow2_split w : 0 < w -> 2 ^ w = 2 * 2 ^ (w - 1).
Proof. intros. rewrite <- Z.pow_succ_r by lia. f_equal; lia. Qed.

Lemma to_u_range w z : 0 <= w -> u_range w (to_u w z).
Proof. intros. apply Z.mod_pos_bound, Z.pow_pos_nonneg; lia. Qed.

Lemma to_u_id w z : u_range w z -> to_u w z = z.
Proof. apply Z.mod_small. Qed.

Lemma to_i_range w z : 0 < w -> i_range w (to_i w z).
Proof.
  intros Hw. unfold to_i, i_range.
  pose proof (Z.mod_pos_bound z (2 ^ w) ltac:(apply Z.pow_pos_nonneg; lia)).
  pose proof (pow2_split w Hw).
  destruct (Z.ltb_spec (z mod 2 ^ w) (2 ^ (w - 1))); lia.
Qed.

(** A signed value survives the conversion to unsigned and back. *)
Lemma to_i_to_u w z : 0 < w -> i_range w z -> to_i w (to_u w z) = z.
Proof.
  intros Hw Hz. unfold to_i, to_u, i_range in *.
  pose proof (pow2_split w Hw) as Hp.
  assert (0 < 2 ^ (w - 1)) by (apply Z.pow_pos_nonneg; lia).
  rewrite Z.mod_mod by lia.
  destruct (Z_lt_le_dec z 0) as [Hn | Hn].
  - replace (z mod 2 ^ w) with (z + 2 ^ w).
    2: { rewrite <- (Z.mod_small (z + 2 ^ w) (2 ^ w)) by lia.
         rewrite <- (Z.mul_1_l (2 ^ w)) at 1. now rewrite Z.mod_add by lia. }
    destruct (Z.ltb_spec (z + 2 ^ w) (2 ^ (w - 1))); lia.
  - rewrite Z.mod_small by lia. destruct (Z.ltb_spec z (2 ^ (w - 1))); lia.
Qed.

Lemma to_i_id w n : 0 < w -> i_range w n -> to_i w n = n.
Proof.
  intros Hw Hn. rewrite <- (to_i_to_u w n) at 2 by assumption. unfold to_i, to_u. rewrite Z.mod_mod; [reflexivity|]. pose proof (Z.pow_pos_nonneg 2 w). lia.
Qed.

(** ** Bit-level facts shared by the codecs *)

Lemma testbit_high w u i : u_range w u -> 0 <= w -> w <= i -> Z.testbit u i = false.
Proof.
  intros [Hu Hu'] Hw Hi. rewrite Z.testbit_eqb by lia. rewrite Z.div_small; [done|].
  split; [lia|]. apply Z.lt_le_trans with (2 ^ w); [lia|]. apply Z.pow_le_mono_r; lia.
Qed.

(** A value whose bits vanish from [w] on is a [w]-bit unsigned value. *)
Lemma u_range_of_bits w u :
  0 <= w -> 0 <= u -> (forall i, w <= i -> Z.testbit u i = false) -> u_range w u.
Proof.
  intros Hw Hu Hb. split; [done|].
  destruct (Z.eq_dec u 0) as [->|Hne]; [apply Z.pow_pos_nonneg; lia|].
  apply Z.log2_lt_pow2; [lia|]. apply Z.nle_gt. intros Hle.
  pose proof (Hb (Z.log2 u) Hle) as H. rewrite Z.bit_log2 in H by lia. done.
Qed.

Lemma u_range_lxor w a b : 0 <= w -> u_range w a -> u_range w b -> u_range w (Z.lxor a b).
Proof.
  intros Hw Ha Hb. apply u_range_of_bits; [lia| |].
  - apply Z.lxor_nonneg. destruct Ha, Hb; lia.
  - intros i Hi. rewrite Z.lxor_spec. now rewrite !(testbit_high w) by (auto; lia).
Qed.

Lemma u_range_shiftr w a k : 0 <= w -> 0 <= k -> u_range w a -> u_range w (Z.shiftr a k).
Proof.
  intros Hw Hk Ha. apply u_range_of_bits; [lia| |].
  - apply Z.shiftr_nonneg. destruct Ha; lia.
  - intros i Hi. rewrite Z.shiftr_spec by lia. apply (testbit_high w); auto; lia.
Qed.

(** Complementing a [w]-bit value. *)
Lemma lxor_ones w u : 0 <= w -> u_range w u -> Z.lxor u (Z.ones w) = 2 ^ w - 1 - u.
Proof.
  intros Hw Hu. replace (2 ^ w - 1) with (Z.ones w) by (rewrite Z.ones_equiv; lia).
  rewrite Z.sub_nocarry_ldiff.
  - apply Z.bits_inj'. intros i Hi. rewrite Z.lxor_spec, Z.ldiff_spec, Z.testbit_ones by lia.
    replace (0 <=? i) with true by (symmetry; apply Z.leb_le; lia).
    destruct (Z.ltb_spec i w); cbn; [now destruct (Z.testbit u i)|].
    now rewrite (testbit_high w).
  - apply Z.bits_inj'. intros i Hi. rewrite Z.ldiff_spec, Z.bits_0, Z.testbit_ones by lia.
    replace (0 <=? i) with true by (symmetry; apply Z.leb_le; lia).
    destruct (Z.ltb_spec i w); cbn; [apply andb_false_r|]. now rewrite (testbit_high w).
Qed.
