(* ===== verification/Bytes.v ===== *)
(** * Bytes and integers of variable length

    Models [store_le] and [load_le] of [src/src/common/types.hpp] and the byte spans of
    [src/src/common/bytes.hpp]; then the varints of [common/varint.cpp].  A byte is a [Z]; a span is the
    list of its bytes. *)
From stdpp Require Import base list gmap strings.
From Stdlib Require Import ZArith Lia.
From S2P Require Import Prelude.
#[local] Open Scope Z_scope.

(** [std::span::subspan(pos)] and [subspan(pos, n)]. *)
Definition subspan (pos : nat) (bs : list byte) : list byte := drop pos bs.
Definition subspan_n (pos n : nat) (bs : list byte) : list byte := take n (drop pos bs).

(** Writing [bs] into the mutable span [out] from position [pos] on. *)
Definition splice (pos : nat) (bs out : list byte) : list byte :=
  take pos out ++ bs ++ drop (pos + length bs) out.

(** [store_le<T>] with [n = sizeof(T)]: the bytes it writes. *)
Definition store_le (n : nat) (value : Z) : list byte :=
  let bits := to_u (8 * Z.of_nat n) value in
  (fun i : nat => Z.land (Z.shiftr bits (8 * Z.of_nat i)) 255) <$> seq 0 n.

(** The loop of [load_le<T>], before the final cast to [T]. *)
Definition load_bits (n : nat) (bs : list byte) : Z :=
  foldl (fun (bits : Z) (i : nat) => Z.lor bits (Z.shiftl (nth i bs 0) (8 * Z.of_nat i))) 0 (seq 0 n).

(** [load_le<T>] for an unsigned and for a signed [T] of [n] bytes. *)
Definition load_le_u (n : nat) (bs : list byte) : Z := to_u (8 * Z.of_nat n) (load_bits n bs).
Definition load_le_i (n : nat) (bs : list byte) : Z := to_i (8 * Z.of_nat n) (load_bits n bs).

Lemma length_store_le n v : length (store_le n v) = n.
Proof. unfold store_le. now rewrite length_fmap, length_seq. Qed.

Lemma drop_store n v m rest : (n <= m)%nat -> drop m (store_le n v ++ rest) = drop (m - n) rest.
Proof. intros. rewrite drop_app_ge; rewrite length_store_le; auto. Qed.

(** The recursive reading of the two loops. *)
Fixpoint le_split (n : nat) (u : Z) : list byte :=
  match n with
  | O => []
  | S m => Z.land u 255 :: le_split m (Z.shiftr u 8)
  end.

Fixpoint le_join (n : nat) (bs : list byte) : Z :=
  match n with
  | O => 0
  | S m => Z.lor (nth 0 bs 0) (Z.shiftl (le_join m (tail bs)) 8)
  end.

Lemma store_loop_split n u k :
  (fun i : nat => Z.land (Z.shiftr u (8 * Z.of_nat i)) 255) <$> seq k n
  = le_split n (Z.shiftr u (8 * Z.of_nat k)).
Proof.
  revert k. induction n as [|n IH]; intros k; [done|].
  cbn [seq fmap list_fmap le_split]. f_equal.
  rewrite IH, Z.shiftr_shiftr by lia. do 2 f_equal. lia.
Qed.

Lemma store_le_split n v : store_le n v = le_split n (to_u (8 * Z.of_nat n) v).
Proof. unfold store_le. cbv zeta. rewrite store_loop_split. now rewrite Z.shiftr_0_r. Qed.

Lemma load_loop_join n acc k bs :
  foldl (fun (bits : Z) (i : nat) => Z.lor bits (Z.shiftl (nth i bs 0) (8 * Z.of_nat i))) acc (seq k n)
  = Z.lor acc (Z.shiftl (le_join n (drop k bs)) (8 * Z.of_nat k)).
Proof.
  revert acc k. induction n as [|n IH]; intros acc k; cbn [seq foldl le_join].
  - now rewrite Z.shiftl_0_l, Z.lor_0_r.
  - rewrite IH, Z.shiftl_lor, Z.shiftl_shiftl, Z.lor_assoc by lia.
    assert (Hn : nth 0 (drop k bs) 0 = nth k bs 0).
    { rewrite nth_skipn. f_equal; lia. }
    assert (Ht : tail (drop k bs) = drop (S k) bs).
    { replace (S k) with (k + 1)%nat by lia. rewrite <- drop_drop. now destruct (drop k bs). }
    rewrite Hn, Ht. do 2 f_equal. lia.
Qed.

Lemma load_bits_join n bs : load_bits n bs = le_join n bs.
Proof. unfold load_bits. rewrite load_loop_join, Z.shiftl_0_r. now rewrite Z.lor_0_l. Qed.

Lemma le_cons_recombine u : 0 <= u -> Z.lor (Z.land u 255) (Z.shiftl (Z.shiftr u 8) 8) = u.
Proof.
  intros Hu. change 255 with (Z.ones 8). apply Z.bits_inj'. intros i Hi.
  rewrite Z.lor_spec, Z.land_spec, Z.testbit_ones by lia.
  rewrite Z.shiftl_spec by lia.
  replace (0 <=? i) with true by (symmetry; apply Z.leb_le; lia).
  destruct (Z.ltb_spec i 8); cbn [andb orb].
  - rewrite (Z.testbit_neg_r _ (i - 8)) by lia. now rewrite andb_true_r, orb_false_r.
  - rewrite Z.shiftr_spec by lia. rewrite andb_false_r. cbn [orb]. f_equal; lia.
Qed.

Lemma le_join_split n u bs :
  u_range (8 * Z.of_nat n) u -> le_join n (le_split n u ++ bs) = u.
Proof.
  revert u. induction n as [|n IH]; intros u Hu; cbn [le_split le_join app tail].
  - unfold u_range in Hu. cbn in Hu. lia.
  - cbn [nth]. rewrite IH.
    + apply le_cons_recombine. unfold u_range in Hu; lia.
    + unfold u_range in *. rewrite Z.shiftr_div_pow2 by lia. split.
      * apply Z.div_pos; lia.
      * apply Z.div_lt_upper_bound; [lia|].
        rewrite <- Z.pow_add_r by lia. replace (8 + 8 * Z.of_nat n) with (8 * Z.of_nat (S n)) by lia. lia.
Qed.

(** Round trips of the two casts. *)
Lemma load_store_u n v bs :
  u_range (8 * Z.of_nat n) v -> load_le_u n (store_le n v ++ bs) = v.
Proof.
  intros Hv. unfold load_le_u. rewrite load_bits_join, store_le_split, le_join_split.
  - rewrite !to_u_id; auto using to_u_range. rewrite to_u_id; auto.
  - apply to_u_range; lia.
Qed.

Lemma load_store_i n v bs :
  (0 < n)%nat -> i_range (8 * Z.of_nat n) v -> load_le_i n (store_le n v ++ bs) = v.
Proof.
  intros Hn Hv. unfold load_le_i. rewrite load_bits_join, store_le_split, le_join_split.
  - apply to_i_to_u; [lia|done].
  - apply to_u_range; lia.
Qed.

(** Serialised values are bytes. *)
Lemma store_le_bytes n v : Forall (u_range 8) (store_le n v).
Proof.
  unfold store_le. cbv zeta. apply Forall_fmap, Forall_forall. intros i _. cbn.
  change 255 with (Z.ones 8). rewrite Z.land_ones by lia. apply to_u_range; lia.
Qed.

Create Rewrite HintDb nexus_bytes.
#[export] Hint Rewrite length_store_le @length_app @length_cons @length_nil : nexus_bytes.

Arguments store_le : simpl never.
Arguments load_le_u : simpl never.
Arguments load_le_i : simpl never.

(** Loading [n] bytes looks at no more than [n] bytes. *)
Lemma load_bits_take n k bs : (n <= k)%nat -> load_bits n (take k bs) = load_bits n bs.
Proof.
  rewrite !load_bits_join. revert k bs. induction n as [|n IH]; intros k bs Hk; [done|].
  destruct k as [|k]; [lia|]. destruct bs as [|x bs]; [done|]. cbn [le_join take nth tail]. by rewrite IH by lia.
Qed.

(** * Variable-length integers

    Models [src/src/common/varint.cpp] and [src/src/common/varint.hpp]: LEB128 encoding of
    [uint64_t] and the zigzag map.  The encoder's [while] loop is a fuelled fixpoint; ten
    iterations are enough for every 64-bit value ([put_varint_fuel_enough]). *)

Definition kContinuationBit : Z := 128.
Definition kPayloadMask : Z := 127.
Definition kPayloadBits : Z := 7.
Definition kMaxVarintBytes : nat := 10.

(** The loop of [put_varint]: [None] when the fuel runs out before the loop exits. *)
Fixpoint put_varint_loop (fuel : nat) (value : Z) : option (list byte) :=
  match fuel with
  | O => None
  | S fuel' =>
      if kContinuationBit <=? value then
        match put_varint_loop fuel' (Z.shiftr value kPayloadBits) with
        | Some rest => Some (Z.lor (Z.land value kPayloadMask) kContinuationBit :: rest)
        | None => None
        end
      else Some [value]
  end.

(** [put_varint]: the bytes written at the front of the output span. *)
Definition put_varint (value : Z) : list byte :=
  default [] (put_varint_loop kMaxVarintBytes value).

(** The loop of [get_varint] from byte [i] on, [fuel] being the iterations left to
    [kMaxVarintBytes]; returns the value and the span after it. *)
Fixpoint get_varint_loop (fuel : nat) (bs : list byte) (result shift : Z)
  : expected (Z * list byte) :=
  match fuel, bs with
  | S fuel', b :: bs' =>
      let result := Z.lor result (to_u 64 (Z.shiftl (Z.land b kPayloadMask) shift)) in
      if Z.land b kContinuationBit =? 0 then Ok (result, bs')
      else get_varint_loop fuel' bs' result (shift + kPayloadBits)
  | _, _ => make_error InvalidArgument "varint truncado o demasiado largo"
  end.

Definition get_varint (bs : list byte) : expected (Z * list byte) :=
  get_varint_loop kMaxVarintBytes bs 0 0.

(** [zigzag_encode] and [zigzag_decode], with the 64-bit casts written out. *)
Definition zigzag_encode (value : Z) : Z :=
  Z.lxor (to_u 64 (Z.shiftl (to_u 64 value) 1)) (to_u 64 (Z.shiftr value 63)).

Definition zigzag_decode (value : Z) : Z :=
  to_i 64 (Z.lxor (to_i 64 (Z.shiftr value 1)) (- to_i 64 (Z.land value 1))).

(** ** The encoder terminates within ten bytes *)

Lemma put_varint_loop_enough fuel value :
  u_range (7 * Z.of_nat (S fuel)) value -> is_Some (put_varint_loop (S fuel) value).
Proof.
  revert value. induction fuel as [|fuel IH]; intros value Hv; cbn [put_varint_loop]; unfold kContinuationBit.
  - width_simpl. destruct (Z.leb_spec 128 value); [lia|by eexists].
  - destruct (Z.leb_spec 128 value) as [Hge|]; [|by eexists].
    destruct (IH (Z.shiftr value kPayloadBits)) as [rest Hrest].
    + unfold u_range, kPayloadBits in *. rewrite Z.shiftr_div_pow2 by lia. split.
      * apply Z.div_pos; lia.
      * apply Z.div_lt_upper_bound; [lia|]. rewrite <- Z.pow_add_r by lia.
        replace (7 + 7 * Z.of_nat (S fuel)) with (7 * Z.of_nat (S (S fuel))) by lia. lia.
    + cbn [put_varint_loop] in Hrest. unfold kContinuationBit in Hrest. rewrite Hrest. by eexists.
Qed.

Lemma put_varint_fuel_enough value :
  u_range 64 value -> is_Some (put_varint_loop kMaxVarintBytes value).
Proof.
  intros Hv. apply put_varint_loop_enough. unfold u_range in *.
  split; [lia|]. apply Z.lt_le_trans with (2 ^ 64); [lia|]. apply Z.pow_le_mono_r; lia.
Qed.

Lemma put_varint_loop_length fuel value bs :
  put_varint_loop fuel value = Some bs -> (1 <= length bs <= fuel)%nat.
Proof.
  revert value bs. induction fuel as [|fuel IH]; intros value bs; cbn; [done|].
  destruct (kContinuationBit <=? value).
  - destruct (put_varint_loop fuel _) as [rest|] eqn:E; [|done].
    intros [= <-]. apply IH in E. cbn. lia.
  - intros [= <-]. cbn. lia.
Qed.

(** ** Round trip *)

Lemma land_lor_payload v :
  0 <= v -> Z.land (Z.lor (Z.land v 127) 128) 127 = Z.land v 127.
Proof.
  intros. rewrite Z.land_lor_distr_l, <- Z.land_assoc. change (Z.land 127 127) with 127.
  change (Z.land 128 127) with 0. apply Z.lor_0_r.
Qed.

Lemma land_lor_continuation v : Z.land (Z.lor (Z.land v 127) 128) 128 = 128.
Proof.
  rewrite Z.land_lor_distr_l, <- Z.land_assoc.
  change (Z.land 127 128) with 0. change (Z.land 128 128) with 128.
  now rewrite Z.land_0_r.
Qed.

Lemma small_no_continuation v : 0 <= v < 128 -> Z.land v 128 = 0.
Proof.
  intros. apply Z.bits_inj'. intros i Hi. rewrite Z.land_spec, Z.bits_0.
  change 128 with (2 ^ 7). rewrite Z.pow2_bits_eqb by lia.
  destruct (Z.eqb_spec 7 i) as [<-|]; [|apply andb_false_r].
  rewrite Z.testbit_eqb by lia. change (2 ^ 7) with 128.
  rewrite Z.div_small by lia. done.
Qed.

Lemma chunk_recombine acc v s :
  0 <= v -> 0 <= s ->
  Z.lor (Z.lor acc (Z.shiftl (Z.land v 127) s)) (Z.shiftl (Z.shiftr v 7) (s + 7))
  = Z.lor acc (Z.shiftl v s).
Proof.
  intros Hv Hs. rewrite <- Z.lor_assoc. f_equal.
  apply Z.bits_inj'. intros i Hi. change 127 with (Z.ones 7).
  rewrite Z.lor_spec, !Z.shiftl_spec by lia.
  destruct (Z_lt_le_dec (i - s) 0) as [Hn|Hn].
  - rewrite !(Z.testbit_neg_r _ (i - s)), (Z.testbit_neg_r _ (i - (s + 7))) by lia. done.
  - rewrite Z.land_spec, Z.testbit_ones by lia.
    replace (0 <=? i - s) with true by (symmetry; apply Z.leb_le; lia).
    destruct (Z.ltb_spec (i - s) 7); cbn [andb].
    + rewrite (Z.testbit_neg_r _ (i - (s + 7))) by lia. now rewrite andb_true_r, orb_false_r.
    + rewrite Z.shiftr_spec by lia. rewrite andb_false_r. cbn [orb]. f_equal. lia.
Qed.

Lemma shiftl_chunk_fits v s :
  0 <= v -> 0 <= s -> v * 2 ^ s < 2 ^ 64 ->
  to_u 64 (Z.shiftl (Z.land v 127) s) = Z.shiftl (Z.land v 127) s.
Proof.
  intros Hv Hs Hb. apply to_u_id. unfold u_range.
  rewrite Z.shiftl_mul_pow2 by lia. change 127 with (Z.ones 7). rewrite Z.land_ones by lia.
  pose proof (Z.mod_pos_bound v (2 ^ 7) ltac:(lia)).
  pose proof (Z.mod_le v (2 ^ 7) Hv ltac:(lia)).
  assert (0 < 2 ^ s) by (apply Z.pow_pos_nonneg; lia). split; [nia|nia].
Qed.

Lemma get_put_loop fuel v bs tl acc s :
  put_varint_loop fuel v = Some bs -> 0 <= v -> 0 <= s -> v * 2 ^ s < 2 ^ 64 ->
  get_varint_loop fuel (bs ++ tl) acc s = Ok (Z.lor acc (Z.shiftl v s), tl).
Proof.
  revert v bs acc s. induction fuel as [|fuel IH]; intros v bs acc s; cbn [put_varint_loop get_varint_loop]; [done|].
  unfold kContinuationBit, kPayloadMask, kPayloadBits.
  intros Hput Hv Hs Hb. destruct (Z.leb_spec 128 v) as [Hge|Hlt].
  - destruct (put_varint_loop fuel (Z.shiftr v 7)) as [rest|] eqn:E; [|done].
    injection Hput as <-. cbn [app].
    rewrite land_lor_continuation, land_lor_payload by lia. cbn [Z.eqb].
    rewrite shiftl_chunk_fits by lia.
    assert (0 < 2 ^ s) by (apply Z.pow_pos_nonneg; lia).
    rewrite (IH (Z.shiftr v 7) rest); auto.
    + now rewrite chunk_recombine.
    + rewrite Z.shiftr_div_pow2 by lia. apply Z.div_pos; lia.
    + lia.
    + rewrite Z.shiftr_div_pow2, Z.pow_add_r by lia. change (2 ^ 7) with 128.
      pose proof (Z.mul_div_le v 128 ltac:(lia)). nia.
  - injection Hput as <-. cbn [app].
    rewrite small_no_continuation by lia. cbn [Z.eqb].
    rewrite shiftl_chunk_fits by lia. change 127 with (Z.ones 7).
    rewrite Z.land_ones, Z.mod_small by lia. done.
Qed.

Lemma get_put_varint v tl :
  u_range 64 v -> get_varint (put_varint v ++ tl) = Ok (v, tl).
Proof.
  intros Hv. destruct (put_varint_fuel_enough v Hv) as [bs Hbs].
  unfold get_varint, put_varint. rewrite Hbs. cbn [default].
  rewrite (get_put_loop _ v bs tl 0 0); auto; unfold u_range in Hv; try lia.
Qed.

Lemma length_put_varint v :
  u_range 64 v -> (1 <= length (put_varint v) <= kMaxVarintBytes)%nat.
Proof.
  intros Hv. destruct (put_varint_fuel_enough v Hv) as [bs Hbs].
  unfold put_varint. rewrite Hbs. cbn. now apply put_varint_loop_length in Hbs.
Qed.

(** ** Zigzag *)

(** What the xor of the source computes, as arithmetic. *)
Lemma zigzag_encode_spec v :
  i_range 64 v -> zigzag_encode v = (if v <? 0 then - 2 * v - 1 else 2 * v).
Proof.
  intros Hv. unfold zigzag_encode, to_u. width_simpl.
  assert (Hs : Z.shiftr v 63 = if v <? 0 then -1 else 0).
  { rewrite Z.shiftr_div_pow2 by lia. change (2 ^ 63) with 9223372036854775808.
    destruct (Z.ltb_spec v 0); symmetry; [apply (Z.div_unique _ _ _ (v + 9223372036854775808))|
      apply (Z.div_unique _ _ _ v)]; lia. }
  rewrite Hs, Z.shiftl_mul_pow2 by lia. change (2 ^ 1) with 2.
  rewrite Z.mul_mod_idemp_l by lia.
  destruct (Z.ltb_spec v 0).
  - change (-1 mod 18446744073709551616) with (Z.ones 64).
    replace ((v * 2) mod 18446744073709551616) with (v * 2 + 18446744073709551616).
    2: { apply (Z.mod_unique _ _ (-1)); lia. }
    rewrite lxor_ones by (unfold u_range; lia). lia.
  - rewrite Z.mod_small by lia. change (0 mod _) with 0. rewrite Z.lxor_0_r. lia.
Qed.

Lemma zigzag_decode_even q : 0 <= q < 2 ^ 63 -> zigzag_decode (2 * q) = q.
Proof.
  intros Hq. unfold zigzag_decode.
  rewrite Z.shiftr_div_pow2 by lia. change (2 ^ 1) with 2.
  rewrite (Z.mul_comm 2 q), Z.div_mul by lia.
  change 1 with (Z.ones 1). rewrite Z.land_ones by lia. change (2 ^ 1) with 2.
  rewrite Z.mod_mul by lia. change (- to_i 64 0) with 0. rewrite Z.lxor_0_r.
  unfold to_i. width_simpl. rewrite (Z.mod_small q) by lia.
  destruct (Z.ltb_spec q 9223372036854775808); [|lia].
  rewrite Z.mod_small by lia. destruct (Z.ltb_spec q 9223372036854775808); lia.
Qed.

Lemma zigzag_decode_odd q : 0 <= q < 2 ^ 63 -> zigzag_decode (2 * q + 1) = - q - 1.
Proof.
  intros Hq. unfold zigzag_decode.
  rewrite Z.shiftr_div_pow2 by lia. change (2 ^ 1) with 2.
  replace ((2 * q + 1) / 2) with q by (apply (Z.div_unique _ _ _ 1); lia).
  change (Z.land (2 * q + 1) 1) with (Z.land (2 * q + 1) (Z.ones 1)).
  rewrite Z.land_ones by lia. change (2 ^ 1) with 2.
  replace ((2 * q + 1) mod 2) with 1 by (apply (Z.mod_unique _ _ q); lia).
  change (- to_i 64 1) with (-1). rewrite Z.lxor_m1_r. unfold Z.lnot.
  unfold to_i. width_simpl. rewrite (Z.mod_small q) by lia.
  destruct (Z.ltb_spec q 9223372036854775808); [|lia].
  replace (Z.pred (- q) mod 18446744073709551616) with (- q - 1 + 18446744073709551616)
    by (apply (Z.mod_unique _ _ (-1)); lia).
  destruct (Z.ltb_spec (- q - 1 + 18446744073709551616) 9223372036854775808); lia.
Qed.

Lemma zigzag_roundtrip v : i_range 64 v -> zigzag_decode (zigzag_encode v) = v.
Proof.
  intros Hv. rewrite zigzag_encode_spec by done. width_simpl.
  destruct (Z.ltb_spec v 0).
  - replace (-2 * v - 1) with (2 * (- v - 1) + 1) by lia. rewrite zigzag_decode_odd; lia.
  - rewrite zigzag_decode_even; lia.
Qed.

Lemma zigzag_encode_u64 v : i_range 64 v -> u_range 64 (zigzag_encode v).
Proof.
  intros Hv. rewrite zigzag_encode_spec by done. width_simpl. destruct (Z.ltb_spec v 0); lia.
Qed.

(** [put_varint] followed by [get_varint] returns the value and exactly the bytes after it,
    for every [uint64_t], in one to ten bytes; and a zigzagged [int64_t] comes back. *)
Theorem varint_roundtrip (u i : Z) (tl : list byte) :
  u_range 64 u -> i_range 64 i ->
  get_varint (put_varint u ++ tl) = Ok (u, tl) /\
  (1 <= length (put_varint u) <= kMaxVarintBytes)%nat /\
  (let? '(z, rest) := get_varint (put_varint (zigzag_encode i) ++ tl) in Ok (zigzag_decode z, rest))
  = Ok (i, tl).
Proof.
  intros Hu Hi. split; [|split].
  - now apply get_put_varint.
  - now apply length_put_varint.
  - rewrite get_put_varint by now apply zigzag_encode_u64. cbn. now rewrite zigzag_roundtrip.
Qed.

Lemma varint_roundtrip_witness :
  get_varint (put_varint 300 ++ [7]) = Ok (300, [7]) /\
  (1 <= length (put_varint 300) <= kMaxVarintBytes)%nat /\
  (let? '(z, rest) := get_varint (put_varint (zigzag_encode (-5)) ++ [7]) in Ok (zigzag_decode z, rest))
  = Ok (-5, [7]).
Proof. apply (varint_roundtrip 300 (-5) [7]); by_range. Defined.

Arguments put_varint : simpl never.
Arguments get_varint : simpl never.
