(* ===== verification/Crc32c.v ===== *)
(** * CRC32C

    Models [src/src/common/crc32c.cpp]: the compile-time table, the table-driven software path,
    the SSE4.2 path and the runtime dispatch.  The two intrinsics are not part of the sources:
    they are parameters, with their documented meaning (the reflected division by the Castagnoli
    polynomial, one shift per data bit) as hypotheses. *)
From stdpp Require Import base list gmap strings.
From Stdlib Require Import ZArith Lia.
From S2P Require Import Prelude Bytes.
#[local] Open Scope Z_scope.

Definition kPoly : Z := 0x82F63B78.

(** One iteration of the inner loop of [make_table]. *)
Definition crc_bit (crc : Z) : Z :=
  Z.lxor (Z.shiftr crc 1) (if Z.land crc 1 =? 0 then 0 else kPoly).

Definition table_entry (i : Z) : Z := Nat.iter 8 crc_bit i.

(** [make_table] / [kTable], evaluated once as in the source ([constexpr]). *)
Definition make_table : list Z := (fun i : nat => table_entry (Z.of_nat i)) <$> seq 0 256.
Definition kTable : list Z := Eval vm_compute in make_table.

Definition crc_mask : Z := 0xFFFFFFFF.

(** The body of the loop of [crc32c_sw]. *)
Definition crc_table_step (crc : Z) (b : byte) : Z :=
  let index := Z.land (Z.lxor crc b) 255 in
  Z.lxor (nth (Z.to_nat index) kTable 0) (Z.shiftr crc 8).

Definition crc32c_sw (data : list byte) (seed : Z) : Z :=
  Z.lxor (foldl crc_table_step (Z.lxor seed crc_mask) data) crc_mask.

Section Hardware.
(** [_mm_crc32_u8] and [_mm_crc32_u64]. *)
Context (mm_crc32_u8 mm_crc32_u64 : Z -> Z -> Z).

(** The eight-bytes-at-a-time loop of [crc32c_hw]: [n] chunks, then the bytes left. *)
Fixpoint hw_u64_loop (n : nat) (crc : Z) (data : list byte) : Z * list byte :=
  match n with
  | O => (crc, data)
  | S n' => hw_u64_loop n' (to_u 32 (mm_crc32_u64 crc (load_le_u 8 data))) (drop 8 data)
  end.

Definition crc32c_hw (data : list byte) (seed : Z) : Z :=
  let '(crc, rest) := hw_u64_loop (length data / 8) (Z.lxor seed crc_mask) data in
  Z.lxor (foldl mm_crc32_u8 crc rest) crc_mask.

(** [crc32c]: [has_hw] is what [cpu_has_crc32c] answered. *)
Definition crc32c_dispatch (has_hw : bool) (data : list byte) (seed : Z) : Z :=
  if has_hw then crc32c_hw data seed else crc32c_sw data seed.
End Hardware.

(** The value every path computes; the default argument of [seed] is 0. *)
Abbreviation crc32c := crc32c_sw.

(** ** Table against shift register *)

Lemma crc_bit_high a b k :
  0 <= k -> crc_bit (Z.lxor a (Z.shiftl b (k + 1))) = Z.lxor (crc_bit a) (Z.shiftl b k).
Proof.
  intros Hk. unfold crc_bit.
  assert (Hlow : Z.land (Z.lxor a (Z.shiftl b (k + 1))) 1 = Z.land a 1).
  { apply Z.bits_inj'. intros i Hi. rewrite !Z.land_spec, Z.lxor_spec, Z.shiftl_spec by lia.
    destruct (Z.eq_dec i 0) as [->|Hne].
    - rewrite (Z.testbit_neg_r b) by lia. now rewrite xorb_false_r.
    - rewrite (Z.bits_above_log2 1 i) by (cbn; lia). now rewrite !andb_false_r. }
  rewrite Hlow, Z.shiftr_lxor, Z.shiftr_shiftl_l by lia.
  replace (k + 1 - 1) with k by lia. rewrite !Z.lxor_assoc. f_equal. apply Z.lxor_comm.
Qed.

Lemma crc_bits_high n a b k :
  0 <= k ->
  Nat.iter n crc_bit (Z.lxor a (Z.shiftl b (k + Z.of_nat n)))
  = Z.lxor (Nat.iter n crc_bit a) (Z.shiftl b k).
Proof.
  revert k. induction n as [|n IH]; intros k Hk; cbn [Nat.iter nat_rect].
  - now rewrite Z.add_0_r.
  - change (nat_rect (fun _ => Z) ?x (fun _ => crc_bit) n) with (Nat.iter n crc_bit x).
    replace (k + Z.of_nat (S n)) with ((k + 1) + Z.of_nat n) by lia.
    rewrite IH by lia. now apply crc_bit_high.
Qed.

Lemma split_low x k : 0 <= k -> Z.lxor (Z.land x (Z.ones k)) (Z.shiftl (Z.shiftr x k) k) = x.
Proof.
  intros Hk. apply Z.bits_inj'. intros i Hi.
  rewrite Z.lxor_spec, Z.land_spec, Z.testbit_ones, Z.shiftl_spec by lia.
  replace (0 <=? i) with true by (symmetry; apply Z.leb_le; lia). cbn [andb].
  destruct (Z.ltb_spec i k).
  - rewrite (Z.testbit_neg_r _ (i - k)) by lia. now rewrite andb_true_r, xorb_false_r.
  - rewrite Z.shiftr_spec by lia. rewrite andb_false_r, xorb_false_l. f_equal; lia.
Qed.

(** [n] shift-register steps only look at the [n] low bits. *)
Lemma crc_bits_split n x :
  Nat.iter n crc_bit x
  = Z.lxor (Nat.iter n crc_bit (Z.land x (Z.ones (Z.of_nat n)))) (Z.shiftr x (Z.of_nat n)).
Proof.
  rewrite <- (split_low x (Z.of_nat n)) at 1 by lia.
  rewrite <- (Z.add_0_l (Z.of_nat n)) at 3. rewrite crc_bits_high by lia.
  now rewrite Z.shiftl_0_r.
Qed.

Lemma shiftr_byte b : u_range 8 b -> Z.shiftr b 8 = 0.
Proof. intros [Hb Hb']. rewrite Z.shiftr_div_pow2 by lia. now apply Z.div_small. Qed.

Lemma kTable_entry i : (i < 256)%nat -> nth i kTable 0 = table_entry (Z.of_nat i).
Proof.
  intros Hi. change kTable with make_table.
  unfold make_table. rewrite nth_lookup, list_lookup_fmap, lookup_seq_lt by lia. done.
Qed.

(** A table step is eight shift-register steps on the xored byte. *)
Lemma crc_table_step_bits crc b :
  u_range 8 b -> crc_table_step crc b = Nat.iter 8 crc_bit (Z.lxor crc b).
Proof.
  intros Hb. unfold crc_table_step. cbv zeta.
  rewrite (crc_bits_split 8 (Z.lxor crc b)). change (Z.of_nat 8) with 8.
  rewrite Z.shiftr_lxor, (shiftr_byte b), Z.lxor_0_r by done.
  f_equal. change (Z.ones 8) with 255.
  assert (Hr : 0 <= Z.land (Z.lxor crc b) 255 < 256).
  { change 255 with (Z.ones 8). rewrite Z.land_ones by lia. apply Z.mod_pos_bound; lia. }
  rewrite kTable_entry by lia. unfold table_entry. now rewrite Z2Nat.id by lia.
Qed.

(** Chaining: the checksum of a concatenation is the checksum of the second part seeded with
    the checksum of the first ([seed] of [crc32c]). *)
Lemma crc32c_app a b seed : crc32c (a ++ b) seed = crc32c b (crc32c a seed).
Proof.
  unfold crc32c_sw. rewrite foldl_app. do 2 f_equal.
  now rewrite Z.lxor_assoc, Z.lxor_nilpotent, Z.lxor_0_r.
Qed.

Lemma u_range_crc_bit w crc : 32 <= w -> u_range w crc -> u_range w (crc_bit crc).
Proof.
  intros Hw Hc. unfold crc_bit. apply u_range_lxor; [lia| |].
  - apply u_range_shiftr; auto; lia.
  - assert (2 ^ 32 <= 2 ^ w) by (apply Z.pow_le_mono_r; lia).
    destruct (Z.land crc 1 =? 0); unfold u_range, kPoly; lia.
Qed.

Lemma u_range_crc_bits w n crc : 32 <= w -> u_range w crc -> u_range w (Nat.iter n crc_bit crc).
Proof. intros Hw. induction n; cbn; auto using u_range_crc_bit. Qed.

Lemma u_range_widen w w' z : 0 <= w <= w' -> u_range w z -> u_range w' z.
Proof.
  intros Hw [Hz Hz']. split; [lia|]. apply Z.lt_le_trans with (2 ^ w); [lia|].
  apply Z.pow_le_mono_r; lia.
Qed.

Lemma u_range_table_step crc b :
  u_range 32 crc -> u_range 8 b -> u_range 32 (crc_table_step crc b).
Proof.
  intros Hc Hb. rewrite crc_table_step_bits by done. apply u_range_crc_bits; [lia|].
  apply u_range_lxor; [lia|done|]. now apply (u_range_widen 8); [lia|].
Qed.

Lemma u_range_crc_loop data crc :
  u_range 32 crc -> Forall (u_range 8) data -> u_range 32 (foldl crc_table_step crc data).
Proof.
  intros Hc Hd. revert crc Hc. induction Hd; cbn; auto using u_range_table_step.
Qed.

Lemma u_range_crc32c data seed :
  u_range 32 seed -> Forall (u_range 8) data -> u_range 32 (crc32c data seed).
Proof.
  intros Hs Hd. unfold crc32c_sw. assert (u_range 32 crc_mask) by by_range.
  apply u_range_lxor; [lia| |done]. apply u_range_crc_loop; [|done].
  apply u_range_lxor; auto; lia.
Qed.

(** ** Hardware against software *)

Section HardwareCorrect.
Context (mm_crc32_u8 mm_crc32_u64 : Z -> Z -> Z).

(** Documented meaning of the instructions: a byte (a quadword) is xored into the register,
    which is then shifted eight (sixty-four) times. *)
Hypothesis mm_u8_spec : forall crc v,
  u_range 32 crc -> u_range 8 v -> mm_crc32_u8 crc v = Nat.iter 8 crc_bit (Z.lxor crc v).
Hypothesis mm_u64_spec : forall crc v,
  u_range 32 crc -> u_range 64 v -> mm_crc32_u64 crc v = Nat.iter 64 crc_bit (Z.lxor crc v).

Lemma iter_add n m (x : Z) : Nat.iter (n + m) crc_bit x = Nat.iter n crc_bit (Nat.iter m crc_bit x).
Proof. induction n; cbn; [done|]. now f_equal. Qed.

Lemma le_join_range n bs : Forall (u_range 8) bs -> u_range (8 * Z.of_nat n) (le_join n bs).
Proof.
  revert bs. induction n as [|n IH]; intros bs Hb; cbn [le_join].
  - by_range.
  - assert (H0 : u_range 8 (nth 0 bs 0)) by (destruct Hb; cbn; [by_range|done]).
    assert (Ht : u_range (8 * Z.of_nat n) (le_join n (tail bs)))
      by (apply IH; destruct Hb; [constructor|done]).
    apply u_range_of_bits; [lia| |].
    + apply Z.lor_nonneg. split; [apply H0|]. apply Z.shiftl_nonneg, Ht.
    + intros i Hi. rewrite Z.lor_spec, Z.shiftl_spec by lia.
      rewrite (testbit_high 8), (testbit_high (8 * Z.of_nat n)) by (auto; lia). done.
Qed.

(** Sixty-four shifts on a quadword are eight table steps on its bytes. *)
Lemma quadword_steps n bs crc :
  Forall (u_range 8) bs -> length bs = n ->
  Nat.iter (8 * n) crc_bit (Z.lxor crc (le_join n bs)) = foldl crc_table_step crc bs.
Proof.
  revert bs crc. induction n as [|n IH]; intros bs crc Hb Hl.
  - destruct bs; [|done]. cbn. apply Z.lxor_0_r.
  - destruct bs as [|b bs]; [done|]. inversion Hb as [|?? Hb0 Hbs]; subst.
    replace (8 * S n)%nat with (8 * n + 8)%nat by lia. rewrite iter_add.
    cbn [le_join nth tail foldl].
    assert (Hx : Z.lor b (Z.shiftl (le_join n bs) 8) = Z.lxor b (Z.shiftl (le_join n bs) 8)).
    { symmetry. apply Z.bits_inj'. intros i Hi. rewrite Z.lor_spec, Z.lxor_spec, Z.shiftl_spec by lia.
      destruct (Z_lt_le_dec i 8).
      - rewrite (Z.testbit_neg_r _ (i - 8)) by lia. now destruct (Z.testbit b i).
      - now rewrite (testbit_high 8 b) by (auto; lia). }
    rewrite Hx, <- Z.lxor_assoc.
    pose proof (crc_bits_high 8 (Z.lxor crc b) (le_join n bs) 0 ltac:(lia)) as E.
    change (0 + Z.of_nat 8) with 8 in E. rewrite E, Z.shiftl_0_r.
    rewrite <- crc_table_step_bits by done. apply IH; [done|]. cbn in Hl. lia.
Qed.

Lemma load_quadword data :
  (8 <= length data)%nat -> Forall (u_range 8) data ->
  load_le_u 8 data = le_join 8 (take 8 data).
Proof.
  intros Hl Hd. unfold load_le_u. rewrite load_bits_join.
  rewrite to_u_id by now apply le_join_range.
  do 8 (destruct data as [|? data]; [cbn in Hl; lia|]). done.
Qed.

Lemma hw_u64_loop_spec n crc data :
  u_range 32 crc -> Forall (u_range 8) data -> (8 * n <= length data)%nat ->
  hw_u64_loop mm_crc32_u64 n crc data
  = (foldl crc_table_step crc (take (8 * n) data), drop (8 * n) data).
Proof.
  revert crc data. induction n as [|n IH]; intros crc data Hc Hd Hl; [done|].
  cbn [hw_u64_loop]. replace (8 * S n)%nat with (8 + 8 * n)%nat in * by lia.
  rewrite load_quadword by (auto; lia).
  assert (Ht : Forall (u_range 8) (take 8 data)) by now apply Forall_take.
  assert (Hlen : length (take 8 data) = 8%nat) by (rewrite length_take; lia).
  rewrite mm_u64_spec by (auto; apply (le_join_range 8); auto).
  rewrite (quadword_steps 8) by auto.
  rewrite to_u_id by now apply u_range_crc_loop.
  rewrite IH; [|now apply u_range_crc_loop|now apply Forall_drop|rewrite length_drop; lia].
  rewrite <- foldl_app, drop_drop, take_take_drop. done.
Qed.

Lemma foldl_mm_u8 crc rest :
  u_range 32 crc -> Forall (u_range 8) rest ->
  foldl mm_crc32_u8 crc rest = foldl crc_table_step crc rest.
Proof.
  intros Hc Hr. revert crc Hc. induction Hr as [|b rest Hb Hr IH]; intros crc Hc; cbn [foldl]; [done|].
  rewrite mm_u8_spec, <- crc_table_step_bits by done. now apply IH, u_range_table_step.
Qed.

(** The SSE4.2 path and the table path compute the same checksum, so the runtime dispatch
    does not change the format on disk. *)
Theorem crc32c_hw_equals_sw (has_hw : bool) (data : list byte) (seed : Z) :
  u_range 32 seed -> Forall (u_range 8) data ->
  crc32c_dispatch mm_crc32_u8 mm_crc32_u64 has_hw data seed = crc32c_sw data seed.
Proof.
  intros Hs Hd. destruct has_hw; [|done]. cbn [crc32c_dispatch]. unfold crc32c_hw, crc32c_sw.
  assert (Hc : u_range 32 (Z.lxor seed crc_mask))
    by (apply u_range_lxor; [lia|done|by_range]).
  assert (Hdiv : (8 * (length data / 8) <= length data)%nat) by apply Nat.Div0.mul_div_le.
  rewrite hw_u64_loop_spec by auto.
  rewrite foldl_mm_u8; [|apply u_range_crc_loop|]; auto using Forall_take, Forall_drop.
  rewrite <- foldl_app, take_drop. done.
Qed.
End HardwareCorrect.

(** The instructions as the shift register itself satisfy the hypotheses. *)
Lemma crc32c_hw_equals_sw_witness :
  crc32c_dispatch (fun crc v => Nat.iter 8 crc_bit (Z.lxor crc v))
                  (fun crc v => Nat.iter 64 crc_bit (Z.lxor crc v)) true
                  [0x31; 0x32; 0x33; 0x34; 0x35; 0x36; 0x37; 0x38; 0x39] 0 = 0xE3069283.
Proof.
  rewrite (crc32c_hw_equals_sw (fun crc v => Nat.iter 8 crc_bit (Z.lxor crc v))
             (fun crc v => Nat.iter 64 crc_bit (Z.lxor crc v))).
  - vm_compute. reflexivity.
  - intros; reflexivity.
  - intros; reflexivity.
  - by_range.
  - repeat constructor; easy.
Defined.
