(* ===== verification/Record.v ===== *)
(** * Record batches

    Models [src/src/common/record.hpp] and [record.cpp]: the 36-byte header of a batch, its
    encoder, its defensive decoder and the header peek the storage layer walks a log with. *)
From stdpp Require Import base list gmap strings.
From Stdlib Require Import ZArith Lia.
From S2P Require Import Prelude Bytes Crc32c.
#[local] Open Scope Z_scope.

(** [RecordBatchHeader]. *)
Record RecordBatchHeader := MkHeader {
  h_base_offset : Z;
  h_attrs : Z;
  h_producer_id : Z;
  h_producer_epoch : Z;
  h_base_sequence : Z;
  h_record_count : Z;
}.

#[export] Instance RecordBatchHeader_eq_dec : EqDecision RecordBatchHeader.
Proof. solve_decision. Defined.

(** [RecordBatch]: its two members. *)
Record RecordBatch := MkBatch { b_header : RecordBatchHeader; b_records : list byte }.

#[export] Instance RecordBatch_eq_dec : EqDecision RecordBatch.
Proof. solve_decision. Defined.

(** [RecordBatchView]. *)
Record RecordBatchView := MkView {
  view_base_offset : Z;
  view_record_count : Z;
  view_encoded_size : nat;
}.

(** Positions of the fields of the fixed header. *)
Definition kBaseOffsetPos : nat := 0.
Definition kLengthPos : nat := 8.
Definition kCrcPos : nat := 12.
Definition kAttrsPos : nat := 16.
Definition kProducerIdPos : nat := 18.
Definition kProducerEpochPos : nat := 26.
Definition kBaseSequencePos : nat := 28.
Definition kRecordCountPos : nat := 32.
Definition kLengthFieldEnd : nat := kLengthPos + 4.
Definition kHeaderSize : nat := 36.

Definition default_header : RecordBatchHeader := MkHeader 0 0 (-1) (-1) (-1) 0.

(** [RecordBatch::encode]. *)
Definition batch_encode (b : RecordBatch) (out : list byte) : list byte :=
  let hd := b_header b in
  let h0 : list byte := repeat 0 kHeaderSize in
  let h1 := splice kAttrsPos (store_le 2 (h_attrs hd)) h0 in
  let h2 := splice kProducerIdPos (store_le 8 (h_producer_id hd)) h1 in
  let h3 := splice kProducerEpochPos (store_le 2 (h_producer_epoch hd)) h2 in
  let h4 := splice kBaseSequencePos (store_le 4 (h_base_sequence hd)) h3 in
  let h5 := splice kRecordCountPos (store_le 4 (h_record_count hd)) h4 in
  let crc := crc32c (b_records b) (crc32c (subspan kAttrsPos h5) 0) in
  let h6 := splice kBaseOffsetPos (store_le 8 (h_base_offset hd)) h5 in
  let len := to_i 32 (Z.of_nat (kHeaderSize - kLengthFieldEnd + length (b_records b))) in
  let h7 := splice kLengthPos (store_le 4 len) h6 in
  let h8 := splice kCrcPos (store_le 4 crc) h7 in
  out ++ h8 ++ b_records b.

(** [RecordBatch::decode]. *)
Definition batch_decode (data : list byte) : expected RecordBatch :=
  if (length data <? kHeaderSize)%nat then make_error Corrupt "batch truncado: cabecera incompleta"
  else
    let len := load_le_i 4 (subspan kLengthPos data) in
    if len <? 0 then make_error Corrupt "length negativo"
    else
      let total := (kLengthFieldEnd + Z.to_nat len)%nat in
      if (total <? kHeaderSize)%nat || (length data <? total)%nat
      then make_error Corrupt "batch truncado: length inconsistente"
      else
        let stored_crc := load_le_u 4 (subspan kCrcPos data) in
        let covered := subspan_n kAttrsPos (total - kAttrsPos) data in
        if negb (crc32c covered 0 =? stored_crc) then make_error Corrupt "CRC32C no coincide"
        else
          let header := MkHeader
            (load_le_i 8 (subspan kBaseOffsetPos data))
            (load_le_u 2 (subspan kAttrsPos data))
            (load_le_i 8 (subspan kProducerIdPos data))
            (load_le_i 2 (subspan kProducerEpochPos data))
            (load_le_i 4 (subspan kBaseSequencePos data))
            (load_le_i 4 (subspan kRecordCountPos data)) in
          Ok (MkBatch header (subspan_n kHeaderSize (total - kHeaderSize) data)).

(** [RecordBatch::peek]. *)
Definition batch_peek (data : list byte) : expected RecordBatchView :=
  if (length data <? kHeaderSize)%nat then make_error Corrupt "batch truncado: cabecera incompleta"
  else
    let len := load_le_i 4 (subspan kLengthPos data) in
    if len <? 0 then make_error Corrupt "length negativo"
    else
      let total := (kLengthFieldEnd + Z.to_nat len)%nat in
      if (total <? kHeaderSize)%nat then make_error Corrupt "length inconsistente"
      else Ok (MkView (load_le_i 8 (subspan kBaseOffsetPos data))
                      (load_le_i 4 (subspan kRecordCountPos data)) total).

Definition encoded_size (b : RecordBatch) : nat := kHeaderSize + length (b_records b).

Definition batch_last_offset (b : RecordBatch) : Z :=
  h_base_offset (b_header b) + h_record_count (b_header b) - 1.

Definition view_last_offset (v : RecordBatchView) : Z :=
  view_base_offset v + view_record_count v - 1.

(** ** Layout *)

(** The fields are within their C++ types, and the [length] field does not overflow. *)
Definition header_ok (h : RecordBatchHeader) : Prop :=
  i_range 64 (h_base_offset h) /\ u_range 16 (h_attrs h) /\ i_range 64 (h_producer_id h) /\
  i_range 16 (h_producer_epoch h) /\ i_range 32 (h_base_sequence h) /\
  i_range 32 (h_record_count h).

Definition batch_ok (b : RecordBatch) : Prop :=
  header_ok (b_header b) /\ Z.of_nat (24 + length (b_records b)) < 2 ^ 31 /\
  Forall (u_range 8) (b_records b).

(** The region the checksum covers. *)
Definition covered_bytes (b : RecordBatch) : list byte :=
  let h := b_header b in
  store_le 2 (h_attrs h) ++ store_le 8 (h_producer_id h) ++ store_le 2 (h_producer_epoch h) ++
  store_le 4 (h_base_sequence h) ++ store_le 4 (h_record_count h) ++ b_records b.

(** The on-disk layout as one concatenation. *)
Definition batch_layout (b : RecordBatch) : list byte :=
  store_le 8 (h_base_offset (b_header b)) ++
  store_le 4 (Z.of_nat (24 + length (b_records b))) ++
  store_le 4 (crc32c (covered_bytes b) 0) ++ covered_bytes b.

(** A list of known length as its elements. *)
Lemma length_S_inv {A} (l : list A) n :
  length l = S n -> exists x l', l = x :: l' /\ length l' = n.
Proof. destruct l as [|x l]; [done|]. intros [= H]. eauto. Qed.

Ltac explode :=
  repeat match goal with
  | H : length ?l = S _ |- _ =>
      let x := fresh "x" in let l' := fresh "l" in
      apply length_S_inv in H as (x & l' & -> & H)
  | H : length ?l = 0%nat |- _ => apply nil_length_inv in H as ->
  end.

(** The eight stores of [encode], on any byte strings of the field widths. *)
Lemma splice_layout (a p e s c o n k : list byte) :
  length a = 2%nat -> length p = 8%nat -> length e = 2%nat -> length s = 4%nat ->
  length c = 4%nat -> length o = 8%nat -> length n = 4%nat -> length k = 4%nat ->
  let h5 := splice 32 c (splice 28 s (splice 26 e (splice 18 p (splice 16 a (repeat 0 36))))) in
  drop 16 h5 = a ++ p ++ e ++ s ++ c /\
  splice 12 k (splice 8 n (splice 0 o h5)) = o ++ n ++ k ++ a ++ p ++ e ++ s ++ c.
Proof. intros. explode. split; reflexivity. Qed.

Lemma to_i_small z : 0 <= z < 2 ^ 31 -> to_i 32 z = z.
Proof.
  intros H. unfold to_i. change (32 - 1) with 31. rewrite Z.mod_small.
  - destruct (Z.ltb_spec z (2 ^ 31)); lia.
  - width_simpl. lia.
Qed.

Lemma batch_encode_layout b out : batch_ok b -> batch_encode b out = out ++ batch_layout b.
Proof.
  intros (_ & Hlen & _). unfold batch_encode, subspan.
  edestruct (splice_layout (store_le 2 (h_attrs (b_header b)))
    (store_le 8 (h_producer_id (b_header b))) (store_le 2 (h_producer_epoch (b_header b)))
    (store_le 4 (h_base_sequence (b_header b))) (store_le 4 (h_record_count (b_header b))))
    as [Hcov Hlay]; try apply length_store_le.
  cbv zeta. change kHeaderSize with 36%nat. change kAttrsPos with 16%nat.
  change kProducerIdPos with 18%nat. change kProducerEpochPos with 26%nat.
  change kBaseSequencePos with 28%nat. change kRecordCountPos with 32%nat.
  change kBaseOffsetPos with 0%nat. change kLengthPos with 8%nat. change kCrcPos with 12%nat.
  rewrite Hcov, Hlay by apply length_store_le.
  change (36 - kLengthFieldEnd)%nat with 24%nat. rewrite to_i_small by (width_simpl; lia).
  rewrite <- crc32c_app. unfold batch_layout, covered_bytes. cbv zeta. now rewrite <- !app_assoc.
Qed.

Lemma length_covered b : length (covered_bytes b) = (20 + length (b_records b))%nat.
Proof. unfold covered_bytes. cbv zeta. autorewrite with nexus_bytes. lia. Qed.

Lemma length_batch_layout b : length (batch_layout b) = encoded_size b.
Proof.
  unfold batch_layout, encoded_size, kHeaderSize. autorewrite with nexus_bytes.
  rewrite length_covered. lia.
Qed.

Lemma covered_is_bytes b : Forall (u_range 8) (b_records b) -> Forall (u_range 8) (covered_bytes b).
Proof. intros. unfold covered_bytes. cbv zeta. rewrite !Forall_app. auto 10 using store_le_bytes. Qed.

(** Skips whole fields in front of the wanted position. *)
Ltac at_field :=
  unfold subspan, subspan_n; rewrite ?drop_store by (vm_compute; lia);
  match goal with |- context [drop ?n _] => let v := eval vm_compute in n in
    change n with v; rewrite ?drop_0 end.

(** What the decoder loads from the layout, whatever follows it. *)
Lemma layout_fields b tl :
  batch_ok b ->
  let data := batch_layout b ++ tl in
  load_le_i 8 (subspan kBaseOffsetPos data) = h_base_offset (b_header b) /\
  load_le_i 4 (subspan kLengthPos data) = Z.of_nat (24 + length (b_records b)) /\
  load_le_u 4 (subspan kCrcPos data) = crc32c (covered_bytes b) 0 /\
  load_le_u 2 (subspan kAttrsPos data) = h_attrs (b_header b) /\
  load_le_i 8 (subspan kProducerIdPos data) = h_producer_id (b_header b) /\
  load_le_i 2 (subspan kProducerEpochPos data) = h_producer_epoch (b_header b) /\
  load_le_i 4 (subspan kBaseSequencePos data) = h_base_sequence (b_header b) /\
  load_le_i 4 (subspan kRecordCountPos data) = h_record_count (b_header b).
Proof.
  intros ((Hbo & Hat & Hpi & Hpe & Hbs & Hrc) & Hlen & Hb). cbv zeta.
  assert (Hcrc : u_range 32 (crc32c (covered_bytes b) 0)).
  { apply u_range_crc32c; [by_range|]. now apply covered_is_bytes. }
  unfold batch_layout. generalize dependent (crc32c (covered_bytes b) 0). intros crc Hcrc.
  unfold covered_bytes. cbv zeta. rewrite <- !app_assoc.
  repeat split; at_field; (apply load_store_i || apply load_store_u); try done; try lia.
Qed.

(** The region the checksum is computed over is the one it was computed from. *)
Lemma layout_covered b tl :
  subspan_n kAttrsPos (20 + length (b_records b)) (batch_layout b ++ tl) = covered_bytes b /\
  subspan_n kHeaderSize (length (b_records b)) (batch_layout b ++ tl) = b_records b.
Proof.
  unfold batch_layout. split.
  - rewrite <- !app_assoc. at_field. rewrite <- length_covered. apply take_app_length.
  - unfold covered_bytes. cbv zeta. rewrite <- !app_assoc. at_field. apply take_app_length.
Qed.

Lemma layout_total b : (kLengthFieldEnd + Z.to_nat (Z.of_nat (24 + length (b_records b))))%nat
  = encoded_size b.
Proof. rewrite Nat2Z.id. unfold encoded_size. cbv [kLengthFieldEnd kLengthPos kHeaderSize]. lia. Qed.

Lemma batch_decode_layout b tl : batch_ok b -> batch_decode (batch_layout b ++ tl) = Ok b.
Proof.
  intros Hok. pose proof (layout_fields b tl Hok) as (Hbo & Hl & Hcrc & Hat & Hpi & Hpe & Hbs & Hrc).
  destruct (layout_covered b tl) as [Hcov Hrec].
  unfold batch_decode. rewrite Hl, layout_total, Hcrc, Hbo, Hat, Hpi, Hpe, Hbs, Hrc.
  rewrite length_app, length_batch_layout. unfold encoded_size in *.
  replace (kHeaderSize + length (b_records b) - kAttrsPos)%nat with (20 + length (b_records b))%nat
    by (cbv [kHeaderSize kAttrsPos]; lia).
  replace (kHeaderSize + length (b_records b) - kHeaderSize)%nat with (length (b_records b)) by lia.
  rewrite Hcov, Hrec, Z.eqb_refl. cbv zeta.
  repeat match goal with
  | |- context [(?a <? ?b)%nat] => destruct (Nat.ltb_spec a b); [lia|]
  | |- context [(?a <? ?b)] => destruct (Z.ltb_spec a b); [lia|]
  end. cbn. destruct b as [[] ?]. done.
Qed.

Lemma batch_peek_layout b tl :
  batch_ok b ->
  batch_peek (batch_layout b ++ tl)
  = Ok (MkView (h_base_offset (b_header b)) (h_record_count (b_header b)) (encoded_size b)).
Proof.
  intros Hok. pose proof (layout_fields b tl Hok) as (Hbo & Hl & _ & _ & _ & _ & _ & Hrc).
  unfold batch_peek. rewrite Hl, layout_total, Hbo, Hrc.
  rewrite length_app, length_batch_layout. unfold encoded_size in *. cbv zeta.
  repeat match goal with
  | |- context [(?a <? ?b)%nat] => destruct (Nat.ltb_spec a b); [lia|]
  | |- context [(?a <? ?b)] => destruct (Z.ltb_spec a b); [lia|]
  end. done.
Qed.

(** Peeking reads the header only. *)
Lemma batch_peek_header data : (kHeaderSize <= length data)%nat -> batch_peek (take kHeaderSize data) = batch_peek data.
Proof.
  intros Hl. unfold batch_peek, load_le_i, subspan. rewrite length_take, Nat.min_l by done.
  rewrite (proj2 (Nat.ltb_ge (length data) _)) by done. rewrite Nat.ltb_irrefl.
  rewrite !skipn_firstn_comm, !load_bits_take by (vm_compute; lia). done.
Qed.

(** A successful decode never reads past the input, and the batch it returns has the
    checksum the header stores. *)
Lemma batch_decode_inv data b :
  batch_decode data = Ok b ->
  (encoded_size b <= length data)%nat /\
  crc32c (subspan_n kAttrsPos (encoded_size b - kAttrsPos) data) 0 = load_le_u 4 (subspan kCrcPos data).
Proof.
  unfold batch_decode. cbv zeta.
  destruct (Nat.ltb_spec (length data) kHeaderSize); [done|].
  destruct (Z.ltb_spec (load_le_i 4 (subspan kLengthPos data)) 0); [done|].
  generalize (kLengthFieldEnd + Z.to_nat (load_le_i 4 (subspan kLengthPos data)))%nat. intros total.
  destruct (Nat.ltb_spec total kHeaderSize); [done|].
  destruct (Nat.ltb_spec (length data) total); [done|]. cbn [orb].
  destruct (Z.eqb_spec (crc32c (subspan_n kAttrsPos (total - kAttrsPos) data) 0)
    (load_le_u 4 (subspan kCrcPos data))) as [Hc|]; [|done]. cbn [negb].
  intros [= <-].
  assert (Hsz : length (subspan_n kHeaderSize (total - kHeaderSize) data) = (total - kHeaderSize)%nat).
  { unfold subspan_n. rewrite length_take, length_drop. lia. }
  unfold encoded_size. cbn [b_records]. rewrite Hsz.
  replace (kHeaderSize + (total - kHeaderSize))%nat with total by lia. auto.
Qed.

(** Decoding an encoded batch gives the batch back, whatever bytes follow it in the buffer,
    and peeking at its header gives the offsets and the exact on-disk size. *)
Theorem record_batch_roundtrip (b : RecordBatch) (tl : list byte) (Hok : batch_ok b) :
  batch_decode (batch_encode b [] ++ tl) = Ok b /\
  batch_peek (batch_encode b [] ++ tl)
  = Ok (MkView (h_base_offset (b_header b)) (h_record_count (b_header b))
          (length (batch_encode b []))).
Proof.
  rewrite batch_encode_layout by done. cbn [app]. rewrite length_batch_layout.
  split; [by apply batch_decode_layout|by apply batch_peek_layout].
Qed.

Definition sample_batch : RecordBatch := MkBatch (MkHeader 7 0 (-1) (-1) (-1) 2) [1; 2; 3; 250].

Lemma sample_batch_ok : batch_ok sample_batch.
Proof. unfold batch_ok, header_ok, sample_batch; cbn. by_ranges. all: vm_compute; easy. Qed.

Lemma record_batch_roundtrip_witness :
  batch_decode (batch_encode sample_batch [] ++ [9; 9]) = Ok sample_batch /\
  batch_peek (batch_encode sample_batch [] ++ [9; 9]) = Ok (MkView 7 2 40).
Proof. exact (record_batch_roundtrip sample_batch [9; 9] sample_batch_ok). Defined.
