(* ===== verification/Codec.v ===== *)
(** * The wire codec

    Models [Encoder] and [Decoder] of [src/src/protocol/codec.cpp] and the interface every
    wire type implements (an [encode]/[decode] pair).  An encoder is the buffer it appends to;
    a decoder is the input view with its read position, threaded through every [get_*]. *)
From Stdlib Require Import ZArith Lia Ascii String.
From stdpp Require Import base list gmap strings.
From S2P Require Import Prelude Bytes.
#[local] Open Scope Z_scope.

(** ** Encoder *)

Abbreviation Encoder := (list byte) (only parsing).

Definition put_u8 (value : Z) (out : Encoder) : Encoder := out ++ [value].
Definition put_u16 (value : Z) (out : Encoder) : Encoder := out ++ store_le 2 value.
Definition put_u32 (value : Z) (out : Encoder) : Encoder := out ++ store_le 4 value.
Definition put_i16 (value : Z) (out : Encoder) : Encoder := out ++ store_le 2 value.
Definition put_i32 (value : Z) (out : Encoder) : Encoder := out ++ store_le 4 value.
Definition put_i64 (value : Z) (out : Encoder) : Encoder := out ++ store_le 8 value.
Definition enc_put_varint (value : Z) (out : Encoder) : Encoder := out ++ put_varint value.

Definition put_bytes (data : list byte) (out : Encoder) : Encoder :=
  enc_put_varint (Z.of_nat (length data)) out ++ data.

(** A [std::string_view] as the bytes it points to. *)
Definition bytes_of_string (s : string) : list byte :=
  (fun a : ascii => Z.of_nat (nat_of_ascii a)) <$> list_ascii_of_string s.
Definition string_of_bytes (bs : list byte) : string :=
  string_of_list_ascii ((fun b : byte => ascii_of_nat (Z.to_nat b)) <$> bs).

Definition put_string (text : string) (out : Encoder) : Encoder :=
  enc_put_varint (Z.of_nat (String.length text)) out ++ bytes_of_string text.

(** ** Decoder *)

Record Decoder := MkDecoder { in_ : list byte; pos_ : nat }.

(** A read: the result, and the decoder after it (also when it failed). *)
Definition Reader (A : Type) : Type := Decoder -> expected A * Decoder.

Definition remaining (d : Decoder) : nat := length (in_ d) - pos_ d.
Definition dec_empty (d : Decoder) : bool := (length (in_ d) <=? pos_ d)%nat.

Definition ret {A} (a : A) : Reader A := fun d => (Ok a, d).
Definition fail {A} (c : ErrorCode) (msg : string) : Reader A := fun d => (make_error c msg, d).
Definition rbind {A B} (m : Reader A) (k : A -> Reader B) : Reader B :=
  fun d => match m d with
           | (Ok a, d') => k a d'
           | (Err e, d') => (Err e, d')
           end.

Declare Scope reader_scope.
Delimit Scope reader_scope with reader.
Notation "'let!' x ':=' m 'in' k" := (rbind m (fun x => k))
  (at level 10, x name, m at level 100, k at level 200) : reader_scope.
#[global] Open Scope reader_scope.

(** [Decoder::take]: the bounds check every read goes through. *)
Definition dec_take (n : nat) : Reader (list byte) := fun d =>
  if (remaining d <? n)%nat then (make_error InvalidArgument "decode fuera de límites", d)
  else (Ok (subspan_n (pos_ d) n (in_ d)), MkDecoder (in_ d) (pos_ d + n)).

Definition get_u8 : Reader Z := let! span := dec_take 1 in ret (nth 0 span 0).
Definition get_u16 : Reader Z := let! span := dec_take 2 in ret (load_le_u 2 span).
Definition get_u32 : Reader Z := let! span := dec_take 4 in ret (load_le_u 4 span).
Definition get_i16 : Reader Z := let! span := dec_take 2 in ret (load_le_i 2 span).
Definition get_i32 : Reader Z := let! span := dec_take 4 in ret (load_le_i 4 span).
Definition get_i64 : Reader Z := let! span := dec_take 8 in ret (load_le_i 8 span).

Definition dec_get_varint : Reader Z := fun d =>
  match get_varint (subspan (pos_ d) (in_ d)) with
  | Ok (value, rest) => (Ok value, MkDecoder (in_ d) (length (in_ d) - length rest))
  | Err e => (Err e, d)
  end.

Definition get_bytes : Reader (list byte) :=
  let! len := dec_get_varint in dec_take (Z.to_nat len).

Definition get_string : Reader string :=
  let! bytes := get_bytes in ret (string_of_bytes bytes).

(** ** What a decoder sees *)

Definition advance (n : nat) (d : Decoder) : Decoder := MkDecoder (in_ d) (pos_ d + n).

(** The unread input begins with [bs]. *)
Definition starts_with (d : Decoder) (bs : list byte) : Prop :=
  exists tl, drop (pos_ d) (in_ d) = bs ++ tl.

(** [m] reads [a] off any input that begins with [bs], and stops right after it. *)
Definition reads {A} (m : Reader A) (bs : list byte) (a : A) : Prop :=
  forall d, starts_with d bs -> m d = (Ok a, advance (length bs) d).

Lemma advance_add n m d : advance m (advance n d) = advance (n + m) d.
Proof. unfold advance. cbn. f_equal. lia. Qed.

Lemma starts_with_app d a b :
  starts_with d (a ++ b) -> starts_with d a /\ starts_with (advance (length a) d) b.
Proof.
  intros [tl H]. split.
  - exists (b ++ tl). now rewrite H, app_assoc.
  - exists tl. unfold advance. cbn. rewrite <- drop_drop, H, <- app_assoc.
    now rewrite drop_app_length.
Qed.

Lemma starts_with_length d bs : starts_with d bs -> (length bs <= remaining d)%nat.
Proof.
  intros [tl H]. apply (f_equal length) in H. rewrite length_drop, length_app in H.
  unfold remaining. lia.
Qed.

Lemma reads_ret {A} (a : A) : reads (ret a) [] a.
Proof. intros d _. unfold ret, advance. destruct d. cbn. now rewrite Nat.add_0_r. Qed.

Lemma reads_ret_eq {A} (a b : A) : a = b -> reads (ret a) [] b.
Proof. intros ->. apply reads_ret. Qed.

Lemma reads_end {A} (m : Reader A) bs a : reads m (bs ++ []) a -> reads m bs a.
Proof. by rewrite app_nil_r. Qed.

(** Sequencing of reads over concatenated encodings. *)
Lemma reads_bind {A B} (m : Reader A) (k : A -> Reader B) ba bb a b :
  reads m ba a -> reads (k a) bb b -> reads (rbind m k) (ba ++ bb) b.
Proof.
  intros Hm Hk d Hd. apply starts_with_app in Hd as [Ha Hb]. unfold rbind.
  rewrite (Hm d Ha), (Hk _ Hb), advance_add, length_app. done.
Qed.

(** The last read of a sequence. *)
Lemma reads_bind_last {A B} (m : Reader A) (f : A -> B) ba a :
  reads m ba a -> reads (rbind m (fun x => ret (f x))) ba (f a).
Proof. intros Hm. rewrite <- (app_nil_r ba). eapply reads_bind; [done|apply reads_ret]. Qed.

Lemma reads_bind_last_eq {A B} (m : Reader A) (f : A -> B) ba a b :
  reads m ba a -> f a = b -> reads (rbind m (fun x => ret (f x))) ba b.
Proof. intros Hm <-. by apply reads_bind_last. Qed.

Lemma reads_take bs n : length bs = n -> reads (dec_take n) bs bs.
Proof.
  intros <- d Hd. pose proof (starts_with_length d bs Hd). destruct Hd as [tl Htl].
  unfold dec_take, subspan_n. destruct (Nat.ltb_spec (remaining d) (length bs)); [lia|].
  rewrite Htl, take_app_length. done.
Qed.

Lemma reads_u8 v : reads get_u8 [v] v.
Proof. exact (reads_bind_last (dec_take 1) (fun s => nth 0 s 0) [v] [v] (reads_take [v] 1 eq_refl)). Qed.

Lemma reads_store_u n v :
  u_range (8 * Z.of_nat n) v ->
  reads (let! span := dec_take n in ret (load_le_u n span)) (store_le n v) v.
Proof.
  intros Hv. rewrite <- (load_store_u n v []) at 2 by done. rewrite app_nil_r.
  apply reads_bind_last, reads_take, length_store_le.
Qed.

Lemma reads_store_i n v :
  (0 < n)%nat -> i_range (8 * Z.of_nat n) v ->
  reads (let! span := dec_take n in ret (load_le_i n span)) (store_le n v) v.
Proof.
  intros Hn Hv. rewrite <- (load_store_i n v []) at 2 by done. rewrite app_nil_r.
  apply reads_bind_last, reads_take, length_store_le.
Qed.

Lemma reads_u16 v : u_range 16 v -> reads get_u16 (store_le 2 v) v.
Proof. apply (reads_store_u 2). Qed.
Lemma reads_u32 v : u_range 32 v -> reads get_u32 (store_le 4 v) v.
Proof. apply (reads_store_u 4). Qed.
Lemma reads_i16 v : i_range 16 v -> reads get_i16 (store_le 2 v) v.
Proof. apply (reads_store_i 2); lia. Qed.
Lemma reads_i32 v : i_range 32 v -> reads get_i32 (store_le 4 v) v.
Proof. apply (reads_store_i 4); lia. Qed.
Lemma reads_i64 v : i_range 64 v -> reads get_i64 (store_le 8 v) v.
Proof. apply (reads_store_i 8); lia. Qed.

Lemma reads_varint v : u_range 64 v -> reads dec_get_varint (put_varint v) v.
Proof.
  intros Hv d Hd. pose proof (starts_with_length _ _ Hd) as Hlen. destruct Hd as [tl Htl].
  unfold dec_get_varint, subspan. rewrite Htl, get_put_varint by done.
  unfold advance. do 2 f_equal.
  apply (f_equal length) in Htl. rewrite length_drop, length_app in Htl.
  unfold remaining in Hlen. pose proof (length_put_varint v Hv). lia.
Qed.

Definition fits_size (bs : list byte) : Prop := u_range 64 (Z.of_nat (length bs)).

Lemma reads_bytes bs :
  fits_size bs -> reads get_bytes (put_varint (Z.of_nat (length bs)) ++ bs) bs.
Proof.
  intros H. eapply reads_bind; [now apply reads_varint|]. apply reads_take. lia.
Qed.

Lemma length_bytes_of_string s : length (bytes_of_string s) = String.length s.
Proof. unfold bytes_of_string. rewrite length_fmap. induction s; cbn; auto. Qed.

Lemma string_of_bytes_of_string s : string_of_bytes (bytes_of_string s) = s.
Proof.
  unfold string_of_bytes, bytes_of_string. rewrite <- list_fmap_compose.
  replace (_ <$> list_ascii_of_string s) with (list_ascii_of_string s).
  - apply string_of_list_ascii_of_string.
  - rewrite <- (list_fmap_id (list_ascii_of_string s)) at 1. apply list_fmap_ext. intros i a _.
    cbn. now rewrite Nat2Z.id, ascii_nat_embedding.
Qed.

Lemma reads_string s :
  u_range 64 (Z.of_nat (String.length s)) ->
  reads get_string (put_varint (Z.of_nat (String.length s)) ++ bytes_of_string s) s.
Proof.
  intros H. rewrite <- (string_of_bytes_of_string s) at 3.
  apply reads_bind_last. rewrite <- length_bytes_of_string. apply reads_bytes.
  unfold fits_size. now rewrite length_bytes_of_string.
Qed.

(** ** The interface of a wire type *)

(** What [T::encode] and [T::decode] promise each other: the encoding is appended to the
    buffer, and decoding it reads the value back and nothing else. *)
Class WireType (A : Type) := {
  wire_encode : A -> Encoder -> Encoder;
  wire_decode : Reader A;
  wire_ok : A -> Prop;
}.

Class WireTypeLaws (A : Type) `{!WireType A} := {
  wire_encode_app : forall (a : A) out, wire_encode a out = out ++ wire_encode a [];
  wire_reads : forall a : A, wire_ok a -> reads wire_decode (wire_encode a []) a;
}.

(** Decoding what was encoded into an empty buffer consumes all of it. *)
Lemma wire_roundtrip {A} `{WireTypeLaws A} (a : A) :
  wire_ok a ->
  wire_decode (MkDecoder (wire_encode a []) 0)
  = (Ok a, MkDecoder (wire_encode a []) (length (wire_encode a []))).
Proof.
  intros Ha. rewrite (wire_reads a Ha); [done|]. exists []. cbn. now rewrite app_nil_r.
Qed.

(** A counted sequence: the anti-DoS check of [get_count] ([raft_rpc.cpp], [messages.cpp])
    bounds the announced count by the bytes left. *)
Definition get_count : Reader nat := fun d =>
  match dec_get_varint d with
  | (Ok count, d') =>
      if Z.of_nat (remaining d') <? count
      then (make_error InvalidArgument "contador de elementos excede el buffer", d')
      else (Ok (Z.to_nat count), d')
  | (Err e, d') => (Err e, d')
  end.

(** The [for] loop that decodes [n] elements. *)
Fixpoint get_many {A} (m : Reader A) (n : nat) : Reader (list A) :=
  match n with
  | O => ret []
  | S n' => let! x := m in let! xs := get_many m n' in ret (x :: xs)
  end.

Lemma reads_count {B} (k : nat -> Reader B) n bb b :
  u_range 64 (Z.of_nat n) -> (n <= length bb)%nat -> reads (k n) bb b ->
  reads (rbind get_count k) (put_varint (Z.of_nat n) ++ bb) b.
Proof.
  intros Hn Hlen Hk d Hd. apply starts_with_app in Hd as [Ha Hb].
  pose proof (starts_with_length _ _ Hb). unfold rbind, get_count.
  rewrite (reads_varint _ Hn d Ha).
  destruct (Z.ltb_spec (Z.of_nat (remaining (advance (length (put_varint (Z.of_nat n))) d))) (Z.of_nat n));
    [lia|].
  rewrite Nat2Z.id, (Hk _ Hb), advance_add, length_app. done.
Qed.

Lemma reads_many {A} (m : Reader A) (enc : A -> list byte) (xs : list A) :
  Forall (fun x => reads m (enc x) x) xs -> reads (get_many m (length xs)) (concat (enc <$> xs)) xs.
Proof.
  induction 1 as [|x xs Hx _ IH]; cbn [length get_many fmap list_fmap concat]; [apply reads_ret|].
  eapply reads_bind; [done|]. apply (reads_bind_last _ (fun ys => x :: ys)). done.
Qed.

(** The bytes a loop of [put] calls appends. *)
Lemma foldl_put_app {A} (put : A -> Encoder -> Encoder) (enc : A -> list byte) (xs : list A) out :
  (forall x o, put x o = o ++ enc x) ->
  foldl (fun o x => put x o) out xs = out ++ concat (enc <$> xs).
Proof.
  intros H. revert out. induction xs as [|x xs IH]; intros out; cbn; [now rewrite app_nil_r|].
  now rewrite IH, H, app_assoc.
Qed.

Lemma length_concat_ge {A} (enc : A -> list byte) (xs : list A) :
  (forall x, (1 <= length (enc x))%nat) -> (length xs <= length (concat (enc <$> xs)))%nat.
Proof.
  intros H. induction xs as [|x xs IH]; cbn; [lia|]. rewrite length_app. pose proof (H x). lia.
Qed.

Create HintDb nexus_wire.
#[export] Hint Resolve reads_u8 reads_u16 reads_u32 reads_i16 reads_i32 reads_i64
  reads_varint reads_bytes reads_string : nexus_wire.

(** Flattens the appends of an encoder into the concatenation of the field encodings. *)
Lemma put_u8_app v out : put_u8 v out = out ++ [v]. Proof. done. Qed.
Lemma put_u16_app v out : put_u16 v out = out ++ store_le 2 v. Proof. done. Qed.
Lemma put_u32_app v out : put_u32 v out = out ++ store_le 4 v. Proof. done. Qed.
Lemma put_i16_app v out : put_i16 v out = out ++ store_le 2 v. Proof. done. Qed.
Lemma put_i32_app v out : put_i32 v out = out ++ store_le 4 v. Proof. done. Qed.
Lemma put_i64_app v out : put_i64 v out = out ++ store_le 8 v. Proof. done. Qed.
Lemma put_varint_app v out : enc_put_varint v out = out ++ put_varint v. Proof. done. Qed.
Lemma put_bytes_app v out :
  put_bytes v out = out ++ (put_varint (Z.of_nat (length v)) ++ v).
Proof. unfold put_bytes, enc_put_varint. now rewrite app_assoc. Qed.
Lemma put_string_app v out :
  put_string v out = out ++ (put_varint (Z.of_nat (String.length v)) ++ bytes_of_string v).
Proof. unfold put_string, enc_put_varint. now rewrite app_assoc. Qed.

Create Rewrite HintDb nexus_put.
#[export] Hint Rewrite put_u8_app put_u16_app put_u32_app put_i16_app put_i32_app put_i64_app
  put_varint_app put_bytes_app put_string_app : nexus_put.

(** Normal form of an encoder: one right-nested concatenation. *)
Ltac wire_flatten := autorewrite with nexus_put; rewrite <- ?app_assoc, ?app_nil_l; try done.

(** [wire_encode_app] of a record of fields. *)
Ltac solve_encode_app := intros; wire_flatten.

(** Reads a record field by field: each field encoding is split off and closed by the
    database, the last one by [reads_bind_last]. *)
Ltac wire_reads_fields :=
  repeat first
    [ progress (apply reads_bind_last)
    | eapply reads_bind; [solve [auto with nexus_wire]|] ];
  auto with nexus_wire.
