(* ===== verification/File.v ===== *)
(** * Files

    Models [File] of [src/src/io/file.hpp] and its POSIX implementation in [file.cpp]: positional
    reads and writes that loop over partial transfers and interrupted calls.  The operating system
    is not part of the sources: what the system calls do is a plan, a list of outcomes they consume
    in order; when the plan is over every call transfers all it was asked to.  The calls that
    change the file have one plan, consumed across operations; a read does not change the file, and
    every read meets the outcomes of a second plan from its start. *)
From stdpp Require Import base list gmap strings.
From Stdlib Require Import ZArith Lia.
From S2P Require Import Prelude Bytes.
#[local] Open Scope Z_scope.

(** What one system call does: a transfer of at most that many bytes (one at least),
    [EINTR], or another [errno]. *)
Inductive SysOutcome :=
  | Transfer (n : nat)
  | Interrupted
  | SysError (msg : string).

(** An open file: its bytes and the outcomes to come. *)
Record File := MkFile {
  f_content : list byte;
  f_plan : list SysOutcome;
  f_reads : list SysOutcome;
}.

(** A file of a healthy disk. *)
Definition file_of (content : list byte) : File := MkFile content [] [].

Definition io_error {A} (op msg : string) : expected A :=
  make_error IoError (op +:+ ": " +:+ msg).

(** [pwrite]: overwrites from [offset] on; a gap past the end of the file reads as zeros. *)
Definition pwrite (data : list byte) (offset : nat) (content : list byte) : list byte :=
  let padded := content ++ replicate (offset - length content) 0 in splice offset data padded.

Definition ftruncate (len : nat) (content : list byte) : list byte :=
  take len content ++ replicate (len - length content) 0.

(** The loop of [write_at]. *)
Fixpoint write_loop (plan : list SysOutcome) (data : list byte) (offset : nat) (content : list byte)
  : expected unit * (list byte * list SysOutcome) :=
  match data with
  | [] => (Ok tt, (content, plan))
  | _ :: _ =>
      match plan with
      | [] => (Ok tt, (pwrite data offset content, []))
      | Interrupted :: plan' => write_loop plan' data offset content
      | SysError msg :: plan' => (io_error "pwrite" msg, (content, plan'))
      | Transfer n :: plan' =>
          let k := Nat.min (length data) (Nat.max 1 n) in
          write_loop plan' (drop k data) (offset + k) (pwrite (take k data) offset content)
      end
  end.

Definition write_at (data : list byte) (offset : nat) (f : File) : expected unit * File :=
  let '(res, (content, plan)) := write_loop (f_plan f) data offset (f_content f) in
  (res, MkFile content plan (f_reads f)).

(** The retry loop around [fsync] and [ftruncate]: [None] when the call was made. *)
Fixpoint call_loop (plan : list SysOutcome) : option string * list SysOutcome :=
  match plan with
  | [] => (None, [])
  | Interrupted :: plan' => call_loop plan'
  | SysError msg :: plan' => (Some msg, plan')
  | Transfer _ :: plan' => (None, plan')
  end.

Definition file_sync (f : File) : expected unit * File :=
  match call_loop (f_plan f) with
  | (Some msg, plan) => (io_error "fsync" msg, MkFile (f_content f) plan (f_reads f))
  | (None, plan) => (Ok tt, MkFile (f_content f) plan (f_reads f))
  end.

Definition file_truncate (len : nat) (f : File) : expected unit * File :=
  match call_loop (f_plan f) with
  | (Some msg, plan) => (io_error "ftruncate" msg, MkFile (f_content f) plan (f_reads f))
  | (None, plan) => (Ok tt, MkFile (ftruncate len (f_content f)) plan (f_reads f))
  end.

Definition file_size (f : File) : expected nat :=
  match f_reads f with
  | SysError msg :: _ => io_error "fstat" msg
  | _ => Ok (length (f_content f))
  end.

(** The loop of [read_at]: the bytes read, fewer than asked only at the end of the file. *)
Fixpoint read_loop (plan : list SysOutcome) (n offset : nat) (content : list byte)
  : expected (list byte) :=
  if (n =? 0)%nat then Ok []
  else match plan with
  | [] => Ok (subspan_n offset n content)
  | Interrupted :: plan' => read_loop plan' n offset content
  | SysError msg :: _ => io_error "pread" msg
  | Transfer k :: plan' =>
      let got := subspan_n offset (Nat.min n (Nat.max 1 k)) content in
      if (length got =? 0)%nat then Ok []
      else let? rest := read_loop plan' (n - length got) (offset + length got) content in
           Ok (got ++ rest)
  end.

Definition read_at (n offset : nat) (f : File) : expected (list byte) :=
  read_loop (f_reads f) n offset (f_content f).

(** ** Properties *)

(** A call plan with no failing call. *)
Definition no_errors (plan : list SysOutcome) : Prop :=
  Forall (fun o => match o with SysError _ => False | _ => True end) plan.

Lemma length_pwrite data offset content :
  length (pwrite data offset content) = Nat.max (length content) (offset + length data).
Proof.
  unfold pwrite, splice. rewrite !length_app, length_take, length_drop, length_app, length_replicate. lia.
Qed.

Lemma pwrite_nil offset content : (offset <= length content)%nat -> pwrite [] offset content = content.
Proof.
  intros. unfold pwrite, splice. replace (offset - length content)%nat with 0%nat by lia.
  cbn. now rewrite app_nil_r, Nat.add_0_r, take_drop.
Qed.

Lemma lookup_pwrite data offset content i :
  pwrite data offset content !! i =
  if decide (offset <= i < offset + length data)%nat then data !! (i - offset)%nat
  else if decide (i < length content)%nat then content !! i
  else if decide (i < offset)%nat then Some 0 else None.
Proof.
  unfold pwrite, splice. set (p := content ++ _).
  assert (Hp : length p = Nat.max (length content) offset).
  { subst p. rewrite length_app, length_replicate. lia. }
  assert (Hpl : p !! i = if decide (i < length content)%nat then content !! i
                else if decide (i < offset)%nat then Some 0 else None).
  { subst p. repeat case_decide.
    - by rewrite lookup_app_l by lia.
    - rewrite lookup_app_r by lia. by rewrite lookup_replicate_2 by lia.
    - apply lookup_ge_None. rewrite length_app, length_replicate. lia. }
  destruct (decide (i < offset)%nat).
  - rewrite lookup_app_l by (rewrite length_take; lia). rewrite lookup_take_lt by lia.
    rewrite Hpl. destruct (decide (offset <= i < offset + length data)%nat); [lia|].
    repeat case_decide; done || lia.
  - rewrite lookup_app_r by (rewrite length_take; lia). rewrite length_take, Hp.
    replace (i - offset `min` _)%nat with (i - offset)%nat by lia.
    destruct (decide (offset <= i < offset + length data)%nat).
    + by rewrite lookup_app_l by lia.
    + rewrite lookup_app_r by lia. rewrite lookup_drop.
      replace (offset + length data + _)%nat with i by lia. rewrite Hpl.
      repeat case_decide; done || lia.
Qed.

(** Two adjacent writes are one. *)
Lemma pwrite_app a b offset content :
  pwrite b (offset + length a) (pwrite a offset content) = pwrite (a ++ b) offset content.
Proof.
  apply list_eq. intros i. rewrite !lookup_pwrite, length_pwrite, length_app.
  repeat case_decide; try lia; try done.
  - rewrite lookup_app_r by lia. f_equal. lia.
  - by rewrite lookup_app_l by lia.
Qed.

(** A write that reports success has stored all of its bytes. *)
Lemma write_loop_ok plan data offset content u content' plan' :
  write_loop plan data offset content = (Ok u, (content', plan')) ->
  (data <> [] \/ offset <= length content)%nat -> content' = pwrite data offset content.
Proof.
  revert data offset content. induction plan as [|o plan IH]; intros [|x data] offset content; cbn [write_loop];
    intros Hw Hd.
  1,3: simplify_eq; rewrite pwrite_nil; [done|naive_solver].
  - by simplify_eq.
  - destruct o as [n| |msg]; [|by apply IH; [|left]|done]. cbv zeta in Hw.
    set (k := Nat.min (length (x :: data)) (Nat.max 1 n)) in *.
    assert (Hk : length (take k (x :: data)) = k) by (rewrite length_take; lia).
    apply IH in Hw as ->; [|right; rewrite length_pwrite, Hk; lia].
    rewrite <- Hk at 2. by rewrite pwrite_app, take_drop.
Qed.

Lemma write_loop_succeeds plan data offset content :
  no_errors plan -> exists content' plan', no_errors plan' /\
    write_loop plan data offset content = (Ok tt, (content', plan')).
Proof.
  intros Hp. revert data offset content.
  induction Hp as [|o plan Ho Hp IH]; intros [|x data] offset content; cbn [write_loop].
  1,2: do 2 eexists; split; [|done]; constructor.
  - do 2 eexists. split; [|done]. by constructor.
  - destruct o; [apply IH|apply IH|done].
Qed.

Lemma write_loop_complete plan data offset content :
  no_errors plan -> (data <> [] \/ offset <= length content)%nat ->
  exists plan', no_errors plan' /\
    write_loop plan data offset content = (Ok tt, (pwrite data offset content, plan')).
Proof.
  intros Hp Hd. destruct (write_loop_succeeds plan data offset content Hp) as (c & plan' & Hp' & Hw).
  exists plan'. split; [done|]. by rewrite Hw, (write_loop_ok _ _ _ _ _ _ _ Hw Hd).
Qed.

Lemma read_loop_complete plan n offset content :
  no_errors plan -> read_loop plan n offset content = Ok (subspan_n offset n content).
Proof.
  intros Hp. revert n offset. induction Hp as [|o plan Ho Hp IH]; intros n offset; cbn [read_loop];
    destruct (Nat.eqb_spec n 0) as [->|Hn]; try done.
  destruct o as [k| |msg]; [|apply IH|done]. cbv zeta.
  set (m := Nat.min n (Nat.max 1 k)). unfold subspan_n in *.
  destruct (Nat.eqb_spec (length (take m (drop offset content))) 0) as [H0|H0].
  - rewrite length_take, length_drop in H0. rewrite drop_ge by lia. by rewrite take_nil.
  - rewrite IH. cbn. f_equal. rewrite <- drop_drop.
    set (d := drop offset content) in *. rewrite length_take in *.
    destruct (Nat.le_gt_cases (length d) m).
    + rewrite (take_ge d m), (take_ge d n) by lia. rewrite drop_ge by lia. by rewrite take_nil, app_nil_r.
    + replace (m `min` length d)%nat with m by lia. subst m.
      replace n with (Nat.min n (Nat.max 1 k) + (n - Nat.min n (Nat.max 1 k)))%nat at 5 by lia.
      by rewrite take_take_drop.
Qed.

(** ** Successful file calls *)

Lemma write_at_ok data offset f u f' :
  write_at data offset f = (Ok u, f') -> (data <> [] \/ offset <= length (f_content f))%nat ->
  f_content f' = pwrite data offset (f_content f) /\ f_reads f' = f_reads f.
Proof.
  unfold write_at. destruct (write_loop _ _ _ _) as [res [c plan]] eqn:Hw. intros [= -> <-] Hd.
  split; [|done]. cbn. eapply write_loop_ok; eauto.
Qed.

Lemma file_truncate_ok len f u f' :
  file_truncate len f = (Ok u, f') ->
  f_content f' = ftruncate len (f_content f) /\ f_reads f' = f_reads f.
Proof. unfold file_truncate. destruct (call_loop _) as [[]]; [done|]. by intros [= _ <-]. Qed.

Lemma pwrite_end data content : pwrite data (length content) content = content ++ data.
Proof.
  unfold pwrite, splice. rewrite Nat.sub_diag. cbn [replicate]. rewrite app_nil_r, take_ge by lia.
  rewrite drop_ge by lia. by rewrite app_nil_r.
Qed.

Lemma take_pwrite data k content :
  (k <= length content)%nat ->
  take (k + length data) (pwrite data k content) = take k content ++ data.
Proof.
  intros Hk. unfold pwrite, splice. replace (k - length content)%nat with 0%nat by lia.
  cbn [replicate]. rewrite app_nil_r, app_assoc.
  apply take_app_length'. rewrite length_app, length_take. lia.
Qed.

(** A write, even one that fails halfway, touches nothing before its offset. *)
Lemma take_pwrite_before data k offset content :
  (k <= offset <= length content)%nat -> take k (pwrite data offset content) = take k content.
Proof.
  intros Hk. unfold pwrite, splice. replace (offset - length content)%nat with 0%nat by lia.
  cbn [replicate]. rewrite app_nil_r, take_app_le by (rewrite length_take; lia).
  rewrite take_take. f_equal. lia.
Qed.

Lemma write_loop_before plan data offset content k :
  (k <= offset <= length content)%nat ->
  take k (write_loop plan data offset content).2.1 = take k content.
Proof.
  intros Hk. revert data offset content Hk. induction plan as [|o plan IH]; intros [|x data] offset content Hk;
    cbn [write_loop]; try done.
  - by apply take_pwrite_before.
  - destruct o as [n| |msg]; [|by apply IH|done]. cbv zeta. rewrite IH.
    + apply take_pwrite_before; lia.
    + rewrite length_pwrite, length_take. lia.
Qed.

Lemma write_at_before data offset f r f' k :
  write_at data offset f = (r, f') -> (k <= offset <= length (f_content f))%nat ->
  take k (f_content f') = take k (f_content f) /\ f_reads f' = f_reads f.
Proof.
  unfold write_at. pose proof (write_loop_before (f_plan f) data offset (f_content f) k) as H.
  destruct (write_loop _ _ _ _) as [res [c plan]]. intros [= _ <-] Hk. split; [by apply H|done].
Qed.

Lemma file_truncate_err len f e f' :
  file_truncate len f = (Err e, f') -> f_content f' = f_content f /\ f_reads f' = f_reads f.
Proof. unfold file_truncate. destruct (call_loop _) as [[]]; [|done]. by intros [= _ <-]. Qed.

(** The loops of [write_at] and [read_at] hide how the system splits the transfer: as long as no
    call fails, whatever partial transfers and interruptions happen, the write stores all of its
    bytes and reading them back gives exactly those bytes. *)
Theorem file_write_read (data : list byte) (offset : nat) (f : File)
    (Hdata : data <> []) (Hplan : no_errors (f_plan f)) (Hreads : no_errors (f_reads f)) :
  let '(res, f') := write_at data offset f in
  res = Ok tt /\ f_content f' = pwrite data offset (f_content f) /\
  read_at (length data) offset f' = Ok data.
Proof.
  unfold write_at. destruct (write_loop_complete (f_plan f) data offset (f_content f)) as (plan' & _ & ->);
    [done|by left|]. cbn. split_and!; [done|done|].
  unfold read_at. cbn. rewrite read_loop_complete by done. f_equal.
  unfold pwrite, splice, subspan_n. rewrite drop_app_ge by (rewrite length_take; lia).
  rewrite length_take, length_app, length_replicate.
  replace (offset - _)%nat with 0%nat by lia. by rewrite drop_0, take_app_length.
Qed.

Lemma file_write_read_witness :
  let '(res, f') := write_at [1; 2; 3; 4] 2
    (MkFile [9; 9; 9; 9] [Transfer 1; Interrupted; Transfer 2] [Interrupted; Transfer 3]) in
  res = Ok tt /\ f_content f' = [9; 9; 1; 2; 3; 4] /\ read_at 4 2 f' = Ok [1; 2; 3; 4].
Proof.
  exact (file_write_read [1; 2; 3; 4] 2
    (MkFile [9; 9; 9; 9] [Transfer 1; Interrupted; Transfer 2] [Interrupted; Transfer 3])
    ltac:(discriminate) ltac:(repeat constructor) ltac:(repeat constructor)).
Defined.
