(* ===== verification/BlockReader.v ===== *)
(** * Reading by blocks

    Models [BlockReader] of [src/src/io/block_reader.hpp] and [block_reader.cpp]: reads of any range
    served from aligned blocks, with a cache of the least recently used and the blocks that follow a
    sequential read loaded ahead.  The file is an argument of every operation, since others append to
    it meanwhile; the memory of a block is always found.  [index_] finds the entry of a block in the
    list [lru_], which is what the lookup of the list does. *)
From Stdlib Require Import ZArith Lia.
From stdpp Require Import base list sets strings.
From S2P Require Import Prelude Bytes File.
#[local] Open Scope Z_scope.

Definition is_power_of_two (value : Z) : bool := negb (value =? 0) && (Z.land value (value - 1) =? 0).

Definition kDirectAlignment : Z := 4096.

(** A block: its valid bytes. *)
Definition Block : Type := list byte.

(** The cache, the most recent block first. *)
Record BlockReader := MkBlockReader {
  rd_block_size : Z;
  rd_cache_blocks : nat;
  rd_readahead_blocks : nat;
  rd_file_size : Z;
  rd_lru : list (Z * Block);
  rd_next_sequential : Z;
  rd_have_seq : bool;
  rd_cache_hits : Z;
  rd_cache_misses : Z;
  rd_disk_reads : Z;
}.

Definition reader_create (f : File) (block_size : Z) (cache_blocks readahead_blocks : nat) : expected BlockReader :=
  let bsize := if block_size =? 0 then kDirectAlignment else block_size in
  if negb (is_power_of_two bsize) then make_error InvalidArgument "block_size no es potencia de dos"
  else
    let? size := file_size f in
    Ok (MkBlockReader bsize cache_blocks readahead_blocks (Z.of_nat size) [] 0 false 0 0 0).

Definition rd_set_lru (lru : list (Z * Block)) (r : BlockReader) : BlockReader :=
  MkBlockReader (rd_block_size r) (rd_cache_blocks r) (rd_readahead_blocks r) (rd_file_size r) lru (rd_next_sequential r) (rd_have_seq r)
    (rd_cache_hits r) (rd_cache_misses r) (rd_disk_reads r).
Definition rd_set_file_size (size : Z) (r : BlockReader) : BlockReader :=
  MkBlockReader (rd_block_size r) (rd_cache_blocks r) (rd_readahead_blocks r) size (rd_lru r) (rd_next_sequential r) (rd_have_seq r)
    (rd_cache_hits r) (rd_cache_misses r) (rd_disk_reads r).
Definition rd_set_sequential (next : Z) (r : BlockReader) : BlockReader :=
  MkBlockReader (rd_block_size r) (rd_cache_blocks r) (rd_readahead_blocks r) (rd_file_size r) (rd_lru r) next true
    (rd_cache_hits r) (rd_cache_misses r) (rd_disk_reads r).
Definition rd_count (hits misses reads : Z) (r : BlockReader) : BlockReader :=
  MkBlockReader (rd_block_size r) (rd_cache_blocks r) (rd_readahead_blocks r) (rd_file_size r) (rd_lru r) (rd_next_sequential r) (rd_have_seq r)
    (to_u 64 (rd_cache_hits r + hits)) (to_u 64 (rd_cache_misses r + misses)) (to_u 64 (rd_disk_reads r + reads)).

Definition load_block (f : File) (index : Z) (r : BlockReader) : expected Block * BlockReader :=
  match read_at (Z.to_nat (rd_block_size r)) (Z.to_nat (to_u 64 (index * rd_block_size r))) f with
  | Err e => (Err e, r)
  | Ok data => (Ok data, rd_count 0 0 1 r)
  end.

(** [index_.find]. *)
Fixpoint lru_find (index : Z) (lru : list (Z * Block)) : option Block :=
  match lru with
  | [] => None
  | (i, b) :: lru => if i =? index then Some b else lru_find index lru
  end.
Definition lru_without (index : Z) (lru : list (Z * Block)) : list (Z * Block) :=
  List.filter (fun e => negb (e.1 =? index)) lru.

(** [insert]: the back of the list makes room. *)
Definition cache_insert (index : Z) (block : Block) (r : BlockReader) : BlockReader :=
  if (rd_cache_blocks r =? 0)%nat then r
  else
    let kept := if (rd_cache_blocks r <=? length (rd_lru r))%nat then removelast (rd_lru r) else rd_lru r in
    rd_set_lru ((index, block) :: kept) r.

Definition fetch_block (f : File) (index : Z) (r : BlockReader) : expected Block * BlockReader :=
  match lru_find index (rd_lru r) with
  | Some block => (Ok block, rd_count 1 0 0 (rd_set_lru ((index, block) :: lru_without index (rd_lru r)) r))
  | None =>
      match load_block f index (rd_count 0 1 0 r) with
      | (Err e, r) => (Err e, r)
      | (Ok block, r) =>
          if (rd_cache_blocks r =? 0)%nat then (make_error Unsupported "BlockReader sin caché no soporta fetch_block", r)
          else (Ok block, cache_insert index block r)
      end
  end.

(** The loop of [prefetch]; a load that fails ends it. *)
Fixpoint prefetch_loop (f : File) (last_block : Z) (count : nat) (index : Z) (r : BlockReader) : BlockReader :=
  match count with
  | O => r
  | S count =>
      if last_block <? index then r
      else
        match lru_find index (rd_lru r) with
        | Some _ => prefetch_loop f last_block count (index + 1) r
        | None =>
            match load_block f index r with
            | (Err _, r) => r
            | (Ok block, r) => prefetch_loop f last_block count (index + 1) (cache_insert index block r)
            end
        end
  end.

Definition prefetch (f : File) (first : Z) (count : nat) (r : BlockReader) : BlockReader :=
  if (rd_cache_blocks r =? 0)%nat || (count =? 0)%nat then r
  else
    let last_block := if rd_file_size r =? 0 then 0 else (rd_file_size r - 1) / rd_block_size r in
    prefetch_loop f last_block count first r.

(** The bytes of a block that are in the range asked for. *)
Definition block_part (offset stop index : Z) (block : Block) (r : BlockReader) : list byte :=
  let block_start := index * rd_block_size r in
  let copy_from := Z.max offset block_start in
  let copy_to := Z.min stop (block_start + Z.of_nat (length block)) in
  if copy_to <=? copy_from then []
  else subspan_n (Z.to_nat (copy_from - block_start)) (Z.to_nat (copy_to - copy_from)) block.

(** The loop over the [count] blocks from [index] on, which appends to what was copied. *)
Fixpoint copy_blocks (f : File) (offset stop : Z) (count : nat) (index : Z) (copied : list byte) (r : BlockReader) :
    expected (list byte) * BlockReader :=
  match count with
  | O => (Ok copied, r)
  | S count =>
      match (if (rd_cache_blocks r =? 0)%nat then load_block f index r else fetch_block f index r) with
      | (Err e, r) => (Err e, r)
      | (Ok block, r) => copy_blocks f offset stop count (index + 1) (copied ++ block_part offset stop index block r) r
      end
  end.

(** The size known, asked for again when the read goes up to it. *)
Definition known_size (f : File) (n : nat) (offset : Z) (r : BlockReader) : expected BlockReader :=
  if rd_file_size r <? to_u 64 (offset + Z.of_nat n) then
    let? size := file_size f in Ok (rd_set_file_size (Z.of_nat size) r)
  else Ok r.

Definition reader_read_at (f : File) (n : nat) (offset : Z) (r : BlockReader) : expected (list byte) * BlockReader :=
  if (n =? 0)%nat then (Ok [], r)
  else
    match known_size f n offset r with
    | Err e => (Err e, r)
    | Ok r =>
        if rd_file_size r <=? offset then (Ok [], r)
        else
          let stop := Z.min (to_u 64 (offset + Z.of_nat n)) (rd_file_size r) in
          let first_block := offset / rd_block_size r in
          let last_block := (stop - 1) / rd_block_size r in
          let r :=
            if rd_have_seq r && (first_block =? rd_next_sequential r) && (0 <? rd_readahead_blocks r)%nat
            then prefetch f (last_block + 1) (rd_readahead_blocks r) r else r in
          match copy_blocks f offset stop (Z.to_nat (last_block - first_block + 1)) first_block [] r with
          | (Err e, r) => (Err e, r)
          | (Ok copied, r) => (Ok copied, rd_set_sequential (last_block + 1) r)
          end
    end.

(** ** Slices *)

Definition slice (a b : Z) (bs : list byte) : list byte := subspan_n (Z.to_nat a) (Z.to_nat (b - a)) bs.

Lemma slice_empty a b bs : b <= a -> slice a b bs = [].
Proof. intros. unfold slice, subspan_n. by replace (Z.to_nat (b - a)) with O by lia. Qed.

Lemma slice_app a b c bs : 0 <= a <= b -> b <= c -> slice a b bs ++ slice b c bs = slice a c bs.
Proof.
  intros [Ha Hab] Hbc. unfold slice, subspan_n.
  replace (Z.to_nat (c - a)) with (Z.to_nat (b - a) + Z.to_nat (c - b))%nat by lia.
  replace (Z.to_nat b) with (Z.to_nat a + Z.to_nat (b - a))%nat by lia. rewrite <- drop_drop. by rewrite take_take_drop.
Qed.

Lemma length_slice a b bs : 0 <= a -> length (slice a b bs) = Nat.min (Z.to_nat (b - a)) (length bs - Z.to_nat a).
Proof. intros. unfold slice, subspan_n. by rewrite length_take, length_drop. Qed.

Lemma slice_slice a b c d bs : 0 <= a -> a <= c -> d <= b -> slice (c - a) (d - a) (slice a b bs) = slice c d bs.
Proof.
  intros. unfold slice, subspan_n. rewrite skipn_firstn_comm, take_take, drop_drop.
  replace (Z.to_nat a + Z.to_nat (c - a))%nat with (Z.to_nat c) by lia. f_equal. lia.
Qed.

Lemma slice_prefix a b bs more : 0 <= a -> b <= Z.of_nat (length bs) -> slice a b (bs ++ more) = slice a b bs.
Proof.
  intros. unfold slice, subspan_n. destruct (Z.le_gt_cases b a); [by replace (Z.to_nat (b - a)) with O by lia|].
  rewrite drop_app_le by lia. rewrite take_app_le; [done|]. rewrite length_drop. lia.
Qed.

(** What a read of a file that succeeds gives, whatever its transfers. *)
Lemma read_loop_sound plan n offset content bs :
  read_loop plan n offset content = Ok bs -> bs = subspan_n offset n content.
Proof.
  revert n offset bs. induction plan as [|o plan IH]; intros n offset bs; cbn [read_loop];
    (destruct (Nat.eqb_spec n 0) as [->|Hn]; [by intros [= <-]|]); [by intros [= <-]|].
  destruct o as [k| |msg]; [|apply IH|done]. cbv zeta.
  set (got := subspan_n offset (n `min` (1 `max` k)) content). destruct (Nat.eqb_spec (length got) 0) as [H0|H0].
  - intros [= <-]. unfold got, subspan_n in *. rewrite length_take, length_drop in H0. rewrite drop_ge by lia. by rewrite take_nil.
  - destruct (read_loop plan _ _ content) as [rest|e] eqn:Hrest; cbn; [|done]. intros [= <-].
    rewrite (IH _ _ _ Hrest). unfold got, subspan_n in *. set (m := (n `min` (1 `max` k))%nat) in *. set (d := drop offset content) in *.
    rewrite length_take, <- drop_drop. fold d. destruct (Nat.le_ge_cases m (length d)).
    + rewrite Nat.min_l by done. replace n with (m + (n - m))%nat at 2 by lia. by rewrite take_take_drop.
    + rewrite Nat.min_r by done. rewrite (drop_ge d) by lia. rewrite take_nil, app_nil_r, !take_ge by lia. done.
Qed.

(** ** What the cache holds *)

Section Coherent.
Context (content : list byte).
Hypothesis content_fits : Z.of_nat (length content) < 2 ^ 63.

Definition block_of (bsize index : Z) : Block := slice (index * bsize) ((index + 1) * bsize) content.

Record reader_ok (r : BlockReader) : Prop := {
  ro_block_size : 0 < rd_block_size r < 2 ^ 63;
  ro_file_size : 0 <= rd_file_size r <= Z.of_nat (length content);
  ro_fresh i b : (i, b) ∈ rd_lru r -> 0 <= i /\ i * rd_block_size r < Z.of_nat (length content) /\ b = block_of (rd_block_size r) i;
  ro_once : NoDup (rd_lru r).*1;
  ro_bound : (length (rd_lru r) <= rd_cache_blocks r)%nat;
}.

(** What a step leaves as it is. *)
Definition same_shape (r r' : BlockReader) : Prop :=
  rd_block_size r' = rd_block_size r /\ rd_cache_blocks r' = rd_cache_blocks r /\ rd_readahead_blocks r' = rd_readahead_blocks r /\
  rd_file_size r' = rd_file_size r.

Lemma lru_find_in index lru b : lru_find index lru = Some b -> (index, b) ∈ lru.
Proof.
  induction lru as [|[i c] lru IH]; cbn; [done|]. destruct (Z.eqb_spec i index) as [->|]; [intros [= ->]; left|intros; right; auto].
Qed.

Lemma lru_find_none index lru : lru_find index lru = None -> index ∉ lru.*1.
Proof.
  induction lru as [|[i c] lru IH]; cbn; [intros _; apply not_elem_of_nil|]. destruct (Z.eqb_spec i index); [done|].
  intros H. apply not_elem_of_cons. split; [congruence|auto].
Qed.

Lemma lru_without_sub index lru e : e ∈ lru_without index lru -> e ∈ lru /\ e.1 <> index.
Proof.
  unfold lru_without. rewrite !list_elem_of_In, List.filter_In. intros [? H]. split; [done|]. intros <-. by rewrite Z.eqb_refl in H.
Qed.

Lemma lru_without_once index lru : NoDup lru.*1 -> NoDup (lru_without index lru).*1.
Proof.
  induction lru as [|[i b] lru IH]; cbn; [done|]. intros [Hi Hrest]%NoDup_cons. destruct (Z.eqb_spec i index); cbn; [auto|].
  apply NoDup_cons. split; [|auto]. intros ([? ?] & -> & Hin)%list_elem_of_fmap. apply lru_without_sub in Hin as [Hin _].
  apply Hi. apply list_elem_of_fmap. by eexists.
Qed.

Lemma lru_without_length index lru b : lru_find index lru = Some b -> (S (length (lru_without index lru)) <= length lru)%nat.
Proof.
  unfold lru_without. induction lru as [|[i c] lru IH]; cbn; [done|]. destruct (Z.eqb_spec i index); cbn; [|intros H; specialize (IH H); lia].
  intros _. apply le_n_S. apply List.filter_length_le.
Qed.

Lemma removelast_sub {A} (l : list A) x : x ∈ removelast l -> x ∈ l.
Proof. induction l as [|y [|z l] IH]; [done|by intros ?%elem_of_nil|]. change (x ∈ y :: removelast (z :: l) -> x ∈ y :: z :: l). set_solver. Qed.

Lemma removelast_once {A B} (f : A -> B) (l : list A) : NoDup (f <$> l) -> NoDup (f <$> removelast l).
Proof.
  induction l as [|y [|z l] IH]; [done|intros _; constructor|]. intros [Hy Hl]%NoDup_cons.
  change (NoDup (f y :: (f <$> removelast (z :: l)))). apply NoDup_cons. split; [|auto].
  intros (e & He & Hin%removelast_sub)%list_elem_of_fmap. apply Hy. change (f y ∈ f <$> z :: l). apply list_elem_of_fmap. eauto.
Qed.

Lemma removelast_length {A} (l : list A) : length (removelast l) = pred (length l).
Proof. induction l as [|y [|z l] IH]; [done..|]. change (S (length (removelast (z :: l))) = S (length l)). rewrite IH. done. Qed.

Lemma load_block_ok f index r :
  f_content f = content -> reader_ok r -> 0 <= index -> index * rd_block_size r < Z.of_nat (length content) ->
  let '(res, r') := load_block f index r in
  (match res with Ok b => b = block_of (rd_block_size r) index | Err _ => ~ no_errors (f_reads f) end) /\
  rd_lru r' = rd_lru r /\ same_shape r r'.
Proof.
  intros Hf Hr Hi Hin. destruct Hr as [Hbs _ _ _ _]. unfold load_block. rewrite to_u_id by (split; nia).
  unfold read_at. rewrite Hf. destruct (read_loop _ _ _ _) as [b|e] eqn:Hread.
  - apply read_loop_sound in Hread. split; [|done]. rewrite Hread. unfold block_of, slice.
    by replace ((index + 1) * rd_block_size r - index * rd_block_size r) with (rd_block_size r) by lia.
  - split; [|done]. intros Hok. by rewrite read_loop_complete in Hread.
Qed.

Lemma same_shape_refl r : same_shape r r.
Proof. done. Qed.
Lemma same_shape_trans r1 r2 r3 : same_shape r1 r2 -> same_shape r2 r3 -> same_shape r1 r3.
Proof. unfold same_shape. intuition congruence. Qed.

Lemma reader_ok_lru r r' : reader_ok r -> rd_lru r' = rd_lru r -> same_shape r r' -> reader_ok r'.
Proof. intros [] Hl (Hbs & Hcb & _ & Hfs). split; by rewrite ?Hl, ?Hbs, ?Hcb, ?Hfs. Qed.

Lemma cache_insert_ok index b r :
  reader_ok r -> 0 <= index -> index * rd_block_size r < Z.of_nat (length content) -> b = block_of (rd_block_size r) index ->
  index ∉ (rd_lru r).*1 -> reader_ok (cache_insert index b r) /\ same_shape r (cache_insert index b r).
Proof.
  intros Hr Hi Hin Hb Hnew. unfold cache_insert. destruct (Nat.eqb_spec (rd_cache_blocks r) 0) as [|Hc]; [done|].
  cbv zeta. split; [|done]. destruct Hr as [Hbs Hfs Hfresh Honce Hbound].
  set (kept := if (_ <=? _)%nat then _ else _).
  assert (Hsub : forall e, e ∈ kept -> e ∈ rd_lru r) by (intros e; unfold kept; case_match; [apply removelast_sub|done]).
  split; cbn [rd_set_lru rd_block_size rd_file_size rd_lru rd_cache_blocks]; [done|done| | |].
  - intros i c [[= -> ->]|?%Hsub]%elem_of_cons; [done|by apply Hfresh].
  - apply NoDup_cons. split; [|unfold kept; case_match; [by apply removelast_once|done]].
    intros (e & He & Hin')%list_elem_of_fmap. apply Hnew, list_elem_of_fmap. eauto.
  - cbn [length]. unfold kept. destruct (Nat.leb_spec (rd_cache_blocks r) (length (rd_lru r))); rewrite ?removelast_length; lia.
Qed.

Lemma fetch_block_ok f index r :
  f_content f = content -> reader_ok r -> 0 <= index -> index * rd_block_size r < Z.of_nat (length content) ->
  rd_cache_blocks r <> O ->
  let '(res, r') := fetch_block f index r in
  (match res with Ok b => b = block_of (rd_block_size r) index | Err _ => ~ no_errors (f_reads f) end) /\ reader_ok r' /\ same_shape r r'.
Proof.
  intros Hf Hr Hi Hin Hc. unfold fetch_block. destruct (lru_find index (rd_lru r)) as [b|] eqn:Hfind.
  - pose proof (lru_find_in _ _ _ Hfind) as Hmem. split_and!; [by apply (ro_fresh r Hr)| |done].
    destruct Hr as [Hbs Hfs Hfresh Honce Hbound]. split; cbn; [done|done| | |].
    + intros i c [[= -> ->]|[Hw _]%lru_without_sub]%elem_of_cons; by apply Hfresh.
    + apply NoDup_cons. split; [|by apply lru_without_once].
      intros (e & He & Hw)%list_elem_of_fmap. apply lru_without_sub in Hw as [_ Hne]. by apply Hne.
    + pose proof (lru_without_length _ _ _ Hfind). lia.
  - assert (Hr1 : reader_ok (rd_count 0 1 0 r)) by (by apply (reader_ok_lru r)).
    pose proof (load_block_ok f index (rd_count 0 1 0 r) Hf Hr1 Hi Hin) as Hload.
    destruct (load_block f index (rd_count 0 1 0 r)) as [[b|e] r'] eqn:El; destruct Hload as (Hb & Hl & Hsh).
    + pose proof (reader_ok_lru _ _ Hr1 Hl Hsh) as Hr'. cbn in Hl. assert (Hsh' : same_shape r r') by exact Hsh.
      destruct Hsh as (Hbs & Hcb & _ & _). cbn in Hbs, Hcb. destruct (Nat.eqb_spec (rd_cache_blocks r') 0) as [H0|_]; [congruence|].
      destruct (cache_insert_ok index b r' Hr' Hi) as [Hins Hshi]; [by rewrite Hbs|by rewrite Hbs|rewrite Hl; by apply lru_find_none|].
      split_and!; [done|done|]. by eapply same_shape_trans.
    + split_and!; [done|by apply (reader_ok_lru (rd_count 0 1 0 r))|done].
Qed.

Lemma prefetch_loop_ok f last count index r :
  f_content f = content -> reader_ok r -> 0 <= index -> last * rd_block_size r < Z.of_nat (length content) ->
  reader_ok (prefetch_loop f last count index r) /\ same_shape r (prefetch_loop f last count index r).
Proof.
  intros Hf. revert index r. induction count as [|count IH]; intros index r Hr Hi Hlast; cbn [prefetch_loop]; [done|].
  destruct (Z.ltb_spec last index) as [|Hle]; [done|]. destruct (lru_find index (rd_lru r)) as [b|] eqn:Hfind; [apply IH; [done|lia|done]|].
  assert (Hin : index * rd_block_size r < Z.of_nat (length content)) by (destruct Hr as [? _ _ _ _]; nia).
  pose proof (load_block_ok f index r Hf Hr Hi Hin) as Hload.
  destruct (load_block f index r) as [[b|e] r'] eqn:El; destruct Hload as (Hb & Hl & Hsh);
    [|split; [by apply (reader_ok_lru r)|done]].
  pose proof (reader_ok_lru _ _ Hr Hl Hsh) as Hr'. pose proof Hsh as (Hbs & _ & _ & _).
  destruct (cache_insert_ok index b r' Hr' Hi) as [Hins Hshi]; [by rewrite Hbs|by rewrite Hbs|rewrite Hl; by apply lru_find_none|].
  destruct (IH (index + 1) (cache_insert index b r') Hins) as [Hok Hsh']; [lia|destruct Hshi as (-> & _ & _ & _); by rewrite Hbs|].
  split; [done|]. by repeat (eapply same_shape_trans; [eassumption|]).
Qed.

Lemma prefetch_ok f first count r :
  f_content f = content -> reader_ok r -> 0 <= first -> 0 < rd_file_size r ->
  reader_ok (prefetch f first count r) /\ same_shape r (prefetch f first count r).
Proof.
  intros Hf Hr Hi Hpos. unfold prefetch. destruct (_ || _); [done|]. destruct (Z.eqb_spec (rd_file_size r) 0); [lia|].
  apply prefetch_loop_ok; [done|done|done|]. destruct Hr as [Hbs Hfs _ _ _].
  pose proof (Z.mul_div_le (rd_file_size r - 1) (rd_block_size r) ltac:(lia)). lia.
Qed.

(** ** What a read copies *)

Definition clamp (offset stop x : Z) : Z := Z.max offset (Z.min stop x).

Lemma block_part_slice offset stop index r :
  0 < rd_block_size r -> 0 <= offset <= stop -> stop <= Z.of_nat (length content) -> 0 <= index ->
  block_part offset stop index (block_of (rd_block_size r) index) r
  = slice (clamp offset stop (index * rd_block_size r)) (clamp offset stop ((index + 1) * rd_block_size r)) content.
Proof.
  intros Hbs Ho Hstop Hi. unfold block_part, block_of. set (bs := rd_block_size r) in *. cbv zeta.
  assert (Hs : 0 <= index * bs) by nia. rewrite length_slice by done.
  replace ((index + 1) * bs) with (index * bs + bs) by lia. set (st := index * bs) in *.
  destruct (Z.leb_spec (Z.min stop (st + Z.of_nat (Nat.min (Z.to_nat (st + bs - st)) (length content - Z.to_nat st)))) (Z.max offset st)) as [Hle|Hgt].
  - rewrite slice_empty; [done|]. unfold clamp. lia.
  - unfold clamp. rewrite <- (slice_slice st (st + bs) (Z.max offset (Z.min stop st)) (Z.max offset (Z.min stop (st + bs)))) by lia.
    unfold slice at 2. f_equal; lia.
Qed.

Lemma copy_blocks_ok f offset stop count index r :
  f_content f = content -> reader_ok r -> 0 <= offset <= stop -> stop <= Z.of_nat (length content) -> 0 <= index ->
  (index + Z.of_nat count - 1) * rd_block_size r < Z.of_nat (length content) ->
  let '(res, r') := copy_blocks f offset stop count index (slice offset (clamp offset stop (index * rd_block_size r)) content) r in
  (match res with
   | Ok bs => bs = slice offset (clamp offset stop ((index + Z.of_nat count) * rd_block_size r)) content
   | Err _ => ~ no_errors (f_reads f)
   end) /\ reader_ok r' /\ same_shape r r'.
Proof.
  intros Hf Hr Ho Hstop. revert index r Hr. induction count as [|count IH]; intros index r Hr Hi Hlast; cbn [copy_blocks].
  { by rewrite Z.add_0_r. }
  assert (Hbs : 0 < rd_block_size r) by (destruct Hr; lia).
  assert (Hin : index * rd_block_size r < Z.of_nat (length content)) by nia.
  assert (Hgot : let '(res, r') := (if (rd_cache_blocks r =? 0)%nat then load_block f index r else fetch_block f index r) in
    (match res with Ok b => b = block_of (rd_block_size r) index | Err _ => ~ no_errors (f_reads f) end) /\ reader_ok r' /\ same_shape r r').
  { destruct (Nat.eqb_spec (rd_cache_blocks r) 0); [|by apply fetch_block_ok].
    pose proof (load_block_ok f index r Hf Hr Hi Hin) as H. destruct (load_block f index r) as [res r'].
    destruct H as (? & ? & ?). split_and!; [done|by apply (reader_ok_lru r)|done]. }
  destruct (if (rd_cache_blocks r =? 0)%nat then load_block f index r else fetch_block f index r) as [[b|e] r'];
    destruct Hgot as (Hb & Hr' & Hsh); [|done]. pose proof Hsh as (Ebs & _ & _ & _).
  subst b. replace (block_part offset stop index (block_of (rd_block_size r) index) r')
    with (block_part offset stop index (block_of (rd_block_size r) index) r) by (unfold block_part; by rewrite Ebs).
  rewrite block_part_slice by done. rewrite slice_app by (unfold clamp; nia).
  specialize (IH (index + 1) r' Hr'). rewrite Ebs in IH.
  replace (index + 1 + Z.of_nat count) with (index + Z.of_nat (S count)) in IH by lia.
  specialize (IH ltac:(lia) Hlast). destruct (copy_blocks _ _ _ _ _ _ _) as [res r2]. destruct IH as (? & ? & ?).
  split_and!; [done|done|]. by eapply same_shape_trans.
Qed.

(** A read gives what the file holds, or fails when a call of the system fails. *)
Lemma reader_read_ok f n offset r :
  f_content f = content -> reader_ok r -> 0 <= offset -> offset + Z.of_nat n < 2 ^ 64 ->
  let '(res, r') := reader_read_at f n offset r in
  (match res with Ok bs => bs = subspan_n (Z.to_nat offset) n content | Err _ => ~ no_errors (f_reads f) end) /\
  reader_ok r' /\ rd_block_size r' = rd_block_size r.
Proof.
  intros Hf Hr Ho Hn. unfold reader_read_at. destruct (Nat.eqb_spec n 0) as [->|Hn0]; [done|].
  assert (Hknown : match known_size f n offset r with
    | Ok r1 => reader_ok r1 /\ rd_block_size r1 = rd_block_size r /\
        Z.min (offset + Z.of_nat n) (rd_file_size r1) = Z.min (offset + Z.of_nat n) (Z.of_nat (length content))
    | Err _ => ~ no_errors (f_reads f) end).
  { unfold known_size. rewrite to_u_id by (split; lia). destruct (Z.ltb_spec (rd_file_size r) (offset + Z.of_nat n)) as [Hlt|Hge].
    - unfold file_size. rewrite Hf. destruct (f_reads f) as [|[| |msg] plan] eqn:Hplan; cbn.
      4: by intros [? _]%Forall_cons.
      all: split_and!; [destruct Hr; split; cbn; auto; lia|done|done].
    - split_and!; [done|done|]. pose proof (ro_file_size _ Hr). lia. }
  destruct (known_size f n offset r) as [r1|e]; [|done]. destruct Hknown as (Hr1 & Hbs1 & Hend). rewrite <- Hbs1.
  destruct (Z.leb_spec (rd_file_size r1) offset) as [Hpast|Hinside].
  { split_and!; [|done|done]. unfold subspan_n. rewrite drop_ge; [by rewrite take_nil|]. lia. }
  rewrite to_u_id by (split; lia). rewrite Hend. set (stop := Z.min (offset + Z.of_nat n) (Z.of_nat (length content))).
  assert (Hstop : offset < stop) by (pose proof (ro_file_size _ Hr1); lia).
  assert (Hbs : 0 < rd_block_size r1) by (destruct Hr1; lia). set (bs := rd_block_size r1) in *.
  pose proof (Z.div_pos offset bs ltac:(lia) Hbs) as Hfirst. pose proof (Z.mul_div_le offset bs Hbs) as Hlow.
  assert (Hlast : offset / bs <= (stop - 1) / bs) by (apply Z.div_le_mono; lia).
  pose proof (Z.mul_div_le (stop - 1) bs Hbs) as Hlastlow. pose proof (Z.mul_succ_div_gt (stop - 1) bs Hbs) as Hlasthigh.
  set (r2 := if _ && _ && _ then _ else _).
  assert (Hr2 : reader_ok r2 /\ same_shape r1 r2).
  { unfold r2. destruct (_ && _ && _); [|done]. apply prefetch_ok; [done|done|lia|lia]. }
  destruct Hr2 as [Hr2 Hsh]. clearbody r2. destruct Hsh as (Hbs2 & _ & _ & _).
  pose proof (copy_blocks_ok f offset stop (Z.to_nat ((stop - 1) / bs - offset / bs + 1)) (offset / bs) r2 Hf Hr2) as Hcopy.
  rewrite Hbs2 in Hcopy. fold bs in Hcopy.
  assert (Hcount : (offset / bs + Z.of_nat (Z.to_nat ((stop - 1) / bs - offset / bs + 1)) - 1) * bs < Z.of_nat (length content)).
  { replace (_ - 1) with ((stop - 1) / bs) by lia. lia. }
  specialize (Hcopy ltac:(lia) ltac:(lia) ltac:(lia) Hcount).
  rewrite (slice_empty offset) in Hcopy by (unfold clamp; lia).
  destruct (copy_blocks _ _ _ _ _ _ _) as [[copied|e] r3]; destruct Hcopy as (Hres & Hr3 & Hsh3 & _ & _ & _).
  - split_and!; [|by destruct Hr3|cbn; by rewrite Hsh3, Hbs2]. rewrite Hres. unfold slice, subspan_n.
    replace (clamp offset stop _) with stop by (unfold clamp; nia). unfold stop.
    destruct (Z.le_gt_cases (offset + Z.of_nat n) (Z.of_nat (length content))).
    + by replace (Z.to_nat (Z.min (offset + Z.of_nat n) (Z.of_nat (length content)) - offset)) with n by lia.
    + rewrite !take_ge; [done|rewrite length_drop; lia..].
  - split_and!; [done|done|by rewrite Hsh3, Hbs2].
Qed.
End Coherent.

(** ** Reads while the file grows *)

(** A read, with what its calls of the system meet, or bytes another has appended. *)
Inductive ReaderCall := CallRead (n : nat) (offset : Z) (reads : list SysOutcome) | CallGrow (more : list byte).

Fixpoint reader_calls (calls : list ReaderCall) (content : list byte) (r : BlockReader) : list (expected (list byte)) :=
  match calls with
  | [] => []
  | CallRead n offset reads :: calls =>
      let '(res, r) := reader_read_at (MkFile content [] reads) n offset r in res :: reader_calls calls content r
  | CallGrow more :: calls => reader_calls calls (content ++ more) r
  end.

(** What the file itself gives, and whether a call of the system fails. *)
Fixpoint plain_reads (calls : list ReaderCall) (content : list byte) : list (list byte * list SysOutcome) :=
  match calls with
  | [] => []
  | CallRead n offset reads :: calls => (subspan_n (Z.to_nat offset) n content, reads) :: plain_reads calls content
  | CallGrow more :: calls => plain_reads calls (content ++ more)
  end.

Definition answers (res : expected (list byte)) (plain : list byte * list SysOutcome) : Prop :=
  match res with Ok bs => bs = plain.1 | Err _ => ~ no_errors plain.2 end.

(** The ranges fit a file, which grows from the end of a block only. *)
Fixpoint reader_calls_ok (bsize : Z) (calls : list ReaderCall) (content : list byte) : Prop :=
  Z.of_nat (length content) < 2 ^ 63 /\
  match calls with
  | [] => True
  | CallRead n offset _ :: calls => (0 <= offset /\ offset + Z.of_nat n < 2 ^ 64) /\ reader_calls_ok bsize calls content
  | CallGrow more :: calls => Z.of_nat (length content) mod bsize = 0 /\ reader_calls_ok bsize calls (content ++ more)
  end.

Lemma reader_ok_grow content more r :
  reader_ok content r -> Z.of_nat (length content) mod rd_block_size r = 0 -> reader_ok (content ++ more) r.
Proof.
  intros [Hbs Hfs Hfresh Honce Hbound] Hmod. split; [done|rewrite length_app; lia| |done|done].
  intros i b Hin. destruct (Hfresh i b Hin) as (Hi & Hlt & ->). split_and!; [done|rewrite length_app; lia|].
  unfold block_of. rewrite slice_prefix; [done|nia|]. apply Z.mod_divide in Hmod as [q Hq]; [|lia]. rewrite Hq in *.
  assert (i < q) by nia. nia.
Qed.

Lemma reader_calls_answer calls content r :
  reader_ok content r -> reader_calls_ok (rd_block_size r) calls content ->
  Forall2 answers (reader_calls calls content r) (plain_reads calls content).
Proof.
  revert content r. induction calls as [|[n offset reads|more] calls IH]; intros content r Hr [Hfits Hcalls]; cbn [reader_calls plain_reads].
  - constructor.
  - destruct Hcalls as [[Ho Hn] Hrest].
    pose proof (reader_read_ok content Hfits (MkFile content [] reads) n offset r eq_refl Hr Ho Hn) as Hread.
    destruct (reader_read_at _ _ _ _) as [res r']. destruct Hread as (Hres & Hr' & Hbs). constructor; [done|].
    apply IH; [done|by rewrite Hbs].
  - destruct Hcalls as [Hmod Hrest]. apply IH; [by apply reader_ok_grow|done].
Qed.

Lemma power_of_two_pos value : is_power_of_two value = true -> 0 <= value -> 0 < value.
Proof. unfold is_power_of_two. destruct (Z.eqb_spec value 0); [done|]. lia. Qed.

Lemma reader_create_ok content reads block_size cache_blocks readahead r :
  0 <= block_size < 2 ^ 63 -> reader_create (MkFile content [] reads) block_size cache_blocks readahead = Ok r -> reader_ok content r.
Proof.
  intros Hbs. unfold reader_create. set (bs := if block_size =? 0 then _ else _).
  assert (Hrange : 0 <= bs < 2 ^ 63) by (unfold bs, kDirectAlignment; destruct (block_size =? 0); lia).
  destruct (is_power_of_two bs) eqn:Hpow; cbn [negb]; [|done]. apply power_of_two_pos in Hpow; [|lia].
  destruct (file_size _) as [size|e] eqn:Hsize; cbn; [|done]. intros [= <-].
  assert (size = length content) as -> by (unfold file_size in Hsize; cbn in Hsize; destruct reads as [|[| |] reads]; by inversion Hsize).
  split; cbn; [lia|lia|by intros i b ?%elem_of_nil|constructor|lia].
Qed.

(** C30. Reading by blocks is reading the file.  From a new reader, with any size of block, of cache and of
    read-ahead, every read of any range gives exactly the bytes of the file, or fails when a call of the
    system does, after any reads and failures and also while the file grows -- as long as it grows from
    the end of a block. *)
Theorem block_reader_exact (content : list byte) (reads : list SysOutcome) (block_size : Z) (cache_blocks readahead : nat) (r : BlockReader)
    (calls : list ReaderCall) (Hbs : 0 <= block_size < 2 ^ 63)
    (Hnew : reader_create (MkFile content [] reads) block_size cache_blocks readahead = Ok r)
    (Hcalls : reader_calls_ok (rd_block_size r) calls content) :
  Forall2 answers (reader_calls calls content r) (plain_reads calls content).
Proof. apply reader_calls_answer; [by eapply reader_create_ok|done]. Qed.

Definition read_script : list ReaderCall :=
  [CallRead 6 1 []; CallRead 3 5 [Interrupted; Transfer 1]; CallGrow [9; 10; 11; 12]; CallRead 4 8 [SysError "EIO"]; CallRead 7 3 []].
Definition read_file : list byte := [1; 2; 3; 4; 5; 6; 7; 8].

Lemma block_reader_exact_witness : exists r,
  reader_create (file_of read_file) 4 2 1 = Ok r /\ Forall2 answers (reader_calls read_script read_file r) (plain_reads read_script read_file).
Proof.
  eexists. split; [reflexivity|]. refine (block_reader_exact read_file [] 4 2 1 _ read_script _ eq_refl _); [lia|].
  vm_compute. repeat split; discriminate.
Defined.

(** A file that grows from the middle of a block: the block in the cache ends where the file ended, and the
    read goes on with the next one, so that the bytes it gives are not those of the range. *)
Theorem grown_file_misread : exists r,
  reader_create (file_of [1; 2; 3; 4; 5; 6]) 4 8 0 = Ok r /\
  reader_calls [CallRead 6 0 []; CallGrow [7; 8; 9; 10; 11; 12]; CallRead 8 4 []] [1; 2; 3; 4; 5; 6] r
    = [Ok [1; 2; 3; 4; 5; 6]; Ok [5; 6; 9; 10; 11; 12]] /\
  (plain_reads [CallRead 6 0 []; CallGrow [7; 8; 9; 10; 11; 12]; CallRead 8 4 []] [1; 2; 3; 4; 5; 6]).*1
    = [[1; 2; 3; 4; 5; 6]; [5; 6; 7; 8; 9; 10; 11; 12]].
Proof. eexists. split; [reflexivity|]. split; vm_compute; reflexivity. Qed.
