(* ===== verification/RaftState.v ===== *)
(** * Raft state and messages

    Models the data of [src/src/consensus/raft_state.hpp], [raft_state.cpp] and
    [raft_rpc.hpp]: roles, log entries, snapshots, the persistent and the volatile state of a
    replica, and the RPCs. *)
From stdpp Require Import base list gmap strings.
From Stdlib Require Import ZArith Lia.
From S2P Require Import Prelude.
#[local] Open Scope Z_scope.

Inductive RaftRole := Follower | PreCandidate | Candidate | Leader.

#[export] Instance RaftRole_eq_dec : EqDecision RaftRole.
Proof. solve_decision. Defined.

Definition raft_role_name (role : RaftRole) : string :=
  match role with
  | Follower => "follower"
  | PreCandidate => "pre_candidate"
  | Candidate => "candidate"
  | Leader => "leader"
  end.

Inductive RaftEntryType := Data | Config.

#[export] Instance RaftEntryType_eq_dec : EqDecision RaftEntryType.
Proof. solve_decision. Defined.

(** [RaftLogEntry]. *)
Record RaftLogEntry := MkEntry {
  e_term : Z;
  e_index : Z;
  e_type : RaftEntryType;
  e_payload : list byte;
}.

#[export] Instance RaftLogEntry_eq_dec : EqDecision RaftLogEntry.
Proof. solve_decision. Defined.

(** [Snapshot]. *)
Record Snapshot := MkSnapshot {
  last_included_index : Z;
  last_included_term : Z;
  last_included_offset : Z;
  snap_state : list byte;
}.

#[export] Instance Snapshot_eq_dec : EqDecision Snapshot.
Proof. solve_decision. Defined.

(** ** Persistent state *)

Record RaftPersistentState := MkPersistent {
  p_current_term : Z;
  p_voted_for : option Z;
}.

#[export] Instance RaftPersistentState_eq_dec : EqDecision RaftPersistentState.
Proof. solve_decision. Defined.

Definition persistent_initial : RaftPersistentState := MkPersistent 0 None.

Definition p_advance_term (new_term : Z) (_ : RaftPersistentState) : RaftPersistentState :=
  MkPersistent new_term None.

Definition p_record_vote (candidate : Z) (s : RaftPersistentState) : RaftPersistentState :=
  MkPersistent (p_current_term s) (Some candidate).

Definition p_restore (term : Z) (voted_for : option Z) : RaftPersistentState :=
  MkPersistent term voted_for.

(** ** Volatile state *)

Record RaftVolatileState := MkVolatile {
  v_commit_index : Z;
  v_last_applied : Z;
  v_next_index : gmap Z Z;
  v_match_index : gmap Z Z;
}.

Definition volatile_initial : RaftVolatileState := MkVolatile 0 0 ∅ ∅.

Definition set_commit_index (value : Z) (v : RaftVolatileState) : RaftVolatileState :=
  MkVolatile value (v_last_applied v) (v_next_index v) (v_match_index v).

Definition set_last_applied (value : Z) (v : RaftVolatileState) : RaftVolatileState :=
  MkVolatile (v_commit_index v) value (v_next_index v) (v_match_index v).

(** The loop over the peers; both maps are cleared first. *)
Definition reset_leader_progress (peers : list Z) (last_log_index : Z) (v : RaftVolatileState)
  : RaftVolatileState :=
  MkVolatile (v_commit_index v) (v_last_applied v)
    (foldl (fun m peer => <[peer := last_log_index + 1]> m) ∅ peers)
    (foldl (fun m peer => <[peer := 0]> m) ∅ peers).

Definition clear_leader_progress (v : RaftVolatileState) : RaftVolatileState :=
  MkVolatile (v_commit_index v) (v_last_applied v) ∅ ∅.

Definition next_index (v : RaftVolatileState) (peer : Z) : Z := default 0 (v_next_index v !! peer).
Definition match_index (v : RaftVolatileState) (peer : Z) : Z := default 0 (v_match_index v !! peer).

Definition set_next_index (peer value : Z) (v : RaftVolatileState) : RaftVolatileState :=
  MkVolatile (v_commit_index v) (v_last_applied v) (<[peer := value]> (v_next_index v)) (v_match_index v).

Definition set_match_index (peer value : Z) (v : RaftVolatileState) : RaftVolatileState :=
  MkVolatile (v_commit_index v) (v_last_applied v) (v_next_index v) (<[peer := value]> (v_match_index v)).

(** ** RPCs *)

Record RequestVoteArgs := MkRequestVote {
  rv_term : Z;
  rv_candidate_id : Z;
  rv_last_log_index : Z;
  rv_last_log_term : Z;
  rv_pre_vote : bool;
}.

Record RequestVoteReply := MkRequestVoteReply {
  rvr_term : Z;
  rvr_vote_granted : bool;
}.

Record AppendEntriesArgs := MkAppendEntries {
  ae_term : Z;
  ae_leader_id : Z;
  ae_prev_log_index : Z;
  ae_prev_log_term : Z;
  ae_entries : list RaftLogEntry;
  ae_leader_commit : Z;
  ae_leader_epoch : Z;
}.

Record AppendEntriesReply := MkAppendEntriesReply {
  aer_term : Z;
  aer_success : bool;
  aer_conflict_index : Z;
}.

Record TimeoutNowArgs := MkTimeoutNow {
  tn_term : Z;
  tn_leader_id : Z;
}.

Record InstallSnapshotArgs := MkInstallSnapshot {
  is_term : Z;
  is_leader_id : Z;
  is_snapshot : Snapshot;
}.

Record InstallSnapshotReply := MkInstallSnapshotReply { isr_term : Z }.

(** The [std::variant] of [RaftMessage], in its order. *)
Inductive RaftPayload :=
  | PRequestVoteArgs (a : RequestVoteArgs)
  | PRequestVoteReply (r : RequestVoteReply)
  | PAppendEntriesArgs (a : AppendEntriesArgs)
  | PAppendEntriesReply (r : AppendEntriesReply)
  | PTimeoutNowArgs (a : TimeoutNowArgs)
  | PInstallSnapshotArgs (a : InstallSnapshotArgs)
  | PInstallSnapshotReply (r : InstallSnapshotReply).

Record RaftMessage := MkMessage { m_from : Z; m_to : Z; m_payload : RaftPayload }.

(** ** Lookups of the leader's progress *)

Lemma match_index_set_eq peer x v : match_index (set_match_index peer x v) peer = x.
Proof. unfold match_index. cbn. now rewrite lookup_insert_eq. Qed.

Lemma match_index_set_ne peer peer' x v :
  peer <> peer' -> match_index (set_match_index peer x v) peer' = match_index v peer'.
Proof. intros. unfold match_index. cbn. now rewrite lookup_insert_ne. Qed.

Lemma next_index_set_eq peer x v : next_index (set_next_index peer x v) peer = x.
Proof. unfold next_index. cbn. now rewrite lookup_insert_eq. Qed.

Lemma foldl_insert_const (peers : list Z) (x : Z) (m : gmap Z Z) peer :
  foldl (fun m p => <[p := x]> m) m peers !! peer
  = (if decide (peer ∈ peers) then Some x else m !! peer).
Proof.
  revert m. induction peers as [|p peers IH]; intros m; cbn.
  - destruct (decide (peer ∈ [])); [set_solver|done].
  - rewrite IH. rewrite lookup_insert.
    destruct (decide (p = peer)), (decide (peer ∈ peers)), (decide (peer ∈ p :: peers)); set_solver.
Qed.

Lemma match_index_reset peers last v peer : match_index (reset_leader_progress peers last v) peer = 0.
Proof.
  unfold match_index, reset_leader_progress. cbn. rewrite foldl_insert_const.
  destruct (decide (peer ∈ peers)); [done|]. now rewrite lookup_empty.
Qed.

Lemma next_index_reset peers last v peer :
  peer ∈ peers -> next_index (reset_leader_progress peers last v) peer = last + 1.
Proof.
  intros H. unfold next_index, reset_leader_progress. cbn. rewrite foldl_insert_const.
  now rewrite decide_True.
Qed.
