(* ===== verification/RaftRpc.v ===== *)
(** * Raft RPCs on the wire

    Models [src/src/consensus/raft_rpc.cpp] and [raft_wire.cpp]: the [encode]/[decode] pair of
    every RPC, as instances of [WireType], and the inter-node envelope. *)
From Stdlib Require Import ZArith Lia String.
From stdpp Require Import base list gmap strings.
From S2P Require Import Prelude Bytes Codec RaftState.
#[local] Open Scope Z_scope.

Definition bool_u8 (b : bool) : Z := if b then 1 else 0.
Definition u8_bool (v : Z) : bool := negb (v =? 0).

(** [static_cast] of [RaftEntryType] to its [uint8_t]. *)
Definition entry_type_u8 (t : RaftEntryType) : Z := match t with Data => 0 | Config => 1 end.
Definition u8_entry_type (v : Z) : RaftEntryType := if v =? 0 then Data else Config.

Definition encode_entry (entry : RaftLogEntry) (enc : Encoder) : Encoder :=
  enc |> put_i64 (e_term entry)
      |> put_i64 (e_index entry)
      |> put_u8 (entry_type_u8 (e_type entry))
      |> put_bytes (e_payload entry).

Definition decode_entry : Reader RaftLogEntry :=
  let! term := get_i64 in
  let! index := get_i64 in
  let! type := get_u8 in
  if entry_type_u8 Config <? type then fail InvalidArgument "tipo de entrada de Raft inválido"
  else
    let! payload := get_bytes in
    ret (MkEntry term index (u8_entry_type type) payload).

Definition encode_snapshot (s : Snapshot) (enc : Encoder) : Encoder :=
  enc |> put_i64 (last_included_index s)
      |> put_i64 (last_included_term s)
      |> put_i64 (last_included_offset s)
      |> put_bytes (snap_state s).

Definition decode_snapshot : Reader Snapshot :=
  let! last_included_index := get_i64 in
  let! last_included_term := get_i64 in
  let! last_included_offset := get_i64 in
  let! state := get_bytes in
  ret (MkSnapshot last_included_index last_included_term last_included_offset state).

Definition RequestVoteArgs_encode (a : RequestVoteArgs) (enc : Encoder) : Encoder :=
  enc |> put_i64 (rv_term a)
      |> put_i32 (rv_candidate_id a)
      |> put_i64 (rv_last_log_index a)
      |> put_i64 (rv_last_log_term a)
      |> put_u8 (bool_u8 (rv_pre_vote a)).

Definition RequestVoteArgs_decode : Reader RequestVoteArgs :=
  let! term := get_i64 in
  let! candidate_id := get_i32 in
  let! last_log_index := get_i64 in
  let! last_log_term := get_i64 in
  let! pre_vote := get_u8 in
  ret (MkRequestVote term candidate_id last_log_index last_log_term (u8_bool pre_vote)).

Definition RequestVoteReply_encode (r : RequestVoteReply) (enc : Encoder) : Encoder :=
  enc |> put_i64 (rvr_term r) |> put_u8 (bool_u8 (rvr_vote_granted r)).

Definition RequestVoteReply_decode : Reader RequestVoteReply :=
  let! term := get_i64 in
  let! vote_granted := get_u8 in
  ret (MkRequestVoteReply term (u8_bool vote_granted)).

Definition AppendEntriesArgs_encode (a : AppendEntriesArgs) (enc : Encoder) : Encoder :=
  let enc := enc |> put_i64 (ae_term a)
                 |> put_i32 (ae_leader_id a)
                 |> put_i64 (ae_prev_log_index a)
                 |> put_i64 (ae_prev_log_term a)
                 |> enc_put_varint (Z.of_nat (length (ae_entries a))) in
  let enc := foldl (fun enc entry => encode_entry entry enc) enc (ae_entries a) in
  enc |> put_i64 (ae_leader_commit a) |> put_i32 (ae_leader_epoch a).

Definition AppendEntriesArgs_decode : Reader AppendEntriesArgs :=
  let! term := get_i64 in
  let! leader_id := get_i32 in
  let! prev_log_index := get_i64 in
  let! prev_log_term := get_i64 in
  let! count := get_count in
  let! entries := get_many decode_entry count in
  let! leader_commit := get_i64 in
  let! leader_epoch := get_i32 in
  ret (MkAppendEntries term leader_id prev_log_index prev_log_term entries leader_commit leader_epoch).

Definition AppendEntriesReply_encode (r : AppendEntriesReply) (enc : Encoder) : Encoder :=
  enc |> put_i64 (aer_term r)
      |> put_u8 (bool_u8 (aer_success r))
      |> put_i64 (aer_conflict_index r).

Definition AppendEntriesReply_decode : Reader AppendEntriesReply :=
  let! term := get_i64 in
  let! success := get_u8 in
  let! conflict_index := get_i64 in
  ret (MkAppendEntriesReply term (u8_bool success) conflict_index).

Definition TimeoutNowArgs_encode (a : TimeoutNowArgs) (enc : Encoder) : Encoder :=
  enc |> put_i64 (tn_term a) |> put_i32 (tn_leader_id a).

Definition TimeoutNowArgs_decode : Reader TimeoutNowArgs :=
  let! term := get_i64 in
  let! leader_id := get_i32 in
  ret (MkTimeoutNow term leader_id).

Definition InstallSnapshotArgs_encode (a : InstallSnapshotArgs) (enc : Encoder) : Encoder :=
  enc |> put_i64 (is_term a) |> put_i32 (is_leader_id a) |> encode_snapshot (is_snapshot a).

Definition InstallSnapshotArgs_decode : Reader InstallSnapshotArgs :=
  let! term := get_i64 in
  let! leader_id := get_i32 in
  let! snapshot := decode_snapshot in
  ret (MkInstallSnapshot term leader_id snapshot).

Definition InstallSnapshotReply_encode (r : InstallSnapshotReply) (enc : Encoder) : Encoder :=
  enc |> put_i64 (isr_term r).

Definition InstallSnapshotReply_decode : Reader InstallSnapshotReply :=
  let! term := get_i64 in
  ret (MkInstallSnapshotReply term).

(** ** The envelope ([raft_wire.cpp]) *)

Record RaftEnvelope := MkEnvelope {
  env_topic : string;
  env_partition : Z;
  env_message : RaftMessage;
}.

(** [payload.index()]: the position in the variant, [RaftMessageType] on the wire. *)
Definition payload_index (p : RaftPayload) : Z :=
  match p with
  | PRequestVoteArgs _ => 0
  | PRequestVoteReply _ => 1
  | PAppendEntriesArgs _ => 2
  | PAppendEntriesReply _ => 3
  | PTimeoutNowArgs _ => 4
  | PInstallSnapshotArgs _ => 5
  | PInstallSnapshotReply _ => 6
  end.

(** The [std::visit] of [RaftEnvelope::encode]. *)
Definition payload_encode (p : RaftPayload) (enc : Encoder) : Encoder :=
  match p with
  | PRequestVoteArgs a => RequestVoteArgs_encode a enc
  | PRequestVoteReply r => RequestVoteReply_encode r enc
  | PAppendEntriesArgs a => AppendEntriesArgs_encode a enc
  | PAppendEntriesReply r => AppendEntriesReply_encode r enc
  | PTimeoutNowArgs a => TimeoutNowArgs_encode a enc
  | PInstallSnapshotArgs a => InstallSnapshotArgs_encode a enc
  | PInstallSnapshotReply r => InstallSnapshotReply_encode r enc
  end.

(** [decode_payload<T>]. *)
Definition decode_payload {T} (decode : Reader T) (inject : T -> RaftPayload) : Reader RaftPayload :=
  let! rpc := decode in ret (inject rpc).

(** The [switch] of [RaftEnvelope::decode]. *)
Definition payload_decode (type : Z) : Reader RaftPayload :=
  match type with
  | 0 => decode_payload RequestVoteArgs_decode PRequestVoteArgs
  | 1 => decode_payload RequestVoteReply_decode PRequestVoteReply
  | 2 => decode_payload AppendEntriesArgs_decode PAppendEntriesArgs
  | 3 => decode_payload AppendEntriesReply_decode PAppendEntriesReply
  | 4 => decode_payload TimeoutNowArgs_decode PTimeoutNowArgs
  | 5 => decode_payload InstallSnapshotArgs_decode PInstallSnapshotArgs
  | 6 => decode_payload InstallSnapshotReply_decode PInstallSnapshotReply
  | _ => fail InvalidArgument "tipo de RPC de Raft desconocido"
  end.

Definition RaftEnvelope_encode (e : RaftEnvelope) (enc : Encoder) : Encoder :=
  enc |> put_string (env_topic e)
      |> put_i32 (env_partition e)
      |> put_i32 (m_from (env_message e))
      |> put_i32 (m_to (env_message e))
      |> put_u8 (payload_index (m_payload (env_message e)))
      |> payload_encode (m_payload (env_message e)).

Definition RaftEnvelope_decode : Reader RaftEnvelope :=
  let! topic := get_string in
  let! partition := get_i32 in
  let! from := get_i32 in
  let! to := get_i32 in
  let! type := get_u8 in
  let! payload := payload_decode type in
  ret (MkEnvelope topic partition (MkMessage from to payload)).

(** ** Well-formed messages: every field in its C++ range *)

Definition entry_ok (e : RaftLogEntry) : Prop :=
  i_range 64 (e_term e) /\ i_range 64 (e_index e) /\ fits_size (e_payload e).

Definition snapshot_ok (s : Snapshot) : Prop :=
  i_range 64 (last_included_index s) /\ i_range 64 (last_included_term s) /\
  i_range 64 (last_included_offset s) /\ fits_size (snap_state s).

Definition payload_ok (p : RaftPayload) : Prop :=
  match p with
  | PRequestVoteArgs a => i_range 64 (rv_term a) /\ i_range 32 (rv_candidate_id a) /\
      i_range 64 (rv_last_log_index a) /\ i_range 64 (rv_last_log_term a)
  | PRequestVoteReply r => i_range 64 (rvr_term r)
  | PAppendEntriesArgs a => i_range 64 (ae_term a) /\ i_range 32 (ae_leader_id a) /\
      i_range 64 (ae_prev_log_index a) /\ i_range 64 (ae_prev_log_term a) /\
      Forall entry_ok (ae_entries a) /\ u_range 64 (Z.of_nat (length (ae_entries a))) /\
      i_range 64 (ae_leader_commit a) /\ i_range 32 (ae_leader_epoch a)
  | PAppendEntriesReply r => i_range 64 (aer_term r) /\ i_range 64 (aer_conflict_index r)
  | PTimeoutNowArgs a => i_range 64 (tn_term a) /\ i_range 32 (tn_leader_id a)
  | PInstallSnapshotArgs a => i_range 64 (is_term a) /\ i_range 32 (is_leader_id a) /\
      snapshot_ok (is_snapshot a)
  | PInstallSnapshotReply r => i_range 64 (isr_term r)
  end.

Definition envelope_ok (e : RaftEnvelope) : Prop :=
  u_range 64 (Z.of_nat (String.length (env_topic e))) /\ i_range 32 (env_partition e) /\
  i_range 32 (m_from (env_message e)) /\ i_range 32 (m_to (env_message e)) /\
  payload_ok (m_payload (env_message e)).

(** ** Round trips of the parts *)

Lemma u8_bool_u8 b : u8_bool (bool_u8 b) = b.
Proof. now destruct b. Qed.

Lemma reads_bool b : reads (let! v := get_u8 in ret (u8_bool v)) [bool_u8 b] b.
Proof. rewrite <- (u8_bool_u8 b) at 2. apply reads_bind_last, reads_u8. Qed.

Lemma encode_entry_app e enc : encode_entry e enc = enc ++ encode_entry e [].
Proof. unfold encode_entry. solve_encode_app. Qed.

Lemma length_encode_entry e : (1 <= length (encode_entry e []))%nat.
Proof.
  unfold encode_entry. wire_flatten. autorewrite with nexus_bytes. lia.
Qed.

Lemma reads_entry e : entry_ok e -> reads decode_entry (encode_entry e []) e.
Proof.
  intros (Ht & Hi & Hp). unfold encode_entry, decode_entry. wire_flatten.
  eapply reads_bind; [by apply reads_i64|]. eapply reads_bind; [by apply reads_i64|].
  eapply reads_bind; [apply reads_u8|].
  destruct e as [term index [] payload]; cbn in *; apply (reads_bind_last get_bytes); by apply reads_bytes.
Qed.

Lemma encode_entries_app es enc :
  foldl (fun enc entry => encode_entry entry enc) enc es
  = enc ++ concat ((fun e => encode_entry e []) <$> es).
Proof. apply foldl_put_app. apply encode_entry_app. Qed.

Lemma reads_entries es :
  Forall entry_ok es ->
  reads (get_many decode_entry (length es)) (concat ((fun e => encode_entry e []) <$> es)) es.
Proof. intros H. apply reads_many. eapply Forall_impl; [done|]. apply reads_entry. Qed.

Lemma encode_snapshot_app s enc : encode_snapshot s enc = enc ++ encode_snapshot s [].
Proof. unfold encode_snapshot. solve_encode_app. Qed.

Lemma reads_snapshot s : snapshot_ok s -> reads decode_snapshot (encode_snapshot s []) s.
Proof.
  intros (Hi & Ht & Ho & Hs). unfold encode_snapshot, decode_snapshot. wire_flatten.
  destruct s as [i t o st]; cbn in *.
  do 3 (eapply reads_bind; [by apply reads_i64|]). apply (reads_bind_last get_bytes). by apply reads_bytes.
Qed.

Lemma payload_encode_app p enc : payload_encode p enc = enc ++ payload_encode p [].
Proof.
  destruct p; cbn [payload_encode];
    unfold RequestVoteArgs_encode, RequestVoteReply_encode, AppendEntriesArgs_encode,
      AppendEntriesReply_encode, TimeoutNowArgs_encode, InstallSnapshotArgs_encode,
      InstallSnapshotReply_encode; cbv zeta;
    [ | | rewrite (encode_entries_app (ae_entries a)), (encode_entries_app (ae_entries a) (enc_put_varint _ _))
      | | | rewrite (encode_snapshot_app _ (put_i32 _ _)), (encode_snapshot_app _ (put_i32 _ (put_i64 _ []))) | ];
    wire_flatten.
Qed.

(** One read of a fixed field at the head of a record. *)
Ltac read_field :=
  eapply reads_bind;
  [first [by apply reads_i64 | by apply reads_i32 | by apply reads_u8 | by apply reads_string]|].

Lemma reads_append_entries a :
  payload_ok (PAppendEntriesArgs a) ->
  reads AppendEntriesArgs_decode (AppendEntriesArgs_encode a []) a.
Proof.
  cbn. intros (Ht & Hl & Hpi & Hpt & Hes & Hn & Hc & He).
  unfold AppendEntriesArgs_encode, AppendEntriesArgs_decode. cbv zeta.
  rewrite encode_entries_app. wire_flatten. do 4 read_field. apply reads_count; [done| |].
  - rewrite length_app. pose proof (length_concat_ge _ (ae_entries a) length_encode_entry). lia.
  - eapply reads_bind; [by apply reads_entries|]. read_field.
    destruct a; cbn in *. apply (reads_bind_last get_i32). by apply reads_i32.
Qed.

Lemma reads_payload p :
  payload_ok p -> reads (payload_decode (payload_index p)) (payload_encode p []) p.
Proof.
  destruct p as [a|r|a|r|a|a|r]; intros Hp; cbn [payload_index payload_decode payload_encode];
    apply reads_bind_last.
  - destruct Hp as (? & ? & ? & ?). unfold RequestVoteArgs_encode, RequestVoteArgs_decode. wire_flatten.
    do 4 read_field. eapply (reads_bind_last_eq get_u8); [apply reads_u8|].
    destruct a; cbn. by rewrite u8_bool_u8.
  - unfold RequestVoteReply_encode, RequestVoteReply_decode. wire_flatten. read_field.
    eapply (reads_bind_last_eq get_u8); [apply reads_u8|]. destruct r; cbn. by rewrite u8_bool_u8.
  - by apply reads_append_entries.
  - destruct Hp. unfold AppendEntriesReply_encode, AppendEntriesReply_decode. wire_flatten.
    do 2 read_field. destruct r as [? b ?]; cbn in *. rewrite u8_bool_u8.
    apply (reads_bind_last get_i64). by apply reads_i64.
  - destruct Hp. unfold TimeoutNowArgs_encode, TimeoutNowArgs_decode. wire_flatten. read_field.
    destruct a; cbn in *. apply (reads_bind_last get_i32). by apply reads_i32.
  - destruct Hp as (? & ? & ?). unfold InstallSnapshotArgs_encode, InstallSnapshotArgs_decode.
    rewrite encode_snapshot_app. wire_flatten. do 2 read_field.
    destruct a; cbn in *. apply (reads_bind_last decode_snapshot). by apply reads_snapshot.
  - unfold InstallSnapshotReply_encode, InstallSnapshotReply_decode. wire_flatten.
    destruct r; cbn in *. apply (reads_bind_last get_i64). by apply reads_i64.
Qed.

Lemma RaftEnvelope_encode_app e enc : RaftEnvelope_encode e enc = enc ++ RaftEnvelope_encode e [].
Proof.
  unfold RaftEnvelope_encode.
  rewrite (payload_encode_app _ (put_u8 _ (put_i32 _ (put_i32 _ (put_i32 _ (put_string _ enc)))))).
  rewrite (payload_encode_app _ (put_u8 _ (put_i32 _ (put_i32 _ (put_i32 _ (put_string _ [])))))).
  wire_flatten.
Qed.

Lemma reads_envelope e : envelope_ok e -> reads RaftEnvelope_decode (RaftEnvelope_encode e []) e.
Proof.
  intros (Hs & Hpart & Hf & Ht & Hp). unfold RaftEnvelope_encode, RaftEnvelope_decode.
  rewrite payload_encode_app. wire_flatten. rewrite app_assoc. read_field. do 4 read_field.
  eapply (reads_bind_last_eq (payload_decode _)); [by apply reads_payload|].
  by destruct e as [topic part [from to payload]].
Qed.

#[export] Instance RaftEnvelope_wire : WireType RaftEnvelope := {|
  wire_encode := RaftEnvelope_encode;
  wire_decode := RaftEnvelope_decode;
  wire_ok := envelope_ok;
|}.

#[export] Instance RaftEnvelope_laws : WireTypeLaws RaftEnvelope.
Proof. split; [apply RaftEnvelope_encode_app|apply reads_envelope]. Qed.

(** Every well-formed inter-node envelope, whatever RPC it carries, decodes from its encoding
    to itself, consuming exactly the bytes it produced ([decode(encode(x)) == x]). *)
Theorem raft_envelope_roundtrip (e : RaftEnvelope) :
  envelope_ok e ->
  RaftEnvelope_decode (MkDecoder (RaftEnvelope_encode e []) 0)
  = (Ok e, MkDecoder (RaftEnvelope_encode e []) (length (RaftEnvelope_encode e []))).
Proof. intros He. exact (wire_roundtrip e He). Qed.

Definition sample_envelope : RaftEnvelope :=
  MkEnvelope "orders" 3 (MkMessage 1 2 (PAppendEntriesArgs
    (MkAppendEntries 7 1 4 6 [MkEntry 7 5 Data [1; 2; 255]; MkEntry 7 6 Config []] 4 2))).

Lemma sample_envelope_ok : envelope_ok sample_envelope.
Proof.
  unfold envelope_ok, payload_ok, entry_ok, fits_size. cbn [sample_envelope env_topic env_partition
    env_message m_from m_to m_payload ae_term ae_leader_id ae_prev_log_index ae_prev_log_term
    ae_entries ae_leader_commit ae_leader_epoch].
  by_ranges.
Qed.

Lemma raft_envelope_roundtrip_witness :
  RaftEnvelope_decode (MkDecoder (RaftEnvelope_encode sample_envelope []) 0)
  = (Ok sample_envelope, MkDecoder (RaftEnvelope_encode sample_envelope [])
       (length (RaftEnvelope_encode sample_envelope []))).
Proof. apply (raft_envelope_roundtrip sample_envelope sample_envelope_ok). Defined.
