(* ===== verification/RaftStateStore.v ===== *)
(** * The durable Raft state

    Models [RaftStateStore] of [src/src/consensus/raft_state_store.cpp]: term and vote as one
    fixed record [crc | term | has_vote | voted_for] at the start of a file. *)
From stdpp Require Import base list gmap strings.
From Stdlib Require Import ZArith Lia.
From S2P Require Import Prelude Bytes Crc32c Record File RaftState.
#[local] Open Scope Z_scope.

Definition kStateRecordSize : nat := 17.
Definition kTermOffset : nat := 4.
Definition kHasVoteOffset : nat := 12.
Definition kVotedForOffset : nat := 13.

(** The record [save] builds. *)
Definition state_record (state : RaftPersistentState) : list byte :=
  let r0 : list byte := replicate kStateRecordSize 0 in
  let r1 := splice kTermOffset (store_le 8 (p_current_term state)) r0 in
  let r2 := splice kHasVoteOffset [match p_voted_for state with Some _ => 1 | None => 0 end] r1 in
  let r3 := splice kVotedForOffset (store_le 4 (default 0 (p_voted_for state))) r2 in
  let crc := crc32c (subspan_n kTermOffset (kStateRecordSize - kTermOffset) r3) 0 in
  splice 0 (store_le 4 crc) r3.

Definition store_save (state : RaftPersistentState) (file : File) : expected unit * File :=
  match write_at (state_record state) 0 file with
  | (Err e, file') => (Err e, file')
  | (Ok _, file') => file_sync file'
  end.

Definition store_load (file : File) : expected RaftPersistentState :=
  let? size := file_size file in
  if (size =? 0)%nat then Ok persistent_initial
  else if (size <? kStateRecordSize)%nat then make_error Corrupt "raft-state: registro truncado"
  else
    let? record := read_at kStateRecordSize 0 file in
    if (length record <? kStateRecordSize)%nat then make_error Corrupt "raft-state: lectura corta"
    else
      let stored_crc := load_le_u 4 (subspan_n 0 4 record) in
      let computed_crc := crc32c (subspan_n kTermOffset (kStateRecordSize - kTermOffset) record) 0 in
      if negb (stored_crc =? computed_crc) then make_error Corrupt "raft-state: CRC32C no casa"
      else
        let term := load_le_i 8 (subspan_n kTermOffset 8 record) in
        let has_vote := negb (nth kHasVoteOffset record 0 =? 0) in
        let raw := load_le_i 4 (subspan_n kVotedForOffset 4 record) in
        Ok (p_restore term (if has_vote then Some raw else None)).

(** ** Round trip *)

Definition state_ok (s : RaftPersistentState) : Prop :=
  i_range 64 (p_current_term s) /\ i_range 32 (default 0 (p_voted_for s)).

Definition state_payload (s : RaftPersistentState) : list byte :=
  store_le 8 (p_current_term s) ++ [match p_voted_for s with Some _ => 1 | None => 0 end] ++
  store_le 4 (default 0 (p_voted_for s)).

Lemma state_record_layout s :
  state_record s = store_le 4 (crc32c (state_payload s) 0) ++ state_payload s.
Proof.
  unfold state_record, state_payload.
  set (t := store_le 8 _). set (v := store_le 4 (default _ _)). set (h := match p_voted_for s with Some _ => 1 | None => 0 end).
  assert (Ht : length t = 8%nat) by apply length_store_le.
  assert (Hv : length v = 4%nat) by apply length_store_le.
  clearbody t v h. cbv zeta. explode.
  match goal with |- splice 0 (store_le 4 ?c) _ = _ => set (k := store_le 4 c) end.
  assert (Hk : length k = 4%nat) by apply length_store_le.
  match goal with |- _ = ?l ++ _ => change l with k end.
  clearbody k. explode. reflexivity.
Qed.

Lemma length_state_payload s : length (state_payload s) = 13%nat.
Proof. unfold state_payload. autorewrite with nexus_bytes. done. Qed.

Lemma length_state_record s : length (state_record s) = 17%nat.
Proof. rewrite state_record_layout, length_app, length_store_le, length_state_payload. done. Qed.

Lemma take_all_app {A} n (a b : list A) : length a = n -> take n (a ++ b) = a.
Proof. intros <-. apply take_app_length. Qed.

Lemma drop_all_app {A} n (a b : list A) : length a = n -> drop n (a ++ b) = b.
Proof. intros <-. apply drop_app_length. Qed.

Lemma load_exact_i n v : (0 < n)%nat -> i_range (8 * Z.of_nat n) v -> load_le_i n (store_le n v) = v.
Proof. intros. rewrite <- (app_nil_r (store_le n v)). by apply load_store_i. Qed.

Lemma load_exact_u n v : u_range (8 * Z.of_nat n) v -> load_le_u n (store_le n v) = v.
Proof. intros. rewrite <- (app_nil_r (store_le n v)). by apply load_store_u. Qed.

(** Loading a file that starts with a saved record. *)
Lemma store_load_record s file rest :
  state_ok s -> no_errors (f_reads file) -> f_content file = state_record s ++ rest ->
  store_load file = Ok s.
Proof.
  intros [Ht Hv] Hr Hc.
  assert (Hsize : file_size file = Ok (length (f_content file))).
  { unfold file_size. destruct Hr as [|[] ? Ho]; done. }
  assert (Hread : read_at kStateRecordSize 0 file = Ok (state_record s)).
  { unfold read_at. rewrite read_loop_complete by done. f_equal. rewrite Hc.
    unfold subspan_n. rewrite drop_0. apply take_all_app, length_state_record. }
  unfold store_load. rewrite Hsize, Hc, length_app, length_state_record. cbn [expected_bind].
  change (17 + length rest =? 0)%nat with false.
  destruct (Nat.ltb_spec (17 + length rest) kStateRecordSize) as [Hlt|_]; [unfold kStateRecordSize in Hlt; lia|].
  rewrite Hread. cbn [expected_bind]. rewrite length_state_record. change (17 <? kStateRecordSize)%nat with false.
  rewrite state_record_layout. unfold subspan_n. change (kStateRecordSize - kTermOffset)%nat with 13%nat.
  rewrite !(drop_all_app kTermOffset) by apply length_store_le.
  rewrite drop_0, (take_all_app 4) by apply length_store_le.
  rewrite (take_ge (state_payload s) 13) by (rewrite length_state_payload; lia).
  rewrite load_exact_u.
  2: { apply u_range_crc32c; [by_range|]. unfold state_payload. rewrite !Forall_app.
       repeat split; try apply store_le_bytes. constructor; [|done]. destruct (p_voted_for s); by_range. }
  rewrite Z.eqb_refl. cbv zeta. cbn [negb].
  assert (Hhv : nth kHasVoteOffset (store_le 4 (crc32c (state_payload s) 0) ++ state_payload s) 0
    = match p_voted_for s with Some _ => 1 | None => 0 end).
  { unfold state_payload at 2. rewrite app_nth2, length_store_le by (rewrite length_store_le; cbv; lia).
    rewrite app_nth2, length_store_le by (rewrite length_store_le; cbv; lia). reflexivity. }
  rewrite Hhv. change kVotedForOffset with (kTermOffset + 9)%nat. rewrite <- drop_drop.
  rewrite (drop_all_app kTermOffset) by apply length_store_le.
  unfold state_payload. rewrite (take_all_app 8) by apply length_store_le.
  rewrite app_assoc, (drop_all_app 9) by (rewrite length_app, length_store_le; done).
  rewrite (take_ge (store_le 4 _)) by (rewrite length_store_le; lia).
  rewrite !load_exact_i by (done || lia). destruct s as [t [v|]]; reflexivity.
Qed.

Lemma file_sync_content f : f_content (file_sync f).2 = f_content f /\ f_reads (file_sync f).2 = f_reads f.
Proof. unfold file_sync. destruct (call_loop _) as [[]]; done. Qed.

Lemma call_loop_ok plan : no_errors plan -> (call_loop plan).1 = None.
Proof. induction 1 as [|[] plan Ho Hp IH]; done. Qed.

Lemma write_at_reads data offset f : f_reads (write_at data offset f).2 = f_reads f.
Proof. unfold write_at. by destruct (write_loop _ _ _ _) as [? []]. Qed.

Lemma store_save_reads s f : f_reads (store_save s f).2 = f_reads f.
Proof.
  unfold store_save. pose proof (write_at_reads (state_record s) 0 f).
  destruct (write_at _ _ f) as [[] f']; cbn in *; [|done]. by rewrite (proj2 (file_sync_content f')).
Qed.

Lemma store_save_load s f :
  state_ok s -> no_errors (f_reads f) -> is_ok (store_save s f).1 = true ->
  store_load (store_save s f).2 = Ok s.
Proof.
  intros Hok Hr. unfold store_save, write_at.
  destruct (write_loop (f_plan f) (state_record s) 0 (f_content f)) as [[u|] [c plan']] eqn:Hw; [|done].
  intros _. apply write_loop_ok in Hw as ->; [|right; lia].
  set (f' := MkFile _ plan' (f_reads f)). destruct (file_sync_content f') as [Hc Hrd].
  eapply (store_load_record s _ (drop 17 (f_content f))); [done|by rewrite Hrd|].
  rewrite Hc. change (f_content f') with (pwrite (state_record s) 0 (f_content f)).
  unfold pwrite, splice. rewrite length_state_record, Nat.sub_0_l, app_nil_r. done.
Qed.

(** Term and vote survive a restart: after a save that reports success the file loads back to
    exactly the saved state, whatever it held before and however the system split the write; and
    a save none of whose calls fails does report success. *)
Theorem state_store_roundtrip (s : RaftPersistentState) (file : File)
    (Hok : state_ok s) (Hreads : no_errors (f_reads file)) :
  (is_ok (store_save s file).1 = true -> store_load (store_save s file).2 = Ok s) /\
  (no_errors (f_plan file) -> is_ok (store_save s file).1 = true).
Proof.
  split; [by apply store_save_load|].
  intros Hplan. unfold store_save, write_at.
  destruct (write_loop_succeeds (f_plan file) (state_record s) 0 (f_content file))
    as (c & plan' & Hp' & ->); [done|].
  unfold file_sync. cbn. pose proof (call_loop_ok plan' Hp'). destruct (call_loop plan') as [[]]; done.
Qed.

Lemma state_store_roundtrip_witness :
  let file := MkFile [] [Transfer 5; Interrupted] [] in
  is_ok (store_save (MkPersistent 7 (Some 3)) file).1 = true /\
  store_load (store_save (MkPersistent 7 (Some 3)) file).2 = Ok (MkPersistent 7 (Some 3)).
Proof.
  destruct (state_store_roundtrip (MkPersistent 7 (Some 3)) (MkFile [] [Transfer 5; Interrupted] []))
    as [H1 H2]; [split; by_range|repeat constructor|].
  assert (Hs : no_errors [Transfer 5; Interrupted]) by repeat constructor.
  split; [exact (H2 Hs)|exact (H1 (H2 Hs))].
Defined.
