(* ===== verification/RaftLogSpec.v ===== *)
(** * What the Raft log promises

    The interface between [RaftNode] and [RaftLog] ([src/src/consensus/raft_log.hpp]): the
    operations the state machine calls on its log, the laws it relies on, and the abstract log
    (a snapshot base and the entries above it) that satisfies them by construction. *)
From stdpp Require Import base list gmap strings.
From Stdlib Require Import ZArith Lia.
From S2P Require Import Prelude RaftState.
#[local] Open Scope Z_scope.

(** The members of [RaftLog] that [RaftNode] and its carrier use.  A mutating call returns its result and the
    log after it, also when it failed. *)
Class RaftLogOps (L : Type) := {
  last_index : L -> Z;
  last_term : L -> Z;
  snapshot_index : L -> Z;
  snapshot_term : L -> Z;
  snapshot_last_offset : L -> Z;
  term_at : L -> Z -> expected Z;
  entries_from : L -> Z -> nat -> expected (list RaftLogEntry);
  log_append : list RaftLogEntry -> L -> expected Z * L;
  truncate_from : Z -> L -> expected unit * L;
  install_snapshot : Z -> Z -> Z -> L -> expected unit * L;
  compact_to : Z -> L -> expected unit * L;
  (** The terms of the live entries, those above the snapshot base. *)
  log_terms : L -> list Z;
}.

(** The laws: what each call does to the base and to the terms above it. *)
Class RaftLogLaws (L : Type) `{!RaftLogOps L} := {
  last_index_terms : forall l, last_index l = snapshot_index l + Z.of_nat (length (log_terms l));
  term_at_zero : forall l, term_at l 0 = Ok 0;
  term_at_base : forall l, snapshot_index l <> 0 -> term_at l (snapshot_index l) = Ok (snapshot_term l);
  term_at_compacted : forall l i, i <> 0 -> i < snapshot_index l -> is_ok (term_at l i) = false;
  term_at_beyond : forall l i, i <> 0 -> snapshot_index l < i -> last_index l < i ->
    is_ok (term_at l i) = false;
  term_at_live : forall l i t, i <> 0 -> snapshot_index l < i ->
    log_terms l !! Z.to_nat (i - snapshot_index l - 1) = Some t -> term_at l i = Ok t;
  append_base : forall es l, snapshot_index (log_append es l).2 = snapshot_index l /\
    snapshot_term (log_append es l).2 = snapshot_term l;
  (** A failed append may have added some of the entries. *)
  append_terms : forall es l, exists k, (k <= length es)%nat /\
    log_terms (log_append es l).2 = log_terms l ++ (e_term <$> take k es) /\
    (is_ok (log_append es l).1 = true -> k = length es /\
       (log_append es l).1 = Ok (last_index (log_append es l).2));
  truncate_base : forall i l, snapshot_index (truncate_from i l).2 = snapshot_index l /\
    snapshot_term (truncate_from i l).2 = snapshot_term l;
  truncate_terms : forall i l,
    if is_ok (truncate_from i l).1
    then snapshot_index l < i /\
         log_terms (truncate_from i l).2 = take (Z.to_nat (i - snapshot_index l - 1)) (log_terms l)
    else log_terms (truncate_from i l).2 = log_terms l;
  (** Compaction moves the base over live entries, also when persisting it failed. *)
  compact_terms : forall i l, exists k, (k <= length (log_terms l))%nat /\
    snapshot_index (compact_to i l).2 = snapshot_index l + Z.of_nat k /\
    log_terms (compact_to i l).2 = drop k (log_terms l) /\
    (is_ok (compact_to i l).1 = true -> i <= snapshot_index (compact_to i l).2);
  (** Installing a snapshot never moves the base back; above the new base the log keeps its
      tail or is empty. *)
  install_base_mono : forall i t o l, snapshot_index l <= snapshot_index (install_snapshot i t o l).2;
  install_done : forall i t o l, is_ok (install_snapshot i t o l).1 = true ->
    i <= snapshot_index (install_snapshot i t o l).2 /\
    i <= last_index (install_snapshot i t o l).2;
}.

(** ** The abstract log *)

Record AbsLog := MkAbsLog {
  al_index : Z;
  al_term : Z;
  al_offset : Z;
  al_entries : list RaftLogEntry;
}.

Definition al_empty : AbsLog := MkAbsLog 0 0 0 [].
Definition al_last_index (l : AbsLog) : Z := al_index l + Z.of_nat (length (al_entries l)).
Definition al_set_entries (es : list RaftLogEntry) (l : AbsLog) : AbsLog :=
  MkAbsLog (al_index l) (al_term l) (al_offset l) es.

Definition al_slot (l : AbsLog) (i : Z) : nat := Z.to_nat (i - al_index l - 1).

Definition al_term_at (l : AbsLog) (i : Z) : expected Z :=
  if i =? 0 then Ok 0
  else if i =? al_index l then Ok (al_term l)
  else if i <? al_index l then make_error OutOfRange "term_at: índice compactado"
  else match al_entries l !! al_slot l i with
       | Some e => Ok (e_term e)
       | None => make_error OutOfRange "term_at: índice fuera de rango"
       end.

Definition al_last_term (l : AbsLog) : Z :=
  match last (al_entries l) with
  | Some e => e_term e
  | None => if 0 <? al_index l then al_term l else 0
  end.

Definition al_entries_from (l : AbsLog) (i : Z) (max : nat) : expected (list RaftLogEntry) :=
  if i <? 1 then make_error InvalidArgument "entries_from: índice < 1"
  else if i <=? al_index l
  then make_error OutOfRange "entries_from: índice compactado (requiere snapshot)"
  else Ok (take max (drop (al_slot l i) (al_entries l))).

Definition al_append (es : list RaftLogEntry) (l : AbsLog) : expected Z * AbsLog :=
  let l' := al_set_entries (al_entries l ++ es) l in (Ok (al_last_index l'), l').

Definition al_truncate (i : Z) (l : AbsLog) : expected unit * AbsLog :=
  if i <? 1 then (make_error InvalidArgument "truncate_from: índice < 1", l)
  else if i <=? al_index l
  then (make_error InvalidArgument "truncate_from: índice ya compactado", l)
  else (Ok tt, al_set_entries (take (al_slot l i) (al_entries l)) l).

Definition al_compact (i : Z) (l : AbsLog) : expected unit * AbsLog :=
  if i <=? al_index l then (Ok tt, l)
  else match al_entries l !! al_slot l i with
       | None => (make_error InvalidArgument "compact_to: índice más allá del log", l)
       | Some e => (Ok tt, MkAbsLog i (e_term e) (al_offset l) (drop (S (al_slot l i)) (al_entries l)))
       end.

Definition al_install (i t o : Z) (l : AbsLog) : expected unit * AbsLog :=
  if i <=? al_index l then (Ok tt, l)
  else
    let keep := (i <=? al_last_index l) &&
      match al_term_at l i with Ok t' => t' =? t | Err _ => false end in
    (Ok tt, MkAbsLog i t o (if keep then drop (S (al_slot l i)) (al_entries l) else [])).

#[export] Instance AbsLog_ops : RaftLogOps AbsLog := {|
  last_index := al_last_index;
  last_term := al_last_term;
  snapshot_index := al_index;
  snapshot_term := al_term;
  snapshot_last_offset := al_offset;
  term_at := al_term_at;
  entries_from := al_entries_from;
  log_append := al_append;
  truncate_from := al_truncate;
  install_snapshot := al_install;
  compact_to := al_compact;
  log_terms l := e_term <$> al_entries l;
|}.

#[export] Instance AbsLog_laws : RaftLogLaws AbsLog.
Proof.
  split; intros; cbn in *; unfold al_last_index, al_term_at, al_truncate, al_install, al_compact, is_ok in *.
  - now rewrite length_fmap.
  - done.
  - rewrite (proj2 (Z.eqb_neq _ _)) by done. now rewrite Z.eqb_refl.
  - rewrite (proj2 (Z.eqb_neq i 0)), (proj2 (Z.eqb_neq i (al_index l))) by lia.
    now rewrite (proj2 (Z.ltb_lt _ _)) by lia.
  - rewrite (proj2 (Z.eqb_neq i 0)), (proj2 (Z.eqb_neq i (al_index l))) by lia.
    rewrite (proj2 (Z.ltb_ge _ _)) by lia. unfold al_slot. rewrite lookup_ge_None_2 by lia. done.
  - rewrite (proj2 (Z.eqb_neq i 0)), (proj2 (Z.eqb_neq i (al_index l))) by lia.
    rewrite (proj2 (Z.ltb_ge _ _)) by lia. unfold al_slot.
    rewrite list_lookup_fmap in H1. now destruct (al_entries l !! _); simplify_eq/=.
  - done.
  - exists (length es). rewrite firstn_all, fmap_app. auto.
  - destruct (i <? 1); [done|]. now destruct (i <=? al_index l).
  - destruct (Z.ltb_spec i 1); [done|]. destruct (Z.leb_spec i (al_index l)); [done|].
    cbn. split; [lia|]. now rewrite fmap_take.
  - destruct (Z.leb_spec i (al_index l)).
    { exists 0%nat. cbn. rewrite drop_0. split_and!; [lia|lia|done|lia]. }
    destruct (al_entries l !! al_slot l i) as [e|] eqn:He.
    + exists (S (al_slot l i)). cbn. rewrite fmap_drop, length_fmap.
      apply lookup_lt_Some in He. unfold al_slot in *. split_and!; [lia|lia|done|lia].
    + exists 0%nat. cbn. rewrite drop_0. split_and!; [lia|lia|done|done].
  - destruct (Z.leb_spec i (al_index l)); cbn; lia.
  - destruct (Z.leb_spec i (al_index l)); cbn; lia.
Qed.
