(* ===== verification/RaftNode.v ===== *)
(** * The Raft replica

    Models the class [RaftNode] of [src/src/consensus/raft_node.hpp] and [raft_node.cpp]: a
    synchronous state machine that takes inputs (ticks, RPCs, proposals) with the time injected
    and produces replies, queued messages and an advancing [commit_index].  It is generic in the
    log behind the interface of RaftLogSpec.v.  Times and durations are nanoseconds and
    milliseconds as integers; [std::minstd_rand] is the generator of the C++ standard. *)
From stdpp Require Import base list gmap strings sorting.
From Stdlib Require Import ZArith Lia.
From S2P Require Import Prelude Record RaftState RaftLogSpec.
#[local] Open Scope Z_scope.

(** ** State *)

(** [RaftConfig]; the three durations are counts of milliseconds. *)
Record RaftConfig := MkConfig {
  election_timeout_min : Z;
  election_timeout_max : Z;
  heartbeat_interval : Z;
  random_seed : Z;
}.

Definition default_config : RaftConfig := MkConfig 1000 1500 150 0.

(** [std::minstd_rand]: seeding and drawing. *)
Definition minstd_modulus : Z := 2147483647.
Definition minstd_seed (s : Z) : Z :=
  let x := s mod minstd_modulus in if x =? 0 then 1 else x.
Definition minstd_next (x : Z) : Z := (48271 * x) mod minstd_modulus.

Definition kMaxEntriesPerAppend : nat := 64.

Section Node.
Context {L : Type} `{!RaftLogOps L}.

(** The data members of [RaftNode]. *)
Record RaftNode := MkNode {
  self_ : Z;
  peers_ : list Z;
  learners_ : list Z;
  log_ : L;
  config_ : RaftConfig;
  role_ : RaftRole;
  persistent_ : RaftPersistentState;
  persistent_dirty_ : bool;
  volatile_ : RaftVolatileState;
  leader_epoch_ : Z;
  leader_id_ : option Z;
  votes_granted_ : gset Z;
  last_sent_ : gmap Z Z;
  transfer_target_ : option Z;
  election_deadline_ : Z;
  last_leader_contact_ : Z;
  heartbeat_deadline_ : Z;
  started_ : bool;
  rng_ : Z;
  outbox_ : list RaftMessage;
}.

(** Assignments to one member. *)
Definition set_log (x : L) (n : RaftNode) : RaftNode :=
  MkNode (self_ n) (peers_ n) (learners_ n) x (config_ n) (role_ n) (persistent_ n)
    (persistent_dirty_ n) (volatile_ n) (leader_epoch_ n) (leader_id_ n) (votes_granted_ n)
    (last_sent_ n) (transfer_target_ n) (election_deadline_ n) (last_leader_contact_ n)
    (heartbeat_deadline_ n) (started_ n) (rng_ n) (outbox_ n).
Definition set_role (x : RaftRole) (n : RaftNode) : RaftNode :=
  MkNode (self_ n) (peers_ n) (learners_ n) (log_ n) (config_ n) x (persistent_ n)
    (persistent_dirty_ n) (volatile_ n) (leader_epoch_ n) (leader_id_ n) (votes_granted_ n)
    (last_sent_ n) (transfer_target_ n) (election_deadline_ n) (last_leader_contact_ n)
    (heartbeat_deadline_ n) (started_ n) (rng_ n) (outbox_ n).
Definition set_persistent (x : RaftPersistentState) (d : bool) (n : RaftNode) : RaftNode :=
  MkNode (self_ n) (peers_ n) (learners_ n) (log_ n) (config_ n) (role_ n) x d (volatile_ n)
    (leader_epoch_ n) (leader_id_ n) (votes_granted_ n) (last_sent_ n) (transfer_target_ n)
    (election_deadline_ n) (last_leader_contact_ n) (heartbeat_deadline_ n) (started_ n)
    (rng_ n) (outbox_ n).
Definition set_volatile (x : RaftVolatileState) (n : RaftNode) : RaftNode :=
  MkNode (self_ n) (peers_ n) (learners_ n) (log_ n) (config_ n) (role_ n) (persistent_ n)
    (persistent_dirty_ n) x (leader_epoch_ n) (leader_id_ n) (votes_granted_ n)
    (last_sent_ n) (transfer_target_ n) (election_deadline_ n) (last_leader_contact_ n)
    (heartbeat_deadline_ n) (started_ n) (rng_ n) (outbox_ n).
Definition set_leader_epoch (x : Z) (n : RaftNode) : RaftNode :=
  MkNode (self_ n) (peers_ n) (learners_ n) (log_ n) (config_ n) (role_ n) (persistent_ n)
    (persistent_dirty_ n) (volatile_ n) x (leader_id_ n) (votes_granted_ n) (last_sent_ n)
    (transfer_target_ n) (election_deadline_ n) (last_leader_contact_ n)
    (heartbeat_deadline_ n) (started_ n) (rng_ n) (outbox_ n).
Definition set_leader_id (x : option Z) (n : RaftNode) : RaftNode :=
  MkNode (self_ n) (peers_ n) (learners_ n) (log_ n) (config_ n) (role_ n) (persistent_ n)
    (persistent_dirty_ n) (volatile_ n) (leader_epoch_ n) x (votes_granted_ n)
    (last_sent_ n) (transfer_target_ n) (election_deadline_ n) (last_leader_contact_ n)
    (heartbeat_deadline_ n) (started_ n) (rng_ n) (outbox_ n).
Definition set_votes (x : gset Z) (n : RaftNode) : RaftNode :=
  MkNode (self_ n) (peers_ n) (learners_ n) (log_ n) (config_ n) (role_ n) (persistent_ n)
    (persistent_dirty_ n) (volatile_ n) (leader_epoch_ n) (leader_id_ n) x (last_sent_ n)
    (transfer_target_ n) (election_deadline_ n) (last_leader_contact_ n)
    (heartbeat_deadline_ n) (started_ n) (rng_ n) (outbox_ n).
Definition set_last_sent (x : gmap Z Z) (n : RaftNode) : RaftNode :=
  MkNode (self_ n) (peers_ n) (learners_ n) (log_ n) (config_ n) (role_ n) (persistent_ n)
    (persistent_dirty_ n) (volatile_ n) (leader_epoch_ n) (leader_id_ n) (votes_granted_ n)
    x (transfer_target_ n) (election_deadline_ n) (last_leader_contact_ n)
    (heartbeat_deadline_ n) (started_ n) (rng_ n) (outbox_ n).
Definition set_transfer (x : option Z) (n : RaftNode) : RaftNode :=
  MkNode (self_ n) (peers_ n) (learners_ n) (log_ n) (config_ n) (role_ n) (persistent_ n)
    (persistent_dirty_ n) (volatile_ n) (leader_epoch_ n) (leader_id_ n) (votes_granted_ n)
    (last_sent_ n) x (election_deadline_ n) (last_leader_contact_ n) (heartbeat_deadline_ n)
    (started_ n) (rng_ n) (outbox_ n).
Definition set_timers (e c h : Z) (s : bool) (r : Z) (n : RaftNode) : RaftNode :=
  MkNode (self_ n) (peers_ n) (learners_ n) (log_ n) (config_ n) (role_ n) (persistent_ n)
    (persistent_dirty_ n) (volatile_ n) (leader_epoch_ n) (leader_id_ n) (votes_granted_ n)
    (last_sent_ n) (transfer_target_ n) e c h s r (outbox_ n).
Definition set_outbox (x : list RaftMessage) (n : RaftNode) : RaftNode :=
  MkNode (self_ n) (peers_ n) (learners_ n) (log_ n) (config_ n) (role_ n) (persistent_ n)
    (persistent_dirty_ n) (volatile_ n) (leader_epoch_ n) (leader_id_ n) (votes_granted_ n)
    (last_sent_ n) (transfer_target_ n) (election_deadline_ n) (last_leader_contact_ n)
    (heartbeat_deadline_ n) (started_ n) (rng_ n) x.

Definition set_last_leader_contact (x : Z) (n : RaftNode) : RaftNode :=
  set_timers (election_deadline_ n) x (heartbeat_deadline_ n) (started_ n) (rng_ n) n.
Definition set_started (x : bool) (n : RaftNode) : RaftNode :=
  set_timers (election_deadline_ n) (last_leader_contact_ n) (heartbeat_deadline_ n) x (rng_ n) n.

Definition current_term (n : RaftNode) : Z := p_current_term (persistent_ n).
Definition voted_for (n : RaftNode) : option Z := p_voted_for (persistent_ n).
Definition commit_index (n : RaftNode) : Z := v_commit_index (volatile_ n).

(** The constructor. *)
Definition new_node (self : Z) (peers : list Z) (log : L) (config : RaftConfig) (learners : list Z)
  : RaftNode :=
  MkNode self peers learners log config Follower persistent_initial false volatile_initial 0 None
    ∅ ∅ None 0 0 0 false (minstd_seed (to_u 64 (random_seed config + to_u 64 self))) [].

(** [send]. *)
Definition send (to : Z) (payload : RaftPayload) (n : RaftNode) : RaftNode :=
  set_outbox (outbox_ n ++ [MkMessage (self_ n) to payload]) n.

(** ** Membership *)

Definition is_voter (n : RaftNode) (node : Z) : bool := negb (bool_decide (node ∈ learners_ n)).

Definition cluster_size (n : RaftNode) : nat :=
  foldl (fun voters peer => (voters + if is_voter n peer then 1 else 0)%nat)
    (if is_voter n (self_ n) then 1 else 0)%nat (peers_ n).

Definition has_majority (n : RaftNode) (votes : nat) : bool := (cluster_size n <? votes * 2)%nat.

(** ** Timers *)

(** [random_election_timeout]: the drawn timeout, in milliseconds, and the generator after it. *)
Definition random_election_timeout (config : RaftConfig) (rng : Z) : Z * Z :=
  let lo := election_timeout_min config in
  let hi := election_timeout_max config in
  let span := if lo <? hi then hi - lo else 0 in
  if 0 <? span then let r := minstd_next rng in (lo + r mod (span + 1), r)
  else (lo, rng).

Definition reset_election_timer (now : Z) (n : RaftNode) : RaftNode :=
  let '(timeout, rng) := random_election_timeout (config_ n) (rng_ n) in
  set_timers (now + ms timeout) (last_leader_contact_ n) (heartbeat_deadline_ n) (started_ n) rng n.

Definition reset_heartbeat_timer (now : Z) (n : RaftNode) : RaftNode :=
  set_timers (election_deadline_ n) (last_leader_contact_ n)
    (now + ms (heartbeat_interval (config_ n))) (started_ n) (rng_ n) n.

(** ** Persistent state *)

Definition advance_term (term : Z) (n : RaftNode) : RaftNode :=
  set_persistent (p_advance_term term (persistent_ n)) true n.

Definition record_vote (candidate : Z) (n : RaftNode) : RaftNode :=
  set_persistent (p_record_vote candidate (persistent_ n)) true n.

Definition clear_persistent_dirty (n : RaftNode) : RaftNode :=
  set_persistent (persistent_ n) false n.

Definition restore_persistent_state (s : RaftPersistentState) (n : RaftNode) : RaftNode :=
  set_persistent s false n.

(** ** Replication *)

Definition send_snapshot_to (peer : Z) (n : RaftNode) : RaftNode :=
  let snapshot := MkSnapshot (snapshot_index (log_ n)) (snapshot_term (log_ n))
                    (snapshot_last_offset (log_ n)) [] in
  n |> set_last_sent (<[peer := snapshot_index (log_ n)]> (last_sent_ n))
    |> send peer (PInstallSnapshotArgs (MkInstallSnapshot (current_term n) (self_ n) snapshot)).

Definition replicate_to (peer : Z) (n : RaftNode) : RaftNode :=
  if next_index (volatile_ n) peer <=? snapshot_index (log_ n) then send_snapshot_to peer n
  else
    let next := next_index (volatile_ n) peer in
    let prev_index := next - 1 in
    let prev_term := match term_at (log_ n) prev_index with Ok t => t | Err _ => 0 end in
    let payload := match entries_from (log_ n) next kMaxEntriesPerAppend with
                   | Ok es => es | Err _ => [] end in
    let sent := match last payload with Some e => e_index e | None => prev_index end in
    n |> set_last_sent (<[peer := sent]> (last_sent_ n))
      |> send peer (PAppendEntriesArgs (MkAppendEntries (current_term n) (self_ n) prev_index
           prev_term payload (commit_index n) (leader_epoch_ n))).

Definition replicate_all (n : RaftNode) : RaftNode :=
  foldl (fun n peer => replicate_to peer n) n (peers_ n).

(** ** Role changes *)

Definition become_follower (now term : Z) (n : RaftNode) : RaftNode :=
  (if current_term n <? term then advance_term term n else n)
  |> set_role Follower
  |> (fun n => set_volatile (clear_leader_progress (volatile_ n)) n)
  |> set_votes ∅
  |> set_transfer None
  |> reset_election_timer now.

Definition broadcast_request_vote (pre_vote : bool) (n : RaftNode) : RaftNode :=
  let term := if pre_vote then current_term n + 1 else current_term n in
  let args := MkRequestVote term (self_ n) (last_index (log_ n)) (last_term (log_ n)) pre_vote in
  foldl (fun m peer => if is_voter n peer then send peer (PRequestVoteArgs args) m else m)
    n (peers_ n).

Definition become_leader (now : Z) (n : RaftNode) : RaftNode :=
  n |> set_role Leader
    |> set_leader_id (Some (self_ n))
    |> set_leader_epoch (leader_epoch_ n + 1)
    |> set_volatile (reset_leader_progress (peers_ n) (last_index (log_ n)) (volatile_ n))
    |> set_last_sent ∅
    |> set_transfer None
    |> reset_heartbeat_timer now
    |> replicate_all.

Definition become_candidate (now : Z) (n : RaftNode) : RaftNode :=
  let n := n |> advance_term (current_term n + 1)
             |> record_vote (self_ n)
             |> set_role Candidate
             |> set_leader_id None
             |> set_votes {[ self_ n ]}
             |> reset_election_timer now in
  if has_majority n (size (votes_granted_ n)) then become_leader now n
  else broadcast_request_vote false n.

Definition start_pre_election (now : Z) (n : RaftNode) : RaftNode :=
  let n := n |> set_role PreCandidate
             |> set_leader_id None
             |> set_votes {[ self_ n ]}
             |> reset_election_timer now in
  if has_majority n (size (votes_granted_ n)) then become_candidate now n
  else broadcast_request_vote true n.

(** ** Commit and transfer *)

(** The match indexes of the voting members, the node's own log included. *)
Definition voter_matches (n : RaftNode) : list Z :=
  (if is_voter n (self_ n) then [last_index (log_ n)] else []) ++
  (match_index (volatile_ n) <$> filter (fun peer => is_voter n peer = true) (peers_ n)).

(** [matches[matches.size() / 2]] after sorting in descending order ([None]: there is no
    voting member, and the subscript is out of range). *)
Definition quorum_index (matches : list Z) : option Z :=
  merge_sort Z.ge matches !! (length matches / 2)%nat.

Definition advance_commit_index (n : RaftNode) : RaftNode :=
  match quorum_index (voter_matches n) with
  | None => n
  | Some candidate =>
      if candidate <=? commit_index n then n
      else match term_at (log_ n) candidate with
           | Ok term => if term =? current_term n
                        then set_volatile (set_commit_index candidate (volatile_ n)) n else n
           | Err _ => n
           end
  end.

Definition maybe_transfer_to (peer : Z) (n : RaftNode) : RaftNode :=
  if negb (bool_decide (transfer_target_ n = Some peer)) then n
  else if last_index (log_ n) <=? match_index (volatile_ n) peer
  then n |> send peer (PTimeoutNowArgs (MkTimeoutNow (current_term n) (self_ n)))
         |> set_transfer None
  else replicate_to peer n.

(** ** Inputs *)

Definition tick (now : Z) (n : RaftNode) : RaftNode :=
  if negb (started_ n) then n |> set_started true |> reset_election_timer now
  else if bool_decide (role_ n = Leader)
  then if heartbeat_deadline_ n <=? now then n |> reset_heartbeat_timer now |> replicate_all else n
  else if (election_deadline_ n <=? now) && is_voter n (self_ n) then start_pre_election now n
  else n.

Definition log_is_up_to_date (n : RaftNode) (last_log_index last_log_term : Z) : bool :=
  let my_last_term := last_term (log_ n) in
  if negb (last_log_term =? my_last_term) then my_last_term <? last_log_term
  else last_index (log_ n) <=? last_log_index.

Definition make_pre_vote_reply (now : Z) (args : RequestVoteArgs) (n : RaftNode)
  : RequestVoteReply :=
  let denied := MkRequestVoteReply (current_term n) false in
  if rv_term args <? current_term n then denied
  else if bool_decide (role_ n = Leader) then denied
  else if now - last_leader_contact_ n <? ms (election_timeout_min (config_ n)) then denied
  else if log_is_up_to_date n (rv_last_log_index args) (rv_last_log_term args)
  then MkRequestVoteReply (current_term n) true
  else denied.

Definition on_request_vote (now : Z) (args : RequestVoteArgs) (n : RaftNode)
  : RequestVoteReply * RaftNode :=
  if rv_pre_vote args then (make_pre_vote_reply now args n, n)
  else
    let n := if current_term n <? rv_term args then become_follower now (rv_term args) n else n in
    if rv_term args <? current_term n then (MkRequestVoteReply (current_term n) false, n)
    else
      let can_vote := match voted_for n with
                      | None => true | Some c => c =? rv_candidate_id args end in
      if can_vote && log_is_up_to_date n (rv_last_log_index args) (rv_last_log_term args)
      then let n := n |> record_vote (rv_candidate_id args) |> reset_election_timer now in
           (MkRequestVoteReply (current_term n) true, n)
      else (MkRequestVoteReply (current_term n) false, n).

Definition on_request_vote_reply (now from : Z) (reply : RequestVoteReply) (n : RaftNode)
  : RaftNode :=
  if current_term n <? rvr_term reply then become_follower now (rvr_term reply) n
  else if bool_decide (role_ n = PreCandidate)
  then if (rvr_term reply =? current_term n) && rvr_vote_granted reply && is_voter n from
       then let n := set_votes ({[ from ]} ∪ votes_granted_ n) n in
            if has_majority n (size (votes_granted_ n)) then become_candidate now n else n
       else n
  else if negb (bool_decide (role_ n = Candidate)) || negb (rvr_term reply =? current_term n) then n
  else if rvr_vote_granted reply && is_voter n from
  then let n := set_votes ({[ from ]} ∪ votes_granted_ n) n in
       if has_majority n (size (votes_granted_ n)) then become_leader now n else n
  else n.

(** The [for] of [append_entries_from]: skips the entries already present, truncates at the
    first conflict; the result is the suffix left to append ([None]: the truncation failed). *)
Fixpoint skip_matching (entries : list RaftLogEntry) (log : L) : option (list RaftLogEntry) * L :=
  match entries with
  | [] => (Some [], log)
  | entry :: rest =>
      if last_index log <? e_index entry then (Some entries, log)
      else if match term_at log (e_index entry) with
              | Ok existing => existing =? e_term entry | Err _ => false end
      then skip_matching rest log
      else match truncate_from (e_index entry) log with
           | (Ok _, log') => (Some entries, log')
           | (Err _, log') => (None, log')
           end
  end.

Definition append_entries_from (entries : list RaftLogEntry) (log : L) : bool * L :=
  match skip_matching entries log with
  | (None, log') => (false, log')
  | (Some [], log') => (true, log')
  | (Some suffix, log') => let '(appended, log'') := log_append suffix log' in (is_ok appended, log'')
  end.

Definition on_append_entries (now : Z) (args : AppendEntriesArgs) (n : RaftNode)
  : AppendEntriesReply * RaftNode :=
  if ae_term args <? current_term n then (MkAppendEntriesReply (current_term n) false 0, n)
  else
    let n := if (current_term n <? ae_term args) || negb (bool_decide (role_ n = Follower))
             then become_follower now (ae_term args) n else n in
    let n := n |> set_leader_id (Some (ae_leader_id args))
               |> reset_election_timer now
               |> set_last_leader_contact now in
    let term := current_term n in
    if last_index (log_ n) <? ae_prev_log_index args
    then (MkAppendEntriesReply term false (last_index (log_ n) + 1), n)
    else match term_at (log_ n) (ae_prev_log_index args) with
    | Err _ => (MkAppendEntriesReply term false (last_index (log_ n) + 1), n)
    | Ok prev_term =>
        if negb (prev_term =? ae_prev_log_term args)
        then (MkAppendEntriesReply term false (ae_prev_log_index args), n)
        else
          let '(appended, log) := append_entries_from (ae_entries args) (log_ n) in
          let n := set_log log n in
          if negb appended then (MkAppendEntriesReply term false 0, n)
          else
            let n := if commit_index n <? ae_leader_commit args
                     then set_volatile (set_commit_index
                            (Z.min (ae_leader_commit args) (last_index (log_ n))) (volatile_ n)) n
                     else n in
            (MkAppendEntriesReply term true 0, n)
    end.

(** [last_sent_[from]]: [operator[]] inserts a zero for an absent key. *)
Definition last_sent_at (from : Z) (n : RaftNode) : Z * RaftNode :=
  let sent := default 0 (last_sent_ n !! from) in (sent, set_last_sent (<[from := sent]> (last_sent_ n)) n).

(** The progress update that both success branches share. *)
Definition note_match (from : Z) (n : RaftNode) : RaftNode :=
  let '(matched, n) := last_sent_at from n in
  let v := set_match_index from (Z.max (match_index (volatile_ n) from) matched) (volatile_ n) in
  set_volatile (set_next_index from (match_index v from + 1) v) n.

Definition on_append_entries_reply (now from : Z) (reply : AppendEntriesReply) (n : RaftNode)
  : RaftNode :=
  if current_term n <? aer_term reply then become_follower now (aer_term reply) n
  else if negb (bool_decide (role_ n = Leader)) || negb (aer_term reply =? current_term n) then n
  else if aer_success reply
  then n |> note_match from |> advance_commit_index |> maybe_transfer_to from
  else
    let hint := if 0 <? aer_conflict_index reply then aer_conflict_index reply
                else next_index (volatile_ n) from - 1 in
    n |> set_volatile (set_next_index from (Z.max 1 hint) (volatile_ n)) |> replicate_to from.

Definition propose (batch : RecordBatch) (n : RaftNode) : expected Z * RaftNode :=
  if negb (bool_decide (role_ n = Leader))
  then (make_error Unsupported "propose: el nodo no es líder", n)
  else
    let entry := MkEntry (current_term n) (last_index (log_ n) + 1) Data (batch_encode batch []) in
    let '(appended, log) := log_append [entry] (log_ n) in
    let n := set_log log n in
    match appended with
    | Err e => (Err e, n)
    | Ok index => (Ok index, n |> replicate_all |> advance_commit_index)
    end.

Definition transfer_leadership (target : Z) (n : RaftNode) : expected unit * RaftNode :=
  if negb (bool_decide (role_ n = Leader))
  then (make_error Unsupported "transfer_leadership: el nodo no es líder", n)
  else if negb (bool_decide (target ∈ peers_ n))
  then (make_error InvalidArgument "transfer_leadership: destino no es un peer", n)
  else if negb (is_voter n target)
  then (make_error InvalidArgument "transfer_leadership: destino es un learner", n)
  else (Ok tt, n |> set_transfer (Some target) |> maybe_transfer_to target).

Definition on_timeout_now (now : Z) (args : TimeoutNowArgs) (n : RaftNode) : RaftNode :=
  if (tn_term args <? current_term n) || negb (is_voter n (self_ n)) then n
  else (if current_term n <? tn_term args then become_follower now (tn_term args) n else n)
       |> become_candidate now.

Definition on_install_snapshot (now : Z) (args : InstallSnapshotArgs) (n : RaftNode)
  : InstallSnapshotReply * RaftNode :=
  if is_term args <? current_term n then (MkInstallSnapshotReply (current_term n), n)
  else
    let n := if (current_term n <? is_term args) || negb (bool_decide (role_ n = Follower))
             then become_follower now (is_term args) n else n in
    let n := n |> set_leader_id (Some (is_leader_id args))
               |> reset_election_timer now
               |> set_last_leader_contact now in
    let reply := MkInstallSnapshotReply (current_term n) in
    let snap := is_snapshot args in
    let '(installed, log) := install_snapshot (last_included_index snap) (last_included_term snap)
                               (last_included_offset snap) (log_ n) in
    let n := set_log log n in
    if negb (is_ok installed) then (reply, n)
    else (reply, if commit_index n <? last_included_index snap
                 then set_volatile (set_commit_index (last_included_index snap) (volatile_ n)) n
                 else n).

Definition on_install_snapshot_reply (now from : Z) (reply : InstallSnapshotReply) (n : RaftNode)
  : RaftNode :=
  if current_term n <? isr_term reply then become_follower now (isr_term reply) n
  else if negb (bool_decide (role_ n = Leader)) || negb (isr_term reply =? current_term n) then n
  else n |> note_match from |> advance_commit_index |> replicate_to from.

Definition take_messages (n : RaftNode) : list RaftMessage * RaftNode := (outbox_ n, set_outbox [] n).

(** ** One input *)

(** Everything the carrier of the state machine can call. *)
Inductive RaftInput :=
  | ITick
  | IRequestVote (a : RequestVoteArgs)
  | IRequestVoteReply (from : Z) (r : RequestVoteReply)
  | IAppendEntries (a : AppendEntriesArgs)
  | IAppendEntriesReply (from : Z) (r : AppendEntriesReply)
  | ITimeoutNow (a : TimeoutNowArgs)
  | IInstallSnapshot (a : InstallSnapshotArgs)
  | IInstallSnapshotReply (from : Z) (r : InstallSnapshotReply)
  | IPropose (b : RecordBatch)
  | ITransfer (target : Z)
  | ITakeMessages
  | IClearDirty.

Definition node_step (now : Z) (i : RaftInput) (n : RaftNode) : RaftNode :=
  match i with
  | ITick => tick now n
  | IRequestVote a => (on_request_vote now a n).2
  | IRequestVoteReply from r => on_request_vote_reply now from r n
  | IAppendEntries a => (on_append_entries now a n).2
  | IAppendEntriesReply from r => on_append_entries_reply now from r n
  | ITimeoutNow a => on_timeout_now now a n
  | IInstallSnapshot a => (on_install_snapshot now a n).2
  | IInstallSnapshotReply from r => on_install_snapshot_reply now from r n
  | IPropose b => (propose b n).2
  | ITransfer target => (transfer_leadership target n).2
  | ITakeMessages => (take_messages n).2
  | IClearDirty => clear_persistent_dirty n
  end.

End Node.
Arguments RaftNode L : clear implicits.
