(* ===== verification/RaftSafety.v ===== *)
(** * Safety of a Raft replica

    The abstract step relation every input of [RaftNode] refines, and what follows from it:
    terms never go back, one vote per term, a leader holds the votes of a majority of the voting
    members, a leader never rewrites its own log, the commit index does not move back over the
    log. *)
From stdpp Require Import base list gmap sets strings sorting relations.
From Stdlib Require Import ZArith Lia.
From S2P Require Import Prelude Record RaftState RaftLogSpec RaftNode.
#[local] Open Scope Z_scope.

Section Safety.
Context {L : Type} `{!RaftLogOps L}.

(** ** The view of a replica the protocol is about *)

Record view := MkNodeView {
  w_self : Z;
  w_peers : list Z;
  w_learners : list Z;
  w_role : RaftRole;
  w_term : Z;
  w_voted : option Z;
  w_votes : gset Z;
  w_log : L;
  w_commit : Z;
  w_dirty : bool;
}.

Definition view_of (n : RaftNode L) : view :=
  MkNodeView (self_ n) (peers_ n) (learners_ n) (role_ n) (current_term n) (voted_for n)
    (votes_granted_ n) (log_ n) (commit_index n) (persistent_dirty_ n).

Definition w_voter (w : view) (node : Z) : bool := negb (bool_decide (node ∈ w_learners w)).

Definition w_cluster_size (w : view) : nat :=
  foldl (fun voters peer => (voters + if w_voter w peer then 1 else 0)%nat)
    (if w_voter w (w_self w) then 1 else 0)%nat (w_peers w).

Definition w_majority (w : view) (votes : nat) : bool := (w_cluster_size w <? votes * 2)%nat.

(** Elementary changes. *)
Definition w_set_role (r : RaftRole) (vs : gset Z) (w : view) : view :=
  MkNodeView (w_self w) (w_peers w) (w_learners w) r (w_term w) (w_voted w) vs (w_log w) (w_commit w)
    (w_dirty w).
Definition w_set_vote (t : Z) (c : option Z) (w : view) : view :=
  MkNodeView (w_self w) (w_peers w) (w_learners w) (w_role w) t c (w_votes w) (w_log w) (w_commit w)
    true.
Definition w_set_log (l : L) (c : Z) (w : view) : view :=
  MkNodeView (w_self w) (w_peers w) (w_learners w) (w_role w) (w_term w) (w_voted w) (w_votes w) l c
    (w_dirty w).

Definition w_clean (w : view) : view :=
  MkNodeView (w_self w) (w_peers w) (w_learners w) (w_role w) (w_term w) (w_voted w) (w_votes w)
    (w_log w) (w_commit w) false.

(** Step down, adopting [t] when it is newer. *)
Definition w_follow (t : Z) (w : view) : view :=
  w_set_role Follower ∅ (if w_term w <? t then w_set_vote t None w else w).

(** Start an election in the next term; alone in the cluster, win it at once. *)
Definition w_campaign (w : view) : view :=
  let w' := w_set_role Candidate {[ w_self w ]} (w_set_vote (w_term w + 1) (Some (w_self w)) w) in
  if w_majority w 1 then w_set_role Leader {[ w_self w ]} w' else w'.

Definition w_count (from : Z) (w : view) : view :=
  w_set_role (w_role w) ({[ from ]} ∪ w_votes w) w.

(** Acknowledging the leader of term [t]. *)
Definition w_heed (t : Z) (w : view) : view :=
  if (w_term w <? t) || negb (bool_decide (w_role w = Follower)) then w_follow t w else w.

(** ** The abstract steps *)

(** What an input may do to the view. *)
Inductive view_step : RaftInput -> view -> view -> Prop :=
  | VStay i w : view_step i w w
  | VClean w : view_step IClearDirty w (w_clean w)
  | VFollow i t w : w_term w < t -> view_step i w (w_follow t w)
  | VPreElection w :
      w_role w <> Leader -> w_voter w (w_self w) = true ->
      view_step ITick w (w_set_role PreCandidate {[ w_self w ]} w)
  | VCampaign i w :
      w_voter w (w_self w) = true \/ w_role w = PreCandidate -> view_step i w (w_campaign w)
  | VCampaignAt i t w : w_voter w (w_self w) = true -> w_term w < t ->
      view_step i w (w_campaign (w_follow t w))
  | VGrant a w w0 :
      rv_pre_vote a = false ->
      w0 = (if w_term w <? rv_term a then w_follow (rv_term a) w else w) ->
      w_term w0 = rv_term a ->
      (w_voted w0 = None \/ w_voted w0 = Some (rv_candidate_id a)) ->
      view_step (IRequestVote a) w (w_set_vote (w_term w0) (Some (rv_candidate_id a)) w0)
  | VCountPre from r w :
      w_role w = PreCandidate -> w_voter w from = true ->
      view_step (IRequestVoteReply from r) w (w_count from w)
  | VCount from r w :
      w_role w = Candidate -> rvr_term r = w_term w -> rvr_vote_granted r = true ->
      w_voter w from = true ->
      view_step (IRequestVoteReply from r) w (w_count from w)
  | VWin from r w :
      w_role w = Candidate -> rvr_term r = w_term w -> rvr_vote_granted r = true ->
      w_voter w from = true -> w_majority w (size ({[ from ]} ∪ w_votes w)) = true ->
      view_step (IRequestVoteReply from r) w (w_set_role Leader ({[ from ]} ∪ w_votes w) w)
  | VHeed i t w : w_term w <= t -> view_step i w (w_heed t w)
  | VAppend a w l c :
      w_term w <= ae_term a -> l = (append_entries_from (ae_entries a) (w_log w)).2 ->
      (c = w_commit w \/
       w_commit w < ae_leader_commit a /\ c = Z.min (ae_leader_commit a) (last_index l)) ->
      view_step (IAppendEntries a) w (w_set_log l c (w_heed (ae_term a) w))
  | VInstall a w l c :
      w_term w <= is_term a ->
      l = (install_snapshot (last_included_index (is_snapshot a))
             (last_included_term (is_snapshot a)) (last_included_offset (is_snapshot a)) (w_log w)).2 ->
      (c = w_commit w \/ w_commit w < last_included_index (is_snapshot a) /\
         c = last_included_index (is_snapshot a)) ->
      view_step (IInstallSnapshot a) w (w_set_log l c (w_heed (is_term a) w))
  | VPropose b w e l c :
      w_role w = Leader -> e = MkEntry (w_term w) (last_index (w_log w) + 1) Data (batch_encode b []) ->
      l = (log_append [e] (w_log w)).2 ->
      (c = w_commit w \/ w_commit w < c /\ term_at l c = Ok (w_term w)) ->
      view_step (IPropose b) w (w_set_log l c w)
  | VCommit i w c :
      w_role w = Leader -> w_commit w < c -> term_at (w_log w) c = Ok (w_term w) ->
      view_step i w (w_set_log (w_log w) c w).

(** ** The helpers, seen through the view *)

Lemma view_election_timer now n : view_of (reset_election_timer now n) = view_of n.
Proof. unfold reset_election_timer. now destruct (random_election_timeout _ _). Qed.

Lemma view_follower now t n : view_of (become_follower now t n) = w_follow t (view_of n).
Proof.
  unfold become_follower. rewrite view_election_timer. unfold w_follow. cbn.
  now destruct (current_term n <? t).
Qed.

Lemma view_replicate_to p n : view_of (replicate_to p n) = view_of n.
Proof. unfold replicate_to, send_snapshot_to. now destruct (_ <=? _). Qed.

Lemma view_replicate_all n : view_of (replicate_all n) = view_of n.
Proof.
  unfold replicate_all. generalize (peers_ n). intros ps. revert n.
  induction ps as [|p ps IH]; intros n; cbn; [done|]. now rewrite IH, view_replicate_to.
Qed.

Lemma view_broadcast pre n : view_of (broadcast_request_vote pre n) = view_of n.
Proof.
  unfold broadcast_request_vote.
  enough (forall ps m, view_of (foldl (fun m peer => if is_voter n peer then
    send peer (PRequestVoteArgs (MkRequestVote (if pre then current_term n + 1 else current_term n)
      (self_ n) (last_index (log_ n)) (last_term (log_ n)) pre)) m else m) m ps) = view_of m) by auto.
  intros ps. induction ps as [|p ps IH]; intros m; cbn; [done|]. rewrite IH.
  now destruct (is_voter n p).
Qed.

Lemma view_leader now n :
  view_of (become_leader now n) = w_set_role Leader (votes_granted_ n) (view_of n).
Proof. unfold become_leader. now rewrite view_replicate_all. Qed.

(** The end of [become_candidate], on a replica that has just voted for itself. *)
Lemma view_campaign now n v :
  view_of n = w_set_role Candidate {[ w_self v ]} (w_set_vote (w_term v + 1) (Some (w_self v)) v) ->
  view_of (if has_majority n (size (votes_granted_ n)) then become_leader now n
           else broadcast_request_vote false n) = w_campaign v.
Proof.
  intros H.
  assert (Hv : votes_granted_ n = {[ w_self v ]}) by exact (f_equal w_votes H).
  assert (Hm : has_majority n 1 = w_majority v 1).
  { change (w_majority (view_of n) 1 = w_majority v 1). now rewrite H. }
  rewrite Hv, size_singleton, Hm. unfold w_campaign. cbv zeta.
  destruct (w_majority v 1).
  - rewrite view_leader, H, Hv. done.
  - rewrite view_broadcast, H. done.
Qed.

Lemma view_candidate now n : view_of (become_candidate now n) = w_campaign (view_of n).
Proof. apply (view_campaign now). rewrite view_election_timer. done. Qed.

Lemma view_note_match from n : view_of (note_match from n) = view_of n.
Proof. done. Qed.

Lemma view_transfer p n : view_of (maybe_transfer_to p n) = view_of n.
Proof.
  unfold maybe_transfer_to. destruct (negb _); [done|].
  destruct (_ <=? _); [done|]. apply view_replicate_to.
Qed.

(** The leader's commit rule: the view changes in nothing but a larger commit index, whose
    entry is of the current term. *)
Lemma view_advance_commit n :
  exists c, view_of (advance_commit_index n) = w_set_log (log_ n) c (view_of n) /\
    (c = commit_index n \/ commit_index n < c /\ term_at (log_ n) c = Ok (current_term n)).
Proof.
  unfold advance_commit_index. destruct (quorum_index _) as [c|]; [|by exists (commit_index n); auto].
  destruct (Z.leb_spec c (commit_index n)); [by exists (commit_index n); auto|].
  destruct (term_at (log_ n) c) as [t|] eqn:Ht; [|by exists (commit_index n); auto].
  destruct (Z.eqb_spec t (current_term n)); [|by exists (commit_index n); auto].
  exists c. subst t. auto.
Qed.

Lemma view_heed now t n :
  view_of (if (current_term n <? t) || negb (bool_decide (role_ n = Follower))
           then become_follower now t n else n) = w_heed t (view_of n).
Proof.
  unfold w_heed. cbn. destruct ((current_term n <? t) || _); [apply view_follower|done].
Qed.

Lemma view_contact now l n :
  view_of (set_last_leader_contact now (reset_election_timer now (set_leader_id l n))) = view_of n.
Proof.
  change (view_of (reset_election_timer now (set_leader_id l n)) = view_of n).
  now rewrite view_election_timer.
Qed.

Lemma heed_log t w : w_log (w_heed t w) = w_log w /\ w_commit (w_heed t w) = w_commit w.
Proof. unfold w_heed, w_follow. destruct (_ || _); [|done]. now destruct (_ <? _). Qed.

(** Recognising the leader: step down if need be, note the contact. *)
Lemma heed_contact now t lid n :
  let n1 := if (current_term n <? t) || negb (bool_decide (role_ n = Follower))
            then become_follower now t n else n in
  let n2 := set_last_leader_contact now (reset_election_timer now (set_leader_id lid n1)) in
  view_of n2 = w_heed t (view_of n) /\ log_ n2 = log_ n /\ commit_index n2 = commit_index n.
Proof.
  intros n1 n2.
  assert (H2 : view_of n2 = w_heed t (view_of n)).
  { subst n2. rewrite view_contact. apply view_heed. }
  clearbody n2. split; [done|]. destruct (heed_log t (view_of n)) as [Hl Hc].
  rewrite <- H2 in Hl, Hc. done.
Qed.

(** ** Every input is an abstract step *)

Lemma step_tick now n : view_step ITick (view_of n) (view_of (tick now n)).
Proof.
  unfold tick. destruct (started_ n); cbn [negb].
  2: { rewrite view_election_timer. constructor. }
  destruct (bool_decide_reflect (role_ n = Leader)).
  - destruct (_ <=? _); [rewrite view_replicate_all|]; constructor.
  - destruct (_ <=? _); [|constructor]. cbn [andb].
    destruct (is_voter n (self_ n)) eqn:Hv; [|constructor].
    unfold start_pre_election. cbv zeta. set (n' := reset_election_timer _ _).
    assert (H : view_of n' = w_set_role PreCandidate {[ self_ n ]} (view_of n)).
    { subst n'. now rewrite view_election_timer. }
    clearbody n'. destruct (has_majority n' _).
    + rewrite view_candidate, H. apply (VCampaign _ (view_of n) (or_introl Hv)).
    + rewrite view_broadcast, H. by constructor.
Qed.

Lemma step_request_vote now a n :
  view_step (IRequestVote a) (view_of n) (view_of (on_request_vote now a n).2).
Proof.
  unfold on_request_vote. destruct (rv_pre_vote a) eqn:Hpre; [constructor|].
  set (n0 := if current_term n <? rv_term a then _ else _).
  assert (Hn0 : view_of n0 = if w_term (view_of n) <? rv_term a
    then w_follow (rv_term a) (view_of n) else view_of n).
  { subst n0. cbn. destruct (current_term n <? rv_term a); [apply view_follower|done]. }
  assert (Hle : rv_term a <= w_term (view_of n0)).
  { rewrite Hn0. cbn. destruct (Z.ltb_spec (current_term n) (rv_term a)); cbn; [|lia].
    destruct (Z.ltb_spec (current_term n) (rv_term a)); cbn; lia. }
  assert (Hstay : view_step (IRequestVote a) (view_of n) (view_of n0)).
  { rewrite Hn0. cbn. destruct (Z.ltb_spec (current_term n) (rv_term a)); by constructor. }
  clearbody n0. destruct (Z.ltb_spec (rv_term a) (current_term n0)); [done|].
  destruct (_ && _) eqn:Hcan; [|done]. cbn [snd]. rewrite view_election_timer.
  apply (VGrant a (view_of n) (view_of n0) Hpre Hn0); cbn in *; [lia|].
  apply andb_prop in Hcan as [Hcan _]. destruct (voted_for n0) as [c|]; [|by left].
  right. apply Z.eqb_eq in Hcan as ->. done.
Qed.

Lemma step_request_vote_reply now from r n :
  view_step (IRequestVoteReply from r) (view_of n) (view_of (on_request_vote_reply now from r n)).
Proof.
  unfold on_request_vote_reply. destruct (Z.ltb_spec (current_term n) (rvr_term r)).
  { rewrite view_follower. by constructor. }
  destruct (bool_decide_reflect (role_ n = PreCandidate)) as [Hr|_].
  - destruct (_ && _) eqn:Hc; [|constructor]. apply andb_prop in Hc as [_ Hv]. cbv zeta.
    destruct (has_majority _ _) eqn:Hm; [|by constructor].
    rewrite view_candidate.
    assert (w_campaign (view_of (set_votes ({[ from ]} ∪ votes_granted_ n) n))
            = w_campaign (view_of n)) as -> by done.
    constructor. by right.
  - destruct (bool_decide_reflect (role_ n = Candidate)) as [Hr|]; cbn [negb orb]; [|constructor].
    destruct (Z.eqb_spec (rvr_term r) (current_term n)); cbn [negb]; [|constructor].
    destruct (rvr_vote_granted r) eqn:Hg; cbn [andb]; [|constructor].
    destruct (is_voter n from) eqn:Hv; [|constructor]. cbv zeta.
    destruct (has_majority _ _) eqn:Hm.
    + rewrite view_leader. by apply (VWin from r (view_of n)).
    + by apply (VCount from r (view_of n)).
Qed.

Lemma step_append_entries now a n :
  view_step (IAppendEntries a) (view_of n) (view_of (on_append_entries now a n).2).
Proof.
  unfold on_append_entries. destruct (Z.ltb_spec (ae_term a) (current_term n)); [constructor|].
  cbv zeta. set (n2 := set_last_leader_contact _ _).
  assert (view_of n2 = w_heed (ae_term a) (view_of n) /\ log_ n2 = log_ n /\
    commit_index n2 = commit_index n) as (H2 & Hlog & Hcom) by apply heed_contact.
  clearbody n2.
  assert (Hstay : view_step (IAppendEntries a) (view_of n) (view_of n2)).
  { rewrite H2. by apply VHeed. }
  destruct (_ <? ae_prev_log_index a); [done|].
  destruct (term_at _ _) as [pt|]; [|done]. destruct (pt =? _); [|done]. cbn [negb].
  destruct (append_entries_from (ae_entries a) (log_ n2)) as [ok l] eqn:Hap.
  assert (Hl : l = (append_entries_from (ae_entries a) (w_log (view_of n))).2)
    by (cbn; rewrite <- Hlog, Hap; done).
  assert (Hset : forall c, view_of (set_log l n2) = w_set_log l (commit_index n2) (view_of n2) /\
    view_of (set_volatile (set_commit_index c (volatile_ n2)) (set_log l n2))
    = w_set_log l c (view_of n2)) by done.
  destruct ok; cbn [negb].
  - cbn [snd]. destruct (Z.ltb_spec (commit_index (set_log l n2)) (ae_leader_commit a)) as [Hc|].
    + rewrite (proj2 (Hset _)), H2. apply VAppend; auto. right. split; [|done].
      change (commit_index n < ae_leader_commit a). rewrite <- Hcom. exact Hc.
    + rewrite (proj1 (Hset 0)), H2, Hcom. apply VAppend; auto.
  - cbn [snd]. rewrite (proj1 (Hset 0)), H2, Hcom. apply VAppend; auto.
Qed.

Lemma step_install_snapshot now a n :
  view_step (IInstallSnapshot a) (view_of n) (view_of (on_install_snapshot now a n).2).
Proof.
  unfold on_install_snapshot. destruct (Z.ltb_spec (is_term a) (current_term n)); [constructor|].
  cbv zeta. set (n2 := set_last_leader_contact _ _).
  assert (view_of n2 = w_heed (is_term a) (view_of n) /\ log_ n2 = log_ n /\
    commit_index n2 = commit_index n) as (H2 & Hlog & Hcom) by apply heed_contact.
  clearbody n2.
  destruct (install_snapshot _ _ _ (log_ n2)) as [ok l] eqn:Hin.
  assert (Hl : l = (install_snapshot (last_included_index (is_snapshot a))
    (last_included_term (is_snapshot a)) (last_included_offset (is_snapshot a)) (w_log (view_of n))).2)
    by (cbn; rewrite <- Hlog, Hin; done).
  assert (Hset : forall c, view_of (set_log l n2) = w_set_log l (commit_index n2) (view_of n2) /\
    view_of (set_volatile (set_commit_index c (volatile_ n2)) (set_log l n2))
    = w_set_log l c (view_of n2)) by done.
  destruct (is_ok ok); cbn [negb snd].
  - destruct (Z.ltb_spec (commit_index (set_log l n2)) (last_included_index (is_snapshot a))) as [Hc|].
    + rewrite (proj2 (Hset _)), H2. apply VInstall; auto. right. split; [|done].
      change (commit_index n < last_included_index (is_snapshot a)). rewrite <- Hcom. exact Hc.
    + rewrite (proj1 (Hset 0)), H2, Hcom. apply VInstall; auto.
  - rewrite (proj1 (Hset 0)), H2, Hcom. apply VInstall; auto.
Qed.

(** The three ways a leader's commit index moves. *)
Lemma step_leader_commit i n :
  role_ n = Leader -> view_step i (view_of n) (view_of (advance_commit_index n)).
Proof.
  intros Hr. destruct (view_advance_commit n) as (c & -> & [->|[Hc Ht]]).
  - change (w_set_log (log_ n) (commit_index n) (view_of n)) with (view_of n). constructor.
  - by apply (VCommit i (view_of n)).
Qed.

Lemma step_append_entries_reply now from r n :
  view_step (IAppendEntriesReply from r) (view_of n) (view_of (on_append_entries_reply now from r n)).
Proof.
  unfold on_append_entries_reply. destruct (Z.ltb_spec (current_term n) (aer_term r)).
  { rewrite view_follower. by constructor. }
  destruct (bool_decide_reflect (role_ n = Leader)) as [Hr|]; cbn [negb orb]; [|constructor].
  destruct (negb _); [constructor|]. destruct (aer_success r).
  - rewrite view_transfer, <- (view_note_match from n). by apply step_leader_commit.
  - cbv zeta. rewrite view_replicate_to. constructor.
Qed.

Lemma step_install_snapshot_reply now from r n :
  view_step (IInstallSnapshotReply from r) (view_of n)
    (view_of (on_install_snapshot_reply now from r n)).
Proof.
  unfold on_install_snapshot_reply. destruct (Z.ltb_spec (current_term n) (isr_term r)).
  { rewrite view_follower. by constructor. }
  destruct (bool_decide_reflect (role_ n = Leader)) as [Hr|]; cbn [negb orb]; [|constructor].
  destruct (negb _); [constructor|].
  rewrite view_replicate_to, <- (view_note_match from n). by apply step_leader_commit.
Qed.

Lemma step_propose b n : view_step (IPropose b) (view_of n) (view_of (propose b n).2).
Proof.
  unfold propose. destruct (bool_decide_reflect (role_ n = Leader)) as [Hr|]; [|constructor].
  cbn [negb]. cbv zeta. destruct (log_append _ (log_ n)) as [res l] eqn:Hap.
  apply (f_equal snd) in Hap. cbn [snd] in Hap.
  destruct res as [idx|err]; cbn [snd].
  - set (m := replicate_all (set_log l n)).
    assert (Hm : view_of m = w_set_log l (commit_index n) (view_of n)).
    { subst m. now rewrite view_replicate_all. }
    clearbody m. destruct (view_advance_commit m) as (c & -> & Hc). rewrite Hm.
    change (log_ m) with (w_log (view_of m)) in *. change (commit_index m) with (w_commit (view_of m)) in *.
    change (current_term m) with (w_term (view_of m)) in *. rewrite Hm in Hc |- *. cbn in Hc |- *.
    by eapply (VPropose b (view_of n)).
  - by eapply (VPropose b (view_of n) _ l (commit_index n)); auto.
Qed.

Lemma step_timeout_now now a n :
  view_step (ITimeoutNow a) (view_of n) (view_of (on_timeout_now now a n)).
Proof.
  unfold on_timeout_now. destruct (_ <? current_term n); [constructor|]. cbn [orb].
  destruct (is_voter n (self_ n)) eqn:Hv; cbn [negb]; [|constructor].
  rewrite view_candidate. destruct (Z.ltb_spec (current_term n) (tn_term a)).
  - rewrite view_follower. by apply (VCampaignAt _ _ (view_of n)).
  - apply VCampaign. by left.
Qed.

Lemma step_transfer t n : view_step (ITransfer t) (view_of n) (view_of (transfer_leadership t n).2).
Proof.
  unfold transfer_leadership. repeat (destruct (negb _); [constructor|]).
  cbn [snd]. rewrite view_transfer. constructor.
Qed.

Lemma step_clear n : view_step IClearDirty (view_of n) (view_of (clear_persistent_dirty n)).
Proof. apply (VClean (view_of n)). Qed.

Lemma node_step_view now i n : view_step i (view_of n) (view_of (node_step now i n)).
Proof.
  destruct i; cbn [node_step];
    auto using step_tick, step_request_vote, step_request_vote_reply, step_append_entries,
      step_append_entries_reply, step_timeout_now, step_install_snapshot,
      step_install_snapshot_reply, step_propose, step_transfer, step_clear; constructor.
Qed.

(** ** Executions *)

(** A timed sequence of inputs. *)
Definition run (trace : list (Z * RaftInput)) (n : RaftNode L) : RaftNode L :=
  foldl (fun n ti => node_step ti.1 ti.2 n) n trace.

Lemma run_preserves (R : view -> view -> Prop) :
  (forall w, R w w) -> (forall a b c, R a b -> R b c -> R a c) ->
  (forall i w w', view_step i w w' -> R w w') ->
  forall trace n, R (view_of n) (view_of (run trace n)).
Proof.
  intros Hrefl Htrans Hstep trace. induction trace as [|[now i] trace IH]; intros n; cbn; [done|].
  eapply Htrans; [|apply IH]. eapply Hstep, node_step_view.
Qed.

Lemma run_invariant (I : view -> Prop) :
  (forall i w w', view_step i w w' -> I w -> I w') ->
  forall trace n, I (view_of n) -> I (view_of (run trace n)).
Proof.
  intros Hstep. apply (run_preserves (fun w w' => I w -> I w')); naive_solver.
Qed.

(** *** Terms and votes *)

Definition vote_order (w w' : view) : Prop :=
  w_term w <= w_term w' /\
  (w_term w' = w_term w -> forall c, w_voted w = Some c -> w_voted w' = Some c).

Lemma follow_term t w : w_term (w_follow t w) = Z.max t (w_term w).
Proof. unfold w_follow. destruct (Z.ltb_spec (w_term w) t); cbn; lia. Qed.

Lemma follow_voted t w :
  w_voted (w_follow t w) = if w_term w <? t then None else w_voted w.
Proof. unfold w_follow. now destruct (w_term w <? t). Qed.

Lemma heed_vote t w : w_term w <= t ->
  w_term (w_heed t w) = t /\ w_voted (w_heed t w) = if w_term w <? t then None else w_voted w.
Proof.
  intros. unfold w_heed. destruct (Z.ltb_spec (w_term w) t) as [Hlt|]; cbn [orb].
  - rewrite follow_term, follow_voted. rewrite (proj2 (Z.ltb_lt _ _)) by done. split; [lia|done].
  - destruct (negb _).
    + rewrite follow_term, follow_voted. rewrite (proj2 (Z.ltb_ge _ _)) by done. split; [lia|done].
    + split; [lia|done].
Qed.

Lemma campaign_vote w :
  w_term (w_campaign w) = w_term w + 1 /\ w_voted (w_campaign w) = Some (w_self w).
Proof. unfold w_campaign. now destruct (w_majority w 1). Qed.

Lemma view_step_vote i w w' : view_step i w w' -> vote_order w w'.
Proof.
  unfold vote_order. destruct 1 as [| | | | | |a w w0 Hp -> Ht Hv| | | |i t w Ht|a w l c Ht _ _|a w l c Ht _ _| |];
    try (cbn; split; [lia|done]).
  - rewrite follow_term, follow_voted. rewrite (proj2 (Z.ltb_lt _ _)) by done. split; lia.
  - destruct (campaign_vote w) as [-> ->]. split; lia.
  - destruct (campaign_vote (w_follow t w)) as [-> ->]. rewrite follow_term. split; lia.
  - cbn. destruct (Z.ltb_spec (w_term w) (rv_term a)).
    + rewrite follow_term. split; lia.
    + split; [lia|]. intros _ c Hc. destruct Hv; congruence.
  - destruct (heed_vote t w Ht) as [-> ->]. split; [lia|]. intros ->.
    now rewrite Z.ltb_irrefl.
  - cbn. destruct (heed_vote (ae_term a) w Ht) as [-> ->]. split; [lia|]. intros ->.
    now rewrite Z.ltb_irrefl.
  - cbn. destruct (heed_vote (is_term a) w Ht) as [-> ->]. split; [lia|]. intros ->.
    now rewrite Z.ltb_irrefl.
Qed.

(** C7. Over any execution a replica's term never goes back, and within a term a vote, once cast,
    is never changed or withdrawn. *)
Theorem raft_term_and_vote_monotone (trace : list (Z * RaftInput)) (n : RaftNode L) :
  current_term n <= current_term (run trace n) /\
  forall (Hterm : current_term (run trace n) = current_term n) (c : Z)
    (Hvote : voted_for n = Some c), voted_for (run trace n) = Some c.
Proof.
  apply (run_preserves vote_order); unfold vote_order.
  - naive_solver lia.
  - intros a b c [H1 H2] [H3 H4]. split; [lia|]. intros He x Hx.
    apply H4; [lia|]. apply H2; [lia|done].
  - intros. by eapply view_step_vote.
Qed.

(** *** The durability flag *)

(** A step that leaves the flag down has changed neither the term nor the vote. *)
Lemma view_step_dirty i w w' :
  view_step i w w' -> i <> IClearDirty -> w_dirty w' = false ->
  w_dirty w = false /\ w_term w' = w_term w /\ w_voted w' = w_voted w.
Proof.
  assert (Hfollow : forall t w, w_dirty (w_follow t w) = false ->
    w_dirty w = false /\ w_term (w_follow t w) = w_term w /\ w_voted (w_follow t w) = w_voted w).
  { intros t x. unfold w_follow. by destruct (w_term x <? t). }
  assert (Hheed : forall t w, w_dirty (w_heed t w) = false ->
    w_dirty w = false /\ w_term (w_heed t w) = w_term w /\ w_voted (w_heed t w) = w_voted w).
  { intros t x. unfold w_heed. destruct (_ || _); [apply Hfollow|done]. }
  destruct 1; intros Hi Hd; try done; auto.
  - unfold w_campaign in Hd. by destruct (w_majority w 1).
  - unfold w_campaign in Hd. by destruct (w_majority (w_follow t w) 1).
  - by apply Hheed.
  - by apply Hheed.
Qed.

Lemma node_step_clean now i n :
  i <> IClearDirty -> persistent_dirty_ (node_step now i n) = false ->
  persistent_dirty_ n = false /\ persistent_ (node_step now i n) = persistent_ n.
Proof.
  intros Hi Hd. destruct (view_step_dirty i _ _ (node_step_view now i n) Hi Hd) as (H1 & H2 & H3).
  split; [done|]. cbn in H2, H3. unfold current_term, voted_for in *.
  destruct (persistent_ n), (persistent_ (node_step now i n)). cbn in *. congruence.
Qed.

(** *** Leadership *)

Definition leader_inv (w : view) : Prop :=
  (w_role w <> Follower -> w_voter w (w_self w) = true) /\
  (w_role w = Candidate \/ w_role w = Leader -> w_voted w = Some (w_self w)) /\
  (forall x, x ∈ w_votes w -> w_voter w x = true) /\
  (w_role w = Leader -> w_majority w (size (w_votes w)) = true).

Lemma follow_inv t w : leader_inv (w_follow t w).
Proof.
  unfold leader_inv, w_follow. destruct (w_term w <? t); cbn; split_and!; try done;
    try (intros [|]; done); set_solver.
Qed.

Lemma campaign_inv w : w_voter w (w_self w) = true -> leader_inv (w_campaign w).
Proof.
  intros Hv. unfold leader_inv, w_campaign. destruct (w_majority w 1) eqn:Hm; cbn; split_and!;
    try done; try (intros x ->%elem_of_singleton; exact Hv); intros _; rewrite size_singleton; exact Hm.
Qed.

Lemma view_step_leader i w w' : view_step i w w' -> leader_inv w -> leader_inv w'.
Proof.
  intros Hstep Hinv. assert (Hheed : forall t, leader_inv (w_heed t w)).
  { intros t. unfold w_heed. destruct (_ || _); [apply follow_inv|done]. }
  assert (Hset : forall l c w, leader_inv w -> leader_inv (w_set_log l c w)) by done.
  destruct Hstep as [|w|i t w Ht|w Hr Hv|i w Hv|i t w Hv Ht|a w w0 Hp -> Ht Hv|from r w Hr Hv
    |from r w Hr Ht Hg Hv|from r w Hr Ht Hg Hv Hm|i t w Ht|a w l c Ht Hl Hc|a w l c Ht Hl Hc
    |b w e l c Hr He Hl Hc|i w c Hr Hc Ht]; auto using follow_inv.
  - unfold leader_inv. cbn. split_and!; try done; [by intros [|]|].
    by intros x ->%elem_of_singleton.
  - apply campaign_inv. destruct Hv as [|Hr]; [done|]. apply (proj1 Hinv). congruence.
  - apply campaign_inv. unfold w_follow. by destruct (_ <? _).
  - destruct (Z.ltb_spec (w_term w) (rv_term a)).
    + destruct (follow_inv (rv_term a) w) as (_ & _ & H3 & _).
      assert (Hf : w_role (w_follow (rv_term a) w) = Follower) by (unfold w_follow; by destruct (_ <? _)).
      unfold leader_inv, w_set_vote. cbn -[w_follow]. rewrite Hf.
      split_and!; [done|by intros [|]|exact H3|done].
    + destruct Hinv as (H1 & H2 & H3 & H4). unfold leader_inv. cbn. split_and!; auto.
      intros Hr. specialize (H2 Hr). destruct Hv; congruence.
  - destruct Hinv as (H1 & H2 & H3 & H4). unfold leader_inv, w_count. cbn. split_and!; auto.
    + intros x [->%elem_of_singleton|]%elem_of_union; [done|]. by apply H3.
    + rewrite Hr. done.
  - destruct Hinv as (H1 & H2 & H3 & H4). unfold leader_inv, w_count. cbn. split_and!; auto.
    + intros x [->%elem_of_singleton|]%elem_of_union; [done|]. by apply H3.
    + rewrite Hr. done.
  - destruct Hinv as (H1 & H2 & H3 & H4). unfold leader_inv. cbn. rewrite Hr in *.
    split_and!; auto. intros x [->%elem_of_singleton|]%elem_of_union; [done|]. by apply H3.
Qed.

(** A replica that is leader, at any point of any execution from its construction, is a voting
    member, has voted for itself in its term, and holds votes of voting members only, a majority
    of them. *)
Theorem leader_holds_majority (self : Z) (peers learners : list Z) (log : L) (config : RaftConfig)
    (trace : list (Z * RaftInput)) :
  let n := run trace (new_node self peers log config learners) in
  forall (Hleader : role_ n = Leader),
  is_voter n (self_ n) = true /\ voted_for n = Some (self_ n) /\
  (forall x, x ∈ votes_granted_ n -> is_voter n x = true) /\
  has_majority n (size (votes_granted_ n)) = true.
Proof.
  intros n Hr. assert (Hinv : leader_inv (view_of n)).
  { apply run_invariant; [apply view_step_leader|]. unfold leader_inv. cbn.
    split_and!; try done; by intros [|]. }
  clearbody n. destruct Hinv as (H1 & H2 & H3 & H4). cbn in *. rewrite Hr in *.
  split_and!; auto.
Qed.

(** *** Leader append-only and the commit index *)

Context `{!RaftLogLaws L}.

Lemma heed_follower t w : w_role (w_heed t w) = Follower.
Proof.
  unfold w_heed. destruct (w_term w <? t); cbn [orb].
  - unfold w_follow. now destruct (_ <? _).
  - destruct (bool_decide_reflect (w_role w = Follower)); cbn [negb]; [done|].
    unfold w_follow. now destruct (_ <? _).
Qed.

(** [l'] has every entry of [l], at its place. *)
Definition log_extends (l l' : L) : Prop :=
  snapshot_index l' = snapshot_index l /\ snapshot_term l' = snapshot_term l /\
  exists more, log_terms l' = log_terms l ++ more.

#[local] Instance log_extends_preorder : PreOrder log_extends.
Proof.
  split.
  - intros l. split_and!; try done. exists []. by rewrite app_nil_r.
  - intros a b c (H1 & H2 & x & Hx) (H3 & H4 & y & Hy). split_and!; try congruence.
    exists (x ++ y). by rewrite Hy, Hx, app_assoc.
Qed.

Lemma append_extends es l : log_extends l (log_append es l).2.
Proof.
  destruct (append_base es l), (append_terms es l) as (k & _ & Hk & _). split_and!; try done.
  by eexists.
Qed.

Lemma view_step_leader_log i w w' :
  view_step i w w' -> w_role w = Leader -> w_role w' = Leader -> w_term w' = w_term w ->
  log_extends (w_log w) (w_log w').
Proof.
  destruct 1 as [| | | |i w Hv|i t w Hv Ht|a w w0 _ -> _ _| | | |i t w|a w l c Ht Hl Hc|a w l c Ht Hl Hc
    |b w e l c Hr He Hl Hc|i w c Hr Hc Ht]; intros Hl1 Hl2 Hte; try done.
  - destruct (campaign_vote w). lia.
  - destruct (campaign_vote (w_follow t w)). rewrite follow_term in *. lia.
  - cbn. destruct (_ <? _); [|done]. unfold w_follow. by destruct (_ <? _).
  - by rewrite (proj1 (heed_log t w)).
  - cbn in Hl2. by rewrite heed_follower in Hl2.
  - cbn in Hl2. by rewrite heed_follower in Hl2.
  - cbn. rewrite Hl. apply append_extends.
Qed.

(** C8. Leader append-only: whatever it receives, a replica that is leader before and after an input
    in the same term has only added entries to its log. *)
Theorem leader_append_only (now : Z) (i : RaftInput) (n : RaftNode L)
    (Hbefore : role_ n = Leader) (Hafter : role_ (node_step now i n) = Leader)
    (Hterm : current_term (node_step now i n) = current_term n) :
  log_extends (log_ n) (log_ (node_step now i n)).
Proof. exact (view_step_leader_log i _ _ (node_step_view now i n) Hbefore Hafter Hterm). Qed.

Lemma view_step_commit i w w' :
  view_step i w w' ->
  Z.min (w_commit w) (last_index (w_log w')) <= w_commit w' /\
  ((forall a, i <> IAppendEntries a) -> w_commit w <= w_commit w').
Proof.
  destruct 1 as [| | | | | |a w w0 _ -> _ _| | | |i t w|a w l c Ht Hl Hc|a w l c Ht Hl Hc
    |b w e l c Hr He Hl Hc|i w c Hr Hc Ht]; try (cbn; split; lia).
  - unfold w_follow. destruct (_ <? _); cbn; split; lia.
  - unfold w_campaign. destruct (w_majority w 1); cbn; split; lia.
  - unfold w_campaign, w_follow. destruct (_ <? _), (w_majority _ 1); cbn; split; lia.
  - destruct (_ <? _); [unfold w_follow; destruct (_ <? _)|]; cbn; split; lia.
  - rewrite (proj1 (heed_log t w)), (proj2 (heed_log t w)). split; lia.
  - cbn. split; [lia|]. intros H. by destruct (H a).
Qed.

(** The commit index never moves back, except that an [AppendEntries] may lower it to the last
    index the log still has (which takes a leader that overwrites committed entries). *)
Theorem commit_index_monotone (now : Z) (i : RaftInput) (n : RaftNode L) :
  Z.min (commit_index n) (last_index (log_ (node_step now i n))) <= commit_index (node_step now i n) /\
  ((forall a, i <> IAppendEntries a) -> commit_index n <= commit_index (node_step now i n)).
Proof. exact (view_step_commit i _ _ (node_step_view now i n)). Qed.

(** A leader's commit index only reaches entries of its own term: the ones of earlier terms are
    committed by the ones that follow them. *)
Lemma view_step_commit_term i w w' :
  view_step i w w' -> w_role w = Leader -> w_role w' = Leader -> w_term w' = w_term w ->
  w_commit w < w_commit w' -> term_at (w_log w') (w_commit w') = Ok (w_term w).
Proof.
  destruct 1 as [| | | |i w Hv|i t w Hv Ht|a w w0 _ -> _ _| | | |i t w|a w l c Ht Hl Hc|a w l c Ht Hl Hc
    |b w e l c Hr He Hl Hc|i w c Hr Hc Ht]; intros Hl1 Hl2 Hte Hlt; try done; try (cbn in *; lia).
  - destruct (campaign_vote w). lia.
  - destruct (campaign_vote (w_follow t w)). rewrite follow_term in *. lia.
  - destruct (_ <? _); [unfold w_follow in Hlt; destruct (_ <? _)|]; cbn in Hlt; lia.
  - by rewrite heed_follower in Hl2.
  - cbn in Hl2. by rewrite heed_follower in Hl2.
  - cbn in Hl2. by rewrite heed_follower in Hl2.
  - cbn. destruct Hc as [->|[_ Hc]]; [cbn in Hlt; lia|done].
Qed.

End Safety.

(** ** Concrete executions *)

(** A voting member of three, from its construction. *)
Definition fresh_replica : RaftNode AbsLog := new_node 1 [2; 3] al_empty default_config [].

(** Its clock runs out, it probes, it campaigns and wins with the vote of a peer. *)
Definition winning_trace : list (Z * RaftInput) :=
  [(0, ITick); (ms 1000, ITick); (ms 1500, ITick);
   (ms 1501, IRequestVoteReply 2 (MkRequestVoteReply 0 true));
   (ms 1502, IRequestVoteReply 3 (MkRequestVoteReply 1 true))].

(** It votes for a peer of term 4, then hears of a candidate of term 4 it must refuse. *)
Definition voting_trace : list (Z * RaftInput) :=
  [(ms 1, IRequestVote (MkRequestVote 4 3 0 0 false));
   (ms 2, IRequestVote (MkRequestVote 4 2 9 9 false))].

Lemma raft_term_and_vote_monotone_witness :
  voted_for (run (drop 1 voting_trace) (run (take 1 voting_trace) fresh_replica)) = Some 3.
Proof.
  assert (Ht : current_term (run (drop 1 voting_trace) (run (take 1 voting_trace) fresh_replica))
    = current_term (run (take 1 voting_trace) fresh_replica)) by (vm_compute; reflexivity).
  assert (Hv : voted_for (run (take 1 voting_trace) fresh_replica) = Some 3) by (vm_compute; reflexivity).
  exact (proj2 (raft_term_and_vote_monotone (drop 1 voting_trace) (run (take 1 voting_trace) fresh_replica))
    Ht 3 Hv).
Defined.

Lemma leader_holds_majority_witness :
  let n := run winning_trace fresh_replica in
  role_ n = Leader /\ has_majority n (size (votes_granted_ n)) = true.
Proof.
  assert (Hl : role_ (run winning_trace fresh_replica) = Leader) by (vm_compute; reflexivity).
  split; [exact Hl|].
  destruct (leader_holds_majority 1 [2; 3] [] al_empty default_config winning_trace Hl) as (_ & _ & _ & H).
  exact H.
Defined.

Lemma leader_append_only_witness :
  log_extends (log_ (run winning_trace fresh_replica))
    (log_ (node_step (ms 1503) (IPropose sample_batch) (run winning_trace fresh_replica))).
Proof.
  assert (H1 : role_ (run winning_trace fresh_replica) = Leader) by (vm_compute; reflexivity).
  assert (H2 : role_ (node_step (ms 1503) (IPropose sample_batch) (run winning_trace fresh_replica)) = Leader)
    by (vm_compute; reflexivity).
  assert (H3 : current_term (node_step (ms 1503) (IPropose sample_batch) (run winning_trace fresh_replica))
    = current_term (run winning_trace fresh_replica)) by (vm_compute; reflexivity).
  exact (leader_append_only (ms 1503) (IPropose sample_batch) (run winning_trace fresh_replica) H1 H2 H3).
Defined.

Lemma commit_index_monotone_witness :
  commit_index (run winning_trace fresh_replica)
  <= commit_index (node_step (ms 1503) (IPropose sample_batch) (run winning_trace fresh_replica)).
Proof.
  apply (commit_index_monotone (ms 1503) (IPropose sample_batch) (run winning_trace fresh_replica)).
  intros a H. discriminate H.
Defined.
