(* ===== verification/RaftCommit.v ===== *)
(** * Replication and commitment

    The two halves of log replication in [src/src/consensus/raft_node.cpp]: the leader's commit
    rule ([advance_commit_index]) against the counting definition of a majority, and the
    follower's handling of [AppendEntries] against the log-matching property. *)
From stdpp Require Import base list gmap sets strings sorting.
From Stdlib Require Import ZArith Lia.
From S2P Require Import Prelude Record RaftState RaftLogSpec RaftNode RaftSafety.
#[local] Open Scope Z_scope.

(** ** The majority index *)

(** How many of the members have replicated up to [i]. *)
Definition replicated_on (i : Z) (matches : list Z) : nat := length (filter (fun m => i <= m) matches).

#[local] Instance Zge_trans : Transitive Z.ge.
Proof. intros x y z. lia. Qed.
#[local] Instance Zge_total : Total Z.ge.
Proof. intros x y. lia. Qed.

Lemma replicated_on_sort i ms : replicated_on i (merge_sort Z.ge ms) = replicated_on i ms.
Proof. unfold replicated_on. now rewrite (merge_sort_Permutation Z.ge ms). Qed.

Lemma replicated_on_app i a b : replicated_on i (a ++ b) = (replicated_on i a + replicated_on i b)%nat.
Proof. unfold replicated_on. now rewrite filter_app, length_app. Qed.

Lemma replicated_on_all i l : (forall x, x ∈ l -> i <= x) -> replicated_on i l = length l.
Proof.
  unfold replicated_on. induction l as [|x l IH]; intros H; [done|].
  rewrite filter_cons_True by (apply H; set_solver). cbn. rewrite IH; [done|]. set_solver.
Qed.

Lemma replicated_on_none i l : (forall x, x ∈ l -> x < i) -> replicated_on i l = 0%nat.
Proof.
  unfold replicated_on. induction l as [|x l IH]; intros H; [done|].
  rewrite filter_cons_False by (specialize (H x ltac:(set_solver)); lia). apply IH. set_solver.
Qed.

Lemma replicated_on_le i l : (replicated_on i l <= length l)%nat.
Proof. apply length_filter. Qed.

(** In a descending list, what precedes position [k] is at least as large, what follows at most. *)
Lemma sorted_split (l : list Z) k x :
  StronglySorted Z.ge l -> l !! k = Some x ->
  (forall y, y ∈ take k l -> x <= y) /\ (forall y, y ∈ drop (S k) l -> y <= x).
Proof.
  intros Hs Hk. revert l Hs Hk. induction k as [|k IH]; intros [|z l] Hs Hk; try done;
    apply StronglySorted_inv in Hs as [Hs Hz]; cbn in Hk |- *.
  - simplify_eq. split; [set_solver|]. intros y Hy. rewrite drop_0 in Hy.
    rewrite Forall_forall in Hz. specialize (Hz y Hy). lia.
  - destruct (IH l Hs Hk) as [H1 H2]. split; [|done].
    intros y [->|Hy]%elem_of_cons; [|auto].
    rewrite Forall_forall in Hz. apply list_elem_of_lookup_2 in Hk. specialize (Hz x Hk). lia.
Qed.

(** [quorum_index] is the largest index a majority has replicated. *)
Lemma quorum_index_spec ms c :
  quorum_index ms = Some c ->
  (length ms < replicated_on c ms * 2)%nat /\
  forall i, c < i -> (replicated_on i ms * 2 <= length ms)%nat.
Proof.
  unfold quorum_index. intros Hc.
  pose proof (StronglySorted_merge_sort Z.ge ms) as Hs.
  destruct (sorted_split _ _ _ Hs Hc) as [Hbefore Hafter].
  pose proof (Permutation_length (merge_sort_Permutation Z.ge ms)) as Hlen.
  setoid_rewrite <- replicated_on_sort. rewrite <- Hlen in *.
  revert Hc Hbefore Hafter. generalize (merge_sort Z.ge ms). intros l Hc Hbefore Hafter. clear Hs Hlen.
  set (k := (length l / 2)%nat) in *.
  assert (Hk : (k * 2 <= length l < k * 2 + 2)%nat).
  { pose proof (Nat.div_mod_eq (length l) 2). pose proof (Nat.mod_upper_bound (length l) 2).
    subst k. lia. }
  clearbody k. pose proof (lookup_lt_Some _ _ _ Hc) as Hlt.
  assert (Hsplit : forall i, replicated_on i l
    = (replicated_on i (take k l) + replicated_on i (c :: drop (S k) l))%nat).
  { intros i. rewrite <- replicated_on_app. now rewrite take_drop_middle. }
  split.
  - rewrite Hsplit, (replicated_on_all c (take k l)) by done.
    rewrite length_take_le by lia. unfold replicated_on. rewrite filter_cons_True by lia. cbn. lia.
  - intros i Hi. rewrite Hsplit.
    rewrite (replicated_on_none i (c :: _))
      by (intros y [->|Hy]%elem_of_cons; [lia|]; specialize (Hafter y Hy); lia).
    pose proof (replicated_on_le i (take k l)) as Hle. rewrite length_take_le in Hle by lia. lia.
Qed.

Lemma quorum_index_some ms : ms <> [] -> is_Some (quorum_index ms).
Proof.
  intros H. unfold quorum_index. apply lookup_lt_is_Some.
  rewrite (Permutation_length (merge_sort_Permutation Z.ge ms)).
  apply Nat.div_lt; [|lia]. destruct ms; cbn; [done|lia].
Qed.

Section Commit.
Context {L : Type} `{!RaftLogOps L}.

Lemma foldl_count {A} (f : A -> bool) l k :
  foldl (fun c x => (c + if f x then 1 else 0)%nat) k l = (k + length (filter (fun x => f x = true) l))%nat.
Proof.
  revert k. induction l as [|x l IH]; intros k; cbn [foldl]; [cbn; lia|]. rewrite IH, filter_cons.
  destruct (decide (f x = true)) as [->|Hf]; [cbn; lia|]. destruct (f x); [done|lia].
Qed.

Lemma length_voter_matches (n : RaftNode L) : length (voter_matches n) = cluster_size n.
Proof.
  unfold voter_matches, cluster_size. rewrite length_app, length_fmap, foldl_count.
  now destruct (is_voter n (self_ n)).
Qed.

(** C6. The leader's commit rule.  The new commit index is either the old one, or a larger index
    whose entry is of the current term and which a majority of the voting members has
    replicated; no index above the chosen one is on a majority, and the rule does move when the
    largest majority index is of the current term. *)
Theorem advance_commit_is_majority_rule (n : RaftNode L) (Hvoter : is_voter n (self_ n) = true) :
  let n' := advance_commit_index n in
  (commit_index n < commit_index n' ->
     has_majority n (replicated_on (commit_index n') (voter_matches n)) = true /\
     term_at (log_ n) (commit_index n') = Ok (current_term n)) /\
  (commit_index n' = commit_index n \/ commit_index n < commit_index n') /\
  exists top, quorum_index (voter_matches n) = Some top /\
    (forall i, top < i -> has_majority n (replicated_on i (voter_matches n)) = false) /\
    (commit_index n < top -> term_at (log_ n) top = Ok (current_term n) -> commit_index n' = top).
Proof.
  cbv zeta. destruct (quorum_index_some (voter_matches n)) as [top Htop].
  { unfold voter_matches. rewrite Hvoter. done. }
  destruct (quorum_index_spec _ _ Htop) as [Hmaj Hmax]. rewrite length_voter_matches in Hmaj, Hmax.
  unfold advance_commit_index. rewrite Htop. unfold has_majority. split_and!.
  - destruct (Z.leb_spec top (commit_index n)); [lia|].
    destruct (term_at (log_ n) top) as [t|] eqn:Ht; [|lia].
    destruct (Z.eqb_spec t (current_term n)); [|lia]. subst t. intros _. split; [|done].
    apply Nat.ltb_lt. exact Hmaj.
  - destruct (Z.leb_spec top (commit_index n)); [by left|].
    destruct (term_at (log_ n) top) as [t|]; [|by left].
    destruct (t =? current_term n); [by right|by left].
  - exists top. split_and!; [done| |].
    + intros i Hi. apply Nat.ltb_ge, Hmax. done.
    + intros Hlt ->. destruct (Z.leb_spec top (commit_index n)); [lia|]. now rewrite Z.eqb_refl.
Qed.

End Commit.

(** ** Log matching *)

Section Matching.
Context {L : Type} `{!RaftLogOps L, !RaftLogLaws L}.

(** A live index holds the term at its slot. *)
Lemma term_at_slot (l : L) i t :
  0 <= snapshot_index l -> snapshot_index l < i ->
  term_at l i = Ok t <-> log_terms l !! Z.to_nat (i - snapshot_index l - 1) = Some t.
Proof.
  intros Hs Hi. split; [|apply term_at_live; lia]. intros Ht.
  destruct (log_terms l !! _) as [t'|] eqn:Hl.
  - rewrite (term_at_live l i t') in Ht by (auto; lia). congruence.
  - apply lookup_ge_None in Hl. assert (Hb : is_ok (term_at l i) = false).
    { apply term_at_beyond; [lia|done|]. rewrite last_index_terms. lia. }
    by rewrite Ht in Hb.
Qed.

Lemma term_at_bound (l : L) i t :
  0 <= snapshot_index l -> 0 < i -> term_at l i = Ok t -> snapshot_index l <= i <= last_index l.
Proof.
  intros Hs Hi Ht. rewrite last_index_terms. destruct (Z_lt_le_dec i (snapshot_index l)).
  - assert (Hb : is_ok (term_at l i) = false) by (apply term_at_compacted; lia).
    by rewrite Ht in Hb.
  - destruct (Z.eq_dec i (snapshot_index l)); [lia|].
    apply term_at_slot in Ht; [|lia..]. apply lookup_lt_Some in Ht. lia.
Qed.

(** Two logs on the same base agree below the point up to which their terms agree. *)
Lemma term_at_agree (l l' : L) i t :
  0 <= snapshot_index l -> 0 <= i ->
  snapshot_index l' = snapshot_index l -> snapshot_term l' = snapshot_term l ->
  (forall k x, (Z.of_nat k <= i - snapshot_index l - 1) ->
     log_terms l !! k = Some x -> log_terms l' !! k = Some x) ->
  term_at l i = Ok t -> term_at l' i = Ok t.
Proof.
  intros Hs Hi Hsi Hst Hag Ht.
  destruct (Z.eq_dec i 0) as [->|Hi0]; [rewrite term_at_zero in *; done|].
  pose proof (term_at_bound l i t Hs ltac:(lia) Ht) as [Hlo _].
  destruct (Z.eq_dec i (snapshot_index l)) as [->|].
  - rewrite (term_at_base l) in Ht by done. rewrite <- Hsi in *. rewrite (term_at_base l') by done. congruence.
  - apply term_at_slot; [lia..|]. rewrite Hsi. apply Hag; [lia|]. by apply term_at_slot; [lia..|].
Qed.

(** The entries of an [AppendEntries] are consecutive from [i] on. *)
Fixpoint consecutive (i : Z) (es : list RaftLogEntry) : Prop :=
  match es with [] => True | e :: es' => e_index e = i /\ consecutive (i + 1) es' end.

Lemma consecutive_lookup i es k e :
  consecutive i es -> es !! k = Some e -> e_index e = i + Z.of_nat k.
Proof.
  revert i k. induction es as [|x es IH]; intros i [|k] Hc Hk; try done; destruct Hc as [Hx Hc]; cbn in Hk.
  - simplify_eq. lia.
  - rewrite (IH (i + 1) k) by done. lia.
Qed.

Lemma consecutive_app i a b : consecutive i (a ++ b) -> consecutive (i + Z.of_nat (length a)) b.
Proof.
  revert i. induction a as [|x a IH]; intros i Hc; cbn in *; [by rewrite Z.add_0_r|].
  destruct Hc as [_ Hc]. apply IH in Hc. by replace (i + Z.of_nat (S (length a))) with (i + 1 + Z.of_nat (length a)) by lia.
Qed.

(** What the scan leaves to append, and the log it leaves it for: the skipped entries are in the
    log, and the log ends right before the suffix unless nothing is left. *)
Lemma skip_matching_spec es (l : L) i suffix l' :
  0 <= snapshot_index l -> 0 < i -> i <= last_index l + 1 -> consecutive i es ->
  skip_matching es l = (Some suffix, l') ->
  exists pre, es = pre ++ suffix /\
    (forall e, e ∈ pre -> term_at l (e_index e) = Ok (e_term e)) /\
    ((suffix = [] /\ l' = l) \/
     (suffix <> [] /\ snapshot_index l' = snapshot_index l /\ snapshot_term l' = snapshot_term l /\
      last_index l' + 1 = i + Z.of_nat (length pre) /\
      log_terms l' = take (Z.to_nat (last_index l' - snapshot_index l)) (log_terms l))).
Proof.
  intros Hs. revert i. induction es as [|e es IH]; intros i Hi Hlast Hc Hskip; cbn in Hskip.
  { simplify_eq. exists []. split_and!; [done|set_solver|by left]. }
  destruct Hc as [He Hc]. destruct (Z.ltb_spec (last_index l) (e_index e)) as [Hlt|Hge].
  { simplify_eq. exists []. split_and!; [done|set_solver|]. right. split_and!; try done.
    - cbn. lia.
    - rewrite last_index_terms. symmetry. apply take_ge. lia. }
  destruct (match term_at l (e_index e) with Ok _ => _ | Err _ => _ end) eqn:Hm.
  - destruct (term_at l (e_index e)) as [t|] eqn:Ht; [|done]. apply Z.eqb_eq in Hm as ->.
    destruct (IH (i + 1)) as (pre & -> & Hpre & Hres); [lia..|done|done|].
    exists (e :: pre). split_and!; [done| |].
    + intros x [->|Hx]%elem_of_cons; auto.
    + destruct Hres as [?|(H1 & H2 & H3 & H4 & H5)]; [by left|right]. split_and!; try done. cbn. lia.
  - pose proof (truncate_base (e_index e) l) as [Hb1 Hb2]. pose proof (truncate_terms (e_index e) l) as Htr.
    destruct (truncate_from (e_index e) l) as [[[]|] lt]; cbn in Hskip, Hb1, Hb2, Htr; [|done].
    destruct Htr as [Hb Htr]. simplify_eq. exists []. split_and!; [done|set_solver|]. right.
    assert (Hli : last_index l' = e_index e - 1).
    { rewrite last_index_terms, Hb1, Htr, length_take. rewrite last_index_terms in Hge. lia. }
    split_and!; try done; [cbn; lia|]. rewrite Hli, Htr. f_equal. lia.
Qed.

Lemma append_entries_from_spec es (l : L) i l' :
  0 <= snapshot_index l -> 0 < i -> i <= last_index l + 1 -> consecutive i es ->
  append_entries_from es l = (true, l') ->
  (forall e, e ∈ es -> term_at l' (e_index e) = Ok (e_term e)) /\
  (forall j t, 0 <= j < i -> term_at l j = Ok t -> term_at l' j = Ok t).
Proof.
  intros Hs Hi Hlast Hc. unfold append_entries_from.
  destruct (skip_matching es l) as [[suffix|] lm] eqn:Hskip; [|done].
  destruct (skip_matching_spec _ _ _ _ _ Hs Hi Hlast Hc Hskip) as (pre & -> & Hpre & Hcase).
  destruct Hcase as [[-> ->]|(Hne & Hb1 & Hb2 & Hli & Hterms)].
  { intros [= <-]. rewrite app_nil_r. auto. }
  destruct suffix as [|e0 suffix]; [done|].
  destruct (append_base (e0 :: suffix) lm) as [Ha1 Ha2].
  destruct (append_terms (e0 :: suffix) lm) as (k & _ & Hat & Hok).
  destruct (log_append (e0 :: suffix) lm) as [res la]. cbn in Ha1, Ha2, Hat, Hok.
  intros [= Hres <-]. destruct (Hok Hres) as [-> _]. clear Hok Hres.
  rewrite take_ge in Hat by done. apply consecutive_app in Hc as Hcs.
  assert (Hkeep : forall j t, 0 <= j <= last_index lm -> term_at l j = Ok t -> term_at la j = Ok t).
  { intros j t Hj. apply term_at_agree; [done|lia|congruence|congruence|].
    intros m x Hm Hx. rewrite Hat, Hterms. apply lookup_app_l_Some.
    rewrite lookup_take_lt by lia. done. }
  split; [|intros j t Hj; apply Hkeep; lia].
  intros e [He|He]%elem_of_app.
  - apply list_elem_of_lookup in He as Hm. destruct Hm as [m Hm].
    assert (Hidx : e_index e = i + Z.of_nat m).
    { eapply consecutive_lookup; [exact Hc|]. by apply lookup_app_l_Some. }
    apply lookup_lt_Some in Hm as Hmlt. apply Hkeep; [lia|auto].
  - apply list_elem_of_lookup in He as [m Hm].
    rewrite (consecutive_lookup _ _ _ _ Hcs Hm). rewrite <- Hli.
    assert (Hsl : snapshot_index la <= last_index lm).
    { rewrite Ha1, last_index_terms. lia. }
    apply term_at_slot; [lia..|]. rewrite Hat, Ha1. rewrite (last_index_terms lm).
    replace (Z.to_nat _) with (length (log_terms lm) + m)%nat by lia.
    rewrite lookup_app_r by lia. replace (_ + m - _)%nat with m by lia.
    rewrite list_lookup_fmap, Hm. done.
Qed.

(** Entries the log already has leave it untouched. *)
Lemma append_entries_from_present es (l : L) :
  0 <= snapshot_index l ->
  (forall e, e ∈ es -> 0 < e_index e /\ term_at l (e_index e) = Ok (e_term e)) ->
  append_entries_from es l = (true, l).
Proof.
  intros Hs Hall. unfold append_entries_from. enough (skip_matching es l = (Some [], l)) as -> by done.
  induction es as [|e es IH]; cbn; [done|].
  destruct (Hall e ltac:(set_solver)) as [Hpos Ht].
  pose proof (term_at_bound l _ _ Hs Hpos Ht). rewrite (proj2 (Z.ltb_ge _ _)) by lia.
  rewrite Ht, Z.eqb_refl. apply IH. set_solver.
Qed.

(** The body of [on_append_entries] once the leader is recognised. *)
Lemma on_append_entries_accepted now a (n : RaftNode L) reply n' :
  on_append_entries now a n = (reply, n') -> aer_success reply = true ->
  ae_prev_log_index a <= last_index (log_ n) /\
  term_at (log_ n) (ae_prev_log_index a) = Ok (ae_prev_log_term a) /\
  append_entries_from (ae_entries a) (log_ n) = (true, log_ n') /\
  role_ n' = Follower /\ current_term n' = ae_term a /\
  commit_index n' = if commit_index n <? ae_leader_commit a
                    then Z.min (ae_leader_commit a) (last_index (log_ n')) else commit_index n.
Proof.
  unfold on_append_entries. destruct (Z.ltb_spec (ae_term a) (current_term n)); [by intros [= <- _]|].
  cbv zeta. set (n2 := set_last_leader_contact _ _).
  assert (view_of n2 = w_heed (ae_term a) (view_of n) /\ log_ n2 = log_ n /\
    commit_index n2 = commit_index n) as (H2 & Hlog & Hcom) by apply heed_contact.
  assert (Hrole : role_ n2 = Follower).
  { change (w_role (view_of n2) = Follower). rewrite H2. apply heed_follower. }
  assert (Hterm : current_term n2 = ae_term a).
  { change (w_term (view_of n2) = ae_term a). rewrite H2. by apply heed_vote. }
  clearbody n2. rewrite Hlog.
  destruct (Z.ltb_spec (last_index (log_ n)) (ae_prev_log_index a)); [by intros [= <- _]|].
  destruct (term_at (log_ n) _) as [pt|]; [|by intros [= <- _]].
  destruct (Z.eqb_spec pt (ae_prev_log_term a)) as [->|]; cbn [negb]; [|by intros [= <- _]].
  destruct (append_entries_from _ (log_ n)) as [[] l]; cbn [negb]; [|by intros [= <- _]].
  intros [= _ <-] _. change (commit_index (set_log l n2)) with (commit_index n2). rewrite Hcom.
  split_and!; try done; by destruct (_ <? _).
Qed.

(** C5. Log matching.  When a follower accepts an [AppendEntries] with consecutive entries, its log
    holds the predecessor and every one of the entries with the leader's terms, keeps everything
    up to the predecessor, and is not touched when all the entries were already there (a late or
    duplicated request truncates nothing); the follower is in the leader's term and its commit
    index follows the leader's as far as the log reaches. *)
Theorem append_entries_log_matching (now : Z) (a : AppendEntriesArgs) (n : RaftNode L)
    (Hbase : 0 <= snapshot_index (log_ n)) (Hprev : 0 <= ae_prev_log_index a)
    (Hcons : consecutive (ae_prev_log_index a + 1) (ae_entries a))
    (Hok : aer_success (on_append_entries now a n).1 = true) :
  let n' := (on_append_entries now a n).2 in
  term_at (log_ n') (ae_prev_log_index a) = Ok (ae_prev_log_term a) /\
  (forall e, e ∈ ae_entries a -> term_at (log_ n') (e_index e) = Ok (e_term e)) /\
  (forall j t, 0 <= j <= ae_prev_log_index a -> term_at (log_ n) j = Ok t -> term_at (log_ n') j = Ok t) /\
  ((forall e, e ∈ ae_entries a -> term_at (log_ n) (e_index e) = Ok (e_term e)) -> log_ n' = log_ n) /\
  role_ n' = Follower /\ current_term n' = ae_term a /\
  commit_index n' = if commit_index n <? ae_leader_commit a
                    then Z.min (ae_leader_commit a) (last_index (log_ n')) else commit_index n.
Proof.
  destruct (on_append_entries now a n) as [reply n'] eqn:Ha. cbn in Hok |- *.
  destruct (on_append_entries_accepted _ _ _ _ _ Ha Hok) as (Hle & Hpt & Hap & Hr & Ht & Hc).
  destruct (append_entries_from_spec _ _ (ae_prev_log_index a + 1) _ Hbase ltac:(lia) ltac:(lia) Hcons Hap)
    as [Hes Hkeep].
  split_and!; auto.
  - apply Hkeep; [lia|done].
  - intros j t Hj. apply Hkeep. lia.
  - intros Hall. rewrite append_entries_from_present in Hap; [congruence|done|].
    intros e He. split; [|auto]. apply list_elem_of_lookup in He as [k Hk].
    rewrite (consecutive_lookup _ _ _ _ Hcons Hk). lia.
Qed.

(** A request of an older term changes nothing; one whose predecessor the log does not have is
    refused without touching the log, with a hint the leader can retry from. *)
Theorem append_entries_refused (now : Z) (a : AppendEntriesArgs) (n : RaftNode L) :
  (ae_term a < current_term n ->
     on_append_entries now a n = (MkAppendEntriesReply (current_term n) false 0, n)) /\
  (current_term n <= ae_term a ->
   last_index (log_ n) < ae_prev_log_index a \/
   term_at (log_ n) (ae_prev_log_index a) <> Ok (ae_prev_log_term a) ->
   let '(reply, n') := on_append_entries now a n in
   aer_success reply = false /\ aer_term reply = ae_term a /\ log_ n' = log_ n /\
   commit_index n' = commit_index n /\
   (aer_conflict_index reply = ae_prev_log_index a \/
    aer_conflict_index reply = last_index (log_ n) + 1)).
Proof.
  unfold on_append_entries. split.
  { intros H. by rewrite (proj2 (Z.ltb_lt _ _)) by done. }
  intros Hge Hmis. rewrite (proj2 (Z.ltb_ge _ _)) by done. cbv zeta.
  set (n2 := set_last_leader_contact _ _).
  assert (view_of n2 = w_heed (ae_term a) (view_of n) /\ log_ n2 = log_ n /\
    commit_index n2 = commit_index n) as (H2 & Hlog & Hcom) by apply heed_contact.
  assert (Hterm : current_term n2 = ae_term a).
  { change (w_term (view_of n2) = ae_term a). rewrite H2. by apply heed_vote. }
  clearbody n2. rewrite Hlog, Hterm.
  destruct (Z.ltb_spec (last_index (log_ n)) (ae_prev_log_index a)); [cbn; auto 6|].
  destruct (term_at (log_ n) (ae_prev_log_index a)) as [pt|]; [|cbn; auto 6].
  destruct (Z.eqb_spec pt (ae_prev_log_term a)) as [->|]; cbn [negb]; [|cbn; auto 6].
  exfalso. destruct Hmis; [lia|done].
Qed.

End Matching.

(** A follower with one stale entry, and the request that replaces it. *)
Definition stale_follower : RaftNode AbsLog :=
  set_persistent (p_restore 2 None) false
    (new_node 2 [1; 3] (MkAbsLog 0 0 0 [MkEntry 1 1 Data [7]; MkEntry 1 2 Data [8]]) default_config []).
Definition repair_request : AppendEntriesArgs :=
  MkAppendEntries 2 1 1 1 [MkEntry 2 2 Data [9]; MkEntry 2 3 Data [10]] 2 1.

Lemma append_entries_log_matching_witness :
  let n' := (on_append_entries 5 repair_request stale_follower).2 in
  term_at (log_ n') 2 = Ok 2 /\ term_at (log_ n') 3 = Ok 2 /\ commit_index n' = 2.
Proof.
  assert (Hb : 0 <= snapshot_index (log_ stale_follower)) by (vm_compute; discriminate).
  assert (Hp : 0 <= ae_prev_log_index repair_request) by (vm_compute; discriminate).
  assert (Hcs : consecutive (ae_prev_log_index repair_request + 1) (ae_entries repair_request))
    by (vm_compute; auto).
  assert (Hok : aer_success (on_append_entries 5 repair_request stale_follower).1 = true)
    by (vm_compute; reflexivity).
  pose proof (append_entries_log_matching 5 repair_request stale_follower Hb Hp Hcs Hok) as H.
  cbv zeta in H |- *. destruct H as (_ & Hes & _).
  assert (Hc : commit_index (on_append_entries 5 repair_request stale_follower).2 = 2)
    by (vm_compute; reflexivity).
  split; [|split; [|exact Hc]].
  - exact (Hes (MkEntry 2 2 Data [9]) (list_elem_of_here _ _)).
  - exact (Hes (MkEntry 2 3 Data [10]) (list_elem_of_further _ _ _ (list_elem_of_here _ _))).
Defined.

(** Three voting members, two of which have the leader's entry of the current term. *)
Definition committing_leader : RaftNode AbsLog :=
  let n := new_node 1 [2; 3] (MkAbsLog 0 0 0 [MkEntry 4 1 Data [7]]) default_config [] in
  n |> set_persistent (p_restore 4 (Some 1)) false |> set_role Leader
    |> set_volatile (set_match_index 2 1 (reset_leader_progress [2; 3] 1 volatile_initial)).

Lemma advance_commit_is_majority_rule_witness :
  exists top, quorum_index (voter_matches committing_leader) = Some top /\ top = 1 /\
    commit_index (advance_commit_index committing_leader) = top.
Proof.
  assert (Hq : quorum_index (voter_matches committing_leader) = Some 1) by (vm_compute; reflexivity).
  assert (Hc : commit_index committing_leader < 1) by (vm_compute; reflexivity).
  assert (Ht : term_at (log_ committing_leader) 1 = Ok (current_term committing_leader))
    by (vm_compute; reflexivity).
  destruct (advance_commit_is_majority_rule committing_leader eq_refl) as (_ & _ & top & Htop & _ & Hmove).
  exists top. assert (top = 1) as -> by congruence. auto.
Defined.

(** A request that leaves a gap, and one of a past term. *)
Definition gapped_request : AppendEntriesArgs :=
  MkAppendEntries 2 1 9 2 [MkEntry 2 10 Data [9]] 2 1.
Definition past_request : AppendEntriesArgs :=
  MkAppendEntries 1 1 1 1 [MkEntry 2 2 Data [9]] 2 1.

Lemma append_entries_refused_witness :
  log_ (on_append_entries 5 gapped_request stale_follower).2 = log_ stale_follower /\
  (on_append_entries 5 past_request stale_follower).2 = stale_follower.
Proof.
  assert (Hge : current_term stale_follower <= ae_term gapped_request) by (vm_compute; discriminate).
  assert (Hgap : last_index (log_ stale_follower) < ae_prev_log_index gapped_request)
    by (vm_compute; reflexivity).
  assert (Hold : ae_term past_request < current_term stale_follower) by (vm_compute; reflexivity).
  pose proof (proj2 (append_entries_refused 5 gapped_request stale_follower) Hge (or_introl Hgap)) as H1.
  pose proof (proj1 (append_entries_refused 5 past_request stale_follower) Hold) as H2.
  split; [|rewrite H2; reflexivity].
  destruct (on_append_entries 5 gapped_request stale_follower) as [reply n']. apply H1.
Defined.
