(* ===== verification/RaftCarrier.v ===== *)
(** * The carrier of a Raft replica

    Models [RaftCarrier] of [src/src/consensus/raft_carrier.cpp]: it drives a [RaftNode] with
    ticks and received messages, sends replies and queued messages through its sink, persists
    term and vote with the store of RaftStateStore.v and compacts the log by policy.  The sink is
    the list of the messages it was given, in order.  Metrics are not modelled. *)
From stdpp Require Import base list gmap sets strings.
From Stdlib Require Import ZArith Lia.
From S2P Require Import Prelude Bytes Record File RaftState RaftStateStore RaftLogSpec RaftNode RaftSafety.
#[local] Open Scope Z_scope.

Section Carrier.
Context {L : Type} `{!RaftLogOps L}.

(** The members that carry state: the node, the optional store, whether a log was given for
    compaction, and the policy's threshold. *)
Record RaftCarrier := MkCarrier {
  rc_node : RaftNode L;
  rc_store : option File;
  rc_has_log : bool;
  rc_threshold : Z;
}.

Definition rc_set_node (n : RaftNode L) (c : RaftCarrier) : RaftCarrier :=
  MkCarrier n (rc_store c) (rc_has_log c) (rc_threshold c).
Definition rc_set_store (s : option File) (c : RaftCarrier) : RaftCarrier :=
  MkCarrier (rc_node c) s (rc_has_log c) (rc_threshold c).

Definition carrier_recover (c : RaftCarrier) : expected unit * RaftCarrier :=
  match rc_store c with
  | None => (Ok tt, c)
  | Some file =>
      match store_load file with
      | Err e => (Err e, c)
      | Ok loaded => (Ok tt, rc_set_node (restore_persistent_state loaded (rc_node c)) c)
      end
  end.

(** The dispatch of [on_message]: the reply it emits, and the node after the handler. *)
Definition dispatch (now : Z) (message : RaftMessage) (n : RaftNode L) : list RaftMessage * RaftNode L :=
  let from := m_from message in
  match m_payload message with
  | PRequestVoteArgs a =>
      let '(r, n') := on_request_vote now a n in ([MkMessage (self_ n) from (PRequestVoteReply r)], n')
  | PAppendEntriesArgs a =>
      let '(r, n') := on_append_entries now a n in ([MkMessage (self_ n) from (PAppendEntriesReply r)], n')
  | PInstallSnapshotArgs a =>
      let '(r, n') := on_install_snapshot now a n in ([MkMessage (self_ n) from (PInstallSnapshotReply r)], n')
  | PTimeoutNowArgs a => ([], on_timeout_now now a n)
  | PRequestVoteReply r => ([], on_request_vote_reply now from r n)
  | PAppendEntriesReply r => ([], on_append_entries_reply now from r n)
  | PInstallSnapshotReply r => ([], on_install_snapshot_reply now from r n)
  end.

Definition flush_outbox (c : RaftCarrier) : list RaftMessage * RaftCarrier :=
  let '(saved, c1) :=
    match rc_store c with
    | Some file =>
        if persistent_dirty_ (rc_node c)
        then match store_save (persistent_ (rc_node c)) file with
             | (Err _, file') => (false, rc_set_store (Some file') c)
             | (Ok _, file') =>
                 (true, c |> rc_set_store (Some file')
                          |> rc_set_node (clear_persistent_dirty (rc_node c)))
             end
        else (true, c)
    | None => (true, c)
    end in
  if saved
  then let '(messages, n) := take_messages (rc_node c1) in (messages, rc_set_node n c1)
  else ([], c1).

Definition maybe_compact (c : RaftCarrier) : RaftCarrier :=
  if negb (rc_has_log c) || (rc_threshold c =? 0) then c
  else
    let commit := commit_index (rc_node c) in
    let base := snapshot_index (log_ (rc_node c)) in
    if (commit <=? base) || (commit - base <? rc_threshold c) then c
    else rc_set_node (set_log (compact_to commit (log_ (rc_node c))).2 (rc_node c)) c.

Definition carrier_on_tick (now : Z) (c : RaftCarrier) : list RaftMessage * RaftCarrier :=
  let '(sent, c') := flush_outbox (rc_set_node (tick now (rc_node c)) c) in (sent, maybe_compact c').

Definition carrier_on_message (now : Z) (message : RaftMessage) (c : RaftCarrier)
  : list RaftMessage * RaftCarrier :=
  let '(replies, n) := dispatch now message (rc_node c) in
  let '(sent, c') := flush_outbox (rc_set_node n c) in (replies ++ sent, maybe_compact c').

(** ** The input behind a message *)

Definition input_of (message : RaftMessage) : RaftInput :=
  match m_payload message with
  | PRequestVoteArgs a => IRequestVote a
  | PRequestVoteReply r => IRequestVoteReply (m_from message) r
  | PAppendEntriesArgs a => IAppendEntries a
  | PAppendEntriesReply r => IAppendEntriesReply (m_from message) r
  | PTimeoutNowArgs a => ITimeoutNow a
  | PInstallSnapshotArgs a => IInstallSnapshot a
  | PInstallSnapshotReply r => IInstallSnapshotReply (m_from message) r
  end.

Lemma dispatch_step now message n : (dispatch now message n).2 = node_step now (input_of message) n.
Proof.
  unfold dispatch, input_of. destruct (m_payload message); cbn; try done;
    [by destruct (on_request_vote now a n)|by destruct (on_append_entries now a n)
    |by destruct (on_install_snapshot now a n)].
Qed.

(** ** Durability of what the queue sends *)

(** What the disk holds agrees with the node unless the node says it has to be written. *)
Definition durable (c : RaftCarrier) : Prop :=
  match rc_store c with
  | None => True
  | Some file =>
      no_errors (f_reads file) /\
      (persistent_dirty_ (rc_node c) = false -> store_load file = Ok (persistent_ (rc_node c)))
  end.

Lemma durable_input now i c :
  i <> IClearDirty -> durable c -> durable (rc_set_node (node_step now i (rc_node c)) c).
Proof.
  unfold durable. cbn. destruct (rc_store c) as [file|]; [|done]. intros Hi [Hr Hd]. split; [done|].
  intros Hc. destruct (node_step_clean now i (rc_node c) Hi Hc) as [H1 ->]. auto.
Qed.

Lemma flush_durable c sent c' :
  durable c -> state_ok (persistent_ (rc_node c)) -> flush_outbox c = (sent, c') ->
  durable c' /\ persistent_ (rc_node c') = persistent_ (rc_node c) /\
  (sent <> [] -> forall file, rc_store c' = Some file -> store_load file = Ok (persistent_ (rc_node c'))).
Proof.
  unfold flush_outbox, durable. intros Hd Hok. destruct (rc_store c) as [file|] eqn:Hs.
  - destruct Hd as [Hr Hd]. destruct (persistent_dirty_ (rc_node c)) eqn:Hdirty.
    + pose proof (store_save_load (persistent_ (rc_node c)) file Hok Hr) as Hload.
      pose proof (store_save_reads (persistent_ (rc_node c)) file) as Hreads.
      destruct (store_save _ file) as [[u|] file']; cbn in *; intros [= <- <-]; cbn; rewrite Hreads.
      * split_and!; auto. intros _ f [= <-]. auto.
      * split_and!; auto; [|done]. congruence.
    + intros [= <- <-]. cbn. rewrite Hs. split_and!; auto. intros _ f [= <-]. auto.
  - intros [= <- <-]. cbn. rewrite Hs. done.
Qed.

Lemma compact_frame c :
  persistent_ (rc_node (maybe_compact c)) = persistent_ (rc_node c) /\
  persistent_dirty_ (rc_node (maybe_compact c)) = persistent_dirty_ (rc_node c) /\
  rc_store (maybe_compact c) = rc_store c /\ outbox_ (rc_node (maybe_compact c)) = outbox_ (rc_node c).
Proof. unfold maybe_compact. destruct (_ || _); [done|]. cbv zeta. by destruct (_ || _). Qed.

Lemma compact_durable c : durable c -> durable (maybe_compact c).
Proof. unfold durable. by destruct (compact_frame c) as (-> & -> & -> & _). Qed.

(** Raft's durability rule for what the queue sends: whatever the disk does (short writes,
    interruptions, failures), the messages a tick sends leave only once term and vote are on
    disk exactly as the node has them, and the carrier stays in a state where what it has not
    written is marked as such. *)
Theorem tick_sends_only_durable (now : Z) (c : RaftCarrier) (Hdur : durable c)
    (Hrange : state_ok (persistent_ (tick now (rc_node c)))) :
  let '(sent, c') := carrier_on_tick now c in
  durable c' /\
  (sent <> [] -> forall file, rc_store c' = Some file -> store_load file = Ok (persistent_ (rc_node c'))).
Proof.
  unfold carrier_on_tick.
  pose proof (durable_input now ITick c ltac:(done) Hdur) as H1. cbn [node_step] in H1.
  destruct (flush_outbox _) as [sent c'] eqn:Hf.
  destruct (flush_durable _ _ _ H1 Hrange Hf) as (H2 & H3 & H4).
  split; [by apply compact_durable|]. destruct (compact_frame c') as (-> & _ & -> & _). done.
Qed.

(** The same for the messages an incoming RPC puts in the queue; the reply itself is not
    covered (see [reply_before_persist]). *)
Theorem message_queue_sends_only_durable (now : Z) (m : RaftMessage) (c : RaftCarrier)
    (Hdur : durable c) (Hrange : state_ok (persistent_ (node_step now (input_of m) (rc_node c)))) :
  let '(sent, c') := carrier_on_message now m c in
  durable c' /\
  (length (dispatch now m (rc_node c)).1 < length sent -> forall file, rc_store c' = Some file ->
     store_load file = Ok (persistent_ (rc_node c')))%nat.
Proof.
  unfold carrier_on_message. pose proof (dispatch_step now m (rc_node c)) as Hd.
  destruct (dispatch now m (rc_node c)) as [replies n]. cbn in Hd. subst n.
  assert (Hne : input_of m <> IClearDirty) by (unfold input_of; by destruct (m_payload m)).
  pose proof (durable_input now _ c Hne Hdur) as H1.
  destruct (flush_outbox _) as [sent c'] eqn:Hf.
  destruct (flush_durable _ _ _ H1 Hrange Hf) as (H2 & H3 & H4).
  split; [by apply compact_durable|]. destruct (compact_frame c') as (-> & _ & -> & _).
  rewrite length_app. cbn. intros Hlt. apply H4. destruct sent; [cbn in Hlt; lia|done].
Qed.

End Carrier.
Arguments RaftCarrier L : clear implicits.

(** ** Concrete executions *)

Definition sample_carrier (plan : list SysOutcome) : RaftCarrier AbsLog :=
  MkCarrier (new_node 2 [1; 3] al_empty default_config []) (Some (MkFile [] plan [])) false 0.

Lemma tick_sends_only_durable_witness :
  let '(_, c1) := carrier_on_tick 0 (sample_carrier [Transfer 3]) in
  let '(_, c2) := carrier_on_tick (ms 2000) c1 in
  durable c2.
Proof.
  assert (H0 : durable (sample_carrier [Transfer 3])) by (split; [constructor|reflexivity]).
  assert (R0 : state_ok (persistent_ (tick 0 (rc_node (sample_carrier [Transfer 3])))))
    by (split; by_range).
  pose proof (tick_sends_only_durable 0 (sample_carrier [Transfer 3]) H0 R0) as H1.
  destruct (carrier_on_tick 0 (sample_carrier [Transfer 3])) as [s1 c1] eqn:E1. destruct H1 as [H1 _].
  assert (R1 : state_ok (persistent_ (tick (ms 2000) (rc_node c1)))).
  { apply (f_equal snd) in E1. cbn [snd] in E1. subst c1. split; by_range. }
  pose proof (tick_sends_only_durable (ms 2000) c1 H1 R1) as H2.
  destruct (carrier_on_tick (ms 2000) c1) as [s2 c2]. apply H2.
Defined.

(** A vote request of term 5. *)
Definition vote_request : RaftMessage := MkMessage 1 2 (PRequestVoteArgs (MkRequestVote 5 1 0 0 false)).

Lemma message_queue_sends_only_durable_witness :
  let '(_, c') := carrier_on_message 0 vote_request (sample_carrier [Transfer 3]) in durable c'.
Proof.
  assert (H0 : durable (sample_carrier [Transfer 3])) by (split; [constructor|reflexivity]).
  assert (R0 : state_ok (persistent_ (node_step 0 (input_of vote_request) (rc_node (sample_carrier [Transfer 3])))))
    by (split; by_range).
  pose proof (message_queue_sends_only_durable 0 vote_request (sample_carrier [Transfer 3]) H0 R0) as H1.
  destruct (carrier_on_message 0 vote_request (sample_carrier [Transfer 3])) as [sent c']. apply H1.
Defined.

(** The reply to a vote request is not under the durability rule: with a disk whose write fails,
    the carrier answers that the vote is granted although the disk still holds no vote and the
    old term. *)
Theorem reply_before_persist :
  let '(sent, c') := carrier_on_message 0 vote_request (sample_carrier [SysError "No space left on device"]) in
  sent = [MkMessage 2 1 (PRequestVoteReply (MkRequestVoteReply 5 true))] /\
  voted_for (rc_node c') = Some 1 /\
  option_map store_load (rc_store c') = Some (Ok persistent_initial).
Proof. vm_compute. done. Qed.
