(* ===== verification/RaftElection.v ===== *)
(** * Elections in a cluster

    A cluster of the carriers of RaftCarrier.v over a network that may lose, duplicate, delay and
    reorder messages.  Election safety (at most one leader per term) holds as long as the replies
    to pre-vote probes are not delivered to a replica that has meanwhile become a candidate; a
    concrete run shows two leaders of one term without that restriction. *)
From stdpp Require Import base list gmap sets strings fin_sets relations.
From Stdlib Require Import ZArith Lia.
From S2P Require Import Prelude Bytes Record File RaftState RaftStateStore RaftLogSpec RaftNode RaftSafety RaftCarrier.
#[local] Open Scope Z_scope.

Section Cluster.
Context {L : Type} `{!RaftLogOps L}.

(** ** The cluster *)

(** The members, and every message ever sent; the flag of a vote reply says that it answers a
    pre-vote probe, which the reply itself does not. *)
Record Cluster := MkCluster {
  cl_members : gmap Z (RaftCarrier L);
  cl_wire : list (RaftMessage * bool);
}.

Inductive ClusterAction :=
  | ATick (member now : Z)
  | ADeliver (slot : nat) (now : Z)
  | APropose (member : Z) (batch : RecordBatch)
  | ATransfer (member target : Z).

Definition is_vote_reply (m : RaftMessage) : bool :=
  match m_payload m with PRequestVoteReply _ => true | _ => false end.

Definition is_probe (m : RaftMessage) : bool :=
  match m_payload m with PRequestVoteArgs a => rv_pre_vote a | _ => false end.

(** What a member sends while it handles [cause], with its flags. *)
Definition tag_sent (cause : option RaftMessage) (sent : list RaftMessage) : list (RaftMessage * bool) :=
  (fun m => (m, match cause with Some q => is_probe q && is_vote_reply m | None => false end)) <$> sent.

(** A pre-vote reply that would reach a candidate. *)
Definition stale_probe_reply (m : RaftMessage) (pre : bool) (c : RaftCarrier L) : bool :=
  pre && is_vote_reply m && bool_decide (role_ (rc_node c) = Candidate).

(** One action ([None]: not possible).  [strict] refuses the deliveries above. *)
Definition cluster_exec (strict : bool) (act : ClusterAction) (cl : Cluster) : option Cluster :=
  match act with
  | ATick i now =>
      match cl_members cl !! i with
      | None => None
      | Some c =>
          let '(sent, c') := carrier_on_tick now c in
          Some (MkCluster (<[i := c']> (cl_members cl)) (cl_wire cl ++ tag_sent None sent))
      end
  | ADeliver slot now =>
      match cl_wire cl !! slot with
      | None => None
      | Some (m, pre) =>
          match cl_members cl !! m_to m with
          | None => None
          | Some c =>
              if strict && stale_probe_reply m pre c then None
              else
                let '(sent, c') := carrier_on_message now m c in
                Some (MkCluster (<[m_to m := c']> (cl_members cl)) (cl_wire cl ++ tag_sent (Some m) sent))
          end
      end
  | APropose i batch =>
      match cl_members cl !! i with
      | None => None
      | Some c => Some (MkCluster (<[i := rc_set_node (propose batch (rc_node c)).2 c]> (cl_members cl)) (cl_wire cl))
      end
  | ATransfer i target =>
      match cl_members cl !! i with
      | None => None
      | Some c =>
          Some (MkCluster (<[i := rc_set_node (transfer_leadership target (rc_node c)).2 c]> (cl_members cl))
                  (cl_wire cl))
      end
  end.

Definition cluster_step (strict : bool) (cl cl' : Cluster) : Prop :=
  exists act, cluster_exec strict act cl = Some cl'.

Fixpoint cluster_run (strict : bool) (acts : list ClusterAction) (cl : Cluster) : option Cluster :=
  match acts with
  | [] => Some cl
  | act :: acts' =>
      match cluster_exec strict act cl with Some cl' => cluster_run strict acts' cl' | None => None end
  end.

(** A cluster of [ids] at construction, each member with its own log, store and policy. *)
Definition cluster_init (ids learners : list Z) (config : RaftConfig) (log : Z -> L)
    (store : Z -> option File) : Cluster :=
  MkCluster
    (list_to_map ((fun i => (i, MkCarrier (new_node i (filter (fun j => j <> i) ids) (log i) config learners)
                                  (store i) false 0)) <$> ids)) [].

(** ** What a member puts in its queue *)

(** Sent by [s]; a vote request names its sender as the candidate; replies are not queued. *)
Definition own_msg (s : Z) (m : RaftMessage) : Prop :=
  m_from m = s /\
  match m_payload m with
  | PRequestVoteArgs a => rv_candidate_id a = s
  | PRequestVoteReply _ => False
  | _ => True
  end.

Definition outbox_ok (n : RaftNode L) : Prop := Forall (own_msg (self_ n)) (outbox_ n).

Lemma outbox_send to p n : own_msg (self_ n) (MkMessage (self_ n) to p) -> outbox_ok n -> outbox_ok (send to p n).
Proof. intros Hm Hn. apply Forall_app_2; [done|]. by constructor. Qed.

Lemma outbox_election_timer now n : outbox_ok n -> outbox_ok (reset_election_timer now n).
Proof. unfold reset_election_timer. by destruct (random_election_timeout _ _). Qed.

Lemma outbox_follower now t n : outbox_ok n -> outbox_ok (become_follower now t n).
Proof. intros H. apply outbox_election_timer. by destruct (_ <? _). Qed.

Lemma outbox_replicate_to p n : outbox_ok n -> outbox_ok (replicate_to p n).
Proof.
  intros H. unfold replicate_to, send_snapshot_to. destruct (_ <=? _); apply outbox_send; done.
Qed.

Lemma outbox_replicate_all n : outbox_ok n -> outbox_ok (replicate_all n).
Proof.
  unfold replicate_all. generalize (peers_ n). intros ps. revert n.
  induction ps as [|p ps IH]; intros n Hn; cbn; [done|]. by apply IH, outbox_replicate_to.
Qed.

Lemma outbox_broadcast pre n : outbox_ok n -> outbox_ok (broadcast_request_vote pre n).
Proof.
  unfold broadcast_request_vote. set (a := MkRequestVote _ _ _ _ _).
  enough (forall ps m, self_ m = self_ n -> outbox_ok m -> outbox_ok (foldl (fun m peer =>
    if is_voter n peer then send peer (PRequestVoteArgs a) m else m) m ps)) by auto.
  intros ps. induction ps as [|p ps IH]; intros m Hs Hm; cbn; [done|].
  destruct (is_voter n p); apply IH; auto. by apply outbox_send.
Qed.

Lemma outbox_leader now n : outbox_ok n -> outbox_ok (become_leader now n).
Proof. intros H. by apply outbox_replicate_all. Qed.

Lemma outbox_candidate now n : outbox_ok n -> outbox_ok (become_candidate now n).
Proof.
  intros H. unfold become_candidate. cbv zeta. set (n' := reset_election_timer _ _).
  assert (outbox_ok n') by by apply outbox_election_timer. clearbody n'.
  destruct (has_majority _ _); [by apply outbox_leader|by apply outbox_broadcast].
Qed.

Lemma outbox_advance_commit n : outbox_ok n -> outbox_ok (advance_commit_index n).
Proof.
  intros H. unfold advance_commit_index. destruct (quorum_index _); [|done]. destruct (_ <=? _); [done|].
  destruct (term_at _ _); [|done]. by destruct (_ =? _).
Qed.

Lemma outbox_transfer p n : outbox_ok n -> outbox_ok (maybe_transfer_to p n).
Proof.
  intros H. unfold maybe_transfer_to. destruct (negb _); [done|]. destruct (_ <=? _).
  - by apply (outbox_send p).
  - by apply outbox_replicate_to.
Qed.

Create HintDb nexus_outbox.
#[local] Hint Resolve outbox_election_timer outbox_follower outbox_replicate_to outbox_replicate_all
  outbox_broadcast outbox_leader outbox_candidate outbox_advance_commit outbox_transfer : nexus_outbox.

Lemma outbox_contact now t lid n : outbox_ok n ->
  outbox_ok (set_last_leader_contact now (reset_election_timer now (set_leader_id lid
    (if (current_term n <? t) || negb (bool_decide (role_ n = Follower)) then become_follower now t n else n)))).
Proof.
  intros H. set (n' := if (current_term n <? t) || _ then _ else n).
  assert (Hn' : outbox_ok n') by (unfold n'; destruct (_ || _); [by apply outbox_follower|done]). clearbody n'.
  change (outbox_ok (reset_election_timer now (set_leader_id lid n'))). by apply outbox_election_timer.
Qed.

Lemma node_step_outbox now i n : outbox_ok n -> outbox_ok (node_step now i n).
Proof.
  intros H. destruct i; cbn [node_step].
  - unfold tick. destruct (negb _); [by apply outbox_election_timer|].
    destruct (bool_decide _); [destruct (_ <=? _); [by apply outbox_replicate_all|done]|].
    destruct (_ && _); [|done]. unfold start_pre_election. cbv zeta. set (n' := reset_election_timer _ _).
    assert (outbox_ok n') by by apply outbox_election_timer. clearbody n'.
    destruct (has_majority _ _); auto with nexus_outbox.
  - unfold on_request_vote. destruct (rv_pre_vote a); [done|]. cbv zeta.
    set (n0 := if _ <? rv_term a then _ else _). assert (outbox_ok n0) by (subst n0; destruct (_ <? _); auto with nexus_outbox).
    clearbody n0. destruct (_ <? _); [done|]. destruct (_ && _); [|done]. by apply outbox_election_timer.
  - unfold on_request_vote_reply. destruct (_ <? _); [auto with nexus_outbox|].
    destruct (bool_decide _).
    + destruct (_ && _); [|done]. cbv zeta. destruct (has_majority _ _); [|done]. by apply outbox_candidate.
    + destruct (_ || _); [done|]. destruct (_ && _); [|done]. cbv zeta.
      destruct (has_majority _ _); [|done]. by apply outbox_leader.
  - unfold on_append_entries. destruct (_ <? _); [done|]. cbv zeta.
    pose proof (outbox_contact now (ae_term a) (Some (ae_leader_id a)) n H) as H2.
    revert H2. set (n2 := set_last_leader_contact _ _). clearbody n2. intros H2.
    destruct (_ <? _); [done|]. destruct (term_at _ _); [|done]. destruct (negb _); [done|].
    destruct (append_entries_from _ _) as [[] l]; cbn [negb snd]; [by destruct (_ <? _)|done].
  - unfold on_append_entries_reply. destruct (_ <? _); [auto with nexus_outbox|].
    destruct (_ || _); [done|]. destruct (aer_success r).
    + apply outbox_transfer, outbox_advance_commit. done.
    + by apply outbox_replicate_to.
  - unfold on_timeout_now. destruct (_ || _); [done|]. apply outbox_candidate.
    destruct (_ <? _); auto with nexus_outbox.
  - unfold on_install_snapshot. destruct (_ <? _); [done|]. cbv zeta.
    pose proof (outbox_contact now (is_term a) (Some (is_leader_id a)) n H) as H2.
    revert H2. set (n2 := set_last_leader_contact _ _). clearbody n2. intros H2.
    destruct (install_snapshot _ _ _ _) as [[] l]; cbn [is_ok negb snd]; [by destruct (_ <? _)|done].
  - unfold on_install_snapshot_reply. destruct (_ <? _); [auto with nexus_outbox|].
    destruct (_ || _); [done|]. apply outbox_replicate_to, outbox_advance_commit. done.
  - unfold propose. destruct (negb _); [done|]. cbv zeta.
    destruct (log_append _ _) as [[] l]; [|done]. by apply outbox_advance_commit, outbox_replicate_all.
  - unfold transfer_leadership. repeat (destruct (negb _); [done|]). by apply outbox_transfer.
  - constructor.
  - done.
Qed.

(** ** Where votes come from *)

(** The votes of a candidate or leader after an input: its own, those it had in the same term,
    or one the input brought. *)
Lemma view_step_votes i (w w' : view (L := L)) :
  view_step i w w' -> w_role w' = Candidate \/ w_role w' = Leader -> forall x, x ∈ w_votes w' ->
  x = w_self w' \/
  (w_term w' = w_term w /\ (w_role w = Candidate \/ w_role w = Leader) /\
   (x ∈ w_votes w \/
    exists r, i = IRequestVoteReply x r /\ rvr_term r = w_term w /\ rvr_vote_granted r = true /\
      w_role w = Candidate)).
Proof.
  assert (Hno : forall t (w0 : view (L := L)), w_role (w_follow t w0) = Follower)
    by (intros t w0; unfold w_follow; by destruct (_ <? _)).
  assert (Hcamp : forall (w0 : view (L := L)) x, x ∈ w_votes (w_campaign w0) -> x = w_self (w_campaign w0)).
  { intros w0 x. unfold w_campaign. destruct (w_majority w0 1); cbn; set_solver. }
  destruct 1 as [|w|i t w|w|i w|i t w|a w w0 _ -> _ _|from r w Hr|from r w Hr Ht Hg Hv
    |from r w Hr Ht Hg Hv Hm|i t w|a w l c|a w l c|b w e l c|i w c]; intros Hrole x Hx; cbn in Hrole, Hx;
    try (right; split_and!; [done|done|by left]); auto; try (by destruct Hrole).
  - destruct (_ <? _); [cbn in Hrole; by destruct Hrole|]. right. auto.
  - rewrite Hr in Hrole. by destruct Hrole.
  - right. split_and!; [done|auto|]. apply elem_of_union in Hx as [->%elem_of_singleton|]; eauto 10.
  - right. split_and!; [done|auto|]. apply elem_of_union in Hx as [->%elem_of_singleton|]; eauto 10.
  - rewrite heed_follower in Hrole. by destruct Hrole.
  - rewrite heed_follower in Hrole. by destruct Hrole.
  - rewrite heed_follower in Hrole. by destruct Hrole.
Qed.

Lemma view_step_self i (w w' : view (L := L)) :
  view_step i w w' -> w_self w' = w_self w /\ w_peers w' = w_peers w /\ w_learners w' = w_learners w.
Proof.
  assert (Hf : forall t (w0 : view (L := L)), w_self (w_follow t w0) = w_self w0 /\ w_peers (w_follow t w0) = w_peers w0 /\
    w_learners (w_follow t w0) = w_learners w0) by (intros t w0; unfold w_follow; by destruct (_ <? _)).
  assert (Hh : forall t (w0 : view (L := L)), w_self (w_heed t w0) = w_self w0 /\ w_peers (w_heed t w0) = w_peers w0 /\
    w_learners (w_heed t w0) = w_learners w0) by (intros t w0; unfold w_heed; destruct (_ || _); auto).
  assert (Hc : forall (w0 : view (L := L)), w_self (w_campaign w0) = w_self w0 /\ w_peers (w_campaign w0) = w_peers w0 /\
    w_learners (w_campaign w0) = w_learners w0) by (intros w0; unfold w_campaign; by destruct (w_majority _ _)).
  destruct 1; auto.
  - destruct (Hc (w_follow t w)) as (-> & -> & ->). auto.
  - subst w0. cbn. destruct (_ <? _); auto.
  - apply (Hh (ae_term a) w).
  - apply (Hh (is_term a) w).
Qed.

(** A vote a replica grants is the one it has recorded, in the term the reply names. *)
Lemma on_request_vote_granted now a n r (n' : RaftNode L) :
  on_request_vote now a n = (r, n') -> rv_pre_vote a = false -> rvr_vote_granted r = true ->
  voted_for n' = Some (rv_candidate_id a) /\ rvr_term r = current_term n'.
Proof.
  unfold on_request_vote. intros H Hpre Hg. rewrite Hpre in H. cbv zeta in H.
  set (n0 := if _ <? rv_term a then _ else _) in H. clearbody n0.
  destruct (_ <? _); [by simplify_eq|]. destruct (_ && _); [|by simplify_eq].
  simplify_eq. clear. set (n1 := record_vote _ n0).
  pose proof (view_election_timer now n1) as Hv. split; [|done].
  exact (f_equal w_voted Hv).
Qed.

(** ** Flushing and compacting leave the election alone *)

Definition election_part (n : RaftNode L) : Z * list Z * list Z * RaftRole * RaftPersistentState * gset Z :=
  (self_ n, peers_ n, learners_ n, role_ n, persistent_ n, votes_granted_ n).

Lemma flush_election c sent c' :
  flush_outbox c = (sent, c') ->
  election_part (rc_node c') = election_part (rc_node c) /\
  (forall m, m ∈ sent -> m ∈ outbox_ (rc_node c)) /\
  (forall m, m ∈ outbox_ (rc_node c') -> m ∈ outbox_ (rc_node c)).
Proof.
  unfold flush_outbox. destruct (rc_store c) as [file|].
  - destruct (persistent_dirty_ _); [destruct (store_save _ _) as [[] ?]|]; intros [= <- <-]; cbn;
      split_and!; try done; set_solver.
  - intros [= <- <-]. cbn. split_and!; try done; set_solver.
Qed.

Lemma compact_election c : election_part (rc_node (maybe_compact c)) = election_part (rc_node c).
Proof. unfold maybe_compact. destruct (_ || _); [done|]. cbv zeta. by destruct (_ || _). Qed.

(** ** The invariant *)

(** The votes cast so far, [(voter, term)] to candidate: a ghost of the proof. *)
Abbreviation ballots := (gmap (Z * Z) Z) (only parsing).

Section Invariant.
Context (ids learners : list Z).

Record member_inv (H : ballots) (i : Z) (n : RaftNode L) : Prop := {
  mi_id : i ∈ ids;
  mi_self : self_ n = i;
  mi_peers : peers_ n = filter (fun j => j <> i) ids;
  mi_learners : learners_ n = learners;
  mi_outbox : outbox_ok n;
  mi_leader : leader_inv (view_of n);
  mi_ballot : H !! (i, current_term n) = voted_for n;
  mi_future : forall t, current_term n < t -> H !! (i, t) = None;
  mi_votes : role_ n = Candidate \/ role_ n = Leader ->
    forall x, x ∈ votes_granted_ n -> x ∈ ids /\ H !! (x, current_term n) = Some i;
}.

Definition wire_inv (H : ballots) (mp : RaftMessage * bool) : Prop :=
  m_from mp.1 ∈ ids /\
  match m_payload mp.1 with
  | PRequestVoteArgs a => rv_candidate_id a = m_from mp.1
  | PRequestVoteReply r =>
      mp.2 = false -> rvr_vote_granted r = true -> H !! (m_from mp.1, rvr_term r) = Some (m_to mp.1)
  | _ => True
  end.

Definition cluster_inv (cl : Cluster) : Prop :=
  exists H : ballots,
    (forall i c, cl_members cl !! i = Some c -> member_inv H i (rc_node c)) /\
    Forall (wire_inv H) (cl_wire cl).

Lemma wire_inv_mono (H H1 : ballots) mp : H ⊆ H1 -> wire_inv H mp -> wire_inv H1 mp.
Proof.
  intros Hsub [Hfrom Hp]. split; [done|]. destruct (m_payload mp.1); auto.
  intros Hpre Hg. eapply lookup_weaken; eauto.
Qed.

Lemma member_inv_other (H H1 : ballots) j n :
  H ⊆ H1 -> (forall t, H1 !! (j, t) = H !! (j, t)) -> member_inv H j n -> member_inv H1 j n.
Proof.
  intros Hsub Hj []. split; auto.
  - by rewrite Hj.
  - intros. rewrite Hj. auto.
  - intros Hr x Hx. destruct (mi_votes0 Hr x Hx). split; [done|]. eapply lookup_weaken; eauto.
Qed.

Lemma member_inv_part H i n n' :
  election_part n' = election_part n -> outbox_ok n' -> member_inv H i n -> member_inv H i n'.
Proof.
  unfold election_part. intros [= Hs Hp Hl Hr Hps Hv] Ho [].
  unfold current_term, voted_for in *.
  split; rewrite ?Hs, ?Hp, ?Hl, ?Hr, ?Hps, ?Hv; auto; [|unfold current_term, voted_for; rewrite Hps; done..].
  clear -mi_leader0 Hs Hp Hl Hr Hps Hv. unfold leader_inv, w_majority, w_cluster_size, w_voter in *.
  cbn in *. unfold voted_for in *. rewrite Hs, Hp, Hl, Hr, Hps, Hv. done.
Qed.

(** One input of one member. *)
Lemma member_step (H : ballots) i n now inp :
  inp <> IClearDirty -> member_inv H i n ->
  (forall x r, inp = IRequestVoteReply x r -> role_ n = Candidate -> rvr_vote_granted r = true ->
     rvr_term r = current_term n -> x ∈ ids /\ H !! (x, current_term n) = Some i) ->
  let n1 := node_step now inp n in
  exists H1 : ballots, H ⊆ H1 /\ (forall x t, x <> i -> H1 !! (x, t) = H !! (x, t)) /\ member_inv H1 i n1.
Proof.
  intros Hne [] Hreply n1. pose proof (node_step_view now inp n) as Hstep. fold n1 in Hstep.
  destruct (view_step_vote _ _ _ Hstep) as [Hterm Hvote]. cbn in Hterm, Hvote.
  destruct (view_step_self _ _ _ Hstep) as (Hs & Hp & Hl). cbn in Hs, Hp, Hl.
  pose proof (view_step_leader _ _ _ Hstep mi_leader0) as Hlead.
  pose proof (view_step_votes _ _ _ Hstep) as Hvotes. cbn in Hvotes.
  pose proof (node_step_outbox now inp n mi_outbox0) as Hout. fold n1 in Hout.
  assert (Hold : forall v, H !! (i, current_term n1) = Some v -> voted_for n1 = Some v).
  { intros v Hv. destruct (Z.eq_dec (current_term n1) (current_term n)) as [He|].
    - apply Hvote; [done|]. rewrite He in Hv. congruence.
    - rewrite mi_future0 in Hv by lia. done. }
  exists (match voted_for n1 with Some v => <[(i, current_term n1) := v]> H | None => H end).
  assert (Hsub : H ⊆ match voted_for n1 with Some v => <[(i, current_term n1) := v]> H | None => H end).
  { destruct (voted_for n1) as [v|] eqn:Hv; [|done]. apply map_subseteq_spec. intros k x Hk.
    destruct (decide (k = (i, current_term n1))) as [->|Hkn]; [|by rewrite lookup_insert_ne].
    rewrite lookup_insert_eq. rewrite <- (Hold x Hk). done. }
  assert (Hown : match voted_for n1 with Some v => <[(i, current_term n1) := v]> H | None => H end
    !! (i, current_term n1) = voted_for n1).
  { destruct (voted_for n1) as [v|] eqn:Hv; [by rewrite lookup_insert_eq|].
    destruct (H !! (i, current_term n1)) as [v|] eqn:Hh; [|done]. specialize (Hold v eq_refl). done. }
  split_and!; [done| |split; auto; try congruence].
  - intros x t Hx. destruct (voted_for n1); [|done]. rewrite lookup_insert_ne; [done|congruence].
  - intros t Ht. destruct (voted_for n1); [rewrite lookup_insert_ne by (intros [=]; lia)|]; apply mi_future0; lia.
  - intros Hr x Hx. destruct (Hvotes Hr x Hx) as [->|(Hte & Hrn & Hx')].
    + split; [congruence|]. rewrite Hs, mi_self0. rewrite Hown.
      destruct Hlead as (_ & Hself & _). cbn in Hself. rewrite Hself by done. congruence.
    + assert (x ∈ ids /\ H !! (x, current_term n) = Some i) as [Hid Hb].
      { destruct Hx' as [Hin|(r & -> & Ht & Hg & Hc)]; [by apply mi_votes0|].
        by apply (Hreply x r). }
      split; [done|]. rewrite <- Hte in Hb. exact (lookup_weaken _ _ _ _ Hb Hsub).
Qed.

(** Replacing a member that made a step, with what it sent. *)
Lemma cluster_inv_update (H H1 : ballots) i c cl sent :
  (forall j c', cl_members cl !! j = Some c' -> member_inv H j (rc_node c')) ->
  Forall (wire_inv H) (cl_wire cl) ->
  H ⊆ H1 -> (forall x t, x <> i -> H1 !! (x, t) = H !! (x, t)) ->
  member_inv H1 i (rc_node c) -> Forall (wire_inv H1) sent ->
  cluster_inv (MkCluster (<[i := c]> (cl_members cl)) (cl_wire cl ++ sent)).
Proof.
  intros Hm Hw Hsub Hoff Hi Hs. exists H1. cbn. split.
  - intros j c' [[-> ->]|[Hne Hj]]%lookup_insert_Some; [done|].
    apply (member_inv_other H); auto.
  - apply Forall_app. split; [|done]. eapply Forall_impl; [exact Hw|].
    intros mp. by apply wire_inv_mono.
Qed.

(** A member's queue goes to the wire. *)
Lemma outbox_wire H i n cause m :
  i ∈ ids -> self_ n = i -> outbox_ok n -> m ∈ outbox_ n ->
  wire_inv H (m, match cause with Some q => is_probe q && is_vote_reply m | None => false end).
Proof.
  intros Hid Hs Ho Hm. unfold outbox_ok in Ho. rewrite Forall_forall in Ho.
  destruct (Ho m Hm) as [Hf Hp]. split; cbn; [congruence|]. destruct (m_payload m); try done. congruence.
Qed.

Lemma flush_member H i c sent c' :
  member_inv H i (rc_node c) -> flush_outbox c = (sent, c') ->
  member_inv H i (rc_node (maybe_compact c')) /\ (forall m, m ∈ sent -> m ∈ outbox_ (rc_node c)).
Proof.
  intros Hi Hf. destruct (flush_election _ _ _ Hf) as (He & Hsent & Hout). split; [|done].
  apply (member_inv_part H i (rc_node c)); [by rewrite compact_election| |done].
  assert (Hself : self_ (rc_node (maybe_compact c')) = self_ (rc_node c)).
  { pose proof (compact_election c') as Hc. unfold election_part in *. congruence. }
  unfold outbox_ok. rewrite Hself. destruct (compact_frame c') as (_ & _ & _ & ->).
  apply Forall_forall. intros m Hm. apply Hout in Hm.
  pose proof (mi_outbox _ _ _ Hi) as Ho. unfold outbox_ok in Ho. rewrite Forall_forall in Ho. auto.
Qed.

(** The reply a handler emits: a granted, real vote is on the ballots. *)
Lemma dispatch_replies (H1 : ballots) i n now m :
  i ∈ ids -> self_ n = i -> 
  (forall v, voted_for (node_step now (input_of m) n) = Some v ->
     H1 !! (i, current_term (node_step now (input_of m) n)) = Some v) ->
  (forall a, m_payload m = PRequestVoteArgs a -> rv_candidate_id a = m_from m) ->
  Forall (wire_inv H1) (tag_sent (Some m) (dispatch now m n).1).
Proof.
  intros Hid Hs Hb Hreq. unfold dispatch, input_of in *.
  destruct (m_payload m) as [a|r|a|r|a|a|r] eqn:Hp; cbn [fst]; try (by constructor).
  - cbn [node_step] in Hb. destruct (on_request_vote now a n) as [r n1] eqn:Hrv. cbn in *.
    constructor; [|done]. split; cbn; [congruence|]. unfold is_probe, is_vote_reply. rewrite Hp. cbn.
    rewrite andb_true_r. intros Hpre Hg.
    destruct (on_request_vote_granted _ _ _ _ _ Hrv Hpre Hg) as [Hv Ht].
    rewrite Hs, Ht. rewrite (Hb _ Hv). f_equal. auto.
  - destruct (on_append_entries now a n) as [r n1]. cbn. constructor; [|done]. split; cbn; [congruence|done].
  - destruct (on_install_snapshot now a n) as [r n1]. cbn. constructor; [|done]. split; cbn; [congruence|done].
Qed.

Lemma tag_sent_forall (P : RaftMessage * bool -> Prop) cause sent :
  (forall m, m ∈ sent -> P (m, match cause with Some q => is_probe q && is_vote_reply m | None => false end)) ->
  Forall P (tag_sent cause sent).
Proof. intros H. apply Forall_fmap, Forall_forall. intros m Hm. apply H, Hm. Qed.

(** A call of the client side: no RPC, nothing sent. *)
Lemma cluster_inv_call inp now i c cl :
  (forall x r, inp <> IRequestVoteReply x r) -> inp <> IClearDirty ->
  cluster_inv cl -> cl_members cl !! i = Some c ->
  cluster_inv (MkCluster (<[i := rc_set_node (node_step now inp (rc_node c)) c]> (cl_members cl)) (cl_wire cl)).
Proof.
  intros Hnr Hne (H & Hm & Hw) Hc.
  destruct (member_step H i (rc_node c) now inp Hne (Hm _ _ Hc)) as (H1 & Hsub & Hoff & Hi).
  { intros x r He. by destruct (Hnr x r). }
  rewrite <- (app_nil_r (cl_wire cl)). eapply (cluster_inv_update H H1); eauto.
Qed.

Lemma cluster_step_inv cl cl' : cluster_inv cl -> cluster_step true cl cl' -> cluster_inv cl'.
Proof.
  intros Hinv [act Hact]. destruct act as [i now|slot now|i batch|i target]; cbn [cluster_exec] in Hact.
  - destruct (cl_members cl !! i) as [c|] eqn:Hc; [|done]. destruct Hinv as (H & Hm & Hw).
    destruct (member_step H i (rc_node c) now ITick ltac:(done) (Hm _ _ Hc)) as (H1 & Hsub & Hoff & Hi); [done|].
    unfold carrier_on_tick in Hact. destruct (flush_outbox _) as [sent c'] eqn:Hf.
    destruct (flush_member H1 i (rc_set_node (node_step now ITick (rc_node c)) c) sent c' Hi Hf) as [Hi' Hsent]. simplify_eq.
    apply (cluster_inv_update H H1); auto. apply tag_sent_forall. intros m Hms.
    apply (outbox_wire H1 i _ None m (mi_id _ _ _ Hi) (mi_self _ _ _ Hi) (mi_outbox _ _ _ Hi)). auto.
  - destruct (cl_wire cl !! slot) as [[m pre]|] eqn:Hslot; [|done].
    destruct (cl_members cl !! m_to m) as [c|] eqn:Hc; [|done]. destruct Hinv as (H & Hm & Hw).
    pose proof (Forall_lookup_1 _ _ _ _ Hw Hslot) as [Hfrom Hpay]. cbn in Hfrom, Hpay.
    destruct (true && stale_probe_reply m pre c) eqn:Hstale; [done|]. cbn [andb] in Hstale.
    assert (Hne : input_of m <> IClearDirty) by (unfold input_of; by destruct (m_payload m)).
    destruct (member_step H (m_to m) (rc_node c) now (input_of m) Hne (Hm _ _ Hc)) as (H1 & Hsub & Hoff & Hi).
    { intros x r He Hcand Hg Ht. unfold input_of in He. destruct (m_payload m) as [|r'| | | | |] eqn:Hp; try done.
      injection He as <- <-. split; [done|]. rewrite <- Ht. apply Hpay; [|done].
      unfold stale_probe_reply, is_vote_reply in Hstale. rewrite Hp, andb_true_r in Hstale.
      rewrite bool_decide_true in Hstale by done. by rewrite andb_true_r in Hstale. }
    unfold carrier_on_message in Hact. pose proof (dispatch_step now m (rc_node c)) as Hd.
    pose proof (dispatch_replies H1 (m_to m) (rc_node c) now m (mi_id _ _ _ Hi)
      (mi_self _ _ _ (Hm _ _ Hc))) as Hrep.
    destruct (dispatch now m (rc_node c)) as [replies n1]. cbn [fst snd] in Hd, Hrep. subst n1.
    destruct (flush_outbox _) as [sent c'] eqn:Hf.
    destruct (flush_member H1 (m_to m)
      (rc_set_node (node_step now (input_of m) (rc_node c)) c) sent c' Hi Hf) as [Hi' Hsent]. simplify_eq.
    apply (cluster_inv_update H H1); auto. unfold tag_sent. rewrite fmap_app. apply Forall_app. split.
    + apply Hrep.
      * intros v Hv. rewrite (mi_ballot _ _ _ Hi). done.
      * intros a Ha. by rewrite Ha in Hpay.
    + apply (tag_sent_forall _ (Some m)). intros q Hq.
      apply (outbox_wire H1 (m_to m) _ (Some m) q (mi_id _ _ _ Hi) (mi_self _ _ _ Hi) (mi_outbox _ _ _ Hi)). auto.
  - destruct (cl_members cl !! i) as [c|] eqn:Hc; [|done]. injection Hact as <-.
    by apply (cluster_inv_call (IPropose batch) 0).
  - destruct (cl_members cl !! i) as [c|] eqn:Hc; [|done]. injection Hact as <-.
    by apply (cluster_inv_call (ITransfer target) 0).
Qed.

(** ** Election safety *)

Lemma filter_absent i (l : list Z) : i ∉ l -> filter (fun j => j <> i) l = l.
Proof.
  induction l as [|x l IH]; intros Hi; [done|].
  rewrite filter_cons_True by set_solver. f_equal. apply IH. set_solver.
Qed.

Lemma filter_removed_perm i (l : list Z) : NoDup l -> i ∈ l -> l ≡ₚ i :: filter (fun j => j <> i) l.
Proof.
  induction 1 as [|x l Hx Hl IH]; [set_solver|]. intros [->|Hi]%elem_of_cons.
  - rewrite filter_cons_False by naive_solver. by rewrite filter_absent.
  - rewrite filter_cons_True by (intros ->; done). rewrite IH at 1 by done. apply Permutation_swap.
Qed.

Lemma cluster_size_voters H i n :
  NoDup ids -> member_inv H i n -> cluster_size n = length (filter (fun j => is_voter n j = true) ids).
Proof.
  intros Hnd []. unfold cluster_size.
  assert (Hfold : forall l k, foldl (fun voters peer => (voters + if is_voter n peer then 1 else 0)%nat) k l
    = (k + length (filter (fun j => is_voter n j = true) l))%nat).
  { intros l. induction l as [|x l IH]; intros k; cbn [foldl]; [cbn; lia|]. rewrite IH, filter_cons.
    destruct (decide (is_voter n x = true)) as [->|]; [cbn; lia|]. destruct (is_voter n x); [done|lia]. }
  rewrite Hfold, mi_self0, mi_peers0.
  transitivity (length (filter (fun j => is_voter n j = true) (i :: filter (fun j => j <> i) ids))).
  2: { by rewrite <- filter_removed_perm. }
  rewrite filter_cons. destruct (decide (is_voter n i = true)) as [->|]; [done|]. by destruct (is_voter n i).
Qed.

(** Two majorities of the voting members meet. *)
Lemma majorities_meet (V A B : gset Z) :
  A ⊆ V -> B ⊆ V -> (size V < size A * 2)%nat -> (size V < size B * 2)%nat -> exists x, x ∈ A /\ x ∈ B.
Proof.
  intros HA HB Ha Hb. destruct (decide (A ∩ B = ∅)) as [He|He].
  - assert (Hu : size (A ∪ B) = (size A + size B)%nat) by (apply size_union; set_solver).
    assert (Hs : (size (A ∪ B) <= size V)%nat) by (apply subseteq_size; set_solver). lia.
  - apply set_choose_L in He as [x Hx]. exists x. set_solver.
Qed.

Lemma leaders_agree H i j n m :
  NoDup ids -> member_inv H i n -> member_inv H j m -> role_ n = Leader -> role_ m = Leader ->
  current_term n = current_term m -> i = j.
Proof.
  intros Hnd Hi Hj Hn Hm Ht.
  set (V := list_to_set (filter (fun x => is_voter n x = true) ids) : gset Z).
  assert (Hsize : size V = cluster_size n).
  { rewrite (cluster_size_voters H i n Hnd Hi). unfold V. clear -Hnd. apply size_list_to_set, NoDup_filter. done. }
  assert (Hvoter : forall x, is_voter m x = is_voter n x).
  { intros x. unfold is_voter. by rewrite (mi_learners _ _ _ Hi), (mi_learners _ _ _ Hj). }
  assert (Hsize' : size V = cluster_size m).
  { rewrite Hsize, (cluster_size_voters H i n Hnd Hi), (cluster_size_voters H j m Hnd Hj).
    f_equal. apply list_filter_iff. intros x. by rewrite Hvoter. }
  destruct (mi_leader _ _ _ Hi) as (_ & _ & Hvn & Hmn). destruct (mi_leader _ _ _ Hj) as (_ & _ & Hvm & Hmm).
  cbn in Hvn, Hmn, Hvm, Hmm. specialize (Hmn Hn). specialize (Hmm Hm). apply Nat.ltb_lt in Hmn, Hmm.
  destruct (majorities_meet V (votes_granted_ n) (votes_granted_ m)) as (x & Hxn & Hxm).
  - intros x Hx. destruct (mi_votes _ _ _ Hi (or_intror Hn) x Hx) as [Hid _].
    apply elem_of_list_to_set, list_elem_of_filter. split; [apply (Hvn x Hx)|done].
  - intros x Hx. destruct (mi_votes _ _ _ Hj (or_intror Hm) x Hx) as [Hid _].
    apply elem_of_list_to_set, list_elem_of_filter. split; [|done]. rewrite <- Hvoter. apply (Hvm x Hx).
  - rewrite Hsize. exact Hmn.
  - rewrite Hsize'. exact Hmm.
  - destruct (mi_votes _ _ _ Hi (or_intror Hn) x Hxn) as [_ Hvi].
    destruct (mi_votes _ _ _ Hj (or_intror Hm) x Hxm) as [_ Hvj]. rewrite Ht in Hvi. congruence.
Qed.

Lemma cluster_init_inv config log store : cluster_inv (cluster_init ids learners config log store).
Proof.
  exists ∅. cbn. split; [|constructor]. intros i c Hc.
  apply elem_of_list_to_map_2, list_elem_of_fmap in Hc as (j & [= -> ->] & Hj).
  split; cbn; try done; try (by intros [|]); [constructor|].
  unfold leader_inv. cbn. split_and!; try done; by intros [|].
Qed.

End Invariant.

(** C2. Election safety.  In every state the cluster can reach, from construction, by ticks, message
    deliveries in any order (with loss and duplication), proposals and leadership transfers, two
    leaders of one term are the same member -- provided no reply to a pre-vote probe is delivered
    to a replica that is a candidate by then. *)
Theorem election_safety (ids learners : list Z) (config : RaftConfig) (log : Z -> L)
    (store : Z -> option File) (cl : Cluster) (Hids : NoDup ids)
    (Hreach : rtc (cluster_step true) (cluster_init ids learners config log store) cl)
    (i j : Z) (ci cj : RaftCarrier L)
    (Hi : cl_members cl !! i = Some ci) (Hj : cl_members cl !! j = Some cj)
    (Hli : role_ (rc_node ci) = Leader) (Hlj : role_ (rc_node cj) = Leader)
    (Hterm : current_term (rc_node ci) = current_term (rc_node cj)) : i = j.
Proof.
  assert (Hinv : cluster_inv ids learners cl).
  { clear -Hreach. pose proof (cluster_init_inv ids learners config log store) as H0.
    induction Hreach as [|x y z Hs _ IH]; [done|]. apply IH. by apply (cluster_step_inv ids learners x). }
  destruct Hinv as (H & Hm & _).
  exact (leaders_agree ids learners H i j _ _ Hids (Hm _ _ Hi) (Hm _ _ Hj) Hli Hlj Hterm).
Qed.

Lemma cluster_run_reach strict acts cl cl' :
  cluster_run strict acts cl = Some cl' -> rtc (cluster_step strict) cl cl'.
Proof.
  revert cl. induction acts as [|act acts IH]; intros cl; cbn; [intros [= ->]; constructor|].
  destruct (cluster_exec strict act cl) as [cl1|] eqn:H1; [|done].
  intros H. eapply rtc_l; [by exists act|]. by apply IH.
Qed.
End Cluster.

(** ** Concrete runs *)

(** Three voting members over empty logs. *)
Definition three_members : Cluster (L := AbsLog) :=
  cluster_init [1; 2; 3] [] default_config (fun _ => al_empty) (fun _ => None).

(** Is [i] the leader of [term]? *)
Definition leads (term i : Z) (cl : Cluster (L := AbsLog)) : bool :=
  match cl_members cl !! i with
  | Some c => bool_decide (role_ (rc_node c) = Leader) && (current_term (rc_node c) =? term)
  | None => false
  end.

(** Member 1 wins the election of term 1 and heartbeats. *)
Definition one_election : list ClusterAction :=
  [ATick 1 0; ATick 2 0; ATick 3 0; ATick 1 (ms 2000); ADeliver 0 (ms 2001); ADeliver 2 (ms 2002);
   ADeliver 3 (ms 2003); ADeliver 5 (ms 2004); ADeliver 6 (ms 2005)].

(** Members 1 and 3 probe for votes; member 3 is elected with the vote of member 2, and only then
    does member 1's probe reach member 2. *)
Definition late_probe_run : list ClusterAction :=
  [ATick 1 0; ATick 2 0; ATick 3 0; ATick 1 (ms 2000); ATick 3 (ms 2000);
   ADeliver 1 (ms 2001); ADeliver 4 (ms 2002); ADeliver 3 (ms 2003); ADeliver 7 (ms 2004);
   ADeliver 9 (ms 2005); ADeliver 10 (ms 2006); ADeliver 0 (ms 2007); ADeliver 13 (ms 2008)].

Lemma election_safety_witness :
  exists cl c, cluster_run true one_election three_members = Some cl /\
    cl_members cl !! 1 = Some c /\ role_ (rc_node c) = Leader /\
    forall j cj, cl_members cl !! j = Some cj -> role_ (rc_node cj) = Leader ->
      current_term (rc_node c) = current_term (rc_node cj) -> 1 = j.
Proof.
  destruct (cluster_run true one_election three_members) as [cl|] eqn:Hrun.
  2: { assert (Hs : is_Some (cluster_run true one_election three_members)) by (vm_compute; eauto).
       rewrite Hrun in Hs. destruct Hs as [? [=]]. }
  assert (Hl : option_map (leads 1 1) (cluster_run true one_election three_members) = Some true)
    by (vm_compute; reflexivity).
  rewrite Hrun in Hl. cbn [option_map] in Hl. unfold leads in Hl.
  destruct (cl_members cl !! 1) as [c|] eqn:Hc; [|discriminate].
  destruct (bool_decide_reflect (role_ (rc_node c) = Leader)) as [Hr|]; [|discriminate].
  exists cl, c. split; [done|]. split; [done|]. split; [done|]. intros j cj Hj Hrj Ht.
  apply cluster_run_reach in Hrun.
  refine (election_safety [1; 2; 3] [] default_config (fun _ => al_empty) (fun _ => None) cl
    _ Hrun 1 j c cj Hc Hj Hr Hrj Ht).
  repeat constructor; set_solver.
Defined.

(** Without the proviso of [election_safety] it fails: a vote reply does not say whether it
    answers a probe, so a late grant of a probe (whose term is the voter's current one) counts
    as a vote of the candidate's term, and two members lead term 1. *)
Theorem late_probe_reply_two_leaders :
  exists cl, rtc (cluster_step false) three_members cl /\
    leads 1 1 cl = true /\ leads 1 3 cl = true.
Proof.
  destruct (cluster_run false late_probe_run three_members) as [cl|] eqn:Hrun.
  - exists cl. split; [by apply cluster_run_reach in Hrun|].
    assert (Hl : option_map (fun cl => leads 1 1 cl && leads 1 3 cl)
      (cluster_run false late_probe_run three_members) = Some true) by (vm_compute; reflexivity).
    rewrite Hrun in Hl. injection Hl as Hl. by apply andb_prop in Hl.
  - assert (Hs : is_Some (cluster_run false late_probe_run three_members)) by (vm_compute; eauto).
    rewrite Hrun in Hs. by destruct Hs.
Qed.

(** ** Commitment without replication *)

(** A leader of term 1 with one proposed entry that no follower has: it heartbeats member 2,
    proposes, and is told that the heartbeat was accepted. *)
Definition lone_leader : RaftNode AbsLog :=
  set_outbox [] (become_leader (ms 1) (set_role Candidate (set_persistent (p_restore 1 (Some 1)) false
    (new_node 1 [2; 3] al_empty default_config [])))).

(** The reply to the heartbeat the leader sent before proposing (it carried no entry) is credited
    with the entry proposed since: the leader counts member 2 as holding it and commits it,
    although no message carrying the entry has been answered. *)
Theorem stale_ack_commits_unreplicated :
  let n0 := lone_leader in
  let n1 := node_step (ms 10) (IPropose sample_batch) n0 in
  let n2 := node_step (ms 20) (IAppendEntriesReply 2 (MkAppendEntriesReply 1 true 0)) n1 in
  last_index (log_ n0) = 0 /\ commit_index n1 = 0 /\
  match_index (volatile_ n2) 2 = 1 /\ commit_index n2 = 1.
Proof. vm_compute. done. Qed.
