(* ===== verification/RaftLog.v ===== *)
(** * The Raft log

    Models [RaftLog] of [src/src/consensus/raft_log.hpp] and [raft_log.cpp]: the view of a
    partition log as Raft entries, with its two sidecar files (one fixed record per live entry,
    and the snapshot base).  The partition log is behind the interface [PartitionLogOps]. *)
From stdpp Require Import base list gmap strings.
From Stdlib Require Import ZArith Lia.
From S2P Require Import Prelude Bytes Crc32c Record File RaftState RaftRpc RaftStateStore RaftLogSpec.
#[local] Open Scope Z_scope.

(** ** The partition log, as the Raft log uses it *)

Class PartitionLogOps (P : Type) := {
  log_start_offset : P -> Z;
  log_end_offset : P -> Z;
  pl_append : RecordBatch -> P -> expected Z * P;
  pl_truncate_to : Z -> P -> expected unit * P;
  pl_truncate_prefix_to : Z -> P -> expected unit * P;
  pl_reset_to : Z -> P -> expected unit * P;
  (** [read(offset, max_bytes)]: the bytes of the fragment. *)
  pl_read : P -> Z -> nat -> expected (list byte);
}.

(** What the calls promise about the offsets when they succeed. *)
Class PartitionLogLaws (P : Type) `{!PartitionLogOps P} := {
  pl_append_end : forall b p last, (pl_append b p).1 = Ok last ->
    log_end_offset (pl_append b p).2 = last + 1;
  pl_append_start : forall b p, log_start_offset (pl_append b p).2 = log_start_offset p;
  pl_truncate_end : forall o p, is_ok (pl_truncate_to o p).1 = true ->
    log_end_offset (pl_truncate_to o p).2 = o;
  pl_truncate_start : forall o p, log_start_offset (pl_truncate_to o p).2 = log_start_offset p;
  pl_prefix_end : forall o p, log_end_offset (pl_truncate_prefix_to o p).2 = log_end_offset p;
  pl_reset_end : forall o p, is_ok (pl_reset_to o p).1 = true -> log_end_offset (pl_reset_to o p).2 = o;
}.

Section RaftLog.
Context {P : Type} `{!PartitionLogOps P}.

(** [RaftLog::EntryMeta]. *)
Record EntryMeta := MkMeta {
  em_term : Z;
  em_base_offset : Z;
  em_last_offset : Z;
  em_type : RaftEntryType;
}.

(** The members of [RaftLog]. *)
Record RaftLog := MkRaftLog {
  rl_log : P;
  rl_meta : File;
  rl_snap : File;
  rl_entries : list EntryMeta;
  rl_snapshot_index : Z;
  rl_snapshot_term : Z;
  rl_snapshot_last_offset : Z;
}.

Definition rl_set_log (p : P) (l : RaftLog) : RaftLog :=
  MkRaftLog p (rl_meta l) (rl_snap l) (rl_entries l) (rl_snapshot_index l) (rl_snapshot_term l)
    (rl_snapshot_last_offset l).
Definition rl_set_meta (f : File) (l : RaftLog) : RaftLog :=
  MkRaftLog (rl_log l) f (rl_snap l) (rl_entries l) (rl_snapshot_index l) (rl_snapshot_term l)
    (rl_snapshot_last_offset l).
Definition rl_set_snap (f : File) (l : RaftLog) : RaftLog :=
  MkRaftLog (rl_log l) (rl_meta l) f (rl_entries l) (rl_snapshot_index l) (rl_snapshot_term l)
    (rl_snapshot_last_offset l).
Definition rl_set_entries (es : list EntryMeta) (l : RaftLog) : RaftLog :=
  MkRaftLog (rl_log l) (rl_meta l) (rl_snap l) es (rl_snapshot_index l) (rl_snapshot_term l)
    (rl_snapshot_last_offset l).
Definition rl_set_base (i t o : Z) (l : RaftLog) : RaftLog :=
  MkRaftLog (rl_log l) (rl_meta l) (rl_snap l) (rl_entries l) i t o.

Definition kMetaRecordSize : nat := 25.
Definition kSnapshotRecordSize : nat := 28.
Definition kSnapPayloadOffset : nat := 4.

(** [encode_meta]: the record of one entry. *)
Definition encode_meta (m : EntryMeta) : list byte :=
  store_le 8 (em_term m) ++ store_le 8 (em_base_offset m) ++ store_le 8 (em_last_offset m) ++
  [entry_type_u8 (em_type m)].

(** ** Accessors *)

Definition rl_last_index (l : RaftLog) : Z := rl_snapshot_index l + Z.of_nat (length (rl_entries l)).

Definition rl_last_term (l : RaftLog) : Z :=
  match last (rl_entries l) with
  | Some m => em_term m
  | None => if 0 <? rl_snapshot_index l then rl_snapshot_term l else 0
  end.

Definition slot_of (l : RaftLog) (index : Z) : nat := Z.to_nat (index - rl_snapshot_index l - 1).

(** [entries_[slot]] behind the guards of its callers. *)
Definition meta_at (l : RaftLog) (index : Z) : EntryMeta :=
  default (MkMeta 0 0 0 Data) (rl_entries l !! slot_of l index).

Definition rl_term_at (l : RaftLog) (index : Z) : expected Z :=
  if index =? 0 then Ok 0
  else if index =? rl_snapshot_index l then Ok (rl_snapshot_term l)
  else if index <? rl_snapshot_index l then make_error OutOfRange "term_at: índice compactado"
  else if rl_last_index l <? index then make_error OutOfRange "term_at: índice fuera de rango"
  else Ok (em_term (meta_at l index)).

Definition rl_offsets_at (l : RaftLog) (index : Z) : expected (Z * Z) :=
  if (index <=? rl_snapshot_index l) || (rl_last_index l <? index)
  then make_error OutOfRange "offsets_at: índice fuera de rango"
  else Ok (em_base_offset (meta_at l index), em_last_offset (meta_at l index)).

Definition rl_read_payload (l : RaftLog) (m : EntryMeta) : expected (list byte) :=
  let? bytes := pl_read (rl_log l) (em_base_offset m) 1 in
  match bytes with
  | [] => make_error Corrupt "RaftLog: entrada ausente en el PartitionLog"
  | _ => Ok bytes
  end.

(** The loop of [entries_from]: at most [max] entries from [i] on. *)
Fixpoint entries_loop (l : RaftLog) (i : Z) (max : nat) : expected (list RaftLogEntry) :=
  match max with
  | O => Ok []
  | S max' =>
      if rl_last_index l <? i then Ok []
      else
        let m := meta_at l i in
        let? payload := rl_read_payload l m in
        let? rest := entries_loop l (i + 1) max' in
        Ok (MkEntry (em_term m) i (em_type m) payload :: rest)
  end.

Definition rl_entries_from (l : RaftLog) (index : Z) (max : nat) : expected (list RaftLogEntry) :=
  if index <? 1 then make_error InvalidArgument "entries_from: índice < 1"
  else if index <=? rl_snapshot_index l
  then make_error OutOfRange "entries_from: índice compactado (requiere snapshot)"
  else entries_loop l index max.

(** ** Persistence *)

Definition persist_meta (m : EntryMeta) (l : RaftLog) : expected unit * RaftLog :=
  let '(res, f) := write_at (encode_meta m) (length (rl_entries l) * kMetaRecordSize) (rl_meta l) in
  (res, rl_set_meta f l).

(** The record [persist_snapshot] builds. *)
Definition snapshot_record (i t o : Z) : list byte :=
  let r0 : list byte := replicate kSnapshotRecordSize 0 in
  let r1 := splice 4 (store_le 8 i) r0 in
  let r2 := splice 12 (store_le 8 t) r1 in
  let r3 := splice 20 (store_le 8 o) r2 in
  let crc := crc32c (subspan_n kSnapPayloadOffset (kSnapshotRecordSize - kSnapPayloadOffset) r3) 0 in
  splice 0 (store_le 4 crc) r3.

Definition persist_snapshot (l : RaftLog) : expected unit * RaftLog :=
  let record := snapshot_record (rl_snapshot_index l) (rl_snapshot_term l) (rl_snapshot_last_offset l) in
  match write_at record 0 (rl_snap l) with
  | (Err e, f) => (Err e, rl_set_snap f l)
  | (Ok _, f) => let '(res, f') := file_sync f in (res, rl_set_snap f' l)
  end.

(** The loop of [rewrite_meta], from position [k] on. *)
Fixpoint rewrite_loop (k : nat) (es : list EntryMeta) (f : File) : expected unit * File :=
  match es with
  | [] => (Ok tt, f)
  | m :: es' =>
      match write_at (encode_meta m) (k * kMetaRecordSize) f with
      | (Err e, f') => (Err e, f')
      | (Ok _, f') => rewrite_loop (S k) es' f'
      end
  end.

Definition rewrite_meta (l : RaftLog) : expected unit * RaftLog :=
  match rewrite_loop 0 (rl_entries l) (rl_meta l) with
  | (Err e, f) => (Err e, rl_set_meta f l)
  | (Ok _, f) =>
      match file_truncate (length (rl_entries l) * kMetaRecordSize) f with
      | (Err e, f') => (Err e, rl_set_meta f' l)
      | (Ok _, f') => let '(res, f'') := file_sync f' in (res, rl_set_meta f'' l)
      end
  end.

(** ** Mutating operations *)

(** The loop of [append]; on an error the entries before it stay appended. *)
Fixpoint rl_append (entries : list RaftLogEntry) (l : RaftLog) : expected Z * RaftLog :=
  match entries with
  | [] => (Ok (rl_last_index l), l)
  | entry :: rest =>
      match batch_decode (e_payload entry) with
      | Err e => (Err e, l)
      | Ok batch =>
          let base := log_end_offset (rl_log l) in
          match pl_append batch (rl_log l) with
          | (Err e, p) => (Err e, rl_set_log p l)
          | (Ok last, p) =>
              let m := MkMeta (e_term entry) base last (e_type entry) in
              match persist_meta m (rl_set_log p l) with
              | (Err e, l') => (Err e, l')
              | (Ok _, l') => rl_append rest (rl_set_entries (rl_entries l' ++ [m]) l')
              end
          end
      end
  end.

Definition rl_truncate_from (index : Z) (l : RaftLog) : expected unit * RaftLog :=
  if index <? 1 then (make_error InvalidArgument "truncate_from: índice < 1", l)
  else if index <=? rl_snapshot_index l
  then (make_error InvalidArgument "truncate_from: índice ya compactado", l)
  else if rl_last_index l <? index then (Ok tt, l)
  else
    match pl_truncate_to (em_base_offset (meta_at l index)) (rl_log l) with
    | (Err e, p) => (Err e, rl_set_log p l)
    | (Ok _, p) =>
        match file_truncate (slot_of l index * kMetaRecordSize) (rl_meta l) with
        | (Err e, f) => (Err e, l |> rl_set_log p |> rl_set_meta f)
        | (Ok _, f) =>
            (Ok tt, l |> rl_set_log p |> rl_set_meta f
                      |> rl_set_entries (take (slot_of l index) (rl_entries l)))
        end
    end.

Definition rl_compact_to (up_to_index : Z) (l : RaftLog) : expected unit * RaftLog :=
  if up_to_index <=? rl_snapshot_index l then (Ok tt, l)
  else if rl_last_index l <? up_to_index
  then (make_error InvalidArgument "compact_to: índice más allá del log", l)
  else
    let boundary := meta_at l up_to_index in
    match pl_truncate_prefix_to (em_last_offset boundary + 1) (rl_log l) with
    | (Err e, p) => (Err e, rl_set_log p l)
    | (Ok _, p) =>
        let l' := l |> rl_set_log p
                    |> rl_set_entries (drop (slot_of l up_to_index + 1) (rl_entries l))
                    |> rl_set_base up_to_index (em_term boundary) (em_last_offset boundary) in
        match persist_snapshot l' with
        | (Err e, l'') => (Err e, l'')
        | (Ok _, l'') => rewrite_meta l''
        end
    end.

Definition rl_install_snapshot (index term last_offset : Z) (l : RaftLog) : expected unit * RaftLog :=
  if index <=? rl_snapshot_index l then (Ok tt, l)
  else if (index <=? rl_last_index l) &&
          match rl_term_at l index with Ok existing => existing =? term | Err _ => false end
  then rl_compact_to index l
  else
    match pl_reset_to (last_offset + 1) (rl_log l) with
    | (Err e, p) => (Err e, rl_set_log p l)
    | (Ok _, p) =>
        let l' := l |> rl_set_log p |> rl_set_entries [] |> rl_set_base index term last_offset in
        match persist_snapshot l' with
        | (Err e, l'') => (Err e, l'')
        | (Ok _, l'') => rewrite_meta l''
        end
    end.

(** ** Opening *)

(** [load_snapshot_base]. *)
Definition load_snapshot_base (f : File) : expected (Z * Z * Z) :=
  let? size := file_size f in
  if (size =? 0)%nat then Ok (0, 0, 0)
  else if (size <? kSnapshotRecordSize)%nat then make_error Corrupt "raft-snapshot: registro truncado"
  else
    let? record := read_at kSnapshotRecordSize 0 f in
    if (length record <? kSnapshotRecordSize)%nat then make_error Corrupt "raft-snapshot: lectura corta"
    else
      let stored_crc := load_le_u 4 (subspan_n 0 4 record) in
      let computed_crc :=
        crc32c (subspan_n kSnapPayloadOffset (kSnapshotRecordSize - kSnapPayloadOffset) record) 0 in
      if negb (stored_crc =? computed_crc) then make_error Corrupt "raft-snapshot: CRC32C no casa"
      else Ok (load_le_i 8 (subspan_n 4 8 record), load_le_i 8 (subspan_n 12 8 record),
               load_le_i 8 (subspan_n 20 8 record)).

Definition decode_meta (record : list byte) : EntryMeta :=
  MkMeta (load_le_i 8 (subspan_n 0 8 record)) (load_le_i 8 (subspan_n 8 8 record))
    (load_le_i 8 (subspan_n 16 8 record)) (u8_entry_type (nth 24 record 0)).

(** The loop of [open]: [count] records from position [i] on. *)
Fixpoint load_metas (f : File) (i count : nat) : expected (list EntryMeta) :=
  match count with
  | O => Ok []
  | S count' =>
      let? record := read_at kMetaRecordSize (i * kMetaRecordSize) f in
      if (length record <? kMetaRecordSize)%nat then make_error Corrupt "sidecar de RaftLog truncado"
      else let? rest := load_metas f (S i) count' in Ok (decode_meta record :: rest)
  end.

(** [open], on a partition log and the two sidecars it has opened. *)
Definition rl_open (log : P) (file snap_file : File) : expected RaftLog :=
  let? snapshot := load_snapshot_base snap_file in
  let '(index, term, last_offset) := snapshot in
  let? size := file_size file in
  if negb (size mod kMetaRecordSize =? 0)%nat
  then make_error Corrupt "sidecar de RaftLog: tamaño no múltiplo del registro"
  else
    let? entries := load_metas file 0 (size / kMetaRecordSize) in
    if (0 <? index) && match entries with [] => false | m :: _ => negb (em_base_offset m =? last_offset + 1) end
    then make_error Corrupt "RaftLog: primera entrada incoherente con el snapshot"
    else
      let expected_end := match last entries with
                          | Some m => em_last_offset m + 1
                          | None => if 0 <? index then last_offset + 1 else log_start_offset log
                          end in
      if negb (expected_end =? log_end_offset log)
      then make_error Corrupt "RaftLog: sidecar incoherente con el PartitionLog"
      else Ok (MkRaftLog log file snap_file entries index term last_offset).

(** ** The interface of RaftLogSpec.v *)

#[export] Instance RaftLog_ops : RaftLogOps RaftLog := {|
  last_index := rl_last_index;
  last_term := rl_last_term;
  snapshot_index := rl_snapshot_index;
  snapshot_term := rl_snapshot_term;
  snapshot_last_offset := rl_snapshot_last_offset;
  term_at := rl_term_at;
  entries_from := rl_entries_from;
  log_append := rl_append;
  truncate_from := rl_truncate_from;
  install_snapshot := rl_install_snapshot;
  compact_to := rl_compact_to;
  log_terms l := em_term <$> rl_entries l;
|}.

(** *** The laws *)

(** What lives in memory. *)
Definition in_memory (l : RaftLog) : list EntryMeta * Z * Z * Z :=
  (rl_entries l, rl_snapshot_index l, rl_snapshot_term l, rl_snapshot_last_offset l).

Lemma persist_meta_memory m l : in_memory (persist_meta m l).2 = in_memory l.
Proof. unfold persist_meta. by destruct (write_at _ _ _). Qed.

Lemma persist_snapshot_memory l : in_memory (persist_snapshot l).2 = in_memory l.
Proof.
  unfold persist_snapshot. destruct (write_at _ _ _) as [[] f]; [|done]. by destruct (file_sync f).
Qed.

Lemma rewrite_meta_memory l : in_memory (rewrite_meta l).2 = in_memory l.
Proof.
  unfold rewrite_meta. destruct (rewrite_loop _ _ _) as [[] f]; [|done].
  destruct (file_truncate _ f) as [[] f']; [|done]. by destruct (file_sync f').
Qed.

(** Persisting the base and the live entries, as [compact_to] and [install_snapshot] end. *)
Definition persist_all (l : RaftLog) : expected unit * RaftLog :=
  match persist_snapshot l with (Err e, l') => (Err e, l') | (Ok _, l') => rewrite_meta l' end.

Lemma persist_all_memory l : in_memory (persist_all l).2 = in_memory l.
Proof.
  unfold persist_all. pose proof (persist_snapshot_memory l).
  destruct (persist_snapshot l) as [[] l']; cbn in *; [|done]. by rewrite rewrite_meta_memory.
Qed.

Lemma rl_append_spec es l :
  exists k ms, (k <= length es)%nat /\ rl_entries (rl_append es l).2 = rl_entries l ++ ms /\
    em_term <$> ms = e_term <$> take k es /\
    rl_snapshot_index (rl_append es l).2 = rl_snapshot_index l /\
    rl_snapshot_term (rl_append es l).2 = rl_snapshot_term l /\
    (is_ok (rl_append es l).1 = true ->
       k = length es /\ (rl_append es l).1 = Ok (rl_last_index (rl_append es l).2)).
Proof.
  revert l. induction es as [|e es IH]; intros l; cbn [rl_append].
  { exists 0%nat, []. rewrite app_nil_r. split_and!; auto. }
  assert (Hstop : forall err l', in_memory l' = in_memory l ->
    exists k ms, (k <= length (e :: es))%nat /\ rl_entries l' = rl_entries l ++ ms /\
    em_term <$> ms = e_term <$> take k (e :: es) /\
    rl_snapshot_index l' = rl_snapshot_index l /\ rl_snapshot_term l' = rl_snapshot_term l /\
    (is_ok (@Err Z err) = true -> k = length (e :: es) /\ @Err Z err = Ok (rl_last_index l'))).
  { intros err l' Hm. unfold in_memory in Hm. simplify_eq. exists 0%nat, []. rewrite app_nil_r.
    split_and!; try done; cbn; lia. }
  destruct (batch_decode (e_payload e)) as [b|err]; [|by apply Hstop].
  destruct (pl_append b (rl_log l)) as [[last|err] p]; [|by apply Hstop].
  set (m := MkMeta _ _ _ _). pose proof (persist_meta_memory m (rl_set_log p l)) as Hmem.
  destruct (persist_meta m (rl_set_log p l)) as [[u|err] l'] eqn:Hpm; cbn in Hmem; [|by apply Hstop].
  destruct (IH (rl_set_entries (rl_entries l' ++ [m]) l')) as (k & ms & Hk & Hes & Hms & Hsi & Hst & Hok).
  unfold in_memory in Hmem. injection Hmem as He Hi Ht Ho. cbn in He, Hi, Ht, Ho.
  exists (S k), (m :: ms). cbv beta. rewrite Hes, Hsi, Hst. cbn [rl_entries rl_set_entries rl_snapshot_index
    rl_snapshot_term length take fmap list_fmap]. rewrite Hi, Ht, Hms, He in *.
  split_and!; try done; [lia|by rewrite <- app_assoc|].
  intros H. destruct (Hok H) as [-> Heq]. split; [done|]. exact Heq.
Qed.

Lemma rl_compact_spec i l :
  in_memory (rl_compact_to i l).2 = in_memory l \/
  (rl_snapshot_index l < i <= rl_last_index l /\
   in_memory (rl_compact_to i l).2 =
     (drop (slot_of l i + 1) (rl_entries l), i, em_term (meta_at l i), em_last_offset (meta_at l i))).
Proof.
  unfold rl_compact_to. destruct (Z.leb_spec i (rl_snapshot_index l)); [by left|].
  destruct (Z.ltb_spec (rl_last_index l) i); [by left|].
  destruct (pl_truncate_prefix_to _ _) as [[] p]; [|by left]. right. split; [lia|]. cbv zeta.
  set (l' := rl_set_base _ _ _ _). pose proof (persist_all_memory l') as H'.
  unfold persist_all in H'. rewrite H'. done.
Qed.

Lemma rl_compact_done i l : is_ok (rl_compact_to i l).1 = true -> i <= rl_snapshot_index (rl_compact_to i l).2.
Proof.
  unfold rl_compact_to. destruct (Z.leb_spec i (rl_snapshot_index l)); [done|].
  destruct (Z.ltb_spec (rl_last_index l) i); [done|].
  destruct (pl_truncate_prefix_to _ _) as [[] p]; [|done]. intros _. cbv zeta.
  set (l' := rl_set_base _ _ _ _). pose proof (persist_all_memory l') as H'.
  unfold persist_all in H'. unfold in_memory in H'. injection H' as _ Hi _ _. rewrite Hi. cbn. lia.
Qed.

Lemma rl_install_spec i t o l :
  rl_snapshot_index l <= rl_snapshot_index (rl_install_snapshot i t o l).2 /\
  (is_ok (rl_install_snapshot i t o l).1 = true -> i <= rl_snapshot_index (rl_install_snapshot i t o l).2).
Proof.
  unfold rl_install_snapshot. destruct (Z.leb_spec i (rl_snapshot_index l)); [cbn; lia|].
  destruct (_ && _) eqn:Hkeep.
  - split; [|apply rl_compact_done].
    destruct (rl_compact_spec i l) as [Hm|[Hi Hm]]; unfold in_memory in Hm; injection Hm as _ -> _ _; lia.
  - destruct (pl_reset_to _ _) as [[] p]; [|cbn; split; [lia|done]]. cbv zeta.
    set (l' := rl_set_base _ _ _ _). pose proof (persist_all_memory l') as H'.
    unfold persist_all in H'. unfold in_memory in H'. injection H' as _ Hi _ _. rewrite Hi. cbn. lia.
Qed.

Lemma meta_at_lookup l i m : rl_entries l !! slot_of l i = Some m -> meta_at l i = m.
Proof. unfold meta_at. by intros ->. Qed.

#[export] Instance RaftLog_laws : RaftLogLaws RaftLog.
Proof.
  split; intros; cbn [last_index snapshot_index snapshot_term term_at log_append truncate_from
    install_snapshot compact_to log_terms RaftLog_ops] in *.
  - by rewrite length_fmap.
  - done.
  - unfold rl_term_at. rewrite (proj2 (Z.eqb_neq _ _)) by done. by rewrite Z.eqb_refl.
  - unfold rl_term_at. rewrite (proj2 (Z.eqb_neq i 0)), (proj2 (Z.eqb_neq i (rl_snapshot_index l))) by lia.
    by rewrite (proj2 (Z.ltb_lt _ _)) by lia.
  - unfold rl_term_at. rewrite (proj2 (Z.eqb_neq i 0)), (proj2 (Z.eqb_neq i (rl_snapshot_index l))) by lia.
    rewrite (proj2 (Z.ltb_ge _ _)), (proj2 (Z.ltb_lt _ _)) by lia. done.
  - unfold rl_term_at. rewrite (proj2 (Z.eqb_neq i 0)), (proj2 (Z.eqb_neq i (rl_snapshot_index l))) by lia.
    rewrite (proj2 (Z.ltb_ge _ _)) by lia. rewrite list_lookup_fmap in H1. fold (slot_of l i) in H1.
    destruct (rl_entries l !! slot_of l i) as [m|] eqn:Hm; [|done]. cbn in H1. simplify_eq.
    rewrite (proj2 (Z.ltb_ge _ _)); [by rewrite (meta_at_lookup _ _ _ Hm)|].
    apply lookup_lt_Some in Hm. unfold slot_of, rl_last_index in *. lia.
  - destruct (rl_append_spec es l) as (k & ms & _ & _ & _ & Hi & Ht & _). auto.
  - destruct (rl_append_spec es l) as (k & ms & Hk & Hes & Hms & _ & _ & Hok).
    exists k. split_and!; [done| |done]. by rewrite Hes, fmap_app, Hms.
  - unfold rl_truncate_from. destruct (i <? 1); [done|]. destruct (i <=? _); [done|].
    destruct (_ <? i); [done|]. destruct (pl_truncate_to _ _) as [[] p]; [|done].
    by destruct (file_truncate _ _) as [[] f].
  - unfold rl_truncate_from. destruct (i <? 1); [done|]. destruct (Z.leb_spec i (rl_snapshot_index l)); [done|].
    destruct (Z.ltb_spec (rl_last_index l) i); cbn [is_ok fst].
    { split; [lia|]. cbn [snd]. rewrite take_ge; [done|]. rewrite length_fmap.
      unfold rl_last_index in *. lia. }
    destruct (pl_truncate_to _ _) as [[] p]; [|done].
    destruct (file_truncate _ _) as [[] f]; cbn [is_ok fst snd]; [|done].
    split; [lia|]. cbn. by rewrite fmap_take.
  - destruct (rl_compact_spec i l) as [Hm|[Hi Hm]]; unfold in_memory in Hm; injection Hm as He Hsi _ _.
    + exists 0%nat. rewrite He, Hsi, drop_0. split_and!; [lia|lia|done|]. rewrite <- Hsi. apply rl_compact_done.
    + exists (slot_of l i + 1)%nat. rewrite He, Hsi, fmap_drop, length_fmap.
      unfold slot_of, rl_last_index in *. split_and!; [lia|lia|done|lia].
  - apply rl_install_spec.
  - destruct (rl_install_spec i t o l) as [_ Hd]. specialize (Hd H). split; [done|].
    unfold rl_last_index. lia.
Qed.

End RaftLog.
Arguments RaftLog P : clear implicits.
