(* ===== verification/RaftLogRecovery.v ===== *)
(** * Reopening the Raft log

    The sidecars of [RaftLog] ([src/src/consensus/raft_log.cpp]) hold the log: after any sequence
    of successful operations, [open] on the files gives back the very log that wrote them.  The
    invariant that relates memory, files and partition log, its preservation by every operation,
    and a partition log in memory for the concrete runs. *)
From stdpp Require Import base list gmap strings.
From Stdlib Require Import ZArith Lia.
From S2P Require Import Prelude Bytes Crc32c Record File RaftState RaftRpc RaftStateStore RaftLogSpec RaftLog.
#[local] Open Scope Z_scope.

Section Recovery.
Context {P : Type} `{!PartitionLogOps P, !PartitionLogLaws P}.
(** Offsets are 64-bit integers. *)
Context (end_range : forall p : P, i_range 64 (log_end_offset p)).
Context (append_range : forall b (p : P) last, (pl_append b p).1 = Ok last -> i_range 64 last).

(** ** Records *)

Definition meta_ok (m : EntryMeta) : Prop :=
  i_range 64 (em_term m) /\ i_range 64 (em_base_offset m) /\ i_range 64 (em_last_offset m).

Lemma length_encode_meta m : length (encode_meta m) = kMetaRecordSize.
Proof. unfold encode_meta. autorewrite with nexus_bytes. done. Qed.

Lemma decode_encode_meta m : meta_ok m -> decode_meta (encode_meta m) = m.
Proof.
  intros (Ht & Hb & Hl). unfold decode_meta, encode_meta, subspan_n.
  rewrite drop_0, (take_all_app 8) by apply length_store_le.
  rewrite (drop_all_app 8), (take_all_app 8) by apply length_store_le.
  change (drop (A := byte) 16) with (drop (A := byte) (8 + 8)).
  rewrite <- drop_drop, !(drop_all_app 8) by apply length_store_le.
  rewrite (take_all_app 8) by apply length_store_le.
  rewrite !app_assoc, app_nth2 by (rewrite !length_app, !length_store_le; lia).
  rewrite !length_app, !length_store_le, !load_exact_i by (done || lia).
  destruct m as [? ? ? []]; reflexivity.
Qed.

Definition metas_bytes (es : list EntryMeta) : list byte := concat (encode_meta <$> es).

Lemma metas_bytes_app a b : metas_bytes (a ++ b) = metas_bytes a ++ metas_bytes b.
Proof. unfold metas_bytes. by rewrite fmap_app, concat_app. Qed.

Lemma length_metas_bytes es : length (metas_bytes es) = (length es * kMetaRecordSize)%nat.
Proof.
  unfold metas_bytes. induction es as [|m es IH]; [done|]. cbn [fmap list_fmap concat length].
  rewrite length_app, length_encode_meta, IH. lia.
Qed.

Lemma load_metas_bytes es done_ f :
  no_errors (f_reads f) -> Forall meta_ok es -> f_content f = metas_bytes (done_ ++ es) ->
  load_metas f (length done_) (length es) = Ok es.
Proof.
  intros Hr Hes. revert done_. induction Hes as [|m es Hm Hes IH]; intros done_ Hc; [done|].
  cbn [load_metas length]. unfold read_at. rewrite read_loop_complete by done. cbn [expected_bind].
  assert (Hsub : subspan_n (length done_ * kMetaRecordSize) kMetaRecordSize (f_content f) = encode_meta m).
  { unfold subspan_n. rewrite Hc, metas_bytes_app. rewrite <- length_metas_bytes, drop_app_length.
    unfold metas_bytes. cbn [fmap list_fmap concat]. apply take_all_app, length_encode_meta. }
  rewrite Hsub, length_encode_meta, Nat.ltb_irrefl, decode_encode_meta by done.
  replace (S (length done_)) with (length (done_ ++ [m])) by (rewrite length_app; cbn; lia).
  rewrite IH; [done|]. by rewrite <- app_assoc.
Qed.

(** ** The snapshot base *)

Definition base_payload (i t o : Z) : list byte := store_le 8 i ++ store_le 8 t ++ store_le 8 o.

Lemma length_base_payload i t o : length (base_payload i t o) = 24%nat.
Proof. unfold base_payload. autorewrite with nexus_bytes. done. Qed.

Lemma snapshot_record_layout i t o :
  snapshot_record i t o = store_le 4 (crc32c (base_payload i t o) 0) ++ base_payload i t o.
Proof.
  unfold snapshot_record, base_payload.
  set (a := store_le 8 i). set (b := store_le 8 t). set (c := store_le 8 o).
  assert (Ha : length a = 8%nat) by apply length_store_le.
  assert (Hb : length b = 8%nat) by apply length_store_le.
  assert (Hc : length c = 8%nat) by apply length_store_le.
  clearbody a b c. cbv zeta. explode.
  match goal with |- splice 0 (store_le 4 ?x) _ = _ => set (k := store_le 4 x) end.
  assert (Hk : length k = 4%nat) by apply length_store_le.
  match goal with |- _ = ?l ++ _ => change l with k end.
  clearbody k. explode. reflexivity.
Qed.

Lemma length_snapshot_record i t o : length (snapshot_record i t o) = 28%nat.
Proof. rewrite snapshot_record_layout, length_app, length_store_le, length_base_payload. done. Qed.

Definition base_ok (i t o : Z) : Prop := i_range 64 i /\ i_range 64 t /\ i_range 64 o.

Lemma load_snapshot_record f i t o :
  no_errors (f_reads f) -> base_ok i t o -> f_content f = snapshot_record i t o ->
  load_snapshot_base f = Ok (i, t, o).
Proof.
  intros Hr (Hi & Ht & Ho) Hc.
  assert (Hsize : file_size f = Ok 28%nat).
  { unfold file_size. rewrite Hc, length_snapshot_record. destruct Hr as [|[] ? Hx]; done. }
  assert (Hread : read_at kSnapshotRecordSize 0 f = Ok (snapshot_record i t o)).
  { unfold read_at. rewrite read_loop_complete by done. f_equal. rewrite Hc. unfold subspan_n.
    rewrite drop_0. apply take_ge. rewrite length_snapshot_record. cbv; lia. }
  unfold load_snapshot_base. rewrite Hsize. cbn [expected_bind]. change (28 =? 0)%nat with false.
  change (28 <? kSnapshotRecordSize)%nat with false. cbv iota. rewrite Hread. cbn [expected_bind].
  rewrite length_snapshot_record. change (28 <? kSnapshotRecordSize)%nat with false. cbv iota.
  rewrite snapshot_record_layout. unfold subspan_n.
  change (kSnapshotRecordSize - kSnapPayloadOffset)%nat with 24%nat.
  change kSnapPayloadOffset with 4%nat.
  change (drop (A := byte) 12) with (drop (A := byte) (4 + 8)).
  change (drop (A := byte) 20) with (drop (A := byte) (4 + (8 + 8))). rewrite <- !drop_drop.
  rewrite !(drop_all_app 4), drop_0, (take_all_app 4) by apply length_store_le.
  rewrite (take_ge (base_payload i t o) 24) by (rewrite length_base_payload; lia).
  rewrite load_exact_u.
  2: { apply u_range_crc32c; [by_range|]. unfold base_payload. rewrite !Forall_app.
       repeat split; apply store_le_bytes. }
  rewrite Z.eqb_refl. cbn [negb]. unfold base_payload.
  rewrite (take_all_app 8), (drop_all_app 8), (take_all_app 8) by apply length_store_le.
  rewrite !(drop_all_app 8) by apply length_store_le.
  rewrite (take_ge (store_le 8 o)) by (rewrite length_store_le; lia).
  by rewrite !load_exact_i by (done || lia).
Qed.

(** ** The invariant *)

(** The live entries occupy consecutive offsets from [off] on. *)
Fixpoint entry_chain (off : Z) (es : list EntryMeta) : Prop :=
  match es with
  | [] => True
  | m :: es' => em_base_offset m = off /\ entry_chain (em_last_offset m + 1) es'
  end.

Definition chain_end (off : Z) (es : list EntryMeta) : Z :=
  match last es with Some m => em_last_offset m + 1 | None => off end.

Definition first_offset (l : RaftLog P) : Z :=
  if 0 <? rl_snapshot_index l then rl_snapshot_last_offset l + 1 else log_start_offset (rl_log l).

Record rl_inv (l : RaftLog P) : Prop := {
  ri_meta : f_content (rl_meta l) = metas_bytes (rl_entries l);
  ri_snap : (rl_snapshot_index l = 0 /\ rl_snapshot_term l = 0 /\ rl_snapshot_last_offset l = 0 /\
               f_content (rl_snap l) = []) \/
            (0 < rl_snapshot_index l /\
               f_content (rl_snap l) =
                 snapshot_record (rl_snapshot_index l) (rl_snapshot_term l) (rl_snapshot_last_offset l));
  ri_base : base_ok (rl_snapshot_index l) (rl_snapshot_term l) (rl_snapshot_last_offset l);
  ri_entries : Forall meta_ok (rl_entries l);
  ri_chain : entry_chain (first_offset l) (rl_entries l);
  ri_end : chain_end (first_offset l) (rl_entries l) = log_end_offset (rl_log l);
  ri_reads : no_errors (f_reads (rl_meta l)) /\ no_errors (f_reads (rl_snap l));
}.

Lemma chain_end_cons off m es : chain_end off (m :: es) = chain_end (em_last_offset m + 1) es.
Proof. unfold chain_end. rewrite last_cons. by destruct (last es). Qed.

Lemma entry_chain_app off a b :
  entry_chain off (a ++ b) <-> entry_chain off a /\ entry_chain (chain_end off a) b.
Proof.
  revert off. induction a as [|m a IH]; intros off; cbn [app entry_chain]; [unfold chain_end; cbn; tauto|].
  rewrite IH, chain_end_cons. tauto.
Qed.

Lemma chain_end_app off a b : chain_end off (a ++ b) = chain_end (chain_end off a) b.
Proof. unfold chain_end. rewrite last_app. by destruct (last b). Qed.

(** Opening the files of a log in the invariant. *)
Lemma rl_open_inv l : rl_inv l -> rl_open (rl_log l) (rl_meta l) (rl_snap l) = Ok l.
Proof.
  intros [Hmeta Hsnap Hbase Hes Hchain Hend [Hr1 Hr2]]. unfold rl_open.
  assert (Hload : load_snapshot_base (rl_snap l)
    = Ok (rl_snapshot_index l, rl_snapshot_term l, rl_snapshot_last_offset l)).
  { destruct Hsnap as [(-> & -> & -> & Hc)|[_ Hc]]; [|by apply load_snapshot_record].
    unfold load_snapshot_base, file_size. rewrite Hc. destruct Hr2 as [|[] ? Hx]; done. }
  rewrite Hload. cbn [expected_bind].
  assert (Hsize : file_size (rl_meta l) = Ok (length (rl_entries l) * kMetaRecordSize)%nat).
  { unfold file_size. rewrite Hmeta, length_metas_bytes. destruct Hr1 as [|[] ? Hx]; done. }
  rewrite Hsize. cbn [expected_bind]. rewrite Nat.Div0.mod_mul. cbn [Nat.eqb negb].
  rewrite Nat.div_mul by done.
  pose proof (load_metas_bytes (rl_entries l) [] (rl_meta l) Hr1 Hes Hmeta) as Hload2.
  cbn [length] in Hload2. rewrite Hload2. cbn [expected_bind].
  unfold first_offset in *. destruct (Z.ltb_spec 0 (rl_snapshot_index l)); cbn [andb].
  - assert (match rl_entries l with [] => false | m :: _ =>
      negb (em_base_offset m =? rl_snapshot_last_offset l + 1) end = false) as ->.
    { destruct (rl_entries l); [done|]. destruct Hchain as [-> _]. by rewrite Z.eqb_refl. }
    unfold chain_end in Hend. rewrite Hend, Z.eqb_refl. by destruct l.
  - unfold chain_end in Hend. rewrite Hend, Z.eqb_refl. by destruct l.
Qed.

(** ** Preservation *)

(** Rewriting the base and the live entries, after the log moved to a new base. *)
Lemma persist_snapshot_ok (l l' : RaftLog P) u :
  persist_snapshot l = (Ok u, l') ->
  (length (f_content (rl_snap l)) <= 28)%nat ->
  f_content (rl_snap l') =
    snapshot_record (rl_snapshot_index l) (rl_snapshot_term l) (rl_snapshot_last_offset l) /\
  f_reads (rl_snap l') = f_reads (rl_snap l) /\ rl_meta l' = rl_meta l /\ rl_log l' = rl_log l /\
  in_memory l' = in_memory l.
Proof.
  intros Hp Hlen. pose proof (persist_snapshot_memory l) as Hmem. rewrite Hp in Hmem. cbn in Hmem.
  unfold persist_snapshot in Hp. set (r := snapshot_record _ _ _) in *.
  destruct (write_at r 0 (rl_snap l)) as [[u1|] f] eqn:Hw; [|done].
  apply write_at_ok in Hw as [Hc Hr]; [|right; lia].
  destruct (file_sync_content f) as [Hsc Hsr]. destruct (file_sync f) as [res f'] eqn:Hs.
  cbn in Hsc, Hsr. injection Hp as -> <-. split_and!; try done; [|cbn; congruence].
  cbn. rewrite Hsc, Hc. unfold pwrite, splice. rewrite Nat.sub_0_l. cbn [replicate].
  rewrite app_nil_r, take_0. cbn [app]. subst r. rewrite length_snapshot_record, drop_ge by lia.
  by rewrite app_nil_r.
Qed.

Lemma rewrite_loop_ok es k pre f u f' :
  rewrite_loop k es f = (Ok u, f') -> length pre = (k * kMetaRecordSize)%nat ->
  take (k * kMetaRecordSize) (f_content f) = pre ->
  take ((k + length es) * kMetaRecordSize) (f_content f') = pre ++ metas_bytes es /\
  f_reads f' = f_reads f.
Proof.
  revert k pre f. induction es as [|m es IH]; intros k pre f Hl Hpre Htake; cbn [rewrite_loop] in Hl.
  { injection Hl as _ <-. rewrite Nat.add_0_r. unfold metas_bytes. cbn. by rewrite app_nil_r. }
  destruct (write_at _ _ f) as [[u1|] f1] eqn:Hw; [|done].
  apply write_at_ok in Hw as [Hc Hr].
  2: { left. intros He. apply (f_equal length) in He. by rewrite length_encode_meta in He. }
  assert (Hle : (k * kMetaRecordSize <= length (f_content f))%nat).
  { rewrite <- Hpre, <- Htake, length_take. lia. }
  destruct (IH (S k) (pre ++ encode_meta m) f1) as [H1 H2]; [done| | |].
  - rewrite length_app, length_encode_meta, Hpre. lia.
  - rewrite Hc. replace (S k * kMetaRecordSize)%nat with (k * kMetaRecordSize + length (encode_meta m))%nat
      by (rewrite length_encode_meta; lia). by rewrite take_pwrite, Htake.
  - split; [|congruence]. cbn [length]. rewrite Nat.add_succ_r. rewrite <- Nat.add_succ_l, H1, <- app_assoc. done.
Qed.

Lemma rewrite_meta_ok (l l' : RaftLog P) u :
  rewrite_meta l = (Ok u, l') ->
  f_content (rl_meta l') = metas_bytes (rl_entries l) /\ f_reads (rl_meta l') = f_reads (rl_meta l) /\
  rl_snap l' = rl_snap l /\ rl_log l' = rl_log l /\ in_memory l' = in_memory l.
Proof.
  intros Hp. pose proof (rewrite_meta_memory l) as Hmem. rewrite Hp in Hmem. cbn in Hmem.
  unfold rewrite_meta in Hp. destruct (rewrite_loop _ _ _) as [[u1|] f] eqn:Hl; [|done].
  apply (rewrite_loop_ok _ _ []) in Hl as [Ht Hr]; [|done|done]. cbn [app Nat.add] in Ht.
  destruct (file_truncate _ f) as [[u2|] f1] eqn:Htr; [|done].
  apply file_truncate_ok in Htr as [Hc1 Hr1]. destruct (file_sync_content f1) as [Hsc Hsr].
  destruct (file_sync f1) as [res f2] eqn:Hs. cbn in Hsc, Hsr. injection Hp as -> <-.
  split_and!; try done; [|cbn; congruence]. cbn. rewrite Hsc, Hc1. unfold ftruncate. rewrite Ht.
  assert (Hlen : (length (rl_entries l) * kMetaRecordSize <= length (f_content f))%nat).
  { rewrite <- length_metas_bytes, <- Ht, length_take. lia. }
  replace (_ - _)%nat with 0%nat by lia. by rewrite app_nil_r.
Qed.

(** The common end of [compact_to] and [install_snapshot]. *)
Lemma persist_all_inv (l l' : RaftLog P) u :
  persist_all l = (Ok u, l') -> (length (f_content (rl_snap l)) <= 28)%nat -> 0 < rl_snapshot_index l ->
  base_ok (rl_snapshot_index l) (rl_snapshot_term l) (rl_snapshot_last_offset l) ->
  Forall meta_ok (rl_entries l) -> entry_chain (rl_snapshot_last_offset l + 1) (rl_entries l) ->
  chain_end (rl_snapshot_last_offset l + 1) (rl_entries l) = log_end_offset (rl_log l) ->
  no_errors (f_reads (rl_meta l)) -> no_errors (f_reads (rl_snap l)) -> rl_inv l'.
Proof.
  unfold persist_all. intros Hp Hlen Hpos Hb Hes Hch Hend Hr1 Hr2.
  destruct (persist_snapshot l) as [[u1|] l1] eqn:Hs; [|done].
  apply persist_snapshot_ok in Hs as (Hc & Hr & Hm & Hl & Hmem); [|done].
  apply rewrite_meta_ok in Hp as (Hc' & Hr' & Hsn & Hl' & Hmem'). rewrite Hmem in Hmem'.
  unfold in_memory in Hmem, Hmem'. injection Hmem as He1 Hi1 Ht1 Ho1. injection Hmem' as He Hi Ht Ho.
  assert (Hfirst : first_offset l' = rl_snapshot_last_offset l + 1).
  { unfold first_offset. rewrite Hi, (proj2 (Z.ltb_lt _ _)) by lia. by rewrite Ho. }
  split; rewrite ?Hfirst, ?He, ?Hi, ?Ht, ?Ho; try done.
  - by rewrite Hc', He1.
  - right. split; [done|]. by rewrite Hsn.
  - by rewrite Hl', Hl.
  - rewrite Hr', Hm, Hsn, Hr. done.
Qed.

Lemma snap_length l : rl_inv l -> (length (f_content (rl_snap l)) <= 28)%nat.
Proof. intros []. destruct ri_snap0 as [(_ & _ & _ & ->)|[_ ->]]; [cbn; lia|]. by rewrite length_snapshot_record. Qed.

Lemma rl_inv_index l : rl_inv l -> 0 <= rl_snapshot_index l.
Proof. intros []. destruct ri_snap0; lia. Qed.

(** Splitting the live entries at a live index. *)
Lemma split_at_index (l : RaftLog P) i :
  rl_snapshot_index l < i -> i <= rl_last_index l ->
  rl_entries l = take (slot_of l i) (rl_entries l) ++ meta_at l i :: drop (slot_of l i + 1) (rl_entries l).
Proof.
  intros H1 H2. assert (Hs : is_Some (rl_entries l !! slot_of l i)).
  { apply lookup_lt_is_Some. unfold slot_of, rl_last_index in *. lia. }
  destruct Hs as [m Hm]. rewrite (meta_at_lookup _ _ _ Hm), Nat.add_1_r.
  by rewrite take_drop_middle.
Qed.

Lemma compact_inv i l u l' : rl_inv l -> rl_compact_to i l = (Ok u, l') -> i_range 64 i -> rl_inv l'.
Proof.
  intros Hinv Hc Hi. pose proof (snap_length l Hinv) as Hlen. pose proof (rl_inv_index l Hinv) as Hnn.
  unfold rl_compact_to in Hc. destruct (Z.leb_spec i (rl_snapshot_index l)); [by simplify_eq|].
  destruct (Z.ltb_spec (rl_last_index l) i); [done|].
  pose proof (pl_prefix_end (em_last_offset (meta_at l i) + 1) (rl_log l)) as Hpe.
  destruct (pl_truncate_prefix_to _ _) as [[u1|] p]; [|done]. cbn in Hpe.
  pose proof (split_at_index l i ltac:(lia) ltac:(lia)) as Hsplit.
  destruct Hinv as [Hm Hs Hb Hes Hch Hend [Hr1 Hr2]]. rewrite Hsplit in Hes, Hch, Hend.
  apply Forall_app in Hes as [_ Hes]. apply Forall_cons in Hes as [Hmok Hes].
  apply entry_chain_app in Hch as [_ [_ Hch]]. rewrite chain_end_app, chain_end_cons in Hend.
  apply (persist_all_inv _ _ _ Hc); cbn; try done; try lia.
  destruct Hmok as (? & ? & ?). by split.
Qed.

Lemma truncate_inv i l u l' : rl_inv l -> rl_truncate_from i l = (Ok u, l') -> rl_inv l'.
Proof.
  intros Hinv Ht. unfold rl_truncate_from in Ht. destruct (i <? 1); [done|].
  destruct (Z.leb_spec i (rl_snapshot_index l)); [done|].
  destruct (Z.ltb_spec (rl_last_index l) i); [by simplify_eq|].
  pose proof (pl_truncate_end (em_base_offset (meta_at l i)) (rl_log l)) as Hpe.
  pose proof (pl_truncate_start (em_base_offset (meta_at l i)) (rl_log l)) as Hps.
  destruct (pl_truncate_to _ _) as [[u1|] p]; [|done]. cbn in Hpe, Hps. specialize (Hpe eq_refl).
  destruct (file_truncate _ (rl_meta l)) as [[u2|] f] eqn:Hf; [|done].
  apply file_truncate_ok in Hf as [Hfc Hfr]. injection Ht as _ <-.
  pose proof (split_at_index l i ltac:(lia) ltac:(lia)) as Hsplit.
  destruct Hinv as [Hm Hs Hb Hes Hch Hend [Hr1 Hr2]].
  rewrite Hsplit in Hm, Hes, Hch. apply Forall_app in Hes as [Hes _].
  apply entry_chain_app in Hch as [Hch [Hbase _]].
  assert (Hslot : (slot_of l i <= length (rl_entries l))%nat) by (unfold slot_of, rl_last_index in *; lia).
  set (l' := rl_set_entries _ _).
  assert (Hfirst : first_offset l' = first_offset l) by (unfold first_offset; cbn; by rewrite Hps).
  split; rewrite ?Hfirst; cbn; try done.
  - rewrite Hfc, Hm, metas_bytes_app. unfold ftruncate.
    set (a := metas_bytes (take _ _)). set (b := metas_bytes (_ :: _)).
    assert (Ha : length a = (slot_of l i * kMetaRecordSize)%nat).
    { subst a. rewrite length_metas_bytes, length_take_le; [done|lia]. }
    rewrite (take_all_app _ a b Ha), length_app, Ha. replace (_ - _)%nat with 0%nat by lia.
    by rewrite app_nil_r.
  - by rewrite Hpe, Hbase.
  - by rewrite Hfr.
Qed.

Lemma append_inv es l z l' :
  rl_inv l -> Forall (fun e => i_range 64 (e_term e)) es -> rl_append es l = (Ok z, l') -> rl_inv l'.
Proof.
  intros Hinv Hes. revert l Hinv. induction Hes as [|e es He Hes IH]; intros l Hinv; cbn [rl_append].
  { by intros [= _ <-]. }
  destruct (batch_decode (e_payload e)) as [b|]; [|done].
  pose proof (fun last => append_range b (rl_log l) last) as Hrange.
  pose proof (fun last => pl_append_end b (rl_log l) last) as Hpe.
  pose proof (pl_append_start b (rl_log l)) as Hps.
  destruct (pl_append b (rl_log l)) as [[last|] p]; [|done]. cbn in Hrange, Hpe, Hps.
  specialize (Hrange last eq_refl). specialize (Hpe last eq_refl).
  unfold persist_meta. cbn [rl_entries rl_meta rl_set_log].
  destruct (write_at _ _ (rl_meta l)) as [[u|] f] eqn:Hw; [|done]. intros Happ.
  destruct Hinv as [Hm Hs Hb Hmes Hch Hend [Hr1 Hr2]].
  rewrite <- length_metas_bytes, <- Hm in Hw. apply write_at_ok in Hw as [Hfc Hfr].
  2: { left. intros Hx. apply (f_equal length) in Hx. by rewrite length_encode_meta in Hx. }
  rewrite pwrite_end in Hfc. revert Happ. cbn [rl_set_meta rl_entries rl_set_log].
  set (m := MkMeta _ _ _ _) in *. apply IH. set (l1 := rl_set_entries _ _).
  assert (Hfirst : first_offset l1 = first_offset l) by (unfold first_offset; cbn; by rewrite Hps).
  split; rewrite ?Hfirst; cbn; try done.
  - change (f_content f = metas_bytes (rl_entries l ++ [m])). rewrite Hfc, Hm, metas_bytes_app.
    done.
  - apply Forall_app. split; [done|]. constructor; [|done]. split_and!; cbn; auto.
  - apply entry_chain_app. rewrite Hend. split; [done|]. cbn. done.
  - rewrite chain_end_app. unfold chain_end at 1. cbn. by rewrite Hpe.
  - by rewrite Hfr.
Qed.

Lemma install_inv i t o l u l' :
  rl_inv l -> base_ok i t o -> rl_install_snapshot i t o l = (Ok u, l') -> rl_inv l'.
Proof.
  intros Hinv Hb Hin. pose proof (snap_length l Hinv) as Hlen. pose proof (rl_inv_index l Hinv) as Hnn.
  unfold rl_install_snapshot in Hin. destruct (Z.leb_spec i (rl_snapshot_index l)); [by simplify_eq|].
  destruct (_ && _); [eapply compact_inv; eauto; by destruct Hb|].
  pose proof (pl_reset_end (o + 1) (rl_log l)) as Hpe.
  destruct (pl_reset_to _ _) as [[u1|] p]; [|done]. cbn in Hpe. specialize (Hpe eq_refl).
  destruct Hinv as [_ _ _ _ _ _ [Hr1 Hr2]].
  apply (persist_all_inv _ _ _ Hin); cbn; try done; try lia.
Qed.

(** ** Sequences of operations *)

Inductive RaftLogCall :=
  | CAppend (es : list RaftLogEntry)
  | CTruncate (i : Z)
  | CCompact (i : Z)
  | CInstall (i t o : Z).

(** The arguments are values of their C++ types. *)
Definition call_ok (c : RaftLogCall) : Prop :=
  match c with
  | CAppend es => Forall (fun e => i_range 64 (e_term e)) es
  | CTruncate _ => True
  | CCompact i => i_range 64 i
  | CInstall i t o => base_ok i t o
  end.

(** The call succeeded, and the log after it. *)
Definition rl_call (c : RaftLogCall) (l : RaftLog P) : bool * RaftLog P :=
  match c with
  | CAppend es => let '(r, l') := rl_append es l in (is_ok r, l')
  | CTruncate i => let '(r, l') := rl_truncate_from i l in (is_ok r, l')
  | CCompact i => let '(r, l') := rl_compact_to i l in (is_ok r, l')
  | CInstall i t o => let '(r, l') := rl_install_snapshot i t o l in (is_ok r, l')
  end.

(** A sequence of calls, as long as they succeed. *)
Fixpoint rl_calls (cs : list RaftLogCall) (l : RaftLog P) : option (RaftLog P) :=
  match cs with
  | [] => Some l
  | c :: cs' => let '(success, l') := rl_call c l in if success then rl_calls cs' l' else None
  end.

Lemma rl_call_inv c l l' : call_ok c -> rl_inv l -> rl_call c l = (true, l') -> rl_inv l'.
Proof.
  intros Hc Hinv. destruct c as [es|i|i|i t o]; cbn.
  - destruct (rl_append es l) as [[z|] l1] eqn:H; [|done]. intros [= <-]. by eapply append_inv.
  - destruct (rl_truncate_from i l) as [[u|] l1] eqn:H; [|done]. intros [= <-]. by eapply truncate_inv.
  - destruct (rl_compact_to i l) as [[u|] l1] eqn:H; [|done]. intros [= <-]. by eapply compact_inv.
  - destruct (rl_install_snapshot i t o l) as [[u|] l1] eqn:H; [|done]. intros [= <-]. by eapply install_inv.
Qed.

(** A fresh log: empty sidecars over an empty partition log. *)
Definition rl_fresh (p : P) (meta snap : File) : RaftLog P := MkRaftLog p meta snap [] 0 0 0.

Lemma rl_fresh_inv p meta snap :
  log_start_offset p = log_end_offset p -> f_content meta = [] -> f_content snap = [] ->
  no_errors (f_reads meta) -> no_errors (f_reads snap) -> rl_inv (rl_fresh p meta snap).
Proof.
  intros Hp Hm Hs H1 H2. split; cbn; try done. by left.
Qed.

(** C9. Recovery.  A log that starts empty and goes through any sequence of successful appends,
    truncations, compactions and snapshot installations, over a disk that may split and interrupt
    every write, is given back unchanged by [open] on the partition log and the two sidecars it
    leaves: terms, types, offsets and snapshot base. *)
Theorem raft_log_recovery (p : P) (meta snap : File) (cs : list RaftLogCall) (l : RaftLog P)
    (Hempty : log_start_offset p = log_end_offset p)
    (Hmeta : f_content meta = []) (Hsnap : f_content snap = [])
    (Hreads : no_errors (f_reads meta) /\ no_errors (f_reads snap))
    (Hargs : Forall call_ok cs) (Hrun : rl_calls cs (rl_fresh p meta snap) = Some l) :
  rl_open (rl_log l) (rl_meta l) (rl_snap l) = Ok l.
Proof.
  destruct Hreads as [Hr1 Hr2]. pose proof (rl_fresh_inv p meta snap Hempty Hmeta Hsnap Hr1 Hr2) as Hinv.
  apply rl_open_inv. clear Hempty Hmeta Hsnap Hr1 Hr2. revert Hinv Hrun. generalize (rl_fresh p meta snap).
  induction Hargs as [|c cs Hc Hcs IH]; intros l0 Hinv Hrun; cbn in Hrun; [by simplify_eq|].
  destruct (rl_call c l0) as [[] l1] eqn:Hcall; [|done]. eapply IH; [|done]. by eapply rl_call_inv.
Qed.

End Recovery.

(** ** A partition log in memory *)

(** Its batches with their offsets; every call checks that the offsets fit 64 bits. *)
Record MemPartition := MkMemPartition {
  mp_start : Z;
  mp_end : Z;
  mp_batches : list (Z * list byte);
}.

Definition fits_i64 (z : Z) : bool := (- 2 ^ 63 <=? z) && (z <? 2 ^ 63).

Definition mp_offset (z : Z) : Z := if fits_i64 z then z else 0.

Definition mp_append (b : RecordBatch) (p : MemPartition) : expected Z * MemPartition :=
  let base := mp_offset (mp_end p) in
  let last := base + h_record_count (b_header b) - 1 in
  if fits_i64 last && fits_i64 (last + 1)
  then (Ok last, MkMemPartition (mp_start p) (last + 1) (mp_batches p ++ [(base, batch_encode b [])]))
  else (make_error OutOfRange "append", p).

Definition mp_truncate (o : Z) (p : MemPartition) : expected unit * MemPartition :=
  if fits_i64 o && (o <=? mp_end p)
  then (Ok tt, MkMemPartition (mp_start p) o (filter (fun b => b.1 < o) (mp_batches p)))
  else (make_error OutOfRange "truncate_to por encima de log_end_offset", p).

Definition mp_prefix (o : Z) (p : MemPartition) : expected unit * MemPartition :=
  (Ok tt, MkMemPartition (mp_start p) (mp_end p) (filter (fun b => o <= b.1) (mp_batches p))).

Definition mp_reset (o : Z) (p : MemPartition) : expected unit * MemPartition :=
  if fits_i64 o then (Ok tt, MkMemPartition o o []) else (make_error InvalidArgument "reset_to", p).

Definition mp_read (p : MemPartition) (o : Z) (_ : nat) : expected (list byte) :=
  Ok (default [] (snd <$> head (filter (fun b => o <= b.1) (mp_batches p)))).

#[export] Instance MemPartition_ops : PartitionLogOps MemPartition := {|
  log_start_offset := mp_start;
  log_end_offset p := mp_offset (mp_end p);
  pl_append := mp_append;
  pl_truncate_to := mp_truncate;
  pl_truncate_prefix_to := mp_prefix;
  pl_reset_to := mp_reset;
  pl_read := mp_read;
|}.

#[export] Instance MemPartition_laws : PartitionLogLaws MemPartition.
Proof.
  split; cbn; unfold mp_append, mp_truncate, mp_reset; intros.
  - destruct (_ && _) eqn:Hf; cbn in *; [|done]. simplify_eq.
    apply andb_prop in Hf as [_ Hf]. unfold mp_offset at 1. by rewrite Hf.
  - by destruct (_ && _).
  - destruct (_ && _) eqn:Hf; cbn in *; [|done]. apply andb_prop in Hf as [Hf _].
    unfold mp_offset. by rewrite Hf.
  - by destruct (_ && _).
  - done.
  - destruct (fits_i64 o) eqn:Hf; cbn in *; [|done]. unfold mp_offset. by rewrite Hf.
Qed.

Lemma mp_end_range (p : MemPartition) : i_range 64 (log_end_offset p).
Proof.
  cbn. unfold mp_offset, fits_i64. destruct (_ && _) eqn:H; [|by_range].
  apply andb_prop in H as [H1 H2]. unfold i_range. change (64 - 1) with 63. lia.
Qed.

Lemma mp_append_range b (p : MemPartition) last : (pl_append b p).1 = Ok last -> i_range 64 last.
Proof.
  cbn. unfold mp_append. destruct (_ && _) eqn:Hf; cbn; [|done]. intros [= <-].
  apply andb_prop in Hf as [Hf _]. unfold fits_i64 in Hf. apply andb_prop in Hf as [H1 H2].
  unfold i_range. change (64 - 1) with 63. lia.
Qed.

(** Three entries, the last one replaced, the first one compacted, over sidecars whose writes are
    split and interrupted. *)
Definition sample_entry (term index : Z) : RaftLogEntry :=
  MkEntry term index Data (batch_encode sample_batch []).

Definition sample_calls : list RaftLogCall :=
  [CAppend [sample_entry 1 1; sample_entry 1 2; sample_entry 2 3]; CTruncate 3;
   CAppend [sample_entry 3 3]; CCompact 1].

Definition sample_meta : File := MkFile [] [Transfer 7; Interrupted; Transfer 9] [Transfer 3].
Definition sample_snap : File := MkFile [] [Transfer 11] [Interrupted; Transfer 20].

Lemma raft_log_recovery_witness :
  exists l, rl_calls sample_calls (rl_fresh (MkMemPartition 0 0 []) sample_meta sample_snap) = Some l /\
    rl_open (rl_log l) (rl_meta l) (rl_snap l) = Ok l /\ rl_snapshot_index l = 1 /\ rl_last_index l = 3.
Proof.
  destruct (rl_calls sample_calls (rl_fresh (MkMemPartition 0 0 []) sample_meta sample_snap)) as [l|] eqn:Hrun.
  2: { assert (Hs : is_Some (rl_calls sample_calls (rl_fresh (MkMemPartition 0 0 []) sample_meta sample_snap)))
         by (vm_compute; eauto).
       rewrite Hrun in Hs. destruct Hs as [? [=]]. }
  exists l. split; [reflexivity|].
  assert (Hidx : option_map (fun l => (rl_snapshot_index l, rl_last_index l))
    (rl_calls sample_calls (rl_fresh (MkMemPartition 0 0 []) sample_meta sample_snap)) = Some (1, 3))
    by (vm_compute; reflexivity).
  rewrite Hrun in Hidx. cbn [option_map] in Hidx. injection Hidx as Hi Hl. split; [|exact (conj Hi Hl)].
  refine (raft_log_recovery mp_end_range mp_append_range (MkMemPartition 0 0 []) sample_meta sample_snap
    sample_calls l eq_refl eq_refl eq_refl _ _ Hrun).
  - split; repeat constructor.
  - assert (Hr : forall t, 0 <= t < 10 -> i_range 64 t) by (intros t Ht; width_simpl; lia).
    assert (He : forall t i, 0 <= t < 10 -> i_range 64 (e_term (sample_entry t i)))
      by (intros t i Ht; apply Hr, Ht).
    apply Forall_cons_2; [|apply Forall_cons_2; [exact I|apply Forall_cons_2; [|apply Forall_cons_2;
      [apply Hr; lia|apply Forall_nil_2]]]].
    + apply Forall_cons_2; [|apply Forall_cons_2; [|apply Forall_cons_2; [|apply Forall_nil_2]]]; apply He; lia.
    + apply Forall_cons_2; [|apply Forall_nil_2]. apply He; lia.
Defined.
