(* ===== verification/RecordCodec.v ===== *)
(** * The record codec and control records

    Models [src/src/common/record_codec.cpp] (records inside a batch: zigzag varints, nullable
    fields, headers, length prefix; the batch builder and the decoder of a whole batch) and
    [compression.cpp] (codec bits, size prefix and its bound).  LZ4 and Zstd are third-party
    libraries: they are parameters, with their round trip as a hypothesis where it is needed.  Then
    [control_record.cpp], the markers of transactions. *)
From stdpp Require Import base list gmap strings.
From Stdlib Require Import ZArith Lia.
From S2P Require Import Prelude Bytes Record RaftStateStore.
#[local] Open Scope Z_scope.

(** ** Data *)

(** [RecordHeader]: the key is a byte string. *)
Record RecordHeader := MkRecordHeader { rh_key : list byte; rh_value : option (list byte) }.

(** [Record]. *)
Record LogRecord := MkRecord {
  r_key : option (list byte);
  r_value : option (list byte);
  r_headers : list RecordHeader;
  r_timestamp_delta : Z;
  r_offset : Z;
}.

Definition kMaxHeadersPerRecord : Z := 10000.
Definition kMaxRecordBytes : Z := 64 * 1024 * 1024.

(** ** Fields *)

Definition put_zig (value : Z) (out : list byte) : list byte := out ++ put_varint (zigzag_encode value).

Definition put_nullable (field : option (list byte)) (out : list byte) : list byte :=
  match field with
  | None => put_zig (-1) out
  | Some bytes => put_zig (Z.of_nat (length bytes)) out ++ bytes
  end.

(** A parser: the value and the cursor after it. *)
Definition Parser (A : Type) : Type := list byte -> expected (A * list byte).

Definition get_zig : Parser Z := fun cursor =>
  let? ' (raw, cursor) := get_varint cursor in Ok (zigzag_decode raw, cursor).

Definition take_bytes (n : nat) : Parser (list byte) := fun cursor =>
  if (length cursor <? n)%nat then make_error Corrupt "record truncado"
  else Ok (take n cursor, drop n cursor).

Definition get_nullable : Parser (option (list byte)) := fun cursor =>
  let? ' (len, cursor) := get_zig cursor in
  if len <? 0 then Ok (None, cursor)
  else let? ' (bytes, cursor) := take_bytes (Z.to_nat len) cursor in Ok (Some bytes, cursor).

(** ** One record *)

(** The body [encode_record] builds in its temporary buffer. *)
Definition put_header (header : RecordHeader) (body : list byte) : list byte :=
  put_nullable (rh_value header) (put_zig (Z.of_nat (length (rh_key header))) body ++ rh_key header).

Definition record_body (rec : LogRecord) (offset_delta : Z) : list byte :=
  let body := [0] |> put_zig (r_timestamp_delta rec) |> put_zig offset_delta
                  |> put_nullable (r_key rec) |> put_nullable (r_value rec)
                  |> put_zig (Z.of_nat (length (r_headers rec))) in
  foldl (fun body header => put_header header body) body (r_headers rec).

Definition encode_record (rec : LogRecord) (offset_delta : Z) (out : list byte) : list byte :=
  let body := record_body rec offset_delta in
  put_zig (Z.of_nat (length body)) out ++ body.

(** One iteration of the header loop: the key length error hides the reader's own. *)
Definition get_header : Parser RecordHeader := fun body =>
  match get_zig body with
  | Err _ => make_error Corrupt "longitud de clave de header inválida"
  | Ok (key_len, body) =>
      if key_len <? 0 then make_error Corrupt "longitud de clave de header inválida"
      else
        let? ' (key, body) := take_bytes (Z.to_nat key_len) body in
        let? ' (hval, body) := get_nullable body in
        Ok (MkRecordHeader key hval, body)
  end.

Fixpoint get_headers (n : nat) : Parser (list RecordHeader) := fun body =>
  match n with
  | O => Ok ([], body)
  | S n' =>
      let? ' (header, body) := get_header body in
      let? ' (rest, body) := get_headers n' body in
      Ok (header :: rest, body)
  end.

Definition decode_record (base_offset : Z) : Parser LogRecord := fun cursor =>
  let? ' (body_len, cursor) := get_zig cursor in
  if body_len <? 0 then make_error Corrupt "longitud de record negativa"
  else
    let? ' (body, cursor) := take_bytes (Z.to_nat body_len) cursor in
    let? ' (_, body) := take_bytes 1 body in
    let? ' (ts_delta, body) := get_zig body in
    let? ' (offset_delta, body) := get_zig body in
    let? ' (key, body) := get_nullable body in
    let? ' (value, body) := get_nullable body in
    let? ' (header_count, body) := get_zig body in
    if (header_count <? 0) || (kMaxHeadersPerRecord <? header_count)
    then make_error Corrupt "nº de headers inválido"
    else
      let? ' (headers, _) := get_headers (Z.to_nat header_count) body in
      Ok (MkRecord key value headers ts_delta (base_offset + offset_delta), cursor).

(** The loop of [decode_records]. *)
Fixpoint decode_loop (n : nat) (base_offset : Z) (cursor : list byte) : expected (list LogRecord) :=
  match n with
  | O => Ok []
  | S n' =>
      let? ' (rec, cursor) := decode_record base_offset cursor in
      let? rest := decode_loop n' base_offset cursor in
      Ok (rec :: rest)
  end.

(** ** Compression *)

(** [Codec]; the two bits of [attrs] can also hold a value that names no codec. *)
Inductive Codec := CodecNone | Lz4 | Zstd | CodecUnknown.

#[export] Instance Codec_eq_dec : EqDecision Codec.
Proof. solve_decision. Defined.

Definition kCodecMask : Z := 3.

Definition codec_of_bits (bits : Z) : Codec :=
  if bits =? 0 then CodecNone else if bits =? 1 then Lz4 else if bits =? 2 then Zstd else CodecUnknown.
Definition codec_bits (c : Codec) : Z :=
  match c with CodecNone => 0 | Lz4 => 1 | Zstd => 2 | CodecUnknown => 3 end.

Definition codec_from_attrs (attrs : Z) : Codec := codec_of_bits (Z.land attrs kCodecMask).

Definition attrs_with_codec (attrs : Z) (c : Codec) : Z :=
  to_u 16 (Z.lor (Z.ldiff attrs kCodecMask) (Z.land (codec_bits c) kCodecMask)).

Definition kSizePrefix : nat := 4.

Section Compression.
(** Which libraries the build has, and what they compute: the compressed bytes ([None] for an
    error), and the bytes a decompression into a buffer of that size produces. *)
Context (have_lz4 have_zstd : bool).
Context (lz4_compress zstd_compress : list byte -> option (list byte)).
Context (lz4_decompress zstd_decompress : list byte -> nat -> option (list byte)).

Definition codec_available (c : Codec) : bool :=
  match c with CodecNone => true | Lz4 => have_lz4 | Zstd => have_zstd | CodecUnknown => false end.

Definition compress (c : Codec) (input : list byte) : expected (list byte) :=
  match c with
  | CodecNone => Ok input
  | _ =>
      if 2 ^ 32 - 1 <? Z.of_nat (length input)
      then make_error InvalidArgument "entrada demasiado grande para comprimir"
      else
        let prefix := store_le 4 (Z.of_nat (length input)) in
        match c with
        | Lz4 => if have_lz4 then
                   match lz4_compress input with
                   | Some bytes => Ok (prefix ++ bytes)
                   | None => make_error IoError "fallo de compresión LZ4" end
                 else make_error Unsupported "LZ4 no compilado"
        | Zstd => if have_zstd then
                    match zstd_compress input with
                    | Some bytes => Ok (prefix ++ bytes)
                    | None => make_error IoError "fallo de compresión Zstd" end
                  else make_error Unsupported "Zstd no compilado"
        | _ => make_error Unsupported "códec de compresión desconocido"
        end
  end.

Definition decompress (c : Codec) (input : list byte) (max_output : Z) : expected (list byte) :=
  match c with
  | CodecNone => Ok input
  | _ =>
      if (length input <? kSizePrefix)%nat then make_error Corrupt "bloque comprimido truncado"
      else
        let original_size := load_le_u 4 (subspan_n 0 kSizePrefix input) in
        if max_output <? original_size
        then make_error Corrupt "tamaño descomprimido excede el límite"
        else
          let body := subspan kSizePrefix input in
          match c with
          | Lz4 => if have_lz4 then
                     if (2 ^ 31 - 1 <? Z.of_nat (length body)) || (2 ^ 31 - 1 <? original_size)
                     then make_error Corrupt "bloque LZ4 demasiado grande"
                     else match lz4_decompress body (Z.to_nat original_size) with
                          | Some out => if Z.of_nat (length out) =? original_size then Ok out
                                        else make_error Corrupt "bloque LZ4 inválido"
                          | None => make_error Corrupt "bloque LZ4 inválido" end
                   else make_error Unsupported "LZ4 no compilado"
          | Zstd => if have_zstd then
                      match zstd_decompress body (Z.to_nat original_size) with
                      | Some out => if Z.of_nat (length out) =? original_size then Ok out
                                    else make_error Corrupt "bloque Zstd inválido"
                      | None => make_error Corrupt "bloque Zstd inválido" end
                    else make_error Unsupported "Zstd no compilado"
          | _ => make_error Unsupported "códec de compresión desconocido"
          end
  end.

(** ** Batches of records *)

Definition decode_records (batch : RecordBatch) (max_decompressed : Z) : expected (list LogRecord) :=
  let count := h_record_count (b_header batch) in
  if count <? 0 then make_error Corrupt "record_count negativo"
  else
    let codec := codec_from_attrs (h_attrs (b_header batch)) in
    let? blob := if bool_decide (codec = CodecNone) then Ok (b_records batch)
                 else decompress codec (b_records batch) max_decompressed in
    decode_loop (Z.to_nat count) (h_base_offset (b_header batch)) blob.

(** The loop of [RecordBatchBuilder::build]. *)
Fixpoint encode_loop (records : list LogRecord) (delta : Z) (out : list byte) : list byte :=
  match records with
  | [] => out
  | rec :: rest => encode_loop rest (delta + 1) (encode_record rec delta out)
  end.

Definition header_with (attrs count : Z) (h : RecordBatchHeader) : RecordBatchHeader :=
  MkHeader (h_base_offset h) attrs (h_producer_id h) (h_producer_epoch h) (h_base_sequence h) count.

(** [build], of a builder that holds [records]. *)
Definition batch_build (records : list LogRecord) (header : RecordBatchHeader) (codec : Codec)
  : RecordBatch :=
  let blob := encode_loop records 0 [] in
  let count := to_i 32 (Z.of_nat (length records)) in
  let plain := MkBatch (header_with (attrs_with_codec (h_attrs header) CodecNone) count header) blob in
  if negb (bool_decide (codec = CodecNone)) && codec_available codec then
    match compress codec blob with
    | Ok bytes => MkBatch (header_with (attrs_with_codec (h_attrs header) codec) count header) bytes
    | Err _ => plain
    end
  else plain.
End Compression.

(** ** Round trip *)

Definition parses {A} (p : Parser A) (bs : list byte) (a : A) : Prop :=
  forall tl, p (bs ++ tl) = Ok (a, tl).

Definition size_ok (bs : list byte) : Prop := Z.of_nat (length bs) < 2 ^ 63.

Lemma parses_zig v : i_range 64 v -> parses get_zig (put_varint (zigzag_encode v)) v.
Proof.
  intros Hv tl. unfold get_zig. rewrite get_put_varint by by apply zigzag_encode_u64. cbn.
  by rewrite zigzag_roundtrip.
Qed.

Lemma size_i64 bs : size_ok bs -> i_range 64 (Z.of_nat (length bs)).
Proof. unfold size_ok, i_range. change (64 - 1) with 63. lia. Qed.

Lemma parses_take bs : parses (take_bytes (length bs)) bs bs.
Proof.
  intros tl. unfold take_bytes. rewrite length_app, take_app_length, drop_app_length.
  destruct (Nat.ltb_spec (length bs + length tl) (length bs)); [lia|done].
Qed.

Definition nullable_bytes (f : option (list byte)) : list byte := put_nullable f [].

Lemma put_zig_app v out : put_zig v out = out ++ put_zig v [].
Proof. done. Qed.

Lemma put_nullable_app f out : put_nullable f out = out ++ nullable_bytes f.
Proof. unfold nullable_bytes. destruct f; cbn; [|done]. unfold put_zig. by rewrite <- app_assoc. Qed.

Lemma parses_nullable f : match f with Some bs => size_ok bs | None => True end ->
  parses get_nullable (nullable_bytes f) f.
Proof.
  intros Hf tl. unfold get_nullable, nullable_bytes, put_nullable, put_zig. destruct f as [bs|].
  - cbn [app]. rewrite <- app_assoc, parses_zig by by apply size_i64. cbn [expected_bind].
    destruct (Z.ltb_spec (Z.of_nat (length bs)) 0); [lia|]. rewrite Nat2Z.id, parses_take. done.
  - cbn [app]. by rewrite parses_zig by by_range.
Qed.

Definition header_fields_ok (h : RecordHeader) : Prop :=
  size_ok (rh_key h) /\ match rh_value h with Some bs => size_ok bs | None => True end.

Definition header_bytes (h : RecordHeader) : list byte := put_header h [].

Lemma put_header_app h out : put_header h out = out ++ header_bytes h.
Proof.
  unfold header_bytes, put_header. rewrite !(put_nullable_app (rh_value h)).
  rewrite !(put_zig_app _ out), !app_assoc. done.
Qed.

Lemma parses_header h : header_fields_ok h -> parses get_header (header_bytes h) h.
Proof.
  intros [Hk Hv] tl. unfold get_header, header_bytes, put_header.
  rewrite put_nullable_app. unfold put_zig at 1. cbn [app]. rewrite <- !app_assoc.
  rewrite parses_zig by by apply size_i64.
  destruct (Z.ltb_spec (Z.of_nat (length (rh_key h))) 0); [lia|].
  rewrite Nat2Z.id, parses_take. cbn [expected_bind]. rewrite parses_nullable by done.
  by destruct h.
Qed.

Lemma parses_headers hs : Forall header_fields_ok hs ->
  parses (get_headers (length hs)) (concat (header_bytes <$> hs)) hs.
Proof.
  induction 1 as [|h hs Hh _ IH]; intros tl; [done|]. cbn [length get_headers fmap list_fmap concat].
  rewrite <- app_assoc, parses_header by done. cbn [expected_bind]. by rewrite IH.
Qed.

Lemma foldl_headers hs body :
  foldl (fun body header => put_header header body) body hs = body ++ concat (header_bytes <$> hs).
Proof.
  revert body. induction hs as [|h hs IH]; intros body; cbn; [by rewrite app_nil_r|].
  by rewrite IH, put_header_app, app_assoc.
Qed.

(** A record whose fields fit the format. *)
Definition record_ok (rec : LogRecord) (delta : Z) : Prop :=
  i_range 64 (r_timestamp_delta rec) /\ i_range 64 delta /\
  (match r_key rec with Some bs => size_ok bs | None => True end) /\
  (match r_value rec with Some bs => size_ok bs | None => True end) /\
  Forall header_fields_ok (r_headers rec) /\
  Z.of_nat (length (r_headers rec)) <= kMaxHeadersPerRecord /\
  size_ok (record_body rec delta).

Definition with_offset (o : Z) (rec : LogRecord) : LogRecord :=
  MkRecord (r_key rec) (r_value rec) (r_headers rec) (r_timestamp_delta rec) o.

Lemma encode_record_app rec delta out : encode_record rec delta out = out ++ encode_record rec delta [].
Proof. unfold encode_record, put_zig. cbn [app]. by rewrite !app_assoc. Qed.

Lemma parses_record rec delta base :
  record_ok rec delta ->
  parses (decode_record base) (encode_record rec delta []) (with_offset (base + delta) rec).
Proof.
  intros (Hts & Hd & Hk & Hv & Hhs & Hcnt & Hbody) tl. unfold decode_record, encode_record.
  unfold put_zig at 1. cbn [app]. rewrite <- app_assoc, parses_zig by by apply size_i64.
  cbn [expected_bind]. destruct (Z.ltb_spec (Z.of_nat (length (record_body rec delta))) 0); [lia|].
  rewrite Nat2Z.id, parses_take. cbn [expected_bind]. clear Hbody.
  unfold record_body. cbv zeta. rewrite foldl_headers, !put_nullable_app. unfold put_zig.
  rewrite <- !app_assoc. rewrite (parses_take [0]). cbn [expected_bind].
  rewrite parses_zig by done. cbn [expected_bind]. rewrite parses_zig by done. cbn [expected_bind].
  rewrite parses_nullable by done. cbn [expected_bind]. rewrite parses_nullable by done. cbn [expected_bind].
  unfold kMaxHeadersPerRecord in *.
  rewrite parses_zig by (width_simpl; lia). cbn [expected_bind].
  destruct (Z.ltb_spec (Z.of_nat (length (r_headers rec))) 0); [lia|].
  destruct (Z.ltb_spec 10000 (Z.of_nat (length (r_headers rec)))); [lia|]. cbn [orb].
  rewrite Nat2Z.id. pose proof (parses_headers _ Hhs []) as Hp. rewrite app_nil_r in Hp. rewrite Hp. done.
Qed.

(** The records of a batch, numbered from [base + delta] on. *)
Fixpoint number_from (o : Z) (records : list LogRecord) : list LogRecord :=
  match records with [] => [] | rec :: rest => with_offset o rec :: number_from (o + 1) rest end.

Fixpoint records_ok (records : list LogRecord) (delta : Z) : Prop :=
  match records with [] => True | rec :: rest => record_ok rec delta /\ records_ok rest (delta + 1) end.

Lemma encode_loop_app records delta out :
  encode_loop records delta out = out ++ encode_loop records delta [].
Proof.
  revert delta out. induction records as [|rec rest IH]; intros delta out; cbn; [by rewrite app_nil_r|].
  rewrite IH, (IH _ (encode_record rec delta [])), encode_record_app. by rewrite app_assoc.
Qed.

Lemma decode_loop_encoded records delta base tl :
  records_ok records delta ->
  decode_loop (length records) base (encode_loop records delta [] ++ tl)
  = Ok (number_from (base + delta) records).
Proof.
  revert delta. induction records as [|rec rest IH]; intros delta Hok; [done|].
  destruct Hok as [Hr Hrest]. cbn [length decode_loop encode_loop number_from].
  rewrite encode_loop_app, <- app_assoc, parses_record by done. cbn [expected_bind].
  rewrite IH by done. cbn. do 3 f_equal. lia.
Qed.

(** *** Codec bits *)

Lemma ldiff_mask_range attrs : u_range 16 attrs -> u_range 16 (Z.ldiff attrs kCodecMask).
Proof.
  intros Ha. apply u_range_of_bits; [lia| |].
  - apply Z.ldiff_nonneg. destruct Ha; lia.
  - intros i Hi. rewrite Z.ldiff_spec, (testbit_high 16 attrs) by (done || lia). done.
Qed.

Lemma codec_attrs_roundtrip attrs c :
  u_range 16 attrs -> codec_from_attrs (attrs_with_codec attrs c) = c.
Proof.
  intros Ha. unfold codec_from_attrs, attrs_with_codec.
  assert (Hr : u_range 16 (Z.lor (Z.ldiff attrs kCodecMask) (Z.land (codec_bits c) kCodecMask))).
  { apply u_range_of_bits; [lia| |].
    - apply Z.lor_nonneg. split; [apply (ldiff_mask_range attrs Ha)|]. destruct c; vm_compute; discriminate.
    - intros i Hi. rewrite Z.lor_spec, (testbit_high 16 (Z.ldiff _ _)) by (auto using ldiff_mask_range || lia).
      apply (testbit_high 16); [destruct c; by_range|lia|lia]. }
  rewrite to_u_id by done. rewrite Z.land_lor_distr_l.
  assert (Z.land (Z.ldiff attrs kCodecMask) kCodecMask = 0) as ->.
  { apply Z.bits_inj'. intros i Hi. rewrite Z.land_spec, Z.ldiff_spec, Z.bits_0.
    by destruct (Z.testbit kCodecMask i), (Z.testbit attrs i). }
  destruct c; reflexivity.
Qed.

Section RoundTrip.
Context (have_lz4 have_zstd : bool).
Context (lz4_compress zstd_compress : list byte -> option (list byte)).
Context (lz4_decompress zstd_decompress : list byte -> nat -> option (list byte)).
(** The documented contract of the two libraries: decompressing what was compressed, into a
    buffer of the original size, gives the original bytes; LZ4's sizes are C ints. *)
Context (lz4_inverse : forall x y, lz4_compress x = Some y ->
  lz4_decompress y (length x) = Some x /\ Z.of_nat (length y) < 2 ^ 31 /\ Z.of_nat (length x) < 2 ^ 31).
Context (zstd_inverse : forall x y, zstd_compress x = Some y -> zstd_decompress y (length x) = Some x).

Lemma decompress_compress c input output max :
  compress have_lz4 have_zstd lz4_compress zstd_compress c input = Ok output ->
  Z.of_nat (length input) <= max ->
  decompress have_lz4 have_zstd lz4_decompress zstd_decompress c output max = Ok input.
Proof.
  intros Hc Hmax. unfold compress, decompress in *. destruct c; [by simplify_eq| | |].
  all: destruct (Z.ltb_spec (2 ^ 32 - 1) (Z.of_nat (length input))) as [|Hlen]; [done|].
  all: cbv zeta in *.
  3: done.
  all: assert (Hu : u_range (8 * Z.of_nat 4) (Z.of_nat (length input))) by (unfold u_range; cbn; lia).
  - destruct have_lz4; [|done]. destruct (lz4_compress input) as [bytes|] eqn:Hb; [|done].
    assert (output = store_le 4 (Z.of_nat (length input)) ++ bytes) as -> by congruence. clear Hc.
    destruct (lz4_inverse _ _ Hb) as (Hd & Hy & Hx).
    destruct (Nat.ltb_spec (length (store_le 4 (Z.of_nat (length input)) ++ bytes)) kSizePrefix) as [Hs|_].
    { rewrite length_app, length_store_le in Hs. unfold kSizePrefix in Hs. lia. }
    unfold subspan, subspan_n, kSizePrefix. rewrite drop_0, (take_all_app 4), (drop_all_app 4) by apply length_store_le.
    rewrite load_exact_u by done.
    destruct (Z.ltb_spec max (Z.of_nat (length input))); [lia|].
    destruct (Z.ltb_spec (2 ^ 31 - 1) (Z.of_nat (length bytes))); [lia|].
    destruct (Z.ltb_spec (2 ^ 31 - 1) (Z.of_nat (length input))); [lia|]. cbn [orb].
    by rewrite Nat2Z.id, Hd, Z.eqb_refl.
  - destruct have_zstd; [|done]. destruct (zstd_compress input) as [bytes|] eqn:Hb; [|done].
    assert (output = store_le 4 (Z.of_nat (length input)) ++ bytes) as -> by congruence. clear Hc.
    destruct (Nat.ltb_spec (length (store_le 4 (Z.of_nat (length input)) ++ bytes)) kSizePrefix) as [Hs|_].
    { rewrite length_app, length_store_le in Hs. unfold kSizePrefix in Hs. lia. }
    unfold subspan, subspan_n, kSizePrefix. rewrite drop_0, (take_all_app 4), (drop_all_app 4) by apply length_store_le.
    rewrite load_exact_u by done.
    destruct (Z.ltb_spec max (Z.of_nat (length input))); [lia|].
    by rewrite Nat2Z.id, (zstd_inverse _ _ Hb), Z.eqb_refl.
Qed.

(** Decoding a built batch gives its records back, numbered from the base offset, whatever the
    codec: also when it is not compiled in or fails and the builder falls back to no
    compression. *)
Theorem batch_build_roundtrip (records : list LogRecord) (header : RecordBatchHeader) (codec : Codec)
    (max : Z) (Hattrs : u_range 16 (h_attrs header)) (Hrecs : records_ok records 0)
    (Hcount : Z.of_nat (length records) < 2 ^ 31)
    (Hmax : Z.of_nat (length (encode_loop records 0 [])) <= max) :
  let batch := batch_build have_lz4 have_zstd lz4_compress zstd_compress records header codec in
  decode_records have_lz4 have_zstd lz4_decompress zstd_decompress batch max
  = Ok (number_from (h_base_offset header) records) /\
  h_record_count (b_header batch) = Z.of_nat (length records).
Proof.
  assert (Hc : to_i 32 (Z.of_nat (length records)) = Z.of_nat (length records)) by (apply to_i_small; lia).
  assert (Hloop : decode_loop (Z.to_nat (Z.of_nat (length records))) (h_base_offset header)
    (encode_loop records 0 []) = Ok (number_from (h_base_offset header) records)).
  { rewrite Nat2Z.id. pose proof (decode_loop_encoded records 0 (h_base_offset header) [] Hrecs) as H.
    by rewrite app_nil_r, Z.add_0_r in H. }
  assert (Hnn : (Z.of_nat (length records) <? 0) = false) by (apply Z.ltb_ge; lia).
  cbv zeta. unfold batch_build, decode_records. rewrite Hc.
  destruct (negb (bool_decide (codec = CodecNone)) && codec_available have_lz4 have_zstd codec) eqn:Hcodec.
  - apply andb_prop in Hcodec as [Hne _]. apply negb_true_iff, bool_decide_eq_false in Hne.
    destruct (compress _ _ _ _ codec (encode_loop records 0 [])) as [bytes|] eqn:Hcomp;
      cbn [b_header b_records header_with h_record_count h_base_offset h_attrs];
      rewrite Hnn, codec_attrs_roundtrip by done; (split; [|done]).
    + rewrite bool_decide_eq_false_2 by done.
      rewrite (decompress_compress _ _ _ _ Hcomp Hmax). exact Hloop.
    + exact Hloop.
  - cbn [b_header b_records header_with h_record_count h_base_offset h_attrs].
    rewrite Hnn, codec_attrs_roundtrip by done. split; [exact Hloop|done].
Qed.
End RoundTrip.

(** Two records, one a tombstone with a header, through a codec that stores. *)
Definition sample_records : list LogRecord :=
  [MkRecord (Some [107]) (Some [1; 2]) [] 0 0;
   MkRecord (Some [107]) None [MkRecordHeader [104] None] 5 0].

Definition store_codec (x : list byte) : option (list byte) := Some x.
Definition load_codec (y : list byte) (_ : nat) : option (list byte) := Some y.

Lemma sample_records_ok : records_ok sample_records 0.
Proof.
  assert (Hs : forall bs, (length bs < 100)%nat -> size_ok bs) by (intros bs Hb; unfold size_ok; lia).
  assert (Hl : forall z, 0 <= z < 100 -> i_range 64 z) by (intros z Hz; width_simpl; lia).
  split; [|split; [|exact I]].
  - split_and!; [apply Hl; cbn; lia|apply Hl; lia|apply Hs; cbn; lia|apply Hs; cbn; lia|constructor|vm_compute; discriminate
      |apply Hs; vm_compute; lia].
  - split_and!; [apply Hl; cbn; lia|apply Hl; lia|apply Hs; cbn; lia|exact I| |vm_compute; discriminate
      |apply Hs; vm_compute; lia].
    constructor; [|constructor]. split; [apply Hs; cbn; lia|exact I].
Qed.

Lemma batch_build_roundtrip_witness :
  let batch := batch_build false true (fun _ => None) store_codec sample_records
                 (MkHeader 40 0 (-1) (-1) (-1) 0) Zstd in
  decode_records false true (fun _ _ => None) load_codec batch kMaxRecordBytes
  = Ok (number_from 40 sample_records) /\
  h_record_count (b_header batch) = 2.
Proof.
  assert (Hlz : forall x y : list byte, (fun _ : list byte => @None (list byte)) x = Some y ->
    (fun (_ : list byte) (_ : nat) => @None (list byte)) y (length x) = Some x /\
    Z.of_nat (length y) < 2 ^ 31 /\ Z.of_nat (length x) < 2 ^ 31) by (intros x y H; discriminate H).
  assert (Hzs : forall x y, store_codec x = Some y -> load_codec y (length x) = Some x)
    by (intros x y H; injection H as <-; reflexivity).
  refine (batch_build_roundtrip false true (fun _ => None) store_codec (fun _ _ => None) load_codec
    Hlz Hzs sample_records (MkHeader 40 0 (-1) (-1) (-1) 0) Zstd kMaxRecordBytes _ _ _ _).
  - by_range.
  - exact sample_records_ok.
  - vm_compute. reflexivity.
  - vm_compute. discriminate.
Defined.

(** * Control records

    Models [src/src/common/control_record.hpp] and [control_record.cpp]: the transactional bits of
    a batch's [attrs] and the COMMIT/ABORT markers a transaction ends with. *)

Definition kTransactionalAttr : Z := 0x10.
Definition kControlAttr : Z := 0x20.

Definition is_transactional (attrs : Z) : bool := negb (Z.land attrs kTransactionalAttr =? 0).
Definition is_control (attrs : Z) : bool := negb (Z.land attrs kControlAttr =? 0).

Definition attrs_with_transactional (attrs : Z) (on : bool) : Z :=
  to_u 16 (if on then Z.lor attrs kTransactionalAttr else Z.ldiff attrs kTransactionalAttr).
Definition attrs_with_control (attrs : Z) (on : bool) : Z :=
  to_u 16 (if on then Z.lor attrs kControlAttr else Z.ldiff attrs kControlAttr).

Inductive ControlRecordType := Abort | Commit.

#[export] Instance ControlRecordType_eq_dec : EqDecision ControlRecordType.
Proof. solve_decision. Defined.

Definition control_type_value (t : ControlRecordType) : Z := match t with Abort => 0 | Commit => 1 end.

Definition kControlRecordVersion : Z := 0.
Definition kControlKeySize : nat := 4.
Definition kControlValueSize : nat := 6.

(** [EndTxnMarker]. *)
Record EndTxnMarker := MkMarker {
  mk_type : ControlRecordType;
  mk_coordinator_epoch : Z;
  mk_version : Z;
}.

Definition encode_control_key (m : EndTxnMarker) : list byte :=
  splice 2 (store_le 2 (control_type_value (mk_type m)))
    (splice 0 (store_le 2 (mk_version m)) (replicate kControlKeySize 0)).

Definition encode_control_value (m : EndTxnMarker) : list byte :=
  splice 2 (store_le 4 (mk_coordinator_epoch m))
    (splice 0 (store_le 2 (mk_version m)) (replicate kControlValueSize 0)).

Definition is_known_type (type : Z) : bool :=
  (type =? control_type_value Abort) || (type =? control_type_value Commit).

Definition decode_end_txn_marker (key value : list byte) : expected EndTxnMarker :=
  if (length key <? kControlKeySize)%nat then make_error Corrupt "control record: clave truncada"
  else if (length value <? kControlValueSize)%nat then make_error Corrupt "control record: valor truncado"
  else
    let key_version := load_le_i 2 (subspan 0 key) in
    let type := load_le_i 2 (subspan 2 key) in
    let value_version := load_le_i 2 (subspan 0 value) in
    let coordinator_epoch := load_le_i 4 (subspan 2 value) in
    if negb (key_version =? value_version)
    then make_error Corrupt "control record: versiones de clave/valor discordantes"
    else if negb (key_version =? kControlRecordVersion)
    then make_error Unsupported "control record: versión no soportada"
    else if negb (is_known_type type) then make_error Corrupt "control record: tipo desconocido"
    else Ok (MkMarker (if type =? 0 then Abort else Commit) coordinator_epoch key_version).

Section Codecs.
(** The compression libraries, as in RecordCodec.v. *)
Context (have_lz4 have_zstd : bool).
Context (lz4_compress zstd_compress : list byte -> option (list byte)).
Context (lz4_decompress zstd_decompress : list byte -> nat -> option (list byte)).

Definition build_control_batch (m : EndTxnMarker) (producer_id producer_epoch : Z) : RecordBatch :=
  let rec := MkRecord (Some (encode_control_key m)) (Some (encode_control_value m)) [] 0 0 in
  let header := MkHeader 0 (attrs_with_control (attrs_with_transactional 0 true) true)
                  producer_id producer_epoch (-1) 0 in
  batch_build have_lz4 have_zstd lz4_compress zstd_compress [rec] header CodecNone.

Definition parse_control_batch (batch : RecordBatch) : expected EndTxnMarker :=
  if negb (is_control (h_attrs (b_header batch)))
  then make_error InvalidArgument "batch no es de control"
  else
    let? records := decode_records have_lz4 have_zstd lz4_decompress zstd_decompress batch kMaxRecordBytes in
    match records with
    | [rec] =>
        match r_key rec, r_value rec with
        | Some key, Some value => decode_end_txn_marker key value
        | _, _ => make_error InvalidArgument "control record sin clave o valor"
        end
    | _ => make_error InvalidArgument "batch de control debe tener un único record"
    end.

(** ** Round trip *)

Lemma control_key_layout m :
  encode_control_key m = store_le 2 (mk_version m) ++ store_le 2 (control_type_value (mk_type m)).
Proof.
  unfold encode_control_key. set (a := store_le 2 (mk_version m)). set (b := store_le 2 (control_type_value _)).
  assert (Ha : length a = 2%nat) by apply length_store_le. assert (Hb : length b = 2%nat) by apply length_store_le.
  clearbody a b. explode. reflexivity.
Qed.

Lemma control_value_layout m :
  encode_control_value m = store_le 2 (mk_version m) ++ store_le 4 (mk_coordinator_epoch m).
Proof.
  unfold encode_control_value. set (a := store_le 2 (mk_version m)). set (b := store_le 4 (mk_coordinator_epoch m)).
  assert (Ha : length a = 2%nat) by apply length_store_le. assert (Hb : length b = 4%nat) by apply length_store_le.
  clearbody a b. explode. reflexivity.
Qed.

Lemma control_key_length m : length (encode_control_key m) = 4%nat.
Proof. rewrite control_key_layout, length_app, !length_store_le. done. Qed.

Lemma control_value_length m : length (encode_control_value m) = 6%nat.
Proof. rewrite control_value_layout, length_app, !length_store_le. done. Qed.

Lemma decode_encoded_marker m :
  mk_version m = kControlRecordVersion -> i_range 32 (mk_coordinator_epoch m) ->
  decode_end_txn_marker (encode_control_key m) (encode_control_value m) = Ok m.
Proof.
  intros Hv He. unfold decode_end_txn_marker. rewrite control_key_length, control_value_length.
  change (4 <? kControlKeySize)%nat with false. change (6 <? kControlValueSize)%nat with false.
  cbv iota. rewrite control_key_layout, control_value_layout. unfold subspan.
  rewrite !drop_0, !(drop_all_app 2) by apply length_store_le.
  rewrite Hv, !load_store_i by (lia || by_range). rewrite load_exact_i by (done || lia || destruct (mk_type m); by_range).
  rewrite load_exact_i by (done || lia). destruct m as [[] e v]; cbn in *; subst v; reflexivity.
Qed.

Lemma control_attrs : attrs_with_control (attrs_with_transactional 0 true) true = 48.
Proof. reflexivity. Qed.

(** A marker survives the batch it is written in: building the control batch and parsing it gives
    the marker back, the batch carries both transactional bits, one record, the producer's
    identity and no sequence. *)
Theorem control_batch_roundtrip (m : EndTxnMarker) (pid epoch : Z)
    (Hversion : mk_version m = kControlRecordVersion) (Hepoch : i_range 32 (mk_coordinator_epoch m)) :
  let batch := build_control_batch m pid epoch in
  parse_control_batch batch = Ok m /\
  is_control (h_attrs (b_header batch)) = true /\ is_transactional (h_attrs (b_header batch)) = true /\
  h_record_count (b_header batch) = 1 /\ h_producer_id (b_header batch) = pid /\
  h_producer_epoch (b_header batch) = epoch /\ h_base_sequence (b_header batch) = -1.
Proof.
  unfold build_control_batch, batch_build. rewrite control_attrs. rewrite bool_decide_eq_true_2 by done.
  cbn [negb andb length]. change (attrs_with_codec (h_attrs (MkHeader 0 48 pid epoch (-1) 0)) CodecNone) with 48.
  change (to_i 32 (Z.of_nat 1)) with 1.
  set (rec := MkRecord (Some (encode_control_key m)) (Some (encode_control_value m)) [] 0 0).
  cbv zeta. split; [|by repeat split].
  unfold parse_control_batch, decode_records, header_with.
  cbn [b_header b_records h_attrs h_record_count h_base_offset].
  change (negb (is_control 48)) with false. cbv iota. change (1 <? 0) with false. cbv iota zeta.
  change (codec_from_attrs 48) with CodecNone. rewrite bool_decide_eq_true_2 by done. cbn [expected_bind].
  pose proof (decode_loop_encoded [rec] 0 0 []) as Hd. rewrite app_nil_r in Hd. cbn [length] in Hd.
  change (Z.to_nat 1) with 1%nat. rewrite Hd.
  - cbn [expected_bind number_from with_offset r_key r_value rec]. by apply decode_encoded_marker.
  - split; [|done]. unfold record_ok, rec. cbn [r_timestamp_delta r_key r_value r_headers].
    unfold size_ok. rewrite control_key_length, control_value_length.
    split_and!; try by_range; done.
Qed.
End Codecs.

Lemma control_batch_roundtrip_witness :
  let none := (fun _ : list byte => @None (list byte)) in
  parse_control_batch false false (fun _ _ => None) (fun _ _ => None)
    (build_control_batch false false none none (MkMarker Commit 7 0) 12 3) = Ok (MkMarker Commit 7 0).
Proof.
  pose proof (control_batch_roundtrip false false (fun _ => None) (fun _ => None) (fun _ _ => None) (fun _ _ => None)
    (MkMarker Commit 7 0) 12 3 eq_refl) as H.
  destruct H as [H _]; [by_range|exact H].
Defined.
