(* ===== verification/TransactionCoordinator.v ===== *)
(** * The transaction coordinator

    Models [TransactionCoordinator] of [src/src/broker/transaction_coordinator.hpp] and
    [transaction_coordinator.cpp]: a synchronous state machine that runs the two-phase commit of
    each producer's transaction over its partitions.  Markers to write are queued for a carrier.
    Time is in nanoseconds.  The order in which a hash table is visited is not defined by the
    language: it is the parameter [txn_order]. *)
From Stdlib Require Import ZArith Lia Ascii String.
From stdpp Require Import base list gmap sets strings sorting relations.
From S2P Require Import Prelude RecordCodec.
#[local] Open Scope Z_scope.

(** ** Data *)

Record TopicPartition := MkTopicPartition { tp_topic : string; tp_partition : Z }.

#[export] Instance TopicPartition_eq_dec : EqDecision TopicPartition.
Proof. solve_decision. Defined.

(** [operator<=>]: by topic (as bytes), then by partition. *)
Definition tp_compare (a b : TopicPartition) : comparison :=
  match String.compare (tp_topic a) (tp_topic b) with
  | Eq => Z.compare (tp_partition a) (tp_partition b)
  | c => c
  end.

Definition tp_lt (a b : TopicPartition) : bool := match tp_compare a b with Lt => true | _ => false end.

Inductive TransactionState := Ongoing | PrepareCommit | PrepareAbort | CompleteCommit | CompleteAbort.

#[export] Instance TransactionState_eq_dec : EqDecision TransactionState.
Proof. solve_decision. Defined.

Record TransactionMetadata := MkTxn {
  tx_producer_id : Z;
  tx_producer_epoch : Z;
  tx_state : TransactionState;
  tx_partitions : list TopicPartition;
  tx_unacked : list TopicPartition;
  tx_coordinator_epoch : Z;
  tx_last_update : Z;
}.

Record MarkerWrite := MkMarkerWrite {
  mw_producer_id : Z;
  mw_producer_epoch : Z;
  mw_coordinator_epoch : Z;
  mw_decision : ControlRecordType;
  mw_partition : TopicPartition;
}.

Record ProducerIdentity := MkIdentity { pi_producer_id : Z; pi_producer_epoch : Z }.

#[export] Instance ProducerIdentity_eq_dec : EqDecision ProducerIdentity.
Proof. solve_decision. Defined.

(** [std::ranges::lower_bound] on a sorted vector, [insert] and [erase] at its position. *)
Fixpoint tp_lower_bound (p : TopicPartition) (v : list TopicPartition) : nat :=
  match v with
  | [] => 0
  | x :: v' => if tp_lt x p then S (tp_lower_bound p v') else 0
  end.

Definition tp_insert_at (i : nat) (p : TopicPartition) (v : list TopicPartition) : list TopicPartition :=
  take i v ++ p :: drop i v.

(** [pos == end() || *pos != p]. *)
Definition tp_absent (p : TopicPartition) (v : list TopicPartition) : bool :=
  match v !! tp_lower_bound p v with Some x => negb (bool_decide (x = p)) | None => true end.

Definition tp_merge (v : list TopicPartition) (ps : list TopicPartition) : list TopicPartition :=
  foldl (fun v p => if tp_absent p v then tp_insert_at (tp_lower_bound p v) p v else v) v ps.

Definition tp_erase (p : TopicPartition) (v : list TopicPartition) : list TopicPartition :=
  take (tp_lower_bound p v) v ++ drop (S (tp_lower_bound p v)) v.

Definition prepare_state_of (d : ControlRecordType) : TransactionState :=
  match d with Commit => PrepareCommit | Abort => PrepareAbort end.
Definition complete_state_of (d : ControlRecordType) : TransactionState :=
  match d with Commit => CompleteCommit | Abort => CompleteAbort end.
Definition is_prepared (s : TransactionState) : bool :=
  match s with PrepareCommit | PrepareAbort => true | _ => false end.
Definition is_complete (s : TransactionState) : bool :=
  match s with CompleteCommit | CompleteAbort => true | _ => false end.
Definition decision_of (s : TransactionState) : ControlRecordType :=
  match s with PrepareCommit => Commit | _ => Abort end.

(** ** The coordinator *)

Record TransactionCoordinator := MkCoordinator {
  tc_epoch : Z;
  tc_timeout : Z;
  tc_next_producer_id : Z;
  tc_identities : gmap string ProducerIdentity;
  tc_current_epoch : gmap Z Z;
  tc_txns : gmap Z TransactionMetadata;
  tc_pending : list MarkerWrite;
}.

Definition kDefaultTxnTimeout : Z := 60000 * 1000000.

Definition new_coordinator (epoch timeout : Z) : TransactionCoordinator :=
  MkCoordinator epoch timeout 0 ∅ ∅ ∅ [].

Definition set_coordinator_epoch (e : Z) (c : TransactionCoordinator) : TransactionCoordinator :=
  MkCoordinator e (tc_timeout c) (tc_next_producer_id c) (tc_identities c) (tc_current_epoch c)
    (tc_txns c) (tc_pending c).
Definition tc_set_identity (name : string) (id : ProducerIdentity) (next : Z) (c : TransactionCoordinator)
  : TransactionCoordinator :=
  MkCoordinator (tc_epoch c) (tc_timeout c) next (<[name := id]> (tc_identities c)) (tc_current_epoch c)
    (tc_txns c) (tc_pending c).
Definition tc_set_current (pid e : Z) (c : TransactionCoordinator) : TransactionCoordinator :=
  MkCoordinator (tc_epoch c) (tc_timeout c) (tc_next_producer_id c) (tc_identities c)
    (<[pid := e]> (tc_current_epoch c)) (tc_txns c) (tc_pending c).
Definition tc_set_txn (pid : Z) (t : TransactionMetadata) (c : TransactionCoordinator) : TransactionCoordinator :=
  MkCoordinator (tc_epoch c) (tc_timeout c) (tc_next_producer_id c) (tc_identities c) (tc_current_epoch c)
    (<[pid := t]> (tc_txns c)) (tc_pending c).
Definition tc_set_pending (ms : list MarkerWrite) (c : TransactionCoordinator) : TransactionCoordinator :=
  MkCoordinator (tc_epoch c) (tc_timeout c) (tc_next_producer_id c) (tc_identities c) (tc_current_epoch c)
    (tc_txns c) ms.

Definition tx_set_state (s : TransactionState) (t : TransactionMetadata) : TransactionMetadata :=
  MkTxn (tx_producer_id t) (tx_producer_epoch t) s (tx_partitions t) (tx_unacked t)
    (tx_coordinator_epoch t) (tx_last_update t).

(** The markers of [enqueue_markers]. *)
Definition txn_markers (epoch : Z) (d : ControlRecordType) (t : TransactionMetadata) : list MarkerWrite :=
  (fun p => MkMarkerWrite (tx_producer_id t) (tx_producer_epoch t) epoch d p) <$> tx_unacked t.

Definition enqueue_markers (t : TransactionMetadata) (d : ControlRecordType) (c : TransactionCoordinator)
  : TransactionCoordinator :=
  tc_set_pending (tc_pending c ++ txn_markers (tc_epoch c) d t) c.

(** [enter_prepare], on the transaction stored under [pid]. *)
Definition enter_prepare (pid : Z) (t : TransactionMetadata) (d : ControlRecordType) (now : Z)
    (c : TransactionCoordinator) : TransactionCoordinator :=
  let t' := MkTxn (tx_producer_id t) (tx_producer_epoch t) (prepare_state_of d) (tx_partitions t)
              (tx_partitions t) (tc_epoch c) now in
  match tx_unacked t' with
  | [] => tc_set_txn pid (tx_set_state (complete_state_of d) t') c
  | _ :: _ => enqueue_markers t' d (tc_set_txn pid t' c)
  end.

Definition init_producer_id (now : Z) (name : string) (c : TransactionCoordinator)
  : ProducerIdentity * TransactionCoordinator :=
  match tc_identities c !! name with
  | None =>
      let id := MkIdentity (tc_next_producer_id c) 0 in
      (id, c |> tc_set_identity name id (tc_next_producer_id c + 1)
             |> tc_set_current (pi_producer_id id) (pi_producer_epoch id))
  | Some id =>
      let c := match tc_txns c !! pi_producer_id id with
               | Some t => if bool_decide (tx_state t = Ongoing)
                           then enter_prepare (pi_producer_id id) t Abort now c else c
               | None => c
               end in
      let '(id', next) :=
        if pi_producer_epoch id =? int16_max
        then (MkIdentity (tc_next_producer_id c) 0, tc_next_producer_id c + 1)
        else (MkIdentity (pi_producer_id id) (pi_producer_epoch id + 1), tc_next_producer_id c) in
      (id', c |> tc_set_identity name id' next
              |> tc_set_current (pi_producer_id id') (pi_producer_epoch id'))
  end.

(** The authoritative fence: a registered epoch above [epoch]. *)
Definition tc_fenced (pid epoch : Z) (c : TransactionCoordinator) : bool :=
  match tc_current_epoch c !! pid with Some e => epoch <? e | None => false end.

Definition tc_begin (now pid epoch : Z) (c : TransactionCoordinator) : expected unit * TransactionCoordinator :=
  if tc_fenced pid epoch c then (make_error Fenced "begin: época obsoleta", c)
  else if match tc_txns c !! pid with
          | Some cur => (epoch =? tx_producer_epoch cur) && negb (is_complete (tx_state cur))
          | None => false
          end
  then (make_error InvalidArgument "begin: ya hay una transacción en curso", c)
  else
    let current := Z.max (default 0 (tc_current_epoch c !! pid)) epoch in
    (Ok tt, c |> tc_set_current pid current
              |> tc_set_txn pid (MkTxn pid epoch Ongoing [] [] (tc_epoch c) now)).

(** [require]: the transaction, after the fencing checks. *)
Definition tc_require (pid epoch : Z) (c : TransactionCoordinator) : expected TransactionMetadata :=
  if tc_fenced pid epoch c then make_error Fenced "época obsoleta"
  else match tc_txns c !! pid with
       | None => make_error NotFound "transacción inexistente"
       | Some t =>
           if epoch <? tx_producer_epoch t then make_error Fenced "época obsoleta"
           else if tx_producer_epoch t <? epoch then make_error InvalidArgument "época adelantada sin begin"
           else Ok t
       end.

Definition add_partitions (now pid epoch : Z) (ps : list TopicPartition) (c : TransactionCoordinator)
  : expected unit * TransactionCoordinator :=
  match tc_require pid epoch c with
  | Err e => (Err e, c)
  | Ok t =>
      if negb (bool_decide (tx_state t = Ongoing))
      then (make_error InvalidArgument "add_partitions: la transacción no está abierta", c)
      else (Ok tt, tc_set_txn pid (MkTxn (tx_producer_id t) (tx_producer_epoch t) (tx_state t)
              (tp_merge (tx_partitions t) ps) (tx_unacked t) (tx_coordinator_epoch t) now) c)
  end.

(** [commit] and [abort] differ in the decision and the name in the message. *)
Definition tc_decide (d : ControlRecordType) (name : string) (now pid epoch : Z) (c : TransactionCoordinator)
  : expected unit * TransactionCoordinator :=
  match tc_require pid epoch c with
  | Err e => (Err e, c)
  | Ok t =>
      if negb (bool_decide (tx_state t = Ongoing))
      then (make_error InvalidArgument (name +:+ ": la transacción no está abierta"), c)
      else (Ok tt, enter_prepare pid t d now c)
  end.

Definition tc_commit := tc_decide Commit "commit".
Definition tc_abort := tc_decide Abort "abort".

Definition on_marker_written (pid epoch : Z) (p : TopicPartition) (c : TransactionCoordinator)
  : TransactionCoordinator :=
  match tc_txns c !! pid with
  | None => c
  | Some t =>
      if negb (epoch =? tx_producer_epoch t) || negb (is_prepared (tx_state t)) then c
      else if tp_absent p (tx_unacked t) then c
      else
        let unacked := tp_erase p (tx_unacked t) in
        let state := match unacked with [] => complete_state_of (decision_of (tx_state t)) | _ => tx_state t end in
        tc_set_txn pid (MkTxn (tx_producer_id t) (tx_producer_epoch t) state (tx_partitions t) unacked
          (tx_coordinator_epoch t) (tx_last_update t)) c
  end.

Section HashOrder.
(** The order in which [unordered_map] is visited: every key once. *)
Context (txn_order : gmap Z TransactionMetadata -> list Z).

Definition tc_tick (now : Z) (c : TransactionCoordinator) : TransactionCoordinator :=
  foldl (fun c pid =>
    match tc_txns c !! pid with
    | Some t => if bool_decide (tx_state t = Ongoing) && (tc_timeout c <? now - tx_last_update t)
                then enter_prepare pid t Abort now c else c
    | None => c
    end) c (txn_order (tc_txns c)).

Definition resume_pending (c : TransactionCoordinator) : TransactionCoordinator :=
  foldl (fun c pid =>
    match tc_txns c !! pid with
    | Some t =>
        if is_prepared (tx_state t) then
          let t' := MkTxn (tx_producer_id t) (tx_producer_epoch t) (tx_state t) (tx_partitions t)
                      (tx_unacked t) (tc_epoch c) (tx_last_update t) in
          enqueue_markers t' (decision_of (tx_state t)) (tc_set_txn pid t' c)
        else c
    | None => c
    end) c (txn_order (tc_txns c)).

Definition take_pending_markers (c : TransactionCoordinator) : list MarkerWrite * TransactionCoordinator :=
  (tc_pending c, tc_set_pending [] c).

(** ** One operation *)

Inductive TxnOp :=
  | OInit (name : string)
  | OBegin (pid epoch : Z)
  | OAdd (pid epoch : Z) (ps : list TopicPartition)
  | OCommit (pid epoch : Z)
  | OAbort (pid epoch : Z)
  | OMarker (pid epoch : Z) (p : TopicPartition)
  | OTick
  | OResume
  | OTake
  | OSetEpoch (e : Z).

Definition txn_op (now : Z) (op : TxnOp) (c : TransactionCoordinator) : TransactionCoordinator :=
  match op with
  | OInit name => (init_producer_id now name c).2
  | OBegin pid epoch => (tc_begin now pid epoch c).2
  | OAdd pid epoch ps => (add_partitions now pid epoch ps c).2
  | OCommit pid epoch => (tc_commit now pid epoch c).2
  | OAbort pid epoch => (tc_abort now pid epoch c).2
  | OMarker pid epoch p => on_marker_written pid epoch p c
  | OTick => tc_tick now c
  | OResume => resume_pending c
  | OTake => (take_pending_markers c).2
  | OSetEpoch e => set_coordinator_epoch e c
  end.

Definition txn_run (ops : list (Z * TxnOp)) (c : TransactionCoordinator) : TransactionCoordinator :=
  foldl (fun c op => txn_op op.1 op.2 c) c ops.

End HashOrder.
