(* ===== verification/TransactionSafety.v ===== *)
(** * Two-phase commit

    What [TransactionCoordinator] guarantees: the invariant of its transactions under every
    operation, markers only for decided transactions, completion exactly when every participant
    has acknowledged, fencing of stale epochs; and where it falls short (a decision forgotten
    when the producer starts over, an epoch fence that can go back). *)
From Stdlib Require Import ZArith Lia Ascii String OrderedTypeEx.
From stdpp Require Import base list gmap sets strings sorting relations.
From S2P Require Import Prelude RecordCodec TransactionCoordinator.
#[local] Open Scope Z_scope.

(** ** The order on partitions *)

Definition tp_lt_prop (a b : TopicPartition) : Prop := tp_lt a b = true.

Lemma tp_compare_lt a b : tp_lt_prop a b <->
  String_as_OT.lt (tp_topic a) (tp_topic b) \/
  (tp_topic a = tp_topic b /\ tp_partition a < tp_partition b).
Proof.
  unfold tp_lt_prop, tp_lt, tp_compare. pose proof (String_as_OT.cmp_lt (tp_topic a) (tp_topic b)) as Hlt.
  pose proof (String_as_OT.cmp_eq (tp_topic a) (tp_topic b)) as Heq. unfold String_as_OT.cmp in *.
  destruct (String.compare (tp_topic a) (tp_topic b)) eqn:Hc.
  - rewrite <- Z.compare_lt_iff. destruct (Z.compare _ _) eqn:Hz; split; intros H; try done; try tauto.
    + destruct H as [H%Hlt|[_ H]]; done.
    + destruct H as [H%Hlt|[_ H]]; done.
  - tauto.
  - split; [done|]. intros [H%Hlt|[H%Heq _]]; done.
Qed.

#[export] Instance tp_lt_trans : Transitive tp_lt_prop.
Proof.
  intros a b c. rewrite !tp_compare_lt. intros [H1|[H1 H2]] [H3|[H3 H4]].
  - left. eapply String_as_OT.lt_trans; eauto.
  - left. congruence.
  - left. congruence.
  - right. split; [congruence|lia].
Qed.

Lemma tp_lt_irrefl a : ~ tp_lt_prop a a.
Proof.
  rewrite tp_compare_lt. intros [H|[_ H]]; [|lia]. by apply (String_as_OT.lt_not_eq _ _ H).
Qed.

Lemma tp_lt_total a b : a = b \/ tp_lt_prop a b \/ tp_lt_prop b a.
Proof.
  unfold tp_lt_prop, tp_lt, tp_compare. rewrite (String.compare_antisym (tp_topic b)).
  destruct (String.compare (tp_topic a) (tp_topic b)) eqn:Hc; cbn; auto.
  apply String.compare_eq_iff in Hc. rewrite (Z.compare_antisym (tp_partition a)).
  destruct (Z.compare (tp_partition a) (tp_partition b)) eqn:Hz; cbn; auto.
  apply Z.compare_eq in Hz. left. destruct a, b; cbn in *; congruence.
Qed.

(** ** Sorted vectors of partitions *)

Abbreviation tp_sorted := (StronglySorted tp_lt_prop).

Lemma lower_bound_before p v x : x ∈ take (tp_lower_bound p v) v -> tp_lt_prop x p.
Proof.
  induction v as [|y v IH]; cbn; [set_solver|]. destruct (tp_lt y p) eqn:Hy; cbn; [|set_solver].
  intros [->|Hx]%elem_of_cons; auto.
Qed.

Lemma lower_bound_at p v x : v !! tp_lower_bound p v = Some x -> ~ tp_lt_prop x p.
Proof.
  induction v as [|y v IH]; cbn; [done|]. destruct (tp_lt y p) eqn:Hy; cbn; [auto|].
  intros [= ->]. unfold tp_lt_prop. by rewrite Hy.
Qed.

Lemma tp_sorted_nodup v : tp_sorted v -> NoDup v.
Proof.
  induction 1 as [|x v Hs IH Hx]; constructor; [|done]. intros Hin. rewrite Forall_forall in Hx.
  by apply (tp_lt_irrefl x), Hx.
Qed.

Lemma tp_sorted_app a b : tp_sorted (a ++ b) <->
  tp_sorted a /\ tp_sorted b /\ (forall x y, x ∈ a -> y ∈ b -> tp_lt_prop x y).
Proof.
  induction a as [|z a IH]; cbn.
  - split; [intros; split_and!; [constructor|done|set_solver]|tauto].
  - split.
    + intros [Hs Hz]%StronglySorted_inv. apply IH in Hs as (Ha & Hb & Hab).
      apply Forall_app in Hz as [Hza Hzb]. rewrite Forall_forall in Hzb.
      split_and!; [by constructor|done|]. intros x y [->|Hx]%elem_of_cons Hy; auto.
    + intros (Ha & Hb & Hab). apply StronglySorted_inv in Ha as [Ha Hz]. constructor.
      * apply IH. split_and!; auto. intros x y Hx Hy. apply Hab; [by right|done].
      * apply Forall_app. split; [done|]. apply Forall_forall. intros y Hy. apply Hab; [by left|done].
Qed.

(** In a sorted vector [lower_bound] finds an element that is there. *)
Lemma tp_absent_spec p v : tp_sorted v -> tp_absent p v = false <-> p ∈ v.
Proof.
  intros Hs. unfold tp_absent. split.
  - destruct (v !! tp_lower_bound p v) as [x|] eqn:Hx; [|done].
    destruct (bool_decide_reflect (x = p)) as [->|]; [|done]. intros _. by eapply list_elem_of_lookup_2.
  - intros Hin. induction Hs as [|x v Hs IH Hx]; [set_solver|]. cbn.
    apply elem_of_cons in Hin as [->|Hin].
    + destruct (tp_lt x x) eqn:Hxx; [by destruct (tp_lt_irrefl x)|]. cbn. by rewrite bool_decide_eq_true_2.
    + rewrite Forall_forall in Hx. assert (Hlt : tp_lt x p = true) by apply (Hx p Hin).
      rewrite Hlt. cbn. auto.
Qed.

Lemma tp_insert_sorted p v :
  tp_sorted v -> tp_absent p v = true -> tp_sorted (tp_insert_at (tp_lower_bound p v) p v).
Proof.
  intros Hs Habs. unfold tp_insert_at. set (i := tp_lower_bound p v).
  assert (Hv : tp_sorted (take i v ++ drop i v)) by by rewrite take_drop.
  apply tp_sorted_app in Hv as (Ha & Hb & Hab). apply tp_sorted_app. split_and!; [done| |].
  - constructor; [done|]. destruct (drop i v) as [|x d] eqn:Hd; [constructor|].
    assert (Hx : v !! i = Some x).
    { rewrite <- (Nat.add_0_r i), <- lookup_drop, Hd. done. }
    assert (Hpx : tp_lt_prop p x).
    { destruct (tp_lt_total p x) as [->|[|Hxp]]; [|done|by destruct (lower_bound_at p v x Hx)].
      unfold tp_absent in Habs. fold i in Habs. rewrite Hx in Habs. by rewrite bool_decide_eq_true_2 in Habs. }
    apply StronglySorted_inv in Hb as [_ Hxd]. constructor; [done|].
    eapply Forall_impl; [exact Hxd|]. intros y Hy. by trans x.
  - intros x y Hx [->|Hy]%elem_of_cons; [by apply lower_bound_before in Hx|auto].
Qed.

Lemma tp_insert_elem p q v i : q ∈ tp_insert_at i p v <-> q = p \/ q ∈ v.
Proof.
  unfold tp_insert_at. rewrite elem_of_app, elem_of_cons.
  rewrite <- (take_drop i v) at 3. rewrite elem_of_app. tauto.
Qed.

Lemma tp_merge_spec v ps :
  tp_sorted v -> tp_sorted (tp_merge v ps) /\ (forall q, q ∈ tp_merge v ps <-> q ∈ v \/ q ∈ ps).
Proof.
  unfold tp_merge. revert v. induction ps as [|p ps IH]; intros v Hs; cbn; [set_solver|].
  destruct (tp_absent p v) eqn:Ha.
  - destruct (IH _ (tp_insert_sorted p v Hs Ha)) as [H1 H2]. split; [done|].
    intros q. rewrite H2, tp_insert_elem, elem_of_cons. tauto.
  - destruct (IH v Hs) as [H1 H2]. split; [done|]. apply tp_absent_spec in Ha; [|done].
    intros q. rewrite H2, elem_of_cons. split; [tauto|]. intros [?|[->|?]]; auto.
Qed.

Lemma tp_erase_spec p v :
  tp_sorted v -> tp_absent p v = false ->
  tp_sorted (tp_erase p v) /\ tp_erase p v = filter (fun q => q <> p) v.
Proof.
  intros Hs Ha. unfold tp_erase, tp_absent in *. set (i := tp_lower_bound p v) in *.
  destruct (v !! i) as [x|] eqn:Hx; [|done]. destruct (bool_decide_reflect (x = p)) as [->|]; [|done].
  assert (Hv : v = take i v ++ p :: drop (S i) v) by (by rewrite take_drop_middle).
  assert (Hnd : NoDup (take i v ++ p :: drop (S i) v)) by (rewrite <- Hv; by apply tp_sorted_nodup).
  rewrite Hv in Hs. apply tp_sorted_app in Hs as (Ha' & Hb & Hab).
  apply StronglySorted_inv in Hb as [Hb Hpb]. split.
  - apply tp_sorted_app. split_and!; auto. intros a b H1 H2. apply Hab; [done|by right].
  - rewrite Hv at 3. rewrite filter_app, filter_cons_False by naive_solver.
    apply NoDup_app in Hnd as (_ & Hdis & Hnd2). apply NoDup_cons in Hnd2 as [Hpd _].
    assert (Hkeep : forall l : list TopicPartition, p ∉ l -> filter (fun q => q <> p) l = l).
    { clear. intros l. induction l as [|y l IH]; intros Hl; [done|].
      rewrite filter_cons_True by set_solver. f_equal. apply IH. set_solver. }
    rewrite (Hkeep (drop (S i) v)) by done. rewrite Hkeep; [done|].
    intros Hin. apply (Hdis p Hin). by left.
Qed.

(** ** The invariant of a transaction *)

(** Participants sorted without duplicates; the ones left to acknowledge are among them, none
    while the transaction is open, some while it is prepared, none when it is complete. *)
Definition txn_inv (t : TransactionMetadata) : Prop :=
  tp_sorted (tx_partitions t) /\ tp_sorted (tx_unacked t) /\
  (forall p, p ∈ tx_unacked t -> p ∈ tx_partitions t) /\
  (is_prepared (tx_state t) = true <-> tx_unacked t <> []).

Definition coordinator_inv (c : TransactionCoordinator) : Prop :=
  forall pid t, tc_txns c !! pid = Some t -> tx_producer_id t = pid /\ txn_inv t.

(** The markers an operation queues: each belongs to a transaction whose decision is on record
    at that moment, and goes to a participant that has not acknowledged. *)
Definition marker_backed (c : TransactionCoordinator) (m : MarkerWrite) : Prop :=
  exists t, tc_txns c !! mw_producer_id m = Some t /\ tx_producer_epoch t = mw_producer_epoch m /\
    tx_state t = prepare_state_of (mw_decision m) /\ mw_partition m ∈ tx_unacked t /\
    mw_coordinator_epoch m = tc_epoch c.

(** From [c] to [c'] the queue grew by markers backed by [c']. *)
Definition queue_grows (c c' : TransactionCoordinator) : Prop :=
  exists new, tc_pending c' = tc_pending c ++ new /\ Forall (marker_backed c') new.

Lemma coordinator_inv_set pid t c :
  coordinator_inv c -> tx_producer_id t = pid -> txn_inv t -> coordinator_inv (tc_set_txn pid t c).
Proof.
  intros Hc Hp Ht pid' t'. cbn. intros [[-> ->]|[_ H]]%lookup_insert_Some; [done|]. by apply Hc.
Qed.

(** *** [enter_prepare] *)

Definition decided (t : TransactionMetadata) (d : ControlRecordType) (e now : Z) : TransactionMetadata :=
  MkTxn (tx_producer_id t) (tx_producer_epoch t)
    (match tx_partitions t with [] => complete_state_of d | _ => prepare_state_of d end)
    (tx_partitions t) (tx_partitions t) e now.

Lemma enter_prepare_eq pid t d now c :
  enter_prepare pid t d now c =
  tc_set_pending (tc_pending c ++ match tx_partitions t with [] => []
                                  | _ => txn_markers (tc_epoch c) d (decided t d (tc_epoch c) now) end)
    (tc_set_txn pid (decided t d (tc_epoch c) now) c).
Proof.
  unfold enter_prepare, decided. cbn. destruct (tx_partitions t); cbn; [|done].
  rewrite app_nil_r. by destruct c.
Qed.

Lemma enter_prepare_inv pid t d now c :
  coordinator_inv c -> tc_txns c !! pid = Some t -> coordinator_inv (enter_prepare pid t d now c).
Proof.
  intros Hc Ht. destruct (Hc pid t Ht) as [Hp (Hs & _ & _ & _)]. rewrite enter_prepare_eq.
  change (coordinator_inv (tc_set_txn pid (decided t d (tc_epoch c) now) c)).
  apply coordinator_inv_set; [done|done|]. unfold txn_inv, decided. cbn.
  split_and!; try done. destruct (tx_partitions t); destruct d; cbn; split; done.
Qed.

Lemma enter_prepare_queue pid t d now c :
  coordinator_inv c -> tc_txns c !! pid = Some t -> queue_grows c (enter_prepare pid t d now c).
Proof.
  intros Hc Ht. destruct (Hc pid t Ht) as [Hp _]. rewrite enter_prepare_eq. eexists. split; [done|].
  destruct (tx_partitions t) as [|q qs] eqn:Hq; [constructor|].
  apply Forall_forall. intros m Hm. unfold txn_markers in Hm. apply list_elem_of_fmap in Hm as (p & -> & Hm).
  exists (decided t d (tc_epoch c) now). unfold decided in *. cbn in *. rewrite Hp, lookup_insert_eq, Hq in *.
  done.
Qed.

(** A marker stays backed while its own transaction is not touched. *)
Lemma marker_backed_other c c' m :
  tc_txns c' !! mw_producer_id m = tc_txns c !! mw_producer_id m -> tc_epoch c' = tc_epoch c ->
  marker_backed c m -> marker_backed c' m.
Proof. intros Ht He (t & H1 & H2 & H3 & H4 & H5). exists t. rewrite Ht, He. done. Qed.

(** *** The loops over the table *)

Section Loops.
Context (txn_order : gmap Z TransactionMetadata -> list Z).

(** A loop body that only touches the transaction it visits, grows the queue with backed markers,
    and leaves backed markers backed. *)
Definition good_body (f : TransactionCoordinator -> Z -> TransactionCoordinator) : Prop :=
  forall c pid, coordinator_inv c ->
    coordinator_inv (f c pid) /\ queue_grows c (f c pid) /\
    (forall m, marker_backed c m -> marker_backed (f c pid) m).

Lemma loop_good f pids c :
  good_body f -> coordinator_inv c ->
  coordinator_inv (foldl f c pids) /\ queue_grows c (foldl f c pids) /\
  (forall m, marker_backed c m -> marker_backed (foldl f c pids) m).
Proof.
  intros Hf. revert c. induction pids as [|pid pids IH]; intros c Hc; cbn.
  { split_and!; try done. exists []. by rewrite app_nil_r. }
  destruct (Hf c pid Hc) as (H1 & (new1 & Hp1 & Hn1) & H3).
  destruct (IH (f c pid) H1) as (H4 & (new2 & Hp2 & Hn2) & H6). split_and!; [done| |auto].
  exists (new1 ++ new2). rewrite Hp2, Hp1, app_assoc. split; [done|]. apply Forall_app. split; [|done].
  eapply Forall_impl; [exact Hn1|]. auto.
Qed.

Lemma queue_same c c' : tc_pending c' = tc_pending c -> queue_grows c c'.
Proof. intros H. exists []. by rewrite app_nil_r. Qed.

Lemma tick_body_good now : good_body (fun c pid =>
    match tc_txns c !! pid with
    | Some t => if bool_decide (tx_state t = Ongoing) && (tc_timeout c <? now - tx_last_update t)
                then enter_prepare pid t Abort now c else c
    | None => c
    end).
Proof.
  intros c pid Hc. destruct (tc_txns c !! pid) as [t|] eqn:Ht; [|by auto using queue_same].
  destruct (bool_decide_reflect (tx_state t = Ongoing)) as [Ho|]; cbn [andb]; [|by auto using queue_same].
  destruct (_ <? _); [|by auto using queue_same].
  split_and!; [by apply enter_prepare_inv|by apply enter_prepare_queue|].
  intros m (t' & H1 & H2 & H3 & H4). apply (marker_backed_other c); [| |by exists t'].
  - rewrite enter_prepare_eq. cbn. apply lookup_insert_ne. intros Heq.
    rewrite <- Heq, Ht in H1. injection H1 as <-. rewrite Ho in H3. by destruct (mw_decision m).
  - rewrite enter_prepare_eq. done.
Qed.

Lemma resume_body_good : good_body (fun c pid =>
    match tc_txns c !! pid with
    | Some t =>
        if is_prepared (tx_state t) then
          let t' := MkTxn (tx_producer_id t) (tx_producer_epoch t) (tx_state t) (tx_partitions t)
                      (tx_unacked t) (tc_epoch c) (tx_last_update t) in
          enqueue_markers t' (decision_of (tx_state t)) (tc_set_txn pid t' c)
        else c
    | None => c
    end).
Proof.
  intros c pid Hc. destruct (tc_txns c !! pid) as [t|] eqn:Ht; [|by auto using queue_same].
  destruct (is_prepared (tx_state t)) eqn:Hpr; [|by auto using queue_same]. cbv zeta.
  set (t' := MkTxn _ _ _ _ _ _ _). destruct (Hc pid t Ht) as [Hp Hinv]. split_and!.
  - apply (coordinator_inv_set pid t' c Hc Hp Hinv).
  - eexists. split; [done|]. apply Forall_forall. intros m Hm.
    apply list_elem_of_fmap in Hm as (p & -> & Hm). exists t'. cbn in *. rewrite Hp, lookup_insert_eq.
    split_and!; try done. by destruct (tx_state t).
  - intros m (x & H1 & H2 & H3 & H4 & H5). destruct (decide (mw_producer_id m = pid)) as [He|Hne].
    + rewrite He, Ht in H1. injection H1 as <-. exists t'. cbn. rewrite He, lookup_insert_eq. done.
    + exists x. cbn. rewrite lookup_insert_ne by done. done.
Qed.

Lemma tick_good now c : coordinator_inv c ->
  coordinator_inv (tc_tick txn_order now c) /\ queue_grows c (tc_tick txn_order now c).
Proof.
  intros Hc. unfold tc_tick. destruct (loop_good _ (txn_order (tc_txns c)) c (tick_body_good now) Hc) as (H1 & H2 & _).
  done.
Qed.

Lemma resume_good c : coordinator_inv c ->
  coordinator_inv (resume_pending txn_order c) /\ queue_grows c (resume_pending txn_order c).
Proof.
  intros Hc. unfold resume_pending.
  destruct (loop_good _ (txn_order (tc_txns c)) c resume_body_good Hc) as (H1 & H2 & _). done.
Qed.

(** *** Every operation *)

Lemma tc_require_some pid epoch c t :
  tc_require pid epoch c = Ok t -> tc_txns c !! pid = Some t /\ tx_producer_epoch t = epoch.
Proof.
  unfold tc_require. destruct (tc_fenced _ _ _); [done|]. destruct (tc_txns c !! pid) as [x|]; [|done].
  destruct (Z.ltb_spec epoch (tx_producer_epoch x)); [done|].
  destruct (Z.ltb_spec (tx_producer_epoch x) epoch); [done|]. intros [= ->]. split; [done|lia].
Qed.

Lemma init_good now name c : coordinator_inv c ->
  coordinator_inv (init_producer_id now name c).2 /\ queue_grows c (init_producer_id now name c).2.
Proof.
  intros Hc. unfold init_producer_id. destruct (tc_identities c !! name) as [id|].
  2: { split; [exact Hc|by apply queue_same]. }
  set (c1 := match tc_txns c !! pi_producer_id id with Some _ => _ | None => _ end).
  assert (H : coordinator_inv c1 /\ queue_grows c c1).
  { subst c1. destruct (tc_txns c !! pi_producer_id id) as [t|] eqn:Ht; [|by auto using queue_same].
    destruct (bool_decide _); [|by auto using queue_same].
    split; [by apply enter_prepare_inv|by apply enter_prepare_queue]. }
  clearbody c1. destruct (_ =? int16_max); exact H.
Qed.

Lemma txn_op_good now op c : coordinator_inv c ->
  coordinator_inv (txn_op txn_order now op c) /\
  (op = OTake /\ tc_pending (txn_op txn_order now op c) = [] \/ queue_grows c (txn_op txn_order now op c)).
Proof.
  intros Hc. destruct op as [name|pid epoch|pid epoch ps|pid epoch|pid epoch|pid epoch p| | | |e]; cbn [txn_op].
  - destruct (init_good now name c Hc). auto.
  - unfold tc_begin. destruct (tc_fenced _ _ _); [by auto using queue_same|].
    destruct (match tc_txns c !! pid with Some _ => _ | None => _ end); [by auto using queue_same|].
    cbn [snd]. split; [|right; by apply queue_same].
    apply (coordinator_inv_set pid _ c); [done|done|]. split_and!; try constructor; cbn; done || set_solver.
  - unfold add_partitions. destruct (tc_require pid epoch c) as [t|] eqn:Hr; [|by auto using queue_same].
    apply tc_require_some in Hr as [Ht _]. destruct (negb _) eqn:Ho; [by auto using queue_same|].
    destruct (Hc pid t Ht) as [Hp (H1 & H2 & H3 & H4)]. destruct (tp_merge_spec (tx_partitions t) ps H1) as [H5 H6].
    split; [|right; by apply queue_same]. apply coordinator_inv_set; [done|done|].
    split_and!; cbn; try done. intros q Hq. apply H6. auto.
  - unfold tc_commit, tc_decide. destruct (tc_require pid epoch c) as [t|] eqn:Hr; [|by auto using queue_same].
    apply tc_require_some in Hr as [Ht _]. destruct (negb _); [by auto using queue_same|].
    split; [by apply enter_prepare_inv|right; by apply enter_prepare_queue].
  - unfold tc_abort, tc_decide. destruct (tc_require pid epoch c) as [t|] eqn:Hr; [|by auto using queue_same].
    apply tc_require_some in Hr as [Ht _]. destruct (negb _); [by auto using queue_same|].
    split; [by apply enter_prepare_inv|right; by apply enter_prepare_queue].
  - unfold on_marker_written. destruct (tc_txns c !! pid) as [t|] eqn:Ht; [|by auto using queue_same].
    destruct (negb (epoch =? _)); cbn [orb]; [by auto using queue_same|].
    destruct (is_prepared (tx_state t)) eqn:Hpr; cbn [negb]; [|by auto using queue_same].
    destruct (tp_absent p (tx_unacked t)) eqn:Ha; [by auto using queue_same|].
    destruct (Hc pid t Ht) as [Hp (H1 & H2 & H3 & H4)].
    destruct (tp_erase_spec p (tx_unacked t) H2 Ha) as [H5 H6].
    split; [|right; by apply queue_same]. apply coordinator_inv_set; [done|done|].
    split_and!; cbn; try done.
    + intros q Hq. rewrite H6 in Hq. apply list_elem_of_filter in Hq as [_ Hq]. auto.
    + destruct (tp_erase p (tx_unacked t)); [|by split]. destruct (tx_state t); done.
  - destruct (tick_good now c Hc). auto.
  - destruct (resume_good c Hc). auto.
  - split; [exact Hc|by left].
  - split; [exact Hc|right; by apply queue_same].
Qed.

(** *** Decisions *)

(** What has been decided of a transaction. *)
Definition verdict (s : TransactionState) : option ControlRecordType :=
  match s with
  | Ongoing => None
  | PrepareCommit | CompleteCommit => Some Commit
  | PrepareAbort | CompleteAbort => Some Abort
  end.

Lemma verdict_prepare d : verdict (prepare_state_of d) = Some d /\ verdict (complete_state_of d) = Some d.
Proof. by destruct d. Qed.

(** The participants left to acknowledge after an operation: a marker written takes its own away. *)
Definition unacked_after (op : TxnOp) (t : TransactionMetadata) : list TopicPartition :=
  match op with
  | OMarker pid epoch p =>
      if (pid =? tx_producer_id t) && (epoch =? tx_producer_epoch t) then filter (fun q => q <> p) (tx_unacked t) else tx_unacked t
  | _ => tx_unacked t
  end.

(** What an operation may do to the transaction of a producer: a decision stands, unless the producer begins
    another transaction, and only a commit of its producer and epoch decides to commit. *)
Definition decides_once (op : TxnOp) (c c' : TransactionCoordinator) : Prop := forall pid t,
  tc_txns c !! pid = Some t -> (forall epoch, op <> OBegin pid epoch) ->
  exists t', tc_txns c' !! pid = Some t' /\ tx_producer_epoch t' = tx_producer_epoch t /\
    match verdict (tx_state t) with
    | Some d => verdict (tx_state t') = Some d /\ tx_partitions t' = tx_partitions t /\ tx_unacked t' = unacked_after op t
    | None => verdict (tx_state t') = Some Commit -> op = OCommit pid (tx_producer_epoch t)
    end.

(** Operations that neither commit nor acknowledge. *)
Definition quiet (c c' : TransactionCoordinator) : Prop := forall pid t,
  tc_txns c !! pid = Some t ->
  exists t', tc_txns c' !! pid = Some t' /\ tx_producer_epoch t' = tx_producer_epoch t /\
    match verdict (tx_state t) with
    | Some d => verdict (tx_state t') = Some d /\ tx_partitions t' = tx_partitions t /\ tx_unacked t' = tx_unacked t
    | None => verdict (tx_state t') <> Some Commit
    end.

Lemma quiet_refl c c' : tc_txns c' = tc_txns c -> quiet c c'.
Proof. intros H pid t Ht. exists t. rewrite H. split_and!; [done|done|]. by destruct (verdict (tx_state t)). Qed.

Lemma quiet_trans c1 c2 c3 : quiet c1 c2 -> quiet c2 c3 -> quiet c1 c3.
Proof.
  intros H1 H2 pid t Ht. destruct (H1 pid t Ht) as (t1 & Ht1 & He1 & Hm1). destruct (H2 pid t1 Ht1) as (t2 & Ht2 & He2 & Hm2).
  exists t2. split_and!; [done|congruence|]. destruct (verdict (tx_state t)) as [d|].
  - destruct Hm1 as (Hv & Hp & Hu). rewrite Hv in Hm2. destruct Hm2 as (-> & -> & ->). done.
  - destruct (verdict (tx_state t1)) as [d|] eqn:Hv; [|done]. destruct Hm2 as (-> & _). congruence.
Qed.

Lemma quiet_set pid t t' c c' :
  tc_txns c !! pid = Some t -> tc_txns c' = <[pid := t']> (tc_txns c) -> tx_producer_epoch t' = tx_producer_epoch t ->
  match verdict (tx_state t) with
  | Some d => verdict (tx_state t') = Some d /\ tx_partitions t' = tx_partitions t /\ tx_unacked t' = tx_unacked t
  | None => verdict (tx_state t') <> Some Commit
  end -> quiet c c'.
Proof.
  intros Ht Hc' He Hm pid' x Hx. rewrite Hc'. destruct (decide (pid' = pid)) as [->|Hne].
  - assert (x = t) as -> by congruence. exists t'. by rewrite lookup_insert_eq.
  - exists x. rewrite lookup_insert_ne by done. split_and!; [done|done|]. by destruct (verdict (tx_state x)).
Qed.

Lemma abort_quiet pid t now c : tc_txns c !! pid = Some t -> tx_state t = Ongoing -> quiet c (enter_prepare pid t Abort now c).
Proof.
  intros Ht Ho. rewrite enter_prepare_eq. eapply (quiet_set pid t (decided t Abort (tc_epoch c) now)); [done|done|done|].
  rewrite Ho. cbn. by destruct (tx_partitions t).
Qed.

Lemma loop_quiet (f : TransactionCoordinator -> Z -> TransactionCoordinator) (pids : list Z) (c : TransactionCoordinator) : (forall c pid, quiet c (f c pid)) -> quiet c (foldl f c pids).
Proof. intros Hf. revert c. induction pids as [|pid pids IH]; intros c; cbn; [by apply quiet_refl|]. eapply quiet_trans; [apply Hf|apply IH]. Qed.

Lemma tick_quiet now c : quiet c (tc_tick txn_order now c).
Proof.
  apply loop_quiet. intros c' pid. destruct (tc_txns c' !! pid) as [t|] eqn:Ht; [|by apply quiet_refl].
  destruct (bool_decide_reflect (tx_state t = Ongoing)); [|by apply quiet_refl]. destruct (_ <? _); cbn [andb]; [by apply abort_quiet|by apply quiet_refl].
Qed.

Lemma resume_quiet c : quiet c (resume_pending txn_order c).
Proof.
  apply loop_quiet. intros c' pid. destruct (tc_txns c' !! pid) as [t|] eqn:Ht; [|by apply quiet_refl].
  destruct (is_prepared (tx_state t)); [|by apply quiet_refl]. eapply quiet_set; [exact Ht|done|done|]. cbn. by destruct (tx_state t).
Qed.

Lemma init_quiet now name c : quiet c (init_producer_id now name c).2.
Proof.
  unfold init_producer_id. destruct (tc_identities c !! name) as [id|]; [|by apply quiet_refl].
  set (c1 := match tc_txns c !! pi_producer_id id with Some _ => _ | None => _ end).
  assert (H : quiet c c1).
  { subst c1. destruct (tc_txns c !! pi_producer_id id) as [t|] eqn:Ht; [|by apply quiet_refl].
    destruct (bool_decide_reflect (tx_state t = Ongoing)); [by apply abort_quiet|by apply quiet_refl]. }
  clearbody c1. eapply quiet_trans; [exact H|]. destruct (_ =? int16_max); by apply quiet_refl.
Qed.

Lemma quiet_decides op c c' : (forall pid epoch p, op <> OMarker pid epoch p) -> quiet c c' -> decides_once op c c'.
Proof.
  intros Hop Hq pid t Ht _. destruct (Hq pid t Ht) as (t' & Ht' & He & Hm). exists t'. split_and!; [done|done|].
  destruct (verdict (tx_state t)); [|intros H; by destruct Hm]. destruct op; try done. by destruct (Hop pid0 epoch p).
Qed.

(** Deciding an open transaction; another is left as it is. *)
Lemma decide_once op d pid epoch t now c :
  tc_txns c !! pid = Some t -> tx_producer_epoch t = epoch -> tx_state t = Ongoing ->
  (d = Commit -> op = OCommit pid epoch) -> (forall pid epoch p, op <> OMarker pid epoch p) -> decides_once op c (enter_prepare pid t d now c).
Proof.
  intros Ht He Ho Hd Hop pid' x Hx _. rewrite enter_prepare_eq. cbn [tc_txns tc_set_pending tc_set_txn].
  destruct (decide (pid' = pid)) as [->|Hne].
  - assert (x = t) as -> by congruence. exists (decided t d (tc_epoch c) now). rewrite lookup_insert_eq. split_and!; [done|done|].
    rewrite Ho. cbn. intros Hv. rewrite He. apply Hd. destruct (tx_partitions t), d; done.
  - exists x. rewrite lookup_insert_ne by done. split_and!; [done|done|]. destruct (verdict (tx_state x)); [|done].
    destruct op; try done. by destruct (Hop pid0 epoch0 p).
Qed.

Lemma marker_decides pid epoch p c : coordinator_inv c -> decides_once (OMarker pid epoch p) c (on_marker_written pid epoch p c).
Proof.
  intros Hc pid' x Hx _. destruct (Hc pid' x Hx) as [Hid (_ & Hsorted & _ & Hprep)].
  assert (Hkeep : forall l : list TopicPartition, p ∉ l -> filter (fun q => q <> p) l = l).
  { clear. intros l. induction l as [|y l IH]; intros Hl; [done|]. rewrite filter_cons_True by set_solver. f_equal. apply IH. set_solver. }
  unfold on_marker_written. destruct (tc_txns c !! pid) as [t|] eqn:Ht.
  2: { exists x. split_and!; [done|done|]. destruct (verdict (tx_state x)); [|done]. cbn. rewrite Hid.
       destruct (Z.eqb_spec pid pid'); [congruence|done]. }
  destruct (decide (pid' = pid)) as [->|Hne].
  2: { exists x. assert (Hsame : tc_txns (if negb (epoch =? tx_producer_epoch t) || negb (is_prepared (tx_state t)) then c
         else if tp_absent p (tx_unacked t) then c else tc_set_txn pid (MkTxn (tx_producer_id t) (tx_producer_epoch t)
           (match tp_erase p (tx_unacked t) with [] => complete_state_of (decision_of (tx_state t)) | _ => tx_state t end) (tx_partitions t)
           (tp_erase p (tx_unacked t)) (tx_coordinator_epoch t) (tx_last_update t)) c) !! pid' = Some x).
       { destruct (_ || _); [done|]. destruct (tp_absent _ _); [done|]. cbn. by rewrite lookup_insert_ne. }
       split_and!; [exact Hsame|done|]. destruct (verdict (tx_state x)); [|done]. cbn. rewrite Hid.
       destruct (Z.eqb_spec pid pid'); [congruence|done]. }
  assert (x = t) as -> by congruence. cbn [unacked_after]. rewrite Hid, Z.eqb_refl. cbn [andb].
  destruct (Z.eqb_spec epoch (tx_producer_epoch t)); cbn [negb orb].
  2: { exists t. split_and!; [done|done|]. by destruct (verdict (tx_state t)). }
  destruct (is_prepared (tx_state t)) eqn:Hp; cbn [negb].
  2: { exists t. split_and!; [done|done|]. destruct (verdict (tx_state t)); [|done].
       destruct (decide (tx_unacked t = [])) as [Hu|Hu]; [by rewrite Hu|]. apply Hprep in Hu. congruence. }
  destruct (tp_absent p (tx_unacked t)) eqn:Ha.
  - exists t. split_and!; [done|done|]. destruct (verdict (tx_state t)); [|done]. rewrite Hkeep; [done|]. rewrite <- tp_absent_spec by done. by rewrite Ha.
  - destruct (tp_erase_spec p (tx_unacked t) Hsorted Ha) as [_ Hf]. eexists. split; [apply lookup_insert_eq|]. cbn. split; [done|]. rewrite Hf.
    destruct (filter _ _), (tx_state t); cbn in *; done.
Qed.

Lemma txn_op_decides now op c : coordinator_inv c -> decides_once op c (txn_op txn_order now op c).
Proof.
  intros Hc. destruct op as [name|pid epoch|pid epoch ps|pid epoch|pid epoch|pid epoch p| | | |e]; cbn [txn_op].
  - by apply quiet_decides, init_quiet.
  - intros pid' t Ht Hop. exists t. unfold tc_begin. destruct (tc_fenced _ _ _); [|case_match].
    all: cbn [snd tc_txns tc_set_txn tc_set_current]; rewrite ?lookup_insert_ne by (intros <-; by apply (Hop epoch)).
    all: split_and!; [done|done|]; by destruct (verdict (tx_state t)).
  - apply quiet_decides; [done|]. unfold add_partitions. destruct (tc_require pid epoch c) as [t|] eqn:Hr; [|by apply quiet_refl].
    apply tc_require_some in Hr as [Ht _]. destruct (bool_decide_reflect (tx_state t = Ongoing)) as [Ho|]; cbn [negb]; [|by apply quiet_refl].
    eapply quiet_set; [exact Ht|done|done|]. cbn. by rewrite Ho.
  - unfold tc_commit, tc_decide. destruct (tc_require pid epoch c) as [t|] eqn:Hr; [|by apply quiet_decides; [|apply quiet_refl]].
    apply tc_require_some in Hr as [Ht He]. destruct (bool_decide_reflect (tx_state t = Ongoing)) as [Ho|]; cbn [negb snd]; [|by apply quiet_decides; [|apply quiet_refl]].
    by eapply decide_once.
  - unfold tc_abort, tc_decide. destruct (tc_require pid epoch c) as [t|] eqn:Hr; [|by apply quiet_decides; [|apply quiet_refl]].
    apply tc_require_some in Hr as [Ht He]. destruct (bool_decide_reflect (tx_state t = Ongoing)) as [Ho|]; cbn [negb snd]; [|by apply quiet_decides; [|apply quiet_refl]].
    by eapply decide_once.
  - by apply marker_decides.
  - by apply quiet_decides, tick_quiet.
  - by apply quiet_decides, resume_quiet.
  - by apply quiet_decides, quiet_refl.
  - by apply quiet_decides, quiet_refl.
Qed.

(** C36. The two-phase commit.  Over any sequence of operations from construction, with any iteration order of
    the table, and in the next operation: every transaction keeps its participants sorted without duplicates and
    has some left to acknowledge exactly while it is prepared (so that it becomes complete only when all have);
    the operation queues markers only for transactions whose decision is recorded, to participants that have not
    acknowledged, sealed with the current coordinator epoch; what is decided of a transaction stays decided, with
    its participants, of whom a marker written takes its own off those that are left, until its producer begins
    another one; and a transaction is decided to commit by a commit of its own producer and epoch alone. *)
Theorem two_phase_commit_invariant (epoch timeout : Z) (ops : list (Z * TxnOp)) (now : Z) (op : TxnOp) :
  let c := txn_run txn_order ops (new_coordinator epoch timeout) in
  let c' := txn_op txn_order now op c in
  coordinator_inv c /\ coordinator_inv c' /\
  (op = OTake /\ tc_pending c' = [] \/ queue_grows c c') /\ decides_once op c c'.
Proof.
  cbv zeta. assert (Hc : coordinator_inv (txn_run txn_order ops (new_coordinator epoch timeout))).
  { unfold txn_run. assert (H0 : coordinator_inv (new_coordinator epoch timeout)) by (intros pid t; cbn; set_solver).
    revert H0. generalize (new_coordinator epoch timeout).
    induction ops as [|o ops IH]; intros c Hc; cbn; [done|]. apply IH, txn_op_good, Hc. }
  destruct (txn_op_good now op _ Hc) as [H1 H2]. split_and!; [done|done|done|by apply txn_op_decides].
Qed.

End Loops.

(** ** Completion *)

(** The state of a transaction decided [d] with these participants left. *)
Definition settled (d : ControlRecordType) (unacked : list TopicPartition) : TransactionState :=
  match unacked with [] => complete_state_of d | _ => prepare_state_of d end.

Lemma ack_one pid epoch d q c t :
  tc_txns c !! pid = Some t -> tx_producer_epoch t = epoch -> tp_sorted (tx_unacked t) ->
  tx_state t = settled d (tx_unacked t) ->
  exists t', tc_txns (on_marker_written pid epoch q c) !! pid = Some t' /\
    tx_producer_epoch t' = epoch /\ tx_unacked t' = filter (fun p => p <> q) (tx_unacked t) /\
    tp_sorted (tx_unacked t') /\ tx_state t' = settled d (tx_unacked t').
Proof.
  intros Ht He Hs Hst. unfold on_marker_written. rewrite Ht, <- He, Z.eqb_refl. cbn [negb orb].
  assert (Hkeep : forall l : list TopicPartition, q ∉ l -> filter (fun p => p <> q) l = l).
  { clear. intros l. induction l as [|y l IH]; intros Hl; [done|].
    rewrite filter_cons_True by set_solver. f_equal. apply IH. set_solver. }
  destruct (is_prepared (tx_state t)) eqn:Hp; cbn [negb].
  2: { exists t. assert (Hu : tx_unacked t = []).
       { destruct (tx_unacked t); [done|]. rewrite Hst in Hp. by destruct d. }
       rewrite Hu in *. done. }
  destruct (tp_absent q (tx_unacked t)) eqn:Ha.
  - exists t. rewrite Hkeep; [done|]. rewrite <- tp_absent_spec by done. by rewrite Ha.
  - destruct (tp_erase_spec q (tx_unacked t) Hs Ha) as [Hs' Hf].
    eexists. split; [apply lookup_insert_eq|]. cbn. split_and!; try done.
    assert (Hd : tx_state t = prepare_state_of d).
    { rewrite Hst in Hp |- *. destruct (tx_unacked t); [by destruct d|done]. }
    rewrite Hd. destruct (tp_erase q (tx_unacked t)); by destruct d.
Qed.

Lemma ack_all pid epoch d qs c t :
  tc_txns c !! pid = Some t -> tx_producer_epoch t = epoch -> tp_sorted (tx_unacked t) ->
  tx_state t = settled d (tx_unacked t) ->
  exists t', tc_txns (foldl (fun c q => on_marker_written pid epoch q c) c qs) !! pid = Some t' /\
    tx_unacked t' = filter (fun p => p ∉ qs) (tx_unacked t) /\ tx_state t' = settled d (tx_unacked t').
Proof.
  revert c t. induction qs as [|q qs IH]; intros c t Ht He Hs Hst; cbn.
  - exists t. split_and!; [done| |done]. clear. induction (tx_unacked t) as [|p l IH]; [done|].
    rewrite filter_cons_True by set_solver. by f_equal.
  - destruct (ack_one pid epoch d q c t Ht He Hs Hst) as (t1 & H1 & H2 & H3 & H4 & H5).
    destruct (IH _ t1 H1 H2 H4 H5) as (t2 & H6 & H7 & H8). exists t2. split_and!; try done.
    rewrite H7, H3, list_filter_filter. apply list_filter_iff. intros p. set_solver.
Qed.

(** Completion.  Once an open transaction is committed (or aborted), after any sequence of marker
    acknowledgements -- repeated, out of order, from strangers -- it is complete exactly when
    every participant is among them, and otherwise still prepared with precisely the others left
    to acknowledge. *)
Theorem transaction_completes_when_acked (now pid : Z) (d : ControlRecordType) (name : string)
    (c : TransactionCoordinator) (t : TransactionMetadata) (qs : list TopicPartition)
    (Htxn : tc_txns c !! pid = Some t) (Hopen : tx_state t = Ongoing) (Hinv : coordinator_inv c)
    (Hfence : tc_fenced pid (tx_producer_epoch t) c = false) :
  let '(res, c1) := tc_decide d name now pid (tx_producer_epoch t) c in
  res = Ok tt /\
  exists t', tc_txns (foldl (fun c q => on_marker_written pid (tx_producer_epoch t) q c) c1 qs) !! pid = Some t' /\
    tx_unacked t' = filter (fun p => p ∉ qs) (tx_partitions t) /\
    (tx_state t' = complete_state_of d <-> forall p, p ∈ tx_partitions t -> p ∈ qs) /\
    (tx_state t' = complete_state_of d \/ tx_state t' = prepare_state_of d).
Proof.
  unfold tc_decide, tc_require. rewrite Hfence, Htxn, !Z.ltb_irrefl, Hopen.
  rewrite bool_decide_eq_true_2 by done. cbn [negb]. split; [done|].
  destruct (Hinv pid t Htxn) as [_ (Hs & _)]. rewrite enter_prepare_eq.
  match goal with |- context [foldl _ ?c1 qs] =>
    destruct (ack_all pid (tx_producer_epoch t) d qs c1 (decided t d (tc_epoch c) now)) as (t' & H1 & H2 & H3)
  end.
  - cbn. apply lookup_insert_eq.
  - done.
  - exact Hs.
  - cbn. by destruct (tx_partitions t).
  - change (tx_unacked (decided t d (tc_epoch c) now)) with (tx_partitions t) in H2.
    exists t'. split_and!; [exact H1|exact H2| |].
    + rewrite H3, H2. split.
      * intros Hc p Hp. destruct (decide (p ∈ qs)) as [|Hn]; [done|].
        assert (Hin : p ∈ filter (fun p => p ∉ qs) (tx_partitions t)) by by apply list_elem_of_filter.
        destruct (filter _ _); [set_solver|]. by destruct d.
      * intros Hall. destruct (filter _ _) as [|p l] eqn:Hf; [done|].
        assert (Hin : p ∈ filter (fun p => p ∉ qs) (tx_partitions t)) by (rewrite Hf; by left).
        apply list_elem_of_filter in Hin as [Hn Hp]. by destruct Hn; apply Hall.
    + rewrite H3. destruct (tx_unacked t'); [by left|by right].
Qed.

(** ** Fencing *)

(** A stale epoch is turned away by every request and changes nothing. *)
Theorem stale_epoch_fenced (now pid epoch current : Z) (ps : list TopicPartition)
    (c : TransactionCoordinator) (Hcurrent : tc_current_epoch c !! pid = Some current)
    (Hstale : epoch < current) :
  tc_begin now pid epoch c = (make_error Fenced "begin: época obsoleta", c) /\
  add_partitions now pid epoch ps c = (make_error Fenced "época obsoleta", c) /\
  tc_commit now pid epoch c = (make_error Fenced "época obsoleta", c) /\
  tc_abort now pid epoch c = (make_error Fenced "época obsoleta", c).
Proof.
  assert (Hf : tc_fenced pid epoch c = true) by (unfold tc_fenced; rewrite Hcurrent; by apply Z.ltb_lt).
  unfold tc_begin, add_partitions, tc_commit, tc_abort, tc_decide, tc_require. rewrite Hf. done.
Qed.

(** Initialising a producer again fences the previous incarnation: the identity keeps its producer
    with the next epoch (or a fresh producer when epochs run out), the fence is at the new epoch,
    and a transaction left open is decided ABORT, with a marker queued for each participant. *)
Theorem init_producer_fences (now : Z) (name : string) (c : TransactionCoordinator)
    (id : ProducerIdentity) (Hid : tc_identities c !! name = Some id)
    (Hroom : pi_producer_epoch id < int16_max) :
  let '(id', c') := init_producer_id now name c in
  id' = MkIdentity (pi_producer_id id) (pi_producer_epoch id + 1) /\
  tc_identities c' !! name = Some id' /\
  tc_fenced (pi_producer_id id) (pi_producer_epoch id) c' = true /\
  (forall t, tc_txns c !! pi_producer_id id = Some t -> tx_state t = Ongoing ->
     exists t', tc_txns c' !! pi_producer_id id = Some t' /\ tx_state t' = settled Abort (tx_partitions t) /\
       tc_pending c' = tc_pending c ++
         ((fun p => MkMarkerWrite (tx_producer_id t) (tx_producer_epoch t) (tc_epoch c) Abort p) <$> tx_partitions t)) /\
  (forall t, tc_txns c !! pi_producer_id id = Some t -> tx_state t <> Ongoing ->
     tc_txns c' = tc_txns c /\ tc_pending c' = tc_pending c).
Proof.
  unfold init_producer_id. rewrite Hid. rewrite (proj2 (Z.eqb_neq _ _)) by lia.
  set (c1 := match tc_txns c !! pi_producer_id id with Some _ => _ | None => _ end).
  split_and!; [done|cbn; by rewrite lookup_insert_eq| | |].
  - unfold tc_fenced. cbn. rewrite lookup_insert_eq. apply Z.ltb_lt. lia.
  - intros t Ht Ho. subst c1. cbn. rewrite Ht, bool_decide_eq_true_2, enter_prepare_eq by done. cbn.
    eexists. split; [apply lookup_insert_eq|]. split; [done|].
    unfold txn_markers. cbn. by destruct (tx_partitions t).
  - intros t Ht Ho. subst c1. cbn. rewrite Ht, bool_decide_eq_false_2 by done. done.
Qed.

(** ** Concrete runs *)

(** The keys in the order the map lists them. *)
Definition key_order (m : gmap Z TransactionMetadata) : list Z := (map_to_list m).*1.

Definition orders0 : TopicPartition := MkTopicPartition "orders" 0.
Definition orders1 : TopicPartition := MkTopicPartition "orders" 1.

Definition open_txn : TransactionCoordinator :=
  txn_run key_order [(0, OInit "t"); (1, OBegin 0 0); (2, OAdd 0 0 [orders1; orders0; orders1])]
    (new_coordinator 4 kDefaultTxnTimeout).

Lemma open_txn_inv : coordinator_inv open_txn.
Proof.
  unfold open_txn, txn_run. assert (H0 : coordinator_inv (new_coordinator 4 kDefaultTxnTimeout))
    by (intros pid t H; cbn in H; rewrite lookup_empty in H; discriminate H).
  cbn [foldl fst snd]. do 3 apply txn_op_good. exact H0.
Qed.

Definition open_metadata : TransactionMetadata := MkTxn 0 0 Ongoing [orders0; orders1] [] 4 2.

Lemma transaction_completes_when_acked_witness :
  let '(res, c1) := tc_commit 3 0 0 open_txn in
  res = Ok tt /\
  exists t', tc_txns (foldl (fun c q => on_marker_written 0 0 q c) c1 [orders1; orders1; orders0]) !! 0 = Some t' /\
    tx_state t' = CompleteCommit.
Proof.
  assert (Ht : tc_txns open_txn !! 0 = Some open_metadata) by (vm_compute; reflexivity).
  assert (Hf : tc_fenced 0 (tx_producer_epoch open_metadata) open_txn = false) by (vm_compute; reflexivity).
  pose proof (transaction_completes_when_acked 3 0 Commit "commit" open_txn open_metadata
    [orders1; orders1; orders0] Ht eq_refl open_txn_inv Hf) as H.
  change (tc_commit 3 0 0 open_txn) with (tc_decide Commit "commit" 3 0 (tx_producer_epoch open_metadata) open_txn).
  destruct (tc_decide Commit "commit" 3 0 (tx_producer_epoch open_metadata) open_txn) as [res c1].
  destruct H as (Hr & t' & H1 & _ & H2 & _). split; [exact Hr|]. exists t'. split; [exact H1|].
  apply H2. intros p Hp. cbn in Hp. apply elem_of_cons in Hp as [->|Hp].
  - right. right. left.
  - apply list_elem_of_singleton in Hp as ->. left.
Defined.

Lemma stale_epoch_fenced_witness :
  tc_commit 9 0 0 (init_producer_id 8 "t" open_txn).2
  = (make_error Fenced "época obsoleta", (init_producer_id 8 "t" open_txn).2).
Proof.
  assert (Hc : tc_current_epoch (init_producer_id 8 "t" open_txn).2 !! 0 = Some 1) by (vm_compute; reflexivity).
  destruct (stale_epoch_fenced 9 0 0 1 [] (init_producer_id 8 "t" open_txn).2 Hc) as (_ & _ & H & _);
    [reflexivity|exact H].
Defined.

Lemma init_producer_fences_witness :
  let '(id', c') := init_producer_id 8 "t" open_txn in
  id' = MkIdentity 0 1 /\ tc_fenced 0 0 c' = true.
Proof.
  assert (Hid : tc_identities open_txn !! "t" = Some (MkIdentity 0 0)) by (vm_compute; reflexivity).
  pose proof (init_producer_fences 8 "t" open_txn (MkIdentity 0 0) Hid ltac:(reflexivity)) as H.
  destruct (init_producer_id 8 "t" open_txn) as [id' c']. destruct H as (H1 & _ & H3 & _).
  split; [exact H1|exact H3].
Defined.

(** A recorded COMMIT can be lost.  The producer commits, its markers are taken by the carrier
    (and lost with it) before any acknowledgement, and the producer starts over with a new epoch:
    [begin] replaces the prepared transaction, so resuming the coordinator re-emits nothing for
    the partition that still waits for its COMMIT. *)
Theorem begin_forgets_decision :
  let committed := txn_run key_order [(3, OCommit 0 0); (4, OTake)] open_txn in
  let restarted := txn_run key_order [(5, OInit "t"); (6, OBegin 0 1); (7, OSetEpoch 5); (8, OResume)] committed in
  option_map tx_state (tc_txns committed !! 0) = Some PrepareCommit /\
  option_map tx_unacked (tc_txns committed !! 0) = Some [orders0; orders1] /\
  option_map tx_state (tc_txns restarted !! 0) = Some Ongoing /\
  tc_pending restarted = [].
Proof. vm_compute. done. Qed.

(** The fence can go back: [begin] accepts an epoch that was never issued and raises the fence to
    it, and the next [init_producer_id] lowers the fence to the issued epoch, so an epoch that was
    turned away is accepted again. *)
Theorem epoch_fence_goes_back :
  let forged := txn_run key_order [(3, OCommit 0 0); (4, OBegin 0 7)] open_txn in
  let reset := (init_producer_id 5 "t" forged).2 in
  tc_fenced 0 3 forged = true /\ tc_fenced 0 3 reset = false /\
  is_ok (tc_begin 6 0 3 reset).1 = true.
Proof. vm_compute. done. Qed.
