(* ===== verification/ConsumerGroup.v ===== *)
(** * Consumer groups

    Models [ConsumerGroup] of [src/src/broker/consumer_group.hpp] and [consumer_group.cpp]: the
    membership of a group, as a synchronous state machine with generations.  Instants are in
    nanoseconds; assignments and subscriptions are opaque bytes. *)
From Stdlib Require Import ZArith Lia.
From stdpp Require Import base list gmap sets strings sorting pretty.
From S2P Require Import Prelude.
#[local] Open Scope Z_scope.

(** ** Data *)

Inductive GroupState := GEmpty | PreparingRebalance | CompletingRebalance | Stable | Dead.

#[export] Instance GroupState_eq_dec : EqDecision GroupState.
Proof. solve_decision. Defined.

Definition group_state_name (s : GroupState) : string :=
  match s with
  | GEmpty => "Empty"
  | PreparingRebalance => "PreparingRebalance"
  | CompletingRebalance => "CompletingRebalance"
  | Stable => "Stable"
  | Dead => "Dead"
  end.

Inductive HeartbeatStatus := HbOk | HbRebalanceInProgress.

Record MemberInfo := MkMemberInfo { mi_id : string; mi_subscription : list byte }.
Record MemberAssignment := MkAssignment { ma_id : string; ma_assignment : list byte }.

Record JoinResult := MkJoin {
  j_member_id : string;
  j_generation : Z;
  j_leader_id : string;
  j_is_leader : bool;
  j_members : list MemberInfo;
}.

Record SyncResult := MkSync { s_generation : Z; s_assigned : bool; s_assignment : list byte }.

(** [ConsumerGroup::Member]; the session timeout is in milliseconds. *)
Record Member := MkMember {
  m_subscription : list byte;
  m_assignment : list byte;
  m_session_timeout : Z;
  m_last_seen : Z;
  m_joined_round : bool;
}.

#[export] Instance Member_eq_dec : EqDecision Member.
Proof. solve_decision. Defined.

(** The members of [ConsumerGroup]. *)
Record ConsumerGroup := MkGroup {
  g_group_id : string;
  g_state : GroupState;
  g_generation : Z;
  g_leader_id : string;
  g_members : gmap string Member;
  g_member_seq : N;
}.

Definition new_group (group_id : string) : ConsumerGroup := MkGroup group_id GEmpty 0 "" ∅ 0.

(** Assignments to the fields. *)
Definition g_set_state (s : GroupState) (g : ConsumerGroup) : ConsumerGroup :=
  MkGroup (g_group_id g) s (g_generation g) (g_leader_id g) (g_members g) (g_member_seq g).
Definition g_set_generation (x : Z) (g : ConsumerGroup) : ConsumerGroup :=
  MkGroup (g_group_id g) (g_state g) x (g_leader_id g) (g_members g) (g_member_seq g).
Definition g_set_leader (x : string) (g : ConsumerGroup) : ConsumerGroup :=
  MkGroup (g_group_id g) (g_state g) (g_generation g) x (g_members g) (g_member_seq g).
Definition g_set_members (x : gmap string Member) (g : ConsumerGroup) : ConsumerGroup :=
  MkGroup (g_group_id g) (g_state g) (g_generation g) (g_leader_id g) x (g_member_seq g).
Definition m_set_joined (x : bool) (m : Member) : Member :=
  MkMember (m_subscription m) (m_assignment m) (m_session_timeout m) (m_last_seen m) x.
Definition m_set_seen (x : Z) (m : Member) : Member :=
  MkMember (m_subscription m) (m_assignment m) (m_session_timeout m) x (m_joined_round m).
Definition m_set_assignment (x : list byte) (m : Member) : Member :=
  MkMember (m_subscription m) x (m_session_timeout m) (m_last_seen m) (m_joined_round m).

(** ** Operations *)

Definition begin_rebalance (g : ConsumerGroup) : ConsumerGroup :=
  g |> g_set_state PreparingRebalance
    |> g_set_leader ""
    |> g_set_members (m_set_joined false <$> g_members g).

Definition all_joined (ms : gmap string Member) : bool :=
  forallb (fun p => m_joined_round p.2) (map_to_list ms).

Definition complete_if_ready (g : ConsumerGroup) : ConsumerGroup :=
  if negb (bool_decide (g_state g = PreparingRebalance)) || bool_decide (g_members g = ∅) then g
  else if all_joined (g_members g)
  then g |> g_set_state CompletingRebalance
         |> g_set_generation (g_generation g + 1)
         |> g_set_members (m_set_assignment [] <$> g_members g)
  else g.

(** [next_member_id]: the id, and the group with its counter increased. *)
Definition next_member_id (g : ConsumerGroup) : string * ConsumerGroup :=
  let seq := (g_member_seq g + 1)%N in
  (g_group_id g +:+ "-" +:+ pretty seq,
   MkGroup (g_group_id g) (g_state g) (g_generation g) (g_leader_id g) (g_members g) seq).

(** [members]: ordered by id. *)
Definition id_le (a b : MemberInfo) : Prop := String.le (mi_id a) (mi_id b).

#[export] Instance id_le_dec : RelDecision id_le.
Proof. intros a b. unfold id_le. apply _. Defined.

Definition group_members (g : ConsumerGroup) : list MemberInfo :=
  merge_sort id_le
    ((fun p => MkMemberInfo p.1 (m_subscription p.2)) <$> map_to_list (g_members g)).

Definition join (now : Z) (member_id : string) (subscription : list byte) (session_timeout : Z)
    (g : ConsumerGroup) : expected JoinResult * ConsumerGroup :=
  if bool_decide (g_state g = Dead)
  then (make_error Unsupported "join: el grupo está eliminado", g)
  else
    let '(id, g) := if String.eqb member_id "" then next_member_id g else (member_id, g) in
    let g := if bool_decide (g_state g = Stable) || bool_decide (g_state g = GEmpty)
             then begin_rebalance g else g in
    let old := match g_members g !! id with Some m => m_assignment m | None => [] end in
    let g := g_set_members (<[id := MkMember subscription old session_timeout now true]> (g_members g)) g in
    let g := if String.eqb (g_leader_id g) "" then g_set_leader id g else g in
    let g := complete_if_ready g in
    let is_leader := String.eqb id (g_leader_id g) in
    (Ok (MkJoin id (g_generation g) (g_leader_id g) is_leader
           (if is_leader && bool_decide (g_state g = CompletingRebalance) then group_members g else [])), g).

(** The loop over the leader's assignments: unknown members are skipped. *)
Definition assign_all (assignments : list MemberAssignment) (ms : gmap string Member) : gmap string Member :=
  foldl (fun ms a => alter (m_set_assignment (ma_assignment a)) (ma_id a) ms) ms assignments.

Definition assignment_of (id : string) (g : ConsumerGroup) : list byte :=
  match g_members g !! id with Some m => m_assignment m | None => [] end.

Definition sync (now : Z) (member_id : string) (generation : Z) (assignments : list MemberAssignment)
    (g : ConsumerGroup) : expected SyncResult * ConsumerGroup :=
  if bool_decide (g_state g = Dead)
  then (make_error Unsupported "sync: el grupo está eliminado", g)
  else match g_members g !! member_id with
  | None => (make_error NotFound "sync: miembro desconocido", g)
  | Some m =>
      if negb (generation =? g_generation g)
      then (make_error InvalidArgument "sync: generación obsoleta", g)
      else
        let g := g_set_members (<[member_id := m_set_seen now m]> (g_members g)) g in
        if bool_decide (g_state g = Stable)
        then (Ok (MkSync (g_generation g) true (assignment_of member_id g)), g)
        else if negb (bool_decide (g_state g = CompletingRebalance))
        then (Ok (MkSync (g_generation g) false []), g)
        else if String.eqb member_id (g_leader_id g)
        then
          let g := g |> g_set_members (assign_all assignments (g_members g)) |> g_set_state Stable in
          (Ok (MkSync (g_generation g) true (assignment_of member_id g)), g)
        else (Ok (MkSync (g_generation g) false []), g)
  end.

Definition heartbeat (now : Z) (member_id : string) (generation : Z) (g : ConsumerGroup)
  : expected HeartbeatStatus * ConsumerGroup :=
  if bool_decide (g_state g = Dead)
  then (make_error Unsupported "heartbeat: el grupo está eliminado", g)
  else match g_members g !! member_id with
  | None => (make_error NotFound "heartbeat: miembro desconocido", g)
  | Some m =>
      let g := g_set_members (<[member_id := m_set_seen now m]> (g_members g)) g in
      if bool_decide (g_state g = PreparingRebalance) || bool_decide (g_state g = CompletingRebalance)
      then (Ok HbRebalanceInProgress, g)
      else if negb (generation =? g_generation g)
      then (make_error InvalidArgument "heartbeat: generación obsoleta", g)
      else (Ok HbOk, g)
  end.

(** The membership lost someone: empty the group or open a rebalance. *)
Definition after_removal (g : ConsumerGroup) : ConsumerGroup :=
  if bool_decide (g_members g = ∅) then g |> g_set_state GEmpty |> g_set_leader ""
  else begin_rebalance g.

Definition leave (member_id : string) (g : ConsumerGroup) : expected unit * ConsumerGroup :=
  if bool_decide (g_state g = Dead)
  then (make_error Unsupported "leave: el grupo está eliminado", g)
  else match g_members g !! member_id with
  | None => (make_error NotFound "leave: miembro desconocido", g)
  | Some _ => (Ok tt, after_removal (g_set_members (delete member_id (g_members g)) g))
  end.

(** A session is alive at [now] unless its deadline has passed. *)
Definition session_alive (now : Z) (p : string * Member) : Prop :=
  ~ (ms (m_session_timeout p.2) < now - m_last_seen p.2).

#[export] Instance session_alive_dec now p : Decision (session_alive now p).
Proof. unfold session_alive. apply _. Defined.

Definition group_tick (now : Z) (g : ConsumerGroup) : ConsumerGroup :=
  if bool_decide (g_state g = Dead) then g
  else
    let alive := filter (session_alive now) (g_members g) in
    if bool_decide (alive = g_members g) then g else after_removal (g_set_members alive g).

(** ** Runs *)

Inductive GroupOp :=
  | GJoin (id : string) (subscription : list byte) (timeout : Z)
  | GSync (id : string) (generation : Z) (assignments : list MemberAssignment)
  | GHeartbeat (id : string) (generation : Z)
  | GLeave (id : string)
  | GTick.

Definition group_op (now : Z) (op : GroupOp) (g : ConsumerGroup) : ConsumerGroup :=
  match op with
  | GJoin id sub timeout => (join now id sub timeout g).2
  | GSync id generation assignments => (sync now id generation assignments g).2
  | GHeartbeat id generation => (heartbeat now id generation g).2
  | GLeave id => (leave id g).2
  | GTick => group_tick now g
  end.

Definition group_run (ops : list (Z * GroupOp)) (g : ConsumerGroup) : ConsumerGroup :=
  foldl (fun g o => group_op o.1 o.2 g) g ops.
