(* ===== verification/GroupSafety.v ===== *)
(** * Correctness of consumer groups

    The invariant of [ConsumerGroup] under every operation, the monotonicity of its generation,
    and the outcome of a whole rebalance round. *)
From Stdlib Require Import ZArith Lia.
From stdpp Require Import base list gmap sets strings sorting pretty.
From S2P Require Import Prelude ConsumerGroup.
#[local] Open Scope Z_scope.

(** ** The invariant *)

Definition in_round (g : ConsumerGroup) : Prop :=
  g_state g = CompletingRebalance \/ g_state g = Stable.

(** [id] has rejoined in the round under way. *)
Definition joined (g : ConsumerGroup) (id : string) : Prop :=
  exists m, g_members g !! id = Some m /\ m_joined_round m = true.

Record group_inv (g : ConsumerGroup) : Prop := {
  gi_alive : g_state g <> Dead;
  gi_empty : g_state g = GEmpty <-> g_members g = ∅;
  gi_ids : g_members g !! "" = None;
  gi_leader : g_leader_id g = "" \/ joined g (g_leader_id g);
  gi_waiting : g_state g = PreparingRebalance ->
    exists id m, g_members g !! id = Some m /\ m_joined_round m = false;
  gi_round : in_round g ->
    g_leader_id g <> "" /\ forall id m, g_members g !! id = Some m -> m_joined_round m = true;
  gi_blank : g_state g = CompletingRebalance ->
    forall id m, g_members g !! id = Some m -> m_assignment m = [];
}.

Lemma new_group_inv group_id : group_inv (new_group group_id).
Proof. split; cbn; unfold in_round; naive_solver. Qed.

Lemma begin_rebalance_inv g :
  g_members g !! "" = None -> g_members g <> ∅ -> group_inv (begin_rebalance g).
Proof.
  intros Hid Hne. apply map_choose in Hne as (id & m & Hm).
  split; unfold begin_rebalance, in_round; cbn; try naive_solver.
  - split; [done|]. intros He. apply fmap_empty_iff in He. rewrite He, lookup_empty in Hm. done.
  - by rewrite lookup_fmap, Hid.
  - intros _. exists id, (m_set_joined false m). by rewrite lookup_fmap, Hm.
Qed.

Lemma after_removal_inv g : g_members g !! "" = None -> group_inv (after_removal g).
Proof.
  intros Hid. unfold after_removal. case_bool_decide as He.
  - split; cbn; unfold in_round; cbn; try naive_solver.
  - by apply begin_rebalance_inv.
Qed.

Lemma all_joined_spec ms :
  all_joined ms = true <-> forall id m, ms !! id = Some m -> m_joined_round m = true.
Proof.
  unfold all_joined. rewrite forallb_forall. split.
  - intros H id m Hm. apply (H (id, m)). apply list_elem_of_In. by apply elem_of_map_to_list.
  - intros H [id m] Hin. apply (H id m). apply list_elem_of_In in Hin. by apply elem_of_map_to_list.
Qed.

(** What a group is between the assignments of [join] and [complete_if_ready]. *)
Record joining (g : ConsumerGroup) : Prop := {
  jg_state : g_state g = PreparingRebalance \/ in_round g;
  jg_members : g_members g <> ∅;
  jg_ids : g_members g !! "" = None;
  jg_leader : g_leader_id g <> "" /\ joined g (g_leader_id g);
  jg_round : in_round g -> forall id m, g_members g !! id = Some m -> m_joined_round m = true;
  jg_blank : g_state g = CompletingRebalance ->
    forall id m, g_members g !! id = Some m -> m_assignment m = [];
}.

Lemma complete_if_ready_inv g : joining g -> group_inv (complete_if_ready g).
Proof.
  intros [Hs Hne Hid [Hl Hj] Hr Hb]. unfold complete_if_ready.
  destruct (decide (g_state g = PreparingRebalance)) as [Hp|Hp].
  - rewrite (bool_decide_eq_true_2 (g_state g = _)), (bool_decide_eq_false_2 (g_members g = _)) by done. cbn.
    destruct (all_joined (g_members g)) eqn:Ha.
    + rewrite all_joined_spec in Ha. split; unfold in_round; cbn; try done.
      * split; [done|]. intros He. by apply fmap_empty_iff in He.
      * by rewrite lookup_fmap, Hid.
      * right. destruct Hj as (m & Hm & Hjm). exists (m_set_assignment [] m). cbn. by rewrite lookup_fmap, Hm.
      * intros _. split; [done|]. intros id m'. rewrite lookup_fmap, fmap_Some.
        intros (m & Hm & ->). by apply (Ha id m).
      * intros _ id m'. rewrite lookup_fmap, fmap_Some. by intros (m & _ & ->).
    + split; try done.
      * by rewrite Hp.
      * split; [by rewrite Hp|done].
      * by right.
      * intros _. apply Bool.not_true_iff_false in Ha. rewrite all_joined_spec in Ha.
        destruct (decide (map_Exists (fun _ m => m_joined_round m = false) (g_members g))) as [He|Hn]; [exact He|].
        exfalso. apply Ha. intros id m Hm. destruct (m_joined_round m) eqn:Hjm; [done|].
        destruct Hn. by exists id, m.
      * unfold in_round. rewrite Hp. by intros [|].
  - rewrite (bool_decide_eq_false_2 (g_state g = _)) by done. cbn. destruct Hs as [|Hs]; [done|].
    split; try done.
    + unfold in_round in Hs. by destruct Hs as [->| ->].
    + split; [|done]. unfold in_round in Hs. by destruct Hs as [->| ->].
    + by right.
    + intros _. by split; [|apply Hr].
Qed.

(** Updates of members that leave the round alone. *)
Definition round_of (ms : gmap string Member) (id : string) : option bool := m_joined_round <$> ms !! id.

Lemma round_of_same ms ms' id m' :
  round_of ms' id = round_of ms id -> ms' !! id = Some m' ->
  exists m, ms !! id = Some m /\ m_joined_round m = m_joined_round m'.
Proof.
  unfold round_of. intros H Hm. rewrite Hm in H. cbn in H. symmetry in H.
  by apply fmap_Some in H as (m & Hm' & ->); eauto.
Qed.

Lemma group_inv_update ms' g :
  group_inv g -> (forall id, round_of ms' id = round_of (g_members g) id) ->
  (g_state g = CompletingRebalance -> forall id m, ms' !! id = Some m -> m_assignment m = []) ->
  group_inv (g_set_members ms' g).
Proof.
  intros [Ha He Hid Hl Hw Hr Hb] Hsame Hblank.
  assert (Hnone : forall id, ms' !! id = None <-> g_members g !! id = None).
  { intros id. specialize (Hsame id). unfold round_of in Hsame.
    destruct (ms' !! id), (g_members g !! id); done. }
  split; cbn; try done.
  - rewrite He. split; intros E; apply map_eq; intros id; rewrite lookup_empty;
      apply Hnone; rewrite E; apply lookup_empty.
  - by apply Hnone.
  - destruct Hl as [Hl|(m & Hm & Hj)]; [by left|right].
    destruct (round_of_same ms' (g_members g) (g_leader_id g) m) as (m' & Hm' & Hj'); [done|done|].
    exists m'. by rewrite Hj'.
  - intros Hs. destruct (Hw Hs) as (id & m & Hm & Hj).
    destruct (round_of_same ms' (g_members g) id m) as (m' & Hm' & Hj'); [done|done|].
    exists id, m'. by rewrite Hj'.
  - intros Hs. destruct (Hr Hs) as [Hl' Hall]. split; [done|]. intros id m' Hm'.
    destruct (round_of_same (g_members g) ms' id m') as (m & Hm & <-); [by rewrite Hsame|done|eauto].
Qed.

Lemma round_of_insert ms id m m' :
  ms !! id = Some m -> m_joined_round m' = m_joined_round m ->
  forall id', round_of (<[id := m']> ms) id' = round_of ms id'.
Proof.
  intros Hm Hj id'. unfold round_of. destruct (decide (id = id')) as [->|].
  - rewrite lookup_insert_eq, Hm. cbn. by rewrite Hj.
  - by rewrite lookup_insert_ne.
Qed.

Lemma touch_inv now id m g :
  group_inv g -> g_members g !! id = Some m ->
  group_inv (g_set_members (<[id := m_set_seen now m]> (g_members g)) g).
Proof.
  intros Hinv Hm. apply group_inv_update; [done|by eapply round_of_insert|].
  intros Hs id' m' [[<- <-]|[_ Hm']]%lookup_insert_Some; cbn; by eapply (gi_blank g).
Qed.

Lemma round_of_assign_all assignments ms id : round_of (assign_all assignments ms) id = round_of ms id.
Proof.
  unfold assign_all. revert ms. induction assignments as [|a l IH]; intros ms; cbn; [done|].
  rewrite IH. unfold round_of. destruct (decide (ma_id a = id)) as [->|].
  - rewrite lookup_alter_eq. by destruct (ms !! id).
  - by rewrite lookup_alter_ne.
Qed.

Lemma become_stable_inv g : g_state g = CompletingRebalance -> group_inv g -> group_inv (g_set_state Stable g).
Proof.
  intros Hs [Ha He Hid Hl Hw Hr Hb]. split; cbn; try done.
  - rewrite <- He, Hs. done.
  - intros _. apply Hr. by left.
Qed.

Lemma join_inv now id sub timeout g : group_inv g -> group_inv (join now id sub timeout g).2.
Proof.
  intros Hinv. unfold join. rewrite bool_decide_eq_false_2 by apply Hinv.
  destruct (if String.eqb id "" then next_member_id g else (id, g)) as [id' g1] eqn:Hid.
  assert (id' <> "" /\ g_state g1 = g_state g /\ g_members g1 = g_members g /\ g_leader_id g1 = g_leader_id g)
    as (Hne & Hs1 & Hm1 & Hl1).
  { destruct (String.eqb_spec id ""); unfold next_member_id in Hid.
    - assert (g1 = (next_member_id g).2) as -> by (unfold next_member_id; cbn; congruence).
      assert (id' = (next_member_id g).1) as -> by (unfold next_member_id; cbn; congruence).
      split_and!; try done. unfold next_member_id. cbn. by destruct (g_group_id g).
    - assert (g1 = g) as -> by congruence. assert (id' = id) as -> by congruence. done. }
  assert (Hinv1 : group_inv g1).
  { destruct Hinv as [A B C D E F G]. split; unfold joined, in_round in *; rewrite ?Hs1, ?Hm1, ?Hl1; done. }
  clear Hid Hinv Hs1 Hm1 Hl1 g id. rename id' into id, g1 into g, Hinv1 into Hinv.
  set (g2 := if bool_decide (g_state g = Stable) || bool_decide (g_state g = GEmpty) then begin_rebalance g else g).
  assert (Hg2 : (g_state g2 = PreparingRebalance \/ g_state g2 = CompletingRebalance) /\
    g_members g2 !! "" = None /\ (g_leader_id g2 = "" \/ joined g2 (g_leader_id g2)) /\
    (g_state g2 = CompletingRebalance -> g_leader_id g2 <> "" /\
       forall i m, g_members g2 !! i = Some m -> m_joined_round m = true /\ m_assignment m = [])).
  { subst g2. destruct Hinv as [A B C D E F G].
    do 2 case_bool_decide; cbn; try (split_and!; [by left|by rewrite lookup_fmap, C|by left|done]).
    split_and!; [destruct (g_state g); by auto|done|done|].
    intros Hc. destruct F as [F1 F2]; [by left|]. split; [done|]. eauto. }
  clearbody g2. destruct Hg2 as (Hs & Hid & Hl & Hc).
  set (mem := MkMember _ _ _ _ _). cbn [fst snd].
  apply complete_if_ready_inv.
  assert (Hlk : joined (g_set_members (<[id:=mem]> (g_members g2)) g2) id).
  { exists mem. cbn. by rewrite lookup_insert_eq. }
  assert (Hbase : forall g3, g_state g3 = g_state g2 -> g_members g3 = <[id:=mem]> (g_members g2) ->
    g_leader_id g3 <> "" -> joined g3 (g_leader_id g3) -> joining g3).
  { intros g3 Hs3 Hm3 Hl3 Hj3. split; rewrite ?Hs3, ?Hm3; unfold in_round; rewrite ?Hs3, ?Hm3.
    - destruct Hs as [->| ->]; auto.
    - apply insert_non_empty.
    - by rewrite lookup_insert_ne.
    - done.
    - intros [Hr|Hr]; [|destruct Hs; congruence]. destruct (Hc Hr) as [_ Hall].
      intros i m [[<- <-]|[_ Hm]]%lookup_insert_Some; [done|]. by apply Hall in Hm as [? _].
    - intros Hr. destruct (Hc Hr) as [_ Hall].
      intros i m [[<- <-]|[_ Hm]]%lookup_insert_Some; [|by apply Hall in Hm as [_ ?]].
      subst mem. cbn. destruct (g_members g2 !! id) eqn:Hold; [|done]. by apply Hall in Hold as [_ ?]. }
  destruct (String.eqb_spec (g_leader_id (g_set_members (<[id:=mem]> (g_members g2)) g2)) "") as [El|El]; cbn in El.
  - apply Hbase; done.
  - apply Hbase; try done. cbn. destruct Hl as [|(m & Hm & Hj)]; [done|].
    destruct (decide (id = g_leader_id g2)) as [<-|Hn]; [exact Hlk|].
    exists m. cbn. by rewrite lookup_insert_ne.
Qed.

Lemma sync_inv now id generation assignments g :
  group_inv g -> group_inv (sync now id generation assignments g).2.
Proof.
  intros Hinv. unfold sync. rewrite bool_decide_eq_false_2 by apply Hinv.
  destruct (g_members g !! id) as [m|] eqn:Hm; [|done].
  destruct (_ =? _); [|done]. cbn [negb].
  pose proof (touch_inv now id m g Hinv Hm) as Ht.
  set (g1 := g_set_members _ g) in *. clearbody g1.
  case_bool_decide; [done|]. destruct (decide (g_state g1 = CompletingRebalance)) as [Hs|Hs].
  - rewrite bool_decide_eq_true_2 by done. cbn [negb].
    destruct (String.eqb _ _); [|done]. cbn [snd].
    destruct Ht as [A B C D E F G]. destruct (F (or_introl Hs)) as [F1 F2].
    assert (Hr : forall i, round_of (assign_all assignments (g_members g1)) i = round_of (g_members g1) i)
      by (intros i; apply round_of_assign_all).
    apply (group_inv_update (assign_all assignments (g_members g1)) (g_set_state Stable g1)); [|done|done].
    by apply become_stable_inv.
  - by rewrite bool_decide_eq_false_2.
Qed.

Lemma heartbeat_inv now id generation g : group_inv g -> group_inv (heartbeat now id generation g).2.
Proof.
  intros Hinv. unfold heartbeat. rewrite bool_decide_eq_false_2 by apply Hinv.
  destruct (g_members g !! id) as [m|] eqn:Hm; [|done].
  pose proof (touch_inv now id m g Hinv Hm) as Ht.
  set (g1 := g_set_members _ g) in *. clearbody g1.
  destruct (_ || _); [done|]. by destruct (negb _).
Qed.

Lemma leave_inv id g : group_inv g -> group_inv (leave id g).2.
Proof.
  intros Hinv. unfold leave. rewrite bool_decide_eq_false_2 by apply Hinv.
  destruct (g_members g !! id); [|done]. apply after_removal_inv. cbn.
  apply lookup_delete_None. right. apply Hinv.
Qed.

Lemma group_tick_inv now g : group_inv g -> group_inv (group_tick now g).
Proof.
  intros Hinv. unfold group_tick. rewrite bool_decide_eq_false_2 by apply Hinv.
  cbv zeta. case_bool_decide; [done|]. apply after_removal_inv. cbn.
  apply map_lookup_filter_None. left. apply Hinv.
Qed.

Lemma group_op_inv now op g : group_inv g -> group_inv (group_op now op g).
Proof. destruct op; cbn; auto using join_inv, sync_inv, heartbeat_inv, leave_inv, group_tick_inv. Qed.

Lemma group_run_inv ops g : group_inv g -> group_inv (group_run ops g).
Proof. revert g. induction ops as [|o ops IH]; intros g; cbn; [done|]. intros H. by apply IH, group_op_inv. Qed.

(** ** The generation *)

(** A step leaves the generation, or closes a round by opening the next one. *)
Definition generation_step (g g' : ConsumerGroup) : Prop :=
  g_generation g' = g_generation g \/
  g_generation g' = g_generation g + 1 /\ g_state g' = CompletingRebalance.

Lemma after_removal_generation g : g_generation (after_removal g) = g_generation g.
Proof. unfold after_removal. by case_bool_decide. Qed.

Lemma join_generation now id sub timeout g : generation_step g (join now id sub timeout g).2.
Proof.
  unfold join. case_bool_decide; [by left|].
  destruct (if String.eqb id "" then next_member_id g else (id, g)) as [id' g1] eqn:Hid.
  assert (Hg1 : g_generation g1 = g_generation g).
  { destruct (String.eqb id ""); unfold next_member_id in Hid; cbn in Hid.
    - assert (g1 = (next_member_id g).2) as -> by (unfold next_member_id; cbn; congruence). done.
    - congruence. }
  unfold generation_step. rewrite <- Hg1. clear Hid Hg1 H. cbn [snd].
  set (g2 := if bool_decide _ || bool_decide _ then begin_rebalance g1 else g1).
  assert (Hg2 : g_generation g2 = g_generation g1) by (subst g2; by destruct (_ || _)).
  rewrite <- Hg2. clearbody g2. clear Hg2.
  match goal with |- context [complete_if_ready ?g3] => set (g3' := g3) end.
  assert (Hg3 : g_generation g3' = g_generation g2) by (subst g3'; by destruct (String.eqb _ _)).
  unfold complete_if_ready. rewrite <- Hg3.
  destruct (_ || _); [by left|]. destruct (all_joined _); [by right|by left].
Qed.

Lemma group_op_generation now op g : generation_step g (group_op now op g).
Proof.
  destruct op as [id sub t|id gen l|id gen|id|]; cbn.
  - apply join_generation.
  - left. unfold sync. case_bool_decide; [done|]. destruct (_ !! _); [|done].
    destruct (negb _); [done|]. destruct (bool_decide _); [done|]. destruct (negb _); [done|].
    by destruct (String.eqb _ _).
  - left. unfold heartbeat. case_bool_decide; [done|]. destruct (_ !! _); [|done].
    destruct (_ || _); [done|]. by destruct (negb _).
  - left. unfold leave. case_bool_decide; [done|]. destruct (_ !! _); [|done].
    exact (after_removal_generation _).
  - left. unfold group_tick. case_bool_decide; [done|]. cbv zeta. case_bool_decide; [done|].
    exact (after_removal_generation _).
Qed.

(** C14. The invariant of a consumer group.  At any point of any execution: the group is empty exactly
    when it has no members; while a rebalance is being prepared some member has not rejoined;
    once it completes, and while the group is stable, every member has rejoined and the leader is
    one of them; before the leader distributes, no member has an assignment.  The generation
    changes only by the step that completes a round, which adds one. *)
Theorem group_membership_invariant (group_id : string) (ops : list (Z * GroupOp)) (now : Z) (op : GroupOp) :
  let g := group_run ops (new_group group_id) in
  group_inv g /\ group_inv (group_op now op g) /\ generation_step g (group_op now op g).
Proof.
  cbv zeta. assert (H : group_inv (group_run ops (new_group group_id))) by apply group_run_inv, new_group_inv.
  split_and!; [done|by apply group_op_inv|apply group_op_generation].
Qed.

(** ** A round *)

Definition JoinRequest : Type := Z * (string * list byte * Z).
Definition jr_id (j : JoinRequest) : string := j.2.1.1.
Definition join_request (g : ConsumerGroup) (j : JoinRequest) : ConsumerGroup :=
  (join j.1 (jr_id j) j.2.1.2 j.2.2 g).2.

(** What one [join] of a named member does during a round. *)
Lemma join_request_round g j :
  group_inv g -> jr_id j <> "" -> g_state g = PreparingRebalance \/ g_state g = CompletingRebalance ->
  let g' := join_request g j in
  (g_state g' = CompletingRebalance \/ g_state g = PreparingRebalance /\ g_state g' = PreparingRebalance) /\
  g_generation g' = g_generation g + (if bool_decide (g_state g = g_state g') then 0 else 1) /\
  g_leader_id g' = (if String.eqb (g_leader_id g) "" then jr_id j else g_leader_id g) /\
  (forall id m', g_members g' !! id = Some m' -> m_joined_round m' = false ->
     id <> jr_id j /\ exists m, g_members g !! id = Some m /\ m_joined_round m = false).
Proof.
  destruct j as [now [[id sub] timeout]]. unfold join_request, jr_id. cbn. intros Hinv Hid Hs.
  unfold join. rewrite bool_decide_eq_false_2 by apply Hinv.
  destruct (String.eqb_spec id ""); [done|]. cbn [snd].
  rewrite (bool_decide_eq_false_2 (g_state g = Stable)), (bool_decide_eq_false_2 (g_state g = GEmpty))
    by (destruct Hs as [->| ->]; done). cbn [orb].
  set (mem := MkMember _ _ _ _ _).
  match goal with |- context [complete_if_ready ?x] => set (g3 := x) end.
  assert (Hg3 : g_state g3 = g_state g /\ g_generation g3 = g_generation g /\
    g_leader_id g3 = (if String.eqb (g_leader_id g) "" then id else g_leader_id g) /\
    g_members g3 = <[id := mem]> (g_members g)).
  { subst g3. cbn. by destruct (String.eqb (g_leader_id g) ""). }
  destruct Hg3 as (H1 & H2 & H3 & H4). clearbody g3.
  assert (Hnot : forall i m, g_members g3 !! i = Some m -> m_joined_round m = false ->
    i <> id /\ exists m0, g_members g !! i = Some m0 /\ m_joined_round m0 = false).
  { intros i m Hm Hj. rewrite H4 in Hm. apply lookup_insert_Some in Hm as [[<- <-]|[Hne Hm]]; [done|].
    split; [done|eauto]. }
  unfold complete_if_ready. rewrite (bool_decide_eq_false_2 (g_members g3 = ∅))
    by (rewrite H4; apply insert_non_empty). rewrite orb_false_r, H1.
  destruct Hs as [Hs|Hs]; rewrite Hs.
  - rewrite (bool_decide_eq_true_2 (PreparingRebalance = PreparingRebalance)) by done. cbn [negb].
    destruct (all_joined (g_members g3)) eqn:Ha.
    + cbn.
      split_and!; [by left|rewrite bool_decide_eq_false_2 by done; lia|done|]. intros i m'. rewrite lookup_fmap, fmap_Some.
      intros (m & Hm & ->) Hj. cbn in Hj. rewrite all_joined_spec in Ha. by rewrite (Ha i m Hm) in Hj.
    + rewrite H1, Hs. split_and!; [by right|rewrite bool_decide_eq_true_2 by done; lia|done|done].
  - rewrite (bool_decide_eq_false_2 (CompletingRebalance = PreparingRebalance)) by done. cbn [negb].
    rewrite H1, Hs. split_and!; [by left|rewrite bool_decide_eq_true_2 by done; lia|done|done].
Qed.

Lemma join_request_inv g j : group_inv g -> group_inv (join_request g j).
Proof. apply join_inv. Qed.

(** A sequence of joins that covers whoever has not rejoined completes the round. *)
Lemma joins_complete js g :
  group_inv g -> (forall j, j ∈ js -> jr_id j <> "") ->
  g_state g = PreparingRebalance ->
  (forall id m, g_members g !! id = Some m -> m_joined_round m = false -> exists j, j ∈ js /\ jr_id j = id) ->
  let g' := foldl join_request g js in
  group_inv g' /\ g_state g' = CompletingRebalance /\ g_generation g' = g_generation g + 1 /\
  g_leader_id g' = (if String.eqb (g_leader_id g) "" then default "" (jr_id <$> head js) else g_leader_id g).
Proof.
  assert (Hcompleted : forall js g, group_inv g -> (forall j, j ∈ js -> jr_id j <> "") ->
    g_state g = CompletingRebalance ->
    let g' := foldl join_request g js in
    group_inv g' /\ g_state g' = CompletingRebalance /\ g_generation g' = g_generation g /\
    g_leader_id g' = g_leader_id g).
  { clear. intros js. induction js as [|j js IH]; intros g Hinv Hids Hs; cbn; [done|].
    destruct (join_request_round g j) as (H1 & H2 & H3 & _); [done|apply Hids; by left|by right|].
    cbv zeta in H1, H2, H3.
    assert (Hs' : g_state (join_request g j) = CompletingRebalance) by (destruct H1 as [|[]]; congruence).
    rewrite Hs, Hs' in H2.
    destruct (gi_round _ Hinv) as [Hl _]; [by left|].
    destruct (IH (join_request g j)) as (I1 & I2 & I3 & I4);
      [by apply join_request_inv|intros; apply Hids; by right|done|].
    split_and!; [done|done| |].
    - rewrite I3, H2. rewrite bool_decide_eq_true_2 by done. lia.
    - rewrite I4, H3. by destruct (String.eqb_spec (g_leader_id g) ""). }
  revert g. induction js as [|j js IH]; intros g Hinv Hids Hs Hall; cbn.
  { destruct (gi_waiting _ Hinv Hs) as (id & m & Hm & Hj).
    destruct (Hall id m Hm Hj) as (j & Hin & _). by apply elem_of_nil in Hin. }
  destruct (join_request_round g j) as (H1 & H2 & H3 & H4); [done|apply Hids; by left|by left|].
  cbv zeta in H1, H2, H3, H4.
  assert (Hne : jr_id j <> "") by (apply Hids; by left).
  assert (Hle : (if String.eqb (g_leader_id (join_request g j)) "" then default "" (jr_id <$> head js)
                 else g_leader_id (join_request g j)) = g_leader_id (join_request g j) /\
                g_leader_id (join_request g j) = if String.eqb (g_leader_id g) "" then jr_id j else g_leader_id g).
  { split; [|done]. rewrite H3. destruct (String.eqb_spec (g_leader_id g) "") as [|Hn].
    - by destruct (String.eqb_spec (jr_id j) "").
    - by destruct (String.eqb_spec (g_leader_id g) ""). }
  destruct H1 as [Hc|[_ Hp]].
  - rewrite Hs, Hc in H2.
    destruct (Hcompleted js (join_request g j)) as (I1 & I2 & I3 & I4);
      [by apply join_request_inv|intros; apply Hids; by right|done|].
    split_and!; [done|done| |].
    + rewrite I3, H2. rewrite bool_decide_eq_false_2 by done. lia.
    + rewrite I4. apply Hle.
  - rewrite Hs, Hp in H2. rewrite bool_decide_eq_true_2 in H2 by done.
    destruct (IH (join_request g j)) as (I1 & I2 & I3 & I4);
      [by apply join_request_inv|intros; apply Hids; by right|done| |].
    + intros id m' Hm' Hj'. destruct (H4 id m' Hm' Hj') as (Hn & m & Hm & Hj).
      destruct (Hall id m Hm Hj) as (j0 & Hin & Hid0). apply elem_of_cons in Hin as [->|Hin]; [done|].
      by exists j0.
    + split_and!; [done|done|rewrite I3, H2; lia|]. rewrite I4. destruct Hle as [-> ->]. done.
Qed.

(** The assignment a leader's list gives to a member: its last entry, or nothing. *)
Definition given (id : string) (assignments : list MemberAssignment) : list byte :=
  foldl (fun a e => if String.eqb (ma_id e) id then ma_assignment e else a) [] assignments.

Lemma assign_all_lookup assignments ms id m :
  ms !! id = Some m ->
  assign_all assignments ms !! id
  = Some (m_set_assignment (foldl (fun a e => if String.eqb (ma_id e) id then ma_assignment e else a)
                              (m_assignment m) assignments) m).
Proof.
  unfold assign_all. revert ms m. induction assignments as [|e l IH]; intros ms m Hm; cbn.
  - rewrite Hm. by destruct m.
  - destruct (String.eqb_spec (ma_id e) id) as [<-|Hne].
    + erewrite IH; [|by rewrite lookup_alter_eq, Hm]. done.
    + erewrite IH; [|by rewrite lookup_alter_ne, Hm by done]. done.
Qed.

(** The leader distributes. *)
Lemma leader_sync now assignments g :
  group_inv g -> g_state g = CompletingRebalance ->
  let '(r, g') := sync now (g_leader_id g) (g_generation g) assignments g in
  r = Ok (MkSync (g_generation g) true (given (g_leader_id g) assignments)) /\
  g_state g' = Stable /\ g_generation g' = g_generation g /\
  forall id, (is_Some (g_members g' !! id) <-> is_Some (g_members g !! id)) /\
    (is_Some (g_members g !! id) -> assignment_of id g' = given id assignments).
Proof.
  intros Hinv Hs. destruct (gi_round _ Hinv) as [Hl Hall]; [by left|].
  destruct (gi_leader _ Hinv) as [|(m & Hm & Hj)]; [done|].
  unfold sync. rewrite Hs, Hm, Z.eqb_refl. cbn [negb g_state g_set_members].
  rewrite Hs. rewrite !bool_decide_eq_false_2 by done. rewrite bool_decide_eq_true_2 by done. cbn [negb].
  rewrite String.eqb_refl.
  set (g1 := g_set_members (<[_ := m_set_seen now m]> (g_members g)) g).
  assert (Hlook : forall id, (is_Some (assign_all assignments (g_members g1) !! id) <-> is_Some (g_members g !! id)) /\
    (is_Some (g_members g !! id) ->
     match assign_all assignments (g_members g1) !! id with Some m => m_assignment m | None => [] end
     = given id assignments)).
  { intros id. destruct (g_members g !! id) as [mi|] eqn:Hmi.
    - assert (exists m1, g_members g1 !! id = Some m1 /\ m_assignment m1 = []) as (m1 & Hm1 & Ha).
      { subst g1. cbn. destruct (decide (g_leader_id g = id)) as [<-|Hn].
        - rewrite lookup_insert_eq. eexists. split; [done|]. cbn. by apply (gi_blank _ Hinv Hs _ _ Hm).
        - rewrite lookup_insert_ne by done. exists mi. split; [done|]. by apply (gi_blank _ Hinv Hs _ _ Hmi). }
      rewrite (assign_all_lookup _ _ _ _ Hm1), Ha. by split.
    - assert (Hn : g_members g1 !! id = None).
      { subst g1. cbn. rewrite lookup_insert_ne by congruence. done. }
      pose proof (round_of_assign_all assignments (g_members g1) id) as Hr. unfold round_of in Hr.
      rewrite Hn in Hr. destruct (assign_all _ _ !! id); [done|]. by split. }
  assert (Hgen : g_generation g1 = g_generation g) by done. clearbody g1.
  cbn. rewrite Hgen. split_and!; try done.
  unfold assignment_of. cbn. by rewrite (proj2 (Hlook (g_leader_id g))) by eauto.
Qed.

(** C15. A whole rebalance.  While a rebalance is being prepared, any sequence of joins that includes
    everyone who has not rejoined closes the round: the generation rises by one and the first to
    join leads.  When the leader distributes, the group is stable, and each member that syncs with
    the new generation gets exactly what the leader gave it. *)
Theorem rebalance_round (js : list JoinRequest) (now : Z) (assignments : list MemberAssignment)
    (g : ConsumerGroup) (Hinv : group_inv g) (Hstate : g_state g = PreparingRebalance)
    (Hids : forall j, j ∈ js -> jr_id j <> "")
    (Hall : forall id m, g_members g !! id = Some m -> m_joined_round m = false ->
              exists j, j ∈ js /\ jr_id j = id) :
  let g1 := foldl join_request g js in
  let g2 := (sync now (g_leader_id g1) (g_generation g1) assignments g1).2 in
  g_state g1 = CompletingRebalance /\ g_generation g1 = g_generation g + 1 /\
  g_leader_id g1 = (if String.eqb (g_leader_id g) "" then default "" (jr_id <$> head js) else g_leader_id g) /\
  g_state g2 = Stable /\ g_generation g2 = g_generation g1 /\
  forall id later, is_Some (g_members g1 !! id) ->
    (sync later id (g_generation g2) [] g2).1 = Ok (MkSync (g_generation g2) true (given id assignments)).
Proof.
  cbv zeta. destruct (joins_complete js g Hinv Hids Hstate Hall) as (I1 & I2 & I3 & I4). cbv zeta in *.
  set (g1 := foldl join_request g js) in *. clearbody g1.
  pose proof (leader_sync now assignments g1 I1 I2) as Hl.
  destruct (sync now (g_leader_id g1) (g_generation g1) assignments g1) as [r g2].
  destruct Hl as (_ & Hs2 & Hg2 & Hm2). cbn [snd]. split_and!; try done.
  intros id later Hid. destruct (Hm2 id) as [Hiff Ha]. specialize (Ha Hid).
  destruct (proj2 Hiff Hid) as [m Hm].
  unfold sync. rewrite Hs2, Hm, Z.eqb_refl. cbn [negb g_state g_set_members].
  rewrite Hs2. rewrite bool_decide_eq_false_2 by done. rewrite bool_decide_eq_true_2 by done. cbn [fst].
  unfold assignment_of in *. cbn. rewrite lookup_insert_eq. rewrite Hm in Ha. cbn. by rewrite Ha.
Qed.

(** ** Concrete runs *)

(** Two consumers of a group, one of which has just joined. *)
Definition waiting_group : ConsumerGroup :=
  group_run [(1, GJoin "a" [1] 30000); (2, GSync "a" 1 [MkAssignment "a" [9]]); (3, GJoin "b" [2] 30000)]
    (new_group "g").

Lemma waiting_group_inv : group_inv waiting_group.
Proof. apply group_run_inv, new_group_inv. Qed.

Lemma rebalance_round_witness :
  let g1 := foldl join_request waiting_group [(4, ("a", [1], 30000))] in
  let g2 := (sync 5 "b" 2 [MkAssignment "a" [7]; MkAssignment "b" [8]] g1).2 in
  g_state g2 = Stable /\ (sync 6 "a" 2 [] g2).1 = Ok (MkSync 2 true [7]).
Proof.
  assert (Hs : g_state waiting_group = PreparingRebalance) by (vm_compute; reflexivity).
  assert (Hids : forall j, j ∈ [(4, ("a", [1], 30000))] -> jr_id j <> "")
    by (intros j ->%list_elem_of_singleton; discriminate).
  assert (Hall : forall id m, g_members waiting_group !! id = Some m -> m_joined_round m = false ->
    exists j, j ∈ [(4, ("a", [1], 30000))] /\ jr_id j = id).
  { intros id m Hm Hj. exists (4, ("a", [1], 30000)). split; [left|].
    apply elem_of_map_to_list in Hm. vm_compute in Hm.
    repeat (apply elem_of_cons in Hm as [Hm|Hm]; [injection Hm as -> ->; first [reflexivity|discriminate Hj]|]).
    by apply elem_of_nil in Hm. }
  pose proof (rebalance_round [(4, ("a", [1], 30000))] 5 [MkAssignment "a" [7]; MkAssignment "b" [8]]
    waiting_group waiting_group_inv Hs Hids Hall) as H.
  cbv zeta in H |- *. set (g1 := foldl join_request waiting_group _) in *.
  assert (Hl : g_leader_id g1 = "b") by (vm_compute; reflexivity).
  assert (Hg : g_generation g1 = 2) by (vm_compute; reflexivity).
  assert (Ha : is_Some (g_members g1 !! "a")) by (vm_compute; eauto).
  rewrite Hl, Hg in H. destruct H as (_ & _ & _ & H1 & H2 & H3). split; [exact H1|].
  specialize (H3 "a" 6 Ha). rewrite H2 in H3. exact H3.
Defined.

(** A consumer that joins after the round has closed and before the leader distributes is not in
    any rebalance: the group becomes stable with that member unassigned, its [sync] says so, and
    its heartbeats are accepted. *)
Theorem late_member_unassigned :
  let g := group_run [(1, GJoin "a" [1] 30000); (2, GJoin "b" [2] 30000);
                      (3, GSync "a" 1 [MkAssignment "a" [9]])] (new_group "g") in
  g_state g = Stable /\ (sync 4 "b" 1 [] g).1 = Ok (MkSync 1 true []) /\ (heartbeat 5 "b" 1 g).1 = Ok HbOk.
Proof. vm_compute. done. Qed.

(** The ids the group generates are not unique: a consumer that chose ["g-1"] shares it with the
    first consumer that asks for one. *)
Theorem generated_id_collides :
  let g := group_run [(1, GJoin "g-1" [1] 30000)] (new_group "g") in
  option_map (fun m => m_subscription m) (g_members (join 2 "" [2] 30000 g).2 !! "g-1") = Some [2] /\
  size (g_members (join 2 "" [2] 30000 g).2) = 1%nat.
Proof. vm_compute. done. Qed.
