(* ===== verification/Partition.v ===== *)
(** * Partitions of the broker

    Models [ProducerSession] of [src/src/broker/producer_session.hpp], the protocol claim of
    [PartitionBase], [Partition] of [partition.cpp] and [ReplicatedPartition] of
    [replicated_partition.cpp].  Both partitions classify a batch with the producer's session
    before they append it (to the partition log) or propose it (to Raft): that common code is
    written once, over the call that appends.  The second part says what the sessions guarantee. *)
From Stdlib Require Import ZArith Lia.
From stdpp Require Import base list gmap strings sorting.
From S2P Require Import Prelude Record RaftState RaftLogSpec RaftNode RaftLog File RaftLogRecovery.
#[local] Open Scope Z_scope.

(** ** Producer sessions *)

Definition kNoSequence : Z := -1.

Inductive SeqCheck := SeqAccept | SeqDuplicate | SeqGap | SeqFenced.

Record ProducerSession := MkSession {
  ps_producer_id : Z;
  ps_epoch : Z;
  ps_last_sequence : Z;
  ps_last_base_sequence : Z;
  ps_last_base_offset : Z;
}.

Definition new_session (producer_id epoch : Z) : ProducerSession :=
  MkSession producer_id epoch kNoSequence kNoSequence (-1).

Definition session_check (epoch base_seq count : Z) (s : ProducerSession) : SeqCheck :=
  if epoch <? ps_epoch s then SeqFenced
  else if ps_epoch s <? epoch then if base_seq =? 0 then SeqAccept else SeqGap
  else
    let expected := ps_last_sequence s + 1 in
    if base_seq =? expected then SeqAccept
    else if expected <? base_seq then SeqGap
    else if base_seq + count <=? expected then SeqDuplicate else SeqGap.

(** The 32-bit sum of the last sequence, with its wrap-around written out. *)
Definition session_accept (epoch base_seq count base_offset : Z) (s : ProducerSession) : ProducerSession :=
  MkSession (ps_producer_id s) epoch (to_i 32 (base_seq + count - 1)) base_seq base_offset.

Definition duplicate_base_offset (base_seq : Z) (s : ProducerSession) : Z :=
  if base_seq =? ps_last_base_sequence s then ps_last_base_offset s else -1.

(** ** The protocol of a partition *)

Inductive WireProtocol := ProtocolUnset | ProtocolNative | ProtocolKafka.

#[export] Instance WireProtocol_eq_dec : EqDecision WireProtocol.
Proof. solve_decision. Defined.

Definition claim_protocol (proto current : WireProtocol) : expected unit * WireProtocol :=
  if bool_decide (current = ProtocolUnset) || bool_decide (current = proto) then (Ok tt, proto)
  else (make_error InvalidArgument
          "partición con records de otro protocolo de wire (cruce nativo/Kafka)", current).

(** ** Idempotent production *)

Section Produce.
(** What the records go to, the call that appends them there (it answers the last offset) and the
    end of the log. *)
Context {S : Type} (append : RecordBatch -> S -> expected Z * S) (log_end : S -> Z).

Record Producing := MkProducing { pr_store : S; pr_producers : gmap Z ProducerSession }.

(** [producers_.try_emplace(producer_id, ...)]: the session, new or not. *)
Definition session_of (h : RecordBatchHeader) (m : gmap Z ProducerSession) : ProducerSession :=
  default (new_session (h_producer_id h) (h_producer_epoch h)) (m !! h_producer_id h).

Definition idempotent_produce (batch : RecordBatch) (p : Producing) : expected Z * Producing :=
  let h := b_header batch in
  if h_producer_id h <? 0 then
    let '(r, s) := append batch (pr_store p) in (r, MkProducing s (pr_producers p))
  else
    let session := session_of h (pr_producers p) in
    let producers := <[h_producer_id h := session]> (pr_producers p) in
    match session_check (h_producer_epoch h) (h_base_sequence h) (h_record_count h) session with
    | SeqFenced =>
        (make_error Fenced "época de productor obsoleta (fenced)", MkProducing (pr_store p) producers)
    | SeqDuplicate =>
        let dup_base := duplicate_base_offset (h_base_sequence h) session in
        (Ok (if 0 <=? dup_base then dup_base + h_record_count h - 1 else log_end (pr_store p) - 1),
         MkProducing (pr_store p) producers)
    | SeqGap =>
        (make_error OutOfRange "secuencia idempotente fuera de orden (hueco)",
         MkProducing (pr_store p) producers)
    | SeqAccept =>
        let '(r, s) := append batch (pr_store p) in
        match r with
        | Err e => (Err e, MkProducing s producers)
        | Ok last =>
            (Ok last, MkProducing s
               (<[h_producer_id h := session_accept (h_producer_epoch h) (h_base_sequence h)
                    (h_record_count h) (last - h_record_count h + 1) session]> producers))
        end
    end.
End Produce.
Arguments Producing S : clear implicits.

(** ** [Partition] *)

Section Partition.
Context {P : Type} `{!PartitionLogOps P}.

Record Partition := MkPartition {
  pt_state : Producing P;
  pt_leader_epoch : Z;
  pt_protocol : WireProtocol;
}.

Definition new_partition (log : P) (leader_epoch : Z) : Partition :=
  MkPartition (MkProducing log ∅) leader_epoch ProtocolUnset.

Definition partition_produce (batch : RecordBatch) (p : Partition) : expected Z * Partition :=
  let '(r, st) := idempotent_produce pl_append log_end_offset batch (pt_state p) in
  (r, MkPartition st (pt_leader_epoch p) (pt_protocol p)).

Definition partition_claim (proto : WireProtocol) (p : Partition) : expected unit * Partition :=
  let '(r, proto') := claim_protocol proto (pt_protocol p) in
  (r, MkPartition (pt_state p) (pt_leader_epoch p) proto').

Definition partition_fetch (offset : Z) (max_bytes : nat) (p : Partition) : expected (list byte) :=
  pl_read (pr_store (pt_state p)) offset max_bytes.

Definition partition_high_watermark (p : Partition) : Z := log_end_offset (pr_store (pt_state p)).

(** ** [ReplicatedPartition] *)

Record ReplicatedPartition := MkReplicated {
  rp_state : Producing (RaftNode (RaftLog P));
  rp_protocol : WireProtocol;
}.

Definition replicated_create (self : Z) (peers : list Z) (config : RaftConfig) (learners : list Z)
    (rlog : RaftLog P) : ReplicatedPartition :=
  MkReplicated (MkProducing (new_node self peers rlog config learners) ∅) ProtocolUnset.

(** [propose_offset]: the proposal, and the last offset of its entry. *)
Definition propose_offset (batch : RecordBatch) (n : RaftNode (RaftLog P)) : expected Z * RaftNode (RaftLog P) :=
  let '(r, n) := propose batch n in
  match r with
  | Err e => (Err e, n)
  | Ok index =>
      match rl_offsets_at (log_ n) index with
      | Err e => (Err e, n)
      | Ok offsets => (Ok offsets.2, n)
      end
  end.

Definition raft_log_end (n : RaftNode (RaftLog P)) : Z := log_end_offset (rl_log (log_ n)).

Definition replicated_produce (batch : RecordBatch) (p : ReplicatedPartition) : expected Z * ReplicatedPartition :=
  if negb (bool_decide (role_ (pr_store (rp_state p)) = Leader))
  then (make_error Unsupported "produce: la partición no es líder", p)
  else
    let '(r, st) := idempotent_produce propose_offset raft_log_end batch (rp_state p) in
    (r, MkReplicated st (rp_protocol p)).

Definition replicated_fetch (offset : Z) (max_bytes : nat) (p : ReplicatedPartition) : expected (list byte) :=
  pl_read (rl_log (log_ (pr_store (rp_state p)))) offset max_bytes.

Definition replicated_high_watermark (p : ReplicatedPartition) : Z :=
  let n := pr_store (rp_state p) in
  if commit_index n =? 0 then log_start_offset (rl_log (log_ n))
  else match rl_offsets_at (log_ n) (commit_index n) with
       | Err _ => log_start_offset (rl_log (log_ n))
       | Ok offsets => offsets.2 + 1
       end.
End Partition.
Arguments Partition P : clear implicits.
Arguments ReplicatedPartition P : clear implicits.

(** * Exactly-once production

    What the sessions of a partition guarantee: the batches that reach the log form, per producer
    and epoch, one unbroken sequence, whatever is retried and in whatever order; a retry of the
    batch in flight is answered with its offset and changes nothing.  And the bound on what a
    replicated partition shows its consumers. *)

Section ExactlyOnce.
Context {S : Type} (append : RecordBatch -> S -> expected Z * S) (log_end : S -> Z).
#[local] Notation produce := (idempotent_produce append log_end).

(** The call writes its batch. *)
Definition writes (b : RecordBatch) (p : Producing S) : bool :=
  is_ok (append b (pr_store p)).1 &&
  ((h_producer_id (b_header b) <? 0) ||
   match session_check (h_producer_epoch (b_header b)) (h_base_sequence (b_header b))
           (h_record_count (b_header b)) (session_of (b_header b) (pr_producers p)) with
   | SeqAccept => true | _ => false end).

(** The batches a sequence of calls writes, and the partition after it. *)
Fixpoint written (bs : list RecordBatch) (p : Producing S) : list RecordBatch :=
  match bs with
  | [] => []
  | b :: bs' => (if writes b p then [b] else []) ++ written bs' (produce b p).2
  end.

Definition produce_all (bs : list RecordBatch) (p : Producing S) : Producing S :=
  foldl (fun p b => (produce b p).2) p bs.

(** The batches of one producer, each the successor of the one before ([prev] is the epoch and the
    last sequence before them): the next sequence of its epoch, or the first of a newer one. *)
Fixpoint in_sequence (prev : option (Z * Z)) (hs : list RecordBatchHeader) : Prop :=
  match hs with
  | [] => True
  | h :: hs' =>
      match prev with
      | None => h_base_sequence h = 0
      | Some (e, l) =>
          h_producer_epoch h = e /\ h_base_sequence h = l + 1 \/
          e < h_producer_epoch h /\ h_base_sequence h = 0
      end /\
      in_sequence (Some (h_producer_epoch h, to_i 32 (h_base_sequence h + h_record_count h - 1))) hs'
  end.

Definition of_producer (pid : Z) (bs : list RecordBatch) : list RecordBatchHeader :=
  filter (fun h => h_producer_id h = pid) (b_header <$> bs).

(** What the session of [pid] remembers of the batches written. *)
Definition session_tracks (pid : Z) (prev : option (Z * Z)) (m : gmap Z ProducerSession) : Prop :=
  match prev with
  | None => forall s, m !! pid = Some s -> ps_last_sequence s = kNoSequence
  | Some (e, l) => exists s, m !! pid = Some s /\ ps_epoch s = e /\ ps_last_sequence s = l
  end.

Lemma check_accept epoch base count s :
  session_check epoch base count s = SeqAccept ->
  epoch = ps_epoch s /\ base = ps_last_sequence s + 1 \/ ps_epoch s < epoch /\ base = 0.
Proof.
  unfold session_check. intros H.
  destruct (Z.ltb_spec epoch (ps_epoch s)); [done|].
  destruct (Z.ltb_spec (ps_epoch s) epoch); [destruct (Z.eqb_spec base 0); [lia|done]|].
  destruct (Z.eqb_spec base (ps_last_sequence s + 1)); [lia|].
  destruct (_ <? _); [done|]. by destruct (_ <=? _).
Qed.

(** The session of one producer after a call. *)
Lemma produce_session b p :
  let h := b_header b in
  pr_producers (produce b p).2 !! h_producer_id h =
  if h_producer_id h <? 0 then pr_producers p !! h_producer_id h
  else if writes b p
  then match (append b (pr_store p)).1 with
       | Ok last => Some (session_accept (h_producer_epoch h) (h_base_sequence h) (h_record_count h)
                            (last - h_record_count h + 1) (session_of h (pr_producers p)))
       | Err _ => None
       end
  else Some (session_of h (pr_producers p)).
Proof.
  cbv zeta. unfold idempotent_produce, writes.
  destruct (append b (pr_store p)) as [[last|e] s] eqn:Ha; destruct (Z.ltb_spec (h_producer_id (b_header b)) 0);
    cbn [orb is_ok fst snd andb]; try done.
  all: destruct (session_check _ _ _ _); cbn; by rewrite lookup_insert_eq.
Qed.

Lemma produce_other b p pid :
  h_producer_id (b_header b) <> pid -> pr_producers (produce b p).2 !! pid = pr_producers p !! pid.
Proof.
  intros Hne. unfold idempotent_produce.
  destruct (append b (pr_store p)) as [[last|e] s]; destruct (_ <? 0); try done.
  all: destruct (session_check _ _ _ _); cbn; by rewrite ?lookup_insert_ne.
Qed.

Lemma written_in_sequence bs p pid prev :
  0 <= pid -> session_tracks pid prev (pr_producers p) ->
  in_sequence prev (of_producer pid (written bs p)).
Proof.
  intros Hpid. revert p prev. induction bs as [|b bs IH]; intros p prev Ht; [done|].
  cbn [written]. set (h := b_header b) in *. unfold of_producer. rewrite fmap_app, filter_app.
  destruct (decide (h_producer_id h = pid)) as [He|Hne].
  - pose proof (produce_session b p) as Hs. cbv zeta in Hs. fold h in Hs. rewrite He in Hs.
    rewrite (proj2 (Z.ltb_ge _ _)) in Hs by lia.
    assert (Hsess : session_tracks pid prev (<[pid := session_of h (pr_producers p)]> (pr_producers p))).
    { unfold session_of. rewrite He. destruct prev as [[e l]|]; cbn in Ht |- *.
      - destruct Ht as (s & Hs0 & H1 & H2). exists s. by rewrite Hs0, lookup_insert_eq.
      - intros s. rewrite lookup_insert_eq. destruct (pr_producers p !! pid) eqn:Hl; cbn; intros [= <-]; auto. }
    destruct (writes b p) eqn:Hw.
    + cbn. fold h. rewrite decide_True by done. cbn. split.
      * unfold writes in Hw. fold h in Hw. rewrite He, (proj2 (Z.ltb_ge pid 0)) in Hw by lia. cbn [orb] in Hw.
        apply andb_prop in Hw as [_ Hw].
        destruct (session_check _ _ _ _) eqn:Hc in Hw; try done. apply check_accept in Hc.
        destruct prev as [[e l]|]; cbn in Hsess.
        -- destruct Hsess as (s & Hs0 & <- & <-). rewrite lookup_insert_eq in Hs0.
           assert (s = session_of h (pr_producers p)) as -> by congruence. lia.
        -- specialize (Hsess _ (lookup_insert_eq _ _ _)). unfold kNoSequence in Hsess. lia.
      * apply IH. cbn. unfold writes in Hw. apply andb_prop in Hw as [Hok _].
        destruct (append b (pr_store p)).1; [|done]. by eexists.
    + cbn. apply IH. clear IH. destruct prev as [[e l]|]; cbn in Hsess |- *; rewrite Hs.
      * destruct Hsess as (s & Hs0 & H1 & H2). rewrite lookup_insert_eq in Hs0. eauto.
      * intros s Heq. apply Hsess. by rewrite lookup_insert_eq.
  - assert (Hnil : filter (fun h => h_producer_id h = pid) (b_header <$> (if writes b p then [b] else [])) = []).
    { destruct (writes b p); [|done]. cbn. fold h. by rewrite decide_False. }
    rewrite Hnil. apply IH. unfold session_tracks. by rewrite produce_other.
Qed.

(** The store with the batches whose append it reported done, in order. *)
Definition traced_append (b : RecordBatch) (s : list RecordBatch * S) : expected Z * (list RecordBatch * S) :=
  let '(r, store) := append b s.2 in (r, (if is_ok r then s.1 ++ [b] else s.1, store)).

(** The batches that a sequence of calls leaves in the store. *)
Definition appended (bs : list RecordBatch) (s : S) : list RecordBatch :=
  (pr_store (foldl (fun p b => (idempotent_produce traced_append (fun s => log_end s.2) b p).2) (MkProducing ([], s) ∅) bs)).1.

Lemma traced_step b l s m :
  let p := MkProducing s m in
  idempotent_produce traced_append (fun s => log_end s.2) b (MkProducing (l, s) m)
  = ((produce b p).1, MkProducing (l ++ (if writes b p then [b] else []), pr_store (produce b p).2) (pr_producers (produce b p).2)).
Proof.
  cbv zeta. unfold idempotent_produce, traced_append, writes. cbn [pr_store pr_producers snd fst].
  destruct (h_producer_id (b_header b) <? 0); cbn [orb].
  - destruct (append b s) as [[last|e] s']; cbn; by rewrite ?app_nil_r.
  - destruct (session_check _ _ _ _); cbn [fst snd]; rewrite ?andb_false_r, ?app_nil_r; try done.
    destruct (append b s) as [[last|e] s']; cbn; by rewrite ?app_nil_r.
Qed.

Lemma appended_written bs s : appended bs s = written bs (MkProducing s ∅).
Proof.
  unfold appended. change (written bs (MkProducing s ∅)) with ([] ++ written bs (MkProducing s ∅)).
  generalize (∅ : gmap Z ProducerSession) as m. generalize (@nil RecordBatch) as l. revert s.
  induction bs as [|b bs IH]; intros s l m; cbn [foldl written pr_store fst]; [by rewrite app_nil_r|].
  rewrite traced_step. cbn [snd]. rewrite IH. destruct (produce b (MkProducing s m)) as [r [s' m']]. cbn [snd pr_store pr_producers].
  by rewrite app_assoc.
Qed.

(** C13. Exactly once.  From a partition without sessions, for any sequence of calls (retries, late
    duplicates, gaps, several producers and epochs interleaved, appends that fail), the batches of a
    producer that the store has appended follow each other: the first has sequence 0, each next one
    starts right after the previous of its epoch or opens a newer epoch at 0.  No sequence number of
    an epoch is skipped, nor appended twice, on a store that appends nothing when it reports a failure. *)
Theorem produced_exactly_once (bs : list RecordBatch) (s : S) (pid : Z) (Hpid : 0 <= pid) :
  in_sequence None (of_producer pid (appended bs s)).
Proof. rewrite appended_written. apply written_in_sequence; [done|]. cbn. intros x. by rewrite lookup_empty. Qed.

(** *** Retries *)

Lemma produce_others others p pid :
  Forall (fun b => h_producer_id (b_header b) <> pid) others ->
  pr_producers (produce_all others p) !! pid = pr_producers p !! pid.
Proof.
  unfold produce_all. intros H. revert p. induction H as [|b bs Hb Hbs IH]; intros p; cbn; [done|].
  by rewrite IH, produce_other.
Qed.

(** The batch in flight may be sent again at any time before the next one: after any calls of the
    other producers, a retry of a batch that was written is answered with the very offset the
    first attempt got, and changes nothing. *)
Theorem retry_is_idempotent (b : RecordBatch) (p : Producing S) (last : Z) (others : list RecordBatch)
    (Hpid : 0 <= h_producer_id (b_header b)) (Hwrites : writes b p = true)
    (Hreply : (produce b p).1 = Ok last)
    (Hcount : 0 < h_record_count (b_header b) <= last + 1)
    (Hseq : 0 <= h_base_sequence (b_header b) /\
            h_base_sequence (b_header b) + h_record_count (b_header b) <= 2 ^ 31)
    (Hothers : Forall (fun b' => h_producer_id (b_header b') <> h_producer_id (b_header b)) others) :
  let p' := produce_all others (produce b p).2 in
  produce b p' = (Ok last, p').
Proof.
  cbv zeta. set (h := b_header b) in *. set (p' := produce_all others (produce b p).2).
  assert (Hs : pr_producers p' !! h_producer_id h =
    Some (session_accept (h_producer_epoch h) (h_base_sequence h) (h_record_count h)
            (last - h_record_count h + 1) (session_of h (pr_producers p)))).
  { subst p'. rewrite produce_others by done.
    pose proof (produce_session b p) as Hps. cbv zeta in Hps. fold h in Hps. rewrite Hps. clear Hps.
    rewrite (proj2 (Z.ltb_ge _ _)), Hwrites by lia.
    unfold writes in Hwrites. fold h in Hwrites. rewrite (proj2 (Z.ltb_ge _ _)) in Hwrites by lia.
    apply andb_prop in Hwrites as [Hok Hacc]. cbn [orb] in Hacc.
    unfold idempotent_produce in Hreply. fold h in Hreply. rewrite (proj2 (Z.ltb_ge _ _)) in Hreply by lia.
    destruct (session_check _ _ _ _); try done.
    destruct (append b (pr_store p)) as [[l|e] s]; [|done]. cbn in Hreply |- *. congruence. }
  clearbody p'. unfold idempotent_produce. fold h. rewrite (proj2 (Z.ltb_ge _ _)) by lia.
  assert (Hso : session_of h (pr_producers p') = session_accept (h_producer_epoch h) (h_base_sequence h)
    (h_record_count h) (last - h_record_count h + 1) (session_of h (pr_producers p)))
    by (unfold session_of at 1; by rewrite Hs).
  rewrite Hso.
  assert (Hl : to_i 32 (h_base_sequence h + h_record_count h - 1) = h_base_sequence h + h_record_count h - 1)
    by (apply to_i_small; lia).
  assert (Hdup : forall s, session_check (h_producer_epoch h) (h_base_sequence h) (h_record_count h)
    (session_accept (h_producer_epoch h) (h_base_sequence h) (h_record_count h)
       (last - h_record_count h + 1) s) = SeqDuplicate).
  { intros s. unfold session_check, session_accept. cbn [ps_epoch ps_last_sequence]. rewrite Hl, !Z.ltb_irrefl.
    rewrite (proj2 (Z.eqb_neq _ _)), (proj2 (Z.ltb_ge _ _)), (proj2 (Z.leb_le _ _)) by lia. done. }
  rewrite Hdup. rewrite insert_id by done.
  unfold duplicate_base_offset, session_accept. cbn [ps_last_base_sequence ps_last_base_offset].
  rewrite Z.eqb_refl, (proj2 (Z.leb_le _ _)) by lia. destruct p'. cbn. do 2 f_equal. lia.
Qed.
End ExactlyOnce.

(** ** The high watermark of a replicated partition *)

Section Watermark.
Context {P : Type} `{!PartitionLogOps P}.

Lemma chain_end_ge off es :
  Forall (fun m => em_base_offset m <= em_last_offset m + 1) es -> entry_chain off es -> off <= chain_end off es.
Proof.
  intros H. revert off. induction H as [|m es Hm Hes IH]; intros off Hc; [by unfold chain_end; cbn|].
  destruct Hc as [Hb Hc]. rewrite chain_end_cons. specialize (IH _ Hc). lia.
Qed.

Lemma chain_entry_end off es i m :
  Forall (fun m => em_base_offset m <= em_last_offset m + 1) es -> entry_chain off es ->
  es !! i = Some m -> em_last_offset m + 1 <= chain_end off es.
Proof.
  intros H. revert off i. induction H as [|m' es Hm Hes IH]; intros off i Hc Hi; [done|].
  destruct Hc as [Hb Hc]. rewrite chain_end_cons. destruct i as [|i]; cbn in Hi.
  - assert (m' = m) as -> by congruence. by apply chain_end_ge.
  - by eapply IH.
Qed.

(** What consumers see never exceeds what is written: over a coherent Raft log whose entries hold
    no negative number of records, the high watermark is at most the end of the partition log. *)
Theorem watermark_within_log (p : ReplicatedPartition P) (l : RaftLog P)
    (Hlog : log_ (pr_store (rp_state p)) = l) (Hinv : rl_inv l)
    (Hcounts : Forall (fun m => em_base_offset m <= em_last_offset m + 1) (rl_entries l))
    (Hstart : log_start_offset (rl_log l) <= log_end_offset (rl_log l)) :
  replicated_high_watermark p <= log_end_offset (rl_log l).
Proof.
  unfold replicated_high_watermark. rewrite Hlog.
  set (c := commit_index (pr_store (rp_state p))). destruct (c =? 0); [done|].
  unfold rl_offsets_at. destruct (Z.leb_spec c (rl_snapshot_index l)) as [|Hs]; [done|].
  destruct (Z.ltb_spec (rl_last_index l) c) as [|Hl]; [done|]. cbn.
  rewrite <- (ri_end _ Hinv).
  assert (exists m, rl_entries l !! slot_of l c = Some m) as [m Hm].
  { apply lookup_lt_is_Some. unfold slot_of, rl_last_index in *. lia. }
  unfold meta_at. rewrite Hm. cbn.
  eapply chain_entry_end; [done|apply Hinv|exact Hm].
Qed.
End Watermark.

(** ** Concrete runs *)

Definition batch_of (pid epoch seq : Z) (count : Z) : RecordBatch :=
  MkBatch (MkHeader 0 0 pid epoch seq count) [1; 2; 3].

Definition empty_log : MemPartition := MkMemPartition 0 0 [].

Lemma produced_exactly_once_witness :
  in_sequence None (of_producer 7 (appended mp_append mp_end
    [batch_of 7 0 0 2; batch_of 7 0 0 2; batch_of 7 0 5 1; batch_of 7 0 2 1; batch_of 7 1 0 1; batch_of 7 0 3 1] empty_log)) /\
  h_base_sequence <$> of_producer 7 (appended mp_append mp_end
    [batch_of 7 0 0 2; batch_of 7 0 0 2; batch_of 7 0 5 1; batch_of 7 0 2 1; batch_of 7 1 0 1; batch_of 7 0 3 1] empty_log) = [0; 2; 0].
Proof.
  split; [|vm_compute; reflexivity].
  assert (H : 0 <= 7) by lia. exact (produced_exactly_once mp_append mp_end _ empty_log 7 H).
Defined.

Lemma retry_is_idempotent_witness :
  let p1 := (idempotent_produce mp_append mp_end (batch_of 7 0 0 2) (MkProducing empty_log ∅)).2 in
  let p2 := (idempotent_produce mp_append mp_end (batch_of 8 0 0 5) p1).2 in
  idempotent_produce mp_append mp_end (batch_of 7 0 0 2) p2 = (Ok 1, p2).
Proof.
  assert (H1 : 0 <= h_producer_id (b_header (batch_of 7 0 0 2))) by (cbn; lia).
  assert (H2 : writes mp_append (batch_of 7 0 0 2) (MkProducing empty_log ∅) = true) by (vm_compute; reflexivity).
  assert (H3 : (idempotent_produce mp_append mp_end (batch_of 7 0 0 2) (MkProducing empty_log ∅)).1 = Ok 1)
    by (vm_compute; reflexivity).
  assert (H4 : 0 < h_record_count (b_header (batch_of 7 0 0 2)) <= 1 + 1) by (cbn; lia).
  assert (H5 : 0 <= h_base_sequence (b_header (batch_of 7 0 0 2)) /\
    h_base_sequence (b_header (batch_of 7 0 0 2)) + h_record_count (b_header (batch_of 7 0 0 2)) <= 2 ^ 31)
    by (cbn; lia).
  assert (H6 : Forall (fun b' => h_producer_id (b_header b') <> h_producer_id (b_header (batch_of 7 0 0 2)))
    [batch_of 8 0 0 5]) by (repeat constructor; discriminate).
  exact (retry_is_idempotent mp_append mp_end (batch_of 7 0 0 2) (MkProducing empty_log ∅) 1 [batch_of 8 0 0 5]
    H1 H2 H3 H4 H5 H6).
Defined.

(** A partition replicated on one node, its leader, with one batch of two records. *)
Definition single_replica : ReplicatedPartition MemPartition :=
  let p := replicated_create 1 [] default_config [] (rl_fresh empty_log (file_of []) (file_of [])) in
  let n := node_step (ms 9000) ITick (node_step 0 ITick (pr_store (rp_state p))) in
  (replicated_produce (batch_of (-1) 0 0 2) (MkReplicated (MkProducing n ∅) ProtocolUnset)).2.

Definition compacted (p : ReplicatedPartition MemPartition) : ReplicatedPartition MemPartition :=
  let n := pr_store (rp_state p) in
  MkReplicated (MkProducing (set_log (rl_compact_to (commit_index n) (log_ n)).2 n) (pr_producers (rp_state p)))
    (rp_protocol p).

(** Compaction hides what was committed.  Once the Raft log is compacted up to the commit index,
    as the carrier does, the entry at the commit index has no offsets any more and the high
    watermark falls back to the start of the partition log, although the batch is still there. *)
Theorem compaction_lowers_watermark :
  replicated_high_watermark single_replica = 2 /\
  replicated_high_watermark (compacted single_replica) = 0 /\
  is_ok (replicated_fetch 0 100 (compacted single_replica)) = true /\
  log_end_offset (rl_log (log_ (pr_store (rp_state (compacted single_replica))))) = 2.
Proof. vm_compute. done. Qed.

Lemma watermark_within_log_witness :
  replicated_high_watermark single_replica
  <= log_end_offset (rl_log (log_ (pr_store (rp_state single_replica)))).
Proof.
  assert (Hone : i_range 64 1) by by_range.
  set (e := MkEntry 1 1 Data (batch_encode (batch_of (-1) 0 0 2) [])).
  assert (Hrun : rl_append [e] (rl_fresh empty_log (file_of []) (file_of []))
    = (Ok 1, log_ (pr_store (rp_state single_replica)))) by (vm_compute; reflexivity).
  assert (Hfresh : rl_inv (rl_fresh empty_log (file_of []) (file_of [])))
    by (apply rl_fresh_inv; first [reflexivity|constructor]).
  pose proof (Forall_cons_2 (fun e => i_range 64 (e_term e)) e [] Hone (Forall_nil_2 _)) as Hterm.
  pose proof (append_inv mp_end_range mp_append_range [e] _ _ _ Hfresh Hterm Hrun) as Hinv.
  assert (Hcounts : Forall (fun m => em_base_offset m <= em_last_offset m + 1)
    (rl_entries (log_ (pr_store (rp_state single_replica))))) by (vm_compute; repeat constructor; discriminate).
  assert (Hstart : log_start_offset (rl_log (log_ (pr_store (rp_state single_replica))))
    <= log_end_offset (rl_log (log_ (pr_store (rp_state single_replica))))) by (vm_compute; discriminate).
  exact (watermark_within_log single_replica _ eq_refl Hinv Hcounts Hstart).
Defined.
