(* ===== verification/TxnIndex.v ===== *)
(** * The transactional index of a partition

    Models [PartitionTxnIndex], [AbortedTracker] and [filter_committed] of
    [src/src/broker/partition_txn_index.hpp] and [partition_txn_index.cpp]: the last stable offset
    and the filter of read-committed consumers, then what they guarantee. *)
From Stdlib Require Import ZArith Lia.
From stdpp Require Import functions base list gmap sets sorting relations.
From S2P Require Import Prelude Record RecordCodec.
#[local] Open Scope Z_scope.

(** ** Data *)

Inductive IsolationLevel := ReadUncommitted | ReadCommitted.

Record AbortedTxn := MkAborted { at_producer_id : Z; at_first_offset : Z }.

(** [PartitionTxnIndex::AbortedRange]. *)
Record AbortedRange := MkRange { ar_producer_id : Z; ar_first_offset : Z; ar_marker_offset : Z }.

Record PartitionTxnIndex := MkTxnIndex {
  ti_open : gmap Z Z;
  ti_aborted : list AbortedRange;
}.

Definition empty_txn_index : PartitionTxnIndex := MkTxnIndex ∅ [].

(** ** The index *)

(** [try_emplace] keeps the first offset. *)
Definition on_data (producer_id base_offset : Z) (x : PartitionTxnIndex) : PartitionTxnIndex :=
  match ti_open x !! producer_id with
  | Some _ => x
  | None => MkTxnIndex (<[producer_id := base_offset]> (ti_open x)) (ti_aborted x)
  end.

Definition on_marker (producer_id : Z) (decision : ControlRecordType) (marker_offset : Z)
    (x : PartitionTxnIndex) : PartitionTxnIndex :=
  match ti_open x !! producer_id with
  | None => x
  | Some first =>
      MkTxnIndex (delete producer_id (ti_open x))
        (match decision with
         | Abort => ti_aborted x ++ [MkRange producer_id first marker_offset]
         | Commit => ti_aborted x
         end)
  end.

Definition last_stable_offset (high_watermark : Z) (x : PartitionTxnIndex) : Z :=
  foldl (fun lso p => Z.min lso p.2) high_watermark (map_to_list (ti_open x)).

Definition first_le (a b : AbortedTxn) : Prop := at_first_offset a <= at_first_offset b.

#[export] Instance first_le_dec : RelDecision first_le.
Proof. intros a b. unfold first_le. apply _. Defined.

Definition aborted_transactions (fetch_offset : Z) (x : PartitionTxnIndex) : list AbortedTxn :=
  merge_sort first_le
    ((fun r => MkAborted (ar_producer_id r) (ar_first_offset r)) <$>
       filter (fun r => fetch_offset < ar_marker_offset r) (ti_aborted x)).

Definition evict_below (log_start : Z) (x : PartitionTxnIndex) : PartitionTxnIndex :=
  MkTxnIndex (ti_open x) (filter (fun r => log_start <= ar_marker_offset r) (ti_aborted x)).

(** ** The filter *)

Record AbortedTracker := MkTracker {
  tk_firsts : gmap Z (list Z);
  tk_next : gmap Z nat;
  tk_active : gset Z;
}.

Definition push_first (m : gmap Z (list Z)) (a : AbortedTxn) : gmap Z (list Z) :=
  <[at_producer_id a := default [] (m !! at_producer_id a) ++ [at_first_offset a]]> m.

Definition new_tracker (aborted : list AbortedTxn) : AbortedTracker :=
  MkTracker (merge_sort Z.le <$> foldl push_first ∅ aborted) ∅ ∅.

Definition tracker_on_marker (producer_id : Z) (t : AbortedTracker) : AbortedTracker :=
  if bool_decide (producer_id ∈ tk_active t)
  then MkTracker (tk_firsts t) (<[producer_id := S (default 0%nat (tk_next t !! producer_id))]> (tk_next t))
         (tk_active t ∖ {[ producer_id ]})
  else t.

(** The lookup [next_[producer_id]] also inserts a zero, which no later lookup distinguishes. *)
Definition is_aborted (producer_id base_offset : Z) (t : AbortedTracker) : bool * AbortedTracker :=
  let t' :=
    if bool_decide (producer_id ∈ tk_active t) then t
    else match tk_firsts t !! producer_id with
    | None => t
    | Some offsets =>
        match offsets !! default 0%nat (tk_next t !! producer_id) with
        | Some first => if first <=? base_offset
                        then MkTracker (tk_firsts t) (tk_next t) ({[ producer_id ]} ∪ tk_active t) else t
        | None => t
        end
    end in
  (bool_decide (producer_id ∈ tk_active t'), t').

(** The loop over the batches. *)
Fixpoint filter_loop (batches : list RecordBatch) (t : AbortedTracker) : list RecordBatch :=
  match batches with
  | [] => []
  | b :: rest =>
      let h := b_header b in
      if is_control (h_attrs h) then filter_loop rest (tracker_on_marker (h_producer_id h) t)
      else if is_transactional (h_attrs h)
      then
        let '(aborted, t') := is_aborted (h_producer_id h) (h_base_offset h) t in
        (if aborted then [] else [b]) ++ filter_loop rest t'
      else b :: filter_loop rest t
  end.

Definition filter_committed (batches : list RecordBatch) (aborted : list AbortedTxn) : list RecordBatch :=
  filter_loop batches (new_tracker aborted).

(** ** Feeding the index with the log *)

Section Feed.
(** The decision in a control batch ([parse_control_batch], with the codecs of the build). *)
Context (marker_of : RecordBatch -> option ControlRecordType).

(** What the index is told of each batch: the data of a transaction opens it, a marker closes it. *)
Definition index_batch (x : PartitionTxnIndex) (b : RecordBatch) : PartitionTxnIndex :=
  let h := b_header b in
  if is_control (h_attrs h) then
    match marker_of b with
    | Some d => on_marker (h_producer_id h) d (h_base_offset h) x
    | None => x
    end
  else if is_transactional (h_attrs h) then on_data (h_producer_id h) (h_base_offset h) x
  else x.

Definition index_log (log : list RecordBatch) (x : PartitionTxnIndex) : PartitionTxnIndex :=
  foldl index_batch x log.
End Feed.

(** * Read-committed consumers

    The last stable offset bounds what is decided, and the filter of a fetch up to it delivers
    exactly the data outside transactions and the data of committed ones -- provided no aborted
    transaction has its last data before the fetch and its marker after; without that condition the
    filter drops committed data, as a concrete log shows. *)

Section Index.
Context (marker_of : RecordBatch -> option ControlRecordType).

#[local] Abbreviation pid_of b := (h_producer_id (b_header b)).
#[local] Abbreviation base_of b := (h_base_offset (b_header b)).
Definition control (b : RecordBatch) : bool := is_control (h_attrs (b_header b)).
(** Data of a transaction. *)
Definition txn_data (b : RecordBatch) : bool :=
  negb (control b) && is_transactional (h_attrs (b_header b)).

(** ** What the log says *)

(** The decision of the transaction of [pid] open before this log: its next marker. *)
Fixpoint next_decision (pid : Z) (log : list RecordBatch) : option ControlRecordType :=
  match log with
  | [] => None
  | b :: rest =>
      if (pid_of b =? pid) && control b
      then match marker_of b with Some d => Some d | None => next_decision pid rest end
      else next_decision pid rest
  end.

(** What a read-committed consumer must see of a log: the data outside transactions and the data
    of committed transactions. *)
Fixpoint committed_view (window later : list RecordBatch) : list RecordBatch :=
  match window with
  | [] => []
  | b :: rest =>
      (if control b then []
       else if txn_data b
       then if bool_decide (next_decision (pid_of b) (rest ++ later) = Some Commit) then [b] else []
       else [b]) ++ committed_view rest later
  end.

(** The first offset of the transaction of [pid] open after this log, and the aborted ranges it
    contains, given the first offset of the one open before it. *)
Fixpoint open_after (pid : Z) (open : option Z) (log : list RecordBatch) : option Z :=
  match log with
  | [] => open
  | b :: rest =>
      open_after pid
        (if pid_of b =? pid
         then if control b then match marker_of b with Some _ => None | None => open end
              else if txn_data b then Some (default (base_of b) open) else open
         else open) rest
  end.

Fixpoint aborted_ranges (pid : Z) (open : option Z) (log : list RecordBatch) : list (Z * Z) :=
  match log with
  | [] => []
  | b :: rest =>
      if pid_of b =? pid
      then if control b
           then match marker_of b, open with
                | Some Abort, Some first => (first, base_of b) :: aborted_ranges pid None rest
                | Some _, _ => aborted_ranges pid None rest
                | None, _ => aborted_ranges pid open rest
                end
           else aborted_ranges pid (if txn_data b then Some (default (base_of b) open) else open) rest
      else aborted_ranges pid open rest
  end.

Lemma open_after_app pid o a b : open_after pid o (a ++ b) = open_after pid (open_after pid o a) b.
Proof. revert o. induction a; intros o; cbn; auto. Qed.

Lemma aborted_ranges_app pid o a b :
  aborted_ranges pid o (a ++ b) = aborted_ranges pid o a ++ aborted_ranges pid (open_after pid o a) b.
Proof.
  revert o. induction a as [|x a IH]; intros o; cbn; [done|].
  destruct (_ =? pid); [|apply IH]. destruct (control x); [|apply IH].
  destruct (marker_of x) as [[]|]; [destruct o; cbn; by rewrite IH|apply IH|apply IH].
Qed.

(** ** The index against the log *)

Lemma index_open log x pid :
  ti_open (index_log marker_of log x) !! pid = open_after pid (ti_open x !! pid) log.
Proof.
  unfold index_log. revert x. induction log as [|b log IH]; intros x; cbn; [done|]. rewrite IH. f_equal.
  unfold index_batch, txn_data, control, on_marker, on_data.
  destruct (Z.eqb_spec (pid_of b) pid) as [<-|Hne].
  - destruct (is_control _); cbn.
    + destruct (marker_of b) as [d|]; [|done].
      destruct (ti_open x !! pid_of b) eqn:Ho; cbn; [by rewrite lookup_delete_eq|done].
    + destruct (is_transactional _); [|done].
      destruct (ti_open x !! pid_of b) eqn:Ho; cbn; [done|by rewrite lookup_insert_eq].
  - destruct (is_control _).
    + destruct (marker_of b) as [d|]; [|done].
      destruct (ti_open x !! pid_of b); cbn; [by rewrite lookup_delete_ne|done].
    + destruct (is_transactional _); [|done].
      destruct (ti_open x !! pid_of b); cbn; [done|by rewrite lookup_insert_ne].
Qed.

Definition ranges_of (pid : Z) (rs : list AbortedRange) : list (Z * Z) :=
  (fun r => (ar_first_offset r, ar_marker_offset r)) <$> filter (fun r => ar_producer_id r = pid) rs.

Lemma ranges_of_app pid a b : ranges_of pid (a ++ b) = ranges_of pid a ++ ranges_of pid b.
Proof. unfold ranges_of. by rewrite filter_app, fmap_app. Qed.

Lemma index_aborted log x pid :
  ranges_of pid (ti_aborted (index_log marker_of log x))
  = ranges_of pid (ti_aborted x) ++ aborted_ranges pid (ti_open x !! pid) log.
Proof.
  unfold index_log. revert x. induction log as [|b log IH]; intros x; cbn -[ranges_of]; [by rewrite app_nil_r|]. rewrite IH.
  pose proof (index_open [b] x pid) as Ho. unfold index_log in Ho. cbn in Ho. rewrite Ho. clear IH Ho.
  unfold index_batch, txn_data, control, on_marker, on_data.
  destruct (Z.eqb_spec (pid_of b) pid) as [<-|Hne].
  - destruct (is_control _); cbn -[ranges_of].
    + destruct (marker_of b) as [d|]; [|done].
      destruct (ti_open x !! pid_of b) eqn:Ho; cbn -[ranges_of]; [|by destruct d].
      destruct d; [|done]. rewrite ranges_of_app, <- app_assoc. f_equal.
      unfold ranges_of. cbn. rewrite decide_True by done. done.
    + destruct (is_transactional _); [|done]. destruct (ti_open x !! pid_of b) eqn:Ho; done.
  - assert (Hap : forall f m, ranges_of pid [MkRange (pid_of b) f m] = [])
      by (intros; unfold ranges_of; cbn; by rewrite decide_False).
    destruct (is_control _); [|by destruct (is_transactional _), (ti_open x !! pid_of b)].
    destruct (marker_of b) as [d|]; [|done].
    destruct (ti_open x !! pid_of b); [|done]. destruct d; cbn -[ranges_of]; [|done].
    by rewrite ranges_of_app, Hap, app_nil_r.
Qed.

(** ** Ranges of an ordered log *)

Definition ordered (log : list RecordBatch) : Prop :=
  StronglySorted (fun a b => base_of a < base_of b) log.

Lemma range_in pid o log f m :
  (f, m) ∈ aborted_ranges pid o log ->
  (o = Some f \/ exists b, b ∈ log /\ base_of b = f) /\ exists b, b ∈ log /\ base_of b = m.
Proof.
  revert o. induction log as [|b log IH]; intros o; cbn; [by intros ?%elem_of_nil|].
  assert (Hrec : forall o', (o' = o \/ o' = None \/ o' = Some (base_of b)) -> (f, m) ∈ aborted_ranges pid o' log ->
    (o = Some f \/ exists b', b' ∈ b :: log /\ base_of b' = f) /\ exists b', b' ∈ b :: log /\ base_of b' = m).
  { intros o' Ho' [Hf (b' & Hb' & Hm)]%IH. split; [|exists b'; split; [by right|done]].
    destruct Hf as [->|(b2 & Hb2 & Hf)]; [|right; exists b2; split; [by right|done]].
    destruct Ho' as [->|[|Hb]]; [by left|done|]. right. exists b. split; [by left|congruence]. }
  destruct (_ =? pid); [|apply Hrec; auto]. destruct (control b).
  - destruct (marker_of b) as [[]|]; [|apply Hrec; auto|apply Hrec; auto].
    destruct o as [f0|]; [|apply Hrec; auto]. intros [[= -> ->]|Hin]%elem_of_cons; [|apply (Hrec None); auto].
    split; [by left|]. exists b. by split; [left|].
  - destruct (txn_data b); [|apply Hrec; auto]. destruct o; apply Hrec; auto.
Qed.

Lemma ranges_sorted pid o log :
  ordered log -> (forall f0 b, o = Some f0 -> b ∈ log -> f0 < base_of b) ->
  StronglySorted Z.lt (aborted_ranges pid o log).*1.
Proof.
  intros Hord. revert o. induction Hord as [|b log Hord IH Hb]; intros o Ho; cbn; [constructor|].
  rewrite Forall_forall in Hb.
  assert (Hrest : forall o', (o' = o \/ o' = None \/ o' = Some (base_of b)) ->
    StronglySorted Z.lt (aborted_ranges pid o' log).*1).
  { intros o' Ho'. apply IH. intros f0 b' -> Hin. destruct Ho' as [<-|[|[= ->]]]; [|done|by apply Hb].
    apply (Ho f0 b' eq_refl). by right. }
  destruct (_ =? pid); [|by apply Hrest; left]. destruct (control b).
  - destruct (marker_of b) as [[]|]; [|by apply Hrest; auto|by apply Hrest; auto].
    destruct o as [f0|]; [|by apply Hrest; auto]. cbn. constructor; [by apply Hrest; auto|].
    apply Forall_forall. intros f' [[f m] [-> Hin]]%list_elem_of_fmap. cbn.
    destruct (range_in pid None log f m Hin) as [[|(b' & Hb' & <-)] _]; [done|].
    apply (Ho f0 b' eq_refl). by right.
  - destruct (txn_data b); [|by apply Hrest; auto]. destruct o; apply Hrest; auto.
Qed.

Lemma abort_head pid f0 log :
  next_decision pid log = Some Abort ->
  exists b X, b ∈ log /\ aborted_ranges pid (Some f0) log = (f0, base_of b) :: X.
Proof.
  induction log as [|b log IH]; cbn; [done|].
  destruct (_ =? pid); cbn [andb]; [destruct (control b); [destruct (marker_of b) as [[]|]|]|]; intros H; try done.
  - exists b. eexists. split; [by left|done].
  - destruct (IH H) as (b' & X & Hin & ->). exists b', X. split; [by right|done].
  - destruct (IH H) as (b' & X & Hin & Heq). exists b', X. split; [by right|]. by destruct (txn_data b).
  - destruct (IH H) as (b' & X & Hin & ->). exists b', X. split; [by right|done].
Qed.

Lemma commit_ranges pid f0 log f m :
  next_decision pid log = Some Commit -> (f, m) ∈ aborted_ranges pid (Some f0) log ->
  exists b, b ∈ log /\ base_of b = f.
Proof.
  induction log as [|b log IH]; cbn; [done|].
  assert (Hrec : next_decision pid log = Some Commit -> (f, m) ∈ aborted_ranges pid (Some f0) log ->
    exists b', b' ∈ b :: log /\ base_of b' = f).
  { intros H Hin. destruct (IH H Hin) as (b' & Hb' & Hf). exists b'. split; [by right|done]. }
  destruct (_ =? pid); cbn [andb]; [destruct (control b); [destruct (marker_of b) as [[]|]|]|]; intros H; try done; auto.
  - intros Hin. destruct (range_in pid None log f m Hin) as [[|(b' & Hb' & Hf)] _]; [done|].
    exists b'. split; [by right|done].
  - destruct (txn_data b); auto.
Qed.

(** ** The tracker against the ranges *)

Definition firsts_of (t : AbortedTracker) (pid : Z) : list Z := default [] (tk_firsts t !! pid).
Definition next_of (t : AbortedTracker) (pid : Z) : nat := default 0%nat (tk_next t !! pid).

Lemma push_all l m pid :
  default [] (foldl push_first m l !! pid)
  = default [] (m !! pid) ++ (at_first_offset <$> filter (fun a => at_producer_id a = pid) l).
Proof.
  revert m. induction l as [|a l IH]; intros m; cbn; [by rewrite app_nil_r|]. rewrite IH. unfold push_first.
  destruct (decide (at_producer_id a = pid)) as [<-|Hne].
  - rewrite lookup_insert_eq. cbn. by rewrite <- app_assoc.
  - by rewrite lookup_insert_ne.
Qed.

Lemma sorted_filter f (l : list (Z * Z)) :
  StronglySorted Z.lt l.*1 -> StronglySorted Z.le (filter (fun r => f < r.2) l).*1.
Proof.
  induction l as [|r l IH]; cbn; [constructor|]. intros [Hs Hr]%StronglySorted_inv.
  case_decide; [|auto]. cbn. constructor; [auto|]. rewrite Forall_forall in Hr |- *.
  intros z (r' & -> & Hin)%list_elem_of_fmap. apply list_elem_of_filter in Hin as [_ Hin].
  apply Z.lt_le_incl, Hr, list_elem_of_fmap. eauto.
Qed.

Lemma new_tracker_firsts f x pid :
  StronglySorted Z.lt (ranges_of pid (ti_aborted x)).*1 ->
  firsts_of (new_tracker (aborted_transactions f x)) pid
  = (filter (fun r => f < r.2) (ranges_of pid (ti_aborted x))).*1.
Proof.
  intros Hs. unfold firsts_of, new_tracker. cbn. rewrite lookup_fmap.
  set (l := aborted_transactions f x).
  assert (Hm : default [] (merge_sort Z.le <$> (foldl push_first ∅ l !! pid))
    = merge_sort Z.le (default [] (foldl push_first ∅ l !! pid))) by by destruct (_ !! pid).
  rewrite Hm, push_all, lookup_empty. cbn [default app].
  apply (StronglySorted_unique Z.le).
  - apply StronglySorted_merge_sort; apply _.
  - by apply sorted_filter.
  - rewrite merge_sort_Permutation. subst l. unfold aborted_transactions. rewrite merge_sort_Permutation.
    clear. generalize (ti_aborted x). intros rs. induction rs as [|r rs IH]; [done|].
    unfold ranges_of in *. cbn. repeat case_decide; cbn; repeat case_decide; cbn in *; try done; try lia.
    by rewrite IH.
Qed.

(** ** The filter *)

(** [pid] shows itself in the window before the marker of its open transaction, unless that marker
    is the first offset asked for. *)
Fixpoint reached (fetch pid : Z) (window : list RecordBatch) : Prop :=
  match window with
  | [] => True
  | b :: rest =>
      if pid_of b =? pid
      then if control b then base_of b <= fetch
           else if txn_data b then True else reached fetch pid rest
      else reached fetch pid rest
  end.

(** Every batch of data in the window belongs to a decided transaction, or to none. *)
Fixpoint decided_window (window later : list RecordBatch) : Prop :=
  match window with
  | [] => True
  | b :: rest =>
      (txn_data b = true -> next_decision (pid_of b) (rest ++ later) <> None) /\ decided_window rest later
  end.

Definition markers_parse (log : list RecordBatch) : Prop :=
  forall b, b ∈ log -> control b = true -> marker_of b <> None.

(** What the tracker knows at a point of the window. *)
Record tracks (fetch : Z) (open : Z -> option Z) (window later : list RecordBatch) (t : AbortedTracker)
    (pid : Z) : Prop := {
  tr_firsts : drop (next_of t pid) (firsts_of t pid)
    = (filter (fun r => fetch < r.2) (aborted_ranges pid (open pid) (window ++ later))).*1;
  tr_active : pid ∈ tk_active t -> is_Some (open pid) /\ next_decision pid (window ++ later) = Some Abort /\
    forall b, b ∈ window ++ later -> fetch < base_of b;
  tr_idle : pid ∉ tk_active t -> is_Some (open pid) -> next_decision pid (window ++ later) = Some Abort ->
    reached fetch pid window;
  tr_before : forall f0 b, open pid = Some f0 -> b ∈ window ++ later -> f0 < base_of b;
}.

(** A batch that says nothing about [pid]. *)
Lemma tracks_skip fetch open open' b window later t t' pid :
  open' pid = open pid ->
  (pid_of b <> pid \/ control b = false /\ txn_data b = false) ->
  next_of t' pid = next_of t pid -> firsts_of t' pid = firsts_of t pid ->
  (pid ∈ tk_active t' <-> pid ∈ tk_active t) ->
  tracks fetch open (b :: window) later t pid -> tracks fetch open' window later t' pid.
Proof.
  intros Ho Hb Hn Hf Ha [H1 H2 H3 H4].
  assert (Hr : aborted_ranges pid (open pid) (b :: window ++ later) = aborted_ranges pid (open pid) (window ++ later)).
  { cbn. destruct (Z.eqb_spec (pid_of b) pid); [|done]. destruct Hb as [|[-> ->]]; done. }
  assert (Hd : next_decision pid (b :: window ++ later) = next_decision pid (window ++ later)).
  { cbn. destruct (Z.eqb_spec (pid_of b) pid); [|done]. destruct Hb as [|[-> _]]; done. }
  cbn [app] in *. split; rewrite ?Ho, ?Hn, ?Hf, <- ?Hr, <- ?Hd.
  - exact H1.
  - intros Hin%Ha. destruct (H2 Hin) as (A & B & C). split_and!; try done. intros b' Hb'. apply C. by right.
  - intros Hn' Hs Hdec. specialize (H3 ltac:(tauto) Hs Hdec). cbn in H3.
    destruct (Z.eqb_spec (pid_of b) pid); [|done]. destruct Hb as [|[Hc Ht]]; [done|]. by rewrite Hc, Ht in H3.
  - intros f0 b' Hf0 Hin. apply (H4 f0 b' Hf0). by right.
Qed.

(** The marker of [pid]. *)
Lemma tracks_marker fetch open b window later t d :
  control b = true -> marker_of b = Some d -> fetch <= base_of b ->
  ordered (b :: window ++ later) ->
  tracks fetch open (b :: window) later t (pid_of b) ->
  tracks fetch (<[pid_of b := None]> open) window later (tracker_on_marker (pid_of b) t) (pid_of b).
Proof.
  intros Hc Hm Hle Hord [H1 H2 H3 H4]. set (p := pid_of b) in *.
  assert (Ho : <[p := None]> open p = None) by apply fn_lookup_insert.
  assert (Hdec : next_decision p ((b :: window) ++ later) = Some d).
  { cbn. subst p. by rewrite Z.eqb_refl, Hc, Hm. }
  unfold tracker_on_marker. destruct (decide (p ∈ tk_active t)) as [Ha|Ha].
  - rewrite bool_decide_eq_true_2 by done. destruct (H2 Ha) as ([f0 Hf0] & Habort & Hlt).
    assert (d = Abort) as -> by congruence. cbn [app aborted_ranges] in H1. subst p.
    rewrite Z.eqb_refl, Hc, Hm, Hf0 in H1. cbn in H1.
    rewrite decide_True in H1 by (apply Hlt; by left). cbn in H1.
    split; cbn; rewrite ?Ho; try done.
    + unfold next_of. cbn. rewrite lookup_insert_eq. cbn. change (firsts_of _ (pid_of b)) with (firsts_of t (pid_of b)).
      change (default 0%nat (tk_next t !! pid_of b)) with (next_of t (pid_of b)).
      replace (S (next_of t (pid_of b))) with (next_of t (pid_of b) + 1)%nat by lia.
      rewrite <- drop_drop, H1. done.
    + intros []%elem_of_difference. set_solver.
  - rewrite bool_decide_eq_false_2 by done. split; rewrite ?Ho; try done.
    rewrite H1. cbn [app aborted_ranges]. subst p. rewrite Z.eqb_refl, Hc, Hm.
    destruct d; [|by destruct (open (pid_of b))]. destruct (open (pid_of b)) as [f0|] eqn:Hf0; [|done].
    cbn. rewrite decide_False; [done|]. specialize (H3 Ha (mk_is_Some _ _ eq_refl) Hdec).
    cbn in H3. rewrite Z.eqb_refl, Hc in H3. lia.
Qed.

(** The data of a transaction of [pid]: the tracker calls it aborted exactly when it is. *)
Lemma tracks_data fetch open b window later t :
  control b = false -> txn_data b = true -> fetch <= base_of b ->
  ordered (b :: window ++ later) ->
  next_decision (pid_of b) (window ++ later) <> None ->
  tracks fetch open (b :: window) later t (pid_of b) ->
  let '(aborted, t') := is_aborted (pid_of b) (base_of b) t in
  tracks fetch (<[pid_of b := Some (default (base_of b) (open (pid_of b)))]> open) window later t' (pid_of b) /\
  aborted = bool_decide (next_decision (pid_of b) (window ++ later) = Some Abort) /\
  (forall q, q <> pid_of b -> next_of t' q = next_of t q /\ firsts_of t' q = firsts_of t q /\
     (q ∈ tk_active t' <-> q ∈ tk_active t)).
Proof.
  intros Hc Ht Hle Hord Hdec [H1 H2 H3 H4]. set (p := pid_of b) in *.
  apply StronglySorted_inv in Hord as [Hord Hb]. rewrite Forall_forall in Hb.
  set (f0 := default (base_of b) (open p)).
  assert (Ho : <[p := Some f0]> open p = Some f0) by apply fn_lookup_insert.
  assert (Hr : aborted_ranges p (open p) ((b :: window) ++ later) = aborted_ranges p (Some f0) (window ++ later)).
  { cbn. subst p f0. by rewrite Z.eqb_refl, Hc, Ht. }
  assert (Hnd : next_decision p ((b :: window) ++ later) = next_decision p (window ++ later)).
  { cbn. subst p. by rewrite Z.eqb_refl, Hc. }
  assert (Hf0 : f0 <= base_of b).
  { subst f0. destruct (open p) as [f|] eqn:Hf; [|done]. cbn.
    assert (f < base_of b) by (apply (H4 f b eq_refl); by left). lia. }
  assert (Hbefore : forall f b', <[p := Some f0]> open p = Some f -> b' ∈ window ++ later -> f < base_of b').
  { intros f b' Hf Hb'. rewrite Ho in Hf. assert (f0 = f) as <- by congruence. specialize (Hb b' Hb'). cbn in Hb. lia. }
  assert (Hlt : forall b', b' ∈ window ++ later -> fetch < base_of b').
  { intros b' Hb'. specialize (Hb b' Hb'). cbn in Hb. lia. }
  rewrite Hr in H1. rewrite Hnd in H2, H3. unfold is_aborted.
  destruct (decide (p ∈ tk_active t)) as [Ha|Ha].
  - rewrite (bool_decide_eq_true_2 (p ∈ _)) by done. destruct (H2 Ha) as (_ & Habort & _).
    rewrite bool_decide_eq_true_2 by done. split_and!; [|by rewrite bool_decide_eq_true_2|done].
    split; [by rewrite Ho|rewrite Ho; intros _; by split_and!|done|exact Hbefore].
  - rewrite (bool_decide_eq_false_2 (p ∈ _)) by done.
    assert (Hlook : forall A (k : Z -> A) (n : A),
      match tk_firsts t !! p with
      | Some offsets => match offsets !! default 0%nat (tk_next t !! p) with Some x => k x | None => n end
      | None => n end = match head (drop (next_of t p) (firsts_of t p)) with Some x => k x | None => n end).
    { intros A k n. unfold firsts_of, next_of. clear. destruct (tk_firsts t !! p) as [offsets|]; cbn.
      - rewrite head_lookup, lookup_drop, Nat.add_0_r. done.
      - by rewrite drop_nil. }
    rewrite Hlook, H1. destruct (next_decision p (window ++ later)) as [[]|] eqn:Hd; [| |done].
    + destruct (abort_head p f0 (window ++ later) Hd) as (bm & X & Hbm & HX). rewrite HX. cbn.
      rewrite decide_True by by apply Hlt. cbn. rewrite (proj2 (Z.leb_le _ _)) by done. cbn.
      rewrite bool_decide_eq_true_2 by set_solver. split_and!; [|done|intros q Hq; set_solver].
      split; [rewrite Ho; exact H1|rewrite Ho, Hd; intros _; by split_and!|cbn; set_solver|exact Hbefore].
    + assert (Hhead : match head (filter (fun r => fetch < r.2) (aborted_ranges p (Some f0) (window ++ later))).*1 with
        | Some x => if x <=? base_of b then MkTracker (tk_firsts t) (tk_next t) ({[ p ]} ∪ tk_active t) else t
        | None => t end = t).
      { destruct (filter _ _) as [|[f m] X] eqn:HX; [done|]. cbn.
        assert (Hin : (f, m) ∈ filter (fun r => fetch < r.2) (aborted_ranges p (Some f0) (window ++ later)))
          by (rewrite HX; by left).
        apply list_elem_of_filter in Hin as [_ Hin].
        destruct (commit_ranges p f0 _ f m Hd Hin) as (b' & Hb' & <-). specialize (Hb b' Hb'). cbn in Hb.
        by rewrite (proj2 (Z.leb_gt _ _)) by lia. }
      rewrite Hhead. rewrite bool_decide_eq_false_2 by done. split_and!; [|done|done].
      split; [by rewrite Ho|done|by rewrite Hd|exact Hbefore].
Qed.

Lemma filter_loop_view fetch window later open t :
  ordered (window ++ later) -> (forall b, b ∈ window -> fetch <= base_of b) ->
  markers_parse window -> decided_window window later ->
  (forall pid, tracks fetch open window later t pid) ->
  filter_loop window t = committed_view window later.
Proof.
  revert open t. induction window as [|b window IH]; intros open t Hord Hge Hmk Hdec Htr; [done|].
  assert (Hord' : ordered (window ++ later)) by (by apply StronglySorted_inv in Hord as [? _]).
  assert (Hge' : forall b', b' ∈ window -> fetch <= base_of b') by (intros; apply Hge; by right).
  assert (Hmk' : markers_parse window) by (intros b' Hin; apply Hmk; by right).
  destruct Hdec as [Hd Hdec]. assert (Hb : fetch <= base_of b) by (apply Hge; by left).
  cbn [filter_loop committed_view]. change (is_control (h_attrs (b_header b))) with (control b).
  destruct (control b) eqn:Hc.
  - destruct (marker_of b) as [d|] eqn:Hm; [|by destruct (Hmk b ltac:(by left) Hc)]. cbn [app].
    apply (IH (<[pid_of b := None]> open)); try done. intros q. destruct (decide (q = pid_of b)) as [->|Hq].
    + by eapply tracks_marker.
    + eapply tracks_skip; [by rewrite fn_lookup_insert_ne|by left| | | |apply Htr];
        unfold tracker_on_marker; case_bool_decide; try done.
      * unfold next_of. cbn. by rewrite lookup_insert_ne.
      * cbn. set_solver.
  - assert (Htd : txn_data b = is_transactional (h_attrs (b_header b))) by (unfold txn_data; by rewrite Hc).
    rewrite <- Htd. destruct (txn_data b) eqn:Ht.
    + specialize (Hd eq_refl).
      pose proof (tracks_data fetch open b window later t Hc Ht Hb Hord Hd (Htr _)) as Hstep.
      destruct (is_aborted (pid_of b) (base_of b) t) as [ab t'] eqn:Hab.
      destruct Hstep as (Hp & -> & Hothers). f_equal.
      * destruct (next_decision (pid_of b) (window ++ later)) as [[]|]; done.
      * apply (IH (<[pid_of b := Some (default (base_of b) (open (pid_of b)))]> open)); try done.
        intros q. destruct (decide (q = pid_of b)) as [->|Hq]; [done|].
        destruct (Hothers q Hq) as (A & B & C).
        eapply tracks_skip; [by rewrite fn_lookup_insert_ne|by left|exact A|exact B|exact C|apply Htr].
    + cbn [app]. f_equal. apply (IH open); try done. intros q.
      eapply tracks_skip; [done|by right|done|done|done|apply Htr].
Qed.

(** ** The last stable offset *)

Lemma open_stays pid f log : next_decision pid log = None -> open_after pid (Some f) log = Some f.
Proof.
  induction log as [|b log IH]; cbn; [done|].
  destruct (_ =? pid); cbn [andb]; [destruct (control b); [destruct (marker_of b)|]|]; intros H; auto; [done|].
  destruct (txn_data b); auto.
Qed.

Lemma open_after_split pid o log f :
  open_after pid o log = Some f ->
  o = Some f /\ next_decision pid log = None \/
  exists l1 b l2, log = l1 ++ b :: l2 /\ txn_data b = true /\ pid_of b = pid /\ base_of b = f /\
    next_decision pid l2 = None.
Proof.
  revert o. induction log as [|b log IH]; intros o; cbn; [by left|]. intros [[Ho Hn]|Hr]%IH.
  - destruct (Z.eqb_spec (pid_of b) pid) as [Hp|]; cbn [andb]; [|by left].
    destruct (control b) eqn:Hc.
    + destruct (marker_of b); [done|]. by left.
    + destruct (txn_data b) eqn:Ht; [|by left]. destruct o as [f'|]; cbn in Ho; [by left|].
      right. exists [], b, log. split_and!; try done. congruence.
  - right. destruct Hr as (l1 & b' & l2 & -> & Hr). exists (b :: l1), b', l2. done.
Qed.

Lemma min_fold l m :
  let r := foldl (fun lso (p : Z * Z) => Z.min lso p.2) m l in
  r <= m /\ (forall p, p ∈ l -> r <= p.2) /\ (r < m -> exists p, p ∈ l /\ p.2 = r).
Proof.
  cbv zeta. revert m. induction l as [|q l IH]; intros m; cbn.
  - split_and!; [lia|by intros p ?%elem_of_nil|lia].
  - destruct (IH (Z.min m q.2)) as (H1 & H2 & H3). split_and!.
    + lia.
    + intros p [->|Hp]%elem_of_cons; [lia|auto].
    + intros Hlt. destruct (Z.eq_dec (foldl (fun lso (p : Z * Z) => Z.min lso p.2) (Z.min m q.2) l) (Z.min m q.2)) as [He|].
      * exists q. split; [by left|]. lia.
      * destruct H3 as (p & Hp & Hr); [lia|]. exists p. split; [by right|done].
Qed.

Lemma lso_spec hw x :
  last_stable_offset hw x <= hw /\
  (forall pid f, ti_open x !! pid = Some f -> last_stable_offset hw x <= f) /\
  (last_stable_offset hw x < hw -> exists pid, ti_open x !! pid = Some (last_stable_offset hw x)).
Proof.
  unfold last_stable_offset. destruct (min_fold (map_to_list (ti_open x)) hw) as (H1 & H2 & H3). cbv zeta in *.
  split_and!; [done| |].
  - intros pid f Hf. apply (H2 (pid, f)). by apply elem_of_map_to_list.
  - intros Hlt. destruct (H3 Hlt) as ([pid f] & Hin & Hr). exists pid. cbn in Hr. rewrite <- Hr.
    by apply elem_of_map_to_list.
Qed.

Lemma undecided_open log l1 b l2 :
  ordered log -> log = l1 ++ b :: l2 -> txn_data b = true -> next_decision (pid_of b) l2 = None ->
  exists f, open_after (pid_of b) None log = Some f /\ f <= base_of b.
Proof.
  intros Hord -> Ht Hn. rewrite open_after_app. cbn. rewrite Z.eqb_refl, Ht.
  assert (Hc : control b = false) by (unfold txn_data in Ht; destruct (control b); done). rewrite Hc.
  eexists. split; [by apply open_stays|].
  destruct (open_after (pid_of b) None l1) as [f|] eqn:Ho; [|done]. cbn.
  destruct (open_after_split _ _ _ _ Ho) as [[]|(a1 & b' & a2 & -> & _ & _ & <- & _)]; [done|].
  unfold ordered in Hord. apply StronglySorted_app in Hord as (Hx & _).
  specialize (Hx b' b). cbn in Hx. assert (base_of b' < base_of b); [|lia]. apply Hx; [|by left].
  apply elem_of_app. right. by left.
Qed.

(** The last stable offset is the frontier of what is decided: it is at most the high watermark,
    every transactional batch below it belongs to a transaction whose marker is in the log, and
    when it is below the watermark a transaction that is still open starts right there. *)
Theorem lso_is_decided_frontier (log : list RecordBatch) (high_watermark : Z) (Hord : ordered log) :
  let lso := last_stable_offset high_watermark (index_log marker_of log empty_txn_index) in
  lso <= high_watermark /\
  (forall l1 b l2, log = l1 ++ b :: l2 -> txn_data b = true -> base_of b < lso ->
     next_decision (pid_of b) l2 <> None) /\
  (lso < high_watermark -> exists l1 b l2, log = l1 ++ b :: l2 /\ txn_data b = true /\ base_of b = lso /\
     next_decision (pid_of b) l2 = None).
Proof.
  cbv zeta. set (x := index_log marker_of log empty_txn_index).
  assert (Hopen : forall pid, ti_open x !! pid = open_after pid None log).
  { intros pid. subst x. rewrite index_open. cbn. by rewrite lookup_empty. }
  destruct (lso_spec high_watermark x) as (H1 & H2 & H3). split_and!; [done| |].
  - intros l1 b l2 Hlog Ht Hlt Hn.
    destruct (undecided_open log l1 b l2 Hord Hlog Ht Hn) as (f & Hf & Hle).
    rewrite <- Hopen in Hf. specialize (H2 _ _ Hf). lia.
  - intros Hlt. destruct (H3 Hlt) as [pid Hp]. rewrite Hopen in Hp.
    destruct (open_after_split _ _ _ _ Hp) as [[]|(l1 & b & l2 & ? & ? & <- & ? & ?)]; [done|].
    by exists l1, b, l2.
Qed.

(** ** Read-committed fetches *)

Lemma decided_below pre window later lso :
  ordered (pre ++ window ++ later) ->
  (forall pid f, open_after pid None (pre ++ window ++ later) = Some f -> lso <= f) ->
  (forall b, b ∈ window -> base_of b < lso) -> decided_window window later.
Proof.
  revert pre. induction window as [|b window IH]; intros pre Hord Hopen Hlt; cbn; [done|]. split.
  - intros Ht Hn. destruct (undecided_open _ pre b (window ++ later) Hord eq_refl Ht Hn) as (f & Hf & Hle).
    specialize (Hopen _ _ Hf). specialize (Hlt b ltac:(by left)). cbn in Hlt. lia.
  - apply (IH (pre ++ [b])); [by rewrite <- app_assoc|by rewrite <- app_assoc|]. intros; apply Hlt; by right.
Qed.

(** C12. A read-committed fetch.  The log is split at the offset asked for and at the end of what is
    returned, which is below the last stable offset.  Unless an aborted transaction that started
    before the fetch leaves nothing in it but its marker, filtering the window with the aborted
    transactions of the index delivers exactly the committed view: no marker, no aborted data,
    and all the rest. *)
Theorem read_committed_exact (pre window later : list RecordBatch) (fetch high_watermark : Z)
    (Hord : ordered (pre ++ window ++ later))
    (Hpre : forall b, b ∈ pre -> base_of b < fetch) (Hwin : forall b, b ∈ window -> fetch <= base_of b)
    (Hmarkers : markers_parse window)
    (Hlso : forall b, b ∈ window -> base_of b <
       last_stable_offset high_watermark (index_log marker_of (pre ++ window ++ later) empty_txn_index))
    (Hreached : forall pid, is_Some (open_after pid None pre) ->
       next_decision pid (window ++ later) = Some Abort -> reached fetch pid window) :
  filter_committed window
    (aborted_transactions fetch (index_log marker_of (pre ++ window ++ later) empty_txn_index))
  = committed_view window later.
Proof.
  set (log := pre ++ window ++ later) in *. set (x := index_log marker_of log empty_txn_index) in *.
  assert (Hopen : forall pid, ti_open x !! pid = open_after pid None log).
  { intros pid. subst x. rewrite index_open. cbn. by rewrite lookup_empty. }
  assert (Hranges : forall pid, ranges_of pid (ti_aborted x) = aborted_ranges pid None log).
  { intros pid. subst x. rewrite index_aborted. cbn. by rewrite lookup_empty. }
  destruct (lso_spec high_watermark x) as (_ & Hl & _).
  unfold filter_committed. apply (filter_loop_view fetch window later (fun pid => open_after pid None pre)); try done.
  - unfold ordered in *. subst log. by apply StronglySorted_app in Hord as (_ & _ & ?).
  - eapply (decided_below pre window later); [done| |exact Hlso].
    intros pid f Hf. apply (Hl pid f). by rewrite Hopen.
  - intros pid. assert (Hbefore : forall f0 b, open_after pid None pre = Some f0 -> b ∈ window ++ later -> f0 < base_of b).
    { intros f0 b Hf0 Hb. destruct (open_after_split _ _ _ _ Hf0) as [[]|(l1 & b' & l2 & -> & _ & _ & <- & _)]; [done|].
      unfold ordered in Hord. subst log. apply StronglySorted_app in Hord as (Hx & _). apply (Hx b' b); [|done].
      apply elem_of_app. right. by left. }
    split.
    + change (next_of _ pid) with 0%nat. rewrite drop_0, new_tracker_firsts.
      * rewrite Hranges. subst log. rewrite aborted_ranges_app, filter_app.
        assert (Hnil : filter (fun r => fetch < r.2) (aborted_ranges pid None pre) = []).
        { destruct (filter _ _) as [|[f m] X] eqn:HX; [done|].
          assert (Hin : (f, m) ∈ filter (fun r => fetch < r.2) (aborted_ranges pid None pre)) by (rewrite HX; by left).
          apply list_elem_of_filter in Hin as [Hgt Hin]. destruct (range_in _ _ _ _ _ Hin) as [_ (b & Hb & <-)].
          specialize (Hpre b Hb). cbn in Hgt. lia. }
        by rewrite Hnil.
      * rewrite Hranges. by apply ranges_sorted.
    + cbn. set_solver.
    + intros _. by apply Hreached.
    + exact Hbefore.
Qed.
End Index.

(** ** Concrete logs *)

(** The decision of a control batch, in a build without compression. *)
Definition plain_marker (b : RecordBatch) : option ControlRecordType :=
  match parse_control_batch false false (fun _ _ => None) (fun _ _ => None) b with
  | Ok m => Some (mk_type m)
  | Err _ => None
  end.

Definition at_offset (base : Z) (b : RecordBatch) : RecordBatch :=
  let h := b_header b in
  MkBatch (MkHeader base (h_attrs h) (h_producer_id h) (h_producer_epoch h) (h_base_sequence h) (h_record_count h))
    (b_records b).
Definition txn_batch (pid base : Z) : RecordBatch := MkBatch (MkHeader base kTransactionalAttr pid 0 0 1) [1].
Definition plain_batch (pid base : Z) : RecordBatch := MkBatch (MkHeader base 0 pid 0 0 1) [1].
Definition marker_batch (pid base : Z) (d : ControlRecordType) : RecordBatch :=
  at_offset base (build_control_batch false false (fun _ => None) (fun _ => None) (MkMarker d 0 0) pid 0).

(** Producer 7 aborts and then commits, producer 8 stays open. *)
Definition mixed_log : list RecordBatch :=
  [txn_batch 7 0; txn_batch 7 1; marker_batch 7 2 Abort; plain_batch 9 3; txn_batch 7 4; marker_batch 7 5 Commit;
   txn_batch 8 6; plain_batch 9 7].

Lemma mixed_log_ordered : ordered mixed_log.
Proof. repeat (constructor; [|repeat constructor]). constructor. Qed.

Lemma lso_is_decided_frontier_witness :
  let lso := last_stable_offset 8 (index_log plain_marker mixed_log empty_txn_index) in
  lso = 6 /\ exists l1 b l2, mixed_log = l1 ++ b :: l2 /\ h_base_offset (b_header b) = 6 /\
    next_decision plain_marker (h_producer_id (b_header b)) l2 = None.
Proof.
  assert (Hl : last_stable_offset 8 (index_log plain_marker mixed_log empty_txn_index) = 6) by (vm_compute; reflexivity).
  pose proof (lso_is_decided_frontier plain_marker mixed_log 8 mixed_log_ordered) as H. cbv zeta in H |- *.
  rewrite Hl in H |- *. split; [reflexivity|]. destruct H as (_ & _ & H).
  destruct (H ltac:(reflexivity)) as (l1 & b & l2 & H1 & _ & H2 & H3). exists l1, b, l2. split; [exact H1|].
  split; [exact H2|exact H3].
Defined.

Lemma read_committed_exact_witness :
  filter_committed (take 5 (drop 1 mixed_log))
    (aborted_transactions 1 (index_log plain_marker mixed_log empty_txn_index))
  = [plain_batch 9 3; txn_batch 7 4].
Proof.
  assert (Hpre : forall b, b ∈ take 1 mixed_log -> h_base_offset (b_header b) < 1).
  { apply Forall_forall. repeat constructor. }
  assert (Hwin : forall b, b ∈ take 5 (drop 1 mixed_log) -> 1 <= h_base_offset (b_header b)).
  { apply Forall_forall. repeat (constructor; [discriminate|]). constructor. }
  assert (Hmk : markers_parse plain_marker (take 5 (drop 1 mixed_log))).
  { unfold markers_parse. apply (proj1 (Forall_forall (fun b => control b = true -> plain_marker b <> None) _)).
    repeat (constructor; [vm_compute; discriminate|]). constructor. }
  assert (Hlso : forall b, b ∈ take 5 (drop 1 mixed_log) -> h_base_offset (b_header b) <
    last_stable_offset 8 (index_log plain_marker (take 1 mixed_log ++ take 5 (drop 1 mixed_log) ++ drop 6 mixed_log)
      empty_txn_index)).
  { apply Forall_forall. repeat (constructor; [vm_compute; reflexivity|]). constructor. }
  assert (Hreach : forall pid, is_Some (open_after plain_marker pid None (take 1 mixed_log)) ->
    next_decision plain_marker pid (take 5 (drop 1 mixed_log) ++ drop 6 mixed_log) = Some Abort ->
    reached 1 pid (take 5 (drop 1 mixed_log))).
  { intros pid Hs _. destruct (decide (pid = 7)) as [->|Hne]; [exact I|]. exfalso.
    cbn [take mixed_log open_after] in Hs. rewrite (proj2 (Z.eqb_neq _ _)) in Hs by (intros E; apply Hne; symmetry; exact E).
    destruct Hs as [? [=]]. }
  pose proof (read_committed_exact plain_marker (take 1 mixed_log) (take 5 (drop 1 mixed_log)) (drop 6 mixed_log) 1 8
    mixed_log_ordered Hpre Hwin Hmk Hlso Hreach) as H.
  change (take 1 mixed_log ++ take 5 (drop 1 mixed_log) ++ drop 6 mixed_log) with mixed_log in H.
  rewrite H. vm_compute. reflexivity.
Defined.

(** Committed data can be dropped.  Producer 7 aborts a transaction whose data is before the
    fetch and whose marker is after, then commits another one: the tracker is still waiting for
    the aborted transaction to show data when its marker passes, so it takes the data of the
    committed transaction for it. *)
Theorem committed_data_filtered_out :
  let log := [txn_batch 7 0; plain_batch 9 1; marker_batch 7 2 Abort; txn_batch 7 3; marker_batch 7 4 Commit] in
  let index := index_log plain_marker log empty_txn_index in
  last_stable_offset 5 index = 5 /\
  committed_view plain_marker (drop 1 log) [] = [plain_batch 9 1; txn_batch 7 3] /\
  filter_committed (drop 1 log) (aborted_transactions 1 index) = [plain_batch 9 1].
Proof. vm_compute. done. Qed.
