(* ===== verification/SegmentCrypto.v ===== *)
(** * Encryption at rest

    Models the formats of [src/src/storage/segment_crypto.hpp] and [segment_crypto.cpp]: the
    header of an encrypted segment, the frame of an encrypted block and the key in hexadecimal.
    OpenSSL is not part of the sources: the key derivation and AES-256-GCM are the operations of
    a class, with the laws the code relies on (of a build without OpenSSL, every one of them
    answers [Unsupported]). *)
From Stdlib Require Import ZArith Lia.
From stdpp Require Import base list strings.
From S2P Require Import Prelude Bytes.
#[local] Open Scope Z_scope.

(** What the code asks of OpenSSL: HKDF-SHA256 of a key and a salt, AES-256-GCM sealing of a
    plaintext (key, nonce, authenticated data; it answers the ciphertext and the tag) and its
    opening. *)
Class Crypto := {
  crypto_available : bool;
  derive_segment_dek : list byte -> list byte -> expected (list byte);
  aes_gcm_encrypt : list byte -> list byte -> list byte -> list byte -> expected (list byte * list byte);
  aes_gcm_decrypt : list byte -> list byte -> list byte -> list byte -> list byte -> expected (list byte);
}.

Definition kEncKeyBytes : nat := 32.
Definition kEncNonceBytes : nat := 12.
Definition kEncTagBytes : nat := 16.
Definition kEncSaltBytes : nat := 16.
Definition kEncSegmentHeaderSize : nat := 32.
Definition kEncBlockHeaderSize : nat := 1 + 1 + 8 + 4 + 4 + kEncNonceBytes + kEncTagBytes.

(** ["NXSEG1"] and two zeros. *)
Definition kEncSegmentMagic : list byte := [78; 88; 83; 69; 71; 49; 0; 0].

(** Sealing and opening agree, and the sizes are those of GCM. *)
Class CryptoLaws `{!Crypto} := {
  seal_open : forall dek nonce aad plain ct tag,
    aes_gcm_encrypt dek nonce aad plain = Ok (ct, tag) -> aes_gcm_decrypt dek nonce aad ct tag = Ok plain;
  seal_sizes : forall dek nonce aad plain ct tag,
    aes_gcm_encrypt dek nonce aad plain = Ok (ct, tag) -> length ct = length plain /\ length tag = kEncTagBytes;
  open_sizes : forall dek nonce aad ct tag plain,
    aes_gcm_decrypt dek nonce aad ct tag = Ok plain -> length plain = length ct;
}.

(** A build without OpenSSL. *)
Definition no_openssl {A} : expected A :=
  make_error Unsupported "cifrado no disponible: broker compilado sin OpenSSL".

Definition crypto_absent : Crypto :=
  {| crypto_available := false; derive_segment_dek _ _ := no_openssl; aes_gcm_encrypt _ _ _ _ := no_openssl;
     aes_gcm_decrypt _ _ _ _ _ := no_openssl |}.

(** ** Positions of the fields *)

Definition kBlkBaseOffsetPos : nat := 2.
Definition kBlkRecordCountPos : nat := 10.
Definition kBlkCtLenPos : nat := 14.
Definition kBlkNoncePos : nat := 18.
Definition kBlkTagPos : nat := 30.
Definition kBlkAadLen : nat := kBlkTagPos.
Definition kBlockVersion : Z := 1.
Definition kSegVersionPos : nat := 8.
Definition kSegSaltPos : nat := 12.
Definition kSegmentVersion : Z := 1.
Definition kKdfHkdfSha256 : Z := 1.
Definition kCipherAes256Gcm : Z := 1.

(** ** Keys *)

(** [hex_nibble], on the code of the character. *)
Definition hex_nibble (c : Z) : option Z :=
  if (48 <=? c) && (c <=? 57) then Some (c - 48)
  else if (97 <=? c) && (c <=? 102) then Some (c - 97 + 10)
  else if (65 <=? c) && (c <=? 70) then Some (c - 65 + 10)
  else None.

(** The loop of [from_hex]. *)
Fixpoint hex_pairs (hex : list Z) : option (list byte) :=
  match hex with
  | h :: l :: rest =>
      match hex_nibble h, hex_nibble l, hex_pairs rest with
      | Some high, Some low, Some bytes => Some (Z.lor (Z.shiftl high 4) low :: bytes)
      | _, _, _ => None
      end
  | _ => Some []
  end.

Section Crypto.
Context `{!Crypto}.

(** [EncryptionKey::from_bytes]. *)
Definition key_from_bytes (key : list byte) : expected (list byte) :=
  if negb (length key =? kEncKeyBytes)%nat
  then make_error InvalidArgument "clave de cifrado: se esperan 32 bytes"
  else if crypto_available then Ok key else no_openssl.

Definition key_from_hex (hex : list Z) : expected (list byte) :=
  if negb (length hex =? kEncKeyBytes * 2)%nat
  then make_error InvalidArgument "clave de cifrado: se esperan 64 dígitos hexadecimales (256 bits)"
  else match hex_pairs hex with
       | None => make_error InvalidArgument "clave de cifrado: dígito no hexadecimal"
       | Some material => key_from_bytes material
       end.

(** ** Encrypted blocks *)

Record EncryptedBlockView := MkEncView {
  ev_base_offset : Z;
  ev_record_count : Z;
  ev_ciphertext_len : nat;
}.

Definition ev_on_disk_size (v : EncryptedBlockView) : nat := kEncBlockHeaderSize + ev_ciphertext_len v.

Record SegmentCipher := MkCipher { sc_dek : list byte }.

Definition cipher_create (kek salt : list byte) : expected SegmentCipher :=
  let? dek := derive_segment_dek kek salt in Ok (MkCipher dek).

(** [seal_block]; [nonce] is what [random_bytes] answered. *)
Definition seal_block (nonce : expected (list byte)) (plaintext : list byte) (base_offset record_count : Z)
    (c : SegmentCipher) : expected (list byte) :=
  if negb crypto_available then no_openssl
  else if 2 ^ 32 - 1 <? Z.of_nat (length plaintext)
  then make_error InvalidArgument "batch demasiado grande para cifrar"
  else
    let? nonce := nonce in
    let aad := [kBlockVersion; 0] ++ store_le 8 base_offset ++ store_le 4 record_count ++
               store_le 4 (Z.of_nat (length plaintext)) ++ nonce in
    let? '(ciphertext, tag) := aes_gcm_encrypt (sc_dek c) nonce aad plaintext in
    Ok (aad ++ tag ++ ciphertext).

(** [SegmentCipher::peek_block]. *)
Definition cipher_peek (frame : list byte) : expected EncryptedBlockView :=
  if (length frame <? kEncBlockHeaderSize)%nat
  then make_error Corrupt "bloque cifrado: cabecera incompleta"
  else if negb (nth 0 frame 0 =? kBlockVersion)
  then make_error Corrupt "bloque cifrado: versión de formato desconocida"
  else Ok (MkEncView (load_le_i 8 (subspan kBlkBaseOffsetPos frame))
                     (load_le_i 4 (subspan kBlkRecordCountPos frame))
                     (Z.to_nat (load_le_u 4 (subspan kBlkCtLenPos frame)))).

(** [open_block]: the plaintext it appends. *)
Definition open_block (frame : list byte) (c : SegmentCipher) : expected (list byte) :=
  if negb crypto_available then no_openssl
  else
    let? view := cipher_peek frame in
    if (length frame <? ev_on_disk_size view)%nat
    then make_error Corrupt "bloque cifrado: ciphertext truncado"
    else
      aes_gcm_decrypt (sc_dek c) (subspan_n kBlkNoncePos kEncNonceBytes frame)
        (subspan_n 0 kBlkAadLen frame)
        (subspan_n kEncBlockHeaderSize (ev_ciphertext_len view) frame)
        (subspan_n kBlkTagPos kEncTagBytes frame).

(** ** The header of an encrypted segment *)

Definition encode_segment_header (salt : list byte) : list byte :=
  splice kSegSaltPos salt
    (kEncSegmentMagic ++ [kSegmentVersion; kKdfHkdfSha256; kCipherAes256Gcm; 0] ++
     replicate (kEncSegmentHeaderSize - kSegSaltPos) 0).

Definition is_encrypted_segment_header (header : list byte) : bool :=
  if (length header <? length kEncSegmentMagic)%nat then false
  else bool_decide (kEncSegmentMagic = subspan_n 0 (length kEncSegmentMagic) header).

Definition parse_segment_header (header : list byte) : expected (list byte) :=
  if (length header <? kEncSegmentHeaderSize)%nat
  then make_error Corrupt "cabecera de segmento cifrado incompleta"
  else if negb (is_encrypted_segment_header header)
  then make_error Corrupt "cabecera de segmento: magic no reconocido"
  else if negb (nth kSegVersionPos header 0 =? kSegmentVersion)
  then make_error Unsupported "cabecera de segmento: versión desconocida"
  else Ok (subspan_n kSegSaltPos kEncSaltBytes header).

(** ** Properties *)

(** A block is its header, whose first [kBlkAadLen] bytes are authenticated, and the ciphertext. *)
Lemma seal_block_layout nonce plain base count c fr :
  seal_block nonce plain base count c = Ok fr ->
  exists n ct tag, nonce = Ok n /\
    let aad := [kBlockVersion; 0] ++ store_le 8 base ++ store_le 4 count ++
               store_le 4 (Z.of_nat (length plain)) ++ n in
    aes_gcm_encrypt (sc_dek c) n aad plain = Ok (ct, tag) /\ fr = aad ++ tag ++ ct /\
    crypto_available = true /\ Z.of_nat (length plain) < 2 ^ 32.
Proof.
  unfold seal_block. destruct crypto_available; cbn [negb]; [|done].
  destruct (Z.ltb_spec (2 ^ 32 - 1) (Z.of_nat (length plain))); [done|].
  destruct nonce as [n|e]; [|done]. unfold expected_bind at 1. cbv zeta.
  destruct (aes_gcm_encrypt _ _ _ _) as [[ct tag]|e] eqn:He; [|done]. cbn [expected_bind].
  intros [= <-]. exists n, ct, tag. split_and!; [done|done|done|done|lia].
Qed.

Context `{!CryptoLaws}.

Lemma seal_block_length nonce plain base count c fr :
  seal_block nonce plain base count c = Ok fr ->
  (forall n, nonce = Ok n -> length n = kEncNonceBytes) ->
  length fr = (kEncBlockHeaderSize + length plain)%nat.
Proof.
  intros (n & ct & tag & -> & He & -> & _)%seal_block_layout Hn. cbv zeta in *.
  destruct (seal_sizes _ _ _ _ _ _ He) as [Hct Htag].
  rewrite !length_app, !length_store_le, Hct, Htag, (Hn n eq_refl). done.
Qed.

(** The authenticated header of a block. *)
Definition block_aad (base count : Z) (size : nat) (nonce : list byte) : list byte :=
  [kBlockVersion; 0] ++ store_le 8 base ++ store_le 4 count ++ store_le 4 (Z.of_nat size) ++ nonce.

Lemma drop_aad base count size nonce rest :
  let rest' := nonce ++ rest in
  drop 2 (block_aad base count size nonce ++ rest) =
    store_le 8 base ++ store_le 4 count ++ store_le 4 (Z.of_nat size) ++ rest' /\
  drop 10 (block_aad base count size nonce ++ rest) = store_le 4 count ++ store_le 4 (Z.of_nat size) ++ rest' /\
  drop 14 (block_aad base count size nonce ++ rest) = store_le 4 (Z.of_nat size) ++ rest' /\
  drop 18 (block_aad base count size nonce ++ rest) = rest'.
Proof.
  cbv zeta. unfold block_aad. rewrite <- !app_assoc. cbn [app].
  split_and!; cbn [drop]; [done| | |]; rewrite !drop_store by lia; cbn [Nat.sub]; by rewrite ?drop_0.
Qed.

(** Peeking at a block, whatever follows its authenticated header. *)
Lemma cipher_peek_aad base count size nonce rest :
  i_range 64 base -> i_range 32 count -> Z.of_nat size < 2 ^ 32 -> length nonce = kEncNonceBytes ->
  (kEncTagBytes <= length rest)%nat ->
  cipher_peek (block_aad base count size nonce ++ rest) = Ok (MkEncView base count size).
Proof.
  intros Hb Hc Hs Hn Hr. unfold cipher_peek.
  rewrite (proj2 (Nat.ltb_ge _ _)).
  2: { unfold block_aad. rewrite !length_app, !length_store_le, Hn. unfold kEncBlockHeaderSize. cbn. lia. }
  unfold subspan, kBlkBaseOffsetPos, kBlkRecordCountPos, kBlkCtLenPos.
  destruct (drop_aad base count size nonce rest) as (-> & -> & -> & _).
  rewrite !load_store_i by (done || lia). rewrite load_store_u by (split; [lia|done]).
  by rewrite Nat2Z.id.
Qed.

Lemma length_aad base count size nonce :
  length nonce = kEncNonceBytes -> length (block_aad base count size nonce) = kBlkAadLen.
Proof. intros Hn. unfold block_aad. rewrite !length_app, !length_store_le, Hn. done. Qed.

(** Opening a sealed block gives the plaintext back, whatever follows the block; peeking at its
    header gives the offsets and its exact size. *)
Theorem sealed_block_opens (random : expected (list byte)) (plain : list byte) (base count : Z)
    (c : SegmentCipher) (fr tl : list byte)
    (Hseal : seal_block random plain base count c = Ok fr)
    (Hrandom : forall n, random = Ok n -> length n = kEncNonceBytes)
    (Hbase : i_range 64 base) (Hcount : i_range 32 count) :
  open_block (fr ++ tl) c = Ok plain /\
  cipher_peek (take kEncBlockHeaderSize (fr ++ tl)) = Ok (MkEncView base count (length plain)) /\
  length fr = ev_on_disk_size (MkEncView base count (length plain)).
Proof.
  pose proof (seal_block_length _ _ _ _ _ _ Hseal Hrandom) as Hl.
  apply seal_block_layout in Hseal as (n & ct & tag & -> & He & Hfr & Ha & Hlen). cbv zeta in *.
  specialize (Hrandom n eq_refl). destruct (seal_sizes _ _ _ _ _ _ He) as [Hct Htag].
  change ([kBlockVersion; 0] ++ _) with (block_aad base count (length plain) n) in *.
  pose proof (length_aad base count (length plain) n Hrandom) as Haad.
  subst fr. rewrite <- !app_assoc in *. split_and!; [| |exact Hl].
  - unfold open_block. rewrite Ha. cbn [negb].
    rewrite cipher_peek_aad by (done || (rewrite !length_app; lia)). cbn [expected_bind].
    rewrite (proj2 (Nat.ltb_ge _ _)) by (unfold ev_on_disk_size; cbn [ev_ciphertext_len];
      rewrite app_assoc, app_assoc, length_app, <- app_assoc, Hl; lia).
    rewrite <- (seal_open _ _ _ _ _ _ He). unfold subspan_n. f_equal.
    + unfold kBlkNoncePos. destruct (drop_aad base count (length plain) n (tag ++ ct ++ tl)) as (_ & _ & _ & ->).
      rewrite <- Hrandom. apply take_app_length.
    + rewrite drop_0, <- Haad. apply take_app_length.
    + rewrite app_assoc. cbn [ev_ciphertext_len]. rewrite drop_app_length'.
      * rewrite <- Hct. apply take_app_length.
      * rewrite length_app, Haad, Htag. done.
    + rewrite drop_app_length' by done. rewrite <- Htag. apply take_app_length.
  - rewrite app_assoc, take_app_length'.
    2: { rewrite length_app, Haad, Htag. done. }
    apply cipher_peek_aad; try done. by rewrite Htag.
Qed.

Lemma length_segment_header salt :
  length salt = kEncSaltBytes -> length (encode_segment_header salt) = kEncSegmentHeaderSize.
Proof.
  intros Hs. unfold encode_segment_header, splice. rewrite !length_app, length_take, length_drop, Hs. done.
Qed.

(** The header of a segment: its size, its recognition and the salt in it. *)
Theorem segment_header_roundtrip (salt tl : list byte) (Hsalt : length salt = kEncSaltBytes) :
  length (encode_segment_header salt) = kEncSegmentHeaderSize /\
  is_encrypted_segment_header (encode_segment_header salt ++ tl) = true /\
  parse_segment_header (encode_segment_header salt ++ tl) = Ok salt.
Proof.
  do 16 (destruct salt as [|? salt]; [discriminate|]). destruct salt; [|discriminate].
  split_and!; [done|by destruct tl|].
  unfold parse_segment_header. cbn [length app Nat.ltb]. done.
Qed.
End Crypto.

(** ** A concrete cipher *)

Definition sample_tag (dek nonce aad ct : list byte) : list byte :=
  store_le 8 (foldl Z.add 0 (dek ++ nonce ++ aad)) ++ store_le 8 (foldl Z.add 0 ct).

Definition sample_crypto : Crypto := {|
  crypto_available := true;
  derive_segment_dek kek salt := Ok (kek ++ salt);
  aes_gcm_encrypt dek nonce aad plain :=
    let ct := (fun b => Z.lxor b 90) <$> plain in Ok (ct, sample_tag dek nonce aad ct);
  aes_gcm_decrypt dek nonce aad ct tag :=
    if bool_decide (tag = sample_tag dek nonce aad ct) then Ok ((fun b => Z.lxor b 90) <$> ct)
    else make_error Corrupt "autenticación GCM falló (datos manipulados o clave/nonce incorrectos)";
|}.

Lemma sample_crypto_laws : @CryptoLaws sample_crypto.
Proof.
  split; cbn; intros dek nonce aad.
  - intros plain ct tag [= <- <-]. rewrite bool_decide_eq_true_2 by done. f_equal.
    rewrite <- list_fmap_compose. transitivity (id <$> plain); [|apply list_fmap_id].
    apply list_fmap_ext. intros i b _. cbn. by rewrite Z.lxor_assoc, Z.lxor_nilpotent, Z.lxor_0_r.
  - intros plain ct tag [= <- <-]. rewrite length_fmap. split; [done|].
    unfold sample_tag. by rewrite length_app, !length_store_le.
  - intros ct tag plain. destruct (bool_decide _); [|done]. intros [= <-]. by rewrite length_fmap.
Qed.

Lemma sealed_block_opens_witness :
  exists fr, @seal_block sample_crypto (Ok (replicate 12 3)) [1; 2; 3] 40 2 (MkCipher [9]) = Ok fr /\
    @open_block sample_crypto (fr ++ [0; 0]) (MkCipher [9]) = Ok [1; 2; 3].
Proof.
  destruct (@seal_block sample_crypto (Ok (replicate 12 3)) [1; 2; 3] 40 2 (MkCipher [9])) as [fr|e] eqn:He;
    [|vm_compute in He; discriminate].
  exists fr. split; [reflexivity|].
  assert (Hn : forall n, Ok (replicate 12 3) = Ok n -> length n = kEncNonceBytes)
    by (intros n Hn; injection Hn as <-; reflexivity).
  assert (Hb : i_range 64 40) by by_range. assert (Hc : i_range 32 2) by by_range.
  exact (proj1 (@sealed_block_opens sample_crypto sample_crypto_laws (Ok (replicate 12 3)) [1; 2; 3] 40 2
    (MkCipher [9]) fr [0; 0] He Hn Hb Hc)).
Defined.

Lemma segment_header_roundtrip_witness :
  parse_segment_header (encode_segment_header (seq 20 16 |> fmap Z.of_nat) ++ [5]) = Ok (seq 20 16 |> fmap Z.of_nat).
Proof.
  assert (Hs : length (seq 20 16 |> fmap Z.of_nat) = kEncSaltBytes) by reflexivity.
  exact (proj2 (proj2 (segment_header_roundtrip _ [5] Hs))).
Defined.
