(* ===== verification/Segment.v ===== *)
(** * The sparse index and log segments

    First the index of a segment, then the segment.  Models [SparseIndex] of [src/src/storage/index.hpp] and [index.cpp]: anchors that map some
    offsets to positions of the log file, kept in memory and appended to a sidecar file. *)
From Stdlib Require Import ZArith Lia.
From stdpp Require Import base list strings.
From S2P Require Import Prelude Bytes File Record SegmentCrypto.
#[local] Open Scope Z_scope.

(** [IndexEntry]: the offset relative to the segment's base and the file position, 32 bits each. *)
Record IndexEntry := MkIndexEntry { ie_relative : Z; ie_position : Z }.

Definition kEntrySize : nat := 8.

Definition index_entry_encode (e : IndexEntry) : list byte :=
  store_le 4 (ie_relative e) ++ store_le 4 (ie_position e).

Definition index_entry_decode (bs : list byte) : IndexEntry :=
  MkIndexEntry (load_le_u 4 (subspan 0 bs)) (load_le_u 4 (subspan 4 bs)).

Record SparseIndex := MkIndex {
  si_file : File;
  si_base : Z;
  si_interval : Z;
  si_entries : list IndexEntry;
  si_bytes_since : Z;
  si_flushed : nat;
}.

(** The loop of [open] over the raw bytes: entries must be strictly increasing. *)
Fixpoint index_parse (n : nat) (raw : list byte) (entries : list IndexEntry) : expected (list IndexEntry) :=
  match n with
  | O => Ok entries
  | S n' =>
      let entry := index_entry_decode (subspan_n 0 kEntrySize raw) in
      if match last entries with Some e => ie_relative entry <=? ie_relative e | None => false end
      then make_error Corrupt "índice .index no estrictamente creciente"
      else index_parse n' (drop kEntrySize raw) (entries ++ [entry])
  end.

(** [open], on the file that was opened. *)
Definition index_open (file : File) (base interval : Z) : expected SparseIndex :=
  let? bytes := file_size file in
  let count := (bytes / kEntrySize)%nat in
  let? entries :=
    (if (count =? 0)%nat then Ok []
     else
       let? raw := read_at (count * kEntrySize) 0 file in
       if negb (length raw =? count * kEntrySize)%nat
       then make_error Corrupt "índice .index truncado al leer"
       else index_parse count raw []) in
  Ok (MkIndex file base interval entries 0 (length entries)).

Definition index_maybe_append (offset position batch_len : Z) (x : SparseIndex) : SparseIndex :=
  if si_interval x <=? si_bytes_since x
  then MkIndex (si_file x) (si_base x) (si_interval x)
         (si_entries x ++ [MkIndexEntry (to_u 32 (offset - si_base x)) position]) batch_len (si_flushed x)
  else MkIndex (si_file x) (si_base x) (si_interval x) (si_entries x) (si_bytes_since x + batch_len)
         (si_flushed x).

(** [upper_bound]: the position of the first entry beyond [rel]. *)
Fixpoint index_upper_bound (rel : Z) (entries : list IndexEntry) : nat :=
  match entries with
  | [] => 0
  | e :: rest => if ie_relative e <=? rel then S (index_upper_bound rel rest) else 0
  end.

Definition kMaxRelative : Z := 2 ^ 32 - 1.

Definition index_floor (target : Z) (x : SparseIndex) : IndexEntry :=
  if (target <? si_base x) || (length (si_entries x) =? 0)%nat then MkIndexEntry 0 0
  else
    let rel := to_u 32 (Z.min (target - si_base x) kMaxRelative) in
    match index_upper_bound rel (si_entries x) with
    | O => MkIndexEntry 0 0
    | S i => default (MkIndexEntry 0 0) (si_entries x !! i)
    end.

Definition si_set_file (f : File) (x : SparseIndex) : SparseIndex :=
  MkIndex f (si_base x) (si_interval x) (si_entries x) (si_bytes_since x) (si_flushed x).

Definition index_flush (x : SparseIndex) : expected unit * SparseIndex :=
  let '(written, x) :=
    if (si_flushed x <? length (si_entries x))%nat
    then
      let buf := concat (index_entry_encode <$> drop (si_flushed x) (si_entries x)) in
      match write_at buf (si_flushed x * kEntrySize) (si_file x) with
      | (Err e, f) => (Err e, si_set_file f x)
      | (Ok _, f) => (Ok tt, MkIndex f (si_base x) (si_interval x) (si_entries x) (si_bytes_since x)
                               (length (si_entries x)))
      end
    else (Ok tt, x) in
  match written with
  | Err e => (Err e, x)
  | Ok _ => let '(r, f) := file_sync (si_file x) in (r, si_set_file f x)
  end.

Definition index_reset (x : SparseIndex) : expected unit * SparseIndex :=
  let '(r, f) := file_truncate 0 (si_file x) in
  (r, MkIndex f (si_base x) (si_interval x) [] 0 0).

(** * Log segments

    Models [Segment] of [src/src/storage/segment.hpp] and [segment.cpp]: a log file of batches, in
    the clear or encrypted block by block, with its sparse index: appending, reading from an
    offset through the index, crash recovery and truncation at a batch boundary. *)

(** [FetchResult]. *)
Record FetchResult := MkFetch { fr_batches : list byte; fr_next_offset : Z }.

Inductive SegmentState := SegActive | SegClosed.

#[export] Instance SegmentState_eq_dec : EqDecision SegmentState.
Proof. solve_decision. Defined.

(** [Segment::BlockHeader]. *)
Record BlockHeader := MkBlock { bh_base_offset : Z; bh_record_count : Z; bh_on_disk_size : nat }.

Definition bh_last_offset (h : BlockHeader) : Z := bh_base_offset h + bh_record_count h - 1.

Record Segment := MkSegment {
  sg_base : Z;
  sg_log : File;
  sg_index : SparseIndex;
  sg_size : nat;
  sg_cipher : option SegmentCipher;
  sg_data_start : nat;
  sg_state : SegmentState;
}.

Definition sg_set_log (f : File) (s : Segment) : Segment :=
  MkSegment (sg_base s) f (sg_index s) (sg_size s) (sg_cipher s) (sg_data_start s) (sg_state s).
Definition sg_set_index (x : SparseIndex) (s : Segment) : Segment :=
  MkSegment (sg_base s) (sg_log s) x (sg_size s) (sg_cipher s) (sg_data_start s) (sg_state s).
Definition sg_set_size (n : nat) (s : Segment) : Segment :=
  MkSegment (sg_base s) (sg_log s) (sg_index s) n (sg_cipher s) (sg_data_start s) (sg_state s).
Definition sg_set_state (st : SegmentState) (s : Segment) : Segment :=
  MkSegment (sg_base s) (sg_log s) (sg_index s) (sg_size s) (sg_cipher s) (sg_data_start s) st.

Section Segment.
Context `{!Crypto}.

(** [create], on the two files it opened; with a key, [salt] is what [random_bytes] answered. *)
Definition segment_create (base interval : Z) (key : option (list byte)) (salt : expected (list byte))
    (log index : File) : expected Segment :=
  let? x := index_open index base interval in
  match key with
  | None => Ok (MkSegment base log x 0 None 0 SegActive)
  | Some key =>
      let? salt := salt in
      let? cipher := cipher_create key salt in
      match write_at (encode_segment_header salt) 0 log with
      | (Err e, _) => Err e
      | (Ok _, log) =>
          Ok (MkSegment base log x kEncSegmentHeaderSize (Some cipher) kEncSegmentHeaderSize SegActive)
      end
  end.

(** The detection of encryption in [open]: the cipher and the first byte of data. *)
Definition detect_cipher (size : nat) (key : option (list byte)) (log : File)
    : expected (option SegmentCipher * nat) :=
  if (size <? kEncSegmentHeaderSize)%nat then Ok (None, 0%nat)
  else
    let? header := read_at kEncSegmentHeaderSize 0 log in
    if (length header =? kEncSegmentHeaderSize)%nat && is_encrypted_segment_header header then
      match key with
      | None => make_error Unsupported "segmento cifrado, pero no se configuró clave de cifrado"
      | Some key =>
          let? salt := parse_segment_header header in
          let? cipher := cipher_create key salt in
          Ok (Some cipher, kEncSegmentHeaderSize)
      end
    else Ok (None, 0%nat).

(** [open]: the size is the file's. *)
Definition segment_open (base interval : Z) (key : option (list byte)) (log index : File) : expected Segment :=
  let? size := file_size log in
  let? '(cipher, data_start) := detect_cipher size key log in
  let? x := index_open index base interval in
  Ok (MkSegment base log x size cipher data_start SegActive).

Definition segment_is_full (segment_bytes : Z) (s : Segment) : bool := segment_bytes <=? Z.of_nat (sg_size s).
Definition segment_is_empty (s : Segment) : bool := (sg_size s =? sg_data_start s)%nat.

Definition block_header_size (c : option SegmentCipher) : nat :=
  match c with Some _ => kEncBlockHeaderSize | None => kHeaderSize end.

(** The header of a block, as its format has it. *)
Definition peek_header (c : option SegmentCipher) (header : list byte) : expected BlockHeader :=
  match c with
  | Some _ => let? v := cipher_peek header in
              Ok (MkBlock (ev_base_offset v) (ev_record_count v) (ev_on_disk_size v))
  | None => let? v := batch_peek header in
            Ok (MkBlock (view_base_offset v) (view_record_count v) (view_encoded_size v))
  end.

(** [peek_block]: the header of the block at a position; none at an incomplete one. *)
Definition peek_block (position : nat) (s : Segment) : expected (option BlockHeader) :=
  let header_size := block_header_size (sg_cipher s) in
  if (sg_size s <? position + header_size)%nat then Ok None
  else
    let? header := read_at header_size position (sg_log s) in
    if (length header <? header_size)%nat then Ok None
    else match peek_header (sg_cipher s) header with
         | Ok view => Ok (Some view)
         | Err _ => Ok None
         end.

(** The batch of a block read from the disk. *)
Definition open_frame (c : option SegmentCipher) (block : list byte) : expected (list byte) :=
  match c with Some c => open_block block c | None => Ok block end.

(** [load_block]: the bytes it appends. *)
Definition load_block (position on_disk_size : nat) (s : Segment) : expected (list byte) :=
  let? block := read_at on_disk_size position (sg_log s) in
  if (length block <? on_disk_size)%nat then make_error Corrupt "bloque truncado en disco"
  else open_frame (sg_cipher s) block.

(** The block of a batch; [random] is what [random_bytes] answered. *)
Definition frame_of (c : option SegmentCipher) (random : expected (list byte)) (batch : RecordBatch)
    : expected (list byte) :=
  let encoded := batch_encode batch [] in
  match c with
  | Some c => seal_block random encoded (h_base_offset (b_header batch)) (h_record_count (b_header batch)) c
  | None => Ok encoded
  end.

Definition segment_append (random : expected (list byte)) (batch : RecordBatch) (s : Segment)
    : expected Z * Segment :=
  if bool_decide (sg_state s = SegClosed)
  then (make_error InvalidArgument "append sobre un segmento sellado", s)
  else
    let position := sg_size s in
    match frame_of (sg_cipher s) random batch with
    | Err e => (Err e, s)
    | Ok framed =>
        match write_at framed position (sg_log s) with
        | (Err e, f) => (Err e, sg_set_log f s)
        | (Ok _, f) =>
            let size := length framed in
            (Ok (batch_last_offset batch),
             s |> sg_set_log f
               |> sg_set_index (index_maybe_append (h_base_offset (b_header batch))
                                  (to_u 32 (Z.of_nat position)) (Z.of_nat size) (sg_index s))
               |> sg_set_size (position + size)%nat)
        end
    end.

(** The loop of [read]; every turn advances at least a header, so the size is fuel enough. *)
Fixpoint segment_read_loop (fuel : nat) (s : Segment) (offset : Z) (max_bytes position : nat)
    (r : FetchResult) : expected FetchResult :=
  match fuel with
  | O => Ok r
  | S fuel' =>
      if negb (position <? sg_size s)%nat then Ok r
      else
        let? block := peek_block position s in
        match block with
        | None => Ok r
        | Some info =>
            let total := bh_on_disk_size info in
            if (sg_size s <? position + total)%nat then Ok r
            else if bh_last_offset info <? offset
            then segment_read_loop fuel' s offset max_bytes (position + total) r
            else if negb (length (fr_batches r) =? 0)%nat && (max_bytes <? length (fr_batches r) + total)%nat
            then Ok r
            else
              let? bytes := load_block position total s in
              segment_read_loop fuel' s offset max_bytes (position + total)
                (MkFetch (fr_batches r ++ bytes) (bh_last_offset info + 1))
        end
  end.

Definition segment_read (offset : Z) (max_bytes : nat) (s : Segment) : expected FetchResult :=
  let position := Nat.max (Z.to_nat (ie_position (index_floor offset (sg_index s)))) (sg_data_start s) in
  segment_read_loop (sg_size s) s offset max_bytes position (MkFetch [] offset).

(** The scan of [recover] from a position: the end of the valid prefix and its last offset, and the
    index with an anchor per valid block. *)
Fixpoint recover_loop (fuel : nat) (s : Segment) (x : SparseIndex) (valid_end : nat) (last_valid : Z)
    : expected (nat * Z) * SparseIndex :=
  match fuel with
  | O => (Ok (valid_end, last_valid), x)
  | S fuel' =>
      if negb (valid_end <? sg_size s)%nat then (Ok (valid_end, last_valid), x)
      else match peek_block valid_end s with
      | Err e => (Err e, x)
      | Ok None => (Ok (valid_end, last_valid), x)
      | Ok (Some info) =>
          let total := bh_on_disk_size info in
          if (sg_size s <? valid_end + total)%nat then (Ok (valid_end, last_valid), x)
          else match load_block valid_end total s with
          | Err e => if bool_decide (code e = IoError) then (Err e, x) else (Ok (valid_end, last_valid), x)
          | Ok bytes =>
              match batch_decode bytes with
              | Err _ => (Ok (valid_end, last_valid), x)
              | Ok batch =>
                  recover_loop fuel' s
                    (index_maybe_append (bh_base_offset info) (to_u 32 (Z.of_nat valid_end)) (Z.of_nat total) x)
                    (valid_end + total) (batch_last_offset batch)
              end
          end
      end
  end.

(** Cutting the file at a position of the segment. *)
Definition cut_at (position : nat) (s : Segment) : expected unit * Segment :=
  if (position <? sg_size s)%nat then
    match file_truncate position (sg_log s) with
    | (Err e, f) => (Err e, sg_set_log f s)
    | (Ok _, f) => (Ok tt, s |> sg_set_log f |> sg_set_size position)
    end
  else (Ok tt, s).

Definition segment_recover (s : Segment) : expected Z * Segment :=
  match index_reset (sg_index s) with
  | (Err e, x) => (Err e, sg_set_index x s)
  | (Ok _, x) =>
      match recover_loop (sg_size s) s x (sg_data_start s) (sg_base s - 1) with
      | (Err e, x) => (Err e, sg_set_index x s)
      | (Ok (valid_end, last_valid), x) =>
          match cut_at valid_end (sg_set_index x s) with
          | (Err e, s) => (Err e, s)
          | (Ok _, s) =>
              match index_flush (sg_index s) with
              | (Err e, x) => (Err e, sg_set_index x s)
              | (Ok _, x) => (Ok last_valid, sg_set_index x s)
              end
          end
      end
  end.

(** [position_of]. *)
Fixpoint position_loop (fuel : nat) (s : Segment) (target : Z) (position : nat) : expected nat :=
  let not_boundary := make_error InvalidArgument "truncate_to: el offset no es frontera de batch" in
  match fuel with
  | O => not_boundary
  | S fuel' =>
      if negb (position <? sg_size s)%nat then not_boundary
      else
        let? block := peek_block position s in
        match block with
        | None => not_boundary
        | Some info =>
            if bh_base_offset info =? target then Ok position
            else if target <? bh_base_offset info then not_boundary
            else position_loop fuel' s target (position + bh_on_disk_size info)
        end
  end.

Definition position_of (target : Z) (s : Segment) : expected nat :=
  if target =? sg_base s then Ok (sg_data_start s)
  else position_loop (sg_size s) s target (sg_data_start s).

(** [rebuild_index]. *)
Fixpoint rebuild_loop (fuel : nat) (s : Segment) (x : SparseIndex) (scan : nat) : expected unit * SparseIndex :=
  match fuel with
  | O => (Ok tt, x)
  | S fuel' =>
      if negb (scan <? sg_size s)%nat then (Ok tt, x)
      else match peek_block scan s with
      | Err e => (Err e, x)
      | Ok None => (Ok tt, x)
      | Ok (Some info) =>
          rebuild_loop fuel' s
            (index_maybe_append (bh_base_offset info) (to_u 32 (Z.of_nat scan))
               (Z.of_nat (bh_on_disk_size info)) x)
            (scan + bh_on_disk_size info)
      end
  end.

Definition rebuild_index (s : Segment) : expected unit * Segment :=
  match index_reset (sg_index s) with
  | (Err e, x) => (Err e, sg_set_index x s)
  | (Ok _, x) =>
      match rebuild_loop (sg_size s) s x (sg_data_start s) with
      | (Err e, x) => (Err e, sg_set_index x s)
      | (Ok _, x) => let '(r, x) := index_flush x in (r, sg_set_index x s)
      end
  end.

Definition segment_truncate_to (target : Z) (s : Segment) : expected unit * Segment :=
  match position_of target s with
  | Err e => (Err e, s)
  | Ok position =>
      match cut_at position s with
      | (Err e, s) => (Err e, s)
      | (Ok _, s) =>
          match rebuild_index s with
          | (Err e, s) => (Err e, s)
          | (Ok _, s) => (Ok tt, sg_set_state SegActive s)
          end
      end
  end.

Definition segment_sync (s : Segment) : expected unit * Segment :=
  match index_flush (sg_index s) with
  | (Err e, x) => (Err e, sg_set_index x s)
  | (Ok _, x) => let '(r, f) := file_sync (sg_log s) in (r, s |> sg_set_index x |> sg_set_log f)
  end.

Definition segment_seal (s : Segment) : expected unit * Segment :=
  match segment_sync s with
  | (Err e, s) => (Err e, s)
  | (Ok _, s) => (Ok tt, sg_set_state SegClosed s)
  end.
End Segment.
