(* ===== verification/SegmentSafety.v ===== *)
(** * Correctness of segments

    What a segment holds: the blocks of a contiguous sequence of batches, with index anchors at
    block boundaries.  Reading is independent of the sparse index; appending and truncating act on
    the sequence; and recovery after a crash at any byte gives back the longest prefix of whole
    batches. *)
From Stdlib Require Import ZArith Lia Sorted.
From stdpp Require Import base list gmap sets strings sorting.
From S2P Require Import Prelude Bytes Crc32c Record File SegmentCrypto Segment.
#[local] Open Scope Z_scope.

(** ** Frames: a batch and its block on the disk *)

Abbreviation Frame := (RecordBatch * list byte)%type (only parsing).

Definition first_of (f : Frame) : Z := h_base_offset (b_header f.1).
Definition last_of (f : Frame) : Z := batch_last_offset f.1.
Definition count_of (f : Frame) : Z := h_record_count (b_header f.1).

Lemma last_of_first f : last_of f = first_of f + count_of f - 1.
Proof. done. Qed.

Definition blocks (fs : list Frame) : list byte := concat (snd <$> fs).

Lemma blocks_app a b : blocks (a ++ b) = blocks a ++ blocks b.
Proof. unfold blocks. by rewrite fmap_app, concat_app. Qed.

Lemma blocks_cons f fs : blocks (f :: fs) = f.2 ++ blocks fs.
Proof. done. Qed.

(** Batches of at least one record that occupy the offsets from [off] on. *)
Fixpoint contiguous (off : Z) (fs : list Frame) : Prop :=
  match fs with
  | [] => True
  | f :: rest => first_of f = off /\ 1 <= count_of f /\ contiguous (last_of f + 1) rest
  end.

(** The offset after the last record. *)
Definition end_of (off : Z) (fs : list Frame) : Z :=
  match last fs with Some f => last_of f + 1 | None => off end.

Lemma end_of_cons off f fs : end_of off (f :: fs) = end_of (last_of f + 1) fs.
Proof. unfold end_of. rewrite last_cons. by destruct (last fs). Qed.

Lemma end_of_app off a b : end_of off (a ++ b) = end_of (end_of off a) b.
Proof. revert off. induction a as [|x a IH]; intros off; [done|]. cbn [app]. by rewrite !end_of_cons. Qed.

Lemma contiguous_app off a b : contiguous off (a ++ b) <-> contiguous off a /\ contiguous (end_of off a) b.
Proof.
  revert off. induction a as [|x a IH]; intros off; cbn [app contiguous]; [unfold end_of; cbn; tauto|].
  rewrite IH, end_of_cons. tauto.
Qed.

Lemma end_of_ge off fs : contiguous off fs -> off <= end_of off fs.
Proof.
  revert off. induction fs as [|f fs IH]; intros off; [unfold end_of; cbn; lia|].
  intros (Hb & Hc & Hr). rewrite end_of_cons. specialize (IH _ Hr).
  pose proof (last_of_first f). lia.
Qed.

(** Every batch of a sequence lies between its ends. *)
Lemma contiguous_bounds off fs f :
  contiguous off fs -> f ∈ fs -> off <= first_of f <= last_of f /\ last_of f < end_of off fs.
Proof.
  revert off. induction fs as [|x fs IH]; intros off; [by intros _ ?%elem_of_nil|].
  intros (Hb & Hc & Hr) [->|Hin]%elem_of_cons; rewrite end_of_cons.
  - pose proof (end_of_ge _ _ Hr). pose proof (last_of_first x). lia.
  - destruct (IH _ Hr Hin). pose proof (last_of_first x). lia.
Qed.

(** ** What a read returns *)

Fixpoint skip_before (offset : Z) (fs : list Frame) : list Frame :=
  match fs with
  | [] => []
  | f :: rest => if last_of f <? offset then skip_before offset rest else fs
  end.

Fixpoint take_fetch (max_bytes : nat) (r : FetchResult) (fs : list Frame) : FetchResult :=
  match fs with
  | [] => r
  | f :: rest =>
      if negb (length (fr_batches r) =? 0)%nat && (max_bytes <? length (fr_batches r) + length f.2)%nat then r
      else take_fetch max_bytes (MkFetch (fr_batches r ++ batch_layout f.1) (last_of f + 1)) rest
  end.

(** The whole batches from the one that holds [offset] on, at least one and then as many as fit. *)
Definition fetch_spec (offset : Z) (max_bytes : nat) (fs : list Frame) : FetchResult :=
  take_fetch max_bytes (MkFetch [] offset) (skip_before offset fs).

Lemma skip_before_app offset a b :
  Forall (fun f => last_of f < offset) a -> skip_before offset (a ++ b) = skip_before offset b.
Proof. induction 1 as [|x a Hx Ha IH]; [done|]. cbn. by rewrite (proj2 (Z.ltb_lt _ _)). Qed.

(** Past the first batch not skipped none is. *)
Lemma skip_before_keeps offset off fs :
  contiguous off fs -> offset <= off -> skip_before offset fs = fs.
Proof.
  destruct fs as [|f fs]; [done|]. intros (Hf & Hc & _) Ho. cbn.
  rewrite last_of_first. by rewrite (proj2 (Z.ltb_ge _ _)) by lia.
Qed.

(** ** The index *)

Section Index.
(** The base of the segment and the first byte of its data. *)
Context (base : Z) (start : nat).

(** An entry that points at the boundary before a batch. *)
Definition anchor (fs : list Frame) (e : IndexEntry) : Prop :=
  exists a f c, fs = a ++ f :: c /\ ie_position e = Z.of_nat (start + length (blocks a)) /\
    ie_relative e = first_of f - base.

(** The bounds under which an entry's 32 bits suffice. *)
Definition fits_index (fs : list Frame) : Prop :=
  Z.of_nat (start + length (blocks fs)) <= 2 ^ 32 /\ end_of base fs - base <= 2 ^ 32.

Record index_ok (fs : list Frame) (x : SparseIndex) : Prop := {
  io_base : si_base x = base;
  io_anchors : Forall (anchor fs) (si_entries x);
  io_sorted : StronglySorted Z.lt (ie_relative <$> si_entries x);
}.

Lemma anchor_app fs more e : anchor fs e -> anchor (fs ++ more) e.
Proof.
  intros (a & f & c & -> & Hp & Hr). exists a, f, (c ++ more). by rewrite <- app_assoc.
Qed.

Lemma to_u_small z : 0 <= z < 2 ^ 32 -> to_u 32 z = z.
Proof. intros H. apply to_u_id. done. Qed.

Lemma index_ok_nil x : si_base x = base -> si_entries x = [] -> index_ok [] x.
Proof. intros Hb He. split; [done|rewrite He; constructor..]. Qed.

Lemma sorted_snoc (l : list Z) z : StronglySorted Z.lt l -> Forall (fun y => y < z) l -> StronglySorted Z.lt (l ++ [z]).
Proof.
  induction 1 as [|x l Hs IH Hx]; intros Hz; cbn; [repeat constructor|].
  inversion Hz; subst. constructor; [by apply IH|]. apply Forall_app; auto.
Qed.

(** The anchor [maybe_append] may add. *)
Lemma maybe_append_ok a f x :
  contiguous base (a ++ [f]) -> fits_index (a ++ [f]) -> (0 < length f.2)%nat -> index_ok a x ->
  index_ok (a ++ [f])
    (index_maybe_append (first_of f) (to_u 32 (Z.of_nat (start + length (blocks a)))) (Z.of_nat (length f.2)) x).
Proof.
  intros Hc [Hf1 Hf2] Hl [Hb Ha Hs].
  assert (Ha' : Forall (anchor (a ++ [f])) (si_entries x)) by (eapply Forall_impl; [done|apply anchor_app]).
  unfold index_maybe_append. destruct (_ <=? _); [|by split].
  assert (Hin : f ∈ a ++ [f]) by set_solver.
  destruct (contiguous_bounds base (a ++ [f]) f Hc Hin) as [H1 H2].
  rewrite blocks_app, length_app, blocks_cons, length_app in Hf1.
  assert (Hrel : to_u 32 (first_of f - si_base x) = first_of f - base) by (rewrite Hb; apply to_u_small; lia).
  assert (Hpos : to_u 32 (Z.of_nat (start + length (blocks a))) = Z.of_nat (start + length (blocks a)))
    by (apply to_u_small; lia).
  split; cbn; [done| |].
  - apply Forall_app. split; [done|]. constructor; [|constructor]. exists a, f, []. cbn. by rewrite Hrel, Hpos.
  - rewrite fmap_app. cbn. apply sorted_snoc; [done|]. rewrite Hrel.
    apply Forall_fmap. eapply Forall_impl; [exact Ha|]. cbn. intros e (a1 & g & c & -> & _ & ->).
    apply contiguous_app in Hc as [Hc (Hff & _ & _)].
    assert (Hg : g ∈ a1 ++ g :: c) by set_solver.
    destruct (contiguous_bounds _ _ _ Hc Hg). lia.
Qed.

(** Feeding the index a sequence of blocks. *)
Fixpoint index_frames (pos : nat) (x : SparseIndex) (fs : list Frame) : SparseIndex :=
  match fs with
  | [] => x
  | f :: rest =>
      index_frames (pos + length f.2)
        (index_maybe_append (first_of f) (to_u 32 (Z.of_nat pos)) (Z.of_nat (length f.2)) x) rest
  end.

Lemma fits_app a b : contiguous base (a ++ b) -> fits_index (a ++ b) -> fits_index a.
Proof.
  intros [Ha Hb]%contiguous_app [H1 H2]. rewrite blocks_app, length_app in H1. rewrite end_of_app in H2.
  pose proof (end_of_ge _ _ Hb). split; lia.
Qed.

Lemma index_frames_ok a c x :
  contiguous base (a ++ c) -> fits_index (a ++ c) -> Forall (fun f => (0 < length f.2)%nat) c -> index_ok a x ->
  index_ok (a ++ c) (index_frames (start + length (blocks a)) x c).
Proof.
  revert a x. induction c as [|f c IH]; intros a x Hc Hf Hl Hx; [by rewrite app_nil_r|].
  inversion_clear Hl. rewrite cons_middle, app_assoc in *. cbn [index_frames].
  replace (start + length (blocks a) + length f.2)%nat with (start + length (blocks (a ++ [f])))%nat.
  - apply IH; try done. apply maybe_append_ok; try done; [|by eapply fits_app].
    by apply contiguous_app in Hc as [Hc _].
  - rewrite blocks_app, length_app, blocks_cons. cbn. rewrite app_nil_r. lia.
Qed.

(** An index of more blocks is one of fewer, as far as its anchors reach. *)
Lemma upper_bound_le rel es i e :
  index_upper_bound rel es = S i -> es !! i = Some e -> ie_relative e <= rel.
Proof.
  revert i. induction es as [|x es IH]; intros i; cbn; [done|].
  destruct (Z.leb_spec (ie_relative x) rel); [|done]. intros [= <-].
  destruct (index_upper_bound rel es) as [|j] eqn:Hj; cbn; [by intros [= <-]|]. by apply IH.
Qed.

Lemma upper_bound_lookup rel es i : index_upper_bound rel es = S i -> is_Some (es !! i).
Proof.
  revert i. induction es as [|x es IH]; intros i; cbn; [done|].
  destruct (_ <=? _); [|done]. intros [= <-].
  destruct (index_upper_bound rel es) as [|j] eqn:Hj; cbn; [eauto|]. by apply IH.
Qed.

(** The floor of an offset is a boundary with only earlier batches before it. *)
Lemma floor_boundary offset fs x :
  contiguous base fs -> index_ok fs x ->
  exists a c, fs = a ++ c /\
    Nat.max (Z.to_nat (ie_position (index_floor offset x))) start = (start + length (blocks a))%nat /\
    Forall (fun f => last_of f < offset) a.
Proof.
  intros Hc [Hb Ha _].
  assert (H0 : exists a c, fs = a ++ c /\ Nat.max (Z.to_nat 0) start = (start + length (blocks a))%nat /\
    Forall (fun f => last_of f < offset) a).
  { exists [], fs. split_and!; [done|cbn; lia|constructor]. }
  unfold index_floor. rewrite Hb.
  destruct (Z.ltb_spec offset base); [done|]. cbn [orb].
  destruct (_ =? 0)%nat; [done|].
  set (rel := to_u 32 (Z.min (offset - base) kMaxRelative)).
  assert (Hrel : rel <= offset - base).
  { subst rel. rewrite to_u_small; unfold kMaxRelative; lia. }
  destruct (index_upper_bound rel (si_entries x)) as [|i] eqn:Hi; [done|].
  destruct (upper_bound_lookup _ _ _ Hi) as [e He]. rewrite He. cbn [default].
  pose proof (upper_bound_le _ _ _ _ Hi He) as Hle.
  rewrite Forall_forall in Ha. destruct (Ha e (list_elem_of_lookup_2 _ _ _ He)) as (a & f & c & -> & Hp & Hr).
  exists a, (f :: c). split_and!; [done|cbn; rewrite Hp; lia|].
  apply Forall_forall. intros y Hy. apply contiguous_app in Hc as [Hc1 [Hf _]].
  destruct (contiguous_bounds _ _ _ Hc1 Hy). lia.
Qed.

(** Resetting and flushing. *)
Lemma index_reset_entries x : si_base (index_reset x).2 = si_base x /\ si_entries (index_reset x).2 = [].
Proof. unfold index_reset. by destruct (file_truncate _ _). Qed.

Lemma index_flush_same x :
  si_base (index_flush x).2 = si_base x /\ si_entries (index_flush x).2 = si_entries x.
Proof.
  unfold index_flush. destruct (_ <? _)%nat; [destruct (write_at _ _ _) as [[u|e] f]|]; cbn; [|done|];
    by destruct (file_sync _).
Qed.

Lemma index_ok_same fs x y :
  index_ok fs x -> si_base y = si_base x -> si_entries y = si_entries x -> index_ok fs y.
Proof. intros [H1 H2 H3] Hb He. split; [by rewrite Hb|by rewrite He|by rewrite He]. Qed.
End Index.

(** ** The log file *)

Section Log.
Context `{CC : !Crypto}.

(** The block of a batch: its header announces it and it opens to the batch. *)
Record frame_ok (c : option SegmentCipher) (f : RecordBatch * list byte) : Prop := {
  fo_batch : batch_ok f.1;
  fo_size : (block_header_size c <= length f.2)%nat;
  fo_peek : peek_header c (take (block_header_size c) f.2) = Ok (MkBlock (first_of f) (count_of f) (length f.2));
  fo_open : open_frame c f.2 = Ok (batch_layout f.1);
}.

Lemma header_size_pos c : (0 < block_header_size c)%nat.
Proof. destruct c; cbn; unfold kEncBlockHeaderSize, kHeaderSize; lia. Qed.

Lemma frame_pos c f : frame_ok c f -> (0 < length f.2)%nat.
Proof. intros [_ H _ _]. pose proof (header_size_pos c). lia. Qed.

(** The file holds the blocks and then [tail]; what is past the size is not looked at. *)
Record on_disk (s : Segment) (fs : list (RecordBatch * list byte)) (tail : list byte) : Prop := {
  od_content : exists hd junk, f_content (sg_log s) = hd ++ blocks fs ++ tail ++ junk /\
    length hd = sg_data_start s;
  od_size : sg_size s = (sg_data_start s + length (blocks fs) + length tail)%nat;
  od_frames : Forall (frame_ok (sg_cipher s)) fs;
  od_reads : no_errors (f_reads (sg_log s));
}.

(** The position after a sequence of blocks. *)
Definition pos_after (s : Segment) (a : list (RecordBatch * list byte)) : nat :=
  sg_data_start s + length (blocks a).

Lemma pos_after_snoc s a f : pos_after s (a ++ [f]) = (pos_after s a + length f.2)%nat.
Proof. unfold pos_after. rewrite blocks_app, length_app, blocks_cons. cbn. rewrite app_nil_r. lia. Qed.

Lemma od_read s a c tail :
  on_disk s (a ++ c) tail ->
  exists junk, forall n, read_at n (pos_after s a) (sg_log s) = Ok (take n (blocks c ++ tail ++ junk)).
Proof.
  intros [(hd & junk & Hc & Hhd) _ _ Hr]. exists junk. intros n. unfold read_at.
  rewrite read_loop_complete by done. unfold subspan_n. do 2 f_equal.
  rewrite Hc, blocks_app, <- app_assoc, app_assoc. apply drop_app_length'.
  rewrite length_app. unfold pos_after. lia.
Qed.

Lemma od_bounds s a f c tail :
  on_disk s (a ++ f :: c) tail ->
  (pos_after s a + length f.2 <= sg_size s)%nat /\ (pos_after s a < sg_size s)%nat /\ frame_ok (sg_cipher s) f.
Proof.
  intros [_ Hs Hf _]. apply Forall_app in Hf as [_ Hf]. inversion_clear Hf as [|? ? Hok _].
  pose proof (frame_pos _ _ Hok). rewrite Hs, blocks_app, blocks_cons, !length_app. unfold pos_after.
  split_and!; [lia|lia|done].
Qed.

(** At a boundary, the segment finds the next block. *)
Lemma peek_at_frame s a f c tail :
  on_disk s (a ++ f :: c) tail ->
  peek_block (pos_after s a) s = Ok (Some (MkBlock (first_of f) (count_of f) (length f.2))).
Proof.
  intros Hd. destruct (od_bounds _ _ _ _ _ Hd) as (Hb & _ & [Hok Hs Hp Ho]).
  destruct (od_read _ _ _ _ Hd) as [junk Hr]. unfold peek_block.
  rewrite (proj2 (Nat.ltb_ge _ _)) by lia. rewrite Hr, blocks_cons, <- app_assoc. cbn [expected_bind].
  rewrite take_app_le by done. rewrite length_take, (proj2 (Nat.ltb_ge _ _)) by lia. by rewrite Hp.
Qed.

Lemma load_at_frame s a f c tail :
  on_disk s (a ++ f :: c) tail -> load_block (pos_after s a) (length f.2) s = Ok (batch_layout f.1).
Proof.
  intros Hd. destruct (od_bounds _ _ _ _ _ Hd) as (Hb & _ & [Hok Hs Hp Ho]).
  destruct (od_read _ _ _ _ Hd) as [junk Hr]. unfold load_block.
  rewrite Hr, blocks_cons, <- app_assoc, take_app_length. cbn [expected_bind].
  by rewrite Nat.ltb_irrefl.
Qed.

Lemma od_end s fs : on_disk s fs [] -> pos_after s fs = sg_size s.
Proof. intros [_ Hs _ _]. unfold pos_after. rewrite Hs. cbn. lia. Qed.

(** Whole blocks are at most as many as bytes. *)
Lemma frames_fuel s a c tail : on_disk s (a ++ c) tail -> (length c <= sg_size s)%nat.
Proof.
  intros [_ Hs Hf _]. rewrite Hs, blocks_app, length_app. apply Forall_app in Hf as [_ Hf].
  assert (length c <= length (blocks c))%nat; [|lia]. clear Hs. induction Hf as [|f c Hok _ IH]; [done|].
  pose proof (frame_pos _ _ Hok). rewrite blocks_cons, length_app. cbn. lia.
Qed.

(** *** Reading *)

Lemma read_loop_fetch fuel s offset max a c r :
  on_disk s (a ++ c) [] -> contiguous (end_of (sg_base s) a) c -> (length c <= fuel)%nat ->
  segment_read_loop fuel s offset max (pos_after s a) r =
    Ok (take_fetch max r (skip_before offset c)).
Proof.
  revert a c r. induction fuel as [|fuel IH]; intros a c r Hd Hc Hfuel.
  { destruct c; [done|cbn in Hfuel; lia]. }
  cbn [segment_read_loop]. destruct c as [|f c].
  { rewrite app_nil_r in Hd. by rewrite (od_end _ _ Hd), Nat.ltb_irrefl. }
  destruct (od_bounds _ _ _ _ _ Hd) as (Hb & Hlt & Hok).
  rewrite (proj2 (Nat.ltb_lt _ _)) by done. cbn [negb].
  rewrite (peek_at_frame _ _ _ _ _ Hd). cbn [expected_bind bh_on_disk_size].
  rewrite (proj2 (Nat.ltb_ge _ _)) by lia.
  change (bh_last_offset _) with (last_of f).
  assert (Hnext : forall r', segment_read_loop fuel s offset max (pos_after s a + length f.2) r' =
    Ok (take_fetch max r' (skip_before offset c))).
  { intros r'. rewrite <- pos_after_snoc. apply IH; [by rewrite <- app_assoc|rewrite end_of_app; apply Hc|].
    cbn in Hfuel. lia. }
  cbn [skip_before]. destruct (Z.ltb_spec (last_of f) offset) as [|Hge]; [apply Hnext|].
  cbn [take_fetch]. destruct (negb _ && _); [done|].
  rewrite (load_at_frame _ _ _ _ _ Hd). cbn [expected_bind]. rewrite Hnext.
  rewrite (skip_before_keeps _ (last_of f + 1)); [done|apply Hc|lia].
Qed.

(** What a segment holds. *)
Record seg_rep (s : Segment) (fs : list (RecordBatch * list byte)) : Prop := {
  sr_disk : on_disk s fs [];
  sr_contiguous : contiguous (sg_base s) fs;
  sr_index : index_ok (sg_base s) (sg_data_start s) fs (sg_index s);
  sr_fits : fits_index (sg_base s) (sg_data_start s) fs;
}.

Lemma segment_read_fetch s fs offset max :
  seg_rep s fs -> segment_read offset max s = Ok (fetch_spec offset max fs).
Proof.
  intros [Hd Hc Hi _]. destruct (floor_boundary _ _ offset fs _ Hc Hi) as (a & c & -> & Hp & Hbefore).
  unfold segment_read. rewrite Hp. fold (pos_after s a).
  apply contiguous_app in Hc as [_ Hc].
  rewrite (read_loop_fetch _ _ _ _ a c) by (done || by eapply frames_fuel).
  unfold fetch_spec. by rewrite skip_before_app.
Qed.
(** *** Appending *)

Lemma disk_content content hd (fs : list (RecordBatch * list byte)) tail n :
  take n content = hd ++ blocks fs ++ tail ->
  exists junk, content = hd ++ blocks fs ++ tail ++ junk.
Proof.
  intros H. exists (drop n content). rewrite <- (take_drop n content) at 1. rewrite H. by rewrite <- !app_assoc.
Qed.

Lemma od_take s fs tail hd junk :
  f_content (sg_log s) = hd ++ blocks fs ++ tail ++ junk -> length hd = sg_data_start s ->
  sg_size s = (sg_data_start s + length (blocks fs) + length tail)%nat ->
  take (sg_size s) (f_content (sg_log s)) = hd ++ blocks fs ++ tail /\
  (sg_size s <= length (f_content (sg_log s)))%nat.
Proof.
  intros -> Hh ->. split; [|rewrite !length_app; lia].
  rewrite !app_assoc. apply take_app_length'. rewrite !length_app. lia.
Qed.

Context {CL : CryptoLaws}.

(** The block written for a batch is one the segment reads back. *)
Lemma frame_of_ok c random b fr :
  batch_ok b -> (forall n, random = Ok n -> length n = kEncNonceBytes) ->
  frame_of c random b = Ok fr -> frame_ok c (b, fr).
Proof.
  intros Hok Hr. unfold frame_of. rewrite batch_encode_layout by done. cbn [app].
  pose proof (length_batch_layout b) as Hl. destruct c as [c|].
  - intros Hseal. pose proof Hok as ((Hbo & _ & _ & _ & _ & Hrc) & _).
    destruct (sealed_block_opens random (batch_layout b) _ _ c fr [] Hseal Hr Hbo Hrc) as (Ho & Hp & Hlen).
    rewrite app_nil_r in Ho, Hp.
    split; [done|change (kEncBlockHeaderSize <= length fr)%nat; rewrite Hlen; apply Nat.le_add_r| |exact Ho].
    unfold peek_header, block_header_size. change (snd (b, fr)) with fr. rewrite Hp. cbn [expected_bind].
    by rewrite Hlen.
  - intros [= <-]. assert (Hh : (kHeaderSize <= length (batch_layout b))%nat) by (rewrite Hl; unfold encoded_size; lia).
    split; cbn; [done|done| |done].
    rewrite batch_peek_header by done. rewrite <- (app_nil_r (batch_layout b)) at 1.
    rewrite batch_peek_layout by done. cbn. by rewrite Hl.
Qed.

(** What a call leaves alone. *)
Definition same_segment (s s' : Segment) : Prop :=
  sg_base s' = sg_base s /\ sg_cipher s' = sg_cipher s /\ sg_data_start s' = sg_data_start s.

(** Appending adds the batch at the end, or on an error leaves the sequence as it was. *)
Lemma segment_append_rep s fs random b :
  seg_rep s fs -> batch_ok b -> h_base_offset (b_header b) = end_of (sg_base s) fs ->
  1 <= h_record_count (b_header b) -> (forall n, random = Ok n -> length n = kEncNonceBytes) ->
  match segment_append random b s with
  | (Ok last, s') =>
      last = batch_last_offset b /\ same_segment s s' /\ sg_state s' = sg_state s /\
      exists fr, frame_of (sg_cipher s) random b = Ok fr /\
        (fits_index (sg_base s) (sg_data_start s) (fs ++ [(b, fr)]) -> seg_rep s' (fs ++ [(b, fr)]))
  | (Err _, s') => seg_rep s' fs /\ same_segment s s' /\ sg_state s' = sg_state s
  end.
Proof.
  intros [Hd Hc Hi Hf] Hok Hb Hcount Hr. unfold segment_append.
  destruct (bool_decide _); [by split|].
  destruct (frame_of (sg_cipher s) random b) as [fr|e] eqn:Hfr; [|by split].
  pose proof (frame_of_ok _ _ _ _ Hok Hr Hfr) as Hframe. pose proof (frame_pos _ _ Hframe) as Hpos.
  destruct Hd as [(hd & junk & Hcont & Hhd) Hs Hfo Hre].
  destruct (od_take _ _ _ _ _ Hcont Hhd Hs) as [Ht Hle].
  destruct (write_at fr (sg_size s) (sg_log s)) as [[u|e] f] eqn:Hw.
  - apply write_at_ok in Hw as [Hw Hw']; [|by right]. split_and!; [done|done|done|].
    exists fr. split; [done|]. intros Hfit.
    assert (Hcc : contiguous (sg_base s) (fs ++ [(b, fr)])) by (apply contiguous_app; split; [done|by split_and!]).
    split; [|done| |done].
    + split; cbn; [|rewrite Hs, blocks_app, length_app, blocks_cons; cbn; rewrite app_nil_r; lia| |by rewrite Hw'].
      * exists hd. edestruct (disk_content (f_content f) hd (fs ++ [(b, fr)]) []) as [j Hj];
          [|exists j; by split].
        rewrite Hw, take_pwrite by done. rewrite Ht, blocks_app, blocks_cons. cbn. by rewrite !app_nil_r, <- !app_assoc.
      * apply Forall_app. by split; [|constructor].
    + cbn. replace (sg_size s) with (sg_data_start s + length (blocks fs))%nat by (rewrite Hs; cbn; lia).
      by apply (maybe_append_ok _ _ fs (b, fr)).
  - apply (write_at_before _ _ _ _ _ (sg_size s)) in Hw as [Hw Hw']; [|lia].
    split; [|done]. split; [|done|done|done]. split; cbn; [|done|done|by rewrite Hw'].
    exists hd. edestruct (disk_content (f_content f) hd fs []) as [j Hj]; [by rewrite Hw|exists j; by split].
Qed.

(** *** Recovery *)

(** Bytes with no whole valid block in front. *)
Definition unreadable (c : option SegmentCipher) (tail : list byte) : Prop :=
  (block_header_size c <= length tail)%nat -> forall h,
  peek_header c (take (block_header_size c) tail) = Ok h -> (bh_on_disk_size h <= length tail)%nat ->
  match open_frame c (take (bh_on_disk_size h) tail) with
  | Ok bytes => is_ok (batch_decode bytes) = false
  | Err e => code e <> IoError
  end.

(** A block that was cut is unreadable. *)
Lemma cut_unreadable c f n : frame_ok c f -> (n < length f.2)%nat -> unreadable c (take n f.2).
Proof.
  intros [_ Hs Hp _] Hn. unfold unreadable. rewrite length_take, take_take. intros Hh h Hk Hl.
  rewrite Nat.min_l in Hk by lia. rewrite Hp in Hk. injection Hk as <-. cbn in Hl. lia.
Qed.

(** At the end of the whole blocks the scans stop. *)
Lemma peek_at_tail s fs tail :
  on_disk s fs tail -> unreadable (sg_cipher s) tail ->
  peek_block (pos_after s fs) s = Ok None \/
  exists h, peek_block (pos_after s fs) s = Ok (Some h) /\
    ((sg_size s < pos_after s fs + bh_on_disk_size h)%nat \/
     match load_block (pos_after s fs) (bh_on_disk_size h) s with
     | Ok bytes => is_ok (batch_decode bytes) = false
     | Err e => code e <> IoError
     end).
Proof.
  intros Hd Hu. rewrite <- (app_nil_r fs) in Hd. destruct (od_read _ _ _ _ Hd) as [junk Hr].
  rewrite app_nil_r in Hd. pose proof (od_size _ _ _ Hd) as Hs. unfold peek_block, load_block.
  destruct (Nat.ltb_spec (sg_size s) (pos_after s fs + block_header_size (sg_cipher s))) as [|Hh]; [by left|].
  rewrite Hr. cbn [blocks fmap list_fmap concat app expected_bind]. fold (pos_after s fs) in Hs.
  rewrite take_app_le by lia. destruct (_ <? _)%nat; [by left|].
  destruct (peek_header _ _) as [h|] eqn:Hp; [|by left]. right. exists h. split; [done|].
  destruct (Nat.ltb_spec (sg_size s) (pos_after s fs + bh_on_disk_size h)) as [|Hl]; [by left|right].
  rewrite Hr. cbn [blocks fmap list_fmap concat app expected_bind]. rewrite take_app_le by lia.
  destruct (_ <? _)%nat; [done|]. apply Hu; [lia|done|lia].
Qed.

Lemma recover_loop_spec fuel s a c tail x last :
  on_disk s (a ++ c) tail -> unreadable (sg_cipher s) tail -> contiguous (last + 1) c -> (length c <= fuel)%nat ->
  recover_loop fuel s x (pos_after s a) last =
    (Ok (pos_after s (a ++ c), end_of (last + 1) c - 1), index_frames (pos_after s a) x c).
Proof.
  revert a c x last. induction fuel as [|fuel IH]; intros a c x last Hd Hu Hc Hfuel.
  { destruct c; [|cbn in Hfuel; lia]. cbn. rewrite app_nil_r. unfold end_of. cbn. do 3 f_equal. lia. }
  cbn [recover_loop]. destruct c as [|f c].
  { rewrite app_nil_r in *. cbn [index_frames]. replace (end_of (last + 1) [] - 1) with last by (unfold end_of; cbn; lia).
    destruct (pos_after s a <? sg_size s)%nat; cbn [negb]; [|done].
    destruct (peek_at_tail _ _ _ Hd Hu) as [->|(h & -> & Hh)]; [done|]. cbn [bh_on_disk_size].
    destruct (Nat.ltb_spec (sg_size s) (pos_after s a + bh_on_disk_size h)); [done|].
    destruct Hh as [|Hh]; [lia|]. destruct (load_block _ _ _) as [bytes|e].
    - by destruct (batch_decode bytes).
    - by rewrite bool_decide_eq_false_2. }
  destruct (od_bounds _ _ _ _ _ Hd) as (Hb & Hlt & Hok).
  rewrite (proj2 (Nat.ltb_lt _ _)) by done. cbn [negb].
  rewrite (peek_at_frame _ _ _ _ _ Hd). cbn [bh_on_disk_size bh_base_offset].
  rewrite (proj2 (Nat.ltb_ge _ _)) by lia. rewrite (load_at_frame _ _ _ _ _ Hd).
  rewrite <- (app_nil_r (batch_layout f.1)), batch_decode_layout by apply Hok.
  destruct Hc as (Hf & Hcount & Hc). rewrite <- pos_after_snoc. change (batch_last_offset f.1) with (last_of f).
  rewrite (IH (a ++ [f]) c) by (rewrite <- ?app_assoc; done || (cbn in Hfuel; lia)).
  rewrite <- app_assoc, end_of_cons. cbn [index_frames app]. by rewrite pos_after_snoc.
Qed.

(** The whole blocks in a prefix of [n] bytes. *)
Fixpoint whole_prefix (n : nat) (fs : list (RecordBatch * list byte)) : list (RecordBatch * list byte) :=
  match fs with
  | [] => []
  | f :: rest => if (length f.2 <=? n)%nat then f :: whole_prefix (n - length f.2) rest else []
  end.

Lemma whole_prefix_spec c n fs :
  Forall (frame_ok c) fs ->
  exists lost tail, fs = whole_prefix n fs ++ lost /\ take n (blocks fs) = blocks (whole_prefix n fs) ++ tail /\
    unreadable c tail.
Proof.
  intros Hf. revert n. induction Hf as [|f fs Hok Hf IH]; intros n; cbn [whole_prefix].
  - exists [], []. split_and!; [done|by destruct n|]. intros Hh. pose proof (header_size_pos c). cbn in Hh. lia.
  - rewrite blocks_cons. destruct (Nat.leb_spec (length f.2) n) as [Hn|Hn].
    + destruct (IH (n - length f.2)%nat) as (lost & tail & Hl & Ht & Hu). exists lost, tail. split_and!; [|  |done].
      * cbn. by rewrite <- Hl.
      * rewrite blocks_cons, take_app_ge by lia. by rewrite Ht, <- app_assoc.
    + exists (f :: fs), (take n f.2). split_and!; [done| |by apply cut_unreadable].
      by rewrite take_app_le by lia.
Qed.

(** A scan over the blocks feeds an empty index all of them. *)
Lemma scan_index_ok s fs tail x :
  on_disk s fs tail -> contiguous (sg_base s) fs -> fits_index (sg_base s) (sg_data_start s) fs ->
  index_ok (sg_base s) (sg_data_start s) [] x ->
  index_ok (sg_base s) (sg_data_start s) fs (index_frames (sg_data_start s) x fs).
Proof.
  intros Hd Hc Hf Hx. pose proof (index_frames_ok (sg_base s) (sg_data_start s) [] fs x Hc Hf) as Hi.
  cbn in Hi. rewrite Nat.add_0_r in Hi. apply Hi; [|done].
  eapply Forall_impl; [apply Hd|]. intros f. apply frame_pos.
Qed.

(** Cutting the file where the whole blocks end. *)
Lemma cut_at_rep s fs more tail :
  on_disk s (fs ++ more) tail ->
  match cut_at (pos_after s fs) s with
  | (Ok _, s') => on_disk s' fs [] /\ sg_index s' = sg_index s /\ same_segment s s' /\ sg_state s' = sg_state s
  | (Err _, s') =>
      on_disk s' (fs ++ more) tail /\ sg_index s' = sg_index s /\ same_segment s s' /\ sg_state s' = sg_state s
  end.
Proof.
  intros [(hd & junk & Hcont & Hhd) Hs Hfo Hre]. unfold cut_at.
  assert (Hp : sg_size s = (pos_after s fs + length (blocks more) + length tail)%nat).
  { rewrite Hs, blocks_app, length_app. unfold pos_after. lia. }
  assert (Hfo' : Forall (frame_ok (sg_cipher s)) fs) by (by apply Forall_app in Hfo as [? _]).
  destruct (Nat.ltb_spec (pos_after s fs) (sg_size s)) as [Hlt|Hge].
  - destruct (file_truncate _ _) as [[u|e] f] eqn:Ht.
    + apply file_truncate_ok in Ht as [Ht Hr]. split; [|by split]. split; cbn; [|unfold pos_after; lia|done|by rewrite Hr].
      exists hd, []. split; [|done]. rewrite Ht, app_nil_r. unfold ftruncate, pos_after.
      rewrite Hcont, blocks_app, <- !app_assoc, !length_app, (app_assoc hd), take_app_length'
        by (rewrite length_app; lia).
      replace (_ - _)%nat with 0%nat by lia. cbn. by rewrite app_nil_r.
    + apply file_truncate_err in Ht as [Ht Hr]. split; [|by split].
      split; cbn; [|done|done|by rewrite Hr]. exists hd, junk. by rewrite Ht.
  - assert (Hm : blocks more = [] /\ tail = []) by (split; apply nil_length_inv; lia).
    destruct Hm as [Hm ->]. split; [|by split]. split; [|by rewrite Hp, Hm|done|done].
    exists hd, junk. split; [|done]. by rewrite Hcont, blocks_app, Hm, app_nil_r.
Qed.

(** [recover] keeps the whole valid blocks and rebuilds the index over them. *)
Lemma segment_recover_rep s fs tail last s' :
  on_disk s fs tail -> unreadable (sg_cipher s) tail -> contiguous (sg_base s) fs ->
  fits_index (sg_base s) (sg_data_start s) fs -> si_base (sg_index s) = sg_base s ->
  segment_recover s = (Ok last, s') ->
  last = end_of (sg_base s) fs - 1 /\ seg_rep s' fs /\ same_segment s s' /\ sg_state s' = sg_state s.
Proof.
  intros Hd Hu Hc Hf Hib. unfold segment_recover.
  destruct (index_reset_entries (sg_index s)) as [Hxb Hxe].
  destruct (index_reset (sg_index s)) as [[u|e] x]; [|done]. cbn in Hxb, Hxe.
  assert (Hx : index_ok (sg_base s) (sg_data_start s) [] x) by (apply index_ok_nil; [by rewrite Hxb|done]).
  assert (Hloop := recover_loop_spec (sg_size s) s [] fs tail x (sg_base s - 1) Hd Hu).
  replace (pos_after s []) with (sg_data_start s) in Hloop by (unfold pos_after; cbn; lia).
  replace (sg_base s - 1 + 1) with (sg_base s) in Hloop by lia.
  rewrite Hloop by (done || by apply (frames_fuel s [] fs tail)). cbn [app].
  set (x' := index_frames _ _ _).
  assert (Hx' : index_ok (sg_base s) (sg_data_start s) fs x') by (by apply (scan_index_ok s fs tail)).
  assert (Hd' : on_disk (sg_set_index x' s) (fs ++ []) tail) by (rewrite app_nil_r; by destruct Hd).
  pose proof (cut_at_rep _ _ _ _ Hd') as Hcut. change (pos_after (sg_set_index x' s) fs) with (pos_after s fs) in Hcut.
  destruct (cut_at _ _) as [[u'|e] s1]; [|done]. destruct Hcut as (Hd1 & Hi1 & (Hs1b & Hs1c & Hs1d) & Hs1e). cbn in *.
  destruct (index_flush_same (sg_index s1)) as [Hfb Hfe]. rewrite Hi1 in *.
  destruct (index_flush x') as [[u''|e] x'']; [|done]. intros [= <- <-]. cbn in *.
  split; [done|]. split; [|by split_and!; cbn].
  split; cbn; [by destruct Hd1|by rewrite Hs1b| |by rewrite Hs1b, Hs1d].
  rewrite Hs1b, Hs1d. by eapply index_ok_same.
Qed.

(** *** Truncation *)

(** The batches wholly before an offset. *)
Fixpoint keep_before (target : Z) (fs : list (RecordBatch * list byte)) : list (RecordBatch * list byte) :=
  match fs with
  | [] => []
  | f :: rest => if last_of f <? target then f :: keep_before target rest else []
  end.

Lemma keep_before_prefix target fs : exists rest, fs = keep_before target fs ++ rest.
Proof.
  induction fs as [|f fs [rest IH]]; cbn; [by exists []|]. destruct (_ <? _); [|by exists (f :: fs)].
  exists rest. cbn. by rewrite <- IH.
Qed.

Definition not_boundary {A} : expected A :=
  make_error InvalidArgument "truncate_to: el offset no es frontera de batch".

Lemma position_loop_past fuel s target a c :
  on_disk s (a ++ c) [] -> contiguous (end_of (sg_base s) a) c -> target < end_of (sg_base s) a ->
  position_loop fuel s target (pos_after s a) = not_boundary.
Proof.
  intros Hd Hc Ht. destruct fuel as [|fuel]; [done|]. cbn [position_loop]. destruct c as [|f c].
  { rewrite app_nil_r in Hd. by rewrite (od_end _ _ Hd), Nat.ltb_irrefl. }
  destruct (pos_after s a <? sg_size s)%nat; [|done]. cbn [negb].
  rewrite (peek_at_frame _ _ _ _ _ Hd). cbn. destruct Hc as (-> & _).
  rewrite (proj2 (Z.eqb_neq _ _)), (proj2 (Z.ltb_lt _ _)) by lia. done.
Qed.

Lemma position_loop_spec fuel s target a c :
  on_disk s (a ++ c) [] -> contiguous (end_of (sg_base s) a) c -> (length c <= fuel)%nat ->
  end_of (sg_base s) a <= target < end_of (sg_base s) (a ++ c) ->
  position_loop fuel s target (pos_after s a) =
    if end_of (sg_base s) (a ++ keep_before target c) =? target
    then Ok (pos_after s (a ++ keep_before target c)) else not_boundary.
Proof.
  revert a c. induction fuel as [|fuel IH]; intros a c Hd Hc Hfuel Ht.
  { destruct c; [|cbn in Hfuel; lia]. rewrite app_nil_r in Ht. lia. }
  cbn [position_loop]. destruct c as [|f c]; [rewrite app_nil_r in Ht; lia|].
  destruct (od_bounds _ _ _ _ _ Hd) as (Hb & Hlt & Hok).
  rewrite (proj2 (Nat.ltb_lt _ _)) by done. cbn [negb].
  rewrite (peek_at_frame _ _ _ _ _ Hd). cbn [expected_bind bh_base_offset bh_on_disk_size].
  destruct Hc as (Hf & Hcount & Hc). rewrite Hf. pose proof (last_of_first f) as Hlast.
  destruct (Z.eqb_spec (end_of (sg_base s) a) target) as [He|Hne].
  { cbn [keep_before]. rewrite (proj2 (Z.ltb_ge _ _)) by lia. rewrite app_nil_r.
    by rewrite He, Z.eqb_refl. }
  rewrite (proj2 (Z.ltb_ge _ _)) by lia. rewrite <- pos_after_snoc.
  rewrite cons_middle, app_assoc in Hd, Ht. assert (Hend : end_of (sg_base s) (a ++ [f]) = last_of f + 1).
  { rewrite end_of_app, end_of_cons. done. }
  cbn [keep_before]. destruct (Z.ltb_spec (last_of f) target) as [Hl|Hl].
  - rewrite (cons_middle f a (keep_before target c)), (app_assoc a [f]). rewrite <- Hend in Hc. cbn in Hfuel. apply IH; [done|done|lia|lia].
  - rewrite app_nil_r. rewrite (proj2 (Z.eqb_neq _ _)) by done.
    rewrite (position_loop_past _ _ _ _ c); [done|done|by rewrite Hend|lia].
Qed.

Lemma rebuild_loop_spec fuel s a c x :
  on_disk s (a ++ c) [] -> (length c <= fuel)%nat ->
  rebuild_loop fuel s x (pos_after s a) = (Ok tt, index_frames (pos_after s a) x c).
Proof.
  revert a c x. induction fuel as [|fuel IH]; intros a c x Hd Hfuel.
  { destruct c; [done|cbn in Hfuel; lia]. }
  cbn [rebuild_loop]. destruct c as [|f c].
  { rewrite app_nil_r in Hd. by rewrite (od_end _ _ Hd), Nat.ltb_irrefl. }
  destruct (od_bounds _ _ _ _ _ Hd) as (Hb & Hlt & Hok).
  rewrite (proj2 (Nat.ltb_lt _ _)) by done. cbn [negb].
  rewrite (peek_at_frame _ _ _ _ _ Hd). cbn [bh_base_offset bh_on_disk_size].
  rewrite <- pos_after_snoc. rewrite (IH (a ++ [f]) c) by (rewrite <- ?app_assoc; done || (cbn in Hfuel; lia)).
  cbn [index_frames]. by rewrite pos_after_snoc.
Qed.

(** The index is rebuilt over the blocks on the disk, or is left without anchors. *)
Lemma rebuild_index_rep s fs :
  on_disk s fs [] -> contiguous (sg_base s) fs -> fits_index (sg_base s) (sg_data_start s) fs ->
  si_base (sg_index s) = sg_base s ->
  seg_rep (rebuild_index s).2 fs /\ same_segment s (rebuild_index s).2 /\
  sg_state (rebuild_index s).2 = sg_state s.
Proof.
  intros Hd Hc Hf Hib. unfold rebuild_index.
  assert (Hset : forall x, index_ok (sg_base s) (sg_data_start s) fs x -> seg_rep (sg_set_index x s) fs).
  { intros x Hx. split; cbn; [by destruct Hd|done..]. }
  destruct (index_reset_entries (sg_index s)) as [Hxb Hxe].
  destruct (index_reset (sg_index s)) as [r x]. cbn in Hxb, Hxe. rewrite Hib in Hxb.
  assert (Hx0 : index_ok (sg_base s) (sg_data_start s) fs x) by (split; [done|rewrite Hxe; constructor..]).
  destruct r as [u|e]; [|by split; [apply Hset|]].
  assert (Hloop := rebuild_loop_spec (sg_size s) s [] fs x Hd).
  replace (pos_after s []) with (sg_data_start s) in Hloop by (unfold pos_after; cbn; lia).
  rewrite Hloop by (by apply (frames_fuel s [] fs [])).
  assert (Hx' : index_ok (sg_base s) (sg_data_start s) fs (index_frames (sg_data_start s) x fs)).
  { apply (scan_index_ok s fs []); try done. by apply index_ok_nil. }
  destruct (index_flush_same (index_frames (sg_data_start s) x fs)) as [Hfb Hfe].
  destruct (index_flush _) as [r x'']. cbn in *. split; [|done]. apply Hset. by eapply index_ok_same.
Qed.

(** [truncate_to] keeps the batches before the offset, when a batch starts there. *)
Lemma segment_truncate_rep s fs target :
  seg_rep s fs -> sg_base s <= target < end_of (sg_base s) fs ->
  let kept := keep_before target fs in
  if end_of (sg_base s) kept =? target
  then match segment_truncate_to target s with
       | (Ok _, s') => seg_rep s' kept /\ same_segment s s' /\ sg_state s' = SegActive
       | (Err _, s') => (seg_rep s' kept \/ seg_rep s' fs) /\ same_segment s s'
       end
  else segment_truncate_to target s = (not_boundary, s).
Proof.
  intros Hrep Ht. cbv zeta. pose proof Hrep as [Hd Hc Hi Hf].
  assert (Hpos : position_of target s =
    if end_of (sg_base s) (keep_before target fs) =? target
    then Ok (pos_after s (keep_before target fs)) else not_boundary).
  { unfold position_of. destruct (Z.eqb_spec target (sg_base s)) as [->|Hne].
    - destruct fs as [|f fs]; [cbn in *; unfold end_of in Ht; cbn in Ht; lia|]. destruct Hc as (Hff & Hcount & _).
      pose proof (last_of_first f). cbn [keep_before]. rewrite (proj2 (Z.ltb_ge _ _)) by lia.
      cbn. rewrite Z.eqb_refl. unfold pos_after. cbn. by rewrite Nat.add_0_r.
    - pose proof (position_loop_spec (sg_size s) s target [] fs Hd Hc) as Hl.
      cbn [app] in Hl. rewrite <- Hl; [unfold pos_after; cbn; by rewrite Nat.add_0_r|by apply (frames_fuel s [] fs [])|].
      done. }
  unfold segment_truncate_to. rewrite Hpos. destruct (_ =? target); [|done].
  destruct (keep_before_prefix target fs) as [rest Hsplit].
  set (kept := keep_before target fs) in *. clearbody kept. subst fs.
  apply contiguous_app in Hc as Hc'. destruct Hc' as [Hck _].
  pose proof (cut_at_rep s kept rest [] Hd) as Hcut.
  destruct (cut_at _ _) as [[u|e] s1].
  - destruct Hcut as (Hd1 & Hi1 & (Hb1 & Hc1 & Hs1) & _).
    destruct (rebuild_index_rep s1 kept) as (Hr & (Hb2 & Hc2 & Hs2) & _);
      [done|by rewrite Hb1|rewrite Hb1, Hs1; by eapply fits_app|rewrite Hi1, Hb1; apply Hi|].
    destruct (rebuild_index s1) as [[u'|e] s2]; cbn in *.
    + split; [by destruct Hr as [[] ? ? ?]|]. split; [|done]. unfold same_segment; cbn. split_and!; congruence.
    + split; [by left|]. unfold same_segment. split_and!; congruence.
  - destruct Hcut as (Hd1 & Hi1 & Hsame & _). split; [right|done]. destruct Hsame as (Hb1 & Hc1 & Hs1).
    split; [done|by rewrite Hb1|by rewrite Hb1, Hs1, Hi1|by rewrite Hb1, Hs1].
Qed.

(** *** Termination *)

Lemma peek_block_advances position s h :
  peek_block position s = Ok (Some h) -> (0 < bh_on_disk_size h)%nat.
Proof.
  unfold peek_block. destruct (_ <? _)%nat; [done|]. destruct (read_at _ _ _) as [header|]; [|done].
  cbn [expected_bind]. destruct (_ <? _)%nat; [done|].
  unfold peek_header. destruct (sg_cipher s).
  - destruct (cipher_peek header); cbn [expected_bind]; [|done]. intros [= <-].
    cbn [bh_on_disk_size]. unfold ev_on_disk_size, kEncBlockHeaderSize. lia.
  - unfold batch_peek. destruct (_ <? _)%nat; [done|]. cbv zeta. destruct (_ <? 0); [done|].
    destruct (Nat.ltb_spec (kLengthFieldEnd + Z.to_nat (load_le_i 4 (subspan kLengthPos header))) kHeaderSize);
      [done|]. cbn [expected_bind view_encoded_size]. intros [= <-]. cbn [bh_on_disk_size].
    unfold kHeaderSize in *. lia.
Qed.

Ltac scan_step :=
  match goal with
  | |- context [(?p <? sg_size ?s)%nat] => destruct (Nat.ltb_spec p (sg_size s)); cbn [negb]; [|done]
  end;
  match goal with
  | |- context [peek_block ?p ?s] =>
      destruct (peek_block p s) as [[h|]|] eqn:Hpeek; cbn [expected_bind]; [|done..];
      apply peek_block_advances in Hpeek
  end.

Lemma read_loop_fuel s offset max f1 f2 position r :
  (sg_size s <= position + f1)%nat -> (sg_size s <= position + f2)%nat ->
  segment_read_loop f1 s offset max position r = segment_read_loop f2 s offset max position r.
Proof.
  revert f2 position r. induction f1 as [|f1 IH]; intros [|f2] position r H1 H2; [done| | |]; cbn [segment_read_loop].
  1,2: by rewrite (proj2 (Nat.ltb_ge _ _)) by lia.
  scan_step. rewrite !(IH f2) by lia. destruct (load_block _ _ _); cbn [expected_bind]; [|done].
  by rewrite (IH f2) by lia.
Qed.

Lemma recover_loop_fuel s f1 f2 position x last :
  (sg_size s <= position + f1)%nat -> (sg_size s <= position + f2)%nat ->
  recover_loop f1 s x position last = recover_loop f2 s x position last.
Proof.
  revert f2 position x last. induction f1 as [|f1 IH]; intros [|f2] position x last H1 H2; [done| | |]; cbn [recover_loop].
  1,2: by rewrite (proj2 (Nat.ltb_ge _ _)) by lia.
  scan_step. cbv zeta. destruct (_ <? _)%nat; [done|]. destruct (load_block _ _ _); [|done].
  destruct (batch_decode _); [|done]. apply IH; lia.
Qed.

Lemma position_loop_fuel s target f1 f2 position :
  (sg_size s <= position + f1)%nat -> (sg_size s <= position + f2)%nat ->
  position_loop f1 s target position = position_loop f2 s target position.
Proof.
  revert f2 position. induction f1 as [|f1 IH]; intros [|f2] position H1 H2; [done| | |]; cbn [position_loop].
  1,2: by rewrite (proj2 (Nat.ltb_ge _ _)) by lia.
  scan_step. by rewrite (IH f2) by lia.
Qed.

Lemma rebuild_loop_fuel s f1 f2 position x :
  (sg_size s <= position + f1)%nat -> (sg_size s <= position + f2)%nat ->
  rebuild_loop f1 s x position = rebuild_loop f2 s x position.
Proof.
  revert f2 position x. induction f1 as [|f1 IH]; intros [|f2] position x H1 H2; [done| | |]; cbn [rebuild_loop].
  1,2: by rewrite (proj2 (Nat.ltb_ge _ _)) by lia.
  scan_step. by rewrite (IH f2) by lia.
Qed.

(** C37. The four scans of a segment terminate within as many turns as the segment has bytes, whatever
    bytes the file holds: every turn advances by a whole header at least, so that more turns give
    the same result. *)
Theorem segment_scans_terminate (s : Segment) (position extra : nat) (offset target last : Z) (max : nat)
    (r : FetchResult) (x : SparseIndex) :
  let fuel := sg_size s in
  segment_read_loop (fuel + extra) s offset max position r = segment_read_loop fuel s offset max position r /\
  recover_loop (fuel + extra) s x position last = recover_loop fuel s x position last /\
  position_loop (fuel + extra) s target position = position_loop fuel s target position /\
  rebuild_loop (fuel + extra) s x position = rebuild_loop fuel s x position.
Proof.
  cbv zeta. split_and!.
  - apply read_loop_fuel; lia.
  - apply recover_loop_fuel; lia.
  - apply position_loop_fuel; lia.
  - apply rebuild_loop_fuel; lia.
Qed.

(** *** A crash *)

Lemma call_loop_healthy plan : no_errors plan -> exists rest, call_loop plan = (None, rest) /\ no_errors rest.
Proof.
  induction 1 as [|o plan Ho Hp IH]; cbn; [exists []; split; [done|constructor]|].
  destruct o; [exists plan; by split|exact IH|done].
Qed.

Lemma file_sync_healthy f : no_errors (f_plan f) -> exists f', file_sync f = (Ok tt, f').
Proof. intros H. unfold file_sync. destruct (call_loop_healthy _ H) as (rest & -> & _). eauto. Qed.

Lemma file_truncate_healthy len f :
  no_errors (f_plan f) -> exists f', file_truncate len f = (Ok tt, f') /\ no_errors (f_plan f').
Proof. intros H. unfold file_truncate. destruct (call_loop_healthy _ H) as (rest & -> & ?). eauto. Qed.

Lemma index_flush_healthy x : no_errors (f_plan (si_file x)) -> is_ok (index_flush x).1 = true.
Proof.
  intros H. unfold index_flush. destruct (_ <? _)%nat.
  - unfold write_at. destruct (write_loop_succeeds (f_plan (si_file x))
      (concat (index_entry_encode <$> drop (si_flushed x) (si_entries x))) (si_flushed x * kEntrySize)
      (f_content (si_file x)) H) as (c & plan & Hp & ->). cbn.
    destruct (file_sync_healthy (MkFile c plan (f_reads (si_file x)))) as [f' ->]; [done|done].
  - destruct (file_sync_healthy _ H) as [f' ->]. done.
Qed.

Lemma index_maybe_append_file o p l x : si_file (index_maybe_append o p l x) = si_file x.
Proof. unfold index_maybe_append. by destruct (_ <=? _). Qed.

Lemma index_frames_file pos x fs : si_file (index_frames pos x fs) = si_file x.
Proof. revert pos x. induction fs as [|f fs IH]; intros pos x; cbn; [done|]. by rewrite IH, index_maybe_append_file. Qed.

Lemma segment_recover_ok s fs tail :
  on_disk s fs tail -> unreadable (sg_cipher s) tail -> contiguous (sg_base s) fs ->
  no_errors (f_plan (sg_log s)) -> no_errors (f_plan (si_file (sg_index s))) ->
  is_ok (segment_recover s).1 = true.
Proof.
  intros Hd Hu Hc Hl Hx. unfold segment_recover, index_reset.
  destruct (file_truncate_healthy 0 _ Hx) as (xf & -> & Hxf).
  assert (Hloop := recover_loop_spec (sg_size s) s [] fs tail (MkIndex xf (si_base (sg_index s))
    (si_interval (sg_index s)) [] 0 0) (sg_base s - 1) Hd Hu).
  replace (pos_after s []) with (sg_data_start s) in Hloop by (unfold pos_after; cbn; lia).
  replace (sg_base s - 1 + 1) with (sg_base s) in Hloop by lia.
  rewrite Hloop by (done || by apply (frames_fuel s [] fs tail)). cbn [app].
  set (x' := index_frames _ _ _). assert (Hx' : si_file x' = xf) by (subst x'; by rewrite index_frames_file).
  pose proof (index_flush_healthy x') as Hflush. rewrite Hx' in Hflush. specialize (Hflush Hxf).
  unfold cut_at. change (sg_size (sg_set_index x' s)) with (sg_size s).
  change (sg_log (sg_set_index x' s)) with (sg_log s).
  destruct (pos_after s fs <? sg_size s)%nat; [destruct (file_truncate_healthy (pos_after s fs) _ Hl) as (f' & -> & _)|].
  all: cbn; by destruct (index_flush x') as [[]].
Qed.

(** How the log file of a segment begins: a segment in the clear with its first block, a sealed one with
    the header that holds the salt of its key. *)
Inductive segment_start (key : option (list byte)) : list byte -> option SegmentCipher -> Prop :=
  | StartClear : segment_start key [] None
  | StartSealed kek salt c : key = Some kek -> length salt = kEncSaltBytes -> cipher_create kek salt = Ok c ->
      segment_start key (encode_segment_header salt) (Some c).

(** What is left of the start by a cut at [n]: a sealed segment whose header is not whole opens as one
    in the clear. *)
Definition start_kept {A} (n : nat) (hd : list byte) (whole cut : A) : A := if (n <? length hd)%nat then cut else whole.

Lemma file_size_healthy f : no_errors (f_reads f) -> file_size f = Ok (length (f_content f)).
Proof. intros Hr. unfold file_size. destruct Hr as [|o l Ho _]; [done|]. by destruct o. Qed.

Lemma read_at_healthy n f : no_errors (f_reads f) -> read_at n 0 f = Ok (take n (f_content f)).
Proof. intros Hr. unfold read_at. by rewrite read_loop_complete. Qed.

Lemma detect_cut key hd c n rest log :
  segment_start key hd c -> (hd = [] -> is_encrypted_segment_header (take kEncSegmentHeaderSize rest) = false) ->
  f_content log = take n (hd ++ rest) -> no_errors (f_reads log) ->
  detect_cipher (length (f_content log)) key log = Ok (start_kept n hd c None, start_kept n hd (length hd) 0%nat).
Proof.
  intros Hstart Hplain Hcut Hr. unfold detect_cipher, start_kept. rewrite read_at_healthy by done. cbn [expected_bind].
  destruct Hstart as [|kek salt c Hkey Hsalt Hc].
  - change (n <? length [])%nat with false. cbn [app length] in *. destruct (Nat.ltb_spec (length (f_content log)) kEncSegmentHeaderSize) as [|Hge]; [done|].
    rewrite Hcut, length_take in Hge. rewrite Hcut, take_take, Nat.min_l by lia. rewrite Hplain by done. by rewrite andb_false_r.
  - pose proof (length_segment_header salt Hsalt) as Hl. rewrite Hl. rewrite Hcut, length_take, length_app, Hl.
    destruct (Nat.ltb_spec n kEncSegmentHeaderSize) as [Hlt|Hge]; [by rewrite (proj2 (Nat.ltb_lt _ _)) by lia|].
    rewrite (proj2 (Nat.ltb_ge _ _)) by lia. rewrite take_take, Nat.min_l, take_app_le, take_ge by lia. rewrite Hl, Nat.eqb_refl.
    destruct (segment_header_roundtrip salt [] Hsalt) as (_ & He & Hp). rewrite app_nil_r in He, Hp. rewrite He, Hp. cbn [andb]. rewrite Hkey. cbn [expected_bind]. by rewrite Hc.
Qed.

(** The entries of an index file: increasing offsets, positions of 32 bits. *)
Definition entries_ok (entries : list IndexEntry) : Prop :=
  StronglySorted Z.lt (ie_relative <$> entries) /\ Forall (fun e => u_range 32 (ie_relative e) /\ u_range 32 (ie_position e)) entries.

Definition index_bytes (entries : list IndexEntry) : list byte := concat (index_entry_encode <$> entries).

Lemma length_entry e : length (index_entry_encode e) = kEntrySize.
Proof. unfold index_entry_encode. by rewrite length_app, !length_store_le. Qed.

Lemma length_index_bytes entries : length (index_bytes entries) = (length entries * kEntrySize)%nat.
Proof. induction entries as [|e l IH]; [done|]. unfold index_bytes in *. cbn [fmap list_fmap concat]. rewrite length_app, length_entry, IH. cbn [length]. lia. Qed.

Lemma take_index_bytes m entries : take (m * kEntrySize) (index_bytes entries) = index_bytes (take m entries).
Proof.
  revert m. induction entries as [|e l IH]; intros m; [unfold index_bytes; cbn [fmap list_fmap concat]; by rewrite !take_nil|]. destruct m as [|m]; [done|]. unfold index_bytes in *. cbn [take fmap list_fmap concat].
  rewrite take_app_ge by (rewrite length_entry; unfold kEntrySize; lia). rewrite length_entry. do 2 f_equal. rewrite <- IH. f_equal. unfold kEntrySize. lia.
Qed.

Lemma entry_decodes e rest : u_range 32 (ie_relative e) -> u_range 32 (ie_position e) ->
  index_entry_decode (subspan_n 0 kEntrySize (index_entry_encode e ++ rest)) = e.
Proof.
  intros Hr Hp. unfold subspan_n. rewrite drop_0, take_app_le, take_ge by (rewrite length_entry; lia).
  unfold index_entry_decode, index_entry_encode, subspan. rewrite drop_0, load_store_u by done.
  rewrite drop_app_length' by (by rewrite length_store_le). rewrite <- (app_nil_r (store_le 4 (ie_position e))), load_store_u by done. by destruct e.
Qed.

Lemma index_parse_reads entries acc :
  entries_ok (acc ++ entries) -> index_parse (length entries) (index_bytes entries) acc = Ok (acc ++ entries).
Proof.
  revert acc. induction entries as [|e l IH]; intros acc Hok; [by rewrite app_nil_r|]. cbn [length index_parse]. unfold index_bytes. cbn [fmap list_fmap concat].
  destruct Hok as [Hs Hr]. pose proof Hr as [_ Hr']%Forall_app. apply Forall_cons in Hr' as [[Hr1 Hr2] _]. rewrite entry_decodes by done.
  assert (Hlast : match last acc with Some e0 => ie_relative e <=? ie_relative e0 | None => false end = false).
  { destruct (last acc) as [e0|] eqn:Hl; [|done]. apply Z.leb_gt. rewrite fmap_app in Hs. apply StronglySorted_app in Hs as (Hx & _).
    apply Hx; [|by left]. apply list_elem_of_fmap. exists e0. split; [done|]. by apply last_Some_elem_of. }
  rewrite Hlast, drop_app_length' by (by rewrite length_entry). fold (index_bytes l). rewrite IH; [by rewrite <- app_assoc|].
  split; by rewrite <- app_assoc.
Qed.

(** An index file that was cut anywhere opens: its last entry may be lost. *)
Lemma index_cut_opens base interval entries k index :
  entries_ok entries -> f_content index = take k (index_bytes entries) -> no_errors (f_reads index) ->
  exists x, index_open index base interval = Ok x /\ si_base x = base /\ si_file x = index.
Proof.
  intros [Hs Hr] Hcut Hreads. unfold index_open. rewrite file_size_healthy by done. cbn [expected_bind].
  set (count := (length (f_content index) / kEntrySize)%nat). destruct (count =? 0)%nat; [by eexists|].
  assert (Hcount : (count * kEntrySize <= length (f_content index))%nat) by (rewrite Nat.mul_comm; apply Nat.Div0.mul_div_le).
  rewrite read_at_healthy by done. cbn [expected_bind]. pose proof Hcount as Hle. rewrite Hcut, length_take, length_index_bytes in Hle.
  rewrite length_take, Nat.min_l, Nat.eqb_refl by done. cbn [negb].
  rewrite Hcut, take_take, Nat.min_l, take_index_bytes by lia.
  assert (Hlen : length (take count entries) = count) by (rewrite length_take; unfold kEntrySize in Hle; lia).
  pose proof (index_parse_reads (take count entries) []) as Hparse. rewrite Hlen in Hparse. rewrite Hparse; [by eexists|]. cbn [app].
  split; [|by apply Forall_take].
  rewrite fmap_take. rewrite <- (take_drop count (ie_relative <$> entries)) in Hs. by apply StronglySorted_app in Hs as (_ & ? & _).
Qed.

Lemma whole_prefix_zero c fs : Forall (frame_ok c) fs -> whole_prefix 0 fs = [].
Proof. intros Hf. destruct Hf as [|f fs Hf _]; [done|]. cbn. pose proof (frame_pos _ _ Hf). by rewrite (proj2 (Nat.leb_gt _ _)) by lia. Qed.

(** What the reopened segment has on disk: the whole blocks, and a tail that is none. *)
Lemma cut_on_disk hd fs n c s :
  Forall (frame_ok c) fs -> f_content (sg_log s) = take n (hd ++ blocks fs) -> sg_size s = length (f_content (sg_log s)) ->
  (length hd <= kEncSegmentHeaderSize)%nat -> sg_cipher s = start_kept n hd c None -> sg_data_start s = start_kept n hd (length hd) 0%nat ->
  no_errors (f_reads (sg_log s)) ->
  exists lost tail, fs = whole_prefix (n - length hd) fs ++ lost /\ on_disk s (whole_prefix (n - length hd) fs) tail /\ unreadable (sg_cipher s) tail.
Proof.
  intros Hframes Hcut Hsize Hhd Hc Hd Hr. unfold start_kept in *. destruct (Nat.ltb_spec n (length hd)) as [Hlt|Hge].
  - replace (n - length hd)%nat with 0%nat by lia. rewrite (whole_prefix_zero c fs Hframes). exists fs, (take n hd). split; [done|].
    rewrite take_app_le in Hcut by lia. split.
    + split; [|rewrite Hsize, Hcut, Hd; cbn; lia|constructor|done]. exists [], []. rewrite Hcut, Hd. cbn. by rewrite app_nil_r.
    + intros Hh. exfalso. rewrite Hc, length_take in Hh. cbn [block_header_size] in Hh. unfold kHeaderSize, kEncSegmentHeaderSize in *. lia.
  - destruct (whole_prefix_spec c (n - length hd) fs Hframes) as (lost & tail & Hsplit & Htake & Hu). exists lost, tail.
    rewrite take_app_ge, Htake in Hcut by done. split; [done|]. rewrite Hc. split; [|done].
    split; [|rewrite Hsize, Hcut, Hd, !length_app; lia|rewrite Hc; rewrite Hsplit in Hframes; by apply Forall_app in Hframes as [? _]|done].
    exists hd, []. split; [|done]. by rewrite Hcut, !app_nil_r.
Qed.

(** C11. A crash may cut the log file and the index file of a segment, in the clear or sealed, at any byte
    each.  On disks that answer, opening the segment again succeeds, as one in the clear when not even
    the header of a sealed one is whole; recovering it then succeeds and gives exactly the batches
    whose blocks are whole on the disk, with the offset of the last one; and the recovered segment
    reads as that sequence.  The batches are contiguous and their positions fit the index; the first
    block of a segment in the clear does not begin like the header of a sealed one. *)
Theorem segment_crash_recovery (base interval : Z) (key : option (list byte)) (hd : list byte) (c : option SegmentCipher)
    (fs : list (RecordBatch * list byte)) (entries : list IndexEntry) (n k : nat) (log index : File)
    (Hstart : segment_start key hd c) (Hframes : Forall (frame_ok c) fs)
    (Hplain : hd = [] -> is_encrypted_segment_header (take kEncSegmentHeaderSize (blocks fs)) = false)
    (Hcontiguous : contiguous base fs) (Hfits : fits_index base (length hd) fs) (Hentries : entries_ok entries)
    (Hlog : f_content log = take n (hd ++ blocks fs)) (Hindex : f_content index = take k (index_bytes entries))
    (Hlog_disk : no_errors (f_plan log) /\ no_errors (f_reads log)) (Hindex_disk : no_errors (f_plan index) /\ no_errors (f_reads index)) :
  let kept := whole_prefix (n - length hd) fs in
  exists s s', segment_open base interval key log index = Ok s /\ sg_cipher s = start_kept n hd c None /\
    segment_recover s = (Ok (end_of base kept - 1), s') /\ seg_rep s' kept /\
    forall offset max, segment_read offset max s' = Ok (fetch_spec offset max kept).
Proof.
  cbv zeta. destruct Hlog_disk as [Hlp Hlr], Hindex_disk as [Hxp Hxr].
  destruct (index_cut_opens base interval entries k index Hentries Hindex Hxr) as (x & Hx & Hxb & Hxf).
  set (s := MkSegment base log x (length (f_content log)) (start_kept n hd c None) (start_kept n hd (length hd) 0%nat) SegActive).
  assert (Hopen : segment_open base interval key log index = Ok s).
  { unfold segment_open. rewrite file_size_healthy by done. cbn [expected_bind]. rewrite (detect_cut key hd c n (blocks fs)) by done.
    cbn [expected_bind]. by rewrite Hx. }
  assert (Hhd : (length hd <= kEncSegmentHeaderSize)%nat) by (destruct Hstart; [cbn; lia|by rewrite length_segment_header]).
  destruct (cut_on_disk hd fs n c s) as (lost & tail & Hsplit & Hd & Hu); try done.
  exists s. set (kept := whole_prefix _ fs) in *.
  assert (Hc : contiguous (sg_base s) kept) by (rewrite Hsplit in Hcontiguous; by apply contiguous_app in Hcontiguous as [? _]).
  assert (Hf : fits_index (sg_base s) (sg_data_start s) kept).
  { subst s kept. cbn [sg_base sg_data_start]. unfold start_kept. destruct (Nat.ltb_spec n (length hd)) as [Hlt|Hge].
    - replace (n - length hd)%nat with 0%nat by lia. rewrite (whole_prefix_zero c fs Hframes). cbn. unfold fits_index. cbn. lia.
    - rewrite Hsplit in Hcontiguous, Hfits. by eapply fits_app. }
  pose proof (segment_recover_ok s kept tail Hd Hu Hc) as Hok. specialize (Hok Hlp). rewrite <- Hxf in Hxp. specialize (Hok Hxp).
  destruct (segment_recover s) as [[last|e] s'] eqn:Hrec; [|done].
  destruct (segment_recover_rep s kept tail last s') as (-> & Hrep & _ & _); try done.
  exists s'. split_and!; try done. intros offset max. by apply segment_read_fetch.
Qed.
End Log.

(** ** An encrypted segment cut in the middle of its second block *)

Definition sealed_frame (random : expected (list byte)) (dek : list byte) (b : RecordBatch)
    : RecordBatch * list byte :=
  (b, match @frame_of sample_crypto (Some (MkCipher dek)) random b with Ok fr => fr | Err _ => [] end).

Definition crash_salt : list byte := replicate 16 4.
Definition crash_frames : list (RecordBatch * list byte) :=
  [sealed_frame (Ok (replicate 12 3)) ([9] ++ crash_salt) (MkBatch (MkHeader 0 0 (-1) (-1) (-1) 2) [1; 2; 3; 4]);
   sealed_frame (Ok (replicate 12 5)) ([9] ++ crash_salt) (MkBatch (MkHeader 2 0 (-1) (-1) (-1) 1) [5])].
Definition crash_log : File :=
  MkFile (take (32 + 86 + 50) (encode_segment_header crash_salt ++ blocks crash_frames))
    [Interrupted; Transfer 3] [Interrupted; Transfer 7; Transfer 2].
Definition crash_entries : list IndexEntry := [MkIndexEntry 1 0; MkIndexEntry 2 118].
Definition crash_index : File := MkFile (take 13 (index_bytes crash_entries)) [Transfer 4] [Interrupted; Transfer 3].

Lemma sealed_frame_ok k dek b :
  batch_ok b -> is_ok (@frame_of sample_crypto (Some (MkCipher dek)) (Ok (replicate 12 k)) b) = true ->
  @frame_ok sample_crypto (Some (MkCipher dek)) (sealed_frame (Ok (replicate 12 k)) dek b).
Proof.
  intros Hb. unfold sealed_frame.
  destruct (@frame_of sample_crypto (Some (MkCipher dek)) (Ok (replicate 12 k)) b) as [fr|] eqn:Hf; [|done].
  intros _. eapply (@frame_of_ok sample_crypto sample_crypto_laws); [done| |exact Hf].
  intros n [= <-]. done.
Qed.

Lemma crash_frames_ok : Forall (@frame_ok sample_crypto (Some (MkCipher ([9] ++ crash_salt)))) crash_frames.
Proof.
  apply Forall_cons_2; [|apply Forall_cons_2; [|apply Forall_nil_2]].
  all: apply sealed_frame_ok; [unfold batch_ok, header_ok; cbn; by_ranges; vm_compute; easy|vm_compute; reflexivity].
Qed.

Lemma segment_crash_recovery_witness :
  exists s s', @segment_open sample_crypto 0 64 (Some [9]) crash_log crash_index = Ok s /\
    @segment_recover sample_crypto s = (Ok 1, s') /\
    @segment_read sample_crypto 1 100 s' = Ok (MkFetch (batch_encode (MkBatch (MkHeader 0 0 (-1) (-1) (-1) 2) [1; 2; 3; 4]) []) 2).
Proof.
  assert (Hstart : @segment_start sample_crypto (Some [9]) (encode_segment_header crash_salt) (Some (MkCipher ([9] ++ crash_salt))))
    by (eapply StartSealed; reflexivity).
  assert (Hplain : encode_segment_header crash_salt = [] ->
    is_encrypted_segment_header (take kEncSegmentHeaderSize (blocks crash_frames)) = false) by discriminate.
  assert (Hcont : contiguous 0 crash_frames) by (repeat split; vm_compute; discriminate).
  assert (Hfits : fits_index 0 (length (encode_segment_header crash_salt)) crash_frames) by (split; vm_compute; discriminate).
  assert (Hentries : entries_ok crash_entries) by (split; [repeat constructor|by_ranges]).
  assert (Hlog : no_errors (f_plan crash_log) /\ no_errors (f_reads crash_log)) by (split; repeat constructor).
  assert (Hindex : no_errors (f_plan crash_index) /\ no_errors (f_reads crash_index)) by (split; repeat constructor).
  destruct (@segment_crash_recovery sample_crypto 0 64 (Some [9]) _ _ crash_frames crash_entries (32 + 86 + 50) 13 crash_log crash_index
    Hstart crash_frames_ok Hplain Hcont Hfits Hentries eq_refl eq_refl Hlog Hindex) as (s & s' & Hopen & _ & Hrec & _ & Hread).
  exists s, s'. split; [exact Hopen|]. split; [exact Hrec|]. rewrite Hread. vm_compute. reflexivity.
Defined.

(** A sealed segment of which the crash left less than its header (nothing, when the header was never
    flushed) opens in the clear although a key is configured, and what is appended to it from then on
    is on the disk in the clear. *)
Theorem torn_header_appends_clear :
  let b := MkBatch (MkHeader 0 0 (-1) (-1) (-1) 2) [1; 2; 3; 4] in
  match @segment_open sample_crypto 0 64 (Some [9]) (file_of (take 20 (encode_segment_header crash_salt))) (file_of []) with
  | Ok s =>
      let '(recovered, s) := @segment_recover sample_crypto s in
      let '(appended, s) := @segment_append sample_crypto (Ok (replicate 12 3)) b s in
      recovered = Ok (-1) /\ is_ok appended = true /\ f_content (sg_log s) = batch_encode b []
  | Err _ => False
  end.
Proof. vm_compute. done. Qed.

(** An index whose file was extended but not written (a block of zeros) makes the segment fail to open,
    although recovery would rebuild the index from the log. *)
Theorem zeroed_index_refused :
  @segment_open sample_crypto 0 64 None (file_of []) (file_of (replicate 16 0)) = make_error Corrupt "índice .index no estrictamente creciente".
Proof. vm_compute. done. Qed.
