(* ===== verification/Decimal.v ===== *)
(** * Decimal text

    The conversions of the C++ library the sources use for numbers in names and keys:
    [std::to_string], the format ["{:020d}"] and [std::from_chars] when the whole text must be
    the number.  A text is the list of its character codes. *)
From Stdlib Require Import ZArith Lia.
From stdpp Require Import base list.
From S2P Require Import Prelude.
#[local] Open Scope Z_scope.

(** The digits of a number below [10 ^ 20], which holds for 64 bits, most significant first. *)
Fixpoint digits_loop (fuel : nat) (n : Z) (acc : list byte) : list byte :=
  match fuel with
  | O => acc
  | S fuel' =>
      let acc' := (48 + n mod 10) :: acc in
      if n <? 10 then acc' else digits_loop fuel' (n / 10) acc'
  end.

Definition digits (n : Z) : list byte := digits_loop 20 n [].

(** [std::to_string]. *)
Definition to_string (n : Z) : list byte := if n <? 0 then 45 :: digits (- n) else digits n.

(** [std::format("{:020d}", n)]: the sign counts for the width. *)
Definition format_020d (n : Z) : list byte :=
  let sign := if n <? 0 then [45] else [] in
  let ds := digits (Z.abs n) in
  sign ++ replicate (20 - length sign - length ds) 48 ++ ds.

Definition digit_of (c : byte) : option Z := if (48 <=? c) && (c <=? 57) then Some (c - 48) else None.

Fixpoint digits_value (text : list byte) (acc : Z) : option Z :=
  match text with
  | [] => Some acc
  | c :: rest => match digit_of c with Some d => digits_value rest (10 * acc + d) | None => None end
  end.

(** [from_chars] into a signed integer of [w] bits, accepted when it consumed all of the text
    without overflow. *)
Definition from_chars (w : Z) (text : list byte) : option Z :=
  let '(negative, body) := match text with 45 :: rest => (true, rest) | _ => (false, text) end in
  match body with
  | [] => None
  | _ :: _ =>
      match digits_value body 0 with
      | Some v =>
          let z := if negative : bool then - v else v in
          if (- 2 ^ (w - 1) <=? z) && (z <? 2 ^ (w - 1)) then Some z else None
      | None => None
      end
  end.

(** ** Properties *)

Definition is_digit (c : byte) : Prop := 48 <= c <= 57.

Lemma digit_of_digit d : 0 <= d < 10 -> digit_of (48 + d) = Some d.
Proof.
  intros. unfold digit_of. rewrite (proj2 (Z.leb_le _ _)), (proj2 (Z.leb_le _ _)) by lia. cbn. f_equal. lia.
Qed.

Lemma digits_value_app a b acc :
  digits_value (a ++ b) acc = match digits_value a acc with Some v => digits_value b v | None => None end.
Proof. revert acc. induction a as [|c a IH]; intros acc; cbn; [done|]. by destruct (digit_of c). Qed.

(** Reading back what the loop writes in front of [acc]. *)
Lemma digits_loop_value fuel n acc :
  0 <= n < 10 ^ Z.of_nat fuel -> (0 < fuel)%nat ->
  exists ds, digits_loop fuel n acc = ds ++ acc /\ digits_value ds 0 = Some n /\ Forall is_digit ds /\
    ds <> [] /\ (length ds <= fuel)%nat.
Proof.
  revert n acc. induction fuel as [|fuel IH]; intros n acc Hn Hf; [lia|]. cbn [digits_loop].
  pose proof (Z.mod_pos_bound n 10 ltac:(lia)) as Hm. pose proof (Z.div_mod n 10 ltac:(lia)) as Hd.
  assert (Hdig : is_digit (48 + n mod 10)) by (unfold is_digit; lia).
  destruct (Z.ltb_spec n 10) as [Hlt|Hge].
  - exists [48 + n mod 10]. split_and!; [done| |by constructor|done|cbn; lia].
    cbn [digits_value]. rewrite digit_of_digit by lia. rewrite Z.mod_small by lia. f_equal; lia.
  - assert (Hfuel : (0 < fuel)%nat).
    { destruct fuel; [|lia]. cbn in Hn. lia. }
    assert (Hq : 0 <= n / 10 < 10 ^ Z.of_nat fuel).
    { split; [apply Z.div_pos; lia|]. apply Z.div_lt_upper_bound; [lia|].
      rewrite Nat2Z.inj_succ, Z.pow_succ_r in Hn by lia. lia. }
    destruct (IH (n / 10) ((48 + n mod 10) :: acc) Hq Hfuel) as (ds & -> & Hv & Hds & Hne & Hlen).
    exists (ds ++ [48 + n mod 10]). split_and!.
    + by rewrite <- app_assoc.
    + rewrite digits_value_app, Hv. cbn [digits_value]. rewrite digit_of_digit by lia. f_equal. lia.
    + apply Forall_app. by split; [|constructor].
    + by destruct ds.
    + rewrite length_app. cbn. lia.
Qed.

Lemma digits_spec n :
  0 <= n < 10 ^ 20 -> digits_value (digits n) 0 = Some n /\ Forall is_digit (digits n) /\ digits n <> [] /\
    (length (digits n) <= 20)%nat.
Proof.
  intros Hn. destruct (digits_loop_value 20 n [] Hn ltac:(lia)) as (ds & H & Hv & Hd & Hne & Hl).
  unfold digits. rewrite H, app_nil_r. done.
Qed.

Lemma digits_value_zeros k ds acc : digits_value (replicate k 48 ++ ds) acc = digits_value ds (10 ^ Z.of_nat k * acc).
Proof.
  revert acc. induction k as [|k IH]; intros acc; [cbn; f_equal; lia|].
  cbn [replicate app digits_value]. change (digit_of 48) with (Some 0). cbv beta iota. rewrite IH. f_equal.
  rewrite Nat2Z.inj_succ, Z.pow_succ_r by lia. lia.
Qed.

Lemma from_chars_digits w ds n :
  Forall is_digit ds -> ds <> [] -> digits_value ds 0 = Some n -> i_range w n -> from_chars w ds = Some n.
Proof.
  intros Hd Hne Hv [H1 H2]. unfold from_chars.
  assert (Hneg : match ds with 45 :: rest => (true, rest) | _ => (false, ds) end = (false, ds)).
  { destruct Hd as [|c ds [Hc _] _]; [done|]. destruct (Z.eq_dec c 45) as [->|]; [lia|].
    repeat (destruct c as [|c|c]; try done). }
  rewrite Hneg. destruct ds; [done|]. rewrite Hv.
  by rewrite (proj2 (Z.leb_le _ _) H1), (proj2 (Z.ltb_lt _ _) H2).
Qed.

(** What is printed is read back, padded or not. *)
Lemma from_chars_to_string w n : 0 <= n < 10 ^ 20 -> i_range w n -> from_chars w (to_string n) = Some n.
Proof.
  intros Hn Hr. destruct (digits_spec n Hn) as (Hv & Hd & Hne & _). unfold to_string.
  rewrite (proj2 (Z.ltb_ge n 0)) by lia. by apply from_chars_digits.
Qed.

Lemma format_020d_nonneg n : 0 <= n -> format_020d n = replicate (20 - length (digits n)) 48 ++ digits n.
Proof. intros. unfold format_020d. rewrite (proj2 (Z.ltb_ge n 0)), Z.abs_eq by lia. cbn [app length]. by rewrite Nat.sub_0_r. Qed.

Lemma format_020d_digits n : 0 <= n < 10 ^ 20 -> Forall is_digit (format_020d n) /\ format_020d n <> [] /\
  length (format_020d n) = 20%nat.
Proof.
  intros Hn. destruct (digits_spec n Hn) as (_ & Hd & Hne & Hl). rewrite format_020d_nonneg by lia.
  split_and!.
  - apply Forall_app. split; [|done]. apply Forall_replicate. unfold is_digit. lia.
  - by destruct (digits n); [|destruct (replicate _ _)].
  - rewrite length_app, length_replicate. lia.
Qed.

Lemma from_chars_format w n : 0 <= n < 10 ^ 20 -> i_range w n -> from_chars w (format_020d n) = Some n.
Proof.
  intros Hn Hr. destruct (digits_spec n Hn) as (Hv & _). destruct (format_020d_digits n Hn) as (Hd & Hne & _).
  apply from_chars_digits; [done|done| |done]. rewrite format_020d_nonneg by lia.
  by rewrite digits_value_zeros, Z.mul_0_r.
Qed.

Lemma to_string_digits n : 0 <= n < 10 ^ 20 -> Forall is_digit (to_string n) /\ to_string n <> [].
Proof.
  intros Hn. destruct (digits_spec n Hn) as (_ & Hd & Hne & _). unfold to_string.
  by rewrite (proj2 (Z.ltb_ge n 0)) by lia.
Qed.
