(* ===== verification/StorageTier.v ===== *)
(** * The storage tier

    Models [TierObjectKey] and the port [StorageTier] of [src/src/storage/storage_tier.hpp] and
    [storage_tier.cpp], and [LocalStorageTier] of [local_storage_tier.cpp], the directory of
    objects.  The file system is the map from the paths below the root to the files' bytes; what
    its calls answer is a plan, as for files. *)
From Stdlib Require Import ZArith Lia.
From stdpp Require Import base list gmap strings sorting.
From S2P Require Import Prelude Codec Decimal.
#[local] Open Scope Z_scope.

(** ** Object keys *)

Inductive SegmentFileKind := KindLog | KindIndex.

#[export] Instance SegmentFileKind_eq_dec : EqDecision SegmentFileKind.
Proof. solve_decision. Defined.

Record TierObjectKey := MkTierKey {
  tk_topic : list byte;
  tk_partition : Z;
  tk_base_offset : Z;
  tk_kind : SegmentFileKind;
}.

#[export] Instance TierObjectKey_eq_dec : EqDecision TierObjectKey.
Proof. solve_decision. Defined.

Definition kind_ext (k : SegmentFileKind) : list byte :=
  match k with KindLog => bytes_of_string "log" | KindIndex => bytes_of_string "index" end.

Definition slash : byte := 47.
Definition dot : byte := 46.

Definition tier_key_encode (k : TierObjectKey) : list byte :=
  tk_topic k ++ [slash] ++ to_string (tk_partition k) ++ [slash] ++ format_020d (tk_base_offset k) ++ [dot] ++
  kind_ext (tk_kind k).

(** [rfind(c)] and the two [substr]: what is before and after the last [c]. *)
Fixpoint split_last (c : byte) (text : list byte) : option (list byte * list byte) :=
  match text with
  | [] => None
  | x :: rest =>
      match split_last c rest with
      | Some (before, after) => Some (x :: before, after)
      | None => if x =? c then Some ([], rest) else None
      end
  end.

Definition parse_nonneg (w : Z) (text : list byte) : expected Z :=
  match from_chars w text with
  | Some v => if v <? 0 then make_error InvalidArgument ("campo numérico inválido: " +:+ string_of_bytes text) else Ok v
  | None => make_error InvalidArgument ("campo numérico inválido: " +:+ string_of_bytes text)
  end.

Definition parse_kind (ext : list byte) : expected SegmentFileKind :=
  if bool_decide (ext = bytes_of_string "log") then Ok KindLog
  else if bool_decide (ext = bytes_of_string "index") then Ok KindIndex
  else make_error InvalidArgument ("extensión de tier desconocida: " +:+ string_of_bytes ext).

Definition tier_key_decode (key : list byte) : expected TierObjectKey :=
  match split_last slash key with
  | None => make_error InvalidArgument "clave de tier sin separadores"
  | Some (head, file) =>
      match split_last slash head with
      | None => make_error InvalidArgument "clave de tier sin partición"
      | Some (topic, partition_str) =>
          if bool_decide (topic = []) then make_error InvalidArgument "clave de tier con topic vacío"
          else match split_last dot file with
          | None => make_error InvalidArgument "clave de tier sin extensión"
          | Some (base_str, ext) =>
              let? kind := parse_kind ext in
              let? partition := parse_nonneg 32 partition_str in
              let? base := parse_nonneg 64 base_str in
              Ok (MkTierKey topic partition base kind)
          end
      end
  end.

(** ** The port *)

(** [put_file] takes the bytes of the source file, if it exists; [fetch_file] answers those the
    destination gets. *)
Class StorageTier (T : Type) := {
  tier_put_file : TierObjectKey -> option (list byte) -> T -> expected unit * T;
  tier_fetch_file : TierObjectKey -> T -> expected (list byte);
  tier_contains : TierObjectKey -> T -> expected bool;
  tier_object_size : TierObjectKey -> T -> expected Z;
  tier_remove : TierObjectKey -> T -> expected unit * T;
  tier_list_segment_bases : list byte -> Z -> T -> expected (list Z);
}.

(** ** The local tier *)

(** What a call of the file system did: it succeeded, or failed with a condition, and a copy that
    failed may have left part of the file. *)
Inductive FsCondition := NoSpaceOnDevice | NoSuchFile | OtherCondition.
Inductive FsOutcome :=
  | FsOk
  | FsFail (condition : FsCondition) (msg : string) (part : option (list byte)).

Record LocalStorageTier := MkLocalTier {
  lt_files : gmap (list byte) (list byte);
  lt_temp_seq : Z;
  lt_plan : list FsOutcome;
  lt_reads : list FsOutcome;
}.

Definition fs_error {A} (condition : FsCondition) (op msg : string) : expected A :=
  make_error (match condition with
              | NoSpaceOnDevice => OutOfSpace
              | NoSuchFile => NotFound
              | OtherCondition => IoError
              end) (op +:+ ": " +:+ msg).

(** The outcome of the next call; a plan that is over has no more failures. *)
Definition next_outcome (plan : list FsOutcome) : FsOutcome * list FsOutcome :=
  match plan with [] => (FsOk, []) | o :: rest => (o, rest) end.

Definition temp_path (to : list byte) (seq : Z) : list byte :=
  to ++ bytes_of_string ".tmp." ++ to_string seq.

(** [atomic_copy] of [data] to an object. *)
Definition atomic_copy (data : list byte) (to : list byte) (t : LocalStorageTier) : expected unit * LocalStorageTier :=
  let '(made, plan) := next_outcome (lt_plan t) in
  match made with
  | FsFail c msg _ =>
      (fs_error c "create_directories" msg, MkLocalTier (lt_files t) (lt_temp_seq t) plan (lt_reads t))
  | FsOk =>
      let seq := to_u 64 (lt_temp_seq t + 1) in
      let tmp := temp_path to (lt_temp_seq t) in
      let '(copied, plan) := next_outcome plan in
      match copied with
      | FsFail c msg part =>
          let files := match part with Some bytes => <[tmp := bytes]> (lt_files t) | None => lt_files t end in
          (fs_error c "copy_file" msg, MkLocalTier files seq plan (lt_reads t))
      | FsOk =>
          let files := <[tmp := data]> (lt_files t) in
          let '(renamed, plan) := next_outcome plan in
          match renamed with
          | FsFail c msg _ =>
              let '(removed, plan) := next_outcome plan in
              let files := match removed with FsOk => delete tmp files | FsFail _ _ _ => files end in
              (fs_error c "rename" msg, MkLocalTier files seq plan (lt_reads t))
          | FsOk => (Ok tt, MkLocalTier (<[to := data]> (delete tmp files)) seq plan (lt_reads t))
          end
      end
  end.

Definition local_put_file (key : TierObjectKey) (source : option (list byte)) (t : LocalStorageTier)
    : expected unit * LocalStorageTier :=
  match source with
  | None => (make_error NotFound "put_file: origen inexistente", t)
  | Some data => atomic_copy data (tier_key_encode key) t
  end.

(** [fetch_file]: the copy goes to a file outside of the tier. *)
Definition local_fetch_file (key : TierObjectKey) (t : LocalStorageTier) : expected (list byte) :=
  let '(found, plan) := next_outcome (lt_reads t) in
  match found, lt_files t !! tier_key_encode key with
  | FsOk, Some data =>
      match next_outcome plan with
      | (FsFail c msg _, _) => fs_error c "create_directories" msg
      | (FsOk, plan) =>
          match next_outcome plan with
          | (FsFail c msg _, _) => fs_error c "copy_file" msg
          | (FsOk, plan) =>
              match next_outcome plan with
              | (FsFail c msg _, _) => fs_error c "rename" msg
              | (FsOk, _) => Ok data
              end
          end
      end
  | _, _ =>
      make_error NotFound ("fetch_file: objeto inexistente: " +:+ string_of_bytes (tier_key_encode key))
  end.

Definition local_contains (key : TierObjectKey) (t : LocalStorageTier) : expected bool :=
  match next_outcome (lt_reads t) with
  | (FsFail c msg _, _) => fs_error c "exists" msg
  | (FsOk, _) => Ok (bool_decide (is_Some (lt_files t !! tier_key_encode key)))
  end.

Definition local_object_size (key : TierObjectKey) (t : LocalStorageTier) : expected Z :=
  match next_outcome (lt_reads t) with
  | (FsFail c msg _, _) => fs_error c "file_size" msg
  | (FsOk, _) =>
      match lt_files t !! tier_key_encode key with
      | Some data => Ok (Z.of_nat (length data))
      | None => fs_error NoSuchFile "file_size" "No such file or directory"
      end
  end.

Definition local_remove (key : TierObjectKey) (t : LocalStorageTier) : expected unit * LocalStorageTier :=
  match next_outcome (lt_plan t) with
  | (FsFail c msg _, plan) => (fs_error c "remove" msg, MkLocalTier (lt_files t) (lt_temp_seq t) plan (lt_reads t))
  | (FsOk, plan) =>
      (Ok tt, MkLocalTier (delete (tier_key_encode key) (lt_files t)) (lt_temp_seq t) plan (lt_reads t))
  end.

(** The name of a file directly in a directory. *)
Fixpoint strip_prefix (prefix path : list byte) : option (list byte) :=
  match prefix, path with
  | [], _ => Some path
  | x :: prefix', y :: path' => if x =? y then strip_prefix prefix' path' else None
  | _ :: _, [] => None
  end.

Definition name_in (directory path : list byte) : option (list byte) :=
  match strip_prefix (directory ++ [slash]) path with
  | Some name => if existsb (Z.eqb slash) name then None else Some name
  | None => None
  end.

(** [extension() == ".log"] and the number in the [stem()]; a name that only starts with a dot has
    no extension. *)
Definition segment_name (name : list byte) : option Z :=
  match split_last dot name with
  | Some (stem, ext) =>
      if bool_decide (ext = bytes_of_string "log") && negb (bool_decide (stem = []))
      then match from_chars 64 stem with
           | Some base => if 0 <=? base then Some base else None
           | None => None
           end
      else None
  | None => None
  end.

(** [list_segment_bases]; a directory exists when a file is below it.  A failed [exists] is taken
    for a directory that does not exist. *)
Definition local_list_segment_bases (topic : list byte) (partition : Z) (t : LocalStorageTier) : expected (list Z) :=
  let prefix := topic ++ [slash] ++ to_string partition in
  match next_outcome (lt_reads t) with
  | (FsFail _ _ _, _) => Ok []
  | (FsOk, plan) =>
      if negb (existsb (fun e => bool_decide (is_Some (strip_prefix (prefix ++ [slash]) e.1)))
                 (map_to_list (lt_files t))) then Ok []
      else match next_outcome plan with
      | (FsFail c msg _, _) => fs_error c "directory_iterator" msg
      | (FsOk, _) =>
          let names := omap (fun e => name_in prefix e.1) (map_to_list (lt_files t)) in
          Ok (merge_sort Z.le (omap segment_name names))
      end
  end.

#[export] Instance LocalStorageTier_ops : StorageTier LocalStorageTier := {|
  tier_put_file := local_put_file;
  tier_fetch_file := local_fetch_file;
  tier_contains := local_contains;
  tier_object_size := local_object_size;
  tier_remove := local_remove;
  tier_list_segment_bases := local_list_segment_bases;
|}.

(** ** Keys *)

Lemma split_last_none c text : Forall (fun x => x <> c) text -> split_last c text = None.
Proof. induction 1 as [|x text Hx _ IH]; cbn; [done|]. by rewrite IH, (proj2 (Z.eqb_neq _ _)). Qed.

Lemma split_last_app c before after :
  Forall (fun x => x <> c) after -> split_last c (before ++ c :: after) = Some (before, after).
Proof.
  intros Ha. induction before as [|x before IH]; cbn; [|by rewrite IH].
  by rewrite split_last_none, Z.eqb_refl.
Qed.

Lemma digits_not c ds : Forall is_digit ds -> ~ is_digit c -> Forall (fun x => x <> c) ds.
Proof. intros Hd Hc. eapply Forall_impl; [exact Hd|]. intros x Hx ->. done. Qed.

Definition key_ok (k : TierObjectKey) : Prop :=
  tk_topic k <> [] /\ 0 <= tk_partition k < 2 ^ 31 /\ 0 <= tk_base_offset k < 2 ^ 63.

Lemma nonneg_parses w n text :
  from_chars w text = Some n -> 0 <= n -> parse_nonneg w text = Ok n.
Proof. intros Hp Hn. unfold parse_nonneg. by rewrite Hp, (proj2 (Z.ltb_ge _ _)). Qed.

(** The file part of a key has no slash, and its extension no dot. *)
Lemma kind_ext_plain k : Forall (fun x => x <> slash) (kind_ext k) /\ Forall (fun x => x <> dot) (kind_ext k) /\
  parse_kind (kind_ext k) = Ok k.
Proof. destruct k; (split; [repeat constructor; discriminate|split; [repeat constructor; discriminate|done]]). Qed.

Lemma tier_key_reads k : key_ok k -> tier_key_decode (tier_key_encode k) = Ok k.
Proof.
  intros (Ht & Hp & Hb). destruct k as [topic partition base kind]. cbn in Ht, Hp, Hb.
  assert (H31 : 2 ^ 31 < 10 ^ 20) by (vm_compute; reflexivity).
  assert (H63 : 2 ^ 63 < 10 ^ 20) by (vm_compute; reflexivity).
  assert (Hsd : ~ is_digit slash) by (unfold is_digit, slash; lia).
  assert (Hdd : ~ is_digit dot) by (unfold is_digit, dot; lia).
  destruct (to_string_digits partition ltac:(lia)) as [Hpd _].
  destruct (format_020d_digits base ltac:(lia)) as [Hbd _].
  destruct (kind_ext_plain kind) as (Hks & Hkd & Hk).
  unfold tier_key_decode, tier_key_encode. cbn [tk_topic tk_partition tk_base_offset tk_kind].
  replace (topic ++ [slash] ++ to_string partition ++ [slash] ++ format_020d base ++ [dot] ++ kind_ext kind)
    with ((topic ++ slash :: to_string partition) ++ slash :: (format_020d base ++ dot :: kind_ext kind))
    by (cbn; by rewrite <- !app_assoc).
  rewrite split_last_app.
  2: { apply Forall_app. split; [by eapply digits_not|]. by constructor. }
  rewrite split_last_app by (by eapply digits_not).
  rewrite bool_decide_eq_false_2 by done. rewrite split_last_app by done.
  rewrite Hk. cbn [expected_bind].
  rewrite (nonneg_parses 32 partition); [|apply from_chars_to_string; [lia|split; lia]|lia].
  cbn [expected_bind].
  rewrite (nonneg_parses 64 base); [done|apply from_chars_format; [lia|split; lia]|lia].
Qed.

(** ** Objects are never half written *)

Lemma last_app_some {A} (l k : list A) x : last k = Some x -> last (l ++ k) = Some x.
Proof. intros H. rewrite last_app. by rewrite H. Qed.

Lemma encode_last k : last (tier_key_encode k) = Some 103 \/ last (tier_key_encode k) = Some 120.
Proof.
  unfold tier_key_encode. rewrite !app_assoc.
  destruct (tk_kind k); [left|right]; by apply last_app_some.
Qed.

(** A temporary file is no object. *)
Lemma temp_not_object k to seq : 0 <= seq < 2 ^ 64 -> temp_path to seq <> tier_key_encode k.
Proof.
  intros Hs He. assert (H64 : 2 ^ 64 < 10 ^ 20) by (vm_compute; reflexivity).
  destruct (to_string_digits seq ltac:(lia)) as [Hd Hne].
  assert (Hl : exists c, last (to_string seq) = Some c /\ is_digit c).
  { destruct (last (to_string seq)) as [c|] eqn:Hl; [|apply last_None in Hl; contradiction].
    exists c. split; [done|]. apply last_Some in Hl as [l' Hl']. rewrite Hl' in Hd.
    apply Forall_app in Hd as [_ Hd]. by inversion Hd. }
  destruct Hl as (c & Hl & Hc). assert (Hlast : last (temp_path to seq) = Some c).
  { unfold temp_path. apply last_app_some, last_app_some, Hl. }
  rewrite He in Hlast. unfold is_digit in Hc. destruct (encode_last k) as [Hk|Hk]; rewrite Hk in Hlast;
    injection Hlast as <-; lia.
Qed.

Lemma encode_inj k k' : key_ok k -> key_ok k' -> tier_key_encode k = tier_key_encode k' -> k = k'.
Proof.
  intros Hk Hk' He.
  assert (H : forall j, key_ok j -> tier_key_decode (tier_key_encode j) = Ok j) by (intros; by apply tier_key_reads).
  pose proof (H k Hk) as H1. rewrite He, (H k' Hk') in H1. by injection H1.
Qed.

(** Decoding an encoded key gives the key back, even if its topic has slashes or dots, and two
    objects never share a path. *)
Theorem tier_key_roundtrip (k k' : TierObjectKey) (Hok : key_ok k) (Hok' : key_ok k') :
  tier_key_decode (tier_key_encode k) = Ok k /\ (tier_key_encode k = tier_key_encode k' -> k = k').
Proof. split; [by apply tier_key_reads|by apply encode_inj]. Qed.

Lemma tier_key_roundtrip_witness :
  tier_key_decode (tier_key_encode (MkTierKey (bytes_of_string "a/b.c") 3 1234 KindIndex))
  = Ok (MkTierKey (bytes_of_string "a/b.c") 3 1234 KindIndex).
Proof.
  assert (H : key_ok (MkTierKey (bytes_of_string "a/b.c") 3 1234 KindIndex)) by (repeat split; discriminate).
  exact (proj1 (tier_key_roundtrip _ _ H H)).
Defined.

(** Storing an object is atomic whatever call of the file system fails: when the call succeeds the
    object has the new bytes, when it fails it is what it was, and no other object changes. *)
Theorem local_put_atomic (key : TierObjectKey) (data : list byte) (t : LocalStorageTier)
    (Hkey : key_ok key) (Hseq : 0 <= lt_temp_seq t < 2 ^ 64) :
  let '(r, t') := local_put_file key (Some data) t in
  forall key', key_ok key' ->
    lt_files t' !! tier_key_encode key' =
    if is_ok r && bool_decide (key' = key) then Some data else lt_files t !! tier_key_encode key'.
Proof.
  unfold local_put_file, atomic_copy. set (tmp := temp_path _ _).
  assert (Htmp : forall k', tmp <> tier_key_encode k') by (intros k'; by apply temp_not_object).
  clearbody tmp.
  destruct (next_outcome (lt_plan t)) as [[|c msg part] plan]; [|done].
  destruct (next_outcome plan) as [[|c msg part] plan'].
  2: { intros key' _. cbn. destruct part; [|done]. by rewrite lookup_insert_ne. }
  destruct (next_outcome plan') as [[|c msg part] plan''].
  - intros key' Hkey'. cbn [is_ok andb lt_files].
    destruct (decide (key' = key)) as [->|Hne].
    + rewrite bool_decide_eq_true_2 by done. apply lookup_insert_eq.
    + rewrite bool_decide_eq_false_2 by done. rewrite lookup_insert_ne.
      2: { intros He. apply Hne. symmetry. by apply encode_inj. }
      rewrite lookup_delete_ne by done. by rewrite lookup_insert_ne.
  - destruct (next_outcome plan'') as [[|c' msg' part'] p]; intros key' _; cbn.
    + rewrite lookup_delete_ne by done. by rewrite lookup_insert_ne.
    + by rewrite lookup_insert_ne.
Qed.

Lemma local_put_atomic_witness :
  let key := MkTierKey (bytes_of_string "t") 0 5 KindLog in
  let t := MkLocalTier {[ tier_key_encode key := [1] ]} 7 [FsOk; FsFail NoSpaceOnDevice "lleno" (Some [2])] [] in
  let '(r, t') := local_put_file key (Some [2; 2]) t in
  r = make_error OutOfSpace "copy_file: lleno" /\ lt_files t' !! tier_key_encode key = Some [1].
Proof.
  cbv zeta. set (key := MkTierKey (bytes_of_string "t") 0 5 KindLog).
  set (t := MkLocalTier {[ tier_key_encode key := [1] ]} 7 [FsOk; FsFail NoSpaceOnDevice "lleno" (Some [2])] []).
  assert (Hk : key_ok key) by (repeat split; discriminate).
  assert (Hs : 0 <= lt_temp_seq t < 2 ^ 64) by (split; [discriminate|reflexivity]).
  pose proof (local_put_atomic key [2; 2] t Hk Hs) as H.
  assert (Hr : (local_put_file key (Some [2; 2]) t).1 = make_error OutOfSpace "copy_file: lleno") by reflexivity.
  destruct (local_put_file key (Some [2; 2]) t) as [r t']. cbn in Hr. subst r. split; [reflexivity|].
  rewrite (H key Hk). vm_compute. reflexivity.
Defined.

(** A file system error while looking for the directory is answered as an empty tier, and the
    segments that are there are not listed. *)
Theorem list_hides_io_error :
  let key := MkTierKey (bytes_of_string "t") 0 5 KindLog in
  let files := {[ tier_key_encode key := [1] ]} in
  local_list_segment_bases (bytes_of_string "t") 0 (MkLocalTier files 0 [] []) = Ok [5] /\
  local_list_segment_bases (bytes_of_string "t") 0
    (MkLocalTier files 0 [] [FsFail OtherCondition "Permission denied" None]) = Ok [].
Proof. vm_compute. done. Qed.
