(* ===== verification/PartitionLog.v ===== *)
(** * The partition log

    Models [PartitionLog] of [src/src/storage/partition_log.hpp] and [partition_log.cpp]: the
    segments of a partition in offset order, the last of which is active, behind the prefix that
    was moved to the storage tier; the configuration of [log_config.hpp] and the retention policy
    of [retention.hpp].  What the operating system and the random generator answer is an
    environment, indexed by the number of calls made so far. *)
From Stdlib Require Import ZArith Lia.
From stdpp Require Import base list strings sorting.
From S2P Require Import Prelude Bytes Record File Codec Decimal SegmentCrypto Segment StorageTier RaftLog.
#[local] Open Scope Z_scope.

(** ** Configuration *)

Inductive FsyncPolicy := FsyncNone | FsyncInterval | FsyncCommit.

Record LogConfig := MkLogConfig {
  lc_segment_bytes : Z;
  lc_index_interval_bytes : Z;
  lc_fsync_policy : FsyncPolicy;
  lc_fsync_interval_bytes : Z;
  lc_encryption_key : option (list byte);
  lc_tier_topic : list byte;
  lc_tier_partition : Z;
}.

Definition default_log_config : LogConfig :=
  MkLogConfig (64 * 1024 * 1024) 4096 FsyncInterval (1 * 1024 * 1024) None [] 0.

Record RetentionPolicy := MkRetention { retention_bytes : Z; retention_ms : Z }.

(** The environment: the bytes of the random generator, the files that [Segment::create] opens (or
    the error of opening them), the modification time of a log file if it can be had, and what
    becomes of the temporary files of a rehydration (their reads, or the error of creating the
    directory). *)
Record Environment := MkEnv {
  env_random : nat -> nat -> expected (list byte);
  env_files : nat -> Z -> expected (File * File);
  env_mtime : Z -> option Z;
  env_temp : Z -> expected (list SysOutcome * list SysOutcome);
}.

Section PartitionLog.
Context `{CC : !Crypto} {T : Type} `{ST : !StorageTier T} (env : Environment).

Record PartitionLog := MkPartitionLog {
  pg_cfg : LogConfig;
  pg_tier : option T;
  pg_segments : list Segment;
  pg_tiered : list Z;
  pg_log_start : Z;
  pg_log_end : Z;
  pg_recovery_point : Z;
  pg_bytes_since_sync : Z;
  pg_calls : nat;
}.

Definition pg_set_tier (t : option T) (p : PartitionLog) : PartitionLog :=
  MkPartitionLog (pg_cfg p) t (pg_segments p) (pg_tiered p) (pg_log_start p) (pg_log_end p)
    (pg_recovery_point p) (pg_bytes_since_sync p) (pg_calls p).
Definition pg_set_segments (ss : list Segment) (p : PartitionLog) : PartitionLog :=
  MkPartitionLog (pg_cfg p) (pg_tier p) ss (pg_tiered p) (pg_log_start p) (pg_log_end p)
    (pg_recovery_point p) (pg_bytes_since_sync p) (pg_calls p).
Definition pg_set_tiered (bases : list Z) (p : PartitionLog) : PartitionLog :=
  MkPartitionLog (pg_cfg p) (pg_tier p) (pg_segments p) bases (pg_log_start p) (pg_log_end p)
    (pg_recovery_point p) (pg_bytes_since_sync p) (pg_calls p).
Definition pg_set_start (o : Z) (p : PartitionLog) : PartitionLog :=
  MkPartitionLog (pg_cfg p) (pg_tier p) (pg_segments p) (pg_tiered p) o (pg_log_end p)
    (pg_recovery_point p) (pg_bytes_since_sync p) (pg_calls p).
Definition pg_set_end (o : Z) (p : PartitionLog) : PartitionLog :=
  MkPartitionLog (pg_cfg p) (pg_tier p) (pg_segments p) (pg_tiered p) (pg_log_start p) o
    (pg_recovery_point p) (pg_bytes_since_sync p) (pg_calls p).
Definition pg_set_sync (recovery bytes : Z) (p : PartitionLog) : PartitionLog :=
  MkPartitionLog (pg_cfg p) (pg_tier p) (pg_segments p) (pg_tiered p) (pg_log_start p) (pg_log_end p)
    recovery bytes (pg_calls p).
Definition pg_count_call (p : PartitionLog) : PartitionLog :=
  MkPartitionLog (pg_cfg p) (pg_tier p) (pg_segments p) (pg_tiered p) (pg_log_start p) (pg_log_end p)
    (pg_recovery_point p) (pg_bytes_since_sync p) (S (pg_calls p)).

(** [segments_.back()] of an empty vector is undefined behaviour in C++; the model marks it with an
    error no branch of the code returns. *)
Definition no_active_segment {A} : expected A := make_error Shutdown "undefined behaviour: back() of no segments".

(** A call on the active segment. *)
Definition on_active {A} (f : Segment -> expected A * Segment) (p : PartitionLog) : expected A * PartitionLog :=
  match last (pg_segments p) with
  | None => (no_active_segment, p)
  | Some s => let '(r, s') := f s in (r, pg_set_segments (removelast (pg_segments p) ++ [s']) p)
  end.

(** ** The tier *)

Definition tier_key (cfg : LogConfig) (base : Z) (kind : SegmentFileKind) : TierObjectKey :=
  MkTierKey (lc_tier_topic cfg) (lc_tier_partition cfg) base kind.

Definition list_cold_prefix (cfg : LogConfig) (tier : option T) (segments : list Segment) : expected (list Z) :=
  match tier, segments with
  | Some t, _ :: _ =>
      let? listed := tier_list_segment_bases (lc_tier_topic cfg) (lc_tier_partition cfg) t in
      Ok (merge_sort Z.le (filter (fun base => existsb (fun s => sg_base s =? base) segments = false) listed))
  | _, _ => Ok []
  end.

(** [recompute_log_start]. *)
Definition recompute_log_start (p : PartitionLog) : PartitionLog :=
  match pg_tiered p, pg_segments p with
  | base :: _, _ => pg_set_start base p
  | [], s :: _ => pg_set_start (sg_base s) p
  | [], [] => p
  end.

Definition remove_tiered (base : Z) (p : PartitionLog) : expected unit * PartitionLog :=
  match pg_tier p with
  | None => (Ok tt, p)
  | Some t =>
      match tier_remove (tier_key (pg_cfg p) base KindLog) t with
      | (Err e, t) => (Err e, pg_set_tier (Some t) p)
      | (Ok _, t) =>
          let '(r, t) := tier_remove (tier_key (pg_cfg p) base KindIndex) t in (r, pg_set_tier (Some t) p)
      end
  end.

(** The loop of [offload_sealed_to_tier]: the segments but the active one, oldest first. *)
Fixpoint offload_loop (segments : list Segment) (t : T) (offloaded : nat) (p : PartitionLog)
    : expected nat * PartitionLog :=
  match segments with
  | s :: ((_ :: _) as rest) =>
      match tier_put_file (tier_key (pg_cfg p) (sg_base s) KindLog) (Some (f_content (sg_log s))) t with
      | (Err e, t) => (Err e, pg_set_tier (Some t) p)
      | (Ok _, t) =>
          match tier_put_file (tier_key (pg_cfg p) (sg_base s) KindIndex)
                  (Some (f_content (si_file (sg_index s)))) t with
          | (Err e, t) => (Err e, pg_set_tier (Some t) p)
          | (Ok _, t) =>
              offload_loop rest t (S offloaded)
                (p |> pg_set_segments rest |> pg_set_tiered (pg_tiered p ++ [sg_base s]))
          end
      end
  | _ => (Ok offloaded, p |> pg_set_tier (Some t) |> recompute_log_start)
  end.

Definition offload_sealed_to_tier (p : PartitionLog) : expected nat * PartitionLog :=
  match pg_tier p with
  | None => (Ok 0%nat, p)
  | Some t => offload_loop (pg_segments p) t 0 p
  end.

(** ** Opening *)

(** The base in the name of a [.log] file, [parse_base_offset] of its stem. *)
Definition log_name (name : list byte) : option Z :=
  match split_last dot name with
  | Some (stem, ext) =>
      if bool_decide (ext = bytes_of_string "log") && negb (bool_decide (stem = [])) then from_chars 64 stem
      else None
  | None => None
  end.

Fixpoint open_segments (cfg : LogConfig) (files : Z -> expected (File * File)) (bases : list Z)
    : expected (list Segment) :=
  match bases with
  | [] => Ok []
  | base :: rest =>
      let? '(log, index) := files base in
      let? s := segment_open base (lc_index_interval_bytes cfg) (lc_encryption_key cfg) log index in
      let? ss := open_segments cfg files rest in
      Ok (s :: ss)
  end.

(** [Segment::create] in the directory, with its calls to the environment. *)
Definition create_segment (base : Z) (p : PartitionLog) : expected unit * PartitionLog :=
  let k := pg_calls p in
  let p := pg_count_call p in
  match
    (let? '(log, index) := env_files env k base in
     segment_create base (lc_index_interval_bytes (pg_cfg p)) (lc_encryption_key (pg_cfg p))
       (env_random env k kEncSaltBytes) log index)
  with
  | Err e => (Err e, p)
  | Ok s => (Ok tt, pg_set_segments (pg_segments p ++ [s]) p)
  end.

(** The constructor: what was opened is on disk already. *)
Definition new_partition_log (cfg : LogConfig) (tier : option T) (segments : list Segment) (tiered : list Z)
    (log_start log_end : Z) (calls : nat) : PartitionLog :=
  MkPartitionLog cfg tier segments tiered log_start log_end log_end 0 calls.

(** [open], on the names in the directory and the files behind them. *)
Definition pg_open (cfg : LogConfig) (tier : option T) (names : expected (list (list byte)))
    (files : Z -> expected (File * File)) : expected PartitionLog :=
  let? names := names in
  let bases := merge_sort Z.le (omap log_name names) in
  let? '(p, log_start, log_end) :=
    match bases with
    | [] =>
        match create_segment 0 (new_partition_log cfg tier [] [] 0 0 0) with
        | (Err e, _) => Err e
        | (Ok _, p) => Ok (p, 0, 0)
        end
    | first :: _ =>
        let? segments := open_segments cfg files bases in
        match on_active segment_recover (new_partition_log cfg tier segments [] 0 0 0) with
        | (Err e, _) => Err e
        | (Ok last_valid, p) => Ok (p, first, last_valid + 1)
        end
    end in
  let? tiered := list_cold_prefix cfg tier (pg_segments p) in
  let log_start := match tiered with base :: _ => Z.min log_start base | [] => log_start end in
  Ok (new_partition_log cfg tier (pg_segments p) tiered log_start log_end (pg_calls p)).

(** ** Appending *)

(** [roll_segment]; an offload that fails does not abort the rotation. *)
Definition roll_segment (p : PartitionLog) : expected unit * PartitionLog :=
  match on_active segment_seal p with
  | (Err e, p) => (Err e, p)
  | (Ok _, p) =>
      match create_segment (pg_log_end p) (pg_set_sync (pg_log_end p) 0 p) with
      | (Err e, p) => (Err e, p)
      | (Ok _, p) =>
          (Ok tt, match pg_tier p with Some _ => (offload_sealed_to_tier p).2 | None => p end)
      end
  end.

Definition pg_sync (p : PartitionLog) : expected unit * PartitionLog :=
  match on_active segment_sync p with
  | (Err e, p) => (Err e, p)
  | (Ok _, p) => (Ok tt, pg_set_sync (pg_log_end p) 0 p)
  end.

Definition maybe_sync (appended_bytes : nat) (p : PartitionLog) : expected unit * PartitionLog :=
  match lc_fsync_policy (pg_cfg p) with
  | FsyncNone => (Ok tt, p)
  | FsyncCommit => pg_sync p
  | FsyncInterval =>
      let p := pg_set_sync (pg_recovery_point p) (pg_bytes_since_sync p + Z.of_nat appended_bytes) p in
      if lc_fsync_interval_bytes (pg_cfg p) <=? pg_bytes_since_sync p then pg_sync p else (Ok tt, p)
  end.

(** The batch with the offset the log assigns. *)
Definition rebase (offset : Z) (b : RecordBatch) : RecordBatch :=
  let h := b_header b in
  MkBatch (MkHeader offset (h_attrs h) (h_producer_id h) (h_producer_epoch h) (h_base_sequence h)
             (h_record_count h)) (b_records b).

Definition pg_append (batch : RecordBatch) (p : PartitionLog) : expected Z * PartitionLog :=
  let '(rolled, p) :=
    match last (pg_segments p) with
    | Some s =>
        if negb (segment_is_empty s) && segment_is_full (lc_segment_bytes (pg_cfg p)) s then roll_segment p
        else (Ok tt, p)
    | None => (no_active_segment, p)
    end in
  match rolled with
  | Err e => (Err e, p)
  | Ok _ =>
      let rebased := rebase (pg_log_end p) batch in
      let k := pg_calls p in
      match on_active (segment_append (env_random env k kEncNonceBytes) rebased) (pg_count_call p) with
      | (Err e, p) => (Err e, p)
      | (Ok last, p) =>
          match maybe_sync (encoded_size rebased) (pg_set_end (last + 1) p) with
          | (Err e, p) => (Err e, p)
          | (Ok _, p) => (Ok last, p)
          end
      end
  end.

(** ** Truncation *)

(** [upper_bound]: the number of segments up to the last one whose base is at most the offset. *)
Fixpoint segment_upper (offset : Z) (segments : list Segment) : nat :=
  match segments with
  | [] => 0
  | s :: rest => if sg_base s <=? offset then S (segment_upper offset rest) else 0
  end.

Definition first_local_base (p : PartitionLog) : Z :=
  match pg_segments p with s :: _ => sg_base s | [] => 0 end.

Definition pg_truncate_to (offset : Z) (p : PartitionLog) : expected unit * PartitionLog :=
  if offset =? pg_log_end p then (Ok tt, p)
  else if pg_log_end p <? offset then (make_error OutOfRange "truncate_to por encima de log_end_offset", p)
  else if offset <? pg_log_start p then (make_error OutOfRange "truncate_to por debajo de log_start_offset", p)
  else if negb (bool_decide (pg_tiered p = [])) && (offset <? first_local_base p)
  then (make_error Unsupported "truncate_to dentro de datos ya descargados al tier", p)
  else
    let p := pg_set_segments (take (segment_upper offset (pg_segments p)) (pg_segments p)) p in
    match on_active (segment_truncate_to offset) p with
    | (Err e, p) => (Err e, p)
    | (Ok _, p) => (Ok tt, p |> pg_set_end offset |> pg_set_sync (Z.min (pg_recovery_point p) offset) 0)
    end.

(** The loop over the prefix in the tier. *)
Fixpoint drop_tiered (offset : Z) (tiered : list Z) (p : PartitionLog) : expected unit * PartitionLog :=
  match tiered with
  | [] => (Ok tt, p)
  | base :: rest =>
      let successor := match rest with next :: _ => next | [] => first_local_base p end in
      if offset <? successor then (Ok tt, p)
      else match remove_tiered base p with
           | (Err e, p) => (Err e, p)
           | (Ok _, p) => drop_tiered offset rest (pg_set_tiered rest p)
           end
  end.

(** The local segments wholly below the offset are dropped, never the active one. *)
Fixpoint drop_segments (offset : Z) (segments : list Segment) : list Segment :=
  match segments with
  | s :: ((next :: _) as rest) => if sg_base next <=? offset then drop_segments offset rest else segments
  | _ => segments
  end.

Definition pg_truncate_prefix_to (offset : Z) (p : PartitionLog) : expected unit * PartitionLog :=
  if offset <=? pg_log_start p then (Ok tt, p)
  else if pg_log_end p <? offset
  then (make_error OutOfRange "truncate_prefix_to por encima de log_end_offset", p)
  else match drop_tiered offset (pg_tiered p) p with
       | (Err e, p) => (Err e, p)
       | (Ok _, p) =>
           (Ok tt, recompute_log_start (pg_set_segments (drop_segments offset (pg_segments p)) p))
       end.

(** The loop of [reset_to] over the tier. *)
Fixpoint remove_all_tiered (tiered : list Z) (p : PartitionLog) : expected unit * PartitionLog :=
  match tiered with
  | [] => (Ok tt, p)
  | base :: rest =>
      match remove_tiered base p with
      | (Err e, p) => (Err e, p)
      | (Ok _, p) => remove_all_tiered rest p
      end
  end.

Definition pg_reset_to (offset : Z) (p : PartitionLog) : expected unit * PartitionLog :=
  if offset <? 0 then (make_error InvalidArgument "reset_to: offset negativo", p)
  else match remove_all_tiered (pg_tiered p) p with
  | (Err e, p) => (Err e, p)
  | (Ok _, p) =>
      match create_segment offset (p |> pg_set_tiered [] |> pg_set_segments []) with
      | (Err e, p) => (Err e, p)
      | (Ok _, p) => (Ok tt, p |> pg_set_start offset |> pg_set_end offset |> pg_set_sync offset 0)
      end
  end.

(** ** Retention *)

Definition segment_eligible (policy : RetentionPolicy) (now total : Z) (s : Segment) : bool :=
  ((0 <=? retention_bytes policy) && (retention_bytes policy <? total)) ||
  ((0 <=? retention_ms policy) &&
   match env_mtime env (sg_base s) with
   | Some mtime => retention_ms policy <? Z.quot (now - mtime) 1000000
   | None => false
   end).

Fixpoint retention_loop (policy : RetentionPolicy) (now total : Z) (segments : list Segment) (p : PartitionLog)
    : PartitionLog :=
  match segments with
  | s :: ((next :: _) as rest) =>
      if segment_eligible policy now total s
      then retention_loop policy now (total - Z.of_nat (sg_size s)) rest
             (p |> pg_set_segments rest |> pg_set_start (sg_base next))
      else p
  | _ => p
  end.

Definition pg_enforce_retention (policy : RetentionPolicy) (now : Z) (p : PartitionLog) : PartitionLog :=
  if bool_decide (pg_tiered p = []) then
    let total := foldl (fun acc s => acc + Z.of_nat (sg_size s)) 0 (pg_segments p) in
    retention_loop policy now total (pg_segments p) p
  else p.

(** ** Reading *)

Definition segment_for (offset : Z) (p : PartitionLog) : option Segment :=
  match segment_upper offset (pg_segments p) with
  | O => None
  | S i => pg_segments p !! i
  end.

Definition read_local (offset : Z) (max_bytes : nat) (p : PartitionLog) : expected FetchResult :=
  match segment_for offset p with
  | None => Ok (MkFetch [] 0)
  | Some s => segment_read offset max_bytes s
  end.

(** The base of the cold segment that holds an offset. *)
Fixpoint tiered_base (offset : Z) (tiered : list Z) : option Z :=
  match tiered with
  | [] => None
  | base :: rest =>
      if base <=? offset then match tiered_base offset rest with Some b => Some b | None => Some base end
      else None
  end.

(** [read_tiered]: both files are fetched to a temporary directory and opened there. *)
Definition read_tiered (offset : Z) (max_bytes : nat) (p : PartitionLog) : expected FetchResult :=
  match tiered_base offset (pg_tiered p), pg_tier p with
  | Some base, Some t =>
      let? '(log_reads, index_reads) := env_temp env base in
      let? log := tier_fetch_file (tier_key (pg_cfg p) base KindLog) t in
      let? index := tier_fetch_file (tier_key (pg_cfg p) base KindIndex) t in
      let? s := segment_open base (lc_index_interval_bytes (pg_cfg p)) (lc_encryption_key (pg_cfg p))
                  (MkFile log [] log_reads) (MkFile index [] index_reads) in
      segment_read offset max_bytes s
  | _, _ => Ok (MkFetch [] 0)
  end.

(** The loop of [read]; a turn that goes on advances the answer by a byte at least. *)
Fixpoint pg_read_loop (fuel : nat) (cursor : Z) (max_bytes : nat) (r : FetchResult) (p : PartitionLog)
    : expected FetchResult :=
  match fuel with
  | O => Ok r
  | S fuel' =>
      if negb ((cursor <? pg_log_end p) && (length (fr_batches r) <? max_bytes)%nat) then Ok r
      else
        let remaining := (max_bytes - length (fr_batches r))%nat in
        let? fragment :=
          if negb (bool_decide (pg_tiered p = [])) && (cursor <? first_local_base p)
          then read_tiered cursor remaining p else read_local cursor remaining p in
        if (length (fr_batches fragment) =? 0)%nat then Ok r
        else
          pg_read_loop fuel' (fr_next_offset fragment) max_bytes
            (MkFetch (fr_batches r ++ fr_batches fragment) (fr_next_offset fragment)) p
  end.

Definition pg_read (offset : Z) (max_bytes : nat) (p : PartitionLog) : expected FetchResult :=
  if offset <? pg_log_start p then make_error OutOfRange "offset por debajo de log_start_offset"
  else pg_read_loop (S max_bytes) offset max_bytes (MkFetch [] offset) p.

(** What the Raft log and the partitions use. *)
#[export] Instance PartitionLog_ops : PartitionLogOps PartitionLog := {|
  log_start_offset := pg_log_start;
  log_end_offset := pg_log_end;
  pl_append := pg_append;
  pl_truncate_to := pg_truncate_to;
  pl_truncate_prefix_to := pg_truncate_prefix_to;
  pl_reset_to := pg_reset_to;
  pl_read p offset max_bytes := let? r := pg_read offset max_bytes p in Ok (fr_batches r);
|}.
End PartitionLog.
Arguments PartitionLog T : clear implicits.
