(* ===== verification/PartitionLogSafety.v ===== *)
(** * Correctness of the partition log

    The log without a tier keeps the laws the Raft log relies on; it holds the batches appended,
    split over its segments, and every operation acts on that sequence as its specification
    says. *)
From Stdlib Require Import ZArith Lia.
From stdpp Require Import base list gmap sets strings sorting.
From S2P Require Import Prelude Bytes Record File Codec SegmentCrypto Segment SegmentSafety.
From S2P Require Import StorageTier RaftLog PartitionLog Partition.
#[local] Open Scope Z_scope.

(** No tier configured. *)
#[export] Instance no_tier : StorageTier Empty_set := {|
  tier_put_file _ _ t := match t : Empty_set with end;
  tier_fetch_file _ t := match t : Empty_set with end;
  tier_contains _ t := match t : Empty_set with end;
  tier_object_size _ t := match t : Empty_set with end;
  tier_remove _ t := match t : Empty_set with end;
  tier_list_segment_bases _ _ t := match t : Empty_set with end;
|}.

(** ** What the operations leave alone *)

Section Offsets.
Context {CC : Crypto} {T : Type} {ST : StorageTier T} (env : Environment).

(** The members a call on a segment does not touch. *)
Definition same_log (p q : PartitionLog T) : Prop :=
  pg_log_start q = pg_log_start p /\ pg_log_end q = pg_log_end p /\ pg_cfg q = pg_cfg p /\
  pg_tier q = pg_tier p /\ pg_tiered q = pg_tiered p.

Lemma same_log_refl p : same_log p p.
Proof. done. Qed.

Lemma same_log_trans p q r : same_log p q -> same_log q r -> same_log p r.
Proof. intros (?&?&?&?&?) (?&?&?&?&?). unfold same_log. split_and!; congruence. Qed.

Lemma on_active_same {A} (f : Segment -> expected A * Segment) p : same_log p (on_active f p).2.
Proof. unfold on_active. destruct (last _) as [s|]; [|done]. by destruct (f s). Qed.

Lemma create_segment_same base p : same_log p (create_segment env base p).2.
Proof. unfold create_segment. cbv zeta. by destruct (expected_bind _ _). Qed.

Lemma set_sync_same r b p : same_log p (pg_set_sync r b p).
Proof. done. Qed.

Lemma sync_same p : same_log p (pg_sync p).2.
Proof.
  unfold pg_sync. pose proof (on_active_same segment_sync p) as H. by destruct (on_active _ p) as [[] q].
Qed.

Lemma maybe_sync_same n p : same_log p (maybe_sync n p).2.
Proof.
  unfold maybe_sync. destruct (lc_fsync_policy _); [done| |apply sync_same].
  cbv zeta. destruct (_ <=? _); [|done]. by eapply same_log_trans; [|apply sync_same].
Qed.

Lemma roll_segment_same p : pg_tier p = None -> same_log p (roll_segment env p).2.
Proof.
  intros Ht. unfold roll_segment. pose proof (on_active_same segment_seal p) as H.
  destruct (on_active _ p) as [[u|e] q]; [|done]. cbn in H.
  assert (H' : same_log p (pg_set_sync (pg_log_end q) 0 q)) by exact H.
  pose proof (create_segment_same (pg_log_end q) (pg_set_sync (pg_log_end q) 0 q)) as Hc.
  destruct (create_segment _ _ _) as [[u'|e] q']; cbn in *.
  - pose proof (same_log_trans _ _ _ H' Hc) as Hs. pose proof Hs as (_ & _ & _ & Hq & _).
    rewrite Ht in Hq. by rewrite Hq.
  - by eapply same_log_trans.
Qed.
End Offsets.

Section Laws.
Context {CC : Crypto} (env : Environment).

Lemma append_offsets b (p : PartitionLog Empty_set) :
  pg_log_start (pg_append env b p).2 = pg_log_start p /\
  forall last, (pg_append env b p).1 = Ok last -> pg_log_end (pg_append env b p).2 = last + 1.
Proof.
  assert (Ht : pg_tier p = None) by (by destruct (pg_tier p)).
  unfold pg_append. set (roll := match last _ with Some _ => _ | None => _ end).
  assert (Hroll : same_log p roll.2).
  { subst roll. destruct (last _); [|done]. destruct (_ && _); [by apply roll_segment_same|done]. }
  destruct roll as [[u|e] q]; [|by destruct Hroll]. cbn in Hroll.
  cbv zeta. set (f := segment_append _ _). pose proof (on_active_same f (pg_count_call q)) as Hq.
  destruct (on_active f _) as [[last|e] q']; cbn in Hq.
  2: { destruct Hroll, Hq. cbn in *. split; [congruence|done]. }
  pose proof (maybe_sync_same (encoded_size (rebase (pg_log_end q) b)) (pg_set_end (last + 1) q')) as Hm.
  destruct (maybe_sync _ _) as [[u'|e] q'']; cbn in Hm |- *;
    destruct Hroll as (? & _), Hq as (? & _), Hm as (? & ? & _); cbn in *; (split; [congruence|]); [|done].
  intros l [= <-]. congruence.
Qed.

(** A log without a tier keeps the promises of the interface the Raft log is built on. *)
#[export] Instance PartitionLog_laws : @PartitionLogLaws (PartitionLog Empty_set) (PartitionLog_ops env).
Proof.
  split; cbn.
  - intros b p last H. by apply (append_offsets b p).
  - intros b p. apply append_offsets.
  - intros o p. unfold pg_truncate_to. destruct (Z.eqb_spec o (pg_log_end p)) as [->|]; [done|].
    destruct (_ <? o); [done|]. destruct (o <? _); [done|]. destruct (_ && _); [done|].
    by destruct (on_active _ _) as [[] q].
  - intros o p. unfold pg_truncate_to. destruct (o =? _); [done|].
    destruct (_ <? o); [done|]. destruct (o <? _); [done|]. destruct (_ && _); [done|].
    set (p' := pg_set_segments _ _). pose proof (on_active_same (segment_truncate_to o) p') as (H & _).
    by destruct (on_active _ _) as [[] q].
  - intros o p. unfold pg_truncate_prefix_to. destruct (o <=? _); [done|]. destruct (_ <? o); [done|].
    assert (Hd : forall l q, pg_log_end (drop_tiered o l q).2 = pg_log_end q).
    { induction l as [|base rest IH]; intros q; cbn; [done|]. destruct (_ <? _); [done|].
      unfold remove_tiered. destruct (pg_tier q) as [[]|]. by rewrite IH. }
    specialize (Hd (pg_tiered p) p). destruct (drop_tiered _ _ _) as [[u|e] q]; [|done]. cbn in *.
    unfold recompute_log_start. by destruct (pg_tiered _), (pg_segments _).
  - intros o p. unfold pg_reset_to. destruct (o <? 0); [done|].
    destruct (remove_all_tiered _ _) as [[u|e] q]; [|done].
    by destruct (create_segment _ _ _) as [[] q'].
Qed.
End Laws.

(** ** What a log holds *)

(** Reading, over the batches alone: from the one that holds the offset on, while the answer is
    below the size asked for. *)
Fixpoint skip_batches (offset : Z) (bs : list RecordBatch) : list RecordBatch :=
  match bs with
  | [] => []
  | b :: rest => if batch_last_offset b <? offset then skip_batches offset rest else bs
  end.

Fixpoint take_until (max_bytes : nat) (r : FetchResult) (bs : list RecordBatch) : FetchResult :=
  match bs with
  | [] => r
  | b :: rest =>
      if (length (fr_batches r) <? max_bytes)%nat
      then take_until max_bytes (MkFetch (fr_batches r ++ batch_layout b) (batch_last_offset b + 1)) rest
      else r
  end.

Definition read_spec (offset : Z) (max_bytes : nat) (bs : list RecordBatch) : FetchResult :=
  take_until max_bytes (MkFetch [] offset) (skip_batches offset bs).

Lemma take_until_full max r bs : (max <= length (fr_batches r))%nat -> take_until max r bs = r.
Proof. intros H. destruct bs; cbn [take_until]; [done|]. by rewrite (proj2 (Nat.ltb_ge _ _)). Qed.

Section Log.
Context {CC : Crypto} {CL : CryptoLaws} {T : Type} {ST : StorageTier T} (env : Environment).

(** A segment of the log: its data start after an encryption header at most. *)
Definition seg_at (s : Segment) (fs : list (RecordBatch * list byte)) : Prop :=
  (sg_data_start s <= kEncSegmentHeaderSize)%nat /\ seg_rep s fs.

(** The segments follow each other from [start] on. *)
Fixpoint chained (start : Z) (segs : list Segment) (fss : list (list (RecordBatch * list byte))) : Prop :=
  match segs, fss with
  | [], [] => True
  | s :: segs', fs :: fss' => sg_base s = start /\ seg_at s fs /\ chained (end_of start fs) segs' fss'
  | _, _ => False
  end.

(** A last segment that was sealed (its successor could not be created) is full, and the next
    append tries again. *)
Definition can_append (cfg : LogConfig) (s : Segment) : Prop :=
  (sg_data_start s <= kEncSegmentHeaderSize)%nat /\
  (sg_state s = SegActive \/ (segment_is_empty s = false /\ segment_is_full (lc_segment_bytes cfg) s = true)).

Record log_rep (p : PartitionLog T) (fss : list (list (RecordBatch * list byte))) : Prop := {
  lr_chained : chained (pg_log_start p) (pg_segments p) fss;
  lr_end : pg_log_end p = end_of (pg_log_start p) (concat fss);
  lr_active : exists s, last (pg_segments p) = Some s /\ can_append (pg_cfg p) s;
  lr_full : Forall (fun fs => fs <> []) (removelast fss);
  lr_tier : pg_tier p = None;
  lr_tiered : pg_tiered p = [];
}.

Lemma chained_contiguous start segs fss : chained start segs fss -> contiguous start (concat fss).
Proof.
  revert start fss. induction segs as [|s segs IH]; intros start [|fs fss]; cbn; try done.
  intros (Hb & Hr & Hc). apply contiguous_app. split; [|by apply IH]. rewrite <- Hb. apply (proj2 Hr).
Qed.

Lemma chained_length start segs fss : chained start segs fss -> length segs = length fss.
Proof.
  revert start fss. induction segs as [|s segs IH]; intros start [|fs fss]; cbn; try done.
  intros (_ & _ & Hc). f_equal. by eapply IH.
Qed.

Lemma chained_app start s1 s2 f1 f2 :
  length s1 = length f1 ->
  chained start (s1 ++ s2) (f1 ++ f2) <-> chained start s1 f1 /\ chained (end_of start (concat f1)) s2 f2.
Proof.
  revert start f1. induction s1 as [|s s1 IH]; intros start [|f f1] Hl; try discriminate; cbn [app chained concat].
  { unfold end_of. cbn. tauto. }
  injection Hl as Hl. rewrite IH, end_of_app by done. tauto.
Qed.

Lemma chained_take start segs fss k :
  chained start segs fss -> chained start (take k segs) (take k fss).
Proof.
  intros H. pose proof (chained_length _ _ _ H) as Hl.
  rewrite <- (take_drop k segs), <- (take_drop k fss) in H. apply chained_app in H as [H _]; [done|].
  rewrite !length_take. lia.
Qed.

Lemma chained_lookup start segs fss i s fs :
  chained start segs fss -> segs !! i = Some s -> fss !! i = Some fs ->
  seg_rep s fs /\ sg_base s = end_of start (concat (take i fss)).
Proof.
  revert start fss i. induction segs as [|s' segs IH]; intros start [|fs' fss] [|i]; cbn; try done.
  - intros (Hb & [_ Hr] & _) [= ->] [= ->]. done.
  - intros (Hb & Hr & Hc) Hs Hf. rewrite end_of_app. by eapply IH.
Qed.

(** The segment of an offset is the one whose batches hold it. *)
Lemma segment_upper_spec start segs fss offset pre f rest :
  chained start segs fss -> Forall (fun fs => fs <> []) (removelast fss) ->
  concat fss = pre ++ f :: rest -> Forall (fun g => last_of g < offset) pre -> start <= offset <= last_of f ->
  exists i s fs a c, segment_upper offset segs = S i /\ segs !! i = Some s /\ fss !! i = Some fs /\
    fs = a ++ f :: c /\ pre = concat (take i fss) ++ a /\ rest = c ++ concat (drop (S i) fss).
Proof.
  revert start fss pre. induction segs as [|s segs IH]; intros start [|fs fss] pre; cbn [chained]; try done.
  { intros _ _ H. by destruct pre. }
  intros (Hb & Hr & Hc) Hne Hcat Hpre Ho. cbn [segment_upper concat] in *.
  rewrite Hb, (proj2 (Z.leb_le _ _)) by lia.
  pose proof (sr_contiguous _ _ (proj2 Hr)) as Hcont. rewrite Hb in Hcont.
  apply app_eq_inv in Hcat as [(k & -> & Hk)|(k & -> & Hk)].
  - destruct k as [|g k].
    { (* the batch opens the next segment *)
      cbn in Hk. rewrite app_nil_r in *. destruct segs as [|s' segs], fss as [|fs' fss]; try done.
      assert (Hend : end_of start pre <= offset).
      { destruct (last pre) as [g|] eqn:Hl; [|by unfold end_of; rewrite Hl; lia].
        unfold end_of. rewrite Hl. rewrite Forall_forall in Hpre.
        pose proof (Hpre g ltac:(apply last_Some_elem_of; exact Hl)). cbn in *. lia. }
      destruct (IH (end_of start pre) (fs' :: fss) []) as (i & s'' & fs'' & a & c & Hu & Hs & Hf & H1 & H2 & H3);
        [done|by inversion Hne|by rewrite <- Hk|constructor|lia|].
      rewrite Hu. exists (S i), s'', fs'', a, c. cbn [take concat drop].
      split_and!; [done|done|done|done| |done]. by rewrite <- app_assoc, <- H2, app_nil_r. }
    injection Hk as <- Hk. exists 0%nat, s, (pre ++ f :: k), pre, k. cbn.
    split_and!; try done. destruct segs as [|s' segs]; [done|]. destruct fss as [|fs' fss]; [done|].
    destruct Hc as (Hb' & _). cbn. rewrite Hb', (proj2 (Z.leb_gt _ _)); [done|].
    assert (Hin : f ∈ pre ++ f :: k) by set_solver.
    destruct (contiguous_bounds _ _ _ Hcont Hin). lia.
  - destruct segs as [|s' segs], fss as [|fs' fss]; try done; [by destruct k|].
    apply Forall_app in Hpre as [Hfs Hk']. assert (Hend : end_of start fs <= offset).
    { unfold end_of. destruct (last fs) as [g|] eqn:Hl; [|lia]. rewrite Forall_forall in Hfs.
      pose proof (Hfs g ltac:(apply last_Some_elem_of; exact Hl)). cbn in *. lia. }
    destruct (IH (end_of start fs) (fs' :: fss) k) as (i & s'' & fs'' & a & c & Hu & Hs & Hf & H1 & H2 & H3);
      [done|by inversion Hne|done|done|lia|].
    rewrite Hu. exists (S i), s'', fs'', a, c. cbn [take concat drop].
    split_and!; [done|done|done|done| |done]. by rewrite H2, app_assoc.
Qed.
(** *** Reading *)

Lemma fmap_skip offset fs : skip_batches offset (fst <$> fs) = fst <$> skip_before offset fs.
Proof. induction fs as [|f fs IH]; [done|]. cbn. change (batch_last_offset f.1) with (last_of f). by destruct (_ <? _). Qed.

(** A fragment is some of the batches, one at least, and only its last may pass the limit. *)
Lemma take_fetch_until max r0 acc next c later :
  (length r0 < max)%nat -> Forall (fun f => 0 < length f.2)%nat c ->
  exists c1 c2, c = c1 ++ c2 /\ (acc = [] -> c <> [] -> c1 <> []) /\
    let r := take_fetch (max - length r0) (MkFetch acc next) c in
    fr_next_offset r = end_of next c1 /\ (c1 <> [] -> fr_batches r <> []) /\
    take_until max (MkFetch (r0 ++ acc) next) (fst <$> (c ++ later)) =
      take_until max (MkFetch (r0 ++ fr_batches r) (fr_next_offset r)) (fst <$> (c2 ++ later)).
Proof.
  intros Hr0 Hc. revert acc next. induction Hc as [|f c Hf Hc IH]; intros acc next.
  { by exists [], []. }
  cbn [take_fetch fr_batches]. destruct (negb _ && _) eqn:Hstop.
  - exists [], (f :: c). split_and!; [done| |done|done|done].
    intros -> _. done.
  - destruct (IH (acc ++ batch_layout f.1) (last_of f + 1)) as (c1 & c2 & -> & _ & Hn & Hb & Ht).
    exists (f :: c1), c2. cbv zeta in *. split_and!; [done|done| | |].
    + by rewrite Hn, end_of_cons.
    + intros _. destruct c1 as [|g c1]; [|by apply Hb]. clear -Hn Hb.
      assert (Hmono : forall l m r, fr_batches r <> [] -> fr_batches (take_fetch m r l) <> []).
      { induction l as [|g l IHl]; intros m r Hr; cbn [take_fetch]; [done|].
        destruct (negb _ && _); [done|]. apply IHl. cbn. by destruct (fr_batches r). }
      apply Hmono. cbn. intros Happ. apply app_eq_nil in Happ as [_ Happ].
      pose proof (length_batch_layout f.1) as Hl. rewrite Happ in Hl. done.
    + cbn [app fmap list_fmap take_until fr_batches]. rewrite (proj2 (Nat.ltb_lt _ _)).
      * change (batch_last_offset f.1) with (last_of f). rewrite <- app_assoc. exact Ht.
      * rewrite length_app. apply andb_false_iff in Hstop as [Hs|Hs].
        -- apply negb_false_iff, Nat.eqb_eq in Hs. lia.
        -- apply Nat.ltb_ge in Hs. lia.
Qed.

Lemma read_local_spec p fss cursor max pre f rest :
  log_rep p fss -> concat fss = pre ++ f :: rest -> Forall (fun g => last_of g < cursor) pre ->
  pg_log_start p <= cursor <= last_of f ->
  exists c later, f :: rest = (f :: c) ++ later /\ Forall (fun g => 0 < length g.2)%nat (f :: c) /\
    contiguous (first_of f) (f :: c) /\
    read_local cursor max p = Ok (take_fetch max (MkFetch [] cursor) (f :: c)).
Proof.
  intros Hp Hcat Hpre Ho.
  destruct (segment_upper_spec _ _ _ cursor pre f rest (lr_chained _ _ Hp) (lr_full _ _ Hp) Hcat Hpre Ho)
    as (i & s & fs & a & c & Hu & Hs & Hf & -> & Ha & Hr).
  destruct (chained_lookup _ _ _ _ _ _ (lr_chained _ _ Hp) Hs Hf) as [Hrep Hb].
  exists c, (concat (drop (S i) fss)). split_and!.
  - by rewrite Hr.
  - pose proof (od_frames _ _ _ (sr_disk _ _ Hrep)) as Hfo. apply Forall_app in Hfo as [_ Hfo].
    eapply Forall_impl; [exact Hfo|]. intros g. apply frame_pos.
  - pose proof (sr_contiguous _ _ Hrep) as Hc. apply contiguous_app in Hc as [_ Hc].
    destruct Hc as (H1 & H2 & H3). by split_and!.
  - unfold read_local, segment_for. rewrite Hu, Hs. rewrite (segment_read_fetch _ _ _ _ Hrep).
    unfold fetch_spec. rewrite skip_before_app.
    + cbn [skip_before]. by rewrite (proj2 (Z.ltb_ge _ _)) by lia.
    + rewrite Ha in Hpre. by apply Forall_app in Hpre as [_ Hpre].
Qed.

Lemma pg_read_loop_spec fuel p fss cursor max r pre rest :
  log_rep p fss -> concat fss = pre ++ rest -> Forall (fun g => last_of g < cursor) pre ->
  pg_log_start p <= cursor -> match rest with f :: _ => cursor <= last_of f | [] => True end ->
  (max < fuel + length (fr_batches r))%nat -> fr_next_offset r = cursor ->
  pg_read_loop env fuel cursor max r p = Ok (take_until max r (fst <$> rest)).
Proof.
  intros Hp. revert cursor r pre rest. induction fuel as [|fuel IH]; intros cursor r pre rest Hcat Hpre Hs Hrest Hfuel Hnext.
  { rewrite take_until_full by lia. done. }
  cbn [pg_read_loop]. pose proof (chained_contiguous _ _ _ (lr_chained _ _ Hp)) as Hcont.
  rewrite Hcat in Hcont.
  destruct (Nat.ltb_spec (length (fr_batches r)) max) as [Hlt|Hge].
  2: { rewrite andb_false_r. cbn. by rewrite take_until_full. }
  rewrite andb_true_r. destruct rest as [|f rest].
  { (* every batch is before the cursor *)
    assert (Hend : pg_log_end p <= cursor).
    { rewrite (lr_end _ _ Hp), Hcat, app_nil_r. unfold end_of. destruct (last pre) as [g|] eqn:Hl; [|done].
      rewrite Forall_forall in Hpre. pose proof (Hpre g ltac:(apply last_Some_elem_of; exact Hl)). cbn in *. lia. }
    rewrite (proj2 (Z.ltb_ge _ _)) by done. done. }
  cbn in Hrest. apply contiguous_app in Hcont as [Hc1 Hc2]. pose proof Hc2 as (Hf & Hcount & Hc3).
  assert (Hin : f ∈ pre ++ f :: rest) by set_solver.
  assert (Hcc : contiguous (pg_log_start p) (pre ++ f :: rest)) by (by apply contiguous_app).
  destruct (contiguous_bounds _ _ _ Hcc Hin) as [Hb1 Hb2]. rewrite <- Hcat, <- (lr_end _ _ Hp) in Hb2.
  rewrite (proj2 (Z.ltb_lt _ _)) by lia. cbn [negb].
  rewrite (lr_tiered _ _ Hp). cbn [bool_decide negb andb].
  rewrite bool_decide_eq_true_2 by done. cbn [negb andb].
  destruct (read_local_spec p fss cursor (max - length (fr_batches r)) pre f rest Hp Hcat Hpre) as
    (c & later & Hsplit & Hpos & Hcontf & ->); [lia|]. cbn [expected_bind].
  destruct (take_fetch_until max (fr_batches r) [] cursor (f :: c) later Hlt Hpos) as
    (c1 & c2 & Hc & Hne1 & Hn & Hb & Ht). specialize (Hne1 eq_refl ltac:(done)). specialize (Hb Hne1). cbv zeta in *.
  set (frag := take_fetch _ _ _) in *. clearbody frag.
  destruct (Nat.eqb_spec (length (fr_batches frag)) 0) as [H0|_]; [by apply nil_length_inv in H0|].
  assert (Hall : contiguous (pg_log_start p) ((pre ++ c1) ++ (c2 ++ later)))
    by (rewrite Hsplit, Hc in Hcc; by rewrite <- !app_assoc in *).
  apply contiguous_app in Hall as [Hcf Hcl].
  assert (Hend : end_of (pg_log_start p) (pre ++ c1) = fr_next_offset frag).
  { rewrite end_of_app, Hn. unfold end_of. by destruct (last c1) eqn:Hl; [|apply last_None in Hl]. }
  rewrite Hend in Hcl.
  assert (Hmid : forall g, g ∈ pre ++ c1 -> last_of g < fr_next_offset frag).
  { intros g Hg. rewrite <- Hend. by apply (contiguous_bounds _ _ _ Hcf Hg). }
  assert (Hnlt : cursor <= fr_next_offset frag).
  { destruct c1 as [|g c1]; [done|]. injection Hc as <- _.
    pose proof (Hmid f ltac:(set_solver)). lia. }
  rewrite (IH (fr_next_offset frag) _ (pre ++ c1) (c2 ++ later)).
  - f_equal. rewrite app_nil_r in Ht. rewrite Hsplit. rewrite <- Ht. destruct r as [rb rn]. cbn in Hnext. by subst rn.
  - rewrite Hcat, Hsplit, Hc. by rewrite <- !app_assoc.
  - rewrite Forall_forall. intros g Hg. by apply Hmid.
  - lia.
  - destruct (c2 ++ later) as [|g l]; [done|]. destruct Hcl as (Hg & Hgc & _). pose proof (last_of_first g). lia.
  - cbn. rewrite length_app. assert (0 < length (fr_batches frag))%nat by (destruct (fr_batches frag); cbn; [done|lia]). lia.
  - done.
Qed.

Lemma pg_read_spec p fss offset max :
  log_rep p fss -> pg_log_start p <= offset ->
  pg_read env offset max p = Ok (read_spec offset max (fst <$> concat fss)).
Proof.
  intros Hp Ho. unfold pg_read. rewrite (proj2 (Z.ltb_ge _ _)) by done.
  pose proof (chained_contiguous _ _ _ (lr_chained _ _ Hp)) as Hcont.
  assert (Hsplit : exists pre, concat fss = pre ++ skip_before offset (concat fss) /\
    Forall (fun g => last_of g < offset) pre /\
    match skip_before offset (concat fss) with f :: _ => offset <= last_of f | [] => True end).
  { clear. induction (concat fss) as [|f l (pre & Hl & Hf & Hm)]; [by exists []|]. cbn [skip_before].
    destruct (Z.ltb_spec (last_of f) offset).
    - exists (f :: pre). cbn. rewrite <- Hl. by split_and!; [|constructor|].
    - exists []. by split_and!; [|constructor|]. }
  destruct Hsplit as (pre & Hl & Hf & Hm). unfold read_spec. rewrite fmap_skip.
  apply (pg_read_loop_spec _ _ fss offset max _ pre); try done. cbn. lia.
Qed.
(** *** The active segment *)

Lemma last_removelast {A} (l : list A) x : last l = Some x -> l = removelast l ++ [x].
Proof. intros [l' ->]%last_Some. by rewrite removelast_last. Qed.

(** The log as its sealed segments and the active one. *)
Lemma log_rep_split p fss :
  log_rep p fss -> exists init s finit fs,
    pg_segments p = init ++ [s] /\ fss = finit ++ [fs] /\ length init = length finit /\
    chained (pg_log_start p) init finit /\ sg_base s = end_of (pg_log_start p) (concat finit) /\ seg_rep s fs /\
    can_append (pg_cfg p) s /\ Forall (fun fs => fs <> []) finit /\ pg_log_end p = end_of (sg_base s) fs.
Proof.
  intros [Hc He (s & Hs & Ha) Hf _ _]. apply last_removelast in Hs. set (init := removelast (pg_segments p)) in *.
  clearbody init. rewrite Hs in *. pose proof (chained_length _ _ _ Hc) as Hl. rewrite length_app in Hl. cbn in Hl.
  destruct (last fss) as [fs|] eqn:Hlf.
  2: { apply last_None in Hlf as ->. cbn in Hl. lia. }
  apply last_removelast in Hlf. set (finit := removelast fss) in *. clearbody finit. subst fss.
  rewrite length_app in Hl. cbn in Hl. apply chained_app in Hc as (H1 & H2 & [_ H3] & _); [|lia].
  exists init, s, finit, fs. split_and!; try done; [lia|].
  rewrite He, H2, concat_app, end_of_app. cbn. by rewrite app_nil_r.
Qed.

(** Putting another segment in its place. *)
Lemma log_rep_set_last (p q : PartitionLog T) init s finit fs :
  chained (pg_log_start p) init finit -> sg_base s = end_of (pg_log_start p) (concat finit) -> seg_rep s fs ->
  can_append (pg_cfg q) s -> Forall (fun fs => fs <> []) finit ->
  pg_segments q = init ++ [s] -> pg_log_start q = pg_log_start p -> pg_log_end q = end_of (sg_base s) fs ->
  pg_tier q = None -> pg_tiered q = [] -> log_rep q (finit ++ [fs]).
Proof.
  intros Hc Hb Hr Ha Hf Hs Hst He Ht Hd. split.
  - rewrite Hs, Hst. apply chained_app; [by eapply chained_length|]. split; [done|].
    cbn. split_and!; [done|by split; [apply Ha|]|done].
  - rewrite He, Hb, Hst, concat_app, end_of_app. cbn. by rewrite app_nil_r.
  - exists s. by rewrite Hs, last_snoc.
  - by rewrite removelast_last.
  - done.
  - done.
Qed.

Lemma segment_sync_rep s fs : seg_rep s fs -> seg_rep (segment_sync s).2 fs /\
  sg_base (segment_sync s).2 = sg_base s /\ sg_state (segment_sync s).2 = sg_state s /\
  sg_size (segment_sync s).2 = sg_size s /\ sg_data_start (segment_sync s).2 = sg_data_start s.
Proof.
  intros [Hd Hc Hi Hf]. unfold segment_sync. destruct (index_flush_same (sg_index s)) as [Hb He].
  assert (Hi' : index_ok (sg_base s) (sg_data_start s) fs (index_flush (sg_index s)).2) by (by eapply index_ok_same).
  destruct (index_flush (sg_index s)) as [[u|e] x]; cbn in Hi'.
  - destruct (file_sync (sg_log s)) as [r f] eqn:Hsync. cbn. split; [|done]. split; cbn; [|done|done|done].
    unfold file_sync in Hsync. destruct Hd as [H1 H2 H3 H4].
    destruct (call_loop _) as [[]]; injection Hsync as <- <-; by split.
  - cbn. split; [|done]. split; cbn; [by destruct Hd|done..].
Qed.

(** What the environment promises: new files are empty and the generator fills what it is asked. *)
Record EnvironmentLaws : Prop := {
  env_fresh : forall k base log index, env_files env k base = Ok (log, index) ->
    f_content log = [] /\ f_content index = [] /\ no_errors (f_reads log);
  env_sizes : forall k n bytes, env_random env k n = Ok bytes -> length bytes = n;
}.
Context (Henv : EnvironmentLaws).

Lemma index_open_empty base interval index x :
  f_content index = [] -> index_open index base interval = Ok x -> si_base x = base /\ si_entries x = [].
Proof.
  intros Hc. unfold index_open, file_size. rewrite Hc. destruct (f_reads index) as [|[]]; cbn; try done;
    by intros [= <-].
Qed.

Lemma segment_create_rep base interval key salt log index s :
  f_content log = [] -> f_content index = [] -> no_errors (f_reads log) ->
  (forall bytes, salt = Ok bytes -> length bytes = kEncSaltBytes) ->
  segment_create base interval key salt log index = Ok s ->
  seg_rep s [] /\ sg_base s = base /\ sg_state s = SegActive /\ (sg_data_start s <= kEncSegmentHeaderSize)%nat.
Proof.
  intros Hl Hi Hr Hsalt. unfold segment_create. destruct (index_open _ _ _) as [x|] eqn:Hx; [|done].
  apply index_open_empty in Hx as [Hb He]; [|done]. cbn [expected_bind].
  assert (Hrep : forall cipher f start, f_reads f = f_reads log -> length (f_content f) = start ->
    Z.of_nat start <= 2 ^ 32 -> seg_rep (MkSegment base f x start cipher start SegActive) []).
  { intros cipher f start Hfr Hfl Hst. split; cbn.
    - split; cbn; [|lia|constructor|by rewrite Hfr]. exists (f_content f), []. by rewrite app_nil_r.
    - done.
    - by apply index_ok_nil.
    - split; unfold end_of; cbn; lia. }
  destruct key as [key|].
  - destruct salt as [bytes|]; [|done]. cbn [expected_bind]. destruct (cipher_create key bytes); [|done].
    cbn [expected_bind]. destruct (write_at _ _ _) as [[u|e] f] eqn:Hw; [|done].
    apply write_at_ok in Hw as [Hw Hw']; [|right; lia]. intros [= <-].
    split; [|by split_and!]. apply Hrep; [done| |by vm_compute].
    rewrite Hw, Hl. pose proof (length_segment_header bytes (Hsalt _ eq_refl)) as Hh.
    by rewrite length_pwrite, Hh.
  - intros [= <-]. split; [apply Hrep; [done|by rewrite Hl|by vm_compute]|]. split_and!; [done|done|cbn; lia].
Qed.

Lemma create_segment_rep base (q q' : PartitionLog T) :
  create_segment env base q = (Ok tt, q') ->
  exists s, q' = pg_set_segments (pg_segments q ++ [s]) (pg_count_call q) /\ seg_rep s [] /\ sg_base s = base /\
    sg_state s = SegActive /\ (sg_data_start s <= kEncSegmentHeaderSize)%nat.
Proof.
  unfold create_segment. destruct (expected_bind _ _) as [s|] eqn:Hb; [|done]. intros [= <-].
  destruct (env_files env (pg_calls q) base) as [[log index]|] eqn:Hf; [|done]. cbn [expected_bind] in Hb.
  destruct (env_fresh Henv _ _ _ _ Hf) as (H1 & H2 & H3).
  exists s. split; [done|]. eapply segment_create_rep; [exact H1|exact H2|exact H3| |exact Hb].
  intros bytes. apply Henv.
Qed.

(** *** Appending *)

Lemma log_rep_same p q fss :
  log_rep p fss -> same_log p q -> pg_segments q = pg_segments p -> log_rep q fss.
Proof.
  intros [H1 H2 H3 H4 H5 H6] (Hs & He & Hc & Ht & Hd) Hq.
  split; [by rewrite Hs, Hq|by rewrite Hs, He|by rewrite Hc, Hq|done|by rewrite Ht|by rewrite Hd].
Qed.

Lemma on_active_last {A} (f : Segment -> expected A * Segment) (p : PartitionLog T) init s :
  pg_segments p = init ++ [s] -> on_active f p = ((f s).1, pg_set_segments (init ++ [(f s).2]) p).
Proof. intros Hp. unfold on_active. rewrite Hp, last_snoc, removelast_last. by destruct (f s). Qed.

Lemma log_rep_replace p init s finit fs s' :
  log_rep p (finit ++ [fs]) -> pg_segments p = init ++ [s] -> seg_rep s' fs -> sg_base s' = sg_base s ->
  can_append (pg_cfg p) s' -> log_rep (pg_set_segments (init ++ [s']) p) (finit ++ [fs]).
Proof.
  intros Hp Hs Hr Hb Ha.
  destruct (log_rep_split _ _ Hp) as (i0 & s0 & fi0 & f0 & Hs0 & Hf0 & Hl & Hc & Hb0 & _ & _ & Hf & He).
  rewrite Hs in Hs0. apply app_inj_tail in Hs0 as [<- <-]. apply app_inj_tail in Hf0 as [<- <-].
  eapply (log_rep_set_last p); cbn; [exact Hc|by rewrite Hb|exact Hr|exact Ha|exact Hf|done|done|by rewrite Hb|apply Hp|apply Hp].
Qed.

Lemma empty_segment s fs : seg_rep s fs -> segment_is_empty s = false -> fs <> [].
Proof.
  intros [[_ Hs _ _] _ _ _] He ->. unfold segment_is_empty in He. apply Nat.eqb_neq in He. cbn in Hs. lia.
Qed.

Lemma sync_rep p fss r q : log_rep p fss -> pg_sync p = (r, q) -> log_rep q fss.
Proof.
  intros Hp. destruct (log_rep_split _ _ Hp) as (init & s & finit & fs & Hs & -> & Hl & Hc & Hb & Hr & Ha & Hf & He).
  unfold pg_sync. rewrite (on_active_last _ _ _ _ Hs).
  destruct (segment_sync_rep _ _ Hr) as (Hr' & Hb' & Hst & Hsz & Hds).
  assert (Hq : log_rep (pg_set_segments (init ++ [(segment_sync s).2]) p) (finit ++ [fs])).
  { eapply log_rep_replace; [exact Hp|exact Hs|exact Hr'|exact Hb'|].
    unfold can_append, segment_is_empty, segment_is_full in *. by rewrite Hst, Hsz, Hds. }
  destruct (segment_sync s).1; intros [= <- <-]; [|done]. by eapply log_rep_same.
Qed.

Lemma maybe_sync_rep n p fss r q : log_rep p fss -> maybe_sync n p = (r, q) -> log_rep q fss.
Proof.
  intros Hp. unfold maybe_sync. destruct (lc_fsync_policy _).
  - by intros [= <- <-].
  - cbv zeta. set (p' := pg_set_sync _ _ p). assert (Hp' : log_rep p' fss) by (by eapply log_rep_same).
    destruct (_ <=? _); [by apply sync_rep|]. by intros [= <- <-].
  - by apply sync_rep.
Qed.

(** Rolling opens an empty segment after the sealed one, or fails and leaves what was there. *)
Lemma roll_segment_rep p fss s r q :
  log_rep p fss -> last (pg_segments p) = Some s -> segment_is_empty s = false ->
  segment_is_full (lc_segment_bytes (pg_cfg p)) s = true -> roll_segment env p = (r, q) ->
  same_log p q /\
  match r with
  | Ok _ => log_rep q (fss ++ [[]]) /\ exists s', last (pg_segments q) = Some s' /\ segment_is_empty s' = true /\
              sg_state s' = SegActive
  | Err _ => log_rep q fss
  end.
Proof.
  intros Hp Hlast Hne Hfull Hroll. split.
  { pose proof (roll_segment_same env p (lr_tier _ _ Hp)) as H. by rewrite Hroll in H. }
  destruct (log_rep_split _ _ Hp) as (init & s0 & finit & fs & Hs & -> & Hl & Hc & Hb & Hr & Ha & Hf & He).
  rewrite Hs, last_snoc in Hlast. injection Hlast as ->.
  unfold roll_segment in Hroll. rewrite (on_active_last _ _ _ _ Hs) in Hroll.
  destruct (segment_sync_rep _ _ Hr) as (Hr' & Hb' & Hst & Hsz & Hds). unfold segment_seal in Hroll.
  destruct (segment_sync s) as [[u|e] s1]; cbn in Hr', Hb', Hst, Hsz, Hds, Hroll.
  all: assert (Ha1 : forall st, can_append (pg_cfg p) (sg_set_state st s1))
    by (intros st; split; [cbn; rewrite Hds; apply Ha|right;
          unfold segment_is_empty, segment_is_full in *; cbn; by rewrite Hsz, Hds]).
  2: { injection Hroll as <- <-. eapply log_rep_replace; [exact Hp|exact Hs|exact Hr'|exact Hb'|].
       specialize (Ha1 (sg_state s1)). by destruct s1. }
  set (s2 := sg_set_state SegClosed s1) in *.
  assert (Hr2 : seg_rep s2 fs) by (destruct Hr' as [[] ? ? ?]; by split).
  set (p1 := pg_set_segments (init ++ [s2]) p) in *.
  assert (Hp1 : log_rep p1 (finit ++ [fs])).
  { eapply log_rep_replace; [exact Hp|exact Hs|exact Hr2|exact Hb'|apply Ha1]. }
  set (p2 := pg_set_sync (pg_log_end p) 0 p1) in *.
  assert (Hp2 : log_rep p2 (finit ++ [fs])) by (by eapply log_rep_same).
  destruct (create_segment env (pg_log_end p) p2) as [[u'|e] q2] eqn:Hcreate.
  - destruct u'. destruct (create_segment_rep _ _ _ Hcreate) as (s3 & -> & Hr3 & Hb3 & Hst3 & Hds3').
    cbn in Hroll. rewrite (lr_tier _ _ Hp) in Hroll. injection Hroll as <- <-.
    assert (Hds3 : segment_is_empty s3 = true).
    { destruct Hr3 as [[_ Hsz3 _ _] _ _ _]. unfold segment_is_empty. apply Nat.eqb_eq. cbn in Hsz3. lia. }
    split; [|exists s3; cbn; by rewrite last_snoc].
    eapply (log_rep_set_last p2); cbn; try apply Hp2.
    + rewrite Hb3. apply Hp2.
    + done.
    + split; [done|by left].
    + apply Forall_app. split; [done|]. constructor; [|constructor]. exact (empty_segment _ _ Hr Hne).
    + done.
    + done.
    + by rewrite Hb3.
  - injection Hroll as <- <-. pose proof (create_segment_same env (pg_log_end p) p2) as Hsame.
    rewrite Hcreate in Hsame. eapply log_rep_same; [exact Hp2|exact Hsame|].
    unfold create_segment in Hcreate. destruct (expected_bind _ _); [done|]. by injection Hcreate as _ <-.
Qed.

Definition active_base (p : PartitionLog T) : Z :=
  match last (pg_segments p) with Some s => sg_base s | None => 0 end.

(** The widths the index entries of the active segment need. *)
Record append_fits (b : RecordBatch) (p : PartitionLog T) : Prop := {
  af_batch : batch_ok (rebase (pg_log_end p) b);
  af_count : 1 <= h_record_count (b_header b);
  af_bytes : lc_segment_bytes (pg_cfg p) <= 2 ^ 31 - 128;
  af_offsets : pg_log_end p + h_record_count (b_header b) - active_base p <= 2 ^ 32;
}.

Lemma frame_length c random b fr :
  batch_ok b -> (forall n, random = Ok n -> length n = kEncNonceBytes) -> frame_of c random b = Ok fr ->
  (length fr <= kEncBlockHeaderSize + encoded_size b)%nat.
Proof.
  intros Hok Hr. unfold frame_of. rewrite batch_encode_layout by done. cbn [app].
  pose proof (length_batch_layout b) as Hl. destruct c as [c|].
  - intros Hs. rewrite (seal_block_length _ _ _ _ _ _ Hs Hr), Hl. lia.
  - intros [= <-]. rewrite Hl. lia.
Qed.

(** The batch goes to the end of an active segment that has room. *)
Lemma append_active_rep q fss s k b :
  log_rep q fss -> last (pg_segments q) = Some s -> sg_state s = SegActive ->
  (segment_is_empty s = true \/ segment_is_full (lc_segment_bytes (pg_cfg q)) s = false) ->
  batch_ok (rebase (pg_log_end q) b) -> 1 <= h_record_count (b_header b) ->
  lc_segment_bytes (pg_cfg q) <= 2 ^ 31 - 128 ->
  pg_log_end q + h_record_count (b_header b) - sg_base s <= 2 ^ 32 ->
  match on_active (segment_append (env_random env k kEncNonceBytes) (rebase (pg_log_end q) b)) (pg_count_call q) with
  | (Ok last, q') =>
      last = batch_last_offset (rebase (pg_log_end q) b) /\ exists fss' fr,
        log_rep (pg_set_end (last + 1) q') fss' /\
        concat fss' = concat fss ++ [(rebase (pg_log_end q) b, fr)]
  | (Err _, q') => log_rep q' fss
  end.
Proof.
  intros Hq Hlast Hact Hroom Hok Hcount Hbytes Hoff.
  destruct (log_rep_split _ _ Hq) as (init & s0 & finit & fs & Hs & -> & Hl & Hc & Hb & Hr & Ha & Hf & He).
  rewrite Hs, last_snoc in Hlast. injection Hlast as ->.
  rewrite (on_active_last _ (pg_count_call q) init s) by exact Hs.
  set (rb := rebase (pg_log_end q) b) in *.
  assert (Hrand : forall n, env_random env k kEncNonceBytes = Ok n -> length n = kEncNonceBytes) by (intros n; apply Henv).
  pose proof (segment_append_rep s fs (env_random env k kEncNonceBytes) rb Hr Hok ltac:(exact He) Hcount Hrand) as H.
  destruct (segment_append _ _ _) as [[last|e] s'].
  - destruct H as (-> & (Hb' & Hc' & Hd') & Hst' & fr & Hfr & Hfit). cbn. split; [done|].
    exists (finit ++ [fs ++ [(rb, fr)]]), fr.
    assert (Hrep' : seg_rep s' (fs ++ [(rb, fr)])).
    { apply Hfit. pose proof (od_size _ _ _ (sr_disk _ _ Hr)) as Hsz. cbn in Hsz.
      pose proof (frame_length _ _ _ _ Hok Hrand Hfr) as Hlen. destruct Hok as (_ & Hrec & _).
      unfold encoded_size, kHeaderSize, kEncBlockHeaderSize, kEncNonceBytes, kEncTagBytes in Hlen.
      pose proof (sr_fits _ _ Hr) as [_ Hfits]. split.
      - rewrite blocks_app, length_app, blocks_cons. cbn [blocks fmap list_fmap concat snd]. rewrite app_nil_r.
        assert (Hsmall : Z.of_nat (sg_size s) <= 2 ^ 31 - 96).
        { destruct Hroom as [He'|Hfl].
          - unfold segment_is_empty in He'. apply Nat.eqb_eq in He'.
            destruct Ha as [Hds _]. unfold kEncSegmentHeaderSize in Hds. change (2 ^ 31) with 2147483648. lia.
          - unfold segment_is_full in Hfl. apply Z.leb_gt in Hfl. lia. }
        change (2 ^ 32) with 4294967296. change (2 ^ 31) with 2147483648 in *. lia.
      - rewrite end_of_app. unfold end_of at 1. cbn [last]. change (last_of (rb, fr)) with (batch_last_offset rb).
        unfold batch_last_offset. subst rb. cbn. lia. }
    split; [|rewrite !concat_app; cbn; by rewrite !app_nil_r, app_assoc].
    eapply (log_rep_set_last q _ init s'); cbn; [exact Hc|congruence|exact Hrep'| |exact Hf|done|done| |apply Hq|apply Hq].
    + split; [rewrite Hd'; apply Ha|left; congruence].
    + by rewrite end_of_app.
  - destruct H as (Hrep' & (Hb' & _ & Hd') & Hst'). cbn [fst snd].
    eapply (log_rep_replace (pg_count_call q)); [by eapply log_rep_same|exact Hs|exact Hrep'|exact Hb'|].
    split; [rewrite Hd'; apply Ha|left; congruence].
Qed.

Lemma pg_append_rep b p fss :
  log_rep p fss -> append_fits b p ->
  pg_log_start (pg_append env b p).2 = pg_log_start p /\
  exists fss', log_rep (pg_append env b p).2 fss' /\
  match (pg_append env b p).1 with
  | Ok last => last = batch_last_offset (rebase (pg_log_end p) b) /\
      exists fr, concat fss' = concat fss ++ [(rebase (pg_log_end p) b, fr)]
  | Err _ => concat fss' = concat fss \/ exists fr, concat fss' = concat fss ++ [(rebase (pg_log_end p) b, fr)]
  end.
Proof.
  intros Hp [Hok Hcount Hbytes Hoff]. unfold pg_append.
  destruct (lr_active _ _ Hp) as (s & Hlast & Hds & Hact). rewrite Hlast.
  set (roll := if _ : bool then _ else _).
  assert (Hroll : exists q fss1, roll.2 = q /\ log_rep q fss1 /\ concat fss1 = concat fss /\ same_log p q /\
    (is_ok roll.1 = true -> exists s1, last (pg_segments q) = Some s1 /\ sg_state s1 = SegActive /\
       (segment_is_empty s1 = true \/ segment_is_full (lc_segment_bytes (pg_cfg q)) s1 = false) /\
       pg_log_end q + h_record_count (b_header b) - sg_base s1 <= 2 ^ 32)).
  { unfold active_base in Hoff. rewrite Hlast in Hoff. subst roll.
    destruct (segment_is_empty s) eqn:Hempty; cbn [negb andb].
    { exists p, fss. split_and!; try done. intros _. exists s. split_and!; try done; [|by left].
      destruct Hact as [|[]]; [done|congruence]. }
    destruct (segment_is_full _ s) eqn:Hfull.
    2: { exists p, fss. split_and!; try done. intros _. exists s. split_and!; try done; [|by right].
         destruct Hact as [|[]]; [done|congruence]. }
    destruct (roll_segment env p) as [r q] eqn:Hr.
    destruct (roll_segment_rep _ _ _ _ _ Hp Hlast Hempty Hfull Hr) as [Hsame Hq].
    destruct r as [u|e]; [|by exists q, fss].
    destruct Hq as (Hq & s1 & Hl1 & He1 & Ha1). exists q, (fss ++ [[]]). split_and!; try done.
    - rewrite concat_app. cbn. by rewrite app_nil_r.
    - intros _. exists s1. split_and!; try done; [by left|].
      destruct (log_rep_split _ _ Hq) as (init & s0 & finit & fs & Hs & Hf & _ & _ & _ & _ & _ & _ & He).
      rewrite Hs, last_snoc in Hl1. injection Hl1 as ->. apply app_inj_tail in Hf as [_ <-].
      rewrite He. unfold end_of. cbn. destruct Hok as ((_ & _ & _ & _ & _ & _ & Hc) & _). cbn in Hc.
      change (2 ^ 32) with 4294967296. change (2 ^ (32 - 1)) with 2147483648 in Hc. lia. }
  destruct Hroll as (q & fss1 & Hq & Hrep & Hcat & Hsame & Hready).
  destruct roll as [[u|e] q0]; cbn in Hq, Hready; subst q0.
  2: { split; [apply Hsame|]. exists fss1. split; [done|by left]. }
  destruct (Hready eq_refl) as (s1 & Hl1 & Ha1 & Hroom & Hoff1). cbv zeta.
  destruct Hsame as (Hst & Hend & Hcfg & _). rewrite <- Hend in Hok. rewrite <- Hcfg in Hbytes.
  pose proof (append_active_rep q fss1 s1 (pg_calls q) b Hrep Hl1 Ha1 Hroom Hok Hcount Hbytes Hoff1) as Happ.
  rewrite Hend in *.
  set (f := segment_append _ _) in *. pose proof (on_active_same f (pg_count_call q)) as (Hs1 & _).
  destruct (on_active f _) as [[lst|e] q1]; cbn in Hs1.
  2: { split; [cbn; congruence|]. exists fss1. split; [done|by left]. }
  destruct Happ as (-> & fss2 & fr & Hrep2 & Hcat2). rewrite Hcat in Hcat2.
  set (q2 := pg_set_end _ q1) in *.
  pose proof (maybe_sync_same (encoded_size (rebase (pg_log_end p) b)) q2) as (Hs2 & _).
  destruct (maybe_sync _ q2) as [[u'|e] q3] eqn:Hm; apply (maybe_sync_rep _ _ _ _ _ Hrep2) in Hm;
    (split; [cbn in *; congruence|]); exists fss2; (split; [done|]).
  - split; [done|]. by exists fr.
  - right. by exists fr.
Qed.

(** *** Truncation *)

Lemma segment_upper_le o segs : (segment_upper o segs <= length segs)%nat.
Proof. induction segs as [|s segs IH]; cbn; [done|]. destruct (_ <=? _); lia. Qed.

(** The segment an offset below the end falls in. *)
Lemma segment_upper_split start segs fss o :
  chained start segs fss -> start <= o < end_of start (concat fss) ->
  Forall (fun fs => fs <> []) (removelast fss) ->
  exists init s rest finit fs frest, segs = init ++ s :: rest /\ fss = finit ++ fs :: frest /\
    length init = length finit /\ segment_upper o segs = S (length init) /\ sg_base s <= o < end_of (sg_base s) fs /\
    Forall (fun f => last_of f < o) (concat finit).
Proof.
  revert start fss. induction segs as [|s segs IH]; intros start [|fs fss]; cbn [chained]; try done.
  { cbn. unfold end_of. cbn. lia. }
  intros (Hb & Hr & Hc) Ho Hne. cbn [segment_upper concat] in *. rewrite Hb, (proj2 (Z.leb_le _ _)) by lia.
  rewrite end_of_app in Ho. pose proof (sr_contiguous _ _ (proj2 Hr)) as Hcont. rewrite Hb in Hcont.
  destruct (Z.ltb_spec o (end_of start fs)) as [Hlt|Hge].
  - exists [], s, segs, [], fs, fss. cbn. rewrite Hb. split_and!; try done; [|lia].
    destruct segs as [|s' segs]; [done|]. destruct fss as [|fs' fss]; [done|]. destruct Hc as (Hb' & _).
    cbn. by rewrite Hb', (proj2 (Z.leb_gt _ _)).
  - destruct (IH _ fss Hc) as (init & s' & rest & finit & fs' & frest & -> & -> & Hl & Hu & Hb' & Hf); [lia| |].
    { destruct fss as [|f' fss]; [constructor|]. by inversion Hne. }
    exists (s :: init), s', rest, (fs :: finit), fs', frest. cbn. rewrite Hu. split_and!; try done; [by rewrite Hl|lia..|].
    apply Forall_app. split; [|done]. rewrite Forall_forall. intros f Hin.
    destruct (contiguous_bounds _ _ _ Hcont Hin). lia.
Qed.

Lemma keep_before_app o a b :
  Forall (fun f => last_of f < o) a -> keep_before o (a ++ b) = a ++ keep_before o b.
Proof. induction 1 as [|f a Hf Ha IH]; [done|]. cbn. by rewrite (proj2 (Z.ltb_lt _ _)), IH. Qed.

(** Past the batch that holds an offset nothing is kept. *)
Lemma keep_before_stop o off fs more :
  contiguous off (fs ++ more) -> o < end_of off fs -> keep_before o (fs ++ more) = keep_before o fs.
Proof.
  revert off. induction fs as [|f fs IH]; intros off Hc Ho.
  - unfold end_of in Ho. cbn in *. destruct more as [|g more]; [done|]. destruct Hc as (Hg & Hgc & _).
    pose proof (last_of_first g). cbn. by rewrite (proj2 (Z.ltb_ge _ _)) by lia.
  - destruct Hc as (Hf & Hcount & Hc). rewrite end_of_cons in Ho. cbn.
    destruct (_ <? _); [|done]. f_equal. by eapply IH.
Qed.

Lemma keep_before_all o off fs : contiguous off fs -> end_of off fs <= o -> keep_before o fs = fs.
Proof.
  intros Hc Ho. pose proof (keep_before_app o fs []) as H. rewrite !app_nil_r in H. apply H.
  rewrite Forall_forall. intros f Hf. destruct (contiguous_bounds _ _ _ Hc Hf). lia.
Qed.

(** Truncation succeeds only at the first offset of a batch, or at the end, and keeps the batches
    before it. *)
Lemma pg_truncate_rep o p fss u q :
  log_rep p fss -> pg_truncate_to o p = (Ok u, q) ->
  pg_log_start q = pg_log_start p /\ end_of (pg_log_start p) (keep_before o (concat fss)) = o /\
  exists fss', log_rep q fss' /\ concat fss' = keep_before o (concat fss).
Proof.
  intros Hp. unfold pg_truncate_to.
  pose proof (chained_contiguous _ _ _ (lr_chained _ _ Hp)) as Hcont.
  destruct (Z.eqb_spec o (pg_log_end p)) as [He|Hne].
  { intros [= _ <-]. assert (Hk : keep_before o (concat fss) = concat fss).
    { eapply keep_before_all; [done|]. rewrite <- (lr_end _ _ Hp). lia. }
    rewrite Hk, <- (lr_end _ _ Hp). split_and!; [done|done|by exists fss]. }
  destruct (Z.ltb_spec (pg_log_end p) o) as [|Hle]; [done|].
  destruct (Z.ltb_spec o (pg_log_start p)) as [|Ho]; [done|].
  rewrite (lr_tiered _ _ Hp), bool_decide_eq_true_2 by done. cbn [negb andb].
  rewrite (lr_end _ _ Hp) in Hne, Hle.
  destruct (segment_upper_split _ _ _ o (lr_chained _ _ Hp)) as
    (init & s & rest & finit & fs & frest & Hs & -> & Hl & Hu & Hb & Hf); [lia|apply Hp|].
  pose proof (lr_chained _ _ Hp) as Hch. rewrite Hs in Hch.
  apply chained_app in Hch as (Hc1 & Hsb & [Hds Hr] & Hc2); [|done].
  pose proof (lr_full _ _ Hp) as Hne'. rewrite removelast_app in Hne' by done. apply Forall_app in Hne' as [Hne1 _].
  assert (Htake : take (segment_upper o (pg_segments p)) (pg_segments p) = init ++ [s]).
  { rewrite Hs in Hu |- *. rewrite Hu. replace (S (length init)) with (length init + 1)%nat by lia.
    by rewrite take_app_add. }
  rewrite Htake. set (p' := pg_set_segments _ p). rewrite (on_active_last _ p' init s) by done.
  (* what is kept is in this segment and those before *)
  rewrite concat_app in Hcont |- *. cbn [concat] in Hcont |- *. rewrite keep_before_app by done.
  apply contiguous_app in Hcont as [_ Hcont]. rewrite <- Hsb in Hcont.
  rewrite (keep_before_stop o (sg_base s)) by (done || lia). rewrite end_of_app, <- Hsb.
  pose proof (segment_truncate_rep s fs o Hr Hb) as Htr. cbv zeta in Htr.
  destruct (Z.eqb_spec (end_of (sg_base s) (keep_before o fs)) o) as [Hbound|]; [|by rewrite Htr].
  destruct (segment_truncate_to o s) as [[u'|e] s']; [|done]. cbn. intros [= _ <-].
  destruct Htr as (Hr' & (Hb' & _ & Hd') & Hst'). split_and!; [done|done|].
  exists (finit ++ [keep_before o fs]). split; [|rewrite concat_app; cbn; by rewrite app_nil_r].
  eapply (log_rep_set_last p _ init s'); cbn; [exact Hc1|by rewrite Hb'|exact Hr'| |exact Hne1|done|done|by rewrite Hb'|apply Hp|apply Hp].
  split; [by rewrite Hd'|by left].
Qed.

(** *** Dropping a prefix *)

Lemma drop_segments_rep start o segs fss :
  chained start segs fss -> segs <> [] -> start <= o ->
  exists dropped kept start', drop_segments o segs = drop (length dropped) segs /\ fss = dropped ++ kept /\
    start' = end_of start (concat dropped) /\ chained start' (drop_segments o segs) kept /\ start <= start' <= o /\
    drop_segments o segs <> [] /\ last (drop_segments o segs) = last segs /\
    match drop_segments o segs with s :: _ => sg_base s = start' | [] => False end.
Proof.
  revert start fss. induction segs as [|s segs IH]; intros start fss Hc Hne Ho; [done|].
  assert (Hstay : exists dropped kept start', s :: segs = drop (length dropped) (s :: segs) /\ fss = dropped ++ kept /\
    start' = end_of start (concat dropped) /\ chained start' (s :: segs) kept /\ start <= start' <= o /\
    s :: segs <> [] /\ last (s :: segs) = last (s :: segs) /\ sg_base s = start').
  { exists [], fss, start. destruct fss as [|fs0 fss]; [done|]. pose proof Hc as [Hb _].
    split_and!; try done; lia. }
  cbn [drop_segments]. destruct segs as [|next segs]; [done|].
  destruct fss as [|fs fss]; [done|]. destruct Hc as (Hb & [_ Hr] & Hc).
  assert (Hnext : sg_base next = end_of start fs) by (destruct fss; [done|apply Hc]).
  destruct (Z.leb_spec (sg_base next) o) as [Hle|]; [|done].
  destruct (IH (end_of start fs) fss Hc) as (dropped & kept & start' & H1 & -> & H3 & H4 & H5 & H6 & H7 & H8);
    [done|lia|].
  pose proof (end_of_ge _ _ (sr_contiguous _ _ Hr)) as Hge. rewrite Hb in Hge.
  exists (fs :: dropped), kept, start'. cbn [length drop concat app]. rewrite end_of_app.
  split_and!; done || lia.
Qed.

(** Whole segments leave the log, all of whose batches are before the offset. *)
Lemma pg_prefix_rep o p fss u q :
  log_rep p fss -> pg_truncate_prefix_to o p = (Ok u, q) ->
  exists dropped kept, fss = dropped ++ kept /\ log_rep q kept /\
    pg_log_start q = end_of (pg_log_start p) (concat dropped) /\ pg_log_start q <= Z.max (pg_log_start p) o.
Proof.
  intros Hp. unfold pg_truncate_prefix_to. destruct (Z.leb_spec o (pg_log_start p)) as [|Hlt].
  { intros [= _ <-]. exists [], fss. split_and!; try done. lia. }
  destruct (Z.ltb_spec (pg_log_end p) o); [done|].
  rewrite (lr_tiered _ _ Hp). cbn [drop_tiered]. intros [= _ <-].
  destruct (lr_active _ _ Hp) as (s & Hs & Ha).
  destruct (drop_segments_rep _ o _ _ (lr_chained _ _ Hp)) as
    (dropped & kept & start' & H1 & -> & H3 & H4 & H5 & H6 & H7 & H8); [by intros Hn; rewrite Hn in Hs|lia|].
  exists dropped, kept. unfold recompute_log_start. cbn [pg_set_segments pg_tiered pg_segments].
  rewrite (lr_tiered _ _ Hp). destruct (drop_segments o (pg_segments p)) as [|s0 l] eqn:Hd; [done|].
  split; [done|]. rewrite H8. split; [|by split; cbn; [done|lia]]. split; cbn.
  - exact H4.
  - rewrite (lr_end _ _ Hp), concat_app, end_of_app. by rewrite H3.
  - exists s. by rewrite H7.
  - pose proof (lr_full _ _ Hp) as Hf. destruct kept as [|k kept]; [constructor|].
    rewrite removelast_app in Hf by done. by apply Forall_app in Hf as [_ Hf].
  - apply Hp.
  - apply Hp.
Qed.

(** Retention drops whole segments too. *)
Lemma retention_rep policy now total segs p fss q :
  log_rep p fss -> pg_segments p = segs -> retention_loop env policy now total segs p = q ->
  exists dropped kept, fss = dropped ++ kept /\ log_rep q kept /\
    pg_log_start q = end_of (pg_log_start p) (concat dropped).
Proof.
  revert total p fss. induction segs as [|s segs IH]; intros total p fss Hp Hs; cbn [retention_loop].
  { intros <-. by exists [], fss. }
  destruct segs as [|next segs]; [intros <-; by exists [], fss|].
  destruct (segment_eligible _ _ _ _ _); [|intros <-; by exists [], fss].
  pose proof (lr_chained _ _ Hp) as Hc. rewrite Hs in Hc. destruct fss as [|fs fss]; [done|].
  destruct Hc as (Hb & _ & Hc). assert (Hnext : sg_base next = end_of (pg_log_start p) fs) by (destruct fss; [done|apply Hc]).
  set (p1 := pg_set_start _ _). intros Hq.
  assert (Hp1 : log_rep p1 fss).
  { destruct (lr_active _ _ Hp) as (s' & Hs' & Ha). split; cbn.
    - change (chained (sg_base next) (next :: segs) fss). rewrite Hnext. exact Hc.
    - rewrite (lr_end _ _ Hp). cbn [concat]. by rewrite end_of_app, Hnext.
    - exists s'. rewrite Hs in Hs'. by rewrite last_cons_cons in Hs'.
    - pose proof (lr_full _ _ Hp) as Hf. destruct fss; [constructor|]. by inversion Hf.
    - apply Hp.
    - apply Hp. }
  destruct (IH _ p1 fss Hp1 eq_refl Hq) as (dropped & kept & -> & Hrep & Hst).
  exists (fs :: dropped), kept. split_and!; [done|done|]. rewrite Hst. cbn. by rewrite end_of_app, Hnext.
Qed.

(** *** Resetting *)

Lemma pg_reset_rep o p fss u q :
  log_rep p fss -> pg_reset_to env o p = (Ok u, q) -> log_rep q [[]] /\ pg_log_start q = o /\ pg_log_end q = o.
Proof.
  intros Hp. unfold pg_reset_to. destruct (o <? 0); [done|]. rewrite (lr_tiered _ _ Hp). cbn [remove_all_tiered].
  set (p0 := pg_set_segments [] _). destruct (create_segment env o p0) as [[u'|e] q'] eqn:Hc; [|done].
  destruct u'. destruct (create_segment_rep _ _ _ Hc) as (s & -> & Hr & Hb & Hst & Hds).
  intros [= _ <-]. cbn. split; [|done].
  split; cbn; [by split_and!|done| |constructor|apply Hp|done].
  exists s. by split; [|split; [|left]].
Qed.

(** *** A new log *)

Lemma pg_open_rep cfg files p :
  pg_open env cfg None (Ok []) files = Ok p -> log_rep p [[]] /\ pg_log_start p = 0 /\ pg_log_end p = 0.
Proof.
  unfold pg_open. cbn.
  destruct (create_segment env 0 _) as [[u|e] q] eqn:Hc; [|done]. destruct u.
  destruct (create_segment_rep _ _ _ Hc) as (s & -> & Hr & Hb & Hst & Hds). cbn.
  intros [= <-]. split; [|done]. split; cbn; [|done| |constructor|done|done].
  - split_and!; [done|by split|done].
  - exists s. by split; [|split; [|left]].
Qed.

(** ** The abstract log *)

Record AbsPartition := MkAbsPartition { ab_start : Z; ab_batches : list RecordBatch }.

Definition ab_end (a : AbsPartition) : Z :=
  match last (ab_batches a) with Some b => batch_last_offset b + 1 | None => ab_start a end.

Inductive LogCall :=
  | CallAppend (b : RecordBatch)
  | CallTruncate (offset : Z)
  | CallPrefix (offset : Z)
  | CallReset (offset : Z)
  | CallSync
  | CallRetention (policy : RetentionPolicy) (now : Z).

(** What each call means: a batch gets the next offset; truncation cuts at the start of a batch;
    dropping a prefix, whole batches that end before the offset, and retention any prefix. *)
Inductive abs_call : LogCall -> AbsPartition -> AbsPartition -> Prop :=
  | abs_append b a :
      abs_call (CallAppend b) a (MkAbsPartition (ab_start a) (ab_batches a ++ [rebase (ab_end a) b]))
  | abs_truncate start kept cut :
      abs_call (CallTruncate (ab_end (MkAbsPartition start kept))) (MkAbsPartition start (kept ++ cut))
        (MkAbsPartition start kept)
  | abs_prefix offset start dropped kept :
      ab_end (MkAbsPartition start dropped) <= Z.max start offset ->
      abs_call (CallPrefix offset) (MkAbsPartition start (dropped ++ kept))
        (MkAbsPartition (ab_end (MkAbsPartition start dropped)) kept)
  | abs_reset offset a : abs_call (CallReset offset) a (MkAbsPartition offset [])
  | abs_sync a : abs_call CallSync a a
  | abs_retention policy now start dropped kept :
      abs_call (CallRetention policy now) (MkAbsPartition start (dropped ++ kept))
        (MkAbsPartition (ab_end (MkAbsPartition start dropped)) kept).

Inductive abs_calls : list LogCall -> AbsPartition -> AbsPartition -> Prop :=
  | abs_done a : abs_calls [] a a
  | abs_more c cs a b d : abs_call c a b -> abs_calls cs b d -> abs_calls (c :: cs) a d.

Definition log_call (c : LogCall) (p : PartitionLog T) : bool * PartitionLog T :=
  match c with
  | CallAppend b => let '(r, q) := pg_append env b p in (is_ok r, q)
  | CallTruncate o => let '(r, q) := pg_truncate_to o p in (is_ok r, q)
  | CallPrefix o => let '(r, q) := pg_truncate_prefix_to o p in (is_ok r, q)
  | CallReset o => let '(r, q) := pg_reset_to env o p in (is_ok r, q)
  | CallSync => let '(r, q) := pg_sync p in (is_ok r, q)
  | CallRetention policy now => (true, pg_enforce_retention env policy now p)
  end.

(** Calls that all succeed, each append within the widths of the index. *)
Fixpoint log_calls (cs : list LogCall) (p q : PartitionLog T) : Prop :=
  match cs with
  | [] => q = p
  | c :: rest =>
      match c with CallAppend b => append_fits b p | _ => True end /\
      (log_call c p).1 = true /\ log_calls rest (log_call c p).2 q
  end.

Definition abs_of (p : PartitionLog T) (fss : list (list (RecordBatch * list byte))) : AbsPartition :=
  MkAbsPartition (pg_log_start p) (fst <$> concat fss).

Lemma ab_end_of start fs : ab_end (MkAbsPartition start (fst <$> fs)) = end_of start fs.
Proof. unfold ab_end, end_of. cbn. rewrite fmap_last. by destruct (last fs). Qed.

Lemma prefix_abs p q dropped kept :
  pg_log_start q = end_of (pg_log_start p) (concat dropped) ->
  abs_of p (dropped ++ kept) = MkAbsPartition (pg_log_start p) ((fst <$> concat dropped) ++ (fst <$> concat kept)) /\
  abs_of q kept = MkAbsPartition (ab_end (MkAbsPartition (pg_log_start p) (fst <$> concat dropped))) (fst <$> concat kept).
Proof. intros Hq. unfold abs_of. by rewrite concat_app, fmap_app, ab_end_of, Hq. Qed.

Lemma log_call_rep c p fss :
  log_rep p fss -> match c with CallAppend b => append_fits b p | _ => True end -> (log_call c p).1 = true ->
  exists fss', log_rep (log_call c p).2 fss' /\ abs_call c (abs_of p fss) (abs_of (log_call c p).2 fss').
Proof.
  intros Hp Hfit. destruct c as [b|o|o|o| |policy now]; cbn [log_call].
  - destruct (pg_append_rep b p fss Hp Hfit) as (Hst & fss' & Hrep & Hres).
    destruct (pg_append env b p) as [[last|e] q]; cbn in *; [|done]. intros _.
    destruct Hres as (_ & fr & Hcat). exists fss'. split; [done|].
    unfold abs_of at 2. rewrite Hst, Hcat, fmap_app, (lr_end _ _ Hp), <- ab_end_of. apply (abs_append b (abs_of p fss)).
  - destruct (pg_truncate_to o p) as [[u|e] q] eqn:Ht; [|done]. intros _.
    destruct (pg_truncate_rep _ _ _ _ _ Hp Ht) as (Hst & Hb & fss' & Hrep & Hcat).
    exists fss'. split; [done|]. cbn. destruct (keep_before_prefix o (concat fss)) as [cut Hcut].
    unfold abs_of. rewrite Hst, Hcat. rewrite Hcut at 1. rewrite fmap_app. rewrite <- Hb at 1.
    rewrite <- ab_end_of. apply abs_truncate.
  - destruct (pg_truncate_prefix_to o p) as [[u|e] q] eqn:Ht; [|done]. intros _.
    destruct (pg_prefix_rep _ _ _ _ _ Hp Ht) as (dropped & kept & -> & Hrep & Hst & Hle).
    exists kept. split; [done|]. cbn. destruct (prefix_abs p q dropped kept Hst) as [-> ->].
    apply abs_prefix. by rewrite ab_end_of, <- Hst.
  - destruct (pg_reset_to env o p) as [[u|e] q] eqn:Ht; [|done]. intros _.
    destruct (pg_reset_rep _ _ _ _ _ Hp Ht) as (Hrep & Hst & _). exists [[]]. split; [done|].
    cbn. unfold abs_of at 2. rewrite Hst. apply abs_reset.
  - destruct (pg_sync p) as [[u|e] q] eqn:Ht; [|done]. intros _.
    pose proof (sync_same p) as (Hst & _). rewrite Ht in Hst. cbn in Hst.
    exists fss. split; [by eapply sync_rep|]. cbn. unfold abs_of. rewrite Hst. apply abs_sync.
  - intros _. cbn. unfold pg_enforce_retention. rewrite (lr_tiered _ _ Hp), bool_decide_eq_true_2 by done.
    set (total := foldl _ _ _).
    destruct (retention_rep policy now total (pg_segments p) p fss _ Hp eq_refl eq_refl) as (dropped & kept & -> & Hrep & Hst).
    exists kept. split; [done|]. destruct (prefix_abs _ _ dropped kept Hst) as [-> ->]. apply abs_retention.
Qed.

Lemma log_calls_rep cs p q fss :
  log_rep p fss -> log_calls cs p q -> exists fss', log_rep q fss' /\ abs_calls cs (abs_of p fss) (abs_of q fss').
Proof.
  revert p fss. induction cs as [|c cs IH]; intros p fss Hp; cbn.
  - intros ->. exists fss. split; [done|constructor].
  - intros (Hfit & Hok & Hrest). destruct (log_call_rep _ _ _ Hp Hfit Hok) as (fss1 & Hp1 & Ha).
    destruct (IH _ _ Hp1 Hrest) as (fss2 & Hp2 & Hb). exists fss2. split; [done|]. by econstructor.
Qed.

(** C10. A partition log implements its specification: from a new log, after any calls that succeed
    (with whatever partial transfers and interruptions below them), it is the abstract log the
    calls describe, with its first and end offsets, and a read from any offset gives the batches
    from the one that holds it on, whole and in order, until the size asked for is reached,
    across segments and whatever the indexes hold, in the clear or encrypted. *)
Theorem partition_log_refines (cfg : LogConfig) (files : Z -> expected (File * File)) (cs : list LogCall)
    (p q : PartitionLog T)
    (Hopen : pg_open env cfg None (Ok []) files = Ok p) (Hcalls : log_calls cs p q) :
  exists a, abs_calls cs (MkAbsPartition 0 []) a /\ pg_log_start q = ab_start a /\ pg_log_end q = ab_end a /\
    forall offset max, ab_start a <= offset -> pg_read env offset max q = Ok (read_spec offset max (ab_batches a)).
Proof.
  destruct (pg_open_rep _ _ _ Hopen) as (Hrep & Hst & _).
  destruct (log_calls_rep cs p q [[]] Hrep Hcalls) as (fss & Hq & Ha).
  exists (abs_of q fss). unfold abs_of in Ha at 1. rewrite Hst in Ha. split; [exact Ha|]. split; [done|].
  split; [unfold abs_of; rewrite ab_end_of; apply Hq|]. intros offset max Ho. by apply pg_read_spec.
Qed.
(** *** When the disk does not confirm *)

Lemma session_of_insert h m : session_of h (<[h_producer_id h := session_of h m]> m) = session_of h m.
Proof. unfold session_of. by rewrite lookup_insert_eq. Qed.

(** The batch is written at the end of the active segment, which has room, and the [fsync] of the policy
    fails: it is what the calls of an append do to the log up to its error. *)
Definition unconfirmed (b : RecordBatch) (q : PartitionLog T) (e : Error) (q' : PartitionLog T) : Prop :=
  exists s lst q1, last (pg_segments q) = Some s /\ segment_is_full (lc_segment_bytes (pg_cfg q)) s = false /\
    on_active (segment_append (env_random env (pg_calls q) kEncNonceBytes) (rebase (pg_log_end q) b)) (pg_count_call q) = (Ok lst, q1) /\
    maybe_sync (encoded_size (rebase (pg_log_end q) b)) (pg_set_end (lst + 1) q1) = (Err e, q').

Lemma unconfirmed_append b q e q' fss :
  unconfirmed b q e q' -> log_rep q fss -> append_fits b q ->
  pg_append env b q = (Err e, q') /\ exists fss' fr, log_rep q' fss' /\ pg_log_start q' = pg_log_start q /\
    pg_log_end q' = pg_log_end q + h_record_count (b_header b) /\ concat fss' = concat fss ++ [(rebase (pg_log_end q) b, fr)].
Proof.
  intros (s & lst & q1 & Hlast & Hfull & Hwrite & Hsync) Hq Hfit.
  assert (Happend : pg_append env b q = (Err e, q')).
  { unfold pg_append. rewrite Hlast, Hfull, andb_false_r. cbv zeta. by rewrite Hwrite, Hsync. }
  split; [done|]. destruct (pg_append_rep b q fss Hq Hfit) as (Hst & fss' & Hrep & Hcat). rewrite Happend in Hst, Hrep, Hcat. cbn [fst snd] in *.
  assert (Hend : pg_log_end q' = pg_log_end q + h_record_count (b_header b)).
  { pose proof (maybe_sync_same (encoded_size (rebase (pg_log_end q) b)) (pg_set_end (lst + 1) q1)) as (_ & Hend & _). rewrite Hsync in Hend. cbn in Hend.
    rewrite Hend. unfold on_active in Hwrite. cbn [pg_segments pg_count_call] in Hwrite. rewrite Hlast in Hwrite.
    destruct (segment_append _ _ s) as [r s'] eqn:Ha. injection Hwrite as -> _. unfold segment_append in Ha.
    destruct (bool_decide _); [done|]. destruct (frame_of _ _ _) as [fr|]; [|done]. destruct (write_at _ _ _) as [[u|] f]; [|done].
    injection Ha as <- _. unfold batch_last_offset. cbn. lia. }
  destruct Hcat as [Hsame|[fr Hcat]]; [|by exists fss', fr].
  exfalso. pose proof (lr_end _ _ Hrep) as H1. pose proof (lr_end _ _ Hq) as H2. rewrite Hsame, Hst, <- H2 in H1. destruct Hfit as [_ Hc _ _]. lia.
Qed.

(** C38. An append whose [fsync] fails reports an error although the batch is in the log.  After any calls on a
    new log that succeeded, with any sessions: when a producer's batch is in sequence, is written, and the [fsync]
    after it fails, the producer is told the error and the log reads with the batch; and the session does not
    record it, so that a retry that is confirmed stores the batch a second time. *)
Theorem failed_sync_duplicates_batch (cfg : LogConfig) (files : Z -> expected (File * File)) (cs : list LogCall) (p q q' : PartitionLog T)
    (sessions : gmap Z ProducerSession) (epoch : Z) (proto : WireProtocol) (b : RecordBatch) (e : Error)
    (Hopen : pg_open env cfg None (Ok []) files = Ok p) (Hcalls : log_calls cs p q) (Hid : 0 <= h_producer_id (b_header b))
    (Haccept : session_check (h_producer_epoch (b_header b)) (h_base_sequence (b_header b)) (h_record_count (b_header b))
      (session_of (b_header b) sessions) = SeqAccept)
    (Hfit : append_fits b q) (Hsync : unconfirmed b q e q') :
  exists a part', abs_calls cs (MkAbsPartition 0 []) a /\
    @partition_produce _ (PartitionLog_ops env) b (MkPartition (MkProducing q sessions) epoch proto) = (Err e, part') /\
    (forall offset max, ab_start a <= offset ->
      pg_read env offset max (pr_store (pt_state part')) = Ok (read_spec offset max (ab_batches a ++ [rebase (ab_end a) b]))) /\
    (forall lst part2, append_fits b q' -> @partition_produce _ (PartitionLog_ops env) b part' = (Ok lst, part2) ->
      forall offset max, ab_start a <= offset ->
        pg_read env offset max (pr_store (pt_state part2))
        = Ok (read_spec offset max (ab_batches a ++ [rebase (ab_end a) b; rebase (ab_end a + h_record_count (b_header b)) b]))).
Proof.
  destruct (pg_open_rep _ _ _ Hopen) as (Hrep & Hst & _). destruct (log_calls_rep cs p q [[]] Hrep Hcalls) as (fss & Hq & Ha).
  unfold abs_of in Ha at 1. rewrite Hst in Ha. cbn [concat app fmap list_fmap] in Ha. set (a := abs_of q fss) in *.
  assert (Hab : ab_end a = pg_log_end q) by (unfold a, abs_of; rewrite ab_end_of; symmetry; apply Hq).
  destruct (unconfirmed_append b q e q' fss Hsync Hq Hfit) as (Happend & fss' & fr & Hq' & Hst' & Hend & Hcat).
  set (h := b_header b) in *. set (m := <[h_producer_id h := session_of h sessions]> sessions).
  assert (Hfirst : @partition_produce _ (PartitionLog_ops env) b (MkPartition (MkProducing q sessions) epoch proto)
    = (Err e, MkPartition (MkProducing q' m) epoch proto)).
  { unfold partition_produce, idempotent_produce. cbn [pt_state pr_store pr_producers pl_append PartitionLog_ops pt_leader_epoch pt_protocol]. fold h.
    rewrite (proj2 (Z.ltb_ge _ 0)), Haccept, Happend by lia. done. }
  exists a, (MkPartition (MkProducing q' m) epoch proto). split_and!; [done|done| |].
  - intros offset max Ho. cbn [pt_state pr_store]. rewrite (pg_read_spec q' fss') by (done || (rewrite Hst'; exact Ho)).
    rewrite Hcat, fmap_app, Hab. done.
  - intros lst part2 Hfit' Hretry offset max Ho. destruct (pg_append_rep b q' fss' Hq' Hfit') as (Hst2 & fss2 & Hq2 & Hres).
    unfold partition_produce, idempotent_produce in Hretry. cbn [pt_state pr_store pr_producers pl_append PartitionLog_ops pt_leader_epoch pt_protocol] in Hretry.
    fold h in Hretry. rewrite (proj2 (Z.ltb_ge _ 0)) in Hretry by lia. unfold m in Hretry. rewrite session_of_insert, Haccept in Hretry.
    destruct (pg_append env b q') as [[l|x] q2]; [|done]. injection Hretry as _ <-. cbn [fst snd] in *. destruct Hres as (_ & fr2 & Hcat2).
    cbn [pt_state pr_store]. rewrite (pg_read_spec q2 fss2) by (done || (rewrite Hst2, Hst'; exact Ho)).
    rewrite Hcat2, Hcat, Hend, !fmap_app, <- app_assoc, Hab. done.
Qed.
End Log.

(** ** A log with small encrypted segments *)

Definition log_env : Environment := {|
  env_random k n := Ok (replicate n (Z.of_nat k));
  env_files _ _ := Ok (MkFile [] [Interrupted; Transfer 5] [Transfer 7], file_of []);
  env_mtime _ := None;
  env_temp _ := make_error IoError "rehidratación";
|}.

Lemma log_env_laws : EnvironmentLaws log_env.
Proof.
  split; cbn.
  - intros k base log index [= <- <-]. cbn. split_and!; [done|done|repeat constructor].
  - intros k n bytes [= <-]. apply length_replicate.
Qed.

Definition log_cfg : LogConfig := MkLogConfig 100 64 FsyncCommit 0 (Some [9]) [] 0.
Definition log_batch (count : Z) (records : list byte) : RecordBatch :=
  MkBatch (MkHeader 0 0 (-1) (-1) (-1) count) records.

Definition log_script : list LogCall :=
  [CallAppend (log_batch 2 [1; 2]); CallAppend (log_batch 3 [3]); CallAppend (log_batch 1 [4]); CallTruncate 5;
   CallPrefix 3; CallSync; CallAppend (log_batch 1 [5])].

Fixpoint log_run (cs : list LogCall) (p : PartitionLog Empty_set) : PartitionLog Empty_set :=
  match cs with [] => p | c :: rest => log_run rest (@log_call sample_crypto _ _ log_env c p).2 end.

Ltac by_append_fits :=
  split; [unfold batch_ok, header_ok; split_and!;
            first [by_range|match goal with |- Forall _ ?l =>
                              let l' := eval vm_compute in l in change (Forall (u_range 8) l'); by_ranges
                            end|vm_compute; reflexivity]
         |vm_compute; discriminate|vm_compute; discriminate|vm_compute; discriminate].

Lemma partition_log_refines_witness :
  exists p q a, @pg_open sample_crypto Empty_set _ log_env log_cfg None (Ok []) (env_files log_env 0) = Ok p /\
    q = log_run log_script p /\ abs_calls log_script (MkAbsPartition 0 []) a /\ pg_log_start q = 2 /\ pg_log_end q = 6 /\
    @pg_read sample_crypto _ _ log_env 2 60 q = Ok (read_spec 2 60 (ab_batches a)).
Proof.
  destruct (@pg_open sample_crypto Empty_set _ log_env log_cfg None (Ok []) (env_files log_env 0)) as [p|e] eqn:Hopen;
    [|vm_compute in Hopen; discriminate].
  set (q := log_run log_script p).
  assert (Hcalls : @log_calls sample_crypto _ _ log_env log_script p q).
  { vm_compute in Hopen. injection Hopen as <-. subst q.
    repeat (split; [first [exact I|by_append_fits]|split; [vm_compute; reflexivity|]]). vm_compute. reflexivity. }
  destruct (@partition_log_refines sample_crypto sample_crypto_laws Empty_set _ log_env log_env_laws log_cfg
    (env_files log_env 0) log_script p q Hopen Hcalls) as (a & Ha & Hs & He & Hr).
  assert (Hq : pg_log_start q = 2 /\ pg_log_end q = 6)
    by (vm_compute in Hopen; injection Hopen as <-; vm_compute; split; reflexivity).
  destruct Hq as [Hq1 Hq2]. exists p, q, a. repeat (split; [first [reflexivity|assumption]|]).
  apply Hr. rewrite <- Hs, Hq1. discriminate.
Defined.

(** ** What the code does when a call fails halfway *)

(** Files of an environment whose disk does what the plan of the [k]-th file says. *)
Definition faulty_env (plans : list (list SysOutcome)) : Environment := {|
  env_random k n := Ok (replicate n 0);
  env_files k _ := match plans !! k with
                   | Some plan => Ok (MkFile [] plan [], file_of [])
                   | None => make_error IoError "open: EMFILE"
                   end;
  env_mtime _ := None;
  env_temp _ := make_error IoError "rehidratación";
|}.

Definition plain_cfg (bytes : Z) (policy : FsyncPolicy) : LogConfig := MkLogConfig bytes 64 policy 0 None [] 0.

Definition opened (env : Environment) (cfg : LogConfig) : PartitionLog Empty_set :=
  match @pg_open sample_crypto Empty_set _ env cfg None (Ok []) (env_files env 0) with
  | Ok p => p
  | Err _ => MkPartitionLog cfg None [] [] 0 0 0 0 0
  end.

(** Truncating at an offset that is not the start of a batch is refused, but the later segments are
    already gone: the log still announces their offsets and reads nothing from them. *)
Theorem refused_truncation_deletes_segments :
  let env := faulty_env [[]; []; []; []; []; []] in
  let append b p := (@pg_append sample_crypto _ _ env b p).2 in
  let p := append (log_batch 2 [3; 4]) (append (log_batch 2 [1; 2]) (opened env (plain_cfg 20 FsyncNone))) in
  let refused := pg_truncate_to 1 p in
  (exists bytes, @pg_read sample_crypto _ _ env 2 100 p = Ok (MkFetch bytes 4) /\ bytes <> []) /\
  is_ok refused.1 = false /\ pg_log_end refused.2 = 4 /\
  @pg_read sample_crypto _ _ env 2 100 refused.2 = Ok (MkFetch [] 2).
Proof. vm_compute. split_and!; [|done..]. eexists. by split. Qed.

(** A reset that cannot create the new segment leaves a log with no segment at all, whose next
    append takes the last of an empty vector. *)
Theorem failed_reset_leaves_no_segment :
  let env := faulty_env [[]] in
  let p := opened env (plain_cfg 1000 FsyncNone) in
  let reset := pg_reset_to (CC := sample_crypto) env 7 p in
  is_ok reset.1 = false /\ pg_segments reset.2 = [] /\
  (@pg_append sample_crypto _ _ env (log_batch 1 [1]) reset.2).1 = no_active_segment.
Proof. vm_compute. done. Qed.

Definition sync_env : Environment := faulty_env [[Transfer 1000; Transfer 0; Transfer 1000; SysError "EIO"]].
Definition sync_cfg : LogConfig := plain_cfg 1000 FsyncCommit.
Definition retried_batch : RecordBatch := MkBatch (MkHeader 0 0 7 0 0 2) [1; 2].
Definition sync_script : list LogCall := [CallAppend (log_batch 3 [9])].

Lemma faulty_env_laws plans : EnvironmentLaws (faulty_env plans).
Proof.
  split; cbn.
  - intros k base log index. destruct (plans !! k); [|done]. intros [= <- <-]. cbn. split_and!; [done|done|constructor].
  - intros k n bytes [= <-]. apply length_replicate.
Qed.

(** The log after the script, and after the append that is not confirmed. *)
Definition sync_opened : PartitionLog Empty_set := Eval vm_compute in opened sync_env sync_cfg.
Definition sync_log : PartitionLog Empty_set :=
  Eval vm_compute in (@log_call sample_crypto _ _ sync_env (CallAppend (log_batch 3 [9])) sync_opened).2.
Definition sync_failed : PartitionLog Empty_set := Eval vm_compute in (@pg_append sample_crypto _ _ sync_env retried_batch sync_log).2.

Definition sync_written : PartitionLog Empty_set :=
  Eval vm_compute in (on_active (@segment_append sample_crypto (env_random sync_env (pg_calls sync_log) kEncNonceBytes)
    (rebase (pg_log_end sync_log) retried_batch)) (pg_count_call sync_log)).2.

Lemma failed_sync_duplicates_batch_witness :
  exists a part' part2, abs_calls sync_script (MkAbsPartition 0 []) a /\
    @partition_produce _ (@PartitionLog_ops sample_crypto Empty_set _ sync_env) retried_batch (new_partition sync_log 0)
    = (make_error IoError "fsync: EIO", part') /\
    @partition_produce _ (@PartitionLog_ops sample_crypto Empty_set _ sync_env) retried_batch part' = (Ok 6, part2) /\
    @pg_read sample_crypto _ _ sync_env 0 1000 (pr_store (pt_state part2))
    = Ok (read_spec 0 1000 (ab_batches a ++ [rebase (ab_end a) retried_batch; rebase (ab_end a + 2) retried_batch])).
Proof.
  assert (Hopen : @pg_open sample_crypto Empty_set _ sync_env sync_cfg None (Ok []) (env_files sync_env 0) = Ok sync_opened) by (vm_compute; reflexivity).
  assert (Hcalls : @log_calls sample_crypto _ _ sync_env sync_script sync_opened sync_log).
  { split; [by_append_fits|]. split; vm_compute; reflexivity. }
  assert (Hsync : @unconfirmed sample_crypto _ sync_env retried_batch sync_log (MkError IoError "fsync: EIO") sync_failed).
  { let s := eval vm_compute in (last (pg_segments sync_log)) in match s with Some ?x => exists x end.
    exists 4, sync_written. split; [vm_compute; reflexivity|]. split; [vm_compute; reflexivity|]. split; vm_compute; reflexivity. }
  assert (Hfit : append_fits retried_batch sync_log) by by_append_fits.
  assert (Hfit' : append_fits retried_batch sync_failed) by by_append_fits.
  assert (Hid : 0 <= h_producer_id (b_header retried_batch)) by discriminate.
  assert (Haccept : session_check (h_producer_epoch (b_header retried_batch)) (h_base_sequence (b_header retried_batch))
    (h_record_count (b_header retried_batch)) (session_of (b_header retried_batch) ∅) = SeqAccept) by (vm_compute; reflexivity).
  destruct (@failed_sync_duplicates_batch sample_crypto sample_crypto_laws Empty_set _ sync_env (faulty_env_laws _) sync_cfg
    (env_files sync_env 0) sync_script sync_opened sync_log sync_failed ∅ 0 ProtocolUnset retried_batch (MkError IoError "fsync: EIO") Hopen Hcalls Hid Haccept Hfit Hsync)
    as (a & part' & Ha & Hfirst & _ & Hretry).
  destruct (@partition_produce _ (@PartitionLog_ops sample_crypto Empty_set _ sync_env) retried_batch part') as [r2 part2] eqn:Hsecond.
  assert (Hr2 : r2 = Ok 6).
  { vm_compute in Hfirst. injection Hfirst as <-. vm_compute in Hsecond. injection Hsecond as <- _. reflexivity. }
  subst r2. exists a, part', part2. split; [exact Ha|]. split; [exact Hfirst|]. split; [exact Hsecond|].
  apply (Hretry 6 part2 Hfit' eq_refl).
  inversion Ha as [|? ? ? mid ? Hone Hrest]; subst. inversion Hone; subst. inversion Hrest; subst. cbn. lia.
Defined.

