(* ===== verification/GroupCoordinator.v ===== *)
(** * The group coordinator and the committed offsets

    Models [GroupCoordinator] of [src/src/broker/group_coordinator.cpp], the map from group ids to
    [ConsumerGroup]s a reactor owns, and [OffsetManager] of [src/src/broker/offset_manager.cpp],
    the offsets the groups have committed.  Requests on one group leave the others alone; the
    listings hold what the maps hold, in order; the last commit wins. *)
From Stdlib Require Import ZArith Lia Sorted.
From stdpp Require Import base list gmap sets strings sorting.
From S2P Require Import Prelude ConsumerGroup GroupSafety.
#[local] Open Scope Z_scope.

(** ** The coordinator *)

Abbreviation GroupCoordinator := (gmap string ConsumerGroup) (only parsing).

Record GroupDigest := MkDigest {
  gd_group_id : string;
  gd_state : GroupState;
  gd_generation : Z;
  gd_member_count : nat;
}.

Definition group_digest (g : ConsumerGroup) : GroupDigest :=
  MkDigest (g_group_id g) (g_state g) (g_generation g) (size (g_members g)).

Definition digest_le (a b : GroupDigest) : Prop := String.le (gd_group_id a) (gd_group_id b).

#[export] Instance digest_le_dec : RelDecision digest_le.
Proof. intros a b. unfold digest_le. apply _. Defined.

Definition list_groups (c : GroupCoordinator) : list GroupDigest :=
  merge_sort digest_le ((fun p => group_digest p.2) <$> map_to_list c).

(** [try_emplace(group_id, group_id)] makes a new group for an unknown id. *)
Definition coordinator_join (now : Z) (group_id member_id : string) (subscription : list byte)
    (session_timeout : Z) (c : GroupCoordinator) : expected JoinResult * GroupCoordinator :=
  let g := default (new_group group_id) (c !! group_id) in
  let '(r, g) := join now member_id subscription session_timeout g in
  (r, <[group_id := g]> c).

Definition coordinator_sync (now : Z) (group_id member_id : string) (generation : Z)
    (assignments : list MemberAssignment) (c : GroupCoordinator) : expected SyncResult * GroupCoordinator :=
  match c !! group_id with
  | None => (make_error NotFound "sync: grupo desconocido", c)
  | Some g => let '(r, g) := sync now member_id generation assignments g in (r, <[group_id := g]> c)
  end.

Definition coordinator_heartbeat (now : Z) (group_id member_id : string) (generation : Z)
    (c : GroupCoordinator) : expected HeartbeatStatus * GroupCoordinator :=
  match c !! group_id with
  | None => (make_error NotFound "heartbeat: grupo desconocido", c)
  | Some g => let '(r, g) := heartbeat now member_id generation g in (r, <[group_id := g]> c)
  end.

Definition coordinator_leave (group_id member_id : string) (c : GroupCoordinator) :
    expected unit * GroupCoordinator :=
  match c !! group_id with
  | None => (make_error NotFound "leave: grupo desconocido", c)
  | Some g => let '(r, g) := leave member_id g in (r, <[group_id := g]> c)
  end.

Definition coordinator_tick (now : Z) (c : GroupCoordinator) : GroupCoordinator := group_tick now <$> c.

(** A request names its group; [GTick] is the periodic call, for all groups. *)
Definition coordinator_op (now : Z) (group_id : string) (op : GroupOp) (c : GroupCoordinator) :
    GroupCoordinator :=
  match op with
  | GJoin id sub timeout => (coordinator_join now group_id id sub timeout c).2
  | GSync id generation assignments => (coordinator_sync now group_id id generation assignments c).2
  | GHeartbeat id generation => (coordinator_heartbeat now group_id id generation c).2
  | GLeave id => (coordinator_leave group_id id c).2
  | GTick => coordinator_tick now c
  end.

Abbreviation CoordinatorCall := (Z * string * GroupOp)%type (only parsing).

Definition coordinator_run (calls : list CoordinatorCall) (c : GroupCoordinator) : GroupCoordinator :=
  foldl (fun c k => coordinator_op k.1.1 k.1.2 k.2 c) c calls.

(** ** The offsets *)

Record GroupOffsetEntry := MkOffsetEntry { oe_topic : string; oe_partition : Z; oe_offset : Z }.

(** [OffsetKey], with its equality. *)
Record OffsetKey := MkOffsetKey { ok_group : string; ok_topic : string; ok_partition : Z }.

#[export] Instance OffsetKey_eq_dec : EqDecision OffsetKey.
Proof. solve_decision. Defined.

#[export] Instance OffsetKey_countable : Countable OffsetKey.
Proof.
  refine (inj_countable' (fun k => (ok_group k, ok_topic k, ok_partition k))
    (fun t => MkOffsetKey t.1.1 t.1.2 t.2) _). by intros [].
Defined.

Record CommittedEntry := MkCommit { oc_offset : Z; oc_metadata : string }.

Abbreviation OffsetManager := (gmap OffsetKey CommittedEntry) (only parsing).

Definition offset_commit (group topic : string) (partition offset : Z) (metadata : string)
    (m : OffsetManager) : OffsetManager :=
  <[MkOffsetKey group topic partition := MkCommit offset metadata]> m.

Definition offset_fetch (group topic : string) (partition : Z) (m : OffsetManager) : expected Z :=
  match m !! MkOffsetKey group topic partition with
  | None => make_error NotFound "el grupo no ha confirmado offset en esa partición"
  | Some e => Ok (oc_offset e)
  end.

(** The order of the tuples (topic, partition). *)
Definition offset_entry_le (a b : GroupOffsetEntry) : Prop :=
  String.le (oe_topic a) (oe_topic b) /\ (oe_topic a = oe_topic b -> oe_partition a <= oe_partition b).

#[export] Instance offset_entry_le_dec : RelDecision offset_entry_le.
Proof. intros a b. unfold offset_entry_le. apply _. Defined.

Definition list_for_group (group : string) (m : OffsetManager) : list GroupOffsetEntry :=
  merge_sort offset_entry_le
    ((fun p => MkOffsetEntry (ok_topic p.1) (ok_partition p.1) (oc_offset p.2))
       <$> filter (fun p => ok_group p.1 = group) (map_to_list m)).

(** ** Isolation of the groups *)

(** What a call does to the group [id]: nothing when it names another group or, unless it is a
    join, when there is no such group. *)
Definition group_effect (id : string) (k : CoordinatorCall) (g : option ConsumerGroup) :
    option ConsumerGroup :=
  let '(now, target, op) := k in
  match op with
  | GTick => group_tick now <$> g
  | GJoin _ _ _ => if String.eqb target id then Some (group_op now op (default (new_group id) g)) else g
  | _ => if String.eqb target id then group_op now op <$> g else g
  end.

Lemma insert_view {A} id target (f : A) (m : gmap string A) :
  <[target := f]> m !! id = if String.eqb target id then Some f else m !! id.
Proof.
  destruct (String.eqb_spec target id) as [->|Hne]; [apply lookup_insert_eq | by apply lookup_insert_ne].
Qed.

Lemma coordinator_op_effect id k c :
  coordinator_op k.1.1 k.1.2 k.2 c !! id = group_effect id k (c !! id).
Proof.
  destruct k as [[now target] op].
  destruct op; cbn [fst snd coordinator_op group_effect group_op];
    unfold coordinator_join, coordinator_sync, coordinator_heartbeat, coordinator_leave, coordinator_tick.
  all: try by rewrite lookup_fmap.
  1: destruct (join _ _ _ _ _) as [r g] eqn:Hr; cbn; rewrite insert_view;
     destruct (String.eqb_spec target id) as [->|]; [by rewrite Hr | done].
  all: destruct (c !! target) as [g|] eqn:Hg; cbn;
    [|destruct (String.eqb_spec target id) as [->|]; [by rewrite Hg | done]].
  1: destruct (sync _ _ _ _ g) as [r g'] eqn:Hr.
  2: destruct (heartbeat _ _ _ g) as [r g'] eqn:Hr.
  3: destruct (leave _ g) as [r g'] eqn:Hr.
  all: cbn; rewrite insert_view; destruct (String.eqb_spec target id) as [->|]; [by rewrite Hg; cbn; rewrite Hr | done].
Qed.

(** The calls that concern a group: those that name it, and the ticks. *)
Definition concerns (id : string) (k : CoordinatorCall) : Prop :=
  match k.2 with GTick => True | _ => k.1.2 = id end.

#[export] Instance concerns_dec id k : Decision (concerns id k).
Proof. destruct k as [[? ?] []]; unfold concerns; cbn; apply _. Defined.

(** The coordinator keeps the groups apart: after any sequence of calls, the group [id] is what
    the calls addressed to it (and the ticks) make of it, whatever was asked of the others; it
    exists once somebody has joined it. *)
Theorem coordinator_isolates_groups (id : string) (calls : list CoordinatorCall) (c : GroupCoordinator) :
  coordinator_run calls c !! id
  = foldl (fun g k => group_effect id k g) (c !! id)
      (filter (concerns id) calls).
Proof.
  unfold coordinator_run. revert c. induction calls as [|k calls IH]; intros c; [done|].
  cbn [foldl]. rewrite IH, coordinator_op_effect. rewrite filter_cons. case_decide as Hk; [done|].
  f_equal. destruct k as [[now target] op]. destruct op; cbn in Hk |- *; try tauto.
  all: by destruct (String.eqb_spec target id).
Qed.

Record coordinator_inv (c : GroupCoordinator) : Prop := {
  ci_keyed : forall id g, c !! id = Some g -> g_group_id g = id;
  ci_groups : forall id g, c !! id = Some g -> group_inv g;
}.

(** ** The listings *)

#[export] Instance digest_le_total : Total digest_le.
Proof. intros a b. apply String.le_total. Qed.

#[export] Instance digest_le_trans : Transitive digest_le.
Proof. intros a b c. unfold digest_le. apply String.le_po. Qed.

#[export] Instance offset_entry_le_trans : Transitive offset_entry_le.
Proof.
  intros a b c [H1 H2] [H3 H4]. split; [by transitivity (oe_topic b)|]. intros He.
  assert (oe_topic a = oe_topic b) as Hab by (apply (anti_symm String.le); [done|by rewrite He]).
  specialize (H2 Hab). rewrite Hab in He. specialize (H4 He). lia.
Qed.

#[export] Instance offset_entry_le_total : Total offset_entry_le.
Proof.
  intros a b. unfold offset_entry_le.
  destruct (decide (oe_topic a = oe_topic b)) as [He|Hne].
  - rewrite He. assert (String.le (oe_topic b) (oe_topic b)) by done.
    destruct (Z.le_ge_cases (oe_partition a) (oe_partition b)); [left|right]; split; try done; intros; lia.
  - destruct (String.le_total (oe_topic a) (oe_topic b)); [left|right]; split; try done; congruence.
Qed.

Lemma merge_sort_sorted {A} (R : relation A) `{!RelDecision R, !Total R, !Transitive R} l :
  StronglySorted R (merge_sort R l).
Proof. apply Sorted_StronglySorted; [done|]. by apply Sorted_merge_sort. Qed.

(** The operations of a group keep its name. *)
Lemma complete_if_ready_id g : g_group_id (complete_if_ready g) = g_group_id g.
Proof. unfold complete_if_ready. by repeat case_match. Qed.

Lemma after_removal_id g : g_group_id (after_removal g) = g_group_id g.
Proof. unfold after_removal. by case_bool_decide. Qed.

Lemma join_id now id sub timeout g : g_group_id (join now id sub timeout g).2 = g_group_id g.
Proof.
  unfold join, next_member_id. destruct (bool_decide _); [done|].
  destruct (String.eqb id ""); cbv zeta; cbn [snd]; rewrite complete_if_ready_id;
    by repeat (case_match; cbn).
Qed.

Lemma group_op_id now op g : g_group_id (group_op now op g) = g_group_id g.
Proof.
  destruct op; cbn [group_op]; [apply join_id|..].
  - unfold sync. by repeat case_match.
  - unfold heartbeat. by repeat case_match.
  - unfold leave. repeat case_match; cbn; try done. by rewrite after_removal_id.
  - unfold group_tick. repeat case_match; cbn; try done. by rewrite after_removal_id.
Qed.

Lemma group_effect_inv id k og :
  (forall g, og = Some g -> g_group_id g = id /\ group_inv g) ->
  forall g, group_effect id k og = Some g -> g_group_id g = id /\ group_inv g.
Proof.
  destruct k as [[now target] op]. intros Hog g.
  assert (Hop : forall g0, g_group_id g0 = id /\ group_inv g0 ->
    g_group_id (group_op now op g0) = id /\ group_inv (group_op now op g0))
    by (intros g0 [Hid H]; rewrite group_op_id; auto using group_op_inv).
  assert (Hmap : group_op now op <$> og = Some g -> g_group_id g = id /\ group_inv g)
    by (intros (g0 & Hg0 & ->)%fmap_Some; auto).
  assert (Hnew : g_group_id (default (new_group id) og) = id /\ group_inv (default (new_group id) og))
    by (destruct og; [by apply Hog | cbn; auto using new_group_inv]).
  destruct op; cbn [group_effect]; repeat case_match; intros Hg;
    first [by apply Hmap | by apply Hog | injection Hg as <-; by apply Hop].
Qed.

Lemma coordinator_run_inv calls c : coordinator_inv c -> coordinator_inv (coordinator_run calls c).
Proof.
  unfold coordinator_run. revert c. induction calls as [|k calls IH]; intros c [Hk Hg]; [done|].
  apply IH. split; intros id g; rewrite coordinator_op_effect; intros H;
    eapply group_effect_inv in H; naive_solver.
Qed.

Lemma coordinator_empty_inv : coordinator_inv ∅.
Proof. by split; intros id g; rewrite lookup_empty. Qed.

Lemma elem_of_list_groups c d : d ∈ list_groups c <-> exists id, group_digest <$> c !! id = Some d.
Proof.
  unfold list_groups. rewrite merge_sort_Permutation, list_elem_of_fmap. split.
  - intros ([id g] & -> & Hg). apply elem_of_map_to_list in Hg. exists id. by rewrite Hg.
  - intros (id & Hg). apply fmap_Some in Hg as (g & Hg & ->). exists (id, g). by rewrite elem_of_map_to_list.
Qed.

(** After any sequence of calls every group satisfies the membership invariant, and
    [list_groups] gives one digest for each group, ordered by group id, and nothing else. *)
Theorem list_groups_exact (calls : list CoordinatorCall) :
  let c := coordinator_run calls ∅ in
  coordinator_inv c
  /\ StronglySorted digest_le (list_groups c)
  /\ NoDup (gd_group_id <$> list_groups c)
  /\ forall d, d ∈ list_groups c <-> group_digest <$> c !! gd_group_id d = Some d.
Proof.
  intros c. assert (Hinv : coordinator_inv c) by apply coordinator_run_inv, coordinator_empty_inv.
  split; [done|]. split; [apply merge_sort_sorted; apply _|]. split.
  - unfold list_groups. rewrite merge_sort_Permutation, <- list_fmap_compose.
    rewrite (list_fmap_ext _ fst) by
      (intros i [id g] Hi; apply list_elem_of_lookup_2, elem_of_map_to_list in Hi; by apply (ci_keyed c Hinv)).
    apply NoDup_fst_map_to_list.
  - intros d. rewrite elem_of_list_groups. split; [|eauto]. intros (id & Hd).
    pose proof Hd as (g & Hg & ->)%fmap_Some. cbn. by rewrite (ci_keyed c Hinv id g Hg).
Qed.

(** A commit, and a sequence of them. *)
Record CommitCall := MkCommitCall { cc_key : OffsetKey; cc_commit : CommittedEntry }.

Definition commit_call (m : OffsetManager) (k : CommitCall) : OffsetManager :=
  offset_commit (ok_group (cc_key k)) (ok_topic (cc_key k)) (ok_partition (cc_key k))
    (oc_offset (cc_commit k)) (oc_metadata (cc_commit k)) m.

Lemma commit_run_lookup calls m key :
  foldl commit_call m calls !! key
  = match last (filter (fun k => cc_key k = key) calls) with
    | Some k => Some (cc_commit k)
    | None => m !! key
    end.
Proof.
  revert m. induction calls as [|k calls IH] using rev_ind; intros m; [done|].
  rewrite foldl_app, filter_app, filter_cons, filter_nil.
  destruct k as [[g t p] [o md]]. cbn [foldl cc_key]. unfold commit_call at 1, offset_commit.
  cbn [cc_key cc_commit ok_group ok_topic ok_partition oc_offset oc_metadata].
  case_decide as Hk.
  - subst key. rewrite lookup_insert_eq, last_snoc. done.
  - rewrite lookup_insert_ne by done. by rewrite app_nil_r.
Qed.

(** The committed offset of a group in a partition is the one of its last commit there, whether
    larger or smaller than the earlier ones, and [NotFound] before the first. *)
Theorem last_commit_wins (calls : list CommitCall) (key : OffsetKey) :
  offset_fetch (ok_group key) (ok_topic key) (ok_partition key) (foldl commit_call ∅ calls)
  = match last (filter (fun k => cc_key k = key) calls) with
    | Some k => Ok (oc_offset (cc_commit k))
    | None => make_error NotFound "el grupo no ha confirmado offset en esa partición"
    end.
Proof.
  unfold offset_fetch. destruct key as [g t p]. cbn [ok_group ok_topic ok_partition].
  rewrite commit_run_lookup. by destruct (last _).
Qed.

(** The listing of a group has exactly the partitions [fetch] answers for, with the offsets it
    answers, once each, ordered by topic and partition. *)
Theorem list_for_group_exact (group : string) (m : OffsetManager) :
  StronglySorted offset_entry_le (list_for_group group m)
  /\ NoDup ((fun e => (oe_topic e, oe_partition e)) <$> list_for_group group m)
  /\ forall t p o, MkOffsetEntry t p o ∈ list_for_group group m <-> offset_fetch group t p m = Ok o.
Proof.
  unfold list_for_group. split; [apply merge_sort_sorted; apply _|]. split.
  - rewrite merge_sort_Permutation, <- list_fmap_compose.
    apply NoDup_fmap_2_strong; [|apply list.NoDup_filter, NoDup_map_to_list].
    intros [k e] [k' e'] [Hg Hk]%list_elem_of_filter [Hg' Hk']%list_elem_of_filter He.
    apply elem_of_map_to_list in Hk, Hk'. destruct k, k'. cbn in *. simplify_eq. congruence.
  - intros t p o. rewrite merge_sort_Permutation, list_elem_of_fmap. unfold offset_fetch. split.
    + intros ([[g' t' p'] [o' md]] & He & [Hg Hm]%list_elem_of_filter). cbn in *. simplify_eq.
      apply elem_of_map_to_list in Hm. by rewrite Hm.
    + destruct (m !! _) as [[o' md]|] eqn:Hm; [|done]. intros [= <-].
      exists (MkOffsetKey group t p, MkCommit o' md). split; [done|].
      apply list_elem_of_filter. split; [done|]. by apply elem_of_map_to_list.
Qed.
