(* ===== verification/LogCompactor.v ===== *)
(** * Compaction by key

    Models [LogCompactor] of [src/src/storage/log_compactor.hpp] and [log_compactor.cpp]: [compact]
    in its two passes, and [compact_log], which reads a whole partition log first.  Compaction
    keeps the last record of each key and every record without a key, and leaves the table the
    records describe as it was. *)
From Stdlib Require Import ZArith Lia.
From stdpp Require Import base list gmap sets strings sorting.
From S2P Require Import Prelude Bytes Record File RecordCodec SegmentCrypto Segment SegmentSafety.
From S2P Require Import StorageTier PartitionLog PartitionLogSafety.
#[local] Open Scope Z_scope.

(** ** The two passes *)

Record CompactionStats := MkStats {
  records_in : nat;
  records_kept : nat;
  records_superseded : nat;
  tombstones_dropped : nat;
}.

Definition count_kept (s : CompactionStats) : CompactionStats :=
  MkStats (records_in s) (S (records_kept s)) (records_superseded s) (tombstones_dropped s).
Definition count_superseded (s : CompactionStats) : CompactionStats :=
  MkStats (records_in s) (records_kept s) (S (records_superseded s)) (tombstones_dropped s).
Definition count_dropped (s : CompactionStats) : CompactionStats :=
  MkStats (records_in s) (records_kept s) (records_superseded s) (S (tombstones_dropped s)).

(** The first pass: the position of the last record of each key. *)
Fixpoint index_pass (i : nat) (records : list LogRecord) (last_index : gmap (list byte) nat) :
    gmap (list byte) nat :=
  match records with
  | [] => last_index
  | rec :: rest =>
      index_pass (S i) rest match r_key rec with Some key => <[key := i]> last_index | None => last_index end
  end.

Definition is_tombstone (rec : LogRecord) : bool := match r_value rec with None => true | Some _ => false end.

Section Compact.
Context (retain_tombstones : bool).

(** The second pass. *)
Fixpoint emit_pass (i : nat) (records : list LogRecord) (last_index : gmap (list byte) nat)
    (out : list LogRecord) (counters : CompactionStats) : list LogRecord * CompactionStats :=
  match records with
  | [] => (out, counters)
  | rec :: rest =>
      match r_key rec with
      | None => emit_pass (S i) rest last_index (out ++ [rec]) (count_kept counters)
      | Some key =>
          if negb (default O (last_index !! key) =? i)%nat
          then emit_pass (S i) rest last_index out (count_superseded counters)
          else if is_tombstone rec && negb retain_tombstones
          then emit_pass (S i) rest last_index out (count_dropped counters)
          else emit_pass (S i) rest last_index (out ++ [rec]) (count_kept counters)
      end
  end.

Definition compact (records : list LogRecord) : list LogRecord * CompactionStats :=
  emit_pass 0 records (index_pass 0 records ∅) [] (MkStats (length records) 0 0 0).
End Compact.

(** ** Compacting a log *)

Definition kReadChunkBytes : nat := Z.to_nat (4 * 1024 * 1024).

Section CompactLog.
Context (have_lz4 have_zstd : bool).
Context (lz4_decompress zstd_decompress : list byte -> nat -> option (list byte)).

Definition batch_records (b : RecordBatch) : expected (list LogRecord) :=
  decode_records have_lz4 have_zstd lz4_decompress zstd_decompress b kMaxRecordBytes.

(** The batches of one read: each is longer than its header. *)
Fixpoint chunk_loop (fuel : nat) (remaining : list byte) (all : list LogRecord) : expected (list LogRecord) :=
  match fuel, remaining with
  | O, _ | _, [] => Ok all
  | S fuel', _ =>
      match batch_peek remaining with
      | Err _ => Ok all
      | Ok view =>
          if (length remaining <? view_encoded_size view)%nat then Ok all
          else
            let? batch := batch_decode (subspan_n 0 (view_encoded_size view) remaining) in
            let? records := batch_records batch in
            chunk_loop fuel' (subspan (view_encoded_size view) remaining) (all ++ records)
      end
  end.

Context {CC : Crypto} {T : Type} {ST : StorageTier T} (env : Environment).

(** The reads: each turn that goes on advances the position. *)
Fixpoint collect_loop (fuel : nat) (pos : Z) (log : PartitionLog T) (all : list LogRecord) :
    expected (list LogRecord) :=
  match fuel with
  | O => Ok all
  | S fuel' =>
      if negb (pos <? pg_log_end log) then Ok all
      else
        let? fetched := pg_read env pos kReadChunkBytes log in
        if (length (fr_batches fetched) =? 0)%nat then Ok all
        else
          let? all := chunk_loop (length (fr_batches fetched)) (fr_batches fetched) all in
          if fr_next_offset fetched <=? pos then Ok all
          else collect_loop fuel' (fr_next_offset fetched) log all
  end.

Definition collect_records (log : PartitionLog T) : expected (list LogRecord) :=
  collect_loop (Z.to_nat (pg_log_end log - pg_log_start log)) (pg_log_start log) log [].

Definition compact_log (retain_tombstones : bool) (log : PartitionLog T) :
    expected (list LogRecord * CompactionStats) :=
  let? all := collect_records log in Ok (compact retain_tombstones all).
End CompactLog.

(** ** What compaction keeps *)

(** The records of a key, and those without one. *)
Definition with_key (k : option (list byte)) (rec : LogRecord) : Prop := r_key rec = k.

#[export] Instance with_key_dec k rec : Decision (with_key k rec).
Proof. unfold with_key. apply _. Defined.

(** What becomes of the last record of a key. *)
Definition survivors (retain : bool) (rec : LogRecord) : list LogRecord :=
  if is_tombstone rec && negb retain then [] else [rec].

(** The reference: a record goes when a later one has its key, or when it is a tombstone that is
    not retained. *)
Fixpoint compact_ref (retain : bool) (records : list LogRecord) : list LogRecord :=
  match records with
  | [] => []
  | rec :: rest =>
      match r_key rec with
      | None => rec :: compact_ref retain rest
      | Some k =>
          if bool_decide (Exists (with_key (Some k)) rest) then compact_ref retain rest
          else survivors retain rec ++ compact_ref retain rest
      end
  end.

(** The table the records describe: a value sets its key, a tombstone deletes it. *)
Definition apply_record (t : gmap (list byte) (list byte)) (rec : LogRecord) : gmap (list byte) (list byte) :=
  match r_key rec with
  | None => t
  | Some k => match r_value rec with Some v => <[k := v]> t | None => delete k t end
  end.

Definition table_of (records : list LogRecord) : gmap (list byte) (list byte) := foldl apply_record ∅ records.

Lemma index_pass_other i records m k :
  ~ Exists (with_key (Some k)) records -> index_pass i records m !! k = m !! k.
Proof.
  revert i m. induction records as [|rec rest IH]; intros i m Hk; [done|].
  cbn. rewrite IH by (intros H; apply Hk; by constructor).
  destruct (r_key rec) as [k'|] eqn:Hr; [|done]. apply lookup_insert_ne. intros ->. apply Hk. by constructor.
Qed.

Lemma index_pass_later i records m k :
  Exists (with_key (Some k)) records -> exists j, index_pass i records m !! k = Some j /\ (i <= j)%nat.
Proof.
  revert i m. induction records as [|rec rest IH]; intros i m Hk; [by apply Exists_nil in Hk|]. cbn.
  destruct (decide (Exists (with_key (Some k)) rest)) as [Hin|Hout].
  - destruct (IH (S i) match r_key rec with Some key => <[key := i]> m | None => m end Hin) as (j & Hj & Hle).
    exists j. split; [done|lia].
  - rewrite index_pass_other by done. apply Exists_cons in Hk as [Hk|]; [|done]. rewrite Hk.
    exists i. by rewrite lookup_insert_eq.
Qed.

(** The counters of a pass over [records] that emits [out]. *)
Definition stats_after (records out : list LogRecord) (s s' : CompactionStats) : Prop :=
  records_in s' = records_in s /\ records_kept s' = (records_kept s + length out)%nat /\
  (records_kept s' + records_superseded s' + tombstones_dropped s'
   = records_kept s + records_superseded s + tombstones_dropped s + length records)%nat.

Lemma emit_pass_ref retain i records m0 out s :
  exists s', emit_pass retain i records (index_pass i records m0) out s = (out ++ compact_ref retain records, s') /\
    stats_after records (compact_ref retain records) s s'.
Proof.
  revert i m0 out s. induction records as [|rec rest IH]; intros i m0 out s.
  - exists s. cbn. rewrite app_nil_r. unfold stats_after. cbn. split; [done|lia].
  - cbn [index_pass emit_pass compact_ref].
    destruct (r_key rec) as [k|] eqn:Hk.
    2: { destruct (IH (S i) m0 (out ++ [rec]) (count_kept s)) as (s' & -> & Hs).
         exists s'. rewrite <- app_assoc. split; [done|]. unfold stats_after in *. cbn in *. lia. }
    case_bool_decide as Hlater.
    + destruct (index_pass_later (S i) rest (<[k := i]> m0) k Hlater) as (j & Hj & Hle). rewrite Hj. cbn [default from_option id].
      rewrite (proj2 (Nat.eqb_neq _ _)) by lia. cbn [negb].
      destruct (IH (S i) (<[k := i]> m0) out (count_superseded s)) as (s' & -> & Hs).
      exists s'. split; [done|]. unfold stats_after in *. cbn in *. lia.
    + rewrite index_pass_other, lookup_insert_eq by done. cbn [default from_option id].
      rewrite Nat.eqb_refl. cbn [negb]. unfold survivors. destruct (_ && _).
      * destruct (IH (S i) (<[k := i]> m0) out (count_dropped s)) as (s' & -> & Hs).
        exists s'. split; [done|]. unfold stats_after in *. cbn in *. lia.
      * destruct (IH (S i) (<[k := i]> m0) (out ++ [rec]) (count_kept s)) as (s' & -> & Hs).
        exists s'. rewrite <- app_assoc. split; [done|]. unfold stats_after in *. cbn in *. lia.
Qed.

Lemma compact_is_ref retain records :
  exists s, compact retain records = (compact_ref retain records, s) /\
    stats_after records (compact_ref retain records) (MkStats (length records) 0 0 0) s.
Proof. apply (emit_pass_ref retain 0 records ∅ []). Qed.

Lemma compact_ref_sublist retain records : compact_ref retain records `sublist_of` records.
Proof.
  induction records as [|rec rest IH]; cbn; [constructor|]. destruct (r_key rec); [|by constructor].
  case_bool_decide; [by constructor|]. unfold survivors. destruct (_ && _); cbn; by constructor.
Qed.

Lemma no_key_filter k records : ~ Exists (with_key k) records -> filter (with_key k) records = [].
Proof.
  intros H. induction records as [|rec rest IH]; [done|]. rewrite filter_cons_False by (intros Hr; apply H; by constructor).
  apply IH. intros Hr. apply H. by constructor.
Qed.

Lemma compact_ref_unkeyed retain records :
  filter (with_key None) (compact_ref retain records) = filter (with_key None) records.
Proof.
  induction records as [|rec rest IH]; [done|]. cbn [compact_ref].
  destruct (r_key rec) as [k|] eqn:Hk.
  - assert (Hn : ~ with_key None rec) by (unfold with_key; congruence).
    rewrite (filter_cons_False _ rec rest) by done. case_bool_decide; [done|]. unfold survivors.
    destruct (_ && _); [done|]. cbn [app]. by rewrite filter_cons_False.
  - rewrite !filter_cons_True by done. by rewrite IH.
Qed.

Lemma compact_ref_keyed retain records k :
  filter (with_key (Some k)) (compact_ref retain records)
  = match last (filter (with_key (Some k)) records) with Some rec => survivors retain rec | None => [] end.
Proof.
  induction records as [|rec rest IH]; [done|]. cbn [compact_ref]. rewrite (filter_cons _ rec rest).
  destruct (decide (with_key (Some k) rec)) as [Hk|Hk].
  - rewrite Hk. case_bool_decide as Hlater.
    + rewrite IH, last_cons. destruct (last (filter _ rest)) eqn:Hl; [done|].
      apply last_None in Hl. apply Exists_exists in Hlater as (r & Hr & Hrk).
      assert (r ∈ filter (with_key (Some k)) rest) as Hin by by apply list_elem_of_filter.
      rewrite Hl in Hin. by apply elem_of_nil in Hin.
    + rewrite (no_key_filter (Some k) rest) in * by done. cbn [last] in *.
      rewrite filter_app, IH, app_nil_r. unfold survivors. destruct (_ && _); [done|].
      by rewrite filter_cons_True, filter_nil.
  - destruct (r_key rec) as [k'|] eqn:Hr; [|by rewrite filter_cons_False by done].
    case_bool_decide; [done|]. rewrite filter_app, IH. unfold survivors at 1. destruct (_ && _); [done|].
    by rewrite filter_cons_False, filter_nil by done.
Qed.

(** A key's entry in the table is set by its last record. *)
Lemma table_lookup records k t :
  foldl apply_record t records !! k
  = match last (filter (with_key (Some k)) records) with Some rec => r_value rec | None => t !! k end.
Proof.
  induction records as [|rec rest IH] using rev_ind; [done|].
  rewrite foldl_app, filter_app. cbn [foldl]. unfold apply_record at 1. rewrite filter_cons, filter_nil.
  case_decide as Hk.
  - unfold with_key in Hk. rewrite Hk, last_snoc. destruct (r_value rec); [apply lookup_insert_eq|apply lookup_delete_eq].
  - rewrite app_nil_r, <- IH. unfold with_key in Hk. destruct (r_key rec) as [k'|]; [|done].
    destruct (r_value rec); [apply lookup_insert_ne|apply lookup_delete_ne]; congruence.
Qed.

(** Compaction keeps a subsequence of the records, with their offsets: every record without a
    key, and of each key at most the last record, which goes too when it is a tombstone that is
    not to be retained.  The table the records describe does not change, and the statistics count
    every record once. *)
Theorem compaction_keeps_table (retain : bool) (records : list LogRecord) :
  let '(out, stats) := compact retain records in
  out `sublist_of` records
  /\ filter (with_key None) out = filter (with_key None) records
  /\ (forall k, filter (with_key (Some k)) out
       = match last (filter (with_key (Some k)) records) with Some rec => survivors retain rec | None => [] end)
  /\ table_of out = table_of records
  /\ records_in stats = length records /\ records_kept stats = length out
  /\ (records_kept stats + records_superseded stats + tombstones_dropped stats = records_in stats)%nat.
Proof.
  destruct (compact_is_ref retain records) as (s & -> & Hin & Hkept & Hsum). cbn in Hin, Hkept, Hsum.
  split_and!; [apply compact_ref_sublist|apply compact_ref_unkeyed|apply compact_ref_keyed| |done|done|lia].
  apply map_eq. intros k. unfold table_of. rewrite !table_lookup, compact_ref_keyed, !lookup_empty.
  destruct (last (filter _ records)) as [rec|]; [|done]. unfold survivors, is_tombstone.
  destruct (r_value rec) eqn:Hv, retain; cbn; congruence.
Qed.

(** Compacting again changes nothing. *)
Lemma compact_idempotent retain records :
  (compact retain (compact retain records).1).1 = (compact retain records).1.
Proof.
  destruct (compact_is_ref retain records) as (s & -> & _). cbn [fst].
  destruct (compact_is_ref retain (compact_ref retain records)) as (s' & -> & _). cbn [fst].
  induction records as [|rec rest IH]; [done|]. cbn [compact_ref].
  destruct (r_key rec) as [k|] eqn:Hk; [|by cbn [compact_ref]; rewrite Hk, IH].
  case_bool_decide as Hlater; [done|]. unfold survivors. destruct (_ && _) eqn:Ht; [done|].
  cbn [app compact_ref]. rewrite Hk, bool_decide_eq_false_2; [unfold survivors; by rewrite Ht, IH|].
  intros (r & Hr & Hrk)%Exists_exists. apply Hlater, Exists_exists. exists r. split; [|done].
  by apply (elem_of_sublist _ _ _ Hr), compact_ref_sublist.
Qed.

(** ** The loop over the log *)

Section ReadAll.
Context (have_lz4 have_zstd : bool).
Context (lz4_decompress zstd_decompress : list byte -> nat -> option (list byte)).

Abbreviation batch_records := (batch_records have_lz4 have_zstd lz4_decompress zstd_decompress).

(** The records of a sequence of batches, up to the first that does not decode. *)
Fixpoint records_of (bs : list RecordBatch) : expected (list LogRecord) :=
  match bs with
  | [] => Ok []
  | b :: rest => let? rs := batch_records b in let? rest := records_of rest in Ok (rs ++ rest)
  end.

Definition append_to (all : list LogRecord) (r : expected (list LogRecord)) : expected (list LogRecord) :=
  let? rs := r in Ok (all ++ rs).

Lemma records_of_app a b :
  records_of (a ++ b) = let? ra := records_of a in let? rb := records_of b in Ok (ra ++ rb).
Proof.
  induction a as [|x a IH]; cbn; [by destruct (records_of b)|]. rewrite IH.
  destruct (batch_records x); [|done]. cbn. destruct (records_of a); [|done]. cbn.
  destruct (records_of b); [|done]. cbn. by rewrite app_assoc.
Qed.

Definition layouts (bs : list RecordBatch) : list byte := concat (batch_layout <$> bs).

Lemma layout_nonempty b : (0 < length (batch_layout b))%nat.
Proof. rewrite length_batch_layout. unfold encoded_size, kHeaderSize. lia. Qed.

Lemma chunk_loop_batches fuel bs all :
  Forall batch_ok bs -> (length (layouts bs) <= fuel)%nat ->
  chunk_loop have_lz4 have_zstd lz4_decompress zstd_decompress fuel (layouts bs) all
  = append_to all (records_of bs).
Proof.
  intros Hok. revert fuel all. induction Hok as [|b bs Hb Hbs IH]; intros fuel all Hf.
  - destruct fuel; cbn; by rewrite app_nil_r.
  - unfold layouts in *. rewrite fmap_cons in *. cbn [concat] in *. rewrite length_app in Hf.
    pose proof (layout_nonempty b). destruct fuel as [|fuel]; [lia|]. cbn [chunk_loop records_of].
    destruct (batch_layout b ++ _) eqn:He; [apply (f_equal length) in He; rewrite length_app in He; cbn in He; lia|].
    rewrite <- He. rewrite batch_peek_layout by done. cbn [view_encoded_size].
    rewrite <- length_batch_layout, length_app, (proj2 (Nat.ltb_ge _ _)) by lia.
    unfold subspan_n, subspan. rewrite drop_0, take_app_length, drop_app_length.
    pose proof (batch_decode_layout b [] Hb) as Hd. rewrite app_nil_r in Hd. rewrite Hd. cbn [expected_bind].
    unfold append_to at 1. destruct (batch_records b) as [rs|e]; [|done]. cbn [expected_bind].
    rewrite IH by lia. unfold append_to. destruct (records_of bs); [|done]. cbn. by rewrite app_assoc.
Qed.

Lemma take_until_spec max acc next bs :
  exists taken rest, bs = taken ++ rest /\
    take_until max (MkFetch acc next) bs
    = MkFetch (acc ++ layouts taken)
        (match last taken with Some b => batch_last_offset b + 1 | None => next end) /\
    ((length acc < max)%nat -> bs <> [] -> taken <> []).
Proof.
  revert acc next. induction bs as [|b bs IH]; intros acc next; cbn [take_until fr_batches].
  - exists [], []. cbn. by rewrite app_nil_r.
  - destruct (Nat.ltb_spec (length acc) max).
    + destruct (IH (acc ++ batch_layout b) (batch_last_offset b + 1)) as (taken & rest & -> & Ht & _).
      exists (b :: taken), rest. rewrite Ht, last_cons. unfold layouts. rewrite fmap_cons. cbn [concat].
      rewrite <- app_assoc. split_and!; [done| |done]. by destruct (last taken).
    + exists [], (b :: bs). unfold layouts. cbn. rewrite app_nil_r. split_and!; [done|done|lia].
Qed.

Context {CC : Crypto} {CL : CryptoLaws} {T : Type} {ST : StorageTier T} (env : Environment).

Lemma chained_batches_ok start segs fss : chained start segs fss -> Forall batch_ok (fst <$> concat fss).
Proof.
  revert start fss. induction segs as [|s segs IH]; intros start [|fs fss]; cbn; try done.
  intros (_ & (_ & Hr) & Hc). rewrite fmap_app. apply Forall_app. split; [|by eapply IH].
  apply Forall_fmap. eapply Forall_impl; [apply Hr|]. intros f Hf. apply Hf.
Qed.

(** From the offset after some of the batches on, the loop decodes the others. *)
Lemma collect_loop_spec fuel (p : PartitionLog T) fss pre rest all :
  log_rep p fss -> concat fss = pre ++ rest ->
  (Z.to_nat (pg_log_end p - end_of (pg_log_start p) pre) <= fuel)%nat ->
  collect_loop have_lz4 have_zstd lz4_decompress zstd_decompress env fuel (end_of (pg_log_start p) pre) p all
  = append_to all (records_of (fst <$> rest)).
Proof.
  intros Hp. pose proof (chained_contiguous _ _ _ (lr_chained _ _ Hp)) as Hcont.
  pose proof (chained_batches_ok _ _ _ (lr_chained _ _ Hp)) as Hok.
  revert pre rest all. induction fuel as [|fuel IH]; intros pre rest all Hsplit Hfuel;
    rewrite Hsplit in Hcont, Hok; apply contiguous_app in Hcont as [Hpre Hrest];
    pose proof (lr_end _ _ Hp) as Hend; rewrite Hsplit, end_of_app in Hend;
    destruct rest as [|f rest].
  - cbn. by rewrite app_nil_r.
  - destruct Hrest as (Hf & Hn & Hr). pose proof (end_of_ge _ _ Hr). rewrite end_of_cons in Hend.
    pose proof (last_of_first f). lia.
  - cbn [collect_loop]. rewrite Hend. unfold end_of at 2. cbn [last]. rewrite Z.ltb_irrefl. cbn. by rewrite app_nil_r.
  - pose proof Hrest as (Hf & Hn & Hr). pose proof (end_of_ge _ _ Hr). pose proof (last_of_first f).
    cbn [collect_loop]. rewrite (proj2 (Z.ltb_lt _ _)) by (rewrite Hend, end_of_cons; lia). cbn [negb].
    rewrite (pg_read_spec env p fss) by (done || by apply end_of_ge). cbn [expected_bind].
    unfold read_spec. rewrite Hsplit, fmap_skip, skip_before_app.
    2: { apply Forall_forall. intros g Hg. by apply (contiguous_bounds _ _ _ Hpre). }
    rewrite (skip_before_keeps _ _ _ Hrest) by done.
    destruct (take_until_spec kReadChunkBytes [] (end_of (pg_log_start p) pre) (fst <$> (f :: rest)))
      as (taken & left & Htake & -> & Hne).
    apply fmap_app_inv in Htake as (t & r & -> & -> & Hfr).
    assert (Ht : t <> []).
    { intros ->. apply Hne; [cbn; unfold kReadChunkBytes; lia|done|done]. }
    rewrite Hfr in Hok, Hrest, Hend, Hsplit. cbn [fr_batches fr_next_offset app].
    rewrite !fmap_app in Hok. apply Forall_app in Hok as [_ [Hokt _]%Forall_app].
    apply contiguous_app in Hrest as [Hct _].
    assert (Hpos : (length (layouts (fst <$> t)) =? 0)%nat = false).
    { destruct t as [|g t]; [done|]. apply Nat.eqb_neq. unfold layouts. rewrite !fmap_cons. cbn [concat].
      rewrite length_app. pose proof (layout_nonempty g.1). lia. }
    rewrite Hpos, chunk_loop_batches by done.
    assert (Hnext : match last (fst <$> t) with Some b => batch_last_offset b + 1 | None => end_of (pg_log_start p) pre end
                    = end_of (pg_log_start p) (pre ++ t)).
    { rewrite end_of_app. unfold end_of at 2. rewrite fmap_last. by destruct (last t). }
    assert (Hlt : end_of (pg_log_start p) pre < end_of (pg_log_start p) (pre ++ t)).
    { rewrite end_of_app. destruct t as [|g t]; [done|]. rewrite end_of_cons.
      destruct Hct as (Hg & Hgn & Hct). pose proof (end_of_ge _ _ Hct). pose proof (last_of_first g). lia. }
    rewrite Hnext, Hfr, fmap_app, records_of_app. unfold append_to at 1.
    destruct (records_of (fst <$> t)) as [rt|e]; [|done]. cbn [expected_bind].
    rewrite (proj2 (Z.leb_gt _ _)) by done. rewrite (IH (pre ++ t) r) by (try (by rewrite <- app_assoc); lia).
    unfold append_to. destruct (records_of (fst <$> r)); [|done]. cbn. by rewrite app_assoc.
Qed.

(** C35. On a partition log, after any calls that succeed, [compact_log] terminates and compacts the
    records of every batch the log holds, in order, however the log is split over segments and
    chunks; a batch that does not decode makes it fail with that error. *)
Theorem compact_log_exact (Henv : EnvironmentLaws env) (cfg : LogConfig) (files : Z -> expected (File * File)) (cs : list LogCall)
    (p q : PartitionLog T) (retain : bool)
    (Hopen : pg_open env cfg None (Ok []) files = Ok p) (Hcalls : log_calls env cs p q) :
  exists a, abs_calls cs (MkAbsPartition 0 []) a /\
    compact_log have_lz4 have_zstd lz4_decompress zstd_decompress env retain q
    = let? records := records_of (ab_batches a) in Ok (compact retain records).
Proof.
  destruct (pg_open_rep _ Henv _ _ _ Hopen) as (Hrep & Hst & _).
  destruct (log_calls_rep _ Henv cs p q [[]] Hrep Hcalls) as (fss & Hq & Ha).
  exists (abs_of q fss). unfold abs_of in Ha at 1. rewrite Hst in Ha. split; [exact Ha|].
  unfold compact_log, collect_records.
  rewrite (collect_loop_spec _ q fss [] (concat fss) [] Hq eq_refl) by done.
  unfold append_to, abs_of. cbn [ab_batches]. by destruct (records_of _).
Qed.
End ReadAll.

(** ** A compacted log *)

Definition kv (k v : list byte) : LogRecord := MkRecord (Some k) (Some v) [] 0 0.
Definition tomb (k : list byte) : LogRecord := MkRecord (Some k) None [] 0 0.

Definition kv_batch (records : list LogRecord) : RecordBatch :=
  batch_build false false (fun _ => None) (fun _ => None) records (MkHeader 0 0 (-1) (-1) (-1) 0) CodecNone.

Definition compaction_script : list LogCall :=
  [CallAppend (kv_batch [kv [1] [10]; kv [2] [20]]); CallAppend (kv_batch [kv [1] [11]; MkRecord None (Some [7]) [] 0 0]);
   CallAppend (kv_batch [tomb [2]])].

Abbreviation no_decompress := (fun (_ : list byte) (_ : nat) => @None (list byte)).

Lemma compact_log_exact_witness :
  exists p q a, @pg_open sample_crypto Empty_set _ log_env log_cfg None (Ok []) (env_files log_env 0) = Ok p /\
    q = log_run compaction_script p /\ abs_calls compaction_script (MkAbsPartition 0 []) a /\
    @compact_log false false no_decompress no_decompress sample_crypto _ _ log_env false q
    = (let? records := records_of false false no_decompress no_decompress (ab_batches a) in Ok (compact false records)) /\
    @compact_log false false no_decompress no_decompress sample_crypto _ _ log_env false q
    = Ok ([MkRecord (Some [1]) (Some [11]) [] 0 2; MkRecord None (Some [7]) [] 0 3], MkStats 5 2 2 1).
Proof.
  destruct (@pg_open sample_crypto Empty_set _ log_env log_cfg None (Ok []) (env_files log_env 0)) as [p|e] eqn:Hopen;
    [|vm_compute in Hopen; discriminate].
  set (q := log_run compaction_script p).
  assert (Hcalls : @log_calls sample_crypto _ _ log_env compaction_script p q).
  { vm_compute in Hopen. injection Hopen as <-. subst q.
    repeat (split; [first [exact I|by_append_fits]|split; [vm_compute; reflexivity|]]). vm_compute. reflexivity. }
  assert (Hq : @compact_log false false no_decompress no_decompress sample_crypto _ _ log_env false q
    = Ok ([MkRecord (Some [1]) (Some [11]) [] 0 2; MkRecord None (Some [7]) [] 0 3], MkStats 5 2 2 1))
    by (vm_compute in Hopen; injection Hopen as <-; vm_compute; reflexivity).
  destruct (@compact_log_exact false false no_decompress no_decompress sample_crypto sample_crypto_laws Empty_set _
    log_env log_env_laws log_cfg (env_files log_env 0) compaction_script p q false Hopen Hcalls) as (a & Ha & Hr).
  exists p, q, a. exact (conj eq_refl (conj eq_refl (conj Ha (conj Hr Hq)))).
Defined.
