(* ===== verification/Frame.v ===== *)
(** * Frames, versions and wire errors

    Models the binary protocol's frame header ([src/src/protocol/frame.hpp], [frame.cpp]), the
    negotiation of versions ([versioning.hpp], [versioning.cpp]) and the error codes of the wire with
    their translations to and from the errors of the core ([error_code.hpp], [error_code.cpp]). *)
From Stdlib Require Import ZArith Lia.
From stdpp Require Import base list strings.
From S2P Require Import Prelude Bytes Codec.
#[local] Open Scope Z_scope.

(** ** Operations *)

Inductive ApiKey :=
  | ApiVersions | Metadata | Produce | Fetch | OffsetCommit | OffsetFetch
  | JoinGroup | SyncGroup | Heartbeat | LeaveGroup | CreateTopic | DeleteTopic.

#[export] Instance ApiKey_eq_dec : EqDecision ApiKey.
Proof. solve_decision. Defined.

Definition api_keys : list ApiKey :=
  [ApiVersions; Metadata; Produce; Fetch; OffsetCommit; OffsetFetch;
   JoinGroup; SyncGroup; Heartbeat; LeaveGroup; CreateTopic; DeleteTopic].

Definition api_key_value (k : ApiKey) : Z :=
  match k with
  | ApiVersions => 0 | Metadata => 1 | Produce => 2 | Fetch => 3 | OffsetCommit => 4 | OffsetFetch => 5
  | JoinGroup => 6 | SyncGroup => 7 | Heartbeat => 8 | LeaveGroup => 9 | CreateTopic => 10 | DeleteTopic => 11
  end.

(** [static_cast<ApiKey>], of a value its callers have checked. *)
Definition api_key_of (v : Z) : ApiKey := nth (Z.to_nat v) api_keys ApiVersions.

(** ** The header *)

Record FrameHeader := MkFrame {
  fh_length : Z;
  fh_api_key : ApiKey;
  fh_api_version : Z;
  fh_correlation_id : Z;
  fh_flags : Z;
}.

Definition kEncodedSize : nat := 14.
Definition kFlagCreditUpdate : Z := 1.

Definition FrameHeader_encode (h : FrameHeader) (enc : Encoder) : Encoder :=
  enc |> put_u32 (fh_length h)
      |> put_u16 (api_key_value (fh_api_key h))
      |> put_u16 (fh_api_version h)
      |> put_u32 (fh_correlation_id h)
      |> put_u16 (fh_flags h).

Definition FrameHeader_decode : Reader FrameHeader :=
  let! length := get_u32 in
  let! api_key := get_u16 in
  if api_key_value DeleteTopic <? api_key then fail InvalidArgument "api_key desconocido"
  else
    let! api_version := get_u16 in
    let! correlation_id := get_u32 in
    let! flags := get_u16 in
    ret (MkFrame length (api_key_of api_key) api_version correlation_id flags).

Definition has_credit_update (h : FrameHeader) : bool := negb (Z.land (fh_flags h) kFlagCreditUpdate =? 0).

(** [length_for]: the bytes after the length field, in its 32 bits. *)
Definition length_for (payload_size : nat) : Z := to_u 32 (Z.of_nat (kEncodedSize - 4 + payload_size)).

(** ** Versions *)

Record ApiVersionRange := MkRange { avr_key : ApiKey; avr_min : Z; avr_max : Z }.

Definition negotiate (client_max : Z) (server : ApiVersionRange) : Z :=
  let common := Z.min client_max (avr_max server) in
  if avr_min server <=? common then common else 0.

(** ** Errors on the wire *)

(** [WireError]; its 16 bits can also hold a value that names no error. *)
Inductive WireError :=
  | NoError | NotLeaderForPartition | LeaderNotAvailable | UnknownTopicOrPartition | OffsetOutOfRange
  | NotEnoughReplicas | RequestTimedOut | CorruptMessage | MessageTooLarge | OutOfOrderSequence
  | DuplicateSequence | Throttled | RebalanceInProgress | UnsupportedVersion | Unauthorized
  | InvalidRequest | InvalidProducerEpoch | WireUnknown (value : Z).

#[export] Instance WireError_eq_dec : EqDecision WireError.
Proof. solve_decision. Defined.

Definition wire_errors : list WireError :=
  [NoError; NotLeaderForPartition; LeaderNotAvailable; UnknownTopicOrPartition; OffsetOutOfRange;
   NotEnoughReplicas; RequestTimedOut; CorruptMessage; MessageTooLarge; OutOfOrderSequence;
   DuplicateSequence; Throttled; RebalanceInProgress; UnsupportedVersion; Unauthorized;
   InvalidRequest; InvalidProducerEpoch].

Definition wire_error_value (e : WireError) : Z :=
  match e with
  | NoError => 0 | NotLeaderForPartition => 1 | LeaderNotAvailable => 2 | UnknownTopicOrPartition => 3
  | OffsetOutOfRange => 4 | NotEnoughReplicas => 5 | RequestTimedOut => 6 | CorruptMessage => 7
  | MessageTooLarge => 8 | OutOfOrderSequence => 9 | DuplicateSequence => 10 | Throttled => 11
  | RebalanceInProgress => 12 | UnsupportedVersion => 13 | Unauthorized => 14 | InvalidRequest => 15
  | InvalidProducerEpoch => 16 | WireUnknown value => value
  end.

(** [static_cast<WireError>]. *)
Definition wire_error_of (v : Z) : WireError :=
  if (0 <=? v) && (v <=? 16) then nth (Z.to_nat v) wire_errors NoError else WireUnknown v.

Definition is_retryable (e : WireError) : bool :=
  match e with
  | NotLeaderForPartition | LeaderNotAvailable | RequestTimedOut | NotEnoughReplicas | Throttled
  | RebalanceInProgress => true
  | _ => false
  end.

Definition to_error (e : WireError) : Error :=
  match e with
  | UnknownTopicOrPartition => MkError NotFound "topic o partición desconocidos"
  | OffsetOutOfRange => MkError OutOfRange "offset fuera de rango"
  | OutOfOrderSequence => MkError OutOfRange "secuencia idempotente fuera de orden"
  | DuplicateSequence => MkError OutOfRange "secuencia idempotente duplicada"
  | CorruptMessage => MkError Corrupt "mensaje corrupto"
  | MessageTooLarge => MkError InvalidArgument "mensaje demasiado grande"
  | UnsupportedVersion => MkError Unsupported "versión no soportada"
  | Unauthorized => MkError InvalidArgument "no autorizado"
  | InvalidRequest => MkError InvalidArgument "petición inválida"
  | InvalidProducerEpoch => MkError Fenced "época de productor obsoleta (fenced)"
  | NotLeaderForPartition => MkError IoError "la partición no tiene líder aquí"
  | LeaderNotAvailable => MkError IoError "líder no disponible"
  | RequestTimedOut => MkError IoError "la petición expiró"
  | NotEnoughReplicas => MkError IoError "réplicas insuficientes"
  | Throttled => MkError IoError "limitado por el servidor (throttling)"
  | RebalanceInProgress => MkError IoError "rebalanceo en curso"
  | NoError => MkError InvalidArgument "sin error (None)"
  | WireUnknown _ => MkError InvalidArgument "código de wire desconocido"
  end.

Definition from_error (e : Error) : WireError :=
  match code e with
  | Corrupt => CorruptMessage
  | OutOfRange => OffsetOutOfRange
  | NotFound => UnknownTopicOrPartition
  | Unsupported => UnsupportedVersion
  | InvalidArgument => InvalidRequest
  | Fenced => InvalidProducerEpoch
  | IoError | OutOfSpace | Shutdown => LeaderNotAvailable
  end.

(** ** Laws *)

Lemma api_key_of_value k : api_key_of (api_key_value k) = k.
Proof. by destruct k. Qed.

Lemma api_key_value_range k : 0 <= api_key_value k <= api_key_value DeleteTopic.
Proof. destruct k; cbn; lia. Qed.

Definition wire_error_ok (e : WireError) : Prop :=
  match e with WireUnknown v => i_range 16 v /\ ~ (0 <= v <= 16) | _ => True end.

Lemma wire_error_of_value e : wire_error_ok e -> wire_error_of (wire_error_value e) = e.
Proof.
  destruct e; cbn; try done. intros [_ H]. unfold wire_error_of.
  destruct (Z.leb_spec 0 value), (Z.leb_spec value 16); try done. lia.
Qed.

Lemma wire_error_range e : wire_error_ok e -> i_range 16 (wire_error_value e).
Proof. destruct e; cbn; try by (intros; by_range). tauto. Qed.

Lemma wire_error_of_ok v : i_range 16 v -> wire_error_ok (wire_error_of v) /\ wire_error_value (wire_error_of v) = v.
Proof.
  intros Hv. unfold wire_error_of.
  destruct (Z.leb_spec 0 v), (Z.leb_spec v 16); cbn [andb wire_error_ok wire_error_value];
    try (split; [split; [done|lia]|done]).
  assert (Hc : In v (map Z.of_nat (seq 0 17))).
  { rewrite <- (Z2Nat.id v) by lia. apply in_map, in_seq. lia. }
  cbn in Hc. repeat destruct Hc as [<-|Hc]; done.
Qed.

Definition frame_header_ok (h : FrameHeader) : Prop :=
  u_range 32 (fh_length h) /\ u_range 16 (fh_api_version h) /\ u_range 32 (fh_correlation_id h) /\
  u_range 16 (fh_flags h).

Lemma api_key_u16 k : u_range 16 (api_key_value k).
Proof. destruct k; by_range. Qed.

Lemma reads_frame h : frame_header_ok h -> reads FrameHeader_decode (FrameHeader_encode h []) h.
Proof.
  destruct h as [len k ver cid flags]. intros (Hl & Hv & Hc & Hf). cbn in Hl, Hv, Hc, Hf.
  unfold FrameHeader_encode, FrameHeader_decode. wire_flatten. cbn [fh_length fh_api_key fh_api_version fh_correlation_id fh_flags].
  eapply reads_bind; [by apply reads_u32|]. eapply reads_bind; [apply reads_u16, api_key_u16|].
  rewrite (proj2 (Z.ltb_ge _ _)) by apply api_key_value_range. rewrite api_key_of_value.
  eapply reads_bind; [by apply reads_u16|]. eapply reads_bind; [by apply reads_u32|].
  apply (reads_bind_last get_u16). by apply reads_u16.
Qed.

#[export] Instance FrameHeader_wire : WireType FrameHeader := {|
  wire_encode := FrameHeader_encode;
  wire_decode := FrameHeader_decode;
  wire_ok := frame_header_ok;
|}.

#[export] Instance FrameHeader_laws : WireTypeLaws FrameHeader.
Proof. split; [intros; cbn; unfold FrameHeader_encode; solve_encode_app|apply reads_frame]. Qed.

Lemma length_frame h : length (FrameHeader_encode h []) = kEncodedSize.
Proof. done. Qed.

(** The length announced counts what follows the length field, as long as it fits. *)
Lemma length_for_counts h (payload : list byte) :
  fh_length h = length_for (length payload) -> Z.of_nat (kEncodedSize + length payload) < 2 ^ 32 ->
  fh_length h = Z.of_nat (length (FrameHeader_encode h [] ++ payload)) - 4.
Proof.
  intros -> Hp. rewrite length_app, length_frame. unfold length_for, to_u, kEncodedSize in *. width_simpl.
  rewrite Z.mod_small by lia. lia.
Qed.

(** Negotiation picks the highest version both sides support, and 0 when there is none. *)
Lemma negotiate_highest client_max server v :
  0 <= client_max -> 0 <= avr_min server ->
  v <= client_max -> avr_min server <= v <= avr_max server ->
  v <= negotiate client_max server <= client_max /\
  avr_min server <= negotiate client_max server <= avr_max server.
Proof. intros. unfold negotiate. cbv zeta. destruct (Z.leb_spec (avr_min server) (Z.min client_max (avr_max server))); lia. Qed.

Lemma negotiate_none client_max server :
  (forall v, v <= client_max -> ~ avr_min server <= v <= avr_max server) -> negotiate client_max server = 0.
Proof.
  intros H. unfold negotiate. cbv zeta.
  destruct (Z.leb_spec (avr_min server) (Z.min client_max (avr_max server))); [|done].
  exfalso. apply (H (Z.min client_max (avr_max server))); lia.
Qed.

(** The client sees the class of error the server met: the code survives the trip over the wire
    except that the failures of the server itself (no space, shutting down) become I/O errors; and
    these, only these, are the errors of the core the client is told to retry. *)
Theorem wire_error_class (e : Error) :
  wire_error_ok (from_error e) /\ from_error e <> NoError /\
  code (to_error (wire_error_of (wire_error_value (from_error e))))
  = match code e with OutOfSpace | Shutdown => IoError | c => c end /\
  is_retryable (from_error e) = bool_decide (code e = IoError \/ code e = OutOfSpace \/ code e = Shutdown).
Proof. destruct e as [c m]. by destruct c. Qed.
