(* ===== verification/Messages.v ===== *)
(** * The messages of the client protocol

    Models [src/src/protocol/messages.hpp] and [messages.cpp]: the requests and responses of every
    operation, as records with their [encode] and [decode]; each is an instance of the interface of
    wire types.  [exchange_roundtrip] states the round trip for all operations at once. *)
From Stdlib Require Import ZArith Lia.
From stdpp Require Import base list strings.
From S2P Require Import Prelude Bytes Codec Frame.
#[local] Open Scope Z_scope.

(** [Acks]. *)
Inductive Acks := AcksNone | AcksLeader | AcksQuorum.

Definition acks_value (a : Acks) : Z := match a with AcksNone => 0 | AcksLeader => 1 | AcksQuorum => 2 end.

(** [static_cast<Acks>], of a value the decoder has checked. *)
Definition acks_of (v : Z) : Acks := if v =? 0 then AcksNone else if v =? 1 then AcksLeader else AcksQuorum.

Lemma acks_of_value a : acks_of (acks_value a) = a.
Proof. by destruct a. Qed.

Lemma acks_value_range a : 0 <= acks_value a <= acks_value AcksQuorum.
Proof. destruct a; cbn; lia. Qed.

Lemma flag_of_bool (b : bool) : negb ((if b then 1 else 0) =? 0) = b.
Proof. by destruct b. Qed.

(** ** Counted sequences *)

(** [put_varint(xs.size())] and the loop over the elements; [get_count] and the loop that reads
    them. *)
Definition put_counted {A} `{!WireType A} (xs : list A) (enc : Encoder) : Encoder :=
  foldl (fun enc x => wire_encode x enc) (enc_put_varint (Z.of_nat (length xs)) enc) xs.

Definition get_counted {A} `{!WireType A} : Reader (list A) :=
  let! count := get_count in get_many wire_decode count.

(** Every encoding has a byte at least, so that a count never exceeds the bytes left. *)
Class WireNonEmpty (A : Type) `{!WireType A} := {
  wire_nonempty : forall a : A, wire_ok a -> (1 <= length (wire_encode a []))%nat;
}.

Definition counted_ok {A} `{!WireType A} (xs : list A) : Prop :=
  u_range 64 (Z.of_nat (length xs)) /\ Forall wire_ok xs.

Definition string_ok (s : string) : Prop := u_range 64 (Z.of_nat (String.length s)).

Definition wire_string (s : string) : list byte := put_varint (Z.of_nat (String.length s)) ++ bytes_of_string s.
Definition wire_bytes (bs : list byte) : list byte := put_varint (Z.of_nat (length bs)) ++ bs.
Definition wire_counted {A} `{!WireType A} (xs : list A) : list byte :=
  put_varint (Z.of_nat (length xs)) ++ concat ((fun x => wire_encode x []) <$> xs).

Lemma put_wire_string s out : put_string s out = out ++ wire_string s.
Proof. apply put_string_app. Qed.

Lemma put_wire_bytes bs out : put_bytes bs out = out ++ wire_bytes bs.
Proof. apply put_bytes_app. Qed.

Lemma put_wire_counted {A} `{!WireType A, !WireTypeLaws A} (xs : list A) out :
  put_counted xs out = out ++ wire_counted xs.
Proof.
  unfold put_counted, wire_counted.
  rewrite (foldl_put_app wire_encode (fun x => wire_encode x [])) by apply wire_encode_app.
  unfold enc_put_varint. by rewrite app_assoc.
Qed.

Lemma reads_wire_string s : string_ok s -> reads get_string (wire_string s) s.
Proof. apply reads_string. Qed.

Lemma reads_wire_bytes bs : fits_size bs -> reads get_bytes (wire_bytes bs) bs.
Proof. apply reads_bytes. Qed.

Lemma reads_wire_counted {A} `{!WireType A, !WireTypeLaws A, !WireNonEmpty A} (xs : list A) :
  counted_ok xs -> reads get_counted (wire_counted xs) xs.
Proof.
  intros [Hn Hxs]. apply reads_count; [done| |].
  - clear Hn. induction Hxs as [|x xs Hx _ IH]; cbn; [lia|]. rewrite length_app.
    pose proof (wire_nonempty x Hx). lia.
  - apply reads_many. eapply Forall_impl; [done|]. intros x. apply wire_reads.
Qed.

Lemma wire_string_nonempty s : string_ok s -> (1 <= length (wire_string s))%nat.
Proof. intros Hs. unfold wire_string. rewrite length_app. pose proof (length_put_varint _ Hs). lia. Qed.

Create HintDb nexus_message.
#[export] Hint Resolve reads_u8 reads_u16 reads_u32 reads_i16 reads_i32 reads_i64 reads_wire_string
  reads_wire_bytes reads_wire_counted wire_error_range api_key_u16 : nexus_message.
#[export] Hint Extern 1 (WireTypeLaws _) => apply _ : nexus_message.
#[export] Hint Extern 1 (WireNonEmpty _) => apply _ : nexus_message.

(** The encoding as the concatenation of those of the fields. *)
Ltac message_flatten :=
  rewrite ?put_wire_counted, ?put_wire_string, ?put_wire_bytes; unfold put_u8, put_u16, put_i16, put_i32, put_i64;
  rewrite ?put_wire_counted, ?put_wire_string, ?put_wire_bytes, <- ?app_assoc, ?app_nil_l.

(** The field checks of a decoder, passed by what the encoder writes. *)
Ltac message_checks :=
  try match goal with |- context [api_key_value DeleteTopic <? api_key_value ?k] =>
    rewrite (proj2 (Z.ltb_ge _ _)) by apply api_key_value_range end;
  try match goal with |- context [acks_value AcksQuorum <? acks_value ?a] =>
    rewrite (proj2 (Z.ltb_ge _ _)) by apply acks_value_range end.

Ltac message_reads enc dec :=
  let m := fresh "m" in let Hok := fresh "Hok" in
  intros m Hok; change (reads dec (enc m []) m); unfold enc, dec; simpl in Hok; destruct_and?; apply reads_end;
  message_flatten; repeat (eapply reads_bind; [solve [eauto with nexus_message]|]; message_checks);
  apply reads_ret_eq; rewrite ?wire_error_of_value, ?api_key_of_value, ?acks_of_value, ?flag_of_bool by done;
  destruct m; reflexivity.

Ltac message_laws enc dec :=
  split;
  [let m := fresh "m" in let out := fresh "out" in
   intros m out; change (enc m out = out ++ enc m []); unfold enc; message_flatten; reflexivity
  |message_reads enc dec].

Ltac message_nonempty enc :=
  split; let m := fresh "m" in let Hok := fresh "Hok" in
  intros m Hok; change (1 <= length (enc m []))%nat; unfold enc; simpl in Hok; destruct_and?; message_flatten;
  rewrite !length_app; first [rewrite length_store_le; lia|eapply Nat.le_trans; [apply wire_string_nonempty; eassumption|lia]].

(** The elements of a list of topic names and of node ids. *)
#[export] Instance TopicName_wire : WireType string := {|
  wire_encode := put_string; wire_decode := get_string; wire_ok := string_ok;
|}.

#[export] Instance TopicName_laws : WireTypeLaws string.
Proof. split; [intros; apply put_wire_string|intros s; apply reads_wire_string]. Qed.

#[export] Instance TopicName_nonempty : WireNonEmpty string.
Proof. split. intros s Hs. cbn [wire_encode TopicName_wire]. rewrite put_wire_string. by apply wire_string_nonempty. Qed.

#[export] Instance NodeId_wire : WireType Z := {|
  wire_encode := put_i32; wire_decode := get_i32; wire_ok := i_range 32;
|}.

#[export] Instance NodeId_laws : WireTypeLaws Z.
Proof. split; [done|intros z; apply reads_i32]. Qed.

#[export] Instance NodeId_nonempty : WireNonEmpty Z.
Proof. split. intros z _. cbn [wire_encode NodeId_wire]. unfold put_i32. rewrite length_app, length_store_le. lia. Qed.

Abbreviation TopicName := string (only parsing).
Abbreviation NodeId := Z (only parsing).


(** ** Versions and metadata *)

Record ApiVersionsRequest := MkApiVersionsRequest { avq_client_version : Z }.

Definition ApiVersionsRequest_encode (m : ApiVersionsRequest) (enc : Encoder) : Encoder :=
  enc |> put_u16 (avq_client_version m).

Definition ApiVersionsRequest_decode : Reader ApiVersionsRequest :=
  let! client_version := get_u16 in
  ret (MkApiVersionsRequest client_version).

#[export] Instance ApiVersionsRequest_wire : WireType ApiVersionsRequest := {|
  wire_encode := ApiVersionsRequest_encode;
  wire_decode := ApiVersionsRequest_decode;
  wire_ok m := u_range 16 (avq_client_version m);
|}.

#[export] Instance ApiVersionsRequest_laws : WireTypeLaws ApiVersionsRequest.
Proof. message_laws ApiVersionsRequest_encode ApiVersionsRequest_decode. Qed.

Definition ApiVersionRange_encode (m : ApiVersionRange) (enc : Encoder) : Encoder :=
  enc |> put_u16 (api_key_value (avr_key m))
      |> put_u16 (avr_min m)
      |> put_u16 (avr_max m).

Definition ApiVersionRange_decode : Reader ApiVersionRange :=
  let! key := get_u16 in
  if api_key_value DeleteTopic <? key then fail InvalidArgument "api_key desconocido en ApiVersions"
  else
    let! min_ := get_u16 in
    let! max_ := get_u16 in
    ret (MkRange (api_key_of key) min_ max_).

#[export] Instance ApiVersionRange_wire : WireType ApiVersionRange := {|
  wire_encode := ApiVersionRange_encode;
  wire_decode := ApiVersionRange_decode;
  wire_ok m := u_range 16 (avr_min m) /\ u_range 16 (avr_max m);
|}.

#[export] Instance ApiVersionRange_laws : WireTypeLaws ApiVersionRange.
Proof. message_laws ApiVersionRange_encode ApiVersionRange_decode. Qed.

#[export] Instance ApiVersionRange_nonempty : WireNonEmpty ApiVersionRange.
Proof. message_nonempty ApiVersionRange_encode. Qed.

Record ApiVersionsResponse := MkApiVersionsResponse { avs_ranges : list ApiVersionRange }.

Definition ApiVersionsResponse_encode (m : ApiVersionsResponse) (enc : Encoder) : Encoder :=
  enc |> put_counted (avs_ranges m).

Definition ApiVersionsResponse_decode : Reader ApiVersionsResponse :=
  let! ranges := get_counted in
  ret (MkApiVersionsResponse ranges).

#[export] Instance ApiVersionsResponse_wire : WireType ApiVersionsResponse := {|
  wire_encode := ApiVersionsResponse_encode;
  wire_decode := ApiVersionsResponse_decode;
  wire_ok m := counted_ok (avs_ranges m);
|}.

#[export] Instance ApiVersionsResponse_laws : WireTypeLaws ApiVersionsResponse.
Proof. message_laws ApiVersionsResponse_encode ApiVersionsResponse_decode. Qed.

Record BrokerMeta := MkBrokerMeta { bm_node_id : Z; bm_host : string; bm_port : Z }.

Definition BrokerMeta_encode (m : BrokerMeta) (enc : Encoder) : Encoder :=
  enc |> put_i32 (bm_node_id m)
      |> put_string (bm_host m)
      |> put_u16 (bm_port m).

Definition BrokerMeta_decode : Reader BrokerMeta :=
  let! node_id := get_i32 in
  let! host := get_string in
  let! port := get_u16 in
  ret (MkBrokerMeta node_id host port).

#[export] Instance BrokerMeta_wire : WireType BrokerMeta := {|
  wire_encode := BrokerMeta_encode;
  wire_decode := BrokerMeta_decode;
  wire_ok m := i_range 32 (bm_node_id m) /\ string_ok (bm_host m) /\ u_range 16 (bm_port m);
|}.

#[export] Instance BrokerMeta_laws : WireTypeLaws BrokerMeta.
Proof. message_laws BrokerMeta_encode BrokerMeta_decode. Qed.

#[export] Instance BrokerMeta_nonempty : WireNonEmpty BrokerMeta.
Proof. message_nonempty BrokerMeta_encode. Qed.

Record PartitionMeta := MkPartitionMeta {
  pm_id : Z;
  pm_leader_node_id : Z;
  pm_replicas : list NodeId;
  pm_leader_epoch : Z;
}.

Definition PartitionMeta_encode (m : PartitionMeta) (enc : Encoder) : Encoder :=
  enc |> put_i32 (pm_id m)
      |> put_i32 (pm_leader_node_id m)
      |> put_counted (pm_replicas m)
      |> put_i32 (pm_leader_epoch m).

Definition PartitionMeta_decode : Reader PartitionMeta :=
  let! id_ := get_i32 in
  let! leader_node_id := get_i32 in
  let! replicas := get_counted in
  let! leader_epoch := get_i32 in
  ret (MkPartitionMeta id_ leader_node_id replicas leader_epoch).

#[export] Instance PartitionMeta_wire : WireType PartitionMeta := {|
  wire_encode := PartitionMeta_encode;
  wire_decode := PartitionMeta_decode;
  wire_ok m := i_range 32 (pm_id m) /\ i_range 32 (pm_leader_node_id m) /\ counted_ok (pm_replicas m) /\ i_range 32 (pm_leader_epoch m);
|}.

#[export] Instance PartitionMeta_laws : WireTypeLaws PartitionMeta.
Proof. message_laws PartitionMeta_encode PartitionMeta_decode. Qed.

#[export] Instance PartitionMeta_nonempty : WireNonEmpty PartitionMeta.
Proof. message_nonempty PartitionMeta_encode. Qed.

Record TopicMeta := MkTopicMeta { tm_name : string; tm_error : WireError; tm_partitions : list PartitionMeta }.

Definition TopicMeta_encode (m : TopicMeta) (enc : Encoder) : Encoder :=
  enc |> put_string (tm_name m)
      |> put_i16 (wire_error_value (tm_error m))
      |> put_counted (tm_partitions m).

Definition TopicMeta_decode : Reader TopicMeta :=
  let! name := get_string in
  let! error := get_i16 in
  let! partitions := get_counted in
  ret (MkTopicMeta name (wire_error_of error) partitions).

#[export] Instance TopicMeta_wire : WireType TopicMeta := {|
  wire_encode := TopicMeta_encode;
  wire_decode := TopicMeta_decode;
  wire_ok m := string_ok (tm_name m) /\ wire_error_ok (tm_error m) /\ counted_ok (tm_partitions m);
|}.

#[export] Instance TopicMeta_laws : WireTypeLaws TopicMeta.
Proof. message_laws TopicMeta_encode TopicMeta_decode. Qed.

#[export] Instance TopicMeta_nonempty : WireNonEmpty TopicMeta.
Proof. message_nonempty TopicMeta_encode. Qed.

Record MetadataRequest := MkMetadataRequest { mq_topics : list TopicName }.

Definition MetadataRequest_encode (m : MetadataRequest) (enc : Encoder) : Encoder :=
  enc |> put_counted (mq_topics m).

Definition MetadataRequest_decode : Reader MetadataRequest :=
  let! topics := get_counted in
  ret (MkMetadataRequest topics).

#[export] Instance MetadataRequest_wire : WireType MetadataRequest := {|
  wire_encode := MetadataRequest_encode;
  wire_decode := MetadataRequest_decode;
  wire_ok m := counted_ok (mq_topics m);
|}.

#[export] Instance MetadataRequest_laws : WireTypeLaws MetadataRequest.
Proof. message_laws MetadataRequest_encode MetadataRequest_decode. Qed.

Record MetadataResponse := MkMetadataResponse { mr_brokers : list BrokerMeta; mr_topics : list TopicMeta }.

Definition MetadataResponse_encode (m : MetadataResponse) (enc : Encoder) : Encoder :=
  enc |> put_counted (mr_brokers m)
      |> put_counted (mr_topics m).

Definition MetadataResponse_decode : Reader MetadataResponse :=
  let! brokers := get_counted in
  let! topics := get_counted in
  ret (MkMetadataResponse brokers topics).

#[export] Instance MetadataResponse_wire : WireType MetadataResponse := {|
  wire_encode := MetadataResponse_encode;
  wire_decode := MetadataResponse_decode;
  wire_ok m := counted_ok (mr_brokers m) /\ counted_ok (mr_topics m);
|}.

#[export] Instance MetadataResponse_laws : WireTypeLaws MetadataResponse.
Proof. message_laws MetadataResponse_encode MetadataResponse_decode. Qed.

(** ** Producing and fetching *)

Record ProduceRequest := MkProduceRequest {
  pq_topic : string;
  pq_partition : Z;
  pq_acks : Acks;
  pq_batch : list byte;
}.

Definition ProduceRequest_encode (m : ProduceRequest) (enc : Encoder) : Encoder :=
  enc |> put_string (pq_topic m)
      |> put_i32 (pq_partition m)
      |> put_u8 (acks_value (pq_acks m))
      |> put_bytes (pq_batch m).

Definition ProduceRequest_decode : Reader ProduceRequest :=
  let! topic := get_string in
  let! partition := get_i32 in
  let! acks := get_u8 in
  if acks_value AcksQuorum <? acks then fail InvalidArgument "valor de acks inválido"
  else
    let! batch := get_bytes in
    ret (MkProduceRequest topic partition (acks_of acks) batch).

#[export] Instance ProduceRequest_wire : WireType ProduceRequest := {|
  wire_encode := ProduceRequest_encode;
  wire_decode := ProduceRequest_decode;
  wire_ok m := string_ok (pq_topic m) /\ i_range 32 (pq_partition m) /\ fits_size (pq_batch m);
|}.

#[export] Instance ProduceRequest_laws : WireTypeLaws ProduceRequest.
Proof. message_laws ProduceRequest_encode ProduceRequest_decode. Qed.

Record ProduceResponse := MkProduceResponse { pr_base_offset : Z; pr_error_code : WireError; pr_throttle_ms : Z }.

Definition ProduceResponse_encode (m : ProduceResponse) (enc : Encoder) : Encoder :=
  enc |> put_i64 (pr_base_offset m)
      |> put_i16 (wire_error_value (pr_error_code m))
      |> put_i32 (pr_throttle_ms m).

Definition ProduceResponse_decode : Reader ProduceResponse :=
  let! base_offset := get_i64 in
  let! error_code := get_i16 in
  let! throttle_ms := get_i32 in
  ret (MkProduceResponse base_offset (wire_error_of error_code) throttle_ms).

#[export] Instance ProduceResponse_wire : WireType ProduceResponse := {|
  wire_encode := ProduceResponse_encode;
  wire_decode := ProduceResponse_decode;
  wire_ok m := i_range 64 (pr_base_offset m) /\ wire_error_ok (pr_error_code m) /\ i_range 32 (pr_throttle_ms m);
|}.

#[export] Instance ProduceResponse_laws : WireTypeLaws ProduceResponse.
Proof. message_laws ProduceResponse_encode ProduceResponse_decode. Qed.

Record FetchRequest := MkFetchRequest {
  fq_topic : string;
  fq_partition : Z;
  fq_fetch_offset : Z;
  fq_max_bytes : Z;
  fq_min_bytes : Z;
  fq_max_wait_ms : Z;
}.

Definition FetchRequest_encode (m : FetchRequest) (enc : Encoder) : Encoder :=
  enc |> put_string (fq_topic m)
      |> put_i32 (fq_partition m)
      |> put_i64 (fq_fetch_offset m)
      |> put_i32 (fq_max_bytes m)
      |> put_i32 (fq_min_bytes m)
      |> put_i32 (fq_max_wait_ms m).

Definition FetchRequest_decode : Reader FetchRequest :=
  let! topic := get_string in
  let! partition := get_i32 in
  let! fetch_offset := get_i64 in
  let! max_bytes := get_i32 in
  let! min_bytes := get_i32 in
  let! max_wait_ms := get_i32 in
  ret (MkFetchRequest topic partition fetch_offset max_bytes min_bytes max_wait_ms).

#[export] Instance FetchRequest_wire : WireType FetchRequest := {|
  wire_encode := FetchRequest_encode;
  wire_decode := FetchRequest_decode;
  wire_ok m := string_ok (fq_topic m) /\ i_range 32 (fq_partition m) /\ i_range 64 (fq_fetch_offset m) /\ i_range 32 (fq_max_bytes m) /\ i_range 32 (fq_min_bytes m) /\ i_range 32 (fq_max_wait_ms m);
|}.

#[export] Instance FetchRequest_laws : WireTypeLaws FetchRequest.
Proof. message_laws FetchRequest_encode FetchRequest_decode. Qed.

Record FetchResponse := MkFetchResponse {
  fsr_batches : list byte;
  fsr_high_watermark : Z;
  fsr_log_start_offset : Z;
  fsr_error_code : WireError;
}.

Definition FetchResponse_encode (m : FetchResponse) (enc : Encoder) : Encoder :=
  enc |> put_bytes (fsr_batches m)
      |> put_i64 (fsr_high_watermark m)
      |> put_i64 (fsr_log_start_offset m)
      |> put_i16 (wire_error_value (fsr_error_code m)).

Definition FetchResponse_decode : Reader FetchResponse :=
  let! batches := get_bytes in
  let! high_watermark := get_i64 in
  let! log_start_offset := get_i64 in
  let! error_code := get_i16 in
  ret (MkFetchResponse batches high_watermark log_start_offset (wire_error_of error_code)).

#[export] Instance FetchResponse_wire : WireType FetchResponse := {|
  wire_encode := FetchResponse_encode;
  wire_decode := FetchResponse_decode;
  wire_ok m := fits_size (fsr_batches m) /\ i_range 64 (fsr_high_watermark m) /\ i_range 64 (fsr_log_start_offset m) /\ wire_error_ok (fsr_error_code m);
|}.

#[export] Instance FetchResponse_laws : WireTypeLaws FetchResponse.
Proof. message_laws FetchResponse_encode FetchResponse_decode. Qed.

(** ** Topics *)

Record CreateTopicRequest := MkCreateTopicRequest {
  ctq_name : string;
  ctq_partition_count : Z;
  ctq_replication_factor : Z;
}.

Definition CreateTopicRequest_encode (m : CreateTopicRequest) (enc : Encoder) : Encoder :=
  enc |> put_string (ctq_name m)
      |> put_i32 (ctq_partition_count m)
      |> put_i16 (ctq_replication_factor m).

Definition CreateTopicRequest_decode : Reader CreateTopicRequest :=
  let! name := get_string in
  let! partition_count := get_i32 in
  let! replication_factor := get_i16 in
  ret (MkCreateTopicRequest name partition_count replication_factor).

#[export] Instance CreateTopicRequest_wire : WireType CreateTopicRequest := {|
  wire_encode := CreateTopicRequest_encode;
  wire_decode := CreateTopicRequest_decode;
  wire_ok m := string_ok (ctq_name m) /\ i_range 32 (ctq_partition_count m) /\ i_range 16 (ctq_replication_factor m);
|}.

#[export] Instance CreateTopicRequest_laws : WireTypeLaws CreateTopicRequest.
Proof. message_laws CreateTopicRequest_encode CreateTopicRequest_decode. Qed.

Record CreateTopicResponse := MkCreateTopicResponse { ctr_error_code : WireError }.

Definition CreateTopicResponse_encode (m : CreateTopicResponse) (enc : Encoder) : Encoder :=
  enc |> put_i16 (wire_error_value (ctr_error_code m)).

Definition CreateTopicResponse_decode : Reader CreateTopicResponse :=
  let! error_code := get_i16 in
  ret (MkCreateTopicResponse (wire_error_of error_code)).

#[export] Instance CreateTopicResponse_wire : WireType CreateTopicResponse := {|
  wire_encode := CreateTopicResponse_encode;
  wire_decode := CreateTopicResponse_decode;
  wire_ok m := wire_error_ok (ctr_error_code m);
|}.

#[export] Instance CreateTopicResponse_laws : WireTypeLaws CreateTopicResponse.
Proof. message_laws CreateTopicResponse_encode CreateTopicResponse_decode. Qed.

Record DeleteTopicRequest := MkDeleteTopicRequest { dtq_name : string }.

Definition DeleteTopicRequest_encode (m : DeleteTopicRequest) (enc : Encoder) : Encoder :=
  enc |> put_string (dtq_name m).

Definition DeleteTopicRequest_decode : Reader DeleteTopicRequest :=
  let! name := get_string in
  ret (MkDeleteTopicRequest name).

#[export] Instance DeleteTopicRequest_wire : WireType DeleteTopicRequest := {|
  wire_encode := DeleteTopicRequest_encode;
  wire_decode := DeleteTopicRequest_decode;
  wire_ok m := string_ok (dtq_name m);
|}.

#[export] Instance DeleteTopicRequest_laws : WireTypeLaws DeleteTopicRequest.
Proof. message_laws DeleteTopicRequest_encode DeleteTopicRequest_decode. Qed.

Record DeleteTopicResponse := MkDeleteTopicResponse { dtr_error_code : WireError }.

Definition DeleteTopicResponse_encode (m : DeleteTopicResponse) (enc : Encoder) : Encoder :=
  enc |> put_i16 (wire_error_value (dtr_error_code m)).

Definition DeleteTopicResponse_decode : Reader DeleteTopicResponse :=
  let! error_code := get_i16 in
  ret (MkDeleteTopicResponse (wire_error_of error_code)).

#[export] Instance DeleteTopicResponse_wire : WireType DeleteTopicResponse := {|
  wire_encode := DeleteTopicResponse_encode;
  wire_decode := DeleteTopicResponse_decode;
  wire_ok m := wire_error_ok (dtr_error_code m);
|}.

#[export] Instance DeleteTopicResponse_laws : WireTypeLaws DeleteTopicResponse.
Proof. message_laws DeleteTopicResponse_encode DeleteTopicResponse_decode. Qed.

(** ** Offsets *)

Record OffsetCommitRequest := MkOffsetCommitRequest {
  ocq_group : string;
  ocq_topic : string;
  ocq_partition : Z;
  ocq_offset : Z;
  ocq_metadata : string;
}.

Definition OffsetCommitRequest_encode (m : OffsetCommitRequest) (enc : Encoder) : Encoder :=
  enc |> put_string (ocq_group m)
      |> put_string (ocq_topic m)
      |> put_i32 (ocq_partition m)
      |> put_i64 (ocq_offset m)
      |> put_string (ocq_metadata m).

Definition OffsetCommitRequest_decode : Reader OffsetCommitRequest :=
  let! group := get_string in
  let! topic := get_string in
  let! partition := get_i32 in
  let! offset := get_i64 in
  let! metadata := get_string in
  ret (MkOffsetCommitRequest group topic partition offset metadata).

#[export] Instance OffsetCommitRequest_wire : WireType OffsetCommitRequest := {|
  wire_encode := OffsetCommitRequest_encode;
  wire_decode := OffsetCommitRequest_decode;
  wire_ok m := string_ok (ocq_group m) /\ string_ok (ocq_topic m) /\ i_range 32 (ocq_partition m) /\ i_range 64 (ocq_offset m) /\ string_ok (ocq_metadata m);
|}.

#[export] Instance OffsetCommitRequest_laws : WireTypeLaws OffsetCommitRequest.
Proof. message_laws OffsetCommitRequest_encode OffsetCommitRequest_decode. Qed.

Record OffsetCommitResponse := MkOffsetCommitResponse { ocr_error_code : WireError }.

Definition OffsetCommitResponse_encode (m : OffsetCommitResponse) (enc : Encoder) : Encoder :=
  enc |> put_i16 (wire_error_value (ocr_error_code m)).

Definition OffsetCommitResponse_decode : Reader OffsetCommitResponse :=
  let! error_code := get_i16 in
  ret (MkOffsetCommitResponse (wire_error_of error_code)).

#[export] Instance OffsetCommitResponse_wire : WireType OffsetCommitResponse := {|
  wire_encode := OffsetCommitResponse_encode;
  wire_decode := OffsetCommitResponse_decode;
  wire_ok m := wire_error_ok (ocr_error_code m);
|}.

#[export] Instance OffsetCommitResponse_laws : WireTypeLaws OffsetCommitResponse.
Proof. message_laws OffsetCommitResponse_encode OffsetCommitResponse_decode. Qed.

Record OffsetFetchRequest := MkOffsetFetchRequest { ofq_group : string; ofq_topic : string; ofq_partition : Z }.

Definition OffsetFetchRequest_encode (m : OffsetFetchRequest) (enc : Encoder) : Encoder :=
  enc |> put_string (ofq_group m)
      |> put_string (ofq_topic m)
      |> put_i32 (ofq_partition m).

Definition OffsetFetchRequest_decode : Reader OffsetFetchRequest :=
  let! group := get_string in
  let! topic := get_string in
  let! partition := get_i32 in
  ret (MkOffsetFetchRequest group topic partition).

#[export] Instance OffsetFetchRequest_wire : WireType OffsetFetchRequest := {|
  wire_encode := OffsetFetchRequest_encode;
  wire_decode := OffsetFetchRequest_decode;
  wire_ok m := string_ok (ofq_group m) /\ string_ok (ofq_topic m) /\ i_range 32 (ofq_partition m);
|}.

#[export] Instance OffsetFetchRequest_laws : WireTypeLaws OffsetFetchRequest.
Proof. message_laws OffsetFetchRequest_encode OffsetFetchRequest_decode. Qed.

Record OffsetFetchResponse := MkOffsetFetchResponse { ofr_offset : Z; ofr_error_code : WireError }.

Definition OffsetFetchResponse_encode (m : OffsetFetchResponse) (enc : Encoder) : Encoder :=
  enc |> put_i64 (ofr_offset m)
      |> put_i16 (wire_error_value (ofr_error_code m)).

Definition OffsetFetchResponse_decode : Reader OffsetFetchResponse :=
  let! offset := get_i64 in
  let! error_code := get_i16 in
  ret (MkOffsetFetchResponse offset (wire_error_of error_code)).

#[export] Instance OffsetFetchResponse_wire : WireType OffsetFetchResponse := {|
  wire_encode := OffsetFetchResponse_encode;
  wire_decode := OffsetFetchResponse_decode;
  wire_ok m := i_range 64 (ofr_offset m) /\ wire_error_ok (ofr_error_code m);
|}.

#[export] Instance OffsetFetchResponse_laws : WireTypeLaws OffsetFetchResponse.
Proof. message_laws OffsetFetchResponse_encode OffsetFetchResponse_decode. Qed.

(** ** Groups *)

Record GroupMember := MkGroupMember { gm_member_id : string; gm_subscription : list byte }.

Definition GroupMember_encode (m : GroupMember) (enc : Encoder) : Encoder :=
  enc |> put_string (gm_member_id m)
      |> put_bytes (gm_subscription m).

Definition GroupMember_decode : Reader GroupMember :=
  let! member_id := get_string in
  let! subscription := get_bytes in
  ret (MkGroupMember member_id subscription).

#[export] Instance GroupMember_wire : WireType GroupMember := {|
  wire_encode := GroupMember_encode;
  wire_decode := GroupMember_decode;
  wire_ok m := string_ok (gm_member_id m) /\ fits_size (gm_subscription m);
|}.

#[export] Instance GroupMember_laws : WireTypeLaws GroupMember.
Proof. message_laws GroupMember_encode GroupMember_decode. Qed.

#[export] Instance GroupMember_nonempty : WireNonEmpty GroupMember.
Proof. message_nonempty GroupMember_encode. Qed.

Record GroupAssignment := MkGroupAssignment { ga_member_id : string; ga_assignment : list byte }.

Definition GroupAssignment_encode (m : GroupAssignment) (enc : Encoder) : Encoder :=
  enc |> put_string (ga_member_id m)
      |> put_bytes (ga_assignment m).

Definition GroupAssignment_decode : Reader GroupAssignment :=
  let! member_id := get_string in
  let! assignment := get_bytes in
  ret (MkGroupAssignment member_id assignment).

#[export] Instance GroupAssignment_wire : WireType GroupAssignment := {|
  wire_encode := GroupAssignment_encode;
  wire_decode := GroupAssignment_decode;
  wire_ok m := string_ok (ga_member_id m) /\ fits_size (ga_assignment m);
|}.

#[export] Instance GroupAssignment_laws : WireTypeLaws GroupAssignment.
Proof. message_laws GroupAssignment_encode GroupAssignment_decode. Qed.

#[export] Instance GroupAssignment_nonempty : WireNonEmpty GroupAssignment.
Proof. message_nonempty GroupAssignment_encode. Qed.

Record JoinGroupRequest := MkJoinGroupRequest {
  jgq_group : string;
  jgq_member_id : string;
  jgq_session_timeout_ms : Z;
  jgq_subscription : list byte;
}.

Definition JoinGroupRequest_encode (m : JoinGroupRequest) (enc : Encoder) : Encoder :=
  enc |> put_string (jgq_group m)
      |> put_string (jgq_member_id m)
      |> put_i32 (jgq_session_timeout_ms m)
      |> put_bytes (jgq_subscription m).

Definition JoinGroupRequest_decode : Reader JoinGroupRequest :=
  let! group := get_string in
  let! member_id := get_string in
  let! session_timeout_ms := get_i32 in
  let! subscription := get_bytes in
  ret (MkJoinGroupRequest group member_id session_timeout_ms subscription).

#[export] Instance JoinGroupRequest_wire : WireType JoinGroupRequest := {|
  wire_encode := JoinGroupRequest_encode;
  wire_decode := JoinGroupRequest_decode;
  wire_ok m := string_ok (jgq_group m) /\ string_ok (jgq_member_id m) /\ i_range 32 (jgq_session_timeout_ms m) /\ fits_size (jgq_subscription m);
|}.

#[export] Instance JoinGroupRequest_laws : WireTypeLaws JoinGroupRequest.
Proof. message_laws JoinGroupRequest_encode JoinGroupRequest_decode. Qed.

Record JoinGroupResponse := MkJoinGroupResponse {
  jgr_error_code : WireError;
  jgr_generation : Z;
  jgr_member_id : string;
  jgr_leader_id : string;
  jgr_is_leader : bool;
  jgr_members : list GroupMember;
}.

Definition JoinGroupResponse_encode (m : JoinGroupResponse) (enc : Encoder) : Encoder :=
  enc |> put_i16 (wire_error_value (jgr_error_code m))
      |> put_i32 (jgr_generation m)
      |> put_string (jgr_member_id m)
      |> put_string (jgr_leader_id m)
      |> put_u8 (if jgr_is_leader m then 1 else 0)
      |> put_counted (jgr_members m).

Definition JoinGroupResponse_decode : Reader JoinGroupResponse :=
  let! error_code := get_i16 in
  let! generation := get_i32 in
  let! member_id := get_string in
  let! leader_id := get_string in
  let! is_leader := get_u8 in
  let! members := get_counted in
  ret (MkJoinGroupResponse (wire_error_of error_code) generation member_id leader_id (negb (is_leader =? 0)) members).

#[export] Instance JoinGroupResponse_wire : WireType JoinGroupResponse := {|
  wire_encode := JoinGroupResponse_encode;
  wire_decode := JoinGroupResponse_decode;
  wire_ok m := wire_error_ok (jgr_error_code m) /\ i_range 32 (jgr_generation m) /\ string_ok (jgr_member_id m) /\ string_ok (jgr_leader_id m) /\ counted_ok (jgr_members m);
|}.

#[export] Instance JoinGroupResponse_laws : WireTypeLaws JoinGroupResponse.
Proof. message_laws JoinGroupResponse_encode JoinGroupResponse_decode. Qed.

Record SyncGroupRequest := MkSyncGroupRequest {
  sgq_group : string;
  sgq_member_id : string;
  sgq_generation : Z;
  sgq_assignments : list GroupAssignment;
}.

Definition SyncGroupRequest_encode (m : SyncGroupRequest) (enc : Encoder) : Encoder :=
  enc |> put_string (sgq_group m)
      |> put_string (sgq_member_id m)
      |> put_i32 (sgq_generation m)
      |> put_counted (sgq_assignments m).

Definition SyncGroupRequest_decode : Reader SyncGroupRequest :=
  let! group := get_string in
  let! member_id := get_string in
  let! generation := get_i32 in
  let! assignments := get_counted in
  ret (MkSyncGroupRequest group member_id generation assignments).

#[export] Instance SyncGroupRequest_wire : WireType SyncGroupRequest := {|
  wire_encode := SyncGroupRequest_encode;
  wire_decode := SyncGroupRequest_decode;
  wire_ok m := string_ok (sgq_group m) /\ string_ok (sgq_member_id m) /\ i_range 32 (sgq_generation m) /\ counted_ok (sgq_assignments m);
|}.

#[export] Instance SyncGroupRequest_laws : WireTypeLaws SyncGroupRequest.
Proof. message_laws SyncGroupRequest_encode SyncGroupRequest_decode. Qed.

Record SyncGroupResponse := MkSyncGroupResponse { sgr_error_code : WireError; sgr_assignment : list byte }.

Definition SyncGroupResponse_encode (m : SyncGroupResponse) (enc : Encoder) : Encoder :=
  enc |> put_i16 (wire_error_value (sgr_error_code m))
      |> put_bytes (sgr_assignment m).

Definition SyncGroupResponse_decode : Reader SyncGroupResponse :=
  let! error_code := get_i16 in
  let! assignment := get_bytes in
  ret (MkSyncGroupResponse (wire_error_of error_code) assignment).

#[export] Instance SyncGroupResponse_wire : WireType SyncGroupResponse := {|
  wire_encode := SyncGroupResponse_encode;
  wire_decode := SyncGroupResponse_decode;
  wire_ok m := wire_error_ok (sgr_error_code m) /\ fits_size (sgr_assignment m);
|}.

#[export] Instance SyncGroupResponse_laws : WireTypeLaws SyncGroupResponse.
Proof. message_laws SyncGroupResponse_encode SyncGroupResponse_decode. Qed.

Record HeartbeatRequest := MkHeartbeatRequest { hbq_group : string; hbq_member_id : string; hbq_generation : Z }.

Definition HeartbeatRequest_encode (m : HeartbeatRequest) (enc : Encoder) : Encoder :=
  enc |> put_string (hbq_group m)
      |> put_string (hbq_member_id m)
      |> put_i32 (hbq_generation m).

Definition HeartbeatRequest_decode : Reader HeartbeatRequest :=
  let! group := get_string in
  let! member_id := get_string in
  let! generation := get_i32 in
  ret (MkHeartbeatRequest group member_id generation).

#[export] Instance HeartbeatRequest_wire : WireType HeartbeatRequest := {|
  wire_encode := HeartbeatRequest_encode;
  wire_decode := HeartbeatRequest_decode;
  wire_ok m := string_ok (hbq_group m) /\ string_ok (hbq_member_id m) /\ i_range 32 (hbq_generation m);
|}.

#[export] Instance HeartbeatRequest_laws : WireTypeLaws HeartbeatRequest.
Proof. message_laws HeartbeatRequest_encode HeartbeatRequest_decode. Qed.

Record HeartbeatResponse := MkHeartbeatResponse { hbr_error_code : WireError }.

Definition HeartbeatResponse_encode (m : HeartbeatResponse) (enc : Encoder) : Encoder :=
  enc |> put_i16 (wire_error_value (hbr_error_code m)).

Definition HeartbeatResponse_decode : Reader HeartbeatResponse :=
  let! error_code := get_i16 in
  ret (MkHeartbeatResponse (wire_error_of error_code)).

#[export] Instance HeartbeatResponse_wire : WireType HeartbeatResponse := {|
  wire_encode := HeartbeatResponse_encode;
  wire_decode := HeartbeatResponse_decode;
  wire_ok m := wire_error_ok (hbr_error_code m);
|}.

#[export] Instance HeartbeatResponse_laws : WireTypeLaws HeartbeatResponse.
Proof. message_laws HeartbeatResponse_encode HeartbeatResponse_decode. Qed.

Record LeaveGroupRequest := MkLeaveGroupRequest { lgq_group : string; lgq_member_id : string }.

Definition LeaveGroupRequest_encode (m : LeaveGroupRequest) (enc : Encoder) : Encoder :=
  enc |> put_string (lgq_group m)
      |> put_string (lgq_member_id m).

Definition LeaveGroupRequest_decode : Reader LeaveGroupRequest :=
  let! group := get_string in
  let! member_id := get_string in
  ret (MkLeaveGroupRequest group member_id).

#[export] Instance LeaveGroupRequest_wire : WireType LeaveGroupRequest := {|
  wire_encode := LeaveGroupRequest_encode;
  wire_decode := LeaveGroupRequest_decode;
  wire_ok m := string_ok (lgq_group m) /\ string_ok (lgq_member_id m);
|}.

#[export] Instance LeaveGroupRequest_laws : WireTypeLaws LeaveGroupRequest.
Proof. message_laws LeaveGroupRequest_encode LeaveGroupRequest_decode. Qed.

Record LeaveGroupResponse := MkLeaveGroupResponse { lgr_error_code : WireError }.

Definition LeaveGroupResponse_encode (m : LeaveGroupResponse) (enc : Encoder) : Encoder :=
  enc |> put_i16 (wire_error_value (lgr_error_code m)).

Definition LeaveGroupResponse_decode : Reader LeaveGroupResponse :=
  let! error_code := get_i16 in
  ret (MkLeaveGroupResponse (wire_error_of error_code)).

#[export] Instance LeaveGroupResponse_wire : WireType LeaveGroupResponse := {|
  wire_encode := LeaveGroupResponse_encode;
  wire_decode := LeaveGroupResponse_decode;
  wire_ok m := wire_error_ok (lgr_error_code m);
|}.

#[export] Instance LeaveGroupResponse_laws : WireTypeLaws LeaveGroupResponse.
Proof. message_laws LeaveGroupResponse_encode LeaveGroupResponse_decode. Qed.

