(* ===== verification/FrameIo.v ===== *)
(** * Framing over a byte stream

    Models [FrameReader] and [FrameWriter] of [src/src/wire/frame_io.hpp] over the [ByteStream]
    concept, which is an interface here: what a receive or a send may do, and the laws of a stream
    that does not fail.  A frame written on one end is the frame read on the other, however the
    transport cuts the bytes. *)
From Stdlib Require Import ZArith Lia.
From stdpp Require Import base list strings.
From S2P Require Import Prelude Bytes Codec Frame.
#[local] Open Scope Z_scope.

(** ** Streams *)

(** [async_recv] of at most [n] bytes (none: the peer closed) and [async_send], which tells how many
    bytes it accepted. *)
Class ByteStream (S : Type) := {
  async_recv : nat -> S -> expected (list byte) * S;
  async_send : list byte -> S -> expected nat * S;
}.

(** What is still to be received, what has been sent, and the streams on which no call fails:
    a receive gives some of the pending bytes, and the end once there are none; a send accepts some
    of the bytes. *)
Class ByteStreamLaws (S : Type) `{!ByteStream S} := {
  pending : S -> list byte;
  sent : S -> list byte;
  healthy : S -> Prop;
  recv_some n s : healthy s -> (0 < n)%nat -> pending s <> [] ->
    exists bs s', async_recv n s = (Ok bs, s') /\ bs <> [] /\ (length bs <= n)%nat /\
      pending s = bs ++ pending s' /\ sent s' = sent s /\ healthy s';
  recv_closed n s : healthy s -> pending s = [] ->
    exists s', async_recv n s = (Ok [], s') /\ pending s' = [] /\ sent s' = sent s /\ healthy s';
  send_some data s : healthy s -> data <> [] ->
    exists k s', async_send data s = (Ok k, s') /\ (0 < k <= length data)%nat /\
      sent s' = sent s ++ take k data /\ pending s' = pending s /\ healthy s';
}.

Section FrameIo.
Context {S : Type} {BS : ByteStream S}.

(** ** Reading *)

Record WireFrame := MkWireFrame { wf_header : FrameHeader; wf_payload : list byte }.

Definition kHeaderRest : Z := Z.of_nat kEncodedSize - 4.

(** [read_exactly]: until [buf_] holds [total] bytes; a receive that succeeds adds one at least. *)
Fixpoint read_exactly (fuel total : nat) (buf : list byte) (s : S) : expected unit * (list byte * S) :=
  if (total <=? length buf)%nat then (Ok tt, (buf, s))
  else match fuel with
  | O => (Ok tt, (buf, s))
  | Datatypes.S fuel' =>
      match async_recv (total - length buf) s with
      | (Err e, s) => (Err e, (buf, s))
      | (Ok [], s) => (make_error IoError "conexión cerrada por el par (EOF) a media trama", (buf, s))
      | (Ok got, s) => read_exactly fuel' total (buf ++ got) s
      end
  end.

Definition read_frame (max_frame : Z) (s : S) : expected WireFrame * S :=
  match read_exactly 4 4 [] s with
  | (Err e, (_, s)) => (Err e, s)
  | (Ok _, (buf, s)) =>
      match get_u32 (MkDecoder buf 0) with
      | (Err e, _) => (Err e, s)
      | (Ok len, _) =>
          if len <? kHeaderRest then (make_error InvalidArgument "trama truncada: length < resto de cabecera", s)
          else
            let total := 4 + len in
            if max_frame <? total then (make_error InvalidArgument "trama excede max_frame", s)
            else
              match read_exactly (Z.to_nat total) (Z.to_nat total) buf s with
              | (Err e, (_, s)) => (Err e, s)
              | (Ok _, (buf, s)) =>
                  match FrameHeader_decode (MkDecoder buf 0) with
                  | (Err e, _) => (Err e, s)
                  | (Ok header, _) => (Ok (MkWireFrame header (subspan kEncodedSize buf)), s)
                  end
              end
      end
  end.

(** ** Writing *)

Fixpoint send_all_loop (fuel : nat) (data : list byte) (s : S) : expected unit * S :=
  match fuel, data with
  | _, [] | O, _ => (Ok tt, s)
  | Datatypes.S fuel', _ =>
      match async_send data s with
      | (Err e, s) => (Err e, s)
      | (Ok O, s) => (make_error IoError "send devolvió 0 (conexión cerrada)", s)
      | (Ok n, s) => send_all_loop fuel' (subspan n data) s
      end
  end.

Definition send_all (data : list byte) (s : S) : expected unit * S := send_all_loop (length data) data s.

Definition with_length (len : Z) (h : FrameHeader) : FrameHeader :=
  MkFrame len (fh_api_key h) (fh_api_version h) (fh_correlation_id h) (fh_flags h).

Definition write_frame (header : FrameHeader) (payload : list byte) (s : S) : expected unit * S :=
  let hdr := with_length (length_for (length payload)) header in
  match send_all (FrameHeader_encode hdr []) s with
  | (Err e, s) => (Err e, s)
  | (Ok _, s) => match payload with [] => (Ok tt, s) | _ => send_all payload s end
  end.

(** The turns suffice on any stream: a read that succeeds has filled the buffer, and a send has no
    byte left. *)
Lemma read_exactly_full fuel total buf s buf' s' :
  (total <= length buf + fuel)%nat -> read_exactly fuel total buf s = (Ok tt, (buf', s')) -> (total <= length buf')%nat.
Proof.
  revert buf s. induction fuel as [|fuel IH]; intros buf s Hf; cbn [read_exactly];
    (destruct (Nat.leb_spec total (length buf)); [intros [= <- _]; lia|]); [lia|].
  destruct (async_recv _ s) as [[[|b got]|e] s1]; [done| |done]. intros H1. apply (IH _ _) in H1; [done|].
  rewrite length_app. cbn. lia.
Qed.

(** ** Loops on a stream that does not fail *)

Context {BL : ByteStreamLaws S}.

Lemma read_exactly_healthy fuel total buf s want rest :
  healthy s -> pending s = want ++ rest -> (length buf + length want = total)%nat -> (length want <= fuel)%nat ->
  exists s', read_exactly fuel total buf s = (Ok tt, (buf ++ want, s')) /\ pending s' = rest /\
    sent s' = sent s /\ healthy s'.
Proof.
  revert buf s want. induction fuel as [|fuel IH]; intros buf s want Hh Hp Hl Hf; cbn [read_exactly].
  - destruct want; [|cbn in Hf; lia]. rewrite (proj2 (Nat.leb_le _ _)) by (cbn in Hl; lia).
    exists s. by rewrite app_nil_r.
  - destruct (Nat.leb_spec total (length buf)).
    { destruct want; [|cbn in Hl; lia]. exists s. by rewrite app_nil_r. }
    destruct (recv_some (total - length buf) s Hh ltac:(lia)) as (bs & s1 & -> & Hne & Hle & Hsplit & Hs1 & Hh1).
    { rewrite Hp. destruct want; [cbn in Hl; lia|done]. }
    destruct bs as [|b bs]; [done|]. set (got := b :: bs) in *.
    assert (Hg : exists w, want = got ++ w).
    { rewrite Hp in Hsplit. exists (drop (length got) want).
      rewrite <- (take_drop (length got) want) at 1. f_equal.
      apply (f_equal (take (length got))) in Hsplit. rewrite take_app_le, take_app_length in Hsplit by lia. done. }
    destruct Hg as [w ->]. rewrite Hp, <- app_assoc in Hsplit. apply app_inv_head in Hsplit.
    rewrite length_app in Hl, Hf. assert (0 < length got)%nat by (cbn; lia).
    destruct (IH (buf ++ got) s1 w Hh1 (eq_sym Hsplit)) as (s2 & -> & H1 & H2 & H3); [rewrite length_app; lia|lia|].
    exists s2. rewrite <- app_assoc. split_and!; congruence.
Qed.

Lemma send_all_healthy data s :
  healthy s -> exists s', send_all data s = (Ok tt, s') /\ sent s' = sent s ++ data /\ pending s' = pending s /\ healthy s'.
Proof.
  unfold send_all. assert (Hf : (length data <= length data)%nat) by done. revert Hf.
  generalize (length data) at 2 3. intros fuel. revert data s.
  induction fuel as [|fuel IH]; intros data s Hf Hh; (destruct data as [|b data]; [exists s; by rewrite app_nil_r|]).
  - cbn in Hf. lia.
  - cbn [send_all_loop]. destruct (send_some (b :: data) s Hh) as (k & s1 & -> & Hk & Hs1 & Hp1 & Hh1); [done|].
    destruct k as [|k]; [lia|].
    destruct (IH (subspan (Datatypes.S k) (b :: data)) s1) as (s2 & -> & H1 & H2 & H3); [|done|].
    { unfold subspan. rewrite length_drop. cbn in Hf |- *. lia. }
    exists s2. unfold subspan in H1. rewrite H1, Hs1, <- app_assoc, take_drop. split_and!; [done|done|congruence|done].
Qed.

(** ** A frame on the wire *)

Definition frame_bytes (header : FrameHeader) (payload : list byte) : list byte :=
  FrameHeader_encode (with_length (length_for (length payload)) header) [] ++ payload.

(** The frame that is read: the header with the length of its payload. *)
Definition sent_frame (header : FrameHeader) (payload : list byte) : WireFrame :=
  MkWireFrame (with_length (length_for (length payload)) header) payload.

Lemma write_frame_healthy header payload s :
  healthy s -> exists s', write_frame header payload s = (Ok tt, s') /\
    sent s' = sent s ++ frame_bytes header payload /\ pending s' = pending s /\ healthy s'.
Proof.
  intros Hh. unfold write_frame, frame_bytes. cbv zeta.
  destruct (send_all_healthy (FrameHeader_encode (with_length (length_for (length payload)) header) []) s Hh)
    as (s1 & -> & Hs1 & Hp1 & Hh1).
  destruct payload as [|b payload].
  - exists s1. by rewrite app_nil_r.
  - destruct (send_all_healthy (b :: payload) s1 Hh1) as (s2 & -> & Hs2 & Hp2 & Hh2).
    exists s2. rewrite Hs2, Hs1, <- app_assoc. split_and!; [done|done|congruence|done].
Qed.

(** What fits a frame: the fields their types, the payload the 32 bits of the length. *)
Definition framed_ok (header : FrameHeader) (payload : list byte) : Prop :=
  u_range 16 (fh_api_version header) /\ u_range 32 (fh_correlation_id header) /\ u_range 16 (fh_flags header) /\
  Z.of_nat (kEncodedSize + length payload) < 2 ^ 32.

Lemma framed_length header payload :
  framed_ok header payload ->
  length_for (length payload) = Z.of_nat (10 + length payload) /\
  frame_header_ok (with_length (length_for (length payload)) header).
Proof.
  intros (Hv & Hc & Hf & Hl).
  assert (Hlen : length_for (length payload) = Z.of_nat (10 + length payload)).
  { unfold length_for, to_u, kEncodedSize in *. width_simpl. rewrite Z.mod_small; lia. }
  split; [done|]. unfold frame_header_ok. cbn. rewrite Hlen. split_and!; try done.
  unfold u_range, kEncodedSize in *. width_simpl. lia.
Qed.

Lemma header_starts_with_length h bs :
  u_range 32 (fh_length h) ->
  get_u32 (MkDecoder (take 4 (FrameHeader_encode h [] ++ bs)) 0) = (Ok (fh_length h), MkDecoder (take 4 (FrameHeader_encode h [] ++ bs)) 4).
Proof.
  intros Hl. assert (Ht : take 4 (FrameHeader_encode h [] ++ bs) = store_le 4 (fh_length h)).
  { unfold FrameHeader_encode, put_u32, put_u16. rewrite app_nil_l, <- !app_assoc.
    rewrite take_app_length'; [done|by rewrite length_store_le]. }
  rewrite Ht, (reads_u32 _ Hl).
  - unfold advance. cbn. by rewrite length_store_le.
  - exists []. cbn. by rewrite app_nil_r.
Qed.

Lemma read_frame_healthy header payload rest max_frame r :
  framed_ok header payload -> Z.of_nat (kEncodedSize + length payload) <= max_frame ->
  healthy r -> pending r = frame_bytes header payload ++ rest ->
  exists r', read_frame max_frame r = (Ok (sent_frame header payload), r') /\ pending r' = rest /\
    sent r' = sent r /\ healthy r'.
Proof.
  intros Hok Hmax Hr Hwire. destruct (framed_length _ _ Hok) as [Hlen Hh]. unfold frame_bytes in Hwire.
  set (hdr := with_length _ _) in *. set (hb := FrameHeader_encode hdr []) in *.
  assert (Hlb : length hb = kEncodedSize) by apply length_frame.
  assert (Hsplit : pending r = take 4 (hb ++ payload) ++ (drop 4 (hb ++ payload) ++ rest))
    by (by rewrite app_assoc, take_drop).
  assert (Hl4 : length (take 4 (hb ++ payload)) = 4%nat)
    by (rewrite length_take, length_app, Hlb; unfold kEncodedSize; lia).
  unfold read_frame.
  destruct (read_exactly_healthy 4 4 [] r _ _ Hr Hsplit) as (r1 & -> & Hp1 & Hs1 & Hh1); [by rewrite Hl4|by rewrite Hl4|].
  rewrite app_nil_l. unfold hb at 1. rewrite header_starts_with_length by apply Hh.
  change (fh_length hdr) with (length_for (length payload)). rewrite Hlen.
  rewrite (proj2 (Z.ltb_ge _ _)) by (unfold kHeaderRest, kEncodedSize; lia).
  rewrite (proj2 (Z.ltb_ge _ _)) by (unfold kEncodedSize in Hmax; lia).
  replace (Z.to_nat (4 + Z.of_nat (10 + length payload))) with (length (hb ++ payload))
    by (rewrite length_app, Hlb; unfold kEncodedSize; lia).
  destruct (read_exactly_healthy (length (hb ++ payload)) (length (hb ++ payload)) (take 4 (hb ++ payload)) r1 _ _ Hh1 Hp1)
    as (r2 & -> & Hp2 & Hs2 & Hh2); [rewrite Hl4, length_drop; rewrite length_app, Hlb; unfold kEncodedSize; lia|rewrite length_drop; lia|].
  rewrite take_drop. rewrite (reads_frame hdr Hh).
  - exists r2. split; [|split_and!; congruence]. unfold sent_frame. fold hdr. unfold subspan.
    rewrite <- Hlb, drop_app_length. done.
  - exists payload. cbn. by rewrite drop_0.
Qed.

(** What is written as a frame is read as that frame, whatever follows it, and however the sends
    and the receives split the bytes; the reader stops exactly at the end of the frame. *)
Theorem frame_stream_roundtrip (header : FrameHeader) (payload rest : list byte) (max_frame : Z) (w r : S)
    (Hok : framed_ok header payload) (Hmax : Z.of_nat (kEncodedSize + length payload) <= max_frame)
    (Hw : healthy w) (Hr : healthy r) (Hwire : pending r = frame_bytes header payload ++ rest) :
  (exists w', write_frame header payload w = (Ok tt, w') /\ sent w' = sent w ++ frame_bytes header payload) /\
  (exists r', read_frame max_frame r = (Ok (sent_frame header payload), r') /\ pending r' = rest).
Proof.
  split.
  - destruct (write_frame_healthy header payload w Hw) as (w' & H & Hs & _). by exists w'.
  - destruct (read_frame_healthy header payload rest max_frame r Hok Hmax Hr Hwire) as (r' & H & Hp & _). by exists r'.
Qed.

(** A frame larger than the limit is refused after its length alone. *)
Lemma oversized_frame_refused (len max_frame : Z) (rest : list byte) (r : S) :
  u_range 32 len -> kHeaderRest <= len -> max_frame < 4 + len -> healthy r -> pending r = store_le 4 len ++ rest ->
  exists r', read_frame max_frame r = (make_error InvalidArgument "trama excede max_frame", r') /\ pending r' = rest.
Proof.
  intros Hl Hmin Hmax Hr Hp. unfold read_frame.
  destruct (read_exactly_healthy 4 4 [] r _ _ Hr Hp) as (r1 & -> & Hp1 & _ & _);
    [rewrite length_store_le; done..|]. rewrite app_nil_l, (reads_u32 _ Hl) by (exists []; cbn; by rewrite app_nil_r).
  rewrite (proj2 (Z.ltb_ge _ _)) by done. rewrite (proj2 (Z.ltb_lt _ _)) by lia. by exists r1.
Qed.

(** The end of the stream between two frames. *)
Lemma read_frame_closed max_frame r :
  healthy r -> pending r = [] -> exists e r', read_frame max_frame r = (Err e, r') /\ sent r' = sent r /\ pending r' = [].
Proof.
  intros Hr Hp. unfold read_frame. cbn [read_exactly].
  destruct (recv_closed (4 - length (@nil byte)) r Hr Hp) as (r' & -> & Hp' & Hs' & _). by eexists _, r'.
Qed.
End FrameIo.

(** ** A stream that cuts as it is told *)

(** The transport moves at most [ps_sizes] bytes at each call, in turn, and no more than one when the
    list is exhausted. *)
Record PlannedStream := MkPlannedStream { ps_inbox : list byte; ps_outbox : list byte; ps_sizes : list nat }.

Definition chunk_size (n : nat) (sizes : list nat) : nat := Nat.min n (Nat.max 1 (default 1%nat (head sizes))).

#[export] Instance planned_stream : ByteStream PlannedStream := {
  async_recv n s := (Ok (take (chunk_size n (ps_sizes s)) (ps_inbox s)),
    MkPlannedStream (drop (chunk_size n (ps_sizes s)) (ps_inbox s)) (ps_outbox s) (tail (ps_sizes s)));
  async_send data s := let k := chunk_size (length data) (ps_sizes s) in
    (Ok k, MkPlannedStream (ps_inbox s) (ps_outbox s ++ take k data) (tail (ps_sizes s)));
}.

#[export] Instance planned_stream_laws : ByteStreamLaws PlannedStream.
Proof.
  apply (Build_ByteStreamLaws _ _ ps_inbox ps_outbox (fun _ => True)).
  - intros n [inbox out sizes] _ Hn Hp. cbn in Hp |- *. eexists _, _. split; [done|]. cbn.
    assert (0 < chunk_size n sizes <= n)%nat by (unfold chunk_size; lia).
    split_and!; try done; [|rewrite length_take; lia|by rewrite take_drop].
    destruct inbox; [done|]. by destruct (chunk_size n sizes); [lia|].
  - intros n [inbox out sizes] _ Hp. cbn in Hp |- *. subst inbox. eexists. split; [by rewrite take_nil|].
    cbn. by rewrite drop_nil.
  - intros [|b data] [inbox out sizes] _ Hd; [done|]. cbn [async_send planned_stream]. eexists _, _. split; [done|].
    assert (0 < chunk_size (length (b :: data)) sizes <= length (b :: data))%nat by (unfold chunk_size; cbn [length]; lia).
    done.
Defined.

Definition wit_header : FrameHeader := MkFrame 0 Fetch 3 77 0.
Definition wit_payload : list byte := [1; 2; 3; 250].
Definition wit_reader : PlannedStream :=
  MkPlannedStream (frame_bytes wit_header wit_payload ++ [9; 9]) [] [3; 2; 1; 5]%nat.

Lemma frame_stream_roundtrip_witness :
  (exists w', write_frame wit_header wit_payload (MkPlannedStream [] [] [2; 7]%nat) = (Ok tt, w') /\
     ps_outbox w' = frame_bytes wit_header wit_payload) /\
  (exists r', read_frame 64 wit_reader = (Ok (sent_frame wit_header wit_payload), r') /\ ps_inbox r' = [9; 9]).
Proof.
  assert (Hok : framed_ok wit_header wit_payload) by (split_and!; by vm_compute).
  exact (frame_stream_roundtrip (S := PlannedStream) wit_header wit_payload [9; 9] 64
    (MkPlannedStream [] [] [2; 7]%nat) wit_reader Hok ltac:(by vm_compute) I I eq_refl).
Defined.
