(* ===== verification/Topics.v ===== *)
(** * Topics and their managers

    Models [PartitionBase] of [src/src/broker/partition_base.hpp] as the interface the topics serve,
    [Topic] of [topic.hpp], [TopicManager] of [topic_manager.cpp], which holds the topics of one core
    and opens the partitions that core owns, and the fan-out of creation, deletion and configuration
    to all cores of [topic_cluster.cpp], whose turns are steps that other fan-outs may interleave
    with. *)
From Stdlib Require Import ZArith Lia Ascii String.
From stdpp Require Import base list gmap strings pretty.
From S2P Require Import Prelude Record Codec RaftState RaftLogSpec RaftNode RaftLog Partition RecordCodec.
From S2P Require Import PartitionLog Frame Messages.
#[local] Open Scope Z_scope.

(** ** The interface of a partition *)

Class PartitionBase (Q : Type) := {
  pb_produce : RecordBatch -> Q -> expected Z * Q;
  pb_fetch : Z -> nat -> Q -> expected (list byte);
  pb_high_watermark : Q -> Z;
  pb_log_start : Q -> Z;
  pb_log_end : Q -> Z;
  pb_leader_epoch : Q -> Z;
  pb_is_replicated : Q -> bool;
  pb_protocol : Q -> WireProtocol;
  pb_claim : WireProtocol -> Q -> expected unit * Q;
  pb_enforce_retention : RetentionPolicy -> Z -> Q -> Q;
}.

(** The two partitions of the broker, over a log and its retention. *)
Section BrokerPartition.
Context {P : Type} {PO : PartitionLogOps P} (retention : RetentionPolicy -> Z -> P -> P).

Inductive BrokerPartition := Plain (p : Partition P) | Replicated (p : ReplicatedPartition P).

(** [Partition] applies the policy; a replicated partition reclaims by compaction only. *)
Definition partition_retention (policy : RetentionPolicy) (now : Z) (p : Partition P) : Partition P :=
  MkPartition (MkProducing (retention policy now (pr_store (pt_state p))) (pr_producers (pt_state p)))
    (pt_leader_epoch p) (pt_protocol p).

Definition broker_produce (batch : RecordBatch) (q : BrokerPartition) : expected Z * BrokerPartition :=
  match q with
  | Plain p => let '(r, p) := partition_produce batch p in (r, Plain p)
  | Replicated p => let '(r, p) := replicated_produce batch p in (r, Replicated p)
  end.

Definition broker_claim (proto : WireProtocol) (q : BrokerPartition) : expected unit * BrokerPartition :=
  match q with
  | Plain p => let '(r, p) := partition_claim proto p in (r, Plain p)
  | Replicated p =>
      let '(r, current) := claim_protocol proto (rp_protocol p) in (r, Replicated (MkReplicated (rp_state p) current))
  end.

#[export] Instance BrokerPartition_base : PartitionBase BrokerPartition := {|
  pb_produce := broker_produce;
  pb_fetch offset max_bytes q :=
    match q with Plain p => partition_fetch offset max_bytes p | Replicated p => replicated_fetch offset max_bytes p end;
  pb_high_watermark q :=
    match q with Plain p => partition_high_watermark p | Replicated p => replicated_high_watermark p end;
  pb_log_start q :=
    match q with
    | Plain p => log_start_offset (pr_store (pt_state p))
    | Replicated p => log_start_offset (rl_log (log_ (pr_store (rp_state p))))
    end;
  pb_log_end q :=
    match q with Plain p => log_end_offset (pr_store (pt_state p)) | Replicated p => raft_log_end (pr_store (rp_state p)) end;
  pb_leader_epoch q :=
    match q with Plain p => pt_leader_epoch p | Replicated p => leader_epoch_ (pr_store (rp_state p)) end;
  pb_is_replicated q := match q with Plain _ => false | Replicated _ => true end;
  pb_protocol q := match q with Plain p => pt_protocol p | Replicated p => rp_protocol p end;
  pb_claim := broker_claim;
  pb_enforce_retention policy now q :=
    match q with Plain p => Plain (partition_retention policy now p) | Replicated p => Replicated p end;
|}.
End BrokerPartition.
Arguments BrokerPartition P : clear implicits.

(** ** Topics *)

Record TopicConfig := MkTopicConfig {
  tc_segment_bytes : Z;
  tc_retention_ms : Z;
  tc_retention_bytes : Z;
  tc_compaction : bool;
  tc_compression : Codec;
}.

Definition default_topic_config : TopicConfig := MkTopicConfig (64 * 1024 * 1024) (-1) (-1) false CodecNone.

Record TopicMetadata := MkTopicMetadata {
  td_name : string;
  td_partition_count : Z;
  td_replication_factor : Z;
  td_config : TopicConfig;
  td_created_at_ms : Z;
}.

Definition kMaxTopicNameLength : nat := 249.

Definition is_allowed (ch : ascii) : bool :=
  let c := nat_of_ascii ch in
  ((97 <=? c) && (c <=? 122) || ((65 <=? c) && (c <=? 90)) || ((48 <=? c) && (c <=? 57))
   || (c =? 46) || (c =? 95) || (c =? 45))%nat.

Definition validate_topic_name (name : string) : expected unit :=
  if String.eqb name "" then make_error InvalidArgument "el nombre del topic no puede estar vacío"
  else if (kMaxTopicNameLength <? String.length name)%nat
  then make_error InvalidArgument
         ("el nombre del topic excede la longitud máxima (" +:+ pretty (N.of_nat kMaxTopicNameLength) +:+ ")")
  else if String.eqb name "." || String.eqb name ".."
  then make_error InvalidArgument "el nombre del topic no puede ser '.' ni '..'"
  else if negb (forallb is_allowed (list_ascii_of_string name))
  then make_error InvalidArgument ("el nombre del topic solo admite [A-Za-z0-9._-]: " +:+ name)
  else Ok tt.

Section Topics.
Context {Q : Type} {PB : PartitionBase Q}.

Record Topic := MkTopic { t_meta : TopicMetadata; t_partitions : gmap Z Q }.

Definition add_partition (id : Z) (q : Q) (t : Topic) : Topic := MkTopic (t_meta t) (<[id := q]> (t_partitions t)).

Definition set_retention (ms bytes : Z) (t : Topic) : Topic :=
  let m := t_meta t in
  let c := td_config m in
  MkTopic (MkTopicMetadata (td_name m) (td_partition_count m) (td_replication_factor m)
             (MkTopicConfig (tc_segment_bytes c) ms bytes (tc_compaction c) (tc_compression c))
             (td_created_at_ms m)) (t_partitions t).

(** ** The manager of a core *)

Record TopicManager := MkTopicManager {
  tmg_num_cores : Z;
  tmg_owner_core : Z;
  tmg_topics : gmap string Topic;
  tmg_replicas : list (string * Z);
}.

Definition new_topic_manager (num_cores owner_core : Z) : TopicManager :=
  let cores := if num_cores <? 1 then 1 else num_cores in
  MkTopicManager cores (if (owner_core <? 0) || (cores <=? owner_core) then 0 else owner_core) ∅ [].

Definition set_topics (topics : gmap string Topic) (replicas : list (string * Z)) (tm : TopicManager) : TopicManager :=
  MkTopicManager (tmg_num_cores tm) (tmg_owner_core tm) topics replicas.

(** [static_cast<std::size_t>(pid) % num_cores]. *)
Definition owner_of (cores pid : Z) : Z := to_u 64 pid mod cores.

Definition owns_partition (pid : Z) (tm : TopicManager) : bool := owner_of (tmg_num_cores tm) pid =? tmg_owner_core tm.

Definition find_topic (name : string) (tm : TopicManager) : option Topic := tmg_topics tm !! name.

Definition carrier_for (name : string) (pid : Z) (tm : TopicManager) : option (string * Z) :=
  List.find (fun r => (r.2 =? pid) && String.eqb r.1 name) (tmg_replicas tm).

(** What opening a partition gives: its log and, with a replication factor above one, its Raft
    state recovered; and what removing its directory answers (the message of a failure). *)
Context (open_partition : TopicMetadata -> Z -> expected Q) (remove_all : string -> Z -> option string).

(** The loop over the partitions of [create_topic]: the first error ends it. *)
Fixpoint open_partitions (tm : TopicManager) (meta : TopicMetadata) (pids : list Z) (t : Topic) (replicas : list (string * Z)) :
    expected (Topic * list (string * Z)) :=
  match pids with
  | [] => Ok (t, replicas)
  | pid :: rest =>
      if negb (owns_partition pid tm) then open_partitions tm meta rest t replicas
      else
        let? q := open_partition meta pid in
        open_partitions tm meta rest (add_partition pid q t)
          (if 1 <? td_replication_factor meta then replicas ++ [(td_name meta, pid)] else replicas)
  end.

Definition create_topic (name : string) (partition_count : Z) (config : TopicConfig) (replication_factor now_ms : Z)
    (tm : TopicManager) : expected TopicMetadata * TopicManager :=
  match validate_topic_name name with
  | Err e => (Err e, tm)
  | Ok _ =>
      if partition_count <? 1 then (make_error InvalidArgument "partition_count debe ser >= 1", tm)
      else if bool_decide (is_Some (tmg_topics tm !! name))
      then (make_error InvalidArgument ("el topic ya existe: " +:+ name), tm)
      else
        let meta := MkTopicMetadata name partition_count replication_factor config now_ms in
        match open_partitions tm meta (seqZ 0 partition_count) (MkTopic meta ∅) [] with
        | Err e => (Err e, tm)
        | Ok (t, replicas) =>
            (Ok meta, set_topics (<[name := t]> (tmg_topics tm)) (tmg_replicas tm ++ replicas) tm)
        end
  end.

(** The first failure of removing the directories of the partitions owned. *)
Definition first_remove_error (name : string) (tm : TopicManager) (pids : list Z) : option string :=
  head (omap (fun pid => if owns_partition pid tm then remove_all name pid else None) pids).

Definition delete_topic (name : string) (tm : TopicManager) : expected unit * TopicManager :=
  match tmg_topics tm !! name with
  | None => (make_error NotFound "topic inexistente", tm)
  | Some t =>
      let replicas := List.filter (fun r => negb (String.eqb r.1 name)) (tmg_replicas tm) in
      let tm' := set_topics (delete name (tmg_topics tm)) replicas tm in
      match first_remove_error name tm (seqZ 0 (td_partition_count (t_meta t))) with
      | Some msg => (make_error IoError ("no se pudieron borrar los ficheros del topic: " +:+ msg), tm')
      | None => (Ok tt, tm')
      end
  end.

Definition update_config (name : string) (retention_ms retention_bytes : option Z) (tm : TopicManager) :
    expected TopicMetadata * TopicManager :=
  match tmg_topics tm !! name with
  | None => (make_error NotFound ("topic inexistente: " +:+ name), tm)
  | Some t =>
      let c := td_config (t_meta t) in
      let t := set_retention (default (tc_retention_ms c) retention_ms) (default (tc_retention_bytes c) retention_bytes) t in
      (Ok (t_meta t), set_topics (<[name := t]> (tmg_topics tm)) (tmg_replicas tm) tm)
  end.

(** The order in which the hash table yields the topics. *)
Context (hash_order : gmap string Topic -> list (string * Topic)).

Definition partition_meta (leader pid : Z) : PartitionMeta := MkPartitionMeta pid leader [leader] 0.

Definition describe (leader_node_id : Z) (tm : TopicManager) : list TopicMeta :=
  (fun '(name, t) =>
     MkTopicMeta name NoError (partition_meta leader_node_id <$> seqZ 0 (td_partition_count (t_meta t))))
    <$> hash_order (tmg_topics tm).

Definition list_metadata (tm : TopicManager) : list TopicMetadata := (fun p => t_meta p.2) <$> hash_order (tmg_topics tm).

(** The retention of a topic goes to each of its partitions that is open here. *)
Definition retain_topic (now : Z) (t : Topic) : Topic :=
  let c := td_config (t_meta t) in
  if (tc_retention_ms c <? 0) && (tc_retention_bytes c <? 0) then t
  else
    let policy := MkRetention (tc_retention_bytes c) (tc_retention_ms c) in
    MkTopic (t_meta t)
      (foldl (fun ps pid => alter (pb_enforce_retention policy now) pid ps) (t_partitions t)
         (seqZ 0 (td_partition_count (t_meta t)))).

Definition enforce_retention_all (now : Z) (tm : TopicManager) : TopicManager :=
  set_topics (retain_topic now <$> tmg_topics tm) (tmg_replicas tm) tm.

(** ** The fan-out to the cores *)

(** A creation under way: its turns are the calls on the cores, in order, and after a failure the
    deletions that undo them, in reverse.  Each core reads its own clock. *)
Inductive CreateState :=
  | Creating (core : nat)
  | RollingBack (done : nat) (e : Error)
  | Created (r : expected TopicMetadata).

Record CreateTask := MkCreateTask { ct_state : CreateState; ct_authoritative : TopicMetadata }.

Definition create_turn (name : string) (partition_count : Z) (config : TopicConfig) (now_ms : nat -> Z)
    (task : CreateTask) (topics_by_core : list TopicManager) : CreateTask * list TopicManager :=
  match ct_state task with
  | Creating core =>
      match topics_by_core !! core with
      | None => (MkCreateTask (Created (Ok (ct_authoritative task))) (ct_authoritative task), topics_by_core)
      | Some tm =>
          match create_topic name partition_count config 1 (now_ms core) tm with
          | (Err e, tm') => (MkCreateTask (RollingBack core e) (ct_authoritative task), <[core := tm']> topics_by_core)
          | (Ok meta, tm') =>
              (MkCreateTask (Creating (S core)) (if (core =? 0)%nat then meta else ct_authoritative task),
               <[core := tm']> topics_by_core)
          end
      end
  | RollingBack O e => (MkCreateTask (Created (Err e)) (ct_authoritative task), topics_by_core)
  | RollingBack (S done) e =>
      (MkCreateTask (RollingBack done e) (ct_authoritative task),
       match topics_by_core !! done with
       | Some tm => <[done := (delete_topic name tm).2]> topics_by_core
       | None => topics_by_core
       end)
  | Created _ => (task, topics_by_core)
  end.

Definition no_metadata : TopicMetadata := MkTopicMetadata "" 0 1 default_topic_config 0.
Definition create_task : CreateTask := MkCreateTask (Creating 0) no_metadata.

(** The coroutine run to its end: a turn per core, one more to see the last, and the way back. *)
Definition create_topic_on_cluster (name : string) (partition_count : Z) (config : TopicConfig) (now_ms : nat -> Z)
    (topics_by_core : list TopicManager) : expected TopicMetadata * list TopicManager :=
  let '(task, cluster) :=
    Nat.iter (2 * length topics_by_core + 2)
      (fun s => create_turn name partition_count config now_ms s.1 s.2) (create_task, topics_by_core) in
  (match ct_state task with Created r => r | _ => Ok (ct_authoritative task) end, cluster).

(** A deletion under way: the next core, and the answer of core 0. *)
Record DeleteTask := MkDeleteTask { dt_core : nat; dt_result : expected unit }.

Definition delete_task : DeleteTask := MkDeleteTask 0 (Ok tt).

Definition delete_turn (name : string) (task : DeleteTask) (topics_by_core : list TopicManager) :
    DeleteTask * list TopicManager :=
  match topics_by_core !! dt_core task with
  | None => (task, topics_by_core)
  | Some tm =>
      let '(r, tm') := delete_topic name tm in
      (MkDeleteTask (S (dt_core task)) (if (dt_core task =? 0)%nat then r else dt_result task),
       <[dt_core task := tm']> topics_by_core)
  end.

Definition delete_topic_on_cluster (name : string) (topics_by_core : list TopicManager) :
    expected unit * list TopicManager :=
  let '(task, cluster) :=
    Nat.iter (length topics_by_core) (fun s => delete_turn name s.1 s.2) (delete_task, topics_by_core) in
  (dt_result task, cluster).

Definition update_topic_config_on_cluster (name : string) (retention_ms retention_bytes : option Z)
    (topics_by_core : list TopicManager) : expected TopicMetadata * list TopicManager :=
  let results := update_config name retention_ms retention_bytes <$> topics_by_core in
  (match results with (r, _) :: _ => r | [] => make_error NotFound ("topic inexistente: " +:+ name) end,
   snd <$> results).
End Topics.
Arguments Topic Q : clear implicits.
Arguments TopicManager Q : clear implicits.
