(* ===== verification/TopicsSafety.v ===== *)
(** * Correctness of the topic managers

    The names that become directories, the invariant of a manager, the creation of a topic on all
    cores or on none, and what remains when a creation and a deletion of the same topic meet. *)
From Stdlib Require Import ZArith Lia Ascii String.
From stdpp Require Import base list gmap sets strings.
From S2P Require Import Prelude Record Codec File RaftLog Partition PartitionLog PartitionLogSafety StorageTier SegmentCrypto.
From S2P Require Import Frame Messages Topics.
#[local] Open Scope Z_scope.

(** ** Names *)

Lemma validate_ok name :
  validate_topic_name name = Ok tt ->
  name <> ""%string /\ (String.length name <= kMaxTopicNameLength)%nat /\ name <> "."%string /\ name <> ".."%string /\
  Forall (fun ch => is_allowed ch = true) (list_ascii_of_string name).
Proof.
  unfold validate_topic_name.
  destruct (String.eqb_spec name ""); [done|]. destruct (Nat.ltb_spec kMaxTopicNameLength (String.length name)); [done|].
  destruct (String.eqb_spec name "."); [done|]. destruct (String.eqb_spec name ".."); [done|]. cbn [orb].
  destruct (forallb is_allowed _) eqn:Hf; [|done]. intros _. split_and!; try done.
  apply List.Forall_forall. by apply forallb_forall.
Qed.

Section Topics.
Context {Q : Type} {PB : PartitionBase Q}.
Context (open_partition : TopicMetadata -> Z -> expected Q) (remove_all : string -> Z -> option string).

(** ** One manager *)

(** What a topic holds here: the partitions of its metadata that this core owns. *)
Record topic_inv (tm : TopicManager Q) (name : string) (t : Topic Q) : Prop := {
  ti_name : td_name (t_meta t) = name;
  ti_valid : validate_topic_name name = Ok tt;
  ti_count : 1 <= td_partition_count (t_meta t);
  ti_owned : forall pid, is_Some (t_partitions t !! pid) <->
    0 <= pid < td_partition_count (t_meta t) /\ owns_partition pid tm = true;
}.

Record manager_inv (tm : TopicManager Q) : Prop := {
  mi_topics : forall name t, tmg_topics tm !! name = Some t -> topic_inv tm name t;
  mi_carriers : forall r, r ∈ tmg_replicas tm -> is_Some (tmg_topics tm !! r.1);
}.

Lemma open_partitions_spec tm meta pids t replicas t' replicas' :
  open_partitions open_partition tm meta pids t replicas = Ok (t', replicas') ->
  t_meta t' = t_meta t /\
  (forall pid, is_Some (t_partitions t' !! pid) <->
     is_Some (t_partitions t !! pid) \/ (pid ∈ pids /\ owns_partition pid tm = true)) /\
  exists more, replicas' = replicas ++ more /\ (forall r, r ∈ more -> r.1 = td_name meta) /\
    (td_replication_factor meta <= 1 -> more = []).
Proof.
  revert t replicas. induction pids as [|pid pids IH]; intros t replicas; cbn [open_partitions].
  - intros [= <- <-]. split; [done|]. split; [set_solver|]. exists []. rewrite app_nil_r. set_solver.
  - destruct (owns_partition pid tm) eqn:Hown; cbn [negb].
    + destruct (open_partition meta pid) as [q|e]; [|done]. cbn [expected_bind]. intros H.
      apply IH in H as (Hm & Hp & more & -> & Hmore & Hnone). split; [done|]. split.
      * intros p. rewrite Hp. cbn. destruct (decide (p = pid)) as [->|Hne].
        -- rewrite lookup_insert_eq. split; [intros _; right; set_solver|intros _; left; eauto].
        -- rewrite lookup_insert_ne by done. set_solver.
      * destruct (Z.ltb_spec 1 (td_replication_factor meta)).
        -- exists ((td_name meta, pid) :: more). rewrite <- app_assoc. split; [done|]. split; [|lia].
           intros r [->|Hr]%elem_of_cons; auto.
        -- by exists more.
    + intros H. apply IH in H as (Hm & Hp & Hrest). split; [done|]. split; [|done].
      intros p. rewrite Hp. split; [set_solver|]. intros [?|[[->|?]%elem_of_cons ?]]; [by left|congruence|by right].
Qed.

Lemma create_topic_ok name count config rf now tm meta tm' :
  create_topic open_partition name count config rf now tm = (Ok meta, tm') ->
  validate_topic_name name = Ok tt /\ 1 <= count /\ tmg_topics tm !! name = None /\
  meta = MkTopicMetadata name count rf config now /\
  exists t more, open_partitions open_partition tm meta (seqZ 0 count) (MkTopic meta ∅) [] = Ok (t, more) /\
    tm' = set_topics (<[name := t]> (tmg_topics tm)) (tmg_replicas tm ++ more) tm.
Proof.
  unfold create_topic. destruct (validate_topic_name name) as [[]|e]; [|done].
  destruct (Z.ltb_spec count 1); [done|]. case_bool_decide as Hin; [done|].
  apply eq_None_not_Some in Hin. cbv zeta.
  destruct (open_partitions _ _ _ _ _ _) as [[t more]|e] eqn:Ho; [|done]. intros [= <- <-].
  split_and!; try done. by exists t, more.
Qed.

Lemma create_topic_err name count config rf now tm e tm' :
  create_topic open_partition name count config rf now tm = (Err e, tm') -> tm' = tm.
Proof. unfold create_topic. repeat case_match; intros; simplify_eq; done. Qed.

Lemma create_topic_inv name count config rf now tm :
  manager_inv tm -> manager_inv (create_topic open_partition name count config rf now tm).2.
Proof.
  intros [Ht Hc]. destruct (create_topic _ _ _ _ _ _ _) as [[meta|e] tm'] eqn:H; cbn.
  2: { by apply create_topic_err in H as ->. }
  apply create_topic_ok in H as (Hv & Hn & Hno & -> & t & more & Ho & ->).
  apply open_partitions_spec in Ho as (Hm & Hp & more' & -> & Hr & _). split; cbn.
  - intros name' t'. destruct (decide (name' = name)) as [->|Hne].
    + rewrite lookup_insert_eq. intros [= <-]. split; rewrite ?Hm; cbn; try done.
      intros pid. rewrite Hp, elem_of_seqZ. cbn. rewrite lookup_empty. cbn. split; [|intros [? ?]; right; split; [lia|done]].
      intros [[? ?]|[? ?]]; [done|]. split; [lia|done].
    + rewrite lookup_insert_ne by done. intros H. by apply Ht in H as [? ? ? ?].
  - intros r [Hr'|Hr']%elem_of_app.
    + destruct (decide (r.1 = name)) as [->|Hne]; [rewrite lookup_insert_eq; eauto|].
      rewrite lookup_insert_ne by done. by apply Hc.
    + rewrite (Hr r) by done. cbn. rewrite lookup_insert_eq. eauto.
Qed.

Lemma elem_of_filter_replicas (f : string * Z -> bool) l r : r ∈ List.filter f l <-> r ∈ l /\ f r = true.
Proof. rewrite !list_elem_of_In. apply filter_In. Qed.

Lemma delete_topic_state name (tm : TopicManager Q) :
  (delete_topic remove_all name tm).2
  = match tmg_topics tm !! name with
    | None => tm
    | Some _ => set_topics (delete name (tmg_topics tm))
                  (List.filter (fun r : string * Z => negb (String.eqb r.1 name)) (tmg_replicas tm)) tm
    end.
Proof. unfold delete_topic. destruct (tmg_topics tm !! name); [|done]. by destruct (first_remove_error _ _ _ _). Qed.

Lemma delete_topic_inv name tm : manager_inv tm -> manager_inv (delete_topic remove_all name tm).2.
Proof.
  intros [Ht Hc]. rewrite delete_topic_state. destruct (tmg_topics tm !! name); [|done]. split; cbn.
  - intros name' t' [Hne H]%lookup_delete_Some. by apply Ht in H as [? ? ? ?].
  - intros r [Hr Hne]%elem_of_filter_replicas. apply negb_true_iff, String.eqb_neq in Hne.
    rewrite lookup_delete_ne by done. by apply Hc.
Qed.

Lemma update_config_inv name ms bytes tm : manager_inv tm -> manager_inv (update_config name ms bytes tm).2.
Proof.
  intros [Ht Hc]. unfold update_config. destruct (tmg_topics tm !! name) as [t|] eqn:Hn; [|by split].
  cbn. split; cbn.
  - intros name' t'. destruct (decide (name' = name)) as [->|Hne].
    + rewrite lookup_insert_eq. intros [= <-]. by destruct (Ht _ _ Hn).
    + rewrite lookup_insert_ne by done. intros H. by apply Ht in H as [? ? ? ?].
  - intros r Hr. destruct (decide (r.1 = name)) as [->|Hne]; [rewrite lookup_insert_eq; eauto|].
    rewrite lookup_insert_ne by done. by apply Hc.
Qed.

Lemma alter_all_some {A} (f : A -> A) pids (m : gmap Z A) pid :
  is_Some (foldl (fun ps pid => alter f pid ps) m pids !! pid) <-> is_Some (m !! pid).
Proof. revert m. induction pids as [|p pids IH]; intros m; [done|]. cbn. by rewrite IH, lookup_alter_is_Some. Qed.

Lemma enforce_retention_inv now tm : manager_inv tm -> manager_inv (enforce_retention_all now tm).
Proof.
  intros [Ht Hc]. split; cbn.
  - intros name t (t0 & <- & Ht0)%lookup_fmap_Some. destruct (Ht _ _ Ht0). unfold retain_topic.
    destruct (_ && _); [by split|]. split; cbn; try done. intros pid. by rewrite alter_all_some.
  - intros r Hr. rewrite lookup_fmap, fmap_is_Some. by apply Hc.
Qed.

(** The calls on a manager. *)
Inductive TopicCall :=
  | CallCreateTopic (name : string) (count : Z) (config : TopicConfig) (rf now : Z)
  | CallDeleteTopic (name : string)
  | CallUpdateConfig (name : string) (ms bytes : option Z)
  | CallRetentionAll (now : Z).

Definition topic_call (tm : TopicManager Q) (c : TopicCall) : TopicManager Q :=
  match c with
  | CallCreateTopic name count config rf now => (create_topic open_partition name count config rf now tm).2
  | CallDeleteTopic name => (delete_topic remove_all name tm).2
  | CallUpdateConfig name ms bytes => (update_config name ms bytes tm).2
  | CallRetentionAll now => enforce_retention_all now tm
  end.

(** C34. After any calls, a manager holds under each name a topic with a valid name (no separator of
    paths, neither [.] nor [..]), and of its partitions exactly those its core owns; every Raft
    carrier belongs to a topic that exists. *)
Theorem topic_manager_invariant (num_cores owner_core : Z) (calls : list TopicCall) :
  manager_inv (foldl topic_call (new_topic_manager num_cores owner_core) calls).
Proof.
  assert (H0 : manager_inv (new_topic_manager num_cores owner_core)) by (split; cbn; [done|set_solver]).
  revert H0. generalize (@new_topic_manager Q num_cores owner_core). intros tm.
  revert tm. induction calls as [|c calls IH]; intros tm Htm; [done|]. apply IH.
  destruct c; cbn; auto using create_topic_inv, delete_topic_inv, update_config_inv, enforce_retention_inv.
Qed.

(** ** The whole cluster *)

Lemma delete_created name count config now tm meta tm' :
  manager_inv tm -> create_topic open_partition name count config 1 now tm = (Ok meta, tm') ->
  (delete_topic remove_all name tm').2 = tm.
Proof.
  intros [Ht Hc] (_ & _ & Hno & -> & t & more & Ho & ->)%create_topic_ok.
  apply open_partitions_spec in Ho as (_ & _ & more' & -> & _ & Hnil). cbn in Hnil. rewrite Hnil by lia.
  rewrite delete_topic_state. cbn. rewrite lookup_insert_eq, delete_insert_id by done.
  rewrite !app_nil_r. destruct tm as [n o topics replicas]. unfold set_topics. cbn in *. f_equal.
  clear -Hc Hno. induction replicas as [|r rs IH]; [done|]. cbn.
  destruct (String.eqb_spec r.1 name) as [He|]; cbn.
  - destruct (Hc r) as [? ?]; [set_solver|]. congruence.
  - f_equal. apply IH. intros r' Hr'. apply Hc. set_solver.
Qed.

Section Create.
Context (name : string) (count : Z) (config : TopicConfig) (now : nat -> Z) (cluster : list (TopicManager Q)).
Context (Hinv : Forall manager_inv cluster).

Abbreviation turn := (fun s : CreateTask * list (TopicManager Q) =>
  create_turn open_partition remove_all name count config now s.1 s.2).
Abbreviation create core := (create_topic open_partition name count config 1 (now core)).

(** The first [k] cores have created the topic. *)
Definition created_upto (k : nat) (c : list (TopicManager Q)) : Prop :=
  length c = length cluster /\
  forall i tm, cluster !! i = Some tm ->
    exists tm', c !! i = Some tm' /\ if (i <? k)%nat then exists meta, create i tm = (Ok meta, tm') else tm' = tm.

Lemma created_upto_0 c : created_upto 0 c -> c = cluster.
Proof.
  intros [Hl Hc]. apply list_eq_same_length with (length cluster); [done|done|].
  intros i x y Hi Hx Hy. destruct (Hc i y Hy) as (tm' & Htm' & He). cbn in He. congruence.
Qed.

Lemma rollback_run n k e auth c :
  created_upto k c -> (k < n)%nat ->
  Nat.iter n turn (MkCreateTask (RollingBack k e) auth, c) = (MkCreateTask (Created (Err e)) auth, cluster).
Proof.
  revert k c. induction n as [|n IH]; intros k c Hc Hn; [lia|]. rewrite Nat.iter_succ_r. cbn [fst snd create_turn ct_state ct_authoritative].
  destruct k as [|k].
  - apply created_upto_0 in Hc as ->. clear IH Hn. induction n as [|n IH]; [done|]. by rewrite Nat.iter_succ_r.
  - apply IH; [|lia]. destruct Hc as [Hl Hc]. destruct (cluster !! k) as [tm|] eqn:Hk.
    + destruct (Hc k tm Hk) as (tm' & Htm' & Hm). rewrite (proj2 (Nat.ltb_lt _ _)) in Hm by lia. destruct Hm as [meta Hm].
      rewrite Htm'. split; [by rewrite length_insert|]. intros i tm0 Hi.
      destruct (decide (i = k)) as [->|Hne].
      * exists (delete_topic remove_all name tm').2. rewrite list_lookup_insert_eq by (apply lookup_lt_Some in Htm'; done).
        split; [done|]. rewrite Nat.ltb_irrefl. replace tm0 with tm by congruence.
        eapply delete_created; [|done]. by eapply Forall_lookup_1.
      * rewrite list_lookup_insert_ne by done. destruct (Hc i tm0 Hi) as (tm1 & ? & Hif). exists tm1. split; [done|].
        destruct (Nat.ltb_spec i (S k)), (Nat.ltb_spec i k); try done; lia.
    + rewrite (proj2 (lookup_ge_None c k)) by (rewrite Hl; by apply lookup_ge_None).
      split; [done|]. intros i tm0 Hi. destruct (Hc i tm0 Hi) as (tm1 & ? & Hif). exists tm1. split; [done|].
      apply lookup_lt_Some in Hi. apply lookup_ge_None in Hk.
      destruct (Nat.ltb_spec i (S k)), (Nat.ltb_spec i k); try done; lia.
Qed.

(** All the cores have created the topic, or none has; what is answered is what core 0 created. *)
Definition all_or_none (r : expected TopicMetadata) (c : list (TopicManager Q)) : Prop :=
  match r with
  | Err e => c = cluster /\ exists i tm, cluster !! i = Some tm /\ (create i tm).1 = Err e
  | Ok meta => (cluster <> [] -> meta = MkTopicMetadata name count 1 config (now 0%nat)) /\ created_upto (length cluster) c
  end.

Lemma create_run n k auth c :
  created_upto k c -> (k <= length cluster)%nat -> (2 * length cluster + 2 <= n + k)%nat ->
  ((0 < k)%nat -> auth = MkTopicMetadata name count 1 config (now 0%nat)) ->
  exists r auth' c', Nat.iter n turn (MkCreateTask (Creating k) auth, c) = (MkCreateTask (Created r) auth', c') /\
    all_or_none r c'.
Proof.
  revert k auth c. induction n as [|n IH]; intros k auth c Hc Hk Hn Ha; [lia|]. rewrite Nat.iter_succ_r.
  cbn [fst snd create_turn ct_state ct_authoritative]. pose proof Hc as [Hl Hcs].
  destruct (decide (k = length cluster)) as [->|Hne].
  - rewrite (proj2 (lookup_ge_None c _)) by lia. exists (Ok auth), auth, c. split.
    2: { split; [|done]. intros Hne. apply Ha. by destruct cluster; [|cbn; lia]. }
    clear. induction n as [|n IH]; [done|]. by rewrite Nat.iter_succ_r.
  - destruct (cluster !! k) as [tm|] eqn:Htm; [|apply lookup_ge_None in Htm; lia].
    destruct (Hcs k tm Htm) as (tm0 & Htm0 & He). rewrite Nat.ltb_irrefl in He. subst tm0. rewrite Htm0.
    destruct (create k tm) as [[meta|e] tm'] eqn:Hcr.
    + apply IH; [|lia|lia|].
      2: { intros _. apply create_topic_ok in Hcr as (_ & _ & _ & -> & _). destruct (Nat.eqb_spec k 0) as [->|]; [done|]. apply Ha. lia. }
      split; [by rewrite length_insert|]. intros i tm0 Hi.
      destruct (decide (i = k)) as [->|Hik].
      * exists tm'. rewrite list_lookup_insert_eq by (apply lookup_lt_Some in Htm0; done). split; [done|].
        rewrite (proj2 (Nat.ltb_lt _ _)) by lia. exists meta. congruence.
      * rewrite list_lookup_insert_ne by done. destruct (Hcs i tm0 Hi) as (tm1 & ? & Hif). exists tm1. split; [done|].
        destruct (Nat.ltb_spec i k), (Nat.ltb_spec i (S k)); try done; lia.
    + pose proof Hcr as ->%create_topic_err. rewrite list_insert_id by done.
      rewrite (rollback_run n k e auth c Hc) by lia. exists (Err e), auth, cluster. split; [done|]. split; [done|].
      exists k, tm. by rewrite Hcr.
Qed.

Lemma create_topic_on_cluster_run :
  let '(r, c) := create_topic_on_cluster open_partition remove_all name count config now cluster in all_or_none r c.
Proof.
  unfold create_topic_on_cluster, create_task.
  destruct (create_run (2 * length cluster + 2) 0 no_metadata cluster) as (r & auth & c & -> & H); [|lia|lia|lia|done].
  split; [done|]. intros i tm Hi. by exists tm.
Qed.
End Create.

(** A deletion asks every core in turn, and answers what core 0 said. *)
Lemma delete_run name (cluster : list (TopicManager Q)) k :
  (k <= length cluster)%nat ->
  exists r c, Nat.iter k (fun s => delete_turn remove_all name s.1 s.2) (delete_task, cluster) = (MkDeleteTask k r, c) /\
    length c = length cluster /\
    (forall i tm, cluster !! i = Some tm ->
       c !! i = Some (if (i <? k)%nat then (delete_topic remove_all name tm).2 else tm)) /\
    forall tm, (0 < k)%nat -> cluster !! O = Some tm -> r = (delete_topic remove_all name tm).1.
Proof.
  induction k as [|k IH]; intros Hk.
  - exists (Ok tt), cluster. split_and!; [done|done|by intros i tm ->|lia].
  - destruct IH as (r & c & Hi & Hl & Hc & Hr); [lia|]. rewrite Nat.iter_succ, Hi. cbn [fst snd].
    unfold delete_turn. cbn [dt_core dt_result].
    destruct (cluster !! k) as [tm|] eqn:Htm; [|apply lookup_ge_None in Htm; lia].
    pose proof (Hc k tm Htm) as Hck. rewrite Nat.ltb_irrefl in Hck. rewrite Hck.
    destruct (delete_topic remove_all name tm) as [rd tm'] eqn:Hd.
    eexists _, _. split; [done|]. split; [by rewrite length_insert|]. split.
    + intros i tm0 Hi0. destruct (decide (i = k)) as [->|Hne].
      * rewrite list_lookup_insert_eq by lia. rewrite (proj2 (Nat.ltb_lt _ _)) by lia.
        replace tm0 with tm by congruence. by rewrite Hd.
      * rewrite list_lookup_insert_ne by done. rewrite (Hc i tm0 Hi0).
        destruct (Nat.ltb_spec i k), (Nat.ltb_spec i (S k)); try done; lia.
    + intros tm0 _ H0. destruct (Nat.eqb_spec k 0) as [->|Hne].
      * replace tm0 with tm by congruence. by rewrite Hd.
      * apply Hr; [lia|done].
Qed.

Lemma delete_topic_on_cluster_run name (cluster : list (TopicManager Q)) :
  let '(r, c) := delete_topic_on_cluster remove_all name cluster in
  c = (fun tm => (delete_topic remove_all name tm).2) <$> cluster /\
  forall tm, cluster !! O = Some tm -> r = (delete_topic remove_all name tm).1.
Proof.
  unfold delete_topic_on_cluster. destruct (delete_run name cluster (length cluster)) as (r & c & -> & Hl & Hc & Hr); [done|].
  cbn. split.
  - apply list_eq_same_length with (length cluster); [by rewrite length_fmap|done|].
    intros i x y Hi Hx Hy. rewrite list_lookup_fmap in Hy. destruct (cluster !! i) as [tm|] eqn:Htm; [|done].
    rewrite (Hc i tm Htm), (proj2 (Nat.ltb_lt _ _)) in Hx by done. cbn in Hy. congruence.
  - intros tm H0. apply Hr; [by apply lookup_lt_Some in H0|done].
Qed.

(** C33. A topic is created on every core or, when one of them fails (whatever the reason, and whether
    or not it is the first), on none: the managers of the cores that had created it are as they were.
    Each core reads its own clock. *)
Theorem cluster_create_all_or_none (name : string) (count : Z) (config : TopicConfig) (now : nat -> Z)
    (cluster : list (TopicManager Q)) (Hinv : Forall manager_inv cluster) :
  let '(r, after) := create_topic_on_cluster open_partition remove_all name count config now cluster in
  match r with
  | Err _ => after = cluster
  | Ok _ => Forall2 (fun '(core, tm) tm' => exists meta, create_topic open_partition name count config 1 (now core) tm = (Ok meta, tm'))
              (imap pair cluster) after
  end.
Proof.
  pose proof (create_topic_on_cluster_run name count config now cluster Hinv) as H.
  destruct (create_topic_on_cluster _ _ _ _ _ _ _) as [[meta|e] after]; [|apply H].
  destruct H as (_ & Hl & Hc). apply Forall2_same_length_lookup. split; [by rewrite length_imap|].
  intros i [core x] tm' (tm & Hi & [= -> ->])%list_lookup_imap_Some Hi'.
  destruct (Hc i tm Hi) as (tm1 & Htm1 & Hif). rewrite (proj2 (Nat.ltb_lt _ _)) in Hif by (by apply lookup_lt_Some in Hi).
  destruct Hif as [m Hm]. exists m. congruence.
Qed.
End Topics.

(** ** Creations and deletions that meet *)

(** A partition opened on an empty directory, with the topic's segment size. *)
Definition open_plain {CC : Crypto} (env : Environment) (meta : TopicMetadata) (pid : Z) :
    expected (BrokerPartition (PartitionLog Empty_set)) :=
  let cfg := MkLogConfig (tc_segment_bytes (td_config meta)) 4096 FsyncInterval (1 * 1024 * 1024) None
               (bytes_of_string (td_name meta)) pid in
  let? log := pg_open env cfg None (Ok []) (env_files env 0) in
  Ok (Plain (new_partition log 0)).

Section Race.
#[local] Existing Instance sample_crypto.
#[local] Instance race_ops : PartitionLogOps (PartitionLog Empty_set) := PartitionLog_ops log_env.
#[local] Instance race_base : PartitionBase (BrokerPartition (PartitionLog Empty_set)) :=
  BrokerPartition_base (pg_enforce_retention log_env).

Abbreviation cores := (list (TopicManager (BrokerPartition (PartitionLog Empty_set)))).

Definition two_cores : cores := [new_topic_manager 2 0; new_topic_manager 2 1].
Definition no_remove_error : string -> Z -> option string := fun _ _ => None.

Definition race_create (s : CreateTask * cores) : CreateTask * cores :=
  create_turn (open_plain log_env) no_remove_error "t" 2 default_topic_config (fun _ => 0) s.1 s.2.
Definition race_delete (s : DeleteTask * cores) : DeleteTask * cores := delete_turn no_remove_error "t" s.1 s.2.

(** Where the topic is registered. *)
Definition known_at (c : cores) : list bool := (fun tm => bool_decide (is_Some (tmg_topics tm !! "t"%string))) <$> c.

(** A deletion that runs between the turns of a creation leaves the topic on some cores only.
    Both clients are told it went well; from then on core 0 does not list the topic, and nobody can
    create it again, since core 1 still has it. *)
Theorem create_delete_race :
  let '(creation, c) := race_create (create_task, two_cores) in
  let '(deletion, c) := race_delete (race_delete (delete_task, c)) in
  let '(creation, c) := race_create (race_create (creation, c)) in
  ct_state creation = Created (Ok (MkTopicMetadata "t" 2 1 default_topic_config 0)) /\ dt_result deletion = Ok tt /\
  known_at c = [false; true] /\
  let '(again, c') := create_topic_on_cluster (open_plain log_env) no_remove_error "t" 2 default_topic_config (fun _ => 0) c in
  again = make_error InvalidArgument "el topic ya existe: t" /\ known_at c' = [false; true].
Proof. vm_compute. done. Qed.

(** The disk of core 1 is full. *)
Definition open_on_core_0 (meta : TopicMetadata) (pid : Z) : expected (BrokerPartition (PartitionLog Empty_set)) :=
  if pid =? 1 then make_error IoError "disco lleno" else open_plain log_env meta pid.

Lemma cluster_create_all_or_none_witness :
  (create_topic_on_cluster open_on_core_0 no_remove_error "t" 2 default_topic_config Z.of_nat two_cores).1
    = make_error IoError "disco lleno" /\
  (create_topic_on_cluster open_on_core_0 no_remove_error "t" 2 default_topic_config Z.of_nat two_cores).2 = two_cores.
Proof.
  assert (Hinv : Forall manager_inv two_cores) by (repeat constructor; cbn; set_solver).
  pose proof (cluster_create_all_or_none open_on_core_0 no_remove_error "t" 2 default_topic_config Z.of_nat two_cores Hinv) as H.
  destruct (create_topic_on_cluster _ _ _ _ _ _ _) as [r after] eqn:E. vm_compute in E. injection E as <- <-.
  split; [reflexivity|exact H].
Defined.
End Race.
