(* ===== verification/Hashes.v ===== *)
(** * Hashes

    First [fnv1a_64] of [src/src/common/fnv1a.hpp], the hash that gives a group its core and a key its
    point on the ring; then SHA-256 with HMAC. *)
From Stdlib Require Import ZArith Lia Ascii String.
From stdpp Require Import base list strings.
From S2P Require Import Prelude Codec.
#[local] Open Scope Z_scope.

Definition fnv1a_bytes (data : list byte) : Z :=
  foldl (fun hash byte => to_u 64 (Z.lxor hash byte * 1099511628211)) 14695981039346656037 data.

Definition fnv1a_64 (data : string) : Z := fnv1a_bytes (bytes_of_string data).

Lemma fnv1a_range data : u_range 64 (fnv1a_64 data).
Proof.
  unfold fnv1a_64, fnv1a_bytes. assert (H0 : u_range 64 14695981039346656037) by by_range. revert H0.
  generalize 14695981039346656037. induction (bytes_of_string data) as [|b bs IH]; intros h Hh; [done|].
  cbn [foldl]. apply IH, to_u_range. lia.
Qed.

(** * SHA-256 and HMAC

    Models [src/src/common/sha256.cpp]: the incremental hash (FIPS 180-4) over 32-bit words, and
    HMAC-SHA256 (RFC 2104).  A message fed in any pieces has the digest the standard defines on the
    whole of it. *)

(** ** Words of 32 bits *)

(** The words of a row of a table, from its digits; the first word is the most significant. *)
Definition words_of (n : nat) (row : Z) : list Z :=
  (fun i => Z.shiftr row (32 * Z.of_nat (n - 1 - i)) mod 2 ^ 32) <$> seq 0 n.

Definition kRoundConstants : list Z :=
  Eval cbv in concat (words_of 8 <$>
    [0x428a2f98_71374491_b5c0fbcf_e9b5dba5_3956c25b_59f111f1_923f82a4_ab1c5ed5;
     0xd807aa98_12835b01_243185be_550c7dc3_72be5d74_80deb1fe_9bdc06a7_c19bf174;
     0xe49b69c1_efbe4786_0fc19dc6_240ca1cc_2de92c6f_4a7484aa_5cb0a9dc_76f988da;
     0x983e5152_a831c66d_b00327c8_bf597fc7_c6e00bf3_d5a79147_06ca6351_14292967;
     0x27b70a85_2e1b2138_4d2c6dfc_53380d13_650a7354_766a0abb_81c2c92e_92722c85;
     0xa2bfe8a1_a81a664b_c24b8b70_c76c51a3_d192e819_d6990624_f40e3585_106aa070;
     0x19a4c116_1e376c08_2748774c_34b0bcb5_391c0cb3_4ed8aa4a_5b9cca4f_682e6ff3;
     0x748f82ee_78a5636f_84c87814_8cc70208_90befffa_a4506ceb_bef9a3f7_c67178f2]).

Definition kInitialState : list Z :=
  Eval cbv in words_of 8 0x6a09e667_bb67ae85_3c6ef372_a54ff53a_510e527f_9b05688c_1f83d9ab_5be0cd19.

Definition add32 (x y : Z) : Z := to_u 32 (x + y).
Definition not32 (x : Z) : Z := to_u 32 (Z.lnot x).

Definition rotr (x n : Z) : Z := Z.lor (Z.shiftr x n) (to_u 32 (Z.shiftl x (32 - n))).
Definition ch (x y z : Z) : Z := Z.lxor (Z.land x y) (Z.land (not32 x) z).
Definition maj (x y z : Z) : Z := Z.lxor (Z.lxor (Z.land x y) (Z.land x z)) (Z.land y z).
Definition big_sigma0 (x : Z) : Z := Z.lxor (Z.lxor (rotr x 2) (rotr x 13)) (rotr x 22).
Definition big_sigma1 (x : Z) : Z := Z.lxor (Z.lxor (rotr x 6) (rotr x 11)) (rotr x 25).
Definition small_sigma0 (x : Z) : Z := Z.lxor (Z.lxor (rotr x 7) (rotr x 18)) (Z.shiftr x 3).
Definition small_sigma1 (x : Z) : Z := Z.lxor (Z.lxor (rotr x 17) (rotr x 19)) (Z.shiftr x 10).

Definition word_at (w : list Z) (t : nat) : Z := nth t w 0.

(** Four bytes, the most significant first. *)
Definition read_be32 (p : list byte) : Z :=
  Z.lor (Z.lor (Z.lor (Z.shiftl (nth 0 p 0) 24) (Z.shiftl (nth 1 p 0) 16)) (Z.shiftl (nth 2 p 0) 8)) (nth 3 p 0).

(** ** The hash *)

Definition kBlockSize : nat := 64.

(** [Sha256]: the bytes of the block in progress are the first [buffer_len_] of the buffer. *)
Record Sha256 := MkSha { sha_state : list Z; sha_buffer : list byte; sha_total : Z }.

Definition sha_new : Sha256 := MkSha kInitialState [] 0.

(** The words of the block, and then each of the four before it. *)
Fixpoint schedule_loop (n : nat) (w : list Z) : list Z :=
  match n with
  | O => w
  | S n =>
      let t := length w in
      schedule_loop n (w ++ [add32 (add32 (add32 (small_sigma1 (word_at w (t - 2))) (word_at w (t - 7)))
                                     (small_sigma0 (word_at w (t - 15)))) (word_at w (t - 16))])
  end.

Definition schedule (block : list byte) : list Z :=
  schedule_loop 48 ((fun t => read_be32 (drop (t * 4) block)) <$> seq 0 16).

Definition round (s : list Z) (kw : Z * Z) : list Z :=
  match s with
  | [a; b; c; d; e; f; g; h] =>
      let t1 := add32 (add32 (add32 (add32 h (big_sigma1 e)) (ch e f g)) kw.1) kw.2 in
      let t2 := add32 (big_sigma0 a) (maj a b c) in
      [add32 t1 t2; a; b; c; add32 d t1; e; f; g]
  | _ => s
  end.

Definition process_block (block : list byte) (state : list Z) : list Z :=
  zip_with add32 state (foldl round state (combine kRoundConstants (schedule block))).

(** The whole blocks of the input; [fuel] bounds them. *)
Fixpoint blocks_loop (fuel : nat) (data : list byte) (state : list Z) : list byte * list Z :=
  match fuel with
  | O => (data, state)
  | S fuel' =>
      if (kBlockSize <=? length data)%nat then blocks_loop fuel' (drop kBlockSize data) (process_block (take kBlockSize data) state)
      else (data, state)
  end.

Definition sha_update (data : list byte) (h : Sha256) : Sha256 :=
  let total := to_u 64 (sha_total h + Z.of_nat (length data)) in
  let '(state, buffer, data) :=
    match sha_buffer h with
    | [] => (sha_state h, [], data)
    | buffer =>
        let filled := buffer ++ take (kBlockSize - length buffer) data in
        let rest := drop (kBlockSize - length buffer) data in
        if (length filled =? kBlockSize)%nat then (process_block filled (sha_state h), [], rest)
        else (sha_state h, filled, rest)
    end in
  let '(rest, state) := blocks_loop (length data) data state in
  MkSha state (buffer ++ rest) total.

Definition be_bytes (n : nat) (x : Z) : list byte :=
  (fun i => Z.land (Z.shiftr x (8 * Z.of_nat (n - 1 - i))) 0xFF) <$> seq 0 n.

Definition sha_finish (h : Sha256) : list byte :=
  let bit_len := to_u 64 (sha_total h * 8) in
  let buffer := sha_buffer h ++ [0x80] in
  let '(state, buffer) :=
    if (kBlockSize - 8 <? length buffer)%nat
    then (process_block (buffer ++ replicate (kBlockSize - length buffer) 0) (sha_state h), [])
    else (sha_state h, buffer) in
  let buffer := buffer ++ replicate (kBlockSize - 8 - length buffer) 0 ++ be_bytes 8 bit_len in
  concat (be_bytes 4 <$> process_block buffer state).

Definition sha256 (data : list byte) : list byte := sha_finish (sha_update data sha_new).

Definition hmac_sha256 (key message : list byte) : list byte :=
  let key := if (kBlockSize <? length key)%nat then sha256 key else key in
  let block_key := key ++ replicate (kBlockSize - length key) 0 in
  let inner_pad := (fun b => Z.lxor b 0x36) <$> block_key in
  let outer_pad := (fun b => Z.lxor b 0x5c) <$> block_key in
  let inner_digest := sha_finish (sha_update message (sha_update inner_pad sha_new)) in
  sha_finish (sha_update inner_digest (sha_update outer_pad sha_new)).

Definition hex_digit_char (d : Z) : byte := if d <? 10 then 48 + d else 87 + d.

Definition to_hex (data : list byte) : list byte :=
  concat ((fun b => [hex_digit_char (Z.shiftr b 4); hex_digit_char (Z.land b 0x0F)]) <$> data).

(** ** The standard *)

(** The message, a bit 1, zeros, and the length in bits, to a multiple of the block. *)
Definition padded (message : list byte) : list byte :=
  let zeros := Z.to_nat ((55 - Z.of_nat (length message)) mod 64) in
  message ++ [0x80] ++ replicate zeros 0 ++ be_bytes 8 (to_u 64 (8 * Z.of_nat (length message))).

Definition blocks_of (data : list byte) : list (list byte) :=
  (fun i => take kBlockSize (drop (kBlockSize * i) data)) <$> seq 0 (length data / kBlockSize).

Definition absorb (state : list Z) (data : list byte) : list Z := foldl (fun s block => process_block block s) state (blocks_of data).

Definition fips_sha256 (message : list byte) : list byte := concat (be_bytes 4 <$> absorb kInitialState (padded message)).

Definition rfc_hmac (key message : list byte) : list byte :=
  let key := if (kBlockSize <? length key)%nat then fips_sha256 key else key in
  let block_key := key ++ replicate (kBlockSize - length key) 0 in
  let opad := (fun b => Z.lxor b 0x5c) <$> block_key in
  let ipad := (fun b => Z.lxor b 0x36) <$> block_key in
  fips_sha256 (opad ++ fips_sha256 (ipad ++ message)).

(** ** The incremental hash is the standard one *)

Lemma blocks_of_cons block data :
  length block = kBlockSize -> blocks_of (block ++ data) = block :: blocks_of data.
Proof.
  intros Hb. unfold blocks_of. rewrite length_app, Hb.
  replace ((kBlockSize + length data) / kBlockSize)%nat with (S (length data / kBlockSize)).
  2: { replace (kBlockSize + length data)%nat with (1 * kBlockSize + length data)%nat by lia.
       rewrite Nat.div_add_l by done. lia. }
  cbn [seq fmap list_fmap]. rewrite Nat.mul_0_r, drop_0, <- Hb, take_app_length. f_equal.
  rewrite <- fmap_S_seq, <- list_fmap_compose. apply list_fmap_ext. intros i x _. unfold compose.
  replace (length block * S x)%nat with (length block + length block * x)%nat by lia.
  by rewrite <- drop_drop, drop_app_length.
Qed.

Lemma blocks_of_short data : (length data < kBlockSize)%nat -> blocks_of data = [].
Proof. intros H. unfold blocks_of. by rewrite Nat.div_small. Qed.

(** Data of whole blocks. *)
Inductive whole : list byte -> Prop :=
  | whole_nil : whole []
  | whole_cons block data : length block = kBlockSize -> whole data -> whole (block ++ data).

Lemma whole_app a b : whole a -> whole b -> whole (a ++ b).
Proof. induction 1; intros Hb; [done|]. rewrite <- app_assoc. constructor; auto. Qed.

Lemma whole_block block : length block = kBlockSize -> whole block.
Proof. intros Hb. rewrite <- (app_nil_r block). constructor; [done|constructor]. Qed.

Lemma absorb_app state a b : whole a -> absorb state (a ++ b) = absorb (absorb state a) b.
Proof.
  intros Ha. revert state. induction Ha as [|block data Hb _ IH]; intros state; [done|].
  unfold absorb in *. rewrite <- app_assoc, !(blocks_of_cons block) by done. cbn [foldl]. apply IH.
Qed.

Lemma absorb_block state block : length block = kBlockSize -> absorb state block = process_block block state.
Proof. intros Hb. unfold absorb. rewrite <- (app_nil_r block), blocks_of_cons by done. by rewrite app_nil_r. Qed.

Lemma blocks_loop_absorbs fuel data state :
  (length data <= fuel)%nat ->
  exists done rest, blocks_loop fuel data state = (rest, absorb state done) /\ whole done /\ data = done ++ rest /\
    (length rest < kBlockSize)%nat.
Proof.
  revert data state. induction fuel as [|fuel IH]; intros data state Hf; cbn [blocks_loop].
  - exists [], data. destruct data; [|cbn in Hf; lia]. split_and!; [done|constructor|done|cbn; unfold kBlockSize; lia].
  - destruct (Nat.leb_spec kBlockSize (length data)) as [Hl|Hl].
    + assert (Hb : length (take kBlockSize data) = kBlockSize) by (rewrite length_take; lia).
      destruct (IH (drop kBlockSize data) (process_block (take kBlockSize data) state)) as (d & rest & -> & Hw & Hd & Hr);
        [rewrite length_drop; unfold kBlockSize in *; lia|].
      exists (take kBlockSize data ++ d), rest. split_and!; [|by constructor|by rewrite <- app_assoc, <- Hd, take_drop|done].
      rewrite absorb_app, (absorb_block _ _ Hb) by (by apply whole_block). done.
    + exists [], data. split_and!; [done|constructor|done|done].
Qed.

(** What a hasher holds of the message it was fed. *)
Definition hashing (m : list byte) (h : Sha256) : Prop :=
  exists d, whole d /\ m = d ++ sha_buffer h /\ (length (sha_buffer h) < kBlockSize)%nat /\
    sha_state h = absorb kInitialState d /\ sha_total h = to_u 64 (Z.of_nat (length m)).

Lemma hashing_new : hashing [] sha_new.
Proof. exists []. split_and!; try done; [constructor|cbn; unfold kBlockSize; lia]. Qed.

Lemma total_adds a b : to_u 64 (to_u 64 a + b) = to_u 64 (a + b).
Proof. unfold to_u. by rewrite Zplus_mod_idemp_l. Qed.

Lemma hashing_update m data h : hashing m h -> hashing (m ++ data) (sha_update data h).
Proof.
  intros (d & Hd & Hm & Hl & Hs & Ht). unfold sha_update. rewrite Ht, total_adds.
  assert (Htotal : Z.of_nat (length m) + Z.of_nat (length data) = Z.of_nat (length (m ++ data))) by (rewrite length_app; lia).
  rewrite Htotal. clear Ht Htotal. destruct (sha_buffer h) as [|x xs] eqn:Hb.
  - destruct (blocks_loop_absorbs (length data) data (sha_state h)) as (d' & rest & -> & Hw & Hdata & Hr); [done|].
    exists (d ++ d'). cbn [sha_buffer sha_state sha_total app]. rewrite app_nil_r in Hm. subst m.
    split_and!; [by apply whole_app|by rewrite Hdata, app_assoc|done|by rewrite absorb_app, <- Hs|done].
  - set (buffer := x :: xs) in *. set (n := (kBlockSize - length buffer)%nat).
    destruct (Nat.eqb_spec (length (buffer ++ take n data)) kBlockSize) as [Hfull|Hfull].
    + destruct (blocks_loop_absorbs (length (drop n data)) (drop n data) (process_block (buffer ++ take n data) (sha_state h)))
        as (d' & rest & -> & Hw & Hdata & Hr); [done|].
      exists (d ++ (buffer ++ take n data) ++ d'). cbn [sha_buffer sha_state sha_total app].
      split_and!; [apply whole_app; [done|apply whole_app; [by apply whole_block|done]]| |done| |done].
      * rewrite Hm, <- !app_assoc, <- Hdata, take_drop. done.
      * rewrite !absorb_app, (absorb_block _ _ Hfull), <- Hs by (done || by apply whole_block). done.
    + assert (Hn : (length data < n)%nat).
      { unfold n in *. rewrite length_app, length_take in Hfull. unfold kBlockSize in *. lia. }
      rewrite drop_ge, take_ge by lia. cbn [length blocks_loop]. rewrite app_nil_r.
      exists d. cbn [sha_buffer sha_state sha_total]. split_and!; [done|by rewrite Hm, app_assoc| |done|done].
      rewrite length_app. unfold n in Hn. lia.
Qed.

Lemma length_be_bytes n x : length (be_bytes n x) = n.
Proof. unfold be_bytes. by rewrite length_fmap, length_seq. Qed.

Lemma whole_length d : whole d -> Z.of_nat (length d) mod 64 = 0.
Proof.
  induction 1 as [|block data Hb _ IH]; [done|]. rewrite length_app, Hb. unfold kBlockSize.
  replace (Z.of_nat (64 + length data)) with (Z.of_nat (length data) + 1 * 64) by lia. by rewrite Z.mod_add.
Qed.

Lemma hashing_finish m h : hashing m h -> sha_finish h = fips_sha256 m.
Proof.
  intros (d & Hd & Hm & Hl & Hs & Ht). unfold sha_finish, fips_sha256. rewrite Ht.
  assert (Hbits : to_u 64 (to_u 64 (Z.of_nat (length m)) * 8) = to_u 64 (8 * Z.of_nat (length m)))
    by (unfold to_u; rewrite Zmult_mod_idemp_l; f_equal; lia).
  rewrite Hbits. set (bits := be_bytes 8 (to_u 64 (8 * Z.of_nat (length m)))). cbv zeta.
  assert (Hbl : length bits = 8%nat) by apply length_be_bytes.
  pose proof (whole_length d Hd) as Hmod. set (buffer := sha_buffer h) in *. unfold kBlockSize in Hl.
  assert (Hzeros : Z.to_nat ((55 - Z.of_nat (length m)) mod 64)
    = if (55 <? length buffer)%nat then (119 - length buffer)%nat else (55 - length buffer)%nat).
  { rewrite Hm, length_app. replace (55 - Z.of_nat (length d + length buffer)) with (55 - Z.of_nat (length buffer) - Z.of_nat (length d)) by lia.
    rewrite Zminus_mod, Hmod, Z.sub_0_r, Z.mod_mod by lia.
    destruct (Nat.ltb_spec 55 (length buffer)).
    - replace (55 - Z.of_nat (length buffer)) with (119 - Z.of_nat (length buffer) + (-1) * 64) by lia.
      rewrite Z.mod_add, Z.mod_small by lia. lia.
    - rewrite Z.mod_small by lia. lia. }
  unfold padded. fold bits. rewrite Hzeros, Hm, <- (app_assoc d), absorb_app, <- Hs by done.
  rewrite length_app. cbn [length]. unfold kBlockSize at 1.
  destruct (Nat.ltb_spec 55 (length buffer)) as [Hlong|Hshort].
  - destruct (Nat.ltb_spec (64 - 8) (length buffer + 1)); [|lia].
    replace (119 - length buffer)%nat with ((kBlockSize - (length buffer + 1)) + 56)%nat by (unfold kBlockSize; lia).
    rewrite replicate_add. set (z := replicate (kBlockSize - (length buffer + 1)) 0).
    assert (Hb1 : length (buffer ++ [0x80] ++ z) = kBlockSize)
      by (rewrite !length_app; unfold z; rewrite length_replicate; unfold kBlockSize; cbn [length]; lia).
    replace (buffer ++ [128] ++ (z ++ replicate 56 0) ++ bits) with ((buffer ++ [128] ++ z) ++ replicate 56 0 ++ bits) by (by rewrite <- !app_assoc).
    rewrite absorb_app, absorb_block, absorb_block by (done || (by apply whole_block) || (rewrite length_app, Hbl; done)).
    rewrite <- app_assoc. done.
  - destruct (Nat.ltb_spec (64 - 8) (length buffer + 1)); [lia|].
    replace (55 - length buffer)%nat with (kBlockSize - 8 - (length buffer + 1))%nat by (unfold kBlockSize; lia).
    rewrite absorb_block; [by rewrite length_app, <- app_assoc|].
    rewrite !length_app, length_replicate, Hbl. unfold kBlockSize. cbn [length]. lia.
Qed.

(** The incremental hash is SHA-256: whatever pieces a message is fed in, the digest is the one the
    standard defines on the whole message, padded and absorbed block by block; and the keyed hash is
    HMAC over it, for keys of any length. *)
Theorem sha256_incremental_exact (pieces : list (list byte)) (key message : list byte) :
  sha_finish (foldl (fun h piece => sha_update piece h) sha_new pieces) = fips_sha256 (concat pieces) /\
  hmac_sha256 key message = rfc_hmac key message.
Proof.
  assert (Hfeed : forall pieces m h, hashing m h -> hashing (m ++ concat pieces) (foldl (fun h piece => sha_update piece h) h pieces)).
  { clear. induction pieces as [|p pieces IH]; intros m h Hh; cbn [foldl concat]; [by rewrite app_nil_r|].
    rewrite app_assoc. by apply IH, hashing_update. }
  assert (Honce : forall data, sha256 data = fips_sha256 data)
    by (intros data; apply (hashing_finish data), (hashing_update []), hashing_new).
  split; [apply hashing_finish, (Hfeed pieces []), hashing_new|].
  assert (Htwice : forall a b, sha_finish (sha_update b (sha_update a sha_new)) = fips_sha256 (a ++ b))
    by (intros a b; apply hashing_finish, hashing_update, (hashing_update []), hashing_new).
  unfold hmac_sha256, rfc_hmac. by rewrite Honce, !Htwice.
Qed.

(** Known digests. *)
Lemma sha256_abc : string_of_bytes (to_hex (sha256 (bytes_of_string "abc")))
  = "ba7816bf8f01cfea414140de5dae2223b00361a396177a9cb410ff61f20015ad"%string.
Proof. vm_compute. reflexivity. Qed.

Lemma hmac_fox : string_of_bytes (to_hex (hmac_sha256 (bytes_of_string "key") (bytes_of_string "The quick brown fox jumps over the lazy dog")))
  = "f7bc83f430538424b13298e6aa6fb143ef4d59a14946175997479dbc2d1a3cd8"%string.
Proof. vm_compute. reflexivity. Qed.
