(* ===== verification/RequestRouter.v ===== *)
(** * The request router

    Models [RequestRouter] of [src/src/broker/request_router.cpp]: each operation's handler over the
    topics, groups and offsets, and [dispatch], which decodes a request, runs its handler on the core
    that owns the partition or the group ([src/src/reactor/partition_router.hpp]) and encodes the response.  A call on another core is run where it is
    made: the router suspends until its answer arrives. *)
From Stdlib Require Import ZArith Lia.
From stdpp Require Import base list gmap strings.
From S2P Require Import Prelude Bytes Record Codec Frame Messages RaftState Partition RecordCodec.
From S2P Require Import Hashes ConsumerGroup GroupCoordinator PartitionLog Topics.
#[local] Open Scope Z_scope.

Definition kDefaultFetchBytes : nat := Z.to_nat (1 * 1024 * 1024).

(** [count_batch_records]: each header read moves past its batch. *)
Fixpoint count_loop (fuel : nat) (blob : list byte) (total : Z) : Z :=
  match fuel, blob with
  | O, _ | _, [] => total
  | S fuel', _ =>
      match batch_peek blob with
      | Err _ => total
      | Ok view =>
          if (view_encoded_size view =? 0)%nat then total
          else count_loop fuel' (subspan (view_encoded_size view) blob)
                 (to_u 64 (total + to_u 64 (view_record_count view)))
      end
  end.

Definition count_batch_records (blob : list byte) : Z := count_loop (length blob) blob 0.

(** ** Handlers *)

Section Handlers.
Context {Q : Type} {PB : PartitionBase Q}.

Definition find_partition (topic : string) (partition : Z) (topics : TopicManager Q) : option Q :=
  match find_topic topic topics with None => None | Some t => t_partitions t !! partition end.

(** The partition object is shared with its topic: what a call makes of it is stored back. *)
Definition store_partition (topic : string) (partition : Z) (q : Q) (topics : TopicManager Q) : TopicManager Q :=
  set_topics (alter (add_partition partition q) topic (tmg_topics topics)) (tmg_replicas topics) topics.

Definition produce_error (e : WireError) : ProduceResponse := MkProduceResponse (-1) e 0.

Definition handle_produce (req : ProduceRequest) (topics : TopicManager Q) : ProduceResponse * TopicManager Q :=
  match find_partition (pq_topic req) (pq_partition req) topics with
  | None => (produce_error UnknownTopicOrPartition, topics)
  | Some part =>
      match batch_decode (pq_batch req) with
      | Err e => (produce_error (from_error e), topics)
      | Ok batch =>
          let '(claimed, part) := pb_claim ProtocolNative part in
          let topics := store_partition (pq_topic req) (pq_partition req) part topics in
          match claimed with
          | Err e => (produce_error (from_error e), topics)
          | Ok _ =>
              let '(last, part) := pb_produce batch part in
              let topics := store_partition (pq_topic req) (pq_partition req) part topics in
              match last with
              | Err e => (produce_error (from_error e), topics)
              | Ok last => (MkProduceResponse (last - h_record_count (b_header batch) + 1) NoError 0, topics)
              end
          end
      end
  end.

(** [FetchOutcome], as the response it becomes. *)
Definition fetch_error (e : WireError) : FetchResponse := MkFetchResponse [] 0 0 e.

Definition handle_fetch (req : FetchRequest) (topics : TopicManager Q) : FetchResponse :=
  match find_partition (fq_topic req) (fq_partition req) topics with
  | None => fetch_error UnknownTopicOrPartition
  | Some part =>
      if negb (bool_decide (pb_protocol part = ProtocolUnset)) && negb (bool_decide (pb_protocol part = ProtocolNative))
      then fetch_error InvalidRequest
      else
        let max_bytes := if 0 <? fq_max_bytes req then Z.to_nat (fq_max_bytes req) else kDefaultFetchBytes in
        match pb_fetch (fq_fetch_offset req) max_bytes part with
        | Err e => fetch_error (from_error e)
        | Ok batches => MkFetchResponse batches (pb_high_watermark part) (pb_log_start part) NoError
        end
  end.

Definition handle_offset_commit (req : OffsetCommitRequest) (offsets : OffsetManager) :
    OffsetCommitResponse * OffsetManager :=
  (MkOffsetCommitResponse NoError,
   offset_commit (ocq_group req) (ocq_topic req) (ocq_partition req) (ocq_offset req) (ocq_metadata req) offsets).

Definition handle_offset_fetch (req : OffsetFetchRequest) (offsets : OffsetManager) : OffsetFetchResponse :=
  match offset_fetch (ofq_group req) (ofq_topic req) (ofq_partition req) offsets with
  | Ok offset => MkOffsetFetchResponse offset NoError
  | Err _ => MkOffsetFetchResponse (-1) NoError
  end.

Definition join_error (e : WireError) : JoinGroupResponse := MkJoinGroupResponse e 0 "" "" false [].

Definition handle_join_group (now : Z) (req : JoinGroupRequest) (groups : GroupCoordinator) :
    JoinGroupResponse * GroupCoordinator :=
  let '(result, groups) :=
    coordinator_join now (jgq_group req) (jgq_member_id req) (jgq_subscription req) (jgq_session_timeout_ms req) groups in
  (match result with
   | Err e => join_error (from_error e)
   | Ok r => MkJoinGroupResponse NoError (j_generation r) (j_member_id r) (j_leader_id r) (j_is_leader r)
               ((fun m => MkGroupMember (mi_id m) (mi_subscription m)) <$> j_members r)
   end, groups).

Definition handle_sync_group (now : Z) (req : SyncGroupRequest) (groups : GroupCoordinator) :
    SyncGroupResponse * GroupCoordinator :=
  let assignments := (fun a => MkAssignment (ga_member_id a) (ga_assignment a)) <$> sgq_assignments req in
  let '(result, groups) :=
    coordinator_sync now (sgq_group req) (sgq_member_id req) (sgq_generation req) assignments groups in
  (match result with
   | Err e => MkSyncGroupResponse (from_error e) []
   | Ok r => if negb (s_assigned r) then MkSyncGroupResponse RebalanceInProgress []
             else MkSyncGroupResponse NoError (s_assignment r)
   end, groups).

Definition handle_heartbeat (now : Z) (req : HeartbeatRequest) (groups : GroupCoordinator) :
    HeartbeatResponse * GroupCoordinator :=
  let '(status, groups) :=
    coordinator_heartbeat now (hbq_group req) (hbq_member_id req) (hbq_generation req) groups in
  (MkHeartbeatResponse
     match status with
     | Err e => from_error e
     | Ok HbRebalanceInProgress => RebalanceInProgress
     | Ok HbOk => NoError
     end, groups).

Definition handle_leave_group (req : LeaveGroupRequest) (groups : GroupCoordinator) :
    LeaveGroupResponse * GroupCoordinator :=
  let '(removed, groups) := coordinator_leave (lgq_group req) (lgq_member_id req) groups in
  (MkLeaveGroupResponse match removed with Err e => from_error e | Ok _ => NoError end, groups).

Context (hash_order : gmap string (Topic Q) -> list (string * Topic Q)).

(** The topics asked for, in the order asked; all of them when none is named. *)
Definition handle_metadata (node_id : Z) (host : string) (port : Z) (req : MetadataRequest) (topics : TopicManager Q) :
    MetadataResponse :=
  let all := describe hash_order node_id topics in
  MkMetadataResponse [MkBrokerMeta node_id host port]
    match mq_topics req with
    | [] => all
    | wanted =>
        (fun name => default (MkTopicMeta name UnknownTopicOrPartition [])
                       (List.find (fun meta => String.eqb (tm_name meta) name) all)) <$> wanted
    end.
End Handlers.

(** ** The router *)

Section Router.
Context {Q : Type} {PB : PartitionBase Q}.
Context (open_partition : TopicMetadata -> Z -> expected Q) (remove_all : string -> Z -> option string).
Context (hash_order : gmap string (Topic Q) -> list (string * Topic Q)).

(** The counters of one operation. *)
Record DataPlaneMetrics := MkMetrics { dm_requests : Z; dm_errors : Z; dm_bytes : Z; dm_messages : Z }.

Definition record_request (error : WireError) (bytes records : Z) (series : DataPlaneMetrics) : DataPlaneMetrics :=
  MkMetrics (to_u 64 (dm_requests series + 1))
    (if bool_decide (error = NoError) then dm_errors series else to_u 64 (dm_errors series + 1))
    (to_u 64 (dm_bytes series + bytes)) (to_u 64 (dm_messages series + records)).

(** The router of a connection's core with what it reaches: the state of every core once it is wired
    ([bind_cluster]), of its own core before; the metrics when there is a registry. *)
Record Broker := MkBroker {
  br_wired : bool;
  br_self : nat;
  br_topics : list (TopicManager Q);
  br_groups : list GroupCoordinator;
  br_offsets : list OffsetManager;
  br_node_id : Z;
  br_host : string;
  br_port : Z;
  br_produce_metrics : option DataPlaneMetrics;
  br_fetch_metrics : option DataPlaneMetrics;
}.

Definition br_set_topics (topics : list (TopicManager Q)) (b : Broker) : Broker :=
  MkBroker (br_wired b) (br_self b) topics (br_groups b) (br_offsets b) (br_node_id b) (br_host b) (br_port b)
    (br_produce_metrics b) (br_fetch_metrics b).
Definition br_set_groups (groups : list GroupCoordinator) (b : Broker) : Broker :=
  MkBroker (br_wired b) (br_self b) (br_topics b) groups (br_offsets b) (br_node_id b) (br_host b) (br_port b)
    (br_produce_metrics b) (br_fetch_metrics b).
Definition br_set_offsets (offsets : list OffsetManager) (b : Broker) : Broker :=
  MkBroker (br_wired b) (br_self b) (br_topics b) (br_groups b) offsets (br_node_id b) (br_host b) (br_port b)
    (br_produce_metrics b) (br_fetch_metrics b).
Definition br_count_produce (f : DataPlaneMetrics -> DataPlaneMetrics) (b : Broker) : Broker :=
  MkBroker (br_wired b) (br_self b) (br_topics b) (br_groups b) (br_offsets b) (br_node_id b) (br_host b) (br_port b)
    (f <$> br_produce_metrics b) (br_fetch_metrics b).
Definition br_count_fetch (f : DataPlaneMetrics -> DataPlaneMetrics) (b : Broker) : Broker :=
  MkBroker (br_wired b) (br_self b) (br_topics b) (br_groups b) (br_offsets b) (br_node_id b) (br_host b) (br_port b)
    (br_produce_metrics b) (f <$> br_fetch_metrics b).

(** [PartitionRouter::owner_core], and the coordinating core of a group. *)
Definition partition_core (partition : Z) (b : Broker) : nat :=
  if br_wired b then Z.to_nat (owner_of (Z.of_nat (length (br_topics b))) partition) else br_self b.
Definition group_core (group : string) (b : Broker) : nat :=
  if br_wired b then Z.to_nat (fnv1a_64 group mod Z.of_nat (length (br_topics b))) else br_self b.

(** Running a function on the state of a core; every core has its own. *)
Definition on_core {A R : Type} (core : nat) (none : R) (fn : A -> R * A) (shards : list A) : R * list A :=
  match shards !! core with
  | None => (none, shards)
  | Some shard => let '(r, shard) := fn shard in (r, <[core := shard]> shards)
  end.

Definition supported_versions : list ApiVersionRange :=
  (fun k => MkRange k 0 0) <$>
    [ApiVersions; Metadata; Produce; Fetch; CreateTopic; DeleteTopic; OffsetCommit; OffsetFetch;
     JoinGroup; SyncGroup; Heartbeat; LeaveGroup].

Definition create_topic_cluster (name : string) (partition_count : Z) (now_ms : nat -> Z) (b : Broker) : expected unit * Broker :=
  let '(r, topics) :=
    if br_wired b
    then create_topic_on_cluster open_partition remove_all name partition_count default_topic_config now_ms (br_topics b)
    else on_core (br_self b) (make_error NotFound "")
           (create_topic open_partition name partition_count default_topic_config 1 (now_ms (br_self b))) (br_topics b) in
  (match r with Err e => Err e | Ok _ => Ok tt end, br_set_topics topics b).

Definition delete_topic_cluster (name : string) (b : Broker) : expected unit * Broker :=
  let '(r, topics) :=
    if br_wired b then delete_topic_on_cluster remove_all name (br_topics b)
    else on_core (br_self b) (make_error NotFound "") (delete_topic remove_all name) (br_topics b) in
  (r, br_set_topics topics b).

(** ** Dispatch: the handlers' answers to decoded requests *)

Definition answer_metadata (req : MetadataRequest) (b : Broker) : MetadataResponse :=
  match br_topics b !! br_self b with
  | Some topics => handle_metadata hash_order (br_node_id b) (br_host b) (br_port b) req topics
  | None => MkMetadataResponse [] []
  end.

Definition answer_produce (req : ProduceRequest) (b : Broker) : ProduceResponse * Broker :=
  let '(resp, topics) :=
    on_core (partition_core (pq_partition req) b) (MkProduceResponse (-1) NoError 0) (handle_produce req) (br_topics b) in
  (resp, br_set_topics topics b
           |> br_count_produce (record_request (pr_error_code resp) (Z.of_nat (length (pq_batch req)))
                (count_batch_records (pq_batch req)))).

Definition answer_fetch (req : FetchRequest) (b : Broker) : FetchResponse * Broker :=
  let '(resp, _) :=
    on_core (partition_core (fq_partition req) b) (MkFetchResponse [] 0 0 NoError)
      (fun topics => (handle_fetch req topics, topics)) (br_topics b) in
  (resp, b |> br_count_fetch (record_request (fsr_error_code resp) (Z.of_nat (length (fsr_batches resp)))
                (count_batch_records (fsr_batches resp)))).

Definition answer_create_topic (now_ms : nat -> Z) (req : CreateTopicRequest) (b : Broker) : CreateTopicResponse * Broker :=
  let '(r, b) := create_topic_cluster (ctq_name req) (ctq_partition_count req) now_ms b in
  (MkCreateTopicResponse match r with Err e => from_error e | Ok _ => NoError end, b).

Definition answer_delete_topic (req : DeleteTopicRequest) (b : Broker) : DeleteTopicResponse * Broker :=
  let '(r, b) := delete_topic_cluster (dtq_name req) b in
  (MkDeleteTopicResponse match r with Err e => from_error e | Ok _ => NoError end, b).

(** [on_group_owner], on the offsets and on the groups. *)
Definition on_offsets {R} (group : string) (none : R) (fn : OffsetManager -> R * OffsetManager) (b : Broker) : R * Broker :=
  let '(r, offsets) := on_core (group_core group b) none fn (br_offsets b) in (r, br_set_offsets offsets b).
Definition on_groups {R} (group : string) (none : R) (fn : GroupCoordinator -> R * GroupCoordinator) (b : Broker) : R * Broker :=
  let '(r, groups) := on_core (group_core group b) none fn (br_groups b) in (r, br_set_groups groups b).

Definition answer_offset_commit (req : OffsetCommitRequest) : Broker -> OffsetCommitResponse * Broker :=
  on_offsets (ocq_group req) (MkOffsetCommitResponse NoError) (handle_offset_commit req).
Definition answer_offset_fetch (req : OffsetFetchRequest) : Broker -> OffsetFetchResponse * Broker :=
  on_offsets (ofq_group req) (MkOffsetFetchResponse (-1) NoError) (fun o => (handle_offset_fetch req o, o)).
Definition answer_join_group (now : Z) (req : JoinGroupRequest) : Broker -> JoinGroupResponse * Broker :=
  on_groups (jgq_group req) (join_error NoError) (handle_join_group now req).
Definition answer_sync_group (now : Z) (req : SyncGroupRequest) : Broker -> SyncGroupResponse * Broker :=
  on_groups (sgq_group req) (MkSyncGroupResponse NoError []) (handle_sync_group now req).
Definition answer_heartbeat (now : Z) (req : HeartbeatRequest) : Broker -> HeartbeatResponse * Broker :=
  on_groups (hbq_group req) (MkHeartbeatResponse NoError) (handle_heartbeat now req).
Definition answer_leave_group (req : LeaveGroupRequest) : Broker -> LeaveGroupResponse * Broker :=
  on_groups (lgq_group req) (MkLeaveGroupResponse NoError) (handle_leave_group req).

(** A request that does not decode is answered without a handler. *)
Definition decode_and_answer {A R} `{!WireType A} (malformed : Broker -> R * Broker) (answer : A -> Broker -> R * Broker)
    (body : list byte) (b : Broker) : R * Broker :=
  match wire_decode (MkDecoder body 0) with
  | (Err _, _) => malformed b
  | (Ok req, _) => answer req b
  end.

Definition encoded {R} `{!WireType R} (rb : R * Broker) : expected (list byte) * Broker := (Ok (wire_encode rb.1 []), rb.2).

(** [dispatch], with the clocks read while it runs. *)
Definition dispatch (now : Z) (now_ms : nat -> Z) (key : ApiKey) (body : list byte) (b : Broker) : expected (list byte) * Broker :=
  match key with
  | ApiVersions => encoded (MkApiVersionsResponse supported_versions, b)
  | Metadata =>
      encoded (decode_and_answer (fun b => (MkMetadataResponse [] [], b)) (fun req b => (answer_metadata req b, b)) body b)
  | Produce =>
      encoded (decode_and_answer
        (fun b => (produce_error InvalidRequest, b |> br_count_produce (record_request InvalidRequest 0 0)))
        answer_produce body b)
  | Fetch =>
      encoded (decode_and_answer
        (fun b => (fetch_error InvalidRequest, b |> br_count_fetch (record_request InvalidRequest 0 0)))
        answer_fetch body b)
  | CreateTopic => encoded (decode_and_answer (fun b => (MkCreateTopicResponse InvalidRequest, b)) (answer_create_topic now_ms) body b)
  | DeleteTopic => encoded (decode_and_answer (fun b => (MkDeleteTopicResponse InvalidRequest, b)) answer_delete_topic body b)
  | OffsetCommit => encoded (decode_and_answer (fun b => (MkOffsetCommitResponse InvalidRequest, b)) answer_offset_commit body b)
  | OffsetFetch => encoded (decode_and_answer (fun b => (MkOffsetFetchResponse (-1) InvalidRequest, b)) answer_offset_fetch body b)
  | JoinGroup => encoded (decode_and_answer (fun b => (join_error InvalidRequest, b)) (answer_join_group now) body b)
  | SyncGroup => encoded (decode_and_answer (fun b => (MkSyncGroupResponse InvalidRequest [], b)) (answer_sync_group now) body b)
  | Heartbeat => encoded (decode_and_answer (fun b => (MkHeartbeatResponse InvalidRequest, b)) (answer_heartbeat now) body b)
  | LeaveGroup => encoded (decode_and_answer (fun b => (MkLeaveGroupResponse InvalidRequest, b)) answer_leave_group body b)
  end.
End Router.
Arguments Broker Q : clear implicits.
