(* ===== verification/RouterSafety.v ===== *)
(** * Correctness of the request router

    A broker whose partitions, groups and offsets are spread over its cores answers every request
    as a broker with one core would: the spread is a refinement.  Then two answers that differ from
    what the documentation promises. *)
From Stdlib Require Import ZArith Lia.
From stdpp Require Import base list gmap sets strings.
From S2P Require Import Hashes Prelude Bytes Record Codec File Frame Messages RaftState RaftLogSpec RaftNode RaftRpc.
From S2P Require Import RaftLog RaftLogRecovery RecordCodec ConsumerGroup GroupCoordinator Partition.
From S2P Require Import PartitionLog Topics TopicsSafety RequestRouter.
#[local] Open Scope Z_scope.

(** ** Operations on one key of a sharded map *)

Section Shards.
Context {K V : Type} `{Countable K} (core : K -> nat).

(** [fn] reads and writes the key [k] only. *)
Definition local_at {R} (k : K) (fn : gmap K V -> R * gmap K V) : Prop :=
  forall m m', m !! k = m' !! k ->
    (fn m).1 = (fn m').1 /\ (fn m).2 !! k = (fn m').2 !! k /\ forall k', k' <> k -> (fn m).2 !! k' = m !! k'.

(** The shards hold, each at its keys, what the whole map holds. *)
Definition shards_of (shards : list (gmap K V)) (whole : gmap K V) : Prop :=
  forall k, exists shard, shards !! core k = Some shard /\ shard !! k = whole !! k.

Lemma on_core_local {R} (none : R) fn shards whole k :
  shards_of shards whole -> local_at k fn ->
  (on_core (core k) none fn shards).1 = (fn whole).1 /\
  shards_of (on_core (core k) none fn shards).2 (fn whole).2 /\
  length (on_core (core k) none fn shards).2 = length shards.
Proof.
  intros Hs Hf. destruct (Hs k) as (shard & Hk & He). unfold on_core. rewrite Hk.
  destruct (Hf shard whole He) as (Hr & Hv & Ho). destruct (Hf whole whole eq_refl) as (_ & _ & Ho').
  destruct (fn shard) as [r shard'] eqn:Hfs. cbn in *. split; [done|]. split; [|apply length_insert].
  intros k'. destruct (decide (core k' = core k)) as [Hc|Hc].
  - rewrite Hc, list_lookup_insert_eq by (by apply lookup_lt_Some in Hk). exists shard'. split; [done|].
    destruct (decide (k' = k)) as [->|Hne]; [done|]. rewrite Ho, Ho' by done.
    destruct (Hs k') as (shard2 & Hk2 & He2). rewrite Hc in Hk2. congruence.
  - rewrite list_lookup_insert_ne by done. destruct (Hs k') as (shard2 & Hk2 & He2). exists shard2. split; [done|].
    rewrite He2. symmetry. apply Ho'. congruence.
Qed.
End Shards.

(** A call on the coordinator touches the group it names only: the group's own operation gives the
    same answer and the same group on both sides. *)
Ltac stored_group :=
  cbn; rewrite !lookup_insert_eq; split_and!; try done;
  let k' := fresh "k'" in let Hk := fresh "Hk" in intros k' Hk; by rewrite lookup_insert_ne.

Lemma join_local now req : local_at (jgq_group req) (handle_join_group now req).
Proof.
  intros m m' Hm. unfold handle_join_group, coordinator_join. rewrite Hm.
  destruct (join _ _ _ _ _). stored_group.
Qed.

Lemma sync_local now req : local_at (sgq_group req) (handle_sync_group now req).
Proof.
  intros m m' Hm. unfold handle_sync_group, coordinator_sync. rewrite Hm.
  destruct (m' !! sgq_group req) as [g|] eqn:Hg; [|cbn; by rewrite Hm, Hg].
  destruct (sync _ _ _ _ g). stored_group.
Qed.

Lemma heartbeat_local now req : local_at (hbq_group req) (handle_heartbeat now req).
Proof.
  intros m m' Hm. unfold handle_heartbeat, coordinator_heartbeat. rewrite Hm.
  destruct (m' !! hbq_group req) as [g|] eqn:Hg; [|cbn; by rewrite Hm, Hg].
  destruct (heartbeat _ _ _ g). stored_group.
Qed.

Lemma leave_local req : local_at (lgq_group req) (handle_leave_group req).
Proof.
  intros m m' Hm. unfold handle_leave_group, coordinator_leave. rewrite Hm.
  destruct (m' !! lgq_group req) as [g|] eqn:Hg; [|cbn; by rewrite Hm, Hg].
  destruct (leave _ g). stored_group.
Qed.

Lemma commit_local req :
  local_at (MkOffsetKey (ocq_group req) (ocq_topic req) (ocq_partition req)) (handle_offset_commit req).
Proof.
  intros m m' Hm. unfold handle_offset_commit, offset_commit. cbn. rewrite !lookup_insert_eq. split_and!; try done.
  intros k' Hk. by rewrite lookup_insert_ne.
Qed.

Lemma fetch_local req :
  local_at (MkOffsetKey (ofq_group req) (ofq_topic req) (ofq_partition req)) (fun o => (handle_offset_fetch req o, o)).
Proof. intros m m' Hm. cbn. unfold handle_offset_fetch, offset_fetch. by rewrite Hm. Qed.

(** A request as it reaches the router, with the clocks read for it. *)
(** A request: what the steady clock and the clock of each core read, the operation and its body. *)
Abbreviation RouterCall := (Z * (nat -> Z) * ApiKey * list byte)%type (only parsing).

(** ** The topics *)

Section Sharding.
Context {Q : Type} {PB : PartitionBase Q}.

(** The metadata of a topic but for the time of its creation, which each core takes from its clock. *)
Definition untimed (m : TopicMetadata) : TopicMetadata :=
  MkTopicMetadata (td_name m) (td_partition_count m) (td_replication_factor m) (td_config m) 0.

(** A core's manager next to the manager of a broker with one core: the same topics with the same
    metadata, and the same partitions as far as the core owns them. *)
Record core_shows (n i : Z) (tm whole : TopicManager Q) : Prop := {
  cs_cores : tmg_num_cores tm = n;
  cs_owner : tmg_owner_core tm = i;
  cs_meta : untimed ∘ t_meta <$> tmg_topics tm = untimed ∘ t_meta <$> tmg_topics whole;
  cs_parts : forall name t t', tmg_topics tm !! name = Some t -> tmg_topics whole !! name = Some t' ->
    forall pid, owner_of n pid = i -> t_partitions t !! pid = t_partitions t' !! pid;
}.

Lemma shows_lookup n i tm whole name :
  core_shows n i tm whole ->
  match tmg_topics tm !! name, tmg_topics whole !! name with
  | None, None => True
  | Some t, Some t' => untimed (t_meta t) = untimed (t_meta t')
  | _, _ => False
  end.
Proof.
  intros [_ _ Hm _]. apply (f_equal (fun m => m !! name)) in Hm. rewrite !lookup_fmap in Hm.
  destruct (tmg_topics tm !! name), (tmg_topics whole !! name); cbn in Hm; first [done|congruence].
Qed.

Lemma find_shows n i tm whole topic pid :
  core_shows n i tm whole -> owner_of n pid = i -> find_partition topic pid tm = find_partition topic pid whole.
Proof.
  intros Hs Ho. pose proof (shows_lookup _ _ _ _ topic Hs) as Hl. unfold find_partition, find_topic.
  destruct (tmg_topics tm !! topic) as [t|] eqn:Ht, (tmg_topics whole !! topic) as [t'|] eqn:Ht'; try done.
  by apply (cs_parts _ _ _ _ Hs topic).
Qed.

Lemma store_topic topic pid q (tm : TopicManager Q) name :
  tmg_topics (store_partition topic pid q tm) !! name
  = if decide (topic = name) then add_partition pid q <$> tmg_topics tm !! name else tmg_topics tm !! name.
Proof. cbn. destruct (decide (topic = name)) as [->|]; [apply lookup_alter_eq|by apply lookup_alter_ne]. Qed.

Lemma store_meta topic pid q (tm : TopicManager Q) :
  untimed ∘ t_meta <$> tmg_topics (store_partition topic pid q tm) = untimed ∘ t_meta <$> tmg_topics tm.
Proof.
  apply map_eq. intros name. rewrite !lookup_fmap, store_topic. case_decide; [|done].
  by destruct (tmg_topics tm !! name).
Qed.

(** Storing a partition on its core and in the whole, and in the whole alone for the other cores. *)
Lemma store_shows n i tm whole topic pid q :
  core_shows n i tm whole -> core_shows n i (store_partition topic pid q tm) (store_partition topic pid q whole).
Proof.
  intros [Hn Ho Hm Hp]. split; [done|done|by rewrite !store_meta|].
  intros name t t'. rewrite !store_topic. case_decide as Hd.
  - intros (t0 & Ht & ->)%fmap_Some (t0' & Ht' & ->)%fmap_Some p Hpi. cbn.
    destruct (decide (p = pid)) as [->|Hne]; [by rewrite !lookup_insert_eq|].
    rewrite !lookup_insert_ne by done. by eapply Hp.
  - apply Hp.
Qed.

Lemma store_shows_other n i tm whole topic pid q :
  core_shows n i tm whole -> owner_of n pid <> i -> core_shows n i tm (store_partition topic pid q whole).
Proof.
  intros [Hn Ho Hm Hp] Hne. split; [done|done|by rewrite store_meta|].
  intros name t t' Ht. rewrite store_topic. case_decide as Hd; [|by apply Hp].
  intros (t0' & Ht' & ->)%fmap_Some p Hpi. cbn. rewrite lookup_insert_ne by congruence. by eapply Hp.
Qed.

Lemma store_twice topic pid q q' (tm : TopicManager Q) :
  store_partition topic pid q (store_partition topic pid q' tm) = store_partition topic pid q tm.
Proof.
  unfold store_partition, set_topics. cbn. f_equal. apply map_eq. intros name.
  destruct (decide (topic = name)) as [->|]; [|by rewrite !lookup_alter_ne].
  rewrite !lookup_alter_eq. destruct (tmg_topics tm !! name) as [t|]; [|done]. cbn. unfold add_partition. cbn.
  by rewrite insert_insert_eq.
Qed.

Lemma store_inv topic pid q (tm : TopicManager Q) :
  manager_inv tm -> is_Some (find_partition topic pid tm) -> manager_inv (store_partition topic pid q tm).
Proof.
  intros [Ht Hc] [q0 Hq]. unfold find_partition, find_topic in Hq.
  destruct (tmg_topics tm !! topic) as [t0|] eqn:Ht0; [|done]. split.
  - intros name t. rewrite store_topic. case_decide as Hd; [subst name|by intros H; destruct (Ht _ _ H); split].
    rewrite Ht0. intros [= <-]. destruct (Ht _ _ Ht0) as [H1 H2 H3 H4]. split; try done. cbn.
    intros p. destruct (decide (p = pid)) as [->|Hne]; [rewrite lookup_insert_eq|by rewrite lookup_insert_ne].
    rewrite <- (H4 pid), Hq. split; eauto.
  - intros r Hr. rewrite store_topic. case_decide; [|by apply Hc]. rewrite fmap_is_Some. by apply Hc.
Qed.

(** A production answers the partition's state, and stores the partition it makes. *)
Lemma produce_same req (tm tm' : TopicManager Q) :
  find_partition (pq_topic req) (pq_partition req) tm = find_partition (pq_topic req) (pq_partition req) tm' ->
  (handle_produce req tm).1 = (handle_produce req tm').1 /\
  (((handle_produce req tm).2 = tm /\ (handle_produce req tm').2 = tm') \/
   exists q, is_Some (find_partition (pq_topic req) (pq_partition req) tm) /\
     (handle_produce req tm).2 = store_partition (pq_topic req) (pq_partition req) q tm /\
     (handle_produce req tm').2 = store_partition (pq_topic req) (pq_partition req) q tm').
Proof.
  intros Hf. unfold handle_produce. rewrite Hf. destruct (find_partition _ _ tm') as [q|] eqn:Hq; [|by auto].
  destruct (batch_decode (pq_batch req)) as [batch|e]; [|by auto].
  destruct (pb_claim ProtocolNative q) as [[u|e] q1].
  2: { cbn. split; [done|]. right. exists q1. eauto. }
  destruct (pb_produce batch q1) as [[last|e] q2]; cbn; rewrite !store_twice; (split; [done|]); right; exists q2; eauto.
Qed.

(** What the environment answers: every partition opens, to what does not depend on the time its topic
    was created, and every directory is removed. *)
Context (open_partition : TopicMetadata -> Z -> expected Q) (remove_all : string -> Z -> option string).
Context (opened : TopicMetadata -> Z -> Q) (Hopen : forall meta pid, open_partition meta pid = Ok (opened (untimed meta) pid)).
Context (Hremove : forall name pid, remove_all name pid = None).
(** The order of a hash table depends on its keys and not on what the topics hold. *)
Context (hash_order : gmap string (Topic Q) -> list (string * Topic Q)).
Definition bare (t : Topic Q) : Topic Q := MkTopic (untimed (t_meta t)) ∅.
Context (Horder : forall m, prod_map id bare <$> hash_order m = hash_order (bare <$> m)).

(** The manager that owns every partition. *)
Definition owns_all (tm : TopicManager Q) : Prop := tmg_num_cores tm = 1 /\ tmg_owner_core tm = 0.

Lemma owns_all_true tm pid : owns_all tm -> owns_partition pid tm = true.
Proof. intros [Hn Ho]. unfold owns_partition, owner_of. by rewrite Hn, Ho, Z.mod_1_r. Qed.

Lemma open_partitions_all tm meta pids t replicas :
  exists t' replicas', open_partitions open_partition tm meta pids t replicas = Ok (t', replicas') /\
    t_meta t' = t_meta t /\
    forall pid, t_partitions t' !! pid
      = if decide (pid ∈ pids /\ owns_partition pid tm = true) then Some (opened (untimed meta) pid) else t_partitions t !! pid.
Proof.
  revert t replicas. induction pids as [|p pids IH]; intros t replicas; cbn [open_partitions].
  - exists t, replicas. split_and!; [done|done|]. intros pid. rewrite decide_False; [done|]. by intros [?%elem_of_nil _].
  - destruct (owns_partition p tm) eqn:Hown; cbn [negb].
    + rewrite Hopen. cbn [expected_bind]. set (replicas1 := if _ <? _ then _ else _).
      destruct (IH (add_partition p (opened (untimed meta) p) t) replicas1) as (t' & r' & -> & Hm & Hp).
      exists t', r'. split_and!; [done|done|]. intros pid. rewrite Hp. cbn.
      destruct (decide (pid = p)) as [->|Hne].
      * rewrite lookup_insert_eq, (decide_True (P := p ∈ p :: pids /\ _)) by (split; [set_solver|done]). by destruct (decide _).
      * rewrite lookup_insert_ne by done. destruct (decide (pid ∈ pids /\ _)) as [[H1 H2]|Hn].
        -- rewrite decide_True by (split; [set_solver|done]). done.
        -- rewrite decide_False; [done|]. intros [[->|H]%elem_of_cons ?]; [done|]. by apply Hn.
    + destruct (IH t replicas) as (t' & r' & -> & Hm & Hp). exists t', r'. split_and!; [done|done|].
      intros pid. rewrite Hp. destruct (decide (pid ∈ pids /\ _)) as [[H1 H2]|Hn].
      * rewrite decide_True by (split; [set_solver|done]). done.
      * rewrite decide_False; [done|]. intros [[->|H]%elem_of_cons ?]; [congruence|]. by apply Hn.
Qed.

(** The answers of the creation on a core and in the whole, each at its time. *)
Definition same_answer (r r' : expected TopicMetadata) : Prop :=
  match r, r' with Ok m, Ok m' => untimed m = untimed m' | Err e, Err e' => e = e' | _, _ => False end.

Lemma create_shows n i tm whole name count config now now' :
  core_shows n i tm whole -> owns_all whole ->
  let c := create_topic open_partition name count config 1 now tm in
  let c' := create_topic open_partition name count config 1 now' whole in
  same_answer c.1 c'.1 /\ core_shows n i c.2 c'.2 /\ owns_all c'.2.
Proof.
  intros Hs Hw. cbv zeta. pose proof (shows_lookup _ _ _ _ name Hs) as Hl. unfold create_topic.
  destruct (validate_topic_name name); [|done]. destruct (count <? 1); [done|].
  rewrite (bool_decide_ext (is_Some (tmg_topics tm !! name)) (is_Some (tmg_topics whole !! name)))
    by (destruct (tmg_topics tm !! name), (tmg_topics whole !! name); split; intros [? ?]; first [done|eauto]).
  case_bool_decide; [done|]. cbv zeta. set (meta := MkTopicMetadata _ _ _ _ now). set (meta' := MkTopicMetadata _ _ _ _ now').
  destruct (open_partitions_all tm meta (seqZ 0 count) (MkTopic meta ∅) []) as (t & r & -> & Hm & Hp).
  destruct (open_partitions_all whole meta' (seqZ 0 count) (MkTopic meta' ∅) []) as (t' & r' & -> & Hm' & Hp').
  cbn. split; [done|]. split; [|exact Hw]. destruct Hs as [Hn Ho Hmeta Hparts]. split; cbn; [done|done| |].
  - rewrite !fmap_insert, Hmeta. unfold compose. by rewrite Hm, Hm'.
  - intros name' x x'. destruct (decide (name' = name)) as [->|Hne].
    + rewrite !lookup_insert_eq. intros [= <-] [= <-] pid Hpid. rewrite Hp, Hp'. cbn. rewrite !lookup_empty.
      assert (owns_partition pid tm = true) as Ho1 by (unfold owns_partition; rewrite Hn, Ho, Hpid; apply Z.eqb_refl).
      rewrite Ho1, (owns_all_true whole pid Hw). done.
    + rewrite !lookup_insert_ne by done. apply Hparts.
Qed.

Lemma removal_succeeds name (tm : TopicManager Q) pids : first_remove_error remove_all name tm pids = None.
Proof.
  unfold first_remove_error. induction pids as [|p pids IH]; [done|]. cbn. rewrite Hremove. by destruct (owns_partition p tm).
Qed.

Lemma delete_shows n i tm whole name :
  core_shows n i tm whole -> owns_all whole ->
  let c := delete_topic remove_all name tm in
  let c' := delete_topic remove_all name whole in
  c.1 = c'.1 /\ core_shows n i c.2 c'.2 /\ owns_all c'.2.
Proof.
  intros Hs Hw. cbv zeta. pose proof (shows_lookup _ _ _ _ name Hs) as Hl. unfold delete_topic.
  destruct (tmg_topics tm !! name) as [t|] eqn:Ht, (tmg_topics whole !! name) as [t'|] eqn:Ht'; try done.
  rewrite !removal_succeeds. cbn. split; [done|]. split; [|exact Hw]. destruct Hs as [Hn Ho Hmeta Hparts].
  split; cbn; [done|done|by rewrite !fmap_delete, Hmeta|].
  intros name' x x' [_ Hx]%lookup_delete_Some [_ Hx']%lookup_delete_Some. by eapply Hparts.
Qed.

Lemma describe_bare leader (tm : TopicManager Q) :
  describe hash_order leader tm =
  (fun '(name, t) => MkTopicMeta name NoError (partition_meta leader <$> seqZ 0 (td_partition_count (t_meta t))))
    <$> hash_order (bare <$> tmg_topics tm).
Proof.
  unfold describe. rewrite <- Horder, <- list_fmap_compose. apply list_fmap_ext. by intros _ [name t] _.
Qed.

Lemma describe_shows n i tm whole leader :
  core_shows n i tm whole -> describe hash_order leader tm = describe hash_order leader whole.
Proof.
  intros [_ _ Hm _]. rewrite !describe_bare. do 2 f_equal.
  assert (Hb : forall m : gmap string (Topic Q), bare <$> m = (fun md => MkTopic md ∅) <$> (untimed ∘ t_meta <$> m))
    by (intros m; rewrite <- map_fmap_compose; done).
  by rewrite !Hb, Hm.
Qed.

(** ** The broker of many cores and the broker of one *)

(** [B] is wired, and spreads over its cores what [b] holds in its only one. *)
Record sharded (B b : Broker Q) : Prop := {
  sh_wired : br_wired B = true;
  sh_self : (br_self B < length (br_topics B))%nat;
  sh_one : br_wired b = false /\ br_self b = O;
  sh_topics : exists whole, br_topics b = [whole] /\ owns_all whole /\ Forall manager_inv (br_topics B) /\
    forall i tm, br_topics B !! i = Some tm -> core_shows (Z.of_nat (length (br_topics B))) (Z.of_nat i) tm whole;
  sh_groups : exists groups, br_groups b = [groups] /\ shards_of (fun id => group_core id B) (br_groups B) groups;
  sh_offsets : exists offsets, br_offsets b = [offsets] /\
    shards_of (fun k => group_core (ok_group k) B) (br_offsets B) offsets;
  sh_place : br_node_id B = br_node_id b /\ br_host B = br_host b /\ br_port B = br_port b;
  sh_metrics : br_produce_metrics B = br_produce_metrics b /\ br_fetch_metrics B = br_fetch_metrics b;
}.

(** Two answers that agree, and leave brokers that agree. *)
Definition agree {R} (x x' : R * Broker Q) : Prop := x.1 = x'.1 /\ sharded x.2 x'.2.

Lemma agree_encoded {R} `{!WireType R} (x x' : R * Broker Q) :
  agree x x' -> (encoded x).1 = (encoded x').1 /\ sharded (encoded x).2 (encoded x').2.
Proof. intros [He Hs]. unfold encoded. cbn. by rewrite He. Qed.

Lemma agree_decode {A R} `{!WireType A} (malformed : Broker Q -> R * Broker Q) (answer : A -> Broker Q -> R * Broker Q) body B b :
  (agree (malformed B) (malformed b)) -> (forall req, agree (answer req B) (answer req b)) ->
  agree (decode_and_answer malformed answer body B) (decode_and_answer malformed answer body b).
Proof. intros Hm Ha. unfold decode_and_answer. destruct (wire_decode _) as [[req|e] d]; auto. Qed.

Lemma on_groups_agree {R} id (none : R) fn B b :
  sharded B b -> local_at id fn -> agree (on_groups id none fn B) (on_groups id none fn b).
Proof.
  intros Hs Hf. pose proof (sh_groups _ _ Hs) as (groups & Hg & Hsh). pose proof (sh_one _ _ Hs) as [Hw H0].
  destruct (on_core_local (fun id => group_core id B) none fn (br_groups B) groups id Hsh Hf) as (Hr & Hsh' & _).
  unfold on_groups. unfold group_core at 2. rewrite Hw, H0, Hg. unfold on_core at 2. cbn [lookup list_lookup].
  destruct (fn groups) as [r' groups'] eqn:Hfg. destruct (on_core _ none fn (br_groups B)) as [r shards]. cbn in *.
  split; [done|]. destruct Hs. split; try done. by exists groups'.
Qed.

Lemma on_offsets_agree {R} k (none : R) fn B b :
  sharded B b -> local_at k fn -> agree (on_offsets (ok_group k) none fn B) (on_offsets (ok_group k) none fn b).
Proof.
  intros Hs Hf. pose proof (sh_offsets _ _ Hs) as (offsets & Hg & Hsh). pose proof (sh_one _ _ Hs) as [Hw H0].
  destruct (on_core_local (fun k => group_core (ok_group k) B) none fn (br_offsets B) offsets k Hsh Hf) as (Hr & Hsh' & _).
  unfold on_offsets. unfold group_core at 2. rewrite Hw, H0, Hg. unfold on_core at 2. cbn [lookup list_lookup].
  destruct (fn offsets) as [r' offsets'] eqn:Hfg. destruct (on_core _ none fn (br_offsets B)) as [r shards]. cbn in *.
  split; [done|]. destruct Hs. split; try done. by exists offsets'.
Qed.

Lemma counted_produce_agree f B b : sharded B b -> sharded (br_count_produce f B) (br_count_produce f b).
Proof. intros []. split; try done. cbn. destruct sh_metrics0. split; congruence. Qed.

Lemma counted_fetch_agree f B b : sharded B b -> sharded (br_count_fetch f B) (br_count_fetch f b).
Proof. intros []. split; try done. cbn. destruct sh_metrics0. split; congruence. Qed.

(** Replacing the topics of both brokers by topics that correspond. *)
Lemma set_topics_agree B b topics whole :
  sharded B b -> length topics = length (br_topics B) -> owns_all whole -> Forall manager_inv topics ->
  (forall i tm, topics !! i = Some tm -> core_shows (Z.of_nat (length (br_topics B))) (Z.of_nat i) tm whole) ->
  sharded (br_set_topics topics B) (br_set_topics [whole] b).
Proof.
  intros [] Hl Hw Hi Hc. split; try done; cbn; rewrite ?Hl; try done.
  - exists whole. by split_and!.
  - destruct sh_groups0 as (g & Hg & Hsh). exists g. split; [done|]. intros k. unfold group_core. cbn.
    rewrite Hl. apply Hsh.
  - destruct sh_offsets0 as (g & Hg & Hsh). exists g. split; [done|]. intros k. unfold group_core. cbn.
    rewrite Hl. apply Hsh.
Qed.

(** The core that owns a partition is one of the broker's. *)
Lemma partition_core_owner B b pid :
  sharded B b -> exists tm, br_topics B !! partition_core pid B = Some tm /\
    owner_of (Z.of_nat (length (br_topics B))) pid = Z.of_nat (partition_core pid B).
Proof.
  intros Hs. pose proof (sh_self _ _ Hs). unfold partition_core. rewrite (sh_wired _ _ Hs).
  assert (Hr : 0 <= owner_of (Z.of_nat (length (br_topics B))) pid < Z.of_nat (length (br_topics B)))
    by (apply Z.mod_pos_bound; lia).
  destruct (lookup_lt_is_Some_2 (br_topics B) (Z.to_nat (owner_of (Z.of_nat (length (br_topics B))) pid))) as [tm Htm]; [lia|].
  exists tm. split; [done|lia].
Qed.

Lemma answer_produce_agree req B b : sharded B b -> agree (answer_produce req B) (answer_produce req b).
Proof.
  intros Hs. pose proof (sh_topics _ _ Hs) as (whole & Hb & Hw & Hinv & Hc). pose proof (sh_one _ _ Hs) as [Hu H0].
  destruct (partition_core_owner B b (pq_partition req) Hs) as (tm & Htm & Hown).
  pose proof (Hc _ _ Htm) as Hshows.
  pose proof (find_shows _ _ _ _ (pq_topic req) (pq_partition req) Hshows Hown) as Hfind.
  destruct (produce_same req tm whole Hfind) as [Hresp Hstate].
  unfold answer_produce. unfold partition_core at 2. rewrite Hu, H0, Hb. unfold on_core. rewrite Htm.
  cbn [lookup list_lookup].
  destruct (handle_produce req tm) as [resp tm'], (handle_produce req whole) as [resp' whole']. cbn in *. subst resp'.
  split; [done|]. cbn. apply counted_produce_agree.
  destruct Hstate as [[-> ->]|(q & Hsome & -> & ->)].
  - rewrite list_insert_id by done. by apply set_topics_agree.
  - apply set_topics_agree; [done|apply length_insert|exact Hw| |].
    + apply Forall_insert; [done|]. apply store_inv; [|done]. by eapply Forall_lookup_1.
    + intros i tm0 [(<- & <- & _)|[Hne Hi]]%list_lookup_insert_Some.
      * by apply store_shows.
      * apply store_shows_other; [by apply Hc|]. rewrite Hown. lia.
Qed.

Lemma answer_fetch_agree req B b : sharded B b -> agree (answer_fetch req B) (answer_fetch req b).
Proof.
  intros Hs. pose proof (sh_topics _ _ Hs) as (whole & Hb & Hw & Hinv & Hc). pose proof (sh_one _ _ Hs) as [Hu H0].
  destruct (partition_core_owner B b (fq_partition req) Hs) as (tm & Htm & Hown).
  pose proof (find_shows _ _ _ _ (fq_topic req) (fq_partition req) (Hc _ _ Htm) Hown) as Hfind.
  assert (Hresp : handle_fetch req tm = handle_fetch req whole) by (unfold handle_fetch; by rewrite Hfind).
  unfold answer_fetch. unfold partition_core at 2. rewrite Hu, H0, Hb. unfold on_core. rewrite Htm.
  cbn [lookup list_lookup]. rewrite Hresp. split; [done|]. by apply counted_fetch_agree.
Qed.

Lemma answer_metadata_agree req B b : sharded B b -> agree (answer_metadata hash_order req B, B) (answer_metadata hash_order req b, b).
Proof.
  intros Hs. pose proof (sh_topics _ _ Hs) as (whole & Hb & Hw & Hinv & Hc). pose proof (sh_one _ _ Hs) as [Hu H0].
  split; [|done]. cbn [fst]. unfold answer_metadata. rewrite Hb, H0. cbn [lookup list_lookup].
  destruct (lookup_lt_is_Some_2 (br_topics B) (br_self B) (sh_self _ _ Hs)) as [tm Htm]. rewrite Htm.
  destruct (sh_place _ _ Hs) as (-> & -> & ->). unfold handle_metadata.
  by rewrite (describe_shows _ _ _ _ _ (Hc _ _ Htm)).
Qed.

Lemma answer_create_agree now_ms req B b :
  sharded B b -> agree (answer_create_topic open_partition remove_all now_ms req B) (answer_create_topic open_partition remove_all now_ms req b).
Proof.
  intros Hs. pose proof (sh_topics _ _ Hs) as (whole & Hb & Hw & Hinv & Hc). pose proof (sh_one _ _ Hs) as [Hu H0].
  unfold answer_create_topic, create_topic_cluster. rewrite (sh_wired _ _ Hs), Hu, H0, Hb. unfold on_core. cbn [lookup list_lookup].
  pose proof (create_topic_on_cluster_run open_partition remove_all (ctq_name req) (ctq_partition_count req)
    default_topic_config now_ms (br_topics B) Hinv) as Hrun.
  assert (Hall : forall i tm, br_topics B !! i = Some tm -> _) by
    (intros i tm Hi; exact (create_shows _ _ tm whole (ctq_name req) (ctq_partition_count req) default_topic_config (now_ms i) (now_ms 0%nat) (Hc i tm Hi) Hw)).
  cbv zeta in Hall.
  destruct (create_topic_on_cluster _ _ _ _ _ _ _) as [r topics]. cbn [fst snd].
  destruct (lookup_lt_is_Some_2 (br_topics B) (br_self B) (sh_self _ _ Hs)) as [tms Htms].
  destruct r as [meta|e]; cbn in Hrun.
  - destruct Hrun as (_ & Hl & Hcreated).
    assert (Hok : forall i tm', topics !! i = Some tm' -> exists tm m, br_topics B !! i = Some tm /\
      create_topic open_partition (ctq_name req) (ctq_partition_count req) default_topic_config 1 (now_ms i) tm = (Ok m, tm')).
    { intros i tm' Hi. destruct (lookup_lt_is_Some_2 (br_topics B) i) as [tm Htm]; [rewrite <- Hl; by apply lookup_lt_Some in Hi|].
      destruct (Hcreated i tm Htm) as (tm1 & Htm1 & Hif). rewrite (proj2 (Nat.ltb_lt _ _)) in Hif by (by apply lookup_lt_Some in Htm).
      destruct Hif as [m Hm]. exists tm, m. split; [done|]. congruence. }
    destruct (Hcreated (br_self B) tms Htms) as (tms' & Htms' & _).
    destruct (Hok _ _ Htms') as (tm & m & Htm & Hcr). destruct (Hall _ _ Htm) as (He & _ & Hw').
    rewrite Hcr in He. destruct (create_topic _ _ _ _ _ _ whole) as [[mw|] whole'] eqn:Hcw; [|done]. cbn [fst snd] in Hw' |- *.
    split; [done|]. cbn [snd]. apply set_topics_agree; [done|done|done| |].
    + apply Forall_lookup_2. intros i tm' Hi. destruct (Hok _ _ Hi) as (tm0 & m0 & Htm0 & Hcr0).
      pose proof (create_topic_inv open_partition (ctq_name req) (ctq_partition_count req) default_topic_config 1 (now_ms i) tm0) as Hp.
      rewrite Hcr0 in Hp. apply Hp. by eapply Forall_lookup_1.
    + intros i tm' Hi. destruct (Hok _ _ Hi) as (tm0 & m0 & Htm0 & Hcr0).
      destruct (Hall _ _ Htm0) as (_ & Hsh & _). by rewrite Hcr0 in Hsh.
  - destruct Hrun as (-> & i & tm & Htm & Herr).
    destruct (Hall _ _ Htm) as (He & _). rewrite Herr in He.
    destruct (create_topic _ _ _ _ _ _ whole) as [[mw|ew] whole'] eqn:Hcw; cbn in He; [done|]. subst ew.
    apply create_topic_err in Hcw as ->. cbn [fst snd]. split; [done|]. by apply set_topics_agree.
Qed.

Lemma answer_delete_agree req B b :
  sharded B b -> agree (answer_delete_topic remove_all req B) (answer_delete_topic remove_all req b).
Proof.
  intros Hs. pose proof (sh_topics _ _ Hs) as (whole & Hb & Hw & Hinv & Hc). pose proof (sh_one _ _ Hs) as [Hu H0].
  unfold answer_delete_topic, delete_topic_cluster. rewrite (sh_wired _ _ Hs), Hu, H0, Hb. unfold on_core. cbn [lookup list_lookup].
  pose proof (delete_topic_on_cluster_run remove_all (dtq_name req) (br_topics B)) as Hrun.
  assert (Hall : forall i tm, br_topics B !! i = Some tm -> _) by
    (intros i tm Hi; exact (delete_shows _ _ tm whole (dtq_name req) (Hc i tm Hi) Hw)).
  cbv zeta in Hall. destruct (delete_topic_on_cluster _ _ _) as [r topics]. destruct Hrun as [-> Hr]. cbn [fst snd].
  destruct (lookup_lt_is_Some_2 (br_topics B) 0) as [tm0 Htm0]; [pose proof (sh_self _ _ Hs); lia|].
  destruct (Hall _ _ Htm0) as (He & _ & Hw'). rewrite (Hr _ Htm0), He.
  destruct (delete_topic remove_all (dtq_name req) whole) as [rw whole'] eqn:Hdw. cbn in Hw', Hall |- *.
  split; [done|]. cbn [snd]. apply set_topics_agree; [done|by rewrite length_fmap|done| |].
  - apply Forall_fmap. eapply Forall_impl; [done|]. intros tm. apply delete_topic_inv.
  - intros i tm'. rewrite list_lookup_fmap. intros (tm & Htm & ->)%fmap_Some. apply (Hall _ _ Htm).
Qed.

Lemma dispatch_agree (now : Z) (now_ms : nat -> Z) (key : ApiKey) (body : list byte) (B b : Broker Q) (Hs : sharded B b) :
  (dispatch open_partition remove_all hash_order now now_ms key body B).1
  = (dispatch open_partition remove_all hash_order now now_ms key body b).1 /\
  sharded (dispatch open_partition remove_all hash_order now now_ms key body B).2
          (dispatch open_partition remove_all hash_order now now_ms key body b).2.
Proof.
  destruct key; apply agree_encoded; try (by split).
  all: apply agree_decode; [split; [done|]; try done; by first [apply counted_produce_agree|apply counted_fetch_agree]|intros req].
  - by apply answer_metadata_agree.
  - by apply answer_produce_agree.
  - by apply answer_fetch_agree.
  - apply (on_offsets_agree (MkOffsetKey (ocq_group req) (ocq_topic req) (ocq_partition req))); [done|apply commit_local].
  - apply (on_offsets_agree (MkOffsetKey (ofq_group req) (ofq_topic req) (ofq_partition req))); [done|apply fetch_local].
  - apply on_groups_agree; [done|apply join_local].
  - apply on_groups_agree; [done|apply sync_local].
  - apply on_groups_agree; [done|apply heartbeat_local].
  - apply on_groups_agree; [done|apply leave_local].
  - by apply answer_create_agree.
  - by apply answer_delete_agree.
Qed.

(** A broker as the server makes it: a manager, a coordinator and an offset store for every core. *)
Definition new_broker (wired : bool) (cores self : nat) (node_id : Z) (host : string) (port : Z) : Broker Q :=
  MkBroker wired self ((fun core : nat => new_topic_manager (Z.of_nat cores) (Z.of_nat core)) <$> seq 0 cores)
    (replicate cores ∅) (replicate cores ∅) node_id host port
    (Some (MkMetrics 0 0 0 0)) (Some (MkMetrics 0 0 0 0)).

Lemma new_broker_sharded cores self node_id host port :
  (self < cores)%nat -> sharded (new_broker true cores self node_id host port) (new_broker false 1 0 node_id host port).
Proof.
  intros Hself. assert (Hlen : length (br_topics (new_broker true cores self node_id host port)) = cores)
    by (cbn; by rewrite length_fmap, length_seq).
  assert (Hcore : forall g, (group_core g (new_broker true cores self node_id host port) < cores)%nat).
  { intros g. unfold group_core. cbn [br_wired new_broker]. change (br_topics _) with (br_topics (new_broker true cores self node_id host port)).
    rewrite Hlen. pose proof (Z.mod_pos_bound (fnv1a_64 g) (Z.of_nat cores) ltac:(lia)). lia. }
  split; try done; rewrite ?Hlen; [done| | |].
  - exists (new_topic_manager 1 0). split; [done|]. split; [done|]. split.
    + apply Forall_fmap, Forall_forall. intros core _. split; cbn; [done|by intros r ?%elem_of_nil].
    + intros i tm. cbn [br_topics new_broker]. rewrite list_lookup_fmap.
      intros (core & [-> Hi]%lookup_seq & ->)%fmap_Some. cbn [plus]. unfold new_topic_manager. cbv zeta.
      destruct (Z.ltb_spec (Z.of_nat cores) 1); [lia|].
      destruct (Z.ltb_spec (Z.of_nat i) 0); [lia|]. destruct (Z.leb_spec (Z.of_nat cores) (Z.of_nat i)); [lia|].
      by split.
  - exists ∅. split; [done|]. intros k. exists ∅. split; [|done]. cbn [br_groups new_broker].
    apply lookup_replicate. split; [done|apply Hcore].
  - exists ∅. split; [done|]. intros k. exists ∅. split; [|done]. cbn [br_offsets new_broker].
    apply lookup_replicate. split; [done|apply Hcore].
Qed.

(** The answers to the requests of a connection. *)
Fixpoint serve (calls : list RouterCall) (B : Broker Q) : list (expected (list byte)) :=
  match calls with
  | [] => []
  | (now, now_ms, key, body) :: rest =>
      let '(r, B) := dispatch open_partition remove_all hash_order now now_ms key body B in r :: serve rest B
  end.

Lemma serve_agree calls B b : sharded B b -> serve calls B = serve calls b.
Proof.
  revert B b. induction calls as [|[[[now now_ms] key] body] calls IH]; intros B b Hs; [done|]. cbn.
  destruct (dispatch_agree now now_ms key body B b Hs) as [Hr Hs'].
  destruct (dispatch _ _ _ _ _ _ _ B), (dispatch _ _ _ _ _ _ _ b). cbn in *. f_equal; [done|]. by apply IH.
Qed.

(** C3. Spreading the broker over its cores changes no answer.  A broker with any number of cores,
    each partition on the core of its number and each group with its offsets on the core of its
    hash, answers every sequence of requests, well formed or not, with the bytes of a broker that
    has a single core and routes nothing: provided that opening a partition and removing its
    directory succeed ([Hopen], [Hremove]; a deletion answers what core 0 says, so that a directory
    another core cannot remove would tell the two apart), that what is opened does not depend on the
    time of creation, and that a hash table is listed in an order its keys determine ([Horder]).
    Each core reads its own clock. *)
Theorem sharding_refines_single_core (cores self : nat) (node_id : Z) (host : string) (port : Z)
    (calls : list RouterCall) (Hself : (self < cores)%nat) :
  serve calls (new_broker true cores self node_id host port) = serve calls (new_broker false 1 0 node_id host port).
Proof. by apply serve_agree, new_broker_sharded. Qed.
End Sharding.

(** ** Partitions in memory *)

#[local] Instance mem_base : PartitionBase (BrokerPartition MemPartition) := BrokerPartition_base (fun _ _ p => p).

Definition mem_open (meta : TopicMetadata) (pid : Z) : expected (BrokerPartition MemPartition) :=
  Ok (Plain (new_partition empty_log 0)).

(** An order of the topics that their keys determine. *)
Definition key_order (m : gmap string (Topic (BrokerPartition MemPartition))) :
    list (string * Topic (BrokerPartition MemPartition)) :=
  omap (fun name => (fun t => (name, t)) <$> m !! name) (elements (dom m)).

Lemma key_order_bare m : prod_map id bare <$> key_order m = key_order (bare <$> m).
Proof.
  unfold key_order. rewrite dom_fmap_L. induction (elements (dom m)) as [|name names IH]; [done|].
  cbn. rewrite lookup_fmap. destruct (m !! name); cbn; by rewrite IH.
Qed.

Definition router_calls : list RouterCall :=
  [(0, Z.of_nat, CreateTopic, wire_encode (MkCreateTopicRequest "a" 3 1) []);
   (0, Z.of_nat, Produce, wire_encode (MkProduceRequest "a" 2 AcksLeader (batch_encode (batch_of (-1) 0 0 2) [])) []);
   (0, Z.of_nat, Fetch, wire_encode (MkFetchRequest "a" 2 0 100 1 0) []);
   (0, Z.of_nat, JoinGroup, wire_encode (MkJoinGroupRequest "g" "" 1000 [7]) []);
   (0, Z.of_nat, OffsetCommit, wire_encode (MkOffsetCommitRequest "g" "a" 2 1 "") []);
   (0, Z.of_nat, OffsetFetch, wire_encode (MkOffsetFetchRequest "g" "a" 2) []);
   (0, Z.of_nat, Metadata, wire_encode (MkMetadataRequest []) []);
   (0, Z.of_nat, Produce, [9])].

Lemma sharding_refines_single_core_witness :
  serve mem_open no_remove_error key_order router_calls (new_broker true 2 1 1 "h" 9092)
  = serve mem_open no_remove_error key_order router_calls (new_broker false 1 0 1 "h" 9092) /\
  serve mem_open no_remove_error key_order [nth 5 router_calls (0, Z.of_nat, Fetch, [])] (new_broker true 2 1 1 "h" 9092)
  = [Ok (wire_encode (MkOffsetFetchResponse (-1) NoError) [])].
Proof.
  assert (Hself : (1 < 2)%nat) by lia.
  split; [|vm_compute; reflexivity].
  exact (sharding_refines_single_core mem_open no_remove_error (fun _ _ => Plain (new_partition empty_log 0))
    (fun _ _ => eq_refl) (fun _ _ => eq_refl) key_order key_order_bare 2 1 1 "h" 9092 router_calls Hself).
Defined.

(** The directory of partition 1 cannot be removed. *)
Definition stuck_directory (name : string) (pid : Z) : option string := if pid =? 1 then Some "busy"%string else None.

Definition delete_calls : list RouterCall :=
  [(0, Z.of_nat, CreateTopic, wire_encode (MkCreateTopicRequest "a" 2 1) []);
   (0, Z.of_nat, DeleteTopic, wire_encode (MkDeleteTopicRequest "a") [])].

(** Why [Hremove] is needed: a directory that only core 1 owns and cannot remove is an error for a
    broker with one core, and goes untold in one with two. *)
Theorem failed_removal_untold :
  last (serve mem_open stuck_directory key_order delete_calls (new_broker false 1 0 1 "h" 9092))
    <> last (serve mem_open stuck_directory key_order delete_calls (new_broker true 2 0 1 "h" 9092)) /\
  last (serve mem_open stuck_directory key_order delete_calls (new_broker true 2 0 1 "h" 9092))
    = Some (Ok (wire_encode (MkDeleteTopicResponse NoError) [])).
Proof. vm_compute. done. Qed.

(** ** What a fetch shows *)

(** Node 1 of three, elected: the pre-vote and the vote of node 2. *)
Definition elected_leader : RaftNode (RaftLog MemPartition) :=
  let p := replicated_create 1 [2; 3] default_config [] (rl_fresh empty_log (file_of []) (file_of [])) in
  let vote n := node_step (ms 9000) (IRequestVoteReply 2 (MkRequestVoteReply (current_term n) true)) n in
  vote (vote (node_step (ms 9000) ITick (node_step 0 ITick (pr_store (rp_state p))))).

Definition serving (q : BrokerPartition MemPartition) : TopicManager (BrokerPartition MemPartition) :=
  MkTopicManager 1 0 {["t"%string := MkTopic (MkTopicMetadata "t" 1 3 default_topic_config 0) {[0 := q]}]} [].

(** A Raft input of the partition the manager serves. *)
Definition raft_input (i : RaftInput) (tm : TopicManager (BrokerPartition MemPartition)) :
    TopicManager (BrokerPartition MemPartition) :=
  match find_partition "t" 0 tm with
  | Some (Replicated p) =>
      let n := node_step (ms 9000) i (pr_store (rp_state p)) in
      store_partition "t" 0 (Replicated (MkReplicated (MkProducing n (pr_producers (rp_state p))) (rp_protocol p))) tm
  | _ => tm
  end.

(** The leader has written a batch that no other node has. *)
Definition unreplicated : TopicManager (BrokerPartition MemPartition) :=
  (handle_produce (MkProduceRequest "t" 0 AcksQuorum (batch_encode (batch_of (-1) 0 0 2) []))
     (serving (Replicated (MkReplicated (MkProducing elected_leader ∅) ProtocolUnset)))).2.

(** Node 2 leads the next term, with another batch at that index, and commits it. *)
Definition rival_batch : RecordBatch := MkBatch (MkHeader 0 0 (-1) (-1) (-1) 2) [9].
Definition rival_append : RaftInput :=
  IAppendEntries (MkAppendEntries 2 2 0 0 [MkEntry 2 1 Data (batch_encode rival_batch [])] 1 0).

Definition fetch_from_0 : TopicManager (BrokerPartition MemPartition) -> FetchResponse :=
  handle_fetch (MkFetchRequest "t" 0 0 1000 1 0).

(** A fetch is not bounded by the high watermark: a consumer of a replicated partition is given
    the leader's batch before any other node has it (the high watermark beside it is 0), and after
    a change of leader the same offsets hold, committed, another batch. *)
Theorem fetch_returns_uncommitted :
  fsr_batches (fetch_from_0 unreplicated) = batch_encode (batch_of (-1) 0 0 2) [] /\
  fsr_high_watermark (fetch_from_0 unreplicated) = 0 /\
  fsr_batches (fetch_from_0 (raft_input rival_append unreplicated)) = batch_encode rival_batch [] /\
  fsr_high_watermark (fetch_from_0 (raft_input rival_append unreplicated)) = 2.
Proof. vm_compute. done. Qed.

(** The counter of messages counts what a header announces, not what is there: a header alone, for
    a batch of no bytes, adds as many records as it likes, and a negative count wraps around. *)
Lemma count_batch_records_trusts_header :
  count_batch_records (take kHeaderSize (batch_encode (MkBatch (MkHeader 0 0 (-1) (-1) (-1) 2147483647) (repeat 0 64)) [])) = 2147483647 /\
  count_batch_records (batch_encode (MkBatch (MkHeader 0 0 (-1) (-1) (-1) (-1)) []) []) = 2 ^ 64 - 1.
Proof. vm_compute. done. Qed.
