(* ===== verification/Connection.v ===== *)
(** * Connections and the client

    Models [serve_connection] of [src/src/server/connection.hpp], the loop that reads a request,
    dispatches it and writes the response, and [Client::round_trip] of [src/src/client/client.cpp].
    [rpc_end_to_end] composes the codecs, the framing, the router and the client: a call answers
    what the handler of the operation answers. *)
From Stdlib Require Import ZArith Lia.
From stdpp Require Import base list gmap strings.
From S2P Require Import Prelude Bytes Record Codec Frame FrameIo Messages Topics RequestRouter.
From S2P Require Import RaftLogRecovery Partition TopicsSafety RouterSafety.
#[local] Open Scope Z_scope.

Definition kMaxClientFrame : Z := 16 * 1024 * 1024.

(** ** The server's side *)

Section Connection.
Context {Q : Type} {PB : PartitionBase Q}.
Context (open_partition : TopicMetadata -> Z -> expected Q) (remove_all : string -> Z -> option string).
Context (hash_order : gmap string (Topic Q) -> list (string * Topic Q)).
(** The clocks as the [turn]-th request finds them. *)
Context (clock : nat -> Z * (nat -> Z)).

Abbreviation dispatch_at turn := (dispatch open_partition remove_all hash_order (clock turn).1 (clock turn).2).

Section Serve.
Context {S : Type} {BS : ByteStream S}.

Definition reply_header (h : FrameHeader) : FrameHeader := MkFrame 0 (fh_api_key h) (fh_api_version h) (fh_correlation_id h) 0.

(** The loop ends with the stream; [fuel] bounds the requests served. *)
Fixpoint serve_connection (fuel turn : nat) (s : S) (b : Broker Q) : S * Broker Q :=
  match fuel with
  | O => (s, b)
  | Datatypes.S fuel' =>
      match read_frame kMaxClientFrame s with
      | (Err _, s) => (s, b)
      | (Ok frame, s) =>
          match dispatch_at turn (fh_api_key (wf_header frame)) (wf_payload frame) b with
          | (Err _, b) => (s, b)
          | (Ok response_body, b) =>
              match write_frame (reply_header (wf_header frame)) response_body s with
              | (Err _, s) => (s, b)
              | (Ok _, s) => serve_connection fuel' (Datatypes.S turn) s b
              end
          end
      end
  end.

(** ** The client's side *)

Record Client := MkClient { cl_sock : S; cl_next_correlation_id : Z }.

(** [send_all] and [recv_exact] of [client.cpp], which tell only whether they went well. *)
Definition client_send_all (data : list byte) (s : S) : bool * S :=
  let '(r, s) := send_all data s in (is_ok r, s).
Definition recv_exact (n : nat) (s : S) : option (list byte) * S :=
  let '(r, (buf, s)) := read_exactly n n [] s in (if is_ok r then Some buf else None, s).

Definition recv_frame_into (s : S) : expected (list byte) * S :=
  match recv_exact 4 s with
  | (None, s) => (make_error IoError "conexión cerrada al leer la longitud de la trama", s)
  | (Some len_bytes, s) =>
      match get_u32 (MkDecoder len_bytes 0) with
      | (Err e, _) => (Err e, s)
      | (Ok len, _) =>
          match recv_exact (Z.to_nat len) s with
          | (None, s) => (make_error IoError "conexión cerrada al leer el cuerpo de la trama", s)
          | (Some rest, s) => (Ok (len_bytes ++ rest), s)
          end
      end
  end.

Definition round_trip {Req Resp : Type} `{!WireType Req, !WireType Resp} (key : ApiKey) (api_version : Z) (req : Req)
    (c : Client) : expected Resp * Client :=
  let body := wire_encode req [] in
  let correlation_id := cl_next_correlation_id c in
  let next := to_u 32 (correlation_id + 1) in
  let header := MkFrame (length_for (length body)) key api_version correlation_id 0 in
  match client_send_all (FrameHeader_encode header [] ++ body) (cl_sock c) with
  | (false, s) => (make_error IoError "fallo al enviar la petición", MkClient s next)
  | (true, s) =>
      match recv_frame_into s with
      | (Err e, s) => (Err e, MkClient s next)
      | (Ok rx, s) =>
          (match FrameHeader_decode (MkDecoder rx 0) with
           | (Err e, _) => Err e
           | (Ok resp_header, dec) =>
               if negb (fh_correlation_id resp_header =? correlation_id)
               then make_error Corrupt "correlation_id de la respuesta no coincide"
               else (wire_decode dec).1
           end, MkClient s next)
      end
  end.
End Serve.

(** ** The operations, as a family over their key *)

Definition request_of (k : ApiKey) : Type :=
  match k with
  | ApiVersions => ApiVersionsRequest | Metadata => MetadataRequest | Produce => ProduceRequest
  | Fetch => FetchRequest | OffsetCommit => OffsetCommitRequest | OffsetFetch => OffsetFetchRequest
  | JoinGroup => JoinGroupRequest | SyncGroup => SyncGroupRequest | Heartbeat => HeartbeatRequest
  | LeaveGroup => LeaveGroupRequest | CreateTopic => CreateTopicRequest | DeleteTopic => DeleteTopicRequest
  end.

Definition response_of (k : ApiKey) : Type :=
  match k with
  | ApiVersions => ApiVersionsResponse | Metadata => MetadataResponse | Produce => ProduceResponse
  | Fetch => FetchResponse | OffsetCommit => OffsetCommitResponse | OffsetFetch => OffsetFetchResponse
  | JoinGroup => JoinGroupResponse | SyncGroup => SyncGroupResponse | Heartbeat => HeartbeatResponse
  | LeaveGroup => LeaveGroupResponse | CreateTopic => CreateTopicResponse | DeleteTopic => DeleteTopicResponse
  end.

#[export] Instance request_wire k : WireType (request_of k).
Proof. destruct k; cbn; apply _. Defined.
#[export] Instance response_wire k : WireType (response_of k).
Proof. destruct k; cbn; apply _. Defined.
#[export] Instance request_laws k : WireTypeLaws (request_of k).
Proof. destruct k; cbn; apply _. Qed.
#[export] Instance response_laws k : WireTypeLaws (response_of k).
Proof. destruct k; cbn; apply _. Qed.

(** The handler of each operation, on a request that decoded. *)
Definition answer_of (now : Z) (now_ms : nat -> Z) (k : ApiKey) : request_of k -> Broker Q -> response_of k * Broker Q :=
  match k return request_of k -> Broker Q -> response_of k * Broker Q with
  | ApiVersions => fun _ b => (MkApiVersionsResponse supported_versions, b)
  | Metadata => fun req b => (answer_metadata hash_order req b, b)
  | Produce => answer_produce
  | Fetch => answer_fetch
  | OffsetCommit => answer_offset_commit
  | OffsetFetch => answer_offset_fetch
  | JoinGroup => answer_join_group now
  | SyncGroup => answer_sync_group now
  | Heartbeat => answer_heartbeat now
  | LeaveGroup => answer_leave_group
  | CreateTopic => answer_create_topic open_partition remove_all now_ms
  | DeleteTopic => answer_delete_topic remove_all
  end.

Lemma decode_and_answer_encoded {A R} `{!WireType A, !WireTypeLaws A} (malformed : Broker Q -> R * Broker Q) answer (req : A) b :
  wire_ok req -> decode_and_answer malformed answer (wire_encode req []) b = answer req b.
Proof. intros Hok. unfold decode_and_answer. by rewrite wire_roundtrip. Qed.

Lemma dispatch_answers now now_ms k (req : request_of k) b :
  wire_ok req ->
  dispatch open_partition remove_all hash_order now now_ms k (wire_encode req []) b
  = (Ok (wire_encode (answer_of now now_ms k req b).1 []), (answer_of now now_ms k req b).2).
Proof.
  destruct k; cbn [request_of]; intros Hok; unfold dispatch, encoded;
    first [done | rewrite (decode_and_answer_encoded _ _ req b Hok); done].
Qed.

(** ** A session *)

(** A request as a client sends it. *)
Record Call := MkCall { c_key : ApiKey; c_version : Z; c_correlation_id : Z; c_request : request_of c_key }.

Definition call_header (c : Call) : FrameHeader := MkFrame 0 (c_key c) (c_version c) (c_correlation_id c) 0.
Definition call_bytes (c : Call) : list byte := frame_bytes (call_header c) (wire_encode (c_request c) []).

Definition answer_at (turn : nat) (c : Call) (b : Broker Q) : response_of (c_key c) * Broker Q :=
  answer_of (clock turn).1 (clock turn).2 (c_key c) (c_request c) b.
Definition reply_bytes (turn : nat) (c : Call) (b : Broker Q) : list byte :=
  frame_bytes (call_header c) (wire_encode (answer_at turn c b).1 []).

(** What the handlers answer to the calls, one after the other. *)
Fixpoint session (turn : nat) (calls : list Call) (b : Broker Q) : list byte * Broker Q :=
  match calls with
  | [] => ([], b)
  | c :: calls =>
      let '(out, b') := session (Datatypes.S turn) calls (answer_at turn c b).2 in (reply_bytes turn c b ++ out, b')
  end.

(** A message fits a frame, and the fields of the header their types. *)
Definition fits_frame (body : list byte) : Prop := Z.of_nat (kEncodedSize + length body) <= kMaxClientFrame.

Definition call_ok (c : Call) : Prop :=
  u_range 16 (c_version c) /\ u_range 32 (c_correlation_id c) /\ wire_ok (c_request c) /\
  fits_frame (wire_encode (c_request c) []).

Lemma call_framed c body :
  u_range 16 (c_version c) -> u_range 32 (c_correlation_id c) -> fits_frame body -> framed_ok (call_header c) body.
Proof.
  intros Hv Hc Hf. unfold framed_ok, call_header, fits_frame, kMaxClientFrame in *. cbn [fh_api_version fh_correlation_id fh_flags].
  width_simpl. lia.
Qed.

Section Healthy.
Context {S : Type} {BS : ByteStream S} {BL : ByteStreamLaws S}.

Lemma serve_call fuel turn c rest (s : S) b :
  call_ok c -> healthy s -> pending s = call_bytes c ++ rest ->
  exists s', serve_connection (Datatypes.S fuel) turn s b = serve_connection fuel (Datatypes.S turn) s' (answer_at turn c b).2 /\
    pending s' = rest /\ sent s' = sent s ++ reply_bytes turn c b /\ healthy s'.
Proof.
  intros (Hv & Hc & Hr & Hf) Hh Hp. cbn [serve_connection].
  destruct (read_frame_healthy (call_header c) (wire_encode (c_request c) []) rest kMaxClientFrame s
    (call_framed c _ Hv Hc Hf) Hf Hh Hp) as (s1 & -> & Hp1 & Hs1 & Hh1).
  cbn [wf_header wf_payload sent_frame with_length fh_api_key call_header].
  rewrite dispatch_answers by done.
  change (reply_header _) with (call_header c). unfold reply_bytes, answer_at.
  destruct (write_frame_healthy (call_header c)
    (wire_encode (answer_of (clock turn).1 (clock turn).2 (c_key c) (c_request c) b).1 []) s1 Hh1)
    as (s2 & -> & Hs2 & Hp2 & Hh2).
  exists s2. split_and!; congruence.
Qed.

(** C16. A connection serves its requests in order: whatever requests a client has written, one after
    the other without waiting, and however the transport cuts them, the connection answers each with
    the answer of its handler on the state the previous ones left, in the order of the requests,
    and ends when the client closes. *)
Theorem connection_serves_session (calls : list Call) (turn fuel : nat) (s : S) (b : Broker Q)
    (Hok : Forall call_ok calls) (Hh : healthy s) (Hwire : pending s = concat (call_bytes <$> calls))
    (Hfuel : (length calls < fuel)%nat) :
  exists s', serve_connection fuel turn s b = (s', (session turn calls b).2) /\
    sent s' = sent s ++ (session turn calls b).1 /\ pending s' = [].
Proof.
  revert turn fuel s b Hh Hwire Hfuel. induction Hok as [|c calls Hc _ IH]; intros turn [|fuel] s b Hh Hwire Hf;
    [cbn in Hf; lia| |cbn in Hf; lia|].
  - cbn [serve_connection session]. destruct (read_frame_closed kMaxClientFrame s Hh Hwire) as (e & s' & -> & Hs & Hp).
    exists s'. by rewrite app_nil_r.
  - destruct (serve_call fuel turn c _ s b Hc Hh Hwire) as (s1 & -> & Hp1 & Hs1 & Hh1).
    cbn [session]. destruct (IH (Datatypes.S turn) fuel s1 (answer_at turn c b).2 Hh1 Hp1) as (s2 & -> & Hs2 & Hp2);
      [cbn in Hf; lia|].
    destruct (session _ calls _) as [out b']. cbn [fst snd] in Hs2 |- *. exists s2. split_and!; [done| |done].
    by rewrite Hs2, Hs1, <- app_assoc.
Qed.

(** ** A call, from end to end *)

Lemma recv_frame_healthy header payload (s : S) :
  framed_ok header payload -> healthy s -> pending s = frame_bytes header payload ->
  exists s', recv_frame_into s = (Ok (frame_bytes header payload), s') /\ pending s' = [] /\ sent s' = sent s /\ healthy s'.
Proof.
  intros Hok Hh Hp. destruct (framed_length _ _ Hok) as [Hlen Hfh]. unfold recv_frame_into, recv_exact.
  set (all := frame_bytes header payload) in *.
  assert (Hl : length all = (14 + length payload)%nat)
    by (unfold all, frame_bytes; rewrite length_app, length_frame; done).
  assert (Hl4 : length (take 4 all) = 4%nat) by (rewrite length_take; lia).
  destruct (read_exactly_healthy 4 4 [] s (take 4 all) (drop 4 all) Hh) as (s1 & -> & Hp1 & Hs1 & Hh1);
    [by rewrite take_drop|by rewrite Hl4|by rewrite Hl4|].
  pose proof (header_starts_with_length (with_length (length_for (length payload)) header) payload (proj1 Hfh)) as Hu.
  fold (frame_bytes header payload) in Hu. fold all in Hu. cbn [fh_length with_length] in Hu. rewrite Hlen in Hu.
  cbn [is_ok app]. rewrite Hu.
  assert (Hd : length (drop 4 all) = Z.to_nat (Z.of_nat (10 + length payload))) by (rewrite length_drop; lia).
  rewrite <- Hd.
  destruct (read_exactly_healthy (length (drop 4 all)) (length (drop 4 all)) [] s1 (drop 4 all) [] Hh1)
    as (s2 & -> & Hp2 & Hs2 & Hh2); [by rewrite app_nil_r|done|done|].
  cbn [is_ok app]. exists s2. rewrite take_drop. split_and!; congruence || done.
Qed.

Lemma client_send_all_healthy data (s : S) :
  healthy s -> exists s', client_send_all data s = (true, s') /\ sent s' = sent s ++ data /\
    pending s' = pending s /\ healthy s'.
Proof. intros Hh. unfold client_send_all. destruct (send_all_healthy data s Hh) as (s' & -> & H). by exists s'. Qed.

(** The call of a client, with its next number. *)
Definition client_call (k : ApiKey) (version : Z) (req : request_of k) (c : Client (S := S)) : Call :=
  MkCall k version (cl_next_correlation_id c) req.

Lemma round_trip_answered (k : ApiKey) version (req : request_of k) (resp : response_of k) (c : Client (S := S)) :
  call_ok (client_call k version req c) -> wire_ok resp ->
  framed_ok (call_header (client_call k version req c)) (wire_encode resp []) ->
  healthy (cl_sock c) -> pending (cl_sock c) = frame_bytes (call_header (client_call k version req c)) (wire_encode resp []) ->
  exists s', round_trip k version req c = (Ok resp, MkClient s' (to_u 32 (cl_next_correlation_id c + 1))) /\
    sent s' = sent (cl_sock c) ++ call_bytes (client_call k version req c) /\ pending s' = [] /\ healthy s'.
Proof.
  intros (Hv & Hc & _ & _) Hok Hframed Hh Hp. cbn [client_call c_version c_correlation_id] in Hv, Hc.
  unfold round_trip. cbv zeta. change (FrameHeader_encode _ [] ++ _) with (call_bytes (client_call k version req c)).
  destruct (client_send_all_healthy (call_bytes (client_call k version req c)) (cl_sock c) Hh) as (s1 & -> & Hs1 & Hp1 & Hh1).
  rewrite Hp in Hp1.
  destruct (recv_frame_healthy _ _ s1 Hframed Hh1 Hp1) as (s2 & -> & Hp2 & Hs2 & Hh2).
  destruct (framed_length _ _ Hframed) as [Hlen Hfh].
  rewrite (reads_frame _ Hfh) by (exists (wire_encode resp []); cbn; by rewrite drop_0).
  cbn [fh_correlation_id with_length call_header client_call c_correlation_id]. rewrite Z.eqb_refl. cbn [negb].
  exists s2. split_and!; [|congruence|done|done]. f_equal.
  rewrite (wire_reads resp Hok); [done|]. exists []. rewrite app_nil_r.
  unfold advance, frame_bytes. cbn. by rewrite drop_app_length.
Qed.
End Healthy.

Section EndToEnd.
Context {C S : Type} {BC : ByteStream C} {BCL : ByteStreamLaws C} {BS : ByteStream S} {BSL : ByteStreamLaws S}.

(** C4. A call answers what its handler answers.  For every operation and every request of its type:
    when each side's stream carries the bytes the other one writes, the client's call returns the
    response that the handler of the operation gives on the broker's state, the connection writes
    that response and leaves the state the handler leaves, and the next call has the next number. *)
Theorem rpc_end_to_end (k : ApiKey) (version : Z) (req : request_of k) (c : Client (S := C)) (s : S) (b : Broker Q)
    (turn fuel : nat)
    (Hcall : call_ok (client_call k version req c))
    (Hresp : wire_ok (answer_at turn (client_call k version req c) b).1)
    (Hfit : fits_frame (wire_encode (answer_at turn (client_call k version req c) b).1 []))
    (Hc : healthy (cl_sock c)) (Hs : healthy s)
    (Hto_server : pending s = call_bytes (client_call k version req c))
    (Hto_client : pending (cl_sock c) = reply_bytes turn (client_call k version req c) b) :
  (exists sock, round_trip k version req c
      = (Ok (answer_at turn (client_call k version req c) b).1, MkClient sock (to_u 32 (cl_next_correlation_id c + 1))) /\
    sent sock = sent (cl_sock c) ++ pending s) /\
  (exists s', serve_connection (Datatypes.S (Datatypes.S fuel)) turn s b
      = (s', (answer_at turn (client_call k version req c) b).2) /\
    sent s' = sent s ++ pending (cl_sock c)).
Proof.
  split.
  - destruct Hcall as (Hv & Hn & Hreq).
    destruct (round_trip_answered k version req _ c (conj Hv (conj Hn Hreq)) Hresp (call_framed _ _ Hv Hn Hfit) Hc Hto_client)
      as (sock & H & Hsent & _).
    exists sock. split; [exact H|]. by rewrite Hsent, Hto_server.
  - rewrite <- (app_nil_r (call_bytes _)) in Hto_server.
    destruct (serve_call (Datatypes.S fuel) turn _ [] s b Hcall Hs Hto_server) as (s1 & -> & Hp1 & Hs1 & Hh1).
    cbn [serve_connection]. destruct (read_frame_closed kMaxClientFrame s1 Hh1 Hp1) as (e & s2 & -> & Hs2 & _).
    exists s2. split; [done|]. congruence.
Qed.
End EndToEnd.
End Connection.

(** ** On concrete streams *)

#[local] Existing Instance mem_base.

Definition rpc_broker : Broker (BrokerPartition MemPartition) :=
  (dispatch mem_open no_remove_error key_order 0 (fun _ => 0) CreateTopic (wire_encode (MkCreateTopicRequest "a" 3 1) [])
     (new_broker true 2 1 1 "h" 9092)).2.
Definition rpc_produce : ProduceRequest := MkProduceRequest "a" 2 AcksLeader (batch_encode (batch_of (-1) 0 0 2) []).
Definition rpc_clock (turn : nat) : Z * (nat -> Z) := (0, fun _ => 0).

Abbreviation rpc_answer_at := (answer_at mem_open no_remove_error key_order rpc_clock).
Abbreviation rpc_reply_bytes := (reply_bytes mem_open no_remove_error key_order rpc_clock).

Definition rpc_client0 : Client (S := PlannedStream) := MkClient (MkPlannedStream [] [] []) 5.
Definition rpc_call : Call := client_call Produce 1 rpc_produce rpc_client0.
Definition rpc_client : Client (S := PlannedStream) :=
  MkClient (MkPlannedStream (rpc_reply_bytes 0 rpc_call rpc_broker) [] [4; 3; 200; 1; 1; 2]%nat) 5.
Definition rpc_server : PlannedStream := MkPlannedStream (call_bytes rpc_call) [] [1; 9; 30; 2]%nat.

Lemma rpc_end_to_end_witness :
  (exists sock, round_trip Produce 1 rpc_produce rpc_client = (Ok (MkProduceResponse 0 NoError 0), MkClient sock 6)) /\
  (exists s', serve_connection mem_open no_remove_error key_order rpc_clock 2 0 rpc_server rpc_broker
      = (s', (rpc_answer_at 0 rpc_call rpc_broker).2) /\ ps_outbox s' = ps_inbox (cl_sock rpc_client)).
Proof.
  assert (Hcall : call_ok (client_call Produce 1 rpc_produce rpc_client)) by (vm_compute; repeat split; easy).
  assert (Hresp : wire_ok (rpc_answer_at 0 (client_call Produce 1 rpc_produce rpc_client) rpc_broker).1)
    by (vm_compute; repeat split; easy).
  assert (Hfit : fits_frame (wire_encode (rpc_answer_at 0 (client_call Produce 1 rpc_produce rpc_client) rpc_broker).1 []))
    by (by vm_compute).
  destruct (rpc_end_to_end (BCL := planned_stream_laws) (BSL := planned_stream_laws) mem_open no_remove_error key_order rpc_clock Produce 1 rpc_produce rpc_client rpc_server rpc_broker
    0 0 Hcall Hresp Hfit I I eq_refl eq_refl) as [(sock & Hc & _) (s' & Hs & Ho)].
  split; [exists sock|exists s']; [|by split].
  vm_compute in Hc |- *. exact Hc.
Defined.

Definition session_calls : list Call :=
  [rpc_call; MkCall Fetch 0 6 (MkFetchRequest "a" 2 0 100 1 0); MkCall Heartbeat 0 7 (MkHeartbeatRequest "g" "m" 1)].

Definition session_stream : PlannedStream := MkPlannedStream (concat (call_bytes <$> session_calls)) [] [7; 50; 2]%nat.

Lemma connection_serves_session_witness :
  exists s', serve_connection mem_open no_remove_error key_order rpc_clock 4 0
      session_stream rpc_broker
    = (s', (session mem_open no_remove_error key_order rpc_clock 0 session_calls rpc_broker).2) /\
    sent s' = sent session_stream ++ (session mem_open no_remove_error key_order rpc_clock 0 session_calls rpc_broker).1 /\
    pending s' = [].
Proof.
  assert (Hok : Forall call_ok session_calls) by (repeat constructor; vm_compute; repeat split; easy).
  assert (Hf : (length session_calls < 4)%nat) by (vm_compute; lia).
  assert (Hw : pending session_stream = concat (call_bytes <$> session_calls)) by reflexivity.
  exact (connection_serves_session (BL := planned_stream_laws) mem_open no_remove_error key_order rpc_clock session_calls 0 4
    session_stream rpc_broker Hok I Hw Hf).
Defined.
