(* ===== verification/CircuitBreaker.v ===== *)
(** * The circuit breaker and the health of nodes

    Models [CircuitBreaker] of [src/src/ingress/circuit_breaker.cpp] and [HealthChecker] of
    [health_check.hpp].  The breaker keeps its recent results in a ring with a running count of
    failures and compares ratios in double precision ([SpecFloat], round to nearest even); it
    refines a breaker that keeps the list of its last results. *)
From Stdlib Require Import ZArith Lia Floats.SpecFloat.
From stdpp Require Import base list gmap.
From S2P Require Import Prelude.
#[local] Open Scope Z_scope.

(** ** Doubles *)

Abbreviation double := spec_float (only parsing).
(** [static_cast<double>] of an unsigned integer, and the division. *)
Definition to_double (n : nat) : double := binary_normalize 53 1024 (Z.of_nat n) 0 false.
Definition double_div (x y : double) : double := SFdiv 53 1024 x y.

(** ** The breaker *)

Inductive CircuitState := CircuitClosed | CircuitOpen | CircuitHalfOpen.

Record CircuitBreakerConfig := MkBreakerConfig {
  window_size : nat;
  min_samples : nat;
  failure_ratio : double;
  open_timeout : Z;
  half_open_probes : nat;
}.

Record CircuitBreaker := MkBreaker {
  cb_config : CircuitBreakerConfig;
  cb_state : CircuitState;
  cb_window : list bool;
  cb_head : nat;
  cb_count : nat;
  cb_failures : nat;
  cb_opened_at : Z;
  cb_probes_issued : nat;
  cb_probe_successes : nat;
}.

Definition new_breaker (config : CircuitBreakerConfig) : CircuitBreaker :=
  MkBreaker config CircuitClosed (replicate (Nat.max 1 (window_size config)) false) 0 0 0 0 0 0.

Definition trip_open (now : Z) (b : CircuitBreaker) : CircuitBreaker :=
  MkBreaker (cb_config b) CircuitOpen (cb_window b) (cb_head b) (cb_count b) (cb_failures b) now
    (cb_probes_issued b) (cb_probe_successes b).

Definition enter_half_open (b : CircuitBreaker) : CircuitBreaker :=
  MkBreaker (cb_config b) CircuitHalfOpen (cb_window b) (cb_head b) (cb_count b) (cb_failures b) (cb_opened_at b) 0 0.

Definition breaker_close (b : CircuitBreaker) : CircuitBreaker :=
  MkBreaker (cb_config b) CircuitClosed (replicate (length (cb_window b)) false) 0 0 0 (cb_opened_at b)
    (cb_probes_issued b) (cb_probe_successes b).

Definition set_probes (issued successes : nat) (b : CircuitBreaker) : CircuitBreaker :=
  MkBreaker (cb_config b) (cb_state b) (cb_window b) (cb_head b) (cb_count b) (cb_failures b) (cb_opened_at b) issued successes.

(** [record]: over the oldest result once the window is full. *)
Definition breaker_record (failure : bool) (b : CircuitBreaker) : CircuitBreaker :=
  let size := length (cb_window b) in
  let failures :=
    if (cb_count b =? size)%nat && default false (cb_window b !! cb_head b) then (cb_failures b - 1)%nat else cb_failures b in
  MkBreaker (cb_config b) (cb_state b) (<[cb_head b := failure]> (cb_window b)) ((cb_head b + 1) mod size)
    (Nat.min (cb_count b + 1) size) (if failure then (failures + 1)%nat else failures) (cb_opened_at b)
    (cb_probes_issued b) (cb_probe_successes b).

(** The ratio of [failures] among [count] results, 0 below [min_samples]. *)
Definition ratio_of (config : CircuitBreakerConfig) (failures count : nat) : double :=
  if (count <? min_samples config)%nat then S754_zero false else double_div (to_double failures) (to_double count).

Definition window_failure_ratio (b : CircuitBreaker) : double := ratio_of (cb_config b) (cb_failures b) (cb_count b).

Definition allow (now : Z) (b : CircuitBreaker) : bool * CircuitBreaker :=
  match cb_state b with
  | CircuitClosed => (true, b)
  | CircuitOpen =>
      if open_timeout (cb_config b) <=? now - cb_opened_at b
      then let b := enter_half_open b in (true, set_probes (cb_probes_issued b + 1) (cb_probe_successes b) b)
      else (false, b)
  | CircuitHalfOpen =>
      if (cb_probes_issued b <? half_open_probes (cb_config b))%nat
      then (true, set_probes (cb_probes_issued b + 1) (cb_probe_successes b) b)
      else (false, b)
  end.

Definition on_success (b : CircuitBreaker) : CircuitBreaker :=
  match cb_state b with
  | CircuitClosed => breaker_record false b
  | CircuitHalfOpen =>
      let b := set_probes (cb_probes_issued b) (cb_probe_successes b + 1) b in
      if (half_open_probes (cb_config b) <=? cb_probe_successes b)%nat then breaker_close b else b
  | CircuitOpen => b
  end.

Definition on_failure (now : Z) (b : CircuitBreaker) : CircuitBreaker :=
  match cb_state b with
  | CircuitClosed =>
      let b := breaker_record true b in
      if SFleb (failure_ratio (cb_config b)) (window_failure_ratio b) then trip_open now b else b
  | CircuitHalfOpen => trip_open now b
  | CircuitOpen => b
  end.

Inductive BreakerCall := CallAllow (now : Z) | CallSuccess | CallFailure (now : Z).

(** What a call answers, and the breaker after it. *)
Definition breaker_call (c : BreakerCall) (b : CircuitBreaker) : option bool * CircuitBreaker :=
  match c with
  | CallAllow now => let '(r, b) := allow now b in (Some r, b)
  | CallSuccess => (None, on_success b)
  | CallFailure now => (None, on_failure now b)
  end.

(** ** The specification: the last results, as a list *)

Inductive BreakerSpec :=
  | SpecClosed (recent : list bool)
  | SpecOpen (since : Z)
  | SpecHalfOpen (issued successes : nat).

Section Spec.
Context (config : CircuitBreakerConfig).

Definition spec_size : nat := Nat.max 1 (window_size config).
Definition failures_in (recent : list bool) : nat := length (filter (fun f => f = true) recent).
Definition lately (recent : list bool) (failure : bool) : list bool :=
  let all := recent ++ [failure] in drop (length all - spec_size) all.
Definition too_many (recent : list bool) : bool :=
  SFleb (failure_ratio config) (ratio_of config (failures_in recent) (length recent)).

Definition spec_call (c : BreakerCall) (s : BreakerSpec) : option bool * BreakerSpec :=
  match c, s with
  | CallAllow now, SpecClosed recent => (Some true, s)
  | CallAllow now, SpecOpen since =>
      if open_timeout config <=? now - since then (Some true, SpecHalfOpen 1 0) else (Some false, s)
  | CallAllow now, SpecHalfOpen issued successes =>
      if (issued <? half_open_probes config)%nat then (Some true, SpecHalfOpen (issued + 1) successes) else (Some false, s)
  | CallSuccess, SpecClosed recent => (None, SpecClosed (lately recent false))
  | CallSuccess, SpecHalfOpen issued successes =>
      (None, if (half_open_probes config <=? successes + 1)%nat then SpecClosed [] else SpecHalfOpen issued (successes + 1))
  | CallFailure now, SpecClosed recent =>
      let recent := lately recent true in (None, if too_many recent then SpecOpen now else SpecClosed recent)
  | CallFailure now, SpecHalfOpen _ _ => (None, SpecOpen now)
  | _, SpecOpen _ => (None, s)
  end.
End Spec.

Fixpoint run_calls {S : Type} (step : BreakerCall -> S -> option bool * S) (cs : list BreakerCall) (s : S) :
    list (option bool) * S :=
  match cs with
  | [] => ([], s)
  | c :: cs => let '(r, s) := step c s in let '(rs, s) := run_calls step cs s in (r :: rs, s)
  end.

(** ** The ring holds the last results *)

Definition recent_of (b : CircuitBreaker) : list bool :=
  if (cb_count b <? length (cb_window b))%nat then take (cb_count b) (cb_window b)
  else drop (cb_head b) (cb_window b) ++ take (cb_head b) (cb_window b).

(** What the breaker stands for. *)
Definition spec_of (b : CircuitBreaker) : BreakerSpec :=
  match cb_state b with
  | CircuitClosed => SpecClosed (recent_of b)
  | CircuitOpen => SpecOpen (cb_opened_at b)
  | CircuitHalfOpen => SpecHalfOpen (cb_probes_issued b) (cb_probe_successes b)
  end.

Record ring_inv (b : CircuitBreaker) : Prop := {
  ri_size : length (cb_window b) = spec_size (cb_config b);
  ri_head : (cb_head b < length (cb_window b))%nat;
  ri_count : (cb_count b <= length (cb_window b))%nat;
  ri_filling : (cb_count b < length (cb_window b))%nat -> cb_head b = cb_count b;
  ri_failures : cb_failures b = failures_in (recent_of b);
}.

Lemma failures_in_cons f l : failures_in (f :: l) = ((if f then 1 else 0) + failures_in l)%nat.
Proof. by destruct f. Qed.

Lemma failures_in_app l1 l2 : failures_in (l1 ++ l2) = (failures_in l1 + failures_in l2)%nat.
Proof. unfold failures_in. by rewrite filter_app, length_app. Qed.

Lemma length_recent b : ring_inv b -> length (recent_of b) = cb_count b.
Proof.
  intros [_ Hh Hc _ _]. unfold recent_of. destruct (Nat.ltb_spec (cb_count b) (length (cb_window b))).
  - rewrite length_take. lia.
  - rewrite length_app, length_drop, length_take. lia.
Qed.

(** The window after a result, in terms of the old one. *)
Lemma record_recent failure b :
  ring_inv b ->
  recent_of (breaker_record failure b) = lately (cb_config b) (recent_of b) failure /\
  (cb_count b = length (cb_window b) ->
   exists old rest, recent_of b = old :: rest /\ cb_window b !! cb_head b = Some old /\
     lately (cb_config b) (recent_of b) failure = rest ++ [failure]).
Proof.
  intros Hinv. pose proof (length_recent b Hinv) as Hlen. destruct Hinv as [Hs Hh Hc Hf _].
  unfold lately. rewrite <- Hs, length_app, Hlen. cbn [length].
  unfold recent_of, breaker_record. cbn [cb_count cb_window cb_head]. rewrite length_insert.
  set (w := cb_window b) in *. set (h := cb_head b) in *.
  destruct (Nat.ltb_spec (cb_count b) (length w)) as [Hlt|Hge].
  - specialize (Hf Hlt). split; [|lia].
    rewrite Nat.min_l by lia. rewrite Hf. replace (cb_count b + 1 - length w)%nat with 0%nat by lia. cbn [drop].
    assert (Ht : take (cb_count b + 1) (<[cb_count b:=failure]> w) = take (cb_count b) w ++ [failure]).
    { rewrite Nat.add_1_r, (take_S_r _ _ failure) by (apply list_lookup_insert_eq; lia).
      by rewrite take_insert_ge. }
    destruct (Nat.ltb_spec (cb_count b + 1) (length w)); [exact Ht|].
    replace (cb_count b + 1)%nat with (length w) in Ht |- * by lia. rewrite Nat.Div0.mod_same. cbn.
    rewrite app_nil_r, <- Ht. rewrite take_ge; [done|]. rewrite length_insert. lia.
  - assert (Hcw : cb_count b = length w) by lia. destruct (lookup_lt_is_Some_2 w h Hh) as [old Hold].
    rewrite (drop_S _ _ _ Hold). rewrite Hcw. replace (length w + 1 - length w)%nat with 1%nat by lia.
    cbn [app drop]. rewrite Nat.min_r, Nat.ltb_irrefl by lia. split; [|intros _; eexists _, _; split_and!; done].
    rewrite <- app_assoc.
    assert (Ht : take (h + 1) (<[h:=failure]> w) = take h w ++ [failure]).
    { rewrite Nat.add_1_r, (take_S_r _ _ failure) by (by apply list_lookup_insert_eq). by rewrite take_insert_ge. }
    destruct (decide (h + 1 = length w)%nat) as [He|Hne].
    + rewrite He in Ht |- *. rewrite Nat.Div0.mod_same. cbn. rewrite app_nil_r, <- Ht.
      rewrite (drop_ge w) by lia. rewrite take_ge; [done|]. rewrite length_insert. lia.
    + rewrite Nat.mod_small by lia. rewrite Ht, drop_insert_lt by lia. by rewrite Nat.add_1_r.
Qed.

Lemma record_inv failure b : ring_inv b -> ring_inv (breaker_record failure b).
Proof.
  intros Hinv. destruct (record_recent failure b Hinv) as [Hr Hfull]. pose proof (length_recent b Hinv) as Hlen.
  assert (Hsz : length (cb_window (breaker_record failure b)) = length (cb_window b))
    by (cbn; by rewrite length_insert).
  pose proof (ri_size _ Hinv). pose proof (ri_head _ Hinv). pose proof (ri_count _ Hinv). pose proof (ri_filling _ Hinv).
  constructor; rewrite ?Hsz, ?Hr; cbn [breaker_record cb_config cb_head cb_count cb_failures].
  - done.
  - apply Nat.mod_upper_bound. lia.
  - lia.
  - intros Hlt. assert (cb_head b = cb_count b) as -> by (apply (ri_filling _ Hinv); lia).
    rewrite Nat.mod_small by lia. lia.
  - rewrite (ri_failures _ Hinv). destruct (Nat.eqb_spec (cb_count b) (length (cb_window b))) as [Heq|Hne].
    + destruct (Hfull Heq) as (old & rest & Hrec & Hold & ->). rewrite Hrec, Hold, failures_in_app, failures_in_cons.
      rewrite (failures_in_cons failure []). change (failures_in []) with 0%nat.
      destruct old, failure; cbn -[failures_in]; lia.
    + cbn [andb]. unfold lately. cbv zeta.
      replace (length (recent_of b ++ [failure]) - _)%nat with 0%nat by (rewrite length_app, Hlen; cbn [length]; lia).
      rewrite drop_0, failures_in_app, (failures_in_cons failure []).
      change (failures_in []) with 0%nat. destruct failure; lia.
Qed.

Lemma closed_ring b : ring_inv b -> ring_inv (breaker_close b) /\ recent_of (breaker_close b) = [].
Proof.
  intros Hinv. pose proof (ri_head _ Hinv). pose proof (ri_size _ Hinv).
  assert (Hr : recent_of (breaker_close b) = []).
  { unfold recent_of. cbn [breaker_close cb_count cb_window]. rewrite length_replicate. by rewrite (proj2 (Nat.ltb_lt _ _)) by lia. }
  split; [|done]. constructor; rewrite ?Hr; cbn; rewrite ?length_replicate; try done; lia.
Qed.

Lemma new_breaker_inv config : ring_inv (new_breaker config) /\ spec_of (new_breaker config) = SpecClosed [].
Proof.
  assert (Hr : recent_of (new_breaker config) = []).
  { unfold recent_of, new_breaker. cbn [cb_count cb_window]. rewrite length_replicate. by rewrite (proj2 (Nat.ltb_lt _ _)) by lia. }
  split; [|unfold spec_of; cbn; by rewrite Hr]. constructor; rewrite ?Hr; cbn; rewrite ?length_replicate; try done; lia.
Qed.

(** The ring does not depend on the state and the probes. *)
Lemma ring_inv_same b b' :
  cb_config b' = cb_config b -> cb_window b' = cb_window b -> cb_head b' = cb_head b -> cb_count b' = cb_count b ->
  cb_failures b' = cb_failures b -> ring_inv b -> ring_inv b'.
Proof.
  intros Hcfg Hw Hh Hc Hf [? ? ? ? ?]. assert (Hr : recent_of b' = recent_of b) by (unfold recent_of; by rewrite Hw, Hh, Hc).
  constructor; rewrite ?Hr, ?Hcfg, ?Hw, ?Hh, ?Hc, ?Hf; done.
Qed.

Lemma breaker_call_spec c b :
  ring_inv b ->
  let '(r, b') := breaker_call c b in
  spec_call (cb_config b) c (spec_of b) = (r, spec_of b') /\ ring_inv b' /\ cb_config b' = cb_config b.
Proof.
  intros Hinv. unfold spec_of. destruct c as [now| |now]; cbn [breaker_call].
  - unfold allow. destruct (cb_state b) eqn:Hst; cbn [spec_call]; [by rewrite Hst| |].
    + destruct (_ <=? _); cbn; [|by rewrite Hst]. split_and!; [done|by apply (ring_inv_same b)|done].
    + destruct (_ <? _)%nat; cbn; [|by rewrite Hst]. rewrite Hst. split_and!; [done|by apply (ring_inv_same b)|done].
  - unfold on_success. destruct (cb_state b) eqn:Hst; cbn [spec_call].
    + cbn [breaker_record cb_state cb_config]. rewrite Hst. rewrite <- (proj1 (record_recent false b Hinv)).
      split_and!; [done|by apply record_inv|done].
    + by rewrite Hst.
    + cbn [set_probes cb_config cb_probe_successes]. destruct (_ <=? _)%nat.
      * set (b1 := set_probes _ _ b). assert (H1 : ring_inv b1) by (by apply (ring_inv_same b)).
        destruct (closed_ring b1 H1) as [H2 H3]. cbn [breaker_close cb_state]. by rewrite H3.
      * cbn. rewrite Hst. split_and!; [done|by apply (ring_inv_same b)|done].
  - unfold on_failure. destruct (cb_state b) eqn:Hst; cbn [spec_call]; [| |by split_and!; [|apply (ring_inv_same b)|]].
    + pose proof (record_inv true b Hinv) as H1. rewrite <- (proj1 (record_recent true b Hinv)).
      unfold too_many. rewrite (length_recent _ H1), <- (ri_failures _ H1). unfold window_failure_ratio.
      cbn [breaker_record cb_config]. destruct (SFleb _ _).
      * cbn. split_and!; [done|by apply (ring_inv_same (breaker_record true b))|done].
      * cbn [breaker_record cb_state]. rewrite Hst. split_and!; done.
    + by rewrite Hst.
Qed.

(** The breaker is the breaker of the last results.  Whatever calls it gets, it admits and refuses
    as the specification does, and is in the state the specification is in: closed with its last
    [window_size] results, counted from the last closing, open since the failure that tripped it, or
    half open with its probes.  The ring of bits and the running count are an implementation of that
    list, and never wrap below zero. *)
Theorem breaker_refines_window (config : CircuitBreakerConfig) (cs : list BreakerCall) :
  let '(rs, b) := run_calls breaker_call cs (new_breaker config) in
  run_calls (spec_call config) cs (SpecClosed []) = (rs, spec_of b) /\ ring_inv b.
Proof.
  destruct (new_breaker_inv config) as [Hinv Hspec]. rewrite <- Hspec.
  assert (Hcfg : cb_config (new_breaker config) = config) by done. revert Hinv Hcfg. generalize (new_breaker config). clear Hspec.
  induction cs as [|c cs IH]; intros b Hinv Hcfg; cbn [run_calls]; [done|].
  pose proof (breaker_call_spec c b Hinv) as Hc. destruct (breaker_call c b) as [r b1]. destruct Hc as (Hr & H1 & Hcfg1).
  rewrite Hcfg in Hr, Hcfg1. rewrite Hr. specialize (IH b1 H1 Hcfg1).
  destruct (run_calls breaker_call cs b1) as [rs b2]. destruct IH as [-> H2]. done.
Qed.

(** While it is open the breaker admits nothing before its timeout, whatever is reported to it. *)
Lemma open_refuses config since cs :
  Forall (fun c => match c with CallAllow now => now < since + open_timeout config | _ => True end) cs ->
  run_calls (spec_call config) cs (SpecOpen since)
  = ((fun c => match c with CallAllow _ => Some false | _ => None end) <$> cs, SpecOpen since).
Proof.
  induction 1 as [|c cs Hc _ IH]; [done|]. cbn [run_calls fmap list_fmap].
  destruct c as [now| |now]; cbn [spec_call]; [rewrite (proj2 (Z.leb_gt _ _)) by lia|..]; by rewrite IH.
Qed.

(** With fewer than [min_samples] results a breaker whose ratio is positive does not trip. *)
Lemma few_samples_admitted config recent :
  (length recent < min_samples config)%nat -> SFleb (failure_ratio config) (S754_zero false) = false ->
  too_many config recent = false.
Proof. intros Hl Hr. unfold too_many, ratio_of. by rewrite (proj2 (Nat.ltb_lt _ _)). Qed.

(** The probes are not told from the calls that were admitted before the breaker tripped: three late
    results of such calls close a half-open breaker whose only probe has not been answered. *)
Definition sample_breaker : CircuitBreakerConfig := MkBreakerConfig 4 2 (double_div (to_double 1) (to_double 2)) (ms 5) 3.

Lemma late_results_close :
  let '(rs, b) := run_calls breaker_call
    [CallAllow 0; CallAllow 0; CallAllow 0; CallAllow 0; CallAllow 0; CallFailure 0; CallFailure 0; CallAllow (ms 4);
     CallAllow (ms 5); CallSuccess; CallSuccess; CallSuccess] (new_breaker sample_breaker) in
  rs = [Some true; Some true; Some true; Some true; Some true; None; None; Some false; Some true; None; None; None] /\
  spec_of b = SpecClosed [].
Proof. vm_compute. done. Qed.

(** ** The health of nodes *)

Record HealthCheckConfig := MkHealthConfig { failure_threshold : nat; success_threshold : nat }.
Record NodeHealth := MkNodeHealth { nh_healthy : bool; nh_failures : nat; nh_successes : nat }.
Abbreviation HealthChecker := (gmap Z NodeHealth) (only parsing).

Definition observe_health (config : HealthCheckConfig) (ok : bool) (h : NodeHealth) : NodeHealth :=
  if ok then
    MkNodeHealth (nh_healthy h || (success_threshold config <=? nh_successes h + 1)%nat) 0 (nh_successes h + 1)
  else
    MkNodeHealth (nh_healthy h && negb (failure_threshold config <=? nh_failures h + 1)%nat) (nh_failures h + 1) 0.

Definition health_observe (config : HealthCheckConfig) (node : Z) (ok : bool) (c : HealthChecker) : HealthChecker :=
  <[node := observe_health config ok (default (MkNodeHealth true 0 0) (c !! node))]> c.

Definition node_healthy (node : Z) (c : HealthChecker) : bool :=
  match c !! node with None => true | Some h => nh_healthy h end.

Definition consecutive_failures (node : Z) (c : HealthChecker) : nat :=
  match c !! node with None => 0%nat | Some h => nh_failures h end.

(** What was observed of a node. *)
Definition observed (node : Z) (obs : list (Z * bool)) : list bool := snd <$> filter (fun o => o.1 = node) obs.
Definition observe_all (config : HealthCheckConfig) (obs : list (Z * bool)) : HealthChecker :=
  foldl (fun c o => health_observe config o.1 o.2 c) ∅ obs.

(** [n] equal results somewhere in [l]. *)
Definition has_run (n : nat) (b : bool) (l : list bool) : Prop := exists l1 l2, l = l1 ++ replicate n b ++ l2.

(** A run of failures that no run of successes follows. *)
Definition fell (config : HealthCheckConfig) (obs : list bool) : Prop :=
  exists pre post, obs = pre ++ replicate (Nat.max 1 (failure_threshold config)) false ++ post /\
    ~ has_run (Nat.max 1 (success_threshold config)) true post.

(** The number of [b] at the end. *)
Definition ends_with (n : nat) (b : bool) (l : list bool) : Prop :=
  exists l0, l = l0 ++ replicate n b /\ last l0 <> Some b.

Lemma ends_with_snoc n b l : ends_with n b l -> ends_with (S n) b (l ++ [b]).
Proof.
  intros (l0 & -> & Hl). exists l0. by rewrite replicate_S_end, <- app_assoc.
Qed.

Lemma ends_with_other b b' l : b' <> b -> ends_with 0 b (l ++ [b']).
Proof. intros Hne. exists (l ++ [b']). rewrite app_nil_r, last_snoc. split; [done|congruence]. Qed.

Lemma ends_with_max n m b l pre : ends_with n b l -> l = pre ++ replicate m b -> (m <= n)%nat.
Proof.
  intros (l0 & -> & Hl). revert m pre. induction n as [|n IH]; intros [|m] pre He; try lia.
  - exfalso. apply Hl. rewrite replicate_S_end, app_assoc in He. cbn in He. rewrite app_nil_r in He. by rewrite He, last_snoc.
  - rewrite !replicate_S_end, !app_assoc in He. apply app_inj_tail in He as [He _]. apply IH in He. lia.
Qed.

Lemma run_snoc_other n b b' l : b' <> b -> has_run (S n) b (l ++ [b']) -> has_run (S n) b l.
Proof.
  intros Hne (l1 & l2 & He). induction l2 as [|x l2 _] using rev_ind.
  - rewrite app_nil_r, replicate_S_end, app_assoc in He. apply app_inj_tail in He as [_ He]. congruence.
  - rewrite !app_assoc in He. apply app_inj_tail in He as [He _]. exists l1, l2. by rewrite He, <- app_assoc.
Qed.

Lemma ends_within n l0 pre k post :
  l0 ++ replicate n true = pre ++ replicate (S k) false ++ post -> exists p0, post = p0 ++ replicate n true.
Proof.
  revert post. induction n as [|n IH]; intros post; [exists post; by rewrite app_nil_r|]. rewrite replicate_S_end, app_assoc.
  destruct post as [|x post _] using rev_ind; intros He.
  - rewrite app_nil_r, replicate_S_end, app_assoc in He. apply app_inj_tail in He as [_ He]. done.
  - rewrite !app_assoc in He. apply app_inj_tail in He as [He <-]. rewrite <- app_assoc in He.
    destruct (IH _ He) as (p0 & ->). exists p0. by rewrite <- app_assoc.
Qed.

Section Health.
Context (config : HealthCheckConfig).

(** What the counters of a node say of what was observed. *)
Record health_inv (obs : list bool) (h : NodeHealth) : Prop := {
  hi_failures : ends_with (nh_failures h) false obs;
  hi_successes : ends_with (nh_successes h) true obs;
  hi_healthy : nh_healthy h = false <-> fell config obs;
}.

Lemma fell_failure obs h :
  health_inv obs h -> fell config (obs ++ [false]) <-> nh_healthy h = false \/ (failure_threshold config <= nh_failures h + 1)%nat.
Proof.
  intros [Hf _ Hh]. split.
  - intros (pre & post & He & Hno). destruct post as [|x post _] using rev_ind.
    + right. rewrite app_nil_r in He. pose proof (ends_with_max _ _ _ _ _ (ends_with_snoc _ _ _ Hf) He). lia.
    + left. apply Hh. rewrite !app_assoc in He. apply app_inj_tail in He as [He _]. exists pre, post.
      rewrite <- app_assoc in He. split; [done|]. intros (l1 & l2 & ->). apply Hno. exists l1, (l2 ++ [x]). by rewrite <- !app_assoc.
  - intros [Hdown|Hmany].
    + apply Hh in Hdown as (pre & post & -> & Hno). exists pre, (post ++ [false]). rewrite <- !app_assoc. split; [done|].
      intros Hrun. apply Hno. destruct (Nat.max 1 (success_threshold config)) eqn:E; [lia|]. by apply run_snoc_other in Hrun.
    + destruct Hf as (l0 & -> & _). exists (l0 ++ replicate (S (nh_failures h) - Nat.max 1 (failure_threshold config)) false), [].
      rewrite app_nil_r, <- !app_assoc, <- replicate_add, <- replicate_S_end. split.
      * f_equal. f_equal. lia.
      * intros (l1 & l2 & He). destruct l1, (Nat.max 1 (success_threshold config)) eqn:E; cbn in He; try done; lia.
Qed.

Lemma fell_success obs h :
  health_inv obs h -> fell config (obs ++ [true]) <-> nh_healthy h = false /\ (nh_successes h + 1 < success_threshold config)%nat.
Proof.
  intros [_ Hs Hh]. split.
  - intros (pre & post & He & Hno). destruct post as [|x post _] using rev_ind.
    { exfalso. rewrite app_nil_r in He. destruct (Nat.max 1 (failure_threshold config)) eqn:E; [lia|].
      rewrite replicate_S_end, app_assoc in He. apply app_inj_tail in He as [_ He]. done. }
    rewrite !app_assoc in He. apply app_inj_tail in He as [He <-]. rewrite <- app_assoc in He. split.
    + apply Hh. exists pre, post. split; [done|]. intros (l1 & l2 & ->). apply Hno. exists l1, (l2 ++ [true]). by rewrite <- !app_assoc.
    + destruct (decide (nh_successes h + 1 < success_threshold config)%nat) as [|Hge]; [done|exfalso]. apply Hno.
      destruct Hs as (l0 & -> & _). set (S' := Nat.max 1 (success_threshold config)) in *.
      destruct (Nat.max 1 (failure_threshold config)) as [|F] eqn:E; [lia|].
      destruct (ends_within _ _ _ _ _ He) as (p0 & ->).
      exists (p0 ++ replicate (nh_successes h + 1 - S') true), [].
      rewrite app_nil_r, <- !app_assoc, <- replicate_add, <- replicate_S_end. f_equal. f_equal. lia.
  - intros [Hdown Hfew]. apply Hh in Hdown as (pre & post & -> & Hno). exists pre, (post ++ [true]).
    rewrite <- !app_assoc. split; [done|]. intros (l1 & l2 & He). destruct l2 as [|x l2 _] using rev_ind.
    + rewrite app_nil_r in He. destruct Hs as (l0 & Hobs & Hlast).
      assert (Hmax : (Nat.max 1 (success_threshold config) <= S (nh_successes h))%nat).
      { apply (ends_with_max _ _ true ((pre ++ replicate (Nat.max 1 (failure_threshold config)) false ++ post) ++ [true])
          (pre ++ replicate (Nat.max 1 (failure_threshold config)) false ++ l1)).
        - apply ends_with_snoc. exists l0. done.
        - rewrite <- !app_assoc. by rewrite He. }
      lia.
    + apply Hno. rewrite !app_assoc in He. apply app_inj_tail in He as [He _]. exists l1, l2. by rewrite He, <- app_assoc.
Qed.

Lemma observe_inv obs h ok : health_inv obs h -> health_inv (obs ++ [ok]) (observe_health config ok h).
Proof.
  intros Hinv. destruct ok; constructor; cbn [observe_health nh_failures nh_successes nh_healthy].
  - by apply ends_with_other.
  - rewrite Nat.add_1_r. apply ends_with_snoc, Hinv.
  - rewrite (fell_success _ _ Hinv), orb_false_iff, Nat.leb_gt. done.
  - rewrite Nat.add_1_r. apply ends_with_snoc, Hinv.
  - by apply ends_with_other.
  - rewrite (fell_failure _ _ Hinv), andb_false_iff, negb_false_iff, Nat.leb_le. done.
Qed.

Lemma observe_all_node node obs :
  health_inv (observed node obs) (default (MkNodeHealth true 0 0) (observe_all config obs !! node)) /\
  (observe_all config obs !! node = None -> observed node obs = []).
Proof.
  unfold observed, observe_all. induction obs as [|[n ok] obs IH] using rev_ind.
  - cbn. rewrite lookup_empty. split; [|done]. constructor; cbn; try (exists []; done).
    split; [done|]. intros (pre & post & He & _). destruct pre, (Nat.max 1 (failure_threshold config)) eqn:E; cbn in He; try done; lia.
  - rewrite foldl_app, filter_app. cbn [foldl]. unfold health_observe at 1 3. cbn [fst snd]. rewrite filter_cons.
    destruct (decide (n = node)) as [->|Hne].
    + rewrite decide_True, !lookup_insert_eq, fmap_app by done. cbn [filter list_filter fmap list_fmap default].
      split; [|done]. by apply observe_inv, IH.
    + rewrite decide_False, !lookup_insert_ne by done. cbn. rewrite app_nil_r. exact IH.
Qed.

(** Health has hysteresis: a node is down exactly when [failure_threshold] failures of it have been
    observed in a row and no [success_threshold] successes in a row since, whatever was observed of
    the other nodes, and a node that was never observed is up. *)
Theorem health_hysteresis (node : Z) (obs : list (Z * bool)) :
  node_healthy node (observe_all config obs) = false <-> fell config (observed node obs).
Proof.
  destruct (observe_all_node node obs) as [[_ _ Hh] Hnone]. rewrite <- Hh. unfold node_healthy.
  by destruct (observe_all config obs !! node).
Qed.
End Health.
