(* ===== verification/CreditWindow.v ===== *)
(** * Flow control by credits

    Models [CreditWindow] of [src/src/broker/credit_window.hpp]: a sender takes credits before each
    message and is suspended when they do not suffice; [grant] adds credits and resumes it.  The
    sender is a coroutine; here it is the list of the costs it has still to pay, and its suspension
    keeps the rest of that list.  Then [ConnectionState] of [ingress/connection_state.hpp], which
    holds the window of a connection and the requests in flight, and [TokenBucket] of
    [ingress/rate_limiter.hpp], on doubles. *)
From Stdlib Require Import ZArith Lia Floats.SpecFloat.
From stdpp Require Import base list gmap functions.
From S2P Require Import Prelude Frame.
#[local] Open Scope Z_scope.

(** The suspended sender: the cost its [Acquire] holds, and what it does next. *)
Record Waiter := MkWaiter { wt_cost : Z; wt_rest : list Z }.

Record CreditWindow := MkWindow {
  cw_credits : Z;
  cw_pending_cost : Z;
  cw_waiter : option Waiter;
  (** The costs paid so far: what the sender has sent. *)
  cw_paid : list Z;
}.

Definition new_window (initial : Z) : CreditWindow := MkWindow initial 0 None [].

(** [await_resume].  [credits_] is an [std::int32_t]: the sums wrap. *)
Definition pay (cost : Z) (w : CreditWindow) : CreditWindow :=
  MkWindow (to_i 32 (cw_credits w - cost)) (cw_pending_cost w) (cw_waiter w) (cw_paid w ++ [cost]).

(** The sender, from where it is: [co_await acquire(cost)] for each cost. *)
Fixpoint run_sender (costs : list Z) (w : CreditWindow) : CreditWindow :=
  match costs with
  | [] => w
  | cost :: rest =>
      if cost <=? cw_credits w then run_sender rest (pay cost w)
      else MkWindow (cw_credits w) cost (Some (MkWaiter cost rest)) (cw_paid w)
  end.

Definition grant (n : Z) (w : CreditWindow) : CreditWindow :=
  let w := MkWindow (to_i 32 (cw_credits w + n)) (cw_pending_cost w) (cw_waiter w) (cw_paid w) in
  match cw_waiter w with
  | Some resumed =>
      if cw_pending_cost w <=? cw_credits w
      then run_sender (wt_rest resumed) (pay (wt_cost resumed) (MkWindow (cw_credits w) 0 None (cw_paid w)))
      else w
  | None => w
  end.

(** ** What the credits pay *)

(** The messages that a budget pays, in order, and those it does not. *)
Fixpoint affordable (budget : Z) (costs : list Z) : list Z * list Z :=
  match costs with
  | [] => ([], [])
  | cost :: rest => if cost <=? budget then let '(paid, due) := affordable (budget - cost) rest in (cost :: paid, due) else ([], costs)
  end.

Definition total (costs : list Z) : Z := foldr Z.add 0 costs.

Lemma total_app l1 l2 : total (l1 ++ l2) = total l1 + total l2.
Proof. induction l1 as [|x l1 IH]; cbn; [done|]. unfold total in *. lia. Qed.

Lemma total_nonneg l : Forall (fun n => 0 <= n) l -> 0 <= total l.
Proof. induction 1; cbn; [lia|]. unfold total in *. lia. Qed.

(** A larger budget pays what a smaller one pays, and goes on from there. *)
Lemma affordable_more budget more costs :
  0 <= more ->
  affordable (budget + more) costs
  = let '(paid, due) := affordable budget costs in
    let '(paid', due') := affordable (budget + more - total paid) due in (paid ++ paid', due').
Proof.
  intros Hm. revert budget. induction costs as [|c costs IH]; intros budget; cbn [affordable]; [done|].
  destruct (Z.leb_spec c budget).
  - rewrite (proj2 (Z.leb_le _ _)) by lia. replace (budget + more - c) with (budget - c + more) by lia. rewrite IH.
    destruct (affordable (budget - c) costs) as [paid due]. cbn [total foldr]. fold (total paid).
    replace (budget - c + more - total paid) with (budget + more - (c + total paid)) by lia.
    by destruct (affordable _ due).
  - cbn [total foldr]. rewrite Z.sub_0_r. cbn [affordable]. destruct (c <=? budget + more); [|done].
    by destruct (affordable _ costs).
Qed.

Lemma affordable_split budget costs : (affordable budget costs).1 ++ (affordable budget costs).2 = costs.
Proof.
  revert budget. induction costs as [|c costs IH]; intros budget; cbn [affordable]; [done|]. destruct (_ <=? _); [|done].
  specialize (IH (budget - c)). destruct (affordable _ costs). cbn in *. by rewrite IH.
Qed.

Lemma affordable_within budget costs : 0 <= budget -> total (affordable budget costs).1 <= budget.
Proof.
  revert budget. induction costs as [|c costs IH]; intros budget Hb; cbn [affordable]; [done|].
  destruct (Z.leb_spec c budget) as [Hle|]; [|done]. specialize (IH (budget - c) ltac:(lia)). destruct (affordable _ costs). cbn in *. unfold total in *. lia.
Qed.

Lemma affordable_stuck budget costs cost due : (affordable budget costs).2 = cost :: due -> budget - total (affordable budget costs).1 < cost.
Proof.
  revert budget. induction costs as [|c costs IH]; intros budget; cbn [affordable]; [done|].
  destruct (Z.leb_spec c budget) as [Hle|Hlt].
  - specialize (IH (budget - c)). destruct (affordable _ costs) as [paid l]. cbn in *. unfold total in *. intros ->. specialize (IH eq_refl). lia.
  - cbn. intros [= -> ->]. lia.
Qed.

(** The window that has been granted [budget] in all. *)
Definition window_after (budget : Z) (costs : list Z) : CreditWindow :=
  let '(paid, due) := affordable budget costs in
  MkWindow (budget - total paid) (match due with [] => 0 | cost :: _ => cost end)
    (match due with [] => None | cost :: rest => Some (MkWaiter cost rest) end) paid.

Definition nonneg (l : list Z) : Prop := Forall (fun n => 0 <= n) l.

Lemma run_sender_affordable costs w :
  cw_waiter w = None -> nonneg costs -> 0 <= cw_credits w -> i_range 32 (cw_credits w) ->
  run_sender costs w
  = let '(paid, due) := affordable (cw_credits w) costs in
    MkWindow (cw_credits w - total paid) (match due with [] => cw_pending_cost w | cost :: _ => cost end)
      (match due with [] => None | cost :: rest => Some (MkWaiter cost rest) end) (cw_paid w ++ paid).
Proof.
  intros Hw Hcosts. revert w Hw. induction Hcosts as [|c costs Hc _ IH]; intros [credits pending waiter paid]; cbn [cw_waiter cw_credits]; intros -> H0 Hr;
    cbn [run_sender affordable cw_credits cw_paid].
  - cbn. by rewrite Z.sub_0_r, app_nil_r.
  - destruct (Z.leb_spec c credits) as [Hle|_].
    + assert (i_range 32 (credits - c)) by (unfold i_range in *; lia). unfold pay. cbn [cw_credits cw_pending_cost cw_waiter cw_paid].
      rewrite to_i_id, IH by (done || cbn; lia). cbn [cw_credits cw_paid cw_pending_cost]. destruct (affordable (credits - c) costs) as [p l].
      cbn [total foldr]. fold (total p). rewrite <- app_assoc. f_equal. lia.
    + cbn. by rewrite Z.sub_0_r, app_nil_r.
Qed.

(** A grant that leaves the credits in range. *)
Lemma grant_window n budget costs :
  0 <= n -> 0 <= budget -> nonneg costs -> i_range 32 (budget + n - total (affordable budget costs).1) ->
  grant n (window_after budget costs) = window_after (budget + n) costs.
Proof.
  intros Hn Hb Hcosts Hr. unfold window_after at 2. rewrite affordable_more by done. unfold window_after.
  pose proof (affordable_stuck budget costs) as Hstuck. pose proof (affordable_within budget costs Hb) as Hle.
  assert (Hdue : nonneg (affordable budget costs).2) by (unfold nonneg in *; rewrite <- (affordable_split budget costs), Forall_app in Hcosts; apply Hcosts).
  destruct (affordable budget costs) as [paid [|cost due]]; unfold grant; cbn [cw_waiter cw_credits cw_pending_cost cw_paid fst snd] in *;
    replace (budget - total paid + n) with (budget + n - total paid) by lia; rewrite to_i_id by (done || lia).
  - cbn. by rewrite app_nil_r.
  - specialize (Hstuck cost due eq_refl). destruct (Forall_cons_1 _ _ _ Hdue) as [Hc Hdue']. cbn [affordable].
    destruct (Z.leb_spec cost (budget + n - total paid)).
    + assert (i_range 32 (budget + n - total paid - cost)) by (unfold i_range in *; lia).
      unfold pay. cbn [wt_cost wt_rest cw_credits cw_pending_cost cw_waiter cw_paid]. rewrite to_i_id by (done || lia).
      rewrite run_sender_affordable by (done || cbn; lia). cbn [cw_credits cw_pending_cost cw_paid].
      destruct (affordable (budget + n - total paid - cost) due) as [p l]. rewrite total_app. cbn [total foldr]. fold (total p).
      rewrite <- app_assoc. cbn [app]. f_equal. lia.
    + cbn. by rewrite app_nil_r.
Qed.

(** A receiver that gives back only what it has drained: at each grant, all it has given back is at
    most what it has been sent. *)
Fixpoint drains (returned : Z) (grants : list Z) (w : CreditWindow) : Prop :=
  match grants with
  | [] => True
  | n :: grants => 0 <= n /\ returned + n <= total (cw_paid w) /\ drains (returned + n) grants (grant n w)
  end.

(** Against such a receiver the window follows the credits given in all, whatever their sum. *)
Lemma affordable_grows budget more costs :
  0 <= budget -> 0 <= more -> nonneg costs -> total (affordable budget costs).1 <= total (affordable (budget + more) costs).1.
Proof.
  intros Hb Hm Hcosts. pose proof (affordable_split budget costs) as Hs. rewrite affordable_more by done.
  destruct (affordable budget costs) as [paid due]. cbn [fst snd] in *. subst costs. apply Forall_app in Hcosts as [_ Hdue].
  pose proof (affordable_split (budget + more - total paid) due) as Hs. destruct (affordable _ due) as [p l]. cbn [fst snd] in *. subst due.
  apply Forall_app in Hdue as [Hp _]. rewrite total_app. pose proof (total_nonneg _ Hp). lia.
Qed.

Lemma drained_window initial returned costs grants :
  0 <= initial -> i_range 32 initial -> 0 <= returned -> nonneg costs ->
  returned <= total (affordable (initial + returned) costs).1 ->
  drains returned grants (window_after (initial + returned) costs) ->
  0 <= total grants /\
  returned + total grants <= total (affordable (initial + returned + total grants) costs).1 /\
  foldl (fun w n => grant n w) (window_after (initial + returned) costs) grants = window_after (initial + returned + total grants) costs.
Proof.
  intros Hi Hir Hr Hcosts. revert returned Hr. induction grants as [|n grants IH]; intros returned Hr Hback; cbn [drains foldl total foldr].
  { rewrite !Z.add_0_r. split; [lia|done]. }
  intros (Hn & Hsent & Hrest). fold (total grants).
  replace (cw_paid (window_after (initial + returned) costs)) with (affordable (initial + returned) costs).1 in Hsent
    by (unfold window_after; by destruct (affordable _ _)).
  assert (Hstep : grant n (window_after (initial + returned) costs) = window_after (initial + (returned + n)) costs).
  { rewrite grant_window; [f_equal; lia|done|lia|done|]. pose proof (affordable_within (initial + returned) costs ltac:(lia)).
    unfold i_range in *. lia. }
  rewrite Hstep in *. pose proof (affordable_grows (initial + returned) n costs ltac:(lia) Hn Hcosts) as Hgrow.
  replace (initial + returned + n) with (initial + (returned + n)) in Hgrow by lia.
  replace (initial + returned + (n + total grants)) with (initial + (returned + n) + total grants) by lia.
  replace (returned + (n + total grants)) with (returned + n + total grants) by lia.
  destruct (IH (returned + n) ltac:(lia) ltac:(lia) Hrest) as (? & ? & ?). split_and!; [lia|done|done].
Qed.

(** C40. Flow control by credits, at 32 bits.  For a window and costs that are not negative, and a
    receiver that gives back (in grants that are not negative) no more than it has drained of what
    it was sent: however many grants there are and however it splits them, the sender has sent
    exactly the messages, in order, that the credits given in all pay for, and waits exactly when it
    has something left to send; the credits stay between zero and the initial window, so that no sum
    overflows; what is sent and not yet given back never exceeds the window; and when no message
    costs more than the window and everything sent has been given back, the sender does not wait. *)
Theorem credits_pay_prefix (initial : Z) (costs grants : list Z)
    (Hinit : 0 <= initial) (Hwindow : i_range 32 initial) (Hcosts : Forall (fun n => 0 <= n) costs)
    (Hdrains : drains 0 grants (run_sender costs (new_window initial))) :
  let w := foldl (fun w n => grant n w) (run_sender costs (new_window initial)) grants in
  (exists due, costs = cw_paid w ++ due /\ cw_paid w = (affordable (initial + total grants) costs).1 /\
    (cw_waiter w = None <-> due = [])) /\
  cw_credits w = initial + total grants - total (cw_paid w) /\ 0 <= cw_credits w <= initial /\
  total (cw_paid w) - total grants <= initial /\
  (Forall (fun n => n <= initial) costs -> total grants = total (cw_paid w) -> cw_waiter w = None).
Proof.
  assert (Hstart : run_sender costs (new_window initial) = window_after (initial + 0) costs).
  { rewrite run_sender_affordable, Z.add_0_r by done. unfold window_after. cbn [new_window cw_credits cw_pending_cost cw_paid].
    by destruct (affordable initial costs). }
  cbv zeta. rewrite Hstart in *.
  destruct (drained_window initial 0 costs grants Hinit Hwindow ltac:(lia) Hcosts) as (Hg & Hback & ->); [|done|].
  { apply total_nonneg. unfold nonneg in *. rewrite <- (affordable_split (initial + 0) costs), Forall_app in Hcosts. apply Hcosts. }
  rewrite Z.add_0_r, Z.add_0_l in *. set (budget := initial + total grants) in *.
  assert (Hb : 0 <= budget) by lia.
  pose proof (affordable_split budget costs) as Hsplit. pose proof (affordable_within budget costs Hb) as Hle.
  pose proof (affordable_stuck budget costs) as Hstuck.
  unfold window_after. destruct (affordable budget costs) as [paid due]. cbn [fst snd cw_paid cw_waiter cw_credits] in *.
  split; [exists due; split_and!; [done|done|by destruct due]|]. split; [done|]. split; [lia|]. split; [lia|].
  intros Hsmall Heq. destruct due as [|cost due]; [done|]. exfalso. specialize (Hstuck cost due eq_refl).
  rewrite <- Hsplit in Hsmall. apply Forall_app in Hsmall as [_ Hsmall]. pose proof (Forall_inv Hsmall) as Hc. cbv beta in Hc. lia.
Qed.

Lemma credits_pay_prefix_witness :
  cw_paid (foldl (fun w n => grant n w) (run_sender [3; 4; 2; 5] (new_window 4)) [1; 2; 1; 3]) = [3; 4; 2] /\
  cw_credits (foldl (fun w n => grant n w) (run_sender [3; 4; 2; 5] (new_window 4)) [1; 2; 1; 3]) = 2.
Proof.
  assert (H1 : i_range 32 4) by by_range.
  assert (H2 : Forall (fun n => 0 <= n) [3; 4; 2; 5]) by (repeat constructor; lia).
  assert (H3 : drains 0 [1; 2; 1; 3] (run_sender [3; 4; 2; 5] (new_window 4))) by (vm_compute; repeat split; easy).
  destruct (credits_pay_prefix 4 [3; 4; 2; 5] [1; 2; 1; 3] ltac:(lia) H1 H2 H3) as [(due & _ & Hp & _) (Hc & _)].
  rewrite Hc, Hp. split; vm_compute; reflexivity.
Defined.

(** A receiver that gives more than it drained breaks the invariant [available() >= 0]: [grant] adds
    without a check, and past 2^31 the credits are negative and the sender waits with a cost of 1. *)
Theorem overgrant_goes_negative :
  cw_credits (grant 1 (new_window 2147483647)) = -2147483648 /\
  cw_waiter (run_sender [1] (grant 1 (new_window 2147483647))) = Some (MkWaiter 1 []).
Proof. vm_compute. done. Qed.

(** * The state of a connection *)

Record InflightRequest := MkInflight { if_api_key : ApiKey; if_started : Z }.

Record ConnectionState := MkConnection {
  cs_conn_id : Z;
  cs_principal : option (list byte);
  cs_credits : CreditWindow;
  cs_negotiated : ApiKey -> option Z;
  cs_inflight : gmap Z InflightRequest;
}.

Definition new_connection (conn_id initial_credits : Z) : ConnectionState :=
  MkConnection conn_id None (new_window initial_credits) (fun _ => None) ∅.

Definition set_negotiated_version (key : ApiKey) (version : Z) (c : ConnectionState) : ConnectionState :=
  MkConnection (cs_conn_id c) (cs_principal c) (cs_credits c) (<[key := Some version]> (cs_negotiated c)) (cs_inflight c).
Definition set_principal (principal : list byte) (c : ConnectionState) : ConnectionState :=
  MkConnection (cs_conn_id c) (Some principal) (cs_credits c) (cs_negotiated c) (cs_inflight c).
Definition with_inflight (inflight : gmap Z InflightRequest) (c : ConnectionState) : ConnectionState :=
  MkConnection (cs_conn_id c) (cs_principal c) (cs_credits c) (cs_negotiated c) inflight.

(** [emplace] leaves an entry that is there. *)
Definition begin_request (correlation_id : Z) (request : InflightRequest) (c : ConnectionState) : bool * ConnectionState :=
  match cs_inflight c !! correlation_id with
  | Some _ => (false, c)
  | None => (true, with_inflight (<[correlation_id := request]> (cs_inflight c)) c)
  end.

Definition complete_request (correlation_id : Z) (c : ConnectionState) : option InflightRequest * ConnectionState :=
  match cs_inflight c !! correlation_id with
  | None => (None, c)
  | Some request => (Some request, with_inflight (delete correlation_id (cs_inflight c)) c)
  end.

Definition has_inflight (correlation_id : Z) (c : ConnectionState) : bool := bool_decide (is_Some (cs_inflight c !! correlation_id)).
Definition inflight_count (c : ConnectionState) : nat := size (cs_inflight c).

(** What a connection does with its requests, and the requests that were begun and completed. *)
Inductive RequestCall := BeginRequest (correlation_id : Z) (request : InflightRequest) | CompleteRequest (correlation_id : Z).

Definition request_call (w : list (Z * InflightRequest) * list (Z * InflightRequest) * ConnectionState) (call : RequestCall) :=
  let '(begun, completed, c) := w in
  match call with
  | BeginRequest id request =>
      let '(accepted, c) := begin_request id request c in (if accepted : bool then begun ++ [(id, request)] else begun, completed, c)
  | CompleteRequest id =>
      let '(done, c) := complete_request id c in (begun, match done with Some request => completed ++ [(id, request)] | None => completed end, c)
  end.

(** Requests complete once: those begun are those completed, each with the data it was begun with, and
    those in flight, whose number is their difference. *)
Theorem requests_complete_once (conn_id credits : Z) (calls : list RequestCall) :
  let '(begun, completed, c) := foldl request_call ([], [], new_connection conn_id credits) calls in
  begun ≡ₚ completed ++ map_to_list (cs_inflight c) /\ inflight_count c = (length begun - length completed)%nat.
Proof.
  assert (Hinv : forall w, w.1.1 ≡ₚ w.1.2 ++ map_to_list (cs_inflight w.2) ->
    let w' := foldl request_call w calls in w'.1.1 ≡ₚ w'.1.2 ++ map_to_list (cs_inflight w'.2)).
  { induction calls as [|call calls IH]; intros [[begun completed] c] Hw; [done|]. cbn [foldl]. apply IH. clear IH. cbn [fst snd] in *.
    destruct call as [id request|id]; cbn [request_call]; unfold begin_request, complete_request;
      destruct (cs_inflight c !! id) as [r|] eqn:Hid; try done; cbn [fst snd cs_inflight with_inflight].
    - rewrite map_to_list_insert by done. rewrite Hw, <- app_assoc. apply Permutation_app_head. symmetry. apply Permutation_cons_append.
    - rewrite Hw, <- app_assoc. apply Permutation_app_head. cbn. by rewrite map_to_list_delete. }
  specialize (Hinv ([], [], new_connection conn_id credits)). cbn zeta in Hinv.
  destruct (foldl request_call _ calls) as [[begun completed] c]. cbn [fst snd] in Hinv.
  assert (Hperm : begun ≡ₚ completed ++ map_to_list (cs_inflight c)) by (apply Hinv; cbn; by rewrite map_to_list_empty).
  split; [done|]. rewrite (Permutation_length Hperm), length_app, length_map_to_list. unfold inflight_count. lia.
Qed.

(** * The token bucket *)

(** [std::max(0.0, x)] and [std::min]. *)
Definition max_zero (x : spec_float) : spec_float := if SFltb (S754_zero false) x then x else S754_zero false.
Definition min_double (a b : spec_float) : spec_float := if SFltb b a then b else a.

Record TokenBucket := MkBucket { tb_tokens : spec_float; tb_rate : spec_float; tb_cap : spec_float; tb_last : Z }.

Definition new_bucket (rate_per_sec burst : spec_float) (now : Z) : TokenBucket :=
  MkBucket (max_zero burst) (max_zero rate_per_sec) (max_zero burst) now.

Definition bucket_configure (rate_per_sec burst : spec_float) (b : TokenBucket) : TokenBucket :=
  MkBucket (min_double (tb_tokens b) (max_zero burst)) (max_zero rate_per_sec) (max_zero burst) (tb_last b).

(** [duration<double>] of some nanoseconds, more than none. *)
Definition seconds_of (nanoseconds : Z) : spec_float :=
  SFdiv 53 1024 (binary_normalize 53 1024 nanoseconds 0 false) (binary_normalize 53 1024 (10 ^ 9) 0 false).

Definition bucket_refill (now : Z) (b : TokenBucket) : TokenBucket :=
  if now <=? tb_last b then b
  else
    MkBucket (min_double (tb_cap b) (SFadd 53 1024 (tb_tokens b) (SFmul 53 1024 (tb_rate b) (seconds_of (now - tb_last b)))))
      (tb_rate b) (tb_cap b) now.

Definition bucket_allow (now : Z) (cost : spec_float) (b : TokenBucket) : bool * TokenBucket :=
  let b := bucket_refill now b in
  if SFleb cost (tb_tokens b) then (true, MkBucket (SFsub 53 1024 (tb_tokens b) cost) (tb_rate b) (tb_cap b) (tb_last b))
  else (false, b).

Definition bucket_available (now : Z) (b : TokenBucket) : spec_float * TokenBucket := let b := bucket_refill now b in (tb_tokens b, b).

(** A bucket that is filled holds its capacity or less, the time it knows does not go back, filling it
    twice at a time is filling it once, and a request that is refused takes nothing. *)
Lemma bucket_refill_capped now cost b :
  let b' := bucket_refill now b in
  (tb_last b < now -> tb_tokens b' = tb_cap b' \/ SFltb (tb_tokens b') (tb_cap b') = true) /\
  tb_last b' = Z.max (tb_last b) now /\ bucket_refill now b' = b' /\
  ((bucket_allow now cost b).1 = false -> (bucket_allow now cost b).2 = b').
Proof.
  cbv zeta. split_and!.
  - intros Hlt. unfold bucket_refill. rewrite (proj2 (Z.leb_gt _ _)) by done. cbn [tb_tokens tb_cap].
    unfold min_double. destruct (SFltb _ _) eqn:E; [by right|by left].
  - unfold bucket_refill. destruct (Z.leb_spec now (tb_last b)); cbn; lia.
  - unfold bucket_refill. destruct (Z.leb_spec now (tb_last b)) as [Hle|]; cbn [tb_last]; [by rewrite (proj2 (Z.leb_le _ _))|by rewrite Z.leb_refl].
  - unfold bucket_allow. by destruct (SFleb _ _).
Qed.

(** A bucket of two tokens that gains one every two seconds: the burst, a refusal, and the token of later. *)
Example bucket_at_work :
  let double m e := S754_finite false m e in
  let one := double (2 ^ 52)%positive (-52) in
  let b := new_bucket (double (2 ^ 52)%positive (-53)) (double (2 ^ 52)%positive (-51)) 0 in
  let '(a1, b) := bucket_allow 0 one b in
  let '(a2, b) := bucket_allow 0 one b in
  let '(a3, b) := bucket_allow (10 ^ 9) one b in
  let '(a4, b) := bucket_allow (2 * 10 ^ 9) one b in
  [a1; a2; a3; a4] = [true; true; false; true].
Proof. vm_compute. done. Qed.
