(* ===== verification/Proxy.v ===== *)
(** * The load balancer and the proxy

    Models [LoadBalancer] of [src/src/ingress/load_balancer.cpp]: turns, fewest connections, and a
    ring of hashed virtual nodes; the set of nodes is a sorted list, the ring an ordered map, of
    which the balancer uses [emplace], [lower_bound] and [begin].  Then the proxy and its connections
    to the nodes. *)
From Stdlib Require Import ZArith Lia Sorted.
From stdpp Require Import base list gmap sets strings sorting.
From S2P Require Import Prelude Codec Hashes Decimal Frame FrameIo.
#[local] Open Scope Z_scope.

(** ** The state *)

Inductive BalanceStrategy := RoundRobin | LeastConnections | ConsistentHashing.

#[export] Instance BalanceStrategy_eq_dec : EqDecision BalanceStrategy.
Proof. solve_decision. Defined.

Abbreviation Ring := (gmap Z Z) (only parsing).

Record LoadBalancer := MkBalancer {
  lb_strategy : BalanceStrategy;
  lb_vnodes : nat;
  lb_nodes : list Z;
  lb_cursor : nat;
  lb_active : gmap Z nat;
  lb_ring : Ring;
}.

Definition new_balancer (strategy : BalanceStrategy) (vnodes : nat) : LoadBalancer :=
  MkBalancer strategy (Nat.max 1 vnodes) [] 0 ∅ ∅.

(** ** The ring *)

Definition vkey (node : Z) (replica : nat) : list byte := to_string node ++ [35] ++ to_string (Z.of_nat replica).

(** [emplace], which keeps what is there. *)
Definition ring_emplace (point node : Z) (ring : Ring) : Ring :=
  match ring !! point with Some _ => ring | None => <[point := node]> ring end.

Definition ring_node (vnodes : nat) (ring : Ring) (node : Z) : Ring :=
  foldl (fun ring replica => ring_emplace (fnv1a_bytes (vkey node replica)) node ring) ring (seq 0 vnodes).

Definition build_ring (vnodes : nat) (nodes : list Z) : Ring := foldl (ring_node vnodes) ∅ nodes.

Definition rebuild_ring (lb : LoadBalancer) : LoadBalancer :=
  MkBalancer (lb_strategy lb) (lb_vnodes lb) (lb_nodes lb) (lb_cursor lb) (lb_active lb)
    (build_ring (lb_vnodes lb) (lb_nodes lb)).

(** The least of some points. *)
Definition least (points : list Z) : option Z :=
  match points with [] => None | x :: xs => Some (foldr Z.min x xs) end.
Definition points_of (ring : Ring) : list Z := (map_to_list ring).*1.
Definition lower_bound (point : Z) (ring : Ring) : option Z := least (filter (fun k => point <= k) (points_of ring)).
Definition ring_begin (ring : Ring) : option Z := least (points_of ring).

(** ** The operations *)

(** [insert] at [lower_bound]. *)
Fixpoint node_insert (node : Z) (nodes : list Z) : list Z :=
  match nodes with
  | [] => [node]
  | n :: rest => if n <? node then n :: node_insert node rest else node :: nodes
  end.

Definition add_node (node : Z) (lb : LoadBalancer) : LoadBalancer :=
  if bool_decide (node ∈ lb_nodes lb) then lb
  else
    let lb := MkBalancer (lb_strategy lb) (lb_vnodes lb) (node_insert node (lb_nodes lb)) (lb_cursor lb)
                (match lb_active lb !! node with Some _ => lb_active lb | None => <[node := O]> (lb_active lb) end)
                (lb_ring lb) in
    if decide (lb_strategy lb = ConsistentHashing) then rebuild_ring lb else lb.

(** [erase] of the first. *)
Fixpoint node_erase (node : Z) (nodes : list Z) : list Z :=
  match nodes with
  | [] => []
  | n :: rest => if n =? node then rest else n :: node_erase node rest
  end.

Definition remove_node (node : Z) (lb : LoadBalancer) : LoadBalancer :=
  if bool_decide (node ∈ lb_nodes lb) then
    let nodes := node_erase node (lb_nodes lb) in
    let lb := MkBalancer (lb_strategy lb) (lb_vnodes lb) nodes
                (if (length nodes <=? lb_cursor lb)%nat then O else lb_cursor lb) (delete node (lb_active lb)) (lb_ring lb) in
    if decide (lb_strategy lb = ConsistentHashing) then rebuild_ring lb else lb
  else lb.

Definition active (node : Z) (lb : LoadBalancer) : nat := default O (lb_active lb !! node).

Definition set_active (active : gmap Z nat) (lb : LoadBalancer) : LoadBalancer :=
  MkBalancer (lb_strategy lb) (lb_vnodes lb) (lb_nodes lb) (lb_cursor lb) active (lb_ring lb).

Definition on_acquire (node : Z) (lb : LoadBalancer) : LoadBalancer :=
  set_active (<[node := S (active node lb)]> (lb_active lb)) lb.

Definition on_release (node : Z) (lb : LoadBalancer) : LoadBalancer :=
  match lb_active lb !! node with
  | Some (S n) => set_active (<[node := n]> (lb_active lb)) lb
  | _ => lb
  end.

(** The first of the least loaded. *)
Definition pick_least (lb : LoadBalancer) (best : Z) (nodes : list Z) : Z :=
  (foldl (fun b node => if (active node lb <? b.2)%nat then (node, active node lb) else b) (best, active best lb) nodes).1.

Definition pick_ring (key : list byte) (ring : Ring) : option Z :=
  match lower_bound (fnv1a_bytes key) ring with
  | Some k => ring !! k
  | None => match ring_begin ring with Some k => ring !! k | None => None end
  end.

Definition pick (key : list byte) (lb : LoadBalancer) : option Z * LoadBalancer :=
  match lb_nodes lb with
  | [] => (None, lb)
  | first :: _ =>
      match lb_strategy lb with
      | RoundRobin =>
          (lb_nodes lb !! lb_cursor lb,
           MkBalancer (lb_strategy lb) (lb_vnodes lb) (lb_nodes lb) ((lb_cursor lb + 1) mod length (lb_nodes lb))
             (lb_active lb) (lb_ring lb))
      | LeastConnections => (Some (pick_least lb first (lb_nodes lb)), lb)
      | ConsistentHashing => (pick_ring key (lb_ring lb), lb)
      end
  end.

Inductive BalancerCall := LbAdd (node : Z) | LbRemove (node : Z) | LbPick (key : list byte) | LbAcquire (node : Z) | LbRelease (node : Z).

Definition balancer_call (lb : LoadBalancer) (c : BalancerCall) : LoadBalancer :=
  match c with
  | LbAdd node => add_node node lb
  | LbRemove node => remove_node node lb
  | LbPick key => (pick key lb).2
  | LbAcquire node => on_acquire node lb
  | LbRelease node => on_release node lb
  end.

Definition balancer_run (cs : list BalancerCall) (lb : LoadBalancer) : LoadBalancer := foldl balancer_call lb cs.

(** ** The invariant *)

Record balancer_inv (lb : LoadBalancer) : Prop := {
  bi_sorted : StronglySorted Z.lt (lb_nodes lb);
  bi_cursor : (lb_cursor lb < Nat.max 1 (length (lb_nodes lb)))%nat;
  bi_vnodes : (0 < lb_vnodes lb)%nat;
  bi_ring : lb_strategy lb = ConsistentHashing -> lb_ring lb = build_ring (lb_vnodes lb) (lb_nodes lb);
}.

Lemma node_insert_in node nodes x : x ∈ node_insert node nodes <-> x = node \/ x ∈ nodes.
Proof. induction nodes as [|n nodes IH]; cbn; [set_solver|]. destruct (_ <? _); set_solver. Qed.

Lemma node_insert_length node nodes : length (node_insert node nodes) = S (length nodes).
Proof. induction nodes as [|n nodes IH]; cbn; [done|]. destruct (_ <? _); cbn; lia. Qed.

Lemma node_insert_sorted node nodes : node ∉ nodes -> StronglySorted Z.lt nodes -> StronglySorted Z.lt (node_insert node nodes).
Proof.
  intros Hno. induction 1 as [|n nodes Hs IH Hall]; cbn; [repeat constructor|]. apply not_elem_of_cons in Hno as [Hne Hno].
  destruct (Z.ltb_spec n node).
  - constructor; [by apply IH|]. apply Forall_forall. intros x [->|Hx]%node_insert_in; [done|]. rewrite Forall_forall in Hall. by apply Hall.
  - constructor; [by constructor|]. constructor; [lia|]. eapply Forall_impl; [done|]. intros x Hx; cbn in Hx. lia.
Qed.

Lemma filter_all {A} (P : A -> Prop) `{!forall x, Decision (P x)} (l : list A) : Forall P l -> filter P l = l.
Proof. induction 1; [done|]. by rewrite filter_cons, decide_True by done; f_equal. Qed.

Lemma node_erase_filter node nodes : StronglySorted Z.lt nodes -> node_erase node nodes = filter (fun n => n <> node) nodes.
Proof.
  induction 1 as [|n nodes Hs IH Hall]; cbn [node_erase]; [done|]. rewrite filter_cons.
  destruct (Z.eqb_spec n node) as [->|Hne]; [|by rewrite decide_True, IH].
  rewrite decide_False by auto. symmetry. apply filter_all. eapply Forall_impl; [done|]. intros x Hx; cbn in Hx. lia.
Qed.

Lemma sorted_filter_nodes P `{!forall n : Z, Decision (P n)} nodes : StronglySorted Z.lt nodes -> StronglySorted Z.lt (filter P nodes).
Proof.
  induction 1 as [|n nodes Hs IH Hall]; [constructor|]. rewrite filter_cons. case_decide; [|done]. constructor; [done|].
  apply Forall_forall. intros x [_ Hx]%list_elem_of_filter. rewrite Forall_forall in Hall. by apply Hall.
Qed.

Lemma add_node_inv node lb : balancer_inv lb -> balancer_inv (add_node node lb).
Proof.
  intros [Hs Hc Hv Hr]. unfold add_node. case_bool_decide as Hin; [done|]. cbv zeta. cbn [lb_strategy].
  assert (Hs' := node_insert_sorted _ _ Hin Hs). pose proof (node_insert_length node (lb_nodes lb)).
  case_decide; constructor; cbn; try done; try lia.
Qed.

Lemma remove_node_inv node lb : balancer_inv lb -> balancer_inv (remove_node node lb).
Proof.
  intros [Hs Hc Hv Hr]. unfold remove_node. case_bool_decide as Hin; [|done]. cbv zeta. cbn [lb_strategy].
  assert (Hs' : StronglySorted Z.lt (node_erase node (lb_nodes lb)))
    by (rewrite node_erase_filter by done; by apply sorted_filter_nodes).
  assert (Hc' : ((if (length (node_erase node (lb_nodes lb)) <=? lb_cursor lb)%nat then O else lb_cursor lb)
    < Nat.max 1 (length (node_erase node (lb_nodes lb))))%nat) by (destruct (Nat.leb_spec (length (node_erase node (lb_nodes lb))) (lb_cursor lb)); lia).
  case_decide; constructor; cbn; done.
Qed.

Lemma balancer_call_inv lb c : balancer_inv lb -> balancer_inv (balancer_call lb c).
Proof.
  intros Hinv. destruct c as [node|node|key|node|node]; cbn [balancer_call].
  - by apply add_node_inv.
  - by apply remove_node_inv.
  - unfold pick. destruct (lb_nodes lb) as [|n nodes] eqn:Hn; [done|]. destruct (lb_strategy lb) eqn:Hst; [|done..].
    destruct Hinv as [Hs Hc Hv Hr]. rewrite Hn in Hs, Hc. constructor; cbn [snd lb_nodes lb_cursor lb_vnodes lb_strategy]; try done.
    pose proof (Nat.mod_upper_bound (lb_cursor lb + 1) (length (n :: nodes))). cbn [length] in *. lia.
  - destruct Hinv; constructor; done.
  - unfold on_release. destruct (lb_active lb !! node) as [[|k]|]; [done| |done]. destruct Hinv; constructor; done.
Qed.

Lemma balancer_call_same lb c :
  lb_strategy (balancer_call lb c) = lb_strategy lb /\ lb_vnodes (balancer_call lb c) = lb_vnodes lb.
Proof.
  destruct c; cbn [balancer_call].
  - unfold add_node. case_bool_decide; [done|]. cbv zeta. by case_decide.
  - unfold remove_node. case_bool_decide; [|done]. cbv zeta. by case_decide.
  - unfold pick. destruct (lb_nodes lb) as [|n ns]; [done|]. by destruct (lb_strategy lb) eqn:Hs.
  - done.
  - unfold on_release. by destruct (lb_active lb !! node) as [[]|].
Qed.

Lemma balancer_run_inv strategy vnodes cs :
  balancer_inv (balancer_run cs (new_balancer strategy vnodes)) /\
  lb_strategy (balancer_run cs (new_balancer strategy vnodes)) = strategy.
Proof.
  unfold balancer_run. assert (H0 : balancer_inv (new_balancer strategy vnodes)) by (constructor; cbn; try done; try lia; constructor).
  assert (Hst : lb_strategy (new_balancer strategy vnodes) = strategy) by done. revert H0 Hst.
  generalize (new_balancer strategy vnodes). induction cs as [|c cs IH]; intros lb Hinv Hst; [done|].
  apply IH; [by apply balancer_call_inv|]. by rewrite (proj1 (balancer_call_same _ _)).
Qed.

(** ** The ring *)

(** A node has a point. *)
Definition owns_point (vnodes : nat) (point node : Z) : Prop := point ∈ (fun r => fnv1a_bytes (vkey node r)) <$> seq 0 vnodes.

#[local] Instance owns_point_dec vnodes point node : Decision (owns_point vnodes point node) :=
  decide (point ∈ (fun r => fnv1a_bytes (vkey node r)) <$> seq 0 vnodes).

Lemma ring_emplace_lookup point node ring p :
  ring_emplace point node ring !! p = match ring !! p with Some m => Some m | None => if decide (p = point) then Some node else None end.
Proof.
  unfold ring_emplace. destruct (ring !! point) eqn:E.
  - destruct (ring !! p) eqn:Ep; [done|]. case_decide; congruence.
  - destruct (decide (p = point)) as [->|Hne]; [by rewrite lookup_insert_eq, E|].
    rewrite lookup_insert_ne by done. by destruct (ring !! p).
Qed.

Lemma ring_node_lookup vnodes ring node p :
  ring_node vnodes ring node !! p
  = match ring !! p with Some m => Some m | None => if decide (owns_point vnodes p node) then Some node else None end.
Proof.
  unfold ring_node, owns_point_dec, owns_point. revert ring. induction (seq 0 vnodes) as [|r rs IH]; intros ring; cbn [foldl].
  - destruct (ring !! p); [done|]. rewrite decide_False by set_solver. done.
  - rewrite IH, ring_emplace_lookup. destruct (ring !! p) as [m|]; [done|]. rewrite fmap_cons.
    destruct (decide (p = fnv1a_bytes (vkey node r))) as [->|Hne]; [by rewrite decide_True by set_solver|].
    destruct (decide (p ∈ _)); [by rewrite decide_True by set_solver|by rewrite decide_False by set_solver].
Qed.

(** The ring gives a point to the first of the nodes that hash to it. *)
Lemma build_ring_lookup vnodes nodes p : build_ring vnodes nodes !! p = head (filter (owns_point vnodes p) nodes).
Proof.
  unfold build_ring. assert (H : forall ring, foldl (ring_node vnodes) ring nodes !! p
    = match ring !! p with Some m => Some m | None => head (filter (owns_point vnodes p) nodes) end).
  { induction nodes as [|n nodes IH]; intros ring; cbn [foldl]; [by destruct (ring !! p)|].
    rewrite IH, ring_node_lookup, filter_cons. destruct (ring !! p); [done|]. by case_decide. }
  rewrite H. by rewrite lookup_empty.
Qed.

Lemma least_spec points k : least points = Some k <-> k ∈ points /\ Forall (fun x => k <= x) points.
Proof.
  assert (H : forall x xs, foldr Z.min x xs ∈ x :: xs /\ Forall (fun y => foldr Z.min x xs <= y) (x :: xs)).
  { intros x xs. induction xs as [|y ys [IH1 IH2]]; cbn [foldr]; [split; [set_solver|repeat constructor; lia]|].
    apply Forall_cons in IH2 as [IHx IH2]. split.
    - destruct (Z.min_spec y (foldr Z.min x ys)) as [[_ ->]|[_ ->]]; set_solver.
    - repeat constructor; [lia..|]. eapply Forall_impl; [done|]. intros z Hz; cbn in Hz. lia. }
  destruct points as [|x xs]; cbn [least]; [split; [done|intros [? _]; set_solver]|]. destruct (H x xs) as [Hin Hall].
  split; [intros [= <-]; done|]. intros [Hk Hmin]. f_equal. rewrite Forall_forall in Hall, Hmin.
  specialize (Hall k Hk). specialize (Hmin _ Hin). lia.
Qed.

Lemma elem_of_points ring p : p ∈ points_of ring <-> is_Some (ring !! p).
Proof.
  unfold points_of. rewrite list_elem_of_fmap. split.
  - intros ([k v] & -> & Hin%elem_of_map_to_list). by exists v.
  - intros [v Hv]. exists (p, v). split; [done|]. by apply elem_of_map_to_list.
Qed.

(** The point a key falls on: the first at or after it, or the first of all. *)
Definition falls_on (h : Z) (ring : Ring) (k : Z) : Prop :=
  is_Some (ring !! k) /\
  ((h <= k /\ forall p, is_Some (ring !! p) -> h <= p -> k <= p) \/
   ((forall p, is_Some (ring !! p) -> p < h) /\ forall p, is_Some (ring !! p) -> k <= p)).

Lemma pick_ring_spec key ring :
  match pick_ring key ring with
  | Some n => exists k, falls_on (fnv1a_bytes key) ring k /\ ring !! k = Some n
  | None => ring = ∅
  end.
Proof.
  unfold pick_ring, lower_bound, ring_begin. set (h := fnv1a_bytes key).
  destruct (least (filter _ _)) as [k|] eqn:Hl.
  - apply least_spec in Hl as [[Hh Hk]%list_elem_of_filter Hmin]. apply elem_of_points in Hk as Hs. destruct Hs as [n Hn].
    rewrite Hn. exists k. split; [|done]. split; [by exists n|]. left. split; [done|]. intros p Hp Hle.
    rewrite Forall_forall in Hmin. apply Hmin, list_elem_of_filter. split; [done|by apply elem_of_points].
  - assert (Hno : forall p, is_Some (ring !! p) -> p < h).
    { intros p Hp. destruct (decide (h <= p)); [|lia]. exfalso.
      assert (Hin : p ∈ filter (fun k => h <= k) (points_of ring)) by (apply list_elem_of_filter; split; [done|by apply elem_of_points]).
      destruct (filter _ _); [set_solver|done]. }
    destruct (least (points_of ring)) as [k|] eqn:Hb.
    + apply least_spec in Hb as [Hk Hmin]. apply elem_of_points in Hk as Hs. destruct Hs as [n Hn]. rewrite Hn.
      exists k. split; [|done]. split; [by exists n|]. right. split; [done|]. intros p Hp.
      rewrite Forall_forall in Hmin. by apply Hmin, elem_of_points.
    + apply map_eq. intros p. rewrite lookup_empty. destruct (ring !! p) eqn:Hp; [|done].
      assert (Hin : p ∈ points_of ring) by (apply elem_of_points; by eexists). destruct (points_of ring); [set_solver|done].
Qed.

Lemma falls_on_unique h ring k1 k2 : falls_on h ring k1 -> falls_on h ring k2 -> k1 = k2.
Proof.
  intros [Hs1 H1] [Hs2 H2]. destruct H1 as [[L1 M1]|[L1 M1]], H2 as [[L2 M2]|[L2 M2]].
  - specialize (M1 _ Hs2 L2). specialize (M2 _ Hs1 L1). lia.
  - specialize (L2 _ Hs1). lia.
  - specialize (L1 _ Hs2). lia.
  - specialize (M1 _ Hs2). specialize (M2 _ Hs1). lia.
Qed.

(** A ring that keeps the point a key falls on, and has no points but those of the other, picks the
    same for that key. *)
Lemma falls_on_sub h ring ring' k :
  (forall p, is_Some (ring' !! p) -> is_Some (ring !! p)) -> falls_on h ring k -> is_Some (ring' !! k) -> falls_on h ring' k.
Proof. intros Hsub [_ Hk] Hs. split; [done|]. destruct Hk as [[? Hm]|[Hl Hm]]; [left|right]; split; eauto. Qed.

Lemma pick_ring_sub key ring ring' n :
  (forall p, is_Some (ring' !! p) -> is_Some (ring !! p)) ->
  (forall p m, ring !! p = Some m -> m <> n -> ring' !! p = Some m) ->
  pick_ring key ring' = pick_ring key ring \/ pick_ring key ring = Some n.
Proof.
  intros Hsub Hkeep. pose proof (pick_ring_spec key ring) as H. destruct (pick_ring key ring) as [m|].
  - destruct (decide (m = n)) as [->|Hne]; [by right|left]. destruct H as (k & Hk & Hm).
    assert (Hm' := Hkeep k m Hm Hne). assert (Hk' : falls_on (fnv1a_bytes key) ring' k) by (apply (falls_on_sub _ ring); [done..|by exists m]).
    pose proof (pick_ring_spec key ring') as H'. destruct (pick_ring key ring') as [m'|].
    + destruct H' as (k' & Hf & Hm''). rewrite (falls_on_unique _ _ _ _ Hf Hk') in Hm''. congruence.
    + subst ring'. by rewrite lookup_empty in Hm'.
  - left. subst ring. pose proof (pick_ring_spec key ring') as H'. destruct (pick_ring key ring') as [m'|]; [|done].
    destruct H' as (k & _ & Hm'). destruct (Hsub k) as [? Hx]; [by eexists|]. by rewrite lookup_empty in Hx.
Qed.

Lemma head_filter_some P `{!forall n : Z, Decision (P n)} nodes n :
  head (filter P nodes) = Some n -> n ∈ nodes /\ P n.
Proof.
  intros Hh. destruct (filter P nodes) eqn:E; [done|]. injection Hh as ->.
  assert (Hn : n ∈ filter P nodes) by (rewrite E; set_solver).
  by apply list_elem_of_filter in Hn as [? ?].
Qed.

Lemma head_filter_erase P `{!forall n : Z, Decision (P n)} node nodes m :
  head (filter P nodes) = Some m -> m <> node -> head (filter P (filter (fun n => n <> node) nodes)) = Some m.
Proof.
  induction nodes as [|n nodes IH]; [done|]. rewrite !filter_cons. destruct (decide (n <> node)) as [Hn|Hn]; rewrite ?filter_cons; destruct (decide (P n)); auto.
  intros [= ->] ?. tauto.
Qed.

Lemma head_filter_none P `{!forall n : Z, Decision (P n)} node nodes :
  is_Some (head (filter P (filter (fun n => n <> node) nodes))) -> is_Some (head (filter P nodes)).
Proof.
  intros [m Hm]. apply head_filter_some in Hm as [Hm HP]. apply list_elem_of_filter in Hm as [_ Hm].
  destruct (filter P nodes) eqn:E; [|by eexists]. assert (Hf : m ∈ filter P nodes) by (by apply list_elem_of_filter). rewrite E in Hf. set_solver.
Qed.

Lemma pick_consistent key lb :
  balancer_inv lb -> lb_strategy lb = ConsistentHashing -> (pick key lb).1 = pick_ring key (build_ring (lb_vnodes lb) (lb_nodes lb)).
Proof.
  intros Hinv Hst. unfold pick. rewrite Hst. destruct (lb_nodes lb) as [|n ns] eqn:Hn; [done|].
  cbn [fst]. by rewrite (bi_ring _ Hinv Hst), Hn.
Qed.

Lemma erase_ring_sub vnodes node nodes :
  (forall p, is_Some (build_ring vnodes (filter (fun n => n <> node) nodes) !! p) -> is_Some (build_ring vnodes nodes !! p)) /\
  (forall p m, build_ring vnodes nodes !! p = Some m -> m <> node -> build_ring vnodes (filter (fun n => n <> node) nodes) !! p = Some m).
Proof. split; intros p; rewrite !build_ring_lookup; [apply head_filter_none|intros m; apply head_filter_erase]. Qed.

Lemma node_insert_erase node nodes : node ∉ nodes -> filter (fun n => n <> node) (node_insert node nodes) = nodes.
Proof.
  induction nodes as [|n nodes IH]; intros Hno; cbn [node_insert].
  - by rewrite filter_cons, decide_False by auto.
  - apply not_elem_of_cons in Hno as [Hne Hno]. destruct (_ <? _).
    + by rewrite filter_cons, decide_True, IH by auto.
    + rewrite filter_cons, decide_False by auto. apply filter_all. apply Forall_forall. set_solver.
Qed.

Lemma pick_is_member key lb :
  balancer_inv lb -> lb_strategy lb = ConsistentHashing ->
  match (pick key lb).1 with Some n => n ∈ lb_nodes lb | None => lb_nodes lb = [] end.
Proof.
  intros Hinv Hst. rewrite pick_consistent by done. pose proof (pick_ring_spec key (build_ring (lb_vnodes lb) (lb_nodes lb))) as H.
  destruct (pick_ring _ _) as [n|].
  - destruct H as (k & _ & Hk). rewrite build_ring_lookup in Hk. by apply head_filter_some in Hk as [? _].
  - destruct (lb_nodes lb) as [|n ns] eqn:Hn; [done|]. pose proof (bi_vnodes _ Hinv) as Hv.
    assert (Hp := build_ring_lookup (lb_vnodes lb) (n :: ns) (fnv1a_bytes (vkey n 0))).
    rewrite H, lookup_empty, filter_cons, decide_True in Hp; [done|].
    unfold owns_point. apply list_elem_of_fmap. exists O. split; [done|]. apply elem_of_seq. lia.
Qed.

Lemma node_membership node lb :
  balancer_inv lb -> node ∈ lb_nodes (add_node node lb) /\ node ∉ lb_nodes (remove_node node lb).
Proof.
  intros Hinv. split.
  - unfold add_node. case_bool_decide; [done|]. cbv zeta. case_decide; apply node_insert_in; by left.
  - unfold remove_node. case_bool_decide; [|done]. cbv zeta. case_decide; cbn [rebuild_ring lb_nodes];
      rewrite node_erase_filter by apply Hinv; intros [? _]%list_elem_of_filter; done.
Qed.

(** Consistent hashing disturbs as little as it can.  After any use of the balancer a key goes to a
    node of the balancer, and to none only when there are none; removing a node
    changes where a key goes only for the keys that went to that node, and adding one only for the
    keys that go to it; this holds even when the points of two nodes collide. *)
Theorem consistent_hashing_minimal (vnodes : nat) (cs : list BalancerCall) (node : Z) (key : list byte) :
  let lb := balancer_run cs (new_balancer ConsistentHashing vnodes) in
  match (pick key lb).1 with Some n => n ∈ lb_nodes lb | None => lb_nodes lb = [] end /\
  (node ∈ lb_nodes (add_node node lb) /\ node ∉ lb_nodes (remove_node node lb)) /\
  ((pick key (remove_node node lb)).1 = (pick key lb).1 \/ (pick key lb).1 = Some node) /\
  ((pick key (add_node node lb)).1 = (pick key lb).1 \/ (pick key (add_node node lb)).1 = Some node).
Proof.
  cbv zeta. destruct (balancer_run_inv ConsistentHashing vnodes cs) as [Hinv Hst].
  set (lb := balancer_run cs _) in *. clearbody lb.
  split; [by apply pick_is_member|]. split; [by apply node_membership|].
  pose proof (remove_node_inv node lb Hinv) as Hr. pose proof (add_node_inv node lb Hinv) as Ha.
  destruct (balancer_call_same lb (LbRemove node)) as [Hrs Hrv]. destruct (balancer_call_same lb (LbAdd node)) as [Has Hav].
  cbn [balancer_call] in *. rewrite !pick_consistent by congruence. rewrite Hrv, Hav. split.
  - unfold remove_node. case_bool_decide as Hin; [|by left]. cbv zeta. rewrite decide_True by done. cbn [rebuild_ring lb_nodes].
    rewrite node_erase_filter by apply Hinv. destruct (erase_ring_sub (lb_vnodes lb) node (lb_nodes lb)) as [H1 H2].
    by apply pick_ring_sub.
  - unfold add_node. case_bool_decide as Hin; [by left|]. cbv zeta. rewrite decide_True by done. cbn [rebuild_ring lb_nodes].
    destruct (erase_ring_sub (lb_vnodes lb) node (node_insert node (lb_nodes lb))) as [H1 H2].
    rewrite node_insert_erase in H1, H2 by done. destruct (pick_ring_sub key _ _ node H1 H2) as [H|H]; [left|right]; done.
Qed.

(** ** Turns and connections *)

(** [k] picks in a row. *)
Fixpoint picks (k : nat) (key : list byte) (lb : LoadBalancer) : list (option Z) * LoadBalancer :=
  match k with
  | O => ([], lb)
  | S k => let '(r, lb) := pick key lb in let '(rs, lb) := picks k key lb in (r :: rs, lb)
  end.

Lemma picks_turns k key lb :
  lb_strategy lb = RoundRobin -> lb_nodes lb <> [] -> (lb_cursor lb < length (lb_nodes lb))%nat ->
  (picks k key lb).1 = (fun i => lb_nodes lb !! ((lb_cursor lb + i) mod length (lb_nodes lb))%nat) <$> seq 0 k.
Proof.
  revert lb. induction k as [|k IH]; intros lb Hst Hne Hc; [done|]. cbn [picks]. unfold pick.
  destruct (lb_nodes lb) as [|n ns] eqn:Hn; [done|]. rewrite Hst.
  set (lb' := MkBalancer _ _ _ _ _ _). destruct (picks k key lb') as [rs lb2] eqn:Hp. cbn [fst seq fmap list_fmap].
  assert (Hl : (length (n :: ns) <> 0)%nat) by done. f_equal.
  - by rewrite Nat.add_0_r, Nat.mod_small.
  - assert (Hrs : rs = (picks k key lb').1) by (by rewrite Hp). rewrite Hrs, IH; [|done|done|by apply Nat.mod_upper_bound].
    rewrite <- fmap_S_seq, <- list_fmap_compose. apply list_fmap_ext. intros j i Hj. cbn [lb' lb_cursor lb_nodes compose].
    rewrite Nat.Div0.add_mod_idemp_l. f_equal. f_equal. lia.
Qed.

Lemma turns_rotate (nodes : list Z) c :
  (c < length nodes)%nat ->
  (fun i => nodes !! ((c + i) mod length nodes)%nat) <$> seq 0 (length nodes) = Some <$> drop c nodes ++ take c nodes.
Proof.
  intros Hc. apply list_eq. intros i. rewrite !list_lookup_fmap. destruct (decide (i < length nodes)%nat) as [Hi|Hi].
  - rewrite lookup_seq_lt by done. cbn [fmap option_fmap option_map]. rewrite Nat.add_0_l.
    destruct (decide (c + i < length nodes)%nat) as [Hlt|Hge].
    + rewrite Nat.mod_small, lookup_app_l, lookup_drop by (rewrite ?length_drop; lia).
      destruct (lookup_lt_is_Some_2 nodes (c + i) Hlt) as [x ->]. done.
    + rewrite lookup_app_r, length_drop, lookup_take_lt by (rewrite ?length_drop; lia).
      assert (Hm : ((c + i) mod length nodes = i - (length nodes - c))%nat).
      { replace (c + i)%nat with (i - (length nodes - c) + 1 * length nodes)%nat by lia. rewrite Nat.Div0.mod_add, Nat.mod_small; lia. }
      rewrite Hm. destruct (lookup_lt_is_Some_2 nodes (i - (length nodes - c))) as [x ->]; [lia|done].
  - rewrite lookup_seq_ge by lia. rewrite (lookup_ge_None_2 (_ ++ _)); [done|]. rewrite length_app, length_drop, length_take. lia.
Qed.

(** Turns are fair: after any use, as many picks in a row as there are nodes choose each node once. *)
Theorem round_robin_fair (vnodes : nat) (cs : list BalancerCall) (key : list byte) :
  let lb := balancer_run cs (new_balancer RoundRobin vnodes) in
  (picks (length (lb_nodes lb)) key lb).1 ≡ₚ Some <$> lb_nodes lb.
Proof.
  cbv zeta. destruct (balancer_run_inv RoundRobin vnodes cs) as [[_ Hc _ _] Hst]. set (lb := balancer_run cs _) in *. clearbody lb.
  destruct (decide (lb_nodes lb = [])) as [->|Hne]; [done|].
  assert (Hl : (lb_cursor lb < length (lb_nodes lb))%nat) by (destruct (lb_nodes lb); [done|cbn in *; lia]).
  rewrite picks_turns by done. rewrite turns_rotate by done.
  rewrite fmap_app, Permutation_app_comm, <- fmap_app, take_drop. done.
Qed.

Lemma pick_least_spec lb best nodes :
  let m := pick_least lb best nodes in
  (m = best \/ m ∈ nodes) /\ (active m lb <= active best lb)%nat /\
  Forall (fun n => (active m lb <= active n lb)%nat) nodes /\
  (StronglySorted Z.lt nodes -> Forall (fun n => best <= n) nodes -> Forall (fun n => active n lb = active m lb -> m <= n) (best :: nodes)).
Proof.
  unfold pick_least. revert best. induction nodes as [|n nodes IH]; intros best; cbn [foldl].
  - cbn. split_and!; [by left|done|done|]. intros _ _. repeat constructor. lia.
  - cbn [snd]. destruct (Nat.ltb_spec (active n lb) (active best lb)) as [Hlt|Hge].
    + destruct (IH n) as (Hin & Hle & Hall & Hmin). cbv zeta in *. set (m := (foldl _ _ nodes).1) in *.
      split_and!; [destruct Hin as [->|]; set_solver|lia|by constructor|]. intros Hs Hb.
      apply StronglySorted_inv in Hs as [Hs Hn]. constructor; [intros; lia|]. apply Hmin; [done|]. eapply Forall_impl; [done|]. intros x Hx; cbn in Hx; lia.
    + destruct (IH best) as (Hin & Hle & Hall & Hmin). cbv zeta in *. set (m := (foldl _ _ nodes).1) in *.
      split_and!; [destruct Hin as [->|]; set_solver|done|constructor; [lia|done]|]. intros Hs Hb.
      apply StronglySorted_inv in Hs as [Hs Hn]. apply Forall_cons in Hb as [Hbn Hb]. specialize (Hmin Hs Hb).
      apply Forall_cons in Hmin as [Hm1 Hm2]. constructor; [done|]. constructor; [|done]. intros He.
      assert (active best lb = active m lb) by lia. specialize (Hm1 ltac:(done)). lia.
Qed.

(** The least loaded is chosen: after any use, when there are nodes the balancer picks one of them
    that has no more connections than any other, the smallest of those that have as few. *)
Theorem least_connections_minimal (vnodes : nat) (cs : list BalancerCall) (key : list byte) :
  let lb := balancer_run cs (new_balancer LeastConnections vnodes) in
  match (pick key lb).1 with
  | None => lb_nodes lb = []
  | Some m => m ∈ lb_nodes lb /\
      Forall (fun n => (active m lb < active n lb)%nat \/ (active m lb = active n lb /\ m <= n)) (lb_nodes lb)
  end.
Proof.
  cbv zeta. destruct (balancer_run_inv LeastConnections vnodes cs) as [[Hs _ _ _] Hst]. set (lb := balancer_run cs _) in *. clearbody lb.
  unfold pick. rewrite Hst. destruct (lb_nodes lb) as [|n ns] eqn:Hn; [done|]. cbn [fst]. rewrite <- Hn in *.
  destruct (pick_least_spec lb n (lb_nodes lb)) as (Hin & Hle & Hall & Hmin). cbv zeta in *. set (m := pick_least _ _ _) in *.
  split; [destruct Hin as [->|]; [rewrite Hn; set_solver|done]|].
  specialize (Hmin Hs). rewrite Forall_forall in Hall. rewrite Forall_forall. intros x Hx.
  assert (Hb : Forall (fun y => n <= y) (lb_nodes lb)).
  { rewrite Hn in Hs |- *. apply StronglySorted_inv in Hs as [_ Hs]. constructor; [lia|]. eapply Forall_impl; [done|]. intros y Hy; cbn in Hy; lia. }
  specialize (Hmin Hb). apply Forall_cons in Hmin as [_ Hmin]. rewrite Forall_forall in Hmin. specialize (Hall x Hx). specialize (Hmin x Hx). cbn in *.
  destruct (decide (active m lb = active x lb)); [right; split; [done|by apply Hmin]|left; lia].
Qed.

(** * The proxy and its connections upstream

    Models [PeerDirectory] of [src/src/cluster/peer_directory.cpp], [UpstreamPool] of
    [src/src/ingress/upstream_pool.cpp], which lends connections to the nodes and keeps some idle,
    and [Proxy] of [src/src/ingress/proxy.cpp], which relays frames between a client and a node.
    Dialling is a parameter: it gives a connection or fails. *)

(** ** The directory *)

Record PeerAddress := MkPeerAddress { pa_host : string; pa_port : Z }.
Abbreviation PeerDirectory := (gmap Z PeerAddress) (only parsing).

Definition peer_find (node : Z) (d : PeerDirectory) : option PeerAddress := d !! node.
Definition peer_contains (node : Z) (d : PeerDirectory) : bool := bool_decide (is_Some (d !! node)).
Definition node_ids (d : PeerDirectory) : list Z := merge_sort Z.le ((map_to_list d).*1).

(** ** The pool *)

Section Pool.
Context {Sock : Type} (peers : PeerDirectory) (max_idle_per_node : nat) (dial : PeerAddress -> expected Sock).

Abbreviation UpstreamPool := (gmap Z (list Sock)) (only parsing).

(** The free list is a stack: its end is the last connection returned. *)
Definition pool_acquire (node : Z) (pool : UpstreamPool) : expected Sock * UpstreamPool :=
  match last (default [] (pool !! node)) with
  | Some reused => (Ok reused, <[node := removelast (default [] (pool !! node))]> pool)
  | None =>
      (match peer_find node peers with
       | None => make_error NotFound "nodo aguas arriba sin direccion en el directorio"
       | Some addr => dial addr
       end, pool)
  end.

Definition pool_release (node : Z) (socket : Sock) (pool : UpstreamPool) : UpstreamPool :=
  let free_list := default [] (pool !! node) in
  if (max_idle_per_node <=? length free_list)%nat then <[node := free_list]> pool
  else <[node := free_list ++ [socket]]> pool.

Definition pool_idle (node : Z) (pool : UpstreamPool) : nat := length (default [] (pool !! node)).
End Pool.

(** ** Loans *)

Section Loans.
Context (peers : gmap Z PeerAddress) (max_idle_per_node : nat).

(** The pool, the connections on loan, each with its node, and the number of the next connection. *)
Record PoolState := MkPoolState { pl_pool : gmap Z (list nat); pl_lent : gset (Z * nat); pl_next : nat }.

(** A client takes a connection (the dial may fail), returns one it has, or drops it. *)
Inductive PoolCall := PoolAcquire (node : Z) (dials : bool) | PoolRelease (node : Z) (socket : nat) | PoolDrop (node : Z) (socket : nat).

Definition pool_call (s : PoolState) (c : PoolCall) : PoolState :=
  match c with
  | PoolAcquire node dials =>
      match pool_acquire peers (fun _ => if dials then Ok (pl_next s) else make_error IoError "") node (pl_pool s) with
      | (Ok socket, pool) => MkPoolState pool ({[(node, socket)]} ∪ pl_lent s) (S (pl_next s))
      | (Err _, pool) => MkPoolState pool (pl_lent s) (pl_next s)
      end
  | PoolRelease node socket =>
      if decide ((node, socket) ∈ pl_lent s)
      then MkPoolState (pool_release max_idle_per_node node socket (pl_pool s)) (pl_lent s ∖ {[(node, socket)]}) (pl_next s)
      else s
  | PoolDrop node socket => MkPoolState (pl_pool s) (pl_lent s ∖ {[(node, socket)]}) (pl_next s)
  end.

Definition idle_at (s : PoolState) (node : Z) (socket : nat) : Prop := socket ∈ default [] (pl_pool s !! node).

(** A connection is idle at one node at most, or lent once; none is idle twice. *)
Record pool_inv (s : PoolState) : Prop := {
  pv_bound : forall node, (pool_idle node (pl_pool s) <= max_idle_per_node)%nat;
  pv_nodup : forall node, NoDup (default [] (pl_pool s !! node));
  pv_idle : forall n1 n2 k, idle_at s n1 k -> idle_at s n2 k -> n1 = n2;
  pv_lent : forall n1 n2 k, (n1, k) ∈ pl_lent s -> (n2, k) ∈ pl_lent s -> n1 = n2;
  pv_apart : forall n1 n2 k, (n1, k) ∈ pl_lent s -> ~ idle_at s n2 k;
  pv_old : forall n k, (n, k) ∈ pl_lent s \/ idle_at s n k -> (k < pl_next s)%nat;
}.

Lemma idle_insert pool node l n k lent next :
  idle_at (MkPoolState (<[node := l]> pool) lent next) n k <-> (n = node /\ k ∈ l) \/ (n <> node /\ k ∈ default [] (pool !! n)).
Proof.
  unfold idle_at. cbn [pl_pool]. destruct (decide (n = node)) as [->|Hne].
  - rewrite lookup_insert_eq. cbn. naive_solver.
  - rewrite lookup_insert_ne by done. naive_solver.
Qed.

Lemma last_split {A} (l : list A) x : last l = Some x -> l = removelast l ++ [x].
Proof.
  intros Hl. destruct l as [|y l _] using rev_ind; [done|]. rewrite last_snoc in Hl. injection Hl as ->. by rewrite removelast_last.
Qed.

Lemma pool_call_inv s c : pool_inv s -> pool_inv (pool_call s c).
Proof.
  intros [Hb Hn Hi Hl Ha Ho]. destruct c as [node dials|node socket|node socket]; cbn [pool_call].
  - unfold pool_acquire. destruct (last _) as [k|] eqn:Hlast.
    + apply last_split in Hlast as Hsplit. set (free := default [] (pl_pool s !! node)) in *.
      assert (Hk : idle_at s node k) by (unfold idle_at; fold free; rewrite Hsplit; set_solver).
      assert (Hnd : NoDup (removelast free ++ [k])) by (rewrite <- Hsplit; apply Hn).
      apply NoDup_app in Hnd as (Hnd & Hkno & _).
      assert (Hsub : forall n k', idle_at (MkPoolState (<[node:=removelast free]> (pl_pool s)) (pl_lent s) (pl_next s)) n k' -> idle_at s n k' /\ k' <> k).
      { intros n k' [[-> Hin]|[Hne Hin]]%idle_insert.
        - split; [unfold idle_at; fold free; rewrite Hsplit; set_solver|]. intros ->. apply (Hkno _ Hin). set_solver.
        - split; [done|]. intros ->. apply Hne. by apply (Hi n node k). }
      constructor; cbn [pl_pool pl_lent pl_next].
      * intros n. specialize (Hb n). unfold pool_idle in *. destruct (decide (n = node)) as [->|Hne]; [|by rewrite lookup_insert_ne].
        rewrite lookup_insert_eq. cbn. fold free in Hb. rewrite Hsplit, length_app in Hb. cbn in Hb. lia.
      * intros n. destruct (decide (n = node)) as [->|Hne]; [by rewrite lookup_insert_eq|rewrite lookup_insert_ne by done; apply Hn].
      * intros n1 n2 k' [H1 _]%Hsub [H2 _]%Hsub. by apply (Hi n1 n2 k').
      * intros n1 n2 k' [H1|H1]%elem_of_union [H2|H2]%elem_of_union; rewrite ?elem_of_singleton in *; simplify_eq; try done.
        -- exfalso. by apply (Ha n2 node k).
        -- exfalso. by apply (Ha n1 node k).
        -- by apply (Hl n1 n2 k').
      * intros n1 n2 k' [H1|H1]%elem_of_union [H2 Hne]%Hsub; rewrite ?elem_of_singleton in *; simplify_eq. by apply (Ha n1 n2 k').
      * intros n k' [[H1|H1]%elem_of_union|[H2 _]%Hsub]; rewrite ?elem_of_singleton in *; simplify_eq; apply Nat.lt_lt_succ_r.
        -- by apply (Ho node), or_intror.
        -- by apply (Ho n), or_introl.
        -- by apply (Ho n), or_intror.
    + destruct (peer_find node peers) as [addr|]; [|done]. destruct dials; [|done]. constructor; cbn [pl_pool pl_lent pl_next]; try done.
      * intros n1 n2 k' [H1|H1]%elem_of_union [H2|H2]%elem_of_union; rewrite ?elem_of_singleton in *; simplify_eq; try done.
        -- specialize (Ho n2 (pl_next s) (or_introl H2)). lia.
        -- specialize (Ho n1 (pl_next s) (or_introl H1)). lia.
        -- by apply (Hl n1 n2 k').
      * intros n1 n2 k' [H1|H1]%elem_of_union Hid; rewrite ?elem_of_singleton in *; simplify_eq; [|by apply (Ha n1 n2 k')].
        specialize (Ho n2 (pl_next s) (or_intror Hid)). lia.
      * intros n k' [[H1|H1]%elem_of_union|H2]; rewrite ?elem_of_singleton in *; simplify_eq; [lia|apply Nat.lt_lt_succ_r; by apply (Ho n); auto..].
  - case_decide as Hlent; [|done]. set (free := default [] (pl_pool s !! node)).
    assert (Hnew : ~ idle_at s node socket) by (by apply (Ha node)).
    assert (Hsub : forall l n k lent, l = free \/ l = free ++ [socket] ->
      idle_at (MkPoolState (<[node:=l]> (pl_pool s)) lent (pl_next s)) n k -> idle_at s n k \/ (n = node /\ k = socket)).
    { intros l n k lent Hl' [[-> Hin]|[Hne Hin]]%idle_insert; [|by left]. destruct Hl' as [->| ->]; [by left|].
      apply elem_of_app in Hin as [Hin|Hin]; [by left|right; set_solver]. }
    assert (Hgone : forall n k, (n, k) ∈ pl_lent s ∖ {[(node, socket)]} -> (n, k) ∈ pl_lent s /\ k <> socket).
    { intros n k [H1 H2]%elem_of_difference. split; [done|]. intros ->. apply H2. rewrite (Hl n node socket) by done. set_solver. }
    assert (Hrel : exists l, (l = free \/ (l = free ++ [socket] /\ (length free < max_idle_per_node)%nat)) /\
      pool_release max_idle_per_node node socket (pl_pool s) = <[node := l]> (pl_pool s)).
    { unfold pool_release. fold free. destruct (Nat.leb_spec max_idle_per_node (length free)); eexists; split; [|done| |done]; auto. }
    destruct Hrel as (l & Hfree & ->).
    assert (Hl' : l = free \/ l = free ++ [socket]) by tauto.
    constructor; cbn [pl_pool pl_lent pl_next].
    + intros n. specialize (Hb n). unfold pool_idle in *. destruct (decide (n = node)) as [->|Hne]; [|by rewrite lookup_insert_ne].
      rewrite lookup_insert_eq. cbn. fold free in Hb. destruct Hfree as [->|[-> ?]]; rewrite ?length_app; cbn; lia.
    + intros n. destruct (decide (n = node)) as [->|Hne]; [rewrite lookup_insert_eq; cbn|rewrite lookup_insert_ne by done; apply Hn].
      destruct Hl' as [->| ->]; [apply Hn|]. apply NoDup_app. split_and!; [apply Hn| |apply NoDup_singleton].
      intros k Hk ->%list_elem_of_singleton. by apply Hnew.
    + intros n1 n2 k [H1|[-> ->]]%(Hsub l) [H2|[-> H2]]%(Hsub l); subst; try done.
      * by apply (Hi n1 n2 k).
      * exfalso. by apply (Ha node n1 socket).
      * exfalso. by apply (Ha node n2 socket).
    + intros n1 n2 k [H1 _]%Hgone [H2 _]%Hgone. by apply (Hl n1 n2 k).
    + intros n1 n2 k [H1 Hne]%Hgone [H2|[_ ->]]%(Hsub l); [by apply (Ha n1 n2 k)|done..].
    + intros n k [[H1 _]%Hgone|[H1|[-> ->]]%(Hsub l)]; [..|done]; [apply (Ho n); by left|apply (Ho n); by right|apply (Ho node); by left].
  - constructor; cbn [pl_pool pl_lent pl_next]; try done.
    + intros n1 n2 k [H1 _]%elem_of_difference [H2 _]%elem_of_difference. by apply (Hl n1 n2 k).
    + intros n1 n2 k [H1 _]%elem_of_difference. by apply (Ha n1).
    + intros n k [[H1 _]%elem_of_difference|H1]; apply (Ho n); auto.
Qed.

(** A loan is exclusive: whatever the clients do with the connections they hold, a connection is never
    lent to two of them, nor lent while it is idle, and no node has more than [max_idle_per_node]
    idle connections. *)
Theorem pool_loans_exclusive (cs : list PoolCall) :
  pool_inv (foldl pool_call (MkPoolState ∅ ∅ 0) cs).
Proof.
  assert (H0 : pool_inv (MkPoolState ∅ ∅ 0)).
  { constructor; cbn; unfold idle_at, pool_idle; cbn; intros; rewrite ?lookup_empty in *; cbn in *; try lia; try set_solver. constructor. }
  revert H0. generalize (MkPoolState ∅ ∅ 0). induction cs as [|c cs IH]; intros s Hs; [done|]. by apply IH, pool_call_inv.
Qed.
End Loans.

(** ** The proxy *)

Definition kDefaultMaxFrame : Z := 16 * 1024 * 1024.

(** [Proxy::route]. *)
Definition proxy_route (key : list byte) (balancer : LoadBalancer) : option Z * LoadBalancer := pick key balancer.

Section Forward.
Context {C U : Type} {BC : ByteStream C} {BU : ByteStream U}.

(** [Proxy::forward]: until the client closes or a relay fails; [fuel] bounds the requests. *)
Fixpoint forward (fuel : nat) (max_frame : Z) (client : C) (upstream : U) : expected unit * (C * U) :=
  match fuel with
  | O => (Ok tt, (client, upstream))
  | S fuel' =>
      match read_frame max_frame client with
      | (Err _, client) => (Ok tt, (client, upstream))
      | (Ok request, client) =>
          match write_frame (wf_header request) (wf_payload request) upstream with
          | (Err e, upstream) => (Err e, (client, upstream))
          | (Ok _, upstream) =>
              match read_frame max_frame upstream with
              | (Err e, upstream) => (Err e, (client, upstream))
              | (Ok response, upstream) =>
                  match write_frame (wf_header response) (wf_payload response) client with
                  | (Err e, client) => (Err e, (client, upstream))
                  | (Ok _, client) => forward fuel' max_frame client upstream
                  end
              end
          end
      end
  end.

Context {BCL : ByteStreamLaws C} {BUL : ByteStreamLaws U}.

Abbreviation Message := (FrameHeader * list byte)%type (only parsing).

Definition message_bytes (m : Message) : list byte := frame_bytes m.1 m.2.
Definition message_ok (max_frame : Z) (m : Message) : Prop :=
  framed_ok m.1 m.2 /\ Z.of_nat (kEncodedSize + length m.2) <= max_frame.

Lemma relayed_bytes header payload : frame_bytes (with_length (length_for (length payload)) header) payload = frame_bytes header payload.
Proof. done. Qed.

(** C39. The proxy is transparent: whatever frames the client sends and the node answers, and however the
    two transports cut them, the node receives exactly the bytes of the client's requests and the
    client those of the node's responses, in their order, and the relay ends well when the client
    closes. *)
Theorem proxy_relays_frames (max_frame : Z) (requests responses : list Message) (fuel : nat) (client : C) (upstream : U)
    (Hreq : Forall (message_ok max_frame) requests) (Hresp : Forall (message_ok max_frame) responses)
    (Hlen : length requests = length responses) (Hfuel : (length requests < fuel)%nat)
    (Hc : healthy client) (Hu : healthy upstream)
    (Hfrom_client : pending client = concat (message_bytes <$> requests))
    (Hfrom_node : pending upstream = concat (message_bytes <$> responses)) :
  exists client' upstream', forward fuel max_frame client upstream = (Ok tt, (client', upstream')) /\
    sent upstream' = sent upstream ++ concat (message_bytes <$> requests) /\
    sent client' = sent client ++ concat (message_bytes <$> responses).
Proof.
  revert responses fuel client upstream Hresp Hlen Hfuel Hc Hu Hfrom_client Hfrom_node.
  induction Hreq as [|[rh rp] requests [Hrok Hrmax] _ IH]; intros [|[sh sp] responses] [|fuel] client upstream Hresp Hlen Hf Hc Hu Hpc Hpu;
    try (cbn in Hf; lia); try done; cbn [forward].
  - destruct (read_frame_closed max_frame client Hc Hpc) as (e & client' & -> & Hs & _). exists client', upstream. by rewrite !app_nil_r.
  - apply Forall_cons in Hresp as [[Hsok Hsmax] Hresp]. cbn [fst snd] in *.
    destruct (read_frame_healthy rh rp _ max_frame client Hrok Hrmax Hc Hpc) as (c1 & -> & Hp1 & Hs1 & Hh1).
    cbn [wf_header wf_payload sent_frame].
    destruct (write_frame_healthy (with_length (length_for (length rp)) rh) rp upstream Hu) as (u1 & -> & Hsu1 & Hpu1 & Hu1).
    rewrite Hpu in Hpu1.
    destruct (read_frame_healthy sh sp _ max_frame u1 Hsok Hsmax Hu1 Hpu1) as (u2 & -> & Hpu2 & Hsu2 & Hu2).
    cbn [wf_header wf_payload sent_frame].
    destruct (write_frame_healthy (with_length (length_for (length sp)) sh) sp c1 Hh1) as (c2 & -> & Hs2 & Hp2 & Hh2).
    rewrite relayed_bytes in Hsu1, Hs2.
    destruct (IH responses fuel c2 u2) as (c3 & u3 & -> & Hu3 & Hc3); [done|by injection Hlen|cbn in Hf; lia|done|done|by rewrite Hp2, Hp1|exact Hpu2|].
    exists c3, u3. cbn [fmap list_fmap concat]. split_and!; [done| |].
    + rewrite Hu3, Hsu2, Hsu1, <- app_assoc. done.
    + rewrite Hc3, Hs2, Hs1, <- app_assoc. done.
Qed.
End Forward.

Definition wit_messages : list (FrameHeader * list byte) := [(wit_header, wit_payload); (wit_header, [])].

Lemma proxy_relays_frames_witness :
  exists client' upstream',
    forward 3 64 (MkPlannedStream (concat (message_bytes <$> wit_messages)) [] [3; 1; 20]%nat)
      (MkPlannedStream (concat (message_bytes <$> reverse wit_messages)) [] [2; 2]%nat) = (Ok tt, (client', upstream')) /\
    ps_outbox upstream' = concat (message_bytes <$> wit_messages) /\
    ps_outbox client' = concat (message_bytes <$> reverse wit_messages).
Proof.
  assert (H1 : Forall (message_ok 64) wit_messages) by (repeat constructor; by vm_compute).
  assert (H2 : Forall (message_ok 64) (reverse wit_messages)) by (repeat constructor; by vm_compute).
  assert (Hf : (length wit_messages < 3)%nat) by (vm_compute; lia).
  exact (proxy_relays_frames (BCL := planned_stream_laws) (BUL := planned_stream_laws) 64 wit_messages (reverse wit_messages) 3
    (MkPlannedStream (concat (message_bytes <$> wit_messages)) [] [3; 1; 20]%nat)
    (MkPlannedStream (concat (message_bytes <$> reverse wit_messages)) [] [2; 2]%nat) H1 H2 eq_refl Hf I I eq_refl eq_refl).
Defined.
