(* ===== verification/Json.v ===== *)
(** * JSON

    Models the parser of [src/src/ingress/json_value.cpp] and the writer of [json.cpp].  The parser's
    state is the text that is left ([pos_] is what has been consumed of it); [strtod] is the
    conversion of a decimal to the nearest double, ties to even.  What
    [JsonWriter::value(double)] writes is the second part, doubles as text. *)
From Stdlib Require Import ZArith Lia Floats.SpecFloat String.
From stdpp Require Import base list strings.
From S2P Require Import Prelude Codec Decimal.
#[local] Open Scope Z_scope.

(** ** Values *)

(** A document, over its numbers: doubles once parsed, integers as the writer gets them. *)
Inductive Json (N : Type) :=
  | JNull
  | JBool (flag : bool)
  | JNumber (number : N)
  | JString (text : list byte)
  | JArray (items : list (Json N))
  | JObject (members : list (list byte * Json N)).
Arguments JNull {N}.
Arguments JBool {N}.
Arguments JNumber {N}.
Arguments JString {N}.
Arguments JArray {N}.
Arguments JObject {N}.

Abbreviation JsonValue := (Json spec_float) (only parsing).

(** [find]: of several members with the key, the first. *)
Definition json_find {N} (key : list byte) (v : Json N) : option (Json N) :=
  match v with
  | JObject members => snd <$> find (fun m => bool_decide (m.1 = key)) members
  | _ => None
  end.

Definition json_is_object {N} (v : Json N) : bool := match v with JObject _ => true | _ => false end.

(** Towards zero. *)
Definition truncate (x : spec_float) : Z :=
  match x with
  | S754_finite sign m e =>
      let z := if 0 <=? e then Zpos m * 2 ^ e else Zpos m / 2 ^ (- e) in if sign then - z else z
  | _ => 0
  end.

(** [as_int64] of a number: outside of the range of the type, and for what is no number, the
    conversion is undefined in C++; [unrepresentable] is what it then gives. *)
Definition as_int64 (unrepresentable : spec_float -> Z) (x : spec_float) : Z :=
  match x with
  | S754_infinity _ | S754_nan => unrepresentable x
  | _ => if (- 2 ^ 63 <=? truncate x) && (truncate x <? 2 ^ 63) then truncate x else unrepresentable x
  end.

Definition kJsonMaxDepth : nat := 64.

(** ** Characters *)

Definition is_ws (c : byte) : bool := (c =? 32) || (c =? 9) || (c =? 10) || (c =? 13).
Definition json_digit (c : byte) : bool := (48 <=? c) && (c <=? 57).

Fixpoint skip_while (p : byte -> bool) (rest : list byte) : list byte :=
  match rest with
  | c :: rest' => if p c then skip_while p rest' else rest
  | [] => []
  end.
Fixpoint taken_while (p : byte -> bool) (rest : list byte) : list byte :=
  match rest with
  | c :: rest' => if p c then c :: taken_while p rest' else []
  | [] => []
  end.

Definition skip_ws : list byte -> list byte := skip_while is_ws.

Definition hex_digit (c : byte) : option Z :=
  if json_digit c then Some (c - 48)
  else if (97 <=? c) && (c <=? 102) then Some (c - 97 + 10)
  else if (65 <=? c) && (c <=? 70) then Some (c - 65 + 10)
  else None.

Definition append_utf8 (code_point : Z) : list byte :=
  if code_point <=? 0x7F then [code_point]
  else if code_point <=? 0x7FF then
    [Z.lor 0xC0 (Z.shiftr code_point 6); Z.lor 0x80 (Z.land code_point 0x3F)]
  else if code_point <=? 0xFFFF then
    [Z.lor 0xE0 (Z.shiftr code_point 12); Z.lor 0x80 (Z.land (Z.shiftr code_point 6) 0x3F);
     Z.lor 0x80 (Z.land code_point 0x3F)]
  else
    [Z.lor 0xF0 (Z.shiftr code_point 18); Z.lor 0x80 (Z.land (Z.shiftr code_point 12) 0x3F);
     Z.lor 0x80 (Z.land (Z.shiftr code_point 6) 0x3F); Z.lor 0x80 (Z.land code_point 0x3F)].

(** ** Numbers *)

(** The double nearest to [m / 10 ^ e]: a quotient of at least 55 bits, with the remainder as a
    sticky bit, rounded once. *)
Definition divide_round (m e : Z) : spec_float :=
  let k := Z.max 0 (56 + Z.log2 (10 ^ e) - Z.log2 m) in
  let q := m * 2 ^ k / 10 ^ e in
  let sticky := if m * 2 ^ k mod 10 ^ e =? 0 then 0 else 1 in
  binary_normalize 53 1024 (2 * q + sticky) (- k - 1) false.

(** The double nearest to [m * 10 ^ e]; outside of the clamps every [m] of [d] digits overflows or
    underflows. *)
Definition decimal_to_double (neg : bool) (m : Z) (d : nat) (e : Z) : spec_float :=
  if m =? 0 then S754_zero neg
  else
    let x :=
      if 400 <? e then S754_infinity false
      else if e + Z.of_nat d <? -400 then S754_zero false
      else if 0 <=? e then binary_normalize 53 1024 (m * 10 ^ e) 0 false
      else divide_round m (- e) in
    if neg then SFopp x else x.

Definition decimal_value (ds : list byte) : Z := default 0 (digits_value ds 0).

(** [std::strtod], of a token of the grammar of numbers. *)
Definition strtod (token : list byte) : spec_float :=
  let neg := match token with 45 :: _ => true | _ => false end in
  let token := if neg then tail token else token in
  let int := taken_while json_digit token in
  let token := skip_while json_digit token in
  let frac := match token with 46 :: t => taken_while json_digit t | _ => [] end in
  let token := match token with 46 :: t => skip_while json_digit t | _ => token end in
  let exp :=
    match token with
    | _ :: 45 :: t => - decimal_value (taken_while json_digit t)
    | _ :: 43 :: t => decimal_value (taken_while json_digit t)
    | _ :: t => decimal_value (taken_while json_digit t)
    | [] => 0
    end in
  decimal_to_double neg (decimal_value (int ++ frac)) (length (int ++ frac)) (exp - Z.of_nat (length frac)).

(** ** The parser *)

Section Parser.
(** [text_.size()]. *)
Context (size : nat).

Definition json_fail {A} (rest : list byte) (what : string) : expected A :=
  make_error InvalidArgument
    ("JSON inválido en byte " ++ string_of_bytes (to_string (Z.of_nat (size - length rest))) ++ ": " ++ what)%string.

(** A parser gives a value and the text that is left. *)
Definition Parsing (A : Type) : Type := list byte -> expected (A * list byte).

(** What is left is given in any case: the error tells where it was found. *)
Fixpoint read_hex (n : nat) (value : Z) (rest : list byte) : option Z * list byte :=
  match n, rest with
  | O, _ => (Some value, rest)
  | S n, c :: rest =>
      match hex_digit c with Some digit => read_hex n (Z.lor (Z.shiftl value 4) digit) rest | None => (None, rest) end
  | S _, [] => (None, rest)
  end.

Definition read_hex4 (rest : list byte) : option Z * list byte :=
  if (length rest <? 4)%nat then (None, rest) else read_hex 4 0 rest.

Definition append_unicode_escape (rest : list byte) : option (list byte) * list byte :=
  match read_hex4 rest with
  | (None, rest) => (None, rest)
  | (Some first, rest) =>
      if (0xD800 <=? first) && (first <=? 0xDBFF) then
        match rest with
        | 92 :: 117 :: rest =>
            match read_hex4 rest with
            | (Some second, rest) =>
                if (second <? 0xDC00) || (0xDFFF <? second) then (None, rest)
                else (Some (append_utf8 (0x10000 + Z.shiftl (first - 0xD800) 10 + (second - 0xDC00))), rest)
            | (None, rest) => (None, rest)
            end
        | _ => (None, rest)
        end
      else (Some (append_utf8 first), rest)
  end.

(** What an escape adds, from after its bar. *)
Definition append_escape (rest : list byte) : option (list byte) * list byte :=
  match rest with
  | [] => (None, [])
  | c :: rest =>
      match c with
      | 34 => (Some [34], rest)
      | 92 => (Some [92], rest)
      | 47 => (Some [47], rest)
      | 98 => (Some [8], rest)
      | 102 => (Some [12], rest)
      | 110 => (Some [10], rest)
      | 114 => (Some [13], rest)
      | 116 => (Some [9], rest)
      | 117 => append_unicode_escape rest
      | _ => (None, rest)
      end
  end.

(** Each turn consumes a character at least. *)
Fixpoint string_loop (fuel : nat) (out : list byte) : Parsing (list byte) := fun rest =>
  match fuel, rest with
  | _, [] | O, _ => json_fail rest "cadena sin cerrar"
  | S fuel', c :: rest =>
      if c =? 34 then Ok (out, rest)
      else if c =? 92 then
        match append_escape rest with
        | (Some more, rest) => string_loop fuel' (out ++ more) rest
        | (None, rest) => json_fail rest "escape inválido"
        end
      else string_loop fuel' (out ++ [c]) rest
  end.

(** From after the opening quote. *)
Definition parse_string_raw : Parsing (list byte) := fun rest => string_loop (length rest) [] rest.

Definition consume_integer_part (rest : list byte) : option (list byte) :=
  match rest with
  | c :: rest' => if json_digit c then Some (if c =? 48 then rest' else skip_while json_digit rest) else None
  | [] => None
  end.

Definition consume_fraction (rest : list byte) : list byte :=
  match rest with 46 :: rest' => skip_while json_digit rest' | _ => rest end.

Definition consume_exponent (rest : list byte) : bool * list byte :=
  match rest with
  | c :: rest' =>
      if (c =? 101) || (c =? 69) then
        let rest'' := match rest' with s :: r => if (s =? 43) || (s =? 45) then r else rest' | [] => [] end in
        match rest'' with
        | d :: _ => if json_digit d then (true, skip_while json_digit rest'') else (false, rest'')
        | [] => (false, [])
        end
      else (true, rest)
  | [] => (true, rest)
  end.

Definition parse_number : Parsing JsonValue := fun start =>
  let rest := match start with 45 :: rest => rest | _ => start end in
  match consume_integer_part rest with
  | None => json_fail rest "número inválido"
  | Some rest =>
      match consume_exponent (consume_fraction rest) with
      | (false, rest) => json_fail rest "exponente inválido"
      | (true, rest) => Ok (JNumber (strtod (take (length start - length rest) start)), rest)
      end
  end.

(** [starts_with]. *)
Definition literal (word : list byte) (rest : list byte) : option (list byte) :=
  if decide (take (length word) rest = word) then Some (drop (length word) rest) else None.

Definition parse_bool : Parsing JsonValue := fun rest =>
  match literal [116; 114; 117; 101] rest with
  | Some rest => Ok (JBool true, rest)
  | None =>
      match literal [102; 97; 108; 115; 101] rest with
      | Some rest => Ok (JBool false, rest)
      | None => json_fail rest "literal booleano inválido"
      end
  end.

Definition parse_null : Parsing JsonValue := fun rest =>
  match literal [110; 117; 108; 108] rest with
  | Some rest => Ok (JNull, rest)
  | None => json_fail rest "literal nulo inválido"
  end.

(** The text after a character, when that is what comes next. *)
Definition next (c : byte) (rest : list byte) : option (list byte) :=
  match rest with x :: rest => if x =? c then Some rest else None | [] => None end.

(** The descent. *)
Fixpoint parse_value (fuel : nat) (depth : nat) : Parsing JsonValue := fun rest =>
  match fuel with
  | O => json_fail rest "anidamiento JSON demasiado profundo"
  | S fuel' =>
      if (kJsonMaxDepth <? depth)%nat then json_fail rest "anidamiento JSON demasiado profundo"
      else
        match rest with
        | [] => json_fail rest "se esperaba un valor"
        | c :: rest' =>
            if c =? 123 then
              match next 125 (skip_ws rest') with
              | Some rest => Ok (JObject [], rest)
              | None => parse_members fuel' depth [] (skip_ws rest')
              end
            else if c =? 91 then
              match next 93 (skip_ws rest') with
              | Some rest => Ok (JArray [], rest)
              | None => parse_items fuel' depth [] (skip_ws rest')
              end
            else if c =? 34 then let? r := parse_string_raw rest' in Ok (JString r.1, r.2)
            else if (c =? 116) || (c =? 102) then parse_bool rest
            else if c =? 110 then parse_null rest
            else parse_number rest
        end
  end
with parse_members (fuel : nat) (depth : nat) (members : list (list byte * JsonValue)) : Parsing JsonValue := fun rest =>
  match fuel with
  | O => json_fail rest "anidamiento JSON demasiado profundo"
  | S fuel' =>
      let rest := skip_ws rest in
      match next 34 rest with
      | None => json_fail rest "se esperaba una clave de cadena"
      | Some rest =>
          let? '(key, rest) := parse_string_raw rest in
          let rest := skip_ws rest in
          match next 58 rest with
          | None => json_fail rest "se esperaba ':'"
          | Some rest =>
              let? '(value, rest) := parse_value fuel' (depth + 1) (skip_ws rest) in
              let members := members ++ [(key, value)] in
              match skip_ws rest with
              | [] => json_fail [] "objeto sin cerrar"
              | c :: rest =>
                  if c =? 44 then parse_members fuel' depth members rest
                  else if c =? 125 then Ok (JObject members, rest)
                  else json_fail (c :: rest) "se esperaba ',' o '}'"
              end
          end
      end
  end
with parse_items (fuel : nat) (depth : nat) (items : list JsonValue) : Parsing JsonValue := fun rest =>
  match fuel with
  | O => json_fail rest "anidamiento JSON demasiado profundo"
  | S fuel' =>
      let? '(value, rest) := parse_value fuel' (depth + 1) (skip_ws rest) in
      let items := items ++ [value] in
      match skip_ws rest with
      | [] => json_fail [] "array sin cerrar"
      | c :: rest =>
          if c =? 44 then parse_items fuel' depth items rest
          else if c =? 93 then Ok (JArray items, rest)
          else json_fail (c :: rest) "se esperaba ',' o ']'"
      end
  end.

Definition parse_document : list byte -> expected JsonValue := fun text =>
  let? '(value, rest) := parse_value (2 * length text + 2) 0 (skip_ws text) in
  match skip_ws rest with
  | [] => Ok value
  | rest => json_fail rest "contenido sobrante tras el valor JSON"
  end.
End Parser.

Definition parse_json (text : list byte) : expected JsonValue := parse_document (length text) text.

(** ** The writer *)

Record JsonWriter := MkWriter { jw_out : list byte; jw_first : list bool; jw_expecting_value : bool }.

Definition new_writer : JsonWriter := MkWriter [] [] false.

Definition writer_put (bs : list byte) (w : JsonWriter) : JsonWriter :=
  MkWriter (jw_out w ++ bs) (jw_first w) (jw_expecting_value w).

(** The comma before an element that is not the first; [first_.back()] is the head. *)
Definition before_key (w : JsonWriter) : JsonWriter :=
  match jw_first w with
  | [] => w
  | first :: outer => MkWriter (if first then jw_out w else jw_out w ++ [44]) (false :: outer) (jw_expecting_value w)
  end.

Definition before_value (w : JsonWriter) : JsonWriter :=
  if jw_expecting_value w then MkWriter (jw_out w) (jw_first w) false else before_key w.

Definition hex_char (d : Z) : byte := if d <? 10 then 48 + d else 97 + (d - 10).

(** [std::format("\\u{:04x}", c)], for a character below 0x20. *)
Definition escape_char (c : byte) : list byte :=
  if c =? 34 then [92; 34]
  else if c =? 92 then [92; 92]
  else if c =? 10 then [92; 110]
  else if c =? 13 then [92; 114]
  else if c =? 9 then [92; 116]
  else if c <? 32 then [92; 117; 48; 48; hex_char (c / 16); hex_char (c mod 16)]
  else [c].

Definition append_escaped (text : list byte) : list byte := [34] ++ concat (escape_char <$> text) ++ [34].

Definition begin_object (w : JsonWriter) : JsonWriter :=
  let w := before_value w in MkWriter (jw_out w ++ [123]) (true :: jw_first w) (jw_expecting_value w).
Definition end_object (w : JsonWriter) : JsonWriter := MkWriter (jw_out w ++ [125]) (tail (jw_first w)) (jw_expecting_value w).
Definition begin_array (w : JsonWriter) : JsonWriter :=
  let w := before_value w in MkWriter (jw_out w ++ [91]) (true :: jw_first w) (jw_expecting_value w).
Definition end_array (w : JsonWriter) : JsonWriter := MkWriter (jw_out w ++ [93]) (tail (jw_first w)) (jw_expecting_value w).

Definition write_key (name : list byte) (w : JsonWriter) : JsonWriter :=
  let w := writer_put (append_escaped name ++ [58]) (before_key w) in MkWriter (jw_out w) (jw_first w) true.
Definition write_string (text : list byte) (w : JsonWriter) : JsonWriter := writer_put (append_escaped text) (before_value w).
Definition write_int (number : Z) (w : JsonWriter) : JsonWriter := writer_put (to_string number) (before_value w).
Definition write_bool (flag : bool) (w : JsonWriter) : JsonWriter :=
  writer_put (if flag then [116; 114; 117; 101] else [102; 97; 108; 115; 101]) (before_value w).
Definition write_null (w : JsonWriter) : JsonWriter := writer_put [110; 117; 108; 108] (before_value w).

(** A document, written as a client of the writer does. *)
Fixpoint write_json (v : Json Z) (w : JsonWriter) : JsonWriter :=
  match v with
  | JNull => write_null w
  | JBool flag => write_bool flag w
  | JNumber number => write_int number w
  | JString text => write_string text w
  | JArray items => end_array (foldl (fun w item => write_json item w) (begin_array w) items)
  | JObject members => end_object (foldl (fun w m => write_json m.2 (write_key m.1 w)) (begin_object w) members)
  end.

(** * Doubles as text

    Models [std::format("{}", double)], as [JsonWriter::value(double)] of
    [src/src/ingress/json.cpp] and [format_double] of [telemetry/metrics.cpp] use it: the fewest digits
    that are read back as the number, without an exponent unless that is longer. *)

(** ** Digits *)

(** How many digits a number has. *)
Fixpoint decimal_length (fuel : nat) (z : Z) : Z :=
  match fuel with
  | O => 1
  | S fuel' => if z <? 10 then 1 else 1 + decimal_length fuel' (z / 10)
  end.

(** The quotient of [m * 2 ^ e] by [10 ^ s], and whether the next integer is nearer to it, or as near
    and even. *)
Definition scaled (m : positive) (e s : Z) : Z * bool :=
  let num := Zpos m * 2 ^ Z.max 0 e * 10 ^ Z.max 0 (- s) in
  let den := 2 ^ Z.max 0 (- e) * 10 ^ Z.max 0 s in
  (num / den, (den <? 2 * (num mod den)) || ((den =? 2 * (num mod den)) && Z.odd (num / den))).

(** The number lies below [10 ^ magnitude], and not below a tenth of it. *)
Definition magnitude (m : positive) (e : Z) : Z :=
  let '(z, _) := scaled m e (-400) in decimal_length 1100 z - 400.

Definition reads_back (m : positive) (e c s : Z) : bool :=
  match decimal_to_double false c (Z.to_nat (decimal_length 30 c)) s with
  | S754_finite false m' e' => (Zpos m' =? Zpos m) && (e' =? e)
  | _ => false
  end.

(** Of the two numbers of [n] digits around one below [10 ^ k], the nearest that is read back. *)
Definition digits_at (m : positive) (e k : Z) (n : nat) : option (Z * Z) :=
  let s := k - Z.of_nat n in
  let '(q, up) := scaled m e s in
  let '(near, far) := if up : bool then (q + 1, q) else (q, q + 1) in
  if reads_back m e near s then Some (near, s) else if reads_back m e far s then Some (far, s) else None.

(** Seventeen digits are always enough. *)
Fixpoint shortest_loop (fuel n : nat) (m : positive) (e k : Z) : Z * Z :=
  match fuel with
  | O => (fst (scaled m e (k - 17)), k - 17)
  | S fuel' => match digits_at m e k n with Some found => found | None => shortest_loop fuel' (S n) m e k end
  end.

Fixpoint strip_zeros (fuel : nat) (c s : Z) : Z * Z :=
  match fuel with
  | O => (c, s)
  | S fuel' => if c mod 10 =? 0 then strip_zeros fuel' (c / 10) (s + 1) else (c, s)
  end.

(** The digits as a number, and its exponent of ten. *)
Definition shortest (m : positive) (e : Z) : Z * Z :=
  let '(c, s) := shortest_loop 17 1 m e (magnitude m e) in strip_zeros 20 c s.

(** ** Text *)

Definition exponent_text (x : Z) : list byte :=
  (if x <? 0 then 45 else 43) :: (if Z.abs x <? 10 then 48 :: to_string (Z.abs x) else to_string (Z.abs x)).

Definition scientific_text (c s : Z) : list byte :=
  match to_string c with
  | [] => []
  | d :: ds => d :: (match ds with [] => [] | _ => 46 :: ds end) ++ [101] ++ exponent_text (s + Z.of_nat (length ds))
  end.

(** A whole number is written with its own digits, as [printf] does. *)
Definition fixed_text (m : positive) (e c s : Z) : list byte :=
  if 0 <=? s then digits_loop 400 (fst (scaled m e 0)) []
  else
    let ds := to_string c in
    let point := Z.of_nat (length ds) + s in
    if 0 <? point then take (Z.to_nat point) ds ++ [46] ++ drop (Z.to_nat point) ds
    else [48; 46] ++ replicate (Z.to_nat (- point)) 48 ++ ds.

Definition finite_text (m : positive) (e : Z) : list byte :=
  let '(c, s) := shortest m e in
  let scientific := scientific_text c s in
  let fixed := fixed_text m e c s in
  if (length scientific <? length fixed)%nat then scientific else fixed.

Definition format_number (x : spec_float) : list byte :=
  match x with
  | S754_zero sign => (if sign then [45] else []) ++ [48]
  | S754_infinity sign => (if sign then [45] else []) ++ [105; 110; 102]
  | S754_nan => [110; 97; 110]
  | S754_finite sign m e => (if sign then [45] else []) ++ finite_text m e
  end.

(** [JsonWriter::value(double)]. *)
Definition write_double (number : spec_float) (w : JsonWriter) : JsonWriter :=
  writer_put (format_number number) (before_value w).

(** [format_double] of the metrics. *)
Definition format_double (x : spec_float) : list byte :=
  match x with
  | S754_infinity sign => (if sign then [45] else [43]) ++ [73; 110; 102]
  | S754_nan => [78; 97; 78]
  | _ => format_number x
  end.
