(* ===== verification/JsonSafety.v ===== *)
(** * Correctness of the JSON parser and writer

    What the writer writes, the parser reads back; and the parser's descent ends. *)
From Stdlib Require Import ZArith Lia Floats.SpecFloat String.
From stdpp Require Import base list strings.
From S2P Require Import Prelude Codec Decimal Json.
#[local] Open Scope Z_scope.

(** ** Documents *)

Section JsonInd.
Context {N : Type} (P : Json N -> Prop).
Context (Hnull : P JNull) (Hbool : forall b, P (JBool b)) (Hnum : forall n, P (JNumber n)) (Hstr : forall s, P (JString s)).
Context (Harr : forall items, Forall P items -> P (JArray items)).
Context (Hobj : forall members, Forall (fun m => P m.2) members -> P (JObject members)).

Fixpoint json_ind_nested (v : Json N) : P v :=
  match v with
  | JNull => Hnull
  | JBool b => Hbool b
  | JNumber n => Hnum n
  | JString s => Hstr s
  | JArray items => Harr items ((fix go l : Forall P l := match l with [] => Forall_nil_2 _ | x :: l => Forall_cons_2 _ _ _ (json_ind_nested x) (go l) end) items)
  | JObject members =>
      Hobj members ((fix go l : Forall (fun m => P m.2) l :=
        match l with [] => Forall_nil_2 _ | m :: l => Forall_cons_2 _ _ _ (json_ind_nested m.2) (go l) end) members)
  end.
End JsonInd.

Fixpoint json_map {A B} (f : A -> B) (v : Json A) : Json B :=
  match v with
  | JNull => JNull
  | JBool b => JBool b
  | JNumber n => JNumber (f n)
  | JString s => JString s
  | JArray items => JArray (map (json_map f) items)
  | JObject members => JObject (map (fun m => (m.1, json_map f m.2)) members)
  end.

(** The containers around the innermost value. *)
Fixpoint nesting {A} (v : Json A) : nat :=
  match v with
  | JArray items => foldr (fun item n => Nat.max (S (nesting item)) n) O items
  | JObject members => foldr (fun m n => Nat.max (S (nesting m.2)) n) O members
  | _ => O
  end.

(** How a document's numbers are written, which are, and what double a reader gets for each. *)
Class JsonNumber (N : Type) := {
  number_text : N -> list byte;
  number_ok : N -> Prop;
  number_value : N -> spec_float;
}.

(** An integer as a double. *)
Definition double_of_int (n : Z) : spec_float :=
  if n <? 0 then SFopp (binary_normalize 53 1024 (- n) 0 false) else binary_normalize 53 1024 n 0 false.

(** Integers of 64 bits. *)
#[export] Instance Z_number : JsonNumber Z := {|
  number_text := to_string;
  number_ok := i_range 64;
  number_value := double_of_int;
|}.

(** Numbers that can be written, strings of bytes. *)
Fixpoint json_ok {N} `{!JsonNumber N} (v : Json N) : Prop :=
  match v with
  | JNumber n => number_ok n
  | JString s => Forall (u_range 8) s
  | JArray items => foldr (fun item P => json_ok item /\ P) True items
  | JObject members => foldr (fun m P => (Forall (u_range 8) m.1 /\ json_ok m.2) /\ P) True members
  | _ => True
  end.

(** ** What the writer writes *)

Fixpoint join_texts (texts : list (list byte)) : list byte :=
  match texts with
  | [] => []
  | [text] => text
  | text :: texts => text ++ [44] ++ join_texts texts
  end.

Fixpoint print_json {N} `{!JsonNumber N} (v : Json N) : list byte :=
  match v with
  | JNull => [110; 117; 108; 108]
  | JBool flag => if flag then [116; 114; 117; 101] else [102; 97; 108; 115; 101]
  | JNumber number => number_text number
  | JString text => append_escaped text
  | JArray items => [91] ++ join_texts (map print_json items) ++ [93]
  | JObject members => [123] ++ join_texts (map (fun m => append_escaped m.1 ++ [58] ++ print_json m.2) members) ++ [125]
  end.

Lemma join_cons text texts : join_texts (text :: texts) = text ++ match texts with [] => [] | _ => [44] ++ join_texts texts end.
Proof. destruct texts; cbn; [by rewrite app_nil_r|done]. Qed.

Lemma before_value_ready w : jw_expecting_value (before_value w) = false.
Proof. unfold before_value, before_key. destruct (jw_expecting_value w) eqn:E; [done|]. by destruct (jw_first w). Qed.

(** Elements after [first], each written as [put] with the comma it needs. *)
Lemma fold_elements {A} (step : JsonWriter -> A -> JsonWriter) (text : A -> list byte) xs w first outer :
  Forall (fun x => forall w, jw_expecting_value w = false -> step w x = writer_put (text x) (before_key w)) xs ->
  jw_first w = first :: outer -> jw_expecting_value w = false ->
  foldl step w xs
  = MkWriter (jw_out w ++ (if first then [] else match xs with [] => [] | _ => [44] end) ++ join_texts (map text xs))
      (match xs with [] => first | _ => false end :: outer) false.
Proof.
  intros Hall. revert w first. induction Hall as [|x xs Hx _ IH]; intros [out fs exp] first Hf He; cbn in Hf, He; subst fs exp; cbn [foldl map].
  - cbn. rewrite app_nil_r. by destruct first; rewrite ?app_nil_r.
  - rewrite Hx by done. erewrite IH by done. cbn [writer_put before_key jw_first jw_out]. rewrite join_cons.
    destruct xs, first; cbn [map join_texts]; rewrite ?app_nil_r, <- ?app_assoc; done.
Qed.

Lemma write_json_prints v w : write_json v w = writer_put (print_json v) (before_value w).
Proof.
  revert w. induction v as [| | | |items IH|members IH] using json_ind_nested; intros w; try done.
  - cbn [write_json]. unfold end_array. erewrite (fold_elements _ print_json).
    3: done. 3: cbn; apply before_value_ready.
    + cbn [begin_array jw_out jw_first tail print_json]. unfold writer_put. rewrite (before_value_ready w), <- !app_assoc. done.
    + eapply Forall_impl; [done|]. cbn. intros v Hv w' Hw'. rewrite Hv. unfold before_value. by rewrite Hw'.
  - cbn [write_json]. unfold end_object. erewrite (fold_elements _ (fun m => append_escaped m.1 ++ [58] ++ print_json m.2)).
    3: done. 3: cbn; apply before_value_ready.
    + cbn [begin_object jw_out jw_first tail print_json]. unfold writer_put. rewrite (before_value_ready w), <- !app_assoc. done.
    + eapply Forall_impl; [done|]. cbn beta. intros m Hv w' Hw'. rewrite Hv. unfold before_value, write_key, writer_put, before_key.
      destruct w' as [out [|[] fs] exp]; cbn -[append_escaped app] in *; subst exp; rewrite <- ?app_assoc; done.
Qed.

(** ** Reading back *)

(** What may follow a value: the end, a comma or the end of its container. *)
Definition ends_value (rest : list byte) : Prop :=
  match rest with [] => True | c :: _ => c = 44 \/ c = 93 \/ c = 125 end.

Definition no_ws (text : list byte) : Prop := match text with [] => False | c :: _ => is_ws c = false end.

Lemma skip_ws_none text rest : no_ws text -> skip_ws (text ++ rest) = text ++ rest.
Proof. destruct text as [|c text]; cbn; [done|]. intros H. unfold skip_ws. cbn. by rewrite H. Qed.

Lemma skip_ws_end rest : ends_value rest -> skip_ws rest = rest.
Proof. destruct rest as [|c rest]; [done|]. intros [->|[->| ->]]; done. Qed.

Lemma json_digit_spec c : json_digit c = true <-> is_digit c.
Proof. unfold json_digit, is_digit. rewrite andb_true_iff, !Z.leb_le. done. Qed.

Lemma taken_digits ds rest :
  Forall is_digit ds -> match rest with [] => True | c :: _ => json_digit c = false end ->
  taken_while json_digit (ds ++ rest) = ds /\ skip_while json_digit (ds ++ rest) = rest.
Proof.
  intros Hd Hr. induction Hd as [|c ds Hc _ [IH1 IH2]]; cbn [app].
  - destruct rest as [|c rest]; cbn; [done|]. by rewrite Hr.
  - cbn. rewrite (proj2 (json_digit_spec c) Hc). by rewrite IH1, IH2.
Qed.

(** The first digit of a number of several is not 0. *)
Lemma digits_loop_head fuel n acc :
  0 < n < 10 ^ Z.of_nat fuel -> exists c ds, digits_loop fuel n acc = c :: ds /\ c <> 48.
Proof.
  revert n acc. induction fuel as [|fuel IH]; intros n acc Hn; [cbn in Hn; lia|]. cbn [digits_loop].
  destruct (Z.ltb_spec n 10) as [Hlt|Hge].
  - eexists _, _. split; [done|]. rewrite Z.mod_small by lia. lia.
  - apply IH. split; [apply Z.div_str_pos; lia|]. apply Z.div_lt_upper_bound; [lia|].
    rewrite Nat2Z.inj_succ, Z.pow_succ_r in Hn by lia. lia.
Qed.

Lemma digits_number n :
  0 <= n < 10 ^ 20 ->
  exists c ds, digits n = c :: ds /\ is_digit c /\ Forall is_digit ds /\ digits_value (c :: ds) 0 = Some n /\ (c = 48 -> ds = []).
Proof.
  intros Hn. destruct (digits_spec n Hn) as (Hv & Hd & Hne & _). destruct (digits n) as [|c ds] eqn:E; [done|].
  apply Forall_cons in Hd as [Hc Hd]. exists c, ds. split_and!; try done. intros ->.
  destruct (decide (n = 0)) as [->|Hnz]; [by injection E|]. exfalso.
  destruct (digits_loop_head 20 n [] ltac:(lia)) as (c & ds' & Hl & Hc'). unfold digits in E. congruence.
Qed.

Lemma not_digit_end rest : ends_value rest -> match rest with [] => True | c :: _ => json_digit c = false end.
Proof. destruct rest as [|c rest]; [done|]. intros [->|[->| ->]]; done. Qed.

Lemma decimal_int neg n d :
  decimal_to_double neg n d 0 = (let x := binary_normalize 53 1024 n 0 false in
    if n =? 0 then S754_zero neg else if neg then SFopp x else x).
Proof.
  unfold decimal_to_double. destruct (n =? 0); [done|]. rewrite (proj2 (Z.ltb_ge 400 0)), (proj2 (Z.ltb_ge (0 + Z.of_nat d) (-400))) by lia.
  rewrite (proj2 (Z.leb_le 0 0)) by lia. by rewrite Z.pow_0_r, Z.mul_1_r.
Qed.

Lemma strtod_digits neg c ds n :
  is_digit c -> Forall is_digit ds -> digits_value (c :: ds) 0 = Some n -> 0 <= n ->
  strtod ((if neg : bool then [45] else []) ++ c :: ds) = (let x := binary_normalize 53 1024 n 0 false in
    if n =? 0 then S754_zero neg else if neg then SFopp x else x).
Proof.
  intros Hc Hd Hv Hn. unfold strtod.
  assert (Hneg : match (if neg then [45] else []) ++ c :: ds with 45 :: _ => true | _ => false end = neg).
  { destruct neg; [done|]. cbn. destruct Hc. destruct (Z.eq_dec c 45) as [->|]; [lia|]. repeat (destruct c as [|c|c]; try done). }
  rewrite Hneg. replace (if neg then tail ((if neg then [45] else []) ++ c :: ds) else (if neg then [45] else []) ++ c :: ds) with (c :: ds) by (by destruct neg).
  destruct (taken_digits (c :: ds) []) as [Ht Hs]; [by constructor|done|]. rewrite app_nil_r in Ht, Hs. rewrite Ht, Hs.
  rewrite app_nil_r. unfold decimal_value. rewrite Hv. apply decimal_int.
Qed.

Lemma parse_int size n rest :
  i_range 64 n -> ends_value rest -> parse_number size (to_string n ++ rest) = Ok (JNumber (double_of_int n), rest).
Proof.
  intros Hn Hr. assert (Hn' : - 10 ^ 20 < n < 10 ^ 20) by (width_simpl; lia).
  pose proof (not_digit_end rest Hr) as Hnd.
  assert (Hgo : forall neg c ds, is_digit c -> Forall is_digit ds -> (c = 48 -> ds = []) ->
    digits_value (c :: ds) 0 = Some (Z.abs n) -> (neg = (n <? 0)) ->
    parse_number size (((if neg then [45] else []) ++ c :: ds) ++ rest) = Ok (JNumber (double_of_int n), rest)).
  { intros neg c ds Hc Hd Hz Hv Hneg. unfold parse_number.
    assert (Hstart : match ((if neg then [45] else []) ++ c :: ds) ++ rest with
        | 45 :: r => r | _ => ((if neg then [45] else []) ++ c :: ds) ++ rest end = c :: ds ++ rest).
    { destruct neg; [done|]. cbn. destruct Hc. destruct (Z.eq_dec c 45) as [->|]; [lia|]. repeat (destruct c as [|c|c]; try done). }
    rewrite Hstart. cbn [consume_integer_part]. rewrite (proj2 (json_digit_spec c) Hc).
    assert (Hskip : (if c =? 48 then ds ++ rest else skip_while json_digit (c :: ds ++ rest)) = rest).
    { destruct (Z.eqb_spec c 48) as [Hz'|]; [by rewrite (Hz Hz')|]. apply (taken_digits (c :: ds)); [by constructor|done]. }
    rewrite Hskip. assert (Hfrac : consume_fraction rest = rest) by (destruct rest as [|x r]; [done|]; destruct Hr as [->|[->| ->]]; done).
    assert (Hexp : consume_exponent rest = (true, rest)) by (destruct rest as [|x r]; [done|]; destruct Hr as [->|[->| ->]]; done).
    rewrite Hfrac, Hexp. rewrite length_app, Nat.add_sub, take_app_length.
    rewrite (strtod_digits neg c ds (Z.abs n)) by (done || lia). cbv zeta. unfold double_of_int. rewrite <- Hneg. do 3 f_equal.
    destruct (Z.eqb_spec (Z.abs n) 0) as [H0|H0].
    - assert (n = 0) as -> by lia. by rewrite Hneg.
    - destruct neg; symmetry in Hneg; [apply Z.ltb_lt in Hneg; by rewrite Z.abs_neq by lia|apply Z.ltb_ge in Hneg; by rewrite Z.abs_eq by lia]. }
  unfold to_string. destruct (Z.ltb_spec n 0) as [Hlt|Hge].
  - destruct (digits_number (- n)) as (c & ds & -> & Hc & Hd & Hv & Hz); [lia|].
    apply (Hgo true c ds Hc Hd Hz); [by rewrite Z.abs_neq by lia|done].
  - destruct (digits_number n) as (c & ds & -> & Hc & Hd & Hv & Hz); [lia|].
    apply (Hgo false c ds Hc Hd Hz); [by rewrite Z.abs_eq by lia|done].
Qed.

(** ** Strings *)

Lemma small_char c : 0 <= c < 32 -> In c (map Z.of_nat (seq 0 32)).
Proof. intros Hc. apply in_map_iff. exists (Z.to_nat c). split; [lia|]. apply in_seq. lia. Qed.

(** The escape of a character reads back as the character. *)
Lemma escape_reads size fuel out c rest :
  u_range 8 c ->
  string_loop size (S fuel) out (escape_char c ++ rest) = string_loop size fuel (out ++ [c]) rest.
Proof.
  intros Hc. unfold u_range in Hc. unfold escape_char.
  destruct (Z.eqb_spec c 34) as [->|H34]; [done|]. destruct (Z.eqb_spec c 92) as [->|H92]; [done|].
  destruct (Z.eqb_spec c 10) as [->|H10]; [done|]. destruct (Z.eqb_spec c 13) as [->|H13]; [done|].
  destruct (Z.eqb_spec c 9) as [->|H9]; [done|]. destruct (Z.ltb_spec c 32) as [Hlt|Hge].
  - assert (Hesc : append_escape ([117; 48; 48; hex_char (c / 16); hex_char (c mod 16)] ++ rest) = (Some [c], rest)).
    { pose proof (small_char c ltac:(lia)) as Hin. clear -Hin. cbn in Hin.
      repeat (destruct Hin as [<-|Hin]; [reflexivity|]). done. }
    cbn [string_loop app]. cbn [app] in Hesc. by rewrite Hesc.
  - cbn [string_loop app]. by rewrite (proj2 (Z.eqb_neq c 34)), (proj2 (Z.eqb_neq c 92)) by done.
Qed.

Lemma escape_nonempty c : escape_char c <> [].
Proof. unfold escape_char. by repeat case_match. Qed.

Lemma string_reads size text : forall fuel out rest,
  Forall (u_range 8) text -> (length text < fuel)%nat ->
  string_loop size fuel out (concat (escape_char <$> text) ++ 34 :: rest) = Ok (out ++ text, rest).
Proof.
  induction text as [|c text IH]; intros fuel out rest Ht Hf.
  - destruct fuel; [cbn in Hf; lia|]. cbn. by rewrite app_nil_r.
  - apply Forall_cons in Ht as [Hc Ht]. destruct fuel as [|fuel]; [cbn in Hf; lia|]. cbn [fmap list_fmap concat].
    rewrite <- app_assoc, escape_reads by done. rewrite IH; [by rewrite <- app_assoc|done|cbn in Hf; lia].
Qed.

Lemma length_escaped text : (length text <= length (concat (escape_char <$> text)))%nat.
Proof.
  induction text as [|c text IH]; cbn; [done|]. rewrite length_app. pose proof (escape_nonempty c).
  destruct (escape_char c); [done|]. cbn. lia.
Qed.

Lemma parse_string_reads size text rest :
  Forall (u_range 8) text -> parse_string_raw size (concat (escape_char <$> text) ++ 34 :: rest) = Ok (text, rest).
Proof.
  intros Ht. unfold parse_string_raw. rewrite (string_reads size text) by (try done; rewrite length_app; pose proof (length_escaped text); cbn; lia).
  done.
Qed.

Lemma escaped_app text rest : append_escaped text ++ rest = 34 :: concat (escape_char <$> text) ++ 34 :: rest.
Proof. unfold append_escaped. cbn. by rewrite <- app_assoc. Qed.

(** ** Documents *)

(** What a reader of documents asks of the numbers: that they begin like numbers, and that the parser
    reads each as its double. *)
Class JsonNumberLaws (N : Type) `{!JsonNumber N} := {
  number_starts n : number_ok n -> exists c text, number_text n = c :: text /\ (c = 45 \/ is_digit c);
  number_reads size n rest : number_ok n -> ends_value rest ->
    parse_number size (number_text n ++ rest) = Ok (JNumber (number_value n), rest);
}.

#[export] Instance Z_number_laws : JsonNumberLaws Z.
Proof.
  split; [|apply parse_int]. cbn [number_ok number_text Z_number]. intros n Hn. unfold to_string.
  assert (Hn' : - 10 ^ 20 < n < 10 ^ 20) by (width_simpl; lia). destruct (Z.ltb_spec n 0) as [|Hge]; [eauto|].
  destruct (digits_number n) as (c & ds & -> & Hc & _); [lia|]. eauto.
Qed.

Section Documents.
Context {N : Type} `{!JsonNumber N, !JsonNumberLaws N}.
Implicit Type v : Json N.

Lemma print_no_ws v : json_ok v -> no_ws (print_json v).
Proof.
  destruct v as [|[]|n|s|items|members]; try done. cbn [json_ok print_json].
  intros (c & text & -> & Hc)%number_starts. cbn. unfold is_ws. rewrite !orb_false_iff, !Z.eqb_neq. unfold is_digit in Hc. lia.
Qed.

(** Nor does a value begin like the end of a container. *)
Lemma print_not_end v : json_ok v -> next 93 (print_json v) = None.
Proof.
  destruct v as [|[]|n|s|items|members]; try done. cbn [json_ok print_json].
  intros (c & text & -> & Hc)%number_starts. cbn. unfold is_digit in Hc. by rewrite (proj2 (Z.eqb_neq c 93)) by lia.
Qed.

Lemma next_app c text rest : no_ws text -> next c text = None -> next c (text ++ rest) = None.
Proof. destruct text as [|x text]; cbn; [done|]. intros _. by destruct (x =? c). Qed.

Lemma no_ws_length text : no_ws text -> (0 < length text)%nat.
Proof. destruct text; cbn; [done|lia]. Qed.

(** What a document needs to be read back, at some depth. *)
Definition reads_back (size : nat) (v : Json N) : Prop := forall fuel depth rest,
  json_ok v -> (depth + nesting v <= kJsonMaxDepth)%nat -> (2 * length (print_json v) <= fuel)%nat -> ends_value rest ->
  parse_value size fuel depth (print_json v ++ rest) = Ok (json_map number_value v, rest).

Lemma items_read_back size items : forall v fuel depth acc rest,
  Forall (reads_back size) (v :: items) -> json_ok (JArray (v :: items)) ->
  (depth + nesting (JArray (v :: items)) <= kJsonMaxDepth)%nat ->
  (2 * length (join_texts (map print_json (v :: items))) + 1 <= fuel)%nat ->
  parse_items size fuel depth acc (join_texts (map print_json (v :: items)) ++ 93 :: rest)
  = Ok (JArray (acc ++ map (json_map number_value) (v :: items)), rest).
Proof.
  induction items as [|v' items IH]; intros v [|fuel] depth acc rest Hall Hok Hd Hf; [lia| |lia|];
    apply Forall_cons in Hall as [Hv Hall]; destruct Hok as [Hvok Hok]; cbn [nesting foldr] in Hd; cbn [parse_items].
  - cbn [map join_texts] in *. rewrite skip_ws_none by (by apply print_no_ws). rewrite Hv by (first [done|lia|by right; left]). done.
  - cbn [map] in *. rewrite join_cons in *. cbn [map] in *. rewrite <- app_assoc. rewrite skip_ws_none by (by apply print_no_ws).
    rewrite !length_app in Hf. pose proof (no_ws_length _ (print_no_ws v Hvok)).
    rewrite Hv; [|done|lia|lia|by left]. cbn [expected_bind app]. rewrite skip_ws_end by (by left). change (44 =? 44) with true. cbv beta iota.
    rewrite IH; [by rewrite <- app_assoc|done|done|cbn [nesting foldr]; lia|cbn [length] in Hf; lia].
Qed.

Abbreviation print_member := (fun m : list byte * Json N => append_escaped m.1 ++ [58] ++ print_json m.2).

Lemma escaped_no_ws text rest : no_ws (append_escaped text ++ rest).
Proof. done. Qed.

Lemma member_head size fuel depth acc key value rest :
  Forall (u_range 8) key -> json_ok value ->
  parse_members size (S fuel) depth acc (print_member (key, value) ++ rest)
  = (let? '(v, rest) := parse_value size fuel (depth + 1) (print_json value ++ rest) in
     match skip_ws rest with
     | [] => json_fail size [] "objeto sin cerrar"
     | c :: rest =>
         if c =? 44 then parse_members size fuel depth (acc ++ [(key, v)]) rest
         else if c =? 125 then Ok (JObject (acc ++ [(key, v)]), rest)
         else json_fail size (c :: rest) "se esperaba ',' o '}'"
     end).
Proof.
  intros Hk Hv. cbn [parse_members fst snd]. rewrite <- !app_assoc, escaped_app.
  change (skip_ws (34 :: ?t)) with (34 :: t). cbv zeta.
  change (next 34 (34 :: ?t)) with (Some t). cbv beta iota. rewrite parse_string_reads by done. cbn [expected_bind].
  change (next 58 (skip_ws ([58] ++ print_json value ++ rest))) with (Some (print_json value ++ rest)). cbv beta iota.
  by rewrite skip_ws_none by (by apply print_no_ws).
Qed.

Lemma members_read_back size members : forall m fuel depth acc rest,
  Forall (fun m => reads_back size m.2) (m :: members) -> json_ok (JObject (m :: members)) ->
  (depth + nesting (JObject (m :: members)) <= kJsonMaxDepth)%nat ->
  (2 * length (join_texts (map print_member (m :: members))) + 1 <= fuel)%nat ->
  parse_members size fuel depth acc (join_texts (map print_member (m :: members)) ++ 125 :: rest)
  = Ok (JObject (acc ++ map (fun m => (m.1, json_map number_value m.2)) (m :: members)), rest).
Proof.
  induction members as [|m' members IH]; intros [k v] [|fuel] depth acc rest Hall Hok Hd Hf; [lia| |lia|];
    apply Forall_cons in Hall as [Hv Hall]; destruct Hok as [[Hk Hvok] Hok]; cbn [nesting foldr fst snd] in *;
    pose proof (no_ws_length _ (print_no_ws v Hvok)).
  - cbn [map join_texts] in *. rewrite !length_app in Hf. rewrite member_head by done.
    rewrite Hv by (first [done|cbn [fst snd] in *; lia|by right; right]). done.
  - cbn [map] in *. rewrite join_cons in *. rewrite <- app_assoc. rewrite !length_app in Hf. rewrite member_head by done.
    cbn [fst snd] in *. rewrite Hv; [|done|lia|lia|by left].
    cbn [expected_bind]. rewrite <- app_assoc. cbn [app]. rewrite skip_ws_end by (by left). change (44 =? 44) with true. cbv beta iota.
    rewrite IH; [by rewrite <- app_assoc|done|done|cbn [nesting foldr]; lia|cbn [length] in Hf; lia].
Qed.

Lemma document_reads_back size v : reads_back size v.
Proof.
  induction v as [|b|n|s|items IH|members IH] using json_ind_nested; intros [|fuel] depth rest Hok Hd Hf Hr;
    try (pose proof (no_ws_length _ (print_no_ws _ Hok)); lia); cbn [parse_value];
    rewrite (proj2 (Nat.ltb_ge _ _)) by lia; cbn [print_json json_map].
  - done.
  - by destruct b.
  - rewrite <- (number_reads size n rest Hok Hr). destruct (number_starts n Hok) as (c & text & -> & Hc). cbn [app].
    unfold is_digit in Hc. rewrite !(proj2 (Z.eqb_neq c _)) by lia. done.
  - rewrite escaped_app. cbn -[parse_string_raw]. by rewrite parse_string_reads.
  - cbn [print_json] in Hf. rewrite !length_app in Hf. cbn [length] in Hf. rewrite <- app_assoc. cbn [app]. change (91 =? 123) with false.
    change (91 =? 91) with true. cbv iota. destruct items as [|v items]; [done|]. rewrite <- app_assoc. cbn [app].
    assert (Hnw : no_ws (join_texts (map print_json (v :: items))) /\ next 93 (join_texts (map print_json (v :: items))) = None).
    { cbn [map]. rewrite join_cons. pose proof (print_no_ws v (proj1 Hok)) as Hv. pose proof (print_not_end v (proj1 Hok)) as He.
      split; [by destruct (print_json v)|by apply next_app]. }
    destruct Hnw as [Hnw Hne]. rewrite skip_ws_none, next_app by done. by apply items_read_back; [..|lia].
  - cbn [print_json] in Hf. rewrite !length_app in Hf. cbn [length] in Hf. rewrite <- app_assoc. cbn [app].
    change (123 =? 123) with true. cbv iota. destruct members as [|m members]; [done|]. rewrite <- app_assoc. cbn [app].
    assert (Hnw : no_ws (join_texts (map print_member (m :: members))) /\ next 125 (join_texts (map print_member (m :: members))) = None).
    { cbn [map]. rewrite join_cons. by split. }
    destruct Hnw as [Hnw Hne]. rewrite skip_ws_none, next_app by done. by apply members_read_back; [..|lia].
Qed.

Lemma document_parsed v : json_ok v -> (nesting v <= kJsonMaxDepth)%nat -> parse_json (print_json v) = Ok (json_map number_value v).
Proof.
  intros Hok Hdepth. unfold parse_json, parse_document. pose proof (print_no_ws v Hok) as Hnw.
  rewrite <- (app_nil_r (print_json v)) at 3. rewrite skip_ws_none by done.
  rewrite document_reads_back; [done|done|done|lia|done].
Qed.

End Documents.

Lemma json_reads_back (v : Json Z) : json_ok v -> (nesting v <= kJsonMaxDepth)%nat -> parse_json (print_json v) = Ok (json_map double_of_int v).
Proof. exact (document_parsed v). Qed.

Lemma write_json_text v : jw_out (write_json v new_writer) = print_json v.
Proof. by rewrite write_json_prints. Qed.

(** ** Integers as doubles *)

Lemma digits2_bounds p : 2 ^ (Zpos (digits2_pos p) - 1) <= Zpos p < 2 ^ Zpos (digits2_pos p).
Proof.
  induction p as [p IH|p IH|]; cbn [digits2_pos]; [| |by cbn].
  all: rewrite Pos2Z.inj_succ; replace (Z.succ (Zpos (digits2_pos p)) - 1) with (Z.succ (Zpos (digits2_pos p) - 1)) by lia.
  all: rewrite !Z.pow_succ_r by lia; lia.
Qed.

Lemma shifted_value p d : Zpos (Pos.iter xO p d) = Zpos p * 2 ^ Zpos d.
Proof.
  induction d as [|d IH] using Pos.peano_ind; [cbn; lia|]. rewrite Pos.iter_succ, Pos2Z.inj_succ, Z.pow_succ_r by lia. lia.
Qed.

Lemma shifted_digits p d : Zpos (digits2_pos (Pos.iter xO p d)) = Zpos (digits2_pos p) + Zpos d.
Proof.
  induction d as [|d IH] using Pos.peano_ind; [cbn; lia|]. rewrite Pos.iter_succ. cbn [digits2_pos]. lia.
Qed.

(** A mantissa of 53 bits is kept as it is. *)
Lemma round_exact sign m e :
  Zpos (digits2_pos m) = 53 -> -1074 <= e <= 971 ->
  binary_round_aux 53 1024 sign (Zpos m) e loc_Exact = S754_finite sign m e.
Proof.
  intros Hm He. unfold binary_round_aux, shr_fexp, fexp, SpecFloat.emin.
  assert (H0 : Z.max (Zdigits2 (Zpos m) + e - 53) (3 - 1024 - 53) - e = 0) by (cbn [Zdigits2]; lia).
  rewrite H0. cbn [shr shr_record_of_loc shr_m loc_of_shr_record round_nearest_even]. rewrite H0. cbn [shr shr_m].
  by rewrite (proj2 (Z.leb_le e (1024 - 53))) by lia.
Qed.

Lemma small_int_exact p : Zpos p < 2 ^ 53 -> exists m e, binary_normalize 53 1024 (Zpos p) 0 false = S754_finite false m e /\
  e <= 0 /\ Zpos m = Zpos p * 2 ^ (- e).
Proof.
  intros Hp. pose proof (digits2_bounds p) as [Hlo _].
  assert (Hd : Zpos (digits2_pos p) <= 53).
  { destruct (Z.le_gt_cases (Zpos (digits2_pos p)) 53); [done|]. pose proof (Z.pow_le_mono_r 2 53 (Zpos (digits2_pos p) - 1)). lia. }
  cbn [binary_normalize]. unfold binary_round.
  assert (Hf : fexp 53 1024 (Zpos (digits2_pos p) + 0) = Zpos (digits2_pos p) - 53) by (unfold fexp, SpecFloat.emin; lia).
  rewrite Hf. unfold shl_align. destruct (Zpos (digits2_pos p) - 53 - 0) as [|d|d] eqn:E; [|lia|].
  - rewrite round_exact by lia. exists p, 0. split_and!; [done|lia|lia].
  - rewrite round_exact by (rewrite ?shifted_digits; lia). exists (Pos.iter xO p d), (Zpos (digits2_pos p) - 53).
    split_and!; [done|lia|]. rewrite shifted_value. do 2 f_equal. lia.
Qed.

(** Integers of 53 bits survive the parser, which reads them as doubles. *)
Lemma as_int64_of_int unrepresentable n : Z.abs n < 2 ^ 53 -> as_int64 unrepresentable (double_of_int n) = n.
Proof.
  intros Hn. assert (Hpos : forall p sign, Zpos p < 2 ^ 53 ->
    as_int64 unrepresentable (if sign : bool then SFopp (binary_normalize 53 1024 (Zpos p) 0 false) else binary_normalize 53 1024 (Zpos p) 0 false)
    = if sign then - Zpos p else Zpos p).
  { intros p sign Hp. destruct (small_int_exact p Hp) as (m & e & -> & He & Hm).
    assert (Ht : (if 0 <=? e then Zpos m * 2 ^ e else Zpos m / 2 ^ (- e)) = Zpos p).
    { destruct (Z.leb_spec 0 e); [assert (e = 0) as -> by lia; rewrite Hm; cbn; lia|]. rewrite Hm. apply Z.div_mul. lia. }
    assert (Hbig : 2 ^ 53 < 2 ^ 63) by (vm_compute; done).
    destruct sign; cbn [SFopp negb as_int64 truncate]; rewrite Ht, (proj2 (Z.leb_le _ _)), (proj2 (Z.ltb_lt _ _)) by lia; done. }
  unfold double_of_int. destruct (Z.ltb_spec n 0) as [Hlt|Hge].
  - destruct n as [|p|p]; [lia|lia|]. apply (Hpos p true). lia.
  - destruct n as [|p|p]; [done| |lia]. apply (Hpos p false). lia.
Qed.

(** JSON is read back.  A document of strings of any bytes, integers of 64 bits, booleans, nulls,
    arrays and objects, written through the writer and nested no deeper than the parser's limit, is
    parsed as that document, with its members in order and each integer as the nearest double. *)
Theorem json_roundtrip (v : Json Z) (Hok : json_ok v) (Hdepth : (nesting v <= kJsonMaxDepth)%nat) :
  parse_json (jw_out (write_json v new_writer)) = Ok (json_map double_of_int v).
Proof. rewrite write_json_text. by apply json_reads_back. Qed.

Definition sample_json : Json Z :=
  JObject [([97; 34; 1], JArray [JNumber (-25); JBool true; JArray []; JString [10; 200; 92]]); ([98], JObject []); ([98], JNull)].

Lemma json_roundtrip_witness :
  parse_json (jw_out (write_json sample_json new_writer)) = Ok (json_map double_of_int sample_json) /\
  jw_out (write_json (JArray [JNumber 7; JString [34]]) new_writer) = [91; 55; 44; 34; 92; 34; 34; 93].
Proof.
  assert (Hok : json_ok sample_json) by (cbn; by_ranges; done).
  assert (Hd : (nesting sample_json <= kJsonMaxDepth)%nat) by (vm_compute; lia).
  split; [exact (json_roundtrip sample_json Hok Hd)|vm_compute; reflexivity].
Defined.

(** ** Doubles *)

(** A number by its parts: the digits before the point, without a needless zero; the fraction and the
    exponent, which may be missing. *)
Definition fraction_part (t : list byte) : Prop := t = [] \/ exists ds, t = 46 :: ds /\ Forall is_digit ds.
Definition exponent_part (t : list byte) : Prop :=
  t = [] \/ exists sign d ds, t = 101 :: sign :: d :: ds /\ (sign = 43 \/ sign = 45) /\ is_digit d /\ Forall is_digit ds.
Definition number_token (t : list byte) : Prop :=
  exists c ds fraction exponent, t = (c :: ds) ++ fraction ++ exponent /\
    is_digit c /\ Forall is_digit ds /\ (c = 48 -> ds = []) /\ fraction_part fraction /\ exponent_part exponent.

Lemma skip_digits_part ds rest :
  Forall is_digit ds -> match rest with [] => True | c :: _ => json_digit c = false end -> skip_while json_digit (ds ++ rest) = rest.
Proof. intros Hd Hr. by apply taken_digits. Qed.

Lemma exponent_consumed t rest : exponent_part t -> ends_value rest -> consume_exponent (t ++ rest) = (true, rest).
Proof.
  intros Ht Hr. pose proof (not_digit_end rest Hr) as Hnd. destruct Ht as [->|(sign & d & ds & -> & Hs & Hd & Hds)].
  - destruct rest as [|x r]; [done|]. destruct Hr as [->|[->| ->]]; done.
  - cbn [app consume_exponent]. change (101 =? 101) with true. cbn [orb].
    replace ((sign =? 43) || (sign =? 45)) with true by (by destruct Hs as [->| ->]).
    rewrite (proj2 (json_digit_spec d) Hd). f_equal. apply (skip_digits_part (d :: ds)); [by constructor|done].
Qed.

Lemma after_fraction t rest : exponent_part t -> ends_value rest -> match t ++ rest with [] => True | c :: _ => json_digit c = false end.
Proof. intros [->|(sign & d & ds & -> & _)] Hr; [by apply not_digit_end|done]. Qed.

Lemma fraction_consumed f t rest :
  fraction_part f -> exponent_part t -> ends_value rest -> consume_fraction (f ++ t ++ rest) = t ++ rest.
Proof.
  intros [->|(ds & -> & Hds)] Ht Hr.
  - destruct Ht as [->|(sign & d & ds & -> & _)]; [|done]. destruct rest as [|x r]; [done|]. destruct Hr as [->|[->| ->]]; done.
  - cbn [app consume_fraction]. apply skip_digits_part; [done|by apply after_fraction].
Qed.

Lemma after_integer f t rest :
  fraction_part f -> exponent_part t -> ends_value rest -> match f ++ t ++ rest with [] => True | c :: _ => json_digit c = false end.
Proof. intros [->|(ds & -> & _)] Ht Hr; [exact (after_fraction t rest Ht Hr)|done]. Qed.

Lemma parse_token size (neg : bool) t rest :
  number_token t -> ends_value rest ->
  parse_number size (((if neg then [45] else []) ++ t) ++ rest) = Ok (JNumber (strtod ((if neg then [45] else []) ++ t)), rest).
Proof.
  intros (c & ds & f & x & -> & Hc & Hds & Hz & Hf & Hx) Hr. unfold parse_number. rewrite <- !app_assoc.
  assert (Hstart : match (if neg then [45] else []) ++ (c :: ds) ++ f ++ x ++ rest with
      | 45 :: r => r | _ => (if neg then [45] else []) ++ (c :: ds) ++ f ++ x ++ rest end = (c :: ds) ++ f ++ x ++ rest).
  { destruct neg; [done|]. cbn. destruct Hc. destruct (Z.eq_dec c 45) as [->|]; [lia|]. repeat (destruct c as [|c|c]; try done). }
  rewrite Hstart. cbn [app consume_integer_part]. rewrite (proj2 (json_digit_spec c) Hc).
  assert (Hskip : (if c =? 48 then ds ++ f ++ x ++ rest else skip_while json_digit (c :: ds ++ f ++ x ++ rest)) = f ++ x ++ rest).
  { destruct (Z.eqb_spec c 48) as [Hz'|]; [by rewrite (Hz Hz')|]. apply (skip_digits_part (c :: ds)); [by constructor|by apply after_integer]. }
  rewrite Hskip, fraction_consumed, exponent_consumed by done. do 3 f_equal.
  change ((if neg then [45] else []) ++ c :: ds ++ f ++ x ++ rest) with ((if neg then [45] else []) ++ (c :: ds) ++ f ++ x ++ rest).
  rewrite !app_assoc, length_app, Nat.add_sub, take_app_length. by rewrite <- !app_assoc.
Qed.

(** The digits of a number that the loop has turns for. *)
Lemma loop_number fuel n :
  (0 < fuel)%nat -> 0 <= n < 10 ^ Z.of_nat fuel ->
  exists c ds, digits_loop fuel n [] = c :: ds /\ is_digit c /\ Forall is_digit ds /\ (c = 48 -> ds = []).
Proof.
  intros Hf Hn. destruct (digits_loop_value fuel n [] Hn Hf) as (l & Hl & _ & Hd & Hne & _). rewrite app_nil_r in Hl.
  destruct l as [|c ds]; [done|]. apply Forall_cons in Hd as [Hc Hd]. exists c, ds. split_and!; try done. intros ->.
  destruct (decide (n = 0)) as [->|Hnz].
  - destruct fuel; [lia|]. cbn in Hl. congruence.
  - destruct (digits_loop_head fuel n [] ltac:(lia)) as (c & ds' & Hl' & Hc'). congruence.
Qed.

Lemma number_digits c : 0 <= c < 10 ^ 20 -> exists d ds, to_string c = d :: ds /\ is_digit d /\ Forall is_digit ds /\ (d = 48 -> ds = []).
Proof. intros Hc. unfold to_string, digits. rewrite (proj2 (Z.ltb_ge c 0)) by lia. apply loop_number; [lia|done]. Qed.

(** The exponent of a double is small. *)
Lemma exponent_text_part x : Z.abs x < 10 ^ 20 -> exponent_part (101 :: exponent_text x).
Proof.
  intros Hx. destruct (number_digits (Z.abs x)) as (d & ds & Hd & H1 & H2 & _); [lia|]. right. unfold exponent_text. rewrite Hd.
  assert (Hs : (if x <? 0 then 45 else 43) = 43 \/ (if x <? 0 then 45 else 43) = 45) by (destruct (x <? 0); auto).
  destruct (Z.abs x <? 10).
  - eexists _, 48, (d :: ds). split_and!; [done|done|by unfold is_digit|by constructor].
  - by eexists _, d, ds.
Qed.

Lemma scientific_token c s : 0 <= c < 10 ^ 20 -> Z.abs s < 10 ^ 18 -> number_token (scientific_text c s).
Proof.
  intros Hc Hs. destruct (digits_spec c Hc) as (_ & _ & _ & Hlen). destruct (number_digits c Hc) as (d & ds & Hd & H1 & H2 & _).
  unfold scientific_text. rewrite Hd. exists d, [], (match ds with [] => [] | _ => 46 :: ds end), (101 :: exponent_text (s + Z.of_nat (length ds))).
  split_and!; [done|done|constructor|done| |].
  - destruct ds; [by left|right; eauto].
  - apply exponent_text_part. unfold to_string in Hd. rewrite (proj2 (Z.ltb_ge c 0)) in Hd by lia. rewrite Hd in Hlen. cbn [length] in Hlen.
    change (10 ^ 18) with 1000000000000000000 in Hs. change (10 ^ 20) with 100000000000000000000. lia.
Qed.

Lemma fixed_token m e c s :
  0 <= c < 10 ^ 20 -> (0 <= s -> fst (scaled m e 0) < 10 ^ 400) -> number_token (fixed_text m e c s).
Proof.
  intros Hc Hbig. destruct (number_digits c Hc) as (d & ds & Hd & H1 & H2 & H3). unfold fixed_text. destruct (Z.leb_spec 0 s) as [Hs|Hs].
  - assert (Hq : 0 <= fst (scaled m e 0) < 10 ^ Z.of_nat 400).
    { split; [|change (Z.of_nat 400) with 400; by apply Hbig]. unfold scaled. cbn [fst]. apply Z.div_pos; [lia|]. lia. }
    destruct (loop_number 400 _ ltac:(lia) Hq) as (c0 & l & -> & ? & ? & ?).
    exists c0, l, [], []. rewrite !app_nil_r. split_and!; try done; by left.
  - cbv zeta. rewrite Hd. set (point := Z.of_nat (length (d :: ds)) + s). destruct (Z.ltb_spec 0 point) as [Hp|Hp].
    + assert (Hn : exists k, Z.to_nat point = S k) by (exists (Z.to_nat (point - 1)); lia). destruct Hn as [k ->].
      cbn [take drop app]. exists d, (take k ds), (46 :: drop k ds), []. rewrite app_nil_r.
      split_and!; [done|done|by apply Forall_take| |right; eauto using Forall_drop|by left].
      intros Hz. by rewrite (H3 Hz), take_nil.
    + exists 48, [], (46 :: replicate (Z.to_nat (- point)) 48 ++ d :: ds), []. rewrite app_nil_r.
      split_and!; [done|by unfold is_digit|constructor|done| |by left]. right. eexists. split; [done|].
      apply Forall_app. split; [|by constructor]. apply Forall_replicate. unfold is_digit. lia.
Qed.

(** A mantissa and an exponent that a double has. *)
Definition double_range (m : positive) (e : Z) : Prop := Zpos m < 2 ^ 53 /\ -1074 <= e <= 971.

Lemma decimal_length_bound fuel z : 0 <= z < 10 ^ Z.of_nat fuel -> 1 <= decimal_length fuel z /\ z < 10 ^ decimal_length fuel z /\ decimal_length fuel z <= Z.of_nat fuel + 1.
Proof.
  revert z. induction fuel as [|fuel IH]; intros z Hz; cbn [decimal_length]; [cbn in *; lia|].
  destruct (Z.ltb_spec z 10) as [Hlt|Hge]; [rewrite Z.pow_1_r; lia|]. rewrite Nat2Z.inj_succ, Z.pow_succ_r in Hz by lia.
  destruct (IH (z / 10)) as (H1 & H2 & H3); [split; [apply Z.div_pos; lia|apply Z.div_lt_upper_bound; lia]|].
  rewrite Nat2Z.inj_succ, Z.pow_add_r, Z.pow_1_r by lia. pose proof (Z.div_mod z 10 ltac:(lia)). pose proof (Z.mod_pos_bound z 10 ltac:(lia)). lia.
Qed.

(** The two parts of a double as a quotient. *)
Abbreviation upper m e := (Zpos m * 2 ^ Z.max 0 e).
Abbreviation lower e := (2 ^ Z.max 0 (- e)).

Lemma upper_bound m e : double_range m e -> 0 < upper m e < 2 ^ 1024.
Proof.
  intros [Hm He]. assert (0 < 2 ^ Z.max 0 e) by (apply Z.pow_pos_nonneg; lia). split; [lia|].
  assert (2 ^ Z.max 0 e <= 2 ^ 971) by (apply Z.pow_le_mono_r; lia).
  change 1024 with (53 + 971). rewrite Z.pow_add_r by lia. nia.
Qed.

Lemma scaled_nonneg m e s : 0 <= fst (scaled m e s).
Proof. unfold scaled. cbn [fst]. apply Z.div_pos; [lia|]. assert (0 < 2 ^ Z.max 0 (- e)) by (apply Z.pow_pos_nonneg; lia). assert (0 < 10 ^ Z.max 0 s) by (apply Z.pow_pos_nonneg; lia). lia. Qed.

Lemma magnitude_bound m e : double_range m e ->
  exists L, magnitude m e = L - 400 /\ 1 <= L <= 1101 /\ upper m e * 10 ^ 400 < lower e * 10 ^ L.
Proof.
  intros Hr. pose proof (upper_bound m e Hr) as Hu. unfold magnitude. destruct (scaled m e (-400)) as [z b] eqn:Hz. unfold scaled in Hz.
  injection Hz as Hz _. change (Z.max 0 (- (-400))) with 400 in Hz. change (Z.max 0 (-400)) with 0 in Hz. rewrite Z.pow_0_r, Z.mul_1_r in Hz.
  assert (Hl : 0 < lower e) by (apply Z.pow_pos_nonneg; lia). assert (H10 : 0 < 10 ^ 400) by (apply Z.pow_pos_nonneg; lia).
  assert (Hz0 : 0 <= z < 10 ^ Z.of_nat 1100).
  { subst z. split; [apply Z.div_pos; lia|]. apply Z.div_lt_upper_bound; [lia|].
    assert (Hc : 2 ^ 1024 * 10 ^ 400 < 10 ^ 1100) by (vm_compute; done). change (Z.of_nat 1100) with 1100.
    assert (upper m e * 10 ^ 400 <= 2 ^ 1024 * 10 ^ 400) by (apply Z.mul_le_mono_nonneg_r; lia).
    assert (10 ^ 1100 <= lower e * 10 ^ 1100) by (rewrite <- (Z.mul_1_l (10 ^ 1100)) at 1; apply Z.mul_le_mono_nonneg_r; [apply Z.pow_nonneg; lia|lia]). lia. }
  destruct (decimal_length_bound 1100 z Hz0) as (H1 & H2 & H3). exists (decimal_length 1100 z). split; [done|]. split; [lia|].
  rewrite <- Hz in H2 at 1. revert H2. set (L := decimal_length 1100 z) in *. clearbody L. clear -Hl. intros H2.
  pose proof (Z.mul_succ_div_gt (upper m e * 10 ^ 400) (lower e) Hl) as Hgt.
  assert (lower e * Z.succ (upper m e * 10 ^ 400 / lower e) <= lower e * 10 ^ L) by (apply Z.mul_le_mono_nonneg_l; lia). lia.
Qed.

(** [n] digits of a number below [10 ^ k] are [n] digits. *)
Lemma scaled_digits m e (n : nat) : double_range m e -> fst (scaled m e (magnitude m e - Z.of_nat n)) < 10 ^ Z.of_nat n.
Proof.
  intros Hr. destruct (magnitude_bound m e Hr) as (L & -> & HL & Hlt). unfold scaled. cbn [fst].
  assert (Hl : 0 < lower e) by (apply Z.pow_pos_nonneg; lia). set (s := L - 400 - Z.of_nat n).
  assert (Hpow : 0 < 10 ^ Z.max 0 s) by (apply Z.pow_pos_nonneg; lia).
  apply Z.div_lt_upper_bound; [lia|]. destruct (Z.le_gt_cases 0 s) as [Hs|Hs].
  - rewrite (Z.max_l 0 (- s)), (Z.max_r 0 s), Z.pow_0_r, Z.mul_1_r by lia.
    rewrite <- Z.mul_assoc, <- Z.pow_add_r by lia. replace (s + Z.of_nat n) with (L - 400) by lia.
    replace L with (400 + (L - 400)) in Hlt by lia. rewrite Z.pow_add_r in Hlt by lia.
    apply (Z.mul_lt_mono_pos_r (10 ^ 400)); [apply Z.pow_pos_nonneg; lia|]. lia.
  - rewrite (Z.max_r 0 (- s)), (Z.max_l 0 s), Z.pow_0_r, Z.mul_1_r by lia.
    apply (Z.mul_lt_mono_pos_r (10 ^ L)); [apply Z.pow_pos_nonneg; lia|].
    rewrite <- Z.mul_assoc, <- Z.pow_add_r by lia. replace (- s + L) with (400 + Z.of_nat n) by lia. rewrite Z.pow_add_r by lia.
    assert (0 < 10 ^ Z.of_nat n) by (apply Z.pow_pos_nonneg; lia). nia.
Qed.

Lemma shortest_loop_range fuel n m e : double_range m e -> (n + fuel <= 18)%nat ->
  let '(c, s) := shortest_loop fuel n m e (magnitude m e) in 0 <= c <= 10 ^ 17 /\ magnitude m e - 17 <= s <= magnitude m e.
Proof.
  intros Hr. revert n. induction fuel as [|fuel IH]; intros n Hn; cbn [shortest_loop].
  - pose proof (scaled_nonneg m e (magnitude m e - 17)). pose proof (scaled_digits m e 17 Hr). change (Z.of_nat 17) with 17 in *. lia.
  - unfold digits_at. pose proof (scaled_nonneg m e (magnitude m e - Z.of_nat n)) as H0. pose proof (scaled_digits m e n Hr) as H1.
    assert (H2 : 10 ^ Z.of_nat n <= 10 ^ 17) by (apply Z.pow_le_mono_r; lia).
    destruct (scaled m e _) as [q up]. cbn [fst] in *.
    destruct up; (destruct (Json.reads_back m e _ _); [lia|destruct (Json.reads_back m e _ _); [lia|]]); apply IH; lia.
Qed.

Lemma strip_zeros_range fuel c s : 0 <= c -> let '(c', s') := strip_zeros fuel c s in 0 <= c' <= c /\ s <= s' <= s + Z.of_nat fuel.
Proof.
  revert c s. induction fuel as [|fuel IH]; intros c s Hc; cbn [strip_zeros]; [lia|]. destruct (_ =? 0); [|lia].
  specialize (IH (c / 10) (s + 1) ltac:(apply Z.div_pos; lia)). destruct (strip_zeros fuel (c / 10) (s + 1)) as [c' s'].
  assert (c / 10 <= c) by (apply Z.div_le_upper_bound; lia). lia.
Qed.

Lemma finite_token m e : double_range m e -> number_token (finite_text m e).
Proof.
  intros Hr. unfold finite_text, shortest. pose proof (shortest_loop_range 17 1 m e Hr ltac:(lia)) as H1.
  destruct (shortest_loop 17 1 m e (magnitude m e)) as [c0 s0]. pose proof (strip_zeros_range 20 c0 s0 ltac:(lia)) as H2.
  destruct (strip_zeros 20 c0 s0) as [c s]. destruct (magnitude_bound m e Hr) as (L & HL & HLr & _). rewrite HL in H1.
  assert (Hc : 0 <= c < 10 ^ 20) by (split; [lia|]; assert (10 ^ 17 < 10 ^ 20) by (vm_compute; done); lia).
  destruct (_ <? _)%nat.
  - apply scientific_token; [done|]. change (10 ^ 18) with 1000000000000000000. lia.
  - apply fixed_token; [done|]. intros _. unfold scaled. cbn [fst]. change (Z.max 0 (- 0)) with 0. change (Z.max 0 0) with 0. rewrite !Z.pow_0_r, !Z.mul_1_r.
    pose proof (upper_bound m e Hr). assert (Hl : 1 <= lower e) by (apply (Z.lt_pred_le 1), Z.pow_pos_nonneg; lia).
    apply Z.div_lt_upper_bound; [lia|]. assert (2 ^ 1024 < 10 ^ 400) by (vm_compute; done). nia.
Qed.

(** A double that is a number. *)
Definition finite_double (x : spec_float) : Prop :=
  match x with S754_zero _ => True | S754_finite _ m e => double_range m e | _ => False end.

(** A finite double is written as a number, and read as the double its digits stand for. *)
Lemma double_token x : finite_double x -> exists (sign : bool) t, format_number x = (if sign then [45] else []) ++ t /\ number_token t.
Proof.
  destruct x as [sign| | |sign m e]; cbn [finite_double format_number]; intros Hx; try done.
  - exists sign, [48]. split; [done|]. exists 48, [], [], []. split_and!; [done|by unfold is_digit|constructor|done|by left|by left].
  - exists sign, (finite_text m e). split; [done|by apply finite_token].
Qed.

Lemma double_reads size x rest :
  finite_double x -> ends_value rest -> parse_number size (format_number x ++ rest) = Ok (JNumber (strtod (format_number x)), rest).
Proof. intros (sign & t & -> & Ht)%double_token Hr. by apply parse_token. Qed.

Lemma double_starts x : finite_double x -> exists c text, format_number x = c :: text /\ (c = 45 \/ is_digit c).
Proof. intros (sign & t & -> & c & ds & f & y & -> & Hc & _)%double_token. destruct sign; eauto. Qed.

(** ** The descent ends *)

Lemma skip_while_length p rest : (length (skip_while p rest) <= length rest)%nat.
Proof. induction rest as [|c rest IH]; cbn; [done|]. destruct (p c); cbn; lia. Qed.

Lemma skip_ws_length rest : (length (skip_ws rest) <= length rest)%nat.
Proof. apply skip_while_length. Qed.

Lemma next_length c rest rest' : next c rest = Some rest' -> length rest = S (length rest').
Proof. destruct rest as [|x rest]; cbn; [done|]. destruct (x =? c); [by intros [= ->]|done]. Qed.

Lemma read_hex_length n value rest r rest' : read_hex n value rest = (r, rest') -> (length rest' <= length rest)%nat.
Proof.
  revert value rest. induction n as [|n IH]; intros value rest; cbn; [by intros [= _ <-]|].
  destruct rest as [|c rest]; [by intros [= _ <-]|]. destruct (hex_digit c).
  - intros H%IH. cbn. lia.
  - intros [= _ <-]. cbn. lia.
Qed.

Lemma read_hex4_length rest r rest' : read_hex4 rest = (r, rest') -> (length rest' <= length rest)%nat.
Proof. unfold read_hex4. destruct (_ <? 4)%nat; [by intros [= _ <-]|apply read_hex_length]. Qed.

Lemma unicode_escape_length rest r rest' : append_unicode_escape rest = (r, rest') -> (length rest' <= length rest)%nat.
Proof.
  unfold append_unicode_escape. destruct (read_hex4 rest) as [[first|] r1] eqn:E1; [|by intros [= _ <-]; eapply read_hex4_length].
  apply read_hex4_length in E1. destruct (_ && _); [|by intros [= _ <-]].
  assert (Hother : (None, r1) = (r, rest') -> (length rest' <= length rest)%nat) by (intros [= _ <-]; lia).
  destruct r1 as [|a [|b r2]]; [done| |]; repeat (case_match; try done).
  - intros [= _ <-]. match goal with H : read_hex4 _ = _ |- _ => apply read_hex4_length in H end. cbn in *. lia.
  - intros [= _ <-]. match goal with H : read_hex4 _ = _ |- _ => apply read_hex4_length in H end. cbn in *. lia.
  - intros [= _ <-]. match goal with H : read_hex4 _ = _ |- _ => apply read_hex4_length in H end. cbn in *. lia.
Qed.

Lemma escape_length rest r rest' : append_escape rest = (Some r, rest') -> (length rest' < length rest)%nat.
Proof.
  unfold append_escape. destruct rest as [|c rest]; [done|]. intros H. cbn [length]. apply Nat.lt_succ_r.
  repeat (case_match; try done); simplify_eq; try lia. all: by eapply unicode_escape_length.
Qed.

Section Ends.
Context (size : nat).

Lemma string_loop_length fuel out rest r rest' : string_loop size fuel out rest = Ok (r, rest') -> (length rest' < length rest)%nat.
Proof.
  revert out rest. induction fuel as [|fuel IH]; intros out [|c rest]; cbn [string_loop]; try done.
  destruct (c =? 34); [intros [= _ ->]; cbn; lia|]. destruct (c =? 92).
  - destruct (append_escape rest) as [[more|] r1] eqn:E; [|done]. intros H%IH. apply escape_length in E. cbn. lia.
  - intros H%IH. cbn. lia.
Qed.

Lemma literal_length word rest rest' : literal word rest = Some rest' -> word <> [] -> (length rest' < length rest)%nat.
Proof.
  unfold literal. case_decide as Ht; [|done]. intros [= <-] Hne. apply (f_equal length) in Ht. rewrite length_take in Ht.
  rewrite length_drop. assert (0 < length word)%nat by (destruct word; cbn; [done|lia]). lia.
Qed.

Lemma consume_integer_length rest rest' : consume_integer_part rest = Some rest' -> (length rest' < length rest)%nat.
Proof.
  destruct rest as [|c rest]; cbn; [done|]. destruct (json_digit c) eqn:Hd; [|done]. intros [= <-]. destruct (c =? 48); [lia|].
  pose proof (skip_while_length json_digit rest). lia.
Qed.

Lemma consume_fraction_length rest : (length (consume_fraction rest) <= length rest)%nat.
Proof.
  unfold consume_fraction. destruct rest as [|c rest]; [done|]. pose proof (skip_while_length json_digit rest).
  repeat case_match; simplify_eq; cbn; lia.
Qed.

Lemma consume_exponent_length rest r rest' : consume_exponent rest = (r, rest') -> (length rest' <= length rest)%nat.
Proof.
  unfold consume_exponent. destruct rest as [|c rest]; [by intros [= _ <-]|]. destruct (_ || _); [|by intros [= _ <-]].
  cbv zeta. set (rest2 := match rest with [] => [] | s :: r => if (s =? 43) || (s =? 45) then r else rest end).
  assert (H2 : (length rest2 <= length rest)%nat) by (unfold rest2; destruct rest as [|s rest]; [done|]; destruct (_ || _); cbn; lia).
  clearbody rest2. pose proof (skip_while_length json_digit rest2) as H3.
  destruct rest2 as [|d rest2]; [intros [= _ <-]; cbn; lia|].
  destruct (json_digit d) eqn:Hd; intros [= _ <-]; cbn [length] in *; [|lia]. cbn [skip_while] in H3. lia.
Qed.

Lemma parse_number_length start v rest : parse_number size start = Ok (v, rest) -> (length rest < length start)%nat.
Proof.
  unfold parse_number. set (body := match start with 45 :: rest => rest | _ => start end).
  assert (Hb : (length body <= length start)%nat) by (unfold body; repeat case_match; simplify_eq; cbn; lia).
  destruct (consume_integer_part body) as [r1|] eqn:E1; [|done]. apply consume_integer_length in E1.
  pose proof (consume_fraction_length r1). destruct (consume_exponent (consume_fraction r1)) as [[] r2] eqn:E2; [|done].
  apply consume_exponent_length in E2. intros [= _ <-]. lia.
Qed.

Lemma parse_bool_length rest v rest' : parse_bool size rest = Ok (v, rest') -> (length rest' < length rest)%nat.
Proof.
  unfold parse_bool. destruct (literal _ rest) eqn:E1; [intros [= _ <-]; by eapply literal_length|].
  destruct (literal [102; 97; 108; 115; 101] rest) eqn:E2; [intros [= _ <-]; by eapply literal_length|done].
Qed.

Lemma parse_null_length rest v rest' : parse_null size rest = Ok (v, rest') -> (length rest' < length rest)%nat.
Proof. unfold parse_null. destruct (literal _ rest) eqn:E1; [intros [= _ <-]; by eapply literal_length|done]. Qed.

(** A value consumes a character at least. *)
Lemma parse_shrinks fuel :
  (forall depth rest v rest', parse_value size fuel depth rest = Ok (v, rest') -> (length rest' < length rest)%nat) /\
  (forall depth ms rest v rest', parse_members size fuel depth ms rest = Ok (v, rest') -> (length rest' < length rest)%nat) /\
  (forall depth vs rest v rest', parse_items size fuel depth vs rest = Ok (v, rest') -> (length rest' < length rest)%nat).
Proof.
  induction fuel as [|fuel (IHv & IHm & IHi)]; [done|]. split_and!.
  - intros depth rest v rest'. cbn [parse_value]. destruct (_ <? depth)%nat; [done|]. destruct rest as [|c rest]; [done|].
    pose proof (skip_ws_length rest). destruct (c =? 123); [|destruct (c =? 91); [|destruct (c =? 34); [|destruct (_ || _); [|destruct (c =? 110)]]]].
    + destruct (next 125 _) eqn:En; [intros [= _ <-]; apply next_length in En; cbn; lia|]. intros H1%IHm. cbn; lia.
    + destruct (next 93 _) eqn:En; [intros [= _ <-]; apply next_length in En; cbn; lia|]. intros H1%IHi. cbn; lia.
    + unfold parse_string_raw. destruct (string_loop _ _ _ rest) as [[t r]|] eqn:Es; [|done]. intros [= _ <-].
      apply string_loop_length in Es. cbn; lia.
    + apply parse_bool_length.
    + apply parse_null_length.
    + apply parse_number_length.
  - intros depth ms rest v rest'. cbn [parse_members]. cbv zeta. pose proof (skip_ws_length rest).
    destruct (next 34 _) as [r1|] eqn:E1; [|done]. apply next_length in E1. unfold parse_string_raw.
    destruct (string_loop _ _ _ r1) as [[k r2]|] eqn:E2; [|done]. apply string_loop_length in E2. cbn [expected_bind].
    pose proof (skip_ws_length r2). destruct (next 58 _) as [r3|] eqn:E3; [|done]. apply next_length in E3. pose proof (skip_ws_length r3).
    destruct (parse_value size fuel _ _) as [[v' r4]|] eqn:E4; [|done]. apply IHv in E4. cbn [expected_bind].
    pose proof (skip_ws_length r4). destruct (skip_ws r4) as [|c r5] eqn:E5; [done|]. cbn [length] in *.
    destruct (c =? 44); [intros H4%IHm; lia|]. destruct (c =? 125); [intros [= _ <-]; lia|done].
  - intros depth vs rest v rest'. cbn [parse_items]. cbv zeta. pose proof (skip_ws_length rest).
    destruct (parse_value size fuel _ _) as [[v' r4]|] eqn:E4; [|done]. apply IHv in E4. cbn [expected_bind].
    pose proof (skip_ws_length r4). destruct (skip_ws r4) as [|c r5] eqn:E5; [done|]. cbn [length] in *.
    destruct (c =? 44); [intros H4%IHi; lia|]. destruct (c =? 93); [intros [= _ <-]; lia|done].
Qed.

Lemma parse_enough fuel more :
  (forall depth rest, (2 * length rest + 1 <= fuel)%nat -> parse_value size (fuel + more) depth rest = parse_value size fuel depth rest) /\
  (forall depth ms rest, (2 * length rest + 2 <= fuel)%nat -> parse_members size (fuel + more) depth ms rest = parse_members size fuel depth ms rest) /\
  (forall depth vs rest, (2 * length rest + 2 <= fuel)%nat -> parse_items size (fuel + more) depth vs rest = parse_items size fuel depth vs rest).
Proof.
  induction fuel as [|fuel (IHv & IHm & IHi)]; [split_and!; intros; lia|]. cbn [Nat.add]. destruct (parse_shrinks fuel) as (Sv & Sm & Si). split_and!.
  - intros depth rest Hf. cbn [parse_value]. destruct (_ <? depth)%nat; [done|]. destruct rest as [|c rest]; [done|].
    pose proof (skip_ws_length rest). cbn [length] in Hf. by rewrite IHm, IHi by lia.
  - intros depth ms rest Hf. cbn [parse_members]. cbv zeta. pose proof (skip_ws_length rest).
    destruct (next 34 _) as [r1|] eqn:E1; [|done]. apply next_length in E1. unfold parse_string_raw.
    destruct (string_loop _ _ _ r1) as [[k r2]|] eqn:E2; [|done]. apply string_loop_length in E2. cbn [expected_bind].
    pose proof (skip_ws_length r2). destruct (next 58 _) as [r3|] eqn:E3; [|done]. apply next_length in E3. pose proof (skip_ws_length r3).
    rewrite IHv by lia. destruct (parse_value size fuel _ _) as [[v' r4]|] eqn:E4; [|done]. apply Sv in E4. cbn [expected_bind].
    pose proof (skip_ws_length r4). destruct (skip_ws r4) as [|c r5] eqn:E5; [done|]. cbn [length] in *. by rewrite IHm by lia.
  - intros depth vs rest Hf. cbn [parse_items]. cbv zeta. pose proof (skip_ws_length rest). rewrite IHv by lia.
    destruct (parse_value size fuel _ _) as [[v' r4]|] eqn:E4; [|done]. apply Sv in E4. cbn [expected_bind].
    pose proof (skip_ws_length r4). destruct (skip_ws r4) as [|c r5] eqn:E5; [done|]. cbn [length] in *. by rewrite IHi by lia.
Qed.
End Ends.

(** The parser ends on any text: its descent needs no more turns than twice the characters that are
    left, so that the turns [parse_json] gives it never decide the result, whether a value or an
    error; and a value that is read leaves less text than there was. *)
Theorem json_parser_terminates (text : list byte) (more depth : nat) :
  parse_value (length text) (2 * length text + 2 + more) depth (skip_ws text)
  = parse_value (length text) (2 * length text + 2) depth (skip_ws text) /\
  match parse_value (length text) (2 * length text + 2) depth (skip_ws text) with
  | Ok (_, rest) => (length rest < length text)%nat
  | Err _ => True
  end.
Proof.
  pose proof (skip_ws_length text). split; [apply parse_enough; lia|].
  destruct (parse_value _ _ _ _) as [[v rest]|] eqn:E; [|done]. apply parse_shrinks in E. lia.
Qed.

(** The grammar is not quite that of RFC 8259: a fraction may have no digits, a string may hold
    control characters, half of a surrogate pair stands for itself, and a document may nest one level
    deeper than the limit says. *)
Lemma json_lenient :
  parse_json [49; 46] = Ok (JNumber (double_of_int 1)) /\
  parse_json [34; 10; 34] = Ok (JString [10]) /\
  parse_json [34; 92; 117; 68; 67; 48; 48; 34] = Ok (JString [0xED; 0xB0; 0x80]) /\
  is_ok (parse_json (repeat 91 65 ++ repeat 93 65)) = true /\
  is_ok (parse_json (repeat 91 66 ++ repeat 93 66)) = false.
Proof. vm_compute. done. Qed.
