(* ===== verification/KafkaCodec.v ===== *)
(** * The Kafka codec

    Models [Encoder] and [Decoder] of [src/src/kafka/codec.cpp]: the big-endian integers, varints,
    strings, byte blobs, array lengths and tagged fields of Apache Kafka's protocol, classic and
    flexible.  They have the state of the native codec, so an encoder is the buffer it appends to and
    a decoder the [Decoder] of [Codec.v] with its reader monad. *)
From Stdlib Require Import ZArith Lia Ascii String.
From stdpp Require Import base list gmap strings.
From S2P Require Import Prelude Bytes Codec.
#[local] Open Scope Z_scope.

(** ** Big-endian integers *)

(** [store_be<T>] with [n = sizeof(T)]: the most significant byte first. *)
Definition store_be (n : nat) (value : Z) : list byte :=
  let bits := to_u (8 * Z.of_nat n) value in
  (fun j : nat => Z.land (Z.shiftr bits (8 * Z.of_nat (n - 1 - j))) 255) <$> seq 0 n.

Definition load_be_bits (n : nat) (bs : list byte) : Z :=
  foldl (fun (bits : Z) (b : byte) => to_u (8 * Z.of_nat n) (Z.lor (Z.shiftl bits 8) b)) 0 (take n bs).

(** [load_be<T>] for an unsigned and for a signed [T]. *)
Definition load_be_u (n : nat) (bs : list byte) : Z := load_be_bits n bs.
Definition load_be_i (n : nat) (bs : list byte) : Z := to_i (8 * Z.of_nat n) (load_be_bits n bs).

(** ** Encoder *)

Definition kput_i8 (value : Z) (out : Encoder) : Encoder := out ++ [to_u 8 value].
Definition kput_i16 (value : Z) (out : Encoder) : Encoder := out ++ store_be 2 value.
Definition kput_i32 (value : Z) (out : Encoder) : Encoder := out ++ store_be 4 value.
Definition kput_i64 (value : Z) (out : Encoder) : Encoder := out ++ store_be 8 value.
Definition kput_u32 (value : Z) (out : Encoder) : Encoder := out ++ store_be 4 value.
Definition kput_bool (value : bool) : Encoder -> Encoder := kput_i8 (if value then 1 else 0).

Definition kput_unsigned_varint (value : Z) (out : Encoder) : Encoder := out ++ put_varint value.
Definition kput_varint (value : Z) (out : Encoder) : Encoder := out ++ put_varint (zigzag_encode value).
Definition kput_varlong (value : Z) (out : Encoder) : Encoder := out ++ put_varint (zigzag_encode value).

(** The lengths are cast to the width of their field. *)
Definition kput_string (text : string) (out : Encoder) : Encoder :=
  kput_i16 (to_i 16 (Z.of_nat (String.length text))) out ++ bytes_of_string text.

Definition kput_nullable_string (text : option string) (out : Encoder) : Encoder :=
  match text with None => kput_i16 (-1) out | Some text => kput_string text out end.

Definition kput_compact_string (text : string) (out : Encoder) : Encoder :=
  kput_unsigned_varint (to_u 32 (Z.of_nat (String.length text) + 1)) out ++ bytes_of_string text.

Definition kput_compact_nullable_string (text : option string) (out : Encoder) : Encoder :=
  match text with None => kput_unsigned_varint 0 out | Some text => kput_compact_string text out end.

Definition kput_bytes (data : list byte) (out : Encoder) : Encoder :=
  kput_i32 (to_i 32 (Z.of_nat (length data))) out ++ data.

Definition kput_nullable_bytes (data : option (list byte)) (out : Encoder) : Encoder :=
  match data with None => kput_i32 (-1) out | Some data => kput_bytes data out end.

Definition kput_compact_bytes (data : list byte) (out : Encoder) : Encoder :=
  kput_unsigned_varint (to_u 32 (Z.of_nat (length data) + 1)) out ++ data.

Definition kput_compact_nullable_bytes (data : option (list byte)) (out : Encoder) : Encoder :=
  match data with None => kput_unsigned_varint 0 out | Some data => kput_compact_bytes data out end.

Definition kput_array_len (count : Z) : Encoder -> Encoder := kput_i32 count.

Definition kput_compact_array_len (count : Z) (out : Encoder) : Encoder :=
  if count <? 0 then kput_unsigned_varint 0 out else kput_unsigned_varint (to_u 32 (count + 1)) out.

Definition kput_empty_tagged_fields : Encoder -> Encoder := kput_unsigned_varint 0.
Definition kput_raw (data : list byte) (out : Encoder) : Encoder := out ++ data.

(** ** Decoder *)

Definition k_take (n : Z) : Reader (list byte) := fun d =>
  if Z.of_nat (remaining d) <? n then (make_error InvalidArgument "decode Kafka fuera de límites", d)
  else (Ok (subspan_n (pos_ d) (Z.to_nat n) (in_ d)), MkDecoder (in_ d) (pos_ d + Z.to_nat n)).

Definition kskip (n : Z) : Reader unit := let! span := k_take n in ret tt.

Definition kget_i8 : Reader Z := let! span := k_take 1 in ret (to_i 8 (nth 0 span 0)).
Definition kget_i16 : Reader Z := let! span := k_take 2 in ret (load_be_i 2 span).
Definition kget_i32 : Reader Z := let! span := k_take 4 in ret (load_be_i 4 span).
Definition kget_i64 : Reader Z := let! span := k_take 8 in ret (load_be_i 8 span).
Definition kget_u32 : Reader Z := let! span := k_take 4 in ret (load_be_u 4 span).
Definition kget_bool : Reader bool := let! value := kget_i8 in ret (negb (value =? 0)).

(** [nexus::get_varint] on what is left; the position moves only when the value is taken. *)
Definition kget_varint_u64 : Reader Z := fun d =>
  match get_varint (subspan (pos_ d) (in_ d)) with
  | Ok (value, rest) => (Ok value, MkDecoder (in_ d) (length (in_ d) - length rest))
  | Err e => (Err e, d)
  end.

Definition kget_unsigned_varint : Reader Z := fun d =>
  match kget_varint_u64 d with
  | (Ok value, d') =>
      if 2 ^ 32 - 1 <? value then (make_error Corrupt "unsigned varint excede 32 bits", d) else (Ok value, d')
  | (Err e, d') => (Err e, d')
  end.

Definition kget_varint : Reader Z := let! value := kget_varint_u64 in ret (to_i 32 (zigzag_decode value)).
Definition kget_varlong : Reader Z := let! value := kget_varint_u64 in ret (zigzag_decode value).

(** ** Strings and bytes *)

Definition kget_string : Reader string :=
  let! len := kget_i16 in
  if len <? 0 then fail Corrupt "STRING no admite longitud negativa"
  else let! bytes := k_take len in ret (string_of_bytes bytes).

Definition kget_nullable_string : Reader (option string) :=
  let! len := kget_i16 in
  if len <? 0 then ret None else let! bytes := k_take len in ret (Some (string_of_bytes bytes)).

Definition kget_compact_string : Reader string :=
  let! len := kget_unsigned_varint in
  if len =? 0 then fail Corrupt "COMPACT_STRING no admite nulo"
  else let! bytes := k_take (len - 1) in ret (string_of_bytes bytes).

Definition kget_compact_nullable_string : Reader (option string) :=
  let! len := kget_unsigned_varint in
  if len =? 0 then ret None else let! bytes := k_take (len - 1) in ret (Some (string_of_bytes bytes)).

Definition kget_bytes : Reader (list byte) :=
  let! len := kget_i32 in
  if len <? 0 then fail Corrupt "BYTES no admite longitud negativa" else k_take len.

Definition kget_nullable_bytes : Reader (option (list byte)) :=
  let! len := kget_i32 in
  if len <? 0 then ret None else let! bytes := k_take len in ret (Some bytes).

Definition kget_compact_bytes : Reader (list byte) :=
  let! len := kget_unsigned_varint in
  if len =? 0 then fail Corrupt "COMPACT_BYTES no admite nulo" else k_take (len - 1).

Definition kget_compact_nullable_bytes : Reader (option (list byte)) :=
  let! len := kget_unsigned_varint in
  if len =? 0 then ret None else let! bytes := k_take (len - 1) in ret (Some bytes).

(** ** Arrays and tagged fields *)

Definition kget_array_len : Reader Z := kget_i32.

Definition kget_compact_array_len : Reader Z :=
  let! raw := kget_unsigned_varint in if raw =? 0 then ret (-1) else ret (to_i 32 (raw - 1)).

(** A [for] loop over a count that may be negative, for a null array. *)
Definition kget_loop {A} (m : Reader A) (count : Z) : Reader (list A) := get_many m (Z.to_nat count).

Definition skip_tagged_field : Reader unit :=
  let! tag := kget_unsigned_varint in let! size := kget_unsigned_varint in let! data := k_take size in ret tt.

Definition skip_tagged_fields : Reader unit :=
  let! count := kget_unsigned_varint in let! fields := kget_loop skip_tagged_field count in ret tt.

(** ** Round trips of the integers *)

Lemma length_store_be n v : length (store_be n v) = n.
Proof. unfold store_be. by rewrite length_fmap, length_seq. Qed.

Lemma load_be_prefix (w d k : nat) (u : Z) :
  u_range (8 * Z.of_nat w) u -> (k + d = w)%nat ->
  foldl (fun (bits : Z) (b : byte) => to_u (8 * Z.of_nat w) (Z.lor (Z.shiftl bits 8) b)) (Z.shiftr u (8 * Z.of_nat d))
    ((fun j : nat => Z.land (Z.shiftr u (8 * Z.of_nat (w - 1 - j))) 255) <$> seq k d) = u.
Proof.
  intros Hu. revert k. induction d as [|d IH]; intros k Hk; cbn [seq fmap list_fmap foldl].
  - rewrite Z.shiftr_0_r. done.
  - replace (w - 1 - k)%nat with d by lia. replace (8 * Z.of_nat (S d)) with (8 * Z.of_nat d + 8) by lia.
    rewrite <- Z.shiftr_shiftr, Z.lor_comm by lia. rewrite le_cons_recombine; [|apply Z.shiftr_nonneg; unfold u_range in Hu; lia].
    rewrite to_u_id; [apply IH; lia|]. unfold u_range in *. rewrite Z.shiftr_div_pow2 by lia.
    split; [apply Z.div_pos; lia|]. eapply Z.le_lt_trans; [|apply Hu]. apply Z.div_le_upper_bound; [lia|].
    assert (1 <= 2 ^ (8 * Z.of_nat d)) by (apply Z.lt_pred_le, Z.pow_pos_nonneg; lia). nia.
Qed.

Lemma load_store_be_bits n v : load_be_bits n (store_be n v) = to_u (8 * Z.of_nat n) v.
Proof.
  unfold load_be_bits. rewrite take_ge by (by rewrite length_store_be).
  unfold store_be. cbv zeta. set (u := to_u _ v). assert (Hu : u_range (8 * Z.of_nat n) u) by (apply to_u_range; lia).
  pose proof (load_be_prefix n n 0 u Hu eq_refl) as H.
  rewrite Z.shiftr_div_pow2, Z.div_small in H by (unfold u_range in Hu; lia). exact H.
Qed.

Lemma store_be_bytes n v : Forall (u_range 8) (store_be n v).
Proof.
  unfold store_be. cbv zeta. apply Forall_fmap, Forall_forall. intros i _. cbn.
  change 255 with (Z.ones 8). rewrite Z.land_ones by lia. apply to_u_range; lia.
Qed.

Arguments store_be : simpl never.
Arguments load_be_u : simpl never.
Arguments load_be_i : simpl never.
Arguments load_be_bits : simpl never.

(** ** What the reads read *)

Lemma reads_k_take bs n : Z.of_nat (length bs) = n -> reads (k_take n) bs bs.
Proof.
  intros <- d Hd. pose proof (starts_with_length d bs Hd). destruct Hd as [tl Htl].
  unfold k_take, subspan_n. destruct (Z.ltb_spec (Z.of_nat (remaining d)) (Z.of_nat (length bs))); [lia|].
  rewrite Nat2Z.id, Htl, take_app_length. done.
Qed.

Lemma reads_kskip bs n : Z.of_nat (length bs) = n -> reads (kskip n) bs tt.
Proof. intros H. exact (reads_bind_last (k_take n) (fun _ => tt) bs bs (reads_k_take bs n H)). Qed.

Lemma reads_store_be_i n v :
  (0 < n)%nat -> i_range (8 * Z.of_nat n) v ->
  reads (let! span := k_take (Z.of_nat n) in ret (load_be_i n span)) (store_be n v) v.
Proof.
  intros Hn Hv. apply (reads_bind_last_eq _ _ _ (store_be n v)); [apply reads_k_take; by rewrite length_store_be|].
  unfold load_be_i. rewrite load_store_be_bits. apply to_i_to_u; [lia|done].
Qed.

Lemma reads_kget_i16 v : i_range 16 v -> reads kget_i16 (store_be 2 v) v.
Proof. apply (reads_store_be_i 2); lia. Qed.
Lemma reads_kget_i32 v : i_range 32 v -> reads kget_i32 (store_be 4 v) v.
Proof. apply (reads_store_be_i 4); lia. Qed.
Lemma reads_kget_i64 v : i_range 64 v -> reads kget_i64 (store_be 8 v) v.
Proof. apply (reads_store_be_i 8); lia. Qed.

Lemma reads_kget_i8 v : i_range 8 v -> reads kget_i8 [to_u 8 v] v.
Proof.
  intros Hv. apply (reads_bind_last_eq (k_take 1) _ _ [to_u 8 v]); [by apply reads_k_take|].
  cbn. apply to_i_to_u; [lia|done].
Qed.

Lemma reads_kget_u32 v : u_range 32 v -> reads kget_u32 (store_be 4 v) v.
Proof.
  intros Hv. apply (reads_bind_last_eq (k_take 4) _ _ (store_be 4 v)); [apply reads_k_take; by rewrite length_store_be|].
  unfold load_be_u. rewrite load_store_be_bits. by apply to_u_id.
Qed.

Lemma reads_kget_bool (b : bool) : reads kget_bool [if b then 1 else 0] b.
Proof.
  replace [if b then 1 else 0] with [to_u 8 (if b then 1 else 0)] by (by destruct b).
  apply (reads_bind_last_eq kget_i8 _ _ (if b then 1 else 0)); [|by destruct b].
  apply reads_kget_i8. destruct b; unfold i_range; lia.
Qed.

Lemma reads_kget_varint_u64 v : u_range 64 v -> reads kget_varint_u64 (put_varint v) v.
Proof. exact (reads_varint v). Qed.

Lemma reads_kget_unsigned_varint v : u_range 32 v -> reads kget_unsigned_varint (put_varint v) v.
Proof.
  intros Hv d Hd. unfold kget_unsigned_varint. rewrite (reads_kget_varint_u64 v); [|unfold u_range in *; lia|done].
  destruct (Z.ltb_spec (2 ^ 32 - 1) v); [unfold u_range in *; lia|done].
Qed.

Lemma reads_kget_varint v : i_range 32 v -> reads kget_varint (put_varint (zigzag_encode v)) v.
Proof.
  intros Hv. assert (H64 : i_range 64 v) by (unfold i_range in *; lia).
  apply (reads_bind_last_eq _ _ _ (zigzag_encode v)); [by apply reads_kget_varint_u64, zigzag_encode_u64|].
  rewrite zigzag_roundtrip by done. rewrite <- (to_i_to_u 32 v) at 2 by (first [lia|done]). unfold to_i, to_u. by rewrite Z.mod_mod by lia.
Qed.

Lemma reads_kget_varlong v : i_range 64 v -> reads kget_varlong (put_varint (zigzag_encode v)) v.
Proof.
  intros Hv. apply (reads_bind_last_eq _ _ _ (zigzag_encode v)); [by apply reads_kget_varint_u64, zigzag_encode_u64|].
  by apply zigzag_roundtrip.
Qed.

(** ** Strings, bytes, arrays and tagged fields *)

Definition short_string (s : string) : Prop := Z.of_nat (String.length s) < 2 ^ 15.
Definition compact_string (s : string) : Prop := Z.of_nat (String.length s) < 2 ^ 32 - 1.
Definition short_bytes (bs : list byte) : Prop := Z.of_nat (length bs) < 2 ^ 31.
Definition compact_bytes (bs : list byte) : Prop := Z.of_nat (length bs) < 2 ^ 32 - 1.

Lemma to_i_nonneg w z : 0 < w -> 0 <= z < 2 ^ (w - 1) -> to_i w z = z.
Proof.
  intros Hw Hz. rewrite <- (to_i_to_u w z) at 2 by (first [lia|unfold i_range; lia]).
  unfold to_i, to_u. by rewrite Z.mod_mod by (apply Z.pow_nonzero; lia).
Qed.

Lemma kput_string_app s out :
  kput_string s out = out ++ store_be 2 (to_i 16 (Z.of_nat (String.length s))) ++ bytes_of_string s.
Proof. unfold kput_string, kput_i16. by rewrite app_assoc. Qed.

Lemma kput_compact_string_app s out :
  kput_compact_string s out = out ++ put_varint (to_u 32 (Z.of_nat (String.length s) + 1)) ++ bytes_of_string s.
Proof. unfold kput_compact_string, kput_unsigned_varint. by rewrite app_assoc. Qed.

Lemma kput_bytes_app bs out : kput_bytes bs out = out ++ store_be 4 (to_i 32 (Z.of_nat (length bs))) ++ bs.
Proof. unfold kput_bytes, kput_i32. by rewrite app_assoc. Qed.

Lemma kput_compact_bytes_app bs out :
  kput_compact_bytes bs out = out ++ put_varint (to_u 32 (Z.of_nat (length bs) + 1)) ++ bs.
Proof. unfold kput_compact_bytes, kput_unsigned_varint. by rewrite app_assoc. Qed.

(** A length and then as many bytes. *)
Lemma reads_string_tail {A} (f : list byte -> A) s n a :
  n = Z.of_nat (String.length s) -> f (bytes_of_string s) = a ->
  reads (let! bytes := k_take n in ret (f bytes)) (bytes_of_string s) a.
Proof. intros -> <-. apply reads_bind_last, reads_k_take. by rewrite length_bytes_of_string. Qed.

Lemma reads_bytes_tail {A} (f : list byte -> A) bs n a :
  n = Z.of_nat (length bs) -> f bs = a -> reads (let! bytes := k_take n in ret (f bytes)) bs a.
Proof. intros -> <-. by apply reads_bind_last, reads_k_take. Qed.

Lemma reads_short_len {A} (k : Z -> Reader A) n bb a :
  0 <= n < 2 ^ 15 -> reads (k n) bb a -> reads (rbind kget_i16 k) (store_be 2 (to_i 16 n) ++ bb) a.
Proof. intros Hn Hk. rewrite to_i_nonneg by lia. eapply reads_bind; [apply reads_kget_i16; unfold i_range; lia|done]. Qed.

Lemma reads_long_len {A} (k : Z -> Reader A) n bb a :
  0 <= n < 2 ^ 31 -> reads (k n) bb a -> reads (rbind kget_i32 k) (store_be 4 (to_i 32 n) ++ bb) a.
Proof. intros Hn Hk. rewrite to_i_nonneg by lia. eapply reads_bind; [apply reads_kget_i32; unfold i_range; lia|done]. Qed.

Lemma reads_compact_len {A} (k : Z -> Reader A) n bb a :
  0 <= n < 2 ^ 32 - 1 -> reads (k (n + 1)) bb a -> reads (rbind kget_unsigned_varint k) (put_varint (to_u 32 (n + 1)) ++ bb) a.
Proof.
  intros Hn Hk. rewrite to_u_id by (unfold u_range; lia).
  eapply reads_bind; [apply reads_kget_unsigned_varint; unfold u_range; lia|done].
Qed.

Ltac compact_len n := replace (n =? 0) with false by (symmetry; apply Z.eqb_neq; lia).
Ltac classic_len n := replace (n <? 0) with false by (symmetry; apply Z.ltb_ge; lia).

Lemma reads_kget_string s : short_string s -> reads kget_string (kput_string s []) s.
Proof.
  intros Hs. rewrite kput_string_app. apply reads_short_len; [unfold short_string in Hs; lia|].
  classic_len (Z.of_nat (String.length s)). apply reads_string_tail; [done|apply string_of_bytes_of_string].
Qed.

Lemma reads_kget_nullable_string s :
  from_option short_string True s -> reads kget_nullable_string (kput_nullable_string s []) s.
Proof.
  intros Hs. destruct s as [s|]; cbn [kput_nullable_string].
  - rewrite kput_string_app. apply reads_short_len; [unfold short_string in Hs; cbn in Hs; lia|].
    classic_len (Z.of_nat (String.length s)). apply reads_string_tail; [done|by rewrite string_of_bytes_of_string].
  - rewrite <- (app_nil_r (kput_i16 _ _)). eapply reads_bind; [by apply (reads_kget_i16 (-1))|]. apply reads_ret.
Qed.

Lemma reads_kget_compact_string s : compact_string s -> reads kget_compact_string (kput_compact_string s []) s.
Proof.
  intros Hs. rewrite kput_compact_string_app. apply reads_compact_len; [unfold compact_string in Hs; lia|].
  compact_len (Z.of_nat (String.length s) + 1). apply reads_string_tail; [lia|apply string_of_bytes_of_string].
Qed.

Lemma reads_kget_compact_nullable_string s :
  from_option compact_string True s -> reads kget_compact_nullable_string (kput_compact_nullable_string s []) s.
Proof.
  intros Hs. destruct s as [s|]; cbn [kput_compact_nullable_string].
  - rewrite kput_compact_string_app. apply reads_compact_len; [unfold compact_string in Hs; cbn in Hs; lia|].
    compact_len (Z.of_nat (String.length s) + 1). apply reads_string_tail; [lia|by rewrite string_of_bytes_of_string].
  - rewrite <- (app_nil_r (kput_unsigned_varint _ _)). eapply reads_bind; [by apply (reads_kget_unsigned_varint 0)|].
    apply reads_ret.
Qed.

Lemma reads_kget_bytes bs : short_bytes bs -> reads kget_bytes (kput_bytes bs []) bs.
Proof.
  intros Hs. rewrite kput_bytes_app. apply reads_long_len; [unfold short_bytes in Hs; lia|].
  classic_len (Z.of_nat (length bs)). by apply reads_k_take.
Qed.

Lemma reads_kget_nullable_bytes bs :
  from_option short_bytes True bs -> reads kget_nullable_bytes (kput_nullable_bytes bs []) bs.
Proof.
  intros Hs. destruct bs as [bs|]; cbn [kput_nullable_bytes].
  - rewrite kput_bytes_app. apply reads_long_len; [unfold short_bytes in Hs; cbn in Hs; lia|].
    classic_len (Z.of_nat (length bs)). by apply (reads_bytes_tail Some).
  - rewrite <- (app_nil_r (kput_i32 _ _)). eapply reads_bind; [by apply (reads_kget_i32 (-1))|]. apply reads_ret.
Qed.

Lemma reads_kget_compact_bytes bs : compact_bytes bs -> reads kget_compact_bytes (kput_compact_bytes bs []) bs.
Proof.
  intros Hs. rewrite kput_compact_bytes_app. apply reads_compact_len; [unfold compact_bytes in Hs; lia|].
  compact_len (Z.of_nat (length bs) + 1). apply reads_k_take. lia.
Qed.

Lemma reads_kget_compact_nullable_bytes bs :
  from_option compact_bytes True bs -> reads kget_compact_nullable_bytes (kput_compact_nullable_bytes bs []) bs.
Proof.
  intros Hs. destruct bs as [bs|]; cbn [kput_compact_nullable_bytes].
  - rewrite kput_compact_bytes_app. apply reads_compact_len; [unfold compact_bytes in Hs; cbn in Hs; lia|].
    compact_len (Z.of_nat (length bs) + 1). apply (reads_bytes_tail Some); [lia|done].
  - rewrite <- (app_nil_r (kput_unsigned_varint _ _)). eapply reads_bind; [by apply (reads_kget_unsigned_varint 0)|].
    apply reads_ret.
Qed.

Lemma reads_kget_array_len n : i_range 32 n -> reads kget_array_len (kput_array_len n []) n.
Proof. apply reads_kget_i32. Qed.

Lemma reads_kget_compact_array_len n :
  - 1 <= n < 2 ^ 31 -> reads kget_compact_array_len (kput_compact_array_len n []) n.
Proof.
  intros Hn. unfold kput_compact_array_len, kput_unsigned_varint. destruct (Z.ltb_spec n 0).
  - replace n with (-1) by lia. rewrite <- (app_nil_r (_ ++ _)).
    eapply reads_bind; [by apply (reads_kget_unsigned_varint 0)|]. apply reads_ret.
  - rewrite <- (app_nil_r (_ ++ _)). apply reads_compact_len; [lia|]. compact_len (n + 1).
    replace (n + 1 - 1) with n by lia. rewrite to_i_nonneg by lia. apply reads_ret.
Qed.

(** Tagged fields as a client writes them. *)
Definition tagged_field (field : Z * list byte) : list byte :=
  put_varint field.1 ++ put_varint (Z.of_nat (length field.2)) ++ field.2.
Definition tagged_fields (fields : list (Z * list byte)) : list byte :=
  put_varint (Z.of_nat (length fields)) ++ concat (tagged_field <$> fields).
Definition tagged_ok (fields : list (Z * list byte)) : Prop :=
  u_range 32 (Z.of_nat (length fields)) /\
  Forall (fun f => u_range 32 f.1 /\ u_range 32 (Z.of_nat (length f.2))) fields.

Lemma reads_loop {A} (m : Reader A) (enc : A -> list byte) (xs : list A) n :
  Z.of_nat (length xs) = n -> Forall (fun x => reads m (enc x) x) xs -> reads (kget_loop m n) (concat (enc <$> xs)) xs.
Proof. intros <- H. unfold kget_loop. rewrite Nat2Z.id. by apply reads_many. Qed.

(** A loop whose turns leave nothing behind. *)
Lemma reads_loop_units {X} (m : Reader unit) (enc : X -> list byte) (xs : list X) n :
  Z.of_nat (length xs) = n -> Forall (fun x => reads m (enc x) tt) xs ->
  reads (kget_loop m n) (concat (enc <$> xs)) (replicate (length xs) tt).
Proof.
  intros <- H. unfold kget_loop. rewrite Nat2Z.id.
  induction H as [|x xs Hx _ IH]; cbn [length get_many fmap list_fmap concat replicate]; [apply reads_ret|].
  eapply reads_bind; [done|]. apply (reads_bind_last _ (fun ys => tt :: ys)). done.
Qed.

(** Unknown tagged fields are skipped, whatever they hold. *)
Lemma reads_skip_tagged_fields fields : tagged_ok fields -> reads skip_tagged_fields (tagged_fields fields) tt.
Proof.
  intros [Hn Hf]. unfold skip_tagged_fields, tagged_fields. eapply reads_bind; [by apply reads_kget_unsigned_varint|].
  apply (reads_bind_last_eq _ _ _ (replicate (length fields) tt)); [|done]. apply reads_loop_units; [done|].
  eapply Forall_impl; [done|]. intros [tag data] [Ht Hd]. unfold skip_tagged_field, tagged_field.
  eapply reads_bind; [by apply reads_kget_unsigned_varint|]. eapply reads_bind; [by apply reads_kget_unsigned_varint|].
  apply (reads_bind_last_eq _ _ _ data); [|done]. by apply reads_k_take.
Qed.

(** The empty section the encoder writes. *)
Lemma empty_tagged_fields : kput_empty_tagged_fields [] = tagged_fields [].
Proof. reflexivity. Qed.

Create HintDb kafka_wire.
#[export] Hint Resolve reads_kget_i8 reads_kget_i16 reads_kget_i32 reads_kget_i64 reads_kget_u32 reads_kget_bool
  reads_kget_string reads_kget_nullable_string reads_kget_compact_string reads_kget_compact_nullable_string
  reads_kget_bytes reads_kget_nullable_bytes reads_kget_compact_bytes reads_kget_compact_nullable_bytes
  reads_kget_array_len reads_kget_compact_array_len reads_skip_tagged_fields : kafka_wire.
