(* ===== verification/KafkaApis.v ===== *)
(** * The messages of the Kafka facade

    Models [src/src/kafka/messages.cpp], [produce.cpp], [fetch.cpp], [list_offsets.cpp] and
    [metadata.cpp]: the request header and the versions of each API, the decoders of the requests and
    the encoders of the responses, with the fields each version has.  A client is described by the
    bytes it sends for a request, at a version and with any tagged fields, and by what it reads of a
    response: the decoders read what it sends, the encoders write what it reads. *)
From Stdlib Require Import ZArith Lia Ascii String.
From stdpp Require Import base list gmap strings.
From S2P Require Import Prelude Bytes Codec KafkaCodec.
#[local] Open Scope Z_scope.

(** ** Versions and headers *)

(** [enum class ApiKey : int16_t]; a value of the wire need not be one of the enumerators. *)
Inductive KApiKey := KProduce | KFetch | KListOffsets | KMetadata | KApiVersions | KOther (api_key : Z).

Definition kafka_api_key (value : Z) : KApiKey :=
  if value =? 0 then KProduce else if value =? 1 then KFetch else if value =? 2 then KListOffsets
  else if value =? 3 then KMetadata else if value =? 18 then KApiVersions else KOther value.

Definition kafka_api_value (key : KApiKey) : Z :=
  match key with KProduce => 0 | KFetch => 1 | KListOffsets => 2 | KMetadata => 3 | KApiVersions => 18 | KOther v => v end.

Definition flexible_since (key : KApiKey) : Z :=
  match key with KProduce => 9 | KFetch => 12 | KListOffsets => 6 | KMetadata => 9 | KApiVersions => 3 | KOther _ => -1 end.

Definition is_flexible (key : KApiKey) (api_version : Z) : bool :=
  let since := flexible_since key in (0 <=? since) && (since <=? api_version).

Definition request_header_version (key : KApiKey) (api_version : Z) : Z := if is_flexible key api_version then 2 else 1.

Definition response_header_version (key : KApiKey) (api_version : Z) : Z :=
  match key with KApiVersions => 0 | _ => if is_flexible key api_version then 1 else 0 end.

Record KRequestHeader := MkKHeader {
  kh_api_key : Z;
  kh_api_version : Z;
  kh_correlation_id : Z;
  kh_client_id : option string;
}.

(** A field that only some versions have, and [flexible ? compact : classic]. *)
Definition gate {A} (present : bool) (m : Reader A) (absent : A) : Reader A := if present then m else ret absent.
Definition kget_tags (flexible : bool) : Reader unit := gate flexible skip_tagged_fields tt.
Definition kget_name (flexible : bool) : Reader string := if flexible then kget_compact_string else kget_string.
Definition kget_count (flexible : bool) : Reader Z := if flexible then kget_compact_array_len else kget_array_len.
Definition kput_name (flexible : bool) : string -> Encoder -> Encoder := if flexible then kput_compact_string else kput_string.
Definition kput_count (flexible : bool) : Z -> Encoder -> Encoder := if flexible then kput_compact_array_len else kput_array_len.
Definition kput_tags (flexible : bool) (out : Encoder) : Encoder := if flexible then kput_empty_tagged_fields out else out.
Definition kput_when (present : bool) (put : Encoder -> Encoder) (out : Encoder) : Encoder := if present then put out else out.

Definition decode_request_header : Reader KRequestHeader :=
  let! api_key := kget_i16 in
  let! api_version := kget_i16 in
  let! correlation_id := kget_i32 in
  let! client_id := kget_nullable_string in
  let! tags := kget_tags (2 <=? request_header_version (kafka_api_key api_key) api_version) in
  ret (MkKHeader api_key api_version correlation_id client_id).

Definition encode_response_header (correlation_id header_version : Z) (out : Encoder) : Encoder :=
  kput_i32 correlation_id out |> kput_when (1 <=? header_version) kput_empty_tagged_fields.

Record KApiVersionRange := MkKRange { kr_api_key : Z; kr_min_version : Z; kr_max_version : Z }.

Definition supported_apis : list KApiVersionRange :=
  [MkKRange (kafka_api_value KProduce) 0 9; MkKRange (kafka_api_value KFetch) 0 12;
   MkKRange (kafka_api_value KListOffsets) 0 7; MkKRange (kafka_api_value KMetadata) 0 9;
   MkKRange (kafka_api_value KApiVersions) 0 3].

Record KApiVersionsResponse := MkKApiVersions { kav_error_code : Z; kav_api_keys : list KApiVersionRange; kav_throttle_time_ms : Z }.

(** The size of a vector, cast to [int32_t]. *)
Definition count_i32 {A} (xs : list A) : Z := to_i 32 (Z.of_nat (length xs)).

Definition encode_api_range (api : KApiVersionRange) (out : Encoder) : Encoder :=
  out |> kput_i16 (kr_api_key api) |> kput_i16 (kr_min_version api) |> kput_i16 (kr_max_version api)
      |> kput_empty_tagged_fields.

Definition encode_api_versions_response (resp : KApiVersionsResponse) (out : Encoder) : Encoder :=
  let out := out |> kput_i16 (kav_error_code resp) |> kput_compact_array_len (count_i32 (kav_api_keys resp)) in
  foldl (fun out api => encode_api_range api out) out (kav_api_keys resp)
    |> kput_i32 (kav_throttle_time_ms resp) |> kput_empty_tagged_fields.

Definition make_api_versions_response : KApiVersionsResponse := MkKApiVersions 0 supported_apis 0.

(** ** Produce *)

Definition kProduceTxnSince : Z := 3.
Definition kProduceLogAppendSince : Z := 2.
Definition kProduceLogStartSince : Z := 5.
Definition kProduceRecordErrorsSince : Z := 8.
Definition kProduceThrottleSince : Z := 1.

Record KProducePartitionData := MkKProducePartition { kpd_index : Z; kpd_records : list byte }.
Record KProduceTopicData := MkKProduceTopic { kpt_name : string; kpt_partitions : list KProducePartitionData }.
Record KProduceRequest := MkKProduceRequest {
  kpq_transactional_id : option string;
  kpq_acks : Z;
  kpq_timeout_ms : Z;
  kpq_topics : list KProduceTopicData;
}.
Record KProducePartitionResponse := MkKProducePartitionResponse {
  kpp_index : Z;
  kpp_error_code : Z;
  kpp_base_offset : Z;
  kpp_log_append_time_ms : Z;
  kpp_log_start_offset : Z;
  kpp_error_message : option string;
}.
Record KProduceTopicResponse := MkKProduceTopicResponse {
  kptr_name : string;
  kptr_partitions : list KProducePartitionResponse;
}.
Record KProduceResponse := MkKProduceResponse { kpr_topics : list KProduceTopicResponse; kpr_throttle_time_ms : Z }.

Definition decode_produce_partition (flexible : bool) : Reader KProducePartitionData :=
  let! index := kget_i32 in
  let! blob := (if flexible then kget_compact_nullable_bytes else kget_nullable_bytes) in
  let! tags := kget_tags flexible in
  ret (MkKProducePartition index (default [] blob)).

Definition decode_produce_topic (flexible : bool) : Reader KProduceTopicData :=
  let! name := kget_name flexible in
  let! part_count := kget_count flexible in
  let! partitions := kget_loop (decode_produce_partition flexible) part_count in
  let! tags := kget_tags flexible in
  ret (MkKProduceTopic name partitions).

Definition decode_produce_request (api_version : Z) : Reader KProduceRequest :=
  let flexible := is_flexible KProduce api_version in
  let! txn_id := gate (kProduceTxnSince <=? api_version)
                   (if flexible then kget_compact_nullable_string else kget_nullable_string) None in
  let! acks := kget_i16 in
  let! timeout := kget_i32 in
  let! topic_count := kget_count flexible in
  let! topics := kget_loop (decode_produce_topic flexible) topic_count in
  let! tags := kget_tags flexible in
  ret (MkKProduceRequest txn_id acks timeout topics).

Definition encode_produce_partition (part : KProducePartitionResponse) (api_version : Z) (flexible : bool)
    (out : Encoder) : Encoder :=
  out |> kput_i32 (kpp_index part) |> kput_i16 (kpp_error_code part) |> kput_i64 (kpp_base_offset part)
      |> kput_when (kProduceLogAppendSince <=? api_version) (kput_i64 (kpp_log_append_time_ms part))
      |> kput_when (kProduceLogStartSince <=? api_version) (kput_i64 (kpp_log_start_offset part))
      |> kput_when (kProduceRecordErrorsSince <=? api_version) (kput_count flexible 0)
      |> kput_when (kProduceRecordErrorsSince <=? api_version)
           ((if flexible then kput_compact_nullable_string else kput_nullable_string) (kpp_error_message part))
      |> kput_tags flexible.

Definition encode_produce_topic (api_version : Z) (flexible : bool) (topic : KProduceTopicResponse) (out : Encoder) : Encoder :=
  let out := out |> kput_name flexible (kptr_name topic) |> kput_count flexible (count_i32 (kptr_partitions topic)) in
  foldl (fun out part => encode_produce_partition part api_version flexible out) out (kptr_partitions topic)
    |> kput_tags flexible.

Definition encode_produce_response (resp : KProduceResponse) (api_version : Z) (out : Encoder) : Encoder :=
  let flexible := is_flexible KProduce api_version in
  let out := out |> kput_count flexible (count_i32 (kpr_topics resp)) in
  foldl (fun out topic => encode_produce_topic api_version flexible topic out) out (kpr_topics resp)
    |> kput_when (kProduceThrottleSince <=? api_version) (kput_i32 (kpr_throttle_time_ms resp))
    |> kput_tags flexible.

(** ** Fetch *)

Definition kFetchMaxBytesSince : Z := 3.
Definition kFetchIsolationSince : Z := 4.
Definition kFetchSessionSince : Z := 7.
Definition kFetchForgottenSince : Z := 7.
Definition kFetchLeaderEpochSince : Z := 9.
Definition kFetchLogStartSince : Z := 5.
Definition kFetchLastFetchedEpochSince : Z := 12.
Definition kFetchRackSince : Z := 11.
Definition kFetchThrottleSince : Z := 1.
Definition kFetchTopLevelErrorSince : Z := 7.
Definition kFetchLastStableSince : Z := 4.
Definition kFetchPreferredReplicaSince : Z := 11.

Record KFetchPartitionRequest := MkKFetchPartition {
  kfp_partition : Z;
  kfp_current_leader_epoch : Z;
  kfp_fetch_offset : Z;
  kfp_last_fetched_epoch : Z;
  kfp_log_start_offset : Z;
  kfp_partition_max_bytes : Z;
}.
Record KFetchTopicRequest := MkKFetchTopic { kft_topic : string; kft_partitions : list KFetchPartitionRequest }.

(** What [decode_fetch_header] reads, and the whole request. *)
Record KFetchHeader := MkKFetchHeader {
  kfh_replica_id : Z;
  kfh_max_wait_ms : Z;
  kfh_min_bytes : Z;
  kfh_max_bytes : Z;
  kfh_isolation_level : Z;
  kfh_session_id : Z;
  kfh_session_epoch : Z;
}.
Record KFetchRequest := MkKFetchRequest { kfq_header : KFetchHeader; kfq_topics : list KFetchTopicRequest; kfq_rack_id : string }.

Record KFetchPartitionResponse := MkKFetchPartitionResponse {
  kfr_partition_index : Z;
  kfr_error_code : Z;
  kfr_high_watermark : Z;
  kfr_last_stable_offset : Z;
  kfr_log_start_offset : Z;
  kfr_preferred_read_replica : Z;
  kfr_records : list byte;
}.
Record KFetchTopicResponse := MkKFetchTopicResponse { kftr_topic : string; kftr_partitions : list KFetchPartitionResponse }.
Record KFetchResponse := MkKFetchResponse {
  kfs_throttle_time_ms : Z;
  kfs_error_code : Z;
  kfs_session_id : Z;
  kfs_topics : list KFetchTopicResponse;
}.

Definition skip_forgotten_topic (flexible : bool) : Reader unit :=
  let! topic := kget_name flexible in
  let! parts := kget_count flexible in
  let! indexes := kget_loop kget_i32 parts in
  kget_tags flexible.

Definition skip_forgotten_topics (flexible : bool) : Reader unit :=
  let! count := kget_count flexible in let! topics := kget_loop (skip_forgotten_topic flexible) count in ret tt.

Definition decode_fetch_partition (version : Z) (flexible : bool) : Reader KFetchPartitionRequest :=
  let! partition := kget_i32 in
  let! leader_epoch := gate (kFetchLeaderEpochSince <=? version) kget_i32 (-1) in
  let! fetch_offset := kget_i64 in
  let! last_fetched := gate (kFetchLastFetchedEpochSince <=? version) kget_i32 (-1) in
  let! log_start := gate (kFetchLogStartSince <=? version) kget_i64 (-1) in
  let! max_part_bytes := kget_i32 in
  let! tags := kget_tags flexible in
  ret (MkKFetchPartition partition leader_epoch fetch_offset last_fetched log_start max_part_bytes).

(** The three reads are made whatever the first ones give. *)
Definition kget_fetch_ids : Reader (Z * Z * Z) := fun d =>
  let '(replica_id, d) := kget_i32 d in
  let '(max_wait, d) := kget_i32 d in
  let '(min_bytes, d) := kget_i32 d in
  match replica_id, max_wait, min_bytes with
  | Ok r, Ok w, Ok b => (Ok (r, w, b), d)
  | _, _, _ => (make_error InvalidArgument "Fetch request truncada (cabecera)", d)
  end.

Definition kget_fetch_session : Reader (Z * Z) := fun d =>
  let '(session_id, d) := kget_i32 d in
  let '(session_epoch, d) := kget_i32 d in
  match session_id, session_epoch with
  | Ok i, Ok e => (Ok (i, e), d)
  | Err e, _ => (Err e, d)
  | _, Err e => (Err e, d)
  end.

Definition decode_fetch_header (version : Z) : Reader KFetchHeader :=
  let! ids := kget_fetch_ids in
  let! max_bytes := gate (kFetchMaxBytesSince <=? version) kget_i32 0 in
  let! isolation := gate (kFetchIsolationSince <=? version) kget_i8 0 in
  let! session := gate (kFetchSessionSince <=? version) kget_fetch_session (0, -1) in
  ret (MkKFetchHeader ids.1.1 ids.1.2 ids.2 max_bytes isolation session.1 session.2).

Definition decode_fetch_topic (version : Z) (flexible : bool) : Reader KFetchTopicRequest :=
  let! name := kget_name flexible in
  let! part_count := kget_count flexible in
  let! partitions := kget_loop (decode_fetch_partition version flexible) part_count in
  let! tags := kget_tags flexible in
  ret (MkKFetchTopic name partitions).

(** The rack. *)
Definition decode_fetch_trailer (version : Z) (flexible : bool) : Reader string :=
  let! forgotten := gate (kFetchForgottenSince <=? version) (skip_forgotten_topics flexible) tt in
  let! rack := gate (kFetchRackSince <=? version) (kget_name flexible) ""%string in
  let! tags := kget_tags flexible in
  ret rack.

Definition decode_fetch_request (api_version : Z) : Reader KFetchRequest :=
  let flexible := is_flexible KFetch api_version in
  let! header := decode_fetch_header api_version in
  let! topic_count := kget_count flexible in
  let! topics := kget_loop (decode_fetch_topic api_version flexible) topic_count in
  let! rack := decode_fetch_trailer api_version flexible in
  ret (MkKFetchRequest header topics rack).

Definition encode_fetch_partition (part : KFetchPartitionResponse) (version : Z) (flexible : bool) (out : Encoder) : Encoder :=
  out |> kput_i32 (kfr_partition_index part) |> kput_i16 (kfr_error_code part) |> kput_i64 (kfr_high_watermark part)
      |> kput_when (kFetchLastStableSince <=? version) (kput_i64 (kfr_last_stable_offset part))
      |> kput_when (kFetchLogStartSince <=? version) (kput_i64 (kfr_log_start_offset part))
      |> kput_when (kFetchLastStableSince <=? version) (kput_count flexible 0)
      |> kput_when (kFetchPreferredReplicaSince <=? version) (kput_i32 (kfr_preferred_read_replica part))
      |> (if flexible then kput_compact_nullable_bytes else kput_nullable_bytes) (Some (kfr_records part))
      |> kput_tags flexible.

Definition encode_fetch_topic (version : Z) (flexible : bool) (topic : KFetchTopicResponse) (out : Encoder) : Encoder :=
  let out := out |> kput_name flexible (kftr_topic topic) |> kput_count flexible (count_i32 (kftr_partitions topic)) in
  foldl (fun out part => encode_fetch_partition part version flexible out) out (kftr_partitions topic)
    |> kput_tags flexible.

Definition encode_fetch_response (resp : KFetchResponse) (api_version : Z) (out : Encoder) : Encoder :=
  let flexible := is_flexible KFetch api_version in
  let out := out |> kput_when (kFetchThrottleSince <=? api_version) (kput_i32 (kfs_throttle_time_ms resp))
                 |> kput_when (kFetchTopLevelErrorSince <=? api_version) (kput_i16 (kfs_error_code resp))
                 |> kput_when (kFetchTopLevelErrorSince <=? api_version) (kput_i32 (kfs_session_id resp))
                 |> kput_count flexible (count_i32 (kfs_topics resp)) in
  foldl (fun out topic => encode_fetch_topic api_version flexible topic out) out (kfs_topics resp)
    |> kput_tags flexible.

(** ** ListOffsets *)

Definition kListOffsetsEarliest : Z := -2.
Definition kListOffsetsLatest : Z := -1.

Record KListOffsetPartition := MkKListPartition { klp_partition_index : Z; klp_current_leader_epoch : Z; klp_timestamp : Z }.
Record KListOffsetTopic := MkKListTopic { klt_name : string; klt_partitions : list KListOffsetPartition }.
Record KListOffsetsRequest := MkKListRequest { klq_replica_id : Z; klq_isolation_level : Z; klq_topics : list KListOffsetTopic }.
Record KListOffsetPartitionResponse := MkKListPartitionResponse {
  klr_partition_index : Z;
  klr_error_code : Z;
  klr_timestamp : Z;
  klr_offset : Z;
  klr_leader_epoch : Z;
}.
Record KListOffsetTopicResponse := MkKListTopicResponse { kltr_name : string; kltr_partitions : list KListOffsetPartitionResponse }.
Record KListOffsetsResponse := MkKListResponse { kls_throttle_time_ms : Z; kls_topics : list KListOffsetTopicResponse }.

Definition decode_list_offsets_partition : Reader KListOffsetPartition :=
  let! index := kget_i32 in
  let! leader_epoch := kget_i32 in
  let! timestamp := kget_i64 in
  let! part_tags := skip_tagged_fields in
  ret (MkKListPartition index leader_epoch timestamp).

Definition decode_list_offsets_topic : Reader KListOffsetTopic :=
  let! name := kget_compact_string in
  let! part_count := kget_compact_array_len in
  let! partitions := kget_loop decode_list_offsets_partition part_count in
  let! topic_tags := skip_tagged_fields in
  ret (MkKListTopic name partitions).

Definition decode_list_offsets_request : Reader KListOffsetsRequest :=
  let! replica_id := kget_i32 in
  let! isolation_level := kget_i8 in
  let! topic_count := kget_compact_array_len in
  let! topics := kget_loop decode_list_offsets_topic topic_count in
  let! body_tags := skip_tagged_fields in
  ret (MkKListRequest replica_id isolation_level topics).

Definition encode_list_offsets_partition (part : KListOffsetPartitionResponse) (out : Encoder) : Encoder :=
  out |> kput_i32 (klr_partition_index part) |> kput_i16 (klr_error_code part) |> kput_i64 (klr_timestamp part)
      |> kput_i64 (klr_offset part) |> kput_i32 (klr_leader_epoch part) |> kput_empty_tagged_fields.

Definition encode_list_offsets_topic (topic : KListOffsetTopicResponse) (out : Encoder) : Encoder :=
  let out := out |> kput_compact_string (kltr_name topic) |> kput_compact_array_len (count_i32 (kltr_partitions topic)) in
  foldl (fun out part => encode_list_offsets_partition part out) out (kltr_partitions topic) |> kput_empty_tagged_fields.

Definition encode_list_offsets_response (resp : KListOffsetsResponse) (out : Encoder) : Encoder :=
  let out := out |> kput_i32 (kls_throttle_time_ms resp) |> kput_compact_array_len (count_i32 (kls_topics resp)) in
  foldl (fun out topic => encode_list_offsets_topic topic out) out (kls_topics resp) |> kput_empty_tagged_fields.

(** ** Metadata *)

Record KMetadataRequest := MkKMetadataRequest {
  kmq_topics : option (list string);
  kmq_allow_auto_topic_creation : bool;
  kmq_include_cluster_authorized_operations : bool;
  kmq_include_topic_authorized_operations : bool;
}.
Record KMetadataBroker := MkKBroker { kmb_node_id : Z; kmb_host : string; kmb_port : Z; kmb_rack : option string }.
Record KMetadataPartition := MkKMetadataPartition {
  kmp_error_code : Z;
  kmp_partition_index : Z;
  kmp_leader_id : Z;
  kmp_leader_epoch : Z;
  kmp_replica_nodes : list Z;
  kmp_isr_nodes : list Z;
  kmp_offline_replicas : list Z;
}.
Record KMetadataTopic := MkKMetadataTopic {
  kmt_error_code : Z;
  kmt_name : string;
  kmt_is_internal : bool;
  kmt_partitions : list KMetadataPartition;
  kmt_topic_authorized_operations : Z;
}.
Record KMetadataResponse := MkKMetadataResponse {
  kms_throttle_time_ms : Z;
  kms_brokers : list KMetadataBroker;
  kms_cluster_id : option string;
  kms_controller_id : Z;
  kms_topics : list KMetadataTopic;
  kms_cluster_authorized_operations : Z;
}.

Definition decode_metadata_topic : Reader string :=
  let! name := kget_compact_string in let! tags := skip_tagged_fields in ret name.

Definition decode_metadata_request : Reader KMetadataRequest :=
  let! topic_count := kget_compact_array_len in
  let! topics := (if 0 <=? topic_count then let! names := kget_loop decode_metadata_topic topic_count in ret (Some names)
                  else ret None) in
  let! auto_create := kget_bool in
  let! include_cluster := kget_bool in
  let! include_topic := kget_bool in
  let! tags := skip_tagged_fields in
  ret (MkKMetadataRequest topics auto_create include_cluster include_topic).

Definition put_int32_array (values : list Z) (out : Encoder) : Encoder :=
  foldl (fun out value => kput_i32 value out) (kput_compact_array_len (count_i32 values) out) values.

Definition encode_metadata_broker (broker : KMetadataBroker) (out : Encoder) : Encoder :=
  out |> kput_i32 (kmb_node_id broker) |> kput_compact_string (kmb_host broker) |> kput_i32 (kmb_port broker)
      |> kput_compact_nullable_string (kmb_rack broker) |> kput_empty_tagged_fields.

Definition encode_metadata_partition (part : KMetadataPartition) (out : Encoder) : Encoder :=
  out |> kput_i16 (kmp_error_code part) |> kput_i32 (kmp_partition_index part) |> kput_i32 (kmp_leader_id part)
      |> kput_i32 (kmp_leader_epoch part) |> put_int32_array (kmp_replica_nodes part)
      |> put_int32_array (kmp_isr_nodes part) |> put_int32_array (kmp_offline_replicas part) |> kput_empty_tagged_fields.

Definition encode_metadata_topic (topic : KMetadataTopic) (out : Encoder) : Encoder :=
  let out := out |> kput_i16 (kmt_error_code topic) |> kput_compact_string (kmt_name topic)
                 |> kput_bool (kmt_is_internal topic) |> kput_compact_array_len (count_i32 (kmt_partitions topic)) in
  foldl (fun out part => encode_metadata_partition part out) out (kmt_partitions topic)
    |> kput_i32 (kmt_topic_authorized_operations topic) |> kput_empty_tagged_fields.

Definition encode_metadata_response (resp : KMetadataResponse) (out : Encoder) : Encoder :=
  let out := out |> kput_i32 (kms_throttle_time_ms resp) |> kput_compact_array_len (count_i32 (kms_brokers resp)) in
  let out := foldl (fun out broker => encode_metadata_broker broker out) out (kms_brokers resp)
               |> kput_compact_nullable_string (kms_cluster_id resp) |> kput_i32 (kms_controller_id resp)
               |> kput_compact_array_len (count_i32 (kms_topics resp)) in
  foldl (fun out topic => encode_metadata_topic topic out) out (kms_topics resp)
    |> kput_i32 (kms_cluster_authorized_operations resp) |> kput_empty_tagged_fields.
