(* ===== verification/KafkaWire.v ===== *)
(** * The Kafka facade reads and writes the protocol

    What a Kafka client sends for a request, at any version and with any tagged fields in every place
    that takes them, is read as that request by the decoders of [KafkaApis.v], with the fields the
    version lacks at their defaults; and what the encoders write is what a client of the version
    reads.  The version gates of the two sides are written apart, as the protocol documents them. *)
From Stdlib Require Import ZArith Lia Ascii String.
From stdpp Require Import base list gmap strings.
From S2P Require Import Prelude Bytes Codec KafkaCodec KafkaApis.
#[local] Open Scope Z_scope.

(** ** Fields of a version *)

Definition present {A} (b : bool) (a absent : A) : A := if b then a else absent.
Definition bytes_when (b : bool) (bs : list byte) : list byte := if b then bs else [].

Lemma reads_gate {A} b (m : Reader A) (absent : A) bs a :
  (b = true -> reads m bs a) -> reads (gate b m absent) (bytes_when b bs) (present b a absent).
Proof. destruct b; cbn; intros H; [by apply H|apply reads_ret]. Qed.

Definition name_ok (flexible : bool) (s : string) : Prop := if flexible then compact_string s else short_string s.
Definition optional_name_ok (flexible : bool) (s : option string) : Prop := from_option (name_ok flexible) True s.
Definition blob_ok (flexible : bool) (bs : list byte) : Prop := if flexible then compact_bytes bs else short_bytes bs.
Definition count_ok {A} (xs : list A) : Prop := Z.of_nat (length xs) < 2 ^ 31.

Definition sent_name (flexible : bool) (s : string) : list byte := kput_name flexible s [].
Definition sent_optional (flexible : bool) (s : option string) : list byte :=
  (if flexible then kput_compact_nullable_string else kput_nullable_string) s [].
Definition sent_blob (flexible : bool) (bs : option (list byte)) : list byte :=
  (if flexible then kput_compact_nullable_bytes else kput_nullable_bytes) bs [].
Definition sent_array {A} (flexible : bool) (enc : A -> list byte) (xs : list A) : list byte :=
  kput_count flexible (Z.of_nat (length xs)) [] ++ concat (enc <$> xs).

Lemma reads_name flexible s : name_ok flexible s -> reads (kget_name flexible) (sent_name flexible s) s.
Proof. destruct flexible; [apply reads_kget_compact_string|apply reads_kget_string]. Qed.

Lemma reads_optional flexible s :
  optional_name_ok flexible s ->
  reads (if flexible then kget_compact_nullable_string else kget_nullable_string) (sent_optional flexible s) s.
Proof. destruct flexible; [apply reads_kget_compact_nullable_string|apply reads_kget_nullable_string]. Qed.

Lemma reads_blob flexible bs :
  from_option (blob_ok flexible) True bs ->
  reads (if flexible then kget_compact_nullable_bytes else kget_nullable_bytes) (sent_blob flexible bs) bs.
Proof. destruct flexible; [apply reads_kget_compact_nullable_bytes|apply reads_kget_nullable_bytes]. Qed.

Lemma reads_tags flexible fields : tagged_ok fields -> reads (kget_tags flexible) (bytes_when flexible (tagged_fields fields)) tt.
Proof.
  intros Hf. replace tt with (present flexible tt tt) by (by destruct flexible).
  apply reads_gate. intros _. by apply reads_skip_tagged_fields.
Qed.

(** An array: its count and then as many elements; [f] is what the reader makes of an element. *)
Lemma reads_array {A B C} flexible (m : Reader B) (enc : A -> list byte) (f : A -> B) (xs : list A) (k : list B -> Reader C) bb c :
  count_ok xs -> Forall (fun x => reads m (enc x) (f x)) xs -> reads (k (f <$> xs)) bb c ->
  reads (let! n := kget_count flexible in let! ys := kget_loop m n in k ys) (sent_array flexible enc xs ++ bb) c.
Proof.
  intros Hn Hx Hk. unfold sent_array. rewrite <- app_assoc. eapply reads_bind.
  - destruct flexible; cbn [kget_count kput_count];
      [apply reads_kget_compact_array_len|apply reads_kget_array_len; unfold i_range]; unfold count_ok in Hn; lia.
  - eapply reads_bind; [|exact Hk]. unfold kget_loop. rewrite Nat2Z.id. clear Hn Hk.
    induction Hx as [|x xs Hx _ IH]; cbn [length get_many fmap list_fmap concat]; [apply reads_ret|].
    eapply reads_bind; [done|]. apply (reads_bind_last _ (fun ys => f x :: ys)). done.
Qed.

(** The same when nothing is read after it. *)
Lemma reads_array_tail {A B C} flexible (m : Reader B) (enc : A -> list byte) (f : A -> B) (xs : list A) (k : list B -> Reader C) c :
  count_ok xs -> Forall (fun x => reads m (enc x) (f x)) xs -> reads (k (f <$> xs)) [] c ->
  reads (let! n := kget_count flexible in let! ys := kget_loop m n in k ys) (sent_array flexible enc xs) c.
Proof. intros. rewrite <- (app_nil_r (sent_array _ _ _)). by eapply reads_array. Qed.

Lemma Forall_map_id {A} (xs : list A) : (fun x => x) <$> xs = xs.
Proof. induction xs as [|x xs IH]; cbn; [done|]. by rewrite IH. Qed.

Create HintDb kafka_field.
#[export] Hint Resolve reads_kget_i8 reads_kget_i16 reads_kget_i32 reads_kget_i64 reads_kget_bool reads_name
  reads_optional reads_blob reads_tags reads_gate reads_skip_tagged_fields : kafka_field.

(** Splits off and closes the fields before the next array. *)
Ltac kafka_fields :=
  repeat (eapply reads_bind; [solve [eauto with kafka_field]|]);
  try (apply reads_end; repeat (eapply reads_bind; [solve [eauto with kafka_field]|])).

(** ** The request header *)

Section Client.
(** The tagged fields the client writes in every place that takes them. *)
Context (tags : list (Z * list byte)) (Htags : tagged_ok tags).

Definition client_header (h : KRequestHeader) : list byte :=
  store_be 2 (kh_api_key h) ++ store_be 2 (kh_api_version h) ++ store_be 4 (kh_correlation_id h)
    ++ sent_optional false (kh_client_id h)
    ++ bytes_when (is_flexible (kafka_api_key (kh_api_key h)) (kh_api_version h)) (tagged_fields tags).

Definition kheader_ok (h : KRequestHeader) : Prop :=
  i_range 16 (kh_api_key h) /\ i_range 16 (kh_api_version h) /\ i_range 32 (kh_correlation_id h) /\
  optional_name_ok false (kh_client_id h).

Lemma request_header_tags key version : (2 <=? request_header_version key version) = is_flexible key version.
Proof. unfold request_header_version. by destruct (is_flexible key version). Qed.

Lemma request_header_reads h : kheader_ok h -> reads decode_request_header (client_header h) h.
Proof.
  intros (Hk & Hv & Hc & Hi). unfold decode_request_header, client_header.
  do 3 (eapply reads_bind; [solve [eauto with kafka_field]|]).
  eapply reads_bind; [exact (reads_optional false _ Hi)|]. rewrite request_header_tags.
  kafka_fields. destruct h. apply reads_ret.
Qed.

(** ** Requests, as a client sends them at a version *)

(** Which fields a version of Produce and of Fetch has. *)
Definition produce_has_txn (v : Z) : bool := 3 <=? v.
Definition fetch_has_max_bytes (v : Z) : bool := 3 <=? v.
Definition fetch_has_isolation (v : Z) : bool := 4 <=? v.
Definition fetch_has_log_start (v : Z) : bool := 5 <=? v.
Definition fetch_has_session (v : Z) : bool := 7 <=? v.
Definition fetch_has_leader_epoch (v : Z) : bool := 9 <=? v.
Definition fetch_has_rack (v : Z) : bool := 11 <=? v.
Definition produce_flexible (v : Z) : bool := 9 <=? v.
Definition fetch_flexible (v : Z) : bool := 12 <=? v.

Definition sent_produce_partition (v : Z) (p : KProducePartitionData) : list byte :=
  store_be 4 (kpd_index p) ++ sent_blob (produce_flexible v) (Some (kpd_records p))
    ++ bytes_when (produce_flexible v) (tagged_fields tags).
Definition sent_produce_topic (v : Z) (t : KProduceTopicData) : list byte :=
  sent_name (produce_flexible v) (kpt_name t)
    ++ sent_array (produce_flexible v) (sent_produce_partition v) (kpt_partitions t)
    ++ bytes_when (produce_flexible v) (tagged_fields tags).
Definition client_produce (v : Z) (req : KProduceRequest) : list byte :=
  bytes_when (produce_has_txn v) (sent_optional (produce_flexible v) (kpq_transactional_id req))
    ++ store_be 2 (kpq_acks req) ++ store_be 4 (kpq_timeout_ms req)
    ++ sent_array (produce_flexible v) (sent_produce_topic v) (kpq_topics req)
    ++ bytes_when (produce_flexible v) (tagged_fields tags).

(** The request as the version can carry it. *)
Definition produce_at (v : Z) (req : KProduceRequest) : KProduceRequest :=
  MkKProduceRequest (present (produce_has_txn v) (kpq_transactional_id req) None) (kpq_acks req) (kpq_timeout_ms req)
    (kpq_topics req).

Definition produce_partition_ok (f : bool) (p : KProducePartitionData) : Prop :=
  i_range 32 (kpd_index p) /\ blob_ok f (kpd_records p).
Definition produce_topic_ok (f : bool) (t : KProduceTopicData) : Prop :=
  name_ok f (kpt_name t) /\ count_ok (kpt_partitions t) /\ Forall (produce_partition_ok f) (kpt_partitions t).
Definition produce_ok (v : Z) (req : KProduceRequest) : Prop :=
  let f := produce_flexible v in
  optional_name_ok f (kpq_transactional_id req) /\ i_range 16 (kpq_acks req) /\ i_range 32 (kpq_timeout_ms req) /\
  count_ok (kpq_topics req) /\ Forall (produce_topic_ok f) (kpq_topics req).

Lemma produce_partition_reads v p :
  produce_partition_ok (produce_flexible v) p ->
  reads (decode_produce_partition (produce_flexible v)) (sent_produce_partition v p) p.
Proof.
  intros [Hi Hb]. unfold decode_produce_partition, sent_produce_partition.
  eapply reads_bind; [solve [eauto with kafka_field]|].
  eapply reads_bind; [by apply (reads_blob _ (Some (kpd_records p)))|]. kafka_fields. destruct p. apply reads_ret.
Qed.

Lemma produce_topic_reads v t :
  produce_topic_ok (produce_flexible v) t -> reads (decode_produce_topic (produce_flexible v)) (sent_produce_topic v t) t.
Proof.
  intros (Hn & Hc & Hp). unfold decode_produce_topic, sent_produce_topic.
  eapply reads_bind; [by apply reads_name|]. eapply (reads_array _ _ _ (fun p => p)); [done| |].
  - eapply Forall_impl; [done|]. intros p. apply produce_partition_reads.
  - kafka_fields. rewrite Forall_map_id. destruct t. apply reads_ret.
Qed.

Lemma produce_reads v req : produce_ok v req -> reads (decode_produce_request v) (client_produce v req) (produce_at v req).
Proof.
  intros (Ht & Ha & Hto & Hc & Hp). unfold decode_produce_request, client_produce.
  change (is_flexible KProduce v) with (produce_flexible v).
  eapply reads_bind; [apply (reads_gate (produce_has_txn v)); intros _; by apply reads_optional|].
  do 2 (eapply reads_bind; [solve [eauto with kafka_field]|]). eapply (reads_array _ _ _ (fun t => t)); [done| |].
  - eapply Forall_impl; [done|]. intros t. apply produce_topic_reads.
  - kafka_fields. rewrite Forall_map_id. apply reads_ret.
Qed.

(** A topic a fetch session forgets: its name and partitions. *)
Abbreviation Forgotten := (string * list Z)%type (only parsing).

Definition sent_fetch_partition (v : Z) (p : KFetchPartitionRequest) : list byte :=
  store_be 4 (kfp_partition p) ++ bytes_when (fetch_has_leader_epoch v) (store_be 4 (kfp_current_leader_epoch p))
    ++ store_be 8 (kfp_fetch_offset p) ++ bytes_when (fetch_flexible v) (store_be 4 (kfp_last_fetched_epoch p))
    ++ bytes_when (fetch_has_log_start v) (store_be 8 (kfp_log_start_offset p))
    ++ store_be 4 (kfp_partition_max_bytes p) ++ bytes_when (fetch_flexible v) (tagged_fields tags).
Definition sent_fetch_topic (v : Z) (t : KFetchTopicRequest) : list byte :=
  sent_name (fetch_flexible v) (kft_topic t)
    ++ sent_array (fetch_flexible v) (sent_fetch_partition v) (kft_partitions t)
    ++ bytes_when (fetch_flexible v) (tagged_fields tags).
Definition sent_forgotten (f : bool) (t : Forgotten) : list byte :=
  sent_name f t.1 ++ sent_array f (store_be 4) t.2 ++ bytes_when f (tagged_fields tags).
Definition sent_fetch_header (v : Z) (h : KFetchHeader) : list byte :=
  (store_be 4 (kfh_replica_id h) ++ store_be 4 (kfh_max_wait_ms h) ++ store_be 4 (kfh_min_bytes h))
    ++ bytes_when (fetch_has_max_bytes v) (store_be 4 (kfh_max_bytes h))
    ++ bytes_when (fetch_has_isolation v) [to_u 8 (kfh_isolation_level h)]
    ++ bytes_when (fetch_has_session v) (store_be 4 (kfh_session_id h) ++ store_be 4 (kfh_session_epoch h)).
Definition client_fetch (v : Z) (forgotten : list Forgotten) (req : KFetchRequest) : list byte :=
  sent_fetch_header v (kfq_header req)
    ++ sent_array (fetch_flexible v) (sent_fetch_topic v) (kfq_topics req)
    ++ bytes_when (fetch_has_session v) (sent_array (fetch_flexible v) (sent_forgotten (fetch_flexible v)) forgotten)
    ++ bytes_when (fetch_has_rack v) (sent_name (fetch_flexible v) (kfq_rack_id req))
    ++ bytes_when (fetch_flexible v) (tagged_fields tags).

Definition fetch_partition_at (v : Z) (p : KFetchPartitionRequest) : KFetchPartitionRequest :=
  MkKFetchPartition (kfp_partition p) (present (fetch_has_leader_epoch v) (kfp_current_leader_epoch p) (-1))
    (kfp_fetch_offset p) (present (fetch_flexible v) (kfp_last_fetched_epoch p) (-1))
    (present (fetch_has_log_start v) (kfp_log_start_offset p) (-1)) (kfp_partition_max_bytes p).
Definition fetch_topic_at (v : Z) (t : KFetchTopicRequest) : KFetchTopicRequest :=
  MkKFetchTopic (kft_topic t) (fetch_partition_at v <$> kft_partitions t).
Definition fetch_header_at (v : Z) (h : KFetchHeader) : KFetchHeader :=
  MkKFetchHeader (kfh_replica_id h) (kfh_max_wait_ms h) (kfh_min_bytes h)
    (present (fetch_has_max_bytes v) (kfh_max_bytes h) 0) (present (fetch_has_isolation v) (kfh_isolation_level h) 0)
    (present (fetch_has_session v) (kfh_session_id h) 0) (present (fetch_has_session v) (kfh_session_epoch h) (-1)).
Definition fetch_at (v : Z) (req : KFetchRequest) : KFetchRequest :=
  MkKFetchRequest (fetch_header_at v (kfq_header req))
    (fetch_topic_at v <$> kfq_topics req) (present (fetch_has_rack v) (kfq_rack_id req) ""%string).

Definition fetch_partition_ok (p : KFetchPartitionRequest) : Prop :=
  i_range 32 (kfp_partition p) /\ i_range 32 (kfp_current_leader_epoch p) /\ i_range 64 (kfp_fetch_offset p) /\
  i_range 32 (kfp_last_fetched_epoch p) /\ i_range 64 (kfp_log_start_offset p) /\ i_range 32 (kfp_partition_max_bytes p).
Definition fetch_topic_ok (f : bool) (t : KFetchTopicRequest) : Prop :=
  name_ok f (kft_topic t) /\ count_ok (kft_partitions t) /\ Forall fetch_partition_ok (kft_partitions t).
Definition forgotten_ok (f : bool) (t : Forgotten) : Prop := name_ok f t.1 /\ count_ok t.2 /\ Forall (i_range 32) t.2.
Definition fetch_header_ok (h : KFetchHeader) : Prop :=
  (i_range 32 (kfh_replica_id h) /\ i_range 32 (kfh_max_wait_ms h) /\ i_range 32 (kfh_min_bytes h)) /\
  i_range 32 (kfh_max_bytes h) /\ i_range 8 (kfh_isolation_level h) /\
  i_range 32 (kfh_session_id h) /\ i_range 32 (kfh_session_epoch h).
Definition fetch_ok (v : Z) (forgotten : list Forgotten) (req : KFetchRequest) : Prop :=
  let f := fetch_flexible v in
  fetch_header_ok (kfq_header req) /\ (count_ok (kfq_topics req) /\ Forall (fetch_topic_ok f) (kfq_topics req)) /\
  (count_ok forgotten /\ Forall (forgotten_ok f) forgotten) /\ name_ok f (kfq_rack_id req).

Lemma fetch_partition_reads v p :
  fetch_partition_ok p -> reads (decode_fetch_partition v (fetch_flexible v)) (sent_fetch_partition v p) (fetch_partition_at v p).
Proof.
  intros (Hp & He & Ho & Hl & Hs & Hm). unfold decode_fetch_partition, sent_fetch_partition, fetch_partition_at.
  change (kFetchLastFetchedEpochSince <=? v) with (fetch_flexible v). kafka_fields. apply reads_ret.
Qed.

Lemma fetch_topic_reads v t :
  fetch_topic_ok (fetch_flexible v) t ->
  reads (decode_fetch_topic v (fetch_flexible v)) (sent_fetch_topic v t) (fetch_topic_at v t).
Proof.
  intros (Hn & Hc & Hp). unfold decode_fetch_topic, sent_fetch_topic.
  eapply reads_bind; [by apply reads_name|]. eapply (reads_array _ _ _ (fetch_partition_at v)); [done| |].
  - eapply Forall_impl; [done|]. intros p. apply fetch_partition_reads.
  - kafka_fields. apply reads_ret.
Qed.

Lemma forgotten_reads f t : forgotten_ok f t -> reads (skip_forgotten_topic f) (sent_forgotten f t) tt.
Proof.
  intros (Hn & Hc & Hp). unfold skip_forgotten_topic, sent_forgotten.
  eapply reads_bind; [by apply reads_name|]. eapply (reads_array _ _ _ (fun i => i)); [done| |by apply reads_tags].
  eapply Forall_impl; [done|]. intros i. apply reads_kget_i32.
Qed.

Lemma fetch_ids_reads h :
  fetch_header_ok h ->
  reads kget_fetch_ids (store_be 4 (kfh_replica_id h) ++ store_be 4 (kfh_max_wait_ms h) ++ store_be 4 (kfh_min_bytes h))
    (kfh_replica_id h, kfh_max_wait_ms h, kfh_min_bytes h).
Proof.
  intros ((H1 & H2 & H3) & _) d Hd. apply starts_with_app in Hd as [Ha Hd]. apply starts_with_app in Hd as [Hb Hc].
  unfold kget_fetch_ids. rewrite (reads_kget_i32 _ H1 d Ha). rewrite (reads_kget_i32 _ H2 _ Hb), (reads_kget_i32 _ H3 _ Hc).
  rewrite !advance_add, !length_app. repeat f_equal; lia.
Qed.

Lemma fetch_session_reads h :
  fetch_header_ok h ->
  reads kget_fetch_session (store_be 4 (kfh_session_id h) ++ store_be 4 (kfh_session_epoch h))
    (kfh_session_id h, kfh_session_epoch h).
Proof.
  intros (_ & _ & _ & H1 & H2) d Hd. apply starts_with_app in Hd as [Ha Hb].
  unfold kget_fetch_session. rewrite (reads_kget_i32 _ H1 d Ha), (reads_kget_i32 _ H2 _ Hb), advance_add, length_app. done.
Qed.

Lemma fetch_header_reads v h :
  fetch_header_ok h -> reads (decode_fetch_header v) (sent_fetch_header v h) (fetch_header_at v h).
Proof.
  intros Hh. unfold decode_fetch_header, sent_fetch_header. pose proof Hh as (_ & Hm & Hi & _).
  eapply reads_bind; [by apply fetch_ids_reads|].
  eapply reads_bind; [apply (reads_gate (fetch_has_max_bytes v)); intros _; by apply reads_kget_i32|].
  eapply reads_bind; [apply (reads_gate (fetch_has_isolation v)); intros _; by apply reads_kget_i8|].
  apply reads_end. eapply reads_bind; [apply (reads_gate (fetch_has_session v)); intros _; by apply fetch_session_reads|].
  unfold fetch_header_at. cbn [fst snd]. apply reads_ret_eq. by destruct (fetch_has_session v).
Qed.

Lemma fetch_trailer_reads v forgotten rack :
  let f := fetch_flexible v in
  count_ok forgotten -> Forall (forgotten_ok f) forgotten -> name_ok f rack ->
  reads (decode_fetch_trailer v f)
    (bytes_when (fetch_has_session v) (sent_array f (sent_forgotten f) forgotten)
      ++ bytes_when (fetch_has_rack v) (sent_name f rack) ++ bytes_when f (tagged_fields tags))
    (present (fetch_has_rack v) rack ""%string).
Proof.
  intros f Hc Hf Hr. unfold decode_fetch_trailer.
  eapply (reads_bind _ _ _ _ (present (fetch_has_session v) tt tt)).
  - apply (reads_gate (fetch_has_session v)). intros _. unfold skip_forgotten_topics.
    eapply (reads_array_tail _ _ _ (fun _ => tt)); [done| |apply reads_ret].
    eapply Forall_impl; [done|]. intros t. apply forgotten_reads.
  - kafka_fields. apply reads_ret.
Qed.

Lemma fetch_reads v forgotten req :
  fetch_ok v forgotten req -> reads (decode_fetch_request v) (client_fetch v forgotten req) (fetch_at v req).
Proof.
  intros (Hh & [Hc Ht] & [Hfc Hf] & Hr). unfold decode_fetch_request, client_fetch.
  change (is_flexible KFetch v) with (fetch_flexible v).
  eapply reads_bind; [by apply fetch_header_reads|]. eapply (reads_array _ _ _ (fetch_topic_at v)); [done| |].
  - eapply Forall_impl; [done|]. intros t. apply fetch_topic_reads.
  - eapply reads_bind_last_eq; [by apply fetch_trailer_reads|done].
Qed.

(** ListOffsets and Metadata are read in their flexible format whatever the version. *)
Definition sent_list_partition (p : KListOffsetPartition) : list byte :=
  store_be 4 (klp_partition_index p) ++ store_be 4 (klp_current_leader_epoch p) ++ store_be 8 (klp_timestamp p)
    ++ tagged_fields tags.
Definition sent_list_topic (t : KListOffsetTopic) : list byte :=
  sent_name true (klt_name t) ++ sent_array true sent_list_partition (klt_partitions t) ++ tagged_fields tags.
Definition client_list_offsets (req : KListOffsetsRequest) : list byte :=
  store_be 4 (klq_replica_id req) ++ [to_u 8 (klq_isolation_level req)]
    ++ sent_array true sent_list_topic (klq_topics req) ++ tagged_fields tags.

Definition list_partition_ok (p : KListOffsetPartition) : Prop :=
  i_range 32 (klp_partition_index p) /\ i_range 32 (klp_current_leader_epoch p) /\ i_range 64 (klp_timestamp p).
Definition list_topic_ok (t : KListOffsetTopic) : Prop :=
  compact_string (klt_name t) /\ count_ok (klt_partitions t) /\ Forall list_partition_ok (klt_partitions t).
Definition list_offsets_ok (req : KListOffsetsRequest) : Prop :=
  i_range 32 (klq_replica_id req) /\ i_range 8 (klq_isolation_level req) /\
  count_ok (klq_topics req) /\ Forall list_topic_ok (klq_topics req).

Lemma list_partition_reads p : list_partition_ok p -> reads decode_list_offsets_partition (sent_list_partition p) p.
Proof.
  intros (Hp & He & Ht). unfold decode_list_offsets_partition, sent_list_partition. kafka_fields. destruct p. apply reads_ret.
Qed.

Lemma list_topic_reads t : list_topic_ok t -> reads decode_list_offsets_topic (sent_list_topic t) t.
Proof.
  intros (Hn & Hc & Hp). unfold decode_list_offsets_topic, sent_list_topic.
  eapply reads_bind; [by apply (reads_name true)|]. eapply (reads_array true _ _ (fun p => p)); [done| |].
  - eapply Forall_impl; [done|]. intros p. apply list_partition_reads.
  - kafka_fields. rewrite Forall_map_id. destruct t. apply reads_ret.
Qed.

Lemma list_offsets_reads req : list_offsets_ok req -> reads decode_list_offsets_request (client_list_offsets req) req.
Proof.
  intros (Hr & Hi & Hc & Ht). unfold decode_list_offsets_request, client_list_offsets.
  do 2 (eapply reads_bind; [solve [eauto with kafka_field]|]). eapply (reads_array true _ _ (fun t => t)); [done| |].
  - eapply Forall_impl; [done|]. intros t. apply list_topic_reads.
  - kafka_fields. rewrite Forall_map_id. destruct req. apply reads_ret.
Qed.

Definition sent_flag (b : bool) : list byte := [if b then 1 else 0].
Definition client_metadata (req : KMetadataRequest) : list byte :=
  match kmq_topics req with
  | None => kput_compact_array_len (-1) []
  | Some topics => sent_array true (fun name => sent_name true name ++ tagged_fields tags) topics
  end ++ sent_flag (kmq_allow_auto_topic_creation req) ++ sent_flag (kmq_include_cluster_authorized_operations req)
    ++ sent_flag (kmq_include_topic_authorized_operations req) ++ tagged_fields tags.

Definition metadata_ok (req : KMetadataRequest) : Prop :=
  from_option (fun topics => count_ok topics /\ Forall compact_string topics) True (kmq_topics req).

Lemma metadata_reads req : metadata_ok req -> reads decode_metadata_request (client_metadata req) req.
Proof.
  destruct req as [topics auto cluster topic]. unfold metadata_ok, client_metadata, decode_metadata_request, sent_flag.
  cbn [kmq_topics kmq_allow_auto_topic_creation kmq_include_cluster_authorized_operations kmq_include_topic_authorized_operations].
  destruct topics as [topics|]; cbn [from_option].
  - intros [Hc Hn]. unfold sent_array. rewrite <- !app_assoc.
    eapply reads_bind; [apply reads_kget_compact_array_len; unfold count_ok in Hc; lia|].
    rewrite (proj2 (Z.leb_le 0 _)) by lia.
    eapply reads_bind; [apply (reads_bind_last _ Some), (reads_loop decode_metadata_topic); [done|]|].
    + eapply Forall_impl; [done|]. intros name Hname. unfold decode_metadata_topic.
      eapply reads_bind; [by apply (reads_name true)|]. kafka_fields. apply reads_ret.
    + kafka_fields. apply reads_ret.
  - intros _. eapply reads_bind; [by apply (reads_kget_compact_array_len (-1))|]. cbn [Z.leb Z.compare].
    rewrite <- (app_nil_l ([_] ++ _)). eapply reads_bind; [apply reads_ret|]. kafka_fields. apply reads_ret.
Qed.
End Client.

(** ** The protocol *)

Inductive KafkaRequest := AskProduce (r : KProduceRequest) | AskFetch (forgotten : list (string * list Z)) (r : KFetchRequest)
  | AskListOffsets (r : KListOffsetsRequest) | AskMetadata (r : KMetadataRequest).

Definition request_key (r : KafkaRequest) : KApiKey :=
  match r with AskProduce _ => KProduce | AskFetch _ _ => KFetch | AskListOffsets _ => KListOffsets | AskMetadata _ => KMetadata end.

(** The versions the client below speaks: those the broker announces, but for the classic versions of
    ListOffsets and Metadata, which it announces and does not read ([classic_version_misread]). *)
Definition client_version (v : Z) (r : KafkaRequest) : Prop :=
  match r with
  | AskProduce _ => 0 <= v <= 9
  | AskFetch _ _ => 0 <= v <= 12
  | AskListOffsets _ => 6 <= v <= 7
  | AskMetadata _ => v = 9
  end.

(** A request of such a version whose fields fit the wire. *)
Definition request_ok (v : Z) (r : KafkaRequest) : Prop :=
  client_version v r /\
  match r with
  | AskProduce r => produce_ok v r
  | AskFetch forgotten r => fetch_ok v forgotten r
  | AskListOffsets r => list_offsets_ok r
  | AskMetadata r => metadata_ok r
  end.

Definition client_header_of (v correlation_id : Z) (client_id : option string) (r : KafkaRequest) : KRequestHeader :=
  MkKHeader (kafka_api_value (request_key r)) v correlation_id client_id.

(** The body and the frame a client sends. *)
Definition client_body (tags : list (Z * list byte)) (v : Z) (r : KafkaRequest) : list byte :=
  match r with
  | AskProduce r => client_produce tags v r
  | AskFetch forgotten r => client_fetch tags v forgotten r
  | AskListOffsets r => client_list_offsets tags r
  | AskMetadata r => client_metadata tags r
  end.

Definition client_frame (tags : list (Z * list byte)) (h : KRequestHeader) (r : KafkaRequest) : list byte :=
  client_header tags h ++ client_body tags (kh_api_version h) r.

(** The request as the version carries it; what a fetch session forgets is dropped. *)
Definition request_at (v : Z) (r : KafkaRequest) : KafkaRequest :=
  match r with AskProduce r => AskProduce (produce_at v r) | AskFetch _ r => AskFetch [] (fetch_at v r) | r => r end.

(** The decoders, chosen by the key of the header. *)
Definition decode_body (key : KApiKey) (v : Z) : Reader KafkaRequest :=
  match key with
  | KProduce => let! r := decode_produce_request v in ret (AskProduce r)
  | KFetch => let! r := decode_fetch_request v in ret (AskFetch [] r)
  | KListOffsets => let! r := decode_list_offsets_request in ret (AskListOffsets r)
  | KMetadata => let! r := decode_metadata_request in ret (AskMetadata r)
  | _ => fail Unsupported ""
  end.

Definition decode_frame : Reader (KRequestHeader * KafkaRequest) :=
  let! h := decode_request_header in
  let! r := decode_body (kafka_api_key (kh_api_key h)) (kh_api_version h) in
  ret (h, r).

Lemma body_reads tags v r :
  tagged_ok tags -> request_ok v r -> reads (decode_body (request_key r) v) (client_body tags v r) (request_at v r).
Proof.
  intros Htags [_ Hr]. destruct r; cbn [request_key decode_body request_at client_body] in *;
    (eapply reads_bind_last_eq; [|reflexivity]).
  - by apply produce_reads. - by apply fetch_reads. - by apply list_offsets_reads. - by apply metadata_reads.
Qed.

Lemma request_key_read v correlation_id client_id r :
  kafka_api_key (kh_api_key (client_header_of v correlation_id client_id r)) = request_key r.
Proof. by destruct r. Qed.

(** The broker reads what Kafka clients send: a frame of any of the four data requests, at any
    announced version of Produce and Fetch and the flexible ones of ListOffsets and Metadata, with any
    tagged fields in every place that takes them, is read as its header and that request, with the
    fields the version lacks at their defaults, to its last byte. *)
Theorem kafka_requests_read (tags : list (Z * list byte)) (v correlation_id : Z) (client_id : option string) (r : KafkaRequest)
    (Htags : tagged_ok tags) (Hr : request_ok v r)
    (Hh : kheader_ok (client_header_of v correlation_id client_id r)) :
  let h := client_header_of v correlation_id client_id r in
  decode_frame (MkDecoder (client_frame tags h r) 0)
  = (Ok (h, request_at v r), MkDecoder (client_frame tags h r) (length (client_frame tags h r))).
Proof.
  cbv zeta. set (h := client_header_of v correlation_id client_id r) in *.
  assert (H : reads decode_frame (client_frame tags h r) (h, request_at v r)).
  { unfold decode_frame, client_frame. eapply reads_bind; [by apply request_header_reads|]. apply (reads_bind_last _ (fun r => (h, r))).
    unfold h. rewrite request_key_read. by apply body_reads. }
  rewrite (H (MkDecoder (client_frame tags h r) 0)); [done|]. exists []. cbn. by rewrite app_nil_r.
Qed.

Definition sample_produce : KProduceRequest :=
  MkKProduceRequest (Some "tx"%string) (-1) 1000 [MkKProduceTopic "t" [MkKProducePartition 0 [7; 8]; MkKProducePartition 1 []]].

Lemma kafka_requests_read_witness :
  let h := client_header_of 9 5 (Some "c"%string) (AskProduce sample_produce) in
  decode_frame (MkDecoder (client_frame [(300, [1; 2])] h (AskProduce sample_produce)) 0)
  = (Ok (h, AskProduce sample_produce),
     MkDecoder (client_frame [(300, [1; 2])] h (AskProduce sample_produce))
       (length (client_frame [(300, [1; 2])] h (AskProduce sample_produce)))).
Proof.
  assert (Ht : tagged_ok [(300, [1; 2])]) by (split; [unfold u_range; cbn; lia|repeat constructor; cbn; lia]).
  assert (Hr : request_ok 9 (AskProduce sample_produce)).
  { split; [cbn; lia|]. cbn. unfold produce_ok, count_ok, optional_name_ok, i_range. cbn.
    repeat first [lia|split|constructor]; cbn; unfold count_ok, i_range, name_ok, blob_ok, compact_string, compact_bytes; cbn; lia. }
  assert (Hh : kheader_ok (client_header_of 9 5 (Some "c"%string) (AskProduce sample_produce)))
    by (unfold kheader_ok, i_range, optional_name_ok, name_ok, short_string; cbn; lia).
  exact (kafka_requests_read [(300, [1; 2])] 9 5 (Some "c"%string) (AskProduce sample_produce) Ht Hr Hh).
Defined.

(** A classic version of ListOffsets, which the broker announces, is read in the flexible format: a
    request of version 1 for the end of partition 0 of a topic is read as a request for nothing. *)
Definition classic_list_offsets : list byte :=
  store_be 4 (-1) ++ sent_array false (fun name => sent_name false name
    ++ sent_array false (fun p : Z * Z => store_be 4 p.1 ++ store_be 8 p.2) [(0, kListOffsetsLatest)]) ["topic"%string].

Lemma classic_version_misread :
  MkKRange (kafka_api_value KListOffsets) 0 7 ∈ supported_apis /\ is_flexible KListOffsets 1 = false /\
  (decode_list_offsets_request (MkDecoder classic_list_offsets 0)).1 = Ok (MkKListRequest (-1) 0 []).
Proof. split; [unfold supported_apis; set_solver|]. vm_compute. done. Qed.
