(* ===== verification/KafkaReplies.v ===== *)
(** * The responses of the Kafka facade

    What each encoder of [KafkaApis.v] appends, and a client of the same version that reads it back.
    The client follows the protocol: it reads the arrays the broker always leaves empty, and skips any
    tagged fields. *)
From Stdlib Require Import ZArith Lia Ascii String.
From stdpp Require Import base list gmap strings.
From S2P Require Import Prelude Bytes Codec KafkaCodec KafkaApis KafkaWire.
#[local] Open Scope Z_scope.

(** ** What is appended *)

Lemma kput_name_app f s out : kput_name f s out = out ++ sent_name f s.
Proof.
  unfold sent_name, kput_name. destruct f; [by rewrite !(kput_compact_string_app s)|by rewrite !(kput_string_app s)].
Qed.

Lemma kput_optional_app f s out :
  (if f : bool then kput_compact_nullable_string else kput_nullable_string) s out = out ++ sent_optional f s.
Proof.
  unfold sent_optional. destruct f, s as [s|]; cbn [kput_compact_nullable_string kput_nullable_string];
    [by rewrite !(kput_compact_string_app s)|done|by rewrite !(kput_string_app s)|done].
Qed.

Lemma kput_compact_optional_app s out : kput_compact_nullable_string s out = out ++ sent_optional true s.
Proof. apply (kput_optional_app true). Qed.

Lemma kput_blob_app f bs out :
  (if f : bool then kput_compact_nullable_bytes else kput_nullable_bytes) bs out = out ++ sent_blob f bs.
Proof.
  unfold sent_blob. destruct f, bs as [bs|]; cbn [kput_compact_nullable_bytes kput_nullable_bytes];
    [by rewrite !(kput_compact_bytes_app bs)|done|by rewrite !(kput_bytes_app bs)|done].
Qed.

Lemma kput_count_app f n out : kput_count f n out = out ++ kput_count f n [].
Proof. unfold kput_count. destruct f; [|done]. unfold kput_compact_array_len. by destruct (n <? 0). Qed.

Lemma kput_when_app b put bs out : (forall o, put o = o ++ bs) -> kput_when b put out = out ++ bytes_when b bs.
Proof. intros H. destruct b; cbn; [apply H|by rewrite app_nil_r]. Qed.

Lemma kput_tags_app f out : kput_tags f out = out ++ bytes_when f (tagged_fields []).
Proof. destruct f; cbn; [done|by rewrite app_nil_r]. Qed.

Lemma count_i32_small {A} (xs : list A) : count_ok xs -> count_i32 xs = Z.of_nat (length xs).
Proof. intros H. apply to_i_nonneg; unfold count_ok in H; lia. Qed.

(** A counted loop of an encoder. *)
Lemma kput_array_app {A} f (put : A -> Encoder -> Encoder) (enc : A -> list byte) (xs : list A) out :
  count_ok xs -> Forall (fun x => forall o, put x o = o ++ enc x) xs ->
  foldl (fun o x => put x o) (kput_count f (count_i32 xs) out) xs = out ++ sent_array f enc xs.
Proof.
  intros Hn Hx. rewrite count_i32_small, kput_count_app by done. unfold sent_array. rewrite app_assoc.
  generalize (out ++ kput_count f (Z.of_nat (length xs)) []). clear Hn out.
  induction Hx as [|x xs Hx _ IH]; intros out; cbn [foldl fmap list_fmap concat]; [by rewrite app_nil_r|].
  by rewrite Hx, IH, <- app_assoc.
Qed.

(** Turns a chain of [put]s into one concatenation. *)
Ltac kafka_flatten :=
  rewrite ?kput_name_app, ?kput_optional_app, ?kput_compact_optional_app, ?kput_blob_app, ?kput_tags_app;
  repeat (erewrite kput_when_app by (intros; first [apply kput_optional_app|apply kput_count_app|reflexivity]));
  unfold kput_bool, kput_i8, kput_i16, kput_i32, kput_i64; rewrite <- ?app_assoc, ?app_nil_l.

(** ** Produce *)

Definition produce_has_throttle (v : Z) : bool := 1 <=? v.
Definition produce_has_append_time (v : Z) : bool := 2 <=? v.
Definition produce_has_log_start (v : Z) : bool := 5 <=? v.
Definition produce_has_errors (v : Z) : bool := 8 <=? v.

Definition wire_produce_partition (v : Z) (p : KProducePartitionResponse) : list byte :=
  store_be 4 (kpp_index p) ++ store_be 2 (kpp_error_code p) ++ store_be 8 (kpp_base_offset p)
    ++ bytes_when (produce_has_append_time v) (store_be 8 (kpp_log_append_time_ms p))
    ++ bytes_when (produce_has_log_start v) (store_be 8 (kpp_log_start_offset p))
    ++ bytes_when (produce_has_errors v) (kput_count (produce_flexible v) 0 [])
    ++ bytes_when (produce_has_errors v) (sent_optional (produce_flexible v) (kpp_error_message p))
    ++ bytes_when (produce_flexible v) (tagged_fields []).
Definition wire_produce_topic (v : Z) (t : KProduceTopicResponse) : list byte :=
  sent_name (produce_flexible v) (kptr_name t)
    ++ sent_array (produce_flexible v) (wire_produce_partition v) (kptr_partitions t)
    ++ bytes_when (produce_flexible v) (tagged_fields []).
Definition wire_produce (v : Z) (r : KProduceResponse) : list byte :=
  sent_array (produce_flexible v) (wire_produce_topic v) (kpr_topics r)
    ++ bytes_when (produce_has_throttle v) (store_be 4 (kpr_throttle_time_ms r))
    ++ bytes_when (produce_flexible v) (tagged_fields []).

Definition produce_partition_reply_ok (f : bool) (p : KProducePartitionResponse) : Prop :=
  i_range 32 (kpp_index p) /\ i_range 16 (kpp_error_code p) /\ i_range 64 (kpp_base_offset p) /\
  i_range 64 (kpp_log_append_time_ms p) /\ i_range 64 (kpp_log_start_offset p) /\ optional_name_ok f (kpp_error_message p).
Definition produce_topic_reply_ok (f : bool) (t : KProduceTopicResponse) : Prop :=
  name_ok f (kptr_name t) /\ count_ok (kptr_partitions t) /\ Forall (produce_partition_reply_ok f) (kptr_partitions t).
Definition produce_reply_ok (v : Z) (r : KProduceResponse) : Prop :=
  i_range 32 (kpr_throttle_time_ms r) /\ count_ok (kpr_topics r) /\
  Forall (produce_topic_reply_ok (produce_flexible v)) (kpr_topics r).

Lemma encode_produce_writes v r out :
  produce_reply_ok v r -> encode_produce_response r v out = out ++ wire_produce v r.
Proof.
  intros (_ & Hn & Ht). unfold encode_produce_response, wire_produce. change (is_flexible KProduce v) with (produce_flexible v).
  erewrite kput_array_app; [kafka_flatten; reflexivity|done|].
  eapply Forall_impl; [done|]. intros t (_ & Hc & Hp) o. unfold encode_produce_topic, wire_produce_topic.
  erewrite kput_array_app; [kafka_flatten; reflexivity|done|].
  apply Forall_forall. intros p _ o'. unfold encode_produce_partition, wire_produce_partition. kafka_flatten. reflexivity.
Qed.

(** The client. *)
Definition read_record_error (f : bool) : Reader unit :=
  let! index := kget_i32 in
  let! message := (if f then kget_compact_nullable_string else kget_nullable_string) in kget_tags f.

Definition read_empty_array {A} (f : bool) (element : Reader A) : Reader (list A) :=
  let! n := kget_count f in kget_loop element n.

Definition read_produce_partition (v : Z) : Reader KProducePartitionResponse :=
  let f := produce_flexible v in
  let! index := kget_i32 in
  let! error := kget_i16 in
  let! base := kget_i64 in
  let! time := gate (produce_has_append_time v) kget_i64 (-1) in
  let! start := gate (produce_has_log_start v) kget_i64 (-1) in
  let! errors := gate (produce_has_errors v) (read_empty_array f (read_record_error f)) [] in
  let! message := gate (produce_has_errors v) (if f then kget_compact_nullable_string else kget_nullable_string) None in
  let! tags := kget_tags f in
  ret (MkKProducePartitionResponse index error base time start message).
Definition read_produce_topic (v : Z) : Reader KProduceTopicResponse :=
  let f := produce_flexible v in
  let! name := kget_name f in
  let! n := kget_count f in
  let! partitions := kget_loop (read_produce_partition v) n in
  let! tags := kget_tags f in
  ret (MkKProduceTopicResponse name partitions).
Definition read_produce (v : Z) : Reader KProduceResponse :=
  let f := produce_flexible v in
  let! n := kget_count f in
  let! topics := kget_loop (read_produce_topic v) n in
  let! throttle := gate (produce_has_throttle v) kget_i32 0 in
  let! tags := kget_tags f in
  ret (MkKProduceResponse topics throttle).

(** The response as the version can carry it. *)
Definition produce_partition_reply_at (v : Z) (p : KProducePartitionResponse) : KProducePartitionResponse :=
  MkKProducePartitionResponse (kpp_index p) (kpp_error_code p) (kpp_base_offset p)
    (present (produce_has_append_time v) (kpp_log_append_time_ms p) (-1))
    (present (produce_has_log_start v) (kpp_log_start_offset p) (-1))
    (present (produce_has_errors v) (kpp_error_message p) None).
Definition produce_reply_at (v : Z) (r : KProduceResponse) : KProduceResponse :=
  MkKProduceResponse
    ((fun t => MkKProduceTopicResponse (kptr_name t) (produce_partition_reply_at v <$> kptr_partitions t)) <$> kpr_topics r)
    (present (produce_has_throttle v) (kpr_throttle_time_ms r) 0).

Lemma tagged_none_ok : tagged_ok [].
Proof. split; [unfold u_range; cbn; lia|constructor]. Qed.
#[local] Hint Resolve tagged_none_ok : kafka_field.

Lemma reads_empty_array {A} f (m : Reader A) : reads (read_empty_array f m) (kput_count f 0 []) [].
Proof.
  apply reads_end. eapply (reads_bind _ _ _ _ 0).
  - destruct f; [apply (reads_kget_compact_array_len 0)|apply (reads_kget_array_len 0); unfold i_range]; lia.
  - apply reads_ret.
Qed.
#[local] Hint Resolve reads_empty_array : kafka_field.

Lemma produce_partition_reads_back v p :
  produce_partition_reply_ok (produce_flexible v) p ->
  reads (read_produce_partition v) (wire_produce_partition v p) (produce_partition_reply_at v p).
Proof.
  intros (Hi & He & Hb & Ht & Hs & Hm). unfold read_produce_partition, wire_produce_partition.
  kafka_fields. apply reads_ret.
Qed.

Lemma produce_reads_back v r :
  produce_reply_ok v r -> reads (read_produce v) (encode_produce_response r v []) (produce_reply_at v r).
Proof.
  intros Hr. rewrite encode_produce_writes by done. cbn [app]. destruct Hr as (Hth & Hn & Ht).
  unfold read_produce, wire_produce. eapply (reads_array _ _ _ _); [done| |kafka_fields; apply reads_ret].
  eapply Forall_impl; [done|]. intros t (Hname & Hc & Hp). unfold read_produce_topic, wire_produce_topic.
  eapply reads_bind; [by apply reads_name|]. eapply (reads_array _ _ _ _); [done| |kafka_fields; apply reads_ret].
  eapply Forall_impl; [done|]. intros p. apply produce_partition_reads_back.
Qed.

(** ** Fetch *)

Definition fetch_has_throttle (v : Z) : bool := 1 <=? v.
Definition fetch_has_stable (v : Z) : bool := 4 <=? v.
Definition fetch_has_error (v : Z) : bool := 7 <=? v.
Definition fetch_has_preferred (v : Z) : bool := 11 <=? v.

Definition wire_fetch_partition (v : Z) (p : KFetchPartitionResponse) : list byte :=
  store_be 4 (kfr_partition_index p) ++ store_be 2 (kfr_error_code p) ++ store_be 8 (kfr_high_watermark p)
    ++ bytes_when (fetch_has_stable v) (store_be 8 (kfr_last_stable_offset p))
    ++ bytes_when (fetch_has_log_start v) (store_be 8 (kfr_log_start_offset p))
    ++ bytes_when (fetch_has_stable v) (kput_count (fetch_flexible v) 0 [])
    ++ bytes_when (fetch_has_preferred v) (store_be 4 (kfr_preferred_read_replica p))
    ++ sent_blob (fetch_flexible v) (Some (kfr_records p))
    ++ bytes_when (fetch_flexible v) (tagged_fields []).
Definition wire_fetch_topic (v : Z) (t : KFetchTopicResponse) : list byte :=
  sent_name (fetch_flexible v) (kftr_topic t)
    ++ sent_array (fetch_flexible v) (wire_fetch_partition v) (kftr_partitions t)
    ++ bytes_when (fetch_flexible v) (tagged_fields []).
Definition wire_fetch (v : Z) (r : KFetchResponse) : list byte :=
  bytes_when (fetch_has_throttle v) (store_be 4 (kfs_throttle_time_ms r))
    ++ bytes_when (fetch_has_error v) (store_be 2 (kfs_error_code r))
    ++ bytes_when (fetch_has_error v) (store_be 4 (kfs_session_id r))
    ++ sent_array (fetch_flexible v) (wire_fetch_topic v) (kfs_topics r)
    ++ bytes_when (fetch_flexible v) (tagged_fields []).

Definition fetch_partition_reply_ok (f : bool) (p : KFetchPartitionResponse) : Prop :=
  i_range 32 (kfr_partition_index p) /\ i_range 16 (kfr_error_code p) /\ i_range 64 (kfr_high_watermark p) /\
  i_range 64 (kfr_last_stable_offset p) /\ i_range 64 (kfr_log_start_offset p) /\
  i_range 32 (kfr_preferred_read_replica p) /\ blob_ok f (kfr_records p).
Definition fetch_topic_reply_ok (f : bool) (t : KFetchTopicResponse) : Prop :=
  name_ok f (kftr_topic t) /\ count_ok (kftr_partitions t) /\ Forall (fetch_partition_reply_ok f) (kftr_partitions t).
Definition fetch_reply_ok (v : Z) (r : KFetchResponse) : Prop :=
  (i_range 32 (kfs_throttle_time_ms r) /\ i_range 16 (kfs_error_code r) /\ i_range 32 (kfs_session_id r)) /\
  count_ok (kfs_topics r) /\ Forall (fetch_topic_reply_ok (fetch_flexible v)) (kfs_topics r).

Lemma encode_fetch_writes v r out : fetch_reply_ok v r -> encode_fetch_response r v out = out ++ wire_fetch v r.
Proof.
  intros (_ & Hn & Ht). unfold encode_fetch_response, wire_fetch. change (is_flexible KFetch v) with (fetch_flexible v).
  erewrite kput_array_app; [kafka_flatten; reflexivity|done|].
  eapply Forall_impl; [done|]. intros t (_ & Hc & Hp) o. unfold encode_fetch_topic, wire_fetch_topic.
  erewrite kput_array_app; [kafka_flatten; reflexivity|done|].
  apply Forall_forall. intros p _ o'. unfold encode_fetch_partition, wire_fetch_partition. kafka_flatten. reflexivity.
Qed.

Definition read_aborted (f : bool) : Reader unit :=
  let! producer := kget_i64 in let! first := kget_i64 in kget_tags f.

Definition read_fetch_partition (v : Z) : Reader KFetchPartitionResponse :=
  let f := fetch_flexible v in
  let! index := kget_i32 in
  let! error := kget_i16 in
  let! hw := kget_i64 in
  let! stable := gate (fetch_has_stable v) kget_i64 (-1) in
  let! start := gate (fetch_has_log_start v) kget_i64 (-1) in
  let! aborted := gate (fetch_has_stable v) (read_empty_array f (read_aborted f)) [] in
  let! replica := gate (fetch_has_preferred v) kget_i32 (-1) in
  let! records := (if f then kget_compact_nullable_bytes else kget_nullable_bytes) in
  let! tags := kget_tags f in
  ret (MkKFetchPartitionResponse index error hw stable start replica (default [] records)).
Definition read_fetch_topic (v : Z) : Reader KFetchTopicResponse :=
  let f := fetch_flexible v in
  let! name := kget_name f in
  let! n := kget_count f in
  let! partitions := kget_loop (read_fetch_partition v) n in
  let! tags := kget_tags f in
  ret (MkKFetchTopicResponse name partitions).
Definition read_fetch (v : Z) : Reader KFetchResponse :=
  let f := fetch_flexible v in
  let! throttle := gate (fetch_has_throttle v) kget_i32 0 in
  let! error := gate (fetch_has_error v) kget_i16 0 in
  let! session := gate (fetch_has_error v) kget_i32 0 in
  let! n := kget_count f in
  let! topics := kget_loop (read_fetch_topic v) n in
  let! tags := kget_tags f in
  ret (MkKFetchResponse throttle error session topics).

Definition fetch_partition_reply_at (v : Z) (p : KFetchPartitionResponse) : KFetchPartitionResponse :=
  MkKFetchPartitionResponse (kfr_partition_index p) (kfr_error_code p) (kfr_high_watermark p)
    (present (fetch_has_stable v) (kfr_last_stable_offset p) (-1)) (present (fetch_has_log_start v) (kfr_log_start_offset p) (-1))
    (present (fetch_has_preferred v) (kfr_preferred_read_replica p) (-1)) (kfr_records p).
Definition fetch_reply_at (v : Z) (r : KFetchResponse) : KFetchResponse :=
  MkKFetchResponse (present (fetch_has_throttle v) (kfs_throttle_time_ms r) 0)
    (present (fetch_has_error v) (kfs_error_code r) 0) (present (fetch_has_error v) (kfs_session_id r) 0)
    ((fun t => MkKFetchTopicResponse (kftr_topic t) (fetch_partition_reply_at v <$> kftr_partitions t)) <$> kfs_topics r).

Lemma fetch_partition_reads_back v p :
  fetch_partition_reply_ok (fetch_flexible v) p ->
  reads (read_fetch_partition v) (wire_fetch_partition v p) (fetch_partition_reply_at v p).
Proof.
  intros (Hi & He & Hw & Hs & Hl & Hp & Hr). unfold read_fetch_partition, wire_fetch_partition.
  do 7 (eapply reads_bind; [solve [eauto with kafka_field]|]).
  eapply reads_bind; [by apply (reads_blob _ (Some (kfr_records p)))|]. kafka_fields. apply reads_ret.
Qed.

Lemma fetch_reads_back v r : fetch_reply_ok v r -> reads (read_fetch v) (encode_fetch_response r v []) (fetch_reply_at v r).
Proof.
  intros Hr. rewrite encode_fetch_writes by done. cbn [app]. destruct Hr as ((Hth & He & Hs) & Hn & Ht).
  unfold read_fetch, wire_fetch. do 3 (eapply reads_bind; [solve [eauto with kafka_field]|]).
  eapply (reads_array _ _ _ _); [done| |kafka_fields; apply reads_ret].
  eapply Forall_impl; [done|]. intros t (Hname & Hc & Hp). unfold read_fetch_topic, wire_fetch_topic.
  eapply reads_bind; [by apply reads_name|]. eapply (reads_array _ _ _ _); [done| |kafka_fields; apply reads_ret].
  eapply Forall_impl; [done|]. intros p. apply fetch_partition_reads_back.
Qed.

(** ** ListOffsets, ApiVersions and Metadata, in their flexible format *)

Definition wire_list_partition (p : KListOffsetPartitionResponse) : list byte :=
  store_be 4 (klr_partition_index p) ++ store_be 2 (klr_error_code p) ++ store_be 8 (klr_timestamp p)
    ++ store_be 8 (klr_offset p) ++ store_be 4 (klr_leader_epoch p) ++ tagged_fields [].
Definition wire_list_topic (t : KListOffsetTopicResponse) : list byte :=
  sent_name true (kltr_name t) ++ sent_array true wire_list_partition (kltr_partitions t) ++ tagged_fields [].
Definition wire_list_offsets (r : KListOffsetsResponse) : list byte :=
  store_be 4 (kls_throttle_time_ms r) ++ sent_array true wire_list_topic (kls_topics r) ++ tagged_fields [].

Definition list_partition_reply_ok (p : KListOffsetPartitionResponse) : Prop :=
  i_range 32 (klr_partition_index p) /\ i_range 16 (klr_error_code p) /\ i_range 64 (klr_timestamp p) /\
  i_range 64 (klr_offset p) /\ i_range 32 (klr_leader_epoch p).
Definition list_topic_reply_ok (t : KListOffsetTopicResponse) : Prop :=
  compact_string (kltr_name t) /\ count_ok (kltr_partitions t) /\ Forall list_partition_reply_ok (kltr_partitions t).
Definition list_offsets_reply_ok (r : KListOffsetsResponse) : Prop :=
  i_range 32 (kls_throttle_time_ms r) /\ count_ok (kls_topics r) /\ Forall list_topic_reply_ok (kls_topics r).

(** The names of the flexible format that the encoders call directly. *)
Ltac flexible_names :=
  change kput_compact_string with (kput_name true); change kput_compact_array_len with (kput_count true);
  change kput_empty_tagged_fields with (kput_tags true).

Lemma encode_list_offsets_writes r out :
  list_offsets_reply_ok r -> encode_list_offsets_response r out = out ++ wire_list_offsets r.
Proof.
  intros (_ & Hn & Ht). unfold encode_list_offsets_response, wire_list_offsets. flexible_names.
  erewrite kput_array_app; [kafka_flatten; reflexivity|done|].
  eapply Forall_impl; [done|]. intros t (_ & Hc & Hp) o. unfold encode_list_offsets_topic, wire_list_topic. flexible_names.
  erewrite kput_array_app; [kafka_flatten; reflexivity|done|].
  apply Forall_forall. intros p _ o'. unfold encode_list_offsets_partition, wire_list_partition. flexible_names.
  kafka_flatten. reflexivity.
Qed.

Definition read_list_partition : Reader KListOffsetPartitionResponse :=
  let! index := kget_i32 in
  let! error := kget_i16 in
  let! timestamp := kget_i64 in
  let! offset := kget_i64 in
  let! epoch := kget_i32 in
  let! tags := skip_tagged_fields in
  ret (MkKListPartitionResponse index error timestamp offset epoch).
Definition read_list_topic : Reader KListOffsetTopicResponse :=
  let! name := kget_name true in
  let! n := kget_count true in
  let! partitions := kget_loop read_list_partition n in
  let! tags := skip_tagged_fields in
  ret (MkKListTopicResponse name partitions).
Definition read_list_offsets : Reader KListOffsetsResponse :=
  let! throttle := kget_i32 in
  let! n := kget_count true in
  let! topics := kget_loop read_list_topic n in
  let! tags := skip_tagged_fields in
  ret (MkKListResponse throttle topics).

Lemma list_offsets_reads_back r :
  list_offsets_reply_ok r -> reads read_list_offsets (encode_list_offsets_response r []) r.
Proof.
  intros Hr. rewrite encode_list_offsets_writes by done. cbn [app]. destruct Hr as (Hth & Hn & Ht).
  unfold read_list_offsets, wire_list_offsets. eapply reads_bind; [by apply reads_kget_i32|].
  eapply (reads_array _ _ _ (fun t => t)); [done| |kafka_fields; rewrite Forall_map_id; destruct r; apply reads_ret].
  eapply Forall_impl; [done|]. intros t (Hname & Hc & Hp). unfold read_list_topic, wire_list_topic.
  eapply reads_bind; [by apply reads_name|].
  eapply (reads_array _ _ _ (fun p => p)); [done| |kafka_fields; rewrite Forall_map_id; destruct t; apply reads_ret].
  eapply Forall_impl; [done|]. intros p (H1 & H2 & H3 & H4 & H5). unfold read_list_partition, wire_list_partition.
  kafka_fields. destruct p. apply reads_ret.
Qed.

Definition wire_api_range (a : KApiVersionRange) : list byte :=
  store_be 2 (kr_api_key a) ++ store_be 2 (kr_min_version a) ++ store_be 2 (kr_max_version a) ++ tagged_fields [].
Definition wire_api_versions (r : KApiVersionsResponse) : list byte :=
  store_be 2 (kav_error_code r) ++ sent_array true wire_api_range (kav_api_keys r)
    ++ store_be 4 (kav_throttle_time_ms r) ++ tagged_fields [].
Definition api_range_ok (a : KApiVersionRange) : Prop :=
  i_range 16 (kr_api_key a) /\ i_range 16 (kr_min_version a) /\ i_range 16 (kr_max_version a).
Definition api_versions_ok (r : KApiVersionsResponse) : Prop :=
  i_range 16 (kav_error_code r) /\ i_range 32 (kav_throttle_time_ms r) /\
  count_ok (kav_api_keys r) /\ Forall api_range_ok (kav_api_keys r).

Definition read_api_range : Reader KApiVersionRange :=
  let! key := kget_i16 in let! min := kget_i16 in let! max := kget_i16 in let! tags := skip_tagged_fields in
  ret (MkKRange key min max).
Definition read_api_versions : Reader KApiVersionsResponse :=
  let! error := kget_i16 in
  let! n := kget_count true in
  let! keys := kget_loop read_api_range n in
  let! throttle := kget_i32 in
  let! tags := skip_tagged_fields in
  ret (MkKApiVersions error keys throttle).

Lemma api_versions_reads_back r : api_versions_ok r -> reads read_api_versions (encode_api_versions_response r []) r.
Proof.
  intros (He & Hth & Hn & Ha). replace (encode_api_versions_response r []) with (wire_api_versions r).
  - unfold read_api_versions, wire_api_versions. eapply reads_bind; [by apply reads_kget_i16|].
    eapply (reads_array _ _ _ (fun a => a)); [done| |kafka_fields; rewrite Forall_map_id; destruct r; apply reads_ret].
    eapply Forall_impl; [done|]. intros a (H1 & H2 & H3). unfold read_api_range, wire_api_range.
    kafka_fields. destruct a. apply reads_ret.
  - unfold encode_api_versions_response, wire_api_versions. flexible_names.
    erewrite kput_array_app; [kafka_flatten; reflexivity|done|].
    apply Forall_forall. intros a _ o. unfold encode_api_range, wire_api_range. flexible_names. kafka_flatten. reflexivity.
Qed.

Definition wire_int32_array (xs : list Z) : list byte := sent_array true (store_be 4) xs.
Definition wire_metadata_broker (b : KMetadataBroker) : list byte :=
  store_be 4 (kmb_node_id b) ++ sent_name true (kmb_host b) ++ store_be 4 (kmb_port b) ++ sent_optional true (kmb_rack b)
    ++ tagged_fields [].
Definition wire_metadata_partition (p : KMetadataPartition) : list byte :=
  store_be 2 (kmp_error_code p) ++ store_be 4 (kmp_partition_index p) ++ store_be 4 (kmp_leader_id p)
    ++ store_be 4 (kmp_leader_epoch p) ++ wire_int32_array (kmp_replica_nodes p) ++ wire_int32_array (kmp_isr_nodes p)
    ++ wire_int32_array (kmp_offline_replicas p) ++ tagged_fields [].
Definition wire_metadata_topic (t : KMetadataTopic) : list byte :=
  store_be 2 (kmt_error_code t) ++ sent_name true (kmt_name t) ++ sent_flag (kmt_is_internal t)
    ++ sent_array true wire_metadata_partition (kmt_partitions t) ++ store_be 4 (kmt_topic_authorized_operations t)
    ++ tagged_fields [].
Definition wire_metadata (r : KMetadataResponse) : list byte :=
  store_be 4 (kms_throttle_time_ms r) ++ sent_array true wire_metadata_broker (kms_brokers r)
    ++ sent_optional true (kms_cluster_id r) ++ store_be 4 (kms_controller_id r)
    ++ sent_array true wire_metadata_topic (kms_topics r) ++ store_be 4 (kms_cluster_authorized_operations r)
    ++ tagged_fields [].

Definition nodes_ok (xs : list Z) : Prop := count_ok xs /\ Forall (i_range 32) xs.
Definition metadata_broker_ok (b : KMetadataBroker) : Prop :=
  i_range 32 (kmb_node_id b) /\ compact_string (kmb_host b) /\ i_range 32 (kmb_port b) /\ optional_name_ok true (kmb_rack b).
Definition metadata_partition_ok (p : KMetadataPartition) : Prop :=
  i_range 16 (kmp_error_code p) /\ i_range 32 (kmp_partition_index p) /\ i_range 32 (kmp_leader_id p) /\
  i_range 32 (kmp_leader_epoch p) /\ nodes_ok (kmp_replica_nodes p) /\ nodes_ok (kmp_isr_nodes p) /\
  nodes_ok (kmp_offline_replicas p).
Definition metadata_topic_ok (t : KMetadataTopic) : Prop :=
  i_range 16 (kmt_error_code t) /\ compact_string (kmt_name t) /\ count_ok (kmt_partitions t) /\
  Forall metadata_partition_ok (kmt_partitions t) /\ i_range 32 (kmt_topic_authorized_operations t).
Definition metadata_reply_ok (r : KMetadataResponse) : Prop :=
  i_range 32 (kms_throttle_time_ms r) /\ count_ok (kms_brokers r) /\ Forall metadata_broker_ok (kms_brokers r) /\
  optional_name_ok true (kms_cluster_id r) /\ i_range 32 (kms_controller_id r) /\
  count_ok (kms_topics r) /\ Forall metadata_topic_ok (kms_topics r) /\ i_range 32 (kms_cluster_authorized_operations r).

Lemma put_int32_array_app xs out : nodes_ok xs -> put_int32_array xs out = out ++ wire_int32_array xs.
Proof.
  intros [Hn _]. unfold put_int32_array. flexible_names. apply (kput_array_app true kput_i32); [done|].
  by apply Forall_forall.
Qed.

Lemma encode_metadata_partition_writes p out :
  metadata_partition_ok p -> encode_metadata_partition p out = out ++ wire_metadata_partition p.
Proof.
  intros (_ & _ & _ & _ & H1 & H2 & H3). unfold encode_metadata_partition, wire_metadata_partition. flexible_names.
  rewrite !put_int32_array_app by done. kafka_flatten. reflexivity.
Qed.

Lemma encode_metadata_topic_writes t out : metadata_topic_ok t -> encode_metadata_topic t out = out ++ wire_metadata_topic t.
Proof.
  intros (_ & _ & Hn & Hp & _). unfold encode_metadata_topic, wire_metadata_topic. flexible_names.
  rewrite (kput_array_app true encode_metadata_partition wire_metadata_partition); [|done|].
  - kafka_flatten. unfold sent_flag. by destruct (kmt_is_internal t).
  - eapply Forall_impl; [done|]. intros p Hpo o. by apply encode_metadata_partition_writes.
Qed.

Lemma encode_metadata_writes r out : metadata_reply_ok r -> encode_metadata_response r out = out ++ wire_metadata r.
Proof.
  intros (_ & Hb & _ & _ & _ & Hn & Ht & _). unfold encode_metadata_response, wire_metadata. flexible_names.
  erewrite (kput_array_app true encode_metadata_broker wire_metadata_broker); [|done|].
  - erewrite (kput_array_app true encode_metadata_topic wire_metadata_topic); [|done|].
    + change (kput_compact_nullable_string) with (if true then kput_compact_nullable_string else kput_nullable_string).
      kafka_flatten. reflexivity.
    + eapply Forall_impl; [done|]. intros t Hto o. by apply encode_metadata_topic_writes.
  - apply Forall_forall. intros b _ o. unfold encode_metadata_broker, wire_metadata_broker. flexible_names.
    kafka_flatten. reflexivity.
Qed.

Definition read_nodes : Reader (list Z) := let! n := kget_count true in let! xs := kget_loop kget_i32 n in ret xs.
Definition read_metadata_broker : Reader KMetadataBroker :=
  let! node := kget_i32 in let! host := kget_name true in let! port := kget_i32 in
  let! rack := kget_compact_nullable_string in let! tags := skip_tagged_fields in
  ret (MkKBroker node host port rack).
Definition read_metadata_partition : Reader KMetadataPartition :=
  let! error := kget_i16 in let! index := kget_i32 in let! leader := kget_i32 in let! epoch := kget_i32 in
  let! replicas := read_nodes in let! isr := read_nodes in let! offline := read_nodes in
  let! tags := skip_tagged_fields in
  ret (MkKMetadataPartition error index leader epoch replicas isr offline).
Definition read_metadata_topic : Reader KMetadataTopic :=
  let! error := kget_i16 in let! name := kget_name true in let! internal := kget_bool in
  let! n := kget_count true in let! partitions := kget_loop read_metadata_partition n in
  let! operations := kget_i32 in let! tags := skip_tagged_fields in
  ret (MkKMetadataTopic error name internal partitions operations).
Definition read_metadata : Reader KMetadataResponse :=
  let! throttle := kget_i32 in
  let! nb := kget_count true in let! brokers := kget_loop read_metadata_broker nb in
  let! cluster := kget_compact_nullable_string in let! controller := kget_i32 in
  let! nt := kget_count true in let! topics := kget_loop read_metadata_topic nt in
  let! operations := kget_i32 in let! tags := skip_tagged_fields in
  ret (MkKMetadataResponse throttle brokers cluster controller topics operations).

Lemma reads_nodes xs : nodes_ok xs -> reads read_nodes (wire_int32_array xs) xs.
Proof.
  intros [Hn Hx]. unfold read_nodes, wire_int32_array. eapply (reads_array_tail _ _ _ (fun x => x)); [done| |].
  - eapply Forall_impl; [done|]. intros x. apply reads_kget_i32.
  - rewrite Forall_map_id. apply reads_ret.
Qed.

Lemma reads_optional_name s :
  optional_name_ok true s -> reads kget_compact_nullable_string (sent_optional true s) s.
Proof. apply (reads_optional true). Qed.
#[local] Hint Resolve reads_nodes reads_optional_name : kafka_field.

Lemma metadata_topic_reads_back t : metadata_topic_ok t -> reads read_metadata_topic (wire_metadata_topic t) t.
Proof.
  intros (He & Hname & Hc & Hp & Ho). unfold read_metadata_topic, wire_metadata_topic, sent_flag.
  do 3 (eapply reads_bind; [solve [eauto with kafka_field]|]).
  eapply (reads_array true _ _ (fun p => p)); [done| |kafka_fields; rewrite Forall_map_id; destruct t; apply reads_ret].
  eapply Forall_impl; [done|]. intros p (H1 & H2 & H3 & H4 & H5 & H6 & H7).
  unfold read_metadata_partition, wire_metadata_partition. kafka_fields. destruct p. apply reads_ret.
Qed.

Lemma metadata_reads_back r : metadata_reply_ok r -> reads read_metadata (encode_metadata_response r []) r.
Proof.
  intros Hr. rewrite encode_metadata_writes by done. cbn [app]. destruct Hr as (Hth & Hnb & Hb & Hid & Hco & Hn & Ht & Ho).
  unfold read_metadata, wire_metadata. eapply reads_bind; [by apply reads_kget_i32|].
  eapply (reads_array true _ _ (fun b => b)); [done| |].
  - eapply Forall_impl; [done|]. intros b (H1 & H2 & H3 & H4). unfold read_metadata_broker, wire_metadata_broker.
    kafka_fields. destruct b. apply reads_ret.
  - do 2 (eapply reads_bind; [solve [eauto with kafka_field]|]).
    eapply (reads_array true _ _ (fun t => t)); [done| |kafka_fields; rewrite !Forall_map_id; destruct r; apply reads_ret].
    eapply Forall_impl; [done|]. intros t. apply metadata_topic_reads_back.
Qed.

(** ** The protocol *)

(** A response and the version it answers at. *)
Inductive KafkaReply := ReplyProduce (r : KProduceResponse) | ReplyFetch (r : KFetchResponse)
  | ReplyListOffsets (r : KListOffsetsResponse) | ReplyMetadata (r : KMetadataResponse) | ReplyApiVersions (r : KApiVersionsResponse).

Definition reply_ok (v : Z) (r : KafkaReply) : Prop :=
  match r with
  | ReplyProduce r => produce_reply_ok v r | ReplyFetch r => fetch_reply_ok v r
  | ReplyListOffsets r => list_offsets_reply_ok r | ReplyMetadata r => metadata_reply_ok r | ReplyApiVersions r => api_versions_ok r
  end.

Definition encode_reply (v : Z) (r : KafkaReply) : list byte :=
  match r with
  | ReplyProduce r => encode_produce_response r v [] | ReplyFetch r => encode_fetch_response r v []
  | ReplyListOffsets r => encode_list_offsets_response r [] | ReplyMetadata r => encode_metadata_response r []
  | ReplyApiVersions r => encode_api_versions_response r []
  end.

Definition client_reads (v : Z) (like : KafkaReply) : Reader KafkaReply :=
  match like with
  | ReplyProduce _ => let! r := read_produce v in ret (ReplyProduce r)
  | ReplyFetch _ => let! r := read_fetch v in ret (ReplyFetch r)
  | ReplyListOffsets _ => let! r := read_list_offsets in ret (ReplyListOffsets r)
  | ReplyMetadata _ => let! r := read_metadata in ret (ReplyMetadata r)
  | ReplyApiVersions _ => let! r := read_api_versions in ret (ReplyApiVersions r)
  end.

Definition reply_at (v : Z) (r : KafkaReply) : KafkaReply :=
  match r with
  | ReplyProduce r => ReplyProduce (produce_reply_at v r) | ReplyFetch r => ReplyFetch (fetch_reply_at v r) | r => r
  end.

Lemma reply_reads v r : reply_ok v r -> reads (client_reads v r) (encode_reply v r) (reply_at v r).
Proof.
  intros Hr. destruct r; cbn [client_reads encode_reply reply_at reply_ok] in *; apply reads_bind_last.
  - by apply produce_reads_back. - by apply fetch_reads_back. - by apply list_offsets_reads_back.
  - by apply metadata_reads_back. - by apply api_versions_reads_back.
Qed.

(** A Kafka client reads every response the broker writes: at any version the fields of that
    version come back as they were and the others at their defaults, and nothing is left unread. *)
Theorem kafka_replies_read_back (v : Z) (r : KafkaReply) (Hr : reply_ok v r) :
  client_reads v r (MkDecoder (encode_reply v r) 0)
  = (Ok (reply_at v r), MkDecoder (encode_reply v r) (length (encode_reply v r))).
Proof. rewrite (reply_reads v r Hr (MkDecoder (encode_reply v r) 0)); [done|]. exists []. cbn. by rewrite app_nil_r. Qed.

Definition sample_fetch_reply : KFetchResponse :=
  MkKFetchResponse 0 0 0 [MkKFetchTopicResponse "t" [MkKFetchPartitionResponse 1 0 7 7 0 (-1) [1; 2; 3]]].

Lemma kafka_replies_read_back_witness :
  client_reads 4 (ReplyFetch sample_fetch_reply) (MkDecoder (encode_reply 4 (ReplyFetch sample_fetch_reply)) 0)
  = (Ok (ReplyFetch (MkKFetchResponse 0 0 0 [MkKFetchTopicResponse "t" [MkKFetchPartitionResponse 1 0 7 7 (-1) (-1) [1; 2; 3]]])),
     MkDecoder (encode_reply 4 (ReplyFetch sample_fetch_reply)) 48).
Proof.
  assert (Hr : reply_ok 4 (ReplyFetch sample_fetch_reply)).
  { cbn. unfold fetch_reply_ok, count_ok. cbn. split; [unfold i_range; lia|]. split; [lia|].
    repeat constructor; cbn; unfold i_range, name_ok, blob_ok, short_string, short_bytes, count_ok; cbn; lia. }
  exact (kafka_replies_read_back 4 (ReplyFetch sample_fetch_reply) Hr).
Defined.
