(* ===== verification/KafkaBatch.v ===== *)
(** * Kafka record batches inside the log

    Models [src/src/kafka/record_batch.cpp] and the functions of [src/src/server/kafka_adapter.cpp]
    that walk blobs of record batches: a blob of Kafka batches is opaque to the log, which stores it
    as the records of one batch of its own; the facade counts the records to give them offsets, and
    gives each Kafka batch its base offset when the blob is read. *)
From Stdlib Require Import ZArith Lia.
From stdpp Require Import base list gmap strings.
From S2P Require Import Prelude Bytes Record Codec KafkaCodec.
#[local] Open Scope Z_scope.

(** ** One batch *)

Definition kRecordBatchMagicV2 : Z := 2.
Definition kRecordBatchHeaderSize : Z := 61.
Definition kBatchPrefixSize : Z := 12.
Definition kMinBatchLength : Z := kRecordBatchHeaderSize - kBatchPrefixSize.

Record RecordBatchInfo := MkInfo {
  bi_base_offset : Z;
  bi_record_count : Z;
  bi_last_offset_delta : Z;
  bi_encoded_size : nat;
}.

(** The fields after the base offset. *)
Definition peek_after (batch : list byte) (base_offset : Z) : Reader RecordBatchInfo :=
  let! batch_length := kget_i32 in
  if batch_length <? kMinBatchLength then fail Corrupt "RecordBatch: batchLength menor que la cabecera fija"
  else
    let encoded_size := kBatchPrefixSize + batch_length in
    if Z.of_nat (length batch) <? encoded_size
    then fail Corrupt "RecordBatch: truncado (batchLength excede los bytes)"
    else
      let! epoch := kskip 4 in
      let! magic := kget_i8 in
      if negb (magic =? kRecordBatchMagicV2) then fail Corrupt "RecordBatch: magic no es v2"
      else
        let! crc := kskip (4 + 2) in
        let! last_offset_delta := kget_i32 in
        let! producer := kskip (3 * 8 + 2 + 4) in
        let! record_count := kget_i32 in
        if record_count <? 0 then fail Corrupt "RecordBatch: recordCount negativo"
        else ret (MkInfo base_offset record_count last_offset_delta (Z.to_nat encoded_size)).

Definition peek_record_batch_from (batch : list byte) : Reader RecordBatchInfo :=
  let! base_offset := kget_i64 in peek_after batch base_offset.

Definition peek_record_batch (batch : list byte) : expected RecordBatchInfo :=
  (peek_record_batch_from batch (MkDecoder batch 0)).1.

Definition set_base_offset (batch : list byte) (base_offset : Z) : list byte := splice 0 (store_be 8 base_offset) batch.

(** ** A blob of batches *)

(** [count_records]: each header moves past its batch, of 61 bytes at least, so the bytes of the blob
    are turns enough.  The sum is an [int32_t]; past its range the C++ overflows. *)
Fixpoint count_records_loop (fuel : nat) (blob : list byte) (total : Z) : expected Z :=
  match fuel, blob with
  | O, _ | _, [] => Ok total
  | S fuel', _ =>
      match peek_record_batch blob with
      | Err e => Err e
      | Ok info => count_records_loop fuel' (drop (bi_encoded_size info) blob) (to_i 32 (total + bi_record_count info))
      end
  end.

Definition count_records (blob : list byte) : expected Z := count_records_loop (length blob) blob 0.

(** [rebase_subbatches], on the bytes from the position on. *)
Fixpoint rebase_loop (fuel : nat) (offset : Z) (blob : list byte) : list byte :=
  match fuel, blob with
  | O, _ | _, [] => blob
  | S fuel', _ =>
      match peek_record_batch blob with
      | Err _ => blob
      | Ok info =>
          let blob := set_base_offset blob offset in
          take (bi_encoded_size info) blob
            ++ rebase_loop fuel' (offset + bi_record_count info) (drop (bi_encoded_size info) blob)
      end
  end.

Definition rebase_subbatches (blob : list byte) (base : Z) : list byte := rebase_loop (length blob) base blob.

(** [rebuild_kafka_records], on the log's batches from the position on. *)
Fixpoint rebuild_records_loop (fuel : nat) (rest out : list byte) : list byte :=
  match fuel with
  | O => out
  | S fuel' =>
      if (length rest <? kHeaderSize)%nat then out
      else
        match batch_peek rest with
        | Err _ => out
        | Ok view =>
            let size := view_encoded_size view in
            if (size <? kHeaderSize)%nat || (length rest <? size)%nat then out
            else
              let records := take (size - kHeaderSize) (drop kHeaderSize rest) in
              rebuild_records_loop fuel' (drop size rest) (out ++ rebase_subbatches records (view_base_offset view))
        end
  end.

Definition rebuild_kafka_records (internal_batches : list byte) : list byte :=
  rebuild_records_loop (length internal_batches) internal_batches [].

(** ** Well-formed batches *)

(** [b] is one batch of [count] records and nothing else. *)
Definition kafka_batch (b : list byte) (count : Z) : Prop :=
  exists info, peek_record_batch b = Ok info /\ bi_record_count info = count /\ bi_encoded_size info = length b.

(** The batches of a blob with their numbers of records. *)
Abbreviation Batches := (list (list byte * Z)) (only parsing).
Definition batches_ok (bs : Batches) : Prop := Forall (fun b => kafka_batch b.1 b.2) bs.
Definition blob_of (bs : Batches) : list byte := concat (fst <$> bs).
Definition records_in (bs : Batches) : Z := foldr (fun b n => b.2 + n) 0 bs.

(** The batches with the offsets they get from [offset] on. *)
Fixpoint numbered (offset : Z) (bs : Batches) : Batches :=
  match bs with [] => [] | b :: rest => (set_base_offset b.1 offset, b.2) :: numbered (offset + b.2) rest end.

Lemma records_in_cons b bs : records_in (b :: bs) = b.2 + records_in bs.
Proof. done. Qed.

Lemma records_in_app xs ys : records_in (xs ++ ys) = records_in xs + records_in ys.
Proof. unfold records_in. induction xs as [|x xs IH]; cbn; lia. Qed.

Lemma numbered_app offset xs ys : numbered offset (xs ++ ys) = numbered offset xs ++ numbered (offset + records_in xs) ys.
Proof.
  revert offset. induction xs as [|x xs IH]; intros offset; cbn; [by rewrite Z.add_0_r|]. rewrite IH. do 3 f_equal.
  unfold records_in. lia.
Qed.

Lemma blob_of_app xs ys : blob_of (xs ++ ys) = blob_of xs ++ blob_of ys.
Proof. unfold blob_of. by rewrite fmap_app, concat_app. Qed.

(** ** Reads depend only on what is ahead *)

(** [d2] is [d1] with [rest] after its input, and any bytes behind. *)
Definition ahead (rest : list byte) (d1 d2 : Decoder) : Prop :=
  pos_ d1 = pos_ d2 /\ (pos_ d1 <= length (in_ d1))%nat /\ drop (pos_ d2) (in_ d2) = drop (pos_ d1) (in_ d1) ++ rest.

Definition looks_ahead {A} (m : Reader A) : Prop :=
  forall rest d1 d2 a d1', ahead rest d1 d2 -> m d1 = (Ok a, d1') -> exists d2', m d2 = (Ok a, d2') /\ ahead rest d1' d2'.

Lemma looks_ret {A} (a : A) : looks_ahead (ret a).
Proof. intros rest d1 d2 x d1' H [= <- <-]. by exists d2. Qed.
Lemma looks_fail {A} c msg : looks_ahead (@fail A c msg).
Proof. by intros rest d1 d2 x d1' H. Qed.
Lemma looks_bind {A B} (m : Reader A) (k : A -> Reader B) : looks_ahead m -> (forall a, looks_ahead (k a)) -> looks_ahead (rbind m k).
Proof.
  intros Hm Hk rest d1 d2 b d1' Hd. unfold rbind. destruct (m d1) as [[a|e] d] eqn:E; [|done]. intros Hkd.
  destruct (Hm _ _ _ _ _ Hd E) as (d2' & -> & Hd'). by eapply Hk.
Qed.
Lemma looks_take n : looks_ahead (k_take n).
Proof.
  intros rest d1 d2 a d1' (Hp & Hle & Hd). unfold k_take. apply (f_equal length) in Hd as Hl.
  rewrite length_app, !length_drop in Hl. unfold remaining. destruct (Z.ltb_spec (Z.of_nat (length (in_ d1) - pos_ d1)) n); [done|].
  destruct (Z.ltb_spec (Z.of_nat (length (in_ d2) - pos_ d2)) n); [lia|]. intros [= <- <-]. eexists.
  unfold subspan_n. rewrite Hd, take_app_le by (rewrite length_drop; lia). split; [done|].
  unfold ahead. cbn [in_ pos_]. split; [by rewrite Hp|]. split; [lia|].
  rewrite <- !drop_drop, Hd, drop_app_le by (rewrite length_drop; lia). done.
Qed.
Lemma looks_if {A} (b : bool) (m1 m2 : Reader A) : looks_ahead m1 -> looks_ahead m2 -> looks_ahead (if b then m1 else m2).
Proof. by destruct b. Qed.

Lemma looks_peek_after batch base : looks_ahead (peek_after batch base).
Proof.
  unfold peek_after, kget_i32, kget_i8, kskip.
  repeat first [apply looks_ret|apply looks_fail|apply looks_take|apply looks_if|apply looks_bind; [|intros ?]].
Qed.

Lemma looks_peek batch : looks_ahead (peek_record_batch_from batch).
Proof.
  unfold peek_record_batch_from, kget_i64.
  repeat first [apply looks_peek_after|apply looks_ret|apply looks_take|apply looks_bind; [|intros ?]].
Qed.

(** The buffer only bounds the size. *)
Lemma peek_longer batch batch' base d info d' :
  (length batch <= length batch')%nat -> peek_after batch base d = (Ok info, d') -> peek_after batch' base d = (Ok info, d').
Proof.
  intros Hl. unfold peek_after, rbind. destruct (kget_i32 d) as [[len|e] d0]; [|done].
  destruct (len <? kMinBatchLength); [done|]. cbv zeta.
  destruct (Z.ltb_spec (Z.of_nat (length batch)) (kBatchPrefixSize + len)); [done|].
  by rewrite (proj2 (Z.ltb_ge _ _)) by lia.
Qed.

Lemma peek_rebased batch base base' d info d' :
  peek_after batch base d = (Ok info, d') ->
  peek_after batch base' d = (Ok (MkInfo base' (bi_record_count info) (bi_last_offset_delta info) (bi_encoded_size info)), d').
Proof.
  unfold peek_after, rbind. destruct (kget_i32 d) as [[len|e] d0]; [|done]. destruct (len <? _); [done|]. cbv zeta.
  destruct (_ <? kBatchPrefixSize + len); [done|]. destruct (kskip 4 d0) as [[u|e] d1]; [|done].
  destruct (kget_i8 d1) as [[magic|e] d2]; [|done]. destruct (negb _); [done|].
  destruct (kskip (4 + 2) d2) as [[u'|e] d3]; [|done]. destruct (kget_i32 d3) as [[delta|e] d4]; [|done].
  destruct (kskip _ d4) as [[v|e] d5]; [|done]. destruct (kget_i32 d5) as [[count|e] d6]; [|done].
  destruct (count <? 0); [done|]. by intros [= <- <-].
Qed.

Lemma peek_app b rest info : peek_record_batch b = Ok info -> peek_record_batch (b ++ rest) = Ok info.
Proof.
  unfold peek_record_batch. destruct (peek_record_batch_from b (MkDecoder b 0)) as [r d] eqn:E. cbn [fst]. intros ->.
  assert (Ha : ahead rest (MkDecoder b 0) (MkDecoder (b ++ rest) 0)) by (unfold ahead; cbn; split_and!; [done|lia|done]).
  destruct (looks_peek b _ _ _ _ _ Ha E) as (d2 & H2 & _).
  assert (H3 : peek_record_batch_from (b ++ rest) (MkDecoder (b ++ rest) 0) = (Ok info, d2)); [|by rewrite H3].
  revert H2. unfold peek_record_batch_from, rbind. destruct (kget_i64 _) as [[base|e] d']; [|done].
  apply peek_longer. rewrite length_app. lia.
Qed.

Lemma peek_size b info : peek_record_batch b = Ok info ->
  (61 <= bi_encoded_size info <= length b)%nat /\ 0 <= bi_record_count info < 2 ^ 31.
Proof.
  unfold peek_record_batch, peek_record_batch_from, peek_after, rbind.
  destruct (kget_i64 _) as [[base|e] d0]; [|done]. destruct (kget_i32 d0) as [[len|e] d1]; [|done].
  destruct (Z.ltb_spec len kMinBatchLength); [done|]. cbv zeta. destruct (Z.ltb_spec (Z.of_nat (length b)) (kBatchPrefixSize + len)); [done|].
  destruct (kskip 4 d1) as [[u|e] d2]; [|done]. destruct (kget_i8 d2) as [[magic|e] d3]; [|done]. destruct (negb _); [done|].
  destruct (kskip (4 + 2) d3) as [[u'|e] d4]; [|done]. destruct (kget_i32 d4) as [[delta|e] d5]; [|done].
  destruct (kskip _ d5) as [[v|e] d6]; [|done]. unfold kget_i32 at 1, rbind. destruct (k_take 4 d6) as [[bs|e] d7]; [|done].
  cbn [ret]. destruct (Z.ltb_spec (load_be_i 4 bs) 0); [done|]. intros [= <-]. cbn [bi_encoded_size bi_record_count].
  unfold kMinBatchLength, kBatchPrefixSize, kRecordBatchHeaderSize in *. split; [lia|]. split; [done|].
  pose proof (to_i_range 32 (load_be_bits 4 bs) ltac:(lia)) as Hr. unfold i_range in Hr.
  change (2 ^ (32 - 1)) with (2 ^ 31) in Hr. change (load_be_i 4 bs) with (to_i 32 (load_be_bits 4 bs)). lia.
Qed.

Lemma length_set_base b o : (8 <= length b)%nat -> length (set_base_offset b o) = length b.
Proof.
  intros Hb. unfold set_base_offset, splice. rewrite take_0. cbn [app Nat.add].
  rewrite length_app, length_drop, length_store_be. lia.
Qed.

Lemma set_base_app b rest o : (8 <= length b)%nat -> set_base_offset (b ++ rest) o = set_base_offset b o ++ rest.
Proof.
  intros Hb. unfold set_base_offset, splice. rewrite !take_0, length_store_be. cbn [app Nat.add].
  by rewrite drop_app_le, <- app_assoc by lia.
Qed.

Lemma peek_first b : (8 <= length b)%nat ->
  peek_record_batch b = (peek_after b (load_be_i 8 (take 8 b)) (MkDecoder b 8)).1.
Proof.
  intros Hb. unfold peek_record_batch, peek_record_batch_from, kget_i64, k_take, remaining, rbind. cbn [in_ pos_].
  by rewrite (proj2 (Z.ltb_ge _ _)) by lia.
Qed.

(** Renumbering a batch changes its base offset and nothing else. *)
Lemma peek_set_base b o info : peek_record_batch b = Ok info ->
  peek_record_batch (set_base_offset b o)
  = Ok (MkInfo (to_i 64 o) (bi_record_count info) (bi_last_offset_delta info) (bi_encoded_size info)).
Proof.
  intros Hp. pose proof (peek_size _ _ Hp) as [[Hs Hlen] _]. revert Hp.
  rewrite !peek_first by (rewrite ?length_set_base; lia). destruct (peek_after b _ _) as [r d] eqn:E. cbn [fst]. intros ->.
  apply (peek_rebased _ _ (to_i 64 o)) in E. apply (peek_longer _ (set_base_offset b o)) in E; [|rewrite length_set_base; lia].
  assert (Ha : ahead [] (MkDecoder b 8) (MkDecoder (set_base_offset b o) 8)).
  { unfold ahead, set_base_offset, splice. cbn [in_ pos_]. rewrite take_0, length_store_be. cbn [app].
    split_and!; [done|lia|]. rewrite app_nil_r. apply drop_app_length'. by rewrite length_store_be. }
  destruct (looks_peek_after _ _ _ _ _ _ _ Ha E) as (d2 & H2 & _).
  replace (load_be_i 8 _) with (to_i 64 o); [by rewrite H2|].
  unfold set_base_offset, splice. rewrite take_0. cbn [app]. rewrite take_app_length' by (by rewrite length_store_be).
  unfold load_be_i. rewrite load_store_be_bits. unfold to_i, to_u. by rewrite Z.mod_mod by lia.
Qed.

(** ** What the facade makes of a blob *)

Lemma kafka_batch_size b count : kafka_batch b count -> (61 <= length b)%nat /\ 0 <= count < 2 ^ 31.
Proof. intros (info & Hp & <- & Hs). destruct (peek_size _ _ Hp). split; [lia|done]. Qed.

Lemma kafka_batch_set b count o : kafka_batch b count -> kafka_batch (set_base_offset b o) count.
Proof.
  intros Hb. pose proof (kafka_batch_size _ _ Hb). destruct Hb as (info & Hp & Hc & Hs).
  eexists. split; [by apply peek_set_base|]. cbn. split; [done|]. rewrite length_set_base by lia. done.
Qed.

Lemma records_nonneg bs : batches_ok bs -> 0 <= records_in bs.
Proof. induction 1 as [|b bs Hb _ IH]; [done|]. rewrite records_in_cons. apply kafka_batch_size in Hb. lia. Qed.

Lemma batches_ok_length bs : batches_ok bs -> (length bs <= length (blob_of bs))%nat.
Proof.
  induction 1 as [|b bs Hb _ IH]; [done|]. apply kafka_batch_size in Hb.
  change (blob_of (b :: bs)) with (b.1 ++ blob_of bs). rewrite length_app. cbn [length]. lia.
Qed.

Lemma count_loop_blob fuel bs total :
  batches_ok bs -> (length (blob_of bs) <= fuel)%nat -> 0 <= total -> total + records_in bs < 2 ^ 31 ->
  count_records_loop fuel (blob_of bs) total = Ok (total + records_in bs).
Proof.
  intros Hbs. revert fuel total. induction Hbs as [|b bs Hb Hbs IH]; intros fuel total Hf Ht Hr.
  - cbn. rewrite Z.add_0_r. by destruct fuel.
  - pose proof (kafka_batch_size _ _ Hb) as [Hsize Hc]. pose proof (records_nonneg _ Hbs). rewrite records_in_cons in Hr |- *.
    change (blob_of (b :: bs)) with (b.1 ++ blob_of bs) in *. rewrite length_app in Hf.
    destruct fuel as [|fuel]; [lia|]. cbn [count_records_loop]. destruct (b.1 ++ blob_of bs) eqn:E.
    { apply (f_equal length) in E. rewrite length_app in E. cbn in E. lia. }
    rewrite <- E. destruct Hb as (info & Hp & Hn & Hl). rewrite (peek_app _ _ _ Hp), Hl, drop_app_length, Hn.
    rewrite to_i_nonneg by lia. rewrite IH by lia. f_equal. lia.
Qed.

(** A blob counts the records of its batches. *)
Lemma count_records_blob bs : batches_ok bs -> records_in bs < 2 ^ 31 -> count_records (blob_of bs) = Ok (records_in bs).
Proof. intros Hbs Hr. unfold count_records. rewrite count_loop_blob by (done || lia). done. Qed.

Lemma rebase_loop_blob fuel bs o :
  batches_ok bs -> (length (blob_of bs) <= fuel)%nat -> rebase_loop fuel o (blob_of bs) = blob_of (numbered o bs).
Proof.
  intros Hbs. revert fuel o. induction Hbs as [|b bs Hb Hbs IH]; intros fuel o Hf; [by destruct fuel|].
  pose proof (kafka_batch_size _ _ Hb) as [Hsize Hc].
  change (blob_of (b :: bs)) with (b.1 ++ blob_of bs) in *. rewrite length_app in Hf.
  destruct fuel as [|fuel]; [lia|]. cbn [rebase_loop]. destruct (b.1 ++ blob_of bs) eqn:E.
  { apply (f_equal length) in E. rewrite length_app in E. cbn in E. lia. }
  rewrite <- E. destruct Hb as (info & Hp & Hn & Hl). rewrite (peek_app _ _ _ Hp), Hl, Hn. cbv zeta.
  rewrite set_base_app by lia. rewrite take_app_length', drop_app_length' by (rewrite length_set_base; lia).
  rewrite IH by lia. done.
Qed.

Lemma rebase_blob bs o : batches_ok bs -> rebase_subbatches (blob_of bs) o = blob_of (numbered o bs).
Proof. intros Hbs. by apply rebase_loop_blob. Qed.

(** An envelope of the log holds a blob. *)
Definition envelope_of (e : RecordBatch) (bs : Batches) : Prop :=
  batch_ok e /\ batches_ok bs /\ b_records e = blob_of bs.

Definition read_back (e : RecordBatch) (bs : Batches) : list byte := blob_of (numbered (h_base_offset (b_header e)) bs).

Lemma rebuild_loop_envelopes fuel es bss out :
  Forall2 envelope_of es bss -> (length (concat (batch_layout <$> es)) <= fuel)%nat ->
  rebuild_records_loop fuel (concat (batch_layout <$> es)) out = out ++ concat (zip_with read_back es bss).
Proof.
  intros H. revert fuel out. induction H as [|e bs es bss (He & Hbs & Hr) H IH]; intros fuel out Hf; cbn [fmap list_fmap concat zip_with] in *.
  - rewrite app_nil_r. by destruct fuel.
  - rewrite length_app, length_batch_layout in Hf. pose proof (batch_peek_layout e (concat (batch_layout <$> es)) He) as Hp.
    destruct fuel as [|fuel]; [unfold encoded_size, kHeaderSize in Hf; lia|]. cbn [rebuild_records_loop]. rewrite Hp. cbv zeta. cbn [view_encoded_size view_base_offset].
    rewrite length_app, length_batch_layout. unfold encoded_size in *.
    rewrite !(proj2 (Nat.ltb_ge _ _)) by lia. cbn [orb].
    rewrite (drop_app_length' (batch_layout e)) by (by rewrite length_batch_layout).
    assert (Hk : kHeaderSize = 36%nat) by done. rewrite IH by lia. rewrite <- app_assoc. do 2 f_equal. unfold read_back. rewrite <- rebase_blob, <- Hr by done. f_equal.
    replace (kHeaderSize + length (b_records e) - kHeaderSize)%nat with (length (b_records e)) by lia.
    unfold batch_layout, covered_bytes. rewrite <- !app_assoc, !app_assoc. rewrite <- (app_assoc _ (b_records e)).
    rewrite drop_app_length' by (rewrite !length_app, !length_store_le; done). by apply take_app_length.
Qed.

(** What the log gives for its envelopes becomes the blobs they hold, each numbered from the offset
    the log gave it. *)
Lemma rebuild_envelopes es bss :
  Forall2 envelope_of es bss -> rebuild_kafka_records (concat (batch_layout <$> es)) = concat (zip_with read_back es bss).
Proof. intros H. unfold rebuild_kafka_records. by rewrite (rebuild_loop_envelopes _ _ bss). Qed.
