(* ===== verification/KafkaGateway.v ===== *)
(** * The Kafka facade over the broker

    Models [KafkaServerBroker] of [src/src/server/kafka_adapter.cpp], which turns the requests of
    Kafka into operations on the partitions of the broker, on the core that owns each;
    [KafkaGateway::handle_request] of [src/src/kafka/gateway.cpp], which decodes a request and encodes
    the response; and [serve_kafka_connection] of [src/src/server/kafka_connection.hpp]. *)
From Stdlib Require Import ZArith Lia Ascii String.
From stdpp Require Import base list gmap strings pretty.
From S2P Require Import Prelude Bytes Record Codec FrameIo Partition RecordCodec Topics RequestRouter.
From S2P Require Import KafkaCodec KafkaApis KafkaBatch.
#[local] Open Scope Z_scope.

(** ** Errors *)

(** [kafka::KafkaError], as [to_wire] writes it. *)
Inductive KafkaError := KNone | KUnknown | KOffsetOutOfRange | KCorruptMessage | KUnknownTopicOrPartition | KInvalidRequest.

Definition to_wire (e : KafkaError) : Z :=
  match e with
  | KNone => 0 | KUnknown => -1 | KOffsetOutOfRange => 1 | KCorruptMessage => 2 | KUnknownTopicOrPartition => 3
  | KInvalidRequest => 42
  end.

Definition to_kafka_error (code : ErrorCode) : Z :=
  match code with
  | Corrupt => to_wire KCorruptMessage
  | OutOfRange => to_wire KOffsetOutOfRange
  | NotFound => to_wire KUnknownTopicOrPartition
  | InvalidArgument => to_wire KInvalidRequest
  | _ => to_wire KUnknown
  end.

(** ** One partition *)

Section Partitions.
Context {Q : Type} {PB : PartitionBase Q}.

Definition produce_reply (index error_code base_offset : Z) : KProducePartitionResponse :=
  MkKProducePartitionResponse index error_code base_offset (-1) 0 None.

(** The envelope of a blob. *)
Definition envelope (total : Z) (blob : list byte) : RecordBatch := MkBatch (MkHeader 0 0 (-1) (-1) (-1) total) blob.

Definition produce_partition (topic : string) (data : KProducePartitionData) (topics : TopicManager Q) :
    KProducePartitionResponse * TopicManager Q :=
  let reply := produce_reply (kpd_index data) in
  match find_partition topic (kpd_index data) topics with
  | None => (reply (to_wire KUnknownTopicOrPartition) 0, topics)
  | Some part =>
      match count_records (kpd_records data) with
      | Err e => (reply (to_kafka_error (code e)) 0, topics)
      | Ok total =>
          if total =? 0 then (reply 0 (pb_log_end part), topics)
          else
            let '(claimed, part) := pb_claim ProtocolKafka part in
            let topics := store_partition topic (kpd_index data) part topics in
            match claimed with
            | Err e => (reply (to_kafka_error (code e)) 0, topics)
            | Ok _ =>
                let '(last, part) := pb_produce (envelope total (kpd_records data)) part in
                let topics := store_partition topic (kpd_index data) part topics in
                match last with
                | Err e => (reply (to_kafka_error (code e)) 0, topics)
                | Ok last => (reply 0 (last - total + 1), topics)
                end
            end
      end
  end.

Definition fetch_reply (index error_code : Z) : KFetchPartitionResponse :=
  MkKFetchPartitionResponse index error_code 0 (-1) 0 (-1) [].

Definition fetch_partition (topic : string) (req : KFetchPartitionRequest) (topics : TopicManager Q) : KFetchPartitionResponse :=
  match find_partition topic (kfp_partition req) topics with
  | None => fetch_reply (kfp_partition req) (to_wire KUnknownTopicOrPartition)
  | Some part =>
      if negb (bool_decide (pb_protocol part = ProtocolUnset)) && negb (bool_decide (pb_protocol part = ProtocolKafka))
      then fetch_reply (kfp_partition req) (to_kafka_error InvalidArgument)
      else
        let max_bytes := if 0 <? kfp_partition_max_bytes req then Z.to_nat (kfp_partition_max_bytes req) else kDefaultFetchBytes in
        match pb_fetch (kfp_fetch_offset req) max_bytes part with
        | Err e => fetch_reply (kfp_partition req) (to_kafka_error (code e))
        | Ok batches =>
            let hw := pb_high_watermark part in
            MkKFetchPartitionResponse (kfp_partition req) 0 hw hw (pb_log_start part) (-1) (rebuild_kafka_records batches)
        end
  end.

Definition list_offset_partition (topic : string) (req : KListOffsetPartition) (topics : TopicManager Q) :
    KListOffsetPartitionResponse :=
  match find_partition topic (klp_partition_index req) topics with
  | None => MkKListPartitionResponse (klp_partition_index req) (to_wire KUnknownTopicOrPartition) (-1) (-1) (-1)
  | Some part =>
      MkKListPartitionResponse (klp_partition_index req) 0 (-1)
        (if klp_timestamp req =? kListOffsetsEarliest then pb_log_start part else pb_high_watermark part)
        (to_i 32 (pb_leader_epoch part))
  end.

Definition kNotComputed : Z := -2147483648.

Definition kafka_describe_topic (meta : TopicMetadata) (node_id : Z) : KMetadataTopic :=
  MkKMetadataTopic 0 (td_name meta) false
    ((fun p => MkKMetadataPartition 0 p node_id (-1) [node_id] [node_id] []) <$> seqZ 0 (td_partition_count meta))
    kNotComputed.
End Partitions.

(** ** The adapter *)

Section Adapter.
Context {Q : Type} {PB : PartitionBase Q}.
Context (hash_order : gmap string (Topic Q) -> list (string * Topic Q)).

(** [KafkaServerBroker]: what it announces and its counters; the cores it reaches are those of the
    broker it runs in. *)
Record KafkaServerBroker := MkKafkaBroker {
  kb_node_id : Z;
  kb_host : string;
  kb_port : Z;
  kb_produce_metrics : option DataPlaneMetrics;
  kb_fetch_metrics : option DataPlaneMetrics;
}.

Definition kafka_record_request (bytes records : Z) (had_error : bool) (series : DataPlaneMetrics) : DataPlaneMetrics :=
  MkMetrics (to_u 64 (dm_requests series + 1)) (if had_error then to_u 64 (dm_errors series + 1) else dm_errors series)
    (to_u 64 (dm_bytes series + bytes)) (to_u 64 (dm_messages series + records)).

Definition kb_count_produce (bytes records : Z) (had_error : bool) (k : KafkaServerBroker) : KafkaServerBroker :=
  MkKafkaBroker (kb_node_id k) (kb_host k) (kb_port k) (kafka_record_request bytes records had_error <$> kb_produce_metrics k)
    (kb_fetch_metrics k).
Definition kb_count_fetch (bytes records : Z) (had_error : bool) (k : KafkaServerBroker) : KafkaServerBroker :=
  MkKafkaBroker (kb_node_id k) (kb_host k) (kb_port k) (kb_produce_metrics k)
    (kafka_record_request bytes records had_error <$> kb_fetch_metrics k).

(** A loop that makes a result of every element and threads the state. *)
Fixpoint collect {A R S : Type} (f : A -> S -> R * S) (xs : list A) (s : S) : list R * S :=
  match xs with
  | [] => ([], s)
  | x :: rest => let '(r, s) := f x s in let '(rs, s) := collect f rest s in (r :: rs, s)
  end.

(** [count_records(...).value_or(0)], as an unsigned number. *)
Definition readable_records (blob : list byte) : Z :=
  match count_records blob with Ok n => to_u 64 n | Err _ => 0 end.

Definition total_u64 (xs : list Z) : Z := foldl (fun total x => to_u 64 (total + x)) 0 xs.

(** The partition's own core runs the function. *)
Definition on_owner {R} (none : R) (partition : Z) (fn : TopicManager Q -> R * TopicManager Q) (b : Broker Q) : R * Broker Q :=
  let '(r, topics) := on_core (partition_core partition b) none fn (br_topics b) in (r, br_set_topics topics b).

Definition kafka_produce_one (topic : string) (data : KProducePartitionData) (b : Broker Q) : KProducePartitionResponse * Broker Q :=
  on_owner (produce_reply 0 0 0) (kpd_index data) (produce_partition topic data) b.

Definition kafka_produce_topic (topic : KProduceTopicData) (b : Broker Q) : KProduceTopicResponse * Broker Q :=
  let '(partitions, b) := collect (kafka_produce_one (kpt_name topic)) (kpt_partitions topic) b in
  (MkKProduceTopicResponse (kpt_name topic) partitions, b).

Definition kafka_produce (req : KProduceRequest) (k : KafkaServerBroker) (b : Broker Q) :
    KProduceResponse * (KafkaServerBroker * Broker Q) :=
  let '(topics, b) := collect kafka_produce_topic (kpq_topics req) b in
  let blobs := kpd_records <$> concat (kpt_partitions <$> kpq_topics req) in
  let had_error := existsb (fun p => negb (kpp_error_code p =? 0)) (concat (kptr_partitions <$> topics)) in
  (MkKProduceResponse topics 0,
   (kb_count_produce (total_u64 ((fun blob => Z.of_nat (length blob)) <$> blobs)) (total_u64 (readable_records <$> blobs))
      had_error k, b)).

Definition kafka_fetch_one (topic : string) (req : KFetchPartitionRequest) (b : Broker Q) : KFetchPartitionResponse * Broker Q :=
  on_owner (fetch_reply 0 0) (kfp_partition req) (fun topics => (fetch_partition topic req topics, topics)) b.

Definition kafka_fetch_topic (topic : KFetchTopicRequest) (b : Broker Q) : KFetchTopicResponse * Broker Q :=
  let '(partitions, b) := collect (kafka_fetch_one (kft_topic topic)) (kft_partitions topic) b in
  (MkKFetchTopicResponse (kft_topic topic) partitions, b).

Definition kafka_fetch (req : KFetchRequest) (k : KafkaServerBroker) (b : Broker Q) :
    KFetchResponse * (KafkaServerBroker * Broker Q) :=
  let '(topics, b) := collect kafka_fetch_topic (kfq_topics req) b in
  let partitions := concat (kftr_partitions <$> topics) in
  let had_error := existsb (fun p => negb (kfr_error_code p =? 0)) partitions in
  (MkKFetchResponse 0 0 0 topics,
   (kb_count_fetch (total_u64 ((fun p => Z.of_nat (length (kfr_records p))) <$> partitions))
      (total_u64 ((fun p => readable_records (kfr_records p)) <$> partitions)) had_error k, b)).

Definition kafka_list_one (topic : string) (part : KListOffsetPartition) (b : Broker Q) : KListOffsetPartitionResponse * Broker Q :=
  on_owner (MkKListPartitionResponse 0 0 (-1) (-1) (-1)) (klp_partition_index part)
    (fun topics => (list_offset_partition topic part topics, topics)) b.

Definition kafka_list_topic (topic : KListOffsetTopic) (b : Broker Q) : KListOffsetTopicResponse * Broker Q :=
  let '(partitions, b) := collect (kafka_list_one (klt_name topic)) (klt_partitions topic) b in
  (MkKListTopicResponse (klt_name topic) partitions, b).

Definition kafka_list_offsets (req : KListOffsetsRequest) (b : Broker Q) : KListOffsetsResponse * Broker Q :=
  let '(topics, b) := collect kafka_list_topic (klq_topics req) b in (MkKListResponse 0 topics, b).

(** The topics of the adapter's own core, which has the metadata of all. *)
Definition kafka_metadata (req : KMetadataRequest) (k : KafkaServerBroker) (b : Broker Q) : KMetadataResponse :=
  let all := match br_topics b !! br_self b with Some topics => list_metadata hash_order topics | None => [] end in
  let describe meta := kafka_describe_topic meta (kb_node_id k) in
  MkKMetadataResponse 0 [MkKBroker (kb_node_id k) (kb_host k) (kb_port k) None] None (kb_node_id k)
    match kmq_topics req with
    | None => describe <$> all
    | Some wanted =>
        (fun name =>
           match List.find (fun meta => String.eqb (td_name meta) name) all with
           | Some meta => describe meta
           | None => MkKMetadataTopic (to_wire KUnknownTopicOrPartition) name false [] kNotComputed
           end) <$> wanted
    end
    kNotComputed.

(** ** The gateway *)

Definition handle_request (request : list byte) (k : KafkaServerBroker) (b : Broker Q) :
    expected (list byte) * (KafkaServerBroker * Broker Q) :=
  match decode_request_header (MkDecoder request 0) with
  | (Err e, _) => (Err e, (k, b))
  | (Ok header, dec) =>
      let key := kafka_api_key (kh_api_key header) in
      let version := kh_api_version header in
      let out := encode_response_header (kh_correlation_id header) (response_header_version key version) [] in
      match key with
      | KApiVersions => (Ok (encode_api_versions_response make_api_versions_response out), (k, b))
      | KMetadata =>
          match decode_metadata_request dec with
          | (Err e, _) => (Err e, (k, b))
          | (Ok req, _) => (Ok (encode_metadata_response (kafka_metadata req k b) out), (k, b))
          end
      | KProduce =>
          match decode_produce_request version dec with
          | (Err e, _) => (Err e, (k, b))
          | (Ok req, _) => let '(resp, kb) := kafka_produce req k b in (Ok (encode_produce_response resp version out), kb)
          end
      | KFetch =>
          match decode_fetch_request version dec with
          | (Err e, _) => (Err e, (k, b))
          | (Ok req, _) => let '(resp, kb) := kafka_fetch req k b in (Ok (encode_fetch_response resp version out), kb)
          end
      | KListOffsets =>
          match decode_list_offsets_request dec with
          | (Err e, _) => (Err e, (k, b))
          | (Ok req, _) => let '(resp, b) := kafka_list_offsets req b in (Ok (encode_list_offsets_response resp out), (k, b))
          end
      | KOther _ => (make_error Unsupported ("api_key Kafka no soportada: " +:+ pretty (kh_api_key header)), (k, b))
      end
  end.

(** ** A connection *)

Section Connection.
Context {S : Type} {BS : ByteStream S}.

(** [kafka_read_exactly] and [kafka_send_all]. *)
Fixpoint kafka_read_exactly (fuel total : nat) (buf : list byte) (s : S) : expected unit * (list byte * S) :=
  if (total <=? length buf)%nat then (Ok tt, (buf, s))
  else match fuel with
  | O => (Ok tt, (buf, s))
  | Datatypes.S fuel' =>
      match async_recv (total - length buf) s with
      | (Err e, s) => (Err e, (buf, s))
      | (Ok [], s) => (make_error IoError "conexión Kafka cerrada por el par (EOF)", (buf, s))
      | (Ok got, s) => kafka_read_exactly fuel' total (buf ++ got) s
      end
  end.

Fixpoint kafka_send_loop (fuel : nat) (data : list byte) (s : S) : expected unit * S :=
  match fuel, data with
  | _, [] | O, _ => (Ok tt, s)
  | Datatypes.S fuel', _ =>
      match async_send data s with
      | (Err e, s) => (Err e, s)
      | (Ok O, s) => (make_error IoError "send Kafka devolvió 0 (conexión cerrada)", s)
      | (Ok n, s) => kafka_send_loop fuel' (subspan n data) s
      end
  end.

Definition kafka_send_all (data : list byte) (s : S) : expected unit * S := kafka_send_loop (length data) data s.

Definition kMaxKafkaFrame : Z := 16 * 1024 * 1024.

(** The loop ends with the stream or at the first request it cannot serve; [fuel] bounds the requests. *)
Fixpoint serve_kafka_connection (fuel : nat) (s : S) (k : KafkaServerBroker) (b : Broker Q) : S * (KafkaServerBroker * Broker Q) :=
  match fuel with
  | O => (s, (k, b))
  | Datatypes.S fuel' =>
      match kafka_read_exactly 4 4 [] s with
      | (Err _, (_, s)) => (s, (k, b))
      | (Ok _, (prefix, s)) =>
          match kget_i32 (MkDecoder prefix 0) with
          | (Err _, _) => (s, (k, b))
          | (Ok size, _) =>
              if (size <=? 0) || (kMaxKafkaFrame <? size) then (s, (k, b))
              else
                match kafka_read_exactly (Z.to_nat size) (Z.to_nat size) [] s with
                | (Err _, (_, s)) => (s, (k, b))
                | (Ok _, (request, s)) =>
                    match handle_request request k b with
                    | (Err _, (k, b)) => (s, (k, b))
                    | (Ok response, (k, b)) =>
                        match kafka_send_all (kput_i32 (to_i 32 (Z.of_nat (length response))) []) s with
                        | (Err _, s) => (s, (k, b))
                        | (Ok _, s) =>
                            match kafka_send_all response s with
                            | (Err _, s) => (s, (k, b))
                            | (Ok _, s) => serve_kafka_connection fuel' s k b
                            end
                        end
                    end
                end
          end
      end
  end.
End Connection.
End Adapter.
