(* ===== verification/KafkaSafety.v ===== *)
(** * Correctness of the Kafka facade

    What is produced through the facade is fetched through it, each Kafka batch whole and numbered by
    the offset the log gave it.  And two record counts that take the log back. *)
From Stdlib Require Import ZArith Lia Ascii String.
From stdpp Require Import base list gmap sets strings.
From S2P Require Import Prelude Bytes Record Codec Frame FrameIo RaftState RaftLog Partition RecordCodec SegmentCrypto Segment SegmentSafety.
From S2P Require Import StorageTier PartitionLog PartitionLogSafety Topics TopicsSafety Messages RequestRouter RouterSafety.
From S2P Require Import KafkaCodec KafkaApis KafkaWire KafkaReplies KafkaBatch KafkaGateway.
#[local] Open Scope Z_scope.

(** ** From a producer to a consumer *)

Section ProduceFetch.
Context {CC : Crypto} {CL : CryptoLaws} {T : Type} {ST : StorageTier T} (env : Environment) {EL : EnvironmentLaws env}.
Context (retention : RetentionPolicy -> Z -> PartitionLog T -> PartitionLog T).

#[local] Instance kafka_log_ops : PartitionLogOps (PartitionLog T) := PartitionLog_ops env.
#[local] Instance kafka_log_base : PartitionBase (BrokerPartition (PartitionLog T)) := BrokerPartition_base retention.

Abbreviation Topics := (TopicManager (BrokerPartition (PartitionLog T))) (only parsing).

Context (topic : string) (pid : Z).

(** The log of the partition, when it is not replicated. *)
Definition partition_log (topics : Topics) : option (PartitionLog T) :=
  match find_partition topic pid topics with Some (Plain p) => Some (pr_store (pt_state p)) | _ => None end.

Definition produce_blob (bs : Batches) : Topics -> KProducePartitionResponse * Topics :=
  produce_partition topic (MkKProducePartition pid (blob_of bs)).

(** Productions of blobs of well-formed batches that are answered without an error, each within the
    widths of the log. *)
Fixpoint kafka_run (bss : list Batches) (topics final : Topics) : Prop :=
  match bss with
  | [] => final = topics
  | bs :: rest =>
      batches_ok bs /\ 0 < records_in bs < 2 ^ 31 /\
      (forall p, partition_log topics = Some p -> append_fits (envelope (records_in bs) (blob_of bs)) p) /\
      kpp_error_code (produce_blob bs topics).1 = 0 /\ kafka_run rest (produce_blob bs topics).2 final
  end.

(** The base offsets they are answered. *)
Fixpoint answered (bss : list Batches) (topics : Topics) : list Z :=
  match bss with
  | [] => []
  | bs :: rest => kpp_base_offset (produce_blob bs topics).1 :: answered rest (produce_blob bs topics).2
  end.

Fixpoint bases (offset : Z) (bss : list Batches) : list Z :=
  match bss with [] => [] | bs :: rest => offset :: bases (offset + records_in bs) rest end.

Fixpoint envelopes (offset : Z) (bss : list Batches) : list RecordBatch :=
  match bss with
  | [] => []
  | bs :: rest => rebase offset (envelope (records_in bs) (blob_of bs)) :: envelopes (offset + records_in bs) rest
  end.

(** The partition holds the blobs, in envelopes that follow each other from offset 0. *)
Definition holds (bss : list Batches) (topics : Topics) : Prop :=
  exists p producers epoch proto fss,
    find_partition topic pid topics = Some (Plain (MkPartition (MkProducing p producers) epoch proto)) /\
    (proto = ProtocolUnset \/ proto = ProtocolKafka) /\ log_rep p fss /\ pg_log_start p = 0 /\
    fst <$> concat fss = envelopes 0 bss /\ pg_log_end p = records_in (concat bss) /\
    Forall (fun e => batch_ok e) (envelopes 0 bss).

Lemma envelopes_app offset xs ys :
  envelopes offset (xs ++ ys) = envelopes offset xs ++ envelopes (offset + records_in (concat xs)) ys.
Proof.
  revert offset. induction xs as [|x xs IH]; intros offset; cbn [app envelopes concat]; [by rewrite Z.add_0_r|].
  rewrite IH, records_in_app, Z.add_assoc. done.
Qed.

Lemma find_store q (topics : Topics) :
  is_Some (find_partition topic pid topics) -> find_partition topic pid (store_partition topic pid q topics) = Some q.
Proof.
  unfold find_partition, find_topic. cbn. rewrite lookup_alter_eq. destruct (tmg_topics topics !! topic) as [t|]; [|by intros []].
  intros _. cbn. by rewrite lookup_insert_eq.
Qed.

Definition plain (p : PartitionLog T) (producers : gmap Z ProducerSession) (epoch : Z) (proto : WireProtocol) :
    BrokerPartition (PartitionLog T) := Plain (MkPartition (MkProducing p producers) epoch proto).

Lemma produce_plain bs topics p producers epoch proto :
  find_partition topic pid topics = Some (plain p producers epoch proto) ->
  proto = ProtocolUnset \/ proto = ProtocolKafka -> batches_ok bs -> 0 < records_in bs < 2 ^ 31 ->
  produce_blob bs topics =
  let '(r, p') := pg_append env (envelope (records_in bs) (blob_of bs)) p in
  (match r with
   | Ok last => produce_reply pid 0 (last - records_in bs + 1)
   | Err e => produce_reply pid (to_kafka_error (code e)) 0
   end, store_partition topic pid (plain p' producers epoch ProtocolKafka) topics).
Proof.
  intros Hfind Hproto Hbs Hcount. unfold produce_blob, produce_partition. cbn [kpd_index kpd_records].
  rewrite Hfind, count_records_blob by (done || lia). rewrite (proj2 (Z.eqb_neq _ _)) by lia.
  unfold pb_claim, pb_produce, kafka_log_base, BrokerPartition_base, broker_claim, plain, partition_claim. cbn [pt_protocol pt_state pt_leader_epoch].
  replace (claim_protocol ProtocolKafka proto) with (Ok tt : expected unit, ProtocolKafka) by (by destruct Hproto as [->| ->]).
  unfold broker_produce, partition_produce, idempotent_produce. cbn [envelope b_header h_producer_id pt_state pr_store pr_producers].
  change (-1 <? 0) with true. cbv iota. unfold pl_append, kafka_log_ops, PartitionLog_ops.
  destruct (pg_append env _ p) as [[last|e] p']; cbn [pt_leader_epoch pt_protocol]; by rewrite store_twice.
Qed.

Lemma produce_blob_holds bss bs topics :
  holds bss topics -> batches_ok bs -> 0 < records_in bs < 2 ^ 31 ->
  (forall p, partition_log topics = Some p -> append_fits (envelope (records_in bs) (blob_of bs)) p) ->
  kpp_error_code (produce_blob bs topics).1 = 0 ->
  kpp_base_offset (produce_blob bs topics).1 = records_in (concat bss) /\ holds (bss ++ [bs]) (produce_blob bs topics).2.
Proof.
  intros (p & producers & epoch & proto & fss & Hfind & Hproto & Hrep & Hstart & Henv & Hend & Hok) Hbs Hcount Hfits.
  specialize (Hfits p). unfold partition_log in Hfits. rewrite Hfind in Hfits. specialize (Hfits eq_refl).
  rewrite (produce_plain bs topics p producers epoch proto) by done.
  destruct (pg_append_rep env EL _ _ _ Hrep Hfits) as (Hst & fss' & Hrep' & Happ).
  destruct (pg_append env _ p) as [[last|e] p'] eqn:E; cbn [fst snd] in *; [|by destruct (code e)].
  destruct Happ as (-> & fr & Hcat). intros _.
  assert (Hlast : batch_last_offset (rebase (pg_log_end p) (envelope (records_in bs) (blob_of bs))) = pg_log_end p + records_in bs - 1) by done.
  split; [cbn [produce_reply kpp_base_offset]; rewrite Hlast; lia|].
  exists p', producers, epoch, ProtocolKafka, fss'. split_and!.
  - apply find_store. by eexists.
  - by right.
  - done.
  - congruence.
  - rewrite Hcat, fmap_app, Henv, envelopes_app. cbn. by rewrite Hend.
  - rewrite (lr_end _ _ Hrep'), Hcat, concat_app, records_in_app. cbn [concat]. rewrite app_nil_r.
    unfold end_of. rewrite last_snoc. unfold last_of. cbn [fst]. lia.
  - rewrite envelopes_app. apply Forall_app. split; [done|]. cbn. rewrite <- Hend. constructor; [apply Hfits|constructor].
Qed.

Lemma kafka_run_holds done bss topics final :
  holds done topics -> kafka_run bss topics final ->
  answered bss topics = bases (records_in (concat done)) bss /\ holds (done ++ bss) final.
Proof.
  revert done topics. induction bss as [|bs bss IH]; intros before topics Hh; cbn [kafka_run answered bases].
  - intros ->. by rewrite app_nil_r.
  - intros (Hbs & Hcount & Hfits & Herr & Hrun).
    destruct (produce_blob_holds before bs topics Hh Hbs Hcount Hfits Herr) as [Hbase Hh'].
    destruct (IH _ _ Hh' Hrun) as [Ha Hf]. rewrite <- app_assoc in Hf. split; [|exact Hf].
    rewrite Hbase, Ha, concat_app, records_in_app. cbn [concat]. by rewrite app_nil_r.
Qed.

(** Reading with room for everything. *)
Lemma take_until_all max r bs :
  (length (fr_batches r) + length (concat (batch_layout <$> bs)) <= max)%nat ->
  fr_batches (take_until max r bs) = fr_batches r ++ concat (batch_layout <$> bs).
Proof.
  revert r. induction bs as [|b bs IH]; intros r Hmax; cbn [take_until fmap list_fmap concat]; [by rewrite app_nil_r|].
  cbn [fmap list_fmap concat] in Hmax. rewrite length_app, length_batch_layout in Hmax. unfold encoded_size, kHeaderSize in Hmax.
  rewrite (proj2 (Nat.ltb_lt _ _)) by lia. rewrite IH; cbn [fr_batches]; [by rewrite app_assoc|].
  rewrite length_app, length_batch_layout. unfold encoded_size, kHeaderSize. lia.
Qed.

Lemma skip_envelopes offset o pre bs rest :
  Forall (fun bs => 0 < records_in bs) pre -> o + records_in (concat pre) <= offset < o + records_in (concat pre) + records_in bs ->
  skip_batches offset (envelopes o (pre ++ bs :: rest)) = envelopes (o + records_in (concat pre)) (bs :: rest).
Proof.
  intros Hpre. revert o. induction Hpre as [|x pre Hx Hpre IH]; intros o Ho; cbn [app envelopes concat skip_batches] in *.
  - change (records_in []) with 0 in *. rewrite Z.add_0_r in *.
    unfold batch_last_offset. cbn [rebase b_header h_base_offset h_record_count envelope].
    by rewrite (proj2 (Z.ltb_ge _ _)) by lia.
  - rewrite records_in_app in Ho |- *. unfold batch_last_offset at 1. cbn [rebase b_header h_base_offset h_record_count envelope].
    assert (0 <= records_in (concat pre)).
    { clear -Hpre. induction Hpre as [|y l Hy _ IHl]; [done|]. cbn [concat]. rewrite records_in_app. lia. }
    rewrite (proj2 (Z.ltb_lt _ _)) by lia. rewrite IH by lia. by rewrite Z.add_assoc.
Qed.

Lemma read_back_envelopes o bss :
  concat (zip_with read_back (envelopes o bss) bss) = blob_of (numbered o (concat bss)).
Proof.
  revert o. induction bss as [|bs bss IH]; intros o; cbn [envelopes zip_with concat]; [done|].
  rewrite IH, numbered_app, blob_of_app. done.
Qed.

Lemma envelopes_hold o bss :
  Forall batch_ok (envelopes o bss) -> Forall batches_ok bss -> Forall2 envelope_of (envelopes o bss) bss.
Proof.
  revert o. induction bss as [|bs bss IH]; intros o; cbn [envelopes]; [constructor|].
  intros [He Hes]%Forall_cons [Hb Hbs]%Forall_cons. constructor; [by split_and!|by apply IH].
Qed.

(** The bytes of the log's batches. *)
Definition stored_size (bss : list Batches) : Z := Z.of_nat (length (concat (batch_layout <$> envelopes 0 bss))).

(** C18. What is produced through the facade is what is fetched through it.  After blobs of whole Kafka
    batches, of 1 to 2^31 - 1 records each, are produced without error to a new partition that is
    neither replicated nor tiered, each was answered the offset after the records before it; and a
    fetch from any offset that a record has, with a limit no smaller than the whole log, gives, from
    the blob that holds it on, the Kafka batches in their order, numbered one after the other, with
    all their other bytes as they were sent.  (A blob whose counts add up to more rewinds the log:
    [count_overflow_rewinds_log].) *)
Theorem kafka_produce_then_fetch (cfg : LogConfig) (files : Z -> expected (File.File * File.File)) (p : PartitionLog T) (epoch : Z)
    (topics final : Topics) (pre : list Batches) (bs : Batches) (rest : list Batches) (req : KFetchPartitionRequest)
    (Hopen : pg_open env cfg None (Ok []) files = Ok p)
    (Hnew : find_partition topic pid topics = Some (Plain (new_partition p epoch)))
    (Hrun : kafka_run (pre ++ bs :: rest) topics final)
    (Hpid : kfp_partition req = pid)
    (Hoffset : records_in (concat pre) <= kfp_fetch_offset req < records_in (concat pre) + records_in bs)
    (Hroom : stored_size (pre ++ bs :: rest) <= kfp_partition_max_bytes req) :
  answered (pre ++ bs :: rest) topics = bases 0 (pre ++ bs :: rest) /\
  fetch_partition topic req final =
    MkKFetchPartitionResponse pid 0 (records_in (concat (pre ++ bs :: rest))) (records_in (concat (pre ++ bs :: rest))) 0 (-1)
      (blob_of (numbered (records_in (concat pre)) (concat (bs :: rest)))).
Proof.
  destruct (pg_open_rep env EL _ _ _ Hopen) as (Hrep & Hst & Hen).
  assert (Hh : holds [] topics).
  { exists p, ∅, epoch, ProtocolUnset, [[]]. split_and!; try done. by left. }
  destruct (kafka_run_holds [] _ topics final Hh Hrun) as [Ha Hf]. split; [exact Ha|]. cbn [app] in Hf.
  assert (Hall : Forall (fun bs => batches_ok bs /\ 0 < records_in bs) (pre ++ bs :: rest)).
  { clear -Hrun. revert topics Hrun. induction (pre ++ bs :: rest) as [|x l IH]; intros topics; [constructor|].
    cbn. intros (H1 & H2 & _ & _ & H3). constructor; [split; [done|lia]|by eapply IH]. }
  destruct Hf as (q & producers & ep & proto & fss & Hfind & Hproto & Hq & Hqs & Henv & Hqe & Hok).
  unfold fetch_partition. rewrite Hpid, Hfind.
  change (pb_protocol _) with proto.
  replace (negb (bool_decide (proto = ProtocolUnset)) && negb (bool_decide (proto = ProtocolKafka))) with false
    by (by destruct Hproto as [->| ->]).
  assert (Hsize : (length (concat (batch_layout <$> envelopes (records_in (concat pre)) (bs :: rest)))
    <= Z.to_nat (kfp_partition_max_bytes req))%nat /\ 0 < kfp_partition_max_bytes req).
  { unfold stored_size in Hroom. rewrite envelopes_app, fmap_app, concat_app, length_app in Hroom. rewrite Z.add_0_l in Hroom.
    cbn [envelopes fmap list_fmap concat] in *. rewrite length_app, length_batch_layout in *. unfold encoded_size, kHeaderSize in *. lia. }
  rewrite (proj2 (Z.ltb_lt _ _)) by lia.
  unfold pb_fetch, kafka_log_base, BrokerPartition_base, partition_fetch. cbn [pt_state pr_store].
  assert (Hpre : Forall (fun bs => 0 < records_in bs) pre) by (apply Forall_app in Hall as [Hall _]; eapply Forall_impl; [done|]; intros x [_ Hx]; exact Hx).
  assert (0 <= records_in (concat pre)).
  { clear -Hpre. induction Hpre as [|y l Hy _ IHl]; [done|]. cbn [concat]. rewrite records_in_app. lia. }
  unfold pl_read, kafka_log_ops, PartitionLog_ops. rewrite (pg_read_spec env q fss) by (done || lia).
  cbn [expected_bind]. unfold read_spec. rewrite Henv, (skip_envelopes _ 0 pre bs rest Hpre) by lia.
  rewrite take_until_all by (cbn [fr_batches length]; rewrite Z.add_0_l; lia). cbn [fr_batches app]. rewrite Z.add_0_l.
  rewrite (rebuild_envelopes _ (bs :: rest)), read_back_envelopes.
  - change (pb_log_start _) with (pg_log_start q). change (pb_high_watermark _) with (pg_log_end q). by rewrite Hqs, Hqe.
  - apply envelopes_hold.
    + rewrite envelopes_app, Z.add_0_l in Hok. by apply Forall_app in Hok as [_ Hok].
    + apply Forall_app in Hall as [_ Hall]. eapply Forall_impl; [done|]. intros x [Hx _]; exact Hx.
Qed.
End ProduceFetch.

(** A batch of Kafka with a number of records and no more than its header, and a topic whose
    partition 0 is a new encrypted log. *)
Definition bare_batch (count : Z) : list byte :=
  store_be 8 0 ++ store_be 4 49 ++ store_be 4 0 ++ [2] ++ store_be 4 0 ++ store_be 2 0 ++ store_be 4 (count - 1)
    ++ replicate 30 0 ++ store_be 4 count.

Definition counted (count : Z) : list byte * Z := (bare_batch count, count).

Lemma bare_batch_ok : kafka_batch (bare_batch 2) 2 /\ kafka_batch (bare_batch 3) 3.
Proof. split; eexists; (split; [vm_compute; reflexivity|done]). Qed.

Section Sample.
#[local] Existing Instance sample_crypto.
#[local] Existing Instance sample_crypto_laws.

Abbreviation Log := (PartitionLog Empty_set) (only parsing).
#[local] Instance sample_log_ops : PartitionLogOps Log := PartitionLog_ops log_env.
#[local] Instance sample_log_base : PartitionBase (BrokerPartition Log) := BrokerPartition_base (pg_enforce_retention log_env).

Definition one_topic (p : Log) : TopicManager (BrokerPartition Log) :=
  MkTopicManager 1 0 {["t"%string := MkTopic (MkTopicMetadata "t" 1 1 default_topic_config 0) {[0 := Plain (new_partition p 0)]}]} [].

Definition first_blob : list (list byte * Z) := [counted 2; counted 3].
Definition second_blob : list (list byte * Z) := [counted 3; counted 2].

Definition sample_topics (p : Log) : TopicManager (BrokerPartition Log) :=
  (produce_partition "t" (MkKProducePartition 0 (blob_of second_blob))
     (produce_partition "t" (MkKProducePartition 0 (blob_of first_blob)) (one_topic p)).2).2.

Lemma kafka_produce_then_fetch_witness :
  exists p, pg_open log_env log_cfg None (Ok []) (env_files log_env 0) = Ok p /\
    fetch_partition "t" (MkKFetchPartition 0 (-1) 6 (-1) (-1) 1000) (sample_topics p) =
      MkKFetchPartitionResponse 0 0 10 10 0 (-1) (set_base_offset (bare_batch 3) 5 ++ set_base_offset (bare_batch 2) 8).
Proof.
  destruct (pg_open log_env log_cfg None (Ok []) (env_files log_env 0)) as [p|e] eqn:Hopen; [|vm_compute in Hopen; discriminate].
  exists p. split; [reflexivity|].
  assert (Hnew : find_partition "t" 0 (one_topic p) = Some (Plain (new_partition p 0))) by reflexivity.
  assert (Hrun : kafka_run log_env (pg_enforce_retention log_env) "t" 0 ([first_blob] ++ second_blob :: []) (one_topic p) (sample_topics p)).
  { destruct bare_batch_ok. vm_compute in Hopen. injection Hopen as <-.
    split; [repeat constructor; assumption|]. split; [vm_compute; split; reflexivity|].
    split; [intros q Hq; vm_compute in Hq; injection Hq as <-; by_append_fits|]. split; [vm_compute; reflexivity|].
    split; [repeat constructor; assumption|]. split; [vm_compute; split; reflexivity|].
    split; [intros q Hq; vm_compute in Hq; injection Hq as <-; by_append_fits|]. split; [vm_compute; reflexivity|].
    reflexivity. }
  assert (Hoffset : records_in (concat [first_blob]) <= 6 < records_in (concat [first_blob]) + records_in second_blob)
    by (vm_compute; split; [discriminate|reflexivity]).
  assert (Hroom : stored_size ([first_blob] ++ second_blob :: []) <= 1000) by (vm_compute; discriminate).
  destruct (kafka_produce_then_fetch (EL := log_env_laws) log_env (pg_enforce_retention log_env) "t" 0 log_cfg (env_files log_env 0) p 0
    (one_topic p) (sample_topics p) [first_blob] second_blob [] (MkKFetchPartition 0 (-1) 6 (-1) (-1) 1000)
    Hopen Hnew Hrun eq_refl Hoffset Hroom) as [_ Hf].
  etransitivity; [exact Hf|]. vm_compute. reflexivity.
Defined.
(** The sum of the record counts of a blob is a 32-bit integer the client controls.  Two batches
    that announce [2^31 - 1] records each add up to -2: the blob is accepted, the end of the log goes
    back by two, and the next producer is answered offsets that records already have. *)
Theorem count_overflow_rewinds_log :
  let p := match pg_open log_env log_cfg None (Ok []) (env_files log_env 0) with Ok p => p | Err _ => opened log_env log_cfg end in
  let produce blob := produce_partition "t" (MkKProducePartition 0 (blob_of blob)) in
  let end_of topics := pb_log_end <$> find_partition "t" 0 topics in
  let '(r1, topics1) := produce first_blob (one_topic p) in
  let '(r2, topics2) := produce [counted (2 ^ 31 - 1); counted (2 ^ 31 - 1)] topics1 in
  let '(r3, topics3) := produce second_blob topics2 in
  (r1 = produce_reply 0 0 0 /\ end_of topics1 = Some 5) /\
  (r2 = produce_reply 0 0 5 /\ end_of topics2 = Some 3) /\
  r3 = produce_reply 0 0 3.
Proof. vm_compute. done. Qed.
(** No handler looks at the sign of a record count.  A native batch that announces -2 records is
    stored like any other: its producer is told it went well, the end of the log goes back by two, and
    the next batch is given offsets that records already have. *)
Theorem negative_count_rewinds_log :
  let p := match pg_open log_env log_cfg None (Ok []) (env_files log_env 0) with Ok p => p | Err _ => opened log_env log_cfg end in
  let produce count := handle_produce (MkProduceRequest "t" 0 AcksLeader (batch_encode (log_batch count [1; 2; 3]) [])) in
  let end_of topics := pb_log_end <$> find_partition "t" 0 topics in
  let '(r1, topics1) := produce 5 (one_topic p) in
  let '(r2, topics2) := produce (-2) topics1 in
  let '(r3, topics3) := produce 2 topics2 in
  (r1 = MkProduceResponse 0 NoError 0 /\ end_of topics1 = Some 5) /\
  (r2 = MkProduceResponse 5 NoError 0 /\ end_of topics2 = Some 3) /\
  (r3 = MkProduceResponse 3 NoError 0 /\ end_of topics3 = Some 5).
Proof. vm_compute. done. Qed.
End Sample.
