(* ===== verification/KafkaService.v ===== *)
(** * The service of the Kafka facade

    The facade of a broker with many cores answers every request as that of a broker with one; a call
    of a client, from its frame to the response it reads, is the broker's operation; and a connection
    answers the requests of its client in order, however the transport cuts the bytes. *)
From Stdlib Require Import ZArith Lia Ascii String.
From stdpp Require Import base list gmap sets strings.
From S2P Require Import Prelude Bytes Record Codec Messages Frame FrameIo Partition Topics TopicsSafety RequestRouter RouterSafety.
From S2P Require Import RaftLogRecovery Partition Connection KafkaCodec KafkaApis KafkaWire KafkaReplies KafkaBatch KafkaGateway KafkaSafety.
#[local] Open Scope Z_scope.

(** ** Many cores and one *)

Section Cores.
Context {Q : Type} {PB : PartitionBase Q}.
Context (hash_order : gmap string (Topic Q) -> list (string * Topic Q)).
Context (Horder : forall m, prod_map id bare <$> hash_order m = hash_order (bare <$> m)).

(** [fn] reads a partition only, and changes nothing else. *)
Definition partition_local {R} (topic : string) (pid : Z) (fn : TopicManager Q -> R * TopicManager Q) : Prop :=
  forall tm tm', find_partition topic pid tm = find_partition topic pid tm' ->
    (fn tm).1 = (fn tm').1 /\
    (((fn tm).2 = tm /\ (fn tm').2 = tm') \/
     exists q, is_Some (find_partition topic pid tm) /\
       (fn tm).2 = store_partition topic pid q tm /\ (fn tm').2 = store_partition topic pid q tm').

Lemma on_owner_agree {R} (none : R) topic pid fn (B b : Broker Q) :
  partition_local topic pid fn -> sharded B b -> agree (on_owner none pid fn B) (on_owner none pid fn b).
Proof.
  intros Hfn Hs. pose proof (sh_topics _ _ Hs) as (whole & Hb & Hw & Hinv & Hc). pose proof (sh_one _ _ Hs) as [Hu H0].
  destruct (partition_core_owner B b pid Hs) as (tm & Htm & Hown). pose proof (Hc _ _ Htm) as Hshows.
  pose proof (find_shows _ _ _ _ topic pid Hshows Hown) as Hfind.
  destruct (Hfn tm whole Hfind) as [Hresp Hstate].
  unfold on_owner. unfold partition_core at 2. rewrite Hu, H0, Hb. unfold on_core. rewrite Htm. cbn [lookup list_lookup].
  destruct (fn tm) as [resp tm'], (fn whole) as [resp' whole']. cbn in *. subst resp'. split; [done|]. cbn.
  destruct Hstate as [[-> ->]|(q & Hsome & -> & ->)].
  - rewrite list_insert_id by done. by apply set_topics_agree.
  - apply set_topics_agree; [done|apply length_insert|exact Hw| |].
    + apply Forall_insert; [done|]. apply store_inv; [|done]. by eapply Forall_lookup_1.
    + intros i tm0 [(<- & <- & _)|[Hne Hi]]%list_lookup_insert_Some.
      * by apply store_shows.
      * apply store_shows_other; [by apply Hc|]. rewrite Hown. lia.
Qed.

Lemma collect_agree {A R} (f : A -> Broker Q -> R * Broker Q) xs B b :
  (forall x B b, sharded B b -> agree (f x B) (f x b)) -> sharded B b -> agree (collect f xs B) (collect f xs b).
Proof.
  intros Hf. revert B b. induction xs as [|x xs IH]; intros B b Hs; cbn [collect]; [done|].
  destruct (Hf x B b Hs) as [Hr Hs1]. destruct (f x B) as [r B1], (f x b) as [r' b1]. cbn in Hr, Hs1. subst r'.
  destruct (IH B1 b1 Hs1) as [Hrs Hs2]. destruct (collect f xs B1) as [rs B2], (collect f xs b1) as [rs' b2].
  cbn in Hrs, Hs2. subst rs'. done.
Qed.

Lemma produce_partition_local topic data : partition_local topic (kpd_index data) (produce_partition topic data).
Proof.
  intros tm tm' Hf. unfold produce_partition. rewrite Hf. destruct (find_partition _ _ tm') as [q|]; [|by auto].
  destruct (count_records _) as [total|e]; [|by auto]. destruct (total =? 0); [by auto|].
  destruct (pb_claim ProtocolKafka q) as [[u|e] q1].
  2: { cbn. split; [done|]. right. exists q1. eauto. }
  destruct (pb_produce _ q1) as [[last|e] q2]; cbn; rewrite !store_twice; (split; [done|]); right; exists q2; eauto.
Qed.

(** A function that only reads. *)
Lemma reading_local {R} topic pid (g : TopicManager Q -> R) :
  (forall tm tm', find_partition topic pid tm = find_partition topic pid tm' -> g tm = g tm') ->
  partition_local topic pid (fun tm => (g tm, tm)).
Proof. intros Hg tm tm' Hf. cbn. split; [by apply Hg|]. by left. Qed.

Lemma kafka_produce_agree req k B b :
  sharded B b -> (kafka_produce req k B).1 = (kafka_produce req k b).1 /\
  (kafka_produce req k B).2.1 = (kafka_produce req k b).2.1 /\ sharded (kafka_produce req k B).2.2 (kafka_produce req k b).2.2.
Proof.
  intros Hs. unfold kafka_produce.
  destruct (collect_agree kafka_produce_topic (kpq_topics req) B b) as [Hr Hs']; [|done|].
  - clear. intros t B b Hs. unfold kafka_produce_topic.
    destruct (collect_agree (kafka_produce_one (kpt_name t)) (kpt_partitions t) B b) as [Hr Hs']; [|done|].
    + clear. intros d B b Hs. apply (on_owner_agree _ _ _ _ _ _ (produce_partition_local _ d) Hs).
    + destruct (collect _ _ B), (collect _ _ b). cbn in *. subst. done.
  - destruct (collect _ _ B), (collect _ _ b). cbn in *. subst. done.
Qed.

Lemma kafka_fetch_agree req k B b :
  sharded B b -> (kafka_fetch req k B).1 = (kafka_fetch req k b).1 /\
  (kafka_fetch req k B).2.1 = (kafka_fetch req k b).2.1 /\ sharded (kafka_fetch req k B).2.2 (kafka_fetch req k b).2.2.
Proof.
  intros Hs. unfold kafka_fetch.
  destruct (collect_agree kafka_fetch_topic (kfq_topics req) B b) as [Hr Hs']; [|done|].
  - clear. intros t B b Hs. unfold kafka_fetch_topic.
    destruct (collect_agree (kafka_fetch_one (kft_topic t)) (kft_partitions t) B b) as [Hr Hs']; [|done|].
    + clear. intros p B b Hs. refine (on_owner_agree _ _ _ _ _ _ (reading_local (kft_topic t) _ (fetch_partition (kft_topic t) p) _) Hs).
      intros tm tm' Hf. unfold fetch_partition. by rewrite Hf.
    + destruct (collect _ _ B), (collect _ _ b). cbn in *. subst. done.
  - destruct (collect _ _ B), (collect _ _ b). cbn in *. subst. done.
Qed.

Lemma kafka_list_agree req B b : sharded B b -> agree (kafka_list_offsets req B) (kafka_list_offsets req b).
Proof.
  intros Hs. unfold kafka_list_offsets.
  destruct (collect_agree kafka_list_topic (klq_topics req) B b) as [Hr Hs']; [|done|].
  - clear. intros t B b Hs. unfold kafka_list_topic.
    destruct (collect_agree (kafka_list_one (klt_name t)) (klt_partitions t) B b) as [Hr Hs']; [|done|].
    + clear. intros p B b Hs. refine (on_owner_agree _ _ _ _ _ _ (reading_local (klt_name t) _ (list_offset_partition (klt_name t) p) _) Hs).
      intros tm tm' Hf. unfold list_offset_partition. by rewrite Hf.
    + destruct (collect _ _ B), (collect _ _ b). cbn in *. subst. done.
  - destruct (collect _ _ B), (collect _ _ b). cbn in *. subst. done.
Qed.

Lemma list_metadata_bare (tm : TopicManager Q) :
  untimed <$> list_metadata hash_order tm = (fun p => t_meta p.2) <$> hash_order (bare <$> tmg_topics tm).
Proof. unfold list_metadata. rewrite <- Horder, <- !list_fmap_compose. apply list_fmap_ext. by intros _ [name t] _. Qed.

(** Kafka is not told when a topic was created. *)
Lemma describe_untimed node_id (l l' : list TopicMetadata) :
  untimed <$> l = untimed <$> l' ->
  (fun meta => kafka_describe_topic meta node_id) <$> l = (fun meta => kafka_describe_topic meta node_id) <$> l' /\
  forall name, (fun meta => kafka_describe_topic meta node_id) <$> List.find (fun meta => String.eqb (td_name meta) name) l
    = (fun meta => kafka_describe_topic meta node_id) <$> List.find (fun meta => String.eqb (td_name meta) name) l'.
Proof.
  revert l'. induction l as [|m l IH]; intros [|m' l'] Hl; try done. apply (f_equal (fun x => (head x, tail x))) in Hl as [= Hn Hp Hr Hc Htl].
  assert (Hd : kafka_describe_topic m node_id = kafka_describe_topic m' node_id) by (unfold kafka_describe_topic; by rewrite Hn, Hp).
  destruct (IH l' Htl) as [H1 H2]. split; [cbn; by rewrite Hd, H1|]. intros name. cbn. rewrite Hn. destruct (String.eqb _ _); [cbn; by rewrite Hd|apply H2].
Qed.

Lemma kafka_metadata_agree req k B b : sharded B b -> kafka_metadata hash_order req k B = kafka_metadata hash_order req k b.
Proof.
  intros Hs. pose proof (sh_topics _ _ Hs) as (whole & Hb & Hw & Hinv & Hc). pose proof (sh_one _ _ Hs) as [Hu H0].
  unfold kafka_metadata. rewrite Hb, H0. cbn [lookup list_lookup].
  destruct (lookup_lt_is_Some_2 (br_topics B) (br_self B) (sh_self _ _ Hs)) as [tm Htm]. rewrite Htm.
  assert (Hl : untimed <$> list_metadata hash_order tm = untimed <$> list_metadata hash_order whole).
  { rewrite !list_metadata_bare. do 2 f_equal.
    assert (Hbare : forall m : gmap string (Topic Q), bare <$> m = (fun md => MkTopic md ∅) <$> (untimed ∘ t_meta <$> m))
      by (intros m; rewrite <- map_fmap_compose; done).
    rewrite !Hbare. f_equal. apply (cs_meta _ _ _ _ (Hc _ _ Htm)). }
  destruct (describe_untimed (kb_node_id k) _ _ Hl) as [H1 H2]. f_equal. destruct (kmq_topics req) as [wanted|]; [|exact H1].
  apply list_fmap_ext. intros _ name _. specialize (H2 name). cbv beta in H2.
  destruct (List.find _ (list_metadata hash_order tm)), (List.find _ (list_metadata hash_order whole)); cbn in H2; congruence.
Qed.

Lemma handle_request_agree request k B b :
  sharded B b ->
  (handle_request hash_order request k B).1 = (handle_request hash_order request k b).1 /\
  (handle_request hash_order request k B).2.1 = (handle_request hash_order request k b).2.1 /\
  sharded (handle_request hash_order request k B).2.2 (handle_request hash_order request k b).2.2.
Proof.
  intros Hs. unfold handle_request. destruct (decode_request_header _) as [[h|e] dec]; [|done]. cbv zeta.
  destruct (kafka_api_key (kh_api_key h)).
  - destruct (decode_produce_request _ dec) as [[req|e] d]; [|done].
    destruct (kafka_produce_agree req k B b Hs) as (Hr & Hk & Hb).
    destruct (kafka_produce req k B) as [r [k1 B1]], (kafka_produce req k b) as [r' [k1' b1]]. cbn in *. by subst.
  - destruct (decode_fetch_request _ dec) as [[req|e] d]; [|done].
    destruct (kafka_fetch_agree req k B b Hs) as (Hr & Hk & Hb).
    destruct (kafka_fetch req k B) as [r [k1 B1]], (kafka_fetch req k b) as [r' [k1' b1]]. cbn in *. by subst.
  - destruct (decode_list_offsets_request dec) as [[req|e] d]; [|done].
    destruct (kafka_list_agree req B b Hs) as [Hr Hb].
    destruct (kafka_list_offsets req B) as [r B1], (kafka_list_offsets req b) as [r' b1]. cbn in *. by subst.
  - destruct (decode_metadata_request dec) as [[req|e] d]; [|done]. rewrite (kafka_metadata_agree req k B b Hs). done.
  - done.
  - done.
Qed.

(** The answers to a sequence of requests. *)
Fixpoint kafka_answers (requests : list (list byte)) (k : KafkaServerBroker) (b : Broker Q) : list (expected (list byte)) :=
  match requests with
  | [] => []
  | request :: rest =>
      let '(r, (k, b)) := handle_request hash_order request k b in r :: kafka_answers rest k b
  end.

(** Kafka sees one broker: the facade of a broker whose partitions are spread over any number of
    cores answers every sequence of requests, well formed or not, with the bytes of the facade of a
    broker with one core that holds all of them. *)
Theorem kafka_sharding_refines (requests : list (list byte)) (k : KafkaServerBroker) (B b : Broker Q)
    (Hsharded : sharded B b) :
  kafka_answers requests k B = kafka_answers requests k b.
Proof.
  revert k B b Hsharded. induction requests as [|request rest IH]; intros k B b Hs; cbn [kafka_answers]; [done|].
  destruct (handle_request_agree request k B b Hs) as (Hr & Hk & Hs').
  destruct (handle_request hash_order request k B) as [r [k1 B1]], (handle_request hash_order request k b) as [r' [k1' b1]].
  cbn in *. subst. by rewrite (IH k1' B1 b1 Hs').
Qed.
End Cores.

(** ** A call *)

Section Call.
Context {Q : Type} {PB : PartitionBase Q}.
Context (hash_order : gmap string (Topic Q) -> list (string * Topic Q)).

(** The operation of the broker a request asks for. *)
Definition kafka_operation (r : KafkaRequest) (k : KafkaServerBroker) (b : Broker Q) :
    KafkaReply * (KafkaServerBroker * Broker Q) :=
  match r with
  | AskProduce req => let '(resp, kb) := kafka_produce req k b in (ReplyProduce resp, kb)
  | AskFetch _ req => let '(resp, kb) := kafka_fetch req k b in (ReplyFetch resp, kb)
  | AskListOffsets req => let '(resp, b) := kafka_list_offsets req b in (ReplyListOffsets resp, (k, b))
  | AskMetadata req => (ReplyMetadata (kafka_metadata hash_order req k b), (k, b))
  end.

(** A client reads the number of its call, and the tagged fields of the flexible versions. *)
Definition client_reads_response (key : KApiKey) (v : Z) (like : KafkaReply) : Reader (Z * KafkaReply) :=
  let! correlation_id := kget_i32 in
  let! tags := kget_tags (is_flexible key v) in
  let! r := client_reads v like in
  ret (correlation_id, r).

Lemma response_header_app correlation_id key v :
  key <> KApiVersions ->
  encode_response_header correlation_id (response_header_version key v) []
  = store_be 4 correlation_id ++ bytes_when (is_flexible key v) (tagged_fields []).
Proof.
  intros Hk. unfold encode_response_header, response_header_version. destruct key; try done; by destruct (is_flexible _ v).
Qed.

Lemma encode_reply_out v r out :
  reply_ok v r ->
  match r with
  | ReplyProduce r => encode_produce_response r v out | ReplyFetch r => encode_fetch_response r v out
  | ReplyListOffsets r => encode_list_offsets_response r out | ReplyMetadata r => encode_metadata_response r out
  | ReplyApiVersions _ => out ++ encode_reply v r
  end = out ++ encode_reply v r.
Proof.
  intros Hr. destruct r; cbn [encode_reply reply_ok] in *.
  - by rewrite !encode_produce_writes. - by rewrite !encode_fetch_writes. - by rewrite !encode_list_offsets_writes.
  - by rewrite !encode_metadata_writes. - done.
Qed.

(** C17. A Kafka client sees the operations of the broker: to a request of Produce at versions 0 to 9, of
    Fetch at 0 to 12, of ListOffsets at 6 and 7 or of Metadata at 9 (the classic versions of these two
    are announced and misread, [classic_version_misread]), sent with any tagged fields and of sizes
    the wire has, the gateway answers bytes that the client reads, to the last one, as the number of
    its call and the answer of the operation on the broker's state, and the broker is left as the
    operation leaves it. *)
Theorem kafka_call_answered (tags : list (Z * list byte)) (v correlation_id : Z) (client_id : option string) (r : KafkaRequest)
    (k : KafkaServerBroker) (b : Broker Q)
    (Htags : tagged_ok tags) (Hr : request_ok v r) (Hh : kheader_ok (client_header_of v correlation_id client_id r))
    (Hreply : reply_ok v (kafka_operation (request_at v r) k b).1) :
  exists response,
    handle_request hash_order (client_frame tags (client_header_of v correlation_id client_id r) r) k b
    = (Ok response, (kafka_operation (request_at v r) k b).2) /\
    client_reads_response (request_key r) v (kafka_operation (request_at v r) k b).1 (MkDecoder response 0)
    = (Ok (correlation_id, reply_at v (kafka_operation (request_at v r) k b).1), MkDecoder response (length response)).
Proof.
  set (h := client_header_of v correlation_id client_id r) in *. set (reply := (kafka_operation (request_at v r) k b).1) in *.
  exists (encode_response_header correlation_id (response_header_version (request_key r) v) [] ++ encode_reply v reply). split.
  - assert (Hd : starts_with (MkDecoder (client_frame tags h r) 0) (client_header tags h ++ client_body tags v r))
      by (exists []; cbn; by rewrite app_nil_r).
    apply starts_with_app in Hd as [Hd1 Hd2]. unfold handle_request. rewrite (request_header_reads tags Htags h Hh _ Hd1).
    cbv zeta. unfold h. rewrite request_key_read. fold h. pose proof (body_reads tags v r Htags Hr _ Hd2) as Hbody.
    pose proof (encode_reply_out v reply) as Hout.
    subst reply. destruct r; cbn [request_key decode_body request_at client_header_of h kh_api_version kh_correlation_id] in *;
      unfold rbind in Hbody.
    + destruct (decode_produce_request v _) as [[req|e] d]; [|done]. injection Hbody as -> _. cbn [kafka_operation] in *.
      destruct (kafka_produce _ k b) as [resp kb]. cbn [fst snd] in *. by rewrite Hout.
    + destruct (decode_fetch_request v _) as [[req|e] d]; [|done]. injection Hbody as -> _. cbn [kafka_operation] in *.
      destruct (kafka_fetch _ k b) as [resp kb]. cbn [fst snd] in *. by rewrite Hout.
    + destruct (decode_list_offsets_request _) as [[req|e] d]; [|done]. injection Hbody as -> _. cbn [kafka_operation] in *.
      destruct (kafka_list_offsets _ b) as [resp b']. cbn [fst snd] in *. by rewrite Hout.
    + destruct (decode_metadata_request _) as [[req|e] d]; [|done]. injection Hbody as -> _. cbn [kafka_operation fst snd] in *.
      by rewrite Hout.
  - rewrite response_header_app, <- app_assoc by (by destruct r).
    set (response := store_be 4 correlation_id ++ _). 
    assert (H : reads (client_reads_response (request_key r) v reply) response (correlation_id, reply_at v reply)).
    { destruct Hh as (_ & _ & Hc & _). unfold client_reads_response. eapply reads_bind; [by apply reads_kget_i32|].
      eapply reads_bind; [by apply reads_tags|]. apply (reads_bind_last _ (fun r => (correlation_id, r))). by apply reply_reads. }
    rewrite (H (MkDecoder response 0)); [done|]. exists []. cbn. by rewrite app_nil_r.
Qed.
End Call.

(** ** A connection *)

Section Streams.
Context {Q : Type} {PB : PartitionBase Q}.
Context (hash_order : gmap string (Topic Q) -> list (string * Topic Q)).
Context {S : Type} {BS : ByteStream S}.

(** The loops of this connection and those of the native one differ in the text of their errors. *)
Lemma kafka_read_as_native fuel total buf (s : S) r :
  read_exactly fuel total buf s = (Ok tt, r) -> kafka_read_exactly fuel total buf s = (Ok tt, r).
Proof.
  revert buf s. induction fuel as [|fuel IH]; intros buf s; cbn; destruct (total <=? length buf)%nat; try done.
  destruct (async_recv _ s) as [[[|b got]|e] s1]; [done| |done]. apply IH.
Qed.

Lemma kafka_send_as_native data (s s' : S) : send_all data s = (Ok tt, s') -> kafka_send_all data s = (Ok tt, s').
Proof.
  unfold send_all, kafka_send_all. generalize (length data). intros fuel. revert data s.
  induction fuel as [|fuel IH]; intros [|b data] s; cbn; try done.
  destruct (async_send _ s) as [[[|n]|e] s1]; [done| |done]. apply IH.
Qed.

(** What a client writes for a request, and the broker for its response. *)
Definition sized_frame (body : list byte) : list byte := kput_i32 (to_i 32 (Z.of_nat (length body))) [] ++ body.

(** The responses, up to the first request that is refused. *)
Fixpoint kafka_session (requests : list (list byte)) (k : KafkaServerBroker) (b : Broker Q) :
    list byte * (KafkaServerBroker * Broker Q) :=
  match requests with
  | [] => ([], (k, b))
  | request :: rest =>
      match handle_request hash_order request k b with
      | (Err _, kb) => ([], kb)
      | (Ok response, (k, b)) => let '(out, kb) := kafka_session rest k b in (sized_frame response ++ out, kb)
      end
  end.

Definition request_fits (request : list byte) : Prop := 0 < Z.of_nat (length request) <= kMaxKafkaFrame.

Context {BL : ByteStreamLaws S}.

Lemma kafka_read_healthy (n : nat) (s : S) want rest :
  healthy s -> pending s = want ++ rest -> length want = n ->
  exists s', kafka_read_exactly n n [] s = (Ok tt, (want, s')) /\ pending s' = rest /\ sent s' = sent s /\ healthy s'.
Proof.
  intros Hh Hp Hl. destruct (read_exactly_healthy n n [] s want rest Hh Hp) as (s' & H & Hs); [done|lia|].
  exists s'. split; [|done]. by apply kafka_read_as_native.
Qed.

Lemma kafka_send_healthy data (s : S) :
  healthy s -> exists s', kafka_send_all data s = (Ok tt, s') /\ sent s' = sent s ++ data /\ pending s' = pending s /\ healthy s'.
Proof. intros Hh. destruct (send_all_healthy data s Hh) as (s' & H & Hs). exists s'. split; [|done]. by apply kafka_send_as_native. Qed.

Lemma kafka_read_closed n (s : S) :
  healthy s -> pending s = [] -> (0 < n)%nat ->
  exists e s', kafka_read_exactly n n [] s = (Err e, ([], s')) /\ pending s' = [] /\ sent s' = sent s.
Proof.
  intros Hh Hp Hn. destruct n as [|n]; [lia|]. cbn. destruct (recv_closed (Datatypes.S n) s Hh Hp) as (s' & -> & Hp' & Hs' & _).
  by eexists _, s'.
Qed.

Lemma serve_kafka_request fuel request rest (s : S) k b :
  request_fits request -> healthy s -> pending s = sized_frame request ++ rest ->
  match handle_request hash_order request k b with
  | (Err _, kb) => exists s', serve_kafka_connection hash_order (Datatypes.S fuel) s k b = (s', kb) /\ sent s' = sent s
  | (Ok response, (k', b')) =>
      exists s', serve_kafka_connection hash_order (Datatypes.S fuel) s k b = serve_kafka_connection hash_order fuel s' k' b' /\
        pending s' = rest /\ sent s' = sent s ++ sized_frame response /\ healthy s'
  end.
Proof.
  intros [H0 Hmax] Hh Hp. set (len := Z.of_nat (length request)) in *.
  assert (Hr : i_range 32 len) by (unfold i_range, kMaxKafkaFrame in *; width_simpl; lia).
  unfold sized_frame in Hp. fold len in Hp. rewrite to_i_small, <- app_assoc in Hp by (unfold len, kMaxKafkaFrame in *; lia).
  destruct (kafka_read_healthy 4 s (kput_i32 len []) (request ++ rest) Hh Hp eq_refl) as (s1 & Hread & Hp1 & Hs1 & Hh1).
  destruct (kafka_read_healthy (Z.to_nat len) s1 request rest Hh1 Hp1) as (s2 & Hread2 & Hp2 & Hs2 & Hh2); [lia|].
  assert (Hsize : (kget_i32 (MkDecoder (kput_i32 len []) 0)).1 = Ok len).
  { pose proof (reads_kget_i32 len Hr) as Hget. unfold reads in Hget. rewrite (Hget (MkDecoder (kput_i32 len []) 0)); [done|].
    exists []. rewrite app_nil_r. cbn. by rewrite drop_0. }
  cbn [serve_kafka_connection]. rewrite Hread. destruct (kget_i32 _) as [sz d]. cbn in Hsize. rewrite Hsize.
  destruct (Z.leb_spec len 0); [lia|]. destruct (Z.ltb_spec kMaxKafkaFrame len); [lia|]. cbn [orb]. rewrite Hread2.
  destruct (handle_request hash_order request k b) as [[response|e] [k' b']].
  - destruct (kafka_send_healthy (kput_i32 (to_i 32 (Z.of_nat (length response))) []) s2 Hh2) as (s3 & -> & Hs3 & Hp3 & Hh3).
    destruct (kafka_send_healthy response s3 Hh3) as (s4 & -> & Hs4 & Hp4 & Hh4).
    exists s4. unfold sized_frame. rewrite Hs4, Hs3, <- app_assoc. split_and!; congruence.
  - exists s2. split; congruence.
Qed.

(** A Kafka connection serves its requests in order and stops at the first it cannot: whatever bytes
    a client has framed, one request after the other without waiting, well formed or not, and however
    the transport cuts them, the connection answers each with the response of the gateway on the
    state the previous ones left, closes without answering at the first the gateway refuses, and
    leaves the broker as the requests before left it. *)
Theorem kafka_connection_serves (requests : list (list byte)) (fuel : nat) (s : S) (k : KafkaServerBroker) (b : Broker Q)
    (Hfit : Forall request_fits requests) (Hh : healthy s) (Hwire : pending s = concat (sized_frame <$> requests))
    (Hfuel : (length requests < fuel)%nat) :
  exists s', serve_kafka_connection hash_order fuel s k b = (s', (kafka_session requests k b).2) /\
    sent s' = sent s ++ (kafka_session requests k b).1.
Proof.
  revert fuel s k b Hh Hwire Hfuel. induction Hfit as [|request rest Hr _ IH]; intros [|fuel] s k b Hh Hwire Hf;
    [cbn in Hf; lia| |cbn in Hf; lia|].
  - cbn [serve_kafka_connection kafka_session].
    destruct (kafka_read_closed 4 s Hh Hwire) as (e & s' & -> & Hp & Hs); [lia|]. exists s'. by rewrite app_nil_r.
  - pose proof (serve_kafka_request fuel request _ s k b Hr Hh Hwire) as Hone. cbn [kafka_session].
    destruct (handle_request hash_order request k b) as [[response|e] [k' b']].
    + destruct Hone as (s1 & -> & Hp1 & Hs1 & Hh1). destruct (IH fuel s1 k' b' Hh1 Hp1) as (s2 & -> & Hs2); [cbn in Hf; lia|].
      destruct (kafka_session rest k' b') as [out kb]. cbn [fst snd] in Hs2 |- *. exists s2.
      rewrite Hs2, Hs1, <- app_assoc. done.
    + destruct Hone as (s1 & -> & Hs1). exists s1. by rewrite app_nil_r.
Qed.
End Streams.

(** ** On concrete brokers *)

#[local] Existing Instance mem_base.

(** Two brokers that made the topic "a", of three partitions. *)
Definition kafka_broker (routing : bool) (cores self : nat) : Broker (BrokerPartition MemPartition) :=
  (dispatch mem_open no_remove_error key_order 0 (fun _ => 0) CreateTopic (wire_encode (MkCreateTopicRequest "a" 3 1) [])
     (new_broker routing cores self 1 "h" 9092)).2.

Lemma kafka_brokers_sharded : sharded (kafka_broker true 2 1) (kafka_broker false 1 0).
Proof.
  apply (dispatch_agree mem_open no_remove_error (fun _ _ => Plain (new_partition empty_log 0))
    (fun _ _ => eq_refl) (fun _ _ => eq_refl) key_order key_order_bare), new_broker_sharded. lia.
Qed.

Definition ask (v : Z) (r : KafkaRequest) : list byte := client_frame [] (client_header_of v 7 (Some "c"%string) r) r.

Definition kafka_calls : list (list byte) :=
  [ask 9 (AskProduce (MkKProduceRequest None 1 1000 [MkKProduceTopic "a" [MkKProducePartition 2 (bare_batch 2); MkKProducePartition 0 (bare_batch 3)]]));
   ask 12 (AskFetch [] (MkKFetchRequest (MkKFetchHeader (-1) 0 0 100 0 0 (-1))
     [MkKFetchTopic "a" [MkKFetchPartition 2 (-1) 1 (-1) (-1) 1000; MkKFetchPartition 9 (-1) 0 (-1) (-1) 1000]] ""));
   ask 6 (AskListOffsets (MkKListRequest (-1) 0 [MkKListTopic "a" [MkKListPartition 0 (-1) (-1)]]));
   ask 9 (AskMetadata (MkKMetadataRequest None false false false))].

(** The calls, and bytes that no client of Kafka sends. *)
Definition kafka_calls_and_noise : list (list byte) := kafka_calls ++ [[9]].

Definition kafka_server : KafkaServerBroker := MkKafkaBroker 1 "h" 9092 None None.

Lemma kafka_sharding_refines_witness :
  kafka_answers key_order kafka_calls_and_noise kafka_server (kafka_broker true 2 1)
  = kafka_answers key_order kafka_calls_and_noise kafka_server (kafka_broker false 1 0) /\
  is_ok <$> kafka_answers key_order kafka_calls_and_noise kafka_server (kafka_broker false 1 0) = [true; true; true; true; false].
Proof.
  split; [|vm_compute; reflexivity].
  exact (kafka_sharding_refines key_order key_order_bare kafka_calls_and_noise kafka_server _ _ kafka_brokers_sharded).
Defined.

Definition sample_call : KafkaRequest :=
  AskProduce (MkKProduceRequest (Some "tx"%string) (-1) 1000
    [MkKProduceTopic "a" [MkKProducePartition 2 (bare_batch 2); MkKProducePartition 9 []]]).

(** The sizes of a closed message. *)
Ltac kafka_sizes :=
  cbn; unfold produce_ok, produce_reply_ok, count_ok, optional_name_ok, i_range; cbn;
  repeat first [lia|split|constructor]; cbn;
  unfold count_ok, i_range, name_ok, blob_ok, optional_name_ok, compact_string, compact_bytes; cbn; repeat first [lia|split].

Lemma kafka_call_answered_witness :
  (kafka_operation key_order (request_at 9 sample_call) kafka_server (kafka_broker true 2 1)).1
  = ReplyProduce (MkKProduceResponse [MkKProduceTopicResponse "a" [produce_reply 2 0 0; produce_reply 9 3 0]] 0) /\
  exists response,
    handle_request key_order (client_frame [(300, [1; 2])] (client_header_of 9 5 (Some "c"%string) sample_call) sample_call)
      kafka_server (kafka_broker true 2 1)
    = (Ok response, (kafka_operation key_order (request_at 9 sample_call) kafka_server (kafka_broker true 2 1)).2) /\
    client_reads_response KProduce 9 (kafka_operation key_order (request_at 9 sample_call) kafka_server (kafka_broker true 2 1)).1
      (MkDecoder response 0)
    = (Ok (5, reply_at 9 (kafka_operation key_order (request_at 9 sample_call) kafka_server (kafka_broker true 2 1)).1),
       MkDecoder response (length response)).
Proof.
  assert (Ht : tagged_ok [(300, [1; 2])]) by (split; [unfold u_range; cbn; lia|repeat constructor; cbn; lia]).
  assert (Hr : request_ok 9 sample_call) by kafka_sizes.
  assert (Hh : kheader_ok (client_header_of 9 5 (Some "c"%string) sample_call))
    by (vm_compute; repeat first [split|discriminate]).
  assert (Hop : (kafka_operation key_order (request_at 9 sample_call) kafka_server (kafka_broker true 2 1)).1
    = ReplyProduce (MkKProduceResponse [MkKProduceTopicResponse "a" [produce_reply 2 0 0; produce_reply 9 3 0]] 0))
    by (vm_compute; reflexivity).
  assert (Hreply : reply_ok 9 (kafka_operation key_order (request_at 9 sample_call) kafka_server (kafka_broker true 2 1)).1)
    by (rewrite Hop; kafka_sizes).
  split; [exact Hop|].
  exact (kafka_call_answered key_order [(300, [1; 2])] 9 5 (Some "c"%string) sample_call kafka_server (kafka_broker true 2 1)
    Ht Hr Hh Hreply).
Defined.

Definition kafka_stream : PlannedStream :=
  MkPlannedStream (concat (sized_frame <$> kafka_calls_and_noise)) [] [3; 40; 2]%nat.

Lemma kafka_connection_serves_witness :
  exists s', serve_kafka_connection key_order 6 kafka_stream kafka_server (kafka_broker true 2 1)
    = (s', (kafka_session key_order kafka_calls_and_noise kafka_server (kafka_broker true 2 1)).2) /\
    sent s' = sent kafka_stream ++ (kafka_session key_order kafka_calls_and_noise kafka_server (kafka_broker true 2 1)).1.
Proof.
  assert (Hfit : Forall request_fits kafka_calls_and_noise) by (repeat constructor; vm_compute; discriminate).
  assert (Hf : (length kafka_calls_and_noise < 6)%nat) by (vm_compute; lia).
  assert (Hw : pending kafka_stream = concat (sized_frame <$> kafka_calls_and_noise)) by reflexivity.
  exact (kafka_connection_serves (BL := planned_stream_laws) key_order kafka_calls_and_noise 6 kafka_stream kafka_server
    (kafka_broker true 2 1) Hfit I Hw Hf).
Defined.
