(* ===== verification/Http.v ===== *)
(** * HTTP/1.1

    Models the parser and the serializer of [src/src/ingress/http.cpp], [parse_pagination] of
    [pagination.cpp], the problem details of [problem_detail.cpp], and [read_http_request] of
    [src/src/server/admin_http.cpp], which collects a message from a stream of bytes.  A text is the
    list of its characters. *)
From Stdlib Require Import ZArith Lia Ascii String.
From stdpp Require Import base list strings.
From S2P Require Import Prelude Codec Decimal FrameIo Json.
#[local] Open Scope Z_scope.

(** ** Text *)

Definition cr : byte := 13.
Definition lf : byte := 10.
Definition crlf : list byte := [cr; lf].
Definition blank_line : list byte := [cr; lf; cr; lf].
Definition space : byte := 32.
Definition colon : byte := 58.

Abbreviation text_of := bytes_of_string (only parsing).

Fixpoint starts (prefix text : list byte) : bool :=
  match prefix, text with
  | [], _ => true
  | p :: prefix, c :: text => (p =? c) && starts prefix text
  | _ :: _, [] => false
  end.

(** [find]: where a text is first found. *)
Fixpoint text_find (needle text : list byte) : option nat :=
  if starts needle text then Some O
  else match text with [] => None | _ :: text => S <$> text_find needle text end.

(** [find] from a position on. *)
Definition find_from (needle : list byte) (pos : nat) (text : list byte) : option nat :=
  (fun n => (pos + n)%nat) <$> text_find needle (drop pos text).

Definition lower (c : byte) : byte := if (65 <=? c) && (c <=? 90) then c + 32 else c.

Definition iequals (a b : list byte) : bool := bool_decide (lower <$> a = lower <$> b).

Definition is_blank (c : byte) : bool := (c =? 32) || (c =? 9).

Definition trim (s : list byte) : list byte := reverse (skip_while is_blank (reverse (skip_while is_blank s))).

(** [std::from_chars] into a [std::size_t]: the number, and the text after its digits. *)
Definition from_chars_size (text : list byte) : option (Z * list byte) :=
  match taken_while json_digit text with
  | [] => None
  | ds => if decimal_value ds <? 2 ^ 64 then Some (decimal_value ds, skip_while json_digit text) else None
  end.

(** [from_chars] of a whole text. *)
Definition parse_size_t (text : list byte) : option Z :=
  match from_chars_size text with Some (value, []) => Some value | _ => None end.

(** ** Messages *)

Inductive HttpMethod := Get | Head | Post | Put | Delete | Patch | Options | UnknownMethod.

#[export] Instance HttpMethod_eq_dec : EqDecision HttpMethod.
Proof. solve_decision. Defined.

Abbreviation Headers := (list (list byte * list byte)) (only parsing).

Record HttpRequest := MkHttpRequest {
  hr_method : HttpMethod;
  hr_method_text : list byte;
  hr_target : list byte;
  hr_version : list byte;
  hr_headers : Headers;
  hr_body : list byte;
}.

Record HttpResponse := MkHttpResponse {
  hs_status : Z;
  hs_reason : list byte;
  hs_headers : Headers;
  hs_body : list byte;
}.

Record HttpParseLimits := MkLimits {
  max_request_line : Z;
  max_headers : Z;
  max_header_bytes : Z;
  max_body : Z;
}.

Definition default_limits : HttpParseLimits := MkLimits 8192 100 16384 (2 ^ 20).

Definition question : list byte := [63].

Definition request_path (req : HttpRequest) : list byte :=
  match text_find question (hr_target req) with Some q => take q (hr_target req) | None => hr_target req end.
Definition request_query (req : HttpRequest) : list byte :=
  match text_find question (hr_target req) with Some q => drop (q + 1) (hr_target req) | None => [] end.

Definition request_header (name : list byte) (req : HttpRequest) : option (list byte) :=
  snd <$> List.find (fun h => iequals h.1 name) (hr_headers req).

(** The headers with one replaced, or added at the end. *)
Fixpoint replace_header (name value : list byte) (headers : Headers) : Headers :=
  match headers with
  | [] => [(name, value)]
  | (key, existing) :: rest => if iequals key name then (key, value) :: rest else (key, existing) :: replace_header name value rest
  end.

Definition set_header (name value : list byte) (resp : HttpResponse) : HttpResponse :=
  MkHttpResponse (hs_status resp) (hs_reason resp) (replace_header name value (hs_headers resp)) (hs_body resp).

Definition content_length_name : list byte := text_of "content-length".

Definition serialize (resp : HttpResponse) : list byte :=
  text_of "HTTP/1.1 " ++ to_string (hs_status resp) ++ [space] ++ hs_reason resp ++ crlf
    ++ concat ((fun h => if iequals h.1 content_length_name then [] else h.1 ++ text_of ": " ++ h.2 ++ crlf) <$> hs_headers resp)
    ++ text_of "Content-Length: " ++ to_string (Z.of_nat (length (hs_body resp))) ++ blank_line ++ hs_body resp.

Definition http_reason (status : Z) : list byte :=
  text_of
    (if status =? 200 then "OK" else if status =? 201 then "Created" else if status =? 202 then "Accepted"
     else if status =? 204 then "No Content" else if status =? 400 then "Bad Request"
     else if status =? 401 then "Unauthorized" else if status =? 403 then "Forbidden"
     else if status =? 404 then "Not Found" else if status =? 405 then "Method Not Allowed"
     else if status =? 409 then "Conflict" else if status =? 422 then "Unprocessable Entity"
     else if status =? 429 then "Too Many Requests" else if status =? 500 then "Internal Server Error"
     else if status =? 501 then "Not Implemented" else if status =? 503 then "Service Unavailable"
     else if status =? 507 then "Insufficient Storage" else "").

(** ** The parser *)

Definition parse_method (token : list byte) : HttpMethod :=
  if bool_decide (token = text_of "GET") then Get
  else if bool_decide (token = text_of "HEAD") then Head
  else if bool_decide (token = text_of "POST") then Post
  else if bool_decide (token = text_of "PUT") then Put
  else if bool_decide (token = text_of "DELETE") then Delete
  else if bool_decide (token = text_of "PATCH") then Patch
  else if bool_decide (token = text_of "OPTIONS") then Options
  else UnknownMethod.

(** The request line gives the request without its headers and body. *)
Definition parse_request_line (line : list byte) : expected HttpRequest :=
  match text_find [space] line with
  | None => make_error InvalidArgument "línea de petición HTTP malformada"
  | Some sp1 =>
      match find_from [space] (sp1 + 1) line with
      | None => make_error InvalidArgument "línea de petición HTTP malformada"
      | Some sp2 =>
          let method := take sp1 line in
          let target := take (sp2 - sp1 - 1) (drop (sp1 + 1) line) in
          let version := drop (sp2 + 1) line in
          if bool_decide (method = []) || bool_decide (target = []) || negb (starts (text_of "HTTP/") version)
          then make_error InvalidArgument "línea de petición HTTP inválida"
          else Ok (MkHttpRequest (parse_method method) method target version [] [])
      end
  end.

(** The loop on the block that is left; every turn consumes a character at least. *)
Fixpoint parse_headers_loop (fuel : nat) (limits : HttpParseLimits) (block : list byte) (headers : Headers)
    (content_length : option Z) : expected (Headers * option Z) :=
  match fuel, block with
  | O, _ | _, [] => Ok (headers, content_length)
  | S fuel', _ =>
      let eol := text_find crlf block in
      let header_line := match eol with Some n => take n block | None => block end in
      let rest := match eol with Some n => drop (n + 2) block | None => [] end in
      match text_find [colon] header_line with
      | None => make_error InvalidArgument "cabecera HTTP sin ':'"
      | Some c =>
          let name := trim (take c header_line) in
          let value := trim (drop (c + 1) header_line) in
          if bool_decide (name = []) then make_error InvalidArgument "cabecera HTTP con nombre vacío"
          else if max_headers limits <=? Z.of_nat (length headers) then
            make_error InvalidArgument "demasiadas cabeceras HTTP"
          else if iequals name content_length_name then
            match parse_size_t value with
            | None => make_error InvalidArgument "Content-Length inválido"
            | Some len => parse_headers_loop fuel' limits rest (headers ++ [(name, value)]) (Some len)
            end
          else parse_headers_loop fuel' limits rest (headers ++ [(name, value)]) content_length
      end
  end.

Definition parse_headers (block : list byte) (limits : HttpParseLimits) : expected (Headers * option Z) :=
  parse_headers_loop (length block) limits block [] None.

Definition with_content (headers : Headers) (body : list byte) (req : HttpRequest) : HttpRequest :=
  MkHttpRequest (hr_method req) (hr_method_text req) (hr_target req) (hr_version req) headers body.

Definition parse_request (raw : list byte) (limits : HttpParseLimits) : expected HttpRequest :=
  match text_find crlf raw with
  | None => make_error InvalidArgument "petición HTTP sin línea de petición"
  | Some line_end =>
      if max_request_line limits <? Z.of_nat line_end then make_error InvalidArgument "línea de petición HTTP demasiado larga"
      else
        let? req := parse_request_line (take line_end raw) in
        match find_from blank_line line_end raw with
        | None => make_error InvalidArgument "petición HTTP sin fin de cabeceras"
        | Some headers_end =>
            let block_start := (line_end + 2)%nat in
            let header_block := if (block_start <? headers_end)%nat then take (headers_end - block_start) (drop block_start raw) else [] in
            if max_header_bytes limits <? Z.of_nat (length header_block) then make_error InvalidArgument "cabeceras HTTP demasiado grandes"
            else
              let? '(headers, content_length) := parse_headers header_block limits in
              let body := drop (headers_end + 4) raw in
              match content_length with
              | Some len =>
                  if max_body limits <? len then make_error InvalidArgument "cuerpo HTTP excede el máximo"
                  else if Z.of_nat (length body) <? len then make_error InvalidArgument "cuerpo HTTP incompleto"
                  else Ok (with_content headers (take (Z.to_nat len) body) req)
              | None =>
                  if max_body limits <? Z.of_nat (length body) then make_error InvalidArgument "cuerpo HTTP excede el máximo"
                  else Ok (with_content headers body req)
              end
        end
  end.

(** ** Pages *)

Record Page := MkPage { pg_number : Z; pg_size : Z }.
Record PaginationLimits := MkPaginationLimits { default_size : Z; max_size : Z }.

Definition default_pagination : PaginationLimits := MkPaginationLimits 20 100.

(** Index of the first element of a page, in a [std::size_t]. *)
Definition page_offset (page : Page) : Z := to_u 64 ((pg_number page - 1) * pg_size page).

(** The loop over the pairs, on what is left of the query; every turn but the last consumes its "&". *)
Fixpoint query_param_loop (fuel : nat) (query key : list byte) : option (list byte) :=
  match fuel with
  | O => None
  | S fuel' =>
      let amp := text_find [38] query in
      let pair := match amp with Some n => take n query | None => query end in
      let next := match amp with Some n => query_param_loop fuel' (drop (n + 1) query) key | None => None end in
      match text_find [61] pair with
      | Some eq => if bool_decide (take eq pair = key) then Some (drop (eq + 1) pair) else next
      | None => next
      end
  end.

Definition query_param (query key : list byte) : option (list byte) := query_param_loop (length query + 1) query key.

Definition parse_pagination (query : list byte) (limits : PaginationLimits) : expected Page :=
  let? number :=
    match query_param query (text_of "page") with
    | None => Ok 1
    | Some raw =>
        match parse_size_t raw with
        | Some number => if number <? 1 then make_error InvalidArgument "parámetro 'page' inválido (debe ser >= 1)" else Ok number
        | None => make_error InvalidArgument "parámetro 'page' inválido (debe ser >= 1)"
        end
    end in
  let? size :=
    match query_param query (text_of "size") with
    | None => Ok (default_size limits)
    | Some raw =>
        match parse_size_t raw with
        | Some size =>
            if (size <? 1) || (max_size limits <? size) then make_error InvalidArgument "parámetro 'size' fuera de rango" else Ok size
        | None => make_error InvalidArgument "parámetro 'size' fuera de rango"
        end
    end in
  Ok (MkPage number size).

(** ** Problem details (RFC 7807) *)

Record ProblemDetail := MkProblem {
  pd_type : list byte;
  pd_title : list byte;
  pd_status : Z;
  pd_detail : list byte;
  pd_instance : list byte;
}.

Definition http_status_for (code : ErrorCode) : Z :=
  match code with
  | InvalidArgument | OutOfRange => 400
  | NotFound => 404
  | Unsupported => 501
  | OutOfSpace => 507
  | Shutdown => 503
  | Fenced => 409
  | Corrupt | IoError => 500
  end.

Definition problem_from_error (error : Error) (instance : list byte) : ProblemDetail :=
  MkProblem (text_of "about:blank") (http_reason (http_status_for (code error))) (http_status_for (code error))
    (text_of (message error)) instance.

(** [field] of the writer: a key and its value. *)
Definition field_text (name : string) (value : list byte) (w : JsonWriter) : JsonWriter :=
  write_string value (write_key (text_of name) w).
Definition field_int (name : string) (value : Z) (w : JsonWriter) : JsonWriter := write_int value (write_key (text_of name) w).
Definition field_bool (name : string) (value : bool) (w : JsonWriter) : JsonWriter := write_bool value (write_key (text_of name) w).

Definition problem_to_json (p : ProblemDetail) : list byte :=
  let w := begin_object new_writer |> field_text "type" (pd_type p) |> field_text "title" (pd_title p)
             |> field_int "status" (pd_status p) in
  let w := match pd_detail p with [] => w | detail => field_text "detail" detail w end in
  let w := match pd_instance p with [] => w | instance => field_text "instance" instance w end in
  jw_out (end_object w).

Definition problem_to_response (p : ProblemDetail) : HttpResponse :=
  set_header (text_of "Content-Type") (text_of "application/problem+json")
    (MkHttpResponse (pd_status p) (http_reason (pd_status p)) [] (problem_to_json p)).

(** ** Reading from a stream *)

(** [parse_content_length], over the lines that are left. *)
Fixpoint content_length_loop (fuel : nat) (headers : list byte) : Z :=
  match fuel, headers with
  | O, _ | _, [] => 0
  | S fuel', _ =>
      let eol := text_find crlf headers in
      let line := match eol with Some n => take n headers | None => headers end in
      let next := match eol with Some n => content_length_loop fuel' (drop (n + 2) headers) | None => 0 end in
      match text_find [colon] line with
      | Some c =>
          if iequals (trim (take c line)) content_length_name
          then match from_chars_size (trim (drop (c + 1) line)) with Some (len, _) => len | None => 0 end
          else next
      | None => next
      end
  end.

Definition parse_content_length (headers : list byte) : Z := content_length_loop (length headers) headers.

Section Stream.
Context {S : Type} {BS : ByteStream S}.

Definition kChunkSize : nat := 4096.

(** Receives until the end of the headers is in the buffer; [fuel] is the receives allowed. *)
Fixpoint read_head (fuel : nat) (header_cap : Z) (buf : list byte) (s : S) : expected nat * (list byte * S) :=
  match text_find blank_line buf with
  | Some header_end => (Ok header_end, (buf, s))
  | None =>
      if header_cap <? Z.of_nat (length buf) then (make_error InvalidArgument "cabeceras HTTP demasiado grandes", (buf, s))
      else
        match fuel with
        | O => (make_error InvalidArgument "petición HTTP truncada", (buf, s))
        | Datatypes.S fuel' =>
            match async_recv kChunkSize s with
            | (Err e, s) => (Err e, (buf, s))
            | (Ok [], s) =>
                match buf with
                | [] => (make_error Shutdown "el par cerró sin enviar datos", (buf, s))
                | _ => (make_error InvalidArgument "petición HTTP truncada", (buf, s))
                end
            | (Ok got, s) => read_head fuel' header_cap (buf ++ got) s
            end
        end
  end.

(** Receives until the buffer holds [total] bytes. *)
Fixpoint read_body (fuel total : nat) (buf : list byte) (s : S) : expected (list byte) * S :=
  if (total <=? length buf)%nat then (Ok buf, s)
  else
    match fuel with
    | O => (make_error InvalidArgument "cuerpo HTTP truncado", s)
    | Datatypes.S fuel' =>
        match async_recv kChunkSize s with
        | (Err e, s) => (Err e, s)
        | (Ok [], s) => (make_error InvalidArgument "cuerpo HTTP truncado", s)
        | (Ok got, s) => read_body fuel' total (buf ++ got) s
        end
    end.

(** Every receive that goes on adds a byte: the buffer of the first loop does not pass the cap, nor
    that of the second the total. *)
Definition read_http_request (limits : HttpParseLimits) (s : S) : expected HttpRequest * S :=
  let header_cap := max_request_line limits + max_header_bytes limits in
  match read_head (Z.to_nat header_cap + 1) header_cap [] s with
  | (Err e, (_, s)) => (Err e, s)
  | (Ok header_end, (buf, s)) =>
      let content_length := parse_content_length (take header_end buf) in
      if max_body limits <? content_length then (make_error InvalidArgument "cuerpo HTTP excede el límite", s)
      else
        let total := (header_end + 4 + Z.to_nat content_length)%nat in
        match read_body total total buf s with
        | (Err e, s) => (Err e, s)
        | (Ok buf, s) => (parse_request (take total buf) limits, s)
        end
  end.
End Stream.
