(* ===== verification/HttpSafety.v ===== *)
(** * HTTP messages are read as they were written

    What a client writes as a request, collected from a stream that cuts it at will, is parsed as that
    request. *)
From Stdlib Require Import ZArith Lia Ascii String.
From stdpp Require Import base list strings.
From S2P Require Import Prelude Codec Decimal FrameIo Json JsonSafety Http.
#[local] Open Scope Z_scope.

(** ** Finding *)

(** The text has no character [c]. *)
Definition without (c : byte) (text : list byte) : Prop := Forall (fun x => x <> c) text.

Lemma starts_take needle w m :
  starts needle (take m w) = starts needle w && (length needle <=? Nat.min m (length w))%nat.
Proof.
  revert w m. induction needle as [|p needle IH]; intros [|c w] [|m]; cbn; try done; [by rewrite andb_false_r|].
  rewrite IH, andb_assoc. done.
Qed.

Lemma find_absent p needle text : without p text -> text_find (p :: needle) text = None.
Proof.
  induction 1 as [|c text Hc _ IH]; [done|]. cbn [text_find starts]. destruct (Z.eqb_spec p c); [by subst|]. cbn [andb]. by rewrite IH.
Qed.

Lemma find_after p needle text rest :
  without p text -> text_find (p :: needle) (text ++ rest) = (fun n => (length text + n)%nat) <$> text_find (p :: needle) rest.
Proof.
  induction 1 as [|c text Hc _ IH]; [cbn; by destruct (text_find _ rest)|]. cbn [text_find starts app length].
  destruct (Z.eqb_spec p c); [by subst|]. cbn [andb]. rewrite IH. by destruct (text_find _ rest).
Qed.

Lemma starts_length needle w : starts needle w = true -> (length needle <= length w)%nat.
Proof. intros Hs. pose proof (starts_take needle w (length w)) as H. rewrite take_ge, Hs in H by done. symmetry in H. apply Nat.leb_le in H. lia. Qed.

Lemma find_length needle w n : text_find needle w = Some n -> (n + length needle <= length w)%nat.
Proof.
  revert n. induction w as [|c w IH]; intros n; cbn [text_find].
  - destruct (starts needle []) eqn:E; [|done]. intros [= <-]. apply (starts_length _ _ E).
  - destruct (starts needle (c :: w)) eqn:E; [intros [= <-]; apply (starts_length _ _ E)|].
    destruct (text_find needle w) as [n'|]; [|done]. intros [= <-]. specialize (IH n' eq_refl). cbn. lia.
Qed.

(** In a prefix, what is found is what is there whole. *)
Lemma find_take needle w k m :
  text_find needle w = Some k ->
  text_find needle (take m w) = if (k + length needle <=? m)%nat then Some k else None.
Proof.
  revert k m. induction w as [|c w IH]; intros k m Hk.
  - pose proof (find_length _ _ _ Hk) as Hl. cbn in Hl. assert (Hk0 : k = O) by lia. destruct needle; [|cbn in Hl; lia].
    by rewrite take_nil, Hk, Hk0.
  - destruct m as [|m].
    { cbn [take]. destruct (Nat.leb_spec (k + length needle) 0).
      - assert (Hk0 : k = O) by lia. destruct needle; [by rewrite Hk0|cbn in *; lia].
      - destruct (text_find needle []) eqn:E; [|done]. pose proof (find_length _ _ _ E) as Hl. cbn in Hl, Hk.
        assert (needle = []) as -> by (destruct needle; [done|cbn in Hl; lia]). cbn in Hk. injection Hk as <-. cbn in *. lia. }
    pose proof (starts_take needle (c :: w) (S m)) as Ht. cbn [take] in Ht |- *. cbn [text_find] in Hk |- *. rewrite Ht.
    destruct (starts needle (c :: w)) eqn:Hs; cbn [andb] in *.
    + injection Hk as <-. pose proof (starts_length _ _ Hs) as Hl.
      destruct (Nat.leb_spec (length needle) (Nat.min (S m) (length (c :: w)))), (Nat.leb_spec (0 + length needle) (S m)); try lia; [done|].
      destruct (text_find needle (take m w)) eqn:E; [|done]. apply find_length in E. rewrite length_take in E. lia.
    + destruct (text_find needle w) as [k'|] eqn:Hw; [|done]. injection Hk as <-. rewrite (IH k' m eq_refl).
      destruct (Nat.leb_spec (k' + length needle) m), (Nat.leb_spec (S k' + length needle) (S m)); try lia; done.
Qed.

(** ** Lines *)

Abbreviation no_cr := (without cr) (only parsing).

(** Lines with what separates them. *)
Definition http_joined (line : list byte) (lines : list (list byte)) : list byte := line ++ concat ((fun l => crlf ++ l) <$> lines).

Definition line_ok (line : list byte) : Prop := no_cr line /\ line <> [].

Lemma joined_cons line l lines : http_joined line (l :: lines) = line ++ crlf ++ http_joined l lines.
Proof. unfold http_joined. cbn [fmap list_fmap concat]. by rewrite <- !app_assoc. Qed.

Lemma joined_eol line lines : no_cr line ->
  text_find crlf (http_joined line lines) = match lines with [] => None | _ => Some (length line) end.
Proof.
  intros Hl. destruct lines as [|l lines]; [unfold http_joined; cbn; rewrite app_nil_r; by apply find_absent|].
  rewrite joined_cons. unfold crlf at 1. rewrite find_after by done. cbn. by rewrite Nat.add_0_r.
Qed.

(** The blank line is found where the lines end. *)
Lemma blank_line_found line lines rest :
  no_cr line -> Forall line_ok lines ->
  text_find blank_line (http_joined line lines ++ blank_line ++ rest) = Some (length (http_joined line lines)).
Proof.
  intros Hl Hls. revert line Hl. induction Hls as [|l lines [Hl' Hne] _ IH]; intros line Hl.
  - unfold http_joined. cbn [fmap list_fmap concat]. rewrite app_nil_r. unfold blank_line at 1. rewrite find_after by done.
    cbn. by rewrite Nat.add_0_r.
  - rewrite joined_cons, <- !app_assoc. unfold blank_line at 1. rewrite find_after by done.
    fold blank_line. specialize (IH l Hl').
    destruct l as [|c l]; [done|]. inversion Hl' as [|? ? Hc _]; subst.
    set (tail := http_joined (c :: l) lines ++ blank_line ++ rest) in *.
    assert (Htail : exists t, tail = c :: t) by (unfold tail, http_joined; cbn; eauto). destruct Htail as [t Ht].
    cbn [crlf app]. cbn [text_find]. 
    assert (H1 : starts blank_line (cr :: lf :: tail) = false).
    { rewrite Ht. change ((13 =? c) && starts [10] t = false). destruct (Z.eqb_spec 13 c); [by subst|done]. }
    assert (H2 : starts blank_line (lf :: tail) = false) by done.
    rewrite H1, H2, IH. cbn [fmap option_fmap option_map]. f_equal. rewrite !length_app. cbn. lia.
Qed.

(** ** Headers *)

Definition trimmed (s : list byte) : Prop := trim s = s.

Definition header_line (h : list byte * list byte) : list byte := h.1 ++ [colon] ++ [space] ++ h.2.

Definition http_header_ok (h : list byte * list byte) : Prop :=
  (h.1 <> [] /\ trimmed h.1 /\ without colon h.1 /\ no_cr h.1) /\ trimmed h.2 /\ no_cr h.2.

Lemma without_app c a b : without c a -> without c b -> without c (a ++ b).
Proof. intros. by apply Forall_app. Qed.

Lemma header_line_ok h : http_header_ok h -> line_ok (header_line h).
Proof.
  intros ((Hne & _ & _ & H1) & _ & H2). split; [|unfold header_line; destruct h.1; done].
  repeat apply without_app; try done; repeat constructor; unfold cr, colon, space; lia.
Qed.

Lemma header_line_colon h : http_header_ok h -> text_find [colon] (header_line h) = Some (length h.1).
Proof.
  intros ((_ & _ & Hc & _) & _). unfold header_line. rewrite find_after by done. cbn. by rewrite Nat.add_0_r.
Qed.

Lemma header_line_name h : http_header_ok h -> trim (take (length h.1) (header_line h)) = h.1.
Proof. intros ((_ & Ht & _) & _). unfold header_line. by rewrite take_app_length. Qed.

Lemma header_line_value h : http_header_ok h -> trim (drop (length h.1 + 1) (header_line h)) = h.2.
Proof.
  intros (_ & Ht & _). unfold header_line. rewrite <- drop_drop, drop_app_length. cbn [drop app].
  unfold trim at 1. cbn [skip_while is_blank]. exact Ht.
Qed.

(** The first and the last length a message announces. *)
Definition announced (h : list byte * list byte) : bool := iequals h.1 content_length_name.

(** Every length a message announces is [n]. *)
Definition lengths_are (n : Z) (headers : Headers) : Prop :=
  Forall (fun h => announced h = true -> parse_size_t h.2 = Some n) headers.

(** The lines after the first. *)
Definition next_lines (lines : list (list byte)) : list byte := match lines with [] => [] | l :: lines => http_joined l lines end.

Lemma joined_nonempty line lines : line_ok line -> http_joined line lines <> [].
Proof. intros [_ Hne]. unfold http_joined. by destruct line. Qed.

Lemma joined_first line lines : line_ok line ->
  match text_find crlf (http_joined line lines) with Some n => take n (http_joined line lines) | None => http_joined line lines end = line.
Proof.
  intros [Hl _]. rewrite joined_eol by done. destruct lines as [|l lines]; [unfold http_joined; cbn; by rewrite app_nil_r|].
  unfold http_joined. by rewrite take_app_length.
Qed.

Lemma joined_next line lines : line_ok line ->
  match text_find crlf (http_joined line lines) with Some n => drop (n + 2) (http_joined line lines) | None => [] end = next_lines lines.
Proof.
  intros [Hl _]. rewrite joined_eol by done. destruct lines as [|l lines]; [done|]. rewrite joined_cons.
  by rewrite <- drop_drop, drop_app_length.
Qed.

Lemma next_lines_length line lines : line_ok line -> (length (next_lines lines) < length (http_joined line lines))%nat.
Proof.
  intros [_ Hne]. unfold http_joined. rewrite length_app. destruct lines as [|l lines]; [destruct line; [done|cbn; lia]|].
  cbn [fmap list_fmap concat next_lines]. unfold http_joined. rewrite !length_app. cbn [crlf length]. lia.
Qed.

Lemma parse_headers_turn fuel limits h lines before cl :
  http_header_ok h -> Z.of_nat (length before) < max_headers limits ->
  parse_headers_loop (S fuel) limits (http_joined (header_line h) lines) before cl
  = if announced h then
      match parse_size_t h.2 with
      | None => make_error InvalidArgument "Content-Length inválido"
      | Some len => parse_headers_loop fuel limits (next_lines lines) (before ++ [h]) (Some len)
      end
    else parse_headers_loop fuel limits (next_lines lines) (before ++ [h]) cl.
Proof.
  intros Hh Hmax. pose proof (header_line_ok h Hh) as Hl. pose proof (joined_nonempty _ lines Hl) as Hne.
  pose proof (joined_first _ lines Hl) as Hfirst. pose proof (joined_next _ lines Hl) as Hnext.
  destruct (http_joined (header_line h) lines) as [|c text] eqn:E; [done|].
  cbn [parse_headers_loop]. rewrite Hfirst, Hnext, header_line_colon, header_line_name, header_line_value by done.
  destruct h as [name value]. destruct Hh as ((Hname & _) & _). cbn [fst snd] in *. rewrite bool_decide_false by done.
  destruct (Z.leb_spec (max_headers limits) (Z.of_nat (length before))); [lia|]. done.
Qed.

Lemma parse_header_lines limits n headers : forall fuel before cl,
  Forall http_header_ok headers -> lengths_are n headers -> Z.of_nat (length (before ++ headers)) <= max_headers limits ->
  (length (next_lines (header_line <$> headers)) <= fuel)%nat ->
  parse_headers_loop fuel limits (next_lines (header_line <$> headers)) before cl
  = Ok (before ++ headers, if existsb announced headers then Some n else cl).
Proof.
  induction headers as [|h headers IH]; intros fuel before cl Hok Hn Hmax Hf.
  - cbn. rewrite app_nil_r. by destruct fuel.
  - apply Forall_cons in Hok as [Hh Hok]. apply Forall_cons in Hn as [Hn1 Hn].
    pose proof (next_lines_length _ (header_line <$> headers) (header_line_ok h Hh)) as Hless.
    cbn [fmap list_fmap next_lines] in *. destruct fuel as [|fuel]; [lia|].
    rewrite length_app in Hmax. cbn [length] in Hmax. rewrite parse_headers_turn by (done || lia). cbn [existsb].
    assert (Hnext : forall cl, parse_headers_loop fuel limits (next_lines (header_line <$> headers)) (before ++ [h]) cl
      = Ok (before ++ h :: headers, if existsb announced headers then Some n else cl)).
    { intros cl'. rewrite IH; [by rewrite <- app_assoc|done|done|rewrite !length_app; cbn; lia|lia]. }
    destruct (announced h); cbn [orb].
    + rewrite Hn1 by done. rewrite Hnext. by destruct (existsb _ _).
    + apply Hnext.
Qed.

(** ** The request *)

Definition request_line (req : HttpRequest) : list byte :=
  hr_method_text req ++ [space] ++ hr_target req ++ [space] ++ hr_version req.

(** What a client writes. *)
Definition client_request (req : HttpRequest) : list byte :=
  http_joined (request_line req) (header_line <$> hr_headers req) ++ blank_line ++ hr_body req.

Record http_request_ok (limits : HttpParseLimits) (req : HttpRequest) : Prop := {
  ok_method : parse_method (hr_method_text req) = hr_method req /\ hr_method req <> UnknownMethod;
  ok_target : hr_target req <> [] /\ without space (hr_target req) /\ no_cr (hr_target req);
  ok_version : starts (text_of "HTTP/") (hr_version req) = true /\ no_cr (hr_version req);
  ok_headers : Forall http_header_ok (hr_headers req);
  ok_length : lengths_are (Z.of_nat (length (hr_body req))) (hr_headers req) /\
    (hr_body req = [] \/ existsb announced (hr_headers req) = true);
  ok_line : Z.of_nat (length (request_line req)) <= max_request_line limits;
  ok_count : Z.of_nat (length (hr_headers req)) <= max_headers limits;
  ok_block : Z.of_nat (length (next_lines (header_line <$> hr_headers req))) <= max_header_bytes limits;
  ok_body : Z.of_nat (length (hr_body req)) <= max_body limits;
}.

(** The methods the parser knows are words that begin with none of the letters of a length. *)
Lemma known_method m :
  parse_method m <> UnknownMethod ->
  (m <> [] /\ without space m /\ no_cr m) /\ exists c t, m = c :: t /\ is_blank c = false /\ lower c <> 99.
Proof.
  intros Hm. assert (Hin : In m (bytes_of_string <$> ["GET"; "HEAD"; "POST"; "PUT"; "DELETE"; "PATCH"; "OPTIONS"]%string)).
  { unfold parse_method in Hm. cbn [fmap list_fmap In]. repeat case_bool_decide; subst; tauto. }
  cbn [fmap list_fmap In] in Hin.
  repeat (destruct Hin as [<-|Hin]; [split; [split_and!; [done|repeat constructor; done|repeat constructor; done]|eexists _, _; split; [reflexivity|done]]|]).
  done.
Qed.

Section Request.
Context (limits : HttpParseLimits) (req : HttpRequest) (Hok : http_request_ok limits req).

Lemma request_line_ok : no_cr (request_line req).
Proof.
  destruct Hok as [[Hm Hk] (_ & _ & Ht) [_ Hv] _ _ _ _ _ _]. rewrite <- Hm in Hk. destruct (known_method _ Hk) as [(_ & _ & Hc) _].
  repeat apply without_app; try done; repeat constructor; done.
Qed.

Lemma request_lines_ok : Forall line_ok (header_line <$> hr_headers req).
Proof. apply Forall_fmap. eapply Forall_impl; [apply (ok_headers _ _ Hok)|]. exact header_line_ok. Qed.

Lemma request_line_parsed : parse_request_line (request_line req) = Ok (with_content [] [] req).
Proof.
  destruct Hok as [[Hm Hk] (Hne & Hs & _) [Hv _] _ _ _ _ _ _]. pose proof Hk as Hk'. rewrite <- Hm in Hk'.
  destruct (known_method _ Hk') as [(Hmne & Hms & _) _]. unfold parse_request_line, request_line.
  assert (H1 : text_find [space] (hr_method_text req ++ [space] ++ hr_target req ++ [space] ++ hr_version req) = Some (length (hr_method_text req)))
    by (rewrite find_after by done; cbn; by rewrite Nat.add_0_r).
  rewrite H1. unfold find_from. rewrite <- drop_drop, drop_app_length. cbn [drop app].
  rewrite drop_0, find_after by done. cbn [text_find starts]. rewrite Z.eqb_refl. cbn [andb fmap option_fmap option_map].
  rewrite take_app_length, Nat.add_0_r.
  replace (_ + 1 + length (hr_target req) - _ - 1)%nat with (length (hr_target req)) by lia. rewrite take_app_length.
  replace (drop (length (hr_method_text req) + 1 + length (hr_target req) + 1) (hr_method_text req ++ space :: hr_target req ++ space :: hr_version req))
    with (hr_version req).
  2: { rewrite <- !drop_drop, drop_app_length. cbn [drop]. by rewrite drop_0, drop_app_length. }
  rewrite !bool_decide_false, Hv by done. cbn [orb negb]. by rewrite Hm.
Qed.

(** The parser, on the message whole. *)
Lemma request_parsed : parse_request (client_request req) limits = Ok req.
Proof.
  pose proof request_line_ok as Hline. pose proof request_lines_ok as Hlines.
  pose proof Hok as [_ _ _ Hheaders [Hlen Hframed] Hl Hc Hb Hbody].
  set (lines := header_line <$> hr_headers req) in *. unfold parse_request, client_request. fold lines.
  assert (Hblank : text_find crlf (http_joined (request_line req) lines ++ blank_line ++ hr_body req) = Some (length (request_line req))).
  { unfold http_joined. rewrite <- app_assoc. unfold crlf at 1. rewrite find_after by done. destruct lines; cbn; by rewrite Nat.add_0_r. }
  rewrite Hblank. destruct (Z.ltb_spec (max_request_line limits) (Z.of_nat (length (request_line req)))); [lia|].
  assert (Hfirst : take (length (request_line req)) (http_joined (request_line req) lines ++ blank_line ++ hr_body req) = request_line req)
    by (unfold http_joined; rewrite <- app_assoc; apply take_app_length).
  rewrite Hfirst, request_line_parsed. cbn [expected_bind].
  unfold find_from. assert (Hrest : drop (length (request_line req)) (http_joined (request_line req) lines ++ blank_line ++ hr_body req)
    = http_joined [] lines ++ blank_line ++ hr_body req) by (unfold http_joined; rewrite <- app_assoc; apply drop_app_length).
  rewrite Hrest, blank_line_found by (done || constructor). cbn [fmap option_fmap option_map].
  assert (Hend : (length (request_line req) + length (http_joined [] lines))%nat = length (http_joined (request_line req) lines))
    by (unfold http_joined; rewrite !length_app; done).
  rewrite Hend.
  assert (Hblock : (if (length (request_line req) + 2 <? length (http_joined (request_line req) lines))%nat
    then take (length (http_joined (request_line req) lines) - (length (request_line req) + 2))
           (drop (length (request_line req) + 2) (http_joined (request_line req) lines ++ blank_line ++ hr_body req)) else [])
    = next_lines lines).
  { destruct lines as [|l ls].
    - unfold http_joined. cbn [fmap list_fmap concat]. rewrite app_nil_r, (proj2 (Nat.ltb_ge _ _)) by lia. done.
    - rewrite joined_cons, !length_app. cbn [crlf length next_lines].
      apply Forall_cons in Hlines as [Hl1 _]. pose proof (joined_nonempty l ls Hl1) as Hne.
      destruct (http_joined l ls) as [|c t] eqn:E; [done|]. rewrite <- E in *. assert (0 < length (http_joined l ls))%nat by (rewrite E; cbn; lia).
      destruct (Nat.ltb_spec (length (request_line req) + 2) (length (request_line req) + (2 + length (http_joined l ls)))); [|lia].
      rewrite <- drop_drop, <- app_assoc, drop_app_length. cbn [crlf app drop].
      replace (_ + (2 + _) - _)%nat with (length (http_joined l ls)) by lia. apply take_app_length. }
  rewrite Hblock. destruct (Z.ltb_spec (max_header_bytes limits) (Z.of_nat (length (next_lines lines)))); [lia|].
  unfold parse_headers, lines. rewrite (parse_header_lines _ (Z.of_nat (length (hr_body req)))) by (done || lia). cbn [expected_bind app].
  fold lines. rewrite <- drop_drop, drop_app_length. cbn [blank_line drop app]. rewrite drop_0.
  destruct (existsb announced (hr_headers req)) eqn:Hex.
  - destruct (Z.ltb_spec (max_body limits) (Z.of_nat (length (hr_body req)))); [lia|].
    destruct (Z.ltb_spec (Z.of_nat (length (hr_body req))) (Z.of_nat (length (hr_body req)))); [lia|].
    rewrite Nat2Z.id, take_ge by done. by destruct req.
  - destruct Hframed as [Hnil|]; [|done]. rewrite (proj2 (Z.ltb_ge _ _)) by lia. by destruct req.
Qed.

(** ** From a stream *)

Lemma content_length_turn fuel line lines :
  line_ok line ->
  content_length_loop (S fuel) (http_joined line lines)
  = match text_find [colon] line with
    | Some c =>
        if iequals (trim (take c line)) content_length_name
        then match from_chars_size (trim (drop (c + 1) line)) with Some (len, _) => len | None => 0 end
        else content_length_loop fuel (next_lines lines)
    | None => content_length_loop fuel (next_lines lines)
    end.
Proof.
  intros Hl. pose proof (joined_nonempty _ lines Hl) as Hne. pose proof (joined_first _ lines Hl) as Hfirst.
  pose proof (joined_next _ lines Hl) as Hnext. destruct (http_joined line lines) as [|c text] eqn:E; [done|].
  cbn [content_length_loop]. rewrite Hfirst.
  assert (Hgo : match text_find crlf (c :: text) with Some n => content_length_loop fuel (drop (n + 2) (c :: text)) | None => 0 end
    = content_length_loop fuel (next_lines lines)).
  { destruct (text_find crlf (c :: text)); rewrite <- Hnext; [done|by destruct fuel]. }
  rewrite Hgo. done.
Qed.

Lemma announced_length n headers fuel :
  Forall http_header_ok headers -> lengths_are n headers -> (length (next_lines (header_line <$> headers)) <= fuel)%nat ->
  content_length_loop fuel (next_lines (header_line <$> headers)) = if existsb announced headers then n else 0.
Proof.
  intros Hh Hn. revert fuel. induction headers as [|h headers IH]; intros fuel Hf; [by destruct fuel|].
  apply Forall_cons in Hh as [Hh Hhs]. apply Forall_cons in Hn as [Hn Hns].
  pose proof (next_lines_length _ (header_line <$> headers) (header_line_ok h Hh)) as Hless.
  cbn [fmap list_fmap next_lines] in *. destruct fuel as [|fuel]; [lia|].
  rewrite content_length_turn, header_line_colon, header_line_name, header_line_value by (done || by apply header_line_ok).
  cbn [existsb]. unfold announced in Hn at 1. fold (announced h). unfold announced. destruct (iequals h.1 _) eqn:Ha; cbn [orb].
  - specialize (Hn eq_refl). unfold parse_size_t in Hn. destruct (from_chars_size h.2) as [[v [|]]|]; by simplify_eq.
  - apply IH; [done|done|lia].
Qed.

Lemma skip_while_last p l c : p c = false -> exists l', skip_while p (l ++ [c]) = l' ++ [c].
Proof.
  intros Hc. induction l as [|x l [l' IH]]; cbn [app skip_while]; [rewrite Hc; by exists []|].
  destruct (p x); [by exists l'|by exists (x :: l)].
Qed.

Lemma trim_head c text : is_blank c = false -> exists t, trim (c :: text) = c :: t.
Proof.
  intros Hc. unfold trim. cbn [skip_while]. rewrite Hc, reverse_cons.
  destruct (skip_while_last is_blank (reverse text) c Hc) as [l ->]. rewrite reverse_snoc. eauto.
Qed.

(** The request line is not taken for the header of the length. *)
Lemma request_line_not_length c : iequals (trim (take c (request_line req))) content_length_name = false.
Proof.
  destruct Hok as [[Hm Hk] _ _ _ _ _ _ _ _]. rewrite <- Hm in Hk. destruct (known_method _ Hk) as (_ & m0 & m & Hm0 & Hb & Hl).
  unfold request_line, iequals. rewrite Hm0. apply bool_decide_false. destruct c as [|c]; [done|]. cbn [app take].
  destruct (trim_head m0 (take c (m ++ [space] ++ hr_target req ++ [space] ++ hr_version req)) Hb) as [t Ht].
  cbn [app] in Ht. rewrite Ht. cbn. by intros [= ? _].
Qed.

Lemma request_content_length :
  parse_content_length (http_joined (request_line req) (header_line <$> hr_headers req)) = Z.of_nat (length (hr_body req)).
Proof.
  assert (Hline : line_ok (request_line req)).
  { split; [apply request_line_ok|]. unfold request_line. by destruct (hr_method_text req). }
  destruct (ok_length _ _ Hok) as [Hlen Hframed]. pose proof (next_lines_length _ (header_line <$> hr_headers req) Hline) as Hless.
  unfold parse_content_length. destruct (length (http_joined _ _)) as [|fuel]; [lia|]. rewrite content_length_turn by done.
  assert (Hgo : content_length_loop fuel (next_lines (header_line <$> hr_headers req)) = Z.of_nat (length (hr_body req))).
  { rewrite (announced_length _ _ _ (ok_headers _ _ Hok) Hlen) by lia. destruct Hframed as [Hb|Hb]; rewrite Hb; [by destruct (existsb _ _)|done]. }
  destruct (text_find [colon] _) as [c|]; [by rewrite request_line_not_length|done].
Qed.
End Request.

Section Stream.
Context {S : Type} {BS : ByteStream S} {BL : ByteStreamLaws S}.

Lemma recv_grows n (s : S) buf whole :
  healthy s -> (0 < n)%nat -> buf ++ pending s = whole -> (length buf < length whole)%nat ->
  exists got s', async_recv n s = (Ok got, s') /\ got <> [] /\ (buf ++ got) ++ pending s' = whole /\ sent s' = sent s /\ healthy s'.
Proof.
  intros Hh Hn Hw Hl. destruct (recv_some n s Hh Hn) as (got & s' & Hr & Hne & _ & Hp & Hs & Hh').
  { intros Hp. rewrite Hp, app_nil_r in Hw. subst. lia. }
  exists got, s'. split_and!; try done. by rewrite <- Hw, Hp, app_assoc.
Qed.

Lemma prefix_take (buf tail whole : list byte) : buf ++ tail = whole -> buf = take (length buf) whole.
Proof. intros <-. by rewrite take_app_length. Qed.

Lemma read_head_healthy fuel cap buf (s : S) whole he :
  healthy s -> buf ++ pending s = whole -> text_find blank_line whole = Some he -> Z.of_nat he + 3 <= cap ->
  (he + 4 <= length buf + fuel)%nat ->
  exists buf' s', read_head fuel cap buf s = (Ok he, (buf', s')) /\ buf' ++ pending s' = whole /\ (he + 4 <= length buf')%nat /\
    sent s' = sent s /\ healthy s'.
Proof.
  intros Hh Hw Hf Hcap. revert buf s Hh Hw. induction fuel as [|fuel IH]; intros buf s Hh Hw Hl.
  all: pose proof (find_length _ _ _ Hf) as Hwl; cbn [blank_line length] in Hwl.
  all: assert (Hbuf : text_find blank_line buf = if (he + 4 <=? length buf)%nat then Some he else None)
         by (rewrite (prefix_take _ _ _ Hw) at 1; by apply find_take).
  - cbn [read_head]. rewrite Hbuf. rewrite (proj2 (Nat.leb_le _ _)) by lia. exists buf, s. split_and!; try done; lia.
  - cbn [read_head]. rewrite Hbuf. destruct (Nat.leb_spec (he + 4) (length buf)); [exists buf, s; split_and!; done|].
    rewrite (proj2 (Z.ltb_ge _ _)) by lia.
    destruct (recv_grows kChunkSize s buf whole Hh) as (got & s1 & -> & Hne & Hw1 & Hs1 & Hh1); [unfold kChunkSize; lia|done|lia|].
    destruct got as [|g got]; [done|].
    destruct (IH (buf ++ g :: got) s1 Hh1 Hw1) as (buf' & s2 & -> & H1 & H2 & H3 & H4); [rewrite length_app; cbn; lia|].
    exists buf', s2. split_and!; try done. congruence.
Qed.

Lemma read_body_healthy fuel total buf (s : S) whole :
  healthy s -> buf ++ pending s = whole -> (total <= length whole)%nat -> (total <= length buf + fuel)%nat ->
  exists buf' s', read_body fuel total buf s = (Ok buf', s') /\ take total buf' = take total whole /\ sent s' = sent s /\ healthy s'.
Proof.
  revert buf s. induction fuel as [|fuel IH]; intros buf s Hh Hw Ht Hl.
  all: cbn [read_body]; destruct (Nat.leb_spec total (length buf)); [|try lia].
  1, 2: exists buf, s; split_and!; try done; rewrite <- Hw; by rewrite take_app_le.
  destruct (recv_grows kChunkSize s buf whole Hh) as (got & s1 & -> & Hne & Hw1 & Hs1 & Hh1); [unfold kChunkSize; lia|done|lia|].
  destruct got as [|g got]; [done|].
  destruct (IH (buf ++ g :: got) s1 Hh1 Hw1 Ht) as (buf' & s2 & -> & H1 & H2 & H3); [rewrite length_app; cbn; lia|].
  exists buf', s2. split_and!; try done. congruence.
Qed.

Lemma http_request_collected limits req extra (s : S) :
  http_request_ok limits req -> healthy s -> pending s = client_request req ++ extra ->
  Z.of_nat (length (http_joined (request_line req) (header_line <$> hr_headers req))) + 3 <= max_request_line limits + max_header_bytes limits ->
  exists s', read_http_request limits s = (Ok req, s') /\ sent s' = sent s /\ healthy s'.
Proof.
  intros Hok Hh Hwire Hcap.
  set (he := length (http_joined (request_line req) (header_line <$> hr_headers req))) in *.
  assert (Hfound : text_find blank_line (client_request req ++ extra) = Some he).
  { unfold client_request. rewrite <- !app_assoc. apply blank_line_found; [by eapply request_line_ok|by eapply request_lines_ok]. }
  unfold read_http_request. cbv zeta.
  destruct (read_head_healthy (Z.to_nat (max_request_line limits + max_header_bytes limits) + 1)
    (max_request_line limits + max_header_bytes limits) [] s _ he Hh Hwire Hfound Hcap) as (buf & s1 & -> & Hw1 & Hl1 & Hs1 & Hh1); [cbn; lia|].
  assert (Hhead : take he buf = http_joined (request_line req) (header_line <$> hr_headers req)).
  { transitivity (take he (client_request req ++ extra)); [rewrite <- Hw1; by rewrite take_app_le by lia|].
    unfold client_request. rewrite <- app_assoc. apply take_app_length. }
  rewrite Hhead, (request_content_length limits) by done. rewrite (proj2 (Z.ltb_ge _ _)) by (apply (ok_body _ _ Hok)).
  assert (Htotal : (he + 4 + Z.to_nat (Z.of_nat (length (hr_body req))))%nat = length (client_request req))
    by (unfold client_request; rewrite !length_app; cbn [blank_line length]; lia).
  rewrite Htotal. destruct (read_body_healthy (length (client_request req)) (length (client_request req)) buf s1 _ Hh1 Hw1)
    as (buf' & s2 & -> & Ht & Hs2 & Hh2); [rewrite length_app; lia|lia|].
  exists s2. rewrite Ht, take_app_length, (request_parsed limits) by done. split_and!; congruence.
Qed.

(** C22. A request is read as it was written: whatever bytes follow it and however the transport cuts
    them, the bytes a client writes for a request with a known method, within the limits, with the
    length of its body announced, are collected and parsed as that request, every header and every
    byte of the body. *)
Theorem http_request_received (limits : HttpParseLimits) (req : HttpRequest) (extra : list byte) (s : S)
    (Hok : http_request_ok limits req) (Hh : healthy s) (Hwire : pending s = client_request req ++ extra)
    (Hcap : Z.of_nat (length (http_joined (request_line req) (header_line <$> hr_headers req))) + 3
      <= max_request_line limits + max_header_bytes limits) :
  exists s', read_http_request limits s = (Ok req, s') /\ sent s' = sent s.
Proof. destruct (http_request_collected limits req extra s Hok Hh Hwire Hcap) as (s' & Hr & Hs & _). by exists s'. Qed.
End Stream.

(** ** A request on a stream *)

Definition sample_request : HttpRequest :=
  MkHttpRequest Post (text_of "POST") (text_of "/api/v1/topics?a:b") (text_of "HTTP/1.1")
    [(text_of "Host", text_of "h:80"); (text_of "CONTENT-length", text_of "5"); (text_of "X", [])] (text_of "hello").

Definition http_stream : PlannedStream := MkPlannedStream (client_request sample_request ++ text_of "GET") [] [5; 30; 2; 41]%nat.

Lemma http_request_received_witness : exists s', read_http_request default_limits http_stream = (Ok sample_request, s') /\ sent s' = [].
Proof.
  assert (Hok : http_request_ok default_limits sample_request).
  { split; [by vm_compute| | | | | | | |].
    - split_and!; [done|repeat constructor; vm_compute; discriminate|repeat constructor; vm_compute; discriminate].
    - split; [done|repeat constructor; vm_compute; discriminate].
    - repeat constructor; vm_compute; discriminate.
    - split; [repeat constructor; by vm_compute|by right].
    - by vm_compute. - by vm_compute. - by vm_compute. - by vm_compute. }
  assert (Hcap : Z.of_nat (length (http_joined (request_line sample_request) (header_line <$> hr_headers sample_request))) + 3
    <= max_request_line default_limits + max_header_bytes default_limits) by (by vm_compute).
  exact (http_request_received (BL := planned_stream_laws) default_limits sample_request (text_of "GET") http_stream Hok I eq_refl Hcap).
Defined.

(** ** What the cuts and repeated headers change *)

Definition bare_request (headers : Headers) (body : list byte) : HttpRequest :=
  MkHttpRequest Get (text_of "GET") (text_of "/") (text_of "HTTP/1.1") headers body.

(** Near the limit of the headers the cap on what has been received counts the line breaks, which the
    limits do not: the same bytes are accepted when they come at once, and refused when they come one
    by one. *)
Lemma cuts_decide_near_the_limit :
  let limits := MkLimits 14 1 4 0 in
  let req := bare_request [(text_of "A", text_of "b")] [] in
  let receive sizes := (read_http_request limits (MkPlannedStream (client_request req) [] sizes)).1 in
  receive [100%nat] = Ok req /\ receive [] = make_error InvalidArgument "cabeceras HTTP demasiado grandes".
Proof. vm_compute. done. Qed.

(** Of two lengths the first tells how much is received and the last how much of it is the body. *)
Lemma two_lengths_disagree :
  let headers := [(text_of "Content-Length", text_of "5"); (text_of "Content-Length", text_of "2")] in
  (read_http_request default_limits (MkPlannedStream (client_request (bare_request headers (text_of "hello"))) [] [100%nat])).1
  = Ok (bare_request headers (text_of "he")).
Proof. vm_compute. done. Qed.
