(* ===== verification/Jwt.v ===== *)
(** * Tokens

    First base64url, then JSON web tokens.  Models [src/src/common/base64.cpp]: the encoding without
    padding of RFC 4648, with its 32-bit accumulator, and the decoder, which tolerates padding. *)
From Stdlib Require Import ZArith Lia Ascii String Floats.SpecFloat.
From stdpp Require Import base list strings.
From S2P Require Import Prelude Codec Json Hashes Http.
#[local] Open Scope Z_scope.

Definition kAlphabet : list byte := bytes_of_string "ABCDEFGHIJKLMNOPQRSTUVWXYZabcdefghijklmnopqrstuvwxyz0123456789-_".

Definition letter (v : Z) : byte := nth (Z.to_nat v) kAlphabet 0.

(** [kDecodeTable]: the place of a character in the alphabet; [None] for -1. *)
Definition kDecodeTable (c : byte) : option Z := (fun p => Z.of_nat p.1) <$> list_find (fun x => x = c) kAlphabet.

Definition push (width : Z) (buffer v : Z) : Z := Z.lor (to_u 32 (Z.shiftl buffer width)) v.

(** The inner loop: the letters of six bits the accumulator holds. *)
Fixpoint emit_loop (fuel : nat) (buffer bits : Z) : list byte * Z :=
  match fuel with
  | O => ([], bits)
  | S fuel' =>
      if 6 <=? bits then
        let bits := bits - 6 in
        let '(out, rest) := emit_loop fuel' buffer bits in (letter (Z.land (Z.shiftr buffer bits) 0x3F) :: out, rest)
      else ([], bits)
  end.

Fixpoint b64_encode_loop (data : list byte) (buffer bits : Z) : list byte :=
  match data with
  | [] => if 0 <? bits then [letter (Z.land (to_u 32 (Z.shiftl buffer (6 - bits))) 0x3F)] else []
  | b :: data =>
      let buffer := push 8 buffer b in
      let bits := bits + 8 in
      let '(out, bits) := emit_loop (Z.to_nat bits) buffer bits in out ++ b64_encode_loop data buffer bits
  end.

Definition base64url_encode (data : list byte) : list byte := b64_encode_loop data 0 0.

Definition strip_padding (text : list byte) : list byte := reverse (skip_while (fun c => c =? 61) (reverse text)).

Fixpoint b64_decode_loop (text : list byte) (buffer bits : Z) (out : list byte) : expected (list byte) :=
  match text with
  | [] => Ok out
  | c :: text =>
      match kDecodeTable c with
      | None => make_error InvalidArgument "base64url: carácter inválido"
      | Some value =>
          let buffer := push 6 buffer value in
          let bits := bits + 6 in
          if 8 <=? bits
          then b64_decode_loop text buffer (bits - 8) (out ++ [Z.land (Z.shiftr buffer (bits - 8)) 0xFF])
          else b64_decode_loop text buffer bits out
      end
  end.

Definition base64url_decode (text : list byte) : expected (list byte) :=
  let text := strip_padding text in
  if (length text mod 4 =? 1)%nat then make_error InvalidArgument "base64url: longitud inválida"
  else b64_decode_loop text 0 0 [].

(** ** Round trip *)

Lemma lor_sum w x v : 0 <= w -> 0 <= v < 2 ^ w -> x mod 2 ^ w = 0 -> Z.lor x v = x + v.
Proof.
  intros Hw Hv Hx. rewrite <- Z.add_lor_land. assert (H0 : Z.land x v = 0); [|lia].
  apply Z.bits_inj'. intros n Hn. rewrite Z.land_spec, Z.bits_0. destruct (Z.lt_ge_cases n w).
  - rewrite <- (Z.mod_pow2_bits_low x w n), Hx, Z.bits_0 by lia. done.
  - rewrite <- (Z.mod_small v (2 ^ w)), Z.mod_pow2_bits_high by lia. apply andb_false_r.
Qed.

(** The divisions by constants of a closed arithmetic goal. *)
Ltac divisions := Z.to_euclidean_division_equations; lia.

Lemma push8 x v : u_range 8 v -> push 8 x v = (x * 256) mod 4294967296 + v.
Proof.
  intros Hv. unfold u_range in Hv. cbn in Hv. unfold push, to_u. rewrite Z.shiftl_mul_pow2 by lia.
  apply (lor_sum 8); [lia|cbn; lia|]. change (2 ^ 8) with 256. change (2 ^ 32) with 4294967296. divisions.
Qed.

Lemma push6 x v : 0 <= v < 64 -> push 6 x v = (x * 64) mod 4294967296 + v.
Proof.
  intros Hv. unfold push, to_u. rewrite Z.shiftl_mul_pow2 by lia.
  apply (lor_sum 6); [lia|cbn; lia|]. change (2 ^ 6) with 64. change (2 ^ 32) with 4294967296. divisions.
Qed.

Lemma bits6 x k : 0 <= k -> Z.land (Z.shiftr x k) 0x3F = x / 2 ^ k mod 64.
Proof. intros. rewrite Z.shiftr_div_pow2 by done. by rewrite (Z.land_ones _ 6). Qed.
Lemma bits8 x k : 0 <= k -> Z.land (Z.shiftr x k) 0xFF = x / 2 ^ k mod 256.
Proof. intros. rewrite Z.shiftr_div_pow2 by done. by rewrite (Z.land_ones _ 8). Qed.

(** Neither the padding nor the dot. *)
Definition plain_letter (c : byte) : Prop := c <> 61 /\ c <> 46.

#[export] Instance plain_letter_dec c : Decision (plain_letter c).
Proof. unfold plain_letter. apply _. Defined.

Lemma letter_decodes v : 0 <= v < 64 -> kDecodeTable (letter v) = Some v /\ plain_letter (letter v).
Proof.
  intros Hv. assert (Hall : forallb (fun v => bool_decide (kDecodeTable (letter v) = Some v /\ plain_letter (letter v))) (seqZ 0 64) = true)
    by (vm_compute; reflexivity).
  rewrite forallb_forall in Hall. apply (bool_decide_eq_true_1 _), Hall. apply list_elem_of_In, elem_of_seqZ. lia.
Qed.

(** What the accumulator gives after the first, the second and the third byte of a group. *)
Definition sextet (x k : Z) : byte := letter (Z.land (Z.shiftr x k) 0x3F).

Lemma emit_first x : emit_loop (Z.to_nat (0 + 8)) x (0 + 8) = ([sextet x 2], 2).
Proof. reflexivity. Qed.
Lemma emit_second x : emit_loop (Z.to_nat (2 + 8)) x (2 + 8) = ([sextet x 4], 4).
Proof. reflexivity. Qed.
Lemma emit_third x : emit_loop (Z.to_nat (4 + 8)) x (4 + 8) = ([sextet x 6; sextet x 0], 0).
Proof. reflexivity. Qed.

Ltac byte_bounds :=
  repeat match goal with H : u_range 8 _ |- _ => unfold u_range in H; change (2 ^ 8) with 256 in H end.

Lemma sextet_at k x v : 0 <= k -> u_range 8 v -> sextet (push 8 x v) k = letter (((x * 256) mod 4294967296 + v) / 2 ^ k mod 64).
Proof. intros Hk Hv. unfold sextet. by rewrite bits6, push8. Qed.

Lemma sextet_1 x a : u_range 8 a -> sextet (push 8 x a) 2 = letter (a / 4).
Proof. intros Ha. rewrite sextet_at by (done || lia). byte_bounds. change (2 ^ 2) with 4. f_equal. divisions. Qed.
Lemma sextet_2 x b : u_range 8 b -> sextet (push 8 x b) 4 = letter (x mod 4 * 16 + b / 16).
Proof. intros Ha. rewrite sextet_at by (done || lia). byte_bounds. change (2 ^ 4) with 16. f_equal. divisions. Qed.
Lemma sextet_3 x c : u_range 8 c -> sextet (push 8 x c) 6 = letter (x mod 16 * 4 + c / 64).
Proof. intros Ha. rewrite sextet_at by (done || lia). byte_bounds. change (2 ^ 6) with 64. f_equal. divisions. Qed.
Lemma sextet_4 x c : u_range 8 c -> sextet (push 8 x c) 0 = letter (c mod 64).
Proof. intros Ha. rewrite sextet_at by (done || lia). byte_bounds. change (2 ^ 0) with 1. f_equal. divisions. Qed.

Lemma push_mod4 x v : u_range 8 v -> push 8 x v mod 4 = v mod 4.
Proof. intros Hv. rewrite push8 by done. byte_bounds. divisions. Qed.
Lemma push_mod16 x v : u_range 8 v -> push 8 x v mod 16 = v mod 16.
Proof. intros Hv. rewrite push8 by done. byte_bounds. divisions. Qed.

(** Three bytes are four letters. *)
Lemma encode_group a b c data x :
  u_range 8 a -> u_range 8 b -> u_range 8 c ->
  b64_encode_loop (a :: b :: c :: data) x 0
  = letter (a / 4) :: letter (a mod 4 * 16 + b / 16) :: letter (b mod 16 * 4 + c / 64) :: letter (c mod 64)
      :: b64_encode_loop data (push 8 (push 8 (push 8 x a) b) c) 0.
Proof.
  intros Ha Hb Hc. cbn [b64_encode_loop]. rewrite emit_first, emit_second, emit_third. cbn [app].
  by rewrite sextet_1, sextet_2, sextet_3, sextet_4, push_mod4, push_mod16.
Qed.

(** The last one or two: what is left of the accumulator, in the high bits of a letter. *)
Lemma last_letter k x v : 0 <= k -> u_range 8 v ->
  letter (Z.land (to_u 32 (Z.shiftl (push 8 x v) k)) 0x3F) = letter (((x * 256) mod 4294967296 + v) * 2 ^ k mod 4294967296 mod 64).
Proof. intros Hk Hv. unfold to_u. by rewrite (Z.land_ones _ 6), Z.shiftl_mul_pow2, push8. Qed.

Lemma encode_one a x : u_range 8 a -> b64_encode_loop [a] x 0 = [letter (a / 4); letter (a mod 4 * 16)].
Proof.
  intros Ha. cbn [b64_encode_loop]. rewrite emit_first. cbn [app]. change (0 <? 2) with true. change (6 - 2) with 4. cbv iota.
  rewrite sextet_1, last_letter by (done || lia). byte_bounds. change (2 ^ 4) with 16. do 3 f_equal. divisions.
Qed.

Lemma encode_two a b x : u_range 8 a -> u_range 8 b ->
  b64_encode_loop [a; b] x 0 = [letter (a / 4); letter (a mod 4 * 16 + b / 16); letter (b mod 16 * 4)].
Proof.
  intros Ha Hb. cbn [b64_encode_loop]. rewrite emit_first, emit_second. cbn [app]. change (0 <? 4) with true. change (6 - 4) with 2. cbv iota.
  rewrite sextet_1, sextet_2, push_mod4, last_letter by (done || lia). byte_bounds. change (2 ^ 2) with 4. do 4 f_equal. divisions.
Qed.

Lemma octet_at k x v : 0 <= k -> 0 <= v < 64 -> Z.land (Z.shiftr (push 6 x v) k) 0xFF = ((x * 64) mod 4294967296 + v) / 2 ^ k mod 256.
Proof. intros Hk Hv. by rewrite bits8, push6. Qed.

(** Two letters are a byte, the third completes the next and the fourth the last. *)
Lemma decode_two v w text x out : 0 <= v < 64 -> 0 <= w < 64 ->
  b64_decode_loop (letter v :: letter w :: text) x 0 out = b64_decode_loop text (push 6 (push 6 x v) w) 4 (out ++ [v * 4 + w / 16]).
Proof.
  intros Hv Hw. cbn [b64_decode_loop]. rewrite (proj1 (letter_decodes v Hv)). change (8 <=? 0 + 6) with false. cbv iota zeta.
  cbn [b64_decode_loop]. rewrite (proj1 (letter_decodes w Hw)). change (8 <=? 0 + 6 + 6) with true. cbv iota zeta.
  change (0 + 6 + 6 - 8) with 4. rewrite octet_at by lia. do 2 f_equal. rewrite push6 by done. change (2 ^ 4) with 16. f_equal. divisions.
Qed.

Lemma decode_third v text x out : 0 <= v < 64 ->
  b64_decode_loop (letter v :: text) x 4 out = b64_decode_loop text (push 6 x v) 2 (out ++ [x mod 16 * 16 + v / 4]).
Proof.
  intros Hv. cbn [b64_decode_loop]. rewrite (proj1 (letter_decodes v Hv)). change (8 <=? 4 + 6) with true. cbv iota zeta.
  change (4 + 6 - 8) with 2. rewrite octet_at by lia. change (2 ^ 2) with 4. do 3 f_equal. divisions.
Qed.

Lemma decode_fourth v text x out : 0 <= v < 64 ->
  b64_decode_loop (letter v :: text) x 2 out = b64_decode_loop text (push 6 x v) 0 (out ++ [x mod 4 * 64 + v]).
Proof.
  intros Hv. cbn [b64_decode_loop]. rewrite (proj1 (letter_decodes v Hv)). change (8 <=? 2 + 6) with true. cbv iota zeta.
  change (2 + 6 - 8) with 0. rewrite octet_at by lia. change (2 ^ 0) with 1. do 3 f_equal. divisions.
Qed.

Lemma push6_mod16 x v : 0 <= v < 64 -> push 6 x v mod 16 = v mod 16.
Proof. intros Hv. rewrite push6 by done. divisions. Qed.
Lemma push6_mod4 x v : 0 <= v < 64 -> push 6 x v mod 4 = v mod 4.
Proof. intros Hv. rewrite push6 by done. divisions. Qed.

(** What is written in whole groups: induction over the bytes by three. *)
Lemma by_groups (P : list byte -> Prop) :
  P [] -> (forall a, P [a]) -> (forall a b, P [a; b]) -> (forall a b c data, P data -> P (a :: b :: c :: data)) -> forall data, P data.
Proof.
  intros H0 H1 H2 H3. assert (Hall : forall n data, (length data <= n)%nat -> P data).
  { induction n as [|n IH]; intros data Hn; [destruct data; [done|cbn in Hn; lia]|].
    destruct data as [|a [|b [|c data]]]; [done|apply H1|apply H2|]. apply H3, IH. cbn in Hn. lia. }
  intros data. by apply (Hall (length data)).
Qed.

Lemma letters_decode data : forall x y out, Forall (u_range 8) data ->
  b64_decode_loop (b64_encode_loop data x 0) y 0 out = Ok (out ++ data) /\
  Forall plain_letter (b64_encode_loop data x 0) /\ (length (b64_encode_loop data x 0) mod 4 <> 1)%nat.
Proof.
  induction data as [|a|a b|a b c data IH] using by_groups; intros x y out Hd;
    repeat match goal with H : Forall _ (_ :: _) |- _ => apply Forall_cons in H as [? H] end.
  - cbn. rewrite app_nil_r. split_and!; [done|constructor|done].
  - rewrite encode_one by done. byte_bounds.
    assert (Hv : 0 <= a / 4 < 64) by divisions. assert (Hw : 0 <= a mod 4 * 16 < 64) by divisions.
    rewrite decode_two by done. cbn [b64_decode_loop]. split_and!; [do 4 f_equal; divisions| |cbn; lia].
    repeat constructor; by apply letter_decodes.
  - rewrite encode_two by done. byte_bounds.
    assert (Hv : 0 <= a / 4 < 64) by divisions. assert (Hw : 0 <= a mod 4 * 16 + b / 16 < 64) by divisions.
    assert (Hu : 0 <= b mod 16 * 4 < 64) by divisions.
    rewrite decode_two, decode_third, push6_mod16 by done. cbn [b64_decode_loop]. split_and!; [| |cbn; lia].
    + rewrite <- app_assoc. cbn [app]. do 3 f_equal; [divisions|]. f_equal. divisions.
    + repeat constructor; by apply letter_decodes.
  - rewrite encode_group by done. byte_bounds.
    assert (Hv : 0 <= a / 4 < 64) by divisions. assert (Hw : 0 <= a mod 4 * 16 + b / 16 < 64) by divisions.
    assert (Hu : 0 <= b mod 16 * 4 + c / 64 < 64) by divisions. assert (Ht : 0 <= c mod 64 < 64) by divisions.
    rewrite decode_two, decode_third, decode_fourth, push6_mod16, push6_mod4 by done.
    destruct (IH (push 8 (push 8 (push 8 x a) b) c) (push 6 (push 6 (push 6 (push 6 y (a / 4)) (a mod 4 * 16 + b / 16)) (b mod 16 * 4 + c / 64)) (c mod 64))
      (((out ++ [a / 4 * 4 + (a mod 4 * 16 + b / 16) / 16]) ++ [(a mod 4 * 16 + b / 16) mod 16 * 16 + (b mod 16 * 4 + c / 64) / 4])
         ++ [(b mod 16 * 4 + c / 64) mod 4 * 64 + c mod 64]) Hd) as (-> & Hl & Hn).
    split_and!.
    + rewrite <- !app_assoc. cbn [app]. do 3 f_equal; [divisions|]. f_equal; [divisions|]. f_equal. divisions.
    + repeat constructor; try done; by apply letter_decodes.
    + cbn [length]. replace (S (S (S (S (length (b64_encode_loop data (push 8 (push 8 (push 8 x a) b) c) 0)))))) with
        (length (b64_encode_loop data (push 8 (push 8 (push 8 x a) b) c) 0) + 1 * 4)%nat by lia. by rewrite Nat.Div0.mod_add.
Qed.

Lemma strip_letters text n : Forall plain_letter text -> strip_padding (text ++ replicate n 61) = text.
Proof.
  intros Ht. unfold strip_padding. rewrite reverse_app, reverse_replicate.
  assert (Hs : skip_while (fun c => c =? 61) (replicate n 61 ++ reverse text) = reverse text).
  { induction n as [|n IH]; [|done]. cbn [replicate app]. destruct (reverse text) as [|c t] eqn:Hr; [done|]. cbn.
    assert (Hc : c <> 61) by (rewrite <- Forall_reverse, Hr in Ht; by apply Forall_cons in Ht as [[? _] _]).
    by destruct (Z.eqb_spec c 61). }
  by rewrite Hs, reverse_involutive.
Qed.

Lemma encoded_decodes data padding :
  Forall (u_range 8) data -> base64url_decode (base64url_encode data ++ replicate padding 61) = Ok data.
Proof.
  intros Hdata. destruct (letters_decode data 0 0 [] Hdata) as (Hd & Hl & Hn). unfold base64url_decode, base64url_encode.
  rewrite strip_letters by done. destruct (Nat.eqb_spec (length (b64_encode_loop data 0 0) mod 4) 1); [done|exact Hd].
Qed.

Lemma encoded_plain data : Forall (u_range 8) data -> Forall plain_letter (base64url_encode data).
Proof. intros Hdata. by destruct (letters_decode data 0 0 [] Hdata) as (_ & Hl & _). Qed.

(** What base64url encodes it decodes, with any padding: bytes of any length come back, and the
    encoding has neither dots nor padding of its own. *)
Theorem base64url_roundtrip (data : list byte) (padding : nat) (Hdata : Forall (u_range 8) data) :
  base64url_decode (base64url_encode data ++ replicate padding 61) = Ok data /\ Forall plain_letter (base64url_encode data).
Proof. split; [by apply encoded_decodes|by apply encoded_plain]. Qed.

Lemma base64url_roundtrip_witness :
  base64url_encode [251; 255; 0; 65] = bytes_of_string "-_8AQQ" /\
  base64url_decode (base64url_encode [251; 255; 0; 65] ++ replicate 2 61) = Ok [251; 255; 0; 65].
Proof.
  split; [vm_compute; reflexivity|].
  assert (Hd : Forall (u_range 8) [251; 255; 0; 65]) by (repeat constructor; vm_compute; done).
  exact (proj1 (base64url_roundtrip [251; 255; 0; 65] 2 Hd)).
Defined.

(** * JSON web tokens

    Models [JwtVerifier] of [src/src/ingress/jwt.cpp], which checks tokens signed with HS256. *)

Definition jwt_dot : byte := 46.

Record Principal := MkPrincipal { pr_subject : list byte; pr_roles : list (list byte) }.

Record JwtOptions := MkJwtOptions {
  jo_issuer : list byte;
  jo_audience : list byte;
  jo_leeway_seconds : Z;
  jo_require_exp : bool;
}.

Record JwtVerifier := MkVerifier { jv_secret : list byte; jv_options : JwtOptions }.

Definition jwt_reject {A} (why : string) : expected A := make_error InvalidArgument ("JWT: " ++ why).

(** The loop over all the bytes, which does not stop at the first that differs. *)
Definition constant_time_equal (lhs rhs : list byte) : bool :=
  (length lhs =? length rhs)%nat && (foldl (fun diff b => Z.lor diff (Z.lxor b.1 b.2)) 0 (combine lhs rhs) =? 0).

Definition decode_json_segment (segment : list byte) (what : string) : expected JsonValue :=
  match base64url_decode segment with
  | Err _ => jwt_reject (what ++ " no es base64url")
  | Ok bytes =>
      match parse_json bytes with
      | Err _ => jwt_reject (what ++ " no es JSON")
      | Ok json => if json_is_object json then Ok json else jwt_reject (what ++ " no es un objeto JSON")
      end
  end.

Section Jwt.
Context (unrepresentable : spec_float -> Z).

(** A claim, when it is a number. *)
Definition number_claim (name : string) (payload : JsonValue) : option Z :=
  match json_find (text_of name) payload with Some (JNumber x) => Some (as_int64 unrepresentable x) | _ => None end.

Definition check_temporal (payload : JsonValue) (now : Z) (options : JwtOptions) : expected unit :=
  let leeway := jo_leeway_seconds options in
  let? exp :=
    match number_claim "exp" payload with
    | None => if jo_require_exp options then jwt_reject "falta el claim 'exp'" else Ok tt
    | Some exp => if to_i 64 (exp + leeway) <? now then jwt_reject "token expirado" else Ok tt
    end in
  let? nbf :=
    match number_claim "nbf" payload with
    | Some nbf => if to_i 64 (now + leeway) <? nbf then jwt_reject "token aún no válido (nbf)" else Ok tt
    | None => Ok tt
    end in
  match number_claim "iat" payload with
  | Some iat => if to_i 64 (now + leeway) <? iat then jwt_reject "token emitido en el futuro (iat)" else Ok tt
  | None => Ok tt
  end.

Definition is_text (wanted : list byte) (v : JsonValue) : bool :=
  match v with JString text => bool_decide (text = wanted) | _ => false end.

Definition check_issuer_audience (payload : JsonValue) (options : JwtOptions) : expected unit :=
  let? issuer :=
    match jo_issuer options with
    | [] => Ok tt
    | issuer =>
        match json_find (text_of "iss") payload with
        | Some iss => if is_text issuer iss then Ok tt else jwt_reject "emisor (iss) no autorizado"
        | None => jwt_reject "emisor (iss) no autorizado"
        end
    end in
  match jo_audience options with
  | [] => Ok tt
  | audience =>
      match json_find (text_of "aud") payload with
      | None => jwt_reject "falta la audiencia (aud)"
      | Some (JArray items) => if existsb (is_text audience) items then Ok tt else jwt_reject "audiencia (aud) no autorizada"
      | Some aud => if is_text audience aud then Ok tt else jwt_reject "audiencia (aud) no autorizada"
      end
  end.

Definition json_texts (items : list JsonValue) : list (list byte) :=
  omap (fun v => match v with JString text => Some text | _ => None end) items.

Definition build_principal (payload : JsonValue) : Principal :=
  MkPrincipal
    match json_find (text_of "sub") payload with Some (JString text) => text | _ => [] end
    match json_find (text_of "roles") payload with Some (JArray items) => json_texts items | _ => [] end.

Definition jwt_verify (verifier : JwtVerifier) (token : list byte) (now : Z) : expected Principal :=
  match text_find [jwt_dot] token with
  | None => jwt_reject "formato inválido (faltan '.')"
  | Some first_dot =>
      match find_from [jwt_dot] (first_dot + 1) token with
      | None => jwt_reject "formato inválido (faltan '.')"
      | Some second_dot =>
          match find_from [jwt_dot] (second_dot + 1) token with
          | Some _ => jwt_reject "formato inválido (sobran '.')"
          | None =>
              let header_b64 := take first_dot token in
              let payload_b64 := take (second_dot - first_dot - 1) (drop (first_dot + 1) token) in
              let signature_b64 := drop (second_dot + 1) token in
              let? header := decode_json_segment header_b64 "cabecera" in
              let? alg :=
                match json_find (text_of "alg") header with
                | Some alg => if is_text (text_of "HS256") alg then Ok tt else jwt_reject "algoritmo no soportado (se exige HS256)"
                | None => jwt_reject "algoritmo no soportado (se exige HS256)"
                end in
              let mac := hmac_sha256 (jv_secret verifier) (header_b64 ++ [jwt_dot] ++ payload_b64) in
              match base64url_decode signature_b64 with
              | Err _ => jwt_reject "firma no es base64url"
              | Ok provided =>
                  if negb (constant_time_equal mac provided) then jwt_reject "firma inválida"
                  else
                    let? payload := decode_json_segment payload_b64 "payload" in
                    let? temporal := check_temporal payload now (jv_options verifier) in
                    let? authority := check_issuer_audience payload (jv_options verifier) in
                    Ok (build_principal payload)
              end
          end
      end
  end.
End Jwt.
