(* ===== verification/JwtSafety.v ===== *)
(** * Which tokens are accepted

    A token is accepted exactly when it is signed with the secret and its claims hold; and a token that
    an issuer signs is accepted exactly while its claims hold. *)
From Stdlib Require Import ZArith Lia Ascii String Floats.SpecFloat.
From stdpp Require Import base list strings.
From S2P Require Import Prelude Codec Decimal Json JsonSafety Hashes Jwt Http HttpSafety.
#[local] Open Scope Z_scope.

(** ** Segments *)

Lemma find_splits c text n :
  text_find [c] text = Some n -> text = take n text ++ c :: drop (n + 1) text /\ without c (take n text).
Proof.
  revert n. induction text as [|x text IH]; intros n; cbn [text_find starts]; [done|].
  destruct (Z.eqb_spec c x) as [->|Hne]; cbn [andb].
  - intros [= <-]. split; [done|constructor].
  - destruct (text_find [c] text) as [n'|]; [|done]. intros [= <-]. destruct (IH n' eq_refl) as [Heq Hw].
    cbn [take drop Nat.add app]. split; [by rewrite Heq at 1|]. constructor; [congruence|done].
Qed.

Lemma find_none c text : text_find [c] text = None -> without c text.
Proof.
  induction text as [|x text IH]; cbn [text_find starts]; [constructor|]. destruct (Z.eqb_spec c x) as [->|Hne]; [done|]. cbn [andb].
  destruct (text_find [c] text); [done|]. intros _. constructor; [congruence|by apply IH].
Qed.

Lemma find_here c a b : without c a -> text_find [c] (a ++ c :: b) = Some (length a).
Proof. intros Ha. rewrite find_after by done. cbn. rewrite Z.eqb_refl. cbn. by rewrite Nat.add_0_r. Qed.

(** The loop over the differences sees them all. *)
Lemma differences_zero pairs acc :
  0 <= acc -> Forall (fun p : byte * byte => u_range 8 p.1 /\ u_range 8 p.2) pairs ->
  foldl (fun diff b => Z.lor diff (Z.lxor b.1 b.2)) acc pairs = 0 <-> acc = 0 /\ Forall (fun p => p.1 = p.2) pairs.
Proof.
  intros Ha Hp. revert acc Ha. induction Hp as [|[x y] pairs [Hx Hy] _ IH]; intros acc Ha; cbn [foldl fst snd].
  - split; [by split; [|constructor]|tauto].
  - unfold u_range in Hx, Hy. cbn [fst snd] in Hx, Hy. rewrite IH.
    2: { apply Z.lor_nonneg. split; [done|]. apply Z.lxor_nonneg. lia. }
    rewrite Z.lor_eq_0_iff, Z.lxor_eq_0_iff, Forall_cons. cbn. tauto.
Qed.

Lemma constant_time_equal_spec a b :
  Forall (u_range 8) a -> Forall (u_range 8) b -> constant_time_equal a b = true <-> a = b.
Proof.
  intros Ha Hb. unfold constant_time_equal. rewrite andb_true_iff, Nat.eqb_eq, Z.eqb_eq, differences_zero; [|done|].
  - split; [|intros ->; split; [done|split; [done|]]].
    + intros (Hl & _ & Hall). revert b Hb Hl Hall. clear Ha. induction a as [|x a IH]; intros [|y b] Hb Hl Hall; try done.
      cbn [combine] in Hall. apply Forall_cons in Hall as [Hxy Hall]. apply Forall_cons in Hb as [_ Hb]. cbn in Hxy. f_equal; [done|].
      apply IH; [done|by injection Hl|done].
    + clear. induction b; cbn [combine]; constructor; done.
  - revert b Hb. induction Ha as [|x a Hx _ IH]; intros [|y b] Hb; cbn [combine]; constructor.
    + apply Forall_cons in Hb as [Hy _]. done.
    + apply IH. by apply Forall_cons in Hb as [_ Hb].
Qed.

Lemma finish_bytes h : Forall (u_range 8) (sha_finish h).
Proof.
  unfold sha_finish. repeat case_match; simplify_eq. all: clear.
  all: match goal with |- Forall _ (concat (_ <$> ?l)) => generalize l end.
  all: induction l as [|x l IH]; [constructor|]; cbn [fmap list_fmap concat]; apply Forall_app; split; [|done].
  all: unfold be_bytes; apply Forall_fmap, Forall_true; intros i; unfold compose; change 255 with (Z.ones 8); rewrite Z.land_ones by lia.
  all: unfold u_range; apply Z.mod_pos_bound; lia.
Qed.

Lemma hmac_bytes key message : Forall (u_range 8) (hmac_sha256 key message).
Proof. unfold hmac_sha256. apply finish_bytes. Qed.

(** What the decoder gives is bytes. *)
Lemma b64_decode_loop_bytes text : forall buffer bits out data,
  b64_decode_loop text buffer bits out = Ok data -> Forall (u_range 8) out -> Forall (u_range 8) data.
Proof.
  induction text as [|c text IH]; intros buffer bits out data; cbn [b64_decode_loop]; [by intros [= <-]|].
  destruct (kDecodeTable c) as [v|]; [|done]. cbv zeta. destruct (8 <=? bits + 6); [|apply IH].
  intros H Hout. eapply IH; [exact H|]. apply Forall_app. split; [done|]. constructor; [|constructor].
  change 255 with (Z.ones 8). rewrite Z.land_ones by lia. unfold u_range. apply Z.mod_pos_bound. lia.
Qed.

Lemma decoded_bytes text data : base64url_decode text = Ok data -> Forall (u_range 8) data.
Proof.
  unfold base64url_decode. cbv zeta. destruct (_ =? 1)%nat; [done|]. intros H. eapply b64_decode_loop_bytes; [exact H|constructor].
Qed.

Section Verify.
Context (unrepresentable : spec_float -> Z).

(** Signed with the secret, of three segments, with claims that hold. *)
Definition authentic (verifier : JwtVerifier) (token : list byte) (now : Z) (principal : Principal) : Prop :=
  exists header payload signature header_json payload_json,
    token = header ++ [jwt_dot] ++ payload ++ [jwt_dot] ++ signature /\
    (without jwt_dot header /\ without jwt_dot payload /\ without jwt_dot signature) /\
    (decode_json_segment header "cabecera" = Ok header_json /\
      json_find (text_of "alg") header_json = Some (JString (text_of "HS256"))) /\
    base64url_decode signature = Ok (hmac_sha256 (jv_secret verifier) (header ++ [jwt_dot] ++ payload)) /\
    (decode_json_segment payload "payload" = Ok payload_json /\
      check_temporal unrepresentable payload_json now (jv_options verifier) = Ok tt /\
      check_issuer_audience payload_json (jv_options verifier) = Ok tt) /\
    principal = build_principal payload_json.

Lemma is_text_spec wanted v : is_text wanted v = true <-> v = JString wanted.
Proof. destruct v; cbn; try (split; [done|intros [=]]). rewrite bool_decide_eq_true. split; [by intros ->|by intros [=]]. Qed.

Lemma verify_segments verifier header payload signature now :
  without jwt_dot header -> without jwt_dot payload -> without jwt_dot signature ->
  jwt_verify unrepresentable verifier (header ++ [jwt_dot] ++ payload ++ [jwt_dot] ++ signature) now
  = let? header_json := decode_json_segment header "cabecera" in
    let? alg :=
      match json_find (text_of "alg") header_json with
      | Some alg => if is_text (text_of "HS256") alg then Ok tt else jwt_reject "algoritmo no soportado (se exige HS256)"
      | None => jwt_reject "algoritmo no soportado (se exige HS256)"
      end in
    match base64url_decode signature with
    | Err _ => jwt_reject "firma no es base64url"
    | Ok provided =>
        if negb (constant_time_equal (hmac_sha256 (jv_secret verifier) (header ++ [jwt_dot] ++ payload)) provided)
        then jwt_reject "firma inválida"
        else
          let? payload_json := decode_json_segment payload "payload" in
          let? temporal := check_temporal unrepresentable payload_json now (jv_options verifier) in
          let? authority := check_issuer_audience payload_json (jv_options verifier) in
          Ok (build_principal payload_json)
    end.
Proof.
  intros Hh Hp Hs. unfold jwt_verify. cbn [app]. rewrite find_here by done. unfold find_from.
  assert (H1 : drop (length header + 1) (header ++ jwt_dot :: payload ++ jwt_dot :: signature) = payload ++ jwt_dot :: signature)
    by (by rewrite <- drop_drop, drop_app_length).
  rewrite H1, find_here by done. cbn [fmap option_fmap option_map].
  assert (H2 : drop (length header + 1 + length payload + 1) (header ++ jwt_dot :: payload ++ jwt_dot :: signature) = signature).
  { replace (length header + 1 + length payload + 1)%nat with ((length header + 1) + (length payload + 1))%nat by lia.
    rewrite <- drop_drop, H1. by rewrite <- drop_drop, drop_app_length. }
  rewrite H2, find_absent by done. cbn [fmap option_fmap option_map].
  replace (length header + 1 + length payload - length header - 1)%nat with (length payload) by lia.
  rewrite !take_app_length. done.
Qed.

(** Only what is signed is accepted: a token is accepted, with a principal, exactly when it has three
    segments, its header asks for HS256, its signature is the keyed hash of the other two under the
    secret, the claims of its payload hold now, and the principal is the one they name. *)
Lemma verify_authentic (verifier : JwtVerifier) (token : list byte) (now : Z) (principal : Principal) :
  jwt_verify unrepresentable verifier token now = Ok principal <-> authentic verifier token now principal.
Proof.
  split.
  - intros Hv. pose proof Hv as Hv'. unfold jwt_verify in Hv'.
    destruct (text_find [jwt_dot] token) as [n1|] eqn:F1; [|done]. destruct (find_splits _ _ _ F1) as [Ht1 Hw1].
    unfold find_from at 1 in Hv'. destruct (text_find [jwt_dot] (drop (n1 + 1) token)) as [n2|] eqn:F2; [|done].
    destruct (find_splits _ _ _ F2) as [Ht2 Hw2]. cbn [fmap option_fmap option_map] in Hv'.
    unfold find_from in Hv'. destruct (text_find [jwt_dot] (drop (n1 + 1 + n2 + 1) token)) as [n3|] eqn:F3; [done|].
    apply find_none in F3. clear Hv'. set (header := take n1 token) in *. set (payload := take n2 (drop (n1 + 1) token)) in *.
    rewrite drop_drop in Ht2. replace (n1 + 1 + (n2 + 1))%nat with (n1 + 1 + n2 + 1)%nat in Ht2 by lia.
    set (signature := drop (n1 + 1 + n2 + 1) token) in *.
    assert (Htoken : token = header ++ [jwt_dot] ++ payload ++ [jwt_dot] ++ signature) by (rewrite Ht1, Ht2 at 1; done).
    rewrite Htoken, verify_segments in Hv by done. unfold authentic.
    destruct (decode_json_segment header "cabecera") as [hj|] eqn:Hhj; [|done]. cbn [expected_bind] in Hv.
    destruct (json_find (text_of "alg") hj) as [alg|] eqn:Halg; [|done].
    destruct (is_text (text_of "HS256") alg) eqn:Hhs; [|done]. apply is_text_spec in Hhs as ->. cbn [expected_bind] in Hv.
    destruct (base64url_decode signature) as [mac|] eqn:Hmac; [|done].
    destruct (constant_time_equal _ mac) eqn:Heq; [|done]. cbn [negb] in Hv.
    apply constant_time_equal_spec in Heq; [|apply hmac_bytes|by eapply decoded_bytes]. subst mac.
    destruct (decode_json_segment payload "payload") as [pj|] eqn:Hpj; [|done]. cbn [expected_bind] in Hv.
    destruct (check_temporal _ pj now _) as [[]|] eqn:Hct; [|done]. cbn [expected_bind] in Hv.
    destruct (check_issuer_audience pj _) as [[]|] eqn:Hia; [|done]. injection Hv as <-.
    exists header, payload, signature, hj, pj. done.
  - intros (header & payload & signature & hj & pj & -> & (H1 & H2 & H3) & [Hh Halg] & Hs & (Hp & Ht & Hi) & ->).
    rewrite verify_segments, Hh by done. cbn [expected_bind]. rewrite Halg. cbn [is_text]. rewrite bool_decide_true by done.
    cbn [expected_bind]. rewrite Hs. rewrite (proj2 (constant_time_equal_spec _ _ (hmac_bytes _ _) (hmac_bytes _ _)) eq_refl). cbn [negb].
    rewrite Hp. cbn [expected_bind]. rewrite Ht. cbn [expected_bind]. by rewrite Hi.
Qed.
End Verify.

(** ** What an issuer signs *)

Lemma join_bytes texts : Forall (Forall (u_range 8)) texts -> Forall (u_range 8) (join_texts texts).
Proof.
  induction 1 as [|t texts Ht _ IH]; [constructor|]. rewrite join_cons. apply Forall_app. split; [done|].
  destruct texts; [constructor|]. apply Forall_app. split; [by repeat constructor|done].
Qed.

Lemma hex_char_byte d : 0 <= d < 16 -> u_range 8 (hex_char d).
Proof. intros. unfold u_range, hex_char. cbn. destruct (d <? 10); lia. Qed.

Lemma escaped_bytes text : Forall (u_range 8) text -> Forall (u_range 8) (append_escaped text).
Proof.
  intros Ht. unfold append_escaped. rewrite !Forall_app. split_and!; [by repeat constructor| |by repeat constructor].
  induction Ht as [|c text Hc _ IH]; [constructor|]. cbn [fmap list_fmap concat]. apply Forall_app. split; [|done].
  clear IH. assert (Hin : In c (map Z.of_nat (seq 0 256))).
  { apply in_map_iff. exists (Z.to_nat c). unfold u_range in Hc. split; [lia|]. apply in_seq. lia. }
  assert (Hall : forallb (fun c => forallb (fun b => (0 <=? b) && (b <? 256)) (escape_char c)) (map Z.of_nat (seq 0 256)) = true) by (vm_compute; done).
  rewrite forallb_forall in Hall. specialize (Hall c Hin). rewrite forallb_forall in Hall. apply Forall_forall. intros x Hx.
  apply list_elem_of_In, Hall in Hx. unfold u_range. cbn. lia.
Qed.

Lemma number_bytes n : i_range 64 n -> Forall (u_range 8) (to_string n).
Proof.
  intros Hn. assert (Hd : forall n, 0 <= n < 10 ^ 20 -> Forall (u_range 8) (digits n)).
  { clear. intros n Hn. destruct (digits_number n Hn) as (c & ds & -> & Hc & Hds & _).
    assert (Hdig : forall c, is_digit c -> u_range 8 c) by (unfold is_digit, u_range; cbn; lia).
    constructor; [by apply Hdig|]. eapply Forall_impl; [done|]. exact Hdig. }
  unfold to_string. width_simpl. destruct (Z.ltb_spec n 0); [constructor; [done|]|]; apply Hd; unfold i_range in Hn; cbn in *; lia.
Qed.

Lemma print_bytes v : json_ok v -> Forall (u_range 8) (print_json v).
Proof.
  induction v as [|b|n|s|items IH|members IH] using json_ind_nested; intros Hok; cbn [print_json json_ok] in *.
  - by repeat constructor.
  - destruct b; by repeat constructor.
  - by apply number_bytes.
  - by apply escaped_bytes.
  - rewrite !Forall_app. split_and!; [by repeat constructor| |by repeat constructor]. apply join_bytes.
    induction IH as [|x items Hx _ IHi]; cbn [map]; constructor; [apply Hx, Hok|apply IHi, Hok].
  - rewrite !Forall_app. split_and!; [by repeat constructor| |by repeat constructor]. apply join_bytes.
    induction IH as [|x members Hx _ IHi]; cbn [map]; constructor; [|apply IHi, Hok].
    rewrite !Forall_app. split_and!; [apply escaped_bytes, Hok|by repeat constructor|apply Hx, Hok].
Qed.

Record Claims := MkClaims {
  cl_subject : list byte;
  cl_roles : list (list byte);
  cl_issuer : option (list byte);
  cl_audience : list (list byte);
  cl_exp : option Z;
  cl_nbf : option Z;
  cl_iat : option Z;
}.

Definition claim (name : string) (v : option (Json Z)) : list (list byte * Json Z) :=
  match v with Some v => [(text_of name, v)] | None => [] end.

Definition claims_json (c : Claims) : Json Z :=
  JObject (claim "sub" (Some (JString (cl_subject c))) ++ claim "roles" (Some (JArray (map JString (cl_roles c))))
    ++ claim "iss" (JString <$> cl_issuer c) ++ claim "aud" (Some (JArray (map JString (cl_audience c))))
    ++ claim "exp" (JNumber <$> cl_exp c) ++ claim "nbf" (JNumber <$> cl_nbf c) ++ claim "iat" (JNumber <$> cl_iat c)).

Definition header_json : Json Z := JObject (claim "alg" (Some (JString (text_of "HS256"))) ++ claim "typ" (Some (JString (text_of "JWT")))).

Definition jwt_sign (secret : list byte) (c : Claims) : list byte :=
  let header := base64url_encode (print_json header_json) in
  let payload := base64url_encode (print_json (claims_json c)) in
  header ++ [jwt_dot] ++ payload ++ [jwt_dot] ++ base64url_encode (hmac_sha256 secret (header ++ [jwt_dot] ++ payload)).

Definition small_int (n : Z) : Prop := Z.abs n < 2 ^ 53.

Definition claims_ok (c : Claims) : Prop :=
  Forall (u_range 8) (cl_subject c) /\ Forall (Forall (u_range 8)) (cl_roles c) /\
  from_option (Forall (u_range 8)) True (cl_issuer c) /\ Forall (Forall (u_range 8)) (cl_audience c) /\
  from_option small_int True (cl_exp c) /\ from_option small_int True (cl_nbf c) /\ from_option small_int True (cl_iat c).

(** The claims hold at a time, under a policy. *)
Definition claims_hold (options : JwtOptions) (now : Z) (c : Claims) : Prop :=
  (match cl_exp c with Some exp => now <= exp + jo_leeway_seconds options | None => jo_require_exp options = false end /\
   from_option (fun nbf => nbf <= now + jo_leeway_seconds options) True (cl_nbf c) /\
   from_option (fun iat => iat <= now + jo_leeway_seconds options) True (cl_iat c)) /\
  (jo_issuer options = [] \/ cl_issuer c = Some (jo_issuer options)) /\
  (jo_audience options = [] \/ jo_audience options ∈ cl_audience c).

Section Issue.
Context (unrepresentable : spec_float -> Z).

Lemma texts_ok texts : Forall (Forall (u_range 8)) texts -> json_ok (JArray (map JString texts)) /\ (nesting (JArray (N := Z) (map JString texts)) <= 1)%nat.
Proof.
  induction 1 as [|t texts Ht _ [IHo IHn]]; [split; [done|cbn; lia]|]. cbn in *. split; [done|]. lia.
Qed.

Lemma members_ok (members : list (list byte * Json Z)) :
  Forall (fun m => Forall (u_range 8) m.1 /\ json_ok m.2 /\ (nesting m.2 <= 1)%nat) members ->
  json_ok (JObject members) /\ (nesting (JObject members) <= 2)%nat.
Proof.
  induction 1 as [|m members (H1 & H2 & H3) _ [IHo IHn]]; [split; [done|cbn; lia]|]. cbn in *. split; [done|]. lia.
Qed.

Lemma claims_json_ok c : claims_ok c -> json_ok (claims_json c) /\ (nesting (claims_json c) <= kJsonMaxDepth)%nat.
Proof.
  intros (Hs & Hr & Hi & Ha & He & Hn & Ht). destruct (texts_ok _ Hr) as [Hr1 Hr2]. destruct (texts_ok _ Ha) as [Ha1 Ha2].
  assert (Hrange : forall n, small_int n -> i_range 64 n) by (unfold small_int, i_range; intros n; width_simpl; cbn; lia).
  assert (Hname : forall name v, from_option (fun v => json_ok v /\ (nesting v <= 1)%nat) True v ->
    Forall (u_range 8) (text_of name) -> Forall (fun m => Forall (u_range 8) m.1 /\ json_ok m.2 /\ (nesting m.2 <= 1)%nat) (claim name v)).
  { intros name [v|] Hv Hb; [|constructor]. constructor; [done|constructor]. }
  destruct (members_ok (claim "sub" (Some (JString (cl_subject c))) ++ claim "roles" (Some (JArray (map JString (cl_roles c))))
    ++ claim "iss" (JString <$> cl_issuer c) ++ claim "aud" (Some (JArray (map JString (cl_audience c))))
    ++ claim "exp" (JNumber <$> cl_exp c) ++ claim "nbf" (JNumber <$> cl_nbf c) ++ claim "iat" (JNumber <$> cl_iat c))) as [H1 H2].
  - rewrite !Forall_app. split_and!; apply Hname; try (repeat constructor; done); try done.
    + by destruct (cl_issuer c); [|done]; cbn; split; [|lia].
    + by destruct (cl_exp c); [|done]; cbn; split; [apply Hrange|lia].
    + by destruct (cl_nbf c); [|done]; cbn; split; [apply Hrange|lia].
    + by destruct (cl_iat c); [|done]; cbn; split; [apply Hrange|lia].
  - split; [exact H1|]. unfold claims_json, kJsonMaxDepth. etransitivity; [exact H2|lia].
Qed.

Lemma token_segment_read v what :
  json_ok v -> (nesting v <= kJsonMaxDepth)%nat -> json_is_object v = true ->
  decode_json_segment (base64url_encode (print_json v)) what = Ok (json_map double_of_int v).
Proof.
  intros Hok Hn Ho. unfold decode_json_segment. pose proof (encoded_decodes (print_json v) 0 (print_bytes v Hok)) as He.
  cbn [replicate] in He. rewrite app_nil_r in He. rewrite He, json_reads_back by done. by destruct v.
Qed.

(** The claims, as the verifier reads them. *)
Lemma map_find key v : json_find key (json_map double_of_int v) = json_map double_of_int <$> json_find key v.
Proof.
  destruct v as [| | | | |members]; try done. cbn [json_find json_map]. induction members as [|m members IH]; [done|].
  cbn [map find fst snd]. case_bool_decide; [done|]. apply IH.
Qed.

Lemma claim_skip key name v (rest : list (list byte * Json Z)) :
  key <> text_of name -> json_find key (JObject (claim name v ++ rest)) = json_find key (JObject rest).
Proof. intros Hne. destruct v as [v|]; [|done]. cbn. by rewrite bool_decide_false by congruence. Qed.

Lemma claim_here name v (rest : list (list byte * Json Z)) :
  json_find (text_of name) (JObject (claim name (Some v) ++ rest)) = Some v.
Proof. cbn. by rewrite bool_decide_true by done. Qed.

Lemma claim_found name v (rest : list (list byte * Json Z)) :
  json_find (text_of name) (JObject rest) = None -> json_find (text_of name) (JObject (claim name v ++ rest)) = v.
Proof. destruct v; [intros _; apply claim_here|done]. Qed.

Ltac skip_claims := repeat (rewrite claim_skip by (vm_compute; discriminate)).

Lemma no_claim key : json_find key (JObject (N := Z) []) = None.
Proof. done. Qed.

Lemma claim_last key name (v : option (Json Z)) : key <> text_of name -> json_find key (JObject (claim name v)) = None.
Proof. intros Hne. rewrite <- (app_nil_r (claim name v)), claim_skip by done. done. Qed.

Lemma claims_read c :
  json_find (text_of "sub") (claims_json c) = Some (JString (cl_subject c)) /\
  json_find (text_of "roles") (claims_json c) = Some (JArray (map JString (cl_roles c))) /\
  json_find (text_of "iss") (claims_json c) = JString <$> cl_issuer c /\
  json_find (text_of "aud") (claims_json c) = Some (JArray (map JString (cl_audience c))) /\
  json_find (text_of "exp") (claims_json c) = JNumber <$> cl_exp c /\
  json_find (text_of "nbf") (claims_json c) = JNumber <$> cl_nbf c /\
  json_find (text_of "iat") (claims_json c) = JNumber <$> cl_iat c.
Proof.
  unfold claims_json. rewrite <- (app_nil_r (claim "iat" _)). split_and!; skip_claims; try apply claim_here.
  all: apply claim_found; skip_claims; done.
Qed.

Lemma number_read name c n :
  json_find (text_of name) (claims_json c) = JNumber <$> n -> from_option small_int True n ->
  number_claim unrepresentable name (json_map double_of_int (claims_json c)) = n.
Proof.
  intros Hf Hn. unfold number_claim. rewrite map_find, Hf. destruct n as [n|]; [|done]. cbn. f_equal. by apply as_int64_of_int.
Qed.

Lemma small_sum a b : small_int a -> small_int b -> to_i 64 (a + b) = a + b.
Proof.
  unfold small_int. intros Ha Hb. rewrite <- (to_i_to_u 64 (a + b)) at 2; [|done|unfold i_range; change (2 ^ 53) with 9007199254740992 in *; change (2 ^ (64 - 1)) with 9223372036854775808; lia].
  unfold to_i, to_u. by rewrite Z.mod_mod by lia.
Qed.

Lemma temporal_holds options now c :
  claims_ok c -> small_int now -> small_int (jo_leeway_seconds options) ->
  check_temporal unrepresentable (json_map double_of_int (claims_json c)) now options = Ok tt <->
  match cl_exp c with Some exp => now <= exp + jo_leeway_seconds options | None => jo_require_exp options = false end /\
  from_option (fun nbf => nbf <= now + jo_leeway_seconds options) True (cl_nbf c) /\
  from_option (fun iat => iat <= now + jo_leeway_seconds options) True (cl_iat c).
Proof.
  intros (_ & _ & _ & _ & He & Hn & Hi) Hnow Hl. destruct (claims_read c) as (_ & _ & _ & _ & Fe & Fn & Fi).
  unfold check_temporal. rewrite (number_read "exp" c (cl_exp c)), (number_read "nbf" c (cl_nbf c)), (number_read "iat" c (cl_iat c)) by done.
  cbv zeta. split.
  - intros H. split_and!.
    + destruct (cl_exp c) as [exp|]; [|by destruct (jo_require_exp options)]. cbn in He. rewrite small_sum in H by done.
      destruct (Z.ltb_spec (exp + jo_leeway_seconds options) now); [done|lia].
    + destruct (cl_nbf c) as [nbf|]; [|done]. cbn. rewrite (small_sum now) in H by done.
      destruct (match cl_exp c with Some _ => _ | None => _ end); [|done]. cbn [expected_bind] in H.
      destruct (Z.ltb_spec (now + jo_leeway_seconds options) nbf); [done|lia].
    + destruct (cl_iat c) as [iat|]; [|done]. cbn. rewrite (small_sum now) in H by done.
      destruct (match cl_exp c with Some _ => _ | None => _ end); [|done]. cbn [expected_bind] in H.
      destruct (match cl_nbf c with Some _ => _ | None => _ end); [|done]. cbn [expected_bind] in H.
      destruct (Z.ltb_spec (now + jo_leeway_seconds options) iat); [done|lia].
  - intros (H1 & H2 & H3).
    assert (E1 : match cl_exp c with
      | Some exp => if to_i 64 (exp + jo_leeway_seconds options) <? now then jwt_reject "token expirado" else Ok tt
      | None => if jo_require_exp options then jwt_reject "falta el claim 'exp'" else Ok tt end = Ok tt).
    { destruct (cl_exp c) as [exp|]; [rewrite small_sum by done; by rewrite (proj2 (Z.ltb_ge _ _))|by rewrite H1]. }
    rewrite E1. cbn [expected_bind]. destruct (cl_nbf c) as [nbf|]; cbn [from_option] in H2.
    + rewrite small_sum, (proj2 (Z.ltb_ge _ _)) by done. cbn [expected_bind].
      destruct (cl_iat c) as [iat|]; [|done]. by rewrite (proj2 (Z.ltb_ge _ _)).
    + cbn [expected_bind]. destruct (cl_iat c) as [iat|]; [|done]. rewrite small_sum by done. by rewrite (proj2 (Z.ltb_ge _ _)).
Qed.

Lemma texts_member (wanted : list byte) texts :
  existsb (is_text wanted) (map (json_map double_of_int) (map JString texts)) = true <-> wanted ∈ texts.
Proof.
  rewrite existsb_exists. split.
  - intros (v & Hin & Hv). apply is_text_spec in Hv as ->. apply in_map_iff in Hin as (u & Hu & Hin).
    apply in_map_iff in Hin as (t & <- & Hin). injection Hu as ->. by apply list_elem_of_In.
  - intros Hin. exists (JString wanted). split; [|by apply is_text_spec].
    apply in_map_iff. exists (JString wanted). split; [done|]. apply in_map, list_elem_of_In, Hin.
Qed.

Lemma authority_holds options c :
  check_issuer_audience (json_map double_of_int (claims_json c)) options = Ok tt <->
  (jo_issuer options = [] \/ cl_issuer c = Some (jo_issuer options)) /\
  (jo_audience options = [] \/ jo_audience options ∈ cl_audience c).
Proof.
  destruct (claims_read c) as (_ & _ & Fi & Fa & _). unfold check_issuer_audience. rewrite !map_find, Fi, Fa. cbn [fmap option_fmap option_map json_map].
  assert (HA : match jo_audience options with
    | [] => Ok tt
    | audience => if existsb (is_text audience) (map (json_map double_of_int) (map JString (cl_audience c))) then Ok tt
        else jwt_reject "audiencia (aud) no autorizada" end = Ok tt <-> jo_audience options = [] \/ jo_audience options ∈ cl_audience c).
  { destruct (jo_audience options) as [|a aud]; [tauto|]. rewrite <- texts_member. destruct (existsb _ _); split; try done; [tauto|by intros [|]]. }
  destruct (jo_issuer options) as [|i iss] eqn:Ei; [cbn [expected_bind]; rewrite HA; tauto|].
  destruct (cl_issuer c) as [issuer|]; cbn [fmap option_fmap option_map json_map is_text].
  - case_bool_decide as Hi; cbn [expected_bind].
    + rewrite HA. subst issuer. tauto.
    + split; [done|]. intros [[|[= ?]] _]; done.
  - split; [done|]. by intros [[|] _].
Qed.

Lemma principal_read c : build_principal (json_map double_of_int (claims_json c)) = MkPrincipal (cl_subject c) (cl_roles c).
Proof.
  destruct (claims_read c) as (Fs & Fr & _). unfold build_principal. rewrite !map_find, Fs, Fr. cbn [fmap option_fmap option_map json_map].
  f_equal. clear. unfold json_texts. induction (cl_roles c) as [|r roles IH]; [done|]. cbn. f_equal. exact IH.
Qed.

Lemma undotted data : Forall (u_range 8) data -> without jwt_dot (base64url_encode data).
Proof. intros Hd. eapply Forall_impl; [by apply encoded_plain|]. by intros c []. Qed.

Lemma decodes_exactly data : Forall (u_range 8) data -> base64url_decode (base64url_encode data) = Ok data.
Proof. intros Hd. rewrite <- (encoded_decodes data 0 Hd). cbn [replicate]. by rewrite app_nil_r. Qed.

(** C21. Tokens that an issuer signs with the secret (the header, the claims and the keyed hash of both,
    each printed and encoded as the standard says) are accepted exactly while their claims hold: not
    expired, already valid, issued in the past, of the issuer and for the audience the policy asks for;
    and the principal is the subject, with the roles, of the claims. *)
Theorem jwt_issued_accepted (verifier : JwtVerifier) (c : Claims) (now : Z) (principal : Principal)
  (Hc : claims_ok c) (Hnow : small_int now) (Hleeway : small_int (jo_leeway_seconds (jv_options verifier))) :
  jwt_verify unrepresentable verifier (jwt_sign (jv_secret verifier) c) now = Ok principal <->
  principal = MkPrincipal (cl_subject c) (cl_roles c) /\ claims_hold (jv_options verifier) now c.
Proof.
  destruct (claims_json_ok c Hc) as [Hok Hnest].
  assert (Hh : json_ok header_json /\ (nesting header_json <= kJsonMaxDepth)%nat) by (split; [|vm_compute; lia]; repeat constructor; done).
  destruct Hh as [Hhok Hhn]. unfold jwt_sign. cbv zeta.
  rewrite verify_segments by (apply undotted; first [by apply print_bytes|apply hmac_bytes]).
  rewrite (token_segment_read header_json), (token_segment_read (claims_json c)), decodes_exactly by (first [done|apply hmac_bytes]).
  cbn [expected_bind]. replace (json_find (text_of "alg") (json_map double_of_int header_json)) with (Some (JString (N := spec_float) (text_of "HS256"))) by done.
  cbn [is_text]. rewrite bool_decide_true by done. cbn [expected_bind].
  rewrite (proj2 (constant_time_equal_spec _ _ (hmac_bytes _ _) (hmac_bytes _ _)) eq_refl). cbn [negb].
  rewrite principal_read. unfold claims_hold. rewrite <- (temporal_holds _ _ _ Hc Hnow Hleeway), <- authority_holds.
  destruct (check_temporal _ _ _ _) as [[]|]; cbn [expected_bind]; [|by split; [|intros (_ & ? & _)]].
  destruct (check_issuer_audience _ _) as [[]|]; cbn [expected_bind]; [|by split; [|intros (_ & _ & ?)]].
  split; [by intros [= <-]|]. by intros [-> _].
Qed.
End Issue.

Definition sample_verifier : JwtVerifier :=
  MkVerifier (bytes_of_string "top-secret") (MkJwtOptions (bytes_of_string "nexus") (bytes_of_string "admin") 30 true).
Definition sample_claims : Claims :=
  MkClaims (bytes_of_string "ana") [bytes_of_string "operator"; bytes_of_string "reader"] (Some (bytes_of_string "nexus"))
    [bytes_of_string "metrics"; bytes_of_string "admin"] (Some 1700000000) None (Some 1699990000).

Lemma jwt_issued_accepted_witness :
  jwt_verify (fun _ => 0) sample_verifier (jwt_sign (jv_secret sample_verifier) sample_claims) 1700000020
  = Ok (MkPrincipal (cl_subject sample_claims) (cl_roles sample_claims)).
Proof.
  assert (Hc : claims_ok sample_claims).
  { unfold claims_ok, small_int. split_and!; cbn; try done; repeat constructor; try (unfold u_range; cbn; lia); vm_compute; done. }
  assert (Hn : small_int 1700000020) by (vm_compute; done).
  assert (Hl : small_int (jo_leeway_seconds (jv_options sample_verifier))) by (vm_compute; done).
  assert (Hh : claims_hold (jv_options sample_verifier) 1700000020 sample_claims).
  { unfold claims_hold. split; [split_and!; cbn; try done; lia|]. split; [by right|]. right. right. left. }
  exact (proj2 (jwt_issued_accepted (fun _ => 0) sample_verifier sample_claims 1700000020 _ Hc Hn Hl) (conj eq_refl Hh)).
Defined.
