(* ===== verification/RestGateway.v ===== *)
(** * The REST gateway

    Models [src/src/ingress/rest_gateway.cpp] over the port of [admin_service.hpp]: the routes of
    [/api/v1], their authentication, and the translation between HTTP and the port.  A text is the
    list of its characters. *)
From Stdlib Require Import ZArith Lia Ascii String Floats.SpecFloat.
From stdpp Require Import base list strings.
From S2P Require Import Prelude Codec Json Http Jwt.
#[local] Open Scope Z_scope.

(** ** The port *)

Record CreateTopicSpec := MkCreateSpec {
  cs_name : list byte;
  cs_partition_count : Z;
  cs_replication_factor : Z;
  cs_segment_bytes : Z;
  cs_retention_ms : Z;
  cs_retention_bytes : Z;
}.

Record TopicSummary := MkTopicSummary {
  ts_name : list byte;
  ts_partition_count : Z;
  ts_replication_factor : Z;
  ts_created_at_ms : Z;
}.

Record PartitionInfo := MkPartitionInfo {
  pi_id : Z;
  pi_leader : Z;
  pi_high_watermark : Z;
  pi_leader_epoch : Z;
}.

Record TopicDescription := MkTopicDescription {
  dn_summary : TopicSummary;
  dn_retention_ms : Z;
  dn_retention_bytes : Z;
  dn_segment_bytes : Z;
  dn_partitions : list PartitionInfo;
}.

Record AlterTopicSpec := MkAlterSpec { al_retention_ms : option Z; al_retention_bytes : option Z }.

Record GroupSummary := MkGroupSummary {
  gy_group_id : list byte;
  gy_state : list byte;
  gy_generation : Z;
  gy_member_count : Z;
}.

Record GroupMemberInfo := MkMemberSummary { ms_member_id : list byte; ms_subscription_bytes : Z }.

Record GroupPartitionOffset := MkPartitionOffset {
  po_topic : list byte;
  po_partition : Z;
  po_committed_offset : Z;
  po_high_watermark : Z;
  po_lag : Z;
}.

Record GroupDescription := MkGroupDescription {
  gn_group_id : list byte;
  gn_state : list byte;
  gn_generation : Z;
  gn_leader_id : list byte;
  gn_members : list GroupMemberInfo;
  gn_offsets : list GroupPartitionOffset;
}.

Record NodeInfo := MkNodeInfo { ni_node_id : Z; ni_is_self : bool }.
Record FollowerProgress := MkFollower { fp_node : Z; fp_match_index : Z; fp_lag : Z }.

Record PartitionRaftInfo := MkRaftInfo {
  ri_topic : list byte;
  ri_partition : Z;
  ri_leader : Z;
  ri_role : list byte;
  ri_term : Z;
  ri_commit_index : Z;
  ri_last_log_index : Z;
  ri_leader_epoch : Z;
  ri_followers : list FollowerProgress;
}.

Record ClusterInfo := MkClusterInfo {
  ci_node_id : Z;
  ci_nodes : list NodeInfo;
  ci_partitions : list PartitionRaftInfo;
}.

(** [AdminService]: three operations change its state. *)
Class AdminService (A : Type) := {
  svc_create_topic : CreateTopicSpec -> A -> expected TopicSummary * A;
  svc_delete_topic : list byte -> A -> expected unit * A;
  svc_alter_topic_config : list byte -> AlterTopicSpec -> A -> expected TopicSummary * A;
  svc_describe_topic : list byte -> A -> expected TopicDescription;
  svc_list_topics : Page -> A -> list TopicSummary;
  svc_list_groups : Page -> A -> list GroupSummary;
  svc_describe_group : list byte -> A -> expected GroupDescription;
  svc_describe_cluster : A -> expected ClusterInfo;
}.

(** ** Responses *)

Definition json_response (status : Z) (body : list byte) : HttpResponse :=
  let response := set_header (text_of "Content-Type") (text_of "application/json") (MkHttpResponse status (http_reason status) [] []) in
  MkHttpResponse (hs_status response) (hs_reason response) (hs_headers response) body.

Definition problem_response (error : Error) (instance : list byte) : HttpResponse :=
  problem_to_response (problem_from_error error instance).

Definition problem_explicit (status : Z) (detail : string) (instance : list byte) : HttpResponse :=
  problem_to_response (MkProblem (text_of "about:blank") (http_reason status) status (text_of detail) instance).

Definition write_topic_summary (w : JsonWriter) (topic : TopicSummary) : JsonWriter :=
  begin_object w |> field_text "name" (ts_name topic) |> field_int "partitionCount" (ts_partition_count topic)
    |> field_int "replicationFactor" (ts_replication_factor topic) |> field_int "createdAtMs" (ts_created_at_ms topic) |> end_object.

Definition paged_json {T} (page : Page) (items : list T) (emit : JsonWriter -> T -> JsonWriter) : list byte :=
  let w := begin_object new_writer |> field_int "page" (to_i 64 (pg_number page)) |> field_int "size" (to_i 64 (pg_size page))
             |> write_key (text_of "items") |> begin_array in
  jw_out (foldl emit w items |> end_array |> end_object).

Definition emit_group (w : JsonWriter) (group : GroupSummary) : JsonWriter :=
  begin_object w |> field_text "groupId" (gy_group_id group) |> field_text "state" (gy_state group)
    |> field_int "generation" (gy_generation group) |> field_int "memberCount" (gy_member_count group) |> end_object.

Definition emit_partition (w : JsonWriter) (partition : PartitionInfo) : JsonWriter :=
  begin_object w |> field_int "id" (pi_id partition) |> field_int "leader" (pi_leader partition)
    |> field_int "highWatermark" (pi_high_watermark partition) |> field_int "leaderEpoch" (pi_leader_epoch partition) |> end_object.

Definition emit_member (w : JsonWriter) (member : GroupMemberInfo) : JsonWriter :=
  begin_object w |> field_text "memberId" (ms_member_id member) |> field_int "subscriptionBytes" (ms_subscription_bytes member) |> end_object.

Definition emit_offset (w : JsonWriter) (offset : GroupPartitionOffset) : JsonWriter :=
  begin_object w |> field_text "topic" (po_topic offset) |> field_int "partition" (po_partition offset)
    |> field_int "committedOffset" (po_committed_offset offset) |> field_int "highWatermark" (po_high_watermark offset)
    |> field_int "lag" (po_lag offset) |> end_object.

Definition emit_node (w : JsonWriter) (node : NodeInfo) : JsonWriter :=
  begin_object w |> field_int "nodeId" (ni_node_id node) |> field_bool "isSelf" (ni_is_self node) |> end_object.

Definition emit_follower (w : JsonWriter) (follower : FollowerProgress) : JsonWriter :=
  begin_object w |> field_int "node" (fp_node follower) |> field_int "matchIndex" (fp_match_index follower)
    |> field_int "lag" (fp_lag follower) |> end_object.

Definition emit_replica (w : JsonWriter) (part : PartitionRaftInfo) : JsonWriter :=
  let w := begin_object w |> field_text "topic" (ri_topic part) |> field_int "partition" (ri_partition part)
             |> field_int "leader" (ri_leader part) |> field_text "role" (ri_role part) |> field_int "term" (ri_term part)
             |> field_int "commitIndex" (ri_commit_index part) |> field_int "lastLogIndex" (ri_last_log_index part)
             |> field_int "leaderEpoch" (ri_leader_epoch part) |> write_key (text_of "followers") |> begin_array in
  foldl emit_follower w (ri_followers part) |> end_array |> end_object.

(** ** The gateway *)

Record GatewayConfig := MkGatewayConfig { gc_api_prefix : list byte; gc_pagination : PaginationLimits }.

Definition default_gateway : GatewayConfig := MkGatewayConfig (text_of "/api/v1") default_pagination.

Definition path_slash : byte := 47.

(** [contains('/')]. *)
Definition has_slash (name : list byte) : bool := existsb (Z.eqb path_slash) name.

Section Gateway.
Context {A : Type} {AS : AdminService A} (unrepresentable : spec_float -> Z).
Context (verifier : option JwtVerifier) (config : GatewayConfig).

(** A field, when it is a number; what it was otherwise. *)
Definition read_optional_int (object : JsonValue) (key : string) (out : Z) : Z :=
  default out (number_claim unrepresentable key object).

Definition bearer : list byte := text_of "Bearer ".

Definition authenticate (req : HttpRequest) (now : Z) : expected Principal :=
  match verifier with
  | None => Ok (MkPrincipal [] [])
  | Some verifier =>
      match request_header (text_of "Authorization") req with
      | None => make_error InvalidArgument "falta la cabecera Authorization"
      | Some value =>
          if negb (starts bearer value) then make_error InvalidArgument "se requiere 'Authorization: Bearer <token>'"
          else jwt_verify unrepresentable verifier (drop (length bearer) value) now
      end
  end.

Definition rest_list_topics (req : HttpRequest) (admin : A) : HttpResponse :=
  match parse_pagination (request_query req) (gc_pagination config) with
  | Err e => problem_response e (request_path req)
  | Ok page => json_response 200 (paged_json page (svc_list_topics page admin) write_topic_summary)
  end.

(** The path of a topic, or of a group. *)
Definition resource_path (kind : string) (name : list byte) : list byte := gc_api_prefix config ++ text_of kind ++ name.

Definition create_spec (json : JsonValue) (name : list byte) : CreateTopicSpec :=
  let spec := MkCreateSpec name 1 1 0 (-1) (-1) in
  MkCreateSpec name
    (to_i 32 (read_optional_int json "partitionCount" (cs_partition_count spec)))
    (to_i 16 (read_optional_int json "replicationFactor" (cs_replication_factor spec)))
    (read_optional_int json "segmentBytes" (cs_segment_bytes spec))
    (read_optional_int json "retentionMs" (cs_retention_ms spec))
    (read_optional_int json "retentionBytes" (cs_retention_bytes spec)).

(** The document of a body that is an object. *)
Definition body_object (req : HttpRequest) : option JsonValue :=
  match parse_json (hr_body req) with Ok json => if json_is_object json then Some json else None | Err _ => None end.

Definition rest_create_topic (req : HttpRequest) (admin : A) : HttpResponse * A :=
  match body_object req with
  | None => (problem_explicit 400 "el cuerpo debe ser un objeto JSON" (request_path req), admin)
  | Some json =>
      match json_find (text_of "name") json with
      | Some (JString name) =>
          match svc_create_topic (create_spec json name) admin with
          | (Err e, admin) => (problem_response e (request_path req), admin)
          | (Ok summary, admin) =>
              (json_response 201 (jw_out (write_topic_summary new_writer summary))
                 |> set_header (text_of "Location") (resource_path "/topics/" (ts_name summary)), admin)
          end
      | _ => (problem_explicit 400 "falta el campo 'name' (cadena)" (request_path req), admin)
      end
  end.

Definition rest_alter_topic (req : HttpRequest) (name : list byte) (admin : A) : HttpResponse * A :=
  match body_object req with
  | None => (problem_explicit 400 "el cuerpo debe ser un objeto JSON" (request_path req), admin)
  | Some json =>
      match json_find (text_of "segmentBytes") json with
      | Some _ =>
          (problem_explicit 400 "'segmentBytes' no es mutable en caliente (create-only): recréa el topic para cambiarlo"
             (request_path req), admin)
      | None =>
          let spec := MkAlterSpec (number_claim unrepresentable "retentionMs" json) (number_claim unrepresentable "retentionBytes" json) in
          match al_retention_ms spec, al_retention_bytes spec with
          | None, None =>
              (problem_explicit 400 "nada que alterar: incluye 'retentionMs' y/o 'retentionBytes'" (request_path req), admin)
          | _, _ =>
              match svc_alter_topic_config name spec admin with
              | (Err e, admin) => (problem_response e (resource_path "/topics/" name), admin)
              | (Ok summary, admin) => (json_response 200 (jw_out (write_topic_summary new_writer summary)), admin)
              end
          end
      end
  end.

Definition rest_describe_topic (req : HttpRequest) (name : list byte) (admin : A) : HttpResponse :=
  match svc_describe_topic name admin with
  | Err e => problem_response e (request_path req)
  | Ok description =>
      let summary := dn_summary description in
      let w := begin_object new_writer |> field_text "name" (ts_name summary) |> field_int "partitionCount" (ts_partition_count summary)
                 |> field_int "replicationFactor" (ts_replication_factor summary) |> field_int "createdAtMs" (ts_created_at_ms summary)
                 |> write_key (text_of "config") |> begin_object |> field_int "retentionMs" (dn_retention_ms description)
                 |> field_int "retentionBytes" (dn_retention_bytes description) |> field_int "segmentBytes" (dn_segment_bytes description)
                 |> end_object |> write_key (text_of "partitions") |> begin_array in
      json_response 200 (jw_out (foldl emit_partition w (dn_partitions description) |> end_array |> end_object))
  end.

Definition rest_delete_topic (name : list byte) (admin : A) : HttpResponse * A :=
  match svc_delete_topic name admin with
  | (Err e, admin) => (problem_response e (resource_path "/topics/" name), admin)
  | (Ok _, admin) => (MkHttpResponse 204 (http_reason 204) [] [], admin)
  end.

Definition route_topics (req : HttpRequest) (resource : list byte) (admin : A) : HttpResponse * A :=
  match drop (length (text_of "/topics")) resource with
  | [] =>
      match hr_method req with
      | Get => (rest_list_topics req admin, admin)
      | Post => rest_create_topic req admin
      | _ => (problem_explicit 405 "método no permitido en /topics" (request_path req), admin)
      end
  | _ :: name =>
      if bool_decide (name = []) || has_slash name then (problem_explicit 404 "recurso no encontrado" (request_path req), admin)
      else
        match hr_method req with
        | Get => (rest_describe_topic req name admin, admin)
        | Patch => rest_alter_topic req name admin
        | Delete => rest_delete_topic name admin
        | _ => (problem_explicit 405 "método no permitido en /topics/{name}" (request_path req), admin)
        end
  end.

Definition rest_describe_group (group_id : list byte) (admin : A) : HttpResponse :=
  match svc_describe_group group_id admin with
  | Err e => problem_response e (resource_path "/groups/" group_id)
  | Ok description =>
      let w := begin_object new_writer |> field_text "groupId" (gn_group_id description) |> field_text "state" (gn_state description)
                 |> field_int "generation" (gn_generation description) |> field_text "leaderId" (gn_leader_id description)
                 |> write_key (text_of "members") |> begin_array in
      let w := foldl emit_member w (gn_members description) |> end_array |> write_key (text_of "offsets") |> begin_array in
      json_response 200 (jw_out (foldl emit_offset w (gn_offsets description) |> end_array |> end_object))
  end.

Definition route_groups (req : HttpRequest) (resource : list byte) (admin : A) : HttpResponse :=
  match drop (length (text_of "/groups")) resource with
  | [] =>
      match hr_method req with
      | Get =>
          match parse_pagination (request_query req) (gc_pagination config) with
          | Err e => problem_response e (request_path req)
          | Ok page => json_response 200 (paged_json page (svc_list_groups page admin) emit_group)
          end
      | _ => problem_explicit 405 "método no permitido en /groups" (request_path req)
      end
  | _ :: group_id =>
      if bool_decide (group_id = []) || has_slash group_id then problem_explicit 404 "recurso no encontrado" (request_path req)
      else
        match hr_method req with
        | Get => rest_describe_group group_id admin
        | _ => problem_explicit 405 "método no permitido en /groups/{id}" (request_path req)
        end
  end.

Definition rest_describe_cluster (req : HttpRequest) (admin : A) : HttpResponse :=
  match hr_method req with
  | Get =>
      match svc_describe_cluster admin with
      | Err e => problem_response e (request_path req)
      | Ok info =>
          let w := begin_object new_writer |> field_int "nodeId" (ci_node_id info) |> write_key (text_of "nodes") |> begin_array in
          let w := foldl emit_node w (ci_nodes info) |> end_array |> write_key (text_of "partitions") |> begin_array in
          json_response 200 (jw_out (foldl emit_replica w (ci_partitions info) |> end_array |> end_object))
      end
  | _ => problem_explicit 405 "método no permitido en /cluster" (request_path req)
  end.

(** [resource == kind || resource.starts_with(kind + "/")]. *)
Definition under (kind : string) (resource : list byte) : bool :=
  bool_decide (resource = text_of kind) || starts (text_of kind ++ [path_slash]) resource.

Definition rest_handle (req : HttpRequest) (now : Z) (admin : A) : HttpResponse * A :=
  let path := request_path req in
  match authenticate req now with
  | Err e => (problem_explicit 401 (message e) path, admin)
  | Ok _ =>
      if negb (starts (gc_api_prefix config) path) then (problem_explicit 404 "recurso no encontrado" path, admin)
      else
        let resource := drop (length (gc_api_prefix config)) path in
        if under "/topics" resource then route_topics req resource admin
        else if under "/groups" resource then (route_groups req resource admin, admin)
        else if bool_decide (resource = text_of "/cluster") then (rest_describe_cluster req admin, admin)
        else (problem_explicit 404 "recurso no encontrado" path, admin)
  end.
End Gateway.
