(* ===== verification/AdminApi.v ===== *)
(** * The administration of the broker

    Models [AdminApi] of [src/src/server/admin_api.cpp], which implements the port of the REST gateway
    on the topic managers of all cores, with the listing of groups, their description and the
    high-watermark of a partition that [server.cpp] gives it.  Its state is the state of the router
    ([Broker] of RequestRouter.v): REST and the wire protocol administer the same cores. *)
From Stdlib Require Import ZArith Lia Ascii String.
From stdpp Require Import base list gmap strings sorting.
From S2P Require Import Prelude Codec Hashes Record RaftState RaftLogSpec RaftNode RaftCarrier ConsumerGroup.
From S2P Require Import GroupCoordinator Topics RequestRouter Http RestGateway.
#[local] Open Scope Z_scope.

(** ** What a replica shows *)

Record RaftPeerObservation := MkPeerObservation { ob_peer : Z; ob_match_index : Z }.

Record RaftObservation := MkObservation {
  ob_topic : string;
  ob_partition : Z;
  ob_role : RaftRole;
  ob_term : Z;
  ob_commit_index : Z;
  ob_last_log_index : Z;
  ob_leader_epoch : Z;
  ob_leader_hint : option Z;
  ob_peers : list RaftPeerObservation;
}.

(** [RaftCarrier::observe], of the replica of a partition. *)
Definition observe {L} `{!RaftLogOps L} (topic : string) (partition : Z) (c : RaftCarrier L) : RaftObservation :=
  let n := rc_node c in
  MkObservation topic partition (role_ n) (current_term n) (commit_index n) (last_index (log_ n)) (leader_epoch_ n) (leader_id_ n)
    ((fun peer => MkPeerObservation peer (match_index (volatile_ n) peer)) <$> peers_ n).

Definition follower_progress (last_log_index : Z) (peer : RaftPeerObservation) : FollowerProgress :=
  let lag := if ob_match_index peer <? last_log_index then last_log_index - ob_match_index peer else 0 in
  MkFollower (ob_peer peer) (ob_match_index peer) lag.

Definition to_raft_info (obs : RaftObservation) : PartitionRaftInfo :=
  MkRaftInfo (text_of (ob_topic obs)) (ob_partition obs) (default (-1) (ob_leader_hint obs)) (text_of (raft_role_name (ob_role obs)))
    (ob_term obs) (ob_commit_index obs) (ob_last_log_index obs) (ob_leader_epoch obs)
    match ob_role obs with Leader => follower_progress (ob_last_log_index obs) <$> ob_peers obs | _ => [] end.

(** ** The adapter *)

Definition to_summary (meta : TopicMetadata) : TopicSummary :=
  MkTopicSummary (text_of (td_name meta)) (td_partition_count meta) (td_replication_factor meta) (td_created_at_ms meta).

(** The slice of a page; what is moved out of the vector is from [offset] to [end]. *)
Definition apply_page {T} (items : list T) (page : Page) : list T :=
  let size := Z.of_nat (length items) in
  let offset := page_offset page in
  if size <=? offset then []
  else
    let end_ := Z.min size (to_u 64 (offset + pg_size page)) in
    take (Z.to_nat (end_ - offset)) (drop (Z.to_nat offset) items).

Definition meta_le (a b : TopicMetadata) : Prop := String.le (td_name a) (td_name b).

#[export] Instance meta_le_dec : RelDecision meta_le.
Proof. intros a b. unfold meta_le. apply _. Defined.

#[export] Instance meta_le_total : Total meta_le.
Proof. intros a b. apply String.le_total. Qed.

#[export] Instance meta_le_trans : Transitive meta_le.
Proof. intros a b c. unfold meta_le. apply String.le_po. Qed.

(** The order of the tuples (topic, partition). *)
Definition replica_le (a b : PartitionRaftInfo) : Prop :=
  let s := string_of_bytes (ri_topic a) in
  let t := string_of_bytes (ri_topic b) in
  String.le s t /\ (s = t -> ri_partition a <= ri_partition b).

#[export] Instance replica_le_dec : RelDecision replica_le.
Proof. intros a b. unfold replica_le. cbv zeta. apply _. Defined.

Definition spec_config (spec : CreateTopicSpec) : TopicConfig :=
  let c := default_topic_config in
  MkTopicConfig (if 0 <? cs_segment_bytes spec then cs_segment_bytes spec else tc_segment_bytes c)
    (cs_retention_ms spec) (cs_retention_bytes spec) (tc_compaction c) (tc_compression c).

Section Admin.
Context {Q : Type} {PB : PartitionBase Q} {L : Type} {LO : RaftLogOps L}.
Context (open_partition : TopicMetadata -> Z -> expected Q) (remove_all : string -> Z -> option string).
Context (hash_order : gmap string (Topic Q) -> list (string * Topic Q)).
(** What the clock of each core reads, the nodes of the cluster, and the carriers of the replicas. *)
Context (now_ms : nat -> Z) (cluster_nodes : list Z) (carrier : string -> Z -> RaftCarrier L).

(** The manager of the core that serves the administration. *)
Definition local_topics (b : Broker Q) : TopicManager Q := default (new_topic_manager 1 0) (br_topics b !! br_self b).

Definition summarised (r : expected TopicMetadata) : expected TopicSummary :=
  match r with Err e => Err e | Ok meta => Ok (to_summary meta) end.

Definition admin_create_topic (spec : CreateTopicSpec) (b : Broker Q) : expected TopicSummary * Broker Q :=
  let name := string_of_bytes (cs_name spec) in
  match validate_topic_name name with
  | Err e => (Err e, b)
  | Ok _ =>
      let '(r, topics) :=
        if br_wired b
        then create_topic_on_cluster open_partition remove_all name (cs_partition_count spec) (spec_config spec) now_ms (br_topics b)
        else on_core (br_self b) (make_error NotFound "")
               (create_topic open_partition name (cs_partition_count spec) (spec_config spec) 1 (now_ms (br_self b))) (br_topics b) in
      (summarised r, br_set_topics topics b)
  end.

Definition admin_delete_topic (name : list byte) (b : Broker Q) : expected unit * Broker Q :=
  delete_topic_cluster remove_all (string_of_bytes name) b.

Definition admin_alter_topic (name : list byte) (spec : AlterTopicSpec) (b : Broker Q) : expected TopicSummary * Broker Q :=
  let name := string_of_bytes name in
  let '(r, topics) :=
    if br_wired b then update_topic_config_on_cluster name (al_retention_ms spec) (al_retention_bytes spec) (br_topics b)
    else on_core (br_self b) (make_error NotFound "")
           (update_config name (al_retention_ms spec) (al_retention_bytes spec)) (br_topics b) in
  (summarised r, br_set_topics topics b).

Definition read_partition_info (name : string) (pid leader : Z) (manager : TopicManager Q) : PartitionInfo :=
  match find_topic name manager ≫= fun t => t_partitions t !! pid with
  | Some q => MkPartitionInfo pid leader (pb_high_watermark q) (pb_leader_epoch q)
  | None => MkPartitionInfo pid leader 0 0
  end.

Definition partition_info (b : Broker Q) (name : string) (pid : Z) : PartitionInfo :=
  read_partition_info name pid (br_node_id b) (default (new_topic_manager 1 0) (br_topics b !! partition_core pid b)).

Definition admin_describe_topic (name : list byte) (b : Broker Q) : expected TopicDescription :=
  match find_topic (string_of_bytes name) (local_topics b) with
  | None => make_error NotFound ("topic inexistente: " +:+ string_of_bytes name)
  | Some t =>
      let meta := t_meta t in
      Ok (MkTopicDescription (to_summary meta) (tc_retention_ms (td_config meta)) (tc_retention_bytes (td_config meta))
            (to_i 64 (tc_segment_bytes (td_config meta)))
            (partition_info b (string_of_bytes name) <$> seqZ 0 (td_partition_count meta)))
  end.

Definition admin_list_topics (page : Page) (b : Broker Q) : list TopicSummary :=
  apply_page (to_summary <$> merge_sort meta_le (list_metadata hash_order (local_topics b))) page.

(** ** Groups *)

Definition group_summary (digest : GroupDigest) : GroupSummary :=
  MkGroupSummary (text_of (gd_group_id digest)) (text_of (group_state_name (gd_state digest))) (gd_generation digest)
    (Z.of_nat (gd_member_count digest)).

(** [Server::list_groups]: the coordinators of all cores, once wired. *)
Definition admin_list_groups (page : Page) (b : Broker Q) : list GroupSummary :=
  let shards := if br_wired b then br_groups b else option_list (br_groups b !! 0%nat) in
  apply_page (group_summary <$> merge_sort digest_le (concat (list_groups <$> shards))) page.

(** The core of a partition among all the reactors, wired or not. *)
Definition reactor_of (partition : Z) (b : Broker Q) : nat := Z.to_nat (owner_of (Z.of_nat (length (br_topics b))) partition).

Definition partition_high_watermark_of (b : Broker Q) (topic : string) (partition : Z) : Z :=
  match br_topics b !! reactor_of partition b ≫= fun manager => find_topic topic manager ≫= fun t => t_partitions t !! partition with
  | Some q => pb_high_watermark q
  | None => 0
  end.

Definition offset_lag (b : Broker Q) (entry : GroupOffsetEntry) : GroupPartitionOffset :=
  let hwm := partition_high_watermark_of b (oe_topic entry) (oe_partition entry) in
  MkPartitionOffset (text_of (oe_topic entry)) (oe_partition entry) (oe_offset entry) hwm
    (if oe_offset entry <? hwm then to_i 64 (hwm - oe_offset entry) else 0).

Definition member_summary (member : MemberInfo) : GroupMemberInfo :=
  MkMemberSummary (text_of (mi_id member)) (Z.of_nat (length (mi_subscription member))).

(** [Server::describe_group], on the core that coordinates the group. *)
Definition admin_describe_group (group_id : list byte) (b : Broker Q) : expected GroupDescription :=
  let id := string_of_bytes group_id in
  let owner := Z.to_nat (fnv1a_64 id mod Z.of_nat (length (br_groups b))) in
  match br_groups b !! owner ≫= fun groups => groups !! id with
  | None => make_error NotFound ("grupo inexistente: " +:+ id)
  | Some group =>
      let offsets := list_for_group id (default ∅ (br_offsets b !! owner)) in
      Ok (MkGroupDescription group_id (text_of (group_state_name (g_state group))) (g_generation group) (text_of (g_leader_id group))
            (member_summary <$> group_members group) (offset_lag b <$> offsets))
  end.

(** ** The cluster *)

Definition observe_carriers (manager : TopicManager Q) : list RaftObservation :=
  (fun r => observe r.1 r.2 (carrier r.1 r.2)) <$> tmg_replicas manager.

(** A partition that is not replicated: this node leads it, and all that is written is committed. *)
Definition to_single_node_info (topic : string) (pid : Z) (part : Q) (node_id : Z) : PartitionRaftInfo :=
  MkRaftInfo (text_of topic) pid node_id (text_of (raft_role_name Leader)) 0 (pb_high_watermark part) (pb_high_watermark part)
    (pb_leader_epoch part) [].

Definition single_node_infos (manager : TopicManager Q) (node_id : Z) (meta : TopicMetadata) : list PartitionRaftInfo :=
  match find_topic (td_name meta) manager with
  | None => []
  | Some t =>
      omap (fun pid =>
        match t_partitions t !! pid with
        | Some part => if pb_is_replicated part then None else Some (to_single_node_info (td_name meta) pid part node_id)
        | None => None
        end) (seqZ 0 (td_partition_count meta))
  end.

Definition observe_partitions (node_id : Z) (manager : TopicManager Q) : list PartitionRaftInfo :=
  (to_raft_info <$> observe_carriers manager) ++ concat (single_node_infos manager node_id <$> list_metadata hash_order manager).

Definition admin_describe_cluster (b : Broker Q) : expected ClusterInfo :=
  let self := br_node_id b in
  let nodes := (fun node => MkNodeInfo node (node =? self)) <$> cluster_nodes in
  let nodes := match nodes with [] => [MkNodeInfo self true] | _ => nodes end in
  let shards := if br_wired b then br_topics b else [local_topics b] in
  Ok (MkClusterInfo self nodes (merge_sort replica_le (concat (observe_partitions self <$> shards)))).

#[export] Instance AdminApi_service : AdminService (Broker Q) := {|
  svc_create_topic := admin_create_topic;
  svc_delete_topic := admin_delete_topic;
  svc_alter_topic_config := admin_alter_topic;
  svc_describe_topic := admin_describe_topic;
  svc_list_topics := admin_list_topics;
  svc_list_groups := admin_list_groups;
  svc_describe_group := admin_describe_group;
  svc_describe_cluster := admin_describe_cluster;
|}.
End Admin.
