(* ===== verification/RestSafety.v ===== *)
(** * What the REST gateway lets through

    Nothing is changed without a signed token, and then by one operation of the port at most; every
    body is a document that parses; the pages of a listing cover it; a topic created through the
    gateway is on every core, or on none. *)
From Stdlib Require Import ZArith Lia Ascii String Floats.SpecFloat.
From stdpp Require Import base list gmap strings sorting.
From S2P Require Import Prelude Codec Decimal Json JsonSafety Http HttpSafety Jwt JwtSafety RestGateway.
From S2P Require Import GroupCoordinator Record Frame RaftState RaftLogSpec RaftNode RaftCarrier Topics TopicsSafety RequestRouter Partition RaftLog RaftLogRecovery RouterSafety AdminApi.
#[local] Open Scope Z_scope.

(** ** Authority *)

Lemma starts_split prefix text : starts prefix text = true -> text = prefix ++ drop (length prefix) text.
Proof.
  revert text. induction prefix as [|p prefix IH]; intros [|c text]; cbn; [done|done|done|].
  rewrite andb_true_iff, Z.eqb_eq. intros [-> H]. f_equal. by apply IH.
Qed.

Section Gateway.
Context {A : Type} {AS : AdminService A} (unrepresentable : spec_float -> Z) (config : GatewayConfig).

(** What a request may do to the service: by its method, one operation at most. *)
Definition one_operation (method : HttpMethod) (admin admin' : A) : Prop :=
  admin' = admin \/
  match method with
  | Post => exists spec, admin' = (svc_create_topic spec admin).2
  | Patch => exists name spec, admin' = (svc_alter_topic_config name spec admin).2
  | Delete => exists name, admin' = (svc_delete_topic name admin).2
  | _ => False
  end.

Lemma route_topics_operation req resource admin :
  one_operation (hr_method req) admin (route_topics unrepresentable config req resource admin).2.
Proof.
  unfold one_operation, route_topics, rest_create_topic, rest_alter_topic, rest_delete_topic.
  destruct (drop _ resource) as [|c name].
  - destruct (hr_method req); try (by left). destruct (body_object req) as [json|]; [|by left].
    destruct (json_find (text_of "name") json) as [[| | |name| |]|]; try (by left). right. exists (create_spec unrepresentable json name).
    destruct (svc_create_topic _ admin) as [[|] ?]; done.
  - destruct (_ || _); [by left|]. destruct (hr_method req); try (by left).
    + right. exists name. destruct (svc_delete_topic name admin) as [[|] ?]; done.
    + destruct (body_object req) as [json|]; [|by left]. destruct (json_find _ json); [by left|]. cbn [al_retention_ms al_retention_bytes].
      set (spec := MkAlterSpec _ _). destruct (number_claim _ "retentionMs" json), (number_claim _ "retentionBytes" json); try (by left).
      all: right; exists name, spec; destruct (svc_alter_topic_config name spec admin) as [[|] ?]; done.
Qed.

(** A request shows a token that the verifier accepts. *)
Definition shows_token (verifier : JwtVerifier) (req : HttpRequest) (now : Z) : Prop :=
  exists token principal, request_header (text_of "Authorization") req = Some (bearer ++ token) /\
    authentic unrepresentable verifier token now principal.

Lemma authenticate_shows verifier req now :
  match authenticate unrepresentable (Some verifier) req now with
  | Ok _ => shows_token verifier req now
  | Err _ => ~ shows_token verifier req now
  end.
Proof.
  unfold authenticate, shows_token. destruct (request_header _ req) as [value|] eqn:Hv.
  2: { by intros (token & principal & ? & _). }
  destruct (starts bearer value) eqn:Hs; cbn [negb].
  - apply starts_split in Hs. destruct (jwt_verify _ _ _ _) as [principal|] eqn:Hj.
    + exists (drop (length bearer) value), principal. split; [by rewrite <- Hs|]. by apply verify_authentic.
    + intros (token & principal & Ht & Ha). assert (value = bearer ++ token) as Hval by congruence.
      rewrite Hval, (drop_app_length bearer) in Hj. apply verify_authentic in Ha. congruence.
  - intros (token & principal & Ht & _). assert (value = bearer ++ token) as -> by congruence. done.
Qed.

(** C20. Without a signed token nothing is done.  A request to a gateway with a verifier is answered 401,
    and the service is as it was, unless it shows a token signed with the secret whose claims hold now;
    with one, the service is as it was or has run the one operation the method stands for. *)
Theorem rest_mutation_signed (verifier : JwtVerifier) (req : HttpRequest) (now : Z) (admin : A) :
  let answer := rest_handle unrepresentable (Some verifier) config req now admin in
  (~ shows_token verifier req now /\ hs_status answer.1 = 401 /\ answer.2 = admin) \/
  (shows_token verifier req now /\ one_operation (hr_method req) admin answer.2).
Proof.
  pose proof (authenticate_shows verifier req now) as Ha. unfold rest_handle. cbv zeta.
  destruct (authenticate _ _ req now) as [principal|e]; [right|by left]. split; [done|].
  destruct (negb _); [by left|]. destruct (under "/topics" _); [apply route_topics_operation|].
  destruct (under "/groups" _); [by left|]. case_bool_decide; by left.
Qed.
End Gateway.

(** ** A topic, from the request to the cores *)

Definition topic_json (t : TopicSummary) : Json Z :=
  JObject [(text_of "name", JString (ts_name t)); (text_of "partitionCount", JNumber (ts_partition_count t));
           (text_of "replicationFactor", JNumber (ts_replication_factor t)); (text_of "createdAtMs", JNumber (ts_created_at_ms t))].

Lemma summary_written w t : write_topic_summary w t = write_json (topic_json t) w.
Proof. done. Qed.

(** What a client sends to create a topic. *)
Definition create_json (name : list byte) (count retention_ms retention_bytes : Z) : Json Z :=
  JObject [(text_of "name", JString name); (text_of "partitionCount", JNumber count);
           (text_of "retentionMs", JNumber retention_ms); (text_of "retentionBytes", JNumber retention_bytes)].

Lemma text_bytes s : Forall (u_range 8) (text_of s).
Proof.
  unfold bytes_of_string. apply Forall_fmap, Forall_true. intros c. unfold u_range. cbn. pose proof (nat_ascii_bounded c). lia.
Qed.

Lemma small_range n : small_int n -> i_range 64 n.
Proof. unfold small_int, i_range. width_simpl. lia. Qed.

Lemma create_json_ok name count ms bytes :
  Forall (u_range 8) name -> small_int count -> small_int ms -> small_int bytes ->
  json_ok (create_json name count ms bytes) /\ (nesting (create_json name count ms bytes) <= kJsonMaxDepth)%nat.
Proof.
  intros Hn Hc Hm Hb. enough (json_ok (create_json name count ms bytes) /\ (nesting (create_json name count ms bytes) <= 2)%nat) as [H1 H2].
  { split; [exact H1|]. etransitivity; [exact H2|unfold kJsonMaxDepth; lia]. }
  apply members_ok.
  repeat (constructor; [split; [apply text_bytes|cbn [json_ok nesting snd]; split; [first [done|by apply small_range]|lia]]|]). constructor.
Qed.

(** The gateway reads from it what the client meant. *)
Lemma create_spec_read unrepresentable name count ms bytes :
  i_range 32 count -> small_int ms -> small_int bytes ->
  create_spec unrepresentable (json_map double_of_int (create_json name count ms bytes)) name = MkCreateSpec name count 1 0 ms bytes.
Proof.
  intros Hc Hm Hb. assert (small_int count) by (unfold small_int, i_range in *; width_simpl; lia).
  unfold create_spec, read_optional_int, number_claim. rewrite !map_find.
  replace (json_find (text_of "partitionCount") (create_json name count ms bytes)) with (Some (JNumber count)) by done.
  replace (json_find (text_of "replicationFactor") (create_json name count ms bytes)) with (@None (Json Z)) by done.
  replace (json_find (text_of "segmentBytes") (create_json name count ms bytes)) with (@None (Json Z)) by done.
  replace (json_find (text_of "retentionMs") (create_json name count ms bytes)) with (Some (JNumber ms)) by done.
  replace (json_find (text_of "retentionBytes") (create_json name count ms bytes)) with (Some (JNumber bytes)) by done.
  cbn [fmap option_fmap option_map json_map default cs_partition_count cs_replication_factor cs_segment_bytes cs_retention_ms cs_retention_bytes].
  cbn [from_option id]. rewrite !as_int64_of_int by done. f_equal. by apply to_i_id.
Qed.

Lemma problem_status code : 400 <= http_status_for code.
Proof. destruct code; cbn; lia. Qed.

Lemma bytes_of_string_of_bytes text : Forall (u_range 8) text -> bytes_of_string (string_of_bytes text) = text.
Proof.
  intros Ht. unfold bytes_of_string, string_of_bytes. rewrite list_ascii_of_string_of_list_ascii, <- list_fmap_compose.
  induction Ht as [|c text Hc _ IH]; [done|]. cbn. f_equal; [|exact IH].
  unfold u_range in Hc. cbn in Hc. unfold compose. rewrite nat_ascii_embedding; lia.
Qed.

Section Create.
Context {Q : Type} {PB : PartitionBase Q} {L : Type} {LO : RaftLogOps L}.
Context (open_partition : TopicMetadata -> Z -> expected Q) (remove_all : string -> Z -> option string).
Context (hash_order : gmap string (Topic Q) -> list (string * Topic Q)).
Context (now_ms : nat -> Z) (cluster_nodes : list Z) (carrier : string -> Z -> RaftCarrier L).
Context (unrepresentable : spec_float -> Z) (verifier : option JwtVerifier).

#[local] Instance service : AdminService (Broker Q) :=
  AdminApi_service open_partition remove_all hash_order now_ms cluster_nodes carrier.

Lemma handle_post_topics req now principal (b : Broker Q) :
  authenticate unrepresentable verifier req now = Ok principal -> hr_method req = Post ->
  request_path req = text_of "/api/v1/topics" ->
  rest_handle unrepresentable verifier default_gateway req now b = rest_create_topic unrepresentable default_gateway req b.
Proof. intros Ha Hm Hp. unfold rest_handle. rewrite Ha, Hp. cbv zeta. change (negb _) with false. cbn -[rest_create_topic]. by rewrite Hm. Qed.

Lemma create_body req (b : Broker Q) name count ms bytes :
  Forall (u_range 8) name -> i_range 32 count -> small_int ms -> small_int bytes ->
  hr_body req = print_json (create_json name count ms bytes) ->
  rest_create_topic unrepresentable default_gateway req b
  = match admin_create_topic open_partition remove_all now_ms (MkCreateSpec name count 1 0 ms bytes) b with
    | (Err e, b) => (problem_response e (request_path req), b)
    | (Ok summary, b) =>
        (set_header (text_of "Location") (resource_path default_gateway "/topics/" (ts_name summary))
           (json_response 201 (jw_out (write_topic_summary new_writer summary))), b)
    end.
Proof.
  intros Hn Hc Hm Hb Hbody. assert (Hs : small_int count) by (unfold small_int, i_range in *; width_simpl; lia).
  destruct (create_json_ok name count ms bytes Hn Hs Hm Hb) as [Hok Hnest].
  unfold rest_create_topic, body_object. rewrite Hbody, json_reads_back by done. cbn [json_is_object json_map create_json].
  change (JObject (map _ _)) with (json_map double_of_int (create_json name count ms bytes)). rewrite map_find.
  replace (json_find (text_of "name") (create_json name count ms bytes)) with (Some (JString (N := Z) name)) by done.
  cbn [fmap option_fmap option_map json_map]. by rewrite create_spec_read.
Qed.

(** How the metadata of the topic asked for reads on a core. *)
Definition asked_topic (name : list byte) (count ms bytes : Z) (core : nat) : TopicMetadata :=
  MkTopicMetadata (string_of_bytes name) count 1 (spec_config (MkCreateSpec name count 1 0 ms bytes)) (now_ms core).

(** What the port does with a topic asked for: it is on every core, or nothing has changed. *)
Lemma admin_create_runs (spec : CreateTopicSpec) (b : Broker Q) :
  br_wired b = true -> br_topics b <> [] -> Forall manager_inv (br_topics b) -> Forall (u_range 8) (cs_name spec) ->
  match admin_create_topic open_partition remove_all now_ms spec b with
  | (Ok summary, b') =>
      summary = MkTopicSummary (cs_name spec) (cs_partition_count spec) 1 (now_ms 0%nat) /\
      forall core tm, br_topics b' !! core = Some tm -> t_meta <$> find_topic (string_of_bytes (cs_name spec)) tm
        = Some (MkTopicMetadata (string_of_bytes (cs_name spec)) (cs_partition_count spec) 1 (spec_config spec) (now_ms core))
  | (Err _, b') => b' = b
  end.
Proof.
  intros Hwired Hcores Hinv Hname. unfold admin_create_topic. destruct (validate_topic_name _) as [[]|e]; [|done]. rewrite Hwired.
  pose proof (create_topic_on_cluster_run open_partition remove_all (string_of_bytes (cs_name spec)) (cs_partition_count spec)
    (spec_config spec) now_ms (br_topics b) Hinv) as Hrun.
  destruct (create_topic_on_cluster _ _ _ _ _ _ _) as [[meta|e] topics]; cbn [summarised].
  - destruct Hrun as (Hmeta & Hl & Hc). rewrite (Hmeta Hcores). split.
    { unfold to_summary. cbn [td_name td_partition_count td_replication_factor td_created_at_ms]. by rewrite bytes_of_string_of_bytes. }
    cbn [br_topics br_set_topics]. intros i tm' Hi.
    destruct (lookup_lt_is_Some_2 (br_topics b) i) as [tm Htm]; [rewrite <- Hl; by apply lookup_lt_Some in Hi|].
    destruct (Hc i tm Htm) as (tm1 & Htm1 & Hif). rewrite (proj2 (Nat.ltb_lt _ _)) in Hif by (by apply lookup_lt_Some in Htm).
    destruct Hif as [m Hm]. assert (tm1 = tm') as -> by congruence.
    apply create_topic_ok in Hm as (_ & _ & _ & -> & t & more & Ho & ->). unfold find_topic. cbn. rewrite lookup_insert_eq. cbn. f_equal.
    apply open_partitions_spec in Ho as [-> _]. done.
  - destruct Hrun as [-> _]. by destruct b.
Qed.

(** A topic asked for through REST is on every core or on none.  A POST of a name, a number of
    partitions and a retention, of a client that may, is answered 201 with the summary of the topic, and
    every core knows the topic with that configuration; or it is answered with a problem, and the
    brokers are as they were. *)
Theorem rest_create_on_every_core (b : Broker Q) (req : HttpRequest) (now : Z) (principal : Principal)
  (name : list byte) (count ms bytes : Z)
  (Hwired : br_wired b = true) (Hcores : br_topics b <> []) (Hinv : Forall manager_inv (br_topics b))
  (Hname : Forall (u_range 8) name) (Hcount : i_range 32 count) (Hms : small_int ms) (Hbytes : small_int bytes)
  (Hnow : i_range 64 (now_ms 0%nat)) (Hauth : authenticate unrepresentable verifier req now = Ok principal)
  (Hmethod : hr_method req = Post) (Hpath : request_path req = text_of "/api/v1/topics")
  (Hbody : hr_body req = print_json (create_json name count ms bytes)) :
  let answer := rest_handle unrepresentable verifier default_gateway req now b in
  (hs_status answer.1 = 201 /\
   parse_json (hs_body answer.1) = Ok (json_map double_of_int (topic_json (MkTopicSummary name count 1 (now_ms 0%nat)))) /\
   forall core tm, br_topics answer.2 !! core = Some tm ->
     t_meta <$> find_topic (string_of_bytes name) tm = Some (asked_topic name count ms bytes core)) \/
  (400 <= hs_status answer.1 /\ answer.2 = b).
Proof.
  cbv zeta. rewrite (handle_post_topics req now principal b), (create_body req b name count ms bytes) by done.
  pose proof (admin_create_runs (MkCreateSpec name count 1 0 ms bytes) b Hwired Hcores Hinv Hname) as Hrun.
  destruct (admin_create_topic _ _ _ _ _) as [[summary|e] b']; [|subst b'; right; split; [apply problem_status|done]].
  destruct Hrun as [-> Hknown]. left. split; [done|]. split; [|exact Hknown].
  cbn [hs_body set_header json_response]. rewrite summary_written, write_json_text. apply json_reads_back; [|vm_compute; lia].
  apply members_ok. repeat (constructor; [split; [apply text_bytes|cbn [json_ok number_ok Z_number nesting snd cs_name cs_partition_count ts_name ts_partition_count ts_replication_factor ts_created_at_ms]; split; [|lia]]|]).
  5: constructor. all: first [done|unfold i_range in *; width_simpl; lia].
Qed.
End Create.

(** ** The pages of a listing *)

Lemma page_slice {T} (items : list T) n size :
  0 <= n -> 1 <= size -> (n + 1) * size < 2 ^ 64 ->
  apply_page items (MkPage (n + 1) size) = take (Z.to_nat size) (drop (Z.to_nat n * Z.to_nat size) items).
Proof.
  intros Hn Hs Hbound. unfold apply_page, page_offset. cbn [pg_number pg_size].
  rewrite (to_u_id 64 ((n + 1 - 1) * size)) by (unfold u_range; nia).
  replace (n + 1 - 1) with n by lia. rewrite (to_u_id 64 (n * size + size)) by (unfold u_range; nia).
  replace (Z.to_nat n * Z.to_nat size)%nat with (Z.to_nat (n * size)) by (rewrite Z2Nat.inj_mul; lia).
  destruct (Z.leb_spec (Z.of_nat (length items)) (n * size)) as [Hle|Hgt].
  - by rewrite drop_ge, take_nil by lia.
  - destruct (Z.min_spec (Z.of_nat (length items)) (n * size + size)) as [[Hm ->]|[Hm ->]].
    + rewrite !take_ge; [done| |]; rewrite length_drop; lia.
    + by replace (n * size + size - n * size) with size by lia.
Qed.

Lemma slices_concat {T} (items : list T) size k :
  concat ((fun n => take size (drop (n * size) items)) <$> seq 0 k) = take (k * size) items.
Proof.
  induction k as [|k IH]; [done|]. rewrite seq_S, fmap_app, concat_app, IH. cbn. rewrite app_nil_r.
  rewrite take_take_drop. f_equal. lia.
Qed.

Lemma pages_concat {T} (items : list T) size (pages : nat) :
  1 <= size -> Z.of_nat pages * size < 2 ^ 64 -> (Z.of_nat (length items) <= Z.of_nat pages * size) ->
  concat ((fun n => apply_page items (MkPage (Z.of_nat n + 1) size)) <$> seq 0 pages) = items.
Proof.
  intros Hs Hb He. transitivity (take (pages * Z.to_nat size) items).
  2: { apply take_ge. apply Nat2Z.inj_le. rewrite Nat2Z.inj_mul, Z2Nat.id by lia. done. }
  rewrite <- slices_concat.
  f_equal. apply list_fmap_ext. intros i n [-> Hi]%lookup_seq. rewrite page_slice by nia. by rewrite Nat2Z.id.
Qed.

Section Listing.
Context {Q : Type} {PB : PartitionBase Q}.
Context (hash_order : gmap string (Topic Q) -> list (string * Topic Q)).

(** The pages of a listing cover it, once.  Whatever order the hash table has, the pages of any size,
    from the first one to one that passes the last topic, are put together the summaries of the topics
    of the broker, each of them once, in the order of their names. *)
Theorem topic_pages_cover (b : Broker Q) (size : Z) (pages : nat)
  (Hhash : forall m, hash_order m ≡ₚ map_to_list m)
  (Hsize : 1 <= size) (Hbound : Z.of_nat pages * size < 2 ^ 64)
  (Henough : Z.of_nat (base.size (tmg_topics (local_topics b))) <= Z.of_nat pages * size) :
  exists metas,
    concat ((fun n => admin_list_topics hash_order (MkPage (Z.of_nat n + 1) size) b) <$> seq 0 pages) = to_summary <$> metas /\
    StronglySorted meta_le metas /\
    metas ≡ₚ (fun p => t_meta p.2) <$> map_to_list (tmg_topics (local_topics b)).
Proof.
  exists (merge_sort meta_le (list_metadata hash_order (local_topics b))).
  assert (Hperm : merge_sort meta_le (list_metadata hash_order (local_topics b)) ≡ₚ (fun p => t_meta p.2) <$> map_to_list (tmg_topics (local_topics b))).
  { rewrite merge_sort_Permutation. unfold list_metadata. by rewrite Hhash. }
  split_and!; [|apply merge_sort_sorted; apply _|done].
  apply pages_concat; [done|done|]. rewrite length_fmap, (Permutation_length Hperm), length_fmap, length_map_to_list. done.
Qed.
End Listing.

(** ** On a concrete broker *)

#[local] Existing Instance mem_base.

Abbreviation SampleBroker := (Broker (BrokerPartition MemPartition)) (only parsing).

(** A carrier that no replica of the sample brokers asks for. *)
Definition idle_carrier : string -> Z -> RaftCarrier (RaftLog MemPartition) := fun _ _ => MkCarrier elected_leader None false 0.

Definition sample_broker : SampleBroker := new_broker true 2 0 1 "h" 9092.

Definition create_request (token : list byte) (name : string) : HttpRequest :=
  MkHttpRequest Post (text_of "POST") (text_of "/api/v1/topics") (text_of "HTTP/1.1")
    [(text_of "authorization", text_of "Bearer " ++ token)] (print_json (create_json (text_of name) 3 86400000 (-1))).

Definition signed_request : HttpRequest := create_request (jwt_sign (jv_secret sample_verifier) sample_claims) "orders".

Lemma rest_create_on_every_core_witness :
  let answer :=
    @rest_handle SampleBroker (AdminApi_service mem_open no_remove_error key_order (fun _ => 1234) [] idle_carrier) (fun _ => 0) (Some sample_verifier)
      default_gateway signed_request 1700000020 sample_broker in
  hs_status answer.1 = 201 /\
  ((hs_status answer.1 = 201 /\
    parse_json (hs_body answer.1) = Ok (json_map double_of_int (topic_json (MkTopicSummary (text_of "orders") 3 1 1234))) /\
    forall core tm, br_topics answer.2 !! core = Some tm ->
      t_meta <$> find_topic (string_of_bytes (text_of "orders")) tm = Some (asked_topic (fun _ => 1234) (text_of "orders") 3 86400000 (-1) core)) \/
   (400 <= hs_status answer.1 /\ answer.2 = sample_broker)).
Proof.
  cbv zeta. split; [vm_compute; reflexivity|].
  assert (Hname : Forall (u_range 8) (text_of "orders")) by apply text_bytes.
  assert (Hcount : i_range 32 3) by by_range.
  assert (Hms : small_int 86400000) by (vm_compute; done).
  assert (Hbytes : small_int (-1)) by (vm_compute; done).
  assert (Hnow : i_range 64 1234) by by_range.
  assert (Hne : br_topics sample_broker <> []) by discriminate.
  assert (Hauth : authenticate (fun _ => 0) (Some sample_verifier) signed_request 1700000020
    = Ok (MkPrincipal (cl_subject sample_claims) (cl_roles sample_claims))) by (vm_compute; reflexivity).
  assert (Hinv : Forall manager_inv (br_topics sample_broker)).
  { destruct (sh_topics _ _ (new_broker_sharded (Q := BrokerPartition MemPartition) 2 0 1 "h" 9092 (Nat.lt_0_succ 1))) as (_ & _ & _ & H & _). exact H. }
  exact (rest_create_on_every_core mem_open no_remove_error key_order (fun _ => 1234) [] idle_carrier (fun _ => 0) (Some sample_verifier)
    sample_broker signed_request 1700000020 _ (text_of "orders") 3 86400000 (-1)
    eq_refl Hne Hinv Hname Hcount Hms Hbytes Hnow Hauth eq_refl eq_refl eq_refl).
Defined.

Definition named_topic (name : string) : Topic (BrokerPartition MemPartition) :=
  MkTopic (MkTopicMetadata name 1 1 default_topic_config 0) ∅.
Definition listed_broker : SampleBroker :=
  br_set_topics [MkTopicManager 1 0 (list_to_map ((fun name => (name, named_topic name)) <$> ["b"; "a"; "c"]%string)) []]
    (new_broker false 1 0 1 "h" 9092).

Lemma topic_pages_cover_witness :
  exists metas,
    concat ((fun n => admin_list_topics map_to_list (MkPage (Z.of_nat n + 1) 2) listed_broker) <$> seq 0 2) = to_summary <$> metas /\
    StronglySorted meta_le metas /\
    metas ≡ₚ (fun p => t_meta p.2) <$> map_to_list (tmg_topics (local_topics listed_broker)).
Proof.
  assert (Hh : forall m : gmap string (Topic (BrokerPartition MemPartition)), map_to_list m ≡ₚ map_to_list m) by done.
  assert (He : Z.of_nat (base.size (tmg_topics (local_topics listed_broker))) <= Z.of_nat 2 * 2) by (vm_compute; discriminate).
  assert (Hs : 1 <= 2) by lia. assert (Hb : Z.of_nat 2 * 2 < 2 ^ 64) by (vm_compute; done).
  exact (topic_pages_cover map_to_list listed_broker 2 2 Hh Hs Hb He).
Defined.

(** The number of a page is taken up to [2 ^ 64 - 1], and the offset of the page wraps: this one is given
    the topics of the first page. *)
Lemma huge_page_is_the_first :
  parse_pagination (text_of "page=9223372036854775809&size=2") default_pagination = Ok (MkPage 9223372036854775809 2) /\
  ts_name <$> admin_list_topics map_to_list (MkPage 9223372036854775809 2) listed_broker = [text_of "a"; text_of "b"].
Proof. vm_compute. done. Qed.

(** What a client asks of replication is not passed on: three replicas are answered with one. *)
Definition replicated_request : HttpRequest :=
  MkHttpRequest Post (text_of "POST") (text_of "/api/v1/topics") (text_of "HTTP/1.1") []
    (print_json (JObject [(text_of "name", JString (text_of "t")); (text_of "replicationFactor", JNumber 3)])).

Lemma replication_factor_is_dropped :
  let answer := @rest_handle SampleBroker (AdminApi_service mem_open no_remove_error key_order (fun _ => 0) [] idle_carrier) (fun _ => 0) None
    default_gateway replicated_request 0 sample_broker in
  hs_body answer.1 = print_json (topic_json (MkTopicSummary (text_of "t") 1 1 0)) /\
  ((fun tm => td_replication_factor ∘ t_meta <$> find_topic "t" tm) <$> br_topics answer.2) = [Some 1; Some 1].
Proof. vm_compute. done. Qed.

(** A number of partitions beyond 32 bits is cut down to them. *)
Definition huge_request : HttpRequest :=
  MkHttpRequest Post (text_of "POST") (text_of "/api/v1/topics") (text_of "HTTP/1.1") []
    (print_json (JObject [(text_of "name", JString (text_of "t")); (text_of "partitionCount", JNumber 4294967298)])).

Lemma partition_count_is_cut :
  hs_body (@rest_handle SampleBroker (AdminApi_service mem_open no_remove_error key_order (fun _ => 0) [] idle_carrier) (fun _ => 0) None
    default_gateway huge_request 0 sample_broker).1 = print_json (topic_json (MkTopicSummary (text_of "t") 2 1 0)).
Proof. vm_compute. done. Qed.
