(* ===== verification/Queues.v ===== *)
(** * The lock-free queues

    First the memory, then the two queues.  The atomics that those of [src/src/reactor/] use are in
    the style of the views of promising semantics: an atomic object is the order of its modifications, every message carries
    the view of its writer when it was released, and a thread knows a view.  A load gives any message
    the thread has not passed; what is not atomic counts its accesses, and a thread races when it
    accesses a cell some access of which it does not know. *)
From Stdlib Require Import ZArith Lia.
From stdpp Require Import base list functions relations.
From S2P Require Import Prelude.
#[local] Open Scope Z_scope.

Section Memory.
Context {Loc Cell : Type} `{!EqDecision Loc, !EqDecision Cell} {T : Type}.

(** The messages of every atomic object, and the accesses of every cell, that a thread knows. *)
Record View := MkView { vw_loc : Loc -> nat; vw_cell : Cell -> nat }.

Definition view_zero : View := MkView (fun _ => O) (fun _ => O).

Definition view_join (a b : View) : View :=
  MkView (fun l => Nat.max (vw_loc a l) (vw_loc b l)) (fun c => Nat.max (vw_cell a c) (vw_cell b c)).

Definition view_le (a b : View) : Prop :=
  (forall l, (vw_loc a l <= vw_loc b l)%nat) /\ forall c, (vw_cell a c <= vw_cell b c)%nat.

(** The view of a thread that has read, or written, the message [i] of an object. *)
Definition see (l : Loc) (i : nat) (v : View) : View := MkView (<[l := Nat.max i (vw_loc v l)]> (vw_loc v)) (vw_cell v).

Definition see_cell (c : Cell) (n : nat) (v : View) : View := MkView (vw_loc v) (<[c := n]> (vw_cell v)).

Record Message := MkMessage { ms_value : Z; ms_view : View }.

Record Memory := MkMemory {
  mm_order : Loc -> list Message;
  mm_content : Cell -> T;
  mm_version : Cell -> nat;
}.

(** [load(memory_order_acquire)] and [load(memory_order_relaxed)]. *)
Inductive load_acquire (l : Loc) (m : Memory) (v : View) : Z -> View -> Prop :=
  | LoadAcquire i msg :
      (vw_loc v l <= i)%nat -> mm_order m l !! i = Some msg ->
      load_acquire l m v (ms_value msg) (see l i (view_join v (ms_view msg))).

Inductive load_relaxed (l : Loc) (m : Memory) (v : View) : Z -> View -> Prop :=
  | LoadRelaxed i msg :
      (vw_loc v l <= i)%nat -> mm_order m l !! i = Some msg -> load_relaxed l m v (ms_value msg) (see l i v).

Definition append_message (l : Loc) (msg : Message) (m : Memory) : Memory :=
  MkMemory (<[l := mm_order m l ++ [msg]]> (mm_order m)) (mm_content m) (mm_version m).

(** [store(memory_order_release)]. *)
Definition store_release (l : Loc) (x : Z) (m : Memory) (v : View) : Memory * View :=
  let v' := see l (length (mm_order m l)) v in (append_message l (MkMessage x v') m, v').

(** [compare_exchange_weak(memory_order_relaxed)]: a success reads the last message, and its message
    goes on the release sequence of that one; a failure, also a spurious one, is a load. *)
Inductive exchange_relaxed (l : Loc) (expected desired : Z) (m : Memory) (v : View) : Memory -> View -> Prop :=
  | Exchange msg :
      last (mm_order m l) = Some msg -> ms_value msg = expected ->
      exchange_relaxed l expected desired m v
        (append_message l (MkMessage desired (see l (length (mm_order m l)) (ms_view msg))) m)
        (see l (length (mm_order m l)) v).

(** An access to a cell, which changes what it holds. *)
Definition access (c : Cell) (content : T) (m : Memory) (v : View) : Memory * View :=
  let n := S (mm_version m c) in
  (MkMemory (mm_order m) (<[c := content]> (mm_content m)) (<[c := n]> (mm_version m)), see_cell c n v).

(** Some access of the cell does not happen before what the thread does next. *)
Definition races (c : Cell) (m : Memory) (v : View) : Prop := vw_cell v c <> mm_version m c.

(** A store to an object of which the thread has not seen the last message. *)
Definition unordered (l : Loc) (m : Memory) (v : View) : Prop := S (vw_loc v l) <> length (mm_order m l).

Lemma view_le_refl v : view_le v v.
Proof. by split. Qed.

Lemma view_join_l a b : view_le a (view_join a b).
Proof. split; intros; cbn; lia. Qed.

Lemma view_join_r a b : view_le b (view_join a b).
Proof. split; intros; cbn; lia. Qed.

Lemma see_cells l i v : vw_cell (see l i v) = vw_cell v.
Proof. done. Qed.

Lemma see_here l i v : vw_loc (see l i v) l = Nat.max i (vw_loc v l).
Proof. cbn. by rewrite fn_lookup_insert. Qed.

Lemma see_there l l' i v : l <> l' -> vw_loc (see l i v) l' = vw_loc v l'.
Proof. intros. cbn. by rewrite fn_lookup_insert_ne. Qed.

Lemma lookup_append l l' msg m i msg' :
  mm_order (append_message l msg m) l' !! i = Some msg' ->
  mm_order m l' !! i = Some msg' \/ l' = l /\ i = length (mm_order m l) /\ msg' = msg.
Proof.
  cbn. destruct (decide (l = l')) as [->|]; [rewrite fn_lookup_insert|by rewrite fn_lookup_insert_ne; [left|]].
  intros [H|[Hge H]]%lookup_app_Some; [by left|]. right. apply list_lookup_singleton_Some in H as [Hi <-]. split_and!; [done|lia|done].
Qed.

Lemma length_append l l' msg m :
  length (mm_order (append_message l msg m) l') = (length (mm_order m l') + if decide (l = l') then 1 else 0)%nat.
Proof. cbn. destruct (decide (l = l')) as [->|]; [rewrite fn_lookup_insert, length_app; done|rewrite fn_lookup_insert_ne by done; lia]. Qed.
End Memory.
Arguments View : clear implicits.
Arguments Message : clear implicits.
Arguments Memory : clear implicits.

(** * The queue between two cores

    Models [SpscQueue] of [src/src/reactor/spsc_queue.hpp] and the inbox of [CrossCoreMailbox]
    ([cross_core.cpp]), as the steps of a producer and of a consumer that run at once over the
    memory above, an atomic operation or an access to a cell of the buffer at a time. *)

(** ** The code of both threads *)

Inductive SpscLoc := HeadPos | TailPos.

#[export] Instance SpscLoc_eq_dec : EqDecision SpscLoc.
Proof. solve_decision. Defined.

(** Where the producer is: in [try_push], or in the loop of [post] before it ([checked]). *)
Inductive ProducerPc (T : Type) :=
  | PIdle
  | PSizeTail (value : T)
  | PSizeHead (value : T) (tail : Z)
  | PTail (value : T) (checked : bool)
  | PHead (value : T) (checked : bool) (tail : Z)
  | PDecide (value : T) (checked : bool) (tail head : Z)
  | PPublish (value : T) (tail : Z).
Arguments PIdle {T}.
Arguments PSizeTail {T}.
Arguments PSizeHead {T}.
Arguments PTail {T}.
Arguments PHead {T}.
Arguments PDecide {T}.
Arguments PPublish {T}.

(** Where the consumer is in [try_pop]. *)
Inductive ConsumerPc (T : Type) :=
  | CIdle
  | CTail (head : Z)
  | CDecide (head tail : Z)
  | CRelease (value : T) (head : Z).
Arguments CIdle {T}.
Arguments CTail {T}.
Arguments CDecide {T}.
Arguments CRelease {T}.

Section Spsc.
Context {T : Type} (capacity : Z).

(** [pos & kMask]. *)
Definition spsc_slot (pos : Z) : Z := Z.land pos (capacity - 1).

(** The queue and its threads, with what has been pushed and popped. *)
Record Spsc := MkSpsc {
  sp_memory : Memory SpscLoc Z T;
  sp_producer : ProducerPc T * View SpscLoc Z;
  sp_consumer : ConsumerPc T * View SpscLoc Z;
  sp_pushed : list T;
  sp_popped : list T;
}.

Definition spsc_new (content : Z -> T) : Spsc :=
  MkSpsc (MkMemory (fun _ => [MkMessage 0 view_zero]) content (fun _ => O)) (PIdle, view_zero) (CIdle, view_zero) [] [].

Definition spsc_full (tail head : Z) : bool := to_u 64 (tail - head) =? capacity.

(** [size_approx() >= capacity()]. *)
Definition spsc_looks_full (tail head : Z) : bool := capacity <=? to_u 64 (tail - head).

Abbreviation Memory' := (Memory SpscLoc Z T) (only parsing).
Abbreviation View' := (View SpscLoc Z) (only parsing).

(** A step of the producer: its next point and view, the memory, and what it has pushed with it. *)
Inductive producer_step (m : Memory') : ProducerPc T -> View' -> Memory' -> ProducerPc T -> View' -> option T -> Prop :=
  | StartPost value v : producer_step m PIdle v m (PSizeTail value) v None
  | StartPush value v : producer_step m PIdle v m (PTail value false) v None
  | LoadSizeTail value v tail v' :
      load_acquire TailPos m v tail v' -> producer_step m (PSizeTail value) v m (PSizeHead value tail) v' None
  | LoadSizeHead value tail v head v' :
      load_acquire HeadPos m v head v' ->
      producer_step m (PSizeHead value tail) v m (if spsc_looks_full tail head then PSizeTail value else PTail value true) v' None
  | LoadTail value checked v tail v' :
      load_relaxed TailPos m v tail v' -> producer_step m (PTail value checked) v m (PHead value checked tail) v' None
  | LoadHead value checked tail v head v' :
      load_acquire HeadPos m v head v' -> producer_step m (PHead value checked tail) v m (PDecide value checked tail head) v' None
  | PushFails value checked tail head v :
      spsc_full tail head = true -> producer_step m (PDecide value checked tail head) v m PIdle v None
  | WriteCell value checked tail head v :
      spsc_full tail head = false ->
      let '(m', v') := access (spsc_slot tail) value m v in
      producer_step m (PDecide value checked tail head) v m' (PPublish value tail) v' None
  | Publish value tail v :
      let '(m', v') := store_release TailPos (to_u 64 (tail + 1)) m v in
      producer_step m (PPublish value tail) v m' PIdle v' (Some value).

(** A step of the consumer; what it moves out of a cell leaves any value there. *)
Inductive consumer_step (m : Memory') : ConsumerPc T -> View' -> Memory' -> ConsumerPc T -> View' -> option T -> Prop :=
  | LoadOwnHead v head v' : load_relaxed HeadPos m v head v' -> consumer_step m CIdle v m (CTail head) v' None
  | LoadPeerTail head v tail v' :
      load_acquire TailPos m v tail v' -> consumer_step m (CTail head) v m (CDecide head tail) v' None
  | PopFails head tail v : head = tail -> consumer_step m (CDecide head tail) v m CIdle v None
  | ReadCell head tail v moved :
      head <> tail ->
      let '(m', v') := access (spsc_slot head) moved m v in
      consumer_step m (CDecide head tail) v m' (CRelease (mm_content m (spsc_slot head)) head) v' None
  | Release value head v :
      let '(m', v') := store_release HeadPos (to_u 64 (head + 1)) m v in
      consumer_step m (CRelease value head) v m' CIdle v' (Some value).

Inductive spsc_step : Spsc -> Spsc -> Prop :=
  | ProducerStep m pc v c pushed popped m' pc' v' done :
      producer_step m pc v m' pc' v' done ->
      spsc_step (MkSpsc m (pc, v) c pushed popped) (MkSpsc m' (pc', v') c (pushed ++ option_list done) popped)
  | ConsumerStep m pc v p pushed popped m' pc' v' done :
      consumer_step m pc v m' pc' v' done ->
      spsc_step (MkSpsc m p (pc, v) pushed popped) (MkSpsc m' p (pc', v') pushed (popped ++ option_list done)).

(** A thread is about to race on a cell, or to store without an order. *)
Definition spsc_racy (s : Spsc) : Prop :=
  match sp_producer s with
  | (PDecide _ _ tail head, v) => spsc_full tail head = false /\ races (spsc_slot tail) (sp_memory s) v
  | (PPublish _ _, v) => unordered TailPos (sp_memory s) v
  | _ => False
  end \/
  match sp_consumer s with
  | (CDecide head tail, v) => head <> tail /\ races (spsc_slot head) (sp_memory s) v
  | (CRelease _ _, v) => unordered HeadPos (sp_memory s) v
  | _ => False
  end.

(** The push that [post] makes finds the queue full: its assertion fails. *)
Definition post_fails (s : Spsc) : Prop :=
  match sp_producer s with (PDecide _ true tail head, _) => spsc_full tail head = true | _ => False end.
End Spsc.
Arguments Spsc : clear implicits.

(** * The queue of many producers and consumers

    Models [MpmcQueue] of [src/src/reactor/mpmc_queue.hpp], the ring of Vyukov, as the steps of any
    number of threads over the memory above.  [try_push] and [try_pop] are one loop: what
    tells them apart is the counter they share out, the sequence they wait for in a cell and the one
    they leave there. *)

Inductive MpmcLoc := EnqueuePos | DequeuePos | Sequence (cell : Z).

#[export] Instance MpmcLoc_eq_dec : EqDecision MpmcLoc.
Proof. solve_decision. Defined.

Inductive MpmcOp (T : Type) := TryPush (value : T) | TryPop.
Arguments TryPush {T}.
Arguments TryPop {T}.

(** Where a thread is: about to load the counter, the sequence of the cell, to compare them, to reserve
    the position, to access the cell or to publish it with what the operation returns. *)
Inductive MpmcPc (T : Type) :=
  | MIdle
  | MLoadPos (op : MpmcOp T)
  | MLoadSequence (op : MpmcOp T) (pos : Z)
  | MCompare (op : MpmcOp T) (pos seq : Z)
  | MReserve (op : MpmcOp T) (pos : Z)
  | MAccess (op : MpmcOp T) (pos : Z)
  | MPublish (op : MpmcOp T) (pos : Z) (result : option T).
Arguments MIdle {T}.
Arguments MLoadPos {T}.
Arguments MLoadSequence {T}.
Arguments MCompare {T}.
Arguments MReserve {T}.
Arguments MAccess {T}.
Arguments MPublish {T}.

(** What a thread does that another may see: it takes its place, gives up or returns. *)
Inductive MpmcEvent (T : Type) :=
  | TakesPlace (thread : nat) (op : MpmcOp T)
  | GivesUp (thread : nat) (op : MpmcOp T)
  | Returns (thread : nat) (op : MpmcOp T) (result : option T).
Arguments TakesPlace {T}.
Arguments GivesUp {T}.
Arguments Returns {T}.

Section Mpmc.
Context {T : Type} (capacity : Z).

Abbreviation Memory' := (Memory MpmcLoc Z T) (only parsing).
Abbreviation View' := (View MpmcLoc Z) (only parsing).

(** [pos & kMask]. *)
Definition mpmc_slot (pos : Z) : Z := Z.land pos (capacity - 1).

Definition op_counter (op : MpmcOp T) : MpmcLoc := match op with TryPush _ => EnqueuePos | TryPop => DequeuePos end.

(** The sequence with which the cell is ready for the position, and the one published. *)
Definition op_awaits (op : MpmcOp T) (pos : Z) : Z := match op with TryPush _ => pos | TryPop => to_u 64 (pos + 1) end.
Definition op_publishes (op : MpmcOp T) (pos : Z) : Z :=
  match op with TryPush _ => to_u 64 (pos + 1) | TryPop => to_u 64 (pos + capacity) end.

(** What the access leaves in the cell, any value when it is moved out of, and what it gives. *)
Definition op_leaves (op : MpmcOp T) (moved : T) : T := match op with TryPush value => value | TryPop => moved end.
Definition op_result (op : MpmcOp T) (held : T) : option T := match op with TryPush _ => None | TryPop => Some held end.

(** [static_cast<std::ptrdiff_t>(seq) - static_cast<std::ptrdiff_t>(pos)], before it overflows. *)
Definition mpmc_diff (seq pos : Z) : Z := to_i 64 seq - to_i 64 pos.

Inductive mpmc_thread_step (t : nat) (m : Memory') :
    MpmcPc T -> View' -> Memory' -> MpmcPc T -> View' -> list (MpmcEvent T) -> Prop :=
  | Begin op v : mpmc_thread_step t m MIdle v m (MLoadPos op) v []
  | LoadPos op v pos v' :
      load_relaxed (op_counter op) m v pos v' -> mpmc_thread_step t m (MLoadPos op) v m (MLoadSequence op pos) v' []
  | LoadSequence op pos v seq v' :
      load_acquire (Sequence (mpmc_slot pos)) m v seq v' ->
      mpmc_thread_step t m (MLoadSequence op pos) v m (MCompare op pos seq) v' []
  | Ready op pos seq v :
      mpmc_diff seq (op_awaits op pos) = 0 -> mpmc_thread_step t m (MCompare op pos seq) v m (MReserve op pos) v []
  | TurnsBack op pos seq v :
      mpmc_diff seq (op_awaits op pos) < 0 -> mpmc_thread_step t m (MCompare op pos seq) v m MIdle v [GivesUp t op]
  | Overtaken op pos seq v :
      0 < mpmc_diff seq (op_awaits op pos) -> mpmc_thread_step t m (MCompare op pos seq) v m (MLoadPos op) v []
  | Reserved op pos v m' v' :
      exchange_relaxed (op_counter op) pos (to_u 64 (pos + 1)) m v m' v' ->
      mpmc_thread_step t m (MReserve op pos) v m' (MAccess op pos) v' [TakesPlace t op]
  | NotReserved op pos v pos' v' :
      load_relaxed (op_counter op) m v pos' v' ->
      mpmc_thread_step t m (MReserve op pos) v m (MLoadSequence op pos') v' []
  | Accesses op pos v moved :
      let '(m', v') := access (mpmc_slot pos) (op_leaves op moved) m v in
      mpmc_thread_step t m (MAccess op pos) v m' (MPublish op pos (op_result op (mm_content m (mpmc_slot pos)))) v' []
  | Publishes op pos result v :
      let '(m', v') := store_release (Sequence (mpmc_slot pos)) (op_publishes op pos) m v in
      mpmc_thread_step t m (MPublish op pos result) v m' MIdle v' [Returns t op result].

(** The queue, its threads, and what they have done. *)
Record Mpmc := MkMpmc {
  mq_memory : Memory';
  mq_threads : nat -> MpmcPc T * View';
  mq_trace : list (MpmcEvent T);
}.

Definition mpmc_new (content : Z -> T) : Mpmc :=
  MkMpmc (MkMemory (fun l => [MkMessage (match l with Sequence i => i | _ => 0 end) view_zero]) content (fun _ => O))
    (fun _ => (MIdle, view_zero)) [].

Inductive mpmc_step : Mpmc -> Mpmc -> Prop :=
  | MpmcStep t m threads trace m' pc' v' events :
      mpmc_thread_step t m (threads t).1 (threads t).2 m' pc' v' events ->
      mpmc_step (MkMpmc m threads trace) (MkMpmc m' (<[t := (pc', v')]> threads) (trace ++ events)).

(** A thread is about to race on a cell, to publish one without an order, or to overflow. *)
Definition mpmc_undefined (s : Mpmc) : Prop :=
  exists t,
    match mq_threads s t with
    | (MAccess _ pos, v) => races (mpmc_slot pos) (mq_memory s) v
    | (MPublish _ pos _, v) => unordered (Sequence (mpmc_slot pos)) (mq_memory s) v
    | (MCompare op pos seq, _) => ~ i_range 64 (mpmc_diff seq (op_awaits op pos))
    | _ => False
    end.

(** The bounded queue that the ring promises: what it holds after a trace, and what it owes to the
    threads that have taken their place and not returned.  A thread may give up at any time. *)
Inductive fifo : list (MpmcEvent T) -> list T -> (nat -> option T) -> Prop :=
  | FifoNew : fifo [] [] (fun _ => None)
  | FifoPush trace queue owed t value :
      fifo trace queue owed -> Z.of_nat (length queue) < capacity ->
      fifo (trace ++ [TakesPlace t (TryPush value)]) (queue ++ [value]) owed
  | FifoPop trace queue owed t value :
      fifo trace (value :: queue) owed -> owed t = None ->
      fifo (trace ++ [TakesPlace t TryPop]) queue (<[t := Some value]> owed)
  | FifoPushed trace queue owed t value :
      fifo trace queue owed -> fifo (trace ++ [Returns t (TryPush value) None]) queue owed
  | FifoPopped trace queue owed t value :
      fifo trace queue owed -> owed t = Some value ->
      fifo (trace ++ [Returns t TryPop (Some value)]) queue (<[t := None]> owed)
  | FifoGivesUp trace queue owed t op :
      fifo trace queue owed -> fifo (trace ++ [GivesUp t op]) queue owed.
End Mpmc.
Arguments Mpmc : clear implicits.
