(* ===== verification/SpscSafety.v ===== *)
(** * The queue between two cores is a queue

    In every run of the producer and the consumer, whatever stale messages their loads give, neither
    races on a cell, what is popped is what was pushed, in order, and a push that [post] makes finds
    room. *)
From Stdlib Require Import ZArith Lia.
From stdpp Require Import base list functions relations.
From S2P Require Import Prelude Queues.
#[local] Open Scope Z_scope.

(** ** Positions on the ring *)

(** A length as a position. *)
Abbreviation zlen xs := (Z.of_nat (length xs)) (only parsing).

Lemma to_u_diff a b : 0 <= a - b < 2 ^ 64 -> to_u 64 (to_u 64 a - to_u 64 b) = a - b.
Proof. intros H. unfold to_u. rewrite <- Zminus_mod. by apply Z.mod_small. Qed.

Lemma to_u_inj a b : 0 <= a - b < 2 ^ 64 -> to_u 64 a = to_u 64 b -> a = b.
Proof. intros H He. pose proof (to_u_diff a b H) as Hd. rewrite He, Z.sub_diag in Hd. change (to_u 64 0) with 0 in Hd. lia. Qed.

Lemma to_u_succ a : to_u 64 (to_u 64 a + 1) = to_u 64 (a + 1).
Proof. unfold to_u. apply Zplus_mod_idemp_l. Qed.

Lemma same_slot n q q' : 0 < n -> q mod n = q' mod n -> Z.abs (q - q') < n -> q = q'.
Proof.
  intros Hn He Ha. assert (Hd : (q - q') mod n = 0) by (rewrite Zminus_mod, He, Z.sub_diag; apply Zmod_0_l).
  apply Z.mod_divide in Hd as [z Hz]; [|lia]. assert (z = 0) by nia. subst z. lia.
Qed.

(** Of two positions with one slot the later is a turn of the ring later at least. *)
Lemma later_turn n q q' : 0 < n -> q mod n = q' mod n -> q < q' -> q / n + 1 <= q' / n.
Proof.
  intros Hn He Hlt. assert (q + n <= q').
  { destruct (Z.lt_ge_cases (q' - q) n); [|lia]. assert (q = q') by (apply (same_slot n); lia). lia. }
  rewrite <- (Z.div_add q 1 n) by lia. apply Z.div_le_mono; lia.
Qed.

Lemma turn_add n q : 0 < n -> (q + n) / n = q / n + 1 /\ (q + n) mod n = q mod n.
Proof. intros Hn. split; [rewrite <- (Z.div_add q 1 n) by lia; f_equal; lia|]. rewrite <- (Z.mod_add q 1 n) by lia. f_equal; lia. Qed.

Section Spsc.
Context {T : Type} (k : Z) (Hk : 1 <= k < 64).
Abbreviation N := (2 ^ k).

Lemma ring_pos : 0 < N.
Proof. apply Z.pow_pos_nonneg; lia. Qed.

Lemma ring_bound : N < 2 ^ 64.
Proof. apply Z.pow_lt_mono_r; lia. Qed.

Lemma slot_mod q : spsc_slot N (to_u 64 q) = q mod N.
Proof.
  unfold spsc_slot. replace (N - 1) with (Z.ones k) by (rewrite Z.ones_equiv; lia). rewrite Z.land_ones by lia. unfold to_u.
  apply Z.mod_mod_divide. exists (2 ^ (64 - k)). rewrite <- Z.pow_add_r by lia. f_equal. lia.
Qed.

(** The accesses to the cells of the first [n] positions that a view knows: the first of each position
    is its push ([b = 1]), the second its pop ([b = 2]). *)
Definition knows (b n : Z) (v : View SpscLoc Z) : Prop :=
  forall q, 0 <= q < n -> 2 * (q / N) + b <= Z.of_nat (vw_cell v (q mod N)).

Lemma knows_le b n n' v v' : knows b n v -> n' <= n -> (forall c, (vw_cell v c <= vw_cell v' c)%nat) -> knows b n' v'.
Proof. intros H Hn Hv q Hq. specialize (H q). specialize (Hv (q mod N)). lia. Qed.

Lemma knows_join b n v v' : knows b n v -> knows b n (view_join v v').
Proof. intros H. eapply knows_le; [done|lia|]. apply view_join_l. Qed.

Lemma knows_see_cell b n c x v :
  knows b n v -> (forall q, 0 <= q < n -> q mod N = c -> 2 * (q / N) + b <= Z.of_nat x) -> knows b n (see_cell c x v).
Proof.
  intros H Hx q Hq. cbn. destruct (decide (c = q mod N)) as [->|Hne]; [rewrite fn_lookup_insert; by apply Hx|].
  rewrite fn_lookup_insert_ne by done. by apply H.
Qed.

(** What the message of the [i]-th push, or of the [j]-th pop, carries. *)
Record tail_message (popped : Z) (i : nat) (msg : Message SpscLoc Z) : Prop := {
  tm_value : ms_value msg = to_u 64 (Z.of_nat i);
  tm_own : vw_loc (ms_view msg) TailPos = i;
  tm_peer : Z.of_nat (vw_loc (ms_view msg) HeadPos) <= popped;
  tm_knows : knows 1 (Z.of_nat i) (ms_view msg);
}.

Record head_message (pushed : Z) (j : nat) (msg : Message SpscLoc Z) : Prop := {
  hm_value : ms_value msg = to_u 64 (Z.of_nat j);
  hm_own : vw_loc (ms_view msg) HeadPos = j;
  hm_peer : Z.of_nat (vw_loc (ms_view msg) TailPos) <= pushed;
  hm_knows : knows 2 (Z.of_nat j) (ms_view msg);
}.

Definition within (m : Memory SpscLoc Z T) (v : View SpscLoc Z) : Prop := forall c, (vw_cell v c <= mm_version m c)%nat.

(** The memory, with the value a producer has written and not published, and whether the consumer has
    taken a value and not released its cell. *)
Record memory_inv (m : Memory SpscLoc Z T) (pushed popped : list T) (next : option T) (taking : bool) : Prop := {
  mi_tails : length (mm_order m TailPos) = S (length pushed);
  mi_heads : length (mm_order m HeadPos) = S (length popped);
  mi_tail i msg : mm_order m TailPos !! i = Some msg -> tail_message (zlen popped) i msg;
  mi_head j msg : mm_order m HeadPos !! j = Some msg -> head_message (zlen pushed) j msg;
  mi_within l i msg : mm_order m l !! i = Some msg -> within m (ms_view msg);
  mi_taken : zlen popped + (if taking then 1 else 0) <= zlen pushed;
  mi_room : zlen pushed + zlen (option_list next) <= zlen popped + N;
  mi_written q : zlen popped + (if taking then 1 else 0) <= q < zlen pushed + zlen (option_list next) ->
    Z.of_nat (mm_version m (q mod N)) = 2 * (q / N) + 1 /\
    (pushed ++ option_list next) !! Z.to_nat q = Some (mm_content m (q mod N));
  mi_free q : zlen pushed + zlen (option_list next) <= q < zlen popped + (if taking then 1 else 0) + N ->
    Z.of_nat (mm_version m (q mod N)) = 2 * (q / N);
  mi_fifo : popped = take (length popped) pushed;
}.

Definition written_by (pc : ProducerPc T) : option T := match pc with PPublish value _ => Some value | _ => None end.
Definition taking_by (pc : ConsumerPc T) : bool := match pc with CRelease _ _ => true | _ => false end.

(** What the producer knows, after [p] pushes and when [c] pops have been released. *)
Record producer_inv (m : Memory SpscLoc Z T) (p c : Z) (pc : ProducerPc T) (v : View SpscLoc Z) : Prop := {
  pi_tail : Z.of_nat (vw_loc v TailPos) = p;
  pi_head : Z.of_nat (vw_loc v HeadPos) <= c;
  pi_room : p <= Z.of_nat (vw_loc v HeadPos) + N;
  pi_within : within m v;
  pi_past i msg : mm_order m TailPos !! i = Some msg -> view_le (ms_view msg) v;
  pi_pushes : knows 1 (p + zlen (option_list (written_by pc))) v;
  pi_pops : knows 2 (Z.of_nat (vw_loc v HeadPos)) v;
  pi_pc :
    match pc with
    | PSizeHead _ tail => tail = to_u 64 p
    | PTail _ checked => checked = true -> p < Z.of_nat (vw_loc v HeadPos) + N
    | PHead _ checked tail => tail = to_u 64 p /\ (checked = true -> p < Z.of_nat (vw_loc v HeadPos) + N)
    | PDecide _ checked tail head =>
        tail = to_u 64 p /\ head = to_u 64 (Z.of_nat (vw_loc v HeadPos)) /\ (checked = true -> p < Z.of_nat (vw_loc v HeadPos) + N)
    | PPublish _ tail => tail = to_u 64 p /\ p < Z.of_nat (vw_loc v HeadPos) + N
    | _ => True
    end;
}.

Record consumer_inv (m : Memory SpscLoc Z T) (pushed : list T) (c : Z) (pc : ConsumerPc T) (v : View SpscLoc Z) : Prop := {
  ci_head : Z.of_nat (vw_loc v HeadPos) = c;
  ci_tail : c <= Z.of_nat (vw_loc v TailPos) <= zlen pushed;
  ci_within : within m v;
  ci_pushes : knows 1 (Z.of_nat (vw_loc v TailPos)) v;
  ci_pops : knows 2 (c + (if taking_by pc then 1 else 0)) v;
  ci_pc :
    match pc with
    | CIdle => True
    | CTail head => head = to_u 64 c
    | CDecide head tail => head = to_u 64 c /\ tail = to_u 64 (Z.of_nat (vw_loc v TailPos))
    | CRelease value head => head = to_u 64 c /\ c < Z.of_nat (vw_loc v TailPos) /\ pushed !! Z.to_nat c = Some value
    end;
}.

Record spsc_inv (s : Spsc T) : Prop := {
  si_memory : memory_inv (sp_memory s) (sp_pushed s) (sp_popped s) (written_by (sp_producer s).1) (taking_by (sp_consumer s).1);
  si_producer : producer_inv (sp_memory s) (zlen (sp_pushed s)) (zlen (sp_popped s)) (sp_producer s).1 (sp_producer s).2;
  si_consumer : consumer_inv (sp_memory s) (sp_pushed s) (zlen (sp_popped s)) (sp_consumer s).1 (sp_consumer s).2;
}.

(** ** Loads *)

Lemma within_join m v v' : within m v -> within m v' -> within m (view_join v v').
Proof. intros H H' c. specialize (H c). specialize (H' c). cbn. lia. Qed.

(** What the producer knows does not shrink by a load of its own counter, which gives the last value. *)
Lemma producer_loads_tail m pushed popped next taking pc v x v' :
  memory_inv m pushed popped next taking -> producer_inv m (zlen pushed) (zlen popped) pc v -> written_by pc = None ->
  load_relaxed TailPos m v x v' \/ load_acquire TailPos m v x v' ->
  x = to_u 64 (zlen pushed) /\ producer_inv m (zlen pushed) (zlen popped) PIdle v' /\ (vw_loc v HeadPos <= vw_loc v' HeadPos)%nat.
Proof.
  intros Hm [Ht Hh Hr Hw Ha Hp Hq _] Hn. rewrite Hn in Hp.
  assert (Hlast : forall i msg, (vw_loc v TailPos <= i)%nat -> mm_order m TailPos !! i = Some msg -> i = vw_loc v TailPos /\ tail_message (zlen popped) i msg).
  { intros i msg Hi Hl. split; [|by eapply mi_tail]. apply lookup_lt_Some in Hl. rewrite (mi_tails _ _ _ _ _ Hm) in Hl. lia. }
  assert (Hinv : forall u, view_le v u -> (forall l, vw_loc u l = vw_loc v l) -> (forall c, vw_cell u c = vw_cell v c) ->
    producer_inv m (zlen pushed) (zlen popped) PIdle u /\ (vw_loc v HeadPos <= vw_loc u HeadPos)%nat).
  { intros u Hu Hl Hc. split; [|by rewrite Hl]. split; rewrite ?Hl; try done.
    - intros c. by rewrite Hc.
    - intros i msg Hi. destruct (Ha i msg Hi), Hu. split; intros; etrans; eauto.
    - intros q Hq'. rewrite Hc. by apply Hp.
    - intros q Hq'. rewrite Hc. by apply Hq. }
  intros [[i msg Hi Hl]|[i msg Hi Hl]]; destruct (Hlast i msg Hi Hl) as [-> [Hv Ho Hpe Hkn]]; rewrite Hv, Ht; (split; [done|]); apply Hinv.
  - split; [|done]. intros []; [by rewrite see_there|rewrite see_here; lia].
  - intros []; [by rewrite see_there|rewrite see_here; lia].
  - done.
  - split; [|intros c; cbn; lia]. intros []; [rewrite see_there by done|rewrite see_here]; cbn; lia.
  - destruct (Ha _ _ Hl) as [Hal _]. intros []; [rewrite see_there by done; cbn; specialize (Hal HeadPos)|rewrite see_here; cbn]; lia.
  - destruct (Ha _ _ Hl) as [_ Hac]. intros c. specialize (Hac c). cbn. lia.
Qed.

(** The acquiring load of the consumer's counter. *)
Lemma producer_loads_head m pushed popped next taking pc v x v' :
  memory_inv m pushed popped next taking -> producer_inv m (zlen pushed) (zlen popped) pc v -> written_by pc = None ->
  load_acquire HeadPos m v x v' ->
  x = to_u 64 (Z.of_nat (vw_loc v' HeadPos)) /\ producer_inv m (zlen pushed) (zlen popped) PIdle v' /\
  (vw_loc v HeadPos <= vw_loc v' HeadPos)%nat.
Proof.
  intros Hm [Ht Hh Hr Hw Ha Hp Hq _] Hn [j msg Hj Hl]. rewrite Hn in Hp. destruct (mi_head _ _ _ _ _ Hm j msg Hl) as [Hv Ho Hpe Hkn].
  pose proof (mi_within _ _ _ _ _ Hm _ _ _ Hl) as Hwm. pose proof (lookup_lt_Some _ _ _ Hl) as Hlen. rewrite (mi_heads _ _ _ _ _ Hm) in Hlen.
  assert (Hhead : vw_loc (see HeadPos j (view_join v (ms_view msg))) HeadPos = j) by (rewrite see_here; cbn; lia).
  rewrite Hv, Hhead. split; [done|]. split; [|done]. split; rewrite ?Hhead.
  - rewrite see_there by done. cbn. lia.
  - lia.
  - lia.
  - by apply within_join.
  - intros i msg' Hi. destruct (Ha i msg' Hi) as [Hal Hac]. split; [|intros c; specialize (Hac c); cbn; lia].
    intros []; [rewrite see_here; specialize (Hal HeadPos)|rewrite see_there by done; specialize (Hal TailPos)]; cbn; lia.
  - by apply knows_join.
  - eapply knows_le; [exact Hkn|lia|]. apply view_join_r.
  - done.
Qed.

(** The loads of the consumer. *)
Lemma consumer_loads_head m pushed popped next taking v x v' :
  memory_inv m pushed popped next taking -> consumer_inv m pushed (zlen popped) CIdle v -> load_relaxed HeadPos m v x v' ->
  x = to_u 64 (zlen popped) /\ consumer_inv m pushed (zlen popped) CIdle v'.
Proof.
  intros Hm [Hh Ht Hw Hp Hq _] [j msg Hj Hl]. pose proof (lookup_lt_Some _ _ _ Hl) as Hlen. rewrite (mi_heads _ _ _ _ _ Hm) in Hlen.
  assert (j = vw_loc v HeadPos) as -> by lia. destruct (mi_head _ _ _ _ _ Hm _ msg Hl) as [Hv _ _ _]. rewrite Hv, Hh. split; [done|].
  split; rewrite ?see_there by done; try done. rewrite see_here. lia.
Qed.

Lemma consumer_loads_tail m pushed popped next taking v x v' :
  memory_inv m pushed popped next taking -> consumer_inv m pushed (zlen popped) CIdle v -> load_acquire TailPos m v x v' ->
  x = to_u 64 (Z.of_nat (vw_loc v' TailPos)) /\ consumer_inv m pushed (zlen popped) CIdle v'.
Proof.
  intros Hm [Hh Ht Hw Hp Hq _] [i msg Hi Hl]. pose proof (lookup_lt_Some _ _ _ Hl) as Hlen. rewrite (mi_tails _ _ _ _ _ Hm) in Hlen.
  destruct (mi_tail _ _ _ _ _ Hm _ msg Hl) as [Hv Ho Hpe Hkn]. pose proof (mi_within _ _ _ _ _ Hm _ _ _ Hl) as Hwm.
  assert (Htail : vw_loc (see TailPos i (view_join v (ms_view msg))) TailPos = i) by (rewrite see_here; cbn; lia).
  rewrite Htail, Hv. split; [done|]. split; rewrite ?Htail.
  - rewrite see_there by done. cbn. lia.
  - lia.
  - by apply within_join.
  - eapply knows_le; [exact Hkn|lia|]. apply view_join_r.
  - by apply knows_join.
  - done.
Qed.

(** ** Accesses and stores *)

(** The producer's cell is free, as far as it knows and in fact. *)
Lemma write_no_race m pushed popped next taking value checked tail head v :
  memory_inv m pushed popped next taking -> producer_inv m (zlen pushed) (zlen popped) (PDecide value checked tail head) v ->
  next = None -> spsc_full N tail head = false ->
  zlen pushed < Z.of_nat (vw_loc v HeadPos) + N /\ ~ races (spsc_slot N tail) m v.
Proof.
  intros Hm [Ht Hh Hr Hw _ _ Hq (-> & -> & _)] -> Hfull. pose proof ring_pos. pose proof ring_bound. unfold spsc_full in Hfull.
  pose proof (mi_taken _ _ _ _ _ Hm) as Htk.
  rewrite to_u_diff in Hfull by (destruct taking; lia). apply Z.eqb_neq in Hfull.
  assert (Hroom : zlen pushed < Z.of_nat (vw_loc v HeadPos) + N) by lia. split; [done|].
  unfold races. rewrite slot_mod. intros Hne. apply Hne. apply Nat.le_antisymm; [apply Hw|]. apply Nat2Z.inj_le.
  rewrite (mi_free _ _ _ _ _ Hm) by (cbn; destruct taking; lia).
  destruct (Z.lt_ge_cases (zlen pushed) N) as [Hlt|Hge]; [rewrite Z.div_small by lia; lia|].
  specialize (Hq (zlen pushed - N) ltac:(lia)). destruct (turn_add N (zlen pushed - N) ltac:(lia)) as [Hd Hmod].
  replace (zlen pushed - N + N) with (zlen pushed) in Hd, Hmod by lia. rewrite <- Hmod in Hq. lia.
Qed.

Lemma read_no_race m pushed popped next head tail v :
  memory_inv m pushed popped next false -> consumer_inv m pushed (zlen popped) (CDecide head tail) v -> head <> tail ->
  zlen popped < Z.of_nat (vw_loc v TailPos) /\ ~ races (spsc_slot N head) m v.
Proof.
  intros Hm [Hh Ht Hw Hp _ (-> & ->)] Hne. assert (Hlt : zlen popped < Z.of_nat (vw_loc v TailPos)).
  { assert (zlen popped <> Z.of_nat (vw_loc v TailPos)) by (intros He; by rewrite He in Hne). lia. }
  split; [done|]. unfold races. rewrite slot_mod. intros Hr. apply Hr. apply Nat.le_antisymm; [apply Hw|]. apply Nat2Z.inj_le.
  destruct (mi_written _ _ _ _ _ Hm (zlen popped)) as [-> _]; [lia|]. apply Hp. lia.
Qed.

Lemma within_access m v0 c x v : within m v0 -> within (access c x m v).1 v0.
Proof.
  intros H c'. specialize (H c'). cbn. destruct (decide (c = c')) as [->|]; [rewrite fn_lookup_insert; lia|by rewrite fn_lookup_insert_ne].
Qed.

Lemma within_own m c x v : within m v -> within (access c x m v).1 (access c x m v).2.
Proof.
  intros H c'. specialize (H c'). cbn. destruct (decide (c = c')) as [->|]; [by rewrite !fn_lookup_insert|by rewrite !fn_lookup_insert_ne].
Qed.

Lemma producer_at m p c v pc :
  producer_inv m p c PIdle v -> written_by pc = None ->
  match pc with
  | PSizeHead _ tail => tail = to_u 64 p
  | PTail _ checked => checked = true -> p < Z.of_nat (vw_loc v HeadPos) + N
  | PHead _ checked tail => tail = to_u 64 p /\ (checked = true -> p < Z.of_nat (vw_loc v HeadPos) + N)
  | PDecide _ checked tail head =>
      tail = to_u 64 p /\ head = to_u 64 (Z.of_nat (vw_loc v HeadPos)) /\ (checked = true -> p < Z.of_nat (vw_loc v HeadPos) + N)
  | PPublish _ tail => False
  | _ => True
  end -> producer_inv m p c pc v.
Proof. intros [Ht Hh Hr Hw Ha Hp Hq _] Hn Hpc. split; try done; [by rewrite Hn|]. by destruct pc. Qed.

Lemma producer_forgets m p c pc v : producer_inv m p c pc v -> written_by pc = None -> producer_inv m p c PIdle v.
Proof. intros [Ht Hh Hr Hw Ha Hp Hq _] Hn. rewrite Hn in Hp. by split. Qed.

Lemma consumer_frame m m' pushed pushed' c pc v :
  consumer_inv m pushed c pc v -> (forall v, within m v -> within m' v) -> pushed `prefix_of` pushed' -> consumer_inv m' pushed' c pc v.
Proof.
  intros [Hh Ht Hw Hp Hq Hpc] Hwm Hpre. pose proof (prefix_length _ _ Hpre). split; [done|lia|by apply Hwm|done|done|].
  destruct pc; try done. destruct Hpc as (? & ? & Hl). split_and!; [done|done|]. by eapply prefix_lookup_Some.
Qed.

Lemma producer_frame m m' p c c' pc v :
  producer_inv m p c pc v -> (forall v, within m v -> within m' v) -> mm_order m' TailPos = mm_order m TailPos -> c <= c' ->
  producer_inv m' p c' pc v.
Proof. intros [Ht Hh Hr Hw Ha Hp Hq Hpc] Hwm Ho Hc. split; try done; [lia|by apply Hwm|]. intros i msg. rewrite Ho. apply Ha. Qed.

(** The producer writes the cell of its position. *)
Lemma write_inv m pushed popped taking value checked tail head v :
  memory_inv m pushed popped None taking -> producer_inv m (zlen pushed) (zlen popped) (PDecide value checked tail head) v ->
  spsc_full N tail head = false ->
  let '(m', v') := access (spsc_slot N tail) value m v in
  memory_inv m' pushed popped (Some value) taking /\ producer_inv m' (zlen pushed) (zlen popped) (PPublish value tail) v'.
Proof.
  intros Hm Hpr Hfull. destruct (write_no_race _ _ _ _ _ _ _ _ _ _ Hm Hpr eq_refl Hfull) as [Hroom Hrace].
  pose proof Hpr as [Ht Hh Hr Hw Ha Hp Hq (-> & Hhead & _)]. pose proof ring_pos. pose proof (mi_taken _ _ _ _ _ Hm) as Htk.
  destruct (access _ value m v) as [m' v'] eqn:Hacc. unfold access in Hacc. rewrite slot_mod in *. injection Hacc as <- <-.
  assert (Hver : Z.of_nat (mm_version m (zlen pushed mod N)) = 2 * (zlen pushed / N)).
  { apply (mi_free _ _ _ _ _ Hm). cbn. destruct taking; lia. }
  split.
  - destruct Hm. split; cbn [mm_order]; try done.
    + intros l i msg Hi. apply (within_access m _ _ value v), (mi_within0 l i msg Hi).
    + cbn in *. lia.
    + intros q Hq'. cbn in Hq'. cbn [mm_version mm_content]. destruct (decide (q = zlen pushed)) as [->|Hne].
      * rewrite !fn_lookup_insert, Nat2Z.id, lookup_app_r, Nat.sub_diag by done. split; [lia|done].
      * rewrite !fn_lookup_insert_ne by (intros He; apply Hne; symmetry; apply (same_slot N); [lia|done|destruct taking; lia]).
        destruct (mi_written0 q) as [? Hl]; [cbn; lia|]. split; [done|]. rewrite app_nil_r in Hl. by apply lookup_app_l_Some.
    + intros q Hq'. cbn in Hq'. cbn [mm_version].
      rewrite fn_lookup_insert_ne by (intros He; enough (zlen pushed = q) by lia; apply (same_slot N); [lia|done|destruct taking; lia]).
      apply mi_free0. cbn. lia.
  - split; cbn [vw_loc see_cell written_by option_list]; try done.
    + by apply (within_own m (zlen pushed mod N) value v).
    + intros i msg Hi. destruct (Ha i msg Hi) as [Hl Hc]. split; [done|]. intros c. specialize (Hc c). cbn.
      destruct (decide (zlen pushed mod N = c)) as [->|]; [rewrite fn_lookup_insert; specialize (Hw c); lia|by rewrite fn_lookup_insert_ne].
    + intros q Hq'. cbn in Hq'. cbn. destruct (decide (zlen pushed mod N = q mod N)) as [He|Hne].
      * rewrite He, fn_lookup_insert, <- He. assert (q / N <= zlen pushed / N) by (apply Z.div_le_mono; lia). lia.
      * rewrite fn_lookup_insert_ne by done. apply Hp. cbn. assert (q <> zlen pushed) by congruence. lia.
    + apply knows_see_cell; [done|]. intros q Hq' He. assert (q < zlen pushed) by (destruct taking; lia).
      pose proof (later_turn N q (zlen pushed) ltac:(lia) He ltac:(lia)). lia.
Qed.

(** The push is published. *)
Lemma publish_inv m pushed popped taking value tail v :
  memory_inv m pushed popped (Some value) taking -> producer_inv m (zlen pushed) (zlen popped) (PPublish value tail) v ->
  ~ unordered TailPos m v /\
  let '(m', v') := store_release TailPos (to_u 64 (tail + 1)) m v in
  memory_inv m' (pushed ++ [value]) popped None taking /\ producer_inv m' (zlen (pushed ++ [value])) (zlen popped) PIdle v'.
Proof.
  intros Hm [Ht Hh Hr Hw Ha Hp Hq (-> & Hroom)]. pose proof (mi_tails _ _ _ _ _ Hm) as Hlen.
  split; [unfold unordered; rewrite Hlen; lia|]. unfold store_release. rewrite to_u_succ, Hlen. cbn [written_by option_list] in *.
  assert (Hloc : forall l, Z.of_nat (vw_loc (see TailPos (S (length pushed)) v) l) = match l with TailPos => zlen pushed + 1 | HeadPos => Z.of_nat (vw_loc v HeadPos) end).
  { intros []; [by rewrite see_there|rewrite see_here; lia]. }
  split.
  - destruct Hm. split; rewrite ?length_append, ?length_app; cbn [length].
    + rewrite decide_True by done. lia.
    + rewrite decide_False by done. lia.
    + intros i msg [Hi|(_ & -> & ->)]%lookup_append; [by apply mi_tail0|]. rewrite mi_tails0. split; cbn [ms_value ms_view].
      * f_equal. lia. * rewrite see_here. lia. * rewrite Hloc. done. * eapply knows_le; [exact Hp|cbn; lia|done].
    + intros j msg [Hj|(? & _)]%lookup_append; [|done]. destruct (mi_head0 j msg Hj). split; try done. lia.
    + intros l i msg [Hi|(-> & -> & ->)]%lookup_append; [by eapply mi_within0|done].
    + lia.
    + cbn. cbn in mi_room0. lia.
    + intros q Hq'. cbn in Hq'. cbn [option_list]. rewrite app_nil_r. apply mi_written0. cbn. lia.
    + intros q Hq'. cbn in Hq'. apply mi_free0. cbn. lia.
    + rewrite mi_fifo0 at 1. rewrite take_app_le by (destruct taking; lia). done.
  - split; rewrite ?length_app, ?Hloc; cbn [length written_by option_list]; try done; try lia.
    + intros i msg [Hi|(_ & -> & ->)]%lookup_append; [|done]. destruct (Ha i msg Hi) as [Hl Hc]. split; [|done].
      intros l. specialize (Hl l). apply Nat2Z.inj_le. rewrite Hloc. destruct l; lia.
    + eapply knows_le; [exact Hp|cbn; lia|done].
Qed.

(** The consumer takes the value of its position. *)
Lemma read_inv m pushed popped next moved head tail v :
  memory_inv m pushed popped next false -> consumer_inv m pushed (zlen popped) (CDecide head tail) v -> head <> tail ->
  let '(m', v') := access (spsc_slot N head) moved m v in
  memory_inv m' pushed popped next true /\
  consumer_inv m' pushed (zlen popped) (CRelease (mm_content m (spsc_slot N head)) head) v'.
Proof.
  intros Hm Hcn Hne. destruct (read_no_race _ _ _ _ _ _ _ Hm Hcn Hne) as [Hlt Hrace].
  pose proof Hcn as [Hh Ht Hw Hp Hq (-> & ->)]. pose proof ring_pos. pose proof (mi_room _ _ _ _ _ Hm) as Hrm.
  destruct (access _ moved m v) as [m' v'] eqn:Hacc. unfold access in Hacc. rewrite slot_mod in *. injection Hacc as <- <-.
  destruct (mi_written _ _ _ _ _ Hm (zlen popped)) as [Hver Hval]; [lia|]. rewrite Nat2Z.id in Hval.
  rewrite lookup_app_l in Hval by lia.
  split.
  - destruct Hm. split; cbn [mm_order]; try done.
    + intros l i msg Hi. apply (within_access m _ _ moved v), (mi_within0 l i msg Hi).
    + lia.
    + intros q Hq'. cbn [mm_version mm_content].
      rewrite !fn_lookup_insert_ne by (intros He; enough (zlen popped = q) by lia; apply (same_slot N); [lia|done|lia]).
      apply mi_written0. lia.
    + intros q Hq'. cbn [mm_version]. destruct (decide (q = zlen popped + N)) as [->|Hne'].
      * destruct (turn_add N (zlen popped) ltac:(lia)) as [-> ->]. rewrite fn_lookup_insert. lia.
      * rewrite fn_lookup_insert_ne by (intros He; enough (zlen popped = q) by lia; apply (same_slot N); [lia|done|lia]).
        apply mi_free0. lia.
  - split; cbn [vw_loc see_cell taking_by]; try done.
    + by apply (within_own m (zlen popped mod N) moved v).
    + apply knows_see_cell; [done|]. intros q Hq' He. destruct (Z.le_gt_cases q (zlen popped)).
      * assert (q / N <= zlen popped / N) by (apply Z.div_le_mono; lia). lia.
      * assert (zlen popped = q); [|lia]. apply (same_slot N); [lia|done|lia].
    + intros q Hq'. cbn. destruct (decide (zlen popped mod N = q mod N)) as [He|Hne'].
      * rewrite He, fn_lookup_insert, <- He. assert (q / N <= zlen popped / N) by (apply Z.div_le_mono; lia). lia.
      * rewrite fn_lookup_insert_ne by done. apply Hq. cbn. assert (q <> zlen popped) by congruence. lia.
    + rewrite Nat2Z.id. by split_and!.
Qed.

(** The cell is released. *)
Lemma release_inv m pushed popped next value head v :
  memory_inv m pushed popped next true -> consumer_inv m pushed (zlen popped) (CRelease value head) v ->
  ~ unordered HeadPos m v /\
  let '(m', v') := store_release HeadPos (to_u 64 (head + 1)) m v in
  memory_inv m' pushed (popped ++ [value]) next false /\ consumer_inv m' pushed (zlen (popped ++ [value])) CIdle v'.
Proof.
  intros Hm [Hh Ht Hw Hp Hq (-> & Hlt & Hval)]. pose proof (mi_heads _ _ _ _ _ Hm) as Hlen. rewrite Nat2Z.id in Hval.
  split; [unfold unordered; rewrite Hlen; lia|]. unfold store_release. rewrite to_u_succ, Hlen. cbn [taking_by] in *.
  assert (Hloc : forall l, Z.of_nat (vw_loc (see HeadPos (S (length popped)) v) l) = match l with HeadPos => zlen popped + 1 | TailPos => Z.of_nat (vw_loc v TailPos) end).
  { intros []; [rewrite see_here; lia|by rewrite see_there]. }
  split.
  - destruct Hm. split; rewrite ?length_append, ?length_app; cbn [length].
    + rewrite decide_False by done. lia.
    + rewrite decide_True by done. lia.
    + intros i msg [Hi|(? & _)]%lookup_append; [|done]. destruct (mi_tail0 i msg Hi). split; try done. lia.
    + intros j msg [Hj|(_ & -> & ->)]%lookup_append; [by apply mi_head0|]. rewrite mi_heads0. split; cbn [ms_value ms_view].
      * f_equal. lia. * rewrite see_here. lia. * rewrite Hloc. lia. * eapply knows_le; [exact Hq|lia|done].
    + intros l i msg [Hi|(-> & -> & ->)]%lookup_append; [by eapply mi_within0|done].
    + lia.
    + lia.
    + intros q Hq'. apply mi_written0. lia.
    + intros q Hq'. apply mi_free0. lia.
    + rewrite Nat.add_1_r, (take_S_r _ _ value) by done. by rewrite <- mi_fifo0.
  - split; rewrite ?length_app, ?Hloc; cbn [length taking_by]; try done; try lia.
    eapply knows_le; [exact Hq|lia|done].
Qed.

(** ** Every step keeps the invariant *)

Lemma looks_full_room p h : 0 <= p - h < 2 ^ 64 -> spsc_looks_full N (to_u 64 p) (to_u 64 h) = false -> p < h + N.
Proof. intros H. unfold spsc_looks_full. rewrite to_u_diff by done. intros Hl%Z.leb_gt. lia. Qed.

Lemma in_flight_bound m pushed popped next taking pc v :
  memory_inv m pushed popped next taking -> producer_inv m (zlen pushed) (zlen popped) pc v ->
  0 <= zlen pushed - Z.of_nat (vw_loc v HeadPos) < 2 ^ 64.
Proof. intros Hm Hp. pose proof ring_bound. pose proof (mi_taken _ _ _ _ _ Hm). destruct Hp, taking; lia. Qed.

Lemma producer_preserves m pushed popped cpc cv pc v m' pc' v' done' :
  spsc_inv (MkSpsc m (pc, v) (cpc, cv) pushed popped) -> producer_step N m pc v m' pc' v' done' ->
  spsc_inv (MkSpsc m' (pc', v') (cpc, cv) (pushed ++ option_list done') popped).
Proof.
  intros [Hm Hp Hc] Hs. cbn in Hm, Hp, Hc.
  assert (Hquiet : forall pc1 v1, written_by pc = None -> written_by pc1 = None ->
    producer_inv m (zlen pushed) (zlen popped) pc1 v1 ->
    spsc_inv (MkSpsc m (pc1, v1) (cpc, cv) (pushed ++ []) popped)).
  { intros pc1 v1 Hn Hn1 Hp1. rewrite app_nil_r. split; cbn; [by rewrite Hn1, <- Hn|done|done]. }
  pose proof (in_flight_bound _ _ _ _ _ _ _ Hm Hp) as Hfl.
  destruct Hs as [value v|value v|value v tail v' Hl|value tail v head v' Hl|value ch v tail v' Hl|value ch tail v head v' Hl
    |value ch tail head v Hf|value ch tail head v Hf|value tail v]; cbn [option_list].
  - by apply Hquiet, producer_at.
  - by apply Hquiet, producer_at.
  - destruct (producer_loads_tail _ _ _ _ _ _ _ _ _ Hm Hp eq_refl (or_intror Hl)) as (-> & Hp' & _). by apply Hquiet, producer_at.
  - destruct (producer_loads_head _ _ _ _ _ _ _ _ _ Hm Hp eq_refl Hl) as (-> & Hp' & _). pose proof (pi_pc _ _ _ _ _ Hp) as ->.
    pose proof (in_flight_bound _ _ _ _ _ _ _ Hm Hp') as Hfl'.
    destruct (spsc_looks_full _ _ _) eqn:Hlf; (apply Hquiet; [done|done|]); apply producer_at; try done.
    intros _. by apply looks_full_room.
  - destruct (producer_loads_tail _ _ _ _ _ _ _ _ _ Hm Hp eq_refl (or_introl Hl)) as (-> & Hp' & Hmono). apply Hquiet; [done|done|].
    apply producer_at; [done|done|]. split; [done|]. intros Hch. pose proof (pi_pc _ _ _ _ _ Hp Hch). lia.
  - destruct (producer_loads_head _ _ _ _ _ _ _ _ _ Hm Hp eq_refl Hl) as (-> & Hp' & Hmono). apply Hquiet; [done|done|].
    destruct (pi_pc _ _ _ _ _ Hp) as [-> Hch]. apply producer_at; [done|done|]. split_and!; [done|done|]. intros Hc'. specialize (Hch Hc'). lia.
  - apply Hquiet; [done|done|]. by eapply producer_forgets.
  - pose proof (write_inv _ _ _ _ _ _ _ _ _ Hm Hp Hf) as Hw. pose proof (fun v0 => within_access m v0 (spsc_slot N tail) value v) as Hwa.
    unfold access in Hw, Hwa |- *. destruct Hw as [Hm' Hp']. rewrite app_nil_r. split; [exact Hm'|exact Hp'|].
    eapply consumer_frame; [exact Hc|exact Hwa|done].
  - pose proof (publish_inv _ _ _ _ _ _ _ Hm Hp) as [_ Hw]. unfold store_release in Hw |- *. destruct Hw as [Hm' Hp'].
    split; [exact Hm'|exact Hp'|]. eapply consumer_frame; [exact Hc|done|by apply prefix_app_r].
Qed.

Lemma consumer_preserves m pushed popped ppc pv pc v m' pc' v' done' :
  spsc_inv (MkSpsc m (ppc, pv) (pc, v) pushed popped) -> consumer_step N m pc v m' pc' v' done' ->
  spsc_inv (MkSpsc m' (ppc, pv) (pc', v') pushed (popped ++ option_list done')).
Proof.
  intros [Hm Hp Hc] Hs. cbn in Hm, Hp, Hc. destruct Hs as [v head v' Hl|head v tail v' Hl|head tail v He|head tail v moved Hne|value head v]; cbn [option_list].
  - destruct (consumer_loads_head _ _ _ _ _ _ _ _ Hm Hc Hl) as [-> [? ? ? ? ? _]]. rewrite app_nil_r. by split.
  - assert (consumer_inv m pushed (zlen popped) CIdle v) as Hi by (destruct Hc; by split).
    destruct (consumer_loads_tail _ _ _ _ _ _ _ _ Hm Hi Hl) as [-> [? ? ? ? ? _]]. pose proof (ci_pc _ _ _ _ _ Hc) as ->.
    rewrite app_nil_r. by split.
  - rewrite app_nil_r. destruct Hc. by split.
  - pose proof (read_inv _ _ _ _ moved _ _ _ Hm Hc Hne) as Hr. pose proof (fun v0 => within_access m v0 (spsc_slot N head) moved v) as Hwa.
    unfold access in Hr, Hwa |- *. destruct Hr as [Hm' Hc']. rewrite app_nil_r. split; [exact Hm'| |exact Hc'].
    eapply producer_frame; [exact Hp|exact Hwa|done|done].
  - pose proof (release_inv _ _ _ _ _ _ _ Hm Hc) as [_ Hr]. unfold store_release in Hr |- *. destruct Hr as [Hm' Hc'].
    split; [exact Hm'| |exact Hc']. cbn [sp_popped sp_producer sp_memory sp_pushed fst snd].
    eapply producer_frame; [exact Hp|done|cbn; by rewrite fn_lookup_insert_ne|rewrite length_app; lia].
Qed.

Lemma new_inv content : spsc_inv (spsc_new content).
Proof.
  pose proof ring_pos. assert (Hk0 : forall b v, knows b 0 v) by (intros b v q ?; lia).
  split; [split|split|split]; cbn; try done; try lia.
  - intros i msg Hi. apply list_lookup_singleton_Some in Hi as [-> <-]. split; [reflexivity|reflexivity|cbn; lia|apply Hk0].
  - intros i msg Hi. apply list_lookup_singleton_Some in Hi as [-> <-]. split; [reflexivity|reflexivity|cbn; lia|apply Hk0].
  - intros l i msg Hi. apply list_lookup_singleton_Some in Hi as [-> <-]. by intros c.
  - intros q Hq. rewrite Z.div_small by lia. done.
  - by intros c.
  - intros i msg Hi. apply list_lookup_singleton_Some in Hi as [-> <-]. apply view_le_refl.
  - by intros c.
Qed.

Lemma reachable_inv content s : rtc (spsc_step N) (spsc_new content) s -> spsc_inv s.
Proof.
  revert s. apply (rtc_ind_r spsc_inv); [apply new_inv|]. intros s s' _ Hstep IH.
  destruct Hstep as [m pc v [cpc cv] ps po m' pc' v' d Hs|m pc v [ppc pv] ps po m' pc' v' d Hs].
  - by eapply producer_preserves.
  - by eapply consumer_preserves.
Qed.

Lemma inv_no_race s : spsc_inv s -> ~ spsc_racy N s.
Proof.
  destruct s as [m [pc v] [cpc cv] ps po]. intros [Hm Hp Hc]. cbn in Hm, Hp, Hc. intros [Hr|Hr]; cbn in Hr.
  - destruct pc; try done.
    + destruct Hr as [Hf Hr]. by destruct (write_no_race _ _ _ _ _ _ _ _ _ _ Hm Hp eq_refl Hf).
    + by destruct (publish_inv _ _ _ _ _ _ _ Hm Hp).
  - destruct cpc; try done.
    + destruct Hr as [Hf Hr]. by destruct (read_no_race _ _ _ _ _ _ _ Hm Hc Hf).
    + by destruct (release_inv _ _ _ _ _ _ _ Hm Hc).
Qed.

(** The assertion of [post]: only the consumer has moved since its check. *)
Lemma inv_post s : spsc_inv s -> ~ post_fails N s.
Proof.
  destruct s as [m [pc v] [cpc cv] ps po]. intros [Hm Hp Hc]. cbn in Hm, Hp, Hc. unfold post_fails. cbn.
  destruct pc as [| | | | |? [] tail head|]; try (intros Hf; by destruct Hf).
  destruct (pi_pc _ _ _ _ _ Hp) as (-> & -> & Hroom). specialize (Hroom eq_refl). pose proof (in_flight_bound _ _ _ _ _ _ _ Hm Hp).
  unfold spsc_full. rewrite to_u_diff by done. intros ?%Z.eqb_eq. lia.
Qed.

(** A load of the last message can always be made. *)
Lemma last_message l (m : Memory SpscLoc Z T) (v : View SpscLoc Z) :
  (vw_loc v l < length (mm_order m l))%nat ->
  exists i msg, (vw_loc v l <= i)%nat /\ mm_order m l !! i = Some msg.
Proof. intros H. destruct (proj2 (lookup_lt_is_Some (mm_order m l) _) H) as [msg Hm]. by exists (vw_loc v l), msg. Qed.

Lemma inv_progress m ppc pv cpc cv ps po :
  spsc_inv (MkSpsc m (ppc, pv) (cpc, cv) ps po) ->
  (ppc = PIdle \/ exists m' pc v d, producer_step N m ppc pv m' pc v d) /\
  exists m' pc v d, consumer_step N m cpc cv m' pc v d.
Proof.
  intros [Hm Hp Hc]. cbn in Hm, Hp, Hc. pose proof (mi_tails _ _ _ _ _ Hm) as Htl. pose proof (mi_heads _ _ _ _ _ Hm) as Hhl. split.
  - destruct Hp as [Ht Hh _ _ _ _ _ _]. destruct (last_message TailPos m pv) as (i & mt & Hi & Hmt); [lia|].
    destruct (last_message HeadPos m pv) as (j & mh & Hj & Hmh); [lia|].
    destruct ppc as [|x|x t|x b|x b t|x b t h|x t]; [by left|right..]; [| | | |destruct (spsc_full N t h) eqn:Hf|]; do 4 eexists.
    + eapply LoadSizeTail. by econstructor.
    + eapply LoadSizeHead. by econstructor.
    + eapply LoadTail. by econstructor.
    + eapply LoadHead. by econstructor.
    + by eapply PushFails.
    + by apply (WriteCell N m x b t h pv).
    + apply (Publish N m x t pv).
  - destruct Hc as [Hh Ht _ _ _ _]. destruct (last_message TailPos m cv) as (i & mt & Hi & Hmt); [lia|].
    destruct (last_message HeadPos m cv) as (j & mh & Hj & Hmh); [lia|].
    destruct cpc as [|h|h t|x h]; [| |destruct (decide (h = t))|]; do 4 eexists.
    + eapply LoadOwnHead. by econstructor.
    + eapply LoadPeerTail. by econstructor.
    + by eapply PopFails.
    + by apply (ReadCell N m h t cv (mm_content m 0)).
    + apply (Release N m x h cv).
Qed.
End Spsc.

(** C25. The queue between two cores is a queue, on every interleaving of its two threads and whatever
    stale positions their loads give: what has been popped is the beginning of what has been pushed, in
    order, and at most its capacity is in flight; no access to a cell races and no store to a counter is
    unordered; a push that [post] makes after it found room finds room; neither thread is ever stuck.
    The positions may have wrapped around the machine word any number of times. *)
Theorem mailbox_is_a_queue {T} k (content : Z -> T) s
  (Hk : 1 <= k < 64) (Hrun : rtc (spsc_step (2 ^ k)) (spsc_new content) s) :
  (exists in_flight, sp_pushed s = sp_popped s ++ in_flight /\ Z.of_nat (length in_flight) <= 2 ^ k) /\
  ~ spsc_racy (2 ^ k) s /\ ~ post_fails (2 ^ k) s /\
  ((sp_producer s).1 = PIdle \/ exists m' pc v d, producer_step (2 ^ k) (sp_memory s) (sp_producer s).1 (sp_producer s).2 m' pc v d) /\
  exists m' pc v d, consumer_step (2 ^ k) (sp_memory s) (sp_consumer s).1 (sp_consumer s).2 m' pc v d.
Proof.
  pose proof (reachable_inv k Hk content s Hrun) as Hi. split_and!.
  - destruct Hi as [[_ _ _ _ _ Htk Hrm _ _ Hf] _ _]. exists (drop (length (sp_popped s)) (sp_pushed s)).
    split; [rewrite Hf at 1; by rewrite take_drop|]. rewrite length_drop. lia.
  - by apply inv_no_race.
  - by apply inv_post.
  - destruct s as [m [pc v] [cpc cv] ps po]. by apply inv_progress in Hi as [? _].
  - destruct s as [m [pc v] [cpc cv] ps po]. by apply inv_progress in Hi as [_ ?].
Qed.

(** A push and a pop. *)
Lemma mailbox_is_a_queue_witness : exists s, sp_popped s = [7] /\ rtc (spsc_step (2 ^ 1)) (spsc_new (fun _ => 0)) s /\
  exists in_flight, sp_pushed s = sp_popped s ++ in_flight /\ Z.of_nat (length in_flight) <= 2 ^ 1.
Proof.
  assert (Hk : 1 <= 1 < 64) by lia.
  assert (exists s, sp_popped s = [7] /\ rtc (spsc_step (2 ^ 1)) (spsc_new (fun _ => 0)) s) as (s & Hs & Hrun).
  { eexists. split; [|
      eapply rtc_l; [eapply ProducerStep, (StartPush _ _ 7)|];
      eapply rtc_l; [eapply ProducerStep, LoadTail, (LoadRelaxed _ _ _ 0); reflexivity|];
      eapply rtc_l; [eapply ProducerStep, LoadHead, (LoadAcquire _ _ _ 0); reflexivity|];
      eapply rtc_l; [eapply ProducerStep, (WriteCell (2 ^ 1)); reflexivity|];
      eapply rtc_l; [eapply ProducerStep, (Publish (2 ^ 1))|];
      eapply rtc_l; [eapply ConsumerStep, LoadOwnHead, (LoadRelaxed _ _ _ 0); reflexivity|];
      eapply rtc_l; [eapply ConsumerStep, LoadPeerTail, (LoadAcquire _ _ _ 1); [vm_compute; lia|reflexivity]|];
      eapply rtc_l; [eapply ConsumerStep, (ReadCell (2 ^ 1) _ _ _ _ 0); vm_compute; discriminate|];
      eapply rtc_l; [eapply ConsumerStep, (Release (2 ^ 1))|]; apply rtc_refl].
    reflexivity. }
  exists s. split; [exact Hs|]. split; [exact Hrun|]. exact (proj1 (mailbox_is_a_queue 1 (fun _ => 0) s Hk Hrun)).
Defined.
