(* ===== verification/MpmcSafety.v ===== *)
(** * The queue of many producers and consumers is a bounded queue

    Whatever its threads do and whatever stale messages their loads give, the ring of Queues.v
    refines the bounded queue [fifo]: an operation takes effect when it reserves its position.  The
    sequence of a cell is the number of its messages, and so many accesses of the cell does a thread
    that reads it know. *)
From Stdlib Require Import ZArith Lia.
From stdpp Require Import base list functions relations.
From S2P Require Import Prelude Queues SpscSafety.
#[local] Open Scope Z_scope.

Section Mpmc.
Context {T : Type} (k : Z) (Hk : 1 <= k).
Abbreviation N := (2 ^ k).
Implicit Types (m : Memory MpmcLoc Z T) (v : View MpmcLoc Z) (op : MpmcOp T) (pushed : list T) (d : Z).

(** ** Positions, cells and turns *)

Lemma ring_two : 2 <= N.
Proof. change 2 with (2 ^ 1) at 1. apply Z.pow_le_mono_r; lia. Qed.

Lemma mpmc_slot_mod pos : mpmc_slot N pos = pos mod N.
Proof. unfold mpmc_slot. replace (N - 1) with (Z.ones k) by (rewrite Z.ones_equiv; lia). apply Z.land_ones. lia. Qed.

Lemma position_turn pos : pos = pos mod N + pos / N * N.
Proof. pose proof ring_two. pose proof (Z.div_mod pos N). lia. Qed.

Lemma slot_range pos : 0 <= pos mod N < N.
Proof. apply Z.mod_pos_bound. pose proof ring_two. lia. Qed.

Lemma turn_slot c a : 0 <= c < N -> (c + a * N) mod N = c.
Proof. intros Hc. rewrite Z.mod_add by lia. by apply Z.mod_small. Qed.

(** The value of the [i]-th message of the sequence of a cell. *)
Definition sequence_at (c i : Z) : Z := c + i / 2 * N + i mod 2.

Lemma sequence_even c a : sequence_at c (2 * a) = c + a * N.
Proof. unfold sequence_at. rewrite (Z.mul_comm 2 a), Z.div_mul, Z.mod_mul by lia. lia. Qed.

Lemma sequence_odd c a : sequence_at c (2 * a + 1) = c + a * N + 1.
Proof.
  unfold sequence_at. rewrite (Z.add_comm _ 1), (Z.mul_comm 2 a), Z.div_add, Z.mod_add by lia.
  change (1 / 2) with 0. change (1 mod 2) with 1. lia.
Qed.

Lemma parity i : exists a, i = 2 * a \/ i = 2 * a + 1.
Proof. exists (i / 2). pose proof (Z.div_mod i 2). pose proof (Z.mod_pos_bound i 2). lia. Qed.

Lemma sequence_mono c i j : i <= j -> sequence_at c i <= sequence_at c j.
Proof.
  intros Hij. pose proof ring_two. destruct (parity i) as [a [-> | ->]], (parity j) as [b [-> | ->]];
    rewrite ?sequence_even, ?sequence_odd; nia.
Qed.

Definition side op : Z := match op with TryPush _ => 0 | TryPop => 1 end.

(** The message a cell is ready with for a position. *)
Definition ready_index op pos : Z := 2 * (pos / N) + side op.

Lemma sequence_ready op pos : sequence_at (pos mod N) (ready_index op pos) = pos + side op.
Proof. unfold ready_index. pose proof (position_turn pos). destruct op; cbn [side]; rewrite ?Z.add_0_r, ?sequence_even, ?sequence_odd; lia. Qed.

Lemma sequence_inj c i j : sequence_at c i = sequence_at c j -> i = j.
Proof.
  intros H. pose proof ring_two. destruct (parity i) as [a [-> | ->]], (parity j) as [b [-> | ->]];
    rewrite ?sequence_even, ?sequence_odd in H; nia.
Qed.

(** ** The invariant *)

Definition slot_last m c : Z := zlen (mm_order m (Sequence c)) - 1.
Definition version m c : Z := Z.of_nat (mm_version m c).

(** How many positions of its side have been reserved. *)
Definition places op pushed d : Z := match op with TryPush _ => zlen pushed | TryPop => d end.

Record cells_inv m pushed d : Prop := {
  ri_counter op : zlen (mm_order m (op_counter op)) = places op pushed d + 1;
  ri_value op i msg : mm_order m (op_counter op) !! i = Some msg -> ms_value msg = Z.of_nat i;
  ri_sequence c i msg : 0 <= c < N -> mm_order m (Sequence c) !! i = Some msg ->
    ms_value msg = sequence_at c (Z.of_nat i) /\ vw_loc (ms_view msg) (Sequence c) = i /\ (i <= vw_cell (ms_view msg) c)%nat;
  ri_within c i msg : mm_order m (Sequence c) !! i = Some msg ->
    (forall c', (vw_cell (ms_view msg) c' <= mm_version m c')%nat) /\
    forall l, (vw_loc (ms_view msg) l < length (mm_order m l))%nat;
  ri_bounds : 0 <= d <= zlen pushed /\ zlen pushed <= d + N;
  ri_free c a : 0 <= c < N -> slot_last m c = 2 * a ->
    d <= c + a * N < d + N /\ (zlen pushed <= c + a * N -> version m c = 2 * a);
  ri_full c a : 0 <= c < N -> slot_last m c = 2 * a + 1 ->
    c + a * N < zlen pushed <= c + a * N + N /\ (d <= c + a * N -> version m c = 2 * a + 1);
  ri_content c a : 0 <= c < N -> version m c = 2 * a + 1 -> pushed !! Z.to_nat (c + a * N) = Some (mm_content m c);
}.

(** A thread that has reserved a position and not published its cell, before ([x = 0]) or after its access. *)
Record holds m pushed d op pos (x : Z) v : Prop := {
  ho_pos : 0 <= pos < places op pushed d;
  ho_last : slot_last m (pos mod N) = ready_index op pos;
  ho_version : version m (pos mod N) = ready_index op pos + x;
  ho_knows : vw_cell v (pos mod N) = mm_version m (pos mod N);
  ho_seen : Z.of_nat (vw_loc v (Sequence (pos mod N))) = ready_index op pos;
  ho_value : match op with TryPush value => pushed !! Z.to_nat pos = Some value | TryPop => True end;
}.

Definition knows_index v c i : Prop := 0 <= i <= Z.of_nat (vw_loc v (Sequence c)) /\ i <= Z.of_nat (vw_cell v c).

Record thread_inv m pushed d (pc : MpmcPc T) v : Prop := {
  ti_cells c : (vw_cell v c <= mm_version m c)%nat;
  ti_locs l : (vw_loc v l < length (mm_order m l))%nat;
  ti_pc :
    match pc with
    | MIdle | MLoadPos _ => True
    | MLoadSequence op pos => 0 <= pos <= places op pushed d
    | MCompare op pos seq =>
        0 <= pos <= places op pushed d /\ exists i, seq = sequence_at (pos mod N) i /\ knows_index v (pos mod N) i
    | MReserve op pos => 0 <= pos <= places op pushed d /\ knows_index v (pos mod N) (ready_index op pos)
    | MAccess op pos => holds m pushed d op pos 0 v
    | MPublish op pos result =>
        holds m pushed d op pos 1 v /\ result = match op with TryPush _ => None | TryPop => pushed !! Z.to_nat pos end
    end;
}.

Definition owns (pc : MpmcPc T) : option (MpmcOp T * Z) :=
  match pc with MAccess op pos | MPublish op pos _ => Some (op, pos) | _ => None end.

Definition owed_by pushed (pc : MpmcPc T) : option T :=
  match owns pc with Some (TryPop, pos) => pushed !! Z.to_nat pos | _ => None end.

Definition push_value (e : MpmcEvent T) : option T := match e with TakesPlace _ (TryPush value) => Some value | _ => None end.

(** What has taken its place, in order. *)
Definition pushes (trace : list (MpmcEvent T)) : list T := omap push_value trace.
Arguments pushes : simpl never.

Record mpmc_inv (s : Mpmc T) (d : Z) : Prop := {
  qi_ring : cells_inv (mq_memory s) (pushes (mq_trace s)) d;
  qi_thread t : thread_inv (mq_memory s) (pushes (mq_trace s)) d (mq_threads s t).1 (mq_threads s t).2;
  qi_owner t t' op op' pos :
    owns (mq_threads s t).1 = Some (op, pos) -> owns (mq_threads s t').1 = Some (op', pos) -> side op = side op' -> t = t';
  qi_fifo : exists owed, fifo N (mq_trace s) (drop (Z.to_nat d) (pushes (mq_trace s))) owed /\
    forall t, owed t = owed_by (pushes (mq_trace s)) (mq_threads s t).1;
}.

Lemma owner_holds m pushed d pc v op pos :
  thread_inv m pushed d pc v -> owns pc = Some (op, pos) -> exists x, holds m pushed d op pos x v.
Proof. intros [_ _ Hpc] Ho. destruct pc; try done; injection Ho as -> ->; [by exists 0|]. exists 1. apply Hpc. Qed.

(** Two threads never hold one cell. *)
Lemma one_owner s d t t' op op' pos pos' :
  mpmc_inv s d -> owns (mq_threads s t).1 = Some (op, pos) -> owns (mq_threads s t').1 = Some (op', pos') ->
  pos mod N = pos' mod N -> t = t'.
Proof.
  intros Hi Ho Ho' Hc. destruct (owner_holds _ _ _ _ _ _ _ (qi_thread _ _ Hi t) Ho) as [x H].
  destruct (owner_holds _ _ _ _ _ _ _ (qi_thread _ _ Hi t') Ho') as [x' H'].
  pose proof (ho_last _ _ _ _ _ _ _ H) as Hl. pose proof (ho_last _ _ _ _ _ _ _ H') as Hl'. rewrite Hc, Hl' in Hl.
  unfold ready_index in Hl. pose proof (position_turn pos). pose proof (position_turn pos').
  assert (side op = side op' /\ pos / N = pos' / N) as [Hs Ht] by (destruct op, op'; cbn in *; lia).
  assert (pos = pos') as <- by congruence. by eapply qi_owner.
Qed.

(** What the other threads rely on while one moves. *)
Record grows m m' pushed pushed' d d' : Prop := {
  gr_order l : (length (mm_order m l) <= length (mm_order m' l))%nat;
  gr_version c : (mm_version m c <= mm_version m' c)%nat;
  gr_pushed : pushed `prefix_of` pushed';
  gr_popped : d <= d';
}.

Lemma places_grow m m' pushed pushed' d d' op : grows m m' pushed pushed' d d' -> places op pushed d <= places op pushed' d'.
Proof. intros [_ _ Hp Hd]. destruct op; [|done]. cbn. apply prefix_length in Hp. lia. Qed.

Lemma thread_frame m m' pushed pushed' d d' pc v :
  thread_inv m pushed d pc v -> grows m m' pushed pushed' d d' -> 0 <= d <= zlen pushed ->
  (forall op pos, owns pc = Some (op, pos) ->
    slot_last m' (pos mod N) = slot_last m (pos mod N) /\ mm_version m' (pos mod N) = mm_version m (pos mod N)) ->
  thread_inv m' pushed' d' pc v.
Proof.
  intros [Hc Hl Hpc] Hg Hd Hsame. pose proof (fun op => places_grow _ _ _ _ _ _ op Hg) as Hpl.
  assert (Hh : forall op pos x, owns pc = Some (op, pos) -> holds m pushed d op pos x v -> holds m' pushed' d' op pos x v).
  { intros op pos x Ho [Hp Hla Hv Hk' Hs Hva]. destruct (Hsame op pos Ho) as [Hsl Hsv]. unfold version in *. split; unfold version; rewrite ?Hsl, ?Hsv; try done.
    - specialize (Hpl op). lia.
    - destruct op; [|done]. eapply prefix_lookup_Some; [done|apply Hg]. }
  split.
  - intros c. pose proof (gr_version _ _ _ _ _ _ Hg c). specialize (Hc c). lia.
  - intros l. pose proof (gr_order _ _ _ _ _ _ Hg l). specialize (Hl l). lia.
  - destruct pc; try done.
    + specialize (Hpl op). lia.
    + specialize (Hpl op). destruct Hpc. split; [lia|done].
    + specialize (Hpl op). destruct Hpc. split; [lia|done].
    + by apply Hh.
    + destruct Hpc as [H ->]. split; [by apply Hh|]. destruct op; [done|]. destruct (ho_pos _ _ _ _ _ _ _ H) as [? Hlt]. cbn in Hlt.
      destruct (lookup_lt_is_Some_2 pushed (Z.to_nat pos)) as [y Hy]; [lia|]. rewrite Hy. symmetry. eapply prefix_lookup_Some; [done|apply Hg].
Qed.

(** ** Loads *)

Definition small pushed : Prop := zlen pushed + N < 2 ^ 63.

Lemma places_bound m pushed d op : cells_inv m pushed d -> small pushed -> 0 <= places op pushed d < 2 ^ 63 - N.
Proof. intros Hr Hb. unfold small in Hb. pose proof (ri_bounds _ _ _ Hr). destruct op; cbn; lia. Qed.

Lemma loads_counter m pushed d op pc v x v' :
  cells_inv m pushed d -> thread_inv m pushed d pc v -> load_relaxed (op_counter op) m v x v' ->
  0 <= x <= places op pushed d /\
  (forall c, (vw_cell v' c <= mm_version m c)%nat) /\ forall l, (vw_loc v' l < length (mm_order m l))%nat.
Proof.
  intros Hr [Hc Hl _] [i msg Hi Hm]. pose proof (lookup_lt_Some _ _ _ Hm) as Hlt. pose proof (ri_counter _ _ _ Hr op).
  rewrite (ri_value _ _ _ Hr op i msg Hm). split; [lia|]. split; [done|]. intros l.
  destruct (decide (op_counter op = l)) as [<-|]; [rewrite see_here; specialize (Hl (op_counter op)); lia|by rewrite see_there].
Qed.

Lemma loads_sequence m pushed d pc v c x v' :
  cells_inv m pushed d -> thread_inv m pushed d pc v -> 0 <= c < N -> load_acquire (Sequence c) m v x v' ->
  (exists i, x = sequence_at c i /\ knows_index v' c i) /\
  (forall c', (vw_cell v' c' <= mm_version m c')%nat) /\ forall l, (vw_loc v' l < length (mm_order m l))%nat.
Proof.
  intros Hr [Hc Hl _] Hcn [i msg Hi Hm]. destruct (ri_sequence _ _ _ Hr c i msg Hcn Hm) as (Hv & Hown & Hcell).
  destruct (ri_within _ _ _ Hr c i msg Hm) as [Hwc Hwl]. pose proof (lookup_lt_Some _ _ _ Hm) as Hlt. rewrite Hv. split; [|split].
  - exists (Z.of_nat i). split; [done|]. split; [rewrite see_here|]; cbn; lia.
  - intros c'. specialize (Hc c'). specialize (Hwc c'). cbn. lia.
  - intros l. specialize (Hl l). specialize (Hwl l).
    destruct (decide (Sequence c = l)) as [<-|]; [rewrite see_here|rewrite see_there by done]; cbn; lia.
Qed.

(** Every sequence is far from overflowing. *)
Lemma sequence_bound m pushed d pc v c i :
  cells_inv m pushed d -> thread_inv m pushed d pc v -> small pushed -> 0 <= c < N -> knows_index v c i ->
  i <= slot_last m c /\ 0 <= sequence_at c i < 2 ^ 63.
Proof.
  intros Hr [_ Hl _] Hb Hc [Hi _]. specialize (Hl (Sequence c)). unfold small in Hb. pose proof (ri_bounds _ _ _ Hr).
  assert (Hle : i <= slot_last m c) by (unfold slot_last; lia). split; [done|]. pose proof (sequence_mono c i _ Hle) as Hmono.
  pose proof (sequence_mono c (2 * 0) i ltac:(lia)) as Hlow. rewrite sequence_even in Hlow. pose proof ring_two.
  destruct (parity (slot_last m c)) as [a [Ha|Ha]]; rewrite Ha in Hmono; rewrite ?sequence_even, ?sequence_odd in Hmono.
  - destruct (ri_free _ _ _ Hr c a Hc Ha). lia.
  - destruct (ri_full _ _ _ Hr c a Hc Ha). lia.
Qed.

Lemma to_i_position z : 0 <= z < 2 ^ 63 -> to_i 64 z = z.
Proof. intros Hz. unfold to_i. rewrite Z.mod_small by lia. change (2 ^ (64 - 1)) with (2 ^ 63). by rewrite (proj2 (Z.ltb_lt _ _)) by lia. Qed.

(** The comparison of the loop is the comparison of positions. *)
Lemma compare_positions m pushed d op pos seq v :
  cells_inv m pushed d -> thread_inv m pushed d (MCompare op pos seq) v -> small pushed ->
  exists i, knows_index v (pos mod N) i /\ mpmc_diff seq (op_awaits op pos) = sequence_at (pos mod N) i - (pos + side op) /\
    0 <= sequence_at (pos mod N) i < 2 ^ 63 /\ 0 <= pos + side op < 2 ^ 63.
Proof.
  intros Hr Ht Hb. destruct (ti_pc _ _ _ _ _ Ht) as [Hpos (i & -> & Hi)]. exists i.
  destruct (sequence_bound _ _ _ _ _ _ _ Hr Ht Hb (slot_range pos) Hi) as [_ Hs].
  pose proof (places_bound _ _ _ op Hr Hb). pose proof ring_two. split; [done|]. unfold mpmc_diff.
  assert (Hw : op_awaits op pos = pos + side op).
  { destruct op; cbn; [lia|]. apply Z.mod_small. lia. }
  rewrite Hw, !to_i_position by (destruct op; cbn in *; lia). split; [done|]. split; [done|]. destruct op; cbn in *; lia.
Qed.

(** ** Reserving a position *)

(** A thread that reserves the next position finds the cell as it read it. *)
Lemma reserve_ready m pushed d op v :
  cells_inv m pushed d -> thread_inv m pushed d (MReserve op (places op pushed d)) v ->
  let pos := places op pushed d in
  slot_last m (pos mod N) = ready_index op pos /\ version m (pos mod N) = ready_index op pos /\
  vw_cell v (pos mod N) = mm_version m (pos mod N) /\ Z.of_nat (vw_loc v (Sequence (pos mod N))) = ready_index op pos.
Proof.
  intros Hr Ht pos. destruct (ti_pc _ _ _ _ _ Ht) as [_ [[Hi0 Hi] Hic]]. fold pos in Hi0, Hi, Hic. pose proof (slot_range pos) as Hc.
  pose proof (ti_locs _ _ _ _ _ Ht (Sequence (pos mod N))) as Hloc. pose proof (ti_cells _ _ _ _ _ Ht (pos mod N)) as Hcell.
  pose proof (ri_bounds _ _ _ Hr) as Hbd. pose proof (position_turn pos) as Hturn. pose proof ring_two as Htwo.
  assert (Hlast : slot_last m (pos mod N) = ready_index op pos /\ version m (pos mod N) = ready_index op pos).
  { unfold ready_index in *. assert (Hge : 2 * (pos / N) + side op <= slot_last m (pos mod N)) by (unfold slot_last; lia).
    destruct (parity (slot_last m (pos mod N))) as [a [Ha|Ha]]; rewrite Ha in Hge |- *.
    - destruct (ri_free _ _ _ Hr _ a Hc Ha) as [Hd Hv]. destruct op; cbn [side places] in *; subst pos; [|nia].
      assert (a = zlen pushed / N) as -> by nia. rewrite Hv by lia. lia.
    - destruct (ri_full _ _ _ Hr _ a Hc Ha) as [Hd Hv]. destruct op; cbn [side places] in *; subst pos; [nia|].
      assert (a = d / N) as -> by nia. rewrite Hv by lia. lia. }
  destruct Hlast as [Hla Hve]. split; [done|]. split; [done|]. unfold slot_last, version in *. lia.
Qed.

(** The exchange succeeds with the next position only. *)
Lemma exchange_reserves m pushed d op pos v m' v' :
  cells_inv m pushed d -> exchange_relaxed (op_counter op) pos (to_u 64 (pos + 1)) m v m' v' ->
  pos = places op pushed d /\ exists w, m' = append_message (op_counter op) (MkMessage (to_u 64 (pos + 1)) w) m /\
  v' = see (op_counter op) (length (mm_order m (op_counter op))) v.
Proof.
  intros Hr [msg Hl Hv]. split; [|by eexists]. rewrite <- Hv. rewrite last_lookup in Hl. rewrite (ri_value _ _ _ Hr _ _ _ Hl).
  pose proof (ri_counter _ _ _ Hr op). apply lookup_lt_Some in Hl. lia.
Qed.

(** ** Each step keeps the invariant of the ring *)

Definition push_of op : list T := match op with TryPush value => [value] | TryPop => [] end.

Lemma reserve_ring m pushed d op w :
  cells_inv m pushed d -> (let pos := places op pushed d in slot_last m (pos mod N) = ready_index op pos /\ version m (pos mod N) = ready_index op pos) ->
  cells_inv (append_message (op_counter op) (MkMessage (places op pushed d + 1) w) m) (pushed ++ push_of op) (d + side op).
Proof.
  intros Hr [Hla Hve]. pose proof (ri_bounds _ _ _ Hr) as Hbd. pose proof ring_two as Htwo.
  assert (Hseq : forall c, mm_order (append_message (op_counter op) (MkMessage (places op pushed d + 1) w) m) (Sequence c) = mm_order m (Sequence c)).
  { intros c. cbn. rewrite fn_lookup_insert_ne; [done|by destruct op]. }
  assert (Hsl : forall c, slot_last (append_message (op_counter op) (MkMessage (places op pushed d + 1) w) m) c = slot_last m c).
  { intros c. unfold slot_last. by rewrite Hseq. }
  pose proof (slot_range (places op pushed d)) as Hcp. pose proof (position_turn (places op pushed d)) as Hturn. unfold ready_index in *.
  assert (Hbd' : 0 <= d + side op <= zlen (pushed ++ push_of op) /\ zlen (pushed ++ push_of op) <= d + side op + N).
  { rewrite length_app. destruct op; cbn [side push_of places length] in *.
    - destruct (ri_free _ _ _ Hr _ (zlen pushed / N) Hcp) as [? _]; lia.
    - destruct (ri_full _ _ _ Hr _ (d / N) Hcp) as [? _]; lia. }
  assert (Hother : forall c a, 0 <= c < N -> slot_last m c = 2 * a + (1 - side op) -> c + a * N <> places op pushed d).
  { intros c a Hc Ha He. rewrite <- He, (turn_slot c a Hc), Ha in Hla. destruct op; cbn [side] in Hla; lia. }
  split.
  - intros op'. rewrite length_append, Nat2Z.inj_add, (ri_counter m pushed d Hr). rewrite ?length_app.
    destruct op, op'; cbn [op_counter places push_of side]; rewrite ?decide_True, ?decide_False, ?length_app by done; cbn [length]; lia.
  - intros op' i msg [Hi|(He & -> & ->)]%lookup_append; [by eapply ri_value|]. rewrite <- He. pose proof (ri_counter _ _ _ Hr op'). cbn.
    destruct op, op'; try done; cbn [places op_counter] in *; lia.
  - intros c i msg Hc. rewrite Hseq. by apply (ri_sequence m pushed d Hr).
  - intros c i msg. rewrite Hseq. intros Hi. destruct (ri_within _ _ _ Hr c i msg Hi) as [? Hl]. split; [done|]. intros l.
    rewrite length_append. specialize (Hl l). lia.
  - exact Hbd'.
  - intros c a Hc. rewrite Hsl. intros Ha. destruct (ri_free _ _ _ Hr c a Hc Ha) as [Hd Hv].
    rewrite length_app in *. destruct op; cbn [side push_of length places] in *.
    + split; [lia|]. intros ?. apply Hv. lia.
    + pose proof (Hother c a Hc ltac:(lia)). split; [lia|]. intros ?. apply Hv. lia.
  - intros c a Hc. rewrite Hsl. intros Ha. destruct (ri_full _ _ _ Hr c a Hc Ha) as [Hd Hv].
    rewrite length_app in *. destruct op; cbn [side push_of length places] in *.
    + assert (c + a * N + N <> zlen pushed); [|split; [lia|intros ?; apply Hv; lia]]. intros He.
      replace (c + a * N + N) with (c + (a + 1) * N) in He by lia. rewrite <- He, (turn_slot c _ Hc), Ha in Hla. lia.
    + split; [lia|]. intros ?. apply Hv. lia.
  - intros c a Hc Hv. apply lookup_app_l_Some. by apply (ri_content _ _ _ Hr).
Qed.

Lemma version_access c c' x m v : version (access c x m v).1 c' = version m c' + if decide (c = c') then 1 else 0.
Proof.
  unfold version. cbn. destruct (decide (c = c')) as [<-|]; [rewrite fn_lookup_insert|rewrite fn_lookup_insert_ne by done]; lia.
Qed.

Lemma access_ring m pushed d op pos v moved :
  cells_inv m pushed d -> holds m pushed d op pos 0 v -> cells_inv (access (pos mod N) (op_leaves op moved) m v).1 pushed d.
Proof.
  intros Hr [Hp Hla Hve Hkn _ Hva]. pose proof (slot_range pos) as Hcp. pose proof (position_turn pos) as Hturn. unfold ready_index in *.
  assert (Hsl : forall c, slot_last (access (pos mod N) (op_leaves op moved) m v).1 c = slot_last m c) by done.
  split; rewrite ?version_access; try apply Hr.
  - intros c i msg Hi. destruct (ri_within _ _ _ Hr c i msg Hi) as [Hw Hl]. split; [|done]. intros c'. specialize (Hw c').
    pose proof (version_access (pos mod N) c' (op_leaves op moved) m v) as Hvv. unfold version in Hvv. destruct (decide _); lia.
  - intros c a Hc. rewrite Hsl, version_access. intros Ha. destruct (ri_free _ _ _ Hr c a Hc Ha) as [Hd Hv]. split; [done|].
    destruct (decide (pos mod N = c)) as [<-|]; [|rewrite Z.add_0_r; done]. intros Hle. exfalso.
    destruct op; cbn [side places] in *; [|lia]. assert (a = pos / N) as -> by lia. lia.
  - intros c a Hc. rewrite Hsl, version_access. intros Ha. destruct (ri_full _ _ _ Hr c a Hc Ha) as [Hd Hv]. split; [done|].
    destruct (decide (pos mod N = c)) as [<-|]; [|rewrite Z.add_0_r; done]. intros Hle. exfalso.
    destruct op; cbn [side places] in *; [lia|]. assert (a = pos / N) as -> by lia. lia.
  - intros c a Hc. rewrite version_access. cbn. destruct (decide (pos mod N = c)) as [<-|].
    + rewrite fn_lookup_insert. intros Hv. destruct op; cbn [side op_leaves] in *; [|lia]. assert (a = pos / N) as -> by lia.
      by rewrite <- Hturn.
    + rewrite fn_lookup_insert_ne by done. rewrite Z.add_0_r. by apply (ri_content m pushed d Hr).
Qed.

(** What is published in a cell is the next value of its sequence. *)
Lemma publishes_next m pushed d op pos :
  cells_inv m pushed d -> small pushed -> 0 <= pos < places op pushed d ->
  op_publishes N op pos = sequence_at (pos mod N) (ready_index op pos + 1).
Proof.
  intros Hr Hb Hp. pose proof (position_turn pos). pose proof (places_bound _ _ _ op Hr Hb). unfold ready_index. pose proof ring_two.
  destruct op; cbn [side op_publishes].
  - rewrite Z.add_0_r, sequence_odd. unfold to_u. rewrite Z.mod_small; lia.
  - replace (2 * (pos / N) + 1 + 1) with (2 * (pos / N + 1)) by lia. rewrite sequence_even. unfold to_u. rewrite Z.mod_small; lia.
Qed.

Lemma publish_ring m pushed d op pos v :
  cells_inv m pushed d -> holds m pushed d op pos 1 v -> small pushed ->
  (forall c, (vw_cell v c <= mm_version m c)%nat) -> (forall l, (vw_loc v l < length (mm_order m l))%nat) ->
  cells_inv (store_release (Sequence (pos mod N)) (op_publishes N op pos) m v).1 pushed d.
Proof.
  intros Hr [Hp Hla Hve Hkn Hse Hva] Hb Hvc Hvl. rewrite (publishes_next m pushed d op pos Hr Hb Hp). cbn [store_release fst].
  pose proof (slot_range pos) as Hcp. pose proof (position_turn pos) as Hturn. pose proof (ri_bounds _ _ _ Hr) as Hbd. pose proof ring_two.
  assert (Hlen : Z.of_nat (length (mm_order m (Sequence (pos mod N)))) = ready_index op pos + 1) by (unfold slot_last in Hla; lia).
  set (msg := MkMessage _ _).
  assert (Hsl : forall c, slot_last (append_message (Sequence (pos mod N)) msg m) c = slot_last m c + if decide (pos mod N = c) then 1 else 0).
  { intros c. unfold slot_last. rewrite length_append. destruct (decide (pos mod N = c)) as [<-|].
    - rewrite decide_True by done. lia.
    - rewrite decide_False by congruence. lia. }
  assert (Hver : forall c, version (append_message (Sequence (pos mod N)) msg m) c = version m c) by done.
  split.
  - intros op'. rewrite length_append, decide_False by (by destruct op'). rewrite Nat.add_0_r. apply Hr.
  - intros op' i msg' [Hi|(He & _)]%lookup_append; [by eapply ri_value|by destruct op'].
  - intros c i msg' Hc [Hi|(He & -> & ->)]%lookup_append; [by eapply ri_sequence|]. injection He as ->. rewrite Hlen. cbn [ms_value ms_view msg].
    rewrite see_here. split; [done|]. split; [specialize (Hvl (Sequence (pos mod N))); lia|]. cbn. unfold version in Hve. lia.
  - intros c i msg' [Hi|(He & -> & ->)]%lookup_append.
    + destruct (ri_within _ _ _ Hr c i msg' Hi) as [? Hl]. split; [done|]. intros l. rewrite length_append. specialize (Hl l). lia.
    + split; [exact Hvc|]. intros l. rewrite length_append. specialize (Hvl l). cbn [ms_view msg].
      destruct (decide (Sequence (pos mod N) = l)) as [<-|]; [rewrite see_here|rewrite see_there by done]; lia.
  - done.
  - intros c a Hc. rewrite Hsl, Hver. destruct (decide (pos mod N = c)) as [<-|]; [|rewrite Z.add_0_r; by apply (ri_free m pushed d Hr)].
    intros Ha. unfold ready_index in *. destruct op; cbn [side places] in *; [lia|]. assert (a = pos / N + 1) as -> by lia.
    destruct (ri_full _ _ _ Hr _ (pos / N) Hcp) as [? _]; [lia|]. lia.
  - intros c a Hc. rewrite Hsl, Hver. destruct (decide (pos mod N = c)) as [<-|]; [|rewrite Z.add_0_r; by apply (ri_full m pushed d Hr)].
    intros Ha. unfold ready_index in *. destruct op; cbn [side places] in *; [|lia]. assert (a = pos / N) as -> by lia.
    destruct (ri_free _ _ _ Hr _ (pos / N) Hcp) as [? _]; [lia|]. lia.
  - intros c a Hc Hv. by apply (ri_content m pushed d Hr).
Qed.

(** ** Every step keeps the invariant *)

Lemma owed_frame m m' pushed pushed' d d' pc v :
  thread_inv m pushed d pc v -> grows m m' pushed pushed' d d' -> 0 <= d <= zlen pushed -> owed_by pushed' pc = owed_by pushed pc.
Proof.
  intros Ht Hg Hd. unfold owed_by. destruct (owns pc) as [[op pos]|] eqn:Ho; [|done]. destruct op; [done|].
  destruct (owner_holds _ _ _ _ _ _ _ Ht Ho) as [x Hh]. pose proof (ho_pos _ _ _ _ _ _ _ Hh) as Hp. cbn in Hp.
  destruct (lookup_lt_is_Some_2 pushed (Z.to_nat pos)) as [y Hy]; [lia|]. rewrite Hy. eapply prefix_lookup_Some; [done|apply Hg].
Qed.

(** The invariant after a step of [t], from what the step does to the ring and to the bounded queue. *)
Lemma step_inv m threads trace d t m' pc' v' events d' :
  mpmc_inv (MkMpmc m threads trace) d ->
  let pushed := pushes trace in let pushed' := pushes (trace ++ events) in
  cells_inv m' pushed' d' -> grows m m' pushed pushed' d d' -> thread_inv m' pushed' d' pc' v' ->
  (forall t' op pos, t' <> t -> owns (threads t').1 = Some (op, pos) ->
    slot_last m' (pos mod N) = slot_last m (pos mod N) /\ mm_version m' (pos mod N) = mm_version m (pos mod N)) ->
  (forall t' op op' pos, t' <> t -> owns pc' = Some (op, pos) -> owns (threads t').1 = Some (op', pos) -> side op <> side op') ->
  (forall owed, fifo N trace (drop (Z.to_nat d) pushed) owed -> owed t = owed_by pushed (threads t).1 ->
    exists owed', fifo N (trace ++ events) (drop (Z.to_nat d') pushed') owed' /\ owed' t = owed_by pushed' pc' /\
      forall t', t' <> t -> owed' t' = owed t') ->
  mpmc_inv (MkMpmc m' (<[t := (pc', v')]> threads) (trace ++ events)) d'.
Proof.
  intros Hi pushed pushed' Hr Hg Ht Hothers Huniq Hfifo. pose proof (ri_bounds _ _ _ (qi_ring _ _ Hi)) as Hbd. cbn in Hbd.
  split; cbn [mq_memory mq_threads mq_trace]; fold pushed'.
  - done.
  - intros t'. destruct (decide (t = t')) as [<-|Hne]; [by rewrite fn_lookup_insert|]. rewrite fn_lookup_insert_ne by done.
    eapply thread_frame; [apply (qi_thread _ _ Hi t')|done|apply Hbd|]. intros op pos. by apply Hothers.
  - intros t1 t2 op op' pos. destruct (decide (t = t1)) as [<-|H1], (decide (t = t2)) as [<-|H2];
      rewrite ?fn_lookup_insert, ?fn_lookup_insert_ne by done; try done.
    + intros Ho Ho' Hs. by destruct (Huniq t2 op op' pos).
    + intros Ho Ho' Hs. by destruct (Huniq t1 op' op pos).
    + apply (qi_owner _ _ Hi).
  - destruct (qi_fifo _ _ Hi) as (owed & Hf & Ho). destruct (Hfifo owed Hf (Ho t)) as (owed' & Hf' & Hot & Hoo). exists owed'. split; [done|].
    intros t'. destruct (decide (t = t')) as [<-|Hne]; [by rewrite fn_lookup_insert|]. rewrite fn_lookup_insert_ne, Hoo, Ho by done.
    symmetry. eapply owed_frame; [apply (qi_thread _ _ Hi t')|done|apply Hbd].
Qed.

Lemma pushes_app trace events : pushes (trace ++ events) = pushes trace ++ pushes events.
Proof. apply omap_app. Qed.

Lemma grows_refl m pushed d : grows m m pushed pushed d d.
Proof. by split. Qed.

(** A step that changes neither the memory nor who holds a cell. *)
Lemma quiet_inv m threads trace d t pc' v' events :
  mpmc_inv (MkMpmc m threads trace) d -> pushes events = [] -> owns (threads t).1 = None -> owns pc' = None ->
  thread_inv m (pushes trace) d pc' v' ->
  (forall queue owed, fifo N trace queue owed -> fifo N (trace ++ events) queue owed) ->
  mpmc_inv (MkMpmc m (<[t := (pc', v')]> threads) (trace ++ events)) d.
Proof.
  intros Hi He Hn Hn' Ht Hf. assert (Hp : pushes (trace ++ events) = pushes trace) by (by rewrite pushes_app, He, app_nil_r).
  eapply step_inv; [exact Hi|..]; rewrite ?Hp.
  - apply (qi_ring _ _ Hi).
  - apply grows_refl.
  - done.
  - done.
  - intros t' op op' pos _. by rewrite Hn'.
  - intros owed Hq Ho. exists owed. split; [by apply Hf|]. split; [|done]. rewrite Ho. unfold owed_by. by rewrite Hn, Hn'.
Qed.

Lemma reserve_inv m threads trace d t op pos v m' v' :
  mpmc_inv (MkMpmc m threads trace) d -> small (pushes trace) -> threads t = (MReserve op pos, v) ->
  exchange_relaxed (op_counter op) pos (to_u 64 (pos + 1)) m v m' v' ->
  mpmc_inv (MkMpmc m' (<[t := (MAccess op pos, v')]> threads) (trace ++ [TakesPlace t op])) (d + side op).
Proof.
  intros Hi Hb Hth Hex. pose proof (qi_ring _ _ Hi) as Hr. cbn in Hr. pose proof (qi_thread _ _ Hi t) as Ht. cbn in Ht. rewrite Hth in Ht. cbn in Ht.
  destruct (exchange_reserves _ _ _ _ _ _ _ _ Hr Hex) as [-> (w & -> & ->)].
  destruct (reserve_ready _ _ _ _ _ Hr Ht) as (Hla & Hve & Hkn & Hse). pose proof (places_bound _ _ _ op Hr Hb) as Hpb. pose proof ring_two.
  assert (Hpush : pushes (trace ++ [TakesPlace t op]) = pushes trace ++ push_of op) by (rewrite pushes_app; by destruct op).
  unfold to_u. rewrite Z.mod_small by lia. pose proof (ri_bounds _ _ _ Hr) as Hbd.
  pose proof (reserve_ring _ _ _ op w Hr (conj Hla Hve)) as Hr'. set (pos := places op (pushes trace) d) in *.
  clear Hex. set (m' := append_message _ _ _) in *.
  assert (Hg : grows m m' (pushes trace) (pushes trace ++ push_of op) d (d + side op)).
  { split; [|done|by apply prefix_app_r|destruct op; cbn; lia]. intros l. unfold m'. rewrite length_append. lia. }
  assert (Hsl : forall c, slot_last m' c = slot_last m c).
  { intros c. unfold slot_last, m'. rewrite length_append, decide_False by (by destruct op). lia. }
  eapply step_inv; [exact Hi|..]; rewrite ?Hpush.
  - exact Hr'.
  - exact Hg.
  - destruct Ht as [Hc Hl _]. split; [exact Hc| |].
    + intros l. unfold m'. rewrite length_append. specialize (Hl l).
      destruct (decide (op_counter op = l)) as [<-|]; [rewrite see_here|rewrite see_there by done]; lia.
    + split; rewrite ?Hsl, ?Z.add_0_r; try done.
      * pose proof (places_grow _ _ _ _ _ _ op Hg). subst pos. rewrite ?length_app in *.
        destruct op; cbn [places side push_of length] in *; rewrite ?length_app in *; cbn [length] in *; lia.
      * rewrite see_there by (by destruct op). done.
      * destruct op; [|done]. subst pos. cbn. by rewrite Nat2Z.id, lookup_app_r, Nat.sub_diag.
  - intros t' op' pos' _ _. split; [apply Hsl|done].
  - intros t' op1 op' pos' _ [= <- <-] Ho Hs. destruct (owner_holds _ _ _ _ _ _ _ (qi_thread _ _ Hi t') Ho) as [x Hh].
    pose proof (ho_pos _ _ _ _ _ _ _ Hh) as Hp. cbn in Hp. subst pos. destruct op, op'; cbn in *; lia.
  - intros owed Hf Ho. rewrite Hth in Ho. cbn in Ho. destruct op; cbn [side push_of] in *.
    + exists owed. rewrite Z.add_0_r, drop_app_le by lia. split; [|by split]. apply FifoPush; [done|]. rewrite length_drop.
      destruct (ri_free _ _ _ Hr' (pos mod N) (pos / N)) as [Hd _]; [apply slot_range|rewrite Hsl, Hla; unfold ready_index; cbn; lia|].
      rewrite <- position_turn in Hd. subst pos. cbn in Hd. lia.
    + rewrite app_nil_r. assert (Hlt : (Z.to_nat d < length (pushes trace))%nat).
      { destruct (ri_full _ _ _ Hr (pos mod N) (pos / N)) as [Hd _]; [apply slot_range|rewrite Hla; unfold ready_index; cbn; lia|].
        rewrite <- position_turn in Hd. subst pos. cbn in Hd. lia. }
      destruct (lookup_lt_is_Some_2 _ _ Hlt) as [x Hx]. exists (<[t := Some x]> owed).
      rewrite (drop_S _ x _ Hx) in Hf. split; [|split].
      * replace (Z.to_nat (d + 1)) with (S (Z.to_nat d)) by lia. by apply FifoPop.
      * rewrite fn_lookup_insert. unfold owed_by. cbn. by rewrite Hx.
      * intros t' Hne. by rewrite fn_lookup_insert_ne.
Qed.

Lemma access_inv m threads trace d t op pos v moved :
  mpmc_inv (MkMpmc m threads trace) d -> threads t = (MAccess op pos, v) ->
  let '(m', v') := access (pos mod N) (op_leaves op moved) m v in
  mpmc_inv (MkMpmc m' (<[t := (MPublish op pos (op_result op (mm_content m (pos mod N))), v')]> threads) (trace ++ [])) d.
Proof.
  intros Hi Hth. pose proof (qi_ring _ _ Hi) as Hr. cbn in Hr. pose proof (qi_thread _ _ Hi t) as Ht. cbn in Ht. rewrite Hth in Ht. cbn in Ht.
  pose proof (ti_pc _ _ _ _ _ Ht) as Hh. cbn in Hh. pose proof (access_ring _ _ _ _ _ _ moved Hr Hh) as Hr'.
  pose proof Hh as [Hp Hla Hve Hkn Hse Hva]. pose proof (fun c => version_access (pos mod N) c (op_leaves op moved) m v) as Hv.
  destruct (access (pos mod N) (op_leaves op moved) m v) as [m' v'] eqn:Ha. cbn [fst] in Hr', Hv. pose proof (slot_range pos) as Hc.
  assert (Ho : forall l, mm_order m' l = mm_order m l) by (intros l; unfold access in Ha; by injection Ha as <- _).
  assert (Hvl : forall l, vw_loc v' l = vw_loc v l) by (intros l; unfold access in Ha; by injection Ha as _ <-).
  assert (Hsl : forall c, slot_last m' c = slot_last m c) by (intros c; unfold slot_last; by rewrite Ho).
  assert (Hpush : pushes (trace ++ []) = pushes trace) by (by rewrite app_nil_r).
  eapply step_inv; [exact Hi|..]; rewrite ?Hpush.
  - exact Hr'.
  - split; [intros l; by rewrite Ho|intros c; specialize (Hv c); unfold version in Hv; destruct (decide _); lia|done|done].
  - assert (Hvc : forall c, vw_cell v' c = if decide (pos mod N = c) then mm_version m' c else vw_cell v c).
    { intros c. unfold access in Ha. injection Ha as <- <-. cbn. destruct (decide (pos mod N = c)) as [<-|];
        by rewrite ?fn_lookup_insert, ?fn_lookup_insert_ne. }
    split; [|intros l; rewrite Hvl, Ho; apply (ti_locs _ _ _ _ _ Ht)|split].
    + intros c. rewrite Hvc. destruct (decide _); [done|]. pose proof (ti_cells _ _ _ _ _ Ht c). specialize (Hv c).
      rewrite decide_False in Hv by done. unfold version in Hv. lia.
    + split; rewrite ?Hsl, ?Hvl, ?Hv, ?Hvc; try done; rewrite ?decide_True by done; [lia|done].
    + destruct op; [done|]. cbn [op_result]. symmetry. rewrite (position_turn pos) at 1. apply (ri_content _ _ _ Hr); [done|].
      rewrite Hve. unfold ready_index. cbn. lia.
  - intros t' op' pos' Hne Ho'. split; [apply Hsl|]. specialize (Hv (pos' mod N)). rewrite decide_False in Hv; [unfold version in Hv; lia|].
    intros He. apply Hne. symmetry. eapply (one_owner _ _ t t'); [exact Hi|cbn; by rewrite Hth|exact Ho'|done].
  - intros t' op1 op' pos' Hne [= <- <-] Ho' Hs. apply Hne. symmetry. eapply (qi_owner _ _ Hi t t'); [cbn; by rewrite Hth|exact Ho'|done].
  - intros owed Hf Ho'. exists owed. rewrite app_nil_r. split; [done|]. split; [|done]. rewrite Ho', Hth. by destruct op.
Qed.

Lemma publish_mpmc_inv m threads trace d t op pos result v :
  mpmc_inv (MkMpmc m threads trace) d -> small (pushes trace) -> threads t = (MPublish op pos result, v) ->
  let '(m', v') := store_release (Sequence (pos mod N)) (op_publishes N op pos) m v in
  mpmc_inv (MkMpmc m' (<[t := (MIdle, v')]> threads) (trace ++ [Returns t op result])) d.
Proof.
  intros Hi Hb Hth. pose proof (qi_ring _ _ Hi) as Hr. cbn in Hr. pose proof (qi_thread _ _ Hi t) as Ht. cbn in Ht. rewrite Hth in Ht. cbn in Ht.
  destruct (ti_pc _ _ _ _ _ Ht) as [Hh ->]. pose proof (publish_ring _ _ _ _ _ _ Hr Hh Hb (ti_cells _ _ _ _ _ Ht) (ti_locs _ _ _ _ _ Ht)) as Hr'.
  cbn [store_release fst] in *. set (m' := append_message _ _ _) in *.
  assert (Hpush : pushes (trace ++ [Returns t op match op with TryPush _ => None | TryPop => pushes trace !! Z.to_nat pos end]) = pushes trace)
    by (rewrite pushes_app; apply app_nil_r).
  eapply step_inv; [exact Hi|..]; rewrite ?Hpush.
  - exact Hr'.
  - split; try done. intros l. unfold m'. rewrite length_append. lia.
  - split; [apply (ti_cells _ _ _ _ _ Ht)| |done]. intros l. unfold m'. rewrite length_append. pose proof (ti_locs _ _ _ _ _ Ht l).
    destruct (decide (Sequence (pos mod N) = l)) as [<-|]; [rewrite see_here|rewrite see_there by done]; lia.
  - intros t' op' pos' Hne Ho'. split; [|done]. unfold slot_last, m'. rewrite length_append, decide_False; [lia|].
    intros [= He]. apply Hne. symmetry. eapply (one_owner _ _ t t'); [exact Hi|cbn; by rewrite Hth|exact Ho'|done].
  - done.
  - intros owed Hf Ho'. rewrite Hth in Ho'. pose proof (ho_pos _ _ _ _ _ _ _ Hh) as Hp. pose proof (ri_bounds _ _ _ Hr). destruct op; cbn in Ho', Hp.
    + exists owed. split; [by apply FifoPushed|]. by split.
    + destruct (lookup_lt_is_Some_2 (pushes trace) (Z.to_nat pos)) as [x Hx]; [lia|]. unfold owed_by in Ho'. cbn in Ho'. rewrite Hx in *.
      exists (<[t := None]> owed). split; [by apply FifoPopped|]. split; [by rewrite fn_lookup_insert|]. intros t' Hne. by rewrite fn_lookup_insert_ne.
Qed.

Lemma mpmc_preserves m threads trace d t m' pc' v' events :
  mpmc_inv (MkMpmc m threads trace) d -> small (pushes trace) ->
  mpmc_thread_step N t m (threads t).1 (threads t).2 m' pc' v' events ->
  exists d', mpmc_inv (MkMpmc m' (<[t := (pc', v')]> threads) (trace ++ events)) d'.
Proof.
  intros Hi Hb Hs. destruct (threads t) as [pc v] eqn:Hth. cbn in Hs. pose proof (qi_ring _ _ Hi) as Hr. cbn in Hr.
  pose proof (qi_thread _ _ Hi t) as Ht. cbn in Ht. rewrite Hth in Ht. cbn in Ht.
  assert (Hquiet : forall pc1 v1 ev, pushes ev = [] -> owns pc = None -> owns pc1 = None -> thread_inv m (pushes trace) d pc1 v1 ->
    (forall queue owed, fifo N trace queue owed -> fifo N (trace ++ ev) queue owed) ->
    exists d', mpmc_inv (MkMpmc m (<[t := (pc1, v1)]> threads) (trace ++ ev)) d').
  { intros pc1 v1 ev He Ho Ho1 Ht1 Hf. exists d. apply quiet_inv; try done. by rewrite Hth. }
  assert (Hnil : forall queue owed, fifo N trace queue owed -> fifo N (trace ++ []) queue owed) by (intros; by rewrite app_nil_r).
  pose proof (ti_cells _ _ _ _ _ Ht) as Hcells. pose proof (ti_locs _ _ _ _ _ Ht) as Hlocs.
  destruct Hs as [op v|op v pos v' Hl|op pos v seq v' Hl|op pos seq v Hd|op pos seq v Hd|op pos seq v Hd|op pos v m' v' Hex|op pos v pos' v' Hl
    |op pos v moved|op pos result v].
  - by apply Hquiet.
  - destruct (loads_counter _ _ _ _ _ _ _ _ Hr Ht Hl) as (? & ? & ?). by apply Hquiet.
  - rewrite mpmc_slot_mod in Hl. destruct (loads_sequence _ _ _ _ _ _ _ _ Hr Ht (slot_range pos) Hl) as (Hx & ? & ?). apply Hquiet; try done.
    split; [done|done|]. split; [apply (ti_pc _ _ _ _ _ Ht)|done].
  - destruct (compare_positions _ _ _ _ _ _ _ Hr Ht Hb) as (i & Hi' & He & _). rewrite Hd in He. apply Hquiet; try done. split; [done|done|].
    split; [apply (ti_pc _ _ _ _ _ Ht)|]. enough (i = ready_index op pos) as <- by done. apply (sequence_inj (pos mod N)). rewrite sequence_ready. lia.
  - apply Hquiet; try done. intros. by apply FifoGivesUp.
  - by apply Hquiet.
  - exists (d + side op). by apply (reserve_inv m threads trace d t op pos v).
  - destruct (loads_counter _ _ _ _ _ _ _ _ Hr Ht Hl) as (? & ? & ?). by apply Hquiet.
  - exists d. rewrite mpmc_slot_mod. by apply (access_inv m threads trace d t op pos v moved).
  - exists d. rewrite mpmc_slot_mod. by apply (publish_mpmc_inv m threads trace d t op pos result v).
Qed.

Lemma mpmc_new_inv content : mpmc_inv (mpmc_new content) 0.
Proof.
  pose proof ring_two. split; cbn -[Z.pow].
  - split; cbn -[Z.pow]; try done; try lia.
    + by intros [].
    + intros op i msg Hi. apply list_lookup_singleton_Some in Hi as [-> <-]. by destruct op.
    + intros c i msg Hc Hi. apply list_lookup_singleton_Some in Hi as [-> <-]. cbn. split_and!; [|done|lia]. change (Z.of_nat 0) with (2 * 0). rewrite sequence_even. lia.
    + intros c i msg Hi. apply list_lookup_singleton_Some in Hi as [-> <-]. split; [done|]. intros l. cbn. lia.
    + unfold pushes. cbn [omap list_omap length]. lia.
    + intros c a Hc Ha. unfold slot_last in Ha. cbn in Ha. assert (a = 0) as -> by lia. split; [lia|done].
    + intros c a Hc Ha. unfold slot_last in Ha. cbn in Ha. lia.
    + intros c a Hc Hv. unfold version in Hv. cbn in Hv. lia.
  - intros t. split; [done|intros l; cbn; lia|done].
  - done.
  - exists (fun _ => None). split; [apply FifoNew|done].
Qed.

Lemma small_before trace events : small (pushes (trace ++ events)) -> small (pushes trace).
Proof. unfold small. rewrite pushes_app, length_app. lia. Qed.

Lemma mpmc_reachable content s :
  rtc (mpmc_step N) (mpmc_new content) s -> small (pushes (mq_trace s)) -> exists d, mpmc_inv s d.
Proof.
  revert s. apply (rtc_ind_r (fun s => small (pushes (mq_trace s)) -> exists d, mpmc_inv s d)); [intros _; exists 0; apply mpmc_new_inv|].
  intros s s' _ [t m threads trace m' pc' v' events Hs] IH Hb. cbn in *. apply small_before in Hb. destruct (IH Hb) as [d Hi].
  by eapply mpmc_preserves.
Qed.

Lemma mpmc_defined s d : mpmc_inv s d -> small (pushes (mq_trace s)) -> ~ mpmc_undefined N s.
Proof.
  intros Hi Hb [t Hu]. pose proof (qi_thread _ _ Hi t) as Ht. pose proof (qi_ring _ _ Hi) as Hr.
  destruct (mq_threads s t) as [[|op|op pos|op pos seq|op pos|op pos|op pos r] v]; try done; cbn in Ht.
  - destruct (compare_positions _ _ _ _ _ _ _ Hr Ht Hb) as (i & _ & He & Hlo & Hhi). apply Hu. rewrite He. unfold i_range.
    change (2 ^ (64 - 1)) with (2 ^ 63). lia.
  - destruct (ti_pc _ _ _ _ _ Ht). unfold races in Hu. by rewrite mpmc_slot_mod in Hu.
  - destruct (ti_pc _ _ _ _ _ Ht) as [[] _]. unfold unordered in Hu. rewrite mpmc_slot_mod in Hu. unfold slot_last in *. lia.
Qed.

(** No thread waits for another within a step. *)
Lemma mpmc_progress s d t : mpmc_inv s d ->
  (mq_threads s t).1 = MIdle \/
  exists m' pc v events, mpmc_thread_step N t (mq_memory s) (mq_threads s t).1 (mq_threads s t).2 m' pc v events.
Proof.
  intros Hi. pose proof (qi_thread _ _ Hi t) as [_ Hl _].
  assert (Hload : forall l, exists i msg, (vw_loc (mq_threads s t).2 l <= i)%nat /\ mm_order (mq_memory s) l !! i = Some msg).
  { intros l. destruct (lookup_lt_is_Some_2 (mm_order (mq_memory s) l) _ (Hl l)) as [msg Hm]. by eexists _, msg. }
  destruct (mq_threads s t) as [[|op|op pos|op pos seq|op pos|op pos|op pos r] v]; cbn in *; [by left|right..].
  - destruct (Hload (op_counter op)) as (i & msg & ? & ?). do 4 eexists. apply LoadPos. by econstructor.
  - destruct (Hload (Sequence (mpmc_slot N pos))) as (i & msg & ? & ?). do 4 eexists. apply LoadSequence. by econstructor.
  - destruct (Z.lt_trichotomy (mpmc_diff seq (op_awaits op pos)) 0) as [?|[?|?]]; do 4 eexists; [by apply TurnsBack|by apply Ready|by apply Overtaken].
  - destruct (Hload (op_counter op)) as (i & msg & ? & ?). do 4 eexists. apply NotReserved. by econstructor.
  - do 4 eexists. apply (Accesses N t _ op pos v (mm_content (mq_memory s) 0)).
  - do 4 eexists. apply (Publishes N t _ op pos r v).
Qed.
End Mpmc.

(** C26. The queue of many producers and consumers refines a bounded queue: whatever its threads do, and
    whatever stale positions and sequences their loads give, what they have done is a trace of the queue
    whose operations take effect when they reserve their position, so that each value is popped once, by
    the thread that took its place, in the order of the places, and no more than its capacity is held.
    No access to a cell races, no store is unordered and no subtraction of positions overflows, for fewer
    than 2^63 pushes; no thread is ever stuck. *)
Theorem ring_refines_fifo {T} k (content : Z -> T) s
  (Hk : 1 <= k) (Hrun : rtc (mpmc_step (2 ^ k)) (mpmc_new content) s)
  (Hfew : Z.of_nat (length (pushes (mq_trace s))) + 2 ^ k < 2 ^ 63) :
  (exists queue owed, fifo (2 ^ k) (mq_trace s) queue owed /\ Z.of_nat (length queue) <= 2 ^ k) /\
  ~ mpmc_undefined (2 ^ k) s /\
  forall t, (mq_threads s t).1 = MIdle \/
    exists m' pc v events, mpmc_thread_step (2 ^ k) t (mq_memory s) (mq_threads s t).1 (mq_threads s t).2 m' pc v events.
Proof.
  destruct (mpmc_reachable k Hk content s Hrun Hfew) as [d Hi]. split_and!.
  - destruct (qi_fifo _ _ _ Hi) as (owed & Hf & _). do 2 eexists. split; [exact Hf|]. rewrite length_drop.
    pose proof (ri_bounds _ _ _ _ (qi_ring _ _ _ Hi)). lia.
  - by apply (mpmc_defined k Hk s d).
  - intros t. by apply (mpmc_progress k s d).
Qed.

(** The queue of a capacity can do a trace. *)
Definition mpmc_trace_of {T} capacity (content : Z -> T) trace : Prop :=
  exists s, rtc (mpmc_step capacity) (mpmc_new content) s /\ mq_trace s = trace.

Ltac thread_goes t step := eapply rtc_l; [apply (MpmcStep _ t); step|vm_compute].

(** One push. *)
Lemma one_push : mpmc_trace_of 2 (fun _ => 0) [TakesPlace 0%nat (TryPush 10); Returns 0%nat (TryPush 10) None].
Proof.
  eexists. split.
  - thread_goes 0%nat ltac:(apply (Begin _ _ _ (TryPush 10))).
    thread_goes 0%nat ltac:(apply LoadPos, (LoadRelaxed _ _ _ 0); [vm_compute; lia|reflexivity]).
    thread_goes 0%nat ltac:(apply LoadSequence, (LoadAcquire _ _ _ 0); [vm_compute; lia|reflexivity]).
    thread_goes 0%nat ltac:(apply Ready; reflexivity).
    thread_goes 0%nat ltac:(eapply Reserved, Exchange; reflexivity).
    thread_goes 0%nat ltac:(apply (Accesses 2 0 _ (TryPush 10) 0 _ 0)).
    thread_goes 0%nat ltac:(apply (Publishes 2)). apply rtc_refl.
  - reflexivity.
Qed.

Lemma ring_refines_fifo_witness : exists s,
  mq_trace s = [TakesPlace 0%nat (TryPush 10); Returns 0%nat (TryPush 10) None] /\
  exists queue owed, fifo (2 ^ 1) (mq_trace s) queue owed /\ Z.of_nat (length queue) <= 2 ^ 1.
Proof.
  destruct one_push as (s & Hrun & Htrace). exists s. split; [exact Htrace|]. change 2 with (2 ^ 1) in Hrun.
  assert (Hfew : Z.of_nat (length (pushes (mq_trace s))) + 2 ^ 1 < 2 ^ 63) by (rewrite Htrace; vm_compute; reflexivity).
  exact (proj1 (ring_refines_fifo 1 (fun _ => 0) s (Z.le_refl 1) Hrun Hfew)).
Defined.

(** A pop answers that the queue is empty although a push has returned before it began and nothing has
    been popped: another push, which took its place before, has not written its cell. *)
Theorem pop_misses_a_push :
  mpmc_trace_of 2 (fun _ => 0)
    [TakesPlace 0%nat (TryPush 10); TakesPlace 1%nat (TryPush 11); Returns 1%nat (TryPush 11) None; GivesUp 2%nat TryPop].
Proof.
  eexists. split.
  - thread_goes 0%nat ltac:(apply (Begin _ _ _ (TryPush 10))).
    thread_goes 0%nat ltac:(apply LoadPos, (LoadRelaxed _ _ _ 0); [vm_compute; lia|reflexivity]).
    thread_goes 0%nat ltac:(apply LoadSequence, (LoadAcquire _ _ _ 0); [vm_compute; lia|reflexivity]).
    thread_goes 0%nat ltac:(apply Ready; reflexivity).
    thread_goes 0%nat ltac:(eapply Reserved, Exchange; reflexivity).
    thread_goes 1%nat ltac:(apply (Begin _ _ _ (TryPush 11))).
    thread_goes 1%nat ltac:(apply LoadPos, (LoadRelaxed _ _ _ 1); [vm_compute; lia|reflexivity]).
    thread_goes 1%nat ltac:(apply LoadSequence, (LoadAcquire _ _ _ 0); [vm_compute; lia|reflexivity]).
    thread_goes 1%nat ltac:(apply Ready; reflexivity).
    thread_goes 1%nat ltac:(eapply Reserved, Exchange; reflexivity).
    thread_goes 1%nat ltac:(apply (Accesses 2 1 _ (TryPush 11) 1 _ 0)).
    thread_goes 1%nat ltac:(apply (Publishes 2)).
    thread_goes 2%nat ltac:(apply (Begin _ _ _ TryPop)).
    thread_goes 2%nat ltac:(apply LoadPos, (LoadRelaxed _ _ _ 0); [vm_compute; lia|reflexivity]).
    thread_goes 2%nat ltac:(apply LoadSequence, (LoadAcquire _ _ _ 0); [vm_compute; lia|reflexivity]).
    thread_goes 2%nat ltac:(apply TurnsBack; reflexivity).
    apply rtc_refl.
  - reflexivity.
Qed.
