(* ===== verification/Reactor.v ===== *)
(** * The reactors

    Models [src/src/reactor/]: the timers of [periodic_timers.cpp], the queue of ready coroutines of
    [scheduler.hpp], the mailbox of [cross_core.cpp], [call_on] of [cross_core_call.hpp] and the loop of
    [reactor.cpp], for a pool of cores whose steps interleave.  A coroutine is what it does until it
    suspends; the inboxes are the bounded queues that SpscSafety.v proves of [SpscQueue]. *)
From Stdlib Require Import ZArith Lia.
From stdpp Require Import base list relations.
From S2P Require Import Prelude.
#[local] Open Scope Z_scope.

(** ** Periodic timers *)

Section Timers.
Context {S : Type}.

Record Timer := MkTimer {
  ti_id : Z;
  ti_interval : Z;
  ti_next_due : Z;
  ti_callback : Z -> S -> S;
}.

Record PeriodicTimers := MkPeriodicTimers { pt_timers : list Timer; pt_next_id : Z }.

Definition no_timers : PeriodicTimers := MkPeriodicTimers [] 1.

Definition timer_add (now interval : Z) (callback : Z -> S -> S) (t : PeriodicTimers) : Z * PeriodicTimers :=
  (pt_next_id t, MkPeriodicTimers (pt_timers t ++ [MkTimer (pt_next_id t) interval (now + interval) callback]) (to_u 64 (pt_next_id t + 1))).

Definition timer_cancel (id : Z) (t : PeriodicTimers) : PeriodicTimers :=
  MkPeriodicTimers (filter (fun timer => ti_id timer <> id) (pt_timers t)) (pt_next_id t).

Definition next_deadline (cap : Z) (t : PeriodicTimers) : Z :=
  fold_left (fun earliest timer => Z.min earliest (ti_next_due timer)) (pt_timers t) cap.

(** The loop of [fire_due]: how many fired, and what their callbacks did to the core. *)
Fixpoint fire_loop (now : Z) (timers : list Timer) (s : S) : nat * list Timer * S :=
  match timers with
  | [] => (O, [], s)
  | timer :: rest =>
      if ti_next_due timer <=? now then
        let '(fired, rest', s') := fire_loop now rest (ti_callback timer now s) in
        (Datatypes.S fired, MkTimer (ti_id timer) (ti_interval timer) (now + ti_interval timer) (ti_callback timer) :: rest', s')
      else
        let '(fired, rest', s') := fire_loop now rest s in (fired, timer :: rest', s')
  end.

Definition fire_due (now : Z) (t : PeriodicTimers) (s : S) : nat * PeriodicTimers * S :=
  let '(fired, timers, s') := fire_loop now (pt_timers t) s in (fired, MkPeriodicTimers timers (pt_next_id t), s').
End Timers.
Arguments Timer : clear implicits.
Arguments PeriodicTimers : clear implicits.

(** ** Coroutines *)

Section Reactor.
Context {S R Io : Type}.

(** What a coroutine does next: end, run code of its core, let others run ([yield_to]), spawn another,
    call another core ([co_await call_on]) or wait for an operation of the proactor. *)
Inductive Coro :=
  | CoReturn
  | CoRun (code : S -> S * Coro)
  | CoYield (next : Coro)
  | CoSpawn (child next : Coro)
  | CoCall (target : nat) (fn : S -> S * R) (next : R -> Coro)
  | CoAwait (op : Io) (next : R -> Coro).

(** Where a coroutine is once it has given the thread back. *)
Inductive Suspended :=
  | Returned
  | Yielded (next : Coro)
  | Calling (target : nat) (fn : S -> S * R) (next : R -> Coro)
  | Awaiting (op : Io) (next : R -> Coro).

(** [handle.resume()] on the core [self]: until it suspends, with what it spawns on the way.  A call to
    its own core does not suspend ([await_ready]). *)
Fixpoint resume (self : nat) (coro : Coro) (s : S) : S * list Coro * Suspended :=
  match coro with
  | CoReturn => (s, [], Returned)
  | CoRun code => match code s with (s', next) => resume self next s' end
  | CoYield next => (s, [], Yielded next)
  | CoSpawn child next => let '(s', children, end_) := resume self next s in (s', child :: children, end_)
  | CoCall target fn next =>
      if (target =? self)%nat then match fn s with (s', r) => resume self (next r) s' end else (s, [], Calling target fn next)
  | CoAwait op next => (s, [], Awaiting op next)
  end.

(** [Message::work]: the two halves of a call, and a coroutine to spawn. *)
Inductive Work :=
  | WorkCall (from : nat) (fn : S -> S * R) (next : R -> Coro)
  | WorkResume (coro : Coro)
  | WorkSpawn (coro : Coro).

(** Where a core is in [run] and [poll_once]; the last three are the shutdown. *)
Inductive Stage := Ready1 | Draining (inbox : nat) | Ready2 | Waiting | Firing | Ready3 | Last1 | LastDraining (inbox : nat) | Last2 | Stopped.

(** A [submit_to] under way: before the push, and between the push and the wake. *)
Inductive Posting := ToPush (target : nat) (work : Work) | ToWake (target : nat).

Record Core := MkCore {
  co_state : S;
  co_ready : list Coro;
  co_inboxes : list (list Work);
  co_waiting : list (Io * (R -> Coro));
  co_timers : PeriodicTimers S;
  co_stage : Stage;
  co_posting : option Posting;
  co_busy : bool;
  co_woken : bool;
  co_stopping : bool;
}.

Definition new_core (n : nat) (s : S) : Core :=
  MkCore s [] (replicate n []) [] no_timers Ready1 None false false false.

Definition with_stage (stage : Stage) (k : Core) : Core :=
  MkCore (co_state k) (co_ready k) (co_inboxes k) (co_waiting k) (co_timers k) stage (co_posting k) (co_busy k) (co_woken k) (co_stopping k).
Definition with_posting (posting : option Posting) (k : Core) : Core :=
  MkCore (co_state k) (co_ready k) (co_inboxes k) (co_waiting k) (co_timers k) (co_stage k) posting (co_busy k) (co_woken k) (co_stopping k).
Definition with_ready (ready : list Coro) (k : Core) : Core :=
  MkCore (co_state k) ready (co_inboxes k) (co_waiting k) (co_timers k) (co_stage k) (co_posting k) true (co_woken k) (co_stopping k).
Definition with_inbox (i : nat) (works : list Work) (k : Core) : Core :=
  MkCore (co_state k) (co_ready k) (<[i := works]> (co_inboxes k)) (co_waiting k) (co_timers k) (co_stage k) (co_posting k) true (co_woken k) (co_stopping k).
Definition with_waiting (waiting : list (Io * (R -> Coro))) (k : Core) : Core :=
  MkCore (co_state k) (co_ready k) (co_inboxes k) waiting (co_timers k) (co_stage k) (co_posting k) (co_busy k) (co_woken k) (co_stopping k).

(** [Reactor::spawn]. *)
Definition spawn (coro : Coro) (k : Core) : Core :=
  MkCore (co_state k) (co_ready k ++ [coro]) (co_inboxes k) (co_waiting k) (co_timers k) (co_stage k) (co_posting k) (co_busy k) (co_woken k) (co_stopping k).

(** [Reactor::every]. *)
Definition every (now interval : Z) (callback : Z -> S -> S) (k : Core) : Z * Core :=
  let '(id, timers) := timer_add now interval callback (co_timers k) in
  (id, MkCore (co_state k) (co_ready k) (co_inboxes k) (co_waiting k) timers (co_stage k) (co_posting k) (co_busy k) (co_woken k) (co_stopping k)).

(** The coroutine runs on the core [c] until it suspends; where it suspends decides what the core has to
    do: reschedule it, post its call or remember what it waits for. *)
Definition run_on (c : nat) (coro : Coro) (k : Core) : Core :=
  let '(s', children, end_) := resume c coro (co_state k) in
  let '(resched, waiting, posting) :=
    match end_ with
    | Returned => ([], [], None)
    | Yielded next => ([next], [], None)
    | Calling target fn next => ([], [], Some (ToPush target (WorkCall c fn next)))
    | Awaiting op next => ([], [(op, next)], None)
    end in
  MkCore s' (co_ready k ++ children ++ resched) (co_inboxes k) (co_waiting k ++ waiting) (co_timers k) (co_stage k) posting (co_busy k) (co_woken k) (co_stopping k).

(** [run_message] of what arrived from a core. *)
Definition run_work (c : nat) (work : Work) (k : Core) : Core :=
  match work with
  | WorkCall from fn next =>
      let '(s', r) := fn (co_state k) in
      MkCore s' (co_ready k) (co_inboxes k) (co_waiting k) (co_timers k) (co_stage k) (Some (ToPush from (WorkResume (next r)))) (co_busy k) (co_woken k) (co_stopping k)
  | WorkResume coro => run_on c coro k
  | WorkSpawn coro => spawn coro k
  end.

(** What follows a queue of ready coroutines that is empty. *)
Definition after_ready (stage : Stage) (stopping : bool) : option Stage :=
  match stage with
  | Ready1 => Some (Draining O)
  | Ready2 => Some Waiting
  | Ready3 => Some (if stopping then Last1 else Ready1)
  | Last1 => Some (LastDraining O)
  | Last2 => Some Stopped
  | _ => None
  end.

Definition draining (stage : Stage) : option nat :=
  match stage with Draining i | LastDraining i => Some i | _ => None end.

(** The next inbox, or the end of [drain]. *)
Definition after_inbox (n : nat) (stage : Stage) : Stage :=
  match stage with
  | Draining i => if (Datatypes.S i <? n)%nat then Draining (Datatypes.S i) else Ready2
  | LastDraining i => if (Datatypes.S i <? n)%nat then LastDraining (Datatypes.S i) else Last2
  | _ => stage
  end.

(** The end of [wait_completions], which takes the wake; [poll_once] fires the timers then. *)
Definition wait_ends (k : Core) : Core :=
  MkCore (co_state k) (co_ready k) (co_inboxes k) (co_waiting k) (co_timers k) Firing (co_posting k) (co_busy k) false (co_stopping k).

Definition fire_timers (now : Z) (k : Core) : Core :=
  let '(_, timers, s') := fire_due now (co_timers k) (co_state k) in
  MkCore s' (co_ready k) (co_inboxes k) (co_waiting k) timers Ready3 (co_posting k) (co_busy k) (co_woken k) (co_stopping k).

(** A new turn of [run] has no work done. *)
Definition turn_over (stage : Stage) (k : Core) : Core :=
  MkCore (co_state k) (co_ready k) (co_inboxes k) (co_waiting k) (co_timers k) stage (co_posting k) false (co_woken k) (co_stopping k).

Definition wake (k : Core) : Core :=
  MkCore (co_state k) (co_ready k) (co_inboxes k) (co_waiting k) (co_timers k) (co_stage k) (co_posting k) (co_busy k) true (co_stopping k).

Definition stop (k : Core) : Core :=
  MkCore (co_state k) (co_ready k) (co_inboxes k) (co_waiting k) (co_timers k) (co_stage k) (co_posting k) (co_busy k) true true.

(** [try_push] on the inbox of the core [from]. *)
Definition receive (from : nat) (work : Work) (k : Core) : Core :=
  MkCore (co_state k) (co_ready k) (alter (fun inbox => inbox ++ [work]) from (co_inboxes k)) (co_waiting k) (co_timers k) (co_stage k) (co_posting k) (co_busy k) (co_woken k) (co_stopping k).

(** ** The pool *)

Abbreviation Pool := (list Core) (only parsing).

(** Some core has pushed a message to [c] and not woken it yet. *)
Definition about_to_wake (p : Pool) (c : nat) : Prop := exists j k, p !! j = Some k /\ co_posting k = Some (ToWake c).

(** A step of the core [c].  The consumer may find an inbox empty that is not, until it takes the wake of
    who pushed; a producer may find an inbox full that is not ([PostRetries]). *)
Inductive core_step (capacity : nat) (c : nat) : Pool -> Pool -> Prop :=
  | ResumesReady p k coro rest next :
      p !! c = Some k -> co_posting k = None -> co_ready k = coro :: rest -> after_ready (co_stage k) (co_stopping k) = Some next ->
      core_step capacity c p (<[c := run_on c coro (with_ready rest k)]> p)
  | ReadyEmpty p k next :
      p !! c = Some k -> co_posting k = None -> co_ready k = [] -> after_ready (co_stage k) (co_stopping k) = Some next ->
      core_step capacity c p (<[c := if co_stage k is Ready3 then turn_over next k else with_stage next k]> p)
  | Delivers p k i work rest :
      p !! c = Some k -> co_posting k = None -> draining (co_stage k) = Some i -> co_inboxes k !! i = Some (work :: rest) ->
      core_step capacity c p (<[c := run_work c work (with_inbox i rest k)]> p)
  | NextInbox p k i works :
      p !! c = Some k -> co_posting k = None -> draining (co_stage k) = Some i -> co_inboxes k !! i = Some works ->
      works = [] \/ co_woken k = true \/ about_to_wake p c ->
      core_step capacity c p (<[c := with_stage (after_inbox (length (co_inboxes k)) (co_stage k)) k]> p)
  | Completes p k before op next after r :
      p !! c = Some k -> co_posting k = None -> co_stage k = Waiting -> co_waiting k = before ++ (op, next) :: after ->
      core_step capacity c p (<[c := run_on c (next r) (with_waiting (before ++ after) k)]> p)
  | WaitEnds p k :
      p !! c = Some k -> co_posting k = None -> co_stage k = Waiting -> core_step capacity c p (<[c := wait_ends k]> p)
  | Fires p k now :
      p !! c = Some k -> co_posting k = None -> co_stage k = Firing -> core_step capacity c p (<[c := fire_timers now k]> p)
  | PostRetries p k target work :
      p !! c = Some k -> co_posting k = Some (ToPush target work) -> core_step capacity c p (alter wake target p)
  | PostPushes p k target work k' inbox :
      p !! c = Some k -> co_posting k = Some (ToPush target work) ->
      p !! target = Some k' -> co_inboxes k' !! c = Some inbox -> (length inbox < capacity)%nat ->
      core_step capacity c p (alter (receive c work) target (alter (with_posting (Some (ToWake target))) c p))
  | PostWakes p k target :
      p !! c = Some k -> co_posting k = Some (ToWake target) ->
      core_step capacity c p (alter wake target (alter (with_posting None) c p))
  | Stops p : core_step capacity c p (alter stop c p).

Definition pool_step (capacity : nat) (p p' : Pool) : Prop := exists c, core_step capacity c p p'.

(** [create_and_wire]: a core per state, with what each has spawned before it starts. *)
Definition pool_start (cores : list (S * list Coro)) : Pool :=
  (fun '(s, coros) => foldl (fun k coro => spawn coro k) (new_core (length cores) s) coros) <$> cores.

(** [ReactorPool::reactor_for]. *)
Definition reactor_for (p : Pool) (partition : Z) : option Core := p !! Z.to_nat (to_u 64 partition mod Z.of_nat (length p)).
End Reactor.
Arguments Coro : clear implicits.
Arguments Suspended : clear implicits.
Arguments Work : clear implicits.
Arguments Posting : clear implicits.
Arguments Core : clear implicits.
