(* ===== verification/ReactorSafety.v ===== *)
(** * The reactors take turns

    Whatever the pool of Reactor.v does, in whatever order its cores move, its coroutines see one core's
    state at a time, a turn each: the pool refines a machine without threads, queues or wakes.  No core
    sleeps over a message, and two cores may wait for each other for ever. *)
From Stdlib Require Import ZArith Lia.
From stdpp Require Import base list relations.
From S2P Require Import Prelude Reactor.
#[local] Open Scope Z_scope.

(** ** Lists up to order *)

Section Perm.
Context {A : Type}.
Implicit Types (a b l r : list A).

Lemma perm_cancel a l r r' : r ≡ₚ a ++ r' -> l ≡ₚ r' -> a ++ l ≡ₚ r.
Proof. intros -> ->. done. Qed.

Lemma perm_next a b r r' : r ≡ₚ a ++ r' -> b ++ r ≡ₚ a ++ b ++ r'.
Proof. intros ->. apply Permutation_app_swap_app. Qed.

Lemma perm_last a : a ≡ₚ a ++ [].
Proof. by rewrite app_nil_r. Qed.

Lemma cons_app x l : x :: l = [x] ++ l.
Proof. done. Qed.

Lemma concat_insert (ls : list (list A)) i l l' :
  ls !! i = Some l -> exists rest, concat ls ≡ₚ l ++ rest /\ concat (<[i := l']> ls) ≡ₚ l' ++ rest.
Proof.
  revert i. induction ls as [|l0 ls IH]; intros i Hi; [done|]. destruct i as [|i]; cbn in Hi.
  - injection Hi as ->. by exists (concat ls).
  - destruct (IH i Hi) as (rest & H1 & H2). exists (l0 ++ rest). cbn. rewrite H1, H2. split; apply Permutation_app_swap_app.
Qed.

Lemma alter_insert (f : A -> A) l i x : l !! i = Some x -> alter f i l = <[i := f x]> l.
Proof. revert i. induction l as [|y l IH]; intros [|i] H; try done; cbn in *; [by injection H as ->|]. f_equal. by apply IH. Qed.

Lemma alter_none (f : A -> A) l i : l !! i = None -> alter f i l = l.
Proof. revert i. induction l as [|y l IH]; intros [|i] H; try done; cbn in *. f_equal. by apply IH. Qed.

Lemma list_alter_fmap_eq {B} (g : A -> B) (f : A -> A) l i : (forall x, g (f x) = g x) -> g <$> alter f i l = g <$> l.
Proof. intros Hf. revert i. induction l as [|y l IH]; intros [|i]; cbn; [done|done|by rewrite Hf|]. by rewrite IH. Qed.
End Perm.

(** Equality of lists of pieces up to their order. *)
Ltac perm_find := first [apply perm_last | reflexivity | apply perm_next; perm_find].
Ltac perm_go := first [reflexivity | apply perm_last | eapply perm_cancel; [perm_find|]; perm_go | symmetry; apply perm_last].
Ltac perm := rewrite ?app_nil_r, <- ?app_assoc; perm_go.

(** ** Timers *)

Section Timers.
Context {S : Type}.
Implicit Types (timers : list (Timer S)) (t : PeriodicTimers S).

Lemma deadline_fold timers cap :
  let d := fold_left (fun earliest timer => Z.min earliest (ti_next_due timer)) timers cap in
  d <= cap /\ (forall timer, timer ∈ timers -> d <= ti_next_due timer) /\ (d = cap \/ exists timer, timer ∈ timers /\ d = ti_next_due timer).
Proof.
  revert cap. induction timers as [|timer timers IH]; intros cap; cbn; [split_and!; [lia|by intros ? ?%elem_of_nil|by left]|].
  destruct (IH (Z.min cap (ti_next_due timer))) as (Hc & Ht & He). split_and!; [lia| |].
  - intros other [->|Hin]%elem_of_cons; [lia|by apply Ht].
  - destruct He as [He|(other & Hin & He)]; [|right; exists other; split; [by right|done]].
    destruct (Z.min_spec cap (ti_next_due timer)) as [[_ Hm]|[_ Hm]]; [left; lia|]. right. exists timer. split; [by left|lia].
Qed.

(** What [fire_due] leaves: every timer that was due fired once, and none is due. *)
Lemma fire_loop_spec now timers (s : S) :
  let '(fired, timers', _) := fire_loop now timers s in
  fired = length (filter (fun timer => ti_next_due timer <= now) timers) /\ ti_id <$> timers' = ti_id <$> timers /\
  ((forall timer, timer ∈ timers -> 0 < ti_interval timer) -> forall timer, timer ∈ timers' -> now < ti_next_due timer).
Proof.
  revert s. induction timers as [|timer timers IH]; intros s; cbn [fire_loop]; [split_and!; [done|done|by intros ? ? ?%elem_of_nil]|].
  rewrite filter_cons. destruct (Z.leb_spec (ti_next_due timer) now).
  - rewrite decide_True by done. specialize (IH (ti_callback timer now s)). destruct (fire_loop now timers _) as [[fired timers'] s'].
    destruct IH as (-> & Hid & Hdue). split_and!; [done|cbn; by rewrite Hid|]. intros Hpos other [->|Hin]%elem_of_cons.
    + cbn. specialize (Hpos timer (list_elem_of_here _ _)). lia.
    + apply Hdue; [|done]. intros. apply Hpos. by right.
  - rewrite decide_False by lia. specialize (IH s). destruct (fire_loop now timers s) as [[fired timers'] s'].
    destruct IH as (-> & Hid & Hdue). split_and!; [done|cbn; by rewrite Hid|]. intros Hpos other [->|Hin]%elem_of_cons; [done|].
    apply Hdue; [|done]. intros. apply Hpos. by right.
Qed.

(** A core that waits until [next_deadline] is late for no timer, and wakes for one. *)
Lemma deadline_is_on_time now cap t (s : S) : cap <= now -> 
  let '(fired, _, _) := fire_due now t s in fired = O -> next_deadline cap t = cap.
Proof.
  intros Hcap. unfold fire_due, next_deadline. pose proof (fire_loop_spec now (pt_timers t) s) as Hf.
  destruct (fire_loop now (pt_timers t) s) as [[fired timers'] s']. destruct Hf as (-> & _ & _). intros Hz%nil_length_inv.
  destruct (deadline_fold (pt_timers t) cap) as (Hc & _ & [He|(timer & Hin & He)]); [done|]. cbn zeta in *.
  assert (timer ∈ filter (fun timer => ti_next_due timer <= now) (pt_timers t)) as Hbad by (apply list_elem_of_filter; split; [lia|done]).
  rewrite Hz in Hbad. by apply elem_of_nil in Hbad.
Qed.
End Timers.

(** ** The machine of turns *)

Section Turns.
Context {S R Io : Type}.
Abbreviation Coro := (Coro S R Io).
Abbreviation Core := (Core S R Io).
Abbreviation Pool := (list Core).
Implicit Types (p : Pool) (c : nat) (k : Core).

(** A coroutine of a core: it can run there, it calls another core or it waits. *)
Inductive Place :=
  | Here (coro : Coro)
  | Calls (target : nat) (fn : S -> S * R) (next : R -> Coro)
  | Awaits (op : Io) (next : R -> Coro).

Definition susp_places (c : nat) (end_ : Suspended S R Io) : list (nat * Place) :=
  match end_ with
  | Returned => []
  | Yielded next => [(c, Here next)]
  | Calling target fn next => [(c, Calls target fn next)]
  | Awaiting op next => [(c, Awaits op next)]
  end.

Definition run_places (c : nat) (coros : list Coro) : list (nat * Place) := (fun coro => (c, Here coro)) <$> coros.

(** A turn: a coroutine runs on its core until it suspends, the core that is called runs the call, an
    operation completes, or a timer of a core fires.  The coroutines are a multiset. *)
Inductive turn (callbacks : list (list (Z -> S -> S))) : list S * list (nat * Place) -> list S * list (nat * Place) -> Prop :=
  | TurnRuns states places c coro rest s s' children end_ :
      places ≡ₚ (c, Here coro) :: rest -> states !! c = Some s -> resume c coro s = (s', children, end_) ->
      turn callbacks (states, places) (<[c := s']> states, susp_places c end_ ++ run_places c children ++ rest)
  | TurnServes states places c target fn next rest s s' r :
      places ≡ₚ (c, Calls target fn next) :: rest -> states !! target = Some s -> fn s = (s', r) ->
      turn callbacks (states, places) (<[target := s']> states, (c, Here (next r)) :: rest)
  | TurnCompletes states places c op next rest r :
      places ≡ₚ (c, Awaits op next) :: rest -> turn callbacks (states, places) (states, (c, Here (next r)) :: rest)
  | TurnFires states places c s cbs callback now :
      states !! c = Some s -> callbacks !! c = Some cbs -> callback ∈ cbs ->
      turn callbacks (states, places) (<[c := callback now s]> states, places)
  | TurnOrder states places places' : places ≡ₚ places' -> turn callbacks (states, places) (states, places').

(** Where the coroutines of a pool are. *)
Definition work_place (c : nat) (work : Work S R Io) : nat * Place :=
  match work with
  | WorkCall from fn next => (from, Calls c fn next)
  | WorkResume coro => (c, Here coro)
  | WorkSpawn coro => (c, Here coro)
  end.

Definition posting_places (posting : option (Posting S R Io)) : list (nat * Place) :=
  match posting with Some (ToPush target work) => [work_place target work] | _ => [] end.

Definition inbox_places (c : nat) (inboxes : list (list (Work S R Io))) : list (nat * Place) := work_place c <$> concat inboxes.

Definition core_places (c : nat) (k : Core) : list (nat * Place) :=
  run_places c (co_ready k) ++ ((fun '(op, next) => (c, Awaits op next)) <$> co_waiting k) ++
  inbox_places c (co_inboxes k) ++ posting_places (co_posting k).

Fixpoint places_from (c : nat) (p : Pool) : list (nat * Place) :=
  match p with [] => [] | k :: p' => core_places c k ++ places_from (Datatypes.S c) p' end.

Definition pool_turns (p : Pool) : list S * list (nat * Place) := (co_state <$> p, places_from O p).

Definition pool_callbacks (p : Pool) : list (list (Z -> S -> S)) := (fun k => ti_callback <$> pt_timers (co_timers k)) <$> p.

Lemma places_from_core p c k o : p !! c = Some k ->
  exists rest, places_from o p ≡ₚ core_places (o + c)%nat k ++ rest /\
    forall k', places_from o (<[c := k']> p) ≡ₚ core_places (o + c)%nat k' ++ rest.
Proof.
  revert c o. induction p as [|k0 p IH]; intros c o Hc; [done|]. destruct c as [|c]; cbn in Hc.
  - injection Hc as ->. rewrite Nat.add_0_r. by exists (places_from (Datatypes.S o) p).
  - destruct (IH c (Datatypes.S o) Hc) as (rest & Hr & Hi). exists (core_places o k0 ++ rest).
    replace (o + Datatypes.S c)%nat with (Datatypes.S o + c)%nat by lia. cbn. split; [|intros k'; specialize (Hi k')].
    + rewrite Hr. perm.
    + rewrite Hi. perm.
Qed.

Lemma places_core p c k : p !! c = Some k ->
  exists rest, places_from O p ≡ₚ core_places c k ++ rest /\ forall k', places_from O (<[c := k']> p) ≡ₚ core_places c k' ++ rest.
Proof. apply (places_from_core p c k O). Qed.

(** ** What each step does to the turns *)

Lemma run_on_places c coro (k : Core) s' children end_ :
  co_posting k = None -> resume c coro (co_state k) = (s', children, end_) ->
  co_state (run_on c coro k) = s' /\ core_places c (run_on c coro k) ≡ₚ susp_places c end_ ++ run_places c children ++ core_places c k.
Proof.
  intros Hp Hr. unfold run_on, core_places. rewrite Hr, Hp.
  destruct end_ as [|next|target fn next|op next]; (split; [done|]); unfold run_places;
    cbn [co_ready co_waiting co_inboxes co_posting susp_places posting_places]; rewrite ?fmap_app; cbn [fmap list_fmap work_place]; perm.
Qed.

Definition core_callbacks (k : Core) : list (Z -> S -> S) := ti_callback <$> pt_timers (co_timers k).

Lemma same_callbacks p c k k' : p !! c = Some k -> core_callbacks k' = core_callbacks k -> pool_callbacks (<[c := k']> p) = pool_callbacks p.
Proof.
  intros Hc He. unfold pool_callbacks. rewrite list_fmap_insert. fold (core_callbacks k'). rewrite He. apply list_insert_id.
  by rewrite list_lookup_fmap, Hc.
Qed.

Lemma pool_state p c k : p !! c = Some k -> (co_state <$> p) !! c = Some (co_state k).
Proof. intros Hc. by rewrite list_lookup_fmap, Hc. Qed.

(** A change of a core that its coroutines do not see. *)
Lemma quiet_turns p c k k' : p !! c = Some k -> co_state k' = co_state k -> core_places c k' ≡ₚ core_places c k ->
  core_callbacks k' = core_callbacks k ->
  rtc (turn (pool_callbacks p)) (pool_turns p) (pool_turns (<[c := k']> p)) /\ pool_callbacks (<[c := k']> p) = pool_callbacks p.
Proof.
  intros Hc Hs Hpl Hcb. split; [|by eapply same_callbacks]. apply rtc_once. unfold pool_turns. rewrite list_fmap_insert, Hs.
  rewrite (list_insert_id (co_state <$> p)) by (by apply pool_state). apply TurnOrder.
  destruct (places_core p c k Hc) as (rest & -> & ->). by rewrite Hpl.
Qed.

(** A coroutine runs on its core: [k0] is the core without it. *)
Lemma run_turns p c k k0 coro : p !! c = Some k -> core_places c k ≡ₚ (c, Here coro) :: core_places c k0 ->
  co_state k0 = co_state k -> co_posting k0 = None -> core_callbacks k0 = core_callbacks k ->
  rtc (turn (pool_callbacks p)) (pool_turns p) (pool_turns (<[c := run_on c coro k0]> p)) /\
  pool_callbacks (<[c := run_on c coro k0]> p) = pool_callbacks p.
Proof.
  intros Hc Hpl Hs Hp Hcb. destruct (resume c coro (co_state k0)) as [[s' children] end_] eqn:Hr.
  destruct (run_on_places c coro k0 s' children end_ Hp Hr) as [Hst Hpl'].
  assert (Hcb' : core_callbacks (run_on c coro k0) = core_callbacks k).
  { rewrite <- Hcb. unfold run_on. rewrite Hr. by destruct end_. }
  split; [|by eapply same_callbacks]. destruct (places_core p c k Hc) as (rest & Hin & Hins). unfold pool_turns. rewrite list_fmap_insert, Hst.
  eapply rtc_l; [|apply rtc_once, TurnOrder].
  - apply (TurnRuns _ _ _ c coro (core_places c k0 ++ rest) (co_state k)); [|by apply pool_state|by rewrite <- Hs]. by rewrite Hin, Hpl.
  - rewrite Hins, Hpl'. by rewrite <- !app_assoc.
Qed.

(** The core [c] serves a call: [k0] is the core without it, and [k'] after it. *)
Lemma serve_turns p c k k' from fn next s' r places : p !! c = Some k -> core_places c k ≡ₚ (from, Calls c fn next) :: places ->
  fn (co_state k) = (s', r) -> co_state k' = s' -> core_places c k' ≡ₚ (from, Here (next r)) :: places -> core_callbacks k' = core_callbacks k ->
  rtc (turn (pool_callbacks p)) (pool_turns p) (pool_turns (<[c := k']> p)) /\ pool_callbacks (<[c := k']> p) = pool_callbacks p.
Proof.
  intros Hc Hpl Hf Hs Hpl' Hcb. split; [|by eapply same_callbacks]. destruct (places_core p c k Hc) as (rest & Hin & Hins).
  unfold pool_turns. rewrite list_fmap_insert, Hs. eapply rtc_l; [|apply rtc_once, TurnOrder].
  - apply (TurnServes _ _ _ from c fn next (places ++ rest) (co_state k) s' r); [|by apply pool_state|done]. by rewrite Hin, Hpl.
  - by rewrite Hins, Hpl'.
Qed.

(** An inbox without its first work. *)
Lemma inbox_work c k i work rest : co_inboxes k !! i = Some (work :: rest) ->
  core_places c k ≡ₚ work_place c work :: core_places c (with_inbox i rest k).
Proof.
  intros Hi. unfold core_places, inbox_places. cbn [with_inbox co_ready co_waiting co_inboxes co_posting].
  destruct (concat_insert (co_inboxes k) i (work :: rest) rest Hi) as (others & -> & ->). rewrite !fmap_app, fmap_cons.
  rewrite (cons_app (work_place c work) (work_place c <$> rest)), (cons_app _ (run_places _ _ ++ _)). perm.
Qed.

Lemma deliver_turns p c k i work rest : p !! c = Some k -> co_posting k = None -> co_inboxes k !! i = Some (work :: rest) ->
  rtc (turn (pool_callbacks p)) (pool_turns p) (pool_turns (<[c := run_work c work (with_inbox i rest k)]> p)) /\
  pool_callbacks (<[c := run_work c work (with_inbox i rest k)]> p) = pool_callbacks p.
Proof.
  intros Hc Hp Hi. pose proof (inbox_work c k i work rest Hi) as Hpl. destruct work as [from fn next|coro|coro]; cbn [run_work work_place] in *.
  - destruct (fn _) as [s' r] eqn:Hf. eapply serve_turns; [exact Hc|exact Hpl|exact Hf|done| |done].
    unfold core_places. cbn [co_ready co_waiting co_inboxes co_posting posting_places work_place with_inbox]. rewrite Hp. cbn [posting_places].
    rewrite (cons_app _ (run_places _ _ ++ _)). perm.
  - by eapply run_turns.
  - eapply quiet_turns; [exact Hc|done| |done]. rewrite Hpl. unfold core_places, spawn, run_places.
    cbn [co_ready co_waiting co_inboxes co_posting with_inbox]. rewrite fmap_app. cbn [fmap list_fmap].
    rewrite (cons_app (c, Here coro) (_ ++ _)). perm.
Qed.

Lemma complete_turns p c k before op next after r : p !! c = Some k -> co_posting k = None -> co_waiting k = before ++ (op, next) :: after ->
  rtc (turn (pool_callbacks p)) (pool_turns p) (pool_turns (<[c := run_on c (next r) (with_waiting (before ++ after) k)]> p)) /\
  pool_callbacks (<[c := run_on c (next r) (with_waiting (before ++ after) k)]> p) = pool_callbacks p.
Proof.
  intros Hc Hp Hw. set (k0 := with_waiting (before ++ after) k).
  assert (Hpl : core_places c k ≡ₚ (c, Awaits op next) :: core_places c k0).
  { unfold core_places, k0. cbn [co_ready co_waiting co_inboxes co_posting with_waiting]. rewrite Hw, !fmap_app, fmap_cons.
    rewrite (cons_app (c, Awaits op next) ((fun '(op, next) => (c, Awaits op next)) <$> after)), (cons_app _ (run_places _ _ ++ _)). perm. }
  set (k1 := with_ready (next r :: co_ready k0) k0).
  destruct (places_core p c k Hc) as (rest & Hin & Hins).
  destruct (run_turns (<[c := k1]> p) c k1 k0 (next r)) as [Hrun Hcb]; [apply list_lookup_insert_eq; by eapply lookup_lt_Some|done|done|done|done|].
  rewrite list_insert_insert_eq in Hrun, Hcb.
  assert (Hcb1 : pool_callbacks (<[c := k1]> p) = pool_callbacks p) by (by apply (same_callbacks p c k)). rewrite Hcb1 in Hrun, Hcb. split; [|done].
  etrans; [|exact Hrun]. eapply rtc_l; [eapply (TurnCompletes _ _ _ c op next (core_places c k0 ++ rest) r)|apply rtc_once].
  - by rewrite Hin, Hpl.
  - unfold pool_turns. rewrite list_fmap_insert, (list_insert_id (co_state <$> p)) by apply (pool_state p c k Hc). apply TurnOrder. by rewrite Hins.
Qed.

Lemma fire_loop_turns cbs_all cbs now places c timers :
  cbs_all !! c = Some cbs -> (forall timer, timer ∈ timers -> ti_callback timer ∈ cbs) ->
  forall states s, states !! c = Some s ->
  let '(_, timers', s') := fire_loop now timers s in
  rtc (turn cbs_all) (states, places) (<[c := s']> states, places) /\ ti_callback <$> timers' = ti_callback <$> timers.
Proof.
  intros Hall Hin. induction timers as [|timer timers IH]; intros states s Hs; cbn.
  - rewrite list_insert_id by done. by split.
  - assert (Hin' : forall timer, timer ∈ timers -> ti_callback timer ∈ cbs) by (intros; apply Hin; by right).
    destruct (ti_next_due timer <=? now).
    + specialize (IH Hin' (<[c := ti_callback timer now s]> states) (ti_callback timer now s)).
      destruct (fire_loop now timers (ti_callback timer now s)) as [[n timers'] s'].
      destruct IH as [Hr He]; [apply list_lookup_insert_eq; by eapply lookup_lt_Some|]. rewrite list_insert_insert_eq in Hr.
      split; [|cbn; by rewrite He]. eapply rtc_l; [|exact Hr]. eapply TurnFires; [done|done|]. apply Hin. left.
    + specialize (IH Hin' states s Hs). destruct (fire_loop now timers s) as [[n timers'] s']. destruct IH as [Hr He].
      split; [done|]. cbn. by rewrite He.
Qed.

Lemma fire_turns p c k now : p !! c = Some k ->
  rtc (turn (pool_callbacks p)) (pool_turns p) (pool_turns (<[c := fire_timers now k]> p)) /\
  pool_callbacks (<[c := fire_timers now k]> p) = pool_callbacks p.
Proof.
  intros Hc. unfold fire_timers, fire_due. destruct (places_core p c k Hc) as (rest & Hin & Hins).
  assert (Hcbs : pool_callbacks p !! c = Some (core_callbacks k)) by (unfold pool_callbacks; by rewrite list_lookup_fmap, Hc).
  pose proof (fire_loop_turns _ _ now (places_from O p) c (pt_timers (co_timers k)) Hcbs) as Hf.
  specialize (Hf (fun timer Ht => list_elem_of_fmap_2 _ _ _ Ht) (co_state <$> p) (co_state k) (pool_state p c k Hc)).
  destruct (fire_loop _ _ _) as [[n timers'] s']. destruct Hf as [Hr He]. split; [|by apply (same_callbacks p c k)].
  etrans; [exact Hr|]. unfold pool_turns. rewrite list_fmap_insert. apply rtc_once, TurnOrder. by rewrite Hin, Hins.
Qed.

(** Waking a core, and stopping it, its coroutines do not see. *)
Lemma alter_turns p c (f : Core -> Core) : (forall k, co_state (f k) = co_state k) -> (forall k, core_places c (f k) = core_places c k) ->
  (forall k, core_callbacks (f k) = core_callbacks k) ->
  rtc (turn (pool_callbacks p)) (pool_turns p) (pool_turns (alter f c p)) /\ pool_callbacks (alter f c p) = pool_callbacks p.
Proof.
  intros Hs Hp Hcb. destruct (p !! c) as [k|] eqn:Hc; [|by rewrite alter_none].
  rewrite (alter_insert f p c k Hc). by apply (quiet_turns p c k); rewrite ?Hp.
Qed.

(** A message moves from the core that posts it to the inbox of its target. *)
Lemma push_places p c k target work k' inbox :
  p !! c = Some k -> co_posting k = Some (ToPush target work) -> p !! target = Some k' -> co_inboxes k' !! c = Some inbox ->
  places_from O (alter (receive c work) target (alter (with_posting (Some (ToWake target))) c p)) ≡ₚ places_from O p.
Proof.
  intros Hc Hp Ht Hi. rewrite (alter_insert _ p c k Hc). set (k1 := with_posting _ k).
  assert (exists k2, <[c := k1]> p !! target = Some k2 /\ co_inboxes k2 !! c = Some inbox) as (k2 & Ht2 & Hi2).
  { destruct (decide (c = target)) as [<-|Hne].
    - exists k1. split; [apply list_lookup_insert_eq; by eapply lookup_lt_Some|]. rewrite Hc in Ht. by injection Ht as <-.
    - exists k'. split; [by rewrite list_lookup_insert_ne|done]. }
  rewrite (alter_insert _ _ target k2 Ht2). destruct (places_core _ _ _ Ht2) as (rest2 & Hin2 & Hins2). rewrite Hins2.
  destruct (places_core _ _ _ Hc) as (rest & Hin & Hins). rewrite Hin. specialize (Hins k1). rewrite Hins in Hin2.
  assert (Hk : core_places c k ≡ₚ work_place target work :: core_places c k1).
  { unfold core_places, k1. cbn [with_posting co_ready co_waiting co_inboxes co_posting]. rewrite Hp. cbn [posting_places].
    rewrite (cons_app _ (run_places _ _ ++ _)). perm. }
  assert (Hk2 : core_places target (receive c work k2) ≡ₚ work_place target work :: core_places target k2).
  { unfold core_places, inbox_places. cbn [receive co_ready co_waiting co_inboxes co_posting].
    rewrite (alter_insert _ _ c inbox Hi2). destruct (concat_insert (co_inboxes k2) c inbox (inbox ++ [work]) Hi2) as (others & -> & ->).
    rewrite !fmap_app. cbn [fmap list_fmap]. rewrite (cons_app _ (run_places _ _ ++ _)). perm. }
  rewrite Hk, Hk2. cbn [app]. by rewrite Hin2.
Qed.

Lemma push_turns p c k target work k' inbox :
  p !! c = Some k -> co_posting k = Some (ToPush target work) -> p !! target = Some k' -> co_inboxes k' !! c = Some inbox ->
  let p' := alter (receive c work) target (alter (with_posting (Some (ToWake target))) c p) in
  rtc (turn (pool_callbacks p)) (pool_turns p) (pool_turns p') /\ pool_callbacks p' = pool_callbacks p.
Proof.
  intros Hc Hp Ht Hi p'. split.
  - assert (Hst : co_state <$> p' = co_state <$> p).
    { unfold p'. by rewrite !list_alter_fmap_eq. }
    unfold pool_turns. rewrite Hst. apply rtc_once, TurnOrder. symmetry. by eapply push_places.
  - unfold p', pool_callbacks. by rewrite !list_alter_fmap_eq.
Qed.

Lemma step_turns capacity p p' : pool_step capacity p p' ->
  rtc (turn (pool_callbacks p)) (pool_turns p) (pool_turns p') /\ pool_callbacks p' = pool_callbacks p.
Proof.
  intros [c Hs]. destruct Hs as [p k coro rest next Hc Hp Hr Ha|p k next Hc Hp Hr Ha|p k i work rest Hc Hp Hd Hi|p k i works Hc Hp Hd Hi Hw
    |p k before op next after r Hc Hp Hst Hw|p k Hc Hp Hst|p k now Hc Hp Hst|p k target work Hc Hp|p k target work k' inbox Hc Hp Ht Hi Hl
    |p k target Hc Hp|p].
  - eapply run_turns; [exact Hc| |done|done|done]. unfold core_places. cbn [with_ready co_ready co_waiting co_inboxes co_posting].
    by rewrite Hr.
  - apply (quiet_turns p c k); [done|by destruct (co_stage k)|by destruct (co_stage k)|by destruct (co_stage k)].
  - by apply deliver_turns.
  - by apply (quiet_turns p c k).
  - by apply (complete_turns p c k before op).
  - by apply (quiet_turns p c k).
  - by apply fire_turns.
  - by apply alter_turns.
  - by apply (push_turns p c k target work k' inbox).
  - destruct (quiet_turns p c k (with_posting None k)) as [H1 He1]; [done|done| |done|].
    { unfold core_places. cbn [with_posting co_ready co_waiting co_inboxes co_posting]. by rewrite Hp. }
    rewrite <- (alter_insert _ p c k Hc) in H1, He1. destruct (alter_turns (alter (with_posting None) c p) target wake) as [H2 He2]; [done|done|done|]. rewrite He1 in H2, He2.
    split; [by etrans|done].
  - by apply alter_turns.
Qed.

Lemma run_turns_of_pool capacity p p' : rtc (pool_step capacity) p p' ->
  rtc (turn (pool_callbacks p)) (pool_turns p) (pool_turns p') /\ pool_callbacks p' = pool_callbacks p.
Proof.
  induction 1 as [p|p p1 p' Hs _ [IH He]]; [done|]. destruct (step_turns capacity p p1 Hs) as [Hr Hcb]. rewrite Hcb in IH, He.
  split; [by etrans|done].
Qed.

(** ** Nobody sleeps over a message *)

(** The stages in which a core will still look at the inbox [i] before it waits. *)
Definition will_drain (i : nat) (stage : Stage) : Prop :=
  match stage with
  | Draining j | LastDraining j => (j <= i)%nat
  | Firing | Ready1 | Ready3 | Last1 => True
  | Ready2 | Waiting | Last2 | Stopped => False
  end.

(** The core of an inbox that is not empty will look at it, has been woken or is about to be, or it stops. *)
Definition attended p c k i : Prop :=
  will_drain i (co_stage k) \/ co_stage k = Last2 \/ co_stage k = Stopped \/ co_woken k = true \/ about_to_wake p c.

Definition wake_inv p : Prop :=
  forall c k i inbox, p !! c = Some k -> co_inboxes k !! i = Some inbox -> inbox <> [] -> attended p c k i.

Lemma insert_cases (p : Pool) c k k1 j k' : p !! c = Some k -> <[c := k1]> p !! j = Some k' -> j = c /\ k' = k1 \/ j <> c /\ p !! j = Some k'.
Proof.
  intros Hc Hj. destruct (decide (c = j)) as [<-|Hne]; [|rewrite list_lookup_insert_ne in Hj by done; by right].
  rewrite list_lookup_insert_eq in Hj by (by eapply lookup_lt_Some). injection Hj as <-. by left.
Qed.

(** Who is about to wake another does nothing else before. *)
Lemma waker_kept p c k k1 t : p !! c = Some k -> (co_posting k = Some (ToWake t) -> co_posting k1 = Some (ToWake t)) ->
  about_to_wake p t -> about_to_wake (<[c := k1]> p) t.
Proof.
  intros Hc Hk (j & kj & Hj & Hpo). destruct (decide (c = j)) as [<-|Hne].
  - exists c, k1. split; [apply list_lookup_insert_eq; by eapply lookup_lt_Some|]. apply Hk. congruence.
  - exists j, kj. by rewrite list_lookup_insert_ne.
Qed.

(** A step of a core that posts nothing. *)
Lemma local_wake_inv p c k k1 : wake_inv p -> p !! c = Some k -> co_posting k = None ->
  (forall i inbox, co_inboxes k1 !! i = Some inbox -> inbox <> [] ->
    (exists inbox0, co_inboxes k !! i = Some inbox0 /\ inbox0 <> []) /\ (attended p c k i -> attended p c k1 i)) ->
  wake_inv (<[c := k1]> p).
Proof.
  intros Hi Hc Hp Hl c' k' i inbox Hc' Hin Hne.
  assert (Hw : forall t, about_to_wake p t -> about_to_wake (<[c := k1]> p) t) by (intros t; apply (waker_kept p c k); [done|by rewrite Hp]).
  destruct (insert_cases _ _ _ _ _ _ Hc Hc') as [[-> ->]|[Hne' Hc'']].
  - destruct (Hl i inbox Hin Hne) as [(inbox0 & Hin0 & Hne0) Ha]. specialize (Ha (Hi c k i inbox0 Hc Hin0 Hne0)).
    unfold attended in *. intuition.
  - specialize (Hi c' k' i inbox Hc'' Hin Hne). unfold attended in *. intuition.
Qed.

Lemma run_on_frame c coro k : co_inboxes (run_on c coro k) = co_inboxes k /\ co_stage (run_on c coro k) = co_stage k /\ co_woken (run_on c coro k) = co_woken k.
Proof. unfold run_on. destruct (resume _ _ _) as [[? ?] []]; done. Qed.

Lemma run_work_frame c work k : co_inboxes (run_work c work k) = co_inboxes k /\ co_stage (run_work c work k) = co_stage k /\ co_woken (run_work c work k) = co_woken k.
Proof. destruct work; cbn; [by destruct (fn (co_state k))|apply run_on_frame|done]. Qed.

Lemma stage_wake_inv p c k k1 : wake_inv p -> p !! c = Some k -> co_posting k = None ->
  co_inboxes k1 = co_inboxes k -> (forall i inbox, co_inboxes k !! i = Some inbox -> inbox <> [] -> attended p c k i -> attended p c k1 i) ->
  wake_inv (<[c := k1]> p).
Proof. intros Hi Hc Hp Hin Ha. apply (local_wake_inv p c k k1); [done..|]. rewrite Hin. eauto. Qed.

(** Waking a core, or its stop. *)
Lemma alter_wake_inv p c f : wake_inv p -> (forall k, co_inboxes (f k) = co_inboxes k /\ co_stage (f k) = co_stage k /\ co_posting (f k) = co_posting k /\ co_woken (f k) = true) ->
  wake_inv (alter f c p).
Proof.
  intros Hi Hf. destruct (p !! c) as [k|] eqn:Hc; [|by rewrite alter_none]. rewrite (alter_insert f p c k Hc). destruct (Hf k) as (Hin & Hst & Hpo & Hw).
  intros c' k' i inbox Hc' Hinb Hne. destruct (insert_cases _ _ _ _ _ _ Hc Hc') as [[-> ->]|[_ Hc'']]; [by right; right; right; left|].
  specialize (Hi c' k' i inbox Hc'' Hinb Hne). pose proof (waker_kept p c k (f k) c' Hc) as Hwk. rewrite Hpo in Hwk.
  unfold attended in *. intuition.
Qed.

Lemma push_wake_inv p c k target work : wake_inv p -> p !! c = Some k -> co_posting k = Some (ToPush target work) ->
  wake_inv (alter (receive c work) target (alter (with_posting (Some (ToWake target))) c p)).
Proof.
  intros Hi Hc Hp. rewrite (alter_insert _ p c k Hc). set (k1 := with_posting _ k).
  assert (Hw : forall t, about_to_wake p t -> about_to_wake (<[c := k1]> p) t) by (intros t; apply (waker_kept p c k); [done|by rewrite Hp]).
  assert (Hwt : about_to_wake (<[c := k1]> p) target) by (exists c, k1; split; [apply list_lookup_insert_eq; by eapply lookup_lt_Some|done]).
  assert (Hi1 : wake_inv (<[c := k1]> p)).
  { intros c' k' i inbox Hc' Hin Hne. destruct (insert_cases _ _ _ _ _ _ Hc Hc') as [[-> ->]|[_ Hc'']].
    - specialize (Hi c k i inbox Hc Hin Hne). unfold attended in *. cbn. intuition.
    - specialize (Hi c' k' i inbox Hc'' Hin Hne). unfold attended in *. intuition. }
  destruct (<[c := k1]> p !! target) as [k2|] eqn:Ht; [|by rewrite alter_none].
  rewrite (alter_insert _ _ target k2 Ht). set (k3 := receive c work k2).
  assert (Hw2 : forall t, about_to_wake (<[c := k1]> p) t -> about_to_wake (<[target := k3]> (<[c := k1]> p)) t) by (intros t; by apply (waker_kept _ target k2)).
  intros c' k' i inbox Hc' Hin Hne. destruct (insert_cases _ _ _ _ _ _ Ht Hc') as [[-> ->]|[_ Hc'']].
  - do 4 right. by apply Hw2.
  - specialize (Hi1 c' k' i inbox Hc'' Hin Hne). unfold attended in *. intuition.
Qed.

Lemma woken_wake_inv p c k target : wake_inv p -> p !! c = Some k -> co_posting k = Some (ToWake target) ->
  wake_inv (alter wake target (alter (with_posting None) c p)).
Proof.
  intros Hi Hc Hp. rewrite (alter_insert _ p c k Hc). set (k1 := with_posting None k).
  assert (Hw : forall t, t <> target -> about_to_wake p t -> about_to_wake (<[c := k1]> p) t).
  { intros t Ht. apply (waker_kept p c k); [done|]. rewrite Hp. congruence. }
  destruct (decide (is_Some (<[c := k1]> p !! target))) as [[k2 Ht]|Ht].
  - rewrite (alter_insert _ _ target k2 Ht). intros c' k' i inbox Hc' Hin Hne.
    destruct (insert_cases _ _ _ _ _ _ Ht Hc') as [[-> ->]|[Hct Hc'']]; [by right; right; right; left|].
    assert (Hw2 : about_to_wake (<[c := k1]> p) c' -> about_to_wake (<[target := wake k2]> (<[c := k1]> p)) c') by (by apply (waker_kept _ target k2)).
    specialize (Hw c' Hct). destruct (insert_cases _ _ _ _ _ _ Hc Hc'') as [[-> ->]|[_ Hc3]].
    + specialize (Hi c k i inbox Hc Hin Hne). unfold attended in *. cbn. intuition.
    + specialize (Hi c' k' i inbox Hc3 Hin Hne). unfold attended in *. intuition.
  - apply eq_None_not_Some in Ht. rewrite alter_none by done. intros c' k' i inbox Hc' Hin Hne.
    assert (c' <> target) as Hct by (intros ->; congruence). specialize (Hw c' Hct).
    destruct (insert_cases _ _ _ _ _ _ Hc Hc') as [[-> ->]|[_ Hc3]].
    + specialize (Hi c k i inbox Hc Hin Hne). unfold attended in *. cbn. intuition.
    + specialize (Hi c' k' i inbox Hc3 Hin Hne). unfold attended in *. intuition.
Qed.

Lemma step_wake_inv capacity p p' : wake_inv p -> pool_step capacity p p' -> wake_inv p'.
Proof.
  intros Hi [c Hs]. destruct Hs as [p k coro rest next Hc Hp Hr Ha|p k next Hc Hp Hr Ha|p k i work rest Hc Hp Hd Hib|p k i works Hc Hp Hd Hib Hw
    |p k before op next after r Hc Hp Hst Hw|p k Hc Hp Hst|p k now Hc Hp Hst|p k target work Hc Hp|p k target work k' inbox Hc Hp Ht Hib Hl
    |p k target Hc Hp|p].
  - destruct (run_on_frame c coro (with_ready rest k)) as (H1 & H2 & H3). apply (stage_wake_inv p c k); [done..|].
    intros i inbox _ _. unfold attended. by rewrite H2, H3.
  - apply (stage_wake_inv p c k); [done|done|done|by destruct (co_stage k)|]. intros i inbox _ _. unfold attended.
    destruct (co_stage k); cbn in Ha; try done; injection Ha as <-; cbn; try destruct (co_stopping k); cbn; intuition (lia || congruence).
  - destruct (run_work_frame c work (with_inbox i rest k)) as (H1 & H2 & H3). apply (local_wake_inv p c k); [done..|].
    rewrite H1. intros j inbox Hj Hne. split; [|unfold attended; by rewrite H2, H3]. cbn in Hj. destruct (decide (i = j)) as [<-|].
    + by eexists.
    + rewrite list_lookup_insert_ne in Hj by done. eauto.
  - apply (stage_wake_inv p c k); [done..|]. intros j inbox Hj Hne Hat. pose proof (lookup_lt_Some _ _ _ Hj).
    unfold attended in *. cbn. destruct (decide (i = j)) as [<-|].
    + rewrite Hj in Hib. injection Hib as ->. destruct Hw as [?|[?|?]]; [done|tauto|tauto].
    + destruct (co_stage k) eqn:Hst; try done; injection Hd as ->; cbn [with_stage after_inbox co_stage co_woken] in *;
        destruct (Nat.ltb_spec (Datatypes.S i) (length (co_inboxes k))); destruct Hat as [Hle|[Hq|[Hq|Hq]]]; cbn in *; try congruence; try tauto; first [left; lia | exfalso; lia].
  - destruct (run_on_frame c (next r) (with_waiting (before ++ after) k)) as (H1 & H2 & H3). apply (stage_wake_inv p c k); [done..|].
    intros i inbox _ _. unfold attended. by rewrite H2, H3.
  - apply (stage_wake_inv p c k); [done..|]. intros. by left.
  - apply (stage_wake_inv p c k); [done|done|done| |]; unfold fire_timers; destruct (fire_due _ _ _) as [[? ?] ?]; [done|]. intros. by left.
  - by apply alter_wake_inv.
  - by eapply push_wake_inv.
  - by eapply woken_wake_inv.
  - by apply alter_wake_inv.
Qed.

Lemma start_frame coros k : let k' := foldl (fun k coro => spawn coro k) k coros in
  co_state k' = co_state k /\ co_ready k' = co_ready k ++ coros /\ co_inboxes k' = co_inboxes k /\ co_waiting k' = co_waiting k /\
  co_timers k' = co_timers k /\ co_stage k' = co_stage k /\ co_posting k' = co_posting k /\ co_busy k' = co_busy k /\
  co_woken k' = co_woken k /\ co_stopping k' = co_stopping k.
Proof.
  revert k. induction coros as [|coro coros IH]; intros k; cbn; [by rewrite app_nil_r|].
  destruct (IH (spawn coro k)) as (-> & -> & -> & -> & -> & -> & -> & -> & -> & ->). cbn. by rewrite <- app_assoc.
Qed.

Lemma started_core (coros : list Coro) k :
  foldl (fun k coro => spawn coro k) k coros =
  MkCore (co_state k) (co_ready k ++ coros) (co_inboxes k) (co_waiting k) (co_timers k) (co_stage k) (co_posting k) (co_busy k) (co_woken k) (co_stopping k).
Proof.
  pose proof (start_frame coros k) as Hf. cbn zeta in Hf. destruct (foldl _ k coros). cbn in Hf.
  destruct Hf as (-> & -> & -> & -> & -> & -> & -> & -> & -> & ->). done.
Qed.

Lemma start_wake_inv (cores : list (S * list Coro)) : wake_inv (pool_start cores).
Proof.
  intros c k i inbox Hc Hi Hne. unfold pool_start in Hc. apply list_lookup_fmap_Some in Hc as ([s coros] & -> & _).
  rewrite started_core in Hi. cbn in Hi. apply lookup_replicate in Hi as [-> _]. done.
Qed.

(** ** Two cores that wait for each other *)

Section Deadlock.
Context (capacity : nat) (s0 s1 : S) (fn : S -> S * R) (next : R -> Coro).

Definition calls_to (target n : nat) : list Coro := replicate n (CoCall target fn next).
Definition calls_from (from n : nat) : list (Work S R Io) := replicate n (WorkCall from fn next).

(** The two cores after [i] posts of the second to the first and [j] of the first to the second. *)
Definition flooded (a b i j : nat) (posting0 posting1 : option (Posting S R Io)) (ba wa bb wb : bool) : Pool :=
  [MkCore s0 (calls_to 1 a) [[]; calls_from 1 i] [] no_timers Ready1 posting0 ba wa false;
   MkCore s1 (calls_to 0 b) [calls_from 0 j; []] [] no_timers Ready1 posting1 bb wb false].

Lemma replicate_snoc {A} n (x : A) : replicate n x ++ [x] = replicate (Datatypes.S n) x.
Proof. induction n; cbn; [done|]. by rewrite IHn. Qed.

Lemma flood_first a b i j ba wa bb wb : (j < capacity)%nat ->
  rtc (pool_step capacity) (flooded (Datatypes.S a) b i j None None ba wa bb wb) (flooded a b i (Datatypes.S j) None None true wa bb true).
Proof.
  intros Hj. eapply rtc_l; [exists O; by eapply ResumesReady|]. eapply rtc_l; [exists O; eapply PostPushes; try reflexivity; unfold calls_from; by rewrite length_replicate|].
  eapply rtc_l; [exists O; by eapply PostWakes|].
  unfold flooded, calls_from, calls_to, receive. cbn -[replicate]. rewrite replicate_snoc. cbn -[replicate]. rewrite app_nil_r. apply rtc_refl.
Qed.

Lemma flood_second a b i j ba wa bb wb : (i < capacity)%nat ->
  rtc (pool_step capacity) (flooded a (Datatypes.S b) i j None None ba wa bb wb) (flooded a b (Datatypes.S i) j None None ba true true wb).
Proof.
  intros Hi. eapply rtc_l; [exists 1%nat; by eapply ResumesReady|].
  eapply rtc_l; [exists 1%nat; eapply PostPushes; try reflexivity; unfold calls_from; by rewrite length_replicate|].
  eapply rtc_l; [exists 1%nat; by eapply PostWakes|].
  unfold flooded, calls_from, calls_to, receive. cbn -[replicate]. rewrite replicate_snoc. cbn -[replicate]. rewrite app_nil_r. apply rtc_refl.
Qed.

Lemma flood n : (n <= capacity)%nat -> forall a b ba wa bb wb, exists ba' wa' bb' wb',
  rtc (pool_step capacity) (flooded (n + a) (n + b) 0 0 None None ba wa bb wb) (flooded a b n n None None ba' wa' bb' wb').
Proof.
  induction n as [|n IH]; intros Hn a b ba wa bb wb; [by do 4 eexists|].
  destruct (IH ltac:(lia) (Datatypes.S a) (Datatypes.S b) ba wa bb wb) as (ba' & wa' & bb' & wb' & Hr).
  rewrite !Nat.add_succ_r in Hr. do 4 eexists. etrans; [exact Hr|]. etrans; [apply flood_first; lia|]. apply flood_second. lia.
Qed.

(** Both cores post to an inbox that is full. *)
Definition both_blocked p : Prop :=
  exists k0 k1 w0 w1 l0 l1, p = [k0; k1] /\ co_posting k0 = Some (ToPush 1 w0) /\ co_posting k1 = Some (ToPush 0 w1) /\
    co_inboxes k1 !! 0%nat = Some l1 /\ co_inboxes k0 !! 1%nat = Some l0 /\ (capacity <= length l0)%nat /\ (capacity <= length l1)%nat.

Lemma blocked_for_ever p p' : both_blocked p -> pool_step capacity p p' -> both_blocked p'.
Proof.
  intros (k0 & k1 & w0 & w1 & l0 & l1 & -> & Hp0 & Hp1 & Hi1 & Hi0 & Hl0 & Hl1) [c Hs].
  assert (Hat : forall k, [k0; k1] !! c = Some k -> c = O /\ k = k0 \/ c = 1%nat /\ k = k1) by (intros k; destruct c as [|[|c]]; cbn; naive_solver).
  assert (Hpo : forall k, [k0; k1] !! c = Some k -> exists t w, co_posting k = Some (ToPush t w)) by (intros k Hk; destruct (Hat k Hk) as [[_ ->]|[_ ->]]; eauto).
  inversion Hs; subst; try (destruct (Hpo k) as (? & ? & ?); [done|congruence]).
  - destruct (Hat k) as [[-> ->]|[-> ->]]; [done| |]; [rewrite Hp0 in *|rewrite Hp1 in *]; simplify_eq; cbn; by repeat eexists.
  - exfalso. destruct (Hat k) as [[-> ->]|[-> ->]]; [done| |]; [rewrite Hp0 in *|rewrite Hp1 in *]; simplify_eq; cbn in *; simplify_eq; lia.
  - destruct c as [|[|c]]; cbn; by repeat eexists.
Qed.
End Deadlock.
End Turns.

(** C23. Whatever the cores of a pool do, in whatever order, their coroutines take turns: every step of the
    pool is one of a machine in which a coroutine runs on its core until it suspends, a called core runs the
    call once and hands its result to the caller, which goes on at its own core, and nothing is lost,
    repeated or run by two cores at once. *)
Theorem pool_refines_turns {S R Io} capacity (p p' : list (Core S R Io)) (Hrun : rtc (pool_step capacity) p p') :
  rtc (turn (pool_callbacks p)) (pool_turns p) (pool_turns p').
Proof. by apply run_turns_of_pool in Hrun as [? _]. Qed.

(** C24. No core sleeps over a message: of a pool that has started, a core that waits with nothing done and
    no wake pending has its inboxes empty, or a core that has pushed to it and is about to wake it. *)
Theorem no_sleep_over_messages {S R Io} capacity cores (p : list (Core S R Io)) c k i work rest
  (Hrun : rtc (pool_step capacity) (pool_start cores) p) (Hc : p !! c = Some k) (Hwaits : co_stage k = Waiting) (Hasleep : co_woken k = false)
  (Hinbox : co_inboxes k !! i = Some (work :: rest)) : about_to_wake p c.
Proof.
  assert (Hi : wake_inv p).
  { revert Hrun. apply (rtc_ind_r (R := pool_step capacity) wake_inv); [apply start_wake_inv|]. intros. by eapply step_wake_inv. }
  specialize (Hi c k i (work :: rest) Hc Hinbox ltac:(done)). unfold attended in Hi. rewrite Hwaits, Hasleep in Hi. cbn in Hi. naive_solver.
Qed.

(** Two cores that call each other from one coroutine more than their inboxes hold wait for each other
    for ever: each posts to a full inbox, and neither reads its own any more, not even to stop. *)
Theorem full_inboxes_deadlock {S R Io} capacity (s0 s1 : S) (fn : S -> S * R) (next : R -> Coro S R Io) :
  exists p, rtc (pool_step capacity) (pool_start [(s0, calls_to fn next 1 (capacity + 1)); (s1, calls_to fn next 0 (capacity + 1))]) p /\
  forall p' c k, rtc (pool_step capacity) p p' -> p' !! c = Some k -> exists target work, co_posting k = Some (ToPush target work).
Proof.
  unfold pool_start. cbn [fmap list_fmap length]. rewrite !started_core. cbn.
  change (rtc (pool_step capacity) ?p ?q) with (rtc (pool_step capacity) p q).
  destruct (flood capacity s0 s1 fn next capacity (Nat.le_refl _) 1 1 false false false false) as (ba & wa & bb & wb & Hr).
  eexists. split.
  - etrans; [exact Hr|]. eapply rtc_l; [exists O; by eapply ResumesReady|]. eapply rtc_l; [exists 1%nat; by eapply ResumesReady|]. apply rtc_refl.
  - intros p' c k Hrun Hc. assert (Hb : both_blocked capacity p').
    { revert Hrun. apply (rtc_ind_r (R := pool_step capacity) (both_blocked capacity)); [|intros; by eapply blocked_for_ever].
      do 6 eexists. split_and!; try reflexivity; unfold calls_from; by rewrite length_replicate. }
    destruct Hb as (k0 & k1 & w0 & w1 & _ & _ & -> & ? & ? & _). destruct c as [|[|c]]; cbn in Hc; naive_solver.
Qed.

(** ** A run *)

(** A coroutine of the first core that asks the second for its counter, which it raises, and keeps the answer. *)
Definition asker : Coro nat nat () := CoCall 1 (fun s => (Datatypes.S s, s)) (fun r => CoRun (fun s => ((r + 10)%nat, CoReturn))).
Definition asking_cores : list (Core nat nat ()) := pool_start [(O, [asker]); (5%nat, [])].

Ltac core_goes c step := eapply rtc_l; [exists c; step; reflexivity|].

(** The second core waits, and the first has pushed its message. *)
Lemma pushed_to_sleeper : exists p, rtc (pool_step 4) asking_cores p /\
  exists k0 k1, p = [k0; k1] /\ co_stage k1 = Waiting /\ co_woken k1 = false /\
  co_inboxes k1 !! O = Some [WorkCall 0 (fun s => (Datatypes.S s, s)) (fun r => CoRun (fun s => ((r + 10)%nat, CoReturn)))].
Proof.
  eexists. split.
  - core_goes 1%nat ltac:(eapply ReadyEmpty). core_goes 1%nat ltac:(eapply NextInbox; [| | | |left]).
    core_goes 1%nat ltac:(eapply NextInbox; [| | | |left]). core_goes 1%nat ltac:(eapply ReadyEmpty).
    core_goes O ltac:(eapply ResumesReady). eapply rtc_l; [exists O; eapply PostPushes; [reflexivity..|cbn; lia]|]. apply rtc_refl.
  - do 2 eexists. by split_and!.
Qed.

(** The call is served and the caller has the answer. *)
Lemma call_served : exists p, rtc (pool_step 4) asking_cores p /\ pool_turns p = ([15%nat; 6%nat], []).
Proof.
  eexists. split.
  - core_goes O ltac:(eapply ResumesReady). eapply rtc_l; [exists O; eapply PostPushes; [reflexivity..|cbn; lia]|].
    core_goes O ltac:(eapply PostWakes). core_goes 1%nat ltac:(eapply ReadyEmpty). core_goes 1%nat ltac:(eapply Delivers).
    eapply rtc_l; [exists 1%nat; eapply PostPushes; [reflexivity..|cbn; lia]|]. core_goes 1%nat ltac:(eapply PostWakes).
    core_goes O ltac:(eapply ReadyEmpty). core_goes O ltac:(eapply NextInbox; [| | | |left]). core_goes O ltac:(eapply Delivers). apply rtc_refl.
  - reflexivity.
Qed.

Lemma pool_refines_turns_witness : rtc (turn (pool_callbacks asking_cores)) (pool_turns asking_cores) ([15%nat; 6%nat], []).
Proof.
  destruct call_served as (p & Hrun & Hp). rewrite <- Hp. exact (pool_refines_turns 4 asking_cores p Hrun).
Defined.

Lemma no_sleep_over_messages_witness : exists p, rtc (pool_step 4) asking_cores p /\ about_to_wake p 1.
Proof.
  destruct pushed_to_sleeper as (p & Hrun & k0 & k1 & Hp & Hst & Hw & Hi). exists p. split; [exact Hrun|].
  assert (Hc : p !! 1%nat = Some k1) by (rewrite Hp; reflexivity).
  exact (no_sleep_over_messages 4 _ p 1 k1 0 _ [] Hrun Hc Hst Hw Hi).
Defined.
