(* ===== verification/RaftLink.v ===== *)
(** * Raft between nodes

    Models [RaftEnvelopeReader] and [RaftEnvelopeWriter] of [src/src/cluster/raft_link.cpp],
    [serve_raft_connection] of [raft_receiver.cpp], [RaftTransport] of [raft_transport.cpp] and
    [DeferredMessageSink] of [consensus/deferred_message_sink.hpp], over the interface of a byte stream.
    What a peer is given is, in order, some of what was sent to it, whatever connections and sends
    fail; and all of it when none does. *)
From Stdlib Require Import ZArith Lia.
From stdpp Require Import base list gmap strings.
From S2P Require Import Prelude Bytes Codec RaftState RaftRpc FrameIo Proxy.
#[local] Open Scope Z_scope.

(** [kMaxRaftMessage] of [server.cpp]. *)
Definition kMaxRaftMessage : Z := 16 * 1024 * 1024.

Section Link.
Context {S : Type} {BS : ByteStream S}.

(** [RaftEnvelopeReader::read]; its [read_exactly], like the [send_all] of the writer, is the one of
    [frame_io.hpp]. *)
Definition read_envelope (max_message : Z) (s : S) : expected RaftEnvelope * S :=
  match read_exactly 4 4 [] s with
  | (Err e, (_, s)) => (Err e, s)
  | (Ok _, (buf, s)) =>
      match get_u32 (MkDecoder buf 0) with
      | (Err e, _) => (Err e, s)
      | (Ok len, _) =>
          if len =? 0 then (make_error InvalidArgument "sobre de Raft con longitud cero", s)
          else
            let total := 4 + len in
            if max_message <? total then (make_error InvalidArgument "sobre de Raft excede max_message", s)
            else
              match read_exactly (Z.to_nat total) (Z.to_nat total) buf s with
              | (Err e, (_, s)) => (Err e, s)
              | (Ok _, (buf, s)) => ((RaftEnvelope_decode (MkDecoder (subspan 4 buf) 0)).1, s)
              end
      end
  end.

(** [RaftEnvelopeWriter::write]. *)
Definition write_envelope (e : RaftEnvelope) (s : S) : expected unit * S :=
  let buf := RaftEnvelope_encode e [] in
  match send_all (store_le 4 (to_u 32 (Z.of_nat (length buf)))) s with
  | (Err e, s) => (Err e, s)
  | (Ok _, s) => send_all buf s
  end.

(** The envelopes a connection hands on until it ends; [fuel] bounds how many. *)
Fixpoint serve_raft_connection (fuel : nat) (max_message : Z) (s : S) : list RaftEnvelope * S :=
  match fuel with
  | O => ([], s)
  | Datatypes.S fuel' =>
      match read_envelope max_message s with
      | (Err _, s) => ([], s)
      | (Ok e, s) => let '(es, s) := serve_raft_connection fuel' max_message s in (e :: es, s)
      end
  end.

(** ** The transport *)

(** Where [run_sender] is: not running, spawned, waiting for a connection or for a write. *)
Inductive SenderPc := SenderIdle | SenderSpawned | SenderConnecting | SenderWriting (e : RaftEnvelope).

(** [PeerLink], with the sender that runs on it; [lk_past] remembers the connections that were closed. *)
Record PeerLink := MkPeerLink { lk_outbox : list RaftEnvelope; lk_socket : option S; lk_sender : SenderPc; lk_past : list S }.

Definition new_link : PeerLink := MkPeerLink [] None SenderIdle [].

Definition lk_sending (l : PeerLink) : bool := match lk_sender l with SenderIdle => false | _ => true end.

(** What [send] does to the link of the peer. *)
Definition link_send (max_queue : nat) (e : RaftEnvelope) (l : PeerLink) : PeerLink :=
  let outbox := if (max_queue <=? length (lk_outbox l))%nat then tail (lk_outbox l) else lk_outbox l in
  MkPeerLink (outbox ++ [e]) (lk_socket l) (if lk_sending l then lk_sender l else SenderSpawned) (lk_past l).

(** [run_sender] from the head of its loop until it waits or ends. *)
Definition sender_turn (l : PeerLink) : PeerLink :=
  match lk_outbox l with
  | [] => MkPeerLink [] (lk_socket l) SenderIdle (lk_past l)
  | e :: outbox =>
      match lk_socket l with
      | None => MkPeerLink (e :: outbox) None SenderConnecting (lk_past l)
      | Some s => MkPeerLink outbox (Some s) (SenderWriting e) (lk_past l)
      end
  end.

(** The connection ends: what is left is dropped, or the first envelope is taken. *)
Definition sender_connected (sock : expected S) (l : PeerLink) : PeerLink :=
  match sock with
  | Err _ => MkPeerLink [] None SenderIdle (lk_past l)
  | Ok s =>
      match lk_outbox l with
      | [] => MkPeerLink [] (Some s) SenderIdle (lk_past l)
      | e :: outbox => MkPeerLink outbox (Some s) (SenderWriting e) (lk_past l)
      end
  end.

(** The write ends, and the loop goes on; a failure closes the connection. *)
Definition sender_written (e : RaftEnvelope) (s : S) (l : PeerLink) : PeerLink :=
  match write_envelope e s with
  | (Ok _, s) => sender_turn (MkPeerLink (lk_outbox l) (Some s) (lk_sender l) (lk_past l))
  | (Err _, s) => sender_turn (MkPeerLink (lk_outbox l) None (lk_sender l) (lk_past l ++ [s]))
  end.

(** What happens to a link: a message, or the next step of its sender, a connection with its outcome. *)
Inductive LinkEvent := LinkSend (e : RaftEnvelope) | LinkStep (sock : expected S).

Definition link_event (max_queue : nat) (ev : LinkEvent) (l : PeerLink) : PeerLink :=
  match ev with
  | LinkSend e => link_send max_queue e l
  | LinkStep sock =>
      match lk_sender l, lk_socket l with
      | SenderIdle, _ => l
      | SenderSpawned, _ => sender_turn l
      | SenderConnecting, _ => sender_connected sock l
      | SenderWriting e, Some s => sender_written e s l
      | SenderWriting _, None => l
      end
  end.

Definition link_run (max_queue : nat) (evs : list LinkEvent) (l : PeerLink) : PeerLink := foldl (fun l ev => link_event max_queue ev l) l evs.

Record RaftTransport := MkTransport { tr_self : Z; tr_links : gmap Z PeerLink }.

(** [RaftTransport::send]. *)
Definition transport_send (directory : gmap Z PeerAddress) (max_queue : nat) (e : RaftEnvelope) (t : RaftTransport) : RaftTransport :=
  let to := m_to (env_message e) in
  if (to =? tr_self t) || negb (peer_contains to directory) then t
  else MkTransport (tr_self t) (<[to := link_send max_queue e (default new_link (tr_links t !! to))]> (tr_links t)).

(** [DeferredMessageSink::send]: without a target the envelope is dropped. *)
Definition deferred_send (directory : gmap Z PeerAddress) (max_queue : nat) (e : RaftEnvelope) (target : option RaftTransport) : option RaftTransport :=
  transport_send directory max_queue e <$> target.
End Link.
Arguments PeerLink : clear implicits.
Arguments LinkEvent : clear implicits.
Arguments RaftTransport : clear implicits.

(** ** An envelope on the wire *)

Definition envelope_bytes (e : RaftEnvelope) : list byte :=
  store_le 4 (to_u 32 (Z.of_nat (length (RaftEnvelope_encode e [])))) ++ RaftEnvelope_encode e [].

(** What a peer accepts. *)
Definition fits_wire (e : RaftEnvelope) : Prop := envelope_ok e /\ Z.of_nat (length (RaftEnvelope_encode e [])) + 4 <= kMaxRaftMessage.

Lemma encode_not_empty e : (0 < length (RaftEnvelope_encode e []))%nat.
Proof.
  unfold RaftEnvelope_encode. rewrite payload_encode_app. unfold put_u8. rewrite !length_app. cbn. lia.
Qed.

Lemma sendable_length e : fits_wire e -> to_u 32 (Z.of_nat (length (RaftEnvelope_encode e []))) = Z.of_nat (length (RaftEnvelope_encode e [])).
Proof. intros [_ Hl]. unfold kMaxRaftMessage in Hl. apply Z.mod_small. width_simpl. lia. Qed.

Lemma length_envelope e : length (envelope_bytes e) = (4 + length (RaftEnvelope_encode e []))%nat.
Proof. unfold envelope_bytes. by rewrite length_app, length_store_le. Qed.

Section Healthy.
Context {S : Type} {BS : ByteStream S} {BL : ByteStreamLaws S}.

(** A read of more than there is ends with the stream. *)
Lemma read_exactly_closed fuel total buf (s : S) :
  healthy s -> (length buf + length (pending s) < total)%nat -> (length (pending s) < fuel)%nat ->
  exists e buf' s', read_exactly fuel total buf s = (Err e, (buf', s')).
Proof.
  revert buf s. induction fuel as [|fuel IH]; intros buf s Hh Hl Hf; [lia|]. cbn [read_exactly].
  rewrite (proj2 (Nat.leb_gt _ _)) by lia. destruct (pending s) as [|b rest] eqn:Hp.
  - destruct (recv_closed (total - length buf) s Hh Hp) as (s' & -> & _). by do 3 eexists.
  - destruct (recv_some (total - length buf) s Hh) as (bs & s' & -> & Hne & _ & Hsplit & _ & Hh'); [lia|by rewrite Hp|].
    destruct bs as [|b' bs]; [done|]. rewrite Hp in Hsplit. apply (f_equal length) in Hsplit. rewrite length_app in Hsplit.
    apply IH; [done| |]; rewrite ?length_app; cbn [length] in *; lia.
Qed.

Lemma read_envelope_healthy e rest (s : S) : fits_wire e -> healthy s -> pending s = envelope_bytes e ++ rest ->
  exists s', read_envelope kMaxRaftMessage s = (Ok e, s') /\ pending s' = rest /\ healthy s'.
Proof.
  intros Hs Hh Hp. pose proof (sendable_length e Hs) as Hlen. destruct Hs as [Hok Hmax]. pose proof (encode_not_empty e) as Hne.
  unfold envelope_bytes in Hp. rewrite Hlen, <- app_assoc in Hp. unfold read_envelope.
  destruct (read_exactly_healthy 4 4 [] s _ _ Hh Hp) as (s1 & -> & Hp1 & _ & Hh1); [by rewrite length_store_le..|].
  assert (Hu : u_range 32 (Z.of_nat (length (RaftEnvelope_encode e [])))) by (unfold u_range; width_simpl; unfold kMaxRaftMessage in Hmax; lia).
  cbn [app]. rewrite (reads_u32 _ Hu) by (exists []; by rewrite app_nil_r).
  rewrite (proj2 (Z.eqb_neq _ _)) by lia. rewrite (proj2 (Z.ltb_ge _ _)) by lia.
  set (lb := store_le 4 _) in *. assert (Hlb : length lb = 4%nat) by apply length_store_le.
  replace (Z.to_nat (4 + Z.of_nat (length (RaftEnvelope_encode e [])))) with (4 + length (RaftEnvelope_encode e []))%nat by lia.
  destruct (read_exactly_healthy (4 + length (RaftEnvelope_encode e [])) (4 + length (RaftEnvelope_encode e [])) lb s1 _ _ Hh1 Hp1)
    as (s2 & -> & Hp2 & _ & Hh2); [lia|lia|].
  exists s2. unfold subspan. rewrite <- Hlb, drop_app_length. rewrite (reads_envelope e Hok); [done|]. exists []. cbn. by rewrite app_nil_r, drop_0.
Qed.

(** Less than an envelope is none. *)
Lemma read_envelope_partial e n (s : S) : fits_wire e -> healthy s -> (n < length (envelope_bytes e))%nat ->
  pending s = take n (envelope_bytes e) -> exists err s', read_envelope kMaxRaftMessage s = (Err err, s').
Proof.
  intros Hs Hh Hn Hp. pose proof (sendable_length e Hs) as Hlen. destruct Hs as [Hok Hmax]. pose proof (encode_not_empty e) as Hne.
  rewrite length_envelope in Hn. unfold read_envelope. destruct (Nat.lt_ge_cases n 4) as [Hlt|Hge].
  - destruct (read_exactly_closed 4 4 [] s Hh) as (err & buf' & s' & ->); [| |by do 2 eexists];
      rewrite Hp, length_take, length_envelope; cbn [length]; lia.
  - unfold envelope_bytes in Hp. rewrite Hlen in Hp. set (lb := store_le 4 _) in *. assert (Hlb : length lb = 4%nat) by apply length_store_le.
    rewrite take_app_ge in Hp by lia. rewrite Hlb in Hp.
    destruct (read_exactly_healthy 4 4 [] s _ _ Hh Hp) as (s1 & -> & Hp1 & _ & Hh1); [by rewrite Hlb..|].
    assert (Hu : u_range 32 (Z.of_nat (length (RaftEnvelope_encode e [])))) by (unfold u_range; width_simpl; unfold kMaxRaftMessage in Hmax; lia).
    cbn [app]. unfold lb at 1. rewrite (reads_u32 _ Hu) by (exists []; by rewrite app_nil_r).
    rewrite (proj2 (Z.eqb_neq _ _)) by lia. rewrite (proj2 (Z.ltb_ge _ _)) by lia.
    destruct (read_exactly_closed (Z.to_nat (4 + Z.of_nat (length (RaftEnvelope_encode e [])))) (Z.to_nat (4 + Z.of_nat (length (RaftEnvelope_encode e [])))) lb s1 Hh1)
      as (err & buf' & s' & ->); [rewrite Hp1, length_take; lia|rewrite Hp1, length_take; lia|by do 2 eexists].
Qed.

(** The end of what was written to a connection: nothing, or part of an envelope. *)
Definition torn (end_ : list byte) : Prop :=
  end_ = [] \/ exists e n, fits_wire e /\ (n < length (envelope_bytes e))%nat /\ end_ = take n (envelope_bytes e).

Lemma read_envelope_torn end_ (s : S) : torn end_ -> healthy s -> pending s = end_ -> exists err s', read_envelope kMaxRaftMessage s = (Err err, s').
Proof.
  intros [->|(e & n & He & Hn & ->)] Hh Hp; [|by eapply read_envelope_partial]. unfold read_envelope.
  destruct (read_exactly_closed 4 4 [] s Hh) as (err & buf' & s' & ->); [rewrite Hp; cbn; lia..|by do 2 eexists].
Qed.

(** A connection hands on what was written whole to it. *)
Lemma serve_delivers es end_ fuel (s : S) : Forall fits_wire es -> torn end_ ->
  healthy s -> pending s = concat (envelope_bytes <$> es) ++ end_ -> (length es < fuel)%nat ->
  (serve_raft_connection fuel kMaxRaftMessage s).1 = es.
Proof.
  intros Hes He. revert fuel s. induction Hes as [|e1 es He1 _ IH]; intros [|fuel] s Hh Hp Hf; cbn [length] in Hf; try lia; cbn [serve_raft_connection].
  - by destruct (read_envelope_torn end_ s He Hh Hp) as (err & s' & ->).
  - cbn [fmap list_fmap concat] in Hp. rewrite <- app_assoc in Hp. destruct (read_envelope_healthy e1 _ s He1 Hh Hp) as (s1 & -> & Hp1 & Hh1).
    specialize (IH fuel s1 Hh1 Hp1 ltac:(lia)). destruct (serve_raft_connection fuel kMaxRaftMessage s1). cbn in *. by rewrite IH.
Qed.

(** An envelope over the limit is refused after its length, and ends the connection: what a leader
    replicates in one message must fit, or its follower never gets it. *)
Lemma oversized_envelope_refused e rest fuel (s : S) :
  kMaxRaftMessage < Z.of_nat (length (RaftEnvelope_encode e [])) + 4 < 2 ^ 32 -> healthy s -> pending s = envelope_bytes e ++ rest ->
  (serve_raft_connection fuel kMaxRaftMessage s).1 = [].
Proof.
  intros Hl Hh Hp. destruct fuel as [|fuel]; [done|]. cbn [serve_raft_connection]. unfold read_envelope.
  unfold envelope_bytes in Hp. rewrite <- app_assoc in Hp.
  destruct (read_exactly_healthy 4 4 [] s _ _ Hh Hp) as (s1 & -> & _); [by rewrite length_store_le..|].
  unfold to_u. rewrite Z.mod_small by (unfold kMaxRaftMessage in Hl; lia).
  assert (Hu : u_range 32 (Z.of_nat (length (RaftEnvelope_encode e [])))) by (unfold u_range; width_simpl; unfold kMaxRaftMessage in Hl; lia).
  cbn [app]. rewrite (reads_u32 _ Hu) by (exists []; by rewrite app_nil_r).
  rewrite (proj2 (Z.eqb_neq _ _)) by (unfold kMaxRaftMessage in Hl; lia). by rewrite (proj2 (Z.ltb_lt _ _)) by lia.
Qed.
End Healthy.

(** ** Streams that may fail *)

(** A send puts some of the bytes on the wire, whether it tells so or fails. *)
Class ByteStreamWrites (S : Type) `{!ByteStream S, !ByteStreamLaws S} := {
  send_any data s : let '(r, s') := async_send data s in
    match r with Ok k => (k <= length data)%nat /\ sent s' = sent s ++ take k data | Err _ => sent s' = sent s end;
}.

Section Transport.
Context {S : Type} {BS : ByteStream S} {BL : ByteStreamLaws S} {BW : ByteStreamWrites S}.

Lemma send_all_any data (s : S) : let '(r, s') := send_all data s in
  exists n, (n <= length data)%nat /\ sent s' = sent s ++ take n data /\ match r with Ok _ => n = length data | Err _ => (n < length data)%nat end.
Proof.
  unfold send_all. assert (Hf : (length data <= length data)%nat) by done. revert Hf. generalize (length data) at 2 3. intros fuel. revert data s.
  induction fuel as [|fuel IH]; intros data s Hf; (destruct data as [|b data]; [exists O; by rewrite app_nil_r|]); [cbn in Hf; lia|].
  cbn [send_all_loop]. pose proof (send_any (b :: data) s) as Hs. destruct (async_send (b :: data) s) as [[k|e] s1].
  - destruct Hs as [Hk Hs]. destruct k as [|k].
    + exists O. rewrite Hs. cbn. split_and!; [lia|done|lia].
    + specialize (IH (subspan (Datatypes.S k) (b :: data)) s1). destruct (send_all_loop _ _ _) as [r s2].
      destruct IH as (n & Hn & Hs2 & Hr); [unfold subspan; rewrite length_drop; cbn in Hf |- *; lia|].
      unfold subspan in *. rewrite length_drop in *. exists (Datatypes.S k + n)%nat. split; [lia|]. split; [|destruct r; lia].
      rewrite Hs2, Hs, <- app_assoc. f_equal. rewrite <- (take_drop (Datatypes.S k) (b :: data)) at 3.
      rewrite take_app_ge by (rewrite length_take; lia). f_equal. f_equal. rewrite length_take. lia.
  - exists O. rewrite Hs, app_nil_r. cbn. split_and!; [lia|done|lia].
Qed.

Lemma write_any e (s : S) : let '(r, s') := write_envelope e s in
  match r with
  | Ok _ => sent s' = sent s ++ envelope_bytes e
  | Err _ => exists n, (n < length (envelope_bytes e))%nat /\ sent s' = sent s ++ take n (envelope_bytes e)
  end.
Proof.
  unfold write_envelope, envelope_bytes. set (lb := store_le 4 _). set (body := RaftEnvelope_encode e []).
  pose proof (send_all_any lb s) as H1. destruct (send_all lb s) as [[u|err] s1]; destruct H1 as (n1 & Hn1 & Hs1 & Hr1).
  - pose proof (send_all_any body s1) as H2. subst n1. rewrite firstn_all in Hs1. destruct (send_all body s1) as [[u2|err] s2]; destruct H2 as (n2 & Hn2 & Hs2 & Hr2).
    + subst n2. rewrite firstn_all in Hs2. by rewrite Hs2, Hs1, app_assoc.
    + exists (length lb + n2)%nat. rewrite length_app, Hs2, Hs1, <- app_assoc, take_app_ge by lia. split; [lia|]. do 3 f_equal. lia.
  - exists n1. rewrite length_app, Hs1, take_app_le by lia. split; [lia|done].
Qed.

Definition event_send (ev : LinkEvent S) : option RaftEnvelope := match ev with LinkSend e => Some e | LinkStep _ => None end.
Definition sends_of (evs : list (LinkEvent S)) : list RaftEnvelope := omap event_send evs.

(** The envelope in the hands of the sender. *)
Definition in_hand (pc : SenderPc) : list RaftEnvelope := match pc with SenderWriting e => [e] | _ => [] end.

(** What was written to a connection that was closed: envelopes, and part of one. *)
Definition written_to (s : S) (es : list RaftEnvelope) : Prop :=
  exists end_, torn end_ /\ sent s = concat (envelope_bytes <$> es) ++ end_.

Record link_inv (l : PeerLink S) (sends : list RaftEnvelope) (past : list (list RaftEnvelope)) (now : list RaftEnvelope) : Prop := {
  li_past : Forall2 written_to (lk_past l) past;
  li_now : match lk_socket l with Some s => sent s = concat (envelope_bytes <$> now) | None => now = [] end;
  li_pc : match lk_sender l with SenderConnecting => lk_socket l = None | SenderWriting _ => is_Some (lk_socket l) | _ => True end;
  li_order : concat past ++ now ++ in_hand (lk_sender l) ++ lk_outbox l `sublist_of` sends;
}.

Lemma sender_turn_inv l sends past now : in_hand (lk_sender l) = [] -> link_inv l sends past now -> link_inv (sender_turn l) sends past now.
Proof.
  intros Hpc [Hp Hn _ Ho]. rewrite Hpc in Ho. unfold sender_turn.
  destruct (lk_outbox l) as [|e outbox]; [by split|]. destruct (lk_socket l) as [s|]; split; try done. by eexists.
Qed.

(** The loop does not look at where the sender was. *)
Lemma sender_turn_pc outbox sock pc past : sender_turn (S := S) (MkPeerLink outbox sock pc past) = sender_turn (MkPeerLink outbox sock SenderSpawned past).
Proof. done. Qed.

Lemma event_inv max_queue ev l sends past now :
  link_inv l sends past now -> Forall fits_wire sends -> match ev with LinkStep (Ok s) => sent s = [] | _ => True end ->
  exists past' now', link_inv (link_event max_queue ev l) (sends ++ option_list (event_send ev)) past' now'.
Proof.
  intros Hl Hs Hev. pose proof Hl as [Hp Hn Hpc Ho]. destruct ev as [e|sock]; cbn [link_event event_send option_list].
  - exists past, now. unfold link_send. split; cbn [lk_past lk_socket lk_sender lk_outbox]; [done|done|unfold lk_sending; by destruct (lk_sender l)|].
    assert (He : in_hand (if lk_sending l then lk_sender l else SenderSpawned) = in_hand (lk_sender l)) by (unfold lk_sending; by destruct (lk_sender l)).
    rewrite He, !app_assoc. apply sublist_app; [|done]. etrans; [|exact Ho]. rewrite <- !app_assoc. repeat (apply sublist_app; [done|]).
    destruct (max_queue <=? _)%nat; [|done]. destruct (lk_outbox l); [done|]. by apply sublist_cons.
  - rewrite app_nil_r. destruct (lk_sender l) as [| | |e] eqn:Hsender; cbn in Hpc.
    + by exists past, now.
    + exists past, now. apply sender_turn_inv; [by rewrite Hsender|done].
    + rewrite Hpc in Hn. subst now. exists past, []. cbn in Ho. destruct sock as [s|err]; unfold sender_connected.
      * destruct (lk_outbox l); cbn; split; cbn; try done; by rewrite Hev.
      * split; cbn; try done. etrans; [|exact Ho]. apply sublist_app; [done|]. apply sublist_nil_l.
    + destruct Hpc as [s Hsock]. rewrite Hsock in Hn |- *. unfold sender_written. pose proof (write_any e s) as Hw.
      cbn [in_hand] in Ho. destruct (write_envelope e s) as [[u|err] s'].
      * exists past, (now ++ [e]). rewrite sender_turn_pc. apply sender_turn_inv; [done|].
        split; cbn; [done| |done|by rewrite <- app_assoc]. rewrite Hw, Hn, fmap_app, concat_app. cbn. by rewrite app_nil_r.
      * destruct Hw as (n & Hlt & Hw). assert (He : fits_wire e).
        { rewrite Forall_forall in Hs. apply Hs. eapply elem_of_sublist; [|exact Ho]. set_solver. }
        exists (past ++ [now]), []. rewrite sender_turn_pc. apply sender_turn_inv; [done|]. split; cbn; [|done|done|].
        -- apply Forall2_app; [done|]. constructor; [|done]. exists (take n (envelope_bytes e)). split; [right; by exists e, n|by rewrite Hw, Hn].
        -- rewrite concat_app. cbn. rewrite app_nil_r, <- app_assoc. etrans; [|exact Ho]. do 2 (apply sublist_app; [done|]). by apply sublist_cons.
Qed.

(** A connection opens with nothing on it. *)
Definition event_fresh (ev : LinkEvent S) : Prop := match ev with LinkStep (Ok s) => sent s = [] | _ => True end.

Lemma run_inv max_queue evs : Forall fits_wire (sends_of evs) -> Forall event_fresh evs ->
  exists past now, link_inv (link_run max_queue evs new_link) (sends_of evs) past now.
Proof.
  induction evs as [|ev evs IH] using rev_ind; intros Hs Hf; [by exists [], []; split; cbn|].
  unfold sends_of in Hs |- *. rewrite omap_app in Hs |- *. apply Forall_app in Hs as [Hs _]. apply Forall_app in Hf as [Hf Hev].
  destruct (IH Hs Hf) as (past & now & Hi). unfold link_run. rewrite foldl_app. cbn [foldl].
  assert (He : omap event_send [ev] = option_list (event_send ev)) by (cbn; by destruct (event_send ev)). rewrite He.
  eapply event_inv; [exact Hi|exact Hs|]. by inversion Hev.
Qed.

(** What a receiver at the end of a connection hands on. *)
Definition gives (s : S) (es : list RaftEnvelope) : Prop :=
  forall r fuel, healthy r -> pending r = sent s -> (length es < fuel)%nat -> (serve_raft_connection fuel kMaxRaftMessage r).1 = es.

Lemma written_gives (s : S) es : Forall fits_wire es -> written_to s es -> gives s es.
Proof. intros Hes (end_ & He & Hw) r fuel Hh Hp Hf. rewrite Hw in Hp. by eapply serve_delivers. Qed.

Lemma sublist_Forall {A} (P : A -> Prop) l1 l2 : l1 `sublist_of` l2 -> Forall P l2 -> Forall P l1.
Proof. intros Hs Hf. apply Forall_forall. intros x Hx. rewrite Forall_forall in Hf. apply Hf. by eapply elem_of_sublist. Qed.

Lemma run_gives max_queue evs (l := link_run max_queue evs new_link) :
  Forall fits_wire (sends_of evs) -> Forall event_fresh evs ->
  exists given, Forall2 gives (lk_past l ++ option_list (lk_socket l)) given /\ concat given `sublist_of` sends_of evs.
Proof.
  intros Hs Hf. destruct (run_inv max_queue evs Hs Hf) as (past & now & [Hp Hn _ Ho]). fold l in Hp, Hn, Ho.
  assert (Ho' : concat past ++ now `sublist_of` sends_of evs).
  { etrans; [|exact Ho]. rewrite !app_assoc. rewrite <- (app_assoc (concat past ++ now)). by apply sublist_inserts_r. }
  pose proof (sublist_Forall _ _ _ Ho' Hs) as Hes. apply Forall_app in Hes as [Hes Hen].
  assert (Hpast : Forall2 gives (lk_past l) past).
  { clear -Hp Hes BL. revert Hes. induction Hp as [|s es ss ess Hw _ IH]; cbn; [by constructor|].
    intros [H1 H2]%Forall_app. constructor; [by apply written_gives|by apply IH]. }
  destruct (lk_socket l) as [s|]; cbn [option_list].
  - exists (past ++ [now]). split; [|rewrite concat_app; cbn; by rewrite app_nil_r]. apply Forall2_app; [done|]. constructor; [|done].
    apply written_gives; [done|]. exists []. split; [by left|by rewrite app_nil_r].
  - exists past. rewrite app_nil_r. split; [done|]. subst now. by rewrite app_nil_r in Ho'.
Qed.

(** Nothing is lost on connections that do not fail, while the queue has room. *)
Definition event_lossless (ev : LinkEvent S) : Prop := match ev with LinkStep (Ok s) => sent s = [] /\ healthy s | LinkStep (Err _) => False | _ => True end.

Record lossless (l : PeerLink S) (sends now : list RaftEnvelope) : Prop := {
  ls_past : lk_past l = [];
  ls_now : match lk_socket l with Some s => healthy s /\ sent s = concat (envelope_bytes <$> now) | None => now = [] end;
  ls_pc : match lk_sender l with SenderConnecting => lk_socket l = None /\ lk_outbox l <> [] | SenderWriting _ => is_Some (lk_socket l) | SenderIdle => lk_outbox l = [] | _ => True end;
  ls_order : now ++ in_hand (lk_sender l) ++ lk_outbox l = sends;
}.

Lemma write_healthy e (s : S) : healthy s -> exists s', write_envelope e s = (Ok tt, s') /\ sent s' = sent s ++ envelope_bytes e /\ healthy s'.
Proof.
  intros Hh. unfold write_envelope, envelope_bytes.
  destruct (send_all_healthy (store_le 4 (to_u 32 (Z.of_nat (length (RaftEnvelope_encode e []))))) s Hh) as (s1 & -> & H1 & _ & Hh1).
  destruct (send_all_healthy (RaftEnvelope_encode e []) s1 Hh1) as (s2 & -> & H2 & _ & Hh2). exists s2. by rewrite H2, H1, app_assoc.
Qed.

Lemma sender_turn_lossless l sends now : in_hand (lk_sender l) = [] -> lk_past l = [] ->
  match lk_socket l with Some s => healthy s /\ sent s = concat (envelope_bytes <$> now) | None => now = [] end ->
  now ++ lk_outbox l = sends -> lossless (sender_turn l) sends now.
Proof.
  intros Hpc Hp Hn Ho. unfold sender_turn. destruct (lk_outbox l) as [|e outbox]; [by split|].
  destruct (lk_socket l) as [s|]; split; try done. by eexists.
Qed.

Lemma event_lossless_inv max_queue ev l sends now : lossless l sends now -> event_lossless ev -> (length sends < max_queue)%nat ->
  exists now', lossless (link_event max_queue ev l) (sends ++ option_list (event_send ev)) now'.
Proof.
  intros [Hp Hn Hpc Ho] Hev Hroom. destruct ev as [e|sock]; cbn [link_event event_send option_list].
  - exists now. unfold link_send. assert (Hq : (length (lk_outbox l) < max_queue)%nat).
    { apply (f_equal length) in Ho. rewrite !length_app in Ho. lia. }
    rewrite (proj2 (Nat.leb_gt _ _)) by done. unfold lk_sending.
    destruct (lk_sender l); split; cbn in *; try done; try (by rewrite <- Ho, <- ?app_assoc). destruct Hpc as [? ?]. split; [done|by destruct (lk_outbox l)].
  - rewrite app_nil_r. destruct (lk_sender l) as [| | |e] eqn:Hsender; cbn in Hpc, Ho.
    + exists now. split; rewrite ?Hsender; done.
    + exists now. apply sender_turn_lossless; [by rewrite Hsender|done..].
    + destruct Hpc as [Hsock Hne]. rewrite Hsock in Hn. subst now. exists []. destruct sock as [s|]; [|done]. destruct Hev as [Hfresh Hh].
      unfold sender_connected. destruct (lk_outbox l); [done|]. split; cbn; try done.
    + destruct Hpc as [s Hsock]. rewrite Hsock in Hn |- *. destruct Hn as [Hh Hn]. unfold sender_written.
      destruct (write_healthy e s Hh) as (s' & -> & Hw & Hh'). exists (now ++ [e]). rewrite sender_turn_pc. apply sender_turn_lossless; cbn; [done|done| |].
      * split; [done|]. rewrite Hw, Hn, fmap_app, concat_app. cbn. by rewrite app_nil_r.
      * by rewrite <- app_assoc.
Qed.

Lemma run_lossless max_queue evs : Forall event_lossless evs -> (length (sends_of evs) <= max_queue)%nat ->
  exists now, lossless (link_run max_queue evs new_link) (sends_of evs) now.
Proof.
  induction evs as [|ev evs IH] using rev_ind; intros Hf Hq; [by exists []; split|].
  apply Forall_app in Hf as [Hf Hev]. apply Forall_inv in Hev.
  assert (He : sends_of (evs ++ [ev]) = sends_of evs ++ option_list (event_send ev)).
  { unfold sends_of. rewrite omap_app. f_equal. }
  rewrite He in Hq |- *. rewrite length_app in Hq. destruct (IH Hf ltac:(lia)) as [now Hi]. unfold link_run. rewrite foldl_app. cbn [foldl].
  destruct ev as [e|sock].
  - apply (event_lossless_inv max_queue (LinkSend e) _ _ _ Hi Hev). cbn in Hq. lia.
  - destruct (event_lossless_inv (Datatypes.S max_queue) (LinkStep sock) _ _ _ Hi Hev) as [now' Hn]; [lia|]. by exists now'.
Qed.

(** C19. What a peer is given is what was sent to it, in order, less what was lost: over the connections
    that the transport opens to it, whatever connections and writes fail, however they cut the bytes and
    whatever the full queue drops, the receivers hand on a subsequence of the envelopes sent, each whole
    and once; and when no connection fails and the queue has room, all of them once the sender is idle. *)
Theorem raft_transport_delivers max_queue evs
  (Hsize : Forall fits_wire (sends_of evs)) (Hfresh : Forall event_fresh evs) :
  let l := link_run max_queue evs new_link in
  let connections := lk_past l ++ option_list (lk_socket l) in
  (exists given, Forall2 gives connections given /\ concat given `sublist_of` sends_of evs) /\
  (Forall event_lossless evs -> (length (sends_of evs) <= max_queue)%nat -> lk_sender l = SenderIdle ->
    exists given, Forall2 gives connections given /\ concat given = sends_of evs).
Proof.
  intros l connections. split; [by apply run_gives|]. intros Hl Hq Hidle.
  destruct (run_lossless max_queue evs Hl Hq) as (now & [Hp Hn Hpc Ho]). fold l in Hp, Hn, Hpc, Ho. rewrite Hidle in Hpc, Ho.
  rewrite Hpc in Ho. cbn in Ho. rewrite app_nil_r in Ho. subst now. unfold connections. rewrite Hp. destruct (lk_socket l) as [s|]; cbn.
  - exists [sends_of evs]. cbn. rewrite app_nil_r. split; [|done]. constructor; [|done]. apply written_gives; [done|].
    exists []. split; [by left|]. rewrite app_nil_r. apply Hn.
  - exists []. rewrite Hn. by split.
Qed.
End Transport.

(** ** Nodes, and a run *)

#[export] Instance planned_stream_writes : ByteStreamWrites PlannedStream.
Proof.
  split. intros data [inbox out sizes]. cbn. split; [|done]. unfold chunk_size. lia.
Qed.

(** Two envelopes: the first connection fails, the second one cuts what it is given. *)
Definition sample_heartbeat (term : Z) : RaftEnvelope := MkEnvelope "t" 0 (MkMessage 1 2 (PRequestVoteReply (MkRequestVoteReply term true))).

Definition two_heartbeats : list (LinkEvent PlannedStream) :=
  let opened := LinkStep (Ok (MkPlannedStream [] [] [3; 1; 7]%nat)) in
  [LinkSend (sample_heartbeat 1); LinkSend (sample_heartbeat 2); opened; opened; opened; opened].

Lemma raft_transport_delivers_witness : exists given,
  Forall2 gives (lk_past (link_run 8 two_heartbeats new_link) ++ option_list (lk_socket (link_run 8 two_heartbeats new_link))) given /\ concat given = [sample_heartbeat 1; sample_heartbeat 2].
Proof.
  assert (Hs : forall z, 0 <= z < 2 -> fits_wire (sample_heartbeat (z + 1))).
  { intros z Hz. split; [|vm_compute; discriminate]. unfold envelope_ok, sample_heartbeat, i_range, u_range. cbn [env_topic env_partition env_message m_from m_to m_payload payload_ok rvr_term].
    width_simpl. cbn. lia. }
  assert (Hsize : Forall fits_wire (sends_of two_heartbeats)) by (change (Forall fits_wire [sample_heartbeat (0 + 1); sample_heartbeat (1 + 1)]); constructor; [apply Hs; lia|]; constructor; [apply Hs; lia|constructor]).
  assert (Hfresh : Forall event_fresh two_heartbeats) by (repeat constructor).
  assert (Hl : Forall event_lossless two_heartbeats) by (repeat constructor).
  assert (Hq : (length (sends_of two_heartbeats) <= 8)%nat) by (vm_compute; lia).
  assert (Hidle : lk_sender (link_run 8 two_heartbeats new_link) = SenderIdle) by (vm_compute; reflexivity).
  destruct (proj2 (raft_transport_delivers 8 two_heartbeats Hsize Hfresh) Hl Hq Hidle) as (given & Hg & Hc).
  exists given. split; [exact Hg|exact Hc].
Defined.
