(* ===== verification/Clients.v ===== *)
(** * Producers and consumers

    Models the calls of [src/src/client/client.cpp], each a round trip of [Connection], and the two
    facades over them: [Producer] of [producer.cpp], which builds a batch and publishes it, and
    [Consumer] of [consumer.cpp], which reads the batches from its position on and gives their
    records; and the dead letters of [dead_letter.cpp].  The facades ask of the client what the class [ClientPort] says. *)
From Stdlib Require Import ZArith Lia.
From stdpp Require Import base list gmap strings.
From S2P Require Import Prelude Bytes Decimal Record Codec RecordCodec Frame FrameIo Messages Connection.
#[local] Open Scope Z_scope.

(** What the facades use of a client. *)
Class ClientPort (C : Type) := {
  cp_produce : ProduceRequest -> C -> expected ProduceResponse * C;
  cp_fetch : FetchRequest -> C -> expected FetchResponse * C;
}.

(** ** The calls of a client *)

Section Calls.
Context {S : Type} {BS : ByteStream S}.

Definition call_create_topic (name : string) (partition_count replication_factor : Z) (c : Client (S := S)) :
    expected CreateTopicResponse * Client :=
  round_trip CreateTopic 0 (MkCreateTopicRequest name partition_count replication_factor) c.

Definition call_delete_topic (name : string) (c : Client (S := S)) : expected DeleteTopicResponse * Client :=
  round_trip DeleteTopic 0 (MkDeleteTopicRequest name) c.

Definition call_metadata (topics : list string) (c : Client (S := S)) : expected MetadataResponse * Client :=
  round_trip Metadata 0 (MkMetadataRequest topics) c.

Definition call_produce (req : ProduceRequest) (c : Client (S := S)) : expected ProduceResponse * Client :=
  round_trip Produce 0 req c.

Definition call_fetch (req : FetchRequest) (c : Client (S := S)) : expected FetchResponse * Client :=
  round_trip Fetch 0 req c.

Definition call_commit_offset (group topic : string) (partition offset : Z) (metadata : string) (c : Client (S := S)) :
    expected OffsetCommitResponse * Client :=
  round_trip OffsetCommit 0 (MkOffsetCommitRequest group topic partition offset metadata) c.

Definition call_fetch_offset (group topic : string) (partition : Z) (c : Client (S := S)) :
    expected OffsetFetchResponse * Client :=
  round_trip OffsetFetch 0 (MkOffsetFetchRequest group topic partition) c.

#[export] Instance Client_port : ClientPort (Client (S := S)) := {
  cp_produce := call_produce;
  cp_fetch := call_fetch;
}.
End Calls.

Section Facades.
(** The compression libraries the program was built with. *)
Context (have_lz4 have_zstd : bool).
Context (lz4_compress zstd_compress : list byte -> option (list byte)).
Context (lz4_decompress zstd_decompress : list byte -> nat -> option (list byte)).
Context {C : Type} {CP : ClientPort C}.

(** ** [Producer] *)

(** What it holds besides its client: the codec of its batches. *)
Record Producer := MkProducer { pd_codec : Codec }.
Definition client_producer : Producer := MkProducer CodecNone.
Definition set_codec (codec : Codec) (_ : Producer) : Producer := MkProducer codec.

Definition record_of (key value : option (list byte)) : LogRecord := MkRecord key value [] 0 0.

Definition send_records (topic : string) (partition : Z) (records : list LogRecord) (p : Producer) (c : C) : expected Z * C :=
  let batch := batch_build have_lz4 have_zstd lz4_compress zstd_compress records default_header (pd_codec p) in
  match cp_produce (MkProduceRequest topic partition AcksLeader (batch_encode batch [])) c with
  | (Err e, c) => (Err e, c)
  | (Ok resp, c) =>
      (if bool_decide (pr_error_code resp = NoError) then Ok (pr_base_offset resp) else Err (to_error (pr_error_code resp)), c)
  end.

Definition producer_send (topic : string) (partition : Z) (value : list byte) : Producer -> C -> expected Z * C :=
  send_records topic partition [record_of None (Some value)].
Definition send_keyed (topic : string) (partition : Z) (key value : list byte) : Producer -> C -> expected Z * C :=
  send_records topic partition [record_of (Some key) (Some value)].
Definition send_tombstone (topic : string) (partition : Z) (key : list byte) : Producer -> C -> expected Z * C :=
  send_records topic partition [record_of (Some key) None].
Definition send_batch (topic : string) (partition : Z) (values : list (list byte)) : Producer -> C -> expected Z * C :=
  send_records topic partition ((fun value => record_of None (Some value)) <$> values).

(** ** [Consumer] *)

Record ConsumedRecord := MkConsumed {
  cr_offset : Z;
  cr_key : option (list byte);
  cr_value : option (list byte);
  cr_headers : list RecordHeader;
}.

Record Consumer := MkConsumer { cn_topic : string; cn_partition : Z; cn_position : Z }.
Definition client_consumer (topic : string) (partition : Z) : Consumer := MkConsumer topic partition 0.
Definition seek (offset : Z) (k : Consumer) : Consumer := MkConsumer (cn_topic k) (cn_partition k) offset.

Definition kDefaultMaxBytes : Z := 1048576.

Definition consumed (rec : LogRecord) : ConsumedRecord :=
  MkConsumed (r_offset rec) (r_key rec) (r_value rec) (r_headers rec).

(** The loop of [poll]: each batch whose header and bytes are there and that decodes; it stops at
    the first that is not.  A batch is at least its header, so that [remaining] has turns enough. *)
Fixpoint poll_loop (fuel : nat) (remaining : list byte) (out : list ConsumedRecord) (position : Z) :
    list ConsumedRecord * Z :=
  match fuel, remaining with
  | O, _ | _, [] => (out, position)
  | Datatypes.S fuel', _ =>
      match batch_peek remaining with
      | Err _ => (out, position)
      | Ok view =>
          if (length remaining <? view_encoded_size view)%nat then (out, position)
          else
            match batch_decode (subspan_n 0 (view_encoded_size view) remaining) with
            | Err _ => (out, position)
            | Ok batch =>
                match decode_records have_lz4 have_zstd lz4_decompress zstd_decompress batch kMaxRecordBytes with
                | Err _ => (out, position)
                | Ok records =>
                    poll_loop fuel' (subspan (view_encoded_size view) remaining) (out ++ (consumed <$> records))
                      (batch_last_offset batch + 1)
                end
            end
      end
  end.

Definition poll (max_bytes : Z) (k : Consumer) (c : C) : expected (list ConsumedRecord) * (Consumer * C) :=
  match cp_fetch (MkFetchRequest (cn_topic k) (cn_partition k) (cn_position k) max_bytes 0 0) c with
  | (Err e, c) => (Err e, (k, c))
  | (Ok resp, c) =>
      if bool_decide (fsr_error_code resp = NoError) then
        let '(out, position) := poll_loop (length (fsr_batches resp)) (fsr_batches resp) [] (cn_position k) in
        (Ok out, (MkConsumer (cn_topic k) (cn_partition k) position, c))
      else (Err (to_error (fsr_error_code resp)), (k, c))
  end.

(** ** Dead letters *)

Record DeadLetterContext := MkDeadLetterContext {
  dl_source_topic : string;
  dl_source_partition : Z;
  dl_source_offset : Z;
  dl_error : list byte;
  dl_attempts : Z;
}.

Definition dlq_header (name : string) (value : list byte) : RecordHeader := MkRecordHeader (bytes_of_string name) (Some value).

Definition make_dead_letter (failed : ConsumedRecord) (ctx : DeadLetterContext) : LogRecord :=
  MkRecord (cr_key failed) (cr_value failed)
    (cr_headers failed ++
     [dlq_header "x-dlq-topic" (bytes_of_string (dl_source_topic ctx));
      dlq_header "x-dlq-partition" (to_string (dl_source_partition ctx));
      dlq_header "x-dlq-offset" (to_string (dl_source_offset ctx));
      dlq_header "x-dlq-error" (dl_error ctx);
      dlq_header "x-dlq-attempts" (to_string (dl_attempts ctx))]) 0 0.

(** [DeadLetterRouter::route]. *)
Definition route_dead_letter (dlq_topic : string) (dlq_partition : Z) (failed : ConsumedRecord) (ctx : DeadLetterContext) :
    Producer -> C -> expected Z * C :=
  send_records dlq_topic dlq_partition [make_dead_letter failed ctx].
End Facades.
