(* ===== verification/ClientSafety.v ===== *)
(** * From a producer to a consumer

    What a producer sends to a partition is what a consumer polls from it: every record, in order,
    with its own offset, whatever codecs compress the batches, however many cores the broker has,
    however large each poll may be and however the streams cut the bytes.  The facades are proved
    against the class [ServedPort], a client whose calls are answered by a broker; a client and a
    connection over two streams are one of its instances. *)
From Stdlib Require Import ZArith Lia Ascii String.
From stdpp Require Import base list gmap strings.
From S2P Require Import Prelude Bytes Record Codec Frame FrameIo RaftState RaftLog Partition RecordCodec SegmentCrypto Segment SegmentSafety.
From S2P Require Import StorageTier PartitionLog PartitionLogSafety Topics TopicsSafety Messages RequestRouter RouterSafety.
From S2P Require Import KafkaSafety Connection Clients.
#[local] Open Scope Z_scope.

(** ** A client that a broker answers *)

Definition fits_reply (body : list byte) : Prop := Z.of_nat (kEncodedSize + length body) < 2 ^ 32.

(** The broker behind a client, and the clients whose calls reach it: a call is answered what the
    handler answers, as long as both messages fit their frames. *)
Class ServedPort {Q : Type} {PB : PartitionBase Q} (C : Type) {CP : ClientPort C} := {
  port_broker : C -> Broker Q;
  port_ok : C -> Prop;
  port_produce req c :
    port_ok c -> wire_ok req -> fits_frame (wire_encode req []) ->
    wire_ok (answer_produce req (port_broker c)).1 -> fits_reply (wire_encode (answer_produce req (port_broker c)).1 []) ->
    exists c', cp_produce req c = (Ok (answer_produce req (port_broker c)).1, c') /\
      port_broker c' = (answer_produce req (port_broker c)).2 /\ port_ok c';
  port_fetch req c :
    port_ok c -> wire_ok req -> fits_frame (wire_encode req []) ->
    wire_ok (answer_fetch req (port_broker c)).1 -> fits_reply (wire_encode (answer_fetch req (port_broker c)).1 []) ->
    exists c', cp_fetch req c = (Ok (answer_fetch req (port_broker c)).1, c') /\
      port_broker c' = (answer_fetch req (port_broker c)).2 /\ port_ok c';
}.

(** *** A client and a connection *)

(** Streams that bytes can be put on. *)
Class Feed (S : Type) {BS : ByteStream S} {BL : ByteStreamLaws S} := {
  feed : list byte -> S -> S;
  feed_healthy bs s : healthy s -> healthy (feed bs s) /\ pending (feed bs s) = pending s ++ bs /\ sent (feed bs s) = sent s;
}.

Section Linked.
Context {Q : Type} {PB : PartitionBase Q}.
Context (open_partition : TopicMetadata -> Z -> expected Q) (remove_all : string -> Z -> option string).
Context (hash_order : gmap string (Topic Q) -> list (string * Topic Q)) (clock : nat -> Z * (nat -> Z)).
Context {U V : Type} {BU : ByteStream U} {BUL : ByteStreamLaws U} {FU : Feed U} {BV : ByteStream V} {BVL : ByteStreamLaws V} {FV : Feed V}.

Record Linked := MkLinked { li_client : Client (S := U); li_server : V; li_broker : Broker Q; li_turn : nat }.

(** What was written since. *)
Definition written_since {S} {BS : ByteStream S} {BL : ByteStreamLaws S} (before after : S) : list byte :=
  drop (length (sent before)) (sent after).

(** A call: what the client writes reaches the connection, which serves it, and what it writes
    reaches the client. *)
Definition linked_call (k : ApiKey) (req : request_of k) (l : Linked) : expected (response_of k) * Linked :=
  let server := feed (written_since (cl_sock (li_client l)) (cl_sock (round_trip (Resp := response_of k) k 0 req (li_client l)).2)) (li_server l) in
  let '(server', b) := serve_connection open_partition remove_all hash_order clock 1 (li_turn l) server (li_broker l) in
  let client := MkClient (feed (written_since server server') (cl_sock (li_client l))) (cl_next_correlation_id (li_client l)) in
  let '(r, client') := round_trip k 0 req client in
  (r, MkLinked client' server' b (S (li_turn l))).

#[export] Instance Linked_port : ClientPort Linked := {
  cp_produce := linked_call Produce;
  cp_fetch := linked_call Fetch;
}.

Definition linked_ok (l : Linked) : Prop :=
  healthy (cl_sock (li_client l)) /\ pending (cl_sock (li_client l)) = [] /\
  u_range 32 (cl_next_correlation_id (li_client l)) /\ healthy (li_server l) /\ pending (li_server l) = [].

Lemma round_trip_sends (k : ApiKey) (req : request_of k) (c : Client (S := U)) :
  healthy (cl_sock c) -> pending (cl_sock c) = [] ->
  sent (cl_sock (round_trip (Resp := response_of k) k 0 req c).2) = sent (cl_sock c) ++ call_bytes (client_call k 0 req c).
Proof.
  intros Hh Hp. unfold round_trip. cbv zeta. change (FrameHeader_encode _ [] ++ _) with (call_bytes (client_call k 0 req c)).
  destruct (client_send_all_healthy (call_bytes (client_call k 0 req c)) (cl_sock c) Hh) as (s1 & -> & Hs1 & Hp1 & Hh1).
  unfold recv_frame_into, recv_exact. cbn [read_exactly length Nat.leb Nat.sub].
  rewrite Hp in Hp1. destruct (recv_closed 4 s1 Hh1 Hp1) as (s2 & -> & _ & Hs2 & _).
  cbn [is_ok make_error snd cl_sock]. unfold make_error. cbn [is_ok snd cl_sock]. congruence.
Qed.

Lemma linked_call_answered (k : ApiKey) (req : request_of k) (l : Linked) :
  let answer := answer_of open_partition remove_all hash_order (clock (li_turn l)).1 (clock (li_turn l)).2 k req (li_broker l) in
  linked_ok l -> wire_ok req -> fits_frame (wire_encode req []) -> wire_ok answer.1 -> fits_reply (wire_encode answer.1 []) ->
  exists l', linked_call k req l = (Ok answer.1, l') /\ li_broker l' = answer.2 /\ linked_ok l'.
Proof.
  intros answer (Hh & Hp & Hn & Hsh & Hsp) Hreq Hfit Hresp Hreply. unfold linked_call.
  set (call := client_call k 0 req (li_client l)).
  assert (Hcall : call_ok call) by (by split_and!).
  cbv zeta. unfold written_since. rewrite !round_trip_sends, !drop_app_length by done. fold call.
  destruct (feed_healthy (call_bytes call) (li_server l) Hsh) as (Hsh' & Hsp' & _). rewrite Hsp in Hsp'.
  set (server := feed _ _) in *. rewrite app_nil_l, <- (app_nil_r (call_bytes call)) in Hsp'.
  destruct (serve_call open_partition remove_all hash_order clock 0 (li_turn l) call [] server (li_broker l) Hcall Hsh' Hsp')
    as (s1 & -> & Hs1p & Hs1s & Hs1h).
  cbn [serve_connection]. rewrite Hs1s, drop_app_length.
  set (reply := reply_bytes _ _ _ _ _ _ _).
  destruct (feed_healthy reply (cl_sock (li_client l)) Hh) as (Hch & Hcp & _). rewrite Hp, app_nil_l in Hcp.
  assert (Hframed : framed_ok (call_header call) (wire_encode answer.1 [])) by (unfold framed_ok; cbn; split_and!; width_simpl; lia || done).
  destruct (round_trip_answered k 0 req answer.1 (MkClient (feed reply (cl_sock (li_client l))) (cl_next_correlation_id (li_client l))))
    as (s2 & -> & _ & Hs2p & Hs2h); [done..|].
  eexists. split; [done|]. cbn [li_broker]. split; [done|]. split_and!; cbn; try done.
  apply to_u_range. lia.
Qed.

#[export] Instance Linked_served : ServedPort Linked.
Proof.
  refine {| port_broker := li_broker; port_ok := linked_ok |}.
  - intros req l. exact (linked_call_answered Produce req l).
  - intros req l. exact (linked_call_answered Fetch req l).
Defined.
End Linked.

(** ** Batches of records in a log *)

Section Delivery.
Context {CC : Crypto} {CL : CryptoLaws} {T : Type} {ST : StorageTier T} (env : Environment) {EL : EnvironmentLaws env}.
Context (retention : RetentionPolicy -> Z -> PartitionLog T -> PartitionLog T).
Context (have_lz4 have_zstd : bool).
Context (lz4_compress zstd_compress : list byte -> option (list byte)).
Context (lz4_decompress zstd_decompress : list byte -> nat -> option (list byte)).
Context (lz4_inverse : forall x y, lz4_compress x = Some y ->
  lz4_decompress y (length x) = Some x /\ Z.of_nat (length y) < 2 ^ 31 /\ Z.of_nat (length x) < 2 ^ 31).
Context (zstd_inverse : forall x y, zstd_compress x = Some y -> zstd_decompress y (length x) = Some x).
Context (topic : string) (pid : Z).

#[local] Instance client_log_ops : PartitionLogOps (PartitionLog T) := PartitionLog_ops env.
#[local] Instance client_log_base : PartitionBase (BrokerPartition (PartitionLog T)) := BrokerPartition_base retention.

(** What a producer sends: a codec and some records. *)
Abbreviation Sent := (Codec * list LogRecord)%type (only parsing).

Abbreviation decode batch := (decode_records have_lz4 have_zstd lz4_decompress zstd_decompress batch kMaxRecordBytes).

Definition built (s : Sent) : RecordBatch :=
  batch_build have_lz4 have_zstd lz4_compress zstd_compress s.2 default_header s.1.

Definition size_of (s : Sent) : Z := Z.of_nat (length s.2).
Definition records_total (ss : list Sent) : Z := Z.of_nat (length (concat ss.*2)).

(** The batches of a log that stores them from an offset on, with the records each holds. *)
Fixpoint stored (o : Z) (ss : list Sent) : list RecordBatch :=
  match ss with [] => [] | s :: ss => rebase o (built s) :: stored (o + size_of s) ss end.

Definition produce_request (s : Sent) : ProduceRequest := MkProduceRequest topic pid AcksLeader (batch_encode (built s) []).

(** What the format and the frame of a request can carry. *)
Record sendable (s : Sent) : Prop := {
  sd_records : records_ok s.2 0;
  sd_some : s.2 <> [];
  sd_size : Z.of_nat (length (encode_loop s.2 0 [])) <= kMaxRecordBytes;
  sd_batch : batch_ok (built s);
  sd_frame : fits_frame (wire_encode (produce_request s) []);
}.

Lemma records_total_cons s ss : records_total (s :: ss) = size_of s + records_total ss.
Proof. unfold records_total, size_of. cbn. rewrite length_app. lia. Qed.

Lemma records_total_app xs ys : records_total (xs ++ ys) = records_total xs + records_total ys.
Proof. induction xs as [|x xs IH]; [done|]. cbn [app]. rewrite !records_total_cons, IH. lia. Qed.

Lemma records_total_nonneg ss : 0 <= records_total ss.
Proof. unfold records_total. lia. Qed.

Lemma size_pos s : sendable s -> 0 < size_of s.
Proof. intros [_ Hs _ _ _]. unfold size_of. destruct s.2; [done|]. cbn. lia. Qed.

Lemma number_from_app o xs ys : number_from o (xs ++ ys) = number_from o xs ++ number_from (o + Z.of_nat (length xs)) ys.
Proof.
  revert o. induction xs as [|x xs IH]; intros o; cbn [app number_from length]; [by rewrite Z.add_0_r|].
  rewrite IH. do 3 f_equal. lia.
Qed.

Lemma stored_app o xs ys : stored o (xs ++ ys) = stored o xs ++ stored (o + records_total xs) ys.
Proof.
  revert o. induction xs as [|x xs IH]; intros o; cbn [app stored]; [by rewrite Z.add_0_r|].
  rewrite IH, records_total_cons, Z.add_assoc. done.
Qed.

Lemma built_rebase o s : rebase o (built s) =
  batch_build have_lz4 have_zstd lz4_compress zstd_compress s.2 (MkHeader o 0 (-1) (-1) (-1) 0) s.1.
Proof. unfold built, batch_build. cbv zeta. destruct (_ && _); [|done]. by destruct (compress _ _ _ _ _ _). Qed.

(** A stored batch: its count, and the records it decodes to. *)
Lemma stored_batch o s :
  sendable s -> size_of s < 2 ^ 31 ->
  h_record_count (b_header (built s)) = size_of s /\ decode (rebase o (built s)) = Ok (number_from o s.2).
Proof.
  intros Hs Hc. destruct Hs as [Hr _ Hsz _ _].
  assert (Ha : u_range 16 (h_attrs (MkHeader o 0 (-1) (-1) (-1) 0))) by by_range.
  destruct (batch_build_roundtrip have_lz4 have_zstd lz4_compress zstd_compress lz4_decompress zstd_decompress lz4_inverse zstd_inverse
    s.2 (MkHeader o 0 (-1) (-1) (-1) 0) s.1 kMaxRecordBytes Ha Hr Hc Hsz) as [Hd Hn].
  rewrite <- built_rebase in Hd, Hn. split; [exact Hn|]. by rewrite Hd.
Qed.

Lemma rebase_ok o b : i_range 64 o -> batch_ok b -> batch_ok (rebase o b).
Proof. intros Ho ((_ & H) & Hr). by split; [split|]. Qed.

(** *** The loop of the consumer *)

Lemma poll_loop_step fuel b records tail out position :
  batch_ok b -> decode b = Ok records ->
  poll_loop have_lz4 have_zstd lz4_decompress zstd_decompress (S fuel) (batch_layout b ++ tail) out position
  = poll_loop have_lz4 have_zstd lz4_decompress zstd_decompress fuel tail (out ++ (consumed <$> records)) (batch_last_offset b + 1).
Proof.
  intros Hb Hd. cbn [poll_loop]. pose proof (length_batch_layout b) as Hl.
  destruct (batch_layout b ++ tail) as [|x l] eqn:E.
  { apply (f_equal length) in E. rewrite length_app, Hl in E. unfold encoded_size, kHeaderSize in E. cbn in E. lia. }
  rewrite <- E. rewrite batch_peek_layout by done. cbn [view_encoded_size].
  rewrite (proj2 (Nat.ltb_ge _ _)) by (rewrite length_app, Hl; lia).
  unfold subspan_n, subspan. rewrite drop_0, <- Hl, take_app_length, drop_app_length.
  pose proof (batch_decode_layout b [] Hb) as Hdec. rewrite app_nil_r in Hdec. by rewrite Hdec, Hd.
Qed.

Lemma poll_loop_stored fuel o ss out position :
  Forall sendable ss -> 0 <= o -> o + records_total ss < 2 ^ 31 -> (length ss <= fuel)%nat ->
  poll_loop have_lz4 have_zstd lz4_decompress zstd_decompress fuel (concat (batch_layout <$> stored o ss)) out position
  = (out ++ (consumed <$> number_from o (concat ss.*2)), match ss with [] => position | _ => o + records_total ss end).
Proof.
  intros Hss. revert fuel o out position. induction Hss as [|s ss Hs _ IH]; intros fuel o out position Ho Ht Hf.
  - cbn. rewrite app_nil_r. by destruct fuel.
  - destruct fuel as [|fuel]; [cbn in Hf; lia|]. rewrite records_total_cons in *. pose proof (records_total_nonneg ss). pose proof (size_pos s Hs).
    cbn [stored fmap list_fmap concat]. destruct (stored_batch o s Hs) as [Hn Hd]; [lia|].
    rewrite (poll_loop_step fuel _ (number_from o s.2)); [|apply rebase_ok; [width_simpl; lia|apply Hs]|done].
    rewrite IH by (cbn in Hf; lia). rewrite number_from_app, fmap_app, app_assoc. fold (size_of s). f_equal.
    unfold batch_last_offset. cbn [rebase b_header h_base_offset h_record_count]. rewrite Hn.
    destruct ss; [|lia]. unfold records_total. cbn. lia.
Qed.

(** *** What a fetch gives *)

Lemma skip_stored o position pre rest :
  Forall sendable (pre ++ rest) -> records_total (pre ++ rest) < 2 ^ 31 ->
  o + records_total pre <= position -> match rest with [] => True | s :: _ => position < o + records_total pre + size_of s end ->
  skip_batches position (stored o (pre ++ rest)) = stored (o + records_total pre) rest.
Proof.
  revert o. induction pre as [|x pre IH]; intros o Hss Ht Hpos Hrest; cbn [app stored skip_batches] in *.
  - change (records_total []) with 0 in *. rewrite Z.add_0_r in *. destruct rest as [|s rest]; [done|]. cbn [stored skip_batches].
    apply Forall_cons in Hss as [Hs _]. rewrite records_total_cons in Ht. pose proof (records_total_nonneg rest).
    destruct (stored_batch o s Hs) as [Hn _]; [lia|]. unfold batch_last_offset. cbn [rebase b_header h_base_offset h_record_count].
    rewrite Hn, (proj2 (Z.ltb_ge _ _)) by lia. done.
  - apply Forall_cons in Hss as [Hx Hss]. rewrite !records_total_cons in *. pose proof (records_total_nonneg (pre ++ rest)). pose proof (records_total_nonneg pre).
    pose proof (size_pos x Hx). destruct (stored_batch o x Hx) as [Hn _]; [lia|].
    unfold batch_last_offset. cbn [rebase b_header h_base_offset h_record_count].
    rewrite Hn, (proj2 (Z.ltb_lt _ _)) by lia. rewrite IH by (done || lia || by destruct rest; [|lia]).
    f_equal. lia.
Qed.

(** A read gives a number of whole batches, one at least where there is any. *)
Lemma take_until_whole max r bs :
  exists n, (n <= length bs)%nat /\ fr_batches (take_until max r bs) = fr_batches r ++ concat (batch_layout <$> take n bs) /\
    ((length (fr_batches r) < max)%nat -> bs <> [] -> (0 < n)%nat).
Proof.
  revert r. induction bs as [|b bs IH]; intros r.
  { exists 0%nat. cbn. by rewrite app_nil_r. }
  cbn [take_until]. destruct (Nat.ltb_spec (length (fr_batches r)) max).
  - destruct (IH (MkFetch (fr_batches r ++ batch_layout b) (batch_last_offset b + 1))) as (n & Hn & Hf & _).
    exists (S n). cbn. rewrite Hf. cbn. rewrite <- app_assoc. split_and!; [lia|done|lia].
  - exists 0%nat. cbn. rewrite app_nil_r. split_and!; [lia|done|lia].
Qed.

Lemma take_stored n o ss : take n (stored o ss) = stored o (take n ss).
Proof. revert n o. induction ss as [|s ss IH]; intros [|n] o; cbn; [done..|]. by rewrite IH. Qed.

Lemma length_stored o ss : length (stored o ss) = length ss.
Proof. revert o. induction ss as [|s ss IH]; intros o; cbn; [done|]. by rewrite IH. Qed.

(** *** The partition behind the client *)

(** The partition of the topic, on the core that owns it. *)
Definition owned (b : Broker (BrokerPartition (PartitionLog T))) : option (BrokerPartition (PartitionLog T)) :=
  br_topics b !! partition_core pid b ≫= find_partition topic pid.

Context (cfg : LogConfig).

(** It holds what was sent, from offset 0. *)
Definition holds_sent (ss : list Sent) (b : Broker (BrokerPartition (PartitionLog T))) : Prop :=
  exists p producers epoch proto fss,
    owned b = Some (plain p producers epoch proto) /\ (proto = ProtocolUnset \/ proto = ProtocolNative) /\
    log_rep p fss /\ pg_log_start p = 0 /\ pg_cfg p = cfg /\ fst <$> concat fss = stored 0 ss /\ pg_log_end p = records_total ss.

Lemma pg_append_cfg b (p : PartitionLog T) : pg_tier p = None -> pg_cfg (pg_append env b p).2 = pg_cfg p.
Proof.
  intros Ht. unfold pg_append.
  set (roll := match last (pg_segments p) with Some _ => _ | None => _ end).
  assert (Hroll : pg_cfg roll.2 = pg_cfg p).
  { subst roll. destruct (last _) as [s|]; [|done]. destruct (negb _ && _); [|done]. by apply roll_segment_same. }
  destruct roll as [[u|e] q]; cbn [snd] in Hroll |- *; [|done]. cbv zeta.
  set (f := segment_append _ _). pose proof (on_active_same f (pg_count_call q)) as (_ & _ & Hf & _).
  destruct (on_active f _) as [[lst|e] q1]; cbn [snd] in Hf |- *; [|by rewrite Hf, <- Hroll].
  set (q2 := pg_set_end _ q1). match goal with |- context [maybe_sync ?n q2] => pose proof (maybe_sync_same n q2) as (_ & _ & Hm & _); destruct (maybe_sync n q2) as [[u'|e] q3] end;
    cbn [snd] in Hm |- *; rewrite Hm, <- Hroll; exact Hf.
Qed.

Lemma pg_open_cfg files (p : PartitionLog T) : pg_open env cfg None (Ok []) files = Ok p -> pg_cfg p = cfg.
Proof. unfold pg_open. cbn. destruct (create_segment _ _ _) as [[u|e] q]; [|done]. by intros [= <-]. Qed.

(** A batch fits the index as long as the offsets do. *)
Lemma stored_fits (p : PartitionLog T) fss s :
  log_rep p fss -> pg_log_start p = 0 -> pg_cfg p = cfg -> lc_segment_bytes cfg <= 2 ^ 31 - 128 -> 0 <= pg_log_end p ->
  sendable s -> pg_log_end p + size_of s < 2 ^ 31 -> append_fits (built s) p.
Proof.
  intros Hp Hst Hcfg Hbytes He Hs Ht. pose proof (size_pos s Hs). destruct (stored_batch 0 s Hs) as [Hn _]; [lia|].
  split; rewrite ?Hn; [apply rebase_ok; [width_simpl; lia|apply Hs]|lia|by rewrite Hcfg|].
  destruct (log_rep_split _ _ Hp) as (init & sg & finit & fs & Hseg & _ & _ & Hc & Hb & _).
  unfold active_base. rewrite Hseg, last_snoc, Hb, Hst.
  pose proof (end_of_ge _ _ (chained_contiguous _ _ _ Hc)) as Hge. rewrite Hst in Hge. lia.
Qed.

Lemma owned_stored b topics q f :
  br_topics b !! partition_core pid b = Some topics -> is_Some (find_partition topic pid topics) ->
  owned (br_count_produce f (br_set_topics (<[partition_core pid b := store_partition topic pid q topics]> (br_topics b)) b)) = Some q.
Proof.
  intros Hc Hf. unfold owned, partition_core at 1. cbn [br_wired br_topics br_set_topics br_count_produce br_self]. rewrite length_insert.
  fold (partition_core pid b). rewrite list_lookup_insert_eq by (by eapply lookup_lt_Some). by apply find_store.
Qed.

Lemma produce_answer s b p producers epoch proto :
  sendable s -> owned b = Some (plain p producers epoch proto) -> proto = ProtocolUnset \/ proto = ProtocolNative ->
  exists b', answer_produce (produce_request s) b =
    (match (pg_append env (built s) p).1 with
     | Ok last => MkProduceResponse (last - h_record_count (b_header (built s)) + 1) NoError 0
     | Err e => produce_error (from_error e)
     end, b') /\ owned b' = Some (plain (pg_append env (built s) p).2 producers epoch ProtocolNative).
Proof.
  intros [_ _ _ Hbatch _] Hown Hproto. unfold owned in Hown. apply bind_Some in Hown as (topics & Hcore & Hfind).
  unfold answer_produce, on_core. cbn [produce_request pq_partition]. rewrite Hcore.
  unfold handle_produce. cbn [pq_topic pq_partition pq_batch produce_request]. rewrite Hfind.
  rewrite batch_encode_layout by done. pose proof (batch_decode_layout (built s) [] Hbatch) as Hdec.
  rewrite app_nil_r in Hdec. cbn [app]. rewrite Hdec.
  unfold pb_claim, pb_produce, client_log_base, BrokerPartition_base, broker_claim, plain, partition_claim. cbn [pt_protocol pt_state pt_leader_epoch].
  replace (claim_protocol ProtocolNative proto) with (Ok tt : expected unit, ProtocolNative) by (by destruct Hproto as [->| ->]).
  unfold broker_produce, partition_produce, idempotent_produce. cbn [pt_state pr_store pr_producers].
  assert (Hno : (h_producer_id (b_header (built s)) <? 0) = true).
  { unfold built, batch_build. cbv zeta. destruct (_ && _); [|done]. by destruct (compress _ _ _ _ _ _). }
  rewrite Hno. unfold pl_append, client_log_ops, PartitionLog_ops.
  destruct (pg_append env _ p) as [[last|e] p']; cbn [fst snd pt_leader_epoch pt_protocol]; rewrite store_twice; (eexists; split; [done|]).
  all: by eapply owned_stored.
Qed.

(** *** Sending and polling *)

Context {C : Type} {CP : ClientPort C} {SP : ServedPort C}.
Context (Htopic : (String.length topic <= kMaxTopicNameLength)%nat) (Hpid : i_range 32 pid) (Hbytes : lc_segment_bytes cfg <= 2 ^ 31 - 128).

Abbreviation send s c := (send_records have_lz4 have_zstd lz4_compress zstd_compress topic pid s.2 (MkProducer s.1) c).

Lemma topic_ok : string_ok topic.
Proof. unfold string_ok. unfold kMaxTopicNameLength in Htopic. width_simpl. lia. Qed.

Lemma small_reply r : fits_reply (wire_encode (A := ProduceResponse) r []).
Proof.
  unfold fits_reply, kEncodedSize. cbn [wire_encode ProduceResponse_wire]. unfold ProduceResponse_encode, put_i64, put_i32, put_i16.
  rewrite !length_app, !length_store_le. cbn. lia.
Qed.

Lemma produce_request_ok s : sendable s -> wire_ok (produce_request s).
Proof.
  intros [_ _ _ Hb _]. split_and!; [by apply topic_ok|done|]. unfold fits_size. cbn [produce_request pq_batch].
  rewrite batch_encode_layout, app_nil_l, length_batch_layout by done. destruct Hb as (_ & Hl & _).
  unfold encoded_size, kHeaderSize. width_simpl. lia.
Qed.

Lemma send_holds ss s c base c' :
  holds_sent ss (port_broker c) -> port_ok c -> sendable s -> records_total ss + size_of s < 2 ^ 31 -> send s c = (Ok base, c') ->
  base = records_total ss /\ holds_sent (ss ++ [s]) (port_broker c') /\ port_ok c'.
Proof.
  intros (p & producers & epoch & proto & fss & Hown & Hproto & Hrep & Hst & Hcfg & Hstored & Hend) Hok Hs Ht.
  pose proof (records_total_nonneg ss). pose proof (size_pos s Hs).
  destruct (stored_batch 0 s Hs) as [Hn _]; [lia|].
  destruct (produce_answer s (port_broker c) p producers epoch proto Hs Hown Hproto) as (b' & Hans & Hown').
  pose proof (pg_append_cfg (built s) p (lr_tier _ _ Hrep)) as Hcfg'.
  destruct (pg_append_rep env EL (built s) p fss Hrep) as (Hst' & fss' & Hrep' & Happ).
  { eapply stored_fits; [done..| |done|]; lia. }
  unfold send_records. fold (built s). cbn [pd_codec]. fold (built s). change (MkProduceRequest topic pid AcksLeader _) with (produce_request s).
  destruct (port_produce (produce_request s) c) as (c1 & -> & Hb & Hok1); rewrite ?Hans; cbn [fst snd].
  - done.
  - by apply produce_request_ok.
  - apply Hs.
  - destruct (pg_append env (built s) p) as [[last|e] p']; cbn [fst].
    + destruct Happ as [-> _]. unfold batch_last_offset. cbn [rebase b_header h_base_offset h_record_count]. rewrite Hend.
      split_and!; cbn; [width_simpl; lia|done|by_range].
    + split_and!; cbn; [by_range|apply wire_error_class|by_range].
  - apply small_reply.
  - rewrite Hans in Hb. cbn [snd] in Hb. subst b'.
    destruct (pg_append env (built s) p) as [[last|e] p']; cbn [fst snd] in *.
    + cbn [pr_error_code pr_base_offset]. rewrite bool_decide_true by done. intros [= <- <-].
      destruct Happ as (-> & fr & Hcat). unfold batch_last_offset. cbn [rebase b_header h_base_offset h_record_count]. rewrite Hn, Hend.
      split; [lia|]. split; [|done]. exists p', producers, epoch, ProtocolNative, fss'. split_and!; try done; [by right|congruence|congruence| |].
      * rewrite Hcat, fmap_app, Hstored, stored_app, Hend. done.
      * rewrite (lr_end _ _ Hrep'), Hcat. unfold end_of. rewrite last_snoc. unfold last_of, batch_last_offset. cbn [fst rebase b_header h_base_offset h_record_count].
        rewrite Hn, Hend, records_total_app, records_total_cons. change (records_total []) with 0. lia.
    + rewrite bool_decide_false by apply wire_error_class. done.
Qed.

Definition fetch_request (position max_bytes : Z) : FetchRequest := MkFetchRequest topic pid position max_bytes 0 0.

Lemma fetch_request_ok position max_bytes :
  i_range 64 position -> i_range 32 max_bytes ->
  wire_ok (fetch_request position max_bytes) /\ fits_frame (wire_encode (fetch_request position max_bytes) []).
Proof.
  intros Hp Hm. split; [split_and!; try done; [by apply topic_ok|by_range..]|].
  unfold fits_frame, kMaxClientFrame, kEncodedSize. cbn [wire_encode FetchRequest_wire]. unfold FetchRequest_encode, put_i64, put_i32, put_string, enc_put_varint.
  rewrite !length_app, !length_store_le, length_bytes_of_string. cbn [fetch_request fq_topic length].
  pose proof (length_put_varint (Z.of_nat (String.length topic)) topic_ok). unfold kMaxTopicNameLength, kMaxVarintBytes in *. lia.
Qed.

Lemma fetch_reply_fits batches hw start e :
  Z.of_nat (length batches) < 2 ^ 31 -> fits_reply (wire_encode (MkFetchResponse batches hw start e) []).
Proof.
  intros Hb. unfold fits_reply, kEncodedSize. cbn [wire_encode FetchResponse_wire]. unfold FetchResponse_encode, put_bytes, put_i64, put_i16, enc_put_varint.
  rewrite !length_app, !length_store_le. cbn [fsr_batches length].
  assert (Hu : u_range 64 (Z.of_nat (length batches))) by (width_simpl; lia).
  pose proof (length_put_varint _ Hu). unfold kMaxVarintBytes in *. lia.
Qed.

Lemma fetch_answer position max_bytes b p producers epoch proto fss ss pre rest :
  owned b = Some (plain p producers epoch proto) -> proto = ProtocolUnset \/ proto = ProtocolNative ->
  log_rep p fss -> pg_log_start p = 0 -> fst <$> concat fss = stored 0 ss -> pg_log_end p = records_total ss ->
  ss = pre ++ rest -> Forall sendable ss -> records_total ss < 2 ^ 31 ->
  records_total pre <= position -> match rest with [] => True | s :: _ => position < records_total pre + size_of s end ->
  exists n, (n <= length rest)%nat /\ (rest <> [] -> (0 < n)%nat) /\
    (answer_fetch (fetch_request position max_bytes) b).1 =
      MkFetchResponse (concat (batch_layout <$> stored (records_total pre) (take n rest))) (records_total ss) 0 NoError.
Proof.
  intros Hown Hproto Hrep Hst Hstored Hend -> Hss Ht Hpos Hrest.
  unfold owned in Hown. apply bind_Some in Hown as (topics & Hcore & Hfind).
  unfold answer_fetch, on_core. cbn [fetch_request fq_partition]. rewrite Hcore. cbn [fst].
  unfold handle_fetch. cbn [fq_topic fq_partition fq_max_bytes fq_fetch_offset fetch_request]. rewrite Hfind.
  change (pb_protocol _) with proto.
  replace (negb (bool_decide (proto = ProtocolUnset)) && negb (bool_decide (proto = ProtocolNative))) with false
    by (by destruct Hproto as [->| ->]).
  set (max := if 0 <? max_bytes then _ else _).
  assert (Hmax : (0 < max)%nat) by (subst max; destruct (Z.ltb_spec 0 max_bytes); [|unfold kDefaultFetchBytes]; lia).
  unfold pb_fetch, client_log_base, BrokerPartition_base, partition_fetch. cbn [plain pt_state pr_store].
  pose proof (records_total_nonneg pre).
  unfold pl_read, client_log_ops, PartitionLog_ops. rewrite (pg_read_spec env p fss) by (done || lia). cbn [expected_bind].
  unfold read_spec. rewrite Hstored, (skip_stored 0) by (done || (rewrite Z.add_0_l; done) || by destruct rest; [|rewrite Z.add_0_l]).
  rewrite Z.add_0_l. destruct (take_until_whole max (MkFetch [] position) (stored (records_total pre) rest)) as (n & Hn & Hf & Hone).
  rewrite length_stored in Hn. exists n. split_and!; [done|by destruct rest; [|intros _; apply Hone]|].
  rewrite Hf, take_stored. cbn [fr_batches app].
  change (pb_high_watermark _) with (pg_log_end p). change (pb_log_start _) with (pg_log_start p). by rewrite Hst, Hend.
Qed.

Abbreviation poll_at max k c := (poll have_lz4 have_zstd lz4_decompress zstd_decompress max k c).

Lemma poll_step position max_bytes c ss pre rest :
  holds_sent ss (port_broker c) -> port_ok c -> ss = pre ++ rest -> Forall sendable ss -> records_total ss < 2 ^ 31 ->
  Z.of_nat (length (concat (batch_layout <$> stored 0 ss))) < 2 ^ 31 -> i_range 32 max_bytes -> position < 2 ^ 63 ->
  records_total pre <= position -> match rest with [] => True | s :: _ => position < records_total pre + size_of s end ->
  exists n c', (n <= length rest)%nat /\ (rest <> [] -> (0 < n)%nat) /\
    poll_at max_bytes (MkConsumer topic pid position) c =
      (Ok (consumed <$> number_from (records_total pre) (concat (take n rest).*2)),
       (MkConsumer topic pid (match take n rest with [] => position | _ => records_total (pre ++ take n rest) end), c')) /\
    holds_sent ss (port_broker c') /\ port_ok c'.
Proof.
  intros Hh Hok Hsplit Hss Ht Hsize Hmax Hp63 Hpos Hrest.
  pose proof Hh as (p & producers & epoch & proto & fss & Hown & Hproto & Hrep & Hst & Hcfg & Hstored & Hend).
  destruct (fetch_answer position max_bytes (port_broker c) p producers epoch proto fss ss pre rest)
    as (n & Hn & Hone & Hans); [done..|].
  pose proof (records_total_nonneg pre) as Hpre. pose proof (records_total_nonneg ss) as Htn.
  destruct (fetch_request_ok position max_bytes) as [Hreq Hfit]; [width_simpl; lia|done|].
  set (batches := concat (batch_layout <$> stored (records_total pre) (take n rest))) in *.
  assert (Hlen : Z.of_nat (length batches) < 2 ^ 31).
  { subst ss batches. rewrite <- (take_drop n rest), !stored_app, !fmap_app, !concat_app, !length_app, Z.add_0_l in Hsize. lia. }
  unfold poll. cbn [cn_topic cn_partition cn_position]. fold (fetch_request position max_bytes).
  destruct (port_fetch (fetch_request position max_bytes) c) as (c' & -> & Hb & Hok'); rewrite ?Hans; try done.
  - split_and!; cbn [fsr_batches fsr_high_watermark fsr_log_start_offset fsr_error_code]; [unfold fits_size; width_simpl; lia|width_simpl; lia|by_range|done].
  - by apply fetch_reply_fits.
  - cbn [fsr_error_code fsr_batches]. rewrite bool_decide_true by done.
    exists n, c'. split_and!; [done|done| | |done].
    + subst batches. rewrite poll_loop_stored.
      * cbn [app]. rewrite records_total_app. done.
      * subst ss. apply Forall_app in Hss as [_ Hss]. by apply Forall_take.
      * done.
      * subst ss. rewrite <- (take_drop n rest), !records_total_app in Ht. pose proof (records_total_nonneg (drop n rest)). lia.
      * rewrite <- (length_stored (records_total pre)). generalize (stored (records_total pre) (take n rest)). intros bs.
        induction bs as [|b bs IH]; cbn; [lia|]. rewrite length_app, length_batch_layout. unfold encoded_size, kHeaderSize. lia.
    + rewrite Hb. exists p, producers, epoch, proto, fss. split_and!; try done.
      rewrite <- Hown. unfold answer_fetch. by destruct (on_core _ _ _ _).
Qed.

(** Sending one batch after the other, and polling one time after the other, while no call fails. *)
Fixpoint sends (ss : list Sent) (c : C) : option (list Z * C) :=
  match ss with
  | [] => Some ([], c)
  | s :: ss =>
      match send s c with
      | (Ok base, c) => '(bases, c) ← sends ss c; Some (base :: bases, c)
      | (Err _, _) => None
      end
  end.

Fixpoint polls (maxes : list Z) (k : Consumer) (c : C) : option (list ConsumedRecord * (Consumer * C)) :=
  match maxes with
  | [] => Some ([], (k, c))
  | max :: maxes =>
      match poll_at max k c with
      | (Ok out, (k, c)) => '(more, kc) ← polls maxes k c; Some (out ++ more, kc)
      | (Err _, _) => None
      end
  end.

(** The offset of the first record of each. *)
Fixpoint first_offsets (o : Z) (ss : list Sent) : list Z :=
  match ss with [] => [] | s :: ss => o :: first_offsets (o + size_of s) ss end.

Lemma sends_hold before ss c bases c' :
  holds_sent before (port_broker c) -> port_ok c -> Forall sendable ss -> records_total (before ++ ss) < 2 ^ 31 ->
  sends ss c = Some (bases, c') ->
  bases = first_offsets (records_total before) ss /\ holds_sent (before ++ ss) (port_broker c') /\ port_ok c'.
Proof.
  revert before c bases. induction ss as [|s ss IH]; intros before c bases Hh Hok Hss Ht; cbn [sends first_offsets].
  { intros [= <- <-]. by rewrite app_nil_r. }
  apply Forall_cons in Hss as [Hs Hss]. rewrite (cons_middle s before ss), app_assoc in Ht |- *.
  pose proof Ht as Ht'. rewrite !records_total_app, records_total_cons in Ht'. pose proof (records_total_nonneg ss). change (records_total []) with 0 in Ht'.
  destruct (send s c) as [[base|e] c1] eqn:E; [|done].
  destruct (send_holds before s c base c1 Hh Hok Hs ltac:(lia) E) as (-> & Hh1 & Hok1).
  destruct (sends ss c1) as [[more c2]|] eqn:E2; [|done]. intros [= <- <-].
  destruct (IH (before ++ [s]) c1 more Hh1 Hok1 Hss Ht E2) as (-> & Hh2 & Hok2).
  split; [|done]. f_equal. rewrite records_total_app, records_total_cons. f_equal. change (records_total []) with 0. lia.
Qed.

Lemma polls_read maxes position c ss pre rest :
  holds_sent ss (port_broker c) -> port_ok c -> ss = pre ++ rest -> Forall sendable ss -> records_total ss < 2 ^ 31 ->
  Z.of_nat (length (concat (batch_layout <$> stored 0 ss))) < 2 ^ 31 -> Forall (i_range 32) maxes -> position < 2 ^ 63 ->
  records_total pre <= position -> match rest with [] => True | s :: _ => position < records_total pre + size_of s end ->
  exists n c', (n <= length rest)%nat /\ (n = length rest \/ length maxes <= n)%nat /\
    polls maxes (MkConsumer topic pid position) c =
      Some (consumed <$> number_from (records_total pre) (concat (take n rest).*2),
        (MkConsumer topic pid (match take n rest with [] => position | _ => records_total (pre ++ take n rest) end), c')).
Proof.
  intros Hh Hok Hsplit Hss Ht Hsize Hmaxes. revert position c pre rest Hh Hok Hsplit.
  induction Hmaxes as [|max maxes Hmax _ IH]; intros position c pre rest Hh Hok Hsplit Hp63 Hpos Hrest.
  { exists 0%nat, c. cbn. split_and!; [lia|lia|done]. }
  destruct (poll_step position max c ss pre rest) as (n & c1 & Hn & Hone & Hpoll & Hh1 & Hok1); [done..|].
  cbn [polls]. rewrite Hpoll. pose proof (records_total_nonneg ss).
  destruct rest as [|s0 rest0] eqn:Erest.
  { replace (take n []) with (@nil Sent) in * by (by destruct n).
    destruct (IH position c1 pre [] Hh1 Hok1 Hsplit Hp63 Hpos I) as (m & c2 & Hm & Hlen & Hpolls). rewrite Hpolls.
    assert (m = 0)%nat as -> by (cbn in Hm; lia). exists 0%nat, c2. split_and!; [done|by left|done]. }
  rewrite <- Erest in *. specialize (Hone ltac:(by subst)). destruct (take n rest) as [|t1 t] eqn:Et.
  { subst rest. destruct n; [lia|done]. }
  rewrite <- Et. set (t' := take n rest) in *.
  assert (Hsplit' : ss = (pre ++ t') ++ drop n rest) by (unfold t'; by rewrite <- app_assoc, take_drop).
  assert (Hle : records_total (pre ++ t') <= records_total ss).
  { rewrite Hsplit', (records_total_app (pre ++ t')). pose proof (records_total_nonneg (drop n rest)). lia. }
  destruct (IH (records_total (pre ++ t')) c1 (pre ++ t') (drop n rest) Hh1 Hok1 Hsplit') as (m & c2 & Hm & Hlen & Hpolls); [lia|done| |].
  { destruct (drop n rest) as [|s l] eqn:Ed; [done|]. assert (Hs : sendable s).
    { rewrite Hsplit' in Hss. apply Forall_app in Hss as [_ Hss]. by apply Forall_cons in Hss as [Hs _]. }
    pose proof (size_pos s Hs). lia. }
  rewrite Hpolls. exists (n + m)%nat, c2. rewrite length_drop in Hm, Hlen. cbn [length].
  assert (Htake : take (n + m) rest = t' ++ take m (drop n rest)) by (symmetry; apply take_take_drop).
  rewrite Htake. split_and!; [lia|lia|]. cbn [mbind option_bind].
  rewrite fmap_app, concat_app, number_from_app, (fmap_app consumed). fold (records_total t'). rewrite <- (records_total_app pre t').
  rewrite (app_assoc pre). assert (Hne : t' <> []) by (by rewrite Et). destruct t' as [|t2 l]; [done|]. cbn [app].
  destruct (take m (drop n rest)); [by rewrite (app_nil_r (pre ++ t2 :: l))|done].
Qed.

(** C1. What a producer sends is what a consumer polls.  Once batches of records have been sent to a
    new partition, whatever codecs compress them and with no call failed, the answers were the
    offsets the batches begin at; and polls from any position, however much each asks for, give
    every record from the batch that holds the position on, whole, in order, without repetition and
    numbered by the offset it is stored at, until all are read or the polls run out, each poll
    reading one batch at least, and leave the position after the last record read. *)
Theorem produced_is_consumed (files : Z -> expected (File.File * File.File)) (p : PartitionLog T) (epoch : Z)
    (c c' : C) (pre rest : list Sent) (bases maxes : list Z) (position : Z)
    (Hopen : pg_open env cfg None (Ok []) files = Ok p)
    (Hnew : owned (port_broker c) = Some (Plain (new_partition p epoch))) (Hok : port_ok c)
    (Hsendable : Forall sendable (pre ++ rest)) (Hcount : records_total (pre ++ rest) < 2 ^ 31)
    (Hsize : Z.of_nat (length (concat (batch_layout <$> stored 0 (pre ++ rest)))) < 2 ^ 31)
    (Hsent : sends (pre ++ rest) c = Some (bases, c'))
    (Hmaxes : Forall (i_range 32) maxes) (Hrange : position < 2 ^ 63)
    (Hposition : records_total pre <= position) (Hwithin : match rest with [] => True | s :: _ => position < records_total pre + size_of s end) :
  bases = first_offsets 0 (pre ++ rest) /\
  exists n c'', (n <= length rest)%nat /\ (n = length rest \/ length maxes <= n)%nat /\
    polls maxes (seek position (client_consumer topic pid)) c' =
      Some (consumed <$> number_from (records_total pre) (concat (take n rest).*2),
        (seek (if (n =? 0)%nat then position else records_total (pre ++ take n rest)) (client_consumer topic pid), c'')).
Proof.
  destruct (pg_open_rep env EL _ _ _ Hopen) as (Hrep & Hst & Hend). pose proof (pg_open_cfg _ _ Hopen) as Hcfg.
  assert (Hh : holds_sent [] (port_broker c)).
  { exists p, ∅, epoch, ProtocolUnset, [[]]. split_and!; try done. by left. }
  destruct (sends_hold [] _ c bases c' Hh Hok Hsendable Hcount Hsent) as (Hbases & Hh' & Hok').
  split; [exact Hbases|].
  destruct (polls_read maxes position c' _ pre rest Hh' Hok' eq_refl Hsendable Hcount Hsize Hmaxes Hrange Hposition Hwithin)
    as (n & c'' & Hn & Hlen & Hpolls).
  exists n, c''. split_and!; [done|done|]. etransitivity; [exact Hpolls|]. do 4 f_equal. unfold seek. f_equal.
  destruct n, rest; try done. cbn in Hn. lia.
Qed.
End Delivery.

(** A batch whose records do not decode stops every poll that reaches it: it answers no records, as if
    the consumer were up to date, and stays where it is. *)
Theorem undecodable_batch_stalls :
  let batch := MkBatch (MkHeader 0 0 (-1) (-1) (-1) 1) [255] in
  batch_decode (batch_encode batch []) = Ok batch /\
  poll_loop false false (fun _ _ => None) (fun _ _ => None) 100 (batch_encode batch []) [] 0 = ([], 0).
Proof. vm_compute. done. Qed.

(** ** A broker of two cores *)

#[export] Instance PlannedStream_feed : Feed PlannedStream.
Proof.
  refine {| feed bs s := MkPlannedStream (ps_inbox s ++ bs) (ps_outbox s) (ps_sizes s) |}. done.
Defined.

Section Sample.
#[local] Existing Instance sample_crypto.
#[local] Existing Instance sample_crypto_laws.

Abbreviation Log := (PartitionLog Empty_set) (only parsing).
#[local] Instance delivery_log_ops : PartitionLogOps Log := client_log_ops log_env.
#[local] Instance delivery_log_base : PartitionBase (BrokerPartition Log) := client_log_base log_env (pg_enforce_retention log_env).

(** The partition 1 of a topic, on the second core: a new encrypted log. *)
Definition delivery_broker : Broker (BrokerPartition Log) :=
  MkBroker true 0
    [new_topic_manager 2 0;
     MkTopicManager 2 1 {["t"%string := MkTopic (MkTopicMetadata "t" 2 1 default_topic_config 0)
       {[1 := Plain (new_partition (opened log_env log_cfg) 0)]}]} []]
    [∅; ∅] [∅; ∅] 1 "h" 9092 None None.

Definition no_open (_ : TopicMetadata) (_ : Z) : expected (BrokerPartition Log) := make_error NotFound "".

Definition delivery_client : Linked (Q := BrokerPartition Log) (U := PlannedStream) (V := PlannedStream) :=
  MkLinked (MkClient (MkPlannedStream [] [] [2; 9]%nat) 4294967295) (MkPlannedStream [] [] [5; 1; 40]%nat) delivery_broker 0.

#[local] Instance delivery_port : ClientPort (Linked (Q := BrokerPartition Log) (U := PlannedStream) (V := PlannedStream)) :=
  Linked_port no_open (fun _ _ => None) (fun _ => []) (fun _ => (0, fun _ => 0)).
#[local] Instance delivery_served : ServedPort (Linked (Q := BrokerPartition Log) (U := PlannedStream) (V := PlannedStream)) :=
  Linked_served no_open (fun _ _ => None) (fun _ => []) (fun _ => (0, fun _ => 0)).

(** Two records through a codec and one in the clear. *)
Definition delivered : list (Codec * list LogRecord) :=
  [(Zstd, sample_records); (CodecNone, [record_of None (Some [7; 8])])].

Abbreviation delivery_sends := (sends false true (fun _ => None) store_codec "t" 1 (C := Linked (U := PlannedStream) (V := PlannedStream))).
Abbreviation delivery_polls := (polls false true (fun _ _ => None) load_codec (C := Linked (U := PlannedStream) (V := PlannedStream))).

Definition delivery_outcome : option (list Z * (list ConsumedRecord * Z)) :=
  '(bases, c) ← delivery_sends delivered delivery_client;
  '(out, (k, _)) ← delivery_polls [1; 100] (seek 1 (client_consumer "t" 1)) c;
  Some (bases, (out, cn_position k)).

Lemma delivered_sendable : Forall (sendable false true (fun _ => None) store_codec "t" 1) delivered.
Proof.
  assert (Hs : forall bs, (length bs < 100)%nat -> size_ok bs) by (intros bs Hb; unfold size_ok; lia).
  constructor; [|constructor; [|constructor]]; split; try discriminate.
  - exact sample_records_ok.
  - vm_compute. repeat split; by_range || (repeat constructor; discriminate).
  - split; [|exact I]. split_and!; try exact I; [by_range|by_range|apply Hs; vm_compute; lia|constructor|vm_compute; discriminate|apply Hs; vm_compute; lia].
  - vm_compute. repeat split; by_range || (repeat constructor; discriminate).
Qed.

Lemma produced_is_consumed_witness :
  delivery_outcome = Some ([0; 2], (consumed <$> number_from 0 (sample_records ++ [record_of None (Some [7; 8])]), 3)).
Proof.
  assert (Hlz : forall x y : list byte, (fun _ : list byte => @None (list byte)) x = Some y ->
    (fun (_ : list byte) (_ : nat) => @None (list byte)) y (length x) = Some x /\
    Z.of_nat (length y) < 2 ^ 31 /\ Z.of_nat (length x) < 2 ^ 31) by (intros x y H; discriminate H).
  assert (Hzs : forall x y, store_codec x = Some y -> load_codec y (length x) = Some x)
    by (intros x y H; injection H as <-; reflexivity).
  assert (Hopen : pg_open (T := Empty_set) log_env log_cfg None (Ok []) (env_files log_env 0) = Ok (opened log_env log_cfg))
    by (vm_compute; reflexivity).
  assert (Hnew : owned "t" 1 (port_broker delivery_client) = Some (Plain (new_partition (opened log_env log_cfg) 0))) by reflexivity.
  assert (Hok : port_ok delivery_client) by (vm_compute; repeat split; discriminate).
  assert (Hcount : records_total ([] ++ delivered) < 2 ^ 31) by (vm_compute; reflexivity).
  assert (Hsize : Z.of_nat (length (concat (batch_layout <$> stored false true (fun _ => None) store_codec 0 ([] ++ delivered)))) < 2 ^ 31)
    by (vm_compute; reflexivity).
  assert (Hbytes : lc_segment_bytes log_cfg <= 2 ^ 31 - 128) by (vm_compute; discriminate).
  assert (Htopic : (String.length "t" <= kMaxTopicNameLength)%nat) by (vm_compute; lia).
  assert (Hpid : i_range 32 1) by by_range.
  assert (Hmaxes : Forall (i_range 32) [1; 100]) by (constructor; [by_range|constructor; [by_range|constructor]]).
  unfold delivery_outcome.
  destruct (delivery_sends delivered delivery_client) as [[bases c']|] eqn:Hsent; [|vm_compute in Hsent; discriminate].
  destruct (produced_is_consumed (EL := log_env_laws) log_env (pg_enforce_retention log_env) false true (fun _ => None) store_codec
    (fun _ _ => None) load_codec Hlz Hzs "t" 1 log_cfg Htopic Hpid Hbytes (env_files log_env 0) (opened log_env log_cfg) 0
    delivery_client c' [] delivered bases [1; 100] 1 Hopen Hnew Hok delivered_sendable Hcount Hsize Hsent Hmaxes)
    as (Hbases & n & c'' & Hn & Hlen & Hpolls); [vm_compute; reflexivity|vm_compute; discriminate|vm_compute; reflexivity|].
  assert (n = 2%nat) as -> by (cbn in Hn, Hlen; lia).
  cbn [mbind option_bind]. rewrite Hpolls, Hbases. vm_compute. reflexivity.
Defined.
End Sample.
