(* ===== verification/Metrics.v ===== *)
(** * Metrics

    Models [src/src/telemetry/metrics.cpp], the registry of counters, gauges and histograms with its
    Prometheus text and its snapshot, and [server/metrics_json.cpp], which writes the snapshot.  A
    [std::map] over strings is the list of its entries in the order of their keys; the reference to a
    metric that the registry hands out is its key; [Labels] are in the order they are kept in. *)
From Stdlib Require Import ZArith Lia Floats.SpecFloat String.
From stdpp Require Import base list strings.
From S2P Require Import Prelude Codec Decimal Json Http.
#[local] Open Scope Z_scope.

(** ** Maps in the order of their keys *)

(** The order of [std::string]: of its bytes. *)
Fixpoint text_compare (a b : list byte) : comparison :=
  match a, b with
  | [], [] => Eq
  | [], _ => Lt
  | _, [] => Gt
  | x :: a, y :: b => match x ?= y with Eq => text_compare a b | c => c end
  end.

Section OrderedMap.
Context {A : Type}.

Fixpoint map_find (key : list byte) (m : list (list byte * A)) : option A :=
  match m with
  | [] => None
  | (k, a) :: m => match text_compare key k with Eq => Some a | Lt => None | Gt => map_find key m end
  end.

(** [insert_or_assign]; [emplace] is for a key that is not there. *)
Fixpoint map_assign (key : list byte) (a : A) (m : list (list byte * A)) : list (list byte * A) :=
  match m with
  | [] => [(key, a)]
  | (k, a') :: m' =>
      match text_compare key k with
      | Lt => (key, a) :: m
      | Eq => (k, a) :: m'
      | Gt => (k, a') :: map_assign key a m'
      end
  end.
End OrderedMap.

(** ** Metrics *)

Definition Labels : Type := list (list byte * list byte).

(** [std::ranges::sort] of labels: equal ones cannot be told apart. *)
Definition label_compare (x y : list byte * list byte) : comparison :=
  match text_compare x.1 y.1 with Eq => text_compare x.2 y.2 | c => c end.

Fixpoint insert_label (x : list byte * list byte) (l : Labels) : Labels :=
  match l with
  | [] => [x]
  | y :: l' => match label_compare x y with Gt => y :: insert_label x l' | _ => x :: l end
  end.
Definition sort_labels (l : Labels) : Labels := foldr insert_label [] l.

(** [Counter] and [Gauge], their value. *)
Definition counter_inc (n : Z) (value : Z) : Z := to_u 64 (value + n).
Definition gauge_inc (n : Z) (value : Z) : Z := to_i 64 (value + n).
Definition gauge_dec (n : Z) (value : Z) : Z := to_i 64 (value - n).

Record Histogram := MkHistogram {
  hs_bounds : list spec_float;
  hs_buckets : list Z;
  hs_count : Z;
  hs_sum : spec_float;
}.

Definition new_histogram (bounds : list spec_float) : Histogram :=
  MkHistogram bounds (replicate (S (length bounds)) 0) 0 (S754_zero false).

(** The first bound that is not below the value. *)
Fixpoint bucket_index (value : spec_float) (bounds : list spec_float) : nat :=
  match bounds with
  | [] => 0
  | bound :: bounds => if SFltb bound value then S (bucket_index value bounds) else 0
  end.

Definition observe (value : spec_float) (h : Histogram) : Histogram :=
  MkHistogram (hs_bounds h) (alter (fun n => to_u 64 (n + 1)) (bucket_index value (hs_bounds h)) (hs_buckets h))
    (to_u 64 (hs_count h + 1)) (SFadd 53 1024 (hs_sum h) value).

Record Series (M : Type) := MkSeries { sr_name : list byte; sr_labels : Labels; sr_metric : M }.
Arguments MkSeries {M}.
Arguments sr_name {M}.
Arguments sr_labels {M}.
Arguments sr_metric {M}.

Definition Family (M : Type) : Type := list (list byte * Series M).

Record MetricsRegistry := MkRegistry {
  mr_counters : Family Z;
  mr_gauges : Family Z;
  mr_histograms : Family Histogram;
  mr_help : list (list byte * list byte);
}.

Definition new_registry : MetricsRegistry := MkRegistry [] [] [] [].

Definition series_key (name : list byte) (labels : Labels) : list byte :=
  foldl (fun key label => key ++ [31] ++ label.1 ++ [30] ++ label.2) name labels.

(** The series of a metric, created where it is missing. *)
Definition find_or_create {M} (fresh : M) (name : list byte) (labels : Labels) (family : Family M) : list byte * Family M :=
  let labels := sort_labels labels in
  let key := series_key name labels in
  match map_find key family with
  | Some _ => (key, family)
  | None => (key, map_assign key (MkSeries name labels fresh) family)
  end.

Definition counter (name : list byte) (labels : Labels) (r : MetricsRegistry) : list byte * MetricsRegistry :=
  let '(key, counters) := find_or_create 0 name labels (mr_counters r) in
  (key, MkRegistry counters (mr_gauges r) (mr_histograms r) (mr_help r)).
Definition gauge (name : list byte) (labels : Labels) (r : MetricsRegistry) : list byte * MetricsRegistry :=
  let '(key, gauges) := find_or_create 0 name labels (mr_gauges r) in
  (key, MkRegistry (mr_counters r) gauges (mr_histograms r) (mr_help r)).
Definition histogram (name : list byte) (labels : Labels) (bounds : list spec_float) (r : MetricsRegistry) : list byte * MetricsRegistry :=
  let '(key, histograms) := find_or_create (new_histogram bounds) name labels (mr_histograms r) in
  (key, MkRegistry (mr_counters r) (mr_gauges r) histograms (mr_help r)).

(** What a holder of the reference does to the metric. *)
Definition update_series {M} (f : M -> M) (key : list byte) (family : Family M) : Family M :=
  match map_find key family with
  | Some s => map_assign key (MkSeries (sr_name s) (sr_labels s) (f (sr_metric s))) family
  | None => family
  end.

Definition metrics_describe (name help : list byte) (r : MetricsRegistry) : MetricsRegistry :=
  MkRegistry (mr_counters r) (mr_gauges r) (mr_histograms r) (map_assign name help (mr_help r)).

(** ** Prometheus text *)

Definition escape_label_char (c : byte) : list byte :=
  if c =? 92 then [92; 92] else if c =? 34 then [92; 34] else if c =? 10 then [92; 110] else [c].
Definition escape_label_value (value : list byte) : list byte := concat (escape_label_char <$> value).

Definition render_label (label : list byte * list byte) : list byte :=
  label.1 ++ [61; 34] ++ escape_label_value label.2 ++ [34].

Fixpoint comma_separated (texts : list (list byte)) : list byte :=
  match texts with
  | [] => []
  | [text] => text
  | text :: texts => text ++ [44] ++ comma_separated texts
  end.

Definition render_labels (labels : Labels) : list byte :=
  match labels with [] => [] | _ => [123] ++ comma_separated (render_label <$> labels) ++ [125] end.

(** A line with the value of a series. *)
Definition sample_line (name : list byte) (labels : Labels) (value : list byte) : list byte :=
  name ++ render_labels labels ++ [32] ++ value ++ [10].

Definition help_type (help : list (list byte * list byte)) (name type : list byte) : list byte :=
  match map_find name help with
  | Some text => bytes_of_string "# HELP " ++ name ++ [32] ++ text ++ [10]
  | None => []
  end ++ bytes_of_string "# TYPE " ++ name ++ [32] ++ type ++ [10].

(** The lines of the cumulative buckets. *)
Fixpoint bucket_samples (labels : Labels) (name : list byte) (bounds : list spec_float) (buckets : list Z) (cumulative : Z) :
    list (list byte * Labels * list byte) * Z :=
  match bounds, buckets with
  | bound :: bounds, n :: buckets =>
      let cumulative := to_u 64 (cumulative + n) in
      let '(samples, total) := bucket_samples labels name bounds buckets cumulative in
      ((name, labels ++ [(bytes_of_string "le", format_double bound)], to_string cumulative) :: samples, total)
  | _, _ => ([], cumulative)
  end.

Definition histogram_samples (name : list byte) (labels : Labels) (h : Histogram) : list (list byte * Labels * list byte) :=
  let bucket := name ++ bytes_of_string "_bucket" in
  let '(samples, cumulative) := bucket_samples labels bucket (hs_bounds h) (hs_buckets h) 0 in
  let cumulative := to_u 64 (cumulative + default 0 (hs_buckets h !! length (hs_bounds h))) in
  samples ++
  [(bucket, labels ++ [(bytes_of_string "le", bytes_of_string "+Inf")], to_string cumulative);
   (name ++ bytes_of_string "_sum", labels, format_double (hs_sum h));
   (name ++ bytes_of_string "_count", labels, to_string (hs_count h))].

Definition value_samples (name : list byte) (labels : Labels) (value : Z) : list (list byte * Labels * list byte) :=
  [(name, labels, to_string value)].

Definition sample_text (s : list byte * Labels * list byte) : list byte := sample_line s.1.1 s.1.2 s.2.

(** The series of a kind, each name announced where it changes. *)
Fixpoint render_family {M} (help : list (list byte * list byte)) (type : list byte)
    (samples : list byte -> Labels -> M -> list (list byte * Labels * list byte)) (current : list byte) (family : Family M) : list byte :=
  match family with
  | [] => []
  | (_, s) :: family =>
      (if bool_decide (sr_name s = current) then [] else help_type help (sr_name s) type) ++
      concat (sample_text <$> samples (sr_name s) (sr_labels s) (sr_metric s)) ++
      render_family help type samples (sr_name s) family
  end.

Definition render_prometheus (r : MetricsRegistry) : list byte :=
  render_family (mr_help r) (bytes_of_string "counter") value_samples [] (mr_counters r) ++
  render_family (mr_help r) (bytes_of_string "gauge") value_samples [] (mr_gauges r) ++
  render_family (mr_help r) (bytes_of_string "histogram") histogram_samples [] (mr_histograms r).

(** ** Snapshot *)

Inductive SampleValue :=
  | CounterSample (value : spec_float)
  | GaugeSample (value : spec_float)
  | HistogramSample (buckets : list (spec_float * Z)) (count : Z) (sum : spec_float).

Record MetricSample := MkMetricSample { ms_name : list byte; ms_labels : Labels; ms_value : SampleValue }.

(** [static_cast<double>] of an integer. *)
Definition double_of (z : Z) : spec_float :=
  if z <? 0 then SFopp (binary_normalize 53 1024 (- z) 0 false) else binary_normalize 53 1024 z 0 false.

Fixpoint cumulative_buckets (bounds : list spec_float) (buckets : list Z) (cumulative : Z) : list (spec_float * Z) :=
  match bounds, buckets with
  | bound :: bounds, n :: buckets =>
      let cumulative := to_u 64 (cumulative + n) in (bound, cumulative) :: cumulative_buckets bounds buckets cumulative
  | _, _ => []
  end.

Definition samples_of {M} (value : M -> SampleValue) (family : Family M) : list MetricSample :=
  (fun e => MkMetricSample (sr_name e.2) (sr_labels e.2) (value (sr_metric e.2))) <$> family.

Definition snapshot (r : MetricsRegistry) : list MetricSample :=
  samples_of (fun v => CounterSample (double_of v)) (mr_counters r) ++
  samples_of (fun v => GaugeSample (double_of v)) (mr_gauges r) ++
  samples_of (fun h => HistogramSample (cumulative_buckets (hs_bounds h) (hs_buckets h) 0) (hs_count h) (hs_sum h)) (mr_histograms r).

Definition metric_type_name (v : SampleValue) : list byte :=
  bytes_of_string match v with CounterSample _ => "counter" | GaugeSample _ => "gauge" | HistogramSample _ _ _ => "histogram" end.

(** [default_latency_bounds]. *)
Definition default_latency_bounds : list spec_float :=
  (fun s => strtod (bytes_of_string s)) <$>
    ["0.005"; "0.01"; "0.025"; "0.05"; "0.1"; "0.25"; "0.5"; "1.0"; "2.5"; "5.0"; "10.0"]%string.

(** ** [render_metrics_snapshot_json] *)




Definition write_bucket (w : JsonWriter) (b : spec_float * Z) : JsonWriter :=
  begin_object w |> write_key (bytes_of_string "le") |> write_double b.1
    |> write_key (bytes_of_string "cumulativeCount") |> write_int (to_i 64 b.2) |> end_object.

Definition write_sample_value (v : SampleValue) (w : JsonWriter) : JsonWriter :=
  match v with
  | CounterSample x | GaugeSample x => write_double x (write_key (bytes_of_string "value") w)
  | HistogramSample buckets count sum =>
      let w := w |> write_key (bytes_of_string "count") |> write_int (to_i 64 count)
                 |> write_key (bytes_of_string "sum") |> write_double sum
                 |> write_key (bytes_of_string "buckets") |> begin_array in
      end_array (foldl write_bucket w buckets)
  end.

Definition write_sample (w : JsonWriter) (s : MetricSample) : JsonWriter :=
  let w := begin_object w |> field_text "name" (ms_name s) |> field_text "type" (metric_type_name (ms_value s))
             |> write_key (bytes_of_string "labels") |> begin_object in
  let w := end_object (foldl (fun w label => write_string label.2 (write_key label.1 w)) w (ms_labels s)) in
  end_object (write_sample_value (ms_value s) w).

Definition render_metrics_snapshot_json (samples : list MetricSample) : list byte :=
  let w := begin_array (write_key (bytes_of_string "metrics") (begin_object new_writer)) in
  jw_out (end_object (end_array (foldl write_sample w samples))).
