(* ===== verification/MetricsSafety.v ===== *)
(** * The metrics that are read

    A reader of the Prometheus text format, apart from the code: what it reads of the text of a
    registry is its families, each announced once and before its samples, and the value of every
    series, whatever the values of the labels hold. *)
From Stdlib Require Import ZArith Lia Floats.SpecFloat String Sorting.Sorted.
From stdpp Require Import base list sets strings.
From S2P Require Import Prelude Codec Decimal Json Metrics.
#[local] Open Scope Z_scope.

(** ** The order of keys *)

Lemma text_compare_eq a b : text_compare a b = Eq <-> a = b.
Proof.
  revert b. induction a as [|x a IH]; intros [|y b]; cbn; try done. destruct (Z.compare_spec x y); [|split; [done|intros [= <- _]; lia]..].
  subst. rewrite IH. split; congruence.
Qed.

Lemma text_compare_antisym a b : text_compare b a = CompOpp (text_compare a b).
Proof.
  revert b. induction a as [|x a IH]; intros [|y b]; cbn; try done. rewrite (Z.compare_antisym x y). destruct (x ?= y); cbn; [apply IH|done..].
Qed.

Definition text_lt (a b : list byte) : Prop := text_compare a b = Lt.

Lemma text_lt_trans a b c : text_lt a b -> text_lt b c -> text_lt a c.
Proof.
  unfold text_lt. revert b c. induction a as [|x a IH]; intros [|y b] [|z c]; cbn; try done.
  destruct (Z.compare_spec x y), (Z.compare_spec y z); subst; try done; intros Hab Hbc.
  - rewrite Z.compare_refl. by eapply IH.
  - by rewrite (proj2 (Z.compare_lt_iff _ _)) by lia.
  - by rewrite (proj2 (Z.compare_lt_iff _ _)) by lia.
  - by rewrite (proj2 (Z.compare_lt_iff _ _)) by lia.
Qed.

Lemma text_compare_app p a b : text_compare (p ++ a) (p ++ b) = text_compare a b.
Proof. induction p as [|x p IH]; cbn; [done|]. by rewrite Z.compare_refl. Qed.

(** What lies between two texts with a prefix has it. *)
Lemma between_prefix p a b k : text_lt (p ++ a) k -> text_lt k (p ++ b) -> exists c, k = p ++ c.
Proof.
  unfold text_lt. revert k. induction p as [|x p IH]; intros k; [by exists k|]. destruct k as [|y k]; cbn; [done|].
  rewrite (Z.compare_antisym x y). destruct (Z.compare_spec x y); cbn; [|done..]. subst. intros H1 H2.
  destruct (IH k H1 H2) as [c ->]. by exists c.
Qed.

Section Sorted.
Context {A : Type}.

(** The keys of a map, in their order. *)
Definition sorted (m : list (list byte * A)) : Prop := StronglySorted (fun x y => text_lt x.1 y.1) m.

Lemma assign_head key (a : A) m k : text_lt k key -> Forall (fun e => text_lt k e.1) m -> Forall (fun e => text_lt k e.1) (map_assign key a m).
Proof.
  intros Hk. induction m as [|[k' a'] m IH]; cbn; [by constructor|]. intros [H1 H2]%Forall_cons.
  destruct (text_compare key k'); repeat constructor; auto.
Qed.

Lemma assign_sorted key (a : A) m : sorted m -> sorted (map_assign key a m).
Proof.
  induction m as [|[k a'] m IH]; cbn; [repeat constructor|]. intros Hs. apply StronglySorted_inv in Hs as [Hs Hall].
  destruct (text_compare key k) eqn:E.
  - by constructor.
  - constructor; [by constructor|]. constructor; [done|]. eapply Forall_impl; [done|]. intros [k2 a2] H. cbn in *. by eapply text_lt_trans.
  - constructor; [by apply IH|]. apply assign_head; [|done]. unfold text_lt. cbn [fst]. by rewrite text_compare_antisym, E.
Qed.

Lemma assign_in key (a : A) m e : e ∈ map_assign key a m -> e = (key, a) \/ e ∈ m.
Proof.
  induction m as [|[k a'] m IH]; cbn; [set_solver|]. destruct (text_compare key k) eqn:E; [|set_solver|set_solver].
  apply text_compare_eq in E as ->. set_solver.
Qed.

Lemma find_in key m (a : A) : map_find key m = Some a -> (key, a) ∈ m.
Proof.
  induction m as [|[k a'] m IH]; cbn; [done|]. destruct (text_compare key k) eqn:E; [|done|].
  - apply text_compare_eq in E as ->. intros [= ->]. set_solver.
  - intros H. apply IH in H. set_solver.
Qed.
End Sorted.

(** ** Registries *)

(** Letters, digits, [_] and [:]. *)
Definition name_char (c : byte) : bool :=
  ((48 <=? c) && (c <=? 58)) || ((65 <=? c) && (c <=? 90)) || (c =? 95) || ((97 <=? c) && (c <=? 122)).
Definition name_ok (name : list byte) : Prop := name <> [] /\ Forall (fun c => name_char c = true) name.
Definition labels_ok (labels : Labels) : Prop := Forall (fun label => name_ok label.1) labels.

Lemma name_char_bounds c : name_char c = true -> 48 <= c <= 122.
Proof. unfold name_char. lia. Qed.

Definition family_ok {M} (family : Family M) : Prop :=
  sorted family /\ Forall (fun e => e.1 = series_key (sr_name e.2) (sr_labels e.2) /\ name_ok (sr_name e.2) /\ labels_ok (sr_labels e.2)) family.

Record registry_ok (r : MetricsRegistry) : Prop := {
  ro_counters : family_ok (mr_counters r);
  ro_gauges : family_ok (mr_gauges r);
  ro_histograms : family_ok (mr_histograms r);
  ro_help : Forall (fun e => 10 ∉ e.2) (mr_help r);
}.

Lemma sort_labels_in x labels : x ∈ sort_labels labels -> x ∈ labels.
Proof.
  assert (Hins : forall y l, x ∈ insert_label y l -> x = y \/ x ∈ l).
  { intros y l. induction l as [|z l IH]; cbn; [set_solver|]. destruct (label_compare y z); set_solver. }
  induction labels as [|y l IH]; cbn; [done|]. intros [->|H]%Hins; set_solver.
Qed.

Lemma sort_labels_ok labels : labels_ok labels -> labels_ok (sort_labels labels).
Proof. unfold labels_ok. rewrite !Forall_forall. intros H x Hx%sort_labels_in. by apply H. Qed.

Lemma find_or_create_ok {M} (fresh : M) name labels family :
  name_ok name -> labels_ok labels -> family_ok family -> family_ok (find_or_create fresh name labels family).2.
Proof.
  intros Hn Hl [Hs Hall]. unfold find_or_create. destruct (map_find _ family); [done|]. split; [by apply assign_sorted|].
  apply Forall_forall. intros e [->|He]%assign_in; [by split_and!; [|done|apply sort_labels_ok]|]. rewrite Forall_forall in Hall. by apply Hall.
Qed.

Lemma update_series_ok {M} (f : M -> M) key family : family_ok family -> family_ok (update_series f key family).
Proof.
  intros [Hs Hall]. unfold update_series. destruct (map_find key family) as [s|] eqn:E; [|done]. apply find_in in E.
  split; [by apply assign_sorted|]. rewrite Forall_forall in Hall |- *. intros e [->|He]%assign_in; [|by apply Hall].
  exact (Hall _ E).
Qed.

(** ** Families *)

Lemma series_key_shape name labels : exists rest, series_key name labels = name ++ rest /\ (rest = [] \/ exists t, rest = 31 :: t).
Proof.
  unfold series_key. revert name. induction labels as [|x labels IH] using rev_ind; intros name.
  - exists []. cbn. rewrite app_nil_r. by split; [|left].
  - rewrite foldl_app. destruct (IH name) as (rest & -> & Hrest). cbn [foldl].
    exists (rest ++ [31] ++ x.1 ++ [30] ++ x.2). split; [by rewrite !app_assoc|]. right.
    destruct Hrest as [->|[t ->]]; eexists; cbn; done.
Qed.

(** The names of the keys in between two keys of a name are that name. *)
Lemma between_name n n2 l1 l2 l3 :
  name_ok n -> name_ok n2 -> text_lt (series_key n l1) (series_key n2 l2) -> text_lt (series_key n2 l2) (series_key n l3) -> n2 = n.
Proof.
  intros [_ Hn] [_ Hn2]. destruct (series_key_shape n l1) as (x & -> & Hx), (series_key_shape n2 l2) as (w & -> & Hw),
    (series_key_shape n l3) as (y & -> & Hy). intros H1 H2.
  destruct (between_prefix _ _ _ _ H1 H2) as [z Hz]. rewrite Hz in H2. unfold text_lt in H2. rewrite text_compare_app in H2.
  assert (Hz31 : z = [] \/ exists c t, z = c :: t /\ c <= 31).
  { destruct z as [|c t]; [by left|]. right. exists c, t. split; [done|]. destruct Hy as [->|[u ->]]; cbn in H2; [done|].
    destruct (Z.compare_spec c 31); [lia|lia|done]. }
  clear H1 H2 Hx Hy x y l1 l2 l3. revert n Hn Hz. induction Hn2 as [|c n2 Hc _ IH]; intros n Hn Hz.
  - cbn in Hz. subst w. destruct Hn as [|d n Hd _]; [done|]. destruct Hw as [|[t [= ? _]]]; [done|]. apply name_char_bounds in Hd. lia.
  - destruct Hn as [|d n Hd Hn]; cbn in Hz.
    + subst z. destruct Hz31 as [|(c' & t & [= <- _] & ?)]; [done|]. apply name_char_bounds in Hc. lia.
    + injection Hz as -> Hz. f_equal. by apply IH.
Qed.

Fixpoint announced {M} (current : list byte) (family : Family M) : list (list byte) :=
  match family with
  | [] => []
  | (_, s) :: family => (if bool_decide (sr_name s = current) then [] else [sr_name s]) ++ announced (sr_name s) family
  end.

Lemma announced_in {M} current (family : Family M) n : n ∈ announced current family -> exists e, e ∈ family /\ sr_name e.2 = n.
Proof.
  revert current. induction family as [|[k s] family IH]; intros current; cbn; [by intros ?%elem_of_nil|].
  intros [H|H]%elem_of_app; [|destruct (IH _ H) as (e & He & <-); exists e; set_solver].
  case_bool_decide; [set_solver|]. exists (k, s). set_solver.
Qed.

Lemma announced_tail {M} (e0 : list byte * Series M) family :
  family_ok (e0 :: family) -> NoDup (announced (sr_name e0.2) family) /\ sr_name e0.2 ∉ announced (sr_name e0.2) family.
Proof.
  revert e0. induction family as [|[k s] family IH]; intros e0 [Hs Hall]; cbn [announced]; [split; [constructor|set_solver]|].
  pose proof Hs as Hs'. apply StronglySorted_inv in Hs as [Hs Hlt]. pose proof Hall as Hall'. apply Forall_cons in Hall as [H0 Hall].
  destruct (IH (k, s)) as [Hnd Hnot]; [by split|]. cbn [snd] in Hnd, Hnot. case_bool_decide as E; cbn [app].
  - by rewrite <- E.
  - split; [by constructor|]. intros [Heq|Hin]%elem_of_cons; [by rewrite Heq in E|]. apply announced_in in Hin as ([k2 s2] & He & Hname). cbn [snd] in Hname.
    apply E. apply Forall_cons in Hall as [(Hk & Hn & _) Hall]. destruct H0 as (Hk0 & Hn0 & _).
    apply Forall_cons in Hlt as [Hlt _]. apply StronglySorted_inv in Hs as [_ Hlt2].
    rewrite Forall_forall in Hall, Hlt2. specialize (Hlt2 _ He). destruct (Hall _ He) as (Hk2 & _). cbn [fst snd] in *.
    rewrite Hk0, Hk in Hlt. rewrite Hk, Hk2, Hname in Hlt2. by eapply between_name.
Qed.

Lemma announced_once {M} (family : Family M) : family_ok family -> NoDup (announced [] family).
Proof.
  intros Hf. destruct family as [|[k s] family]; cbn [announced]; [constructor|].
  destruct (announced_tail _ _ Hf) as [Hnd Hnot]. case_bool_decide; [done|]. by constructor.
Qed.

(** ** The reader *)

Fixpoint read_quoted (t : list byte) : option (list byte * list byte) :=
  match t with
  | [] => None
  | c :: t =>
      if c =? 34 then Some ([], t)
      else if c =? 10 then None
      else if c =? 92 then
        match t with
        | [] => None
        | d :: t =>
            '(v, rest) ← read_quoted t;
            if d =? 92 then Some (92 :: v, rest) else if d =? 34 then Some (34 :: v, rest)
            else if d =? 110 then Some (10 :: v, rest) else None
        end
      else '(v, rest) ← read_quoted t; Some (c :: v, rest)
  end.

(** The labels after the brace, the comma after each but the last. *)
Fixpoint read_labels (fuel : nat) (t : list byte) : option (Labels * list byte) :=
  match fuel with
  | O => None
  | S fuel' =>
      match skip_while name_char t with
      | eq :: quote :: t' =>
          if (eq =? 61) && (quote =? 34) then
            '(value, rest) ← read_quoted t';
            match rest with
            | c :: rest =>
                if c =? 125 then Some ([(taken_while name_char t, value)], rest)
                else if c =? 44 then '(labels, rest) ← read_labels fuel' rest; Some ((taken_while name_char t, value) :: labels, rest)
                else None
            | [] => None
            end
          else None
      | _ => None
      end
  end.

Definition not_newline (c : byte) : bool := negb (c =? 10).

(** A series and its value, to the end of the line. *)
Definition read_sample (t : list byte) : option (list byte * Labels * list byte * list byte) :=
  let name := taken_while name_char t in
  let rest := skip_while name_char t in
  '(labels, rest) ← match rest with c :: rest' => if c =? 123 then read_labels (length rest') rest' else Some ([], rest) | [] => None end;
  match rest with
  | c :: rest =>
      if c =? 32 then
        match skip_while not_newline rest with
        | _ :: rest' => Some (name, labels, taken_while not_newline rest, rest')
        | [] => None
        end
      else None
  | [] => None
  end.

Inductive Exposed := Announced (name : list byte) | Sampled (name : list byte) (labels : Labels) (value : list byte).

(** The name of a family, of a line that gives its type. *)
Definition type_line (line : list byte) : option (list byte) :=
  let keyword := bytes_of_string "# TYPE " in
  if bool_decide (take (length keyword) line = keyword) then Some (taken_while name_char (drop (length keyword) line)) else None.

(** A family may be announced once; other comments mean nothing. *)
Fixpoint read_exposition (fuel : nat) (seen : list (list byte)) (t : list byte) : option (list Exposed) :=
  match fuel with
  | O => None
  | S fuel' =>
      match t with
      | [] => Some []
      | c :: _ =>
          if c =? 35 then
            let rest := tail (skip_while not_newline t) in
            match type_line (taken_while not_newline t) with
            | Some name =>
                if bool_decide (name ∈ seen) then None
                else items ← read_exposition fuel' (name :: seen) rest; Some (Announced name :: items)
            | None => read_exposition fuel' seen rest
            end
          else
            '(name, labels, value, rest) ← read_sample t;
            items ← read_exposition fuel' seen rest; Some (Sampled name labels value :: items)
      end
  end.

(** What a registry exposes. *)
Definition sampled (s : list byte * Labels * list byte) : Exposed := Sampled s.1.1 s.1.2 s.2.

Fixpoint exposed_family {M} (samples : list byte -> Labels -> M -> list (list byte * Labels * list byte)) (current : list byte) (family : Family M) :
    list Exposed :=
  match family with
  | [] => []
  | (_, s) :: family =>
      (if bool_decide (sr_name s = current) then [] else [Announced (sr_name s)]) ++
      (sampled <$> samples (sr_name s) (sr_labels s) (sr_metric s)) ++ exposed_family samples (sr_name s) family
  end.

Definition exposed (r : MetricsRegistry) : list Exposed :=
  exposed_family value_samples [] (mr_counters r) ++ exposed_family value_samples [] (mr_gauges r) ++
  exposed_family histogram_samples [] (mr_histograms r).

(** ** Reading *)

Lemma taken_all p a c rest : Forall (fun x => p x = true) a -> p c = false ->
  taken_while p (a ++ c :: rest) = a /\ skip_while p (a ++ c :: rest) = c :: rest.
Proof. intros Ha Hc. induction Ha as [|x a Hx _ [IH1 IH2]]; cbn; [by rewrite Hc|]. by rewrite Hx, IH1, IH2. Qed.

Lemma read_quoted_escaped value rest : read_quoted (escape_label_value value ++ 34 :: rest) = Some (value, rest).
Proof.
  induction value as [|c value IH]; [done|]. unfold escape_label_value in *. cbn [fmap list_fmap concat]. rewrite <- app_assoc.
  unfold escape_label_char at 1. destruct (Z.eqb_spec c 92); [subst; cbn; by rewrite IH|].
  destruct (Z.eqb_spec c 34); [subst; cbn; by rewrite IH|]. destruct (Z.eqb_spec c 10); [subst; cbn; by rewrite IH|].
  cbn. rewrite !(proj2 (Z.eqb_neq _ _)) by done. by rewrite IH.
Qed.

Lemma read_labels_rendered fuel labels rest :
  labels <> [] -> labels_ok labels -> (length labels <= fuel)%nat ->
  read_labels fuel (comma_separated (render_label <$> labels) ++ 125 :: rest) = Some (labels, rest).
Proof.
  intros Hne Hl. revert fuel. induction Hl as [|[key value] labels [_ Hkey] Hl IH]; intros fuel Hf; [done|]. destruct fuel as [|fuel]; [cbn in Hf; lia|].
  assert (Hhead : forall t, read_labels (S fuel) (render_label (key, value) ++ t) =
    match t with
    | c :: rest => if c =? 125 then Some ([(key, value)], rest)
        else if c =? 44 then '(labels, rest) ← read_labels fuel rest; Some ((key, value) :: labels, rest) else None
    | [] => None
    end).
  { intros t. unfold render_label. cbn [fst snd]. rewrite <- !app_assoc. cbn [app]. cbn [read_labels].
    destruct (taken_all name_char key 61 (34 :: escape_label_value value ++ 34 :: t) Hkey eq_refl) as [-> ->].
    change ((61 =? 61) && (34 =? 34)) with true. cbv iota. rewrite read_quoted_escaped. by cbn [mbind option_bind]. }
  cbn [fmap list_fmap]. destruct labels as [|l2 labels].
  - cbn [fmap list_fmap comma_separated]. by rewrite Hhead.
  - cbn [fmap list_fmap comma_separated]. rewrite <- app_assoc, Hhead. cbn [app]. change (44 =? 125) with false. change (44 =? 44) with true. cbv iota.
    fold (fmap (M := list) render_label). change (render_label l2 :: (render_label <$> labels)) with (render_label <$> (l2 :: labels)).
    rewrite IH; [done|done|cbn in Hf |- *; lia].
Qed.

Definition sample_ok (s : list byte * Labels * list byte) : Prop := name_ok s.1.1 /\ labels_ok s.1.2 /\ 10 ∉ s.2.

Lemma not_newline_all t : 10 ∉ t -> Forall (fun c => not_newline c = true) t.
Proof.
  intros H. apply Forall_forall. intros c Hc. unfold not_newline. destruct (Z.eqb_spec c 10); [by subst|done].
Qed.

Lemma comma_length texts : Forall (fun t : list byte => t <> []) texts -> (length texts <= length (comma_separated texts))%nat.
Proof.
  induction 1 as [|t texts Ht _ IH]; [done|]. assert (1 <= length t)%nat by (destruct t; cbn; [done|lia]).
  destruct texts as [|t2 texts]; [cbn; lia|]. cbn [comma_separated] in *. rewrite !length_app. cbn [length] in *. lia.
Qed.

Lemma labels_length labels : (length labels <= length (comma_separated (render_label <$> labels)))%nat.
Proof.
  rewrite <- (length_fmap render_label). apply comma_length, Forall_fmap, Forall_forall. intros [[|c k] v] _; done.
Qed.

Lemma read_sample_line name labels value rest :
  sample_ok (name, labels, value) -> read_sample (sample_line name labels value ++ rest) = Some (name, labels, value, rest).
Proof.
  intros ([_ Hn] & Hl & Hv). cbn [fst snd] in *. unfold sample_line, read_sample. rewrite <- !app_assoc. cbn [app].
  assert (Hvalue : taken_while not_newline (value ++ 10 :: rest) = value /\ skip_while not_newline (value ++ 10 :: rest) = 10 :: rest)
    by (apply taken_all; [by apply not_newline_all|done]).
  destruct Hvalue as [Hv1 Hv2]. unfold render_labels. destruct labels as [|l labels].
  - cbn [app]. destruct (taken_all name_char name 32 (value ++ 10 :: rest) Hn eq_refl) as [-> ->].
    change (32 =? 123) with false. cbn [mbind option_bind]. change (32 =? 32) with true. cbv iota. by rewrite Hv2, Hv1.
  - set (all := l :: labels) in *. rewrite <- !app_assoc. cbn [app]. match goal with |- context [taken_while name_char (name ++ ?t)] => set (tl := t) end.
    destruct (taken_all name_char name 123 (comma_separated (render_label <$> all) ++ 125 :: 32 :: value ++ 10 :: rest) Hn eq_refl) as [H1 H2].
    unfold tl. rewrite H1, H2. change (123 =? 123) with true. cbv iota. rewrite read_labels_rendered; [|done|done|].
    + cbn [mbind option_bind]. change (32 =? 32) with true. cbv iota. by rewrite Hv2, Hv1.
    + pose proof (labels_length all). rewrite length_app. lia.
Qed.

(** ** Reading a text *)

Definition names_of (items : list Exposed) : list (list byte) :=
  omap (fun x => match x with Announced name => Some name | Sampled _ _ _ => None end) items.

(** The text is read as the items, where their families are new. *)
Definition exposes (t : list byte) (items : list Exposed) : Prop :=
  forall fuel seen, (length t < fuel)%nat -> NoDup (names_of items) -> Forall (fun n => n ∉ seen) (names_of items) ->
    read_exposition fuel seen t = Some items.

Lemma exposes_nil : exposes [] [].
Proof. by intros [|fuel] seen; [intros; lia|]. Qed.

Lemma exposes_sample s t items : sample_ok s -> exposes t items -> exposes (sample_text s ++ t) (sampled s :: items).
Proof.
  destruct s as [[name labels] value]. intros Hs Ht fuel seen Hf Hnd Hseen. destruct fuel as [|fuel]; [lia|].
  unfold sample_text. cbn [fst snd].
  assert (Hhead : exists c l, sample_line name labels value ++ t = c :: l /\ c <> 35).
  { destruct Hs as ((Hne & Hn) & _). cbn [fst] in *. destruct name as [|c name]; [done|]. eexists c, _. split; [done|].
    apply Forall_cons in Hn as [Hc _]. apply name_char_bounds in Hc. lia. }
  destruct Hhead as (c & l & E & Hc). cbn [read_exposition]. rewrite E at 1. rewrite (proj2 (Z.eqb_neq _ _)) by done.
  rewrite read_sample_line by done. cbn [mbind option_bind]. rewrite Ht; [done| |done|done].
  unfold sample_text in Hf. rewrite length_app in Hf. cbn [fst snd] in Hf. unfold sample_line in Hf. rewrite !length_app in Hf. cbn in Hf. lia.
Qed.

Lemma exposes_samples samples t items :
  Forall sample_ok samples -> exposes t items -> exposes (concat (sample_text <$> samples) ++ t) ((sampled <$> samples) ++ items).
Proof.
  intros Hs Ht. induction Hs as [|s samples Hs _ IH]; [done|]. cbn [fmap list_fmap concat]. rewrite <- app_assoc. by apply exposes_sample.
Qed.

(** A comment line, to its end. *)
Lemma comment_line line t : 10 ∉ line -> taken_while not_newline (line ++ 10 :: t) = line /\ tail (skip_while not_newline (line ++ 10 :: t)) = t.
Proof. intros H. destruct (taken_all not_newline line 10 t (not_newline_all _ H) eq_refl) as [-> ->]. done. Qed.

Lemma exposes_help name text t items : 10 ∉ name -> 10 ∉ text -> exposes t items ->
  exposes (bytes_of_string "# HELP " ++ name ++ [32] ++ text ++ [10] ++ t) items.
Proof.
  intros Hn Hx Ht fuel seen Hf Hnd Hseen. destruct fuel as [|fuel]; [lia|]. rewrite !length_app in Hf.
  destruct (comment_line (bytes_of_string "# HELP " ++ name ++ [32] ++ text) t) as [H1 H2].
  { rewrite !not_elem_of_app. split_and!; try done; by (vm_compute; intros H; repeat (apply elem_of_cons in H as [?|H]; [done|]); apply elem_of_nil in H). }
  rewrite <- !app_assoc in H1, H2. cbn [app] in *. cbn [read_exposition].
  change (bytes_of_string "# HELP " ++ name ++ 32 :: text ++ 10 :: t) with (35 :: tail (bytes_of_string "# HELP ") ++ name ++ 32 :: text ++ 10 :: t) at 1.
  cbv iota beta. change (35 =? 35) with true. cbv iota. rewrite H1, H2.
  change (type_line (bytes_of_string "# HELP " ++ name ++ 32 :: text)) with (@None (list byte)). apply Ht; [cbn in Hf; lia|done|done].
Qed.

Lemma exposes_type name type t items : name_ok name -> 10 ∉ type -> exposes t items ->
  exposes (bytes_of_string "# TYPE " ++ name ++ [32] ++ type ++ [10] ++ t) (Announced name :: items).
Proof.
  intros [_ Hn] Hx Ht fuel seen Hf Hnd Hseen. destruct fuel as [|fuel]; [lia|]. rewrite !length_app in Hf.
  destruct (comment_line (bytes_of_string "# TYPE " ++ name ++ [32] ++ type) t) as [H1 H2].
  { rewrite !not_elem_of_app. split_and!; try done.
    1,3: by (vm_compute; intros H; repeat (apply elem_of_cons in H as [?|H]; [done|]); apply elem_of_nil in H).
    intros H. rewrite Forall_forall in Hn. apply Hn, name_char_bounds in H. lia. }
  rewrite <- !app_assoc in H1, H2. cbn [app] in *. cbn [read_exposition].
  change (bytes_of_string "# TYPE " ++ name ++ 32 :: type ++ 10 :: t) with (35 :: tail (bytes_of_string "# TYPE ") ++ name ++ 32 :: type ++ 10 :: t) at 1.
  cbv iota beta. change (35 =? 35) with true. cbv iota. rewrite H1, H2.
  assert (Htype : type_line (bytes_of_string "# TYPE " ++ name ++ 32 :: type) = Some name).
  { unfold type_line. rewrite take_app_length, drop_app_length, bool_decide_true by done.
    by destruct (taken_all name_char name 32 type Hn eq_refl) as [-> _]. }
  rewrite Htype. cbn [names_of omap list_omap] in Hnd, Hseen. apply NoDup_cons in Hnd as [Hnew Hnd]. apply Forall_cons in Hseen as [Hs Hseen].
  rewrite bool_decide_false by done. rewrite Ht; [done|cbn in Hf; lia|done|].
  apply Forall_forall. intros n Hin [->|H]%elem_of_cons; [done|]. rewrite Forall_forall in Hseen. by apply (Hseen n).
Qed.

(** ** The texts of values *)

(** Characters of a number, none of them a control character. *)
Definition plain_text (t : list byte) : Prop := Forall (fun c => 32 < c) t.

Lemma plain_no_newline t : plain_text t -> 10 ∉ t.
Proof. unfold plain_text. rewrite Forall_forall. intros H Hin. apply H in Hin. lia. Qed.

Lemma plain_app a b : plain_text a -> plain_text b -> plain_text (a ++ b).
Proof. intros. by apply Forall_app. Qed.

Lemma plain_digits fuel z acc : plain_text acc -> plain_text (digits_loop fuel z acc).
Proof.
  revert z acc. induction fuel as [|fuel IH]; intros z acc Hacc; cbn [digits_loop]; [done|].
  assert (Hd : plain_text ((48 + z mod 10) :: acc)) by (constructor; [pose proof (Z.mod_pos_bound z 10); lia|done]).
  destruct (z <? 10); [done|by apply IH].
Qed.

Lemma plain_to_string z : plain_text (to_string z).
Proof.
  unfold to_string, digits. destruct (z <? 0); [constructor; [lia|]|]; apply plain_digits; constructor.
Qed.

Lemma plain_sign (sign : bool) : plain_text (if sign then [45] else []).
Proof. destruct sign; repeat constructor. Qed.

Lemma plain_cons c t : 32 < c -> plain_text t -> plain_text (c :: t).
Proof. by constructor. Qed.

Create HintDb plain.
#[local] Hint Resolve plain_app plain_to_string plain_sign : plain.
#[local] Hint Extern 1 (plain_text (_ :: _)) => apply plain_cons; [lia|] : plain.
#[local] Hint Extern 1 (plain_text []) => constructor : plain.
#[local] Hint Extern 1 (plain_text (digits_loop _ _ _)) => apply plain_digits : plain.

Lemma plain_scientific c s : plain_text (scientific_text c s).
Proof.
  unfold scientific_text. pose proof (plain_to_string c) as H. destruct (to_string c) as [|d ds]; [constructor|].
  apply Forall_cons in H as [Hd Hds]. assert (plain_text ds) by done. apply plain_cons; [done|].
  apply plain_app; [destruct ds; auto with plain|]. apply plain_cons; [lia|]. unfold exponent_text.
  apply plain_cons; [by destruct (_ <? 0)|]. destruct (_ <? 10); auto with plain.
Qed.

Lemma plain_fixed m e c s : plain_text (fixed_text m e c s).
Proof.
  unfold fixed_text. destruct (0 <=? s); [auto with plain|]. cbv zeta. destruct (0 <? _).
  - repeat apply plain_app; [by apply Forall_take, plain_to_string|auto with plain|by apply Forall_drop, plain_to_string].
  - repeat apply plain_app; [auto with plain| |auto with plain]. by apply Forall_replicate.
Qed.

Lemma plain_finite m e : plain_text (finite_text m e).
Proof.
  unfold finite_text. destruct (shortest m e) as [c s]. cbv zeta. destruct (_ <? _)%nat; [apply plain_scientific|apply plain_fixed].
Qed.
#[local] Hint Resolve plain_finite : plain.

Lemma plain_number x : plain_text (format_number x).
Proof. destruct x; cbn [format_number]; auto 8 with plain. Qed.

Lemma plain_double x : plain_text (format_double x).
Proof. destruct x as [sign|sign| |sign m e]; cbn [format_double]; [|destruct sign| |]; auto 8 using plain_number with plain. Qed.

Lemma name_suffix_ok name (suffix : string) :
  name_ok name -> Forall (fun c => name_char c = true) (bytes_of_string suffix) -> name_ok (name ++ bytes_of_string suffix).
Proof. intros [Hne Hn] Hs. split; [by destruct name|by apply Forall_app]. Qed.

Lemma le_label_ok labels value : labels_ok labels -> labels_ok (labels ++ [(bytes_of_string "le", value)]).
Proof. intros Hl. apply Forall_app. split; [done|]. repeat constructor; done. Qed.

Lemma value_samples_ok name labels v : name_ok name -> labels_ok labels -> Forall sample_ok (value_samples name labels v).
Proof. intros. constructor; [|constructor]. split_and!; [done|done|apply plain_no_newline, plain_to_string]. Qed.

Lemma bucket_samples_ok labels name bounds buckets n :
  name_ok name -> labels_ok labels -> Forall sample_ok (bucket_samples labels name bounds buckets n).1.
Proof.
  intros Hn Hl. revert buckets n. induction bounds as [|b bounds IH]; intros [|k buckets] n; cbn [bucket_samples fst]; try constructor.
  specialize (IH buckets (to_u 64 (n + k))). destruct (bucket_samples _ _ _ _ _) as [samples total]. cbn [fst] in *.
  constructor; [|done]. split_and!; [done|by apply le_label_ok|apply plain_no_newline, plain_to_string].
Qed.

Lemma histogram_samples_ok name labels h : name_ok name -> labels_ok labels -> Forall sample_ok (histogram_samples name labels h).
Proof.
  intros Hn Hl. unfold histogram_samples. cbv zeta. pose proof (bucket_samples_ok labels (name ++ bytes_of_string "_bucket") (hs_bounds h) (hs_buckets h) 0) as Hb.
  destruct (bucket_samples _ _ _ _ _) as [samples total]. cbn [fst] in Hb.
  assert (Hbucket : name_ok (name ++ bytes_of_string "_bucket")) by (apply name_suffix_ok; [done|by repeat constructor]).
  assert (Hsum : name_ok (name ++ bytes_of_string "_sum")) by (apply name_suffix_ok; [done|by repeat constructor]).
  assert (Hcount : name_ok (name ++ bytes_of_string "_count")) by (apply name_suffix_ok; [done|by repeat constructor]).
  apply Forall_app. split; [by apply Hb|]. constructor; [|constructor; [|constructor; [|constructor]]]; split_and!; cbn [fst snd]; try done.
  all: try (by apply le_label_ok). all: apply plain_no_newline; first [apply plain_to_string|apply plain_double].
Qed.

(** ** Families and registries *)

Lemma names_of_app a b : names_of (a ++ b) = names_of a ++ names_of b.
Proof. apply omap_app. Qed.

Lemma names_of_sampled samples : names_of (sampled <$> samples) = [].
Proof. induction samples; [done|]. cbn. done. Qed.

Lemma names_of_family {M} samples current (family : Family M) : names_of (exposed_family samples current family) = announced current family.
Proof.
  revert current. induction family as [|[k s] family IH]; intros current; [done|]. cbn [exposed_family announced].
  rewrite !names_of_app, names_of_sampled, IH. by case_bool_decide.
Qed.

Lemma exposes_family {M} help (type : string) (samples : list byte -> Labels -> M -> list (list byte * Labels * list byte)) current (family : Family M) t items :
  (forall name labels m, name_ok name -> labels_ok labels -> Forall sample_ok (samples name labels m)) ->
  Forall (fun e => 10 ∉ e.2) help -> 10 ∉ bytes_of_string type ->
  Forall (fun e => name_ok (sr_name e.2) /\ labels_ok (sr_labels e.2)) family ->
  exposes t items ->
  exposes (render_family help (bytes_of_string type) samples current family ++ t) (exposed_family samples current family ++ items).
Proof.
  intros Hsamples Hhelp Htype Hf Ht. revert current. induction Hf as [|[k s] family [Hn Hl] _ IH]; intros current; [done|].
  cbn [render_family exposed_family snd] in *. rewrite <- !app_assoc. case_bool_decide; cbn [app].
  { apply exposes_samples; [by apply Hsamples|apply IH]. }
  assert (Hrest : exposes (bytes_of_string "# TYPE " ++ sr_name s ++ [32] ++ bytes_of_string type ++ [10] ++
      concat (sample_text <$> samples (sr_name s) (sr_labels s) (sr_metric s)) ++ render_family help (bytes_of_string type) samples (sr_name s) family ++ t)
    (Announced (sr_name s) :: (sampled <$> samples (sr_name s) (sr_labels s) (sr_metric s)) ++ exposed_family samples (sr_name s) family ++ items))
    by (apply exposes_type; [done|done|]; apply exposes_samples; [by apply Hsamples|apply IH]).
  unfold help_type. destruct (map_find (sr_name s) help) as [text|] eqn:E; rewrite <- !app_assoc; [|exact Hrest].
  apply exposes_help; [|by apply find_in in E; rewrite Forall_forall in Hhelp; apply (Hhelp _ E)|exact Hrest].
  destruct Hn as [_ Hn]. rewrite Forall_forall in Hn. intros Hin%Hn%name_char_bounds. lia.
Qed.

(** ** What is done to a registry *)

Inductive MetricsCall :=
  | CountCall (name : list byte) (labels : Labels) (n : Z)
  | GaugeCall (name : list byte) (labels : Labels) (f : Z -> Z)
  | ObserveCall (name : list byte) (labels : Labels) (bounds : list spec_float) (value : spec_float)
  | DescribeCall (name help : list byte).

Definition metrics_call (r : MetricsRegistry) (c : MetricsCall) : MetricsRegistry :=
  match c with
  | CountCall name labels n =>
      let '(key, r) := counter name labels r in
      MkRegistry (update_series (counter_inc n) key (mr_counters r)) (mr_gauges r) (mr_histograms r) (mr_help r)
  | GaugeCall name labels f =>
      let '(key, r) := gauge name labels r in
      MkRegistry (mr_counters r) (update_series f key (mr_gauges r)) (mr_histograms r) (mr_help r)
  | ObserveCall name labels bounds value =>
      let '(key, r) := histogram name labels bounds r in
      MkRegistry (mr_counters r) (mr_gauges r) (update_series (observe value) key (mr_histograms r)) (mr_help r)
  | DescribeCall name help => metrics_describe name help r
  end.

Definition metrics_run (calls : list MetricsCall) : MetricsRegistry := foldl metrics_call new_registry calls.

Inductive Kind := KindCounter | KindGauge | KindHistogram.

(** Legitimate names, each of one kind, and help texts of one line. *)
Definition metrics_call_ok (kind : list byte -> Kind) (c : MetricsCall) : Prop :=
  match c with
  | CountCall name labels _ => name_ok name /\ labels_ok labels /\ kind name = KindCounter
  | GaugeCall name labels _ => name_ok name /\ labels_ok labels /\ kind name = KindGauge
  | ObserveCall name labels _ _ => name_ok name /\ labels_ok labels /\ kind name = KindHistogram
  | DescribeCall _ help => 10 ∉ help
  end.

Section Runs.
Context (kind : list byte -> Kind).

Definition of_kind {M} (k : Kind) (family : Family M) : Prop := Forall (fun e => kind (sr_name e.2) = k) family.

Lemma find_or_create_kind {M} k (fresh : M) name labels family :
  kind name = k -> of_kind k family -> of_kind k (find_or_create fresh name labels family).2.
Proof.
  intros Hk Hall. unfold find_or_create. destruct (map_find _ family); [done|].
  apply Forall_forall. intros e [->|He]%assign_in; [done|]. unfold of_kind in Hall. rewrite Forall_forall in Hall. by apply Hall.
Qed.

Lemma update_series_kind {M} k (f : M -> M) key family : of_kind k family -> of_kind k (update_series f key family).
Proof.
  intros Hall. unfold update_series. destruct (map_find key family) as [s|] eqn:E; [|done]. apply find_in in E.
  unfold of_kind in *. rewrite Forall_forall in Hall |- *. intros e [->|He]%assign_in; [exact (Hall _ E)|by apply Hall].
Qed.

Definition run_ok (r : MetricsRegistry) : Prop :=
  registry_ok r /\ of_kind KindCounter (mr_counters r) /\ of_kind KindGauge (mr_gauges r) /\ of_kind KindHistogram (mr_histograms r).

Lemma metrics_call_run_ok r c : metrics_call_ok kind c -> run_ok r -> run_ok (metrics_call r c).
Proof.
  intros Hc ([Hrc Hrg Hrh Hhelp] & Hkc & Hkg & Hkh). destruct c as [name labels n|name labels f|name labels bounds value|name help]; cbn [metrics_call_ok] in Hc.
  - destruct Hc as (Hn & Hl & Hk). unfold metrics_call, counter.
    pose proof (find_or_create_ok 0 name labels _ Hn Hl Hrc) as H1. pose proof (find_or_create_kind KindCounter 0 name labels _ Hk Hkc) as H2.
    destruct (find_or_create _ _ _ _) as [key family]. cbn [snd] in H1, H2.
    split; [split; cbn; [by apply update_series_ok|done..]|split_and!; cbn; [by apply update_series_kind|done..]].
  - destruct Hc as (Hn & Hl & Hk). unfold metrics_call, gauge.
    pose proof (find_or_create_ok 0 name labels _ Hn Hl Hrg) as H1. pose proof (find_or_create_kind KindGauge 0 name labels _ Hk Hkg) as H2.
    destruct (find_or_create _ _ _ _) as [key family]. cbn [snd] in H1, H2.
    split; [split; cbn; [done|by apply update_series_ok|done..]|split_and!; cbn; [done|by apply update_series_kind|done]].
  - destruct Hc as (Hn & Hl & Hk). unfold metrics_call, histogram.
    pose proof (find_or_create_ok (new_histogram bounds) name labels _ Hn Hl Hrh) as H1.
    pose proof (find_or_create_kind KindHistogram (new_histogram bounds) name labels _ Hk Hkh) as H2.
    destruct (find_or_create _ _ _ _) as [key family]. cbn [snd] in H1, H2.
    split; [split; cbn; [done|done|by apply update_series_ok|done]|split_and!; cbn; [done|done|by apply update_series_kind]].
  - split; [split; cbn; try done|by split_and!]. apply Forall_forall. intros e [->|He]%assign_in; [done|]. rewrite Forall_forall in Hhelp. by apply Hhelp.
Qed.

Lemma metrics_run_ok calls : Forall (metrics_call_ok kind) calls -> run_ok (metrics_run calls).
Proof.
  unfold metrics_run. induction calls as [|c calls IH] using rev_ind; intros Hc.
  - by repeat split; constructor.
  - apply Forall_app in Hc as [Hcs [Hc _]%Forall_cons]. rewrite foldl_app. apply metrics_call_run_ok; [done|by apply IH].
Qed.

Lemma of_kind_announced {M} k current (family : Family M) n : of_kind k family -> n ∈ announced current family -> kind n = k.
Proof. intros Hk (e & He & <-)%announced_in. unfold of_kind in Hk. rewrite Forall_forall in Hk. by apply Hk. Qed.

Lemma run_names_once r : run_ok r -> NoDup (names_of (exposed r)).
Proof.
  intros ([Hrc Hrg Hrh _] & Hkc & Hkg & Hkh). unfold exposed. rewrite !names_of_app, !names_of_family.
  assert (Hkind : forall (M N : Type) k k' (f : Family M) (g : Family N) n, of_kind k f -> of_kind k' g -> k <> k' -> n ∈ announced [] f -> n ∉ announced [] g).
  { intros M N k k' f g n Hf Hg Hne H1 H2. apply Hne. by rewrite <- (of_kind_announced _ _ _ _ Hf H1), (of_kind_announced _ _ _ _ Hg H2). }
  apply NoDup_app. split; [by apply announced_once|]. split.
  - intros n Hn [Hin|Hin]%elem_of_app; revert Hin;
      [apply (Hkind _ _ _ _ _ _ _ Hkc Hkg ltac:(done) Hn)|apply (Hkind _ _ _ _ _ _ _ Hkc Hkh ltac:(done) Hn)].
  - apply NoDup_app. split; [by apply announced_once|]. split; [|by apply announced_once].
    intros n Hn. apply (Hkind _ _ _ _ _ _ _ Hkg Hkh ltac:(done) Hn).
Qed.

(** C28. The metrics are read.  Whatever is counted, set and observed, with legitimate names each of one
    kind, labels of any values and help texts of one line, the Prometheus text of the registry is read
    as every series with its labels and its value, the families in order, each announced once and
    before its samples. *)
Theorem metrics_text_read (calls : list MetricsCall) (Hok : Forall (metrics_call_ok kind) calls) :
  read_exposition (S (length (render_prometheus (metrics_run calls)))) [] (render_prometheus (metrics_run calls))
  = Some (exposed (metrics_run calls)).
Proof.
  pose proof (metrics_run_ok calls Hok) as Hrun. set (r := metrics_run calls) in *. pose proof (run_names_once r Hrun) as Hnd.
  destruct Hrun as ([[_ Hrc] [_ Hrg] [_ Hrh] Hhelp] & _).
  assert (Hexposes : exposes (render_prometheus r) (exposed r)).
  { unfold render_prometheus, exposed. rewrite <- (app_nil_r (render_family _ _ _ _ (mr_histograms r))), <- (app_nil_r (exposed_family _ _ (mr_histograms r))).
    apply exposes_family; [apply value_samples_ok|done|by vm_compute; set_solver|eapply Forall_impl; [exact Hrc|]; by intros ? (_ & ? & ?)|].
    apply exposes_family; [apply value_samples_ok|done|by vm_compute; set_solver|eapply Forall_impl; [exact Hrg|]; by intros ? (_ & ? & ?)|].
    apply exposes_family; [apply histogram_samples_ok|done|by vm_compute; set_solver|eapply Forall_impl; [exact Hrh|]; by intros ? (_ & ? & ?)|].
    apply exposes_nil. }
  apply Hexposes; [lia|done|]. apply Forall_forall. intros n _. apply not_elem_of_nil.
Qed.
End Runs.

(** Labels whose values hold what the text quotes. *)
Definition sample_metrics : list MetricsCall :=
  [CountCall (bytes_of_string "b") [(bytes_of_string "z", bytes_of_string "1"); (bytes_of_string "a", [34; 10; 92; 44; 125])] 2;
   CountCall (bytes_of_string "a_b") [] 7; DescribeCall (bytes_of_string "b") (bytes_of_string "help");
   CountCall (bytes_of_string "b") [] 1; GaugeCall (bytes_of_string "g") [] (gauge_dec 3);
   ObserveCall (bytes_of_string "h") [] [strtod (bytes_of_string "0.5"); strtod (bytes_of_string "2")] (strtod (bytes_of_string "1.25"))].

Definition sample_kind (name : list byte) : Kind :=
  if bool_decide (name = bytes_of_string "g") then KindGauge else if bool_decide (name = bytes_of_string "h") then KindHistogram else KindCounter.

Lemma metrics_text_read_witness :
  read_exposition (S (length (render_prometheus (metrics_run sample_metrics)))) [] (render_prometheus (metrics_run sample_metrics))
  = Some [Announced (bytes_of_string "a_b"); Sampled (bytes_of_string "a_b") [] (bytes_of_string "7");
          Announced (bytes_of_string "b"); Sampled (bytes_of_string "b") [] (bytes_of_string "1");
          Sampled (bytes_of_string "b") [(bytes_of_string "a", [34; 10; 92; 44; 125]); (bytes_of_string "z", bytes_of_string "1")] (bytes_of_string "2");
          Announced (bytes_of_string "g"); Sampled (bytes_of_string "g") [] (bytes_of_string "-3");
          Announced (bytes_of_string "h");
          Sampled (bytes_of_string "h_bucket") [(bytes_of_string "le", bytes_of_string "0.5")] (bytes_of_string "0");
          Sampled (bytes_of_string "h_bucket") [(bytes_of_string "le", bytes_of_string "2")] (bytes_of_string "1");
          Sampled (bytes_of_string "h_bucket") [(bytes_of_string "le", bytes_of_string "+Inf")] (bytes_of_string "1");
          Sampled (bytes_of_string "h_sum") [] (bytes_of_string "1.25"); Sampled (bytes_of_string "h_count") [] (bytes_of_string "1")].
Proof.
  assert (Hok : Forall (metrics_call_ok sample_kind) sample_metrics)
    by (repeat (constructor; [cbn; repeat split; try discriminate; try (repeat constructor; try discriminate; fail); by vm_compute; set_solver|]); constructor).
  etransitivity; [exact (metrics_text_read sample_kind sample_metrics Hok)|]. vm_compute. reflexivity.
Defined.

(** A sum that overflows is written as what is no JSON. *)
Theorem infinite_sum_is_no_json :
  let r := metrics_run [ObserveCall (bytes_of_string "h") [] [] (S754_infinity false)] in
  is_ok (parse_json (render_metrics_snapshot_json (snapshot r))) = false /\
  is_ok (parse_json (render_metrics_snapshot_json (snapshot (metrics_run sample_metrics)))) = true.
Proof. vm_compute. done. Qed.
