(* ===== verification/OperationPort.v ===== *)
(** * The operation port

    Models [HealthMonitor] of [src/src/ingress/health_monitor.cpp], [AdminRouter] of
    [server/admin_router.cpp], the events of [server/sse.cpp] and the connections of
    [server/admin_http.cpp], which read one request and answer it, or stream the metrics until the
    server drains.  A probe is a function of the world it looks at. *)
From Stdlib Require Import ZArith Lia Floats.SpecFloat String.
From stdpp Require Import base list strings.
From S2P Require Import Prelude Codec Decimal FrameIo Json Http Metrics Jwt RestGateway.
#[local] Open Scope Z_scope.

(** ** Health *)

Record HealthCheckResult := MkHealthCheck { hc_name : list byte; hc_healthy : bool; hc_detail : list byte }.

Section Health.
(** What the probes look at. *)
Context {W : Type}.

Record HealthMonitor := MkHealthMonitor {
  hm_probes : list (list byte * (W -> HealthCheckResult));
  hm_started : bool;
  hm_live : bool;
}.

Definition new_health : HealthMonitor := MkHealthMonitor [] false true.

Definition register_readiness (name : list byte) (probe : W -> HealthCheckResult) (h : HealthMonitor) : HealthMonitor :=
  MkHealthMonitor (hm_probes h ++ [(name, probe)]) (hm_started h) (hm_live h).
Definition set_started (started : bool) (h : HealthMonitor) : HealthMonitor := MkHealthMonitor (hm_probes h) started (hm_live h).
Definition set_live (live : bool) (h : HealthMonitor) : HealthMonitor := MkHealthMonitor (hm_probes h) (hm_started h) live.

Definition liveness (h : HealthMonitor) : HttpResponse :=
  let writer := end_object (field_text "status" (text_of (if hm_live h then "ok" else "draining")) (begin_object new_writer)) in
  json_response (if hm_live h then 200 else 503) (jw_out writer).

(** One of the checks of the readiness. *)
Definition write_check (name : list byte) (healthy : bool) (detail : list byte) (w : JsonWriter) : JsonWriter :=
  begin_object w |> field_text "name" name |> field_bool "healthy" healthy |> field_text "detail" detail |> end_object.

(** The probes in order, after the check of the start. *)
Fixpoint write_probes (probes : list (list byte * (W -> HealthCheckResult))) (world : W) (all_healthy : bool) (w : JsonWriter) :
    bool * JsonWriter :=
  match probes with
  | [] => (all_healthy, w)
  | (name, probe) :: probes =>
      let result := probe world in
      write_probes probes world (all_healthy && hc_healthy result) (write_check name (hc_healthy result) (hc_detail result) w)
  end.

Definition readiness (world : W) (h : HealthMonitor) : HttpResponse :=
  let w := begin_object new_writer |> write_key (text_of "checks") |> begin_array
             |> write_check (text_of "startup") (hm_started h) (text_of (if hm_started h then "" else "el arranque no ha terminado")) in
  let '(all_healthy, w) := write_probes (hm_probes h) world (hm_started h) w in
  let w := end_object (field_text "status" (text_of (if all_healthy then "ready" else "not_ready")) (end_array w)) in
  json_response (if all_healthy then 200 else 503) (jw_out w).

(** [disk_space_probe]; [available] asks the file system how much is free. *)
Definition disk_space_probe (available : W -> option Z) (min_free_bytes : Z) (world : W) : HealthCheckResult :=
  match available world with
  | None => MkHealthCheck (text_of "disk") false (text_of "no se pudo consultar el espacio")
  | Some free =>
      let healthy := min_free_bytes <=? free in
      MkHealthCheck (text_of "disk") healthy (text_of (if healthy then "" else "espacio libre por debajo del mínimo"))
  end.
End Health.
Arguments HealthMonitor : clear implicits.

(** ** Events *)

(** The lines of the data, each with its prefix. *)
Fixpoint sse_data (fuel : nat) (data : list byte) : list byte :=
  match fuel with
  | O => []
  | S fuel' =>
      match text_find [lf] data with
      | None => text_of "data: " ++ data ++ [lf]
      | Some n => text_of "data: " ++ take n data ++ [lf] ++ sse_data fuel' (drop (n + 1) data)
      end
  end.

Definition format_sse_event (event data : list byte) : list byte :=
  (match event with [] => [] | _ => text_of "event: " ++ event ++ [lf] end) ++ sse_data (S (length data)) data ++ [lf].

(** ** The router *)

Definition text_response (status : Z) (content_type : string) (body : list byte) : HttpResponse :=
  let response := set_header (text_of "Content-Type") (text_of content_type) (MkHttpResponse status (http_reason status) [] []) in
  MkHttpResponse (hs_status response) (hs_reason response) (hs_headers response) body.

Definition is_read_method (m : HttpMethod) : bool := match m with Get | Head => true | _ => false end.

Definition method_not_allowed : HttpResponse := text_response 405 "text/plain; charset=utf-8" (text_of "method not allowed" ++ [lf]).

Definition kStreamPath : list byte := text_of "/api/v1/stream".

Section Port.
Context {W A : Type} {AS : AdminService A} (unrepresentable : spec_float -> Z) (verifier : option JwtVerifier) (config : GatewayConfig).

Record AdminRouter := MkAdminRouter { ar_health : HealthMonitor W; ar_metrics : MetricsRegistry }.

(** [AdminRouter::handle], at the time [now] of its clock. *)
Definition admin_handle (req : HttpRequest) (now : Z) (world : W) (r : AdminRouter) (admin : A) : HttpResponse * A :=
  let path := request_path req in
  let reading (response : HttpResponse) := (if is_read_method (hr_method req) then response else method_not_allowed, admin) in
  if bool_decide (path = text_of "/metrics") then
    reading (text_response 200 "text/plain; version=0.0.4; charset=utf-8" (render_prometheus (ar_metrics r)))
  else if bool_decide (path = text_of "/api/v1/metrics/snapshot") then
    reading (json_response 200 (render_metrics_snapshot_json (snapshot (ar_metrics r))))
  else if bool_decide (path = text_of "/healthz") then reading (liveness (ar_health r))
  else if bool_decide (path = text_of "/readyz") then reading (readiness world (ar_health r))
  else rest_handle unrepresentable verifier config req now admin.

Definition is_stream_request (req : HttpRequest) : bool :=
  is_read_method (hr_method req) && bool_decide (request_path req = kStreamPath).

Definition stream_snapshot_json (r : AdminRouter) : list byte := render_metrics_snapshot_json (snapshot (ar_metrics r)).

(** ** Connections *)

Definition bad_request : HttpResponse := text_response 400 "text/plain; charset=utf-8" (text_of "bad request" ++ [lf]).

Section Connections.
Context {S : Type} {BS : ByteStream S}.

(** [send_all], which tells whether everything was sent. *)
Definition admin_send_all (raw : list byte) (s : S) : bool * S := let '(r, s) := send_all raw s in (is_ok r, s).

(** Lines ended by carriage return and line feed, and the empty one. *)
Definition kSseHeaders : list byte :=
  text_of "HTTP/1.1 200 OK" ++ crlf ++ text_of "Content-Type: text/event-stream" ++ crlf ++ text_of "Cache-Control: no-cache" ++ crlf ++
  text_of "Connection: keep-alive" ++ crlf ++ text_of "X-Accel-Buffering: no" ++ crlf ++ crlf.

(** A turn of the stream: whether the server is draining, what there is to show, and how the wait for
    the next one ends. *)
Record StreamTurn := MkStreamTurn { tn_draining : bool; tn_router : AdminRouter; tn_waited : expected unit }.

Definition metrics_event (r : AdminRouter) : list byte := format_sse_event (text_of "metrics") (stream_snapshot_json r).

Fixpoint sse_loop (turns : list StreamTurn) (s : S) : S :=
  match turns with
  | [] => s
  | turn :: turns =>
      if tn_draining turn then s
      else
        match admin_send_all (metrics_event (tn_router turn)) s with
        | (false, s) => s
        | (true, s) => match tn_waited turn with Err _ => s | Ok _ => sse_loop turns s end
        end
  end.

Definition serve_admin_sse_connection (turns : list StreamTurn) (s : S) : S :=
  match admin_send_all kSseHeaders s with
  | (false, s) => s
  | (true, s) => sse_loop turns s
  end.

Definition serve_admin_connection (limits : HttpParseLimits) (now : Z) (world : W) (r : AdminRouter) (turns : list StreamTurn)
    (admin : A) (s : S) : S * A :=
  match read_http_request limits s with
  | (Err e, s) =>
      if bool_decide (code e = Shutdown) then (s, admin) else ((admin_send_all (serialize bad_request) s).2, admin)
  | (Ok req, s) =>
      if is_stream_request req then (serve_admin_sse_connection turns s, admin)
      else
        let '(response, admin) := admin_handle req now world r admin in
        ((admin_send_all (serialize (set_header (text_of "Connection") (text_of "close") response)) s).2, admin)
  end.
End Connections.
End Port.
