(* ===== verification/OperationSafety.v ===== *)
(** * What the operation port streams

    A reader of event streams, apart from the code, reads the snapshots of the metrics that the port
    streams; and the readiness of a node is that of its start and its probes. *)
From Stdlib Require Import ZArith Lia Floats.SpecFloat String.
From stdpp Require Import base list strings.
From S2P Require Import Prelude Codec Decimal FrameIo Json JsonSafety Http HttpSafety Metrics MetricsSafety Jwt RestGateway OperationPort.
#[local] Open Scope Z_scope.

(** ** The reader *)

(** The lines that have ended: at a line feed, a carriage return or both. *)
Fixpoint sse_lines (t line : list byte) : list (list byte) :=
  match t with
  | [] => []
  | c :: t =>
      if c =? lf then line :: sse_lines t []
      else if c =? cr then
        match t with
        | d :: t' => if d =? lf then line :: sse_lines t' [] else line :: sse_lines t []
        | [] => [line]
        end
      else sse_lines t (line ++ [c])
  end.

(** A line gives a field its value; an empty one dispatches the event, where there are data. *)
Fixpoint sse_dispatch (lines : list (list byte)) (event data : list byte) : list (list byte * list byte) :=
  match lines with
  | [] => []
  | [] :: lines => match data with [] => sse_dispatch lines [] [] | _ => (event, removelast data) :: sse_dispatch lines [] [] end
  | line :: lines =>
      let field := match text_find [colon] line with Some n => take n line | None => line end in
      let value := match text_find [colon] line with Some n => drop (n + 1) line | None => [] end in
      let value := match value with c :: rest => if c =? space then rest else value | [] => [] end in
      if bool_decide (field = text_of "event") then sse_dispatch lines value data
      else if bool_decide (field = text_of "data") then sse_dispatch lines event (data ++ value ++ [lf])
      else sse_dispatch lines event data
  end.

Definition sse_events (t : list byte) : list (list byte * list byte) := sse_dispatch (sse_lines t []) [] [].

(** ** Reading events *)

Lemma lines_of_line line cur t : without lf line -> without cr line -> sse_lines (line ++ lf :: t) cur = (cur ++ line) :: sse_lines t [].
Proof.
  intros Hl Hc. revert cur. induction Hl as [|c line Hlf _ IH]; intros cur; cbn [app sse_lines].
  - by rewrite Z.eqb_refl, app_nil_r.
  - apply Forall_cons in Hc as [Hcr Hc]. rewrite (proj2 (Z.eqb_neq _ _) Hlf), (proj2 (Z.eqb_neq _ _) Hcr), IH by done. by rewrite <- app_assoc.
Qed.

Lemma data_line value lines event data :
  sse_dispatch ((text_of "data: " ++ value) :: lines) event data = sse_dispatch lines event (data ++ value ++ [lf]).
Proof. reflexivity. Qed.

Lemma event_line value lines event data :
  sse_dispatch ((text_of "event: " ++ value) :: lines) event data = sse_dispatch lines value data.
Proof. reflexivity. Qed.

Lemma find_lf data :
  match text_find [lf] data with
  | None => without lf data
  | Some n => without lf (take n data) /\ data = take n data ++ lf :: drop (n + 1) data
  end.
Proof.
  induction data as [|c data IH]; [by constructor|]. cbn [text_find starts]. destruct (Z.eqb_spec lf c) as [<-|Hc]; cbn [andb].
  - split; [constructor|done].
  - destruct (text_find [lf] data) as [n|]; cbn [take drop Nat.add app].
    + destruct IH as [IH1 IH2]. split; [by constructor|]. exact (f_equal (cons c) IH2).
    + by constructor.
Qed.

(** The data of an event, line by line. *)
Lemma data_lines fuel data rest event before :
  (length data < fuel)%nat -> without cr data ->
  sse_dispatch (sse_lines (sse_data fuel data ++ rest) []) event before = sse_dispatch (sse_lines rest []) event (before ++ data ++ [lf]).
Proof.
  revert data before. induction fuel as [|fuel IH]; intros data before Hf Hcr; [lia|]. cbn [sse_data].
  assert (Hprefix : without lf (text_of "data: ") /\ without cr (text_of "data: ")) by (by repeat constructor).
  destruct Hprefix as [Hp1 Hp2]. pose proof (find_lf data) as Hfind. destruct (text_find [lf] data) as [n|].
  - destruct Hfind as [Hn Hdata]. rewrite <- !app_assoc. cbn [app].
    rewrite (app_assoc (text_of "data: ")). rewrite lines_of_line; [|by apply Forall_app|apply Forall_app; split; [done|by apply Forall_take]].
    cbn [app]. rewrite data_line, IH; [| |by apply Forall_drop].
    + f_equal. rewrite Hdata at 3. by rewrite <- !app_assoc.
    + rewrite length_drop. destruct data; [by destruct n|cbn in *; lia].
  - rewrite <- !app_assoc. cbn [app]. rewrite (app_assoc (text_of "data: ")). rewrite lines_of_line by (by apply Forall_app).
    cbn [app]. by rewrite data_line.
Qed.

(** An event that the format can carry. *)
Definition event_ok (e : list byte * list byte) : Prop := e.1 <> [] /\ without lf e.1 /\ without cr e.1 /\ without cr e.2.

Lemma event_read e rest : event_ok e -> sse_events (format_sse_event e.1 e.2 ++ rest) = e :: sse_events rest.
Proof.
  destruct e as [event data]. intros (Hne & Hlf & Hcr & Hdata). cbn [fst snd] in *. unfold sse_events, format_sse_event.
  destruct event as [|c event]; [done|]. set (name := c :: event) in *. rewrite <- !app_assoc. cbn [app]. rewrite (app_assoc (text_of "event: ")).
  rewrite lines_of_line; [|apply Forall_app; split; [by repeat constructor|done]|apply Forall_app; split; [by repeat constructor|done]].
  cbn [app]. rewrite event_line, data_lines by (done || lia). cbn [app sse_lines]. rewrite Z.eqb_refl. cbn [sse_dispatch].
  destruct (data ++ [lf]) as [|x l] eqn:E; [by destruct data|]. rewrite <- E, removelast_last. done.
Qed.

Lemma events_read es : Forall event_ok es -> sse_events (concat ((fun e => format_sse_event e.1 e.2) <$> es)) = es.
Proof. induction 1 as [|e es He _ IH]; [done|]. cbn [fmap list_fmap concat]. rewrite event_read by done. by rewrite IH. Qed.

(** ** JSON has no control characters *)

Definition printable (t : list byte) : Prop := Forall (fun c => 32 <= c) t.
Definition bytes_ok (t : list byte) : Prop := Forall (fun c => 0 <= c) t.
Definition printed (w : JsonWriter) : Prop := printable (jw_out w).

Lemma printable_app a b : printable a -> printable b -> printable (a ++ b).
Proof. intros. by apply Forall_app. Qed.

Lemma printable_escaped t : bytes_ok t -> printable (append_escaped t).
Proof.
  intros Ht. unfold append_escaped. apply printable_app; [by repeat constructor|]. apply printable_app; [|by repeat constructor].
  induction Ht as [|c t Hc _ IH]; [constructor|]. cbn [fmap list_fmap concat]. apply printable_app; [|done]. unfold escape_char.
  repeat match goal with |- context [if c =? ?n then _ else _] => destruct (c =? n); [by repeat constructor|] end.
  destruct (Z.ltb_spec c 32); [|by repeat constructor].
  assert (Hhex : forall d, 0 <= d -> 32 <= hex_char d) by (intros d Hd; unfold hex_char; destruct (d <? 10); lia).
  pose proof (Z.div_pos c 16 Hc ltac:(lia)). pose proof (Z.mod_pos_bound c 16 ltac:(lia)).
  repeat (constructor; [first [lia|apply Hhex; lia]|]). constructor.
Qed.

Lemma printed_put t w : printable t -> printed w -> printed (writer_put t w).
Proof. intros. by apply printable_app. Qed.

Lemma printed_before_key w : printed w -> printed (before_key w).
Proof.
  intros Hw. unfold before_key. destruct (jw_first w) as [|first outer]; [done|]. destruct first; [done|].
  apply printable_app; [done|by repeat constructor].
Qed.

Lemma printed_before_value w : printed w -> printed (before_value w).
Proof. intros Hw. unfold before_value. destruct (jw_expecting_value w); [done|by apply printed_before_key]. Qed.

Lemma printed_begin_object w : printed w -> printed (begin_object w).
Proof. intros Hw. apply printable_app; [by apply printed_before_value|by repeat constructor]. Qed.
Lemma printed_begin_array w : printed w -> printed (begin_array w).
Proof. intros Hw. apply printable_app; [by apply printed_before_value|by repeat constructor]. Qed.
Lemma printed_end_object w : printed w -> printed (end_object w).
Proof. intros Hw. apply printable_app; [done|by repeat constructor]. Qed.
Lemma printed_end_array w : printed w -> printed (end_array w).
Proof. intros Hw. apply printable_app; [done|by repeat constructor]. Qed.

Lemma printed_key name w : bytes_ok name -> printed w -> printed (write_key name w).
Proof.
  intros Hn Hw. apply printable_app; [by apply printed_before_key|]. apply printable_app; [by apply printable_escaped|by repeat constructor].
Qed.

Lemma printed_value t w : printable t -> printed w -> printed (writer_put t (before_value w)).
Proof. intros Ht Hw. apply printed_put; [done|by apply printed_before_value]. Qed.

Lemma plain_printable t : plain_text t -> printable t.
Proof. intros Ht. eapply Forall_impl; [exact Ht|]. cbn. lia. Qed.

Lemma printed_int z w : printed w -> printed (write_int z w).
Proof. apply printed_value, plain_printable, plain_to_string. Qed.

Lemma printed_double x w : printed w -> printed (write_double x w).
Proof.
  apply printed_value. pose proof (plain_double x) as Hx. destruct x as [s|s| |s m e]; [apply plain_printable, Hx|by destruct s; repeat constructor|by repeat constructor|apply plain_printable, Hx].
Qed.

Lemma printed_string t w : bytes_ok t -> printed w -> printed (write_string t w).
Proof. intros Ht. by apply printed_value, printable_escaped. Qed.

Lemma ascii_bytes s : Forall (fun c => 0 <= c) (bytes_of_string s).
Proof. unfold bytes_of_string. apply Forall_fmap, Forall_forall. intros a _. cbn. lia. Qed.

Create HintDb printed.
#[local] Hint Resolve printed_begin_object printed_begin_array printed_end_object printed_end_array printed_key printed_int printed_double printed_string : printed.
#[local] Hint Extern 0 (bytes_ok (bytes_of_string _)) => apply ascii_bytes : printed.

Lemma printed_foldl {A} (step : JsonWriter -> A -> JsonWriter) (P : A -> Prop) xs w :
  (forall w x, P x -> printed w -> printed (step w x)) -> Forall P xs -> printed w -> printed (foldl step w xs).
Proof. intros Hstep Hxs. revert w. induction Hxs as [|x xs Hx _ IH]; intros w Hw; cbn; [done|]. by apply IH, Hstep. Qed.

Definition sample_bytes (s : MetricSample) : Prop :=
  bytes_ok (ms_name s) /\ Forall (fun l => bytes_ok l.1 /\ bytes_ok l.2) (ms_labels s).

Lemma printed_sample w s : sample_bytes s -> printed w -> printed (write_sample w s).
Proof.
  intros [Hname Hlabels] Hw. unfold write_sample, field_text.
  assert (Htype : bytes_ok (metric_type_name (ms_value s))) by apply ascii_bytes.
  apply printed_end_object. set (w1 := end_object (foldl _ _ _)). assert (Hw1 : printed w1).
  { subst w1. apply printed_end_object. apply (printed_foldl _ (fun l => bytes_ok l.1 /\ bytes_ok l.2)); [|done|auto 12 with printed].
    intros w' l [H1 H2] Hw'. auto with printed. }
  unfold write_sample_value. destruct (ms_value s) as [x|x|buckets count sum]; [auto with printed|auto with printed|].
  apply printed_end_array. apply (printed_foldl _ (fun _ => True)); [|by apply Forall_true|auto 12 with printed].
  intros w' b _ Hw'. unfold write_bucket. auto 12 with printed.
Qed.

Lemma printed_snapshot samples : Forall sample_bytes samples -> printable (render_metrics_snapshot_json samples).
Proof.
  intros Hs. unfold render_metrics_snapshot_json. cbv zeta.
  apply printed_end_object, printed_end_array. apply (printed_foldl _ sample_bytes); [intros w s; apply printed_sample|done|].
  assert (printed new_writer) by constructor. auto with printed.
Qed.

Lemma printable_without c t : c < 32 -> printable t -> without c t.
Proof. intros Hc Ht. eapply Forall_impl; [exact Ht|]. cbn. lia. Qed.

(** ** The stream of the metrics *)

Section Stream.
Context {W A : Type} {AS : AdminService A} (unrepresentable : spec_float -> Z) (verifier : option JwtVerifier) (config : GatewayConfig).
Context {S : Type} {BS : ByteStream S} {BL : ByteStreamLaws S}.

Lemma admin_send_all_healthy raw (s : S) :
  healthy s -> exists s', admin_send_all raw s = (true, s') /\ sent s' = sent s ++ raw /\ healthy s'.
Proof. intros Hh. unfold admin_send_all. destruct (send_all_healthy raw s Hh) as (s' & -> & Hs & _ & Hh'). by exists s'. Qed.

Lemma metrics_event_ok (r : AdminRouter (W := W)) :
  Forall sample_bytes (snapshot (ar_metrics r)) -> event_ok (text_of "metrics", stream_snapshot_json r).
Proof. intros Hr. split_and!; [done|by repeat constructor|by repeat constructor|]. by apply (printable_without cr), printed_snapshot. Qed.

Lemma sse_loop_sends (turns : list (StreamTurn (W := W))) (stop : StreamTurn) (s : S) :
  Forall (fun turn => tn_draining turn = false /\ tn_waited turn = Ok tt) turns -> tn_draining stop = true -> healthy s ->
  exists s', sse_loop (turns ++ [stop]) s = s' /\ sent s' = sent s ++ concat ((fun turn => metrics_event (tn_router turn)) <$> turns).
Proof.
  intros Hturns Hstop. revert s. induction Hturns as [|turn turns [Hd Hw] _ IH]; intros s Hh; cbn [app sse_loop].
  - rewrite Hstop. exists s. by rewrite app_nil_r.
  - rewrite Hd. destruct (admin_send_all_healthy (metrics_event (tn_router turn)) s Hh) as (s1 & -> & Hs1 & Hh1). rewrite Hw.
    destruct (IH s1 Hh1) as (s2 & -> & Hs2). exists s2. cbn [fmap list_fmap concat]. by rewrite Hs2, Hs1, app_assoc.
Qed.

(** What the two methods that read get. *)
Lemma stream_served (limits : HttpParseLimits) (now : Z) (world : W) (r : AdminRouter) (turns : list StreamTurn) (stop : StreamTurn)
    (admin : A) (req : HttpRequest) (s s1 : S)
    (Hread : read_http_request limits s = (Ok req, s1)) (Hh : healthy s1)
    (Hmethod : is_read_method (hr_method req) = true) (Hpath : request_path req = kStreamPath)
    (Hturns : Forall (fun turn => (tn_draining turn = false /\ tn_waited turn = Ok tt) /\ Forall sample_bytes (snapshot (ar_metrics (tn_router turn)))) turns)
    (Hstop : tn_draining stop = true) :
  exists s' body, serve_admin_connection unrepresentable verifier config limits now world r (turns ++ [stop]) admin s = (s', admin) /\
    sent s' = sent s1 ++ kSseHeaders ++ body /\
    sse_events body = (fun turn => (text_of "metrics", stream_snapshot_json (tn_router turn))) <$> turns.
Proof.
  unfold serve_admin_connection. rewrite Hread. unfold is_stream_request. rewrite Hpath, bool_decide_true by done.
  rewrite Hmethod. cbn [andb].
  unfold serve_admin_sse_connection. destruct (admin_send_all_healthy kSseHeaders s1 Hh) as (s2 & -> & Hs2 & Hh2).
  assert (Hlive : Forall (fun turn => tn_draining turn = false /\ tn_waited turn = Ok tt) turns) by (eapply Forall_impl; [exact Hturns|]; by intros turn [? _]).
  destruct (sse_loop_sends turns stop s2 Hlive Hstop Hh2) as (s3 & -> & Hs3).
  exists s3, (concat ((fun turn => metrics_event (tn_router turn)) <$> turns)). split_and!; [done|by rewrite Hs3, Hs2, app_assoc|].
  rewrite <- (events_read ((fun turn => (text_of "metrics", stream_snapshot_json (tn_router turn))) <$> turns)).
  - by rewrite <- list_fmap_compose.
  - apply Forall_fmap. eapply Forall_impl; [exact Hturns|]. intros turn [_ Hb]. by apply metrics_event_ok.
Qed.
(** C29. The metrics are streamed.  A GET of the stream, with a token or none, is answered with the
    headers of an event stream and, until the server drains, one event per turn: on a connection
    whose writes go out, a reader of event streams reads the snapshots of the metrics in their order,
    whatever bytes their labels hold, and the service is not touched. *)
Theorem metrics_stream_read (limits : HttpParseLimits) (now : Z) (world : W) (r : AdminRouter) (turns : list StreamTurn) (stop : StreamTurn)
    (admin : A) (req : HttpRequest) (s s1 : S)
    (Hread : read_http_request limits s = (Ok req, s1)) (Hh : healthy s1)
    (Hmethod : hr_method req = Get) (Hpath : request_path req = kStreamPath)
    (Hturns : Forall (fun turn => (tn_draining turn = false /\ tn_waited turn = Ok tt) /\ Forall sample_bytes (snapshot (ar_metrics (tn_router turn)))) turns)
    (Hstop : tn_draining stop = true) :
  exists s' body, serve_admin_connection unrepresentable verifier config limits now world r (turns ++ [stop]) admin s = (s', admin) /\
    sent s' = sent s1 ++ kSseHeaders ++ body /\
    sse_events body = (fun turn => (text_of "metrics", stream_snapshot_json (tn_router turn))) <$> turns.
Proof. apply (stream_served limits now world r turns stop admin req s s1 Hread Hh); [by rewrite Hmethod|done..]. Qed.

(** A HEAD gets the same stream, with a body that does not end: the router takes both methods that
    read, where the comment at its declaration and the decision record say GET. *)
Theorem head_gets_the_stream (limits : HttpParseLimits) (now : Z) (world : W) (r : AdminRouter) (turns : list StreamTurn) (stop : StreamTurn)
    (admin : A) (req : HttpRequest) (s s1 : S)
    (Hread : read_http_request limits s = (Ok req, s1)) (Hh : healthy s1)
    (Hmethod : hr_method req = Head) (Hpath : request_path req = kStreamPath)
    (Hturns : Forall (fun turn => (tn_draining turn = false /\ tn_waited turn = Ok tt) /\ Forall sample_bytes (snapshot (ar_metrics (tn_router turn)))) turns)
    (Hstop : tn_draining stop = true) :
  exists s' body, serve_admin_connection unrepresentable verifier config limits now world r (turns ++ [stop]) admin s = (s', admin) /\
    sent s' = sent s1 ++ kSseHeaders ++ body /\
    sse_events body = (fun turn => (text_of "metrics", stream_snapshot_json (tn_router turn))) <$> turns.
Proof. apply (stream_served limits now world r turns stop admin req s s1 Hread Hh); [by rewrite Hmethod|done..]. Qed.
End Stream.

(** ** Readiness *)

Lemma write_probes_healthy {W} (probes : list (list byte * (W -> HealthCheckResult))) world b w :
  (write_probes probes world b w).1 = b && forallb (fun p => hc_healthy (p.2 world)) probes.
Proof. revert b w. induction probes as [|[name probe] probes IH]; intros b w; cbn; [by rewrite andb_true_r|]. by rewrite IH, andb_assoc. Qed.

(** A node is ready when it has started and every probe is healthy. *)
Theorem readiness_exact {W} (world : W) (h : HealthMonitor W) :
  hs_status (readiness world h) = if hm_started h && forallb (fun p => hc_healthy (p.2 world)) (hm_probes h) then 200 else 503.
Proof.
  unfold readiness. cbv zeta. set (w0 := write_check _ _ _ _). rewrite <- (write_probes_healthy (hm_probes h) world (hm_started h) w0).
  destruct (write_probes _ _ _ w0) as [healthy w]. cbn [fst]. by destruct healthy.
Qed.

(** ** A stream of two snapshots *)

Section Sample.
#[local] Instance no_service : AdminService unit := {|
  svc_create_topic _ a := (make_error Unsupported "", a);
  svc_delete_topic _ a := (make_error Unsupported "", a);
  svc_alter_topic_config _ _ a := (make_error Unsupported "", a);
  svc_describe_topic _ _ := make_error NotFound "";
  svc_list_topics _ _ := [];
  svc_list_groups _ _ := [];
  svc_describe_group _ _ := make_error NotFound "";
  svc_describe_cluster _ := make_error NotFound "";
|}.

Definition stream_router (calls : list MetricsCall) : AdminRouter (W := unit) := MkAdminRouter new_health (metrics_run calls).
Definition stream_turn (calls : list MetricsCall) : StreamTurn (W := unit) := MkStreamTurn false (stream_router calls) (Ok tt).
Definition stream_stop : StreamTurn (W := unit) := MkStreamTurn true (stream_router []) (Ok tt).

Definition stream_request : HttpRequest :=
  MkHttpRequest Get (text_of "GET") (text_of "/api/v1/stream?x=1") (text_of "HTTP/1.1") [(text_of "Host", text_of "h")] [].
Definition stream_client : PlannedStream := MkPlannedStream (client_request stream_request) [] [9; 100]%nat.

Abbreviation stream_serve := (serve_admin_connection (fun _ => 0) None default_gateway default_limits 0 tt (stream_router [])
  ([stream_turn []; stream_turn sample_metrics] ++ [stream_stop]) tt).

Lemma metrics_stream_read_witness :
  exists s' body, stream_serve stream_client = (s', tt) /\ ps_outbox s' = kSseHeaders ++ body /\
    sse_events body = [(text_of "metrics", render_metrics_snapshot_json []);
                       (text_of "metrics", render_metrics_snapshot_json (snapshot (metrics_run sample_metrics)))].
Proof.
  destruct (read_http_request default_limits stream_client) as [[req|e] s1] eqn:Hread; [|vm_compute in Hread; discriminate].
  assert (Hreq : req = stream_request) by (vm_compute in Hread; injection Hread as <- _; reflexivity).
  assert (Hs1 : sent s1 = []) by (vm_compute in Hread; injection Hread as _ <-; reflexivity).
  assert (Hmethod : hr_method req = Get) by (rewrite Hreq; reflexivity).
  assert (Hpath : request_path req = kStreamPath) by (rewrite Hreq; vm_compute; reflexivity).
  assert (Hbytes : forall calls, forallb (fun s => forallb (Z.leb 0) (ms_name s) && forallb (fun l => forallb (Z.leb 0) l.1 && forallb (Z.leb 0) l.2) (ms_labels s))
      (snapshot (metrics_run calls)) = true -> Forall sample_bytes (snapshot (metrics_run calls))).
  { intros calls Hb. apply Forall_forall. intros s Hs. rewrite forallb_forall in Hb. apply list_elem_of_In, Hb, andb_prop in Hs as [H1 H2].
    assert (Hall : forall t, forallb (Z.leb 0) t = true -> bytes_ok t).
    { intros t Ht. apply Forall_forall. intros c Hc. rewrite forallb_forall in Ht. by apply Z.leb_le, Ht, list_elem_of_In. }
    split; [by apply Hall|]. apply Forall_forall. intros l Hl. rewrite forallb_forall in H2.
    apply list_elem_of_In, H2, andb_prop in Hl as [Ha Hb']. split; by apply Hall. }
  assert (Hturns : Forall (fun turn => (tn_draining turn = false /\ tn_waited turn = Ok tt) /\ Forall sample_bytes (snapshot (ar_metrics (tn_router turn))))
      [stream_turn []; stream_turn sample_metrics]).
  { constructor; [|constructor; [|constructor]]; (split; [split; reflexivity|]); apply Hbytes; vm_compute; reflexivity. }
  destruct (metrics_stream_read (BL := planned_stream_laws) (fun _ => 0) None default_gateway default_limits 0 tt (stream_router [])
    [stream_turn []; stream_turn sample_metrics] stream_stop tt req stream_client s1 Hread I Hmethod Hpath Hturns eq_refl)
    as (s' & body & Hserve & Hsent & Hevents).
  exists s', body. split; [exact Hserve|]. split; [|exact Hevents]. rewrite Hs1 in Hsent. exact Hsent.
Defined.
End Sample.
