(* ===== verification/TlsStream.v ===== *)
(** * TLS connections

    Models [TlsConnection] of [src/src/ingress/tls.cpp], which pumps bytes between OpenSSL's memory
    BIOs and a socket.  OpenSSL is the class [TlsEngine]; what is documented of a connection that is
    established is the class [TlsEngineLaws].  An established connection over a stream that does not
    fail is a stream that does not fail, so that all that is proved of streams holds over TLS.  The second
    part models [TlsContext], over the calls of OpenSSL on a context. *)
From Stdlib Require Import ZArith Lia.
From stdpp Require Import base list strings.
From S2P Require Import Prelude FrameIo.
#[local] Open Scope Z_scope.

(** ** OpenSSL *)

(** What [SSL_get_error] tells of a call: it went well, it needs bytes in or out, the peer closed the
    session, or it failed. *)
Inductive SslResult (A : Type) := SslOk (a : A) | SslWantRead | SslWantWrite | SslZeroReturn | SslFailed.
Arguments SslOk {A}.
Arguments SslWantRead {A}.
Arguments SslWantWrite {A}.
Arguments SslZeroReturn {A}.
Arguments SslFailed {A}.

(** [SSL_do_handshake], [SSL_write] (how many bytes it took), [SSL_read], [BIO_ctrl_pending] and
    [BIO_read] of the outgoing BIO, [BIO_write] to the incoming one (whether it took all), and the
    text of the queue of errors. *)
Class TlsEngine (E : Type) := {
  ssl_do_handshake : E -> SslResult unit * E;
  ssl_write : list byte -> E -> SslResult nat * E;
  ssl_read : nat -> E -> SslResult (list byte) * E;
  bio_pending : E -> nat;
  bio_read : nat -> E -> list byte * E;
  bio_write : list byte -> E -> bool * E;
  tls_error : string -> E -> string;
}.

(** An established connection.  [opens e c] is the plaintext still to be read once [c] has come in too,
    where [c] carries on what the peer sealed; [waiting] what is in the outgoing BIO, the end of
    [produced], all that came out; and [unseal] the plaintext that the peer reads in what came out. *)
Class TlsEngineLaws (E : Type) {TE : TlsEngine E} := {
  established : E -> Prop;
  carries : E -> list byte -> Prop;
  opens : E -> list byte -> list byte;
  waiting : E -> list byte;
  produced : E -> list byte;
  unseal : E -> list byte -> list byte;
  bio_pending_waiting e : bio_pending e = length (waiting e);
  bio_read_waiting n e c : established e -> carries e c ->
    exists e', bio_read n e = (take n (waiting e), e') /\ waiting e' = drop n (waiting e) /\ produced e' = produced e /\
      unseal e' = unseal e /\ opens e' c = opens e c /\ established e' /\ carries e' c;
  bio_write_feeds bs e c : established e -> carries e (bs ++ c) -> bs <> [] ->
    exists e', bio_write bs e = (true, e') /\ opens e' c = opens e (bs ++ c) /\ waiting e' = waiting e /\ produced e' = produced e /\
      unseal e' = unseal e /\ established e' /\ carries e' c;
  ssl_write_seals data e c : established e -> carries e c -> data <> [] ->
    exists k e' out, ssl_write data e = (SslOk k, e') /\ (0 < k <= length data)%nat /\ produced e' = produced e ++ out /\
      waiting e' = waiting e ++ out /\ unseal e (produced e') = unseal e (produced e) ++ take k data /\ unseal e' = unseal e /\
      opens e' c = opens e c /\ established e' /\ carries e' c;
  ssl_read_opens n e c : established e -> carries e c -> (0 < n)%nat ->
    let '(r, e') := ssl_read n e in
    match r with
    | SslOk bs => bs <> [] /\ (length bs <= n)%nat /\ opens e c = bs ++ opens e' c
    | SslWantRead => opens e [] = [] /\ opens e' c = opens e c
    | SslZeroReturn => opens e c = [] /\ opens e' c = []
    | _ => False
    end /\ (exists out, produced e' = produced e ++ out /\ waiting e' = waiting e ++ out /\ unseal e (produced e') = unseal e (produced e)) /\
    unseal e' = unseal e /\ established e' /\ carries e' c;
}.

(** ** The connection *)

Definition kTlsChunk : nat := Z.to_nat (16 * 1024).
Definition kMaxTlsIo : nat := Z.to_nat (2 ^ 20).
Definition clamp_io_len (n : nat) : nat := Nat.min n kMaxTlsIo.

Lemma kTlsChunk_pos : (0 < kTlsChunk)%nat.
Proof. unfold kTlsChunk. lia. Qed.

Lemma clamp_io_len_pos n : (0 < n)%nat -> (0 < clamp_io_len n <= n)%nat.
Proof. unfold clamp_io_len, kMaxTlsIo. lia. Qed.

Section Tls.
Context {E S : Type} {TE : TlsEngine E} {BS : ByteStream S}.

Record TlsConnection := MkTls { tls_ssl : E; tls_sock : S }.

(** The inner loop of [flush_outgoing]: a chunk, until it is sent. *)
Fixpoint flush_chunk (fuel : nat) (pending : list byte) (s : S) : expected unit * S :=
  match fuel, pending with
  | _, [] | O, _ => (Ok tt, s)
  | Datatypes.S fuel', _ =>
      match async_send pending s with
      | (Err e, s) => (Err e, s)
      | (Ok O, s) => (make_error IoError "el par cerró durante el envío TLS", s)
      | (Ok n, s) => flush_chunk fuel' (drop n pending) s
      end
  end.

(** [flush_outgoing]: every turn takes a byte out of the BIO. *)
Fixpoint flush_loop (fuel : nat) (t : TlsConnection) : expected unit * TlsConnection :=
  match fuel with
  | O => (Ok tt, t)
  | Datatypes.S fuel' =>
      if (0 <? bio_pending (tls_ssl t))%nat then
        let '(chunk, e) := bio_read kTlsChunk (tls_ssl t) in
        match chunk with
        | [] => (Ok tt, MkTls e (tls_sock t))
        | _ =>
            match flush_chunk (length chunk) chunk (tls_sock t) with
            | (Err err, s) => (Err err, MkTls e s)
            | (Ok _, s) => flush_loop fuel' (MkTls e s)
            end
        end
      else (Ok tt, t)
  end.
Definition flush_outgoing (t : TlsConnection) : expected unit * TlsConnection := flush_loop (bio_pending (tls_ssl t)) t.

(** What was received goes to the incoming BIO; nothing, when the peer has closed. *)
Definition feed_incoming (t : TlsConnection) : expected nat * TlsConnection :=
  match async_recv kTlsChunk (tls_sock t) with
  | (Err err, s) => (Err err, MkTls (tls_ssl t) s)
  | (Ok [], s) => (Ok O, MkTls (tls_ssl t) s)
  | (Ok got, s) =>
      let '(written, e) := bio_write got (tls_ssl t) in
      (if written : bool then Ok (length got) else make_error IoError "BIO_write al BIO de entrada TLS falló", MkTls e s)
  end.

(** The bytes the engine waits for: what it has to say is sent first.  [closed] is what the end of the
    transport is to the caller, and [again] its next turn. *)
Definition want_read {A} (closed : expected A) (again : TlsConnection -> expected A * TlsConnection) (t : TlsConnection) :
    expected A * TlsConnection :=
  match flush_outgoing t with
  | (Err err, t) => (Err err, t)
  | (Ok _, t) =>
      match feed_incoming t with
      | (Err err, t) => (Err err, t)
      | (Ok O, t) => (closed, t)
      | (Ok _, t) => again t
      end
  end.

Definition want_write {A} (again : TlsConnection -> expected A * TlsConnection) (t : TlsConnection) : expected A * TlsConnection :=
  match flush_outgoing t with
  | (Err err, t) => (Err err, t)
  | (Ok _, t) => again t
  end.

(** The loops, for a number of turns; no call of theirs ends so on an established connection. *)
Definition out_of_turns {A} (t : TlsConnection) : expected A * TlsConnection := (make_error IoError "", t).

Fixpoint handshake (turns : nat) (t : TlsConnection) : expected unit * TlsConnection :=
  match turns with
  | O => out_of_turns t
  | Datatypes.S turns' =>
      let '(ret, e) := ssl_do_handshake (tls_ssl t) in
      let t := MkTls e (tls_sock t) in
      match ret with
      | SslOk _ => flush_outgoing t
      | SslWantRead => want_read (make_error IoError "el par cerró durante el handshake TLS") (handshake turns') t
      | SslWantWrite => want_write (handshake turns') t
      | SslZeroReturn | SslFailed => (make_error IoError (tls_error "handshake TLS" e), (flush_outgoing t).2)
      end
  end.

Fixpoint tls_send (turns : nat) (data : list byte) (t : TlsConnection) : expected nat * TlsConnection :=
  match data with
  | [] => (Ok O, t)
  | _ =>
      match turns with
      | O => out_of_turns t
      | Datatypes.S turns' =>
          let '(ret, e) := ssl_write (take (clamp_io_len (length data)) data) (tls_ssl t) in
          let t := MkTls e (tls_sock t) in
          match ret with
          | SslOk n => match flush_outgoing t with (Err err, t) => (Err err, t) | (Ok _, t) => (Ok n, t) end
          | SslWantRead => want_read (make_error IoError "el par cerró durante el envío TLS") (tls_send turns' data) t
          | SslWantWrite => want_write (tls_send turns' data) t
          | SslZeroReturn | SslFailed => (make_error IoError (tls_error "SSL_write" e), t)
          end
      end
  end.

Fixpoint tls_recv (turns n : nat) (t : TlsConnection) : expected (list byte) * TlsConnection :=
  match n with
  | O => (Ok [], t)
  | _ =>
      match turns with
      | O => out_of_turns t
      | Datatypes.S turns' =>
          let '(ret, e) := ssl_read (clamp_io_len n) (tls_ssl t) in
          let t := MkTls e (tls_sock t) in
          match ret with
          | SslOk bs => (Ok bs, t)
          | SslZeroReturn => (Ok [], t)
          | SslWantRead => want_read (Ok []) (tls_recv turns' n) t
          | SslWantWrite => want_write (tls_recv turns' n) t
          | SslFailed => (make_error IoError (tls_error "SSL_read" e), t)
          end
      end
  end.
End Tls.
Arguments TlsConnection : clear implicits.

(** ** An established connection over a stream that does not fail *)

Section Established.
Context {E S : Type} {TE : TlsEngine E} {TL : TlsEngineLaws E} {BS : ByteStream S} {BL : ByteStreamLaws S}.

(** What came out of the engine is on the stream or waits, and what waits carries no plaintext. *)
Record tls_ok (t : TlsConnection E S) : Prop := {
  to_stream : healthy (tls_sock t);
  to_engine : established (tls_ssl t);
  to_carries : carries (tls_ssl t) (pending (tls_sock t));
  to_produced : produced (tls_ssl t) = sent (tls_sock t) ++ waiting (tls_ssl t);
  to_sealed : unseal (tls_ssl t) (sent (tls_sock t)) = unseal (tls_ssl t) (produced (tls_ssl t));
}.

(** The plaintext to be received, and what was sent. *)
Definition tls_pending (t : TlsConnection E S) : list byte := opens (tls_ssl t) (pending (tls_sock t)).
Definition tls_sent (t : TlsConnection E S) : list byte := unseal (tls_ssl t) (sent (tls_sock t)).

Lemma flush_chunk_healthy fuel bs (s : S) :
  healthy s -> (length bs <= fuel)%nat ->
  exists s', flush_chunk fuel bs s = (Ok tt, s') /\ sent s' = sent s ++ bs /\ pending s' = pending s /\ healthy s'.
Proof.
  revert bs s. induction fuel as [|fuel IH]; intros [|b bs] s Hh Hf; cbn [flush_chunk];
    try (exists s; by rewrite app_nil_r); [cbn in Hf; lia|].
  destruct (send_some (b :: bs) s Hh ltac:(done)) as (k & s1 & -> & Hk & Hs1 & Hp1 & Hh1). destruct k as [|k]; [lia|].
  destruct (IH (drop (Datatypes.S k) (b :: bs)) s1 Hh1) as (s2 & -> & Hs2 & Hp2 & Hh2); [rewrite length_drop; cbn in *; lia|].
  exists s2. split_and!; [done| |congruence|done]. rewrite Hs2, Hs1, <- app_assoc, take_drop. done.
Qed.

(** Before the flush, what waits may carry plaintext. *)
Lemma flush_outgoing_ok (t : TlsConnection E S) :
  healthy (tls_sock t) -> established (tls_ssl t) -> carries (tls_ssl t) (pending (tls_sock t)) ->
  produced (tls_ssl t) = sent (tls_sock t) ++ waiting (tls_ssl t) ->
  exists t', flush_outgoing t = (Ok tt, t') /\ tls_ok t' /\ tls_pending t' = tls_pending t /\
    tls_sent t' = unseal (tls_ssl t) (produced (tls_ssl t)) /\ pending (tls_sock t') = pending (tls_sock t).
Proof.
  unfold flush_outgoing. rewrite bio_pending_waiting. remember (length (waiting (tls_ssl t))) as fuel eqn:Hfuel.
  assert (Hle : (length (waiting (tls_ssl t)) <= fuel)%nat) by lia. clear Hfuel. revert t Hle.
  induction fuel as [|fuel IH]; intros [e s] Hle Hh He Hc Hp; cbn [tls_ssl tls_sock] in *; cbn [flush_loop].
  - assert (Hw : waiting e = []) by (destruct (waiting e); [done|cbn in Hle; lia]). rewrite Hw, app_nil_r in Hp.
    exists (MkTls e s). split_and!; [done| |done|unfold tls_sent; cbn; by rewrite Hp|done].
    split; cbn; [done|done|done|by rewrite Hw, app_nil_r|by rewrite Hp].
  - cbn [tls_ssl tls_sock]. rewrite bio_pending_waiting. destruct (Nat.ltb_spec 0 (length (waiting e))) as [Hpos|Hzero].
    + destruct (bio_read_waiting kTlsChunk e (pending s) He Hc) as (e1 & -> & Hw1 & Hp1 & Hu1 & Ho1 & He1 & Hc1).
      set (chunk := take kTlsChunk (waiting e)) in *. assert (Hne : (0 < length chunk)%nat).
      { unfold chunk. rewrite length_take. pose proof kTlsChunk_pos. lia. }
      destruct chunk as [|b bs] eqn:Echunk; [cbn in Hne; lia|]. rewrite <- Echunk in *.
      destruct (flush_chunk_healthy (length chunk) chunk s Hh) as (s1 & Hf1 & Hs1 & Hps1 & Hh1); [lia|]. rewrite Hf1.
      destruct (IH (MkTls e1 s1)) as (t' & -> & Hok & Hpend & Hsent & Hsock); cbn [tls_ssl tls_sock].
      * rewrite Hw1, length_drop. pose proof kTlsChunk_pos. lia.
      * done.
      * done.
      * by rewrite Hps1.
      * rewrite Hp1, Hp, Hs1, Hw1, <- app_assoc. f_equal. rewrite Echunk. rewrite <- Echunk. symmetry. apply take_drop.
      * exists t'. split_and!; [done|done| |cbn in Hsent; by rewrite Hsent, Hu1, Hp1|cbn in Hsock; by rewrite Hsock].
        rewrite Hpend. unfold tls_pending. cbn. by rewrite Hps1, Ho1.
    + assert (Hw : waiting e = []) by (destruct (waiting e); [done|cbn in Hzero; lia]). rewrite Hw, app_nil_r in Hp.
      exists (MkTls e s). split_and!; [done| |done|unfold tls_sent; cbn; by rewrite Hp|done].
      split; cbn; [done|done|done|by rewrite Hw, app_nil_r|by rewrite Hp].
Qed.

(** A call of the engine that changes nothing of what is sealed leaves what was sent. *)
Lemma engine_call_ok (t : TlsConnection E S) e' out :
  tls_ok t -> established e' -> carries e' (pending (tls_sock t)) ->
  produced e' = produced (tls_ssl t) ++ out -> waiting e' = waiting (tls_ssl t) ++ out ->
  unseal (tls_ssl t) (produced e') = unseal (tls_ssl t) (produced (tls_ssl t)) -> unseal e' = unseal (tls_ssl t) ->
  tls_ok (MkTls e' (tls_sock t)) /\ tls_sent (MkTls e' (tls_sock t)) = tls_sent t.
Proof.
  intros [Hh He Hc Hp Hs] He' Hc' Hp' Hw' Hu Hu'. unfold tls_sent. cbn. rewrite Hu'. split; [|done].
  split; cbn; [done|done|done| |by rewrite Hu', Hs, Hu]. by rewrite Hp', Hp, Hw', <- app_assoc.
Qed.

(** What is received goes to the engine, while there is something to receive. *)
Lemma feed_incoming_some (t : TlsConnection E S) :
  tls_ok t -> pending (tls_sock t) <> [] ->
  exists n t', feed_incoming t = (Ok (Datatypes.S n), t') /\ tls_ok t' /\ tls_pending t' = tls_pending t /\ tls_sent t' = tls_sent t /\
    (length (pending (tls_sock t')) < length (pending (tls_sock t)))%nat.
Proof.
  intros [Hh He Hc Hp Hs] Hne. unfold feed_incoming.
  destruct (recv_some kTlsChunk (tls_sock t) Hh kTlsChunk_pos Hne) as (got & s & -> & Hgot & _ & Hpend & Hsent & Hh').
  rewrite Hpend in Hc. destruct (bio_write_feeds got _ _ He Hc Hgot) as (e & Hwr & Ho & Hw & Hpr & Hu & He' & Hc').
  destruct got as [|b got]; [done|]. rewrite Hwr. exists (length got), (MkTls e s).
  unfold tls_pending, tls_sent. cbn [tls_ssl tls_sock]. rewrite Ho, Hu, Hsent, Hpend, length_app. split_and!; try done; [|cbn; lia].
  split; cbn; [done|done|done|by rewrite Hpr, Hp, Hsent, Hw|by rewrite Hu, Hpr, Hsent].
Qed.

Lemma feed_incoming_none (t : TlsConnection E S) :
  tls_ok t -> pending (tls_sock t) = [] ->
  exists t', feed_incoming t = (Ok O, t') /\ tls_ok t' /\ tls_pending t' = tls_pending t /\ tls_sent t' = tls_sent t /\
    pending (tls_sock t') = [].
Proof.
  intros [Hh He Hc Hp Hs] Hnil. unfold feed_incoming.
  destruct (recv_closed kTlsChunk (tls_sock t) Hh Hnil) as (s & -> & Hnil' & Hsent & Hh').
  exists (MkTls (tls_ssl t) s). unfold tls_pending, tls_sent. cbn [tls_ssl tls_sock]. rewrite Hnil, Hnil', Hsent in *.
  split_and!; try done. split; cbn; [done|done|by rewrite Hnil'|congruence|congruence].
Qed.

Lemma flush_ok (t : TlsConnection E S) :
  tls_ok t -> exists t', flush_outgoing t = (Ok tt, t') /\ tls_ok t' /\ tls_pending t' = tls_pending t /\ tls_sent t' = tls_sent t /\
    pending (tls_sock t') = pending (tls_sock t).
Proof.
  intros [Hh He Hc Hp Hs]. destruct (flush_outgoing_ok t Hh He Hc Hp) as (t' & ? & ? & ? & Hsent & ?).
  exists t'. split_and!; try done. by rewrite Hsent, <- Hs.
Qed.

Lemma tls_send_ok turns data (t : TlsConnection E S) :
  tls_ok t -> data <> [] -> (0 < turns)%nat ->
  exists k t', tls_send turns data t = (Ok k, t') /\ (0 < k <= length data)%nat /\ tls_sent t' = tls_sent t ++ take k data /\
    tls_pending t' = tls_pending t /\ tls_ok t' /\ pending (tls_sock t') = pending (tls_sock t).
Proof.
  intros [Hh He Hc Hp Hs] Hdata Hturns. destruct turns as [|turns]; [lia|].
  assert (Hlen : (0 < length data)%nat) by (destruct data; [done|cbn; lia]).
  pose proof (clamp_io_len_pos _ Hlen) as Hclamp. set (given := take (clamp_io_len (length data)) data) in *.
  assert (Hgiven : (0 < length given <= length data)%nat) by (unfold given; rewrite length_take; lia).
  destruct (ssl_write_seals given _ _ He Hc) as (k & e & out & Hwrite & Hk & Hpr & Hw & Hseal & Hu & Ho & He' & Hc');
    [by destruct given; [cbn in Hgiven; lia|]|].
  destruct (flush_outgoing_ok (MkTls e (tls_sock t))) as (t' & Hflush & Hok & Hpend & Hsent & Hsock); cbn [tls_ssl tls_sock];
    [done|done|done|by rewrite Hpr, Hp, Hw, <- app_assoc|].
  exists k, t'. split_and!; [ |lia|lia| | |done|done].
  - cbn [tls_send]. destruct data as [|b data]; [done|]. fold given. by rewrite Hwrite, Hflush.
  - rewrite Hsent. cbn. rewrite Hu, Hseal, <- Hs. unfold tls_sent, given. f_equal.
    rewrite take_take. f_equal. unfold given in Hk. rewrite length_take in Hk. lia.
  - rewrite Hpend. exact Ho.
Qed.

(** A receive, by the bytes that are still on the stream. *)
Lemma tls_recv_ok turns n (t : TlsConnection E S) :
  tls_ok t -> (0 < n)%nat -> (length (pending (tls_sock t)) < turns)%nat ->
  exists bs t', tls_recv turns n t = (Ok bs, t') /\ (length bs <= n)%nat /\ tls_pending t = bs ++ tls_pending t' /\
    (bs = [] -> tls_pending t = []) /\ tls_sent t' = tls_sent t /\ tls_ok t' /\
    (length (pending (tls_sock t')) <= length (pending (tls_sock t)))%nat.
Proof.
  intros Hok Hn. revert t Hok. induction turns as [|turns IH]; intros t Hok Hturns; [lia|].
  pose proof (ssl_read_opens (clamp_io_len n) _ _ (to_engine _ Hok) (to_carries _ Hok) (proj1 (clamp_io_len_pos _ Hn))) as Hread.
  destruct n as [|n]; [lia|]. cbn [tls_recv].
  destruct (ssl_read (clamp_io_len (Datatypes.S n)) (tls_ssl t)) as [r e].
  destruct Hread as (Hr & (out & Hpr & Hw & Hu) & Hu' & He & Hc).
  destruct (engine_call_ok t e out Hok He Hc Hpr Hw Hu Hu') as [Hok1 Hsent1]. set (t1 := MkTls e (tls_sock t)) in *.
  destruct r as [bs| | | |]; [| |done| |done].
  - destruct Hr as (Hbs & Hlen & Hopen). exists bs, t1. pose proof (clamp_io_len_pos (Datatypes.S n) Hn).
    split_and!; try done; lia.
  - destruct Hr as [Hnone Hsame]. unfold want_read. destruct (flush_ok t1 Hok1) as (t2 & -> & Hok2 & Hpend2 & Hsent2 & Hsock2).
    destruct (decide (pending (tls_sock t2) = [])) as [Hnil|Hne].
    + destruct (feed_incoming_none t2 Hok2 Hnil) as (t3 & -> & Hok3 & Hpend3 & Hsent3 & Hnil3). exists [], t3.
      assert (Hempty : tls_pending t = []) by (unfold tls_pending; rewrite Hsock2 in Hnil; cbn in Hnil; by rewrite Hnil).
      rewrite Hempty. split_and!; try done; [cbn; lia| |congruence|by rewrite Hnil3; cbn; lia].
      cbn. rewrite Hpend3, Hpend2. unfold t1, tls_pending. cbn. rewrite Hsame. by rewrite <- Hempty.
    + destruct (feed_incoming_some t2 Hok2 Hne) as (got & t3 & -> & Hok3 & Hpend3 & Hsent3 & Hless).
      rewrite Hsock2 in Hless. cbn in Hless.
      assert (Hlt : (length (pending (tls_sock t3)) < turns)%nat) by lia.
      destruct (IH t3 Hok3 Hlt) as (bs & t' & Hrun & Hlen & Hopen & Hend & Hsent & Hok' & Hle).
      assert (Hp : tls_pending t3 = tls_pending t) by (rewrite Hpend3, Hpend2; exact Hsame).
      exists bs, t'. rewrite Hp in Hopen, Hend. split_and!; try done; [congruence|lia].
  - destruct Hr as [Hnone Hafter]. exists [], t1. unfold tls_pending. rewrite Hnone. cbn. split_and!; try done; lia.
Qed.
End Established.

(** ** A TLS connection is a stream *)

Section Stream.
Context {E S : Type} {TE : TlsEngine E} {BS : ByteStream S}.
Context (turns : nat).

#[export] Instance tls_stream : ByteStream (TlsConnection E S) := {
  async_recv n t := tls_recv turns n t;
  async_send data t := tls_send turns data t;
}.

Context {TL : TlsEngineLaws E} {BL : ByteStreamLaws S}.

Definition tls_healthy (t : TlsConnection E S) : Prop := tls_ok t /\ (length (pending (tls_sock t)) < turns)%nat.

#[export] Instance tls_stream_laws : ByteStreamLaws (TlsConnection E S).
Proof.
  apply (Build_ByteStreamLaws _ _ tls_pending tls_sent tls_healthy).
  - intros n t [Hok Hturns] Hn Hne. destruct (tls_recv_ok turns n t Hok Hn Hturns) as (bs & t' & ? & ? & ? & Hend & ? & ? & ?).
    exists bs, t'. split_and!; try done; [by intros ->; auto|split; [done|lia]].
  - intros n t [Hok Hturns] Hnil. destruct n as [|n].
    + exists t. split_and!; [cbn; by destruct turns|done|done|by split].
    + destruct (tls_recv_ok turns (Datatypes.S n) t Hok ltac:(lia) Hturns) as (bs & t' & ? & ? & Hopen & Hend & ? & ? & ?).
      rewrite Hnil in Hopen. destruct bs; [|done]. exists t'. split_and!; try done; [split; [done|lia]].
  - intros data t [Hok Hturns] Hne. destruct (tls_send_ok turns data t Hok Hne) as (k & t' & ? & ? & ? & ? & ? & Hsock); [lia|].
    exists k, t'. split_and!; try done; [lia|lia|split; [done|by rewrite Hsock]].
Defined.
End Stream.

(** ** What a caller sees: a plain stream *)

Inductive StreamCall := CallSend (data : list byte) | CallRecv (n : nat).
Inductive StreamAnswer := Accepted (k : nat) | Received (bs : list byte).

Definition stream_call {S : Type} {BS : ByteStream S} (c : StreamCall) (s : S) : expected StreamAnswer * S :=
  match c with
  | CallSend data => let '(r, s) := async_send data s in (let? k := r in Ok (Accepted k), s)
  | CallRecv n => let '(r, s) := async_recv n s in (let? bs := r in Ok (Received bs), s)
  end.

Fixpoint stream_calls {S : Type} {BS : ByteStream S} (cs : list StreamCall) (s : S) : list (expected StreamAnswer) * S :=
  match cs with
  | [] => ([], s)
  | c :: cs => let '(r, s) := stream_call c s in let '(rs, s) := stream_calls cs s in (r :: rs, s)
  end.

(** The plain stream: the bytes to come and the bytes that went.  A send takes some bytes and a receive
    gives some of those to come, and none only at their end. *)
Inductive plain_call : StreamCall -> StreamAnswer -> list byte * list byte -> list byte * list byte -> Prop :=
| plain_send data k coming gone :
    (k <= length data)%nat -> (k = O -> data = []) -> plain_call (CallSend data) (Accepted k) (coming, gone) (coming, gone ++ take k data)
| plain_recv n bs coming gone :
    (length bs <= n)%nat -> (bs = [] -> n = O \/ coming = []) -> plain_call (CallRecv n) (Received bs) (bs ++ coming, gone) (coming, gone).

Inductive plain_calls : list StreamCall -> list (expected StreamAnswer) -> list byte * list byte -> list byte * list byte -> Prop :=
| plain_nil p : plain_calls [] [] p p
| plain_cons c cs a rs p p1 p2 : plain_call c a p p1 -> plain_calls cs rs p1 p2 -> plain_calls (c :: cs) (Ok a :: rs) p p2.

Section Refines.
Context {E S : Type} {TE : TlsEngine E} {TL : TlsEngineLaws E} {BS : ByteStream S} {BL : ByteStreamLaws S}.
Context (turns : nat).

Definition plain_view (t : TlsConnection E S) : list byte * list byte := (tls_pending t, tls_sent t).

Lemma tls_call_plain c (t : TlsConnection E S) :
  tls_healthy turns t ->
  exists a t', stream_call (BS := tls_stream turns) c t = (Ok a, t') /\ plain_call c a (plain_view t) (plain_view t') /\ tls_healthy turns t'.
Proof.
  intros [Hok Hturns]. unfold plain_view. destruct c as [data|n]; cbn [stream_call async_send async_recv tls_stream].
  - destruct (decide (data = [])) as [->|Hne].
    + exists (Accepted O), t. split_and!; [by destruct turns| |by split].
      pose proof (plain_send [] O (tls_pending t) (tls_sent t)) as H. rewrite app_nil_r in H. by apply H.
    + destruct (tls_send_ok turns data t Hok Hne) as (k & t' & -> & Hk & Hsent & Hpend & Hok' & Hsock); [lia|].
      exists (Accepted k), t'. rewrite Hsent, Hpend. split_and!; [done| |split; [done|by rewrite Hsock]]. constructor; lia.
  - destruct n as [|n].
    + exists (Received []), t. split_and!; [by destruct turns| |by split]. apply (plain_recv O []); [done|by left].
    + destruct (tls_recv_ok turns (Datatypes.S n) t Hok ltac:(lia) Hturns) as (bs & t' & -> & Hlen & Hopen & Hend & Hsent & Hok' & Hle).
      exists (Received bs), t'. split_and!; [done| |split; [done|lia]]. rewrite Hsent, Hopen. constructor; [done|].
      intros Hbs. right. specialize (Hend Hbs). rewrite Hopen, Hbs in Hend. exact Hend.
Qed.

(** C27. An established TLS connection is a stream of plaintext: over a transport that cuts bytes at will
    and an engine that keeps what OpenSSL documents, every sequence of sends and receives succeeds and gives
    what a plain stream gives, bytes of the peer in order, none lost, the end only at their end, with
    everything the peer is to open on the transport after each send; and more turns of the loops than
    bytes on the transport are enough. *)
Theorem tls_refines_plain_stream (cs : list StreamCall) (t : TlsConnection E S) (Hok : tls_healthy turns t) :
  exists rs t', stream_calls (BS := tls_stream turns) cs t = (rs, t') /\ plain_calls cs rs (plain_view t) (plain_view t') /\ tls_healthy turns t'.
Proof.
  revert t Hok. induction cs as [|c cs IH]; intros t Hok; cbn [stream_calls].
  - exists [], t. split_and!; [done|constructor|done].
  - destruct (tls_call_plain c t Hok) as (a & t1 & -> & Hcall & Hok1). destruct (IH t1 Hok1) as (rs & t2 & -> & Hcalls & Hok2).
    exists (Ok a :: rs), t2. split_and!; [done|by econstructor|done].
Qed.
End Refines.

(** ** A session at work *)

(** An engine that masks each byte, takes five bytes at most at a time, and has nothing to negotiate. *)
Record MaskEngine := MkMask { me_in : list byte; me_out : list byte; me_produced : list byte }.

Definition mask (b : byte) : byte := Z.lxor b 85.

#[local] Instance mask_engine : TlsEngine MaskEngine := {
  ssl_do_handshake e := (SslOk tt, e);
  ssl_write data e :=
    let out := map mask (take 5 data) in
    (SslOk (length out), MkMask (me_in e) (me_out e ++ out) (me_produced e ++ out));
  ssl_read n e :=
    match me_in e with
    | [] => (SslWantRead, e)
    | _ => (SslOk (map mask (take n (me_in e))), MkMask (drop n (me_in e)) (me_out e) (me_produced e))
    end;
  bio_pending e := length (me_out e);
  bio_read n e := (take n (me_out e), MkMask (me_in e) (drop n (me_out e)) (me_produced e));
  bio_write bs e := (true, MkMask (me_in e ++ bs) (me_out e) (me_produced e));
  tls_error context _ := context;
}.

Lemma mask_mask bs : map mask (map mask bs) = bs.
Proof.
  rewrite map_map. rewrite <- (map_id bs) at 2. apply map_ext. intros b. unfold mask. by rewrite Z.lxor_assoc, Z.lxor_nilpotent, Z.lxor_0_r.
Qed.

#[local] Instance mask_engine_laws : TlsEngineLaws MaskEngine.
Proof.
  apply (Build_TlsEngineLaws _ _ (fun _ => True) (fun _ _ => True) (fun e c => map mask (me_in e ++ c)) me_out me_produced (fun _ bs => map mask bs)).
  - done.
  - intros n e c _ _. by eexists.
  - intros bs e c _ _ _. eexists. split_and!; try done. cbn. by rewrite app_assoc.
  - intros data e c _ _ Hne. cbn. exists (length (map mask (take 5 data))). do 2 eexists. split_and!; try done.
    + destruct data; [done|cbn; lia].
    + rewrite length_map, length_take. lia.
    + cbn -[take length]. rewrite map_app, mask_mask. f_equal. rewrite length_map, length_take.
      destruct (Nat.le_ge_cases 5 (length data)); [by rewrite Nat.min_l|by rewrite Nat.min_r, !firstn_all2 by lia].
  - intros n e c _ _ Hn. cbn. destruct (me_in e) as [|b bs] eqn:Hin; cbn -[take drop].
    + rewrite Hin. split_and!; try done. exists []. by rewrite !app_nil_r.
    + split_and!; try done.
      * destruct n; [lia|done].
      * rewrite length_map, length_take. lia.
      * rewrite <- map_app, app_assoc, take_drop. done.
      * exists []. by rewrite !app_nil_r.
Defined.

Definition wit_session : TlsConnection MaskEngine PlannedStream :=
  MkTls (MkMask [] [] []) (MkPlannedStream (map mask [10; 20; 30; 40; 50]) [] [2; 1; 3; 4]%nat).
Definition wit_calls : list StreamCall := [CallRecv 4; CallSend [1; 2; 3; 4; 5; 6; 7]; CallRecv 4; CallRecv 4; CallRecv 4; CallRecv 4].

Lemma tls_refines_plain_stream_witness :
  exists rs t', stream_calls (BS := tls_stream 6) wit_calls wit_session = (rs, t') /\
    plain_calls wit_calls rs (plain_view wit_session) (plain_view t') /\ tls_healthy 6 t'.
Proof.
  assert (Hok : tls_healthy 6 wit_session) by (split; [by split|vm_compute; lia]).
  exact (tls_refines_plain_stream 6 wit_calls wit_session Hok).
Defined.

(** The session in full: the bytes of the peer, and on the transport what the peer opens. *)
Example tls_session_at_work :
  stream_calls (BS := tls_stream 6) wit_calls wit_session =
    ([Ok (Received [10; 20]); Ok (Accepted 5); Ok (Received [30]); Ok (Received [40]); Ok (Received [50]); Ok (Received [])],
     MkTls (MkMask [] [] (map mask [1; 2; 3; 4; 5])) (MkPlannedStream [] (map mask [1; 2; 3; 4; 5]) [])).
Proof. vm_compute. done. Qed.

(** * Contexts

    [TlsContext]: how it is made, and the connections it opens.  A context of OpenSSL and its settings are
    the class [TlsLibrary], whose calls tell whether they went well. *)

Class TlsLibrary (C E X : Type) := {
  ssl_ctx_new : bool -> option C;
  ctx_set_min_version : C -> bool * C;
  ctx_set_max_version : C -> bool * C;
  ctx_use_certificate : list byte -> C -> bool * C;
  ctx_use_key : list byte -> C -> bool * C;
  ctx_check_key : C -> bool;
  ctx_load_ca : list byte -> C -> bool * C;
  (** [SSL_VERIFY_PEER], with [SSL_VERIFY_FAIL_IF_NO_PEER_CERT] or without. *)
  ctx_set_verify : bool -> C -> C;
  ssl_new : C -> option E;
  ssl_set_bios : E -> option E;
  ssl_set_role : bool -> E -> E;
  ssl_peer_certificate : E -> option X;
  x509_common_name : X -> option (list byte);
  ctx_error : string -> string;
}.

Section Contexts.
Context {C E X S : Type} {TLib : TlsLibrary C E X}.

Definition make_ctx (server : bool) (role : string) : expected C :=
  match ssl_ctx_new server with
  | None => make_error IoError (ctx_error "SSL_CTX_new")
  | Some c =>
      let pin := make_error IoError (ctx_error (role +:+ ": fijar TLS 1.3")) in
      let '(lowest, c) := ctx_set_min_version c in
      if negb lowest then pin
      else let '(highest, c) := ctx_set_max_version c in if negb highest then pin else Ok c
  end.

Definition load_keypair (cert key : list byte) (c : C) : expected C :=
  let '(loaded, c) := ctx_use_certificate cert c in
  if negb loaded then make_error InvalidArgument (ctx_error "cargar certificado")
  else
    let '(loaded, c) := ctx_use_key key c in
    if negb loaded then make_error InvalidArgument (ctx_error "cargar clave privada")
    else if negb (ctx_check_key c) then make_error InvalidArgument (ctx_error "la clave no casa con el certificado")
    else Ok c.

(** A context, and whether it requires the certificate of the client. *)
Record TlsContext := MkTlsContext { tc_ctx : C; tc_require_client_cert : bool }.

Definition verify_with (ca : list byte) (required : bool) (failure : string) (c : C) : expected C :=
  let '(loaded, c) := ctx_load_ca ca c in
  if negb loaded then make_error InvalidArgument (ctx_error failure) else Ok (ctx_set_verify required c).

Definition tls_server (cert_chain private_key client_ca : list byte) : expected TlsContext :=
  let? c := make_ctx true "servidor" in
  let? c := load_keypair cert_chain private_key c in
  match client_ca with
  | [] => Ok (MkTlsContext c false)
  | _ => let? c := verify_with client_ca true "cargar CA de cliente" c in Ok (MkTlsContext c true)
  end.

Definition tls_client (ca_to_verify cert key : list byte) : expected TlsContext :=
  let? c := make_ctx false "cliente" in
  let? c := match ca_to_verify with [] => Ok c | _ => verify_with ca_to_verify false "cargar CA del servidor" c end in
  let? c := match cert, key with [], _ | _, [] => Ok c | _, _ => load_keypair cert key c end in
  Ok (MkTlsContext c false).

(** [accept] and [connect]. *)
Definition tls_open (server : bool) (sock : S) (t : TlsContext) : expected (TlsConnection E S) :=
  match ssl_new (tc_ctx t) with
  | None => make_error IoError (ctx_error "SSL_new")
  | Some e =>
      match ssl_set_bios e with
      | None => make_error IoError (ctx_error "BIO_new")
      | Some e => Ok (MkTls (ssl_set_role server e) sock)
      end
  end.
Definition tls_accept (sock : S) (t : TlsContext) : expected (TlsConnection E S) := tls_open true sock t.
Definition tls_connect (sock : S) (t : TlsContext) : expected (TlsConnection E S) := tls_open false sock t.

(** The name of the peer, at most the 255 bytes that fit the buffer. *)
Definition peer_principal (t : TlsConnection E S) : option (list byte) :=
  match ssl_peer_certificate (tls_ssl t) with
  | None => None
  | Some cert => match x509_common_name cert with None => None | Some name => Some (take 255 name) end
  end.

(** ** What a context asks of its peers *)

(** The settings of a context: the pinned versions, the pair of certificate and key that has been checked, and
    whether the peer is verified against an authority and must show a certificate. *)
Record TlsSettings := MkSettings {
  st_lowest : bool; st_highest : bool; st_certificate : option (list byte); st_key : option (list byte);
  st_authority : option (list byte); st_verify : option bool;
}.

Context (settings : C -> TlsSettings).

(** What OpenSSL documents of the calls that go well: they change their own setting. *)
Record settings_laws : Prop := {
  law_new server c : ssl_ctx_new server = Some c -> settings c = MkSettings false false None None None None;
  law_min c c' : ctx_set_min_version c = (true, c') ->
    settings c' = MkSettings true (st_highest (settings c)) (st_certificate (settings c)) (st_key (settings c)) (st_authority (settings c)) (st_verify (settings c));
  law_max c c' : ctx_set_max_version c = (true, c') ->
    settings c' = MkSettings (st_lowest (settings c)) true (st_certificate (settings c)) (st_key (settings c)) (st_authority (settings c)) (st_verify (settings c));
  law_certificate path c c' : ctx_use_certificate path c = (true, c') ->
    settings c' = MkSettings (st_lowest (settings c)) (st_highest (settings c)) (Some path) (st_key (settings c)) (st_authority (settings c)) (st_verify (settings c));
  law_key path c c' : ctx_use_key path c = (true, c') ->
    settings c' = MkSettings (st_lowest (settings c)) (st_highest (settings c)) (st_certificate (settings c)) (Some path) (st_authority (settings c)) (st_verify (settings c));
  law_ca path c c' : ctx_load_ca path c = (true, c') ->
    settings c' = MkSettings (st_lowest (settings c)) (st_highest (settings c)) (st_certificate (settings c)) (st_key (settings c)) (Some path) (st_verify (settings c));
  law_verify required c : settings (ctx_set_verify required c) =
    MkSettings (st_lowest (settings c)) (st_highest (settings c)) (st_certificate (settings c)) (st_key (settings c)) (st_authority (settings c)) (Some required);
}.
Hypothesis laws : settings_laws.

Lemma make_ctx_settings server role c : make_ctx server role = Ok c -> settings c = MkSettings true true None None None None.
Proof.
  unfold make_ctx. destruct (ssl_ctx_new server) as [c0|] eqn:H0; [|done]. destruct (ctx_set_min_version c0) as [[] c1] eqn:H1; cbn [negb]; [|done].
  destruct (ctx_set_max_version c1) as [[] c2] eqn:H2; cbn [negb]; [|done]. intros [= <-].
  by rewrite (law_max laws _ _ H2), (law_min laws _ _ H1), (law_new laws _ _ H0).
Qed.

Lemma load_keypair_settings cert key c c' :
  load_keypair cert key c = Ok c' ->
  settings c' = MkSettings (st_lowest (settings c)) (st_highest (settings c)) (Some cert) (Some key) (st_authority (settings c)) (st_verify (settings c)) /\
  ctx_check_key c' = true.
Proof.
  unfold load_keypair. destruct (ctx_use_certificate cert c) as [[] c1] eqn:H1; cbn [negb]; [|done].
  destruct (ctx_use_key key c1) as [[] c2] eqn:H2; cbn [negb]; [|done]. destruct (ctx_check_key c2) eqn:H3; cbn [negb]; [|done].
  intros [= <-]. by rewrite (law_key laws _ _ _ H2), (law_certificate laws _ _ _ H1).
Qed.

Lemma verify_with_settings ca required failure c c' :
  verify_with ca required failure c = Ok c' ->
  settings c' = MkSettings (st_lowest (settings c)) (st_highest (settings c)) (st_certificate (settings c)) (st_key (settings c)) (Some ca) (Some required).
Proof.
  unfold verify_with. destruct (ctx_load_ca ca c) as [[] c1] eqn:H1; cbn [negb]; [|done]. intros [= <-].
  by rewrite (law_verify laws), (law_ca laws _ _ _ H1).
Qed.

(** A context of a server speaks TLS 1.3 alone, shows its certificate, and verifies its clients, which must
    show theirs, exactly when it was given an authority. *)
Theorem tls_server_settings (cert_chain private_key client_ca : list byte) (t : TlsContext)
    (Hmade : tls_server cert_chain private_key client_ca = Ok t) :
  settings (tc_ctx t) = MkSettings true true (Some cert_chain) (Some private_key)
    (match client_ca with [] => None | _ => Some client_ca end) (match client_ca with [] => None | _ => Some true end) /\
  (tc_require_client_cert t = true <-> client_ca <> []).
Proof.
  unfold tls_server in Hmade. destruct (make_ctx true _) as [c|] eqn:H1; cbn in Hmade; [|done].
  destruct (load_keypair _ _ c) as [c1|] eqn:H2; cbn in Hmade; [|done]. apply make_ctx_settings in H1.
  apply load_keypair_settings in H2 as [H2 _]. rewrite H1 in H2. cbn in H2. destruct client_ca as [|b ca].
  - injection Hmade as <-. cbn [tc_ctx tc_require_client_cert]. by rewrite H2.
  - destruct (verify_with _ _ _ c1) as [c2|] eqn:H3; cbn in Hmade; [|done]. injection Hmade as <-.
    apply verify_with_settings in H3. cbn [tc_ctx tc_require_client_cert]. by rewrite H3, H2.
Qed.

(** A client speaks TLS 1.3 alone, and verifies the server against the authority it was given -- but not that
    the server is the one it called: no setting holds a name. *)
Theorem tls_client_settings (ca cert key : list byte) (t : TlsContext) (Hmade : tls_client ca cert key = Ok t) :
  st_lowest (settings (tc_ctx t)) = true /\ st_highest (settings (tc_ctx t)) = true /\
  st_authority (settings (tc_ctx t)) = (match ca with [] => None | _ => Some ca end) /\
  st_verify (settings (tc_ctx t)) = (match ca with [] => None | _ => Some false end) /\
  st_certificate (settings (tc_ctx t)) = (match cert, key with [], _ | _, [] => None | _, _ => Some cert end).
Proof.
  unfold tls_client in Hmade. destruct (make_ctx false _) as [c|] eqn:H1; cbn in Hmade; [|done]. apply make_ctx_settings in H1.
  destruct (match ca with [] => Ok c | _ => _ end) as [c1|] eqn:H2; cbn in Hmade; [|done].
  assert (H2' : settings c1 = MkSettings true true None None (match ca with [] => None | _ => Some ca end) (match ca with [] => None | _ => Some false end)).
  { destruct ca as [|b ca]; [injection H2 as <-; done|]. apply verify_with_settings in H2. by rewrite H2, H1. }
  destruct (match cert, key with [], _ | _, [] => Ok c1 | _, _ => load_keypair cert key c1 end) as [c2|] eqn:H3; cbn in Hmade; [|done].
  injection Hmade as <-. cbn [tc_ctx]. destruct cert as [|x cert], key as [|y key]; try (injection H3 as <-; by rewrite H2').
  apply load_keypair_settings in H3 as [H3 _]. by rewrite H3, H2'.
Qed.
End Contexts.
