(* ===== verification/Telemetry.v ===== *)
(** * Logs and traces

    Models the structured logger of [src/src/telemetry/logging.hpp] and [logging.cpp], then the tracing of
    [tracing.hpp] and [tracing.cpp]: the header [traceparent] of W3C, the generator of identifiers and
    the spans.  The calendar is that of [gmtime_r]; a time is a number of nanoseconds since 1970. *)
From Stdlib Require Import ZArith Lia Floats.SpecFloat String.
From stdpp Require Import base list gmap strings.
From S2P Require Import Prelude Codec Decimal Json JsonSafety Http Jwt Metrics MetricsSafety OperationPort OperationSafety.
#[local] Open Scope Z_scope.

(** ** Logs *)

Inductive LogLevel := LevelTrace | LevelDebug | LevelInfo | LevelWarn | LevelError.

(** The order of the enumeration. *)
Definition level_rank (level : LogLevel) : Z :=
  match level with LevelTrace => 0 | LevelDebug => 1 | LevelInfo => 2 | LevelWarn => 3 | LevelError => 4 end.

Definition level_name (level : LogLevel) : list byte :=
  match level with
  | LevelTrace => text_of "trace"
  | LevelDebug => text_of "debug"
  | LevelInfo => text_of "info"
  | LevelWarn => text_of "warn"
  | LevelError => text_of "error"
  end.

Inductive FieldValue := FieldText (text : list byte) | FieldInt (n : Z) | FieldDouble (x : spec_float) | FieldBool (flag : bool).
Record Field := MkField { fd_key : list byte; fd_value : FieldValue }.

(** [append_json_string] is written as the strings of the other writer. *)
Definition append_json_string (out value : list byte) : list byte := out ++ append_escaped value.

Definition append_json_value (out : list byte) (value : FieldValue) : list byte :=
  match value with
  | FieldText s => append_json_string out s
  | FieldInt i => out ++ to_string i
  | FieldDouble d => out ++ format_number d
  | FieldBool b => out ++ (if b then text_of "true" else text_of "false")
  end.

(** [std::format("{:0w}", n)]. *)
Definition zero_padded (w : nat) (n : Z) : list byte :=
  let sign := if n <? 0 then [45] else [] in
  let ds := digits (Z.abs n) in sign ++ replicate (w - length sign - length ds) 48 ++ ds.

(** [gmtime_r]: the date of a day of the proleptic Gregorian calendar, counted from 1970, by years that
    begin in March and eras of 400 years. *)
Definition civil_of_days (days : Z) : Z * Z * Z :=
  let z := days + 719468 in
  let era := z / 146097 in
  let doe := z mod 146097 in
  let yoe := (doe - doe / 1460 + doe / 36524 - doe / 146096) / 365 in
  let doy := doe - (365 * yoe + yoe / 4 - yoe / 100) in
  let mp := (5 * doy + 2) / 153 in
  let month := if mp <? 10 then mp + 3 else mp - 9 in
  (yoe + era * 400 + (if month <=? 2 then 1 else 0), month, doy - (153 * mp + 2) / 5 + 1).

(** [time_point_cast] truncates, and [millis] has the sign of the time. *)
Definition format_rfc3339 (tp : Z) : list byte :=
  let secs := Z.quot tp (10 ^ 9) in
  let millis := Z.quot (tp - secs * 10 ^ 9) (10 ^ 6) in
  let '(year, month, day) := civil_of_days (secs / 86400) in
  let tod := secs mod 86400 in
  zero_padded 4 year ++ [45] ++ zero_padded 2 month ++ [45] ++ zero_padded 2 day ++ [84] ++
  zero_padded 2 (tod / 3600) ++ [58] ++ zero_padded 2 (tod / 60 mod 60) ++ [58] ++ zero_padded 2 (tod mod 60) ++ [46] ++
  zero_padded 3 millis ++ [90].

(** [Logger], with what it has written to its sink. *)
Record Logger := MkLogger { lg_sink : list byte; lg_min_level : LogLevel; lg_context : list Field }.

Definition logger_enabled (level : LogLevel) (l : Logger) : bool := level_rank (lg_min_level l) <=? level_rank level.
Definition set_min_level (level : LogLevel) (l : Logger) : Logger := MkLogger (lg_sink l) level (lg_context l).
Definition add_context (f : Field) (l : Logger) : Logger := MkLogger (lg_sink l) (lg_min_level l) (lg_context l ++ [f]).

Definition append_field (line : list byte) (f : Field) : list byte :=
  append_json_value (append_json_string (line ++ [44]) (fd_key f) ++ [58]) (fd_value f).

(** A line of the log; [quote] is the quotation mark. *)
Definition log_line (level : LogLevel) (message : list byte) (context fields : list Field) (now : Z) : list byte :=
  let quote := [34] in
  let line := [123] ++ quote ++ text_of "ts" ++ quote ++ [58] ++ quote in
  let line := line ++ format_rfc3339 now in
  let line := line ++ quote ++ [44] ++ quote ++ text_of "level" ++ quote ++ [58] ++ quote in
  let line := line ++ level_name level in
  let line := line ++ quote ++ [44] ++ quote ++ text_of "msg" ++ quote ++ [58] in
  let line := append_json_string line message in
  foldl append_field (foldl append_field line context) fields ++ [125; 10].

Definition logger_log (level : LogLevel) (message : list byte) (fields : list Field) (now : Z) (l : Logger) : Logger :=
  if negb (logger_enabled level l) then l
  else MkLogger (lg_sink l ++ log_line level message (lg_context l) fields now) (lg_min_level l) (lg_context l).

(** ** The calendar *)

(** The day of a date. *)
Definition days_of_civil (date : Z * Z * Z) : Z :=
  let '(year, month, day) := date in
  let y := if month <=? 2 then year - 1 else year in
  let yoe := y mod 400 in
  let doy := (153 * (if 2 <? month then month - 3 else month + 9) + 2) / 5 + day - 1 in
  y / 400 * 146097 + (yoe * 365 + yoe / 4 - yoe / 100 + doy) - 719468.

(** The year and the day of the year of a day of an era, and the month of a day of the year. *)
Lemma year_of_era doe :
  0 <= doe < 146097 -> let yoe := (doe - doe / 1460 + doe / 36524 - doe / 146096) / 365 in
  0 <= yoe < 400 /\ 0 <= doe - (365 * yoe + yoe / 4 - yoe / 100) <= 365.
Proof. intros H. cbv zeta. Z.to_euclidean_division_equations. lia. Qed.

Lemma month_of_year doy :
  0 <= doy <= 365 -> let mp := (5 * doy + 2) / 153 in 0 <= mp <= 11 /\ 0 <= doy - (153 * mp + 2) / 5 <= 30.
Proof. intros H. cbv zeta. Z.to_euclidean_division_equations. lia. Qed.

(** A date is the date of its day. *)
Lemma civil_date days :
  let '(year, month, day) := civil_of_days days in
  days_of_civil (year, month, day) = days /\ 1 <= month <= 12 /\ 1 <= day <= 31 /\ (0 <= days < 2932167 -> 0 <= year < 10000).
Proof.
  unfold civil_of_days. set (z := days + 719468). cbv zeta. pose proof (Z.mod_pos_bound z 146097 ltac:(lia)) as Hm.
  pose proof (Z.div_mod z 146097 ltac:(lia)) as Hz. set (q := z / 146097) in *. set (doe := z mod 146097) in *.
  pose proof (year_of_era doe Hm) as Hyear. cbv zeta in Hyear.
  set (yoe := (doe - doe / 1460 + doe / 36524 - doe / 146096) / 365) in *. destruct Hyear as [Hyoe Hdoy].
  set (doy := doe - (365 * yoe + yoe / 4 - yoe / 100)) in *. pose proof (month_of_year doy Hdoy) as Hmonth. cbv zeta in Hmonth.
  set (mp := (5 * doy + 2) / 153) in *. destruct Hmonth as [Hmp Hday].
  assert (Hmod : (yoe + q * 400) mod 400 = yoe /\ (yoe + q * 400) / 400 = q).
  { rewrite Z.mod_add, Z.div_add, Z.mod_small, Z.div_small by lia. lia. }
  unfold days_of_civil. destruct (Z.ltb_spec mp 10) as [Hearly|Hlate].
  - rewrite (proj2 (Z.leb_gt (mp + 3) 2)), (proj2 (Z.ltb_lt 2 (mp + 3))) by lia. rewrite Z.add_0_r, (proj1 Hmod), (proj2 Hmod).
    replace (mp + 3 - 3) with mp by lia. split_and!; unfold doy; lia.
  - rewrite (proj2 (Z.leb_le (mp - 9) 2)), (proj2 (Z.ltb_ge 2 (mp - 9))) by lia.
    replace (yoe + q * 400 + 1 - 1) with (yoe + q * 400) by lia. rewrite (proj1 Hmod), (proj2 Hmod).
    replace (mp - 9 + 9) with mp by lia. split_and!; [unfold doy; lia|lia..|]. intros Hdays.
    assert (4 <= q <= 24) by lia. destruct (Z.eq_dec yoe 399) as [E|]; [|lia].
    unfold doy in Hdoy. rewrite E in Hdoy. change (399 / 4) with 99 in Hdoy. change (399 / 100) with 3 in Hdoy. lia.
Qed.

(** ** Times are read *)

(** The instant a stamp stands for, in milliseconds, by the places of its digits. *)
Definition read_rfc3339 (text : list byte) : option Z :=
  let number (pos n : nat) := digits_value (take n (drop pos text)) 0 in
  match number 0%nat 4%nat, number 5%nat 2%nat, number 8%nat 2%nat, number 11%nat 2%nat, number 14%nat 2%nat, number 17%nat 2%nat, number 20%nat 3%nat with
  | Some year, Some month, Some day, Some hour, Some minute, Some second, Some millis =>
      Some ((days_of_civil (year, month, day) * 86400 + hour * 3600 + minute * 60 + second) * 1000 + millis)
  | _, _, _, _, _, _, _ => None
  end.

Lemma digits_loop_fuel f g n acc : (0 < f)%nat -> 0 <= n < 10 ^ Z.of_nat f -> digits_loop (f + g) n acc = digits_loop f n acc.
Proof.
  intros Hf. revert n acc. induction f as [|f IH]; intros n acc Hn; [lia|]. cbn [Nat.add digits_loop].
  destruct (Z.ltb_spec n 10); [done|]. rewrite Nat2Z.inj_succ, Z.pow_succ_r in Hn by lia.
  destruct f as [|f]; [change (10 ^ Z.of_nat 0) with 1 in Hn; lia|].
  apply IH; [lia|]. split; [apply Z.div_pos; lia|apply Z.div_lt_upper_bound; lia].
Qed.

Lemma zero_padded_reads w n :
  (0 < w <= 20)%nat -> 0 <= n < 10 ^ Z.of_nat w -> length (zero_padded w n) = w /\ digits_value (zero_padded w n) 0 = Some n.
Proof.
  intros Hw Hn. unfold zero_padded. rewrite (proj2 (Z.ltb_ge n 0)), Z.abs_eq by lia. cbn [app length].
  unfold digits. replace 20%nat with (w + (20 - w))%nat by lia. rewrite digits_loop_fuel by (done || lia).
  destruct (digits_loop_value w n [] Hn ltac:(lia)) as (ds & -> & Hv & _ & _ & Hl). rewrite app_nil_r.
  rewrite length_app, length_replicate, digits_value_zeros, Z.mul_0_r. split; [lia|done].
Qed.

Lemma length_two {A} (l : list A) : length l = 2%nat -> exists a b, l = [a; b].
Proof. destruct l as [|a [|b [|]]]; try done. eauto. Qed.

(** A stamp is the instant, to the millisecond. *)
Lemma rfc3339_reads tp : 0 <= tp < 2932167 * 86400 * 10 ^ 9 -> read_rfc3339 (format_rfc3339 tp) = Some (tp / 10 ^ 6).
Proof.
  intros Ht. unfold format_rfc3339. rewrite (Z.quot_div_nonneg tp) by lia. set (secs := tp / 10 ^ 9).
  assert (Hsecs : 0 <= secs < 2932167 * 86400 /\ 0 <= tp - secs * 10 ^ 9 < 10 ^ 9) by (unfold secs; Z.to_euclidean_division_equations; lia).
  rewrite Z.quot_div_nonneg by lia. set (millis := (tp - secs * 10 ^ 9) / 10 ^ 6).
  assert (Hmillis : 0 <= millis < 1000 /\ secs * 1000 + millis = tp / 10 ^ 6) by (unfold millis, secs; Z.to_euclidean_division_equations; lia).
  pose proof (civil_date (secs / 86400)) as Hdate. destruct (civil_of_days (secs / 86400)) as [[year month] day].
  destruct Hdate as (Hday & Hmonth & Hd & Hyear). specialize (Hyear ltac:(Z.to_euclidean_division_equations; lia)).
  assert (Hclock : 0 <= secs mod 86400 / 3600 < 100 /\ 0 <= secs mod 86400 / 60 mod 60 < 100 /\ 0 <= secs mod 86400 mod 60 < 100 /\
    secs / 86400 * 86400 + secs mod 86400 / 3600 * 3600 + secs mod 86400 / 60 mod 60 * 60 + secs mod 86400 mod 60 = secs)
    by (Z.to_euclidean_division_equations; lia).
  destruct Hclock as (Hh & Hmin & Hs & Hsum).
  destruct (zero_padded_reads 4 year) as [Ly Vy]; [lia|lia|]. destruct (zero_padded_reads 2 month) as [Lm Vm]; [lia|lia|].
  destruct (zero_padded_reads 2 day) as [Ld Vd]; [lia|lia|]. destruct (zero_padded_reads 2 (secs mod 86400 / 3600)) as [Lh Vh]; [lia|lia|].
  destruct (zero_padded_reads 2 (secs mod 86400 / 60 mod 60)) as [Ln Vn]; [lia|lia|].
  destruct (zero_padded_reads 2 (secs mod 86400 mod 60)) as [Ls Vs]; [lia|lia|]. destruct (zero_padded_reads 3 millis) as [Lf Vf]; [lia|lia|].
  set (ty := zero_padded 4 year) in *. set (tf := zero_padded 3 millis) in *.
  destruct (length_two _ Lm) as (m1 & m2 & Em), (length_two _ Ld) as (d1 & d2 & Ed), (length_two _ Lh) as (h1 & h2 & Eh),
    (length_two _ Ln) as (n1 & n2 & En), (length_two _ Ls) as (s1 & s2 & Es). rewrite Em, Ed, Eh, En, Es in *.
  destruct ty as [|y1 [|y2 [|y3 [|y4 [|]]]]]; try done. destruct tf as [|f1 [|f2 [|f3 [|]]]]; try done.
  unfold read_rfc3339. cbn [app drop take skipn firstn]. rewrite Vy, Vm, Vd, Vh, Vn, Vs, Vf, Hday, <- (proj2 Hmillis). f_equal. lia.
Qed.

(** ** The log is read *)

(** A character of a stamp, which JSON writes as it is. *)
Definition stamp_char (c : byte) : Prop := 45 <= c <= 90.

Lemma stamp_digits fuel n acc : Forall stamp_char acc -> Forall stamp_char (digits_loop fuel n acc).
Proof.
  revert n acc. induction fuel as [|fuel IH]; intros n acc Hacc; cbn [digits_loop]; [done|].
  assert (Hc : Forall stamp_char ((48 + n mod 10) :: acc)).
  { constructor; [|done]. unfold stamp_char. pose proof (Z.mod_pos_bound n 10 ltac:(lia)). lia. }
  destruct (n <? 10); [done|by apply IH].
Qed.

Lemma stamp_padded w n : Forall stamp_char (zero_padded w n).
Proof.
  unfold zero_padded. repeat (apply Forall_app; split); [by destruct (n <? 0); [constructor; [|constructor]|constructor]| |].
  - apply Forall_replicate. unfold stamp_char. lia.
  - apply stamp_digits. constructor.
Qed.

Lemma stamp_rfc3339 tp : Forall stamp_char (format_rfc3339 tp).
Proof.
  unfold format_rfc3339. destruct (civil_of_days _) as [[year month] day].
  rewrite !Forall_app. split_and!; try apply stamp_padded; (constructor; [unfold stamp_char; lia|constructor]).
Qed.

Lemma escaped_plain text : Forall (fun c => escape_char c = [c]) text -> append_escaped text = [34] ++ text ++ [34].
Proof.
  intros H. unfold append_escaped. do 2 f_equal. induction H as [|c text Hc _ IH]; [done|]. cbn. by rewrite Hc, IH.
Qed.

Lemma stamp_escape c : stamp_char c -> escape_char c = [c].
Proof.
  unfold stamp_char, escape_char. intros H. repeat (rewrite (proj2 (Z.eqb_neq c _)) by lia). by rewrite (proj2 (Z.ltb_ge c 32)) by lia.
Qed.

(** The numbers of a line: integers of 64 bits and finite doubles, which a reader gets as the double that
    the digits written stand for. *)
Inductive LogNumber := LogInt (n : Z) | LogDouble (x : spec_float).

#[export] Instance LogNumber_number : JsonNumber LogNumber := {|
  number_text n := match n with LogInt n => to_string n | LogDouble x => format_number x end;
  number_ok n := match n with LogInt n => i_range 64 n | LogDouble x => finite_double x end;
  number_value n := match n with LogInt n => double_of_int n | LogDouble x => strtod (format_number x) end;
|}.

#[export] Instance LogNumber_laws : JsonNumberLaws LogNumber.
Proof.
  split; cbn [number_text number_ok number_value LogNumber_number].
  - intros [n|x]; [exact (number_starts (N := Z) n)|apply double_starts].
  - intros size [n|x] rest; [exact (number_reads (N := Z) size n rest)|apply double_reads].
Qed.

(** The document of a line: the values of its fields under their keys. *)
Definition field_json (v : FieldValue) : Json LogNumber :=
  match v with
  | FieldText s => JString s
  | FieldInt i => JNumber (LogInt i)
  | FieldDouble x => JNumber (LogDouble x)
  | FieldBool b => JBool b
  end.
Definition field_member (f : Field) : list byte * Json LogNumber := (fd_key f, field_json (fd_value f)).
Definition log_document (level : LogLevel) (message : list byte) (fields : list Field) (now : Z) : Json LogNumber :=
  JObject ([(text_of "ts", JString (format_rfc3339 now)); (text_of "level", JString (level_name level)); (text_of "msg", JString message)] ++
    (field_member <$> fields)).

(** Keys and texts of bytes, integers of 64 bits, doubles that are numbers. *)
Definition field_ok (f : Field) : Prop :=
  Forall (u_range 8) (fd_key f) /\
  match fd_value f with FieldText s => Forall (u_range 8) s | FieldInt i => i_range 64 i | FieldDouble x => finite_double x | FieldBool _ => True end.

Definition member_text (m : list byte * Json LogNumber) : list byte := append_escaped m.1 ++ [58] ++ print_json m.2.

Lemma join_texts_cons t ts : join_texts (t :: ts) = t ++ concat (map (fun u => [44] ++ u) ts).
Proof.
  revert t. induction ts as [|u ts IH]; intros t; [by rewrite join_cons|]. rewrite join_cons, IH. cbn. done.
Qed.

Lemma fields_printed fs line :
  Forall field_ok fs -> foldl append_field line fs = line ++ concat (map (fun u => [44] ++ u) (map member_text (field_member <$> fs))).
Proof.
  intros Hfs. revert line. induction Hfs as [|f fs Hf _ IH]; intros line; cbn [foldl]; [by rewrite app_nil_r|].
  rewrite IH. unfold append_field, append_json_string. cbn [fmap list_fmap map concat]. rewrite app_assoc. f_equal.
  unfold member_text, field_member. cbn [fst snd]. destruct Hf as [_ Hv].
  destruct (fd_value f) as [s|i|d|b]; cbn [append_json_value field_json print_json] in *; unfold append_json_string;
    [by rewrite <- !app_assoc..|by destruct b; rewrite <- !app_assoc].
Qed.

Lemma level_printed level : append_escaped (level_name level) = [34] ++ level_name level ++ [34].
Proof. destruct level; vm_compute; done. Qed.

Lemma log_line_prints level message context fields now :
  Forall field_ok (context ++ fields) ->
  log_line level message context fields now = print_json (log_document level message (context ++ fields) now) ++ [10].
Proof.
  intros Hfs. unfold log_line. cbv zeta. rewrite <- foldl_app, fields_printed by done. unfold log_document, append_json_string.
  cbn [print_json]. change (fun m : list byte * Json LogNumber => append_escaped m.1 ++ [58] ++ print_json m.2) with member_text.
  rewrite map_app. cbn [map app]. rewrite join_texts_cons. cbn [map concat]. unfold member_text at 1 2 3. cbn [fst snd print_json].
  rewrite level_printed, (escaped_plain (format_rfc3339 now))
    by (eapply Forall_impl; [apply stamp_rfc3339|intros ? ?; by apply stamp_escape]).
  change (append_escaped (text_of "ts")) with ([34] ++ text_of "ts" ++ [34]).
  change (append_escaped (text_of "level")) with ([34] ++ text_of "level" ++ [34]).
  change (append_escaped (text_of "msg")) with ([34] ++ text_of "msg" ++ [34]).
  change (123 :: ?x) with ([123] ++ x). change [125; 10] with ([125] ++ [10]). rewrite <- !app_assoc. done.
Qed.

Lemma u_range_stamp text : Forall stamp_char text -> Forall (u_range 8) text.
Proof. intros H. eapply Forall_impl; [exact H|]. unfold stamp_char, u_range. intros; lia. Qed.

Lemma field_members_ok fs :
  Forall field_ok fs -> foldr (fun m P => (Forall (u_range 8) m.1 /\ json_ok m.2) /\ P) True (field_member <$> fs).
Proof.
  induction 1 as [|f fs [Hk Hv] _ IH]; [done|]. cbn. split; [|done]. split; [done|]. by destruct (fd_value f).
Qed.

Lemma log_document_ok level message fields now :
  Forall (u_range 8) message -> Forall field_ok fields -> json_ok (log_document level message fields now).
Proof.
  intros Hm Hf. pose proof (u_range_stamp _ (stamp_rfc3339 now)) as Hts. unfold log_document.
  cbn [json_ok app foldr fst snd]. split_and!; try done; [by_ranges|by_ranges|destruct level; by_ranges|by_ranges|by apply field_members_ok].
Qed.

Lemma field_members_nesting fs :
  (foldr (fun (m : list byte * Json LogNumber) n => Nat.max (S (nesting m.2)) n) O (field_member <$> fs) <= 1)%nat.
Proof. induction fs as [|f fs IH]; cbn; [lia|]. destruct (fd_value f); cbn; lia. Qed.

Lemma log_document_nesting level message fields now : (nesting (log_document level message fields now) <= kJsonMaxDepth)%nat.
Proof.
  unfold log_document. cbn [nesting app foldr snd]. pose proof (field_members_nesting fields). change kJsonMaxDepth with 64%nat. lia.
Qed.

Lemma printable_texts ts : Forall printable ts -> printable (join_texts ts).
Proof.
  destruct 1 as [|t ts Ht Hts]; [constructor|]. rewrite join_texts_cons. apply printable_app; [done|].
  induction Hts as [|u ts Hu _ IH]; [constructor|]. cbn [map concat]. apply printable_app; [|done].
  apply printable_app; [by repeat constructor|done].
Qed.

(** A document is written on one line. *)
Lemma print_printable (v : Json LogNumber) : json_ok v -> printable (print_json v).
Proof.
  induction v as [|flag|n|s|items IH|members IH] using json_ind_nested; cbn [print_json]; intros Hok.
  - by repeat constructor.
  - destruct flag; by repeat constructor.
  - apply plain_printable. cbn [number_text LogNumber_number]. destruct n; [apply plain_to_string|apply plain_number].
  - apply printable_escaped. eapply Forall_impl; [exact Hok|]. by intros c [? _].
  - apply printable_app; [by repeat constructor|]. apply printable_app; [|by repeat constructor]. apply printable_texts.
    induction IH as [|v items Hv _ IHl]; [constructor|]. destruct Hok as [Hv' Hok]. constructor; auto.
  - apply printable_app; [by repeat constructor|]. apply printable_app; [|by repeat constructor]. apply printable_texts.
    induction IH as [|m members Hm _ IHl]; [constructor|]. destruct Hok as [[Hk Hv'] Hok]. constructor; [|auto].
    apply printable_app; [apply printable_escaped; eapply Forall_impl; [exact Hk|]; by intros c [? _]|].
    apply printable_app; [by repeat constructor|auto].
Qed.

(** What a reader of the log does: a document per line. *)
Fixpoint text_lines (line text : list byte) : list (list byte) :=
  match text with
  | [] => []
  | c :: text => if c =? 10 then line :: text_lines [] text else text_lines (line ++ [c]) text
  end.

Lemma text_lines_read a line rest : printable a -> text_lines line (a ++ 10 :: rest) = (line ++ a) :: text_lines [] rest.
Proof.
  intros H. revert line. induction H as [|c a Hc _ IH]; intros line; cbn [app text_lines]; [by rewrite app_nil_r|].
  rewrite (proj2 (Z.eqb_neq c 10)) by lia. by rewrite IH, <- app_assoc.
Qed.

Inductive LoggerCall := CallLog (level : LogLevel) (message : list byte) (fields : list Field) (now : Z) | CallContext (f : Field) |
  CallMinLevel (level : LogLevel).

Definition logger_call (l : Logger) (c : LoggerCall) : Logger :=
  match c with
  | CallLog level message fields now => logger_log level message fields now l
  | CallContext f => add_context f l
  | CallMinLevel level => set_min_level level l
  end.

(** Bytes, fields that JSON has a value for, and times from 1970 to the end of 9999. *)
Definition logger_call_ok (c : LoggerCall) : Prop :=
  match c with
  | CallLog _ message fields now =>
      Forall (u_range 8) message /\ Forall field_ok fields /\ 0 <= now < 2932167 * 86400 * 10 ^ 9
  | CallContext f => field_ok f
  | CallMinLevel _ => True
  end.

(** The documents that calls log, from a least level and a context. *)
Fixpoint log_documents (calls : list LoggerCall) (least : LogLevel) (context : list Field) : list (Json LogNumber) :=
  match calls with
  | [] => []
  | CallLog level message fields now :: calls =>
      (if level_rank least <=? level_rank level then [log_document level message (context ++ fields) now] else []) ++
      log_documents calls least context
  | CallContext f :: calls => log_documents calls least (context ++ [f])
  | CallMinLevel level :: calls => log_documents calls level context
  end.

Lemma log_calls_lines calls l : Forall logger_call_ok calls -> Forall field_ok (lg_context l) ->
  lg_sink (foldl logger_call l calls) = lg_sink l ++ concat (map (fun v => print_json v ++ [10]) (log_documents calls (lg_min_level l) (lg_context l))) /\
  Forall (fun v => json_ok v /\ (nesting v <= kJsonMaxDepth)%nat) (log_documents calls (lg_min_level l) (lg_context l)).
Proof.
  intros Hcalls. revert l. induction Hcalls as [|c calls Hc _ IH]; intros l Hctx; cbn [foldl log_documents].
  - split; [by rewrite app_nil_r|constructor].
  - destruct c as [level message fields now|f|level]; cbn [logger_call logger_call_ok] in *.
    + unfold logger_log, logger_enabled. destruct (level_rank (lg_min_level l) <=? level_rank level); cbn [negb]; [|by apply IH].
      destruct (IH (MkLogger (lg_sink l ++ log_line level message (lg_context l) fields now) (lg_min_level l) (lg_context l)) Hctx) as [-> Hdocs].
      destruct Hc as (Hm & Hf & _). assert (Hfs : Forall field_ok (lg_context l ++ fields)) by (by apply Forall_app).
      cbn [lg_sink lg_min_level lg_context app map concat] in *. rewrite log_line_prints by done. split; [by rewrite <- !app_assoc|].
      constructor; [|done]. split; [by apply log_document_ok|apply log_document_nesting].
    + apply (IH (add_context f l)). cbn. apply Forall_app. by split; [|constructor].
    + apply (IH (set_min_level level l) Hctx).
Qed.

(** ** What a reader makes of a line *)

(** A line as its reader sees it: the instant in milliseconds, the level, the message, and the fields. *)
Record LogEntry := MkLogEntry {
  le_time : Z;
  le_level : LogLevel;
  le_message : list byte;
  le_fields : list (list byte * JsonValue);
}.

Definition read_level (name : list byte) : option LogLevel :=
  List.find (fun level => bool_decide (level_name level = name)) [LevelTrace; LevelDebug; LevelInfo; LevelWarn; LevelError].

Definition read_entry (v : JsonValue) : option LogEntry :=
  match v with
  | JObject ((k1, JString ts) :: (k2, JString level) :: (k3, JString message) :: fields) =>
      if bool_decide (k1 = text_of "ts") && bool_decide (k2 = text_of "level") && bool_decide (k3 = text_of "msg") then
        match read_rfc3339 ts, read_level level with
        | Some time, Some level => Some (MkLogEntry time level message fields)
        | _, _ => None
        end
      else None
  | _ => None
  end.

Definition read_line (line : list byte) : option LogEntry :=
  match parse_json line with Ok v => read_entry v | Err _ => None end.

(** The value of a field: a double is what its digits are read as. *)
Definition field_value (f : Field) : list byte * JsonValue :=
  (fd_key f,
   match fd_value f with
   | FieldText s => JString s
   | FieldInt i => JNumber (double_of_int i)
   | FieldDouble x => JNumber (strtod (format_number x))
   | FieldBool b => JBool b
   end).

(** What the calls log, from a least level and a context. *)
Fixpoint log_entries (calls : list LoggerCall) (least : LogLevel) (context : list Field) : list LogEntry :=
  match calls with
  | [] => []
  | CallLog level message fields now :: calls =>
      (if level_rank least <=? level_rank level
       then [MkLogEntry (now / 10 ^ 6) level message (field_value <$> context ++ fields)] else []) ++ log_entries calls least context
  | CallContext f :: calls => log_entries calls least (context ++ [f])
  | CallMinLevel level :: calls => log_entries calls level context
  end.

Lemma document_entry level message fields now :
  0 <= now < 2932167 * 86400 * 10 ^ 9 ->
  read_entry (json_map number_value (log_document level message fields now)) = Some (MkLogEntry (now / 10 ^ 6) level message (field_value <$> fields)).
Proof.
  intros Hnow. unfold log_document. cbn [json_map map app fst snd read_entry]. rewrite !bool_decide_true by done. cbn [andb].
  rewrite rfc3339_reads by done. assert (Hl : read_level (level_name level) = Some level) by (destruct level; vm_compute; reflexivity).
  rewrite Hl. do 2 f_equal. clear. induction fields as [|[key value] fields IH]; [done|]. cbn [fmap list_fmap map]. f_equal; [by destruct value|exact IH].
Qed.

Lemma documents_entries calls least context :
  Forall logger_call_ok calls ->
  (fun v => read_entry (json_map number_value v)) <$> log_documents calls least context = Some <$> log_entries calls least context.
Proof.
  intros Hcalls. revert least context. induction Hcalls as [|c calls Hc _ IH]; intros least context; [done|].
  destruct c as [level message fields now|f|level]; cbn [log_documents log_entries]; [|apply IH..].
  destruct (_ <=? _); cbn [app fmap list_fmap]; [|apply IH]. destruct Hc as (_ & _ & Hnow). rewrite document_entry by done. f_equal. apply IH.
Qed.

(** C31. The log is read.  For any calls of the logger, at any level and at times from 1970 to 9999, with
    messages, keys and texts of any bytes, integers of 64 bits, flags and finite doubles, each line of
    the log is one JSON document, and a reader gets from the lines exactly the messages of the levels
    enabled when they were logged, in order, each with the instant to the millisecond, its level, its
    text, the fields of the context and its own: a double as the number its digits stand for. *)
Theorem log_read (least : LogLevel) (calls : list LoggerCall) (Hok : Forall logger_call_ok calls) :
  read_line <$> text_lines [] (lg_sink (foldl logger_call (MkLogger [] least []) calls)) = Some <$> log_entries calls least [].
Proof.
  rewrite <- documents_entries by done.
  destruct (log_calls_lines calls (MkLogger [] least []) Hok) as [-> Hdocs]; [constructor|]. cbn [lg_sink lg_min_level lg_context app] in *.
  induction Hdocs as [|v docs [Hv Hn] _ IH]; [done|]. cbn [map concat fmap list_fmap].
  rewrite <- app_assoc. cbn [app]. rewrite text_lines_read by (by apply print_printable). cbn [app fmap list_fmap].
  f_equal; [|exact IH]. unfold read_line. by rewrite (document_parsed v Hv Hn).
Qed.

(** A tenth. *)
Definition sample_double : spec_float := S754_finite false 7205759403792794 (-56).

Definition logger_script : list LoggerCall :=
  [CallContext (MkField (text_of "node") (FieldInt 3));
   CallLog LevelWarn (text_of "disk" ++ [10; 34; 1; 200]) [MkField (text_of "full") (FieldBool true); MkField (text_of "used") (FieldDouble sample_double)]
     1000000000123456789;
   CallLog LevelDebug (text_of "quiet") [] 5; CallMinLevel LevelTrace; CallLog LevelDebug [] [MkField [34] (FieldText [92; 10])] 5].

Definition logger_entries : list LogEntry :=
  [MkLogEntry 1000000000123 LevelWarn (text_of "disk" ++ [10; 34; 1; 200])
     [(text_of "node", JNumber (double_of_int 3)); (text_of "full", JBool true); (text_of "used", JNumber sample_double)];
   MkLogEntry 0 LevelDebug [] [(text_of "node", JNumber (double_of_int 3)); ([34], JString [92; 10])]].

Lemma log_read_witness :
  read_line <$> text_lines [] (lg_sink (foldl logger_call (MkLogger [] LevelInfo []) logger_script)) = Some <$> logger_entries.
Proof.
  assert (Hok : Forall logger_call_ok logger_script).
  { apply Forall_cons; split; [split; cbn [fd_key fd_value]; by_ranges|]. apply Forall_cons; split; [split; [by_ranges|split; [|lia]]|].
    { constructor; [split; cbn [fd_key fd_value]; by_ranges; done|]. constructor; [|constructor]. split; cbn [fd_key fd_value]; [by_ranges|].
      split; [vm_compute; reflexivity|lia]. }
    apply Forall_cons; split; [split; [by_ranges|split; [constructor|lia]]|]. constructor; [done|]. constructor; [|constructor]. split; [by_ranges|].
    split; [|lia]. constructor; [split; cbn [fd_key fd_value]; by_ranges|constructor]. }
  assert (Hentries : log_entries logger_script LevelInfo [] = logger_entries) by (vm_compute; reflexivity).
  rewrite <- Hentries. exact (log_read LevelInfo logger_script Hok).
Defined.

(** An infinity makes a line that is no document. *)
Example infinite_field_unread :
  read_line <$> text_lines [] (lg_sink (logger_log LevelInfo [] [MkField [120] (FieldDouble (S754_infinity false))] 0 (MkLogger [] LevelInfo []))) = [None].
Proof. vm_compute. done. Qed.

(** A time before 1970 has milliseconds of its sign: the stamp is of no RFC 3339. *)
Example stamp_before_epoch : format_rfc3339 (- 500000000) = text_of "1970-01-01T00:00:00.-500Z".
Proof. vm_compute. done. Qed.

(** * Traces

    The header [traceparent], the identifiers and the spans. *)

Record TraceId := MkTraceId { ti_hi : Z; ti_lo : Z }.
Definition trace_id_valid (t : TraceId) : bool := negb (ti_hi t =? 0) || negb (ti_lo t =? 0).

(** A [SpanId] is its value. *)
Definition span_id_valid (s : Z) : bool := negb (s =? 0).

Record SpanContext := MkSpanContext { sc_trace_id : TraceId; sc_span_id : Z; sc_flags : Z }.
Definition span_context_valid (c : SpanContext) : bool := trace_id_valid (sc_trace_id c) && span_id_valid (sc_span_id c).

Definition kTraceFlagSampled : Z := 1.
Definition kTraceparentLen : nat := 55.

(** [append_hex]: the digit of the shift [4 * (width - 1)] first. *)
Fixpoint append_hex (width : nat) (value : Z) : list byte :=
  match width with
  | O => []
  | S w => hex_char (Z.land (Z.shiftr value (4 * Z.of_nat w)) 15) :: append_hex w value
  end.

(** [None] for -1; upper case is refused. *)
Definition hex_value (c : byte) : option Z :=
  if (48 <=? c) && (c <=? 57) then Some (c - 48) else if (97 <=? c) && (c <=? 102) then Some (c - 97 + 10) else None.

Fixpoint parse_hex (value : Z) (text : list byte) : expected Z :=
  match text with
  | [] => Ok value
  | c :: text =>
      match hex_value c with
      | None => make_error InvalidArgument "traceparent: dígito hex inválido"
      | Some digit => parse_hex (Z.lor (to_u 64 (Z.shiftl value 4)) digit) text
      end
  end.

Definition format_traceparent (c : SpanContext) : list byte :=
  append_hex 2 0 ++ [45] ++ append_hex 16 (ti_hi (sc_trace_id c)) ++ append_hex 16 (ti_lo (sc_trace_id c)) ++ [45] ++
  append_hex 16 (sc_span_id c) ++ [45] ++ append_hex 2 (sc_flags c).

Definition parse_traceparent (header : list byte) : expected SpanContext :=
  let dash pos := nth pos header 0 =? 45 in
  if negb (length header =? kTraceparentLen)%nat || negb (dash 2%nat) || negb (dash 35%nat) || negb (dash 52%nat) then
    make_error InvalidArgument "traceparent: forma inválida"
  else
    let field pos n := parse_hex 0 (take n (drop pos header)) in
    match field 0%nat 2%nat with
    | Ok 0 =>
        match field 3%nat 16%nat, field 19%nat 16%nat, field 36%nat 16%nat, field 53%nat 2%nat with
        | Ok hi, Ok lo, Ok span, Ok flags =>
            let c := MkSpanContext (MkTraceId hi lo) span (to_u 8 flags) in
            if span_context_valid c then Ok c else make_error InvalidArgument "traceparent: id todo-cero"
        | _, _, _, _ => make_error InvalidArgument "traceparent: campo hex inválido"
        end
    | _ => make_error InvalidArgument "traceparent: versión no soportada"
    end.

(** ** Identifiers *)

(** [splitmix64]. *)
Definition kGamma : Z := 11400714819323198485.
Definition xor_shift (k : Z) (x : Z) : Z := Z.lxor x (Z.shiftr x k).
Definition splitmix (state : Z) : Z :=
  let mixed := to_u 64 (xor_shift 30 state * 13787848793156543929) in
  let mixed := to_u 64 (xor_shift 27 mixed * 10723151780598845931) in
  xor_shift 31 mixed.

(** The loop of [next_nonzero], for a number of turns: the result and the state. *)
Fixpoint next_loop (turns : nat) (state : Z) : Z * Z :=
  match turns with
  | O => (0, state)
  | S turns =>
      let state := to_u 64 (state + kGamma) in
      let result := splitmix state in
      if result =? 0 then next_loop turns state else (result, state)
  end.
Definition next_nonzero (state : Z) : Z * Z := next_loop 2 state.

(** What a tracer needs of a generator. *)
Class IdGenerator (G : Type) := { new_trace_id : G -> TraceId * G; new_span_id : G -> Z * G }.

(** [RandomIdGenerator], whose state is a number. *)
#[export] Instance random_ids : IdGenerator Z := {
  new_trace_id s := let '(hi, s) := next_nonzero s in let '(lo, s) := next_nonzero s in (MkTraceId hi lo, s);
  new_span_id s := next_nonzero s;
}.

(** ** Spans *)

Record SpanData := MkSpanData {
  sd_context : SpanContext;
  sd_parent : Z;
  sd_name : list byte;
  sd_start : Z;
  sd_end : Z;
  sd_attributes : list Field;
}.

(** A span: whether [tracer_] is not null, and its data. *)
Record Span := MkSpan { sn_tracer : bool; sn_data : SpanData }.

(** What becomes of a span that has ended: the sink got it, or it was dropped. *)
Inductive SpanEnd := Emitted (data : SpanData) | Dropped (data : SpanData).

Section Spans.
Context {G : Type} {IG : IdGenerator G}.

Definition start_root (name : list byte) (sampled : bool) (now : Z) (ids : G) : Span * G :=
  let '(trace, ids) := new_trace_id ids in
  let '(span, ids) := new_span_id ids in
  (MkSpan true (MkSpanData (MkSpanContext trace span (if sampled then kTraceFlagSampled else 0)) 0 name now 0 []), ids).

(** Also [start_from_remote]. *)
Definition start_child (parent : SpanContext) (name : list byte) (now : Z) (ids : G) : Span * G :=
  let '(span, ids) := new_span_id ids in
  (MkSpan true (MkSpanData (MkSpanContext (sc_trace_id parent) span (sc_flags parent)) (sc_span_id parent) name now 0 []), ids).

Definition set_attribute (attribute : Field) (s : Span) : Span :=
  if sn_tracer s then
    let d := sn_data s in
    MkSpan true (MkSpanData (sd_context d) (sd_parent d) (sd_name d) (sd_start d) (sd_end d) (sd_attributes d ++ [attribute]))
  else s.

(** [end], when the tracer has a sink or none: [at] is the time, or none when the clock or the sink throws. *)
Definition span_end (sink : bool) (at_ : option Z) (s : Span) : Span * list SpanEnd :=
  if sn_tracer s then
    let d := sn_data s in
    match at_ with
    | Some t =>
        let d := MkSpanData (sd_context d) (sd_parent d) (sd_name d) (sd_start d) t (sd_attributes d) in
        (MkSpan false d, [if sink then Emitted d else Dropped d])
    | None => (MkSpan false d, [Dropped d])
    end
  else (s, []).

(** The variables of the program, and what has become of their spans. *)
Record Spans := MkSpans { ss_ids : G; ss_spans : gmap nat Span; ss_ended : list SpanEnd; ss_started : list SpanContext }.

Inductive SpanCall :=
  | StartRoot (v : nat) (name : list byte) (sampled : bool) (now : Z) (at_ : option Z)
  | StartChild (v : nat) (parent : SpanContext) (name : list byte) (now : Z) (at_ : option Z)
  | MoveSpan (v from : nat) (at_ : option Z)
  | SetAttribute (v : nat) (attribute : Field)
  | EndSpan (v : nat) (at_ : option Z)
  | DestroySpan (v : nat) (at_ : option Z).

(** What holds a variable before it is assigned ends. *)
Definition end_held (sink : bool) (v : nat) (at_ : option Z) (spans : gmap nat Span) : list SpanEnd :=
  match spans !! v with Some s => (span_end sink at_ s).2 | None => [] end.

(** A new span is assigned to a variable; the span a variable is moved from loses its tracer. *)
Definition span_call (sink : bool) (c : SpanCall) (w : Spans) : Spans :=
  let 'MkSpans ids spans ended started := w in
  match c with
  | StartRoot v name sampled now at_ =>
      let '(s, ids) := start_root name sampled now ids in
      MkSpans ids (<[v := s]> spans) (ended ++ end_held sink v at_ spans) (started ++ [sd_context (sn_data s)])
  | StartChild v parent name now at_ =>
      let '(s, ids) := start_child parent name now ids in
      MkSpans ids (<[v := s]> spans) (ended ++ end_held sink v at_ spans) (started ++ [sd_context (sn_data s)])
  | MoveSpan v from at_ =>
      match spans !! from with
      | Some s =>
          if (v =? from)%nat then w
          else MkSpans ids (<[v := s]> (<[from := MkSpan false (sn_data s)]> spans)) (ended ++ end_held sink v at_ spans) started
      | None => w
      end
  | SetAttribute v attribute => MkSpans ids (alter (set_attribute attribute) v spans) ended started
  | EndSpan v at_ => MkSpans ids (alter (fun s => (span_end sink at_ s).1) v spans) (ended ++ end_held sink v at_ spans) started
  | DestroySpan v at_ => MkSpans ids (delete v spans) (ended ++ end_held sink v at_ spans) started
  end.
End Spans.
Arguments Spans : clear implicits.

(** ** The header is read *)

Lemma hex_value_char d : 0 <= d < 16 -> hex_value (hex_char d) = Some d.
Proof.
  intros Hd. unfold hex_char, hex_value. destruct (Z.ltb_spec d 10).
  - rewrite (proj2 (Z.leb_le 48 (48 + d))), (proj2 (Z.leb_le (48 + d) 57)) by lia. cbn. f_equal. lia.
  - rewrite (proj2 (Z.leb_le 48 _)), (proj2 (Z.leb_gt (97 + (d - 10)) 57)), (proj2 (Z.leb_le 97 _)), (proj2 (Z.leb_le (97 + (d - 10)) 102)) by lia.
    cbn. f_equal. lia.
Qed.

Lemma hex_char_value c d : hex_value c = Some d -> hex_char d = c /\ 0 <= d < 16.
Proof.
  unfold hex_value, hex_char. destruct (Z.leb_spec 48 c), (Z.leb_spec c 57), (Z.leb_spec 97 c), (Z.leb_spec c 102); cbn;
    intros [= <-]; (destruct (Z.ltb_spec (c - 48) 10) as [?|?] || idtac); (destruct (Z.ltb_spec (c - 97 + 10) 10) as [?|?] || idtac); lia.
Qed.

Lemma hex_step acc d : 0 <= acc < 2 ^ 60 -> 0 <= d < 16 -> Z.lor (to_u 64 (Z.shiftl acc 4)) d = acc * 16 + d.
Proof.
  intros Ha Hd. rewrite Z.shiftl_mul_pow2 by lia. change (2 ^ 4) with 16. rewrite to_u_id by (split; lia).
  apply (lor_sum 4); [lia|done|]. change (2 ^ 4) with 16. by rewrite Z.mod_mul.
Qed.

Lemma append_hex_head w v : append_hex (S w) v = hex_char (v / 16 ^ Z.of_nat w mod 16) :: append_hex w v.
Proof.
  cbn [append_hex]. rewrite Z.shiftr_div_pow2 by lia. change 15 with (Z.ones 4). rewrite Z.land_ones by lia.
  rewrite Z.pow_mul_r by lia. done.
Qed.

Lemma length_append_hex w v : length (append_hex w v) = w.
Proof. induction w as [|w IH]; [done|]. rewrite append_hex_head. cbn. by rewrite IH. Qed.

(** Digits written and read after [acc]. *)
Lemma parse_append_hex w v acc :
  0 <= acc -> (acc + 1) * 16 ^ Z.of_nat w <= 2 ^ 64 -> parse_hex acc (append_hex w v) = Ok (acc * 16 ^ Z.of_nat w + v mod 16 ^ Z.of_nat w).
Proof.
  revert acc. induction w as [|w IH]; intros acc Ha Hb.
  { cbn [append_hex parse_hex]. change (16 ^ Z.of_nat 0) with 1. rewrite Z.mod_1_r. f_equal. lia. }
  rewrite append_hex_head. cbn [parse_hex]. rewrite Nat2Z.inj_succ, Z.pow_succ_r in * by lia. set (p := 16 ^ Z.of_nat w) in *.
  assert (Hp : 0 < p) by (apply Z.pow_pos_nonneg; lia). pose proof (Z.mod_pos_bound (v / p) 16 ltac:(lia)) as Hd.
  rewrite hex_value_char, hex_step by (try done; nia). rewrite IH by nia. f_equal.
  rewrite (Z.mul_comm 16 p), (Z.rem_mul_r v p 16) by lia. lia.
Qed.

Lemma parse_hex_shape text acc v :
  0 <= acc -> (acc + 1) * 16 ^ Z.of_nat (length text) <= 2 ^ 64 -> parse_hex acc text = Ok v ->
  text = append_hex (length text) v /\ acc * 16 ^ Z.of_nat (length text) <= v < (acc + 1) * 16 ^ Z.of_nat (length text).
Proof.
  revert acc. induction text as [|c text IH]; intros acc Ha Hb; cbn [parse_hex length].
  { intros [= <-]. change (16 ^ Z.of_nat 0) with 1. split; [done|lia]. }
  destruct (hex_value c) as [d|] eqn:Hc; [|done]. apply hex_char_value in Hc as [Hchar Hd].
  cbn [length] in Hb. rewrite Nat2Z.inj_succ, Z.pow_succ_r in * by lia. set (p := 16 ^ Z.of_nat (length text)) in *.
  assert (Hp : 0 < p) by (apply Z.pow_pos_nonneg; lia). rewrite hex_step by (try done; nia). intros Hparse.
  destruct (IH (acc * 16 + d) ltac:(lia) ltac:(nia) Hparse) as [Htext [Hlow Hhigh]]. fold p in Htext, Hlow, Hhigh. split; [|nia].
  rewrite append_hex_head. fold p. rewrite <- Htext. f_equal. rewrite <- Hchar. f_equal.
  assert (Hq : v / p = acc * 16 + d) by (symmetry; apply (Z.div_unique v p _ (v - (acc * 16 + d) * p)); lia).
  rewrite Hq, Z.add_comm, Z.mod_add by lia. by rewrite Z.mod_small.
Qed.

Lemma hex_field w v text :
  (w <= 16)%nat -> length text = w -> (parse_hex 0 text = Ok v <-> text = append_hex w v /\ 0 <= v < 16 ^ Z.of_nat w).
Proof.
  intros Hw Hl. assert (Hp : 16 ^ Z.of_nat w <= 2 ^ 64).
  { change (2 ^ 64) with (16 ^ 16). apply Z.pow_le_mono_r; lia. }
  split.
  - intros H. destruct (parse_hex_shape text 0 v) as [Ht Hv]; [lia|rewrite Hl; lia|done|]. rewrite Hl in *. split; [done|lia].
  - intros [-> Hv]. rewrite parse_append_hex by lia. rewrite Z.mod_small by done. done.
Qed.

Definition span_context_ok (c : SpanContext) : Prop :=
  u_range 64 (ti_hi (sc_trace_id c)) /\ u_range 64 (ti_lo (sc_trace_id c)) /\ u_range 64 (sc_span_id c) /\ u_range 8 (sc_flags c) /\
  span_context_valid c = true.

(** A text of the length of the header, cut where its fields are. *)
Lemma header_cut (header : list byte) :
  length header = kTraceparentLen ->
  header = take 2 header ++ [nth 2 header 0] ++ take 16 (drop 3 header) ++ take 16 (drop 19 header) ++ [nth 35 header 0] ++
    take 16 (drop 36 header) ++ [nth 52 header 0] ++ take 2 (drop 53 header).
Proof. intros H. do 55 (destruct header as [|? header]; [done|]). destruct header; [|done]. done. Qed.

(** C32. A header is read as a context exactly when it is what that context is written as: of version 00, with
    lower-case digits in every place, a trace and a span that are not zero; anything else is refused.
    So a trace that crosses processes keeps its identifiers and its flags. *)
Theorem traceparent_exact (header : list byte) (c : SpanContext) :
  parse_traceparent header = Ok c <-> span_context_ok c /\ header = format_traceparent c.
Proof.
  unfold parse_traceparent. destruct (Nat.eqb_spec (length header) kTraceparentLen) as [Hlen|Hlen]; cbn [negb orb].
  2: { split; [done|]. intros [_ ->]. exfalso. apply Hlen. unfold format_traceparent. rewrite !length_app, !length_append_hex. done. }
  assert (Hl0 : length (take 2 (drop 0 header)) = 2%nat) by (rewrite length_take, length_drop, Hlen; done).
  assert (Hl3 : length (take 16 (drop 3 header)) = 16%nat) by (rewrite length_take, length_drop, Hlen; done).
  assert (Hl19 : length (take 16 (drop 19 header)) = 16%nat) by (rewrite length_take, length_drop, Hlen; done).
  assert (Hl36 : length (take 16 (drop 36 header)) = 16%nat) by (rewrite length_take, length_drop, Hlen; done).
  assert (Hl53 : length (take 2 (drop 53 header)) = 2%nat) by (rewrite length_take, length_drop, Hlen; done).
  pose proof (header_cut header Hlen) as Hcut. split.
  - destruct (Z.eqb_spec (nth 2 header 0) 45) as [H2|]; cbn [negb orb]; [|done].
    destruct (Z.eqb_spec (nth 35 header 0) 45) as [H35|]; cbn [negb orb]; [|done].
    destruct (Z.eqb_spec (nth 52 header 0) 45) as [H52|]; cbn [negb orb]; [|done].
    destruct (parse_hex 0 (take 2 (drop 0 header))) as [[|p|p]|e] eqn:Hv; try done.
    destruct (parse_hex 0 (take 16 (drop 3 header))) as [hi|] eqn:Hhi; [|done].
    destruct (parse_hex 0 (take 16 (drop 19 header))) as [lo|] eqn:Hlo; [|done].
    destruct (parse_hex 0 (take 16 (drop 36 header))) as [span|] eqn:Hspan; [|done].
    destruct (parse_hex 0 (take 2 (drop 53 header))) as [flags|] eqn:Hflags; [|done].
    apply (hex_field 2) in Hv as [Ev _]; [|lia|done]. apply (hex_field 16) in Hhi as [Ehi Rhi]; [|lia|done].
    apply (hex_field 16) in Hlo as [Elo Rlo]; [|lia|done]. apply (hex_field 16) in Hspan as [Espan Rspan]; [|lia|done].
    apply (hex_field 2) in Hflags as [Eflags Rflags]; [|lia|done].
    rewrite to_u_id by exact Rflags. destruct (span_context_valid _) eqn:Hvalid; [|done]. intros [= <-]. split; [by split_and!|].
    rewrite Hcut, H2, H35, H52. change (drop 0 header) with header in Ev. rewrite Ev, Ehi, Elo, Espan, Eflags. done.
  - intros ((Rhi & Rlo & Rspan & Rflags & Hvalid) & Hheader). unfold format_traceparent in Hheader.
    set (t0 := append_hex 2 0) in *. set (t1 := append_hex 16 (ti_hi _)) in *. set (t2 := append_hex 16 (ti_lo _)) in *.
    set (t3 := append_hex 16 (sc_span_id c)) in *. set (t4 := append_hex 2 (sc_flags c)) in *.
    rewrite Hcut in Hheader. apply app_inj_1 in Hheader as [E0 Hheader]; [|unfold t0; by rewrite length_append_hex; cbn in Hl0].
    apply app_inj_1 in Hheader as [[= E2] Hheader]; [|done]. apply app_inj_1 in Hheader as [E3 Hheader]; [|unfold t1; by rewrite length_append_hex].
    apply app_inj_1 in Hheader as [E19 Hheader]; [|unfold t2; by rewrite length_append_hex]. apply app_inj_1 in Hheader as [[= E35] Hheader]; [|done].
    apply app_inj_1 in Hheader as [E36 Hheader]; [|unfold t3; by rewrite length_append_hex]. apply app_inj_1 in Hheader as [[= E52] E53]; [|done].
    rewrite E2, E35, E52. cbn [Z.eqb Pos.eqb negb orb]. change (drop 0 header) with header.
    rewrite E0, E3, E19, E36, E53.
    rewrite (proj2 (hex_field 2 0 t0 ltac:(lia) eq_refl)) by (split; [done|lia]).
    rewrite (proj2 (hex_field 16 _ t1 ltac:(lia) (length_append_hex _ _)) (conj eq_refl Rhi)).
    rewrite (proj2 (hex_field 16 _ t2 ltac:(lia) (length_append_hex _ _)) (conj eq_refl Rlo)).
    rewrite (proj2 (hex_field 16 _ t3 ltac:(lia) (length_append_hex _ _)) (conj eq_refl Rspan)).
    rewrite (proj2 (hex_field 2 _ t4 ltac:(lia) (length_append_hex _ _)) (conj eq_refl Rflags)).
    rewrite to_u_id by exact Rflags. destruct c as [[hi lo] span flags]. cbn [sc_trace_id ti_hi ti_lo sc_span_id sc_flags] in *. by rewrite Hvalid.
Qed.

(** ** Identifiers are never zero, and do not come back *)

Lemma xor_shift_range k x : 0 < k -> u_range 64 x -> u_range 64 (xor_shift k x).
Proof.
  intros Hk [H0 H1]. unfold xor_shift. split.
  - apply Z.lxor_nonneg. rewrite Z.shiftr_nonneg. lia.
  - assert (Hs : 0 <= Z.shiftr x k <= x).
    { rewrite Z.shiftr_div_pow2 by lia. assert (1 <= 2 ^ k) by (change 1 with (2 ^ 0); apply Z.pow_le_mono_r; lia).
      split; [apply Z.div_pos; lia|apply Z.div_le_upper_bound; nia]. }
    destruct (Z.eq_dec (Z.lxor x (Z.shiftr x k)) 0) as [->|Hne]; [lia|].
    assert (0 <= Z.lxor x (Z.shiftr x k)) by (apply Z.lxor_nonneg; lia).
    apply Z.log2_lt_cancel. rewrite Z.log2_pow2 by lia.
    pose proof (Z.log2_lxor x (Z.shiftr x k) ltac:(lia) ltac:(lia)) as Hlog. pose proof (Z.log2_le_mono (Z.shiftr x k) x ltac:(lia)) as Hmono.
    assert (Z.log2 x < 64) by (destruct (Z.eq_dec x 0) as [->|]; [done|apply Z.log2_lt_pow2; lia]). lia.
Qed.

(** Shifts that differ by the same bits are equal: the difference is its own shift. *)
Lemma xor_shift_inj k x y : 0 < k -> u_range 64 x -> u_range 64 y -> xor_shift k x = xor_shift k y -> x = y.
Proof.
  intros Hk [Hx _] [Hy _] Heq. unfold xor_shift in Heq. set (d := Z.lxor x y).
  assert (Hd : Z.shiftr d k = d).
  { unfold d. rewrite Z.shiftr_lxor by lia. apply Z.bits_inj'. intros n Hn.
    apply (f_equal (fun z => Z.testbit z n)) in Heq. rewrite !Z.lxor_spec in *. by destruct (Z.testbit x n), (Z.testbit y n), (Z.testbit _ n), (Z.testbit _ n). }
  assert (H0 : 0 <= d) by (apply Z.lxor_nonneg; lia). rewrite Z.shiftr_div_pow2 in Hd by lia.
  assert (2 <= 2 ^ k) by (change 2 with (2 ^ 1) at 1; apply Z.pow_le_mono_r; lia).
  assert (d = 0) by (pose proof (Z.mul_div_le d (2 ^ k) ltac:(lia)); nia). by apply Z.lxor_eq.
Qed.

(** The product by an odd number has an inverse. *)
Lemma mul_inj c inverse x y :
  c * inverse mod 2 ^ 64 = 1 -> u_range 64 x -> u_range 64 y -> to_u 64 (x * c) = to_u 64 (y * c) -> x = y.
Proof.
  intros Hc Hx Hy Heq. rewrite <- (to_u_id 64 x), <- (to_u_id 64 y) by done.
  assert (H : forall z, to_u 64 z = (z * c mod 2 ^ 64) * inverse mod 2 ^ 64).
  { intros z. rewrite Z.mul_mod_idemp_l, <- Z.mul_assoc, <- Z.mul_mod_idemp_r, Hc, Z.mul_1_r by lia. done. }
  rewrite !H. unfold to_u in Heq. by rewrite Heq.
Qed.

Lemma splitmix_range state : u_range 64 state -> u_range 64 (splitmix state).
Proof. intros. unfold splitmix. apply xor_shift_range; [lia|]. apply to_u_range. lia. Qed.

Lemma splitmix_inj x y : u_range 64 x -> u_range 64 y -> splitmix x = splitmix y -> x = y.
Proof.
  intros Hx Hy. unfold splitmix. cbv zeta. intros H. apply xor_shift_inj in H; [|lia|apply to_u_range; lia..].
  apply (mul_inj _ 3573116690164977347) in H; [|vm_compute; done|apply xor_shift_range; [lia|apply to_u_range; lia]..].
  apply xor_shift_inj in H; [|lia|apply to_u_range; lia..].
  apply (mul_inj _ 10871156337175269513) in H; [|vm_compute; done|apply xor_shift_range; [lia|done]..].
  by apply xor_shift_inj in H; [|lia|..].
Qed.

(** The state after some additions. *)
Definition state_after (state k : Z) : Z := to_u 64 (state + k * kGamma).

Lemma state_after_range state k : u_range 64 (state_after state k).
Proof. apply to_u_range. lia. Qed.

Lemma state_after_add state j k : state_after (state_after state j) k = state_after state (j + k).
Proof. unfold state_after, to_u. rewrite Z.add_mod_idemp_l by lia. f_equal. lia. Qed.

Lemma state_after_inj state j k : 0 <= k - j < 2 ^ 64 -> state_after state j = state_after state k -> j = k.
Proof.
  intros Hjk Heq. assert (Hzero : to_u 64 ((k - j) * kGamma) = to_u 64 (0 * kGamma)).
  { unfold state_after, to_u in *. rewrite Z.mul_0_l. change (0 mod 2 ^ 64) with 0.
    replace ((k - j) * kGamma) with (state + k * kGamma - (state + j * kGamma)) by lia.
    rewrite Zminus_mod, Heq, Z.sub_diag. done. }
  apply (mul_inj kGamma 17428512612931826493) in Hzero; [lia|vm_compute; done|split; lia|split; lia].
Qed.

Lemma splitmix_zero : splitmix 0 = 0.
Proof. vm_compute. done. Qed.

(** A draw adds once or twice, and gives the mix of the state it leaves. *)
Lemma next_nonzero_spec state :
  u_range 64 state ->
  exists k, 1 <= k <= 2 /\ next_nonzero state = (splitmix (state_after state k), state_after state k) /\ splitmix (state_after state k) <> 0.
Proof.
  intros Hs. unfold next_nonzero. cbn [next_loop]. cbv zeta.
  assert (E1 : to_u 64 (state + kGamma) = state_after state 1) by (unfold state_after; f_equal; lia). rewrite E1.
  destruct (Z.eqb_spec (splitmix (state_after state 1)) 0) as [H1|H1]; [|exists 1; split_and!; [lia..|done|done]].
  assert (E2 : to_u 64 (state_after state 1 + kGamma) = state_after state 2) by
    (change 2 with (1 + 1); rewrite <- state_after_add; unfold state_after at 3; f_equal; lia). rewrite E2.
  assert (H2 : splitmix (state_after state 2) <> 0).
  { intros H2. rewrite <- H1 in H2. apply splitmix_inj in H2; [|apply state_after_range..].
    symmetry in H2. apply state_after_inj in H2; [lia|lia]. }
  rewrite (proj2 (Z.eqb_neq _ _) H2). exists 2. split_and!; [lia..|done|done].
Qed.

(** The results of so many draws. *)
Fixpoint drawn (n : nat) (state : Z) : list Z :=
  match n with O => [] | S n => let '(id, state) := next_nonzero state in id :: drawn n state end.

Lemma drawn_states n state :
  u_range 64 state ->
  Forall (fun id => exists k, 1 <= k <= 2 * Z.of_nat n /\ id = splitmix (state_after state k)) (drawn n state).
Proof.
  revert state. induction n as [|n IH]; intros state Hs; [constructor|]. cbn [drawn].
  destruct (next_nonzero_spec state Hs) as (k & Hk & -> & _). constructor; [exists k; split; [lia|done]|].
  eapply Forall_impl; [apply IH, state_after_range|]. cbn beta. intros id (j & Hj & ->). exists (k + j). split; [lia|]. by rewrite state_after_add.
Qed.

(** The search for an identifier that is not zero ends, in two turns at most; the identifiers are of 64
    bits, not zero, and those of [2 ^ 63] draws from any seed are all different. *)
Theorem identifiers_fresh (n : nat) (seed : Z) (Hn : Z.of_nat n <= 2 ^ 63) (Hseed : u_range 64 seed) :
  NoDup (drawn n seed) /\ Forall (fun id => u_range 64 id /\ id <> 0) (drawn n seed).
Proof.
  revert seed Hn Hseed. induction n as [|n IH]; intros seed Hn Hseed; [split; constructor|]. cbn [drawn].
  destruct (next_nonzero_spec seed Hseed) as (k & Hk & -> & Hne).
  destruct (IH (state_after seed k) ltac:(lia) (state_after_range _ _)) as [Hnd Hall]. split.
  - constructor; [|done]. intros Hin. pose proof (drawn_states n _ (state_after_range seed k)) as Hstates.
    rewrite Forall_forall in Hstates. destruct (Hstates _ Hin) as (j & Hj & Heq). rewrite state_after_add in Heq.
    apply splitmix_inj in Heq; [|apply state_after_range..]. apply state_after_inj in Heq; lia.
  - constructor; [|done]. split; [apply splitmix_range, state_after_range|done].
Qed.

Lemma identifiers_fresh_witness : NoDup (drawn 3 0) /\ Forall (fun id => u_range 64 id /\ id <> 0) (drawn 3 0).
Proof.
  assert (Hn : Z.of_nat 3 <= 2 ^ 63) by (vm_compute; discriminate). assert (Hs : u_range 64 0) by (split; lia).
  exact (identifiers_fresh 3 0 Hn Hs).
Defined.

(** ** Every span ends once *)

Section Once.
Context {G : Type} {IG : IdGenerator G}.
Implicit Types (s : Span) (spans : gmap nat Span).

Definition context_of (s : Span) : list SpanContext := if sn_tracer s then [sd_context (sn_data s)] else [].
Definition contexts (spans : gmap nat Span) : list SpanContext := concat (context_of <$> (map_to_list spans).*2).
Definition end_context (e : SpanEnd) : SpanContext := match e with Emitted d | Dropped d => sd_context d end.

#[local] Instance concat_perm : Proper ((≡ₚ) ==> (≡ₚ)) (@concat SpanContext).
Proof.
  induction 1 as [|x l k _ IH|x y l|l k m _ IH1 _ IH2]; [done| | |by rewrite IH1, IH2]; cbn.
  - by rewrite IH.
  - rewrite !app_assoc. by rewrite (Permutation_app_comm y x).
Qed.

Lemma contexts_delete v s spans : spans !! v = Some s -> contexts spans ≡ₚ context_of s ++ contexts (delete v spans).
Proof. intros H. unfold contexts. by rewrite <- (map_to_list_delete spans v s H). Qed.

Lemma contexts_insert v s spans : contexts (<[v := s]> spans) ≡ₚ context_of s ++ contexts (delete v spans).
Proof. rewrite (contexts_delete v s) by apply lookup_insert_eq. by rewrite delete_insert_eq. Qed.

Lemma end_gives sink at_ s : end_context <$> (span_end sink at_ s).2 = context_of s.
Proof. unfold span_end, context_of. destruct (sn_tracer s), at_, sink; done. Qed.

Lemma ended_silent sink at_ s : context_of (span_end sink at_ s).1 = [].
Proof. unfold span_end, context_of. destruct (sn_tracer s) eqn:E, at_; cbn; by rewrite ?E. Qed.

Lemma held_gives sink v at_ spans : (end_context <$> end_held sink v at_ spans) ++ contexts (delete v spans) ≡ₚ contexts spans.
Proof.
  unfold end_held. destruct (spans !! v) as [s|] eqn:Hv; [rewrite end_gives; symmetry; by apply contexts_delete|by rewrite delete_id].
Qed.

(** What has been started is what is alive and what has ended. *)
Definition accounted (w : Spans G) : Prop := ss_started w ≡ₚ (end_context <$> ss_ended w) ++ contexts (ss_spans w).

Lemma start_accounted sink v at_ s ids' ids spans ended started :
  sn_tracer s = true -> accounted (MkSpans ids spans ended started) ->
  accounted (MkSpans ids' (<[v := s]> spans) (ended ++ end_held sink v at_ spans) (started ++ [sd_context (sn_data s)])).
Proof.
  intros Hs. unfold accounted. cbn [ss_started ss_ended ss_spans]. intros ->. rewrite contexts_insert, fmap_app.
  rewrite <- (held_gives sink v at_ spans). unfold context_of. rewrite Hs, <- !app_assoc.
  apply Permutation_app_head, Permutation_app_head. by rewrite Permutation_app_comm.
Qed.

Lemma alter_lookup (f : Span -> Span) v spans s : spans !! v = Some s -> alter f v spans = <[v := f s]> spans.
Proof. intros H. apply map_eq. intros i. destruct (decide (i = v)) as [->|]; [by rewrite lookup_alter_eq, lookup_insert_eq, H|by rewrite lookup_alter_ne, lookup_insert_ne]. Qed.

Lemma span_call_accounted sink c w : accounted w -> accounted (span_call sink c w).
Proof.
  destruct w as [ids spans ended started]. intros Hw. destruct c as [v name sampled now at_|v parent name now at_|v from at_|v a|v at_|v at_];
    cbn [span_call].
  - unfold start_root. destruct (new_trace_id ids) as [trace ids1]. destruct (new_span_id ids1) as [span ids2]. by eapply start_accounted.
  - unfold start_child. destruct (new_span_id ids) as [span ids1]. by eapply start_accounted.
  - destruct (spans !! from) as [s|] eqn:Hfrom; [|done]. destruct (Nat.eqb_spec v from) as [|Hne]; [done|].
    unfold accounted in *. cbn [ss_started ss_ended ss_spans] in *. rewrite Hw, contexts_insert, fmap_app.
    rewrite delete_insert_ne by done. rewrite contexts_insert. cbn [context_of sn_tracer app].
    rewrite <- (held_gives sink v at_ spans), (contexts_delete from s (delete v spans)) by (by rewrite lookup_delete_ne).
    by rewrite <- !app_assoc.
  - destruct (spans !! v) as [s|] eqn:Hv; [|by rewrite alter_id'].
    unfold accounted in *. cbn [ss_started ss_ended ss_spans] in *. rewrite (alter_lookup _ v spans s Hv), Hw, contexts_insert.
    rewrite (contexts_delete v s spans Hv). unfold set_attribute, context_of. by destruct (sn_tracer s) eqn:E; rewrite ?E.
  - destruct (spans !! v) as [s|] eqn:Hv.
    + unfold accounted in *. cbn [ss_started ss_ended ss_spans] in *. rewrite (alter_lookup _ v spans s Hv), Hw, contexts_insert, ended_silent, fmap_app.
      by rewrite <- (held_gives sink v at_ spans), <- !app_assoc.
    + unfold end_held. rewrite Hv, app_nil_r. by rewrite alter_id'.
  - unfold accounted in *. cbn [ss_started ss_ended ss_spans] in *. rewrite Hw, fmap_app. by rewrite <- (held_gives sink v at_ spans), <- !app_assoc.
Qed.

(** Whatever a program does with its spans -- starts roots and children, moves them between variables,
    adds attributes, ends them more than once, lets them go out of scope -- each one that was started is
    either alive in one variable or has ended once: none is lost, none is exported twice, whatever throws. *)
Theorem spans_end_once (sink : bool) (ids : G) (calls : list SpanCall) :
  accounted (foldl (fun w c => span_call sink c w) (MkSpans ids ∅ [] []) calls).
Proof.
  assert (H : accounted (MkSpans ids ∅ [] [])) by (unfold accounted, contexts; cbn; by rewrite map_to_list_empty). revert H. generalize (MkSpans ids (∅ : gmap nat Span) [] []).
  induction calls as [|c calls IH]; intros w Hw; [done|]. cbn. by apply IH, span_call_accounted.
Qed.
End Once.
